(* ===== verification/_CoqProject ===== *)
-Q . S2P
Prelude.v
Ring.v
Types.v
MessageQueue.v
Timer.v
CString.v
SkynetModule.v
Handle.v
Node.v
Server.v
Commands.v
NodeInv.v
NodeOps.v
Sending.v
Dispatching.v
Delivery.v
Worker.v
Launch.v
System.v
Address.v
Bytes.v
Des.v
Crypt.v
Sha1.v
Netpack.v
Seri.v
SprotoPack.v
Sproto.v
SprotoMessage.v
SprotoEncode.v
SprotoDecode.v
SprotoCodec.v
SprotoImport.v
Conc.v
Locks.v
Stm.v
StmInv.v
StmSafe.v
StmSystem.v
State.v
Socket.v
SocketServer.v
SocketBuffer.v
SocketStream.v
SocketInv.v
SocketSystem.v
SocketReports.v
SkynetSocket.v
Varint.v
Chain.v
PbcMap.v
PbcSp.v
PbcContext.v
PbcAlloc.v
PbcProto.v
PbcDecode.v
PbcCalls.v
