(* ===== verification/Prelude.v ===== *)
(** * Skynet, verified

    A verification library for the C core of skynet (skynet-1.2.0: an actor
    framework in which services exchange messages) and of the pbc library
    (pbc-master: protocol buffers), as they stand in this repository.  Every
    definition that models code names its C function; the functions are
    executable, and the theorems are proved about them.

    ** The parts and where they are

    A skynet process is one node.  A service is a context (skynet_server.c) that
    is registered under a 32-bit handle (skynet_handle.c) and owns a mailbox
    (skynet_mq.c).  A message is sent by handle; it goes to the end of the mailbox,
    and a mailbox with messages is linked into a global queue, from which worker
    threads (skynet_start.c) take it, hand messages to the service's callback and
    put it back.  A timer thread (skynet_timer.c) sends messages when timers expire,
    a monitor thread (skynet_monitor.c) looks for workers that are stuck.  Contexts
    are counted references; the last release frees them and marks the mailbox, and
    the worker that finds a marked mailbox drops it.

    - Ring, Types, CString: circular arrays read as lists; skynet.h and the message
      struct; strings of C, strtoul, sscanf and the conversions of printf.
    - MessageQueue: skynet_mq.c, a store of mailboxes ([mqworld]) linked by address.
    - Timer: skynet_timer.c, the timing wheel ([timer]).
    - SkynetModule: skynet_module.c, the table of modules and the search path.
    - Handle: skynet_handle.c, the hash table of contexts and the sorted names; it
      sees contexts through the class [Contexts], whose laws are [LawfulContexts].
    - Node: the state of the process ([node]: the parts above, contexts, memory
      blocks, monitors, environment, the harbor's service), the state monad [M]
      with failure, the class [Services] of the code that is not here, reference
      counting and skynet_env.c.  It is an instance of [Contexts].
    - Server: skynet_server.c up to the commands, with skynet_harbor.c, skynet_error.c,
      skynet_monitor.c and the timer thread's calls.
    - Commands: the nineteen text commands of skynet_server.c, skynet_log.c's opening
      and closing of files, and the start of a node (skynet_start.c, bootstrap).
    - NodeInv, NodeOps, Sending, Dispatching, Worker, Launch: the invariant [inv] of
      a node and its preservation, step by step, up to skynet_send,
      skynet_context_message_dispatch and skynet_context_new.
    - Delivery: what it means that a service gets a message ([gets_message]), said of the
      states before, at and after the call of its callback, without the dispatcher.
    - System: the threads over one node ([step], [run]) and what they guarantee.
    - Address: handles and names as texts, written and read back.
    - State, Socket, SocketServer, SocketBuffer, SocketStream, SocketInv,
      SocketSystem: the socket server (socket_server.c, socket_poll.h): the state
      [ss] with its 65536 slots and buffers, the system calls as the class [Kernel],
      the request and event handlers in the state monad of State, the write buffers
      and the stream they put out, the invariant [inv], and the calls of the threads
      against the socket thread ([world], [do_op], [reach]).
    - SocketReports, SkynetSocket: skynet_socket.c, the reports of the socket server
      turned into messages of the services that own the sockets, and lunpack of
      lua-socket.c, with which a service reads them.
    - Netpack: lua-netpack.c, packages with a length of two bytes; Seri: lua-seri.c,
      Lua values as bytes.
    - SprotoPack: the packing of zeros of sproto.c.  Sproto: its types, queries,
      sproto_encode and sproto_decode, with the callback as a function, and the size and
      pointer arithmetic as it is; SprotoMessage: messages as values and the
      memory they are written to; SprotoEncode, SprotoDecode: one record written and
      read, the callback being seen through the class [Sender]; SprotoCodec: the two together, for
      whole messages; SprotoImport: sproto_create, the descriptions read from a bundle.
    - Conc: programs of single memory accesses, run under a schedule, and a logic for them
      ([safe]); Locks: rwlock.h and spinlock.h; Stm, StmInv, StmSafe, StmSystem: lua-stm.c, a
      message shared by services, at that level.
    - Bytes, Des, Crypt: lualib-src/lua-crypt.c; Sha1: lualib-src/lsha1.c.
    - Varint, Chain, PbcMap, PbcSp, PbcContext, PbcAlloc, PbcProto, PbcDecode: pbc's
      varint.c, map.c, context.c, alloc.c, stringpool.c, array.c, proto.c, decode.c.
      PbcCalls: the contract of decoding ([field_calls]), said of fields and
      their descriptions.

    ** What the theorems show

    - The node (System): for every service code within its law and every order of
      the threads' rounds nothing fails and the invariant holds; mailboxes are
      never lost nor served twice at a time; message blocks have one owner; a round
      hands the first messages of a mailbox to the callback, in order, each with its own
      fields; skynet_send and skynet_context_new on every path.  Address: REG then QUERY
      and what every name stands for at each step, and the round trips of addresses.
    - Mailboxes, timers and handles refine a list of messages, a list of pending
      timers, and two maps; overload alarm, release, clock update, fresh handles.
    - Sockets: for every lawful kernel and every order of the allowed calls, requests
      and events, no handler fails and the invariant holds; the bytes that leave a TCP
      socket are those of whole packages, one behind the other; a socket that is
      closed is reported; what the server reports is one message of the owner, from which
      lunpack reads the report, and the blocks that carry data have one owner.
    - Netpack gives the packages that were framed, whatever the pieces the stream
      comes in; unpacking a packed sequence of Lua values gives the sequence.
    - Sproto: packing round trips and stays in its bounds, unpacking is safe on every input;
      encoding writes the bytes of the message or says that the buffer is too small;
      decoding what was encoded makes the calls of the message, and decoding any bytes
      reads only the bytes; an accepted bundle gives well-formed types.
    - The two locks exclude what they are to exclude in every interleaving of their
      instructions; services that share a message with lua-stm.c use nothing that is
      freed and read newer and newer messages, as long as one of them alone drops readers.
    - DES decrypts what it encrypted and refuses bad padding; the Diffie-Hellman
      exchange agrees; base64 round trip and bounds; MD5 and SHA-1 against their
      reference definitions, whatever the pieces the input comes in.
    - Varints and zigzag numbers round trip; pbc's maps refine finite maps, growth and
      iteration included; a message context finds the fields of every well-formed
      message and stays in bounds on every input; heap, pool and array give what
      they were given; decoding makes the calls that the descriptions say, packed and
      unknown fields included, or stops at a text that is not one.

    ** Conventions

    - An unsigned w-bit value is a [Z] in [0, 2^w), wrapped where it is computed; a
      signed [int] is an unbounded [Z] (its overflow is undefined) except where the
      code relies on it wrapping (the session counter), which is written out.
    - A result [None] (or [Undef]) is what C leaves undefined or aborts on: an
      access through NULL or out of bounds, a freed block, a failed assert.
      Theorems say that it does not occur.  Memory that was never written is a
      [None] cell or an arbitrary parameter.
    - Allocation succeeds; addresses are numbers, 0 is NULL, and an address is
      not given out twice.
    - An operation under a lock is one atomic step, and so is a round of a thread in
      System; the interleavings inside rounds are not covered, and the findings name
      races that are known.  That the locks make such steps is the theorem of Locks.  In
      Locks and Stm every access is a step, and all threads see the accesses in one order (a
      weaker order of the machine is not covered).
    - Service code (callbacks, entry points of modules), dlopen, fopen and clocks are the
      class [Services]; [LawfulServices], [SafeCallbacks] and [SafeModules] say what
      is relied on: it returns, keeps the invariant, and leaves its caller's
      references, blocks and mailboxes alone.  System.Demo has a service that
      satisfies them.
    - The socket server asks the system through [Kernel], whose law is [LawfulKernel]
      (no call reads or writes more than its buffer);
      the answer of a failed trylock is one of its answers, EMFILE stands for EMFILE and
      ENFILE.  A call of a thread is one step up to its request, which is then in
      flight in the pipe; an iteration of the socket thread's loop is one step.
      Tables of Lua are seen through [LuaTables] and its laws.
    - printf for debugging is left out; what is written to a log file is recorded in
      [n_out]; functions that only free at exit have no definition.
    - Fuel: [dispatch_loop] has one unit for every message of the mailbox and one more;
      [_drop_queue] the capacity of the mailbox; [overload_loop] and the loops
      of the maps the size of their table; [write_digits] 64 digits; each bound is
      enough by the theorem on the function, which gives a result, not only says
      what a result is.

    ** Not modelled

    Of the core: kqueue, the condition
    variable of the workers and the creation of threads, daemon and main, the memory
    hooks (malloc_hook.c), the text skynet_log_output writes.  Of lualib-src: the bindings (lua-skynet.c,
    lua-socket.c but lunpack, and others), the memory pool and sproto_dump of sproto and the callbacks of lsproto.c, lua-bson.c, lua-cluster.c,
    lua-sharedata.c, lua-datasheet.c, lua-multicast.c, lua-debugchannel.c.
    Of service-src: service_snlua.c, service_gate.c, service_harbor.c,
    service_logger.c.  Of pbc: bootstrap.c and register.c, the readers and writers rmessage.c and
    wmessage.c, pattern.c, and the bindings.  Not part of this program: the Lua
    interpreter, lpeg, md5 and jemalloc under 3rd, the Lua scripts, and
    rocketmqRouter (C++). *)

From stdpp Require Export base list gmap strings numbers option relations.
From Stdlib Require Export ZArith Lia Bool.

Create HintDb skynet.
Create Rewrite HintDb zlen.
#[export] Set Default Goal Selector "!".
#[export] Unset Lia Cache.

(** ** Fixed-width integers

    An unsigned w-bit C value is a [Z] in [0, 2^w); arithmetic on it is done in
    [Z] and wrapped explicitly.  Signed overflow is undefined in C, so signed
    values are plain [Z]; a conversion to a signed type is written [sgn]. *)

Declare Scope word_scope.
Delimit Scope word_scope with word.

Definition wrap (w z : Z) : Z := (z mod 2 ^ w)%Z.
Definition u8 (z : Z) : Z := wrap 8 z.
Definition u16 (z : Z) : Z := wrap 16 z.
Definition u32 (z : Z) : Z := wrap 32 z.
Definition u64 (z : Z) : Z := wrap 64 z.

(** Two's complement reading of the low [w] bits. *)
Definition sgn (w z : Z) : Z :=
  let m := wrap w z in if (m <? 2 ^ (w - 1))%Z then m else (m - 2 ^ w)%Z.
Definition i8 (z : Z) : Z := sgn 8 z.
Definition i32 (z : Z) : Z := sgn 32 z.
Definition i64 (z : Z) : Z := sgn 64 z.

Notation "x << n" := (Z.shiftl x n) (at level 35, no associativity) : word_scope.
Notation "x >> n" := (Z.shiftr x n) (at level 35, no associativity) : word_scope.
Notation "x .& y" := (Z.land x y) (at level 40, left associativity) : word_scope.
Notation "x .^ y" := (Z.lxor x y) (at level 45, left associativity) : word_scope.
Notation "x .| y" := (Z.lor x y) (at level 50, left associativity) : word_scope.

Definition is_u (w z : Z) : Prop := (0 <= z < 2 ^ w)%Z.
Abbreviation is_u8 := (is_u 8).
Abbreviation is_u16 := (is_u 16).
Abbreviation is_u32 := (is_u 32).
Abbreviation is_u64 := (is_u 64).

#[export] Instance is_u_dec w z : Decision (is_u w z).
Proof. unfold is_u. apply _. Defined.

(** C truth values. *)
Definition b2i (b : bool) : Z := if b then 1%Z else 0%Z.

(** Bitwise identities, bit by bit. *)
Ltac zbits :=
  apply Z.bits_inj'; let i := fresh "i" in let Hi := fresh "Hi" in intros i Hi;
  repeat (rewrite Z.land_spec || rewrite Z.lor_spec || rewrite Z.lxor_spec ||
          rewrite Z.ldiff_spec || rewrite Z.bits_0);
  repeat match goal with |- context [Z.testbit ?a ?b] => destruct (Z.testbit a b) end;
  try reflexivity.

Section words.
Local Open Scope Z_scope.

Lemma wrap_range w z : 0 <= w -> is_u w (wrap w z).
Proof. intros. unfold is_u, wrap. apply Z.mod_pos_bound. apply Z.pow_pos_nonneg; lia. Qed.

Lemma wrap_small w z : is_u w z -> wrap w z = z.
Proof. intros. unfold wrap. apply Z.mod_small. auto. Qed.


Lemma wrap_idemp w z : 0 <= w -> wrap w (wrap w z) = wrap w z.
Proof. intros. apply wrap_small, wrap_range. done. Qed.

Lemma wrap_add_l w a b : wrap w (wrap w a + b) = wrap w (a + b).
Proof. unfold wrap. apply Zplus_mod_idemp_l. Qed.
Lemma wrap_add_r w a b : wrap w (a + wrap w b) = wrap w (a + b).
Proof. unfold wrap. apply Zplus_mod_idemp_r. Qed.

Lemma wrap_land w z : 0 <= w -> Z.land z (2 ^ w - 1) = wrap w z.
Proof.
  intros. unfold wrap. rewrite <- Z.land_ones by done.
  by rewrite Z.ones_equiv, <- Z.sub_1_r.
Qed.

Lemma land_255 z : Z.land z 255 = z mod 256.
Proof. apply (wrap_land 8). lia. Qed.
Lemma land_63 z : Z.land z 63 = z mod 64.
Proof. apply (wrap_land 6). lia. Qed.
Lemma land_7 z : Z.land z 7 = z mod 8.
Proof. apply (wrap_land 3). lia. Qed.
Lemma land_15 z : Z.land z 15 = z mod 16.
Proof. apply (wrap_land 4). lia. Qed.
Lemma land_3 z : Z.land z 3 = z mod 4.
Proof. apply (wrap_land 2). lia. Qed.
Lemma land_1 z : Z.land z 1 = z mod 2.
Proof. apply (wrap_land 1). lia. Qed.
Lemma land_127 z : Z.land z 127 = z mod 128.
Proof. apply (wrap_land 7). lia. Qed.

Lemma wrap_add_pow w z k : 0 <= w -> wrap w (z + k * 2 ^ w) = wrap w z.
Proof. intros. unfold wrap. apply Z_mod_plus_full. Qed.

Lemma sgn_range w z : 0 < w -> - 2 ^ (w - 1) <= sgn w z < 2 ^ (w - 1).
Proof.
  intros. unfold sgn. pose proof (wrap_range w z ltac:(lia)) as [??].
  assert (2 ^ w = 2 * 2 ^ (w - 1)) by (rewrite <- Z.pow_succ_r by lia; f_equal; lia).
  destruct (Z.ltb_spec (wrap w z) (2 ^ (w - 1))); lia.
Qed.

Lemma sgn_small w z : 0 < w -> - 2 ^ (w - 1) <= z < 2 ^ (w - 1) -> sgn w z = z.
Proof.
  intros Hw Hz. unfold sgn, wrap.
  assert (2 ^ w = 2 * 2 ^ (w - 1)) as Hp by (rewrite <- Z.pow_succ_r by lia; f_equal; lia).
  destruct (Z.le_gt_cases 0 z).
  - rewrite Z.mod_small by lia. destruct (Z.ltb_spec z (2 ^ (w - 1))); lia.
  - replace (z mod 2 ^ w) with (z + 2 ^ w).
    + destruct (Z.ltb_spec (z + 2 ^ w) (2 ^ (w - 1))); lia.
    + apply (Z.mod_unique_pos z (2 ^ w) (-1)); lia.
Qed.

Lemma sgn_wrap w z : 0 <= w -> sgn w (wrap w z) = sgn w z.
Proof. intros. unfold sgn. by rewrite wrap_idemp. Qed.

(** A disjoint [lor] is a sum. *)
Lemma lor_add a b : Z.land a b = 0 -> Z.lor a b = a + b.
Proof. intros. rewrite <- Z.lxor_lor by done. symmetry. by apply Z.add_nocarry_lxor. Qed.

Lemma lor_shiftl_add lo hi n : 0 <= n -> is_u n lo -> Z.lor lo (Z.shiftl hi n) = lo + hi * 2 ^ n.
Proof.
  intros Hn Hlo. rewrite lor_add; [by rewrite Z.shiftl_mul_pow2|].
  apply Z.bits_inj'. intros i Hi. rewrite Z.land_spec, Z.bits_0, Z.shiftl_spec by done.
  destruct (Z.lt_ge_cases i n).
  - rewrite (Z.testbit_neg_r _ (i - n)) by lia. apply andb_false_r.
  - rewrite <- (Z.mod_small lo (2 ^ n)) by done. rewrite Z.mod_pow2_bits_high by lia. done.
Qed.

Lemma land_bound a m : 0 <= m -> 0 <= Z.land a m <= m.
Proof.
  intros. split; [apply Z.land_nonneg; lia|].
  pose proof (Z.lor_ldiff_and m a) as Hm. rewrite lor_add in Hm.
  - assert (0 <= Z.ldiff m a) by (apply Z.ldiff_nonneg; lia). rewrite Z.land_comm. lia.
  - zbits.
Qed.

Lemma is_u_land w z m : 0 <= w -> is_u w m -> is_u w (Z.land z m).
Proof. intros ? []. pose proof (land_bound z m). unfold is_u in *. lia. Qed.

Lemma is_u_iff w z : 0 <= w -> is_u w z <-> Z.land z (Z.ones w) = z.
Proof.
  intros. rewrite Z.land_ones by done. split.
  - intros. by apply Z.mod_small.
  - intros <-. apply Z.mod_pos_bound, Z.pow_pos_nonneg; lia.
Qed.

Lemma is_u_lxor w a b : 0 <= w -> is_u w a -> is_u w b -> is_u w (Z.lxor a b).
Proof.
  intros ?. rewrite !is_u_iff by done. intros Ha Hb.
  rewrite <- Ha, <- Hb at 2. zbits.
Qed.

Lemma is_u_lor w a b : 0 <= w -> is_u w a -> is_u w b -> is_u w (Z.lor a b).
Proof.
  intros ?. rewrite !is_u_iff by done. intros Ha Hb. rewrite Z.land_lor_distr_l. by rewrite Ha, Hb.
Qed.

Lemma is_u_shiftr w z n : 0 <= n -> is_u w z -> is_u w (Z.shiftr z n).
Proof.
  unfold is_u. intros. rewrite Z.shiftr_div_pow2 by done.
  pose proof (Z.pow_pos_nonneg 2 n). split; [apply Z.div_pos; lia|].
  eapply Z.le_lt_trans; [apply Z.div_le_upper_bound with (q := z); nia|lia].
Qed.

Lemma lor_shiftl_add' lo hi n : 0 <= n -> is_u n lo -> Z.lor (Z.shiftl hi n) lo = lo + hi * 2 ^ n.
Proof. intros. rewrite Z.lor_comm. by apply lor_shiftl_add. Qed.
End words.

#[export] Hint Resolve wrap_range : skynet.

(** ** Arrays indexed by C integers

    An access out of bounds is undefined in C: it is [None] here, so a theorem
    that an operation returns [Some _] also says that it stays in bounds. *)

Section arrays.
Context {A : Type}.
Local Open Scope Z_scope.
Implicit Types (l : list A) (i j : Z) (x y : A).

Definition zlen (l : list A) : Z := Z.of_nat (length l).
Definition zget (l : list A) (i : Z) : option A :=
  if i <? 0 then None else l !! Z.to_nat i.
Definition zset (l : list A) (i : Z) (x : A) : option (list A) :=
  if (0 <=? i) && (i <? zlen l) then Some (<[Z.to_nat i := x]> l) else None.

Lemma zget_in l i x : zget l i = Some x -> 0 <= i < zlen l.
Proof.
  unfold zget, zlen. destruct (Z.ltb_spec i 0); [done|].
  intros ?%lookup_lt_Some. lia.
Qed.

Lemma zget_is_Some l i : 0 <= i < zlen l -> is_Some (zget l i).
Proof.
  unfold zget, zlen. intros. destruct (Z.ltb_spec i 0); [lia|].
  apply lookup_lt_is_Some. lia.
Qed.

Lemma zget_nat l (n : nat) : zget l (Z.of_nat n) = l !! n.
Proof. unfold zget. destruct (Z.ltb_spec (Z.of_nat n) 0); [lia|]. by rewrite Nat2Z.id. Qed.

Lemma zget_nonneg l i : 0 <= i -> zget l i = l !! Z.to_nat i.
Proof. unfold zget. destruct (Z.ltb_spec i 0); [lia|done]. Qed.

Lemma zset_eq l i x : 0 <= i < zlen l -> zset l i x = Some (<[Z.to_nat i := x]> l).
Proof.
  intros. unfold zset.
  destruct (Z.leb_spec 0 i), (Z.ltb_spec i (zlen l)); simpl; done || lia.
Qed.

Lemma zset_Some l i x l' :
  zset l i x = Some l' -> 0 <= i < zlen l /\ l' = <[Z.to_nat i := x]> l.
Proof.
  unfold zset. destruct (Z.leb_spec 0 i), (Z.ltb_spec i (zlen l)); simpl; by intros [= <-].
Qed.

Lemma zlen_insert l (n : nat) x : zlen (<[n := x]> l) = zlen l.
Proof. unfold zlen. by rewrite length_insert. Qed.

Lemma zget_insert_eq l i x : 0 <= i < zlen l -> zget (<[Z.to_nat i := x]> l) i = Some x.
Proof.
  unfold zlen. intros. rewrite zget_nonneg by lia.
  apply list_lookup_insert_eq. lia.
Qed.

Lemma zget_insert_ne l i j x :
  0 <= i -> i <> j -> zget (<[Z.to_nat i := x]> l) j = zget l j.
Proof.
  intros. unfold zget. destruct (Z.ltb_spec j 0); [done|].
  apply list_lookup_insert_ne. lia.
Qed.

Lemma zget_ext l1 l2 :
  zlen l1 = zlen l2 -> (forall i, 0 <= i < zlen l1 -> zget l1 i = zget l2 i) -> l1 = l2.
Proof.
  unfold zlen. intros Hl Hg. apply list_eq. intros n.
  destruct (decide (n < length l1)%nat).
  - rewrite <- !zget_nat. apply Hg. lia.
  - rewrite !lookup_ge_None_2; [done|lia..].
Qed.

Lemma zget_none l i : zlen l <= i -> zget l i = None.
Proof.
  unfold zlen. intros. rewrite zget_nonneg by lia. apply lookup_ge_None_2. lia.
Qed.

Lemma zget_app_l l1 l2 i : i < zlen l1 -> zget (l1 ++ l2) i = zget l1 i.
Proof.
  unfold zlen, zget. intros. destruct (Z.ltb_spec i 0); [done|].
  apply lookup_app_l. lia.
Qed.
Lemma zget_app_r l1 l2 i : zlen l1 <= i -> zget (l1 ++ l2) i = zget l2 (i - zlen l1).
Proof.
  unfold zlen. intros. rewrite !zget_nonneg by lia. rewrite lookup_app_r by lia.
  f_equal. lia.
Qed.
Lemma zget_cons_0 x l : zget (x :: l) 0 = Some x.
Proof. done. Qed.
Lemma zget_replicate n x i : 0 <= i < Z.of_nat n -> zget (replicate n x) i = Some x.
Proof. intros. rewrite zget_nonneg by lia. apply lookup_replicate_2. lia. Qed.
Lemma zget_insert l i j x :
  0 <= i < zlen l -> zget (<[Z.to_nat i := x]> l) j = if j =? i then Some x else zget l j.
Proof.
  intros. destruct (Z.eqb_spec j i) as [->|]; [by apply zget_insert_eq|].
  apply zget_insert_ne; lia.
Qed.

Lemma zlen_nonneg l : 0 <= zlen l.
Proof. unfold zlen. lia. Qed.
Lemma zlen_app l1 l2 : zlen (l1 ++ l2) = zlen l1 + zlen l2.
Proof. unfold zlen. rewrite length_app. lia. Qed.
Lemma zlen_cons x l : zlen (x :: l) = 1 + zlen l.
Proof. unfold zlen. simpl. lia. Qed.
Lemma zlen_nil : zlen (@nil A) = 0.
Proof. done. Qed.
Lemma zlen_replicate n x : zlen (replicate n x) = Z.of_nat n.
Proof. unfold zlen. by rewrite length_replicate. Qed.
Lemma zget_take n l i : i < n -> zget (take (Z.to_nat n) l) i = zget l i.
Proof.
  intros. unfold zget. destruct (Z.ltb_spec i 0); [done|]. apply lookup_take_lt. lia.
Qed.
Lemma zget_drop n l i : 0 <= n -> 0 <= i -> zget (drop (Z.to_nat n) l) i = zget l (n + i).
Proof. intros. rewrite !zget_nonneg by lia. rewrite lookup_drop. f_equal. lia. Qed.
Lemma zlen_take n l : 0 <= n <= zlen l -> zlen (take (Z.to_nat n) l) = n.
Proof. unfold zlen. intros. rewrite length_take. lia. Qed.
Lemma zlen_drop n l : 0 <= n <= zlen l -> zlen (drop (Z.to_nat n) l) = zlen l - n.
Proof. unfold zlen. intros. rewrite length_drop. lia. Qed.

(** A list with one more element at index [p]. *)
Lemma zget_insert_at l x p i :
  0 <= p <= zlen l -> 0 <= i ->
  zget (take (Z.to_nat p) l ++ x :: drop (Z.to_nat p) l) i =
  if i <? p then zget l i else if i =? p then Some x else zget l (i - 1).
Proof.
  intros Hp Hi. pose proof (zlen_take p l Hp) as Hl.
  destruct (Z.ltb_spec i p).
  - rewrite zget_app_l by lia. by apply zget_take.
  - rewrite zget_app_r, Hl by lia. destruct (Z.eqb_spec i p) as [->|].
    + by rewrite Z.sub_diag.
    + rewrite !(zget_nonneg _ (i - p)) by lia.
      replace (Z.to_nat (i - p)) with (S (Z.to_nat (i - p - 1))) by lia. simpl.
      rewrite <- zget_nonneg by lia. rewrite zget_drop by lia. f_equal. lia.
Qed.

(** Consecutive stores from index [i] on. *)
Definition splice l i xs : list A :=
  take (Z.to_nat i) l ++ xs ++ drop (Z.to_nat i + length xs) l.

Lemma splice_nil l i : splice l i [] = l.
Proof. unfold splice. rewrite Nat.add_0_r. apply take_drop. Qed.

Lemma splice_cons l i x xs : 0 <= i < zlen l ->
  splice (<[Z.to_nat i := x]> l) (i + 1) xs = splice l i (x :: xs).
Proof.
  unfold zlen, splice. intros Hi. rewrite insert_take_drop by lia.
  replace (Z.to_nat (i + 1)) with (Z.to_nat i + 1)%nat by lia.
  rewrite take_app_add' by (rewrite length_take; lia). rewrite <- app_assoc. f_equal. simpl. f_equal. f_equal.
  rewrite drop_app_ge by (rewrite length_take; lia). rewrite length_take.
  replace (Z.to_nat i + 1 + length xs - Z.to_nat i `min` length l)%nat with (S (length xs)) by lia.
  cbn [drop]. rewrite drop_drop. f_equal. lia.
Qed.

Lemma zlen_splice l i xs : 0 <= i -> i + zlen xs <= zlen l -> zlen (splice l i xs) = zlen l.
Proof.
  unfold zlen, splice. intros. rewrite !length_app, length_take, length_drop. lia.
Qed.
End arrays.

Lemma zlen_fmap {A B} (f : A -> B) (l : list A) : zlen (f <$> l) = zlen l.
Proof. unfold zlen. by rewrite length_fmap. Qed.

#[export] Hint Rewrite @zlen_app @zlen_cons @zlen_nil @zlen_replicate @zlen_insert : zlen.
#[export] Hint Resolve zlen_nonneg : skynet.

(** Simplifies lengths everywhere and closes the linear goal. *)
Ltac zlen_lia := autorewrite with zlen in *; try lia.

(** Proves a decidable proposition by evaluating it. *)
Ltac by_eval := match goal with |- ?P => apply (bool_decide_eq_true_1 P); vm_compute; reflexivity end.

(** ** Case analysis on the boolean tests the code makes *)

Ltac zcase :=
  match goal with
  | |- context [(?a <? ?b)%Z] => destruct (Z.ltb_spec a b)
  | |- context [(?a <=? ?b)%Z] => destruct (Z.leb_spec a b)
  | |- context [(?a =? ?b)%Z] => destruct (Z.eqb_spec a b)
  | H : context [(?a <? ?b)%Z] |- _ => destruct (Z.ltb_spec a b)
  | H : context [(?a <=? ?b)%Z] |- _ => destruct (Z.leb_spec a b)
  | H : context [(?a =? ?b)%Z] |- _ => destruct (Z.eqb_spec a b)
  end.
Ltac zcases := repeat (zcase; simpl in *; try lia).

(** Unfolds one step of an option computation whose argument is known. *)
Ltac opt_inv :=
  repeat match goal with
  | H : None = Some _ |- _ => discriminate H
  | H : Some _ = None |- _ => discriminate H
  | H : Some _ = Some _ |- _ => injection H as H; subst
  | H : _ ≫= _ = Some _ |- _ => apply bind_Some in H; destruct H as (? & ? & ?)
  | H : _ <$> _ = Some _ |- _ => apply fmap_Some in H; destruct H as (? & ? & ?)
  | x : _ * _ |- _ => destruct x
  end; simpl in *.

(** A C [assert]: the computation stops when it fails. *)
Definition c_assert (b : bool) : option unit := if b then Some tt else None.

Lemma c_assert_true b : b = true -> c_assert b = Some tt.
Proof. by intros ->. Qed.

(** What a function called from Lua does: return, raise an error, or run into
    undefined behaviour. *)
Inductive outcome (A : Type) := Ret (a : A) | Raise (msg : string) | Undef.
Arguments Ret {A} _.
Arguments Raise {A} _.
Arguments Undef {A}.

#[export] Instance outcome_ret : MRet outcome := @Ret.
#[export] Instance outcome_bind : MBind outcome := fun A B f m =>
  match m with Ret a => f a | Raise msg => Raise msg | Undef => Undef end.

(** One step of a computation, as an equation: rewriting with these keeps the
    rest of the computation folded. *)
Lemma some_bind {A B} (f : A -> option B) a : (Some a ≫= f) = f a.
Proof. done. Qed.
Lemma none_bind {A B} (f : A -> option B) : (None ≫= f) = None.
Proof. done. Qed.
Lemma ret_bind {A B} (f : A -> outcome B) a : (Ret a ≫= f) = f a.
Proof. done. Qed.
Lemma raise_bind {A B} (f : A -> outcome B) msg : (Raise msg ≫= f) = Raise msg.
Proof. done. Qed.

(** An access the C code makes without a check. *)
Definition chk {A} (o : option A) : outcome A :=
  match o with Some a => Ret a | None => Undef end.

Lemma chk_some {A} (a : A) : chk (Some a) = Ret a.
Proof. done. Qed.

(** ** Filters *)

Lemma filter_none {A} (P : A -> Prop) `{!forall x, Decision (P x)} (l : list A) :
  (forall x, x ∈ l -> ~ P x) -> filter P l = [].
Proof.
  induction l as [|x l IH]; intros Hno; [done|]. rewrite filter_cons, decide_False.
  - apply IH. intros y Hy. apply Hno. by apply list_elem_of_further.
  - apply Hno, list_elem_of_here.
Qed.

Lemma list_filter_iff_strong {A} (P Q : A -> Prop)
    `{!forall x, Decision (P x)} `{!forall x, Decision (Q x)} (l : list A) :
  (forall x, x ∈ l -> (P x <-> Q x)) -> filter P l = filter Q l.
Proof.
  induction l as [|x l IH]; intros Hpq; [done|]. rewrite !filter_cons, IH.
  - pose proof (Hpq x (list_elem_of_here _ _)). repeat case_decide; tauto || done.
  - intros y Hy. apply Hpq. by apply list_elem_of_further.
Qed.

Lemma Forall_filter {A} (P Q : A -> Prop) `{!forall x, Decision (Q x)} (l : list A) :
  Forall P l -> Forall P (filter Q l).
Proof. rewrite !Forall_forall. intros Hl x [_ Hx]%list_elem_of_filter. auto. Qed.

Lemma filter_perm_app {A} (P : A -> Prop) `{!forall x, Decision (P x)} (l : list A) :
  filter (fun x => ~ P x) l ++ filter P l ≡ₚ l.
Proof.
  induction l as [|x l IH]; [done|]. rewrite !filter_cons. destruct (decide (P x)).
  - rewrite (decide_False (P := ~ P x)) by tauto. by rewrite <- Permutation_middle, IH.
  - rewrite (decide_True (P := ~ P x)) by done. simpl. by rewrite IH.
Qed.

Lemma list_filter_Forall_all {A} (P : A -> Prop) `{!forall x, Decision (P x)} (l : list A) :
  Forall P l -> filter P l = l.
Proof. induction 1; [done|]. rewrite filter_cons, decide_True by done. by f_equal. Qed.

(** ** Invariants of step relations *)

Lemma rtc_invariant {S : Type} (step : relation S) (I : S -> Prop) s s' :
  (forall a b, I a -> step a b -> I b) -> I s -> rtc step s s' -> I s'.
Proof. intros Hstep Hs Hr. induction Hr; eauto. Qed.
