(* ===== verification/Ring.v ===== *)
(** Circular buffers.

    Three components of the code keep a growable circular buffer of their own
    (the service mailbox of skynet_mq.c, the package queue of lua-netpack.c and
    the pending queue of service_harbor.c).  This file holds what they share: a
    representation predicate that reads the buffer as a list, and the effect on
    it of writing at the tail, advancing the head and copying into a bigger
    array.  Cells hold an [option]: [None] is memory the code never wrote. *)

From S2P Require Import Prelude.
Local Open Scope Z_scope.

Section ring.
Context {A : Type}.
Implicit Types (data : list (option A)) (xs : list A) (head cap : Z).

(** [xs] are the elements found from [head] on, wrapping at [cap]. *)
Definition ring_rep (cap head : Z) data xs : Prop :=
  zlen data = cap /\ 0 <= head < cap /\ zlen xs <= cap /\
  forall (i : nat) x, xs !! i = Some x ->
    zget data ((head + Z.of_nat i) mod cap) = Some (Some x).

Lemma ring_rep_nil cap head data :
  zlen data = cap -> 0 <= head < cap -> ring_rep cap head data [].
Proof. intros. repeat split; try done; try lia. unfold zlen; simpl; lia. Qed.

Lemma ring_rep_bounds cap head data xs :
  ring_rep cap head data xs -> zlen data = cap /\ 0 <= head < cap /\ 0 <= zlen xs <= cap.
Proof. intros (?&?&?&?). unfold zlen in *. lia. Qed.

Lemma ring_rep_head cap head data x xs :
  ring_rep cap head data (x :: xs) -> zget data head = Some (Some x).
Proof.
  intros (?&?&?&Hget). specialize (Hget 0%nat x eq_refl).
  by rewrite Z.add_0_r, Z.mod_small in Hget.
Qed.

Lemma ring_rep_pop cap head data x xs :
  ring_rep cap head data (x :: xs) -> ring_rep cap ((head + 1) mod cap) data xs.
Proof.
  intros (?&?&Hlen&Hget). rewrite zlen_cons in Hlen.
  repeat split; try done; try (apply Z.mod_pos_bound; lia); try lia.
  intros i y Hi. specialize (Hget (S i) y Hi).
  rewrite Zplus_mod_idemp_l. rewrite <- Hget. f_equal. f_equal. lia.
Qed.

(** The distance between two positions of the buffer is less than its size. *)
Lemma ring_pos_inj cap head i j :
  0 < cap -> 0 <= i < cap -> 0 <= j < cap ->
  (head + i) mod cap = (head + j) mod cap -> i = j.
Proof.
  intros Hc Hi Hj Heq.
  assert ((head + i - (head + j)) mod cap = 0) as Hd
    by (rewrite Zminus_mod, Heq, Z.sub_diag; apply Zmod_0_l).
  replace (head + i - (head + j)) with (i - j) in Hd by lia.
  apply Z.mod_divide in Hd; [|lia]. destruct Hd as [k Hk].
  assert (k = 0) by nia. lia.
Qed.

Lemma ring_rep_push cap head data xs x data' :
  ring_rep cap head data xs -> zlen xs < cap ->
  zset data ((head + zlen xs) mod cap) (Some x) = Some data' ->
  ring_rep cap head data' (xs ++ [x]).
Proof.
  intros (Hd&?&Hlen&Hget) Hlt [Hb ->]%zset_Some.
  repeat split; try lia; [by rewrite zlen_insert|zlen_lia|].
  intros i y Hi. apply lookup_app_Some in Hi as [Hi|[Hge Hi]].
  - pose proof (lookup_lt_Some _ _ _ Hi).
    rewrite zget_insert_ne; [by apply Hget|lia|].
    intros Heq%ring_pos_inj; unfold zlen in *; lia.
  - apply list_lookup_singleton_Some in Hi as [Hi <-].
    replace (Z.of_nat i) with (zlen xs) by (unfold zlen; lia).
    by apply zget_insert_eq.
Qed.

Lemma ring_push_in_bounds cap head data xs x :
  ring_rep cap head data xs ->
  is_Some (zset data ((head + zlen xs) mod cap) (Some x)).
Proof.
  intros (?&?&?&?). rewrite zset_eq; [by eexists|].
  pose proof (Z.mod_pos_bound (head + zlen xs) cap). lia.
Qed.

(** Copying the elements to the front of another array, as every growing step
    does: [copy] holds element [i] of the ring at index [i]. *)
Lemma ring_rep_copy cap head data xs cap' copy :
  ring_rep cap head data xs -> zlen copy = cap' -> cap <= cap' ->
  (forall i : Z, 0 <= i < zlen xs -> zget copy i = zget data ((head + i) mod cap)) ->
  ring_rep cap' 0 copy xs.
Proof.
  intros (?&?&?&Hget) ?? Hcopy. repeat split; try lia.
  intros i x Hi. pose proof (lookup_lt_Some _ _ _ Hi).
  rewrite Z.add_0_l, Z.mod_small by (unfold zlen in *; lia).
  rewrite Hcopy by (unfold zlen in *; lia). by apply Hget.
Qed.

(** The copying loop of every growing step: [n] cells of [q], read from
    [head + i] on with wrap-around at [cap], are stored in [nq] from [i] on. *)
Fixpoint copy_loop (n : nat) (i head cap : Z) (q nq : list (option A))
  : option (list (option A)) :=
  match n with
  | O => Some nq
  | S n' =>
      x ← zget q (Z.rem (head + i) cap);
      nq' ← zset nq i x;
      copy_loop n' (i + 1) head cap q nq'
  end.

Lemma copy_loop_spec n i head cap q nq :
  0 < cap -> zlen q = cap -> 0 <= head -> 0 <= i -> i + Z.of_nat n <= zlen nq ->
  exists nq', copy_loop n i head cap q nq = Some nq' /\ zlen nq' = zlen nq /\
    (forall j, i <= j < i + Z.of_nat n -> zget nq' j = zget q ((head + j) mod cap)) /\
    (forall j, j < i -> zget nq' j = zget nq j).
Proof.
  intros Hc Hq Hh. revert i nq. induction n as [|n IH]; intros i nq Hi Hn.
  { exists nq. repeat split; done || lia. }
  simpl. rewrite Z.rem_mod_nonneg by lia.
  pose proof (Z.mod_pos_bound (head + i) cap Hc).
  destruct (zget_is_Some q ((head + i) mod cap) ltac:(lia)) as [x Hx].
  rewrite Hx; simpl. rewrite zset_eq by lia. simpl.
  destruct (IH (i + 1) (<[Z.to_nat i := x]> nq)) as (nq' & -> & Hl & Hin & Hout);
    [lia|rewrite zlen_insert; lia|].
  rewrite zlen_insert in Hl. exists nq'. repeat split; [done| |].
  - intros j Hj. destruct (decide (j = i)) as [->|]; [|apply Hin; lia].
    rewrite Hout by lia. rewrite Hx. apply zget_insert_eq. lia.
  - intros j Hj. rewrite Hout by lia. apply zget_insert_ne; lia.
Qed.
End ring.

#[export] Hint Resolve ring_rep_nil : skynet.
