(* ===== verification/Types.v ===== *)
(** Constants and the message type every component shares: skynet.h, the
    declarations of skynet_mq.h and skynet_handle.h.  [size_t] is 64 bits. *)

From S2P Require Import Prelude.
Local Open Scope Z_scope.

Definition PTYPE_TEXT : Z := 0.
Definition PTYPE_RESPONSE : Z := 1.
Definition PTYPE_MULTICAST : Z := 2.
Definition PTYPE_CLIENT : Z := 3.
Definition PTYPE_SYSTEM : Z := 4.
Definition PTYPE_HARBOR : Z := 5.
Definition PTYPE_SOCKET : Z := 6.
Definition PTYPE_ERROR : Z := 7.
Definition PTYPE_TAG_DONTCOPY : Z := 65536.      (* 0x10000 *)
Definition PTYPE_TAG_ALLOCSESSION : Z := 131072. (* 0x20000 *)

(** [SIZE_MAX >> 8] and [(sizeof(size_t)-1) * 8]. *)
Definition MESSAGE_TYPE_MASK : Z := 2 ^ 56 - 1.
Definition MESSAGE_TYPE_SHIFT : Z := 56.

Definition HANDLE_MASK : Z := 16777215.          (* 0xffffff *)
Definition HANDLE_REMOTE_SHIFT : Z := 24.

(** A C pointer is an address; 0 is NULL. *)
Record skynet_message := Msg {
  msg_source : Z;
  msg_session : Z;
  msg_data : Z;
  msg_sz : Z
}.

#[export] Instance skynet_message_eq_dec : EqDecision skynet_message.
Proof. solve_decision. Defined.

(** The message type sits in the high 8 bits of [sz]. *)
Definition msg_type (m : skynet_message) : Z := Z.shiftr (msg_sz m) MESSAGE_TYPE_SHIFT.
Definition msg_size (m : skynet_message) : Z := Z.land (msg_sz m) MESSAGE_TYPE_MASK.
Definition tag_sz (sz type : Z) : Z := u64 (Z.lor sz (Z.shiftl type MESSAGE_TYPE_SHIFT)).

Lemma size_fits_mask sz : 0 <= sz -> Z.land sz MESSAGE_TYPE_MASK = sz <-> sz < 2 ^ 56.
Proof.
  intros. unfold MESSAGE_TYPE_MASK. rewrite wrap_land by lia. split; intros Hs.
  - rewrite <- Hs. apply wrap_range. lia.
  - apply wrap_small. unfold is_u. lia.
Qed.

(** Packing a size and a type into [sz] loses neither. *)
Lemma tag_sz_spec sz type :
  is_u 56 sz -> is_u8 type ->
  tag_sz sz type = sz + type * 2 ^ 56 /\
  Z.shiftr (tag_sz sz type) MESSAGE_TYPE_SHIFT = type /\
  Z.land (tag_sz sz type) MESSAGE_TYPE_MASK = sz.
Proof.
  intros Hs Ht. unfold tag_sz, MESSAGE_TYPE_SHIFT, MESSAGE_TYPE_MASK, u64.
  rewrite lor_shiftl_add by (lia || done). unfold is_u in *.
  rewrite wrap_small by (unfold is_u; lia).
  split; [done|]. rewrite Z.shiftr_div_pow2, wrap_land by lia. unfold wrap. split.
  - rewrite Z.div_add by lia. rewrite Z.div_small; lia.
  - rewrite Z.mod_add by lia. apply Z.mod_small. lia.
Qed.
