(* ===== verification/MessageQueue.v ===== *)
(** Service mailboxes and the global queue: skynet-src/skynet_mq.c.

    Each service owns a mailbox, a growable circular buffer of messages.  The
    mailboxes that have work are linked, through their [next] field, in one
    global queue from which worker threads take them.  Every operation runs
    under the lock of the structure it changes, so it is one atomic function on
    the store [mqworld]. *)

From S2P Require Import Prelude Ring Types.
Local Open Scope Z_scope.

Definition DEFAULT_QUEUE_SIZE : Z := 64.
Definition MQ_IN_GLOBAL : Z := 1.
Definition MQ_OVERLOAD : Z := 1024.

Record message_queue := MkQueue {
  q_handle : Z;
  q_cap : Z;
  q_head : Z;
  q_tail : Z;
  q_release : Z;
  q_in_global : Z;
  q_overload : Z;
  q_overload_threshold : Z;
  q_queue : list (option skynet_message);
  q_next : Z
}.

Record global_queue := MkGlobal { gq_head : Z; gq_tail : Z }.

(** The mailboxes that are allocated, by address; [w_Q] is the static [Q];
    [w_brk] is the address the next allocation returns (addresses are not
    reused). *)
Record mqworld := MkWorld {
  w_heap : gmap Z message_queue;
  w_Q : global_queue;
  w_brk : Z
}.

(** Field assignments. *)
Definition set_next (q : message_queue) (p : Z) : message_queue :=
  MkQueue (q_handle q) (q_cap q) (q_head q) (q_tail q) (q_release q) (q_in_global q)
    (q_overload q) (q_overload_threshold q) (q_queue q) p.
Definition set_in_global (q : message_queue) (g : Z) : message_queue :=
  MkQueue (q_handle q) (q_cap q) (q_head q) (q_tail q) (q_release q) g
    (q_overload q) (q_overload_threshold q) (q_queue q) (q_next q).
Definition set_release (q : message_queue) (r : Z) : message_queue :=
  MkQueue (q_handle q) (q_cap q) (q_head q) (q_tail q) r (q_in_global q)
    (q_overload q) (q_overload_threshold q) (q_queue q) (q_next q).
Definition set_overload (q : message_queue) (o t : Z) : message_queue :=
  MkQueue (q_handle q) (q_cap q) (q_head q) (q_tail q) (q_release q) (q_in_global q)
    o t (q_queue q) (q_next q).
Definition set_ring (q : message_queue) (cap head tail : Z) (d : list (option skynet_message))
  : message_queue :=
  MkQueue (q_handle q) cap head tail (q_release q) (q_in_global q)
    (q_overload q) (q_overload_threshold q) d (q_next q).
Definition set_heap (w : mqworld) (h : gmap Z message_queue) : mqworld :=
  MkWorld h (w_Q w) (w_brk w).
Definition store (w : mqworld) (p : Z) (q : message_queue) : mqworld :=
  set_heap w (<[p := q]> (w_heap w)).
Definition set_Q (w : mqworld) (h t : Z) : mqworld :=
  MkWorld (w_heap w) (MkGlobal h t) (w_brk w).

(** ** The global queue *)

Definition skynet_globalmq_push (queue : Z) (w : mqworld) : option mqworld :=
  q ← w_heap w !! queue;
  _ ← c_assert (q_next q =? 0);
  if gq_tail (w_Q w) =? 0 then Some (set_Q w queue queue)
  else
    t ← w_heap w !! gq_tail (w_Q w);
    Some (set_Q (store w (gq_tail (w_Q w)) (set_next t queue)) (gq_head (w_Q w)) queue).

(** Returns 0 (NULL) when the global queue is empty. *)
Definition skynet_globalmq_pop (w : mqworld) : option (Z * mqworld) :=
  let mq := gq_head (w_Q w) in
  if mq =? 0 then Some (0, w)
  else
    q ← w_heap w !! mq;
    let head := q_next q in
    tail ← (if head =? 0
            then (_ ← c_assert (mq =? gq_tail (w_Q w)); Some 0)
            else Some (gq_tail (w_Q w)));
    Some (mq, store (set_Q w head tail) mq (set_next q 0)).

(** ** Mailboxes *)

Definition skynet_mq_create (handle : Z) (w : mqworld) : Z * mqworld :=
  let q := MkQueue handle DEFAULT_QUEUE_SIZE 0 0 0 MQ_IN_GLOBAL 0 MQ_OVERLOAD
             (replicate (Z.to_nat DEFAULT_QUEUE_SIZE) None) 0 in
  (w_brk w, MkWorld (<[w_brk w := q]> (w_heap w)) (w_Q w) (w_brk w + 1)).

Definition _release (p : Z) (w : mqworld) : option mqworld :=
  q ← w_heap w !! p;
  _ ← c_assert (q_next q =? 0);
  Some (set_heap w (delete p (w_heap w))).

Definition skynet_mq_handle (p : Z) (w : mqworld) : option Z :=
  q_handle <$> w_heap w !! p.

Definition queue_length (q : message_queue) : Z :=
  if q_head q <=? q_tail q then q_tail q - q_head q
  else q_tail q + q_cap q - q_head q.

Definition skynet_mq_length (p : Z) (w : mqworld) : option Z :=
  queue_length <$> w_heap w !! p.

Definition skynet_mq_overload (p : Z) (w : mqworld) : option (Z * mqworld) :=
  q ← w_heap w !! p;
  if q_overload q =? 0 then Some (0, w)
  else Some (q_overload q, store w p (set_overload q 0 (q_overload_threshold q))).

(** [while (length > threshold) { overload = length; threshold *= 2; }] *)
Fixpoint overload_loop (fuel : nat) (length overload threshold : Z) : option (Z * Z) :=
  if length <=? threshold then Some (overload, threshold)
  else match fuel with
       | O => None
       | S fuel' => overload_loop fuel' length length (threshold * 2)
       end.

Definition queue_pop (q : message_queue) : option (option skynet_message * message_queue) :=
  if q_head q =? q_tail q then
    (* reset overload_threshold when queue is empty *)
    Some (None, set_in_global (set_overload q (q_overload q) MQ_OVERLOAD) 0)
  else
    cell ← zget (q_queue q) (q_head q);
    message ← cell;
    let head1 := q_head q + 1 in
    let head := if q_cap q <=? head1 then 0 else head1 in
    let length0 := q_tail q - head in
    let length := if length0 <? 0 then length0 + q_cap q else length0 in
    '(o, t) ← overload_loop (Z.to_nat length) length (q_overload q) (q_overload_threshold q);
    Some (Some message,
          set_overload (set_ring q (q_cap q) head (q_tail q) (q_queue q)) o t).

(** [None] in the result is the return value 1 (no message), [Some m] is 0. *)
Definition skynet_mq_pop (p : Z) (w : mqworld) : option (option skynet_message * mqworld) :=
  q ← w_heap w !! p;
  '(r, q') ← queue_pop q;
  Some (r, store w p q').

Definition expand_queue (q : message_queue) : option message_queue :=
  new_queue ← copy_loop (Z.to_nat (q_cap q)) 0 (q_head q) (q_cap q) (q_queue q)
                (replicate (Z.to_nat (q_cap q * 2)) None);
  Some (set_ring q (q_cap q * 2) 0 (q_cap q) new_queue).

Definition queue_push (q : message_queue) (message : skynet_message) : option message_queue :=
  d ← zset (q_queue q) (q_tail q) (Some message);
  let tail := if q_cap q <=? q_tail q + 1 then 0 else q_tail q + 1 in
  let q1 := set_ring q (q_cap q) (q_head q) tail d in
  if q_head q1 =? q_tail q1 then expand_queue q1 else Some q1.

Definition skynet_mq_push (p : Z) (message : skynet_message) (w : mqworld) : option mqworld :=
  q ← w_heap w !! p;
  q1 ← queue_push q message;
  if q_in_global q1 =? 0
  then skynet_globalmq_push p (store w p (set_in_global q1 MQ_IN_GLOBAL))
  else Some (store w p q1).

Definition skynet_mq_init : mqworld := MkWorld ∅ (MkGlobal 0 0) 1.

Definition skynet_mq_mark_release (p : Z) (w : mqworld) : option mqworld :=
  q ← w_heap w !! p;
  _ ← c_assert (q_release q =? 0);
  let w1 := store w p (set_release q 1) in
  if q_in_global q =? MQ_IN_GLOBAL then Some w1 else skynet_globalmq_push p w1.

(** ** Release

    The drop function runs in the state of the whole node, of which the mailbox
    store is a part; [HasMQ] is what this file needs to know of that state. *)

Class HasMQ (S : Type) := {
  get_mq : S -> mqworld;
  put_mq : mqworld -> S -> S;
  get_put_mq : forall w s, get_mq (put_mq w s) = w;
  put_put_mq : forall w w' s, put_mq w (put_mq w' s) = put_mq w s;
  put_get_mq : forall s, put_mq (get_mq s) s = s
}.

#[export] Instance mqworld_has_mq : HasMQ mqworld.
Proof. refine {| get_mq w := w; put_mq w _ := w |}; done. Defined.

Section release.
Context {S : Type} `{!HasMQ S}.
Context (drop_func : skynet_message -> S -> option S).

(** The loop ends when the mailbox is empty; [fuel] bounds the messages it
    drops. *)
Fixpoint _drop_queue (fuel : nat) (p : Z) (s : S) : option S :=
  '(r, w) ← skynet_mq_pop p (get_mq s);
  match r with
  | None => w' ← _release p w; Some (put_mq w' s)
  | Some msg =>
      match fuel with
      | O => None
      | Datatypes.S fuel' =>
          s' ← drop_func msg (put_mq w s);
          _drop_queue fuel' p s'
      end
  end.

Definition skynet_mq_release (fuel : nat) (p : Z) (s : S) : option S :=
  q ← w_heap (get_mq s) !! p;
  if negb (q_release q =? 0) then _drop_queue fuel p s
  else w ← skynet_globalmq_push p (get_mq s); Some (put_mq w s).
End release.

(** ** A mailbox is a list of messages *)

Definition q_rep (q : message_queue) (xs : list skynet_message) : Prop :=
  ring_rep (q_cap q) (q_head q) (q_queue q) xs /\
  q_tail q = (q_head q + zlen xs) mod q_cap q /\
  zlen xs < q_cap q /\ 1 <= q_overload_threshold q.

(** Everything of a mailbox but its link, its flags and its messages. *)
Definition same_queue (q q' : message_queue) : Prop :=
  set_next q 0 = set_next q' 0.

Lemma q_rep_next q xs p : q_rep q xs -> q_rep (set_next q p) xs.
Proof. done. Qed.
Lemma q_rep_in_global q xs g : q_rep q xs -> q_rep (set_in_global q g) xs.
Proof. done. Qed.
Lemma q_rep_release q xs r : q_rep q xs -> q_rep (set_release q r) xs.
Proof. done. Qed.
Lemma q_rep_overload q xs o t : q_rep q xs -> 1 <= t -> q_rep (set_overload q o t) xs.
Proof. intros (?&?&?&?) ?. done. Qed.
#[export] Hint Resolve q_rep_next q_rep_in_global q_rep_release : skynet.

Lemma q_rep_tail_bound q xs : q_rep q xs -> 0 <= q_tail q < q_cap q.
Proof. intros (Hr & -> & ?). apply ring_rep_bounds in Hr. apply Z.mod_pos_bound. lia. Qed.

(** Head and tail are equal exactly when the mailbox is empty. *)
Lemma q_rep_empty q xs : q_rep q xs -> (q_head q = q_tail q <-> xs = []).
Proof.
  intros (Hr & Ht & ? & ?). pose proof (ring_rep_bounds _ _ _ _ Hr). rewrite Ht. split.
  - intros Heq. destruct xs as [|x xs]; [done|].
    assert (zlen (x :: xs) = 0); [|rewrite zlen_cons in *; pose proof (zlen_nonneg xs); lia].
    symmetry. apply (ring_pos_inj (q_cap q) (q_head q)); [lia..|].
    by rewrite Z.add_0_r, Z.mod_small by lia.
  - intros ->. rewrite zlen_nil, Z.add_0_r, Z.mod_small; lia.
Qed.

Lemma q_rep_length q xs : q_rep q xs -> queue_length q = zlen xs.
Proof.
  intros (Hr & Ht & ? & ?). pose proof (ring_rep_bounds _ _ _ _ Hr). unfold queue_length.
  rewrite Ht. pose proof (zlen_nonneg xs).
  destruct (Z.lt_ge_cases (q_head q + zlen xs) (q_cap q)).
  - rewrite Z.mod_small by lia. zcases.
  - replace ((q_head q + zlen xs) mod q_cap q) with (q_head q + zlen xs - q_cap q).
    + zcases.
    + apply (Z.mod_unique_pos _ _ 1); lia.
Qed.

(** *** The overload loop *)

Lemma overload_loop_le fuel length o t : length <= t -> overload_loop fuel length o t = Some (o, t).
Proof. intros. destruct fuel; simpl; zcases; done. Qed.

(** With fuel for its iterations the loop ends with the smallest doubling of the
    threshold that reaches the length. *)
Lemma overload_loop_spec fuel length o t :
  1 <= t -> length <= t * 2 ^ Z.of_nat fuel ->
  exists k : nat,
    overload_loop fuel length o t = Some (if length <=? t then o else length, t * 2 ^ Z.of_nat k) /\
    length <= t * 2 ^ Z.of_nat k /\
    (forall j : nat, (j < k)%nat -> t * 2 ^ Z.of_nat j < length).
Proof.
  revert o t. induction fuel as [|fuel IH]; intros o t Ht Hl.
  { exists 0%nat. change (2 ^ Z.of_nat 0) with 1 in *. rewrite overload_loop_le by lia.
    repeat split; [|lia|lia]. zcases. do 2 f_equal. lia. }
  simpl. destruct (Z.leb_spec length t).
  { exists 0%nat. simpl. rewrite Z.mul_1_r. repeat split; lia. }
  destruct (IH length (t * 2)) as (k & Hk & ? & Hmin); [lia| |].
  { rewrite Nat2Z.inj_succ, Z.pow_succ_r in Hl by lia. lia. }
  exists (Datatypes.S k).
  assert (forall j, t * 2 * 2 ^ Z.of_nat j = t * 2 ^ Z.of_nat (Datatypes.S j)) as Hpow
    by (intros j; rewrite Nat2Z.inj_succ, Z.pow_succ_r by lia; lia).
  rewrite Hk. repeat split.
  - rewrite Hpow. destruct (Z.leb_spec length (t * 2)); done.
  - by rewrite <- Hpow.
  - intros [|j] Hj; [simpl; lia|]. rewrite <- Hpow. apply Hmin. lia.
Qed.

Lemma pow2_ge_nat (n : nat) : Z.of_nat n < 2 ^ Z.of_nat n.
Proof. apply Z.pow_gt_lin_r; lia. Qed.

Lemma overload_fuel length t :
  1 <= t -> 0 <= length -> length <= t * 2 ^ Z.of_nat (Z.to_nat length).
Proof. intros. pose proof (pow2_ge_nat (Z.to_nat length)). rewrite Z2Nat.id in * by done. nia. Qed.

(** *** Pop and push *)

Lemma queue_pop_nil q :
  q_rep q [] ->
  queue_pop q = Some (None, set_in_global (set_overload q (q_overload q) MQ_OVERLOAD) 0).
Proof.
  intros Hr. pose proof (proj2 (q_rep_empty _ _ Hr) eq_refl) as He. unfold queue_pop.
  rewrite (proj2 (Z.eqb_eq _ _) He). done.
Qed.

Lemma wrap_step cap head :
  0 <= head < cap -> (if cap <=? head + 1 then 0 else head + 1) = (head + 1) mod cap.
Proof.
  intros. destruct (Z.leb_spec cap (head + 1)).
  - replace (head + 1) with cap by lia. by rewrite Z_mod_same_full.
  - rewrite Z.mod_small; lia.
Qed.

Lemma queue_pop_cons_k q x xs :
  q_rep q (x :: xs) ->
  exists q' (k : nat), queue_pop q = Some (Some x, q') /\
    (q_rep q' xs /\ q_handle q' = q_handle q /\ q_next q' = q_next q /\
     q_in_global q' = q_in_global q /\ q_release q' = q_release q) /\
    q_overload_threshold q' = q_overload_threshold q * 2 ^ Z.of_nat k /\
    zlen xs <= q_overload_threshold q * 2 ^ Z.of_nat k /\
    (forall j : nat, (j < k)%nat -> q_overload_threshold q * 2 ^ Z.of_nat j < zlen xs) /\
    q_overload q' = (if zlen xs <=? q_overload_threshold q then q_overload q else zlen xs).
Proof.
  intros Hr. pose proof Hr as (Hring & Ht & Hlt & Hthr).
  pose proof (ring_rep_bounds _ _ _ _ Hring) as (? & ? & ?).
  unfold queue_pop. destruct (Z.eqb_spec (q_head q) (q_tail q)) as [He|He].
  { apply (q_rep_empty _ _ Hr) in He. done. }
  rewrite (ring_rep_head _ _ _ _ _ Hring). simpl. rewrite wrap_step by lia.
  set (q1 := set_ring q (q_cap q) ((q_head q + 1) mod q_cap q) (q_tail q) (q_queue q)).
  rewrite zlen_cons in Hlt, Ht.
  assert (q_rep q1 xs) as Hr1.
  { repeat split; simpl; try (by apply (ring_rep_pop _ _ _ _ _ Hring)); try lia.
    rewrite Ht, Zplus_mod_idemp_l. f_equal. lia. }
  pose proof (q_rep_length _ _ Hr1) as Hlen. unfold queue_length in Hlen. simpl in Hlen.
  pose proof (zlen_nonneg xs).
  match goal with |- context [overload_loop (Z.to_nat ?l) _ _ _] => replace l with (zlen xs) end.
  2: { destruct (Z.leb_spec ((q_head q + 1) mod q_cap q) (q_tail q)); zcases. }
  destruct (overload_loop_spec (Z.to_nat (zlen xs)) (zlen xs) (q_overload q)
              (q_overload_threshold q)) as (k & -> & ? & ?);
    [done|by apply overload_fuel|].
  pose proof (Z.pow_pos_nonneg 2 (Z.of_nat k)).
  eexists _, k. split; [done|]. split_and!; try done.
  apply (q_rep_overload q1); [done|nia].
Qed.

Lemma queue_pop_cons q x xs :
  q_rep q (x :: xs) ->
  exists q', queue_pop q = Some (Some x, q') /\ q_rep q' xs /\
    q_handle q' = q_handle q /\ q_next q' = q_next q /\
    q_in_global q' = q_in_global q /\ q_release q' = q_release q.
Proof.
  intros Hr. destruct (queue_pop_cons_k q x xs Hr) as (q' & k & ? & (? & ?) & _). eauto.
Qed.

Lemma expand_queue_spec q xs :
  ring_rep (q_cap q) (q_head q) (q_queue q) xs -> zlen xs = q_cap q ->
  1 <= q_overload_threshold q ->
  exists d, expand_queue q = Some (set_ring q (q_cap q * 2) 0 (q_cap q) d) /\
    q_rep (set_ring q (q_cap q * 2) 0 (q_cap q) d) xs.
Proof.
  intros Hr Hl Hthr. pose proof (ring_rep_bounds _ _ _ _ Hr) as (? & ? & ?).
  unfold expand_queue.
  destruct (copy_loop_spec (Z.to_nat (q_cap q)) 0 (q_head q) (q_cap q) (q_queue q)
      (replicate (Z.to_nat (q_cap q * 2)) None)) as (d & Hd & Hdl & Hin & _);
    [lia|lia|lia|lia|rewrite zlen_replicate; lia|].
  rewrite zlen_replicate in Hdl. exists d. rewrite Hd. split; [done|].
  repeat split; simpl; try lia.
  - intros i x Hi. destruct Hr as (_ & _ & _ & Hget). pose proof (lookup_lt_Some _ _ _ Hi).
    unfold zlen in Hl. rewrite Z.add_0_l, Z.mod_small by lia.
    rewrite Hin by lia. by apply Hget.
  - rewrite Hl, Z.mod_small; lia.
Qed.

Lemma queue_push_spec q xs x :
  q_rep q xs ->
  exists q', queue_push q x = Some q' /\ q_rep q' (xs ++ [x]) /\
    q_handle q' = q_handle q /\ q_next q' = q_next q /\
    q_in_global q' = q_in_global q /\ q_release q' = q_release q /\
    q_overload q' = q_overload q /\ q_overload_threshold q' = q_overload_threshold q.
Proof.
  intros Hr. pose proof (q_rep_tail_bound _ _ Hr) as Htb.
  pose proof Hr as (Hring & Ht & Hlt & Hthr).
  pose proof (ring_rep_bounds _ _ _ _ Hring) as (? & ? & ?).
  unfold queue_push. rewrite Ht.
  destruct (ring_push_in_bounds _ _ _ _ x Hring) as [d Hd]. rewrite Hd. simpl.
  pose proof (ring_rep_push _ _ _ _ _ _ Hring Hlt Hd) as Hring'.
  rewrite wrap_step by (apply Z.mod_pos_bound; lia). rewrite Zplus_mod_idemp_l.
  set (q1 := set_ring q _ _ _ _).
  assert (q_tail q1 = (q_head q1 + zlen (xs ++ [x])) mod q_cap q) as Ht1.
  { simpl. f_equal. zlen_lia. }
  destruct (Z.eqb_spec (q_head q) ((q_head q + zlen xs + 1) mod q_cap q)) as [He|He].
  - assert (zlen (xs ++ [x]) = q_cap q) as Hfull.
    { destruct (decide (zlen (xs ++ [x]) = q_cap q)) as [|Hne]; [done|exfalso].
      assert (0 = zlen (xs ++ [x])); [|zlen_lia].
      apply (ring_pos_inj (q_cap q) (q_head q)); [lia|lia|zlen_lia|].
      simpl in Ht1. rewrite <- Ht1, <- He, Z.add_0_r, Z.mod_small; lia. }
    destruct (expand_queue_spec q1 (xs ++ [x])) as (d' & -> & ?); [done..|].
    eexists. split; [done|]. split; [done|]. repeat split.
  - eexists. split; [done|]. repeat split; try done; try apply Hring'; try lia.
    assert (zlen (xs ++ [x]) <> q_cap q) as Hne; [|zlen_lia; simpl; lia].
    intros Hfull. apply He. rewrite Hfull in Ht1. simpl in Ht1. rewrite Ht1.
    rewrite <- Z.add_mod_idemp_r, Z_mod_same_full, Z.add_0_r, Z.mod_small; lia.
Qed.

(** ** Abstract specification of the store

    A mailbox is its handle, its messages and its two flags; the global queue is
    a list of mailboxes without repetition. *)

Record aqueue := AQ {
  a_handle : Z;
  a_msgs : list skynet_message;
  a_in_global : Z;
  a_release : Z
}.
Definition a_set_msgs (a : aqueue) (xs : list skynet_message) (g : Z) : aqueue :=
  AQ (a_handle a) xs g (a_release a).

Definition q_abs (q : message_queue) (a : aqueue) : Prop :=
  q_rep q (a_msgs a) /\ q_handle q = a_handle a /\
  q_in_global q = a_in_global a /\ q_release q = a_release a.

(** The links spell the list [gq]; a mailbox outside it is not linked. *)
Definition links (heap : gmap Z message_queue) (gq : list Z) : Prop :=
  NoDup gq /\
  (forall i p, gq !! i = Some p ->
     p <> 0 /\ exists q, heap !! p = Some q /\ q_next q = default 0 (gq !! S i)) /\
  (forall p q, heap !! p = Some q -> p ∉ gq -> q_next q = 0).

Definition gq_rep (w : mqworld) (gq : list Z) : Prop :=
  links (w_heap w) gq /\
  gq_head (w_Q w) = default 0 (head gq) /\ gq_tail (w_Q w) = default 0 (last gq).

Definition world_rep (w : mqworld) (gq : list Z) (qs : gmap Z aqueue) : Prop :=
  gq_rep w gq /\
  (forall p, option_Forall2 q_abs (w_heap w !! p) (qs !! p)) /\
  (forall p, is_Some (w_heap w !! p) -> 0 < p < w_brk w) /\ 0 < w_brk w.

Lemma world_rep_lookup w gq qs p a :
  world_rep w gq qs -> qs !! p = Some a -> exists q, w_heap w !! p = Some q /\ q_abs q a.
Proof.
  intros (_ & Hqs & _) Ha. specialize (Hqs p). rewrite Ha in Hqs.
  inversion Hqs; subst. eauto.
Qed.

Lemma world_rep_nonnull w gq qs p : world_rep w gq qs -> is_Some (w_heap w !! p) -> p <> 0.
Proof. intros (_&_&Hb&_) Hs. apply Hb in Hs. lia. Qed.

Lemma world_rep_intro w gq qs :
  links (w_heap w) gq ->
  gq_head (w_Q w) = default 0 (head gq) -> gq_tail (w_Q w) = default 0 (last gq) ->
  (forall p, option_Forall2 q_abs (w_heap w !! p) (qs !! p)) ->
  (forall p, is_Some (w_heap w !! p) -> 0 < p < w_brk w) -> 0 < w_brk w ->
  world_rep w gq qs.
Proof. intros. split_and!; [split_and!|..]; done. Qed.

(** Changing one mailbox without touching its link. *)
Lemma links_store heap gq p q q' :
  links heap gq -> heap !! p = Some q -> q_next q' = q_next q -> links (<[p := q']> heap) gq.
Proof.
  intros (Hnd & Hin & Hout) Hp Hn. split; [done|]. split.
  - intros i r Hi. destruct (Hin i r Hi) as (? & qr & ? & Hnext). split; [done|].
    destruct (decide (p = r)) as [<-|]; simplify_map_eq; eauto with congruence.
  - intros r qr Hr Hni. destruct (decide (p = r)) as [<-|]; simplify_map_eq; [|eauto].
    rewrite Hn. eauto.
Qed.

Lemma bounds_insert {V} (heap : gmap Z V) p q v brk :
  (forall r, is_Some (heap !! r) -> 0 < r < brk) -> heap !! p = Some v ->
  forall r, is_Some (<[p := q]> heap !! r) -> 0 < r < brk.
Proof.
  intros Hb Hp r Hr. apply Hb. destruct (decide (p = r)) as [<-|]; [by eexists|].
  by rewrite lookup_insert_ne in Hr.
Qed.

Lemma world_rep_store w gq qs p q q' a' :
  world_rep w gq qs -> w_heap w !! p = Some q -> q_next q' = q_next q -> q_abs q' a' ->
  world_rep (store w p q') gq (<[p := a']> qs).
Proof.
  intros ((Hl & Hh & Ht) & Hqs & Hb & ?) Hp Hn Ha. apply world_rep_intro; simpl; try done.
  - by eapply links_store.
  - intros r. destruct (decide (p = r)) as [<-|]; simplify_map_eq; [by constructor|apply Hqs].
  - by eapply bounds_insert.
Qed.

Lemma links_push heap gq p q :
  links heap gq -> p ∉ gq -> p <> 0 -> heap !! p = Some q ->
  links (match last gq with
         | None => heap
         | Some t => match heap !! t with
                     | Some qt => <[t := set_next qt p]> heap
                     | None => heap
                     end
         end) (gq ++ [p]).
Proof.
  intros (Hnd & Hin & Hout) Hp H0 Hq.
  assert (NoDup (gq ++ [p])) as Hnd'.
  { apply NoDup_app. split_and!; [done| |apply NoDup_singleton].
    intros x Hx ->%list_elem_of_singleton. done. }
  destruct (last gq) as [t|] eqn:Hlast.
  2: { apply last_None in Hlast as ->. split; [done|]. simpl. split.
    - intros [|i] r Hi; simplify_eq/=. split; [done|]. exists q. split; [done|].
      apply (Hout r q); [done|apply not_elem_of_nil].
    - intros r qr Hr _. apply (Hout r qr); [done|apply not_elem_of_nil]. }
  rewrite last_lookup in Hlast. pose proof (Hin _ _ Hlast) as (_ & qt & Ht & _). rewrite Ht.
  assert (t ∈ gq) as Htin by (by eapply list_elem_of_lookup_2).
  assert (t <> p) as Htp by (intros ->; done).
  split; [done|]. split.
  - intros i r Hi. apply lookup_app_Some in Hi as [Hi|[Hge Hi]].
    + destruct (Hin i r Hi) as (? & qr & Hr & Hnext). split; [done|].
      destruct (decide (t = r)) as [<-|Htr].
      * exists (set_next qt p). rewrite lookup_insert_eq. split; [done|]. simpl.
        assert (i = Nat.pred (length gq)) as ->
          by (by apply (NoDup_lookup gq i (Nat.pred (length gq)) t)).
        pose proof (lookup_lt_Some _ _ _ Hi).
        rewrite lookup_app_r by lia.
        replace (S (Nat.pred (length gq)) - length gq)%nat with 0%nat by lia. done.
      * exists qr. rewrite lookup_insert_ne by done. split; [done|]. rewrite Hnext.
        rewrite lookup_app_l; [done|].
        pose proof (lookup_lt_Some _ _ _ Hi).
        destruct (decide (i = Nat.pred (length gq))); [congruence|lia].
    + apply list_lookup_singleton_Some in Hi as [Hi <-]. split; [done|].
      exists q. rewrite lookup_insert_ne by done. split; [done|].
      rewrite lookup_ge_None_2 by (rewrite length_app; simpl; lia). by apply (Hout p).
  - intros r qr Hr Hni. rewrite elem_of_app, list_elem_of_singleton in Hni.
    rewrite lookup_insert_ne in Hr by (intros <-; tauto). apply (Hout r qr); tauto.
Qed.

Lemma globalmq_push_spec w gq qs p a :
  world_rep w gq qs -> qs !! p = Some a -> p ∉ gq ->
  exists w', skynet_globalmq_push p w = Some w' /\ world_rep w' (gq ++ [p]) qs /\
    w_brk w' = w_brk w.
Proof.
  intros Hw Ha Hp. pose proof (world_rep_lookup _ _ _ _ _ Hw Ha) as (q & Hq & Hqa).
  pose proof (world_rep_nonnull _ _ _ p Hw ltac:(eauto)) as H0.
  pose proof Hw as ((Hl & Hh & Ht) & Hqs & Hb & Hbrk).
  pose proof (links_push _ _ _ _ Hl Hp H0 Hq) as Hl'.
  unfold skynet_globalmq_push. rewrite Hq. simpl.
  rewrite (proj2 (proj2 Hl) p q) by done. simpl. rewrite Ht.
  destruct (last gq) as [t|] eqn:Hlast; simpl.
  - pose proof Hlast as Hlt. rewrite last_lookup in Hlt.
    destruct (proj1 (proj2 Hl) _ _ Hlt) as (Ht0 & qt & Hqt & _).
    rewrite (proj2 (Z.eqb_neq _ _) Ht0). rewrite Hqt in *. simpl.
    eexists. split; [done|]. split; [|done]. apply world_rep_intro; simpl; try done.
    + rewrite Hh. destruct gq; done.
    + by rewrite last_snoc.
    + intros r. destruct (decide (t = r)) as [<-|]; [|by rewrite lookup_insert_ne by done].
      rewrite lookup_insert_eq. specialize (Hqs t). rewrite Hqt in Hqs.
      inversion Hqs; subst. constructor. done.
    + by eapply bounds_insert.
  - apply last_None in Hlast as ->. eexists. split; [done|]. split; [|done].
    by apply world_rep_intro.
Qed.

Lemma links_pop heap p gq q :
  links heap (p :: gq) -> heap !! p = Some q -> links (<[p := set_next q 0]> heap) gq.
Proof.
  intros (Hnd & Hin & Hout) Hq. apply NoDup_cons in Hnd as [Hp Hnd].
  split; [done|]. split.
  - intros i r Hi. destruct (Hin (S i) r Hi) as (? & qr & ? & Hnext). split; [done|].
    exists qr. rewrite lookup_insert_ne; [done|]. intros <-. apply Hp.
    by eapply list_elem_of_lookup_2.
  - intros r qr Hr Hni. destruct (decide (p = r)) as [<-|Hne].
    + by simplify_map_eq.
    + rewrite lookup_insert_ne in Hr by done. apply (Hout r qr Hr).
      intros [->|?]%elem_of_cons; done.
Qed.

Lemma globalmq_pop_spec w gq qs :
  world_rep w gq qs ->
  exists w', skynet_globalmq_pop w = Some (default 0 (head gq), w') /\
    world_rep w' (tail gq) qs /\ w_brk w' = w_brk w.
Proof.
  intros Hw. pose proof Hw as ((Hl & Hh & Ht) & Hqs & Hb & Hbrk).
  unfold skynet_globalmq_pop. rewrite Hh. destruct gq as [|p gq]; simpl.
  { exists w. done. }
  destruct (proj1 (proj2 Hl) 0%nat p eq_refl) as (H0 & q & Hq & Hnext). simpl in Hnext.
  rewrite (proj2 (Z.eqb_neq _ _) H0), Hq. simpl.
  assert (forall h t, h = default 0 (head gq) -> t = default 0 (last gq) ->
    world_rep (store (set_Q w h t) p (set_next q 0)) gq qs) as Hgoal.
  { intros h t -> ->. apply world_rep_intro; simpl; try done.
    - by apply links_pop.
    - intros r. destruct (decide (p = r)) as [<-|]; [|by rewrite lookup_insert_ne by done].
      rewrite lookup_insert_eq. specialize (Hqs p). rewrite Hq in Hqs.
      inversion Hqs; subst. by constructor.
    - by eapply bounds_insert. }
  rewrite Hnext, Ht. destruct gq as [|r gq]; simpl.
  - rewrite Z.eqb_refl. simpl. eexists. split; [done|]. split; [|done]. by apply Hgoal.
  - destruct (proj1 (proj2 Hl) 1%nat r eq_refl) as (Hr0 & _).
    rewrite (proj2 (Z.eqb_neq _ _) Hr0). simpl.
    eexists. split; [done|]. split; [|done]. apply Hgoal; done.
Qed.

(** ** Each operation refines the abstract one *)

Lemma mq_init_spec : world_rep skynet_mq_init [] ∅.
Proof.
  apply world_rep_intro; simpl; try done.
  - split_and!; [apply NoDup_nil_2|by intros [|?] ?|by intros ? ?].
  - intros p. rewrite !lookup_empty. constructor.
  - intros p [? Hp]. by rewrite lookup_empty in Hp.
Qed.

Lemma mq_create_spec w gq qs handle :
  world_rep w gq qs ->
  let '(p, w') := skynet_mq_create handle w in
  p = w_brk w /\ qs !! p = None /\ p <> 0 /\
  world_rep w' gq (<[p := AQ handle [] MQ_IN_GLOBAL 0]> qs) /\ p ∉ gq.
Proof.
  intros Hw. pose proof Hw as ((Hl & Hh & Ht) & Hqs & Hb & Hbrk). simpl.
  assert (w_heap w !! w_brk w = None) as Hfresh.
  { destruct (w_heap w !! w_brk w) eqn:E; [|done]. exfalso.
    assert (0 < w_brk w < w_brk w) by (apply Hb; eauto). lia. }
  assert (w_brk w ∉ gq) as Hni.
  { intros [i Hi]%list_elem_of_lookup. destruct (proj1 (proj2 Hl) _ _ Hi) as (_ & ? & ? & _).
    congruence. }
  split_and!; [done| |lia| |done].
  { specialize (Hqs (w_brk w)). rewrite Hfresh in Hqs. by inversion Hqs. }
  apply world_rep_intro; simpl; try done; try lia.
  - destruct Hl as (Hnd & Hin & Hout). split; [done|]. split.
    + intros i r Hi. destruct (Hin i r Hi) as (? & qr & ? & ?). split; [done|].
      exists qr. rewrite lookup_insert_ne; [done|]. congruence.
    + intros r qr Hr ?. destruct (decide (w_brk w = r)) as [<-|]; simplify_map_eq; eauto.
  - intros r. destruct (decide (w_brk w = r)) as [<-|]; simplify_map_eq; [|apply Hqs].
    constructor. split_and!; done.
  - intros r Hr. destruct (decide (w_brk w = r)) as [<-|Hne]; [lia|].
    rewrite lookup_insert_ne in Hr by done. specialize (Hb r Hr). lia.
Qed.

(** The abstract push: append, and join the global queue if not in it. *)
Lemma mq_push_spec w gq qs p a m :
  world_rep w gq qs -> qs !! p = Some a -> (a_in_global a = 0 -> p ∉ gq) ->
  exists w', skynet_mq_push p m w = Some w' /\
    world_rep w' (if a_in_global a =? 0 then gq ++ [p] else gq)
      (<[p := a_set_msgs a (a_msgs a ++ [m])
               (if a_in_global a =? 0 then MQ_IN_GLOBAL else a_in_global a)]> qs).
Proof.
  intros Hw Ha Hig. destruct (world_rep_lookup _ _ _ _ _ Hw Ha) as (q & Hq & Hr & Hha & Hga & Hra).
  unfold skynet_mq_push. rewrite Hq. simpl.
  destruct (queue_push_spec q (a_msgs a) m Hr) as (q1 & -> & Hr1 & Hh1 & Hn1 & Hg1 & Hrl1 & _).
  simpl. rewrite Hg1, Hga. destruct (Z.eqb_spec (a_in_global a) 0) as [H0|H0].
  - set (a1 := a_set_msgs a (a_msgs a ++ [m]) MQ_IN_GLOBAL).
    assert (world_rep (store w p (set_in_global q1 MQ_IN_GLOBAL)) gq (<[p := a1]> qs)) as Hw1.
    { eapply world_rep_store; [done..|]. repeat split; simpl; congruence || apply Hr1. }
    destruct (globalmq_push_spec _ gq _ p a1 Hw1) as (w' & ? & ? & ?);
      [apply lookup_insert_eq|auto|eauto].
  - eexists. split; [done|]. eapply world_rep_store; [done..|].
    repeat split; simpl; congruence || apply Hr1.
Qed.

(** The abstract pop: the oldest message, or, when there is none, the mailbox
    leaves the scheduled state. *)
Lemma mq_pop_spec w gq qs p a :
  world_rep w gq qs -> qs !! p = Some a ->
  exists w', skynet_mq_pop p w = Some (head (a_msgs a), w') /\ w_brk w' = w_brk w /\
    world_rep w' gq (<[p := a_set_msgs a (tail (a_msgs a))
                             (match a_msgs a with [] => 0 | _ => a_in_global a end)]> qs).
Proof.
  intros Hw Ha. destruct (world_rep_lookup _ _ _ _ _ Hw Ha) as (q & Hq & Hr & Hha & Hga & Hra).
  unfold skynet_mq_pop. rewrite Hq. simpl. destruct (a_msgs a) as [|x xs] eqn:Hxs.
  - rewrite (queue_pop_nil q Hr). simpl. eexists. split; [done|]. split; [done|].
    eapply world_rep_store; [done..|]. split; [|done].
    apply q_rep_in_global, q_rep_overload; done.
  - destruct (queue_pop_cons q x xs Hr) as (q' & -> & Hr' & Hh & Hn & Hg & Hrl). simpl.
    eexists. split; [done|]. split; [done|]. eapply world_rep_store; [done..|].
    split; [done|]. simpl. split_and!; congruence.
Qed.

Lemma mq_length_spec w gq qs p a :
  world_rep w gq qs -> qs !! p = Some a -> skynet_mq_length p w = Some (zlen (a_msgs a)).
Proof.
  intros Hw Ha. destruct (world_rep_lookup _ _ _ _ _ Hw Ha) as (q & Hq & Hr & _).
  unfold skynet_mq_length. rewrite Hq. simpl. by rewrite (q_rep_length _ _ Hr).
Qed.

Lemma mq_overload_spec w gq qs p a :
  world_rep w gq qs -> qs !! p = Some a ->
  exists o w', skynet_mq_overload p w = Some (o, w') /\ world_rep w' gq qs /\ w_brk w' = w_brk w.
Proof.
  intros Hw Ha. destruct (world_rep_lookup _ _ _ _ _ Hw Ha) as (q & Hq & Hqa).
  unfold skynet_mq_overload. rewrite Hq. simpl. destruct (q_overload q =? 0); [eauto|].
  eexists _, _. split; [done|]. split; [|done].
  rewrite <- (insert_id qs p a Ha). eapply world_rep_store; [done..|].
  destruct Hqa as [Hr ?]. split; [|done]. apply q_rep_overload; [done|apply Hr].
Qed.

Lemma mq_mark_release_spec w gq qs p a :
  world_rep w gq qs -> qs !! p = Some a -> a_release a = 0 ->
  (a_in_global a <> MQ_IN_GLOBAL -> p ∉ gq) ->
  exists w', skynet_mq_mark_release p w = Some w' /\
    world_rep w' (if a_in_global a =? MQ_IN_GLOBAL then gq else gq ++ [p])
      (<[p := AQ (a_handle a) (a_msgs a) (a_in_global a) 1]> qs).
Proof.
  intros Hw Ha H0 Hni. destruct (world_rep_lookup _ _ _ _ _ Hw Ha) as (q & Hq & Hr & Hha & Hga & Hra).
  unfold skynet_mq_mark_release. rewrite Hq. simpl. rewrite Hra, H0. simpl. rewrite Hga.
  set (a1 := AQ _ _ _ _).
  assert (world_rep (store w p (set_release q 1)) gq (<[p := a1]> qs)) as Hw1.
  { eapply world_rep_store; [done..|]. split; [|done]. by apply q_rep_release. }
  destruct (Z.eqb_spec (a_in_global a) MQ_IN_GLOBAL); [eauto|].
  destruct (globalmq_push_spec _ gq _ p a1 Hw1) as (w' & ? & ? & ?);
    [apply lookup_insert_eq|auto|eauto].
Qed.

Lemma release_spec w gq qs p a :
  world_rep w gq qs -> qs !! p = Some a -> p ∉ gq ->
  exists w', _release p w = Some w' /\ world_rep w' gq (delete p qs) /\ w_brk w' = w_brk w.
Proof.
  intros Hw Ha Hni. destruct (world_rep_lookup _ _ _ _ _ Hw Ha) as (q & Hq & Hqa).
  destruct Hw as ((Hl & Hh & Ht) & Hqs & Hb & Hbrk).
  unfold _release. rewrite Hq. simpl. rewrite (proj2 (proj2 Hl) p q) by done. simpl.
  eexists. split; [done|]. split; [|done]. apply world_rep_intro; simpl; try done.
  - destruct Hl as (Hnd & Hin & Hout). split; [done|]. split.
    + intros i r Hi. destruct (Hin i r Hi) as (? & qr & ? & ?). split; [done|].
      exists qr. rewrite lookup_delete_ne; [done|]. intros <-. apply Hni.
      by eapply list_elem_of_lookup_2.
    + intros r qr [? Hr]%lookup_delete_Some ?. eauto.
  - intros r. destruct (decide (p = r)) as [<-|].
    + rewrite !lookup_delete_eq. constructor.
    + rewrite !lookup_delete_ne by done. apply Hqs.
  - intros r [qr [? Hr]%lookup_delete_Some]. eauto.
Qed.

(** ** The component's contract

    The operations as one interface: [run_op] is the code, [spec_op] the same
    operation on lists.  [spec_op] is [None] where the caller would break the
    protocol (an unknown mailbox, a mailbox linked twice). *)

Inductive qop :=
  | OCreate (handle : Z)
  | OPush (p : Z) (m : skynet_message)
  | OPop (p : Z)
  | OLength (p : Z)
  | OGlobalPush (p : Z)
  | OGlobalPop
  | OMarkRelease (p : Z).

Inductive qres := RUnit | RPtr (p : Z) | RMsg (m : option skynet_message) | RInt (n : Z).

Definition run_op (o : qop) (w : mqworld) : option (qres * mqworld) :=
  match o with
  | OCreate h => let '(p, w') := skynet_mq_create h w in Some (RPtr p, w')
  | OPush p m => w' ← skynet_mq_push p m w; Some (RUnit, w')
  | OPop p => '(r, w') ← skynet_mq_pop p w; Some (RMsg r, w')
  | OLength p => n ← skynet_mq_length p w; Some (RInt n, w)
  | OGlobalPush p => w' ← skynet_globalmq_push p w; Some (RUnit, w')
  | OGlobalPop => '(p, w') ← skynet_globalmq_pop w; Some (RPtr p, w')
  | OMarkRelease p => w' ← skynet_mq_mark_release p w; Some (RUnit, w')
  end.

(** The list state: the next address, the global queue, the mailboxes. *)
Definition qspec : Type := Z * list Z * gmap Z aqueue.

Definition spec_op (o : qop) (s : qspec) : option (qres * qspec) :=
  let '(brk, gq, qs) := s in
  match o with
  | OCreate h => Some (RPtr brk, (brk + 1, gq, <[brk := AQ h [] MQ_IN_GLOBAL 0]> qs))
  | OPush p m =>
      a ← qs !! p;
      if a_in_global a =? 0 then
        if bool_decide (p ∈ gq) then None
        else Some (RUnit, (brk, gq ++ [p], <[p := a_set_msgs a (a_msgs a ++ [m]) MQ_IN_GLOBAL]> qs))
      else Some (RUnit, (brk, gq, <[p := a_set_msgs a (a_msgs a ++ [m]) (a_in_global a)]> qs))
  | OPop p =>
      a ← qs !! p;
      match a_msgs a with
      | [] => Some (RMsg None, (brk, gq, <[p := a_set_msgs a [] 0]> qs))
      | x :: xs => Some (RMsg (Some x), (brk, gq, <[p := a_set_msgs a xs (a_in_global a)]> qs))
      end
  | OLength p => a ← qs !! p; Some (RInt (zlen (a_msgs a)), s)
  | OGlobalPush p =>
      a ← qs !! p;
      if bool_decide (p ∈ gq) then None else Some (RUnit, (brk, gq ++ [p], qs))
  | OGlobalPop => Some (RPtr (default 0 (head gq)), (brk, tail gq, qs))
  | OMarkRelease p =>
      a ← qs !! p;
      if negb (a_release a =? 0) then None
      else if a_in_global a =? MQ_IN_GLOBAL
      then Some (RUnit, (brk, gq, <[p := AQ (a_handle a) (a_msgs a) (a_in_global a) 1]> qs))
      else if bool_decide (p ∈ gq) then None
      else Some (RUnit, (brk, gq ++ [p], <[p := AQ (a_handle a) (a_msgs a) (a_in_global a) 1]> qs))
  end.

Fixpoint run_ops {S} (step : qop -> S -> option (qres * S)) (os : list qop) (s : S)
  : option (list qres * S) :=
  match os with
  | [] => Some ([], s)
  | o :: os' => '(r, s1) ← step o s; '(rs, s2) ← run_ops step os' s1; Some (r :: rs, s2)
  end.

Definition spec_rep (w : mqworld) (s : qspec) : Prop :=
  let '(brk, gq, qs) := s in w_brk w = brk /\ world_rep w gq qs.

Lemma mq_push_brk p m w w' : skynet_mq_push p m w = Some w' -> w_brk w' = w_brk w.
Proof.
  unfold skynet_mq_push, skynet_globalmq_push. intros H. opt_inv.
  repeat case_match; opt_inv; done.
Qed.

Lemma mq_mark_release_brk p w w' : skynet_mq_mark_release p w = Some w' -> w_brk w' = w_brk w.
Proof.
  unfold skynet_mq_mark_release, skynet_globalmq_push. intros H. opt_inv.
  repeat case_match; opt_inv; done.
Qed.

Lemma run_op_refines o w s r s' :
  spec_rep w s -> spec_op o s = Some (r, s') ->
  exists w', run_op o w = Some (r, w') /\ spec_rep w' s'.
Proof.
  destruct s as [[brk gq] qs]. intros [Hbrk Hw] Hs. destruct o; simpl in Hs |- *; opt_inv.
  - pose proof (mq_create_spec _ _ _ handle Hw) as Hc. simpl in Hc.
    destruct Hc as (_ & _ & _ & ? & _). eexists. split; [reflexivity|]. split; done.
  - destruct (mq_push_spec _ _ _ _ _ m Hw H) as (w' & Hp & Hw').
    { destruct (Z.eqb_spec (a_in_global x) 0); [|done]. intros _. by case_bool_decide. }
    rewrite Hp. simpl. eexists. pose proof (mq_push_brk _ _ _ _ Hp).
    destruct (a_in_global x =? 0); [case_bool_decide; [done|]|];
      opt_inv; split; try done; split; congruence || done.
  - destruct (mq_pop_spec _ _ _ _ _ Hw H) as (w' & Hp & Hb & Hw'). rewrite Hp. simpl.
    destruct (a_msgs x); opt_inv; eexists; (split; [done|]); split; congruence || done.
  - rewrite (mq_length_spec _ _ _ _ _ Hw H). simpl. eauto.
  - case_bool_decide; [done|]. opt_inv.
    destruct (globalmq_push_spec _ _ _ _ _ Hw H) as (w' & -> & ? & ?); [done|]. simpl.
    eexists. split; [done|]. split; congruence || done.
  - destruct (globalmq_pop_spec _ _ _ Hw) as (w' & -> & ? & ?). simpl.
    eexists. split; [done|]. split; congruence || done.
  - destruct (Z.eqb_spec (a_release x) 0); simpl in *; [|done].
    destruct (mq_mark_release_spec _ _ _ _ _ Hw H) as (w' & Hp & Hw'); [done| |].
    { intros Hne. destruct (Z.eqb_spec (a_in_global x) MQ_IN_GLOBAL); [done|]. by case_bool_decide. }
    rewrite Hp. simpl. eexists. pose proof (mq_mark_release_brk _ _ _ Hp).
    destruct (a_in_global x =? MQ_IN_GLOBAL); [|case_bool_decide; [done|]];
      opt_inv; split; try done; split; congruence || done.
Qed.

(** [C10] The mailbox store refines its list specification: any sequence of
    operations that the specification allows runs on the linked, circular
    representation without an assertion failure or an access out of bounds,
    returns the same results, and ends in a store that represents the
    specification's final state. *)
Theorem mq_store_refines_lists os w s rs s' :
  spec_rep w s -> run_ops spec_op os s = Some (rs, s') ->
  exists w', run_ops run_op os w = Some (rs, w') /\ spec_rep w' s'.
Proof.
  revert w s rs s'. induction os as [|o os IH]; intros w s rs s' Hw Hr; simpl in *.
  { opt_inv. eauto. }
  opt_inv. destruct (run_op_refines _ _ _ _ _ Hw H) as (w1 & -> & Hw1). simpl.
  destruct (IH _ _ _ _ Hw1 H0) as (w2 & -> & Hw2). simpl. eauto.
Qed.

Definition demo_msg (n : Z) : skynet_message := Msg 1 n 0 0.

Lemma mq_store_refines_lists_witness :
  let os := [OCreate 7; OPush 1 (demo_msg 1); OPush 1 (demo_msg 2); OPop 1; OPop 1; OPop 1;
             OPush 1 (demo_msg 3); OGlobalPop] in
  exists w', run_ops run_op os skynet_mq_init =
    Some ([RPtr 1; RUnit; RUnit; RMsg (Some (demo_msg 1)); RMsg (Some (demo_msg 2));
           RMsg None; RUnit; RPtr 1], w') /\
    spec_rep w' (2, [], <[1 := AQ 7 [demo_msg 3] 1 0]> ∅).
Proof.
  intros os. apply (mq_store_refines_lists os skynet_mq_init (1, [], ∅)).
  - split; [reflexivity|apply mq_init_spec].
  - vm_compute. reflexivity.
Defined.

(** ** One mailbox on its own: order, overload, release *)

(** A sequence of pushes ([Some m]) and pops ([None]) on one mailbox; the result
    lists the messages the pops returned. *)
Fixpoint run_mailbox (ops : list (option skynet_message)) (q : message_queue)
  : option (list skynet_message * message_queue) :=
  match ops with
  | [] => Some ([], q)
  | Some m :: ops' => q1 ← queue_push q m; run_mailbox ops' q1
  | None :: ops' =>
      '(r, q1) ← queue_pop q;
      '(out, q2) ← run_mailbox ops' q1;
      Some (match r with Some m => m :: out | None => out end, q2)
  end.

(** [C11] A mailbox never loses, duplicates or reorders a message: whatever the
    interleaving of pushes and pops, what was popped followed by what is still
    queued is what was there followed by what was pushed. *)
Theorem mailbox_fifo ops q xs :
  q_rep q xs ->
  exists out q' ys, run_mailbox ops q = Some (out, q') /\ q_rep q' ys /\
    out ++ ys = xs ++ omap id ops.
Proof.
  revert q xs. induction ops as [|[m|] ops IH]; intros q xs Hr; simpl.
  { exists [], q, xs. by rewrite app_nil_r. }
  - destruct (queue_push_spec q xs m Hr) as (q1 & -> & Hr1 & _). simpl.
    destruct (IH q1 _ Hr1) as (out & q' & ys & ? & ? & Heq).
    exists out, q', ys. by rewrite <- app_assoc in Heq.
  - destruct xs as [|x xs].
    + rewrite (queue_pop_nil q Hr). simpl.
      destruct (IH (set_in_global (set_overload q (q_overload q) MQ_OVERLOAD) 0) [])
        as (out & q' & ys & -> & ? & ?).
      { apply q_rep_in_global, q_rep_overload; done. }
      simpl. eauto 6.
    + destruct (queue_pop_cons q x xs Hr) as (q1 & -> & Hr1 & _). simpl.
      destruct (IH q1 xs Hr1) as (out & q' & ys & -> & ? & Heq). simpl.
      exists (x :: out), q', ys. simpl. by rewrite Heq.
Qed.

Definition demo_queue : message_queue :=
  MkQueue 7 2 0 0 0 1 0 MQ_OVERLOAD [None; None] 0.

Lemma demo_queue_rep : q_rep demo_queue [].
Proof. split_and!; done. Qed.

(** With two cells the third push grows the buffer. *)
Lemma mailbox_fifo_witness :
  exists out q' ys,
    run_mailbox [Some (demo_msg 1); None; Some (demo_msg 2); Some (demo_msg 3);
                 Some (demo_msg 4); None] demo_queue = Some (out, q') /\
    q_rep q' ys /\
    out ++ ys = [] ++ [demo_msg 1; demo_msg 2; demo_msg 3; demo_msg 4].
Proof.
  apply (mailbox_fifo [Some (demo_msg 1); None; Some (demo_msg 2); Some (demo_msg 3);
                       Some (demo_msg 4); None] demo_queue []).
  apply demo_queue_rep.
Defined.

(** The overload alarm: a pop that leaves more messages than the threshold
    records their number and doubles the threshold just often enough to reach
    it; otherwise neither changes; a pop on an empty mailbox resets the
    threshold to 1024. *)
Theorem mailbox_overload_alarm q xs :
  q_rep q xs ->
  exists r q', queue_pop q = Some (r, q') /\
    match xs with
    | [] => q_overload q' = q_overload q /\ q_overload_threshold q' = MQ_OVERLOAD
    | _ :: rest =>
        exists k : nat,
          q_overload_threshold q' = q_overload_threshold q * 2 ^ Z.of_nat k /\
          zlen rest <= q_overload_threshold q' /\
          (forall j : nat, (j < k)%nat -> q_overload_threshold q * 2 ^ Z.of_nat j < zlen rest) /\
          q_overload q' = (if zlen rest <=? q_overload_threshold q then q_overload q
                           else zlen rest)
    end.
Proof.
  intros Hr. destruct xs as [|x xs].
  { rewrite (queue_pop_nil q Hr). eexists _, _. split; done. }
  destruct (queue_pop_cons_k q x xs Hr) as (q' & k & -> & _ & H1 & H2 & H3 & H4).
  eexists _, _. split; [done|]. exists k. rewrite H1. done.
Qed.

Lemma mailbox_overload_alarm_witness :
  exists r q', queue_pop demo_queue = Some (r, q') /\
    q_overload q' = q_overload demo_queue /\ q_overload_threshold q' = MQ_OVERLOAD.
Proof. apply (mailbox_overload_alarm demo_queue []), demo_queue_rep. Defined.

Section drop.
Context {S : Type} `{!HasMQ S}.
Context (drop_func : skynet_message -> S -> option S) (dropped : S -> list skynet_message).

(** Releasing a mailbox that is marked for release hands every message
    left in it to the drop function, oldest first and once each, and frees it;
    the loop needs no more fuel than there are messages.  The drop function
    may change anything else of the node. *)
Theorem mq_release_drops_all fuel p s q xs :
  (forall w s, dropped (put_mq w s) = dropped s) ->
  (forall m s, w_heap (get_mq s) !! p <> None ->
     exists s', drop_func m s = Some s' /\ dropped s' = dropped s ++ [m] /\
       w_heap (get_mq s') !! p = w_heap (get_mq s) !! p) ->
  w_heap (get_mq s) !! p = Some q -> q_rep q xs -> q_next q = 0 -> q_release q <> 0 ->
  (length xs <= fuel)%nat ->
  exists s', skynet_mq_release drop_func fuel p s = Some s' /\
    dropped s' = dropped s ++ xs /\ w_heap (get_mq s') !! p = None.
Proof.
  intros Hput Hdrop Hq Hr Hn Hrel Hf. unfold skynet_mq_release. rewrite Hq. simpl.
  rewrite (proj2 (Z.eqb_neq _ _) Hrel). simpl. clear Hrel.
  revert s q xs Hq Hr Hn Hf. induction fuel as [|fuel IH]; intros s q xs Hq Hr Hn Hf;
    simpl; unfold skynet_mq_pop; rewrite Hq; simpl; (destruct xs as [|x xs];
    [rewrite (queue_pop_nil q Hr); simpl; unfold _release; simpl;
     rewrite lookup_insert_eq; simpl; rewrite Hn; simpl; eexists; split; [done|];
     rewrite Hput, app_nil_r, get_put_mq; simpl; split; [done|apply lookup_delete_eq]|]);
    simpl in Hf; [lia|].
  destruct (queue_pop_cons q x xs Hr) as (q1 & -> & Hr1 & _ & Hn1 & _). simpl.
  set (s1 := put_mq (store (get_mq s) p q1) s).
  assert (w_heap (get_mq s1) !! p = Some q1) as Hs1
    by (unfold s1; rewrite get_put_mq; apply lookup_insert_eq).
  destruct (Hdrop x s1) as (s2 & -> & Hd & Hp); [by rewrite Hs1|]. simpl.
  rewrite Hs1 in Hp.
  destruct (IH s2 q1 xs Hp Hr1) as (s' & Hs' & Hd' & Hfree); [congruence|lia|].
  exists s'. split; [done|]. split; [|done].
  rewrite Hd', Hd. unfold s1. by rewrite Hput, <- app_assoc.
Qed.
End drop.

(** A node state that records what was dropped. *)
#[export] Instance logged_mq : HasMQ (mqworld * list skynet_message).
Proof. refine {| get_mq := fst; put_mq w s := (w, s.2) |}; by intros; destruct s. Defined.

Definition demo_release_queue : message_queue :=
  MkQueue 7 4 1 3 1 1 0 MQ_OVERLOAD [None; Some (demo_msg 1); Some (demo_msg 2); None] 0.

Lemma demo_release_queue_rep : q_rep demo_release_queue [demo_msg 1; demo_msg 2].
Proof.
  split; [|done]. split; [done|]. split; [done|]. split; [done|].
  intros [|[|i]] x Hi; simplify_eq/=; reflexivity.
Qed.

Lemma mq_release_drops_all_witness :
  exists s', skynet_mq_release (fun m (s : mqworld * list skynet_message) =>
               Some (s.1, s.2 ++ [m])) 2 1 (MkWorld {[1 := demo_release_queue]} (MkGlobal 0 0) 2, [])
             = Some s' /\
    s'.2 = [demo_msg 1; demo_msg 2] /\ w_heap (get_mq s') !! 1 = None.
Proof.
  apply (mq_release_drops_all (S := mqworld * list skynet_message)
           (fun m s => Some (s.1, s.2 ++ [m])) snd 2 1
           (MkWorld {[1 := demo_release_queue]} (MkGlobal 0 0) 2, [])
           demo_release_queue [demo_msg 1; demo_msg 2]).
  - done.
  - intros m [w l] _. simpl. eauto.
  - reflexivity.
  - apply demo_release_queue_rep.
  - reflexivity.
  - done.
  - simpl. lia.
Defined.
