(* ===== verification/Timer.v ===== *)
(** The timing wheel: skynet-src/skynet_timer.c.

    Pending timers sit in 256 near slots (one per tick of the current 256-tick
    block) and in four levels of 64 coarser slots.  [timer_update] advances the
    clock by one tick, cascades one coarse slot when a block boundary is
    crossed, and dispatches the near slot of the new tick.  The clock and the
    expiry times are 32-bit and wrap.

    A [link_list] is the list of its nodes in link order.  Dispatching pushes a
    response message to a service; the operations return these pushes, in
    order, for the caller to perform. *)

From S2P Require Import Prelude Types.
Local Open Scope Z_scope.

Definition TIME_NEAR_SHIFT : Z := 8.
Definition TIME_NEAR : Z := Z.shiftl 1 TIME_NEAR_SHIFT.
Definition TIME_LEVEL_SHIFT : Z := 6.
Definition TIME_LEVEL : Z := Z.shiftl 1 TIME_LEVEL_SHIFT.
Definition TIME_NEAR_MASK : Z := TIME_NEAR - 1.
Definition TIME_LEVEL_MASK : Z := TIME_LEVEL - 1.

Record timer_event := MkEvent { ev_handle : Z; ev_session : Z }.
Record timer_node := MkNode { expire : Z; ev : timer_event }.
Abbreviation link_list := (list timer_node).

Record timer := MkTimer {
  t_near : list link_list;
  t_t : list (list link_list);
  t_time : Z;
  t_starttime : Z;
  t_current : Z;
  t_current_point : Z
}.

Definition set_near (T : timer) (n : list link_list) : timer :=
  MkTimer n (t_t T) (t_time T) (t_starttime T) (t_current T) (t_current_point T).
Definition set_t (T : timer) (t : list (list link_list)) : timer :=
  MkTimer (t_near T) t (t_time T) (t_starttime T) (t_current T) (t_current_point T).
Definition set_time (T : timer) (time : Z) : timer :=
  MkTimer (t_near T) (t_t T) time (t_starttime T) (t_current T) (t_current_point T).
Definition set_clock (T : timer) (current point : Z) : timer :=
  MkTimer (t_near T) (t_t T) (t_time T) (t_starttime T) current point.

(** [link] appends to the list; [link_clear] empties it and returns its nodes. *)
Definition link (l : link_list) (node : timer_node) : link_list := l ++ [node].
Definition link_clear (l : link_list) : link_list * link_list := (l, []).

Definition link_near (T : timer) (j : Z) (node : timer_node) : option timer :=
  l ← zget (t_near T) j;
  near ← zset (t_near T) j (link l node);
  Some (set_near T near).

Definition link_level (T : timer) (i j : Z) (node : timer_node) : option timer :=
  row ← zget (t_t T) i;
  l ← zget row j;
  row' ← zset row j (link l node);
  t ← zset (t_t T) i row';
  Some (set_t T t).

(** [for (i=0;i<3;i++) { if (...) break; mask <<= TIME_LEVEL_SHIFT; }] *)
Fixpoint find_level (n : nat) (i mask time current_time : Z) : Z :=
  match n with
  | O => i
  | S n' =>
      if Z.lor time (mask - 1) =? Z.lor current_time (mask - 1) then i
      else find_level n' (i + 1) (u32 (Z.shiftl mask TIME_LEVEL_SHIFT)) time current_time
  end.

Definition add_node (T : timer) (node : timer_node) : option timer :=
  let time := expire node in
  let current_time := t_time T in
  if Z.lor time TIME_NEAR_MASK =? Z.lor current_time TIME_NEAR_MASK then
    link_near T (Z.land time TIME_NEAR_MASK) node
  else
    let i := find_level 3 0 (Z.shiftl TIME_NEAR TIME_LEVEL_SHIFT) time current_time in
    link_level T i
      (Z.land (Z.shiftr time (TIME_NEAR_SHIFT + i * TIME_LEVEL_SHIFT)) TIME_LEVEL_MASK) node.

Definition timer_add (T : timer) (arg : timer_event) (time : Z) : option timer :=
  add_node T (MkNode (u32 (time + t_time T)) arg).

Fixpoint add_nodes (T : timer) (current : link_list) : option timer :=
  match current with
  | [] => Some T
  | node :: temp => T' ← add_node T node; add_nodes T' temp
  end.

Definition move_list (T : timer) (level idx : Z) : option timer :=
  row ← zget (t_t T) level;
  l ← zget row idx;
  let '(current, empty) := link_clear l in
  row' ← zset row idx empty;
  t ← zset (t_t T) level row';
  add_nodes (set_t T t) current.

(** The cascade loop; [fuel] bounds the levels it looks at. *)
Fixpoint shift_loop (fuel : nat) (T : timer) (ct mask time i : Z) : option timer :=
  if Z.land ct (mask - 1) =? 0 then
    let idx := Z.land time TIME_LEVEL_MASK in
    if negb (idx =? 0) then move_list T i idx
    else match fuel with
         | O => None
         | S fuel' => shift_loop fuel' T ct (Z.shiftl mask TIME_LEVEL_SHIFT)
                        (Z.shiftr time TIME_LEVEL_SHIFT) (i + 1)
         end
  else Some T.

Definition timer_shift (T : timer) : option timer :=
  let ct := u32 (t_time T + 1) in
  let T1 := set_time T ct in
  if ct =? 0 then move_list T1 3 0
  else shift_loop 3 T1 ct TIME_NEAR (Z.shiftr ct TIME_NEAR_SHIFT) 0.

(** What a dispatch pushes: the destination handle and the message. *)
Definition timeout_message (session : Z) : skynet_message :=
  Msg 0 session 0 (tag_sz 0 PTYPE_RESPONSE).
Definition dispatch_list (current : link_list) : list (Z * skynet_message) :=
  (fun n => (ev_handle (ev n), timeout_message (ev_session (ev n)))) <$> current.

(** [while (near[idx]) { clear; dispatch }]; the list is empty after one round. *)
Fixpoint execute_loop (fuel : nat) (T : timer) (idx : Z)
  : option (list (Z * skynet_message) * timer) :=
  l ← zget (t_near T) idx;
  match l with
  | [] => Some ([], T)
  | _ =>
      match fuel with
      | O => None
      | S fuel' =>
          let '(current, empty) := link_clear l in
          near ← zset (t_near T) idx empty;
          '(out, T') ← execute_loop fuel' (set_near T near) idx;
          Some (dispatch_list current ++ out, T')
      end
  end.

Definition timer_execute (T : timer) : option (list (Z * skynet_message) * timer) :=
  execute_loop 1 T (Z.land (t_time T) TIME_NEAR_MASK).

Definition timer_update (T : timer) : option (list (Z * skynet_message) * timer) :=
  (* try to dispatch timeout 0 (rare condition) *)
  '(out1, T1) ← timer_execute T;
  (* shift time first, and then dispatch timer message *)
  T2 ← timer_shift T1;
  '(out2, T3) ← timer_execute T2;
  Some (out1 ++ out2, T3).

Definition timer_create_timer : timer :=
  MkTimer (replicate (Z.to_nat TIME_NEAR) [])
    (replicate 4 (replicate (Z.to_nat TIME_LEVEL) [])) 0 0 0 0.

(** The clock readings are arguments: seconds and nanoseconds of the realtime
    and of the monotonic clock. *)
Definition systime (tv_sec tv_nsec : Z) : Z * Z := (u32 tv_sec, u32 (tv_nsec / 10000000)).
Definition gettime (tv_sec tv_nsec : Z) : Z := u64 (u64 (tv_sec * 100) + tv_nsec / 10000000).

Fixpoint timer_updates (n : nat) (T : timer) : option (list (list (Z * skynet_message)) * timer) :=
  match n with
  | O => Some ([], T)
  | S n' =>
      '(out, T1) ← timer_update T;
      '(outs, T2) ← timer_updates n' T1;
      Some (out :: outs, T2)
  end.

Definition skynet_updatetime (cp : Z) (T : timer)
  : option (list (list (Z * skynet_message)) * timer) :=
  if cp <? t_current_point T then Some ([], set_clock T (t_current T) cp)
  else if negb (cp =? t_current_point T) then
    let diff := u32 (cp - t_current_point T) in
    timer_updates (Z.to_nat diff) (set_clock T (u64 (t_current T + diff)) cp)
  else Some ([], T).

Definition skynet_starttime (T : timer) : Z := t_starttime T.
Definition skynet_now (T : timer) : Z := t_current T.

Definition skynet_timer_init (real_sec real_nsec mono_sec mono_nsec : Z) : timer :=
  let T := timer_create_timer in
  let '(start, current) := systime real_sec real_nsec in
  MkTimer (t_near T) (t_t T) (t_time T) start current (gettime mono_sec mono_nsec).

(** CPU time of the thread in microseconds, from its clock reading. *)
Definition NANOSEC : Z := 1000000000.
Definition MICROSEC : Z := 1000000.
Definition skynet_thread_time (tv_sec tv_nsec : Z) : Z :=
  u64 (u64 (u64 tv_sec * MICROSEC) + u64 tv_nsec / (NANOSEC / MICROSEC)).

(** ** Where a node belongs

    [slot e t] is the slot of a node that expires at [e] when the clock is [t]:
    the near slot when both are in the same 256-tick block, else the slot of the
    first level at which they share a block. *)

Inductive bucket := Near (j : Z) | Level (i j : Z).
#[export] Instance bucket_eq_dec : EqDecision bucket.
Proof. solve_decision. Defined.

Definition slot (e t : Z) : bucket :=
  if e / 256 =? t / 256 then Near (e mod 256)
  else if e / 16384 =? t / 16384 then Level 0 ((e / 256) mod 64)
  else if e / 1048576 =? t / 1048576 then Level 1 ((e / 16384) mod 64)
  else if e / 67108864 =? t / 67108864 then Level 2 ((e / 1048576) mod 64)
  else Level 3 ((e / 67108864) mod 64).

Definition valid_bucket (b : bucket) : Prop :=
  match b with
  | Near j => 0 <= j < 256
  | Level i j => 0 <= i < 4 /\ 0 <= j < 64
  end.

Definition get_bucket (T : timer) (b : bucket) : option link_list :=
  match b with
  | Near j => zget (t_near T) j
  | Level i j => row ← zget (t_t T) i; zget row j
  end.

(** The array shapes. *)
Definition shape (T : timer) : Prop :=
  zlen (t_near T) = 256 /\ zlen (t_t T) = 4 /\
  forall i row, zget (t_t T) i = Some row -> zlen row = 64.

Lemma slot_valid e t : 0 <= e -> valid_bucket (slot e t).
Proof. intros. unfold slot. repeat case_match; simpl; try split; try apply Z.mod_pos_bound; lia. Qed.

(** The code's comparison of two times under a mask compares their blocks. *)
Lemma lor_mask_eqb k a b :
  0 <= k -> (Z.lor a (2 ^ k - 1) =? Z.lor b (2 ^ k - 1)) = (a / 2 ^ k =? b / 2 ^ k).
Proof.
  intros Hk.
  assert (forall x, Z.lor x (2 ^ k - 1) = 2 ^ k - 1 + (x / 2 ^ k) * 2 ^ k) as Hor.
  { intros x. rewrite <- (lor_shiftl_add (2 ^ k - 1) (x / 2 ^ k) k) by
      (unfold is_u; pose proof (Z.pow_pos_nonneg 2 k); lia).
    rewrite Z.sub_1_r, <- Z.ones_equiv, <- Z.shiftr_div_pow2 by done.
    apply Z.bits_inj'. intros i Hi. rewrite !Z.lor_spec, Z.shiftl_spec by done.
    destruct (Z.lt_ge_cases i k).
    - rewrite Z.ones_spec_low by lia. by rewrite orb_true_r.
    - rewrite Z.ones_spec_high by lia. rewrite orb_false_r, Z.shiftr_spec by lia.
      simpl. f_equal. lia. }
  rewrite !Hor. pose proof (Z.pow_pos_nonneg 2 k).
  destruct (Z.eqb_spec (a / 2 ^ k) (b / 2 ^ k)) as [->|Hne]; [apply Z.eqb_refl|].
  apply Z.eqb_neq. nia.
Qed.

Lemma lor_mask_8 a b : (Z.lor a 255 =? Z.lor b 255) = (a / 256 =? b / 256).
Proof. apply (lor_mask_eqb 8). lia. Qed.
Lemma lor_mask_14 a b : (Z.lor a 16383 =? Z.lor b 16383) = (a / 16384 =? b / 16384).
Proof. apply (lor_mask_eqb 14). lia. Qed.
Lemma lor_mask_20 a b : (Z.lor a 1048575 =? Z.lor b 1048575) = (a / 1048576 =? b / 1048576).
Proof. apply (lor_mask_eqb 20). lia. Qed.
Lemma lor_mask_26 a b :
  (Z.lor a 67108863 =? Z.lor b 67108863) = (a / 67108864 =? b / 67108864).
Proof. apply (lor_mask_eqb 26). lia. Qed.

Definition link_bucket (T : timer) (b : bucket) (n : timer_node) : option timer :=
  match b with Near j => link_near T j n | Level i j => link_level T i j n end.

(** [add_node] links the node at the end of its slot. *)
Lemma add_node_slot T n :
  0 <= expire n -> add_node T n = link_bucket T (slot (expire n) (t_time T)) n.
Proof.
  intros He. unfold add_node, slot.
  change TIME_NEAR_MASK with 255. change TIME_LEVEL_MASK with 63.
  change (find_level 3 0 _ ?e ?t) with
    (if Z.lor e 16383 =? Z.lor t 16383 then 0
     else if Z.lor e 1048575 =? Z.lor t 1048575 then 1
     else if Z.lor e 67108863 =? Z.lor t 67108863 then 2 else 3).
  rewrite lor_mask_8, lor_mask_14, lor_mask_20, lor_mask_26.
  rewrite land_63. repeat case_match; simpl.
  - by rewrite land_255.
  - by rewrite Z.shiftr_div_pow2.
  - by rewrite Z.shiftr_div_pow2.
  - by rewrite Z.shiftr_div_pow2.
  - by rewrite Z.shiftr_div_pow2.
Qed.

(** ** The wheel as a function from slots to lists *)

Definition buckets (T : timer) (f : bucket -> link_list) : Prop :=
  shape T /\ forall b, valid_bucket b -> get_bucket T b = Some (f b).

Lemma buckets_ext T f g :
  buckets T f -> (forall b, valid_bucket b -> f b = g b) -> buckets T g.
Proof. intros [? H] Hfg. split; [done|]. intros b Hb. rewrite <- Hfg by done. auto. Qed.

Definition upd (f : bucket -> link_list) (b : bucket) (l : link_list) : bucket -> link_list :=
  fun b' => if decide (b' = b) then l else f b'.

Lemma buckets_set_near T f j l near :
  buckets T f -> 0 <= j < 256 -> zset (t_near T) j l = Some near ->
  buckets (set_near T near) (upd f (Near j) l).
Proof.
  intros [(Hn & Ht & Hrow) Hb] Hj [? ->]%zset_Some. split.
  { split; simpl; [by rewrite zlen_insert|done]. }
  intros [j'|i j'] Hv; unfold upd; simpl in *.
  - destruct (decide (Near j' = Near j)) as [[= ->]|Hne].
    + by apply zget_insert_eq.
    + rewrite zget_insert_ne by (lia || congruence). by apply (Hb (Near j')).
  - try rewrite decide_False by done. by apply (Hb (Level i j')).
Qed.

Lemma buckets_set_level T f i j row l row' t :
  buckets T f -> valid_bucket (Level i j) ->
  zget (t_t T) i = Some row -> zset row j l = Some row' -> zset (t_t T) i row' = Some t ->
  buckets (set_t T t) (upd f (Level i j) l).
Proof.
  intros [(Hn & Ht & Hrow) Hb] [Hi Hj] Hr [? ->]%zset_Some [? ->]%zset_Some. split.
  { split; simpl; [done|]. split; [by rewrite zlen_insert|]. intros i' r Hr'.
    destruct (decide (i' = i)) as [->|].
    - rewrite zget_insert_eq in Hr' by lia. simplify_eq. rewrite zlen_insert. eauto.
    - rewrite zget_insert_ne in Hr' by lia. eauto. }
  intros [j'|i' j'] Hv; unfold upd; simpl in *.
  - try rewrite decide_False by done. by apply (Hb (Near j')).
  - destruct (decide (i' = i)) as [->|Hne].
    + rewrite zget_insert_eq by lia. simpl.
      destruct (decide (Level i j' = Level i j)) as [[= ->]|Hne].
      * by apply zget_insert_eq.
      * rewrite zget_insert_ne by (lia || congruence).
        specialize (Hb (Level i j') Hv). simpl in Hb. by rewrite Hr in Hb.
    + rewrite zget_insert_ne by lia. rewrite decide_False by congruence.
      by apply (Hb (Level i' j')).
Qed.

(** What it takes to reach one slot of the levels. *)
Lemma level_access T f i j :
  buckets T f -> valid_bucket (Level i j) ->
  exists row, zget (t_t T) i = Some row /\ zget row j = Some (f (Level i j)) /\
    forall l, exists row' t, zset row j l = Some row' /\ zset (t_t T) i row' = Some t.
Proof.
  intros [(Hn & Ht & Hrow) Hb] Hv. pose proof (Hb _ Hv) as Hg. simpl in Hg.
  destruct Hv as [Hi Hj]. destruct (zget (t_t T) i) as [row|] eqn:Hr; simpl in Hg; [|done].
  exists row. split_and!; [done..|]. intros l. pose proof (Hrow _ _ Hr).
  rewrite zset_eq by lia. eexists. rewrite zset_eq by lia. eauto.
Qed.

Definition same_clock (T T' : timer) : Prop :=
  t_time T' = t_time T /\ t_starttime T' = t_starttime T /\
  t_current T' = t_current T /\ t_current_point T' = t_current_point T.

Lemma link_bucket_spec T f b n :
  buckets T f -> valid_bucket b ->
  exists T', link_bucket T b n = Some T' /\ same_clock T T' /\
    buckets T' (upd f b (f b ++ [n])).
Proof.
  intros HT Hv. pose proof HT as [(Hn & Ht & Hrow) Hb]. destruct b as [j|i j]; simpl.
  - unfold link_near. pose proof (Hb (Near j) Hv) as Hg. simpl in Hg, Hv. rewrite Hg. simpl.
    rewrite zset_eq by lia. simpl. eexists. split; [done|]. split; [done|].
    eapply buckets_set_near; [done..|]. rewrite zset_eq by lia. done.
  - unfold link_level. destruct (level_access _ _ _ _ HT Hv) as (row & Hr & Hl & Hset).
    rewrite Hr. simpl. rewrite Hl. simpl.
    destruct (Hset (link (f (Level i j)) n)) as (row' & t & H1 & H2).
    rewrite H1. simpl. rewrite H2. simpl. eexists. split; [done|]. split; [done|].
    by eapply buckets_set_level.
Qed.

Definition at_slot (t : Z) (b : bucket) (l : link_list) : link_list :=
  filter (fun n => slot (expire n) t = b) l.

Lemma add_nodes_spec ns T f :
  buckets T f -> Forall (fun n => 0 <= expire n) ns ->
  exists T', add_nodes T ns = Some T' /\ same_clock T T' /\
    buckets T' (fun b => f b ++ at_slot (t_time T) b ns).
Proof.
  intros HT Hns. revert T f HT. induction Hns as [|n ns He Hns IH]; intros T f HT; simpl.
  { exists T. split_and!; [done..|]. eapply buckets_ext; [done|].
    intros. by rewrite app_nil_r. }
  rewrite add_node_slot by done.
  destruct (link_bucket_spec T f (slot (expire n) (t_time T)) n HT) as (T1 & -> & Hc & HT1);
    [by apply slot_valid|]. simpl.
  destruct (IH T1 _ HT1) as (T2 & -> & Hc2 & HT2). destruct Hc as (Hc & ? & ? & ?).
  destruct Hc2 as (? & ? & ? & ?). exists T2. split; [done|].
  split; [split_and!; congruence|]. rewrite Hc in HT2.
  eapply buckets_ext; [done|]. intros b _. unfold upd, at_slot. simpl. rewrite filter_cons.
  destruct (decide (b = _)) as [->|].
  - rewrite decide_True by done. by rewrite <- app_assoc.
  - rewrite decide_False by congruence. done.
Qed.

Lemma move_list_spec T f i j :
  buckets T f -> valid_bucket (Level i j) ->
  Forall (fun n => 0 <= expire n) (f (Level i j)) ->
  exists T', move_list T i j = Some T' /\ same_clock T T' /\
    buckets T' (fun b => upd f (Level i j) [] b ++ at_slot (t_time T) b (f (Level i j))).
Proof.
  intros HT Hv Hf. unfold move_list.
  destruct (level_access _ _ _ _ HT Hv) as (row & Hr & Hl & Hset).
  rewrite Hr. simpl. rewrite Hl. simpl.
  destruct (Hset []) as (row' & t & H1 & H2). rewrite H1. simpl. rewrite H2. simpl.
  pose proof (buckets_set_level _ _ _ _ _ _ _ _ HT Hv Hr H1 H2) as HT1.
  destruct (add_nodes_spec _ _ _ HT1 Hf) as (T' & ? & ? & ?). eauto.
Qed.

(** ** One tick of the clock *)

(** A node is pending at [t] when it expires 1 to 2^31 - 1 ticks after [t]. *)
Definition pending (t e : Z) : Prop := is_u32 e /\ 1 <= (e - t) mod 2 ^ 32 < 2 ^ 31.
Definition tick (t : Z) : Z := u32 (t + 1).

(** The slot the cascade empties when the clock becomes [ct]. *)
Definition cascade (ct : Z) : option bucket :=
  if negb (ct mod 256 =? 0) then None
  else if negb (ct mod 16384 =? 0) then Some (Level 0 ((ct / 256) mod 64))
  else if negb (ct mod 1048576 =? 0) then Some (Level 1 ((ct / 16384) mod 64))
  else if negb (ct mod 67108864 =? 0) then Some (Level 2 ((ct / 1048576) mod 64))
  else Some (Level 3 ((ct / 67108864) mod 64)).

Lemma tick_cases t :
  is_u32 t -> (t < 4294967295 /\ tick t = t + 1) \/ (t = 4294967295 /\ tick t = 0).
Proof.
  unfold is_u, tick, u32, wrap. change (2 ^ 32) with 4294967296. intros.
  destruct (decide (t = 4294967295)) as [->|]; [by right|]. left. rewrite Z.mod_small; lia.
Qed.

Lemma pending_cases t e :
  is_u32 t -> pending t e ->
  (t < e /\ e - t < 2147483648) \/ (e < t /\ e - t + 4294967296 < 2147483648).
Proof.
  unfold pending, is_u. change (2 ^ 32) with 4294967296. change (2 ^ 31) with 2147483648.
  intros ? [? ?]. destruct (Z.lt_ge_cases e t).
  - right. assert (e - t + 4294967296 = (e - t) mod 4294967296); [|lia].
    apply (Z.mod_unique_pos _ _ (-1)); lia.
  - left. rewrite Z.mod_small in * by lia. lia.
Qed.

(** Inside a block of [p] ticks the block number stays. *)
Lemma tick_same_block p t :
  0 < p -> is_u32 t -> tick t mod p <> 0 -> t / p = tick t / p.
Proof.
  intros Hp Ht Hm. destruct (tick_cases t Ht) as [[? Hk]|[? Hk]]; rewrite Hk in *.
  2: { exfalso. apply Hm. by rewrite Zmod_0_l. }
  pose proof (Z.mod_pos_bound (t + 1) p Hp). pose proof (Z.div_mod (t + 1) p ltac:(lia)).
  symmetry. apply Z.div_unique_pos with (r := (t + 1) mod p - 1); lia.
Qed.

(** At the end of a block nothing pending is left in it. *)
Lemma pending_leaves_block p q t e :
  0 < p -> 2 <= q -> p * q = 4294967296 -> is_u32 t -> pending t e -> tick t mod p = 0 -> e / p <> t / p.
Proof.
  intros Hp Hq2 Hq Ht He Hm Heq. pose proof (pending_cases t e Ht He) as Hc.
  assert (exists k, t + 1 = k * p) as [k Hk].
  { destruct (tick_cases t Ht) as [[? Hk]|[-> Hk]]; rewrite Hk in Hm.
    - apply Z.mod_divide in Hm as [k ?]; [|lia]. by exists k.
    - exists q. lia. }
  assert (t / p = k - 1) as Htp by (symmetry; apply Z.div_unique_pos with (r := p - 1); lia).
  pose proof (Z.div_mod e p ltac:(lia)). pose proof (Z.mod_pos_bound e p Hp).
  rewrite Heq, Htp in *. unfold is_u in *.
  assert (k <= q) by nia. nia.
Qed.

Lemma block_up p a b : 0 < p -> a / p = b / p -> a / (p * 64) = b / (p * 64).
Proof. intros. rewrite <- !Z.div_div by lia. congruence. Qed.

Lemma block_down p a b :
  0 < p -> a / (p * 64) = b / (p * 64) -> (a / p) mod 64 = (b / p) mod 64 -> a / p = b / p.
Proof.
  intros Hp H1 H2. rewrite <- !Z.div_div in H1 by lia.
  rewrite (Z.div_mod (a / p) 64), (Z.div_mod (b / p) 64) by lia. lia.
Qed.

(** The block comparisons of [e] with the clock before and after the tick, at
    the four block sizes. *)
Lemma blocks_at_tick p q t e :
  0 < p -> 2 <= q -> p * q = 4294967296 -> is_u32 t -> pending t e ->
  (e / p =? t / p) = if tick t mod p =? 0 then false else e / p =? tick t / p.
Proof.
  intros Hp Hq2 Hq Ht He. destruct (Z.eqb_spec (tick t mod p) 0) as [Hm|Hm].
  - apply Z.eqb_neq. by eapply pending_leaves_block.
  - by rewrite (tick_same_block p t).
Qed.

Lemma mod_up p a : 0 < p -> a mod (p * 64) = 0 -> a mod p = 0.
Proof.
  intros Hp Hm. apply Z.mod_divide; [lia|]. apply Z.mod_divide in Hm as [k ->]; [|lia].
  exists (k * 64). lia.
Qed.

Lemma block_up_eqb p a b : 0 < p -> (a / p =? b / p) = true -> (a / (p * 64) =? b / (p * 64)) = true.
Proof. intros ? H%Z.eqb_eq. apply Z.eqb_eq. by apply block_up. Qed.

Lemma slot_tick t e :
  is_u32 t -> pending t e ->
  slot e t =
    (if negb (tick t mod 256 =? 0) then slot e (tick t)
     else if negb (tick t mod 16384 =? 0) then
       if e / 16384 =? tick t / 16384 then Level 0 ((e / 256) mod 64) else slot e (tick t)
     else if negb (tick t mod 1048576 =? 0) then
       if e / 1048576 =? tick t / 1048576 then Level 1 ((e / 16384) mod 64) else slot e (tick t)
     else if negb (tick t mod 67108864 =? 0) then
       if e / 67108864 =? tick t / 67108864 then Level 2 ((e / 1048576) mod 64) else slot e (tick t)
     else Level 3 ((e / 67108864) mod 64)).
Proof.
  intros Ht He. unfold slot at 1.
  rewrite (blocks_at_tick 256 16777216), (blocks_at_tick 16384 262144),
    (blocks_at_tick 1048576 4096), (blocks_at_tick 67108864 64) by (done || lia).
  pose proof (mod_up 256 (tick t) ltac:(lia)) as H1. change (256 * 64) with 16384 in H1.
  pose proof (mod_up 16384 (tick t) ltac:(lia)) as H2. change (16384 * 64) with 1048576 in H2.
  pose proof (mod_up 1048576 (tick t) ltac:(lia)) as H3. change (1048576 * 64) with 67108864 in H3.
  pose proof (block_up_eqb 256 e (tick t) ltac:(lia)) as B1. change (256 * 64) with 16384 in B1.
  pose proof (block_up_eqb 16384 e (tick t) ltac:(lia)) as B2. change (16384 * 64) with 1048576 in B2.
  pose proof (block_up_eqb 1048576 e (tick t) ltac:(lia)) as B3. change (1048576 * 64) with 67108864 in B3.
  unfold slot.
  destruct (Z.eqb_spec (tick t mod 256) 0), (Z.eqb_spec (tick t mod 16384) 0),
    (Z.eqb_spec (tick t mod 1048576) 0), (Z.eqb_spec (tick t mod 67108864) 0); simpl;
    try tauto;
    destruct (e / 256 =? tick t / 256), (e / 16384 =? tick t / 16384),
      (e / 1048576 =? tick t / 1048576), (e / 67108864 =? tick t / 67108864);
    try done; try (specialize (B1 eq_refl); discriminate);
    try (specialize (B2 eq_refl); discriminate); try (specialize (B3 eq_refl); discriminate).
Qed.

(** The coarseness of a slot: a node at rank [k] or less shares the clock's
    block of the [k]-th size. *)
Definition rank (b : bucket) : Z := match b with Near _ => 0 | Level i _ => i + 1 end.

Lemma slot_rank e c :
  (e / 256 = c / 256 <-> rank (slot e c) <= 0) /\
  (e / 16384 = c / 16384 <-> rank (slot e c) <= 1) /\
  (e / 1048576 = c / 1048576 <-> rank (slot e c) <= 2) /\
  (e / 67108864 = c / 67108864 <-> rank (slot e c) <= 3).
Proof.
  pose proof (block_up 256 e c ltac:(lia)) as B1. change (256 * 64) with 16384 in B1.
  pose proof (block_up 16384 e c ltac:(lia)) as B2. change (16384 * 64) with 1048576 in B2.
  pose proof (block_up 1048576 e c ltac:(lia)) as B3. change (1048576 * 64) with 67108864 in B3.
  unfold slot.
  destruct (Z.eqb_spec (e / 256) (c / 256)), (Z.eqb_spec (e / 16384) (c / 16384)),
    (Z.eqb_spec (e / 1048576) (c / 1048576)), (Z.eqb_spec (e / 67108864) (c / 67108864));
    cbn [rank]; lia || tauto.
Qed.

(** [slot e c] when [e] leaves the [p]-block of [c] but not the next one. *)
Lemma slot_at_rank e c b :
  b = slot e c -> valid_bucket b ->
  match b with
  | Near j => e / 256 = c / 256 /\ j = e mod 256
  | Level i j => e / (256 * 64 ^ i) <> c / (256 * 64 ^ i) /\ j = (e / (256 * 64 ^ i)) mod 64
  end.
Proof.
  intros -> Hv. unfold slot in *.
  destruct (Z.eqb_spec (e / 256) (c / 256)), (Z.eqb_spec (e / 16384) (c / 16384)),
    (Z.eqb_spec (e / 1048576) (c / 1048576)), (Z.eqb_spec (e / 67108864) (c / 67108864)); done.
Qed.

(** A node outside the cascaded slot is still where it belongs after the tick. *)
Lemma slot_stay t e :
  is_u32 t -> pending t e -> cascade (tick t) <> Some (slot e t) -> slot e (tick t) = slot e t.
Proof.
  intros Ht He Hc. rewrite (slot_tick t e Ht He) in Hc |- *. unfold cascade in Hc.
  pose proof (slot_rank e (tick t)) as (R0 & R1 & R2 & R3).
  repeat match goal with
  | |- context [tick t mod ?p =? 0] => destruct (Z.eqb_spec (tick t mod p) 0); simpl in *
  | |- context [?a / ?b =? ?c] => destruct (Z.eqb_spec (a / b) c); simpl in *
  end; try done; unfold slot.
  - assert (e / 67108864 <> tick t / 67108864) by (intros Heq; rewrite Heq in Hc; done).
    rewrite !(proj2 (Z.eqb_neq _ _)) by (rewrite ?R0, ?R1, ?R2 in *; lia). done.
  - assert (e / 1048576 <> tick t / 1048576) by (intros Heq; rewrite Heq in Hc; done).
    rewrite !(proj2 (Z.eqb_neq (e / 256) _)), !(proj2 (Z.eqb_neq (e / 16384) _)),
      !(proj2 (Z.eqb_neq (e / 1048576) _)), (proj2 (Z.eqb_eq _ _)) by (done || lia). done.
  - assert (e / 16384 <> tick t / 16384) by (intros Heq; rewrite Heq in Hc; done).
    rewrite !(proj2 (Z.eqb_neq (e / 256) _)), !(proj2 (Z.eqb_neq (e / 16384) _)),
      (proj2 (Z.eqb_eq _ _)) by (done || lia). done.
  - assert (e / 256 <> tick t / 256) by (intros Heq; rewrite Heq in Hc; done).
    rewrite !(proj2 (Z.eqb_neq (e / 256) _)), (proj2 (Z.eqb_eq _ _)) by (done || lia). done.
Qed.


Lemma is_u32_tick t : is_u32 (tick t).
Proof. apply wrap_range. lia. Qed.

Lemma top_block_eq e c : is_u32 e -> is_u32 c ->
  (e / 67108864) mod 64 = (c / 67108864) mod 64 -> e / 67108864 = c / 67108864.
Proof.
  assert (forall x, is_u32 x -> (x / 67108864) mod 64 = x / 67108864) as H.
  { unfold is_u. intros x Hx. change (2 ^ 32) with 4294967296 in Hx. apply Z.mod_small.
    split; [apply Z.div_pos; lia|apply Z.div_lt_upper_bound; lia]. }
  intros He Hc. by rewrite !H.
Qed.

(** Splits on the sizes of the block that ends at the tick. *)
Ltac cascade_cases :=
  repeat match goal with
  | H : context [tick ?t mod ?p =? 0] |- _ => destruct (Z.eqb_spec (tick t mod p) 0); simpl in H
  | |- context [tick ?t mod ?p =? 0] => destruct (Z.eqb_spec (tick t mod p) 0); simpl
  end.

(** A cascaded node moves to a finer slot ... *)
Lemma cascade_moves_down t e :
  is_u32 t -> pending t e -> cascade (tick t) = Some (slot e t) ->
  rank (slot e (tick t)) < rank (slot e t).
Proof.
  intros Ht He. rewrite (slot_tick t e Ht He). unfold cascade.
  pose proof (slot_rank e (tick t)) as (R0 & R1 & R2 & R3).
  pose proof (block_down 256 e (tick t) ltac:(lia)) as D0. change (256 * 64) with 16384 in D0.
  pose proof (block_down 16384 e (tick t) ltac:(lia)) as D1.
  change (16384 * 64) with 1048576 in D1.
  pose proof (block_down 1048576 e (tick t) ltac:(lia)) as D2.
  change (1048576 * 64) with 67108864 in D2.
  pose proof (top_block_eq e (tick t) (proj1 He) (is_u32_tick t)) as D3.
  cascade_cases; try done.
  - intros [= Hj]. cbn [rank]. specialize (D3 (eq_sym Hj)). apply R3 in D3. lia.
  - destruct (Z.eqb_spec (e / 67108864) (tick t / 67108864)) as [E|E].
    + intros [= Hj]. cbn [rank]. specialize (D2 E (eq_sym Hj)). apply R2 in D2. lia.
    + intros [= Hj]. rewrite <- Hj in R3. cbn [rank] in R3. exfalso. apply E, R3. lia.
  - destruct (Z.eqb_spec (e / 1048576) (tick t / 1048576)) as [E|E].
    + intros [= Hj]. cbn [rank]. specialize (D1 E (eq_sym Hj)). apply R1 in D1. lia.
    + intros [= Hj]. rewrite <- Hj in R2. cbn [rank] in R2. exfalso. apply E, R2. lia.
  - destruct (Z.eqb_spec (e / 16384) (tick t / 16384)) as [E|E].
    + intros [= Hj]. cbn [rank]. specialize (D0 E (eq_sym Hj)). apply R0 in D0. lia.
    + intros [= Hj]. rewrite <- Hj in R1. cbn [rank] in R1. exfalso. apply E, R1. lia.
Qed.

(** ... and no pending node sits in a slot finer than the cascaded one. *)
Lemma cascade_lowest t e b :
  is_u32 t -> pending t e -> cascade (tick t) = Some b -> rank b <= rank (slot e t).
Proof.
  intros Ht He. rewrite (slot_tick t e Ht He). unfold cascade.
  pose proof (slot_rank e (tick t)) as (R0 & R1 & R2 & R3).
  cascade_cases; try done; intros [= <-]; cbn [rank]; try lia.
  - destruct (Z.eqb_spec (e / 67108864) (tick t / 67108864)); cbn [rank]; lia.
  - destruct (Z.eqb_spec (e / 1048576) (tick t / 1048576)); cbn [rank]; lia.
  - destruct (Z.eqb_spec (e / 16384) (tick t / 16384)); cbn [rank]; lia.
Qed.

(** ** The wheel represents the list of pending timers *)

Definition wheel (T : timer) (l : link_list) : Prop :=
  is_u32 (t_time T) /\ buckets T (fun b => at_slot (t_time T) b l) /\
  Forall (fun n => is_u32 (expire n)) l.

Definition all_pending (t : Z) (l : link_list) : Prop := Forall (fun n => pending t (expire n)) l.

Lemma at_slot_ext t t' b b' l :
  Forall (fun n => slot (expire n) t = b <-> slot (expire n) t' = b') l ->
  at_slot t b l = at_slot t' b' l.
Proof.
  intros H. unfold at_slot. induction H as [|n l Hn Hl IH]; [done|].
  rewrite !filter_cons, IH. repeat case_decide; tauto || done.
Qed.

Lemma at_slot_nil t b l : Forall (fun n => slot (expire n) t <> b) l -> at_slot t b l = [].
Proof. rewrite Forall_forall. apply filter_none. Qed.

Lemma at_slot_at_slot t b t' b' l :
  Forall (fun n => slot (expire n) t = b -> slot (expire n) t' = b') l ->
  at_slot t b (at_slot t' b' l) = at_slot t b l.
Proof.
  intros H. unfold at_slot. induction H as [|n l Hn Hl IH]; [done|].
  rewrite !filter_cons. repeat case_decide; try tauto; rewrite ?filter_cons;
    repeat case_decide; try tauto; congruence.
Qed.

Lemma at_slot_at_slot_nil t b t' b' l :
  Forall (fun n => slot (expire n) t' = b' -> slot (expire n) t <> b) l ->
  at_slot t b (at_slot t' b' l) = [].
Proof.
  intros H. apply at_slot_nil. unfold at_slot. apply Forall_forall.
  intros n [? Hn]%list_elem_of_filter. rewrite Forall_forall in H. by apply H.
Qed.

Lemma mod_split p a : 0 < p -> (a mod (p * 64) =? 0) = (a mod p =? 0) && ((a / p) mod 64 =? 0).
Proof.
  intros Hp. rewrite (Z.rem_mul_r a p 64) by lia.
  pose proof (Z.mod_pos_bound a p Hp). pose proof (Z.mod_pos_bound (a / p) 64 ltac:(lia)).
  destruct (Z.eqb_spec (a mod p) 0), (Z.eqb_spec ((a / p) mod 64) 0); simpl;
    (apply Z.eqb_eq || apply Z.eqb_neq); nia.
Qed.

(** The code's loop computes [cascade]. *)
Lemma timer_shift_cascade T :
  timer_shift T =
    let ct := tick (t_time T) in
    match cascade ct with
    | None => Some (set_time T ct)
    | Some (Level i j) => move_list (set_time T ct) i j
    | Some (Near _) => None
    end.
Proof.
  unfold timer_shift. fold (tick (t_time T)). cbv zeta. pose proof (is_u32_tick (t_time T)) as Hu.
  set (ct := tick (t_time T)) in *. destruct (Z.eqb_spec ct 0) as [->|H0]; [done|].
  change TIME_NEAR with 256. change TIME_NEAR_SHIFT with 8.
  pose proof (mod_split 256 ct ltac:(lia)) as M0. change (256 * 64) with 16384 in M0.
  pose proof (mod_split 16384 ct ltac:(lia)) as M1. change (16384 * 64) with 1048576 in M1.
  pose proof (mod_split 1048576 ct ltac:(lia)) as M2. change (1048576 * 64) with 67108864 in M2.
  unfold cascade. cbn [shift_loop].
  change TIME_LEVEL_MASK with 63. change TIME_LEVEL_SHIFT with 6.
  change (Z.shiftl 256 6 - 1) with (16384 - 1).
  change (Z.shiftl (Z.shiftl 256 6) 6 - 1) with (1048576 - 1).
  change (Z.shiftl (Z.shiftl (Z.shiftl 256 6) 6) 6 - 1) with (67108864 - 1).
  rewrite !Z.shiftr_shiftr by lia. rewrite !Z.shiftr_div_pow2 by lia.
  change (8 + 6) with 14. change (14 + 6) with 20. change (20 + 6) with 26.
  change (2 ^ 8) with 256. change (2 ^ 14) with 16384. change (2 ^ 20) with 1048576.
  change (2 ^ 26) with 67108864.
  rewrite !land_63.
  rewrite (wrap_land 8), (wrap_land 14), (wrap_land 20), (wrap_land 26) by lia.
  unfold wrap. change (2 ^ 8) with 256. change (2 ^ 14) with 16384.
  change (2 ^ 20) with 1048576. change (2 ^ 26) with 67108864.
  rewrite M2, M1, M0.
  destruct (Z.eqb_spec (ct mod 256) 0) as [E0|]; simpl; [|done].
  destruct (Z.eqb_spec ((ct / 256) mod 64) 0) as [E1|]; simpl; [|done].
  destruct (Z.eqb_spec ((ct / 16384) mod 64) 0) as [E2|]; simpl; [|done].
  destruct (Z.eqb_spec ((ct / 1048576) mod 64) 0) as [E3|]; simpl; [|done].
  destruct (Z.eqb_spec ((ct / 67108864) mod 64) 0) as [E4|]; simpl; [|done].
  exfalso. apply H0. simpl in M0. rewrite M0 in M1. simpl in M1. rewrite M1 in M2.
  simpl in M2. apply Z.eqb_eq in M2.
  pose proof (top_block_eq ct 0 Hu ltac:(done) E4) as Hz. change (0 / 67108864) with 0 in Hz.
  rewrite (Z.div_mod ct 67108864) by lia. lia.
Qed.

Lemma shift_spec T l :
  wheel T l -> all_pending (t_time T) l ->
  exists T', timer_shift T = Some T' /\ t_time T' = tick (t_time T) /\ wheel T' l /\
    t_current T' = t_current T /\ t_current_point T' = t_current_point T.
Proof.
  intros (Ht & Hb & Hu) Hp. rewrite timer_shift_cascade. cbv zeta.
  set (t := t_time T) in *. pose proof (is_u32_tick t) as Hut.
  destruct (cascade (tick t)) as [[j|i j]|] eqn:Hc.
  - exfalso. unfold cascade in Hc. repeat case_match; done.
  - assert (buckets (set_time T (tick t)) (fun b => at_slot t b l)) as HT by exact Hb.
    assert (valid_bucket (Level i j)) as Hv.
    { unfold cascade in Hc. repeat case_match; simplify_eq/=;
        (split; [lia|apply Z.mod_pos_bound; lia]). }
    destruct (move_list_spec _ _ i j HT Hv) as (T' & -> & Hk & HT').
    { apply Forall_forall. intros n [_ Hn]%list_elem_of_filter.
      rewrite Forall_forall in Hu. apply (Hu n Hn). }
    destruct Hk as (Hk & _ & ? & ?). simpl in Hk, HT'. exists T'. split_and!; try done.
    unfold wheel. rewrite Hk. split_and!; try done. eapply buckets_ext; [exact HT'|]. intros b _. cbv beta.
    assert (forall n, n ∈ l -> slot (expire n) t = Level i j ->
              rank (slot (expire n) (tick t)) < rank (Level i j)) as Hdown.
    { intros n Hn Hs. rewrite <- Hs. apply cascade_moves_down; [done| |by rewrite Hs].
      unfold all_pending in Hp. rewrite Forall_forall in Hp. by apply Hp. }
    assert (forall n, n ∈ l -> rank (Level i j) <= rank (slot (expire n) t)) as Hlow.
    { intros n Hn. apply (cascade_lowest t); [done| |done].
      unfold all_pending in Hp. rewrite Forall_forall in Hp. by apply Hp. }
    assert (forall n, n ∈ l -> slot (expire n) t <> Level i j ->
              slot (expire n) (tick t) = slot (expire n) t) as Hstay.
    { intros n Hn Hne. apply slot_stay; [done| |congruence].
      unfold all_pending in Hp. rewrite Forall_forall in Hp. by apply Hp. }
    unfold upd. destruct (decide (b = Level i j)) as [->|Hbne].
    + rewrite at_slot_at_slot_nil, at_slot_nil; [done| |]; apply Forall_forall; intros n Hn.
      * intros Heq. destruct (decide (slot (expire n) t = Level i j)) as [E|E].
        -- specialize (Hdown n Hn E). rewrite Heq in Hdown. lia.
        -- rewrite Hstay in Heq; done.
      * intros E Heq. specialize (Hdown n Hn E). rewrite Heq in Hdown. lia.
    + destruct (Z.lt_ge_cases (rank b) (rank (Level i j))) as [Hlt|Hge].
      * rewrite (at_slot_nil t), at_slot_at_slot; [done| |]; apply Forall_forall; intros n Hn.
        -- intros Heq. destruct (decide (slot (expire n) t = Level i j)); [done|].
           specialize (Hlow n Hn). rewrite <- Hstay in Hlow by done. rewrite Heq in Hlow. lia.
        -- intros Heq. specialize (Hlow n Hn). rewrite Heq in Hlow. lia.
      * rewrite at_slot_at_slot_nil, app_nil_r; [apply at_slot_ext|]; apply Forall_forall;
          intros n Hn.
        -- destruct (decide (slot (expire n) t = Level i j)) as [E|E].
           ++ specialize (Hdown n Hn E). split; intros Heq; [congruence|].
              rewrite Heq in Hdown. lia.
           ++ by rewrite Hstay.
        -- intros E Heq. specialize (Hdown n Hn E). rewrite Heq in Hdown. lia.
  - exists (set_time T (tick t)). split_and!; try done. unfold wheel. simpl. split_and!; try done.
    eapply buckets_ext; [exact Hb|]. intros b _. apply at_slot_ext, Forall_forall.
    intros n Hn. rewrite slot_stay; [done|done| |by rewrite Hc].
    unfold all_pending in Hp. rewrite Forall_forall in Hp. by apply Hp.
Qed.

(** ** Dispatch *)

(** The near slot of the current tick holds exactly the nodes that are due. *)
Lemma slot_due t e : slot e t = Near (t mod 256) <-> e = t.
Proof.
  split; [|intros ->; unfold slot; by rewrite Z.eqb_refl].
  intros Hs. pose proof (proj1 (slot_rank e t)) as R. rewrite Hs in R. cbn [rank] in R.
  assert (e / 256 = t / 256) as E by (apply R; lia).
  unfold slot in Hs. rewrite (proj2 (Z.eqb_eq _ _) E) in Hs. injection Hs as Hs.
  rewrite (Z.div_mod e 256), (Z.div_mod t 256) by lia. congruence.
Qed.

Definition due (t : Z) (l : link_list) : link_list := filter (fun n => expire n = t) l.
Definition not_due (t : Z) (l : link_list) : link_list := filter (fun n => expire n <> t) l.

Lemma at_slot_due t l : at_slot t (Near (t mod 256)) l = due t l.
Proof. apply list_filter_iff. intros n. apply slot_due. Qed.

Lemma execute_spec T l :
  wheel T l ->
  exists T', timer_execute T = Some (dispatch_list (due (t_time T) l), T') /\
    same_clock T T' /\ wheel T' (not_due (t_time T) l).
Proof.
  intros (Ht & Hb & Hu). unfold timer_execute. change TIME_NEAR_MASK with 255. rewrite land_255.
  set (t := t_time T) in *.
  assert (0 <= t mod 256 < 256) as Hj by (apply Z.mod_pos_bound; lia).
  pose proof (proj2 Hb (Near (t mod 256)) Hj) as Hg. simpl in Hg. rewrite at_slot_due in Hg.
  assert (Forall (fun n => is_u32 (expire n)) (not_due t l)) as Hu'.
  { apply Forall_forall. intros n [_ Hn]%list_elem_of_filter. rewrite Forall_forall in Hu. auto. }
  assert (forall f, (forall b, valid_bucket b ->
            f b = if decide (b = Near (t mod 256)) then [] else at_slot t b l) ->
          forall b, valid_bucket b -> f b = at_slot t b (not_due t l)) as Hrest.
  { intros f Hf b Hv. rewrite Hf by done. unfold not_due, at_slot.
    rewrite list_filter_filter. destruct (decide (b = _)) as [->|Hne].
    - symmetry. apply filter_none. intros n _ [Hn%slot_due ?]. done.
    - apply list_filter_iff. intros n. split; [|tauto]. intros Hs. split; [done|].
      intros He. apply Hne. rewrite <- Hs. by apply slot_due. }
  cbn [execute_loop]. rewrite Hg. simpl. destruct (due t l) as [|n d] eqn:Hd.
  - exists T. split; [done|]. split; [done|]. split; [done|]. split; [|done].
    eapply buckets_ext; [exact Hb|]. apply Hrest. intros b Hv.
    case_decide as E; [|done]. subst b. by rewrite at_slot_due.
  - rewrite zset_eq by (destruct Hb as [(? & _) _]; lia). simpl.
    set (T1 := set_near T _).
    assert (buckets T1 (upd (fun b => at_slot t b l) (Near (t mod 256)) [])) as Hb1.
    { eapply buckets_set_near; [exact Hb|done|]. rewrite zset_eq; [done|].
      destruct Hb as [(? & _) _]. lia. }
    pose proof (proj2 Hb1 (Near (t mod 256)) Hj) as Hg1. simpl in Hg1.
    unfold upd in Hg1. rewrite decide_True in Hg1 by done. fold (t_near T1).
    simpl. rewrite Hg1. simpl. exists T1. rewrite app_nil_r. split; [done|]. split; [done|].
    split; [done|]. split; [|done]. eapply buckets_ext; [exact Hb1|].
    apply Hrest. intros b _. unfold upd. done.
Qed.

Definition ticks_left (t : Z) (n : timer_node) : Z := (expire n - t) mod 2 ^ 32.

Lemma due_ticks t n : is_u32 t -> is_u32 (expire n) -> expire n = t <-> ticks_left t n = 0.
Proof.
  unfold is_u, ticks_left. intros Ht He. split; [intros ->; by rewrite Z.sub_diag|].
  intros Hm. apply Z.mod_divide in Hm as [k Hk]; [|done].
  change (2 ^ 32) with 4294967296 in *. assert (k = 0) by nia. lia.
Qed.

Lemma ticks_left_tick t n :
  1 <= ticks_left t n -> ticks_left (tick t) n = ticks_left t n - 1.
Proof.
  unfold ticks_left, tick, u32, wrap. intros H. rewrite Zminus_mod_idemp_r.
  pose proof (Z.mod_pos_bound (expire n - t) (2 ^ 32) ltac:(lia)).
  symmetry. apply (Z.mod_unique_pos _ _ ((expire n - t) / 2 ^ 32)); [lia|].
  pose proof (Z.div_mod (expire n - t) (2 ^ 32) ltac:(lia)). lia.
Qed.

Lemma all_pending_not_due t l : is_u32 t -> all_pending t l -> due t l = [] /\ not_due t l = l.
Proof.
  intros Ht Hp. unfold due, not_due. induction Hp as [|n l [Hu Hn] Hl [IH1 IH2]]; [done|].
  rewrite !filter_cons. assert (expire n <> t) as Hne.
  { rewrite due_ticks by done. unfold ticks_left. lia. }
  rewrite decide_False, decide_True by done. by rewrite IH1, IH2.
Qed.

Lemma update_spec T l :
  wheel T l -> all_pending (t_time T) l ->
  exists T', timer_update T = Some (dispatch_list (due (tick (t_time T)) l), T') /\
    t_time T' = tick (t_time T) /\ wheel T' (not_due (tick (t_time T)) l) /\
    all_pending (tick (t_time T)) (not_due (tick (t_time T)) l) /\
    t_current T' = t_current T /\ t_current_point T' = t_current_point T.
Proof.
  intros Hw Hp. unfold timer_update.
  destruct (execute_spec T l Hw) as (T1 & -> & (Hc1 & _ & Hc2 & Hc3) & Hw1). simpl.
  destruct (all_pending_not_due _ _ (proj1 Hw) Hp) as [-> Hnd]. rewrite Hnd in Hw1.
  destruct (shift_spec T1 l Hw1) as (T2 & -> & Ht2 & Hw2 & Hs2 & Hs3); [by rewrite Hc1|]. simpl.
  destruct (execute_spec T2 _ Hw2) as (T3 & -> & (Hc4 & _ & Hc5 & Hc6) & Hw3). simpl.
  rewrite Hc1 in Ht2. rewrite Ht2 in *. exists T3. split_and!; try congruence.
  apply Forall_forall. intros n [Hn Hin]%list_elem_of_filter. unfold all_pending in Hp.
  rewrite Forall_forall in Hp. destruct (Hp n Hin) as [Hu Hr]. split; [done|].
  fold (ticks_left (tick (t_time T)) n). fold (ticks_left (t_time T) n) in Hr.
  rewrite (due_ticks (tick (t_time T)) n (is_u32_tick _) Hu) in Hn.
  rewrite ticks_left_tick in Hn |- * by lia. lia.
Qed.

Lemma add_spec T l e d :
  wheel T l -> 1 <= d < 2 ^ 31 ->
  exists T', timer_add T e d = Some T' /\ same_clock T T' /\
    wheel T' (l ++ [MkNode (u32 (d + t_time T)) e]) /\
    pending (t_time T) (u32 (d + t_time T)).
Proof.
  intros (Ht & Hb & Hu) Hd. unfold timer_add. set (n := MkNode _ e).
  assert (is_u32 (expire n)) as Hn by (apply wrap_range; lia).
  rewrite add_node_slot by (apply Hn).
  destruct (link_bucket_spec T _ (slot (expire n) (t_time T)) n Hb) as (T' & -> & Hc & Hb');
    [apply slot_valid, Hn|].
  exists T'. split; [done|]. split; [done|]. destruct Hc as (Hc & _). split.
  - unfold wheel. rewrite Hc. split; [done|]. split; [|by apply Forall_app; split; [|constructor]].
    eapply buckets_ext; [exact Hb'|]. intros b _. unfold upd, at_slot.
    rewrite filter_app, filter_cons. case_decide as E.
    + subst b. rewrite decide_True by done. done.
    + rewrite decide_False by congruence. by rewrite app_nil_r.
  - split; [done|]. unfold u32, wrap. rewrite Zminus_mod_idemp_l.
    replace (d + t_time T - t_time T) with d by lia. rewrite Z.mod_small; lia.
Qed.

(** ** The contract of the wheel *)

Inductive timer_op := TAdd (e : timer_event) (d : Z) | TUpdate.

Definition run_timer_op (o : timer_op) (T : timer) : option (list (Z * skynet_message) * timer) :=
  match o with
  | TAdd e d => T' ← timer_add T e d; Some ([], T')
  | TUpdate => timer_update T
  end.

(** The specification keeps the clock and the list of pending timers in the
    order they were added: adding appends, a tick takes out the due ones. *)
Definition spec_timer_op (o : timer_op) (s : Z * link_list)
  : option (list (Z * skynet_message) * (Z * link_list)) :=
  let '(t, l) := s in
  match o with
  | TAdd e d =>
      if bool_decide (1 <= d < 2 ^ 31) then Some ([], (t, l ++ [MkNode (u32 (d + t)) e]))
      else None
  | TUpdate => Some (dispatch_list (due (tick t) l), (tick t, not_due (tick t) l))
  end.

Fixpoint run_timer {S} (step : timer_op -> S -> option (list (Z * skynet_message) * S))
    (os : list timer_op) (s : S) : option (list (list (Z * skynet_message)) * S) :=
  match os with
  | [] => Some ([], s)
  | o :: os' => '(out, s1) ← step o s; '(outs, s2) ← run_timer step os' s1; Some (out :: outs, s2)
  end.

Definition timer_rep (T : timer) (s : Z * link_list) : Prop :=
  t_time T = s.1 /\ wheel T s.2 /\ all_pending s.1 s.2.

(** [C12] The timing wheel refines a list of pending timers: for every
    interleaving of additions (1 to 2^31 - 1 ticks ahead) and ticks, clock
    wrap-around included, each tick dispatches exactly the timers that expire at
    it, in the order they were added, and no slot is accessed out of range. *)
Theorem timer_refines_schedule os T s outs s' :
  timer_rep T s -> run_timer spec_timer_op os s = Some (outs, s') ->
  exists T', run_timer run_timer_op os T = Some (outs, T') /\ timer_rep T' s'.
Proof.
  revert T s outs s'. induction os as [|o os IH]; intros T [t l] outs s' HT Hr; simpl in *.
  { opt_inv. eauto. }
  apply bind_Some in Hr as ([out [t1 l1]] & Hs & Hr).
  apply bind_Some in Hr as ([outs1 s2] & Hr & [= <- <-]).
  assert (exists T1, run_timer_op o T = Some (out, T1) /\ timer_rep T1 (t1, l1))
    as (T1 & -> & HT1).
  { destruct HT as (Ht & Hw & Hp). simpl in *. destruct o as [e d|]; simpl in *.
    - case_bool_decide as Hd; [|done]. injection Hs as <- <- <-.
      destruct (add_spec T l e d Hw Hd) as (T1 & -> & (Hc & _) & Hw1 & Hp1). simpl.
      exists T1. rewrite Ht in *. split; [done|]. split; [done|]. split; [done|].
      apply Forall_app. split; [done|]. by constructor.
    - injection Hs as <- <- <-. rewrite <- Ht in *.
      destruct (update_spec T l Hw Hp) as (T1 & -> & Ht1 & Hw1 & Hp1 & _).
      exists T1. done. }
  simpl. destruct (IH T1 (t1, l1) outs1 s2 HT1 Hr) as (T2 & -> & ?). simpl. eauto.
Qed.

Lemma wheel_create : wheel timer_create_timer [].
Proof.
  split; [done|]. split; [|done]. split.
  - split; [done|]. split; [done|]. intros i row Hi. pose proof (zget_in _ _ _ Hi).
    change (zlen (t_t timer_create_timer)) with 4 in *.
    assert (i = 0 \/ i = 1 \/ i = 2 \/ i = 3) as [-> | [-> | [-> | ->]]] by lia;
      cbv in Hi; by simplify_eq.
  - intros [j|i j] Hv.
    + change (zget (replicate 256 (@nil timer_node)) j = Some []).
      destruct Hv as [? ?]. rewrite zget_nonneg by lia. apply lookup_replicate_2. lia.
    + change ((row ← zget (replicate 4 (replicate 64 (@nil timer_node))) i; zget row j) = Some []).
      destruct Hv as [Hi Hj]. rewrite zget_nonneg by lia. rewrite lookup_replicate_2 by lia. simpl.
      rewrite zget_nonneg by lia. apply (lookup_replicate_2 64). lia.
Qed.

Lemma timer_refines_schedule_witness :
  exists T', run_timer run_timer_op
      [TAdd (MkEvent 9 1) 2; TAdd (MkEvent 8 2) 1; TAdd (MkEvent 7 3) 2; TUpdate; TUpdate]
      timer_create_timer =
    Some ([[]; []; []; [(8, timeout_message 2)]; [(9, timeout_message 1); (7, timeout_message 3)]], T')
    /\ timer_rep T' (2, []).
Proof.
  apply (timer_refines_schedule _ timer_create_timer (0, [])).
  - split; [reflexivity|]. split; [apply wheel_create|constructor].
  - vm_compute. reflexivity.
Defined.

Lemma timer_updates_spec n T l :
  wheel T l -> all_pending (t_time T) l ->
  exists outs T', timer_updates n T = Some (outs, T') /\ length outs = n /\
    (forall k : nat, (k < n)%nat -> outs !! k =
       Some (dispatch_list (filter (fun nd => ticks_left (t_time T) nd = Z.of_nat k + 1) l))) /\
    t_time T' = u32 (t_time T + Z.of_nat n) /\
    t_current T' = t_current T /\ t_current_point T' = t_current_point T /\
    wheel T' (filter (fun nd => Z.of_nat n < ticks_left (t_time T) nd) l).
Proof.
  revert T l. induction n as [|n IH]; intros T l Hw Hp; simpl.
  { exists [], T. split_and!; try done; try lia.
    - rewrite Z.add_0_r. symmetry. apply wrap_small, Hw.
    - rewrite (list_filter_Forall_all _ l); [done|].
      eapply Forall_impl; [exact Hp|]. intros nd [_ Hnd]. unfold ticks_left. lia. }
  destruct (update_spec T l Hw Hp) as (T1 & -> & Ht1 & Hw1 & Hp1 & Hc1 & Hc2). simpl.
  assert (all_pending (t_time T1) (not_due (tick (t_time T)) l)) as Hp1' by by rewrite Ht1.
  destruct (IH T1 _ Hw1 Hp1') as (outs & T2 & -> & Hlen & Hout & Ht2 & Hc3 & Hc4 & Hw2). simpl.
  rewrite Ht1 in *.
  assert (forall nd, nd ∈ l ->
    (expire nd = tick (t_time T) <-> ticks_left (t_time T) nd = 1) /\
    ticks_left (tick (t_time T)) nd = ticks_left (t_time T) nd - 1 /\
    1 <= ticks_left (t_time T) nd) as Hnd.
  { intros nd Hin. unfold all_pending in Hp. rewrite Forall_forall in Hp.
    destruct (Hp nd Hin) as [Hu Hr]. fold (ticks_left (t_time T) nd) in Hr.
    rewrite (due_ticks (tick (t_time T)) nd (is_u32_tick _) Hu), ticks_left_tick by lia.
    split; [|lia]. lia. }
  exists (dispatch_list (due (tick (t_time T)) l) :: outs), T2. split_and!; try done.
  - simpl. by rewrite Hlen.
  - intros [|k] Hk; simpl.
    + do 2 f_equal. apply list_filter_iff_strong. intros nd Hin. rewrite (proj1 (Hnd nd Hin)). lia.
    + rewrite Hout by lia. do 2 f_equal. unfold not_due. rewrite list_filter_filter.
      apply list_filter_iff_strong. intros nd Hin. destruct (Hnd nd Hin) as (H1 & H2 & H3).
      rewrite H1, H2. lia.
  - rewrite Ht2. unfold tick, u32. rewrite wrap_add_l. f_equal. lia.
  - congruence.
  - congruence.
  - unfold not_due in Hw2. rewrite list_filter_filter in Hw2.
    erewrite list_filter_iff_strong; [exact Hw2|]. intros nd Hin.
    destruct (Hnd nd Hin) as (H1 & H2 & H3). rewrite H1, H2. lia.
Qed.

(** [C13] A timer fires once, at its tick: after adding a timer of d ticks
    (1 <= d < 2^31), of any n >= d updates the d-th dispatches it, after the
    timers already due there, and no other update does; the timers that were
    pending fire at the ticks they were set to. *)
Theorem timer_fires_exactly T l e d n :
  wheel T l -> all_pending (t_time T) l -> 1 <= d < 2 ^ 31 -> d <= Z.of_nat n ->
  exists T1 outs T2, timer_add T e d = Some T1 /\ timer_updates n T1 = Some (outs, T2) /\
    length outs = n /\
    forall k : nat, (k < n)%nat -> outs !! k =
      Some (dispatch_list (filter (fun nd => ticks_left (t_time T) nd = Z.of_nat k + 1) l) ++
            (if bool_decide (Z.of_nat k + 1 = d)
             then [(ev_handle e, timeout_message (ev_session e))] else [])).
Proof.
  intros Hw Hp Hd Hn.
  destruct (add_spec T l e d Hw Hd) as (T1 & Ha & (Hc & _) & Hw1 & Hp1).
  assert (all_pending (t_time T1) (l ++ [MkNode (u32 (d + t_time T)) e])) as Hall.
  { rewrite Hc. apply Forall_app. split; [done|]. by constructor. }
  destruct (timer_updates_spec n T1 _ Hw1 Hall) as (outs & T2 & Hu & Hlen & Hout & _).
  exists T1, outs, T2. split_and!; try done. intros k Hk. rewrite (Hout k Hk). f_equal.
  rewrite Hc, filter_app. unfold dispatch_list. rewrite fmap_app. f_equal.
  assert (ticks_left (t_time T) (MkNode (u32 (d + t_time T)) e) = d) as Htl.
  { unfold ticks_left, u32, wrap. simpl. rewrite Zminus_mod_idemp_l.
    rewrite Z.add_simpl_r, Z.mod_small; lia. }
  rewrite filter_cons, Htl. case_bool_decide as Hkd.
  - by rewrite decide_True.
  - rewrite decide_False by lia. done.
Qed.

Lemma timer_fires_exactly_witness :
  exists T1 outs T2, timer_add timer_create_timer (MkEvent 7 42) 300 = Some T1 /\
    timer_updates 310 T1 = Some (outs, T2) /\ length outs = 310%nat /\
    forall k : nat, (k < 310)%nat -> outs !! k =
      Some (dispatch_list (filter (fun nd => ticks_left 0 nd = Z.of_nat k + 1) []) ++
            (if bool_decide (Z.of_nat k + 1 = 300) then [(7, timeout_message 42)] else [])).
Proof.
  apply (timer_fires_exactly timer_create_timer [] (MkEvent 7 42) 300 310).
  - apply wheel_create.
  - constructor.
  - lia.
  - lia.
Defined.

(** Whatever the clock does, the wheel stays a wheel of pending timers, and what it
    dispatches carries no data. *)
Lemma timer_updates_keeps n T l :
  wheel T l -> all_pending (t_time T) l ->
  exists outs T' l', timer_updates n T = Some (outs, T') /\ Forall (fun hm => msg_data hm.2 = 0) (concat outs) /\
    wheel T' l' /\ all_pending (t_time T') l'.
Proof.
  revert T l. induction n as [|n IH]; intros T l Hw Hp; simpl.
  { exists [], T, l. by split_and!. }
  destruct (update_spec T l Hw Hp) as (T1 & -> & Ht1 & Hw1 & Hp1 & _). simpl. rewrite <- Ht1 in Hp1 at 1.
  destruct (IH T1 _ Hw1 Hp1) as (outs & T2 & l2 & -> & Ho & ?). simpl. eexists _, _, l2. split; [done|].
  split; [|done]. simpl. apply Forall_app. split; [|done]. unfold dispatch_list. apply Forall_fmap.
  by apply Forall_true.
Qed.

Lemma updatetime_keeps T l cp :
  wheel T l -> all_pending (t_time T) l ->
  exists outs T' l', skynet_updatetime cp T = Some (outs, T') /\ Forall (fun hm => msg_data hm.2 = 0) (concat outs) /\
    wheel T' l' /\ all_pending (t_time T') l'.
Proof.
  intros Hw Hp. unfold skynet_updatetime.
  destruct (cp <? _); [by eexists [], _, l|]. destruct (negb _); [|by eexists [], _, l].
  by apply (timer_updates_keeps _ _ l).
Qed.

(** Clock update: a clock that went backwards dispatches nothing and only
    moves the reference point; a clock that advanced by c hundredths (c < 2^32)
    runs exactly c ticks, dispatches what falls due in each, adds c to the
    current time and leaves exactly the timers with more than c ticks to go. *)
Theorem updatetime_spec T l cp :
  wheel T l -> all_pending (t_time T) l ->
  is_u64 cp -> is_u64 (t_current_point T) -> cp - t_current_point T < 2 ^ 32 ->
  let c := Z.max 0 (cp - t_current_point T) in
  exists outs T', skynet_updatetime cp T = Some (outs, T') /\
    length outs = Z.to_nat c /\
    (forall k : nat, Z.of_nat k < c -> outs !! k =
       Some (dispatch_list (filter (fun nd => ticks_left (t_time T) nd = Z.of_nat k + 1) l))) /\
    t_current_point T' = cp /\
    skynet_now T' = (if 0 <? c then u64 (skynet_now T + c) else skynet_now T) /\
    t_time T' = u32 (t_time T + c) /\
    wheel T' (filter (fun nd => c < ticks_left (t_time T) nd) l).
Proof.
  intros Hw Hp Hcp Hpt Hlt c. unfold skynet_updatetime, skynet_now.
  assert (filter (fun nd => 0 < ticks_left (t_time T) nd) l = l) as Hall.
  { apply list_filter_Forall_all. eapply Forall_impl; [exact Hp|].
    intros nd [_ Hnd]. unfold ticks_left. lia. }
  assert (forall c' p, wheel (set_clock T c' p) l) as Hw' by (intros; exact Hw).
  assert (t_time T = u32 (t_time T + 0)) as Ht0.
  { rewrite Z.add_0_r. symmetry. apply wrap_small, Hw. }
  destruct (Z.ltb_spec cp (t_current_point T)) as [Hb|Hb].
  { assert (c = 0) as -> by lia. rewrite Hall.
    exists [], (set_clock T (t_current T) cp). split_and!; try done. intros; lia. }
  destruct (Z.eqb_spec cp (t_current_point T)) as [He|Hne]; simpl.
  { assert (c = 0) as -> by lia. rewrite Hall. exists [], T. split_and!; try done. intros; lia. }
  assert (c = cp - t_current_point T) as Hc by lia. rewrite <- Hc.
  assert (u32 c = c) as -> by (apply wrap_small; unfold is_u; lia).
  destruct (timer_updates_spec (Z.to_nat c) (set_clock T (u64 (t_current T + c)) cp) l (Hw' _ _) Hp)
    as (outs & T' & -> & Hlen & Hout & Ht & Hcu & Hcp' & Hw2).
  rewrite Z2Nat.id in * by lia. exists outs, T'. split_and!; try done.
  - intros k Hk. apply Hout. lia.
  - destruct (Z.ltb_spec 0 c); [exact Hcu|lia].
Qed.

Lemma updatetime_spec_witness :
  exists outs T', skynet_updatetime 703 (MkTimer (t_near timer_create_timer)
      (t_t timer_create_timer) 0 100 5 700) = Some (outs, T') /\
    length outs = 3%nat /\
    (forall k : nat, Z.of_nat k < 3 -> outs !! k =
       Some (dispatch_list (filter (fun nd => ticks_left 0 nd = Z.of_nat k + 1) []))) /\
    t_current_point T' = 703 /\ skynet_now T' = 8 /\ t_time T' = 3 /\
    wheel T' (filter (fun nd => 3 < ticks_left 0 nd) []).
Proof.
  apply (updatetime_spec (MkTimer (t_near timer_create_timer)
      (t_t timer_create_timer) 0 100 5 700) [] 703).
  - exact wheel_create.
  - constructor.
  - unfold is_u; lia.
  - unfold is_u; simpl; lia.
  - simpl; lia.
Defined.
