(* ===== verification/CString.v ===== *)
(** C strings and the standard library calls on them.

    A NUL-terminated string is a [string] without its terminator.  The calls
    modelled are the ones the code makes: strcmp, and the conversions between
    numbers and text that the service commands use. *)

From S2P Require Import Prelude.
From Stdlib Require Import Ascii.
Local Open Scope string_scope.
Local Open Scope Z_scope.

Definition byte_of (a : ascii) : Z := Z.of_N (N_of_ascii a).

Lemma byte_of_range a : is_u8 (byte_of a).
Proof. unfold is_u, byte_of. pose proof (N_ascii_bounded a). lia. Qed.

Lemma byte_of_inj a b : byte_of a = byte_of b -> a = b.
Proof.
  unfold byte_of. intros H%N2Z.inj. rewrite <- (ascii_N_embedding a), <- (ascii_N_embedding b).
  by rewrite H.
Qed.

(** C specifies the sign of the result only. *)
Fixpoint strcmp (a b : string) : Z :=
  match a, b with
  | "", "" => 0
  | "", String _ _ => -1
  | String _ _, "" => 1
  | String x a', String y b' =>
      if byte_of x =? byte_of y then strcmp a' b' else byte_of x - byte_of y
  end.

Lemma strcmp_eq a b : strcmp a b = 0 <-> a = b.
Proof.
  revert b. induction a as [|x a IH]; intros [|y b]; simpl; try (split; (done || lia)).
  destruct (Z.eqb_spec (byte_of x) (byte_of y)) as [->%byte_of_inj|Hne].
  - rewrite IH. split; congruence.
  - split; [lia|]. intros [= -> ->]. lia.
Qed.

Lemma strcmp_refl a : strcmp a a = 0.
Proof. by apply strcmp_eq. Qed.

Lemma strcmp_opp a b : Z.sgn (strcmp a b) = - Z.sgn (strcmp b a).
Proof.
  revert b. induction a as [|x a IH]; intros [|y b]; simpl; try done.
  rewrite (Z.eqb_sym (byte_of y)). destruct (Z.eqb_spec (byte_of x) (byte_of y)); [apply IH|].
  replace (byte_of x - byte_of y) with (- (byte_of y - byte_of x)) by lia. apply Z.sgn_opp.
Qed.

Lemma strcmp_lt_gt a b : strcmp a b < 0 <-> 0 < strcmp b a.
Proof. pose proof (strcmp_opp a b). lia. Qed.

Lemma strcmp_trans a b c : strcmp a b < 0 -> strcmp b c < 0 -> strcmp a c < 0.
Proof.
  revert b c. induction a as [|x a IH]; intros [|y b] [|z c]; simpl; try lia.
  repeat zcase; try lia. by apply IH.
Qed.

Definition str_lt (a b : string) : Prop := strcmp a b < 0.
#[export] Instance str_lt_dec a b : Decision (str_lt a b).
Proof. unfold str_lt. apply _. Defined.
#[export] Instance str_lt_strict : StrictOrder str_lt.
Proof.
  split.
  - intros a. unfold complement, str_lt. rewrite strcmp_refl. lia.
  - intros a b c. apply strcmp_trans.
Qed.

(** ** Reading numbers and words *)

Definition isspace (a : ascii) : bool :=
  (byte_of a =? 32) || ((9 <=? byte_of a) && (byte_of a <=? 13)).

Fixpoint skip_space (s : string) : string :=
  match s with
  | String a s' => if isspace a then skip_space s' else s
  | "" => ""
  end.

(** The value of a digit or letter; 36 for any other character. *)
Definition digit_value (a : ascii) : Z :=
  let c := byte_of a in
  if (48 <=? c) && (c <=? 57) then c - 48
  else if (97 <=? c) && (c <=? 122) then c - 87
  else if (65 <=? c) && (c <=? 90) then c - 55
  else 36.

(** The digits at the front of [s], after a number [acc], and what follows. *)
Fixpoint read_digits (base acc : Z) (s : string) : Z * string :=
  match s with
  | String a s' =>
      if digit_value a <? base then read_digits base (acc * base + digit_value a) s' else (acc, s)
  | "" => (acc, "")
  end.

(** An optional sign: whether it is a minus, and the rest. *)
Definition read_sign (s : string) : bool * string :=
  match s with
  | String a s' => if byte_of a =? 45 then (true, s') else if byte_of a =? 43 then (false, s') else (false, s)
  | "" => (false, "")
  end.

(** The prefix 0x or 0X counts only before a hexadecimal digit. *)
Definition strip_0x (s : string) : option string :=
  match s with
  | String z (String x (String d s')) =>
      if (byte_of z =? 48) && ((byte_of x =? 120) || (byte_of x =? 88)) && (digit_value d <? 16)
      then Some (String d s') else None
  | _ => None
  end.

Definition ULONG_MAX : Z := 2 ^ 64 - 1.
Definition LONG_MAX : Z := 2 ^ 63 - 1.
Definition LONG_MIN : Z := - 2 ^ 63.

(** [strtoul(s, NULL, 16)] *)
Definition strtoul16 (s : string) : Z :=
  let '(neg, s) := read_sign (skip_space s) in
  let v := (read_digits 16 0 (default s (strip_0x s))).1 in
  if ULONG_MAX <? v then ULONG_MAX else if neg then u64 (- v) else v.

(** [strtol(s, NULL, 10)] and [strtol(s, NULL, 0)] *)
Definition clamp_long (neg : bool) (v : Z) : Z :=
  if neg then Z.max LONG_MIN (- v) else Z.min LONG_MAX v.
Definition strtol10 (s : string) : Z :=
  let '(neg, s) := read_sign (skip_space s) in
  clamp_long neg (read_digits 10 0 s).1.
Definition strtol0 (s : string) : Z :=
  let '(neg, s) := read_sign (skip_space s) in
  clamp_long neg
    (match strip_0x s, s with
     | Some s', _ => (read_digits 16 0 s').1
     | None, String z s' => if byte_of z =? 48 then (read_digits 8 0 s').1 else (read_digits 10 0 s).1
     | None, "" => 0
     end).

(** The conversion [%d] of sscanf: no digit is a matching failure. *)
Definition scan_d (s : string) : option (Z * string) :=
  let '(neg, s) := read_sign (skip_space s) in
  match s with
  | String a _ =>
      if digit_value a <? 10 then
        let '(v, rest) := read_digits 10 0 s in Some (i32 (clamp_long neg v), rest)
      else None
  | "" => None
  end.

(** The conversion [%s]: a non-empty word. *)
Fixpoint read_word (s : string) : string * string :=
  match s with
  | String a s' => if isspace a then ("", s) else let '(w, rest) := read_word s' in (String a w, rest)
  | "" => ("", "")
  end.
Definition scan_s (s : string) : option (string * string) :=
  match read_word (skip_space s) with ("", _) => None | r => Some r end.

(** [strsep] of a non-NULL string: the token, and the rest unless it was the
    last. *)
Fixpoint strsep (delim : ascii -> bool) (s : string) : string * option string :=
  match s with
  | String a s' =>
      if delim a then ("", Some s') else let '(t, rest) := strsep delim s' in (String a t, rest)
  | "" => ("", None)
  end.

(** [strchr(s, c)]: the string from the first [c] on. *)
Fixpoint strchr (c : ascii) (s : string) : option string :=
  match s with
  | String a s' => if decide (a = c) then Some s else strchr c s'
  | "" => None
  end.

(** ** Writing numbers *)

Definition digit_char (d : Z) : ascii :=
  ascii_of_N (Z.to_N (if d <? 10 then 48 + d else 87 + d)).

(** The digits of a number, without leading zeros; 64 digits are enough for
    every 64-bit number. *)
Fixpoint write_digits (fuel : nat) (base n : Z) (acc : string) : string :=
  match fuel with
  | O => acc
  | S fuel' =>
      let acc := String (digit_char (n mod base)) acc in
      if n / base =? 0 then acc else write_digits fuel' base (n / base) acc
  end.

(** The conversions [%d], [%u], [%x] of printf, and [%08x]. *)
Definition fmt_u (n : Z) : string := write_digits 64 10 n "".
Definition fmt_d (n : Z) : string := if n <? 0 then String "-" (fmt_u (- n)) else fmt_u n.
Definition fmt_x (n : Z) : string := write_digits 64 16 n "".
Fixpoint pad_zero (k : nat) (s : string) : string :=
  match k with O => s | S k' => String "0" (pad_zero k' s) end.
Definition fmt_08x (n : Z) : string := let s := fmt_x n in pad_zero (8 - String.length s) s.

(** [%lf] of a number of microseconds divided by 10^6: the decimal fraction,
    which the double holds to the last digit below 2^32 seconds. *)
Definition fmt_lf_micro (n : Z) : string :=
  let frac := fmt_u (n mod 1000000) in
  (fmt_u (n / 1000000) ++ "." ++ pad_zero (6 - String.length frac) frac)%string.

Example fmt_examples :
  strtoul16 "0x1f" = 31 /\ strtoul16 " 01000001z" = 16777217 /\ strtoul16 "-1" = ULONG_MAX /\
  fmt_x 16777217 = "1000001" /\ fmt_08x 16777217 = "01000001" /\ fmt_d (-5) = "-5" /\
  strtol0 "010" = 8 /\ scan_d " 12 34" = Some (12, " 34") /\ fmt_lf_micro 1500 = "0.001500".
Proof. vm_compute. split_and!; reflexivity. Qed.

(** ** Reading back what was written *)

Fixpoint hex_string (s : string) : Prop :=
  match s with String a s' => digit_value a < 16 /\ hex_string s' | "" => True end.

Lemma digit_value_hex a : digit_value a < 16 ->
  isspace a = false /\ byte_of a <> 45 /\ byte_of a <> 43 /\ byte_of a <> 120 /\ byte_of a <> 88.
Proof.
  unfold digit_value, isspace. intros Hd.
  destruct (Z.leb_spec 48 (byte_of a)), (Z.leb_spec (byte_of a) 57), (Z.leb_spec 97 (byte_of a)),
    (Z.leb_spec (byte_of a) 122), (Z.leb_spec 65 (byte_of a)), (Z.leb_spec (byte_of a) 90); simpl in Hd; try lia;
    (split; [|lia]); apply orb_false_iff; (split; [apply Z.eqb_neq; lia|]); apply andb_false_iff; right; apply Z.leb_gt; lia.
Qed.

(** On hexadecimal digits alone strtoul reads all of them. *)
Lemma strtoul16_hex s : hex_string s -> (read_digits 16 0 s).1 <= ULONG_MAX -> strtoul16 s = (read_digits 16 0 s).1.
Proof.
  intros Hs Hle. unfold strtoul16. destruct s as [|a s]; [done|]. destruct Hs as [Ha Hs].
  destruct (digit_value_hex a Ha) as (Hsp & Hm & Hp & _). simpl skip_space. rewrite Hsp. unfold read_sign.
  rewrite (proj2 (Z.eqb_neq _ _) Hm), (proj2 (Z.eqb_neq _ _) Hp).
  assert (strip_0x (String a s) = None) as ->.
  { destruct s as [|b [|d s]]; [done..|]. destruct Hs as [Hb _]. unfold strip_0x.
    destruct (digit_value_hex b Hb) as (_ & _ & _ & H1 & H2).
    rewrite (proj2 (Z.eqb_neq _ _) H1), (proj2 (Z.eqb_neq _ _) H2), andb_false_r. done. }
  cbn [default]. destruct (Z.ltb_spec ULONG_MAX (read_digits 16 0 (String a s)).1); [lia|done].
Qed.

Lemma digit_char_value d : 0 <= d < 16 -> digit_value (digit_char d) = d.
Proof.
  intros Hd. assert (Z.to_nat d < 16)%nat as Hn by lia. rewrite <- (Z2Nat.id d) by lia.
  revert Hn. generalize (Z.to_nat d). intros n Hn. do 16 (destruct n as [|n]; [done|]). lia.
Qed.

Lemma write_digits_read fuel base n acc :
  2 <= base <= 16 -> 0 <= n < base ^ Z.of_nat (S fuel) ->
  read_digits base 0 (write_digits (S fuel) base n acc) = read_digits base n acc.
Proof.
  intros Hb. revert n acc. induction fuel as [|fuel IH]; intros n acc Hn.
  - change (base ^ Z.of_nat 1) with (base ^ 1) in Hn. rewrite Z.pow_1_r in Hn. cbn [write_digits].
    rewrite Z.div_small, Z.mod_small by lia. cbn [read_digits Z.eqb]. rewrite digit_char_value by lia.
    destruct (Z.ltb_spec n base); [done|lia].
  - remember (S fuel) as f eqn:Ef. cbn [write_digits]. rewrite Ef in *. clear Ef f.
    pose proof (Z.mod_pos_bound n base ltac:(lia)). pose proof (Z.div_mod n base ltac:(lia)) as Hdm.
    assert (read_digits base (n / base) (String (digit_char (n mod base)) acc) = read_digits base n acc) as Hread.
    { cbn [read_digits]. rewrite digit_char_value by lia. destruct (Z.ltb_spec (n mod base) base); [|lia]. f_equal. lia. }
    destruct (Z.eqb_spec (n / base) 0) as [E|E]; [rewrite E in Hread; exact Hread|].
    rewrite IH; [exact Hread|]. rewrite Nat2Z.inj_succ, Z.pow_succ_r in Hn by lia. split; [apply Z.div_pos; lia|].
    apply Z.div_lt_upper_bound; lia.
Qed.

Lemma write_digits_hex fuel n acc : 0 <= n -> hex_string acc -> hex_string (write_digits fuel 16 n acc).
Proof.
  revert n acc. induction fuel as [|fuel IH]; intros n acc Hn Ha; cbn [write_digits]; [done|].
  pose proof (Z.mod_pos_bound n 16 ltac:(lia)).
  assert (hex_string (String (digit_char (n mod 16)) acc)) as Hs by (split; [rewrite digit_char_value; lia|done]).
  destruct (_ =? 0); [done|]. apply IH; [apply Z.div_pos; lia|done].
Qed.

Lemma strtoul16_fmt_x h : is_u32 h -> strtoul16 (fmt_x h) = h.
Proof.
  intros Hh. unfold is_u in Hh. unfold fmt_x.
  assert (read_digits 16 0 (write_digits 64 16 h "") = (h, "")) as Hr.
  { apply (write_digits_read 63 16 h ""); [lia|]. change (16 ^ Z.of_nat 64) with (2 ^ 256). lia. }
  rewrite strtoul16_hex, Hr; [done| |].
  - apply write_digits_hex; [lia|done].
  - rewrite Hr. unfold ULONG_MAX. simpl. lia.
Qed.
