(* ===== verification/SkynetModule.v ===== *)
(** The table of service modules: skynet-src/skynet_module.c.

    A module is a shared object found along a search path and its four entry
    points, looked up by name.  The table is read and filled under a lock, so a
    query is one step; a module stays in the table for ever.  [dlopen] and
    [dlsym] are parameters; addresses are numbers and 0 is NULL. *)

From S2P Require Import Prelude CString.
From Stdlib Require Import Ascii.
Local Open Scope string_scope.
Local Open Scope Z_scope.

Definition MAX_MODULE_TYPE : Z := 32.

Record skynet_module := Mod {
  sm_name : string;
  sm_module : Z;
  sm_create : Z;
  sm_init : Z;
  sm_release : Z;
  sm_signal : Z
}.

(** A cell of the table is [None] until it is filled. *)
Record modules := Mods {
  ms_count : Z;
  ms_path : string;
  ms_m : list (option skynet_module)
}.

Definition skynet_module_init (path : string) : modules :=
  Mods 0 path (replicate (Z.to_nat MAX_MODULE_TYPE) None).

(** The first [n] entries from [i] on; the result is an index. *)
Fixpoint query_loop (n : nat) (i : Z) (m : list (option skynet_module)) (name : string) : option (option Z) :=
  match n with
  | O => Some None
  | S n' =>
      e ← zget m i;
      x ← e;
      if strcmp (sm_name x) name =? 0 then Some (Some i) else query_loop n' (i + 1) m name
  end.

Definition _query (M : modules) (name : string) : option (option Z) :=
  query_loop (Z.to_nat (ms_count M)) 0 (ms_m M) name.

(** ** Opening a module *)

Definition is_char (c a : ascii) : bool := bool_decide (a = c).

(** A pattern of the path with the name put for its first question mark. *)
Fixpoint fill_pattern (pattern name : string) : option string :=
  match pattern with
  | "" => None
  | String a p => if is_char "?" a then Some (name ++ p) else String a <$> fill_pattern p name
  end.

Fixpoint skip_char (c : ascii) (s : string) : string :=
  match s with
  | String a s' => if is_char c a then skip_char c s' else s
  | "" => ""
  end.

Section open.
Context (dlopen : string -> Z) (dlsym : Z -> string -> Z).

(** The patterns are tried from the left; one without a question mark ends the
    program ([None]).  Each round uses up a character of the path at least. *)
Fixpoint try_loop (fuel : nat) (path name : string) : option Z :=
  match skip_char ";" path with
  | "" => Some 0
  | path =>
      match fuel with
      | O => None
      | S fuel' =>
          let '(pattern, rest) := strsep (is_char ";") path in
          tmp ← fill_pattern pattern name;
          let dl := dlopen tmp in
          if negb (dl =? 0) then Some dl else try_loop fuel' (default "" rest) name
      end
  end.

Definition _try_open (M : modules) (name : string) : option Z :=
  try_loop (String.length (ms_path M)) (ms_path M) name.

(** [strrchr(s, '.')] and the character after it, or [s] itself. *)
Fixpoint after_dot (s : string) : option string :=
  match s with
  | "" => None
  | String a s' => match after_dot s' with Some r => Some r | None => if is_char "." a then Some s' else None end
  end.

Definition get_api (name : string) (module : Z) (api_name : string) : Z :=
  let tmp := name ++ api_name in dlsym module (default tmp (after_dot tmp)).

(** The module with its entry points; NULL without an init function. *)
Definition open_sym (name : string) (module : Z) : option skynet_module :=
  let mod_ := Mod name module (get_api name module "_create") (get_api name module "_init")
    (get_api name module "_release") (get_api name module "_signal") in
  if sm_init mod_ =? 0 then None else Some mod_.

(** The index of the module, or none. *)
Definition skynet_module_query (M : modules) (name : string) : option (option Z * modules) :=
  result ← _query M name;
  match result with
  | Some i => Some (Some i, M)
  | None =>
      if ms_count M <? MAX_MODULE_TYPE then
        dl ← _try_open M name;
        if negb (dl =? 0) then
          match open_sym name dl with
          | Some mod_ =>
              m ← zset (ms_m M) (ms_count M) (Some mod_);
              Some (Some (ms_count M), Mods (ms_count M + 1) (ms_path M) m)
          | None => Some (None, M)
          end
        else Some (None, M)
      else Some (None, M)
  end.
End open.

Definition skynet_module_insert (M : modules) (mod_ : skynet_module) : option modules :=
  r ← _query M (sm_name mod_);
  _ ← c_assert (bool_decide (r = None) && (ms_count M <? MAX_MODULE_TYPE));
  m ← zset (ms_m M) (ms_count M) (Some mod_);
  Some (Mods (ms_count M + 1) (ms_path M) m).

(** ** The table *)

Local Open Scope list_scope.

(** The first [count] cells hold modules of different names. *)
Record modules_ok (M : modules) (l : list skynet_module) : Prop := {
  mo_len : zlen (ms_m M) = MAX_MODULE_TYPE;
  mo_count : ms_count M = zlen l;
  mo_bound : zlen l <= MAX_MODULE_TYPE;
  mo_get : forall i, 0 <= i < zlen l -> zget (ms_m M) i = Some (zget l i);
  mo_rest : forall i, zlen l <= i < MAX_MODULE_TYPE -> zget (ms_m M) i = Some None;
  mo_names : NoDup (sm_name <$> l)
}.

Lemma modules_init_ok path : modules_ok (skynet_module_init path) [].
Proof.
  split; try done; [intros i Hi; change (0 <= i < 0) in Hi; lia| |constructor].
  intros i Hi. change (zlen (@nil skynet_module)) with 0 in Hi. unfold MAX_MODULE_TYPE in Hi.
  assert (Z.to_nat i < 32)%nat as Hlt by lia. rewrite zget_nonneg by lia.
  exact (lookup_replicate_2 32 (@None skynet_module) (Z.to_nat i) Hlt).
Qed.

Lemma query_loop_spec n i m l name :
  0 <= i -> (forall j, i <= j < i + Z.of_nat n -> exists x, zget m j = Some (Some x) /\ zget l j = Some x) ->
  exists r, query_loop n i m name = Some r /\
    match r with
    | Some j => i <= j < i + Z.of_nat n /\ exists x, zget l j = Some x /\ sm_name x = name
    | None => forall j x, i <= j < i + Z.of_nat n -> zget l j = Some x -> sm_name x <> name
    end.
Proof.
  revert i. induction n as [|n IH]; intros i Hi Hm; cbn [query_loop].
  { exists None. split; [done|]. intros; lia. }
  destruct (Hm i) as (x & -> & Hx); [lia|]. rewrite !some_bind.
  destruct (Z.eqb_spec (strcmp (sm_name x) name) 0) as [He%strcmp_eq|Hne].
  { exists (Some i). split; [done|]. split; [lia|eauto]. }
  destruct (IH (i + 1)) as (r & -> & Hr); [lia|intros j ?; apply Hm; lia|]. exists r. split; [done|].
  destruct r as [j|].
  - destruct Hr as (? & ?). split; [lia|done].
  - intros j y Hj Hy. destruct (decide (j = i)) as [->|]; [|apply (Hr j); [lia|done]].
    rewrite Hx in Hy. injection Hy as <-. intros He. apply Hne. by apply strcmp_eq.
Qed.

Lemma query_spec M l name :
  modules_ok M l ->
  exists r, _query M name = Some r /\
    match r with
    | Some j => exists x, zget l j = Some x /\ sm_name x = name
    | None => name ∉ sm_name <$> l
    end.
Proof.
  intros [Hlen Hc Hb Hg Hre Hn]. unfold _query. pose proof (zlen_nonneg l).
  destruct (query_loop_spec (Z.to_nat (ms_count M)) 0 (ms_m M) l name) as (r & -> & Hr); [lia| |].
  { intros j Hj. destruct (zget_is_Some l j) as [x Hx]; [lia|]. exists x. rewrite Hg by lia. by rewrite Hx. }
  exists r. split; [done|]. destruct r as [j|]; [by destruct Hr|].
  intros (x & -> & Hx)%list_elem_of_fmap. apply list_elem_of_lookup in Hx as [k Hk].
  pose proof (lookup_lt_Some _ _ _ Hk). apply (Hr (Z.of_nat k) x); [unfold zlen in *; lia|by rewrite zget_nat|done].
Qed.

Lemma skip_char_length c s : (String.length (skip_char c s) <= String.length s)%nat.
Proof. induction s as [|a s IH]; simpl; [lia|]. destruct (is_char c a); simpl; lia. Qed.

Lemma strsep_length d s : (String.length (default "" (strsep d s).2) <= String.length s)%nat.
Proof.
  induction s as [|a s IH]; simpl; [lia|]. destruct (d a); simpl; [lia|].
  destruct (strsep d s) as [t [r|]]; simpl in *; lia.
Qed.

(** A path whose patterns all have a question mark. *)
Fixpoint valid_path (fuel : nat) (path : string) : bool :=
  match skip_char ";" path with
  | "" => true
  | path =>
      match fuel with
      | O => false
      | S fuel' =>
          let '(pattern, rest) := strsep (is_char ";") path in
          match fill_pattern pattern "" with
          | Some _ => valid_path fuel' (default "" rest)
          | None => false
          end
      end
  end.

Lemma fill_pattern_any p n n' : is_Some (fill_pattern p n) -> is_Some (fill_pattern p n').
Proof.
  induction p as [|a p IH]; simpl; [done|]. destruct (is_char "?" a); [eauto|].
  rewrite !fmap_is_Some. apply IH.
Qed.

Lemma try_loop_total dlopen fuel path name :
  valid_path fuel path = true -> is_Some (try_loop dlopen fuel path name).
Proof.
  revert path. induction fuel as [|fuel IH]; intros path; cbn [try_loop valid_path].
  { destruct (skip_char ";" path); done || eauto. }
  destruct (skip_char ";" path) as [|a s]; [eauto|].
  destruct (strsep (is_char ";") (String a s)) as [pat rest].
  destruct (fill_pattern pat "") eqn:Hp; [|done]. intros Hv.
  destruct (fill_pattern_any pat "" name) as [tmp ->]; [eauto|]. rewrite some_bind.
  destruct (negb _); [eauto|]. by apply IH.
Qed.

(** A query keeps the table well formed and never moves a module; once it has
    returned a module, every later query of the name returns the same one
    without opening it again. *)
Lemma module_query_spec dlopen dlsym M l name :
  modules_ok M l -> valid_path (String.length (ms_path M)) (ms_path M) = true ->
  exists r M' l', skynet_module_query dlopen dlsym M name = Some (r, M') /\
    modules_ok M' l' /\ ms_path M' = ms_path M /\ l `prefix_of` l' /\
    match r with
    | Some i => exists x, zget l' i = Some x /\ sm_name x = name /\
        forall dlopen' dlsym', skynet_module_query dlopen' dlsym' M' name = Some (Some i, M')
    | None => l' = l
    end.
Proof.
  intros Hok Hv. unfold skynet_module_query at 1.
  destruct (query_spec M l name Hok) as (r & Hq & Hr). rewrite Hq, some_bind. destruct r as [i|].
  { destruct Hr as (x & Hx & Hn). exists (Some i), M, l. split_and!; try done.
    exists x. split_and!; try done. intros. unfold skynet_module_query. by rewrite Hq, some_bind. }
  destruct (Z.ltb_spec (ms_count M) MAX_MODULE_TYPE) as [Hlt|Hge].
  2: { exists None, M, l. split_and!; done. }
  unfold _try_open. destruct (try_loop_total dlopen _ _ name Hv) as [dl ->]. rewrite some_bind.
  destruct (negb (dl =? 0)); [|exists None, M, l; split_and!; done].
  unfold open_sym. destruct (_ =? 0); [exists None, M, l; split_and!; done|].
  set (x := Mod _ _ _ _ _ _). pose proof Hok as [Hlen Hc Hb Hg Hre Hnd]. pose proof (zlen_nonneg l).
  rewrite zset_eq, some_bind by lia.
  set (M' := Mods _ _ _). exists (Some (ms_count M)), M', (l ++ [x]).
  assert (modules_ok M' (l ++ [x])) as Hok'.
  { split; subst M'; simpl.
    - by rewrite zlen_insert.
    - zlen_lia.
    - unfold MAX_MODULE_TYPE in *. zlen_lia.
    - intros i Hi. autorewrite with zlen in Hi. change (zlen (@nil skynet_module)) with 0 in Hi.
      destruct (decide (i = ms_count M)) as [->|Hne].
      + rewrite zget_insert_eq by lia. rewrite Hc, zget_app_r by lia. by rewrite Z.sub_diag.
      + rewrite zget_insert_ne by lia. rewrite zget_app_l by lia. apply Hg. lia.
    - intros i Hi. autorewrite with zlen in Hi. change (zlen (@nil skynet_module)) with 0 in Hi.
      rewrite zget_insert_ne by lia. apply Hre. lia.
    - rewrite fmap_app. apply NoDup_app. split_and!; [done| |apply NoDup_singleton].
      intros n Hn ->%list_elem_of_singleton. by apply Hr. }
  split_and!; try done; [by apply prefix_app_r|].
  assert (zget (l ++ [x]) (ms_count M) = Some x) as Hx.
  { rewrite Hc, zget_app_r by lia. by rewrite Z.sub_diag. }
  exists x. split_and!; try done. intros dlopen' dlsym'. unfold skynet_module_query.
  destruct (query_spec M' _ name Hok') as (r & -> & Hr'). rewrite some_bind. destruct r as [j|].
  - destruct Hr' as (y & Hy & Hny). assert (j = ms_count M) as ->; [|done].
    destruct (decide (j = ms_count M)) as [|Hne]; [done|].
    pose proof (zget_in _ _ _ Hy) as Hj. autorewrite with zlen in Hj.
    change (zlen (@nil skynet_module)) with 0 in Hj. rewrite zget_app_l in Hy by lia.
    destruct Hr. apply list_elem_of_fmap. exists y. split; [done|].
    rewrite zget_nonneg in Hy by lia. by eapply list_elem_of_lookup_2.
  - destruct Hr'. rewrite fmap_app. apply elem_of_app. right. apply list_elem_of_here.
Qed.

(** A table that grew keeps the modules it had. *)
Lemma modules_prefix M M' l l' i m :
  modules_ok M l -> modules_ok M' l' -> l `prefix_of` l' ->
  zget (ms_m M) i = Some (Some m) -> zget (ms_m M') i = Some (Some m).
Proof.
  intros H1 H2 [k ->] Hi. pose proof (zget_in _ _ _ Hi) as Hr. rewrite (mo_len _ _ H1) in Hr.
  destruct (Z.lt_ge_cases i (zlen l)).
  - rewrite (mo_get _ _ H1) in Hi by lia. rewrite (mo_get _ _ H2) by (rewrite zlen_app; pose proof (zlen_nonneg k); lia).
    rewrite zget_app_l by done. done.
  - rewrite (mo_rest _ _ H1) in Hi by lia. done.
Qed.
