(* ===== verification/Handle.v ===== *)
(** The handle registry: skynet-src/skynet_handle.c.

    A table of service contexts indexed by the low bits of their handles, that
    doubles when it is full, and an array of names sorted by [strcmp].  Each
    operation runs under the registry's read-write lock, so it is one step.  A
    context is its address (0 is NULL); its handle and its reference count are
    fields of the context, which skynet_server.c owns: the registry reaches them
    through the operations of the class [Contexts]. *)

From stdpp Require Import sorting.
From Stdlib Require Import Sorted.
From S2P Require Import Prelude Types CString.
Local Open Scope Z_scope.

Definition DEFAULT_SLOT_SIZE : Z := 4.
Definition MAX_SLOT_SIZE : Z := 1073741824.      (* 0x40000000 *)

Record handle_name := MkName { hn_name : string; hn_handle : Z }.

(** A cell of the name array is [None] until it is written. *)
Record handle_storage := MkHS {
  hs_harbor : Z;
  hs_handle_index : Z;
  hs_slot_size : Z;
  hs_slot : list Z;
  hs_name_cap : Z;
  hs_name_count : Z;
  hs_name : list (option handle_name)
}.

Definition set_slot (s : handle_storage) (slot : list Z) : handle_storage :=
  MkHS (hs_harbor s) (hs_handle_index s) (hs_slot_size s) slot
    (hs_name_cap s) (hs_name_count s) (hs_name s).
Definition set_handle_index (s : handle_storage) (i : Z) : handle_storage :=
  MkHS (hs_harbor s) i (hs_slot_size s) (hs_slot s) (hs_name_cap s) (hs_name_count s) (hs_name s).
Definition set_table (s : handle_storage) (size : Z) (slot : list Z) : handle_storage :=
  MkHS (hs_harbor s) (hs_handle_index s) size slot (hs_name_cap s) (hs_name_count s) (hs_name s).
Definition set_names (s : handle_storage) (cap count : Z) (name : list (option handle_name))
    : handle_storage :=
  MkHS (hs_harbor s) (hs_handle_index s) (hs_slot_size s) (hs_slot s) cap count name.

(** The state that holds the registry, and what it needs of the contexts. *)
Class HasHandles (S : Type) := {
  get_H : S -> handle_storage;
  put_H : handle_storage -> S -> S;
  get_put_H : forall h s, get_H (put_H h s) = h;
  put_get_H : forall s, put_H (get_H s) s = s;
  put_put_H : forall h h' s, put_H h (put_H h' s) = put_H h s
}.

Class Contexts (S : Type) `{HasHandles S} := {
  (* skynet_context_handle, skynet_context_grab, skynet_context_release *)
  context_handle : Z -> S -> option Z;
  context_grab : Z -> S -> option S;
  context_release : Z -> S -> option (Z * S)
}.

(** ** The table of contexts *)

Section table.
(** The handle field of the context at an address; no context is at NULL. *)
Variable hof : Z -> option Z.

(** The search of one sweep: [Some (Some handle)] when a slot is free. *)
Fixpoint probe (n : nat) (handle : Z) (s : handle_storage) : option (option Z) :=
  match n with
  | O => Some None
  | S n' =>
      let handle := if HANDLE_MASK <? handle then 1 else handle in
      let hash := Z.land handle (hs_slot_size s - 1) in
      c ← zget (hs_slot s) hash;
      if c =? 0 then Some (Some handle) else probe n' (u32 (handle + 1)) s
  end.

(** The copy into a table of twice the size. *)
Fixpoint rehash (slots : list Z) (mask : Z) (new_slot : list Z) : option (list Z) :=
  match slots with
  | [] => Some new_slot
  | c :: slots' =>
      h ← hof c;
      let hash := Z.land h mask in
      x ← zget new_slot hash;
      _ ← c_assert (x =? 0);
      new_slot' ← zset new_slot hash c;
      rehash slots' mask new_slot'
  end.

Definition grow_table (s : handle_storage) : option handle_storage :=
  _ ← c_assert (hs_slot_size s * 2 - 1 <=? HANDLE_MASK);
  new_slot ← rehash (hs_slot s) (hs_slot_size s * 2 - 1)
    (replicate (Z.to_nat (hs_slot_size s * 2)) 0);
  Some (set_table s (hs_slot_size s * 2) new_slot).

Fixpoint register_loop (fuel : nat) (ctx : Z) (s : handle_storage) : option (Z * handle_storage) :=
  match fuel with
  | O => None
  | S fuel' =>
      r ← probe (Z.to_nat (hs_slot_size s)) (hs_handle_index s) s;
      match r with
      | Some handle =>
          slot ← zset (hs_slot s) (Z.land handle (hs_slot_size s - 1)) ctx;
          Some (Z.lor handle (hs_harbor s), set_handle_index (set_slot s slot) (u32 (handle + 1)))
      | None => s' ← grow_table s; register_loop fuel' ctx s'
      end
  end.

(** The lookup that grab and retire make: the context, or 0. *)
Definition lookup_slot (handle : Z) (s : handle_storage) : option Z :=
  let hash := Z.land handle (hs_slot_size s - 1) in
  ctx ← zget (hs_slot s) hash;
  if ctx =? 0 then Some 0
  else h ← hof ctx; Some (if h =? handle then ctx else 0).
End table.

(** ** The sorted names *)

(** The names of [name[i..n)] that are kept are moved down to [name[j..)]. *)
Fixpoint compact (n : nat) (i j handle : Z) (name : list (option handle_name))
  : option (Z * list (option handle_name)) :=
  match n with
  | O => Some (j, name)
  | S n' =>
      x ← zget name i;
      e ← x;
      if hn_handle e =? handle then compact n' (i + 1) j handle name
      else
        name' ← (if i =? j then Some name else zset name j x);
        compact n' (i + 1) (j + 1) handle name'
  end.

(** The binary search: [inl] the handle of the name, [inr] where it belongs. *)
Fixpoint search (fuel : nat) (b e : Z) (key : string) (name : list (option handle_name))
  : option (Z + Z) :=
  if b <=? e then
    match fuel with
    | O => None
    | S fuel' =>
        let mid := Z.quot (b + e) 2 in
        x ← zget name mid;
        n ← x;
        let c := strcmp (hn_name n) key in
        if c =? 0 then Some (inl (hn_handle n))
        else if c <? 0 then search fuel' (mid + 1) e key name
        else search fuel' b (mid - 1) key name
    end
  else Some (inr b).

(** [for (i;i<i+n;i++) dst[i+off] = src[i]] *)
Fixpoint copy_names (n : nat) (i off : Z) (src dst : list (option handle_name))
  : option (list (option handle_name)) :=
  match n with
  | O => Some dst
  | S n' => x ← zget src i; dst' ← zset dst (i + off) x; copy_names n' (i + 1) off src dst'
  end.

(** [for (i=i0;i>before;i--) name[i] = name[i-1]], [n] times *)
Fixpoint shift_names (n : nat) (i : Z) (name : list (option handle_name))
  : option (list (option handle_name)) :=
  match n with
  | O => Some name
  | S n' => x ← zget name (i - 1); name' ← zset name i x; shift_names n' (i - 1) name'
  end.

Definition _insert_name_before (s : handle_storage) (name : string) (handle before : Z)
    : option handle_storage :=
  '(cap, arr) ←
    (if hs_name_cap s <=? hs_name_count s then
       let cap := hs_name_cap s * 2 in
       _ ← c_assert (cap <=? MAX_SLOT_SIZE);
       let n := replicate (Z.to_nat cap) None in
       n1 ← copy_names (Z.to_nat before) 0 0 (hs_name s) n;
       n2 ← copy_names (Z.to_nat (hs_name_count s - before)) before 1 (hs_name s) n1;
       Some (cap, n2)
     else
       arr ← shift_names (Z.to_nat (hs_name_count s - before)) (hs_name_count s) (hs_name s);
       Some (hs_name_cap s, arr));
  arr' ← zset arr before (Some (MkName name handle));
  Some (set_names s cap (hs_name_count s + 1) arr').

(** The result is the copied name, or NULL when the name is taken. *)
Definition _insert_name (s : handle_storage) (name : string) (handle : Z)
    : option (option string * handle_storage) :=
  r ← search (Z.to_nat (hs_name_count s)) 0 (hs_name_count s - 1) name (hs_name s);
  match r with
  | inl _ => Some (None, s)
  | inr b => s' ← _insert_name_before s name handle b; Some (Some name, s')
  end.

(** ** The operations *)

Section ops.
Context {S : Type} `{Contexts S}.

Definition skynet_handle_register (ctx : Z) (st : S) : option (Z * S) :=
  '(h, s) ← register_loop (fun c => context_handle c st) 2 ctx (get_H st);
  Some (h, put_H s st).

Definition skynet_handle_retire (handle : Z) (st : S) : option (Z * S) :=
  let s := get_H st in
  ctx ← lookup_slot (fun c => context_handle c st) handle s;
  if negb (ctx =? 0) then
    slot ← zset (hs_slot s) (Z.land handle (hs_slot_size s - 1)) 0;
    '(count, name) ← compact (Z.to_nat (hs_name_count s)) 0 0 handle (hs_name s);
    let st1 := put_H (set_names (set_slot s slot) (hs_name_cap s) count name) st in
    (* release ctx may call skynet_handle_*, so wunlock first *)
    '(_, st2) ← context_release ctx st1;
    Some (1, st2)
  else Some (0, st).

(** One round of retireall over the slots from [i] on: how many it retired. *)
Fixpoint retire_round (n : nat) (i : Z) (count : Z) (st : S) : option (Z * S) :=
  if i <? hs_slot_size (get_H st) then
    match n with
    | O => None
    | Datatypes.S n' =>
        ctx ← zget (hs_slot (get_H st)) i;
        handle ← (if ctx =? 0 then Some 0 else context_handle ctx st);
        '(count', st') ←
          (if negb (handle =? 0) then
             '(r, st1) ← skynet_handle_retire handle st;
             Some (if negb (r =? 0) then count + 1 else count, st1)
           else Some (count, st));
        retire_round n' (i + 1) count' st'
    end
  else Some (count, st).

Fixpoint skynet_handle_retireall (fuel : nat) (st : S) : option S :=
  match fuel with
  | O => None
  | Datatypes.S fuel' =>
      '(n, st') ← retire_round (Z.to_nat (hs_slot_size (get_H st))) 0 0 st;
      if n =? 0 then Some st' else skynet_handle_retireall fuel' st'
  end.

(** The context whose reference count was incremented, or 0. *)
Definition skynet_handle_grab (handle : Z) (st : S) : option (Z * S) :=
  ctx ← lookup_slot (fun c => context_handle c st) handle (get_H st);
  if negb (ctx =? 0) then st' ← context_grab ctx st; Some (ctx, st') else Some (0, st).

Definition skynet_handle_findname (name : string) (st : S) : option Z :=
  let s := get_H st in
  r ← search (Z.to_nat (hs_name_count s)) 0 (hs_name_count s - 1) name (hs_name s);
  match r with inl handle => Some handle | inr _ => Some 0 end.

Definition skynet_handle_namehandle (handle : Z) (name : string) (st : S)
    : option (option string * S) :=
  '(ret, s) ← _insert_name (get_H st) name handle;
  Some (ret, put_H s st).
End ops.

Definition skynet_handle_init (harbor : Z) : handle_storage :=
  MkHS (u32 (Z.shiftl (Z.land harbor 255) HANDLE_REMOTE_SHIFT)) 1 DEFAULT_SLOT_SIZE
    (replicate (Z.to_nat DEFAULT_SLOT_SIZE) 0) 2 0 (replicate 2 None).

(** ** The table's invariant *)

Section table_theory.
Variable hof : Z -> option Z.
Implicit Types (s : handle_storage) (h c : Z).

(** [slot_size] is a power of two, and each context sits in the slot of the low
    bits of its handle, which is a non-zero 24-bit number in this harbor. *)
Record table_ok s : Prop := {
  tb_size : exists k, 2 <= k <= 24 /\ hs_slot_size s = 2 ^ k;
  tb_len : zlen (hs_slot s) = hs_slot_size s;
  tb_harbor : exists b, 0 <= b < 256 /\ hs_harbor s = b * 2 ^ 24;
  tb_index : 1 <= hs_handle_index s <= HANDLE_MASK + 1;
  tb_slot : forall i c, zget (hs_slot s) i = Some c -> c <> 0 ->
    exists l, hof c = Some (l + hs_harbor s) /\ 1 <= l <= HANDLE_MASK /\
      l mod hs_slot_size s = i
}.

Definition registered s h c : Prop :=
  c <> 0 /\ hof c = Some h /\ zget (hs_slot s) (Z.land h (hs_slot_size s - 1)) = Some c.

Lemma size_bounds s : table_ok s -> 4 <= hs_slot_size s <= 16777216.
Proof.
  intros [(k & Hk & ->) _ _ _ _]. change 4 with (2 ^ 2). change 16777216 with (2 ^ 24).
  split; apply Z.pow_le_mono_r; lia.
Qed.

Lemma land_size s h : table_ok s -> Z.land h (hs_slot_size s - 1) = h mod hs_slot_size s.
Proof. intros [(k & Hk & ->) _ _ _ _]. rewrite wrap_land by lia. done. Qed.

Lemma mod_add_harbor s l : table_ok s -> (l + hs_harbor s) mod hs_slot_size s = l mod hs_slot_size s.
Proof.
  intros [(k & Hk & ->) _ (b & _ & ->) _ _]. replace 24 with ((24 - k) + k) by lia.
  rewrite Z.pow_add_r, Z.mul_assoc by lia. apply Z_mod_plus_full.
Qed.

Lemma lor_harbor s l : table_ok s -> 1 <= l <= HANDLE_MASK -> Z.lor l (hs_harbor s) = l + hs_harbor s.
Proof.
  intros [_ _ (b & _ & ->) _ _] Hl. unfold HANDLE_MASK in *. rewrite lor_add; [done|].
  rewrite <- Z.shiftl_mul_pow2 by lia. apply Z.bits_inj'. intros i Hi.
  rewrite Z.land_spec, Z.bits_0, Z.shiftl_spec by done. destruct (Z.lt_ge_cases i 24).
  - rewrite (Z.testbit_neg_r _ (i - 24)) by lia. apply andb_false_r.
  - rewrite <- (Z.mod_small l (2 ^ 24)) by lia. by rewrite Z.mod_pow2_bits_high by lia.
Qed.

Lemma slot_in_bounds s h : table_ok s -> exists c, zget (hs_slot s) (h mod hs_slot_size s) = Some c.
Proof.
  intros Hok. pose proof (size_bounds _ Hok). pose proof (tb_len _ Hok).
  apply zget_is_Some. pose proof (Z.mod_pos_bound h (hs_slot_size s)). lia.
Qed.

Lemma registered_iff s h c :
  table_ok s -> registered s h c <->
    c <> 0 /\ hof c = Some h /\ exists i, zget (hs_slot s) i = Some c.
Proof.
  intros Hok. unfold registered. split; [intros (? & ? & ?); eauto|].
  intros (Hc & Hh & i & Hi).
  split_and!; try done. destruct (tb_slot _ Hok i c Hi Hc) as (l & Hl & _ & <-).
  rewrite Hh in Hl. injection Hl as ->. by rewrite (land_size s), mod_add_harbor.
Qed.

(** The lookup of grab and retire: the registered context, or 0. *)
Lemma lookup_slot_spec s h :
  table_ok s -> exists c, lookup_slot hof h s = Some c /\
    ((c = 0 /\ forall c', ~ registered s h c') \/ registered s h c).
Proof.
  intros Hok. unfold lookup_slot, registered. rewrite (land_size _ _ Hok).
  destruct (slot_in_bounds s h Hok) as [c Hc]. rewrite Hc. simpl.
  destruct (Z.eqb_spec c 0) as [->|Hne].
  { exists 0. split; [done|]. left. split; [done|]. intros c' (? & _ & [= <-]). done. }
  destruct (tb_slot _ Hok _ _ Hc Hne) as (l & Hl & _). rewrite Hl. simpl.
  destruct (Z.eqb_spec (l + hs_harbor s) h) as [Hh|Hh].
  - exists c. split; [done|]. right. by rewrite Hl, Hh.
  - exists 0. split; [done|]. left. split; [done|]. intros c' (_ & ? & [= <-]). congruence.
Qed.

Lemma lookup_slot_registered s h c :
  table_ok s -> registered s h c -> lookup_slot hof h s = Some c.
Proof.
  intros Hok Hr. destruct (lookup_slot_spec s h Hok) as (c' & -> & [[-> Hno]|Hr']).
  - by destruct (Hno c).
  - destruct Hr as (? & ? & ?), Hr' as (? & ? & ?). congruence.
Qed.

(** ** One sweep over the table *)

(** The [t]-th handle of a sweep from [h]: after the last 24-bit handle comes 1. *)
Definition handle_at (h t : Z) : Z := if h + t <=? HANDLE_MASK then h + t else h + t - HANDLE_MASK.

Lemma probe_spec n h s :
  table_ok s -> 1 <= h <= HANDLE_MASK + 1 ->
  exists r, probe n h s = Some r /\
    match r with
    | Some h' => 1 <= h' <= HANDLE_MASK /\ zget (hs_slot s) (h' mod hs_slot_size s) = Some 0
    | None => forall t, 0 <= t < Z.of_nat n -> t < HANDLE_MASK -> exists c,
        zget (hs_slot s) (handle_at h t mod hs_slot_size s) = Some c /\ c <> 0
    end.
Proof.
  intros Hok. revert h. induction n as [|n IH]; intros h Hh; cbn [probe].
  { exists None. split; [done|]. intros; lia. }
  set (h1 := if HANDLE_MASK <? h then 1 else h).
  assert (1 <= h1 <= HANDLE_MASK) as Hh1 by (subst h1; zcase; unfold HANDLE_MASK in *; lia).
  assert (h1 = handle_at h 0) as Hat0.
  { subst h1. unfold handle_at. repeat zcase; unfold HANDLE_MASK in *; lia. }
  rewrite (land_size _ _ Hok).
  destruct (slot_in_bounds s h1 Hok) as [c Hc]. rewrite Hc. simpl.
  destruct (Z.eqb_spec c 0) as [->|Hne]; [by exists (Some h1)|].
  assert (u32 (h1 + 1) = h1 + 1) as -> by
    (apply wrap_small; unfold is_u, HANDLE_MASK in *; lia).
  destruct (IH (h1 + 1)) as (r & -> & Hr); [lia|]. exists r. split; [done|].
  destruct r; [done|]. intros t Ht Htm. destruct (decide (t = 0)) as [->|].
  - rewrite <- Hat0. eauto.
  - destruct (Hr (t - 1)) as (c' & Hc' & ?); [lia..|]. exists c'. split; [|done].
    rewrite <- Hc'. f_equal. f_equal. rewrite Hat0. unfold handle_at.
    repeat zcase; unfold HANDLE_MASK in *; lia.
Qed.

(** A sweep visits every slot but perhaps the one of index 0, which is missed
    when the 24-bit handles run out during the sweep. *)
Lemma sweep_covers s h j :
  table_ok s -> 1 <= h <= HANDLE_MASK + 1 -> 0 <= j < hs_slot_size s ->
  1 <= j \/ h + hs_slot_size s <= HANDLE_MASK + 1 ->
  exists t, 0 <= t < hs_slot_size s /\ t < HANDLE_MASK /\
    handle_at h t mod hs_slot_size s = j.
Proof.
  intros Hok Hh Hj Hw. pose proof (size_bounds _ Hok) as Hs.
  assert (exists m, HANDLE_MASK + 1 = m * hs_slot_size s) as [m Hm].
  { destruct (tb_size _ Hok) as (k & Hk & ->). exists (2 ^ (24 - k)).
    rewrite <- Z.pow_add_r by lia. by replace (24 - k + k) with 24 by lia. }
  set (n := hs_slot_size s) in *. set (t1 := (j - h) mod n).
  assert (0 <= t1 < n) as Ht1 by (apply Z.mod_pos_bound; lia).
  assert ((h + t1) mod n = j) as Hmod.
  { subst t1. rewrite Zplus_mod_idemp_r. replace (h + (j - h)) with j by lia.
    by apply Z.mod_small. }
  unfold handle_at, HANDLE_MASK in *.
  destruct (Z.le_gt_cases (h + t1) 16777215) as [Hle|Hgt].
  - exists t1. destruct (Z.leb_spec (h + t1) 16777215); [|lia]. split_and!; try lia.
  - destruct Hw as [Hw|]; [|lia].
    assert (h + t1 <> 16777216).
    { intros He. rewrite He in Hmod. replace 16777216 with (16777215 + 1) in Hmod by lia.
      rewrite Hm, Z_mod_mult in Hmod. lia. }
    exists (t1 - 1). split_and!; try lia.
    destruct (Z.leb_spec (h + (t1 - 1)) 16777215); [lia|].
    replace (h + (t1 - 1) - 16777215) with (h + t1 + (- m) * n) by lia.
    by rewrite Z_mod_plus_full.
Qed.

(** ** Growing *)

Definition hash_of (mask c : Z) : Z := default 0 (hof c ≫= fun h => Some (Z.land h mask)).

Lemma rehash_spec olds mask new :
  (forall c, c ∈ olds -> c <> 0 /\ exists h, hof c = Some h) ->
  (forall c, c ∈ olds -> zget new (hash_of mask c) = Some 0) ->
  NoDup (hash_of mask <$> olds) ->
  exists new', rehash hof olds mask new = Some new' /\ zlen new' = zlen new /\
    forall p c, c <> 0 ->
      zget new' p = Some c <-> zget new p = Some c \/ (c ∈ olds /\ p = hash_of mask c).
Proof.
  revert new. induction olds as [|c olds IH]; intros new Hh Hfree Hnd; simpl.
  { exists new. split_and!; try done. intros p c _. split; [auto|].
    intros [|[?%elem_of_nil _]]; done. }
  destruct (Hh c (list_elem_of_here _ _)) as [Hc0 [h Hhof]]. rewrite Hhof. simpl.
  assert (hash_of mask c = Z.land h mask) as Hhash by by unfold hash_of; rewrite Hhof.
  pose proof (Hfree c (list_elem_of_here _ _)) as Hf. rewrite Hhash in Hf. rewrite Hf. simpl.
  pose proof (zget_in _ _ _ Hf) as Hin. rewrite zset_eq by done. simpl.
  apply NoDup_cons in Hnd as [Hnin Hnd].
  destruct (IH (<[Z.to_nat (Z.land h mask):=c]> new)) as (new' & -> & Hl & Hspec).
  - intros c' ?. apply Hh. by apply list_elem_of_further.
  - intros c' Hc'. rewrite zget_insert by done. destruct (Z.eqb_spec (hash_of mask c') (Z.land h mask)).
    + destruct Hnin. rewrite Hhash, <- e. by apply list_elem_of_fmap_2.
    + apply Hfree. by apply list_elem_of_further.
  - done.
  - exists new'. split_and!; try done; [by rewrite Hl, zlen_insert|]. intros p c' Hc'.
    rewrite Hspec by done. rewrite zget_insert by done. rewrite elem_of_cons.
    destruct (Z.eqb_spec p (Z.land h mask)) as [->|Hne].
    + split; [intros [[= <-]|]; naive_solver|].
      intros [?|[[->|?] ?]]; [congruence|by left|naive_solver].
    + naive_solver.
Qed.

Lemma grow_spec s :
  table_ok s -> (forall i, 0 <= i < hs_slot_size s -> zget (hs_slot s) i <> Some 0) ->
  hs_slot_size s * 2 - 1 <= HANDLE_MASK ->
  exists slot', grow_table hof s = Some (set_table s (hs_slot_size s * 2) slot') /\
    table_ok (set_table s (hs_slot_size s * 2) slot') /\
    (forall h c, registered (set_table s (hs_slot_size s * 2) slot') h c <-> registered s h c) /\
    exists j, 1 <= j < hs_slot_size s * 2 /\ zget slot' j = Some 0.
Proof.
  intros Hok Hfull Hmax. pose proof (size_bounds _ Hok) as Hsz. pose proof (tb_len _ Hok) as Hlen.
  set (n := hs_slot_size s) in *.
  assert (exists k, 2 <= k <= 23 /\ n = 2 ^ k) as (k & Hk & Hn).
  { destruct (tb_size _ Hok) as (k & Hk & Hn). exists k. split; [|done]. fold n in Hn.
    destruct (decide (k = 24)) as [->|]; [unfold HANDLE_MASK in *; lia|lia]. }
  assert (forall h, Z.land h (n * 2 - 1) = h mod (n * 2)) as Hland.
  { intros h. replace (n * 2) with (2 ^ (k + 1)) by (rewrite Hn, Z.pow_add_r by lia; lia).
    rewrite wrap_land by lia. done. }
  assert (forall i c, zget (hs_slot s) i = Some c -> exists l, hof c = Some (l + hs_harbor s) /\
    1 <= l <= HANDLE_MASK /\ l mod n = i /\ c <> 0) as Hslot.
  { intros i c Hi. pose proof (zget_in _ _ _ Hi).
    assert (c <> 0) by (intros ->; apply (Hfull i); [lia|done]).
    destruct (tb_slot _ Hok i c Hi) as (l & ? & ? & ?); eauto 6. }
  assert (forall c, c ∈ hs_slot s -> exists i, zget (hs_slot s) i = Some c) as Helem.
  { intros c [i Hi]%list_elem_of_lookup. exists (Z.of_nat i). by rewrite zget_nat. }
  assert (forall l, (l + hs_harbor s) mod (n * 2) = l mod (n * 2)) as Hharb.
  { intros l. destruct (tb_harbor _ Hok) as (b & _ & ->). rewrite Hn.
    replace (b * 2 ^ 24) with (b * 2 ^ (23 - k) * (2 ^ k * 2)); [apply Z_mod_plus_full|].
    replace 24 with (23 - k + k + 1) by lia. rewrite !Z.pow_add_r by lia. lia. }
  assert (forall i c, zget (hs_slot s) i = Some c -> exists l, hof c = Some (l + hs_harbor s) /\
    1 <= l <= HANDLE_MASK /\ hash_of (n * 2 - 1) c = l mod (n * 2) /\ l mod n = i) as Hhash.
  { intros i c Hi. destruct (Hslot i c Hi) as (l & Hl & ? & ? & _). exists l.
    split_and!; try done; try lia. unfold hash_of. rewrite Hl. simpl. by rewrite Hland, Hharb. }
  assert (forall l, (l mod (n * 2)) mod n = l mod n) as Hmm.
  { intros l. rewrite (Z.mul_comm n 2). rewrite (Z.mul_comm 2 n).
    rewrite Z.rem_mul_r by lia. rewrite Z.mul_comm, Z_mod_plus_full. apply Z.mod_mod. lia. }
  unfold grow_table. fold n. rewrite c_assert_true by (apply Z.leb_le; lia). simpl.
  destruct (rehash_spec (hs_slot s) (n * 2 - 1) (replicate (Z.to_nat (n * 2)) 0))
    as (slot' & -> & Hl' & Hspec).
  - intros c (i & Hi)%Helem. destruct (Hslot i c Hi) as (l & ? & ? & ? & ?). eauto.
  - intros c (i & Hi)%Helem. destruct (Hhash i c Hi) as (l & ? & ? & -> & ?).
    apply zget_replicate. pose proof (Z.mod_pos_bound l (n * 2)). lia.
  - apply NoDup_alt. intros i j x. rewrite !list_lookup_fmap.
    intros (c1 & Hi & ->)%fmap_Some (c2 & Hj & Heq)%fmap_Some.
    rewrite <- zget_nat in Hi, Hj.
    destruct (Hhash _ _ Hi) as (l1 & _ & _ & H1 & Hm1), (Hhash _ _ Hj) as (l2 & _ & _ & H2 & Hm2).
    rewrite H1, H2 in Heq. rewrite <- (Hmm l1), Heq, Hmm in Hm1. lia.
  - simpl. rewrite zlen_replicate in Hl'. rewrite Z2Nat.id in Hl' by lia.
    assert (forall p c, c <> 0 -> zget slot' p = Some c <->
      c ∈ hs_slot s /\ p = hash_of (n * 2 - 1) c) as Hnew.
    { intros p c Hc. rewrite Hspec by done. split; [|by right]. intros [Hp|?]; [|done].
      pose proof (zget_in _ _ _ Hp) as Hin. rewrite zlen_replicate in Hin.
      rewrite zget_replicate in Hp by lia. congruence. }
    exists slot'. split_and!; [done|..].
    { split; simpl; try apply Hok; try lia.
      - exists (k + 1). rewrite Z.pow_add_r by lia. lia.
      - intros p c Hp Hc. apply Hnew in Hp as [(i & Hi)%Helem ->]; [|done].
        destruct (Hhash i c Hi) as (l & ? & ? & ? & ?). eauto. }
    { intros h c. unfold registered. simpl. rewrite Hland, (land_size s h Hok).
      split; intros (Hc & Hh & Hp); split_and!; try done.
      - apply Hnew in Hp as [(i & Hi)%Helem Hp]; [|done].
        destruct (Hhash i c Hi) as (l & Hl & _ & _ & <-). rewrite Hh in Hl. injection Hl as ->.
        by rewrite mod_add_harbor.
      - apply Hnew; [done|]. split.
        + apply list_elem_of_lookup. pose proof (zget_in _ _ _ Hp).
          rewrite zget_nonneg in Hp by lia. eauto.
        + destruct (Hhash _ c Hp) as (l & Hl & _ & -> & _). rewrite Hh in Hl. injection Hl as ->.
          by rewrite Hharb. }
    (* a residue of the old size has one context and two slots *)
    destruct (zget_is_Some slot' 1) as [c1 H1]; [lia|].
    destruct (zget_is_Some slot' (n + 1)) as [c2 H2]; [lia|].
    destruct (decide (c1 = 0)) as [->|Hc1]; [exists 1; split; [lia|done]|].
    destruct (decide (c2 = 0)) as [->|Hc2]; [exists (n + 1); split; [lia|done]|].
    apply Hnew in H1 as [(i1 & Hi1)%Helem H1]; [|done].
    apply Hnew in H2 as [(i2 & Hi2)%Helem H2]; [|done].
    destruct (Hhash _ _ Hi1) as (l1 & _ & _ & E1 & M1), (Hhash _ _ Hi2) as (l2 & _ & _ & E2 & M2).
    rewrite E1 in H1. rewrite E2 in H2. rewrite <- Hmm, <- H1 in M1. rewrite <- Hmm, <- H2 in M2.
    rewrite Z.mod_small in M1 by lia.
    replace (n + 1) with (1 + 1 * n) in M2 by lia. rewrite Z_mod_plus_full, Z.mod_small in M2 by lia.
    subst i1 i2. rewrite Hi1 in Hi2. injection Hi2 as <-. rewrite E1 in E2. lia.
Qed.

(** A handle can be allocated: a sweep that does not run out of 24-bit handles
    finds a free slot or the table may double; or some slot but the first is
    free; or all are taken and the table may double. *)
Definition can_register s : Prop :=
  (hs_handle_index s + hs_slot_size s <= HANDLE_MASK + 1 \/ zget (hs_slot s) 0 <> Some 0 \/
   exists i, 1 <= i /\ zget (hs_slot s) i = Some 0) /\
  (hs_slot_size s * 2 - 1 <= HANDLE_MASK \/ exists i, zget (hs_slot s) i = Some 0).

Lemma probe_full s :
  table_ok s -> probe (Z.to_nat (hs_slot_size s)) (hs_handle_index s) s = Some None ->
  forall i, 1 <= i < hs_slot_size s \/
    (i = 0 /\ hs_handle_index s + hs_slot_size s <= HANDLE_MASK + 1) ->
  zget (hs_slot s) i <> Some 0.
Proof.
  intros Hok Hp i Hi. pose proof (size_bounds _ Hok).
  destruct (probe_spec (Z.to_nat (hs_slot_size s)) (hs_handle_index s) s Hok (tb_index _ Hok))
    as (r & Hr & Hnone). rewrite Hp in Hr. injection Hr as <-.
  destruct (sweep_covers s (hs_handle_index s) i Hok (tb_index _ Hok)) as (t & ? & ? & <-); [lia..|].
  destruct (Hnone t) as (c & -> & ?); [lia..|]. congruence.
Qed.
End table_theory.

(** Storing a context in a free slot and giving it the slot's handle. *)
Lemma place_spec hof hof' s ctx l slot :
  table_ok hof s -> 1 <= l <= HANDLE_MASK ->
  zget (hs_slot s) (l mod hs_slot_size s) = Some 0 ->
  zset (hs_slot s) (l mod hs_slot_size s) ctx = Some slot ->
  ctx <> 0 -> (forall i, zget (hs_slot s) i <> Some ctx) ->
  hof' ctx = Some (l + hs_harbor s) -> (forall c, c <> ctx -> hof' c = hof c) ->
  let s' := set_handle_index (set_slot s slot) (u32 (l + 1)) in
  (forall c, ~ registered hof s (l + hs_harbor s) c) /\
  table_ok hof' s' /\ registered hof' s' (l + hs_harbor s) ctx /\
  forall h c, c <> ctx -> registered hof' s' h c <-> registered hof s h c.
Proof.
  intros Hok Hl Hfree [Hin ->]%zset_Some Hctx Hfresh Hh Hoth s'.
  assert (u32 (l + 1) = l + 1) as Hu by
    (apply wrap_small; unfold is_u, HANDLE_MASK in *; lia).
  assert (forall i, zget (hs_slot s') i = if i =? l mod hs_slot_size s then Some ctx
    else zget (hs_slot s) i) as Hget by (intros i; by apply zget_insert).
  assert (table_ok hof' s') as Hok'.
  { split; simpl; try apply Hok.
    - rewrite zlen_insert. apply Hok.
    - rewrite Hu. lia.
    - intros i c Hi Hc. change (zget (hs_slot s') i = Some c) in Hi. rewrite Hget in Hi.
      destruct (Z.eqb_spec i (l mod hs_slot_size s)) as [->|Hne].
      + injection Hi as <-. eauto.
      + assert (c <> ctx) by (intros ->; by apply (Hfresh i)). rewrite Hoth by done.
        by apply (tb_slot _ _ Hok). }
  split_and!; [|done|..].
  - intros c (Hc & _ & Hs). rewrite (land_size hof), (mod_add_harbor hof) in Hs by done. congruence.
  - apply (registered_iff hof'); [done|]. split_and!; try done. exists (l mod hs_slot_size s).
    by rewrite Hget, Z.eqb_refl.
  - intros h c Hc. rewrite !registered_iff by done. rewrite Hoth by done.
    split; intros (? & ? & i & Hi); split_and!; try done; exists i; rewrite Hget in *.
    + destruct (Z.eqb_spec i (l mod hs_slot_size s)); congruence.
    + destruct (Z.eqb_spec i (l mod hs_slot_size s)) as [->|]; congruence.
Qed.

(** What registering promises, [hof'] being the handle fields after the caller
    has stored the handle in the context. *)
Definition register_post hof s ctx h s' : Prop :=
  1 <= h - hs_harbor s <= HANDLE_MASK /\ hs_harbor s' = hs_harbor s /\
  (hs_name_cap s', hs_name_count s', hs_name s') = (hs_name_cap s, hs_name_count s, hs_name s) /\
  (forall c, ~ registered hof s h c) /\
  forall hof', hof' ctx = Some h -> (forall c, c <> ctx -> hof' c = hof c) ->
    table_ok hof' s' /\ registered hof' s' h ctx /\
    forall h' c, c <> ctx -> registered hof' s' h' c <-> registered hof s h' c.

Lemma register_found hof fuel s ctx l :
  table_ok hof s -> ctx <> 0 -> (forall i, zget (hs_slot s) i <> Some ctx) ->
  probe (Z.to_nat (hs_slot_size s)) (hs_handle_index s) s = Some (Some l) ->
  1 <= l <= HANDLE_MASK -> zget (hs_slot s) (l mod hs_slot_size s) = Some 0 ->
  exists s', register_loop hof (S fuel) ctx s = Some (l + hs_harbor s, s') /\
    register_post hof s ctx (l + hs_harbor s) s'.
Proof.
  intros Hok Hctx Hfresh Hp Hl Hfree. cbn [register_loop]. rewrite Hp. simpl.
  rewrite (land_size hof) by done. pose proof (zget_in _ _ _ Hfree) as Hin.
  pose proof (zset_eq (hs_slot s) _ ctx Hin) as Hset. rewrite Hset. simpl.
  rewrite (lor_harbor hof) by done. eexists. split; [done|].
  pose proof (fun hof' => place_spec hof hof' s ctx l _ Hok Hl Hfree Hset Hctx Hfresh) as Hspec.
  split_and!; try done; try lia.
  - intros c (Hc & _ & Hs). rewrite (land_size hof), (mod_add_harbor hof) in Hs by done. congruence.
  - intros hof' H1 H2. destruct (Hspec hof' H1 H2) as (_ & ? & ? & ?). done.
Qed.

Lemma register_spec hof s ctx :
  table_ok hof s -> can_register s -> ctx <> 0 -> (forall i, zget (hs_slot s) i <> Some ctx) ->
  exists h s', register_loop hof 2 ctx s = Some (h, s') /\ register_post hof s ctx h s'.
Proof.
  intros Hok [Hw Hroom] Hctx Hfresh.
  destruct (probe_spec hof (Z.to_nat (hs_slot_size s)) (hs_handle_index s) s Hok (tb_index _ _ Hok))
    as ([l|] & Hp & Hr).
  { destruct Hr as [Hl Hfree].
    destruct (register_found hof 1 s ctx l) as (s' & ? & ?); eauto. }
  pose proof (probe_full hof s Hok Hp) as Hfull. pose proof (size_bounds _ _ Hok) as Hsz.
  assert (forall i, 0 <= i < hs_slot_size s -> zget (hs_slot s) i <> Some 0) as Hall.
  { intros i Hi. destruct (decide (1 <= i)); [apply Hfull; lia|]. assert (i = 0) as -> by lia.
    destruct Hw as [Hw|[Hw|(j & Hj & Hf)]]; [apply Hfull; lia|done|].
    pose proof (zget_in _ _ _ Hf). pose proof (tb_len _ _ Hok). destruct (Hfull j); [lia|done]. }
  assert (hs_slot_size s * 2 - 1 <= HANDLE_MASK) as Hmax.
  { destruct Hroom as [|(i & Hi)]; [done|]. pose proof (zget_in _ _ _ Hi).
    pose proof (tb_len _ _ Hok). destruct (Hall i); [lia|done]. }
  destruct (grow_spec hof s Hok Hall Hmax) as (slot' & Hg & Hok' & Hreg & j & Hj & Hfree).
  set (s1 := set_table s (hs_slot_size s * 2) slot') in *.
  destruct (probe_spec hof (Z.to_nat (hs_slot_size s1)) (hs_handle_index s1) s1 Hok' (tb_index _ _ Hok'))
    as ([l|] & Hp1 & Hr1).
  2: { exfalso. apply (probe_full hof s1 Hok' Hp1 j); [left; exact Hj|done]. }
  destruct Hr1 as [Hl Hfr].
  assert (forall i, zget (hs_slot s1) i <> Some ctx) as Hfresh1.
  { intros i Hi. destruct (tb_slot _ _ Hok' i ctx Hi Hctx) as (l' & Hl' & _).
    assert (registered hof s1 (l' + hs_harbor s1) ctx) as Hrg
      by (apply (registered_iff hof); eauto).
    apply Hreg in Hrg. destruct Hrg as (_ & _ & Hrg). by apply Hfresh in Hrg. }
  destruct (register_found hof 0 s1 ctx l Hok' Hctx Hfresh1 Hp1 Hl Hfr)
    as (s' & Hs' & (? & ? & ? & Hno & Hpost)).
  cbn [register_loop]. rewrite Hp. simpl. rewrite Hg. simpl.
  change (exists h s', register_loop hof 1 ctx s1 = Some (h, s') /\ register_post hof s ctx h s').
  rewrite Hs'. exists (l + hs_harbor s1), s'. split; [done|].
  split; [assumption|]. split_and!; try done.
  - intros c Hc. apply (Hno c). by apply Hreg.
  - intros hof' Hh1 Hh2. destruct (Hpost hof' Hh1 Hh2) as (? & ? & Hrg). split_and!; try done.
    intros h' c Hc. rewrite Hrg by done. apply Hreg.
Qed.

(** ** The sorted names *)

Definition holds (arr : list (option handle_name)) (ns : list handle_name) : Prop :=
  zlen ns <= zlen arr /\ forall i, 0 <= i < zlen ns -> zget arr i = Some (zget ns i).

Definition sorted_names (ns : list handle_name) : Prop :=
  forall i j x y, i < j -> zget ns i = Some x -> zget ns j = Some y ->
    str_lt (hn_name x) (hn_name y).

(** The array of names holds a map from names to handles. *)
Record names_ok (s : handle_storage) (ns : list handle_name) : Prop := {
  nm_holds : holds (hs_name s) ns;
  nm_cap : zlen (hs_name s) = hs_name_cap s;
  nm_pos : 1 <= hs_name_cap s;
  nm_count : hs_name_count s = zlen ns;
  nm_sorted : sorted_names ns
}.

(** The binary search over the names between [b] and [e]. *)
Lemma search_spec fuel b e key arr ns :
  holds arr ns -> sorted_names ns -> 0 <= b <= e + 1 -> e < zlen ns ->
  e - b < Z.of_nat fuel ->
  (forall i x, i < b -> zget ns i = Some x -> str_lt (hn_name x) key) ->
  (forall i x, e < i -> zget ns i = Some x -> str_lt key (hn_name x)) ->
  (exists h, search fuel b e key arr = Some (inl h) /\ MkName key h ∈ ns) \/
  (exists p, search fuel b e key arr = Some (inr p) /\ 0 <= p <= zlen ns /\
    (forall i x, i < p -> zget ns i = Some x -> str_lt (hn_name x) key) /\
    (forall i x, p <= i -> zget ns i = Some x -> str_lt key (hn_name x))).
Proof.
  intros [Hlen Hh] Hs. revert b e. induction fuel as [|fuel IH]; intros b e Hb He Hf Hlo Hhi.
  { right. exists b. cbn [search]. destruct (Z.leb_spec b e); [lia|].
    split_and!; try done; try lia. intros i x Hi. apply Hhi. lia. }
  cbn [search]. destruct (Z.leb_spec b e) as [Hle|Hgt].
  2: { right. exists b. split_and!; try done; try lia. intros i x Hi. apply Hhi. lia. }
  rewrite Z.quot_div_nonneg by lia. set (mid := (b + e) / 2).
  assert (b <= mid <= e) as Hmid.
  { subst mid. split; [apply Z.div_le_lower_bound|apply Z.div_le_upper_bound]; lia. }
  rewrite Hh by lia. destruct (zget_is_Some ns mid) as [n Hn]; [lia|]. rewrite Hn. simpl.
  destruct (Z.eqb_spec (strcmp (hn_name n) key) 0) as [Hc|Hc].
  { left. exists (hn_handle n). split; [done|]. apply strcmp_eq in Hc. subst key.
    destruct n as [k h]. rewrite zget_nonneg in Hn by lia. by apply list_elem_of_lookup_2 in Hn. }
  destruct (Z.ltb_spec (strcmp (hn_name n) key) 0) as [Hlt|Hge].
  - apply IH; try lia; [|done]. intros i x Hi Hx. destruct (decide (i = mid)) as [->|].
    + rewrite Hn in Hx. injection Hx as <-. done.
    + transitivity (hn_name n); [|done]. apply (Hs i mid); done || lia.
  - assert (str_lt key (hn_name n)) as Hkn by (apply strcmp_lt_gt; lia).
    apply IH; try lia; [done|]. intros i x Hi Hx. destruct (decide (i = mid)) as [->|].
    + rewrite Hn in Hx. injection Hx as <-. done.
    + transitivity (hn_name n); [done|]. apply (Hs mid i); done || lia.
Qed.

Lemma copy_names_spec n i off src dst :
  0 <= i -> 0 <= off -> i + Z.of_nat n <= zlen src -> i + off + Z.of_nat n <= zlen dst ->
  exists dst', copy_names n i off src dst = Some dst' /\ zlen dst' = zlen dst /\
    forall p, zget dst' p = if (i + off <=? p) && (p <? i + off + Z.of_nat n)
                            then zget src (p - off) else zget dst p.
Proof.
  revert i dst. induction n as [|n IH]; intros i dst Hi Ho Hs Hd; cbn [copy_names].
  { exists dst. split_and!; try done. intros p. repeat zcase; simpl; done || lia. }
  destruct (zget_is_Some src i) as [x Hx]; [lia|]. rewrite Hx. simpl.
  rewrite zset_eq by lia. simpl.
  destruct (IH (i + 1) (<[Z.to_nat (i + off):=x]> dst)) as (dst' & -> & Hl & Hg);
    [lia..|rewrite zlen_insert; lia|].
  exists dst'. split_and!; [done|by rewrite Hl, zlen_insert|]. intros p. rewrite Hg.
  rewrite zget_insert by lia. destruct (Z.eqb_spec p (i + off)) as [->|].
  - replace (i + off - off) with i by lia. repeat zcase; simpl; done || lia.
  - repeat zcase; simpl; done || lia.
Qed.

Lemma shift_names_spec n i arr :
  0 <= i - Z.of_nat n -> i < zlen arr ->
  exists arr', shift_names n i arr = Some arr' /\ zlen arr' = zlen arr /\
    forall p, zget arr' p = if (i - Z.of_nat n <? p) && (p <=? i)
                            then zget arr (p - 1) else zget arr p.
Proof.
  revert i arr. induction n as [|n IH]; intros i arr Hi Hl; cbn [shift_names].
  { exists arr. split_and!; try done. intros p. repeat zcase; simpl; done || lia. }
  destruct (zget_is_Some arr (i - 1)) as [x Hx]; [lia|]. rewrite Hx. simpl.
  rewrite zset_eq by lia. simpl.
  destruct (IH (i - 1) (<[Z.to_nat i:=x]> arr)) as (arr' & -> & Hl' & Hg);
    [lia|rewrite zlen_insert; lia|].
  exists arr'. split_and!; [done|by rewrite Hl', zlen_insert|]. intros p. rewrite Hg.
  rewrite !zget_insert by lia.
  destruct (Z.eqb_spec p i), (Z.eqb_spec (p - 1) i); subst;
    repeat zcase; simpl; try done; lia.
Qed.

(** Making room for one name at [before], in place or in a bigger array. *)
Lemma insert_before_spec s ns name handle p :
  names_ok s ns -> 0 <= p <= zlen ns ->
  zlen ns < hs_name_cap s \/ hs_name_cap s * 2 <= MAX_SLOT_SIZE ->
  exists cap arr, _insert_name_before s name handle p = Some (set_names s cap (zlen ns + 1) arr) /\
    zlen arr = cap /\ hs_name_cap s <= cap /\
    holds arr (take (Z.to_nat p) ns ++ MkName name handle :: drop (Z.to_nat p) ns).
Proof.
  intros [[Hlen Hh] Hcap Hpos Hcount Hs] Hp Hroom. unfold _insert_name_before.
  rewrite Hcount.
  assert (exists cap arr, (if hs_name_cap s <=? zlen ns then
      _ ← c_assert (hs_name_cap s * 2 <=? MAX_SLOT_SIZE);
      n1 ← copy_names (Z.to_nat p) 0 0 (hs_name s) (replicate (Z.to_nat (hs_name_cap s * 2)) None);
      n2 ← copy_names (Z.to_nat (zlen ns - p)) p 1 (hs_name s) n1; Some (hs_name_cap s * 2, n2)
    else arr ← shift_names (Z.to_nat (zlen ns - p)) (zlen ns) (hs_name s); Some (hs_name_cap s, arr))
    = Some (cap, arr) /\ zlen arr = cap /\ hs_name_cap s <= cap /\ zlen ns < cap /\
    forall i, 0 <= i <= zlen ns -> i <> p ->
      zget arr i = Some (zget ns (if i <? p then i else i - 1))) as (cap & arr & Heq & Hl & Hc & Hc2 & Hg).
  { destruct (Z.leb_spec (hs_name_cap s) (zlen ns)).
    - rewrite c_assert_true by (apply Z.leb_le; lia). simpl.
      destruct (copy_names_spec (Z.to_nat p) 0 0 (hs_name s)
        (replicate (Z.to_nat (hs_name_cap s * 2)) None)) as (n1 & -> & Hl1 & Hg1);
        [lia..|rewrite zlen_replicate; lia|]. simpl. rewrite zlen_replicate in Hl1.
      destruct (copy_names_spec (Z.to_nat (zlen ns - p)) p 1 (hs_name s) n1)
        as (n2 & -> & Hl2 & Hg2); [lia..|]. simpl.
      exists (hs_name_cap s * 2), n2. split_and!; try done; try lia.
      intros i Hi Hne. rewrite Hg2, Hg1, Z.sub_0_r.
      repeat zcase; simpl; try lia; apply Hh; lia.
    - destruct (shift_names_spec (Z.to_nat (zlen ns - p)) (zlen ns) (hs_name s))
        as (arr & -> & Hl & Hg); [lia..|]. simpl.
      exists (hs_name_cap s), arr. split_and!; try done; try lia.
      intros i Hi Hne. rewrite Hg. repeat zcase; simpl; try lia; apply Hh; lia. }
  rewrite Heq. simpl. rewrite zset_eq by lia. simpl.
  eexists cap, _. split; [done|]. split; [by rewrite zlen_insert|]. split; [done|].
  assert (zlen (take (Z.to_nat p) ns) = p) as Htk by (apply zlen_take; lia).
  assert (zlen (drop (Z.to_nat p) ns) = zlen ns - p) as Hdr by (apply zlen_drop; lia).
  split.
  { autorewrite with zlen. lia. }
  intros i Hi. autorewrite with zlen in Hi. rewrite zget_insert by lia.
  rewrite zget_insert_at by lia.
  destruct (Z.eqb_spec i p) as [->|Hne].
  - by rewrite Z.ltb_irrefl.
  - rewrite Hg by lia. zcase; done.
Qed.

Lemma compact_spec handle todo kept i j arr :
  j = zlen kept -> j <= i -> i + zlen todo <= zlen arr ->
  (forall k, 0 <= k < j -> zget arr k = Some (zget kept k)) ->
  (forall k, 0 <= k < zlen todo -> zget arr (i + k) = Some (zget todo k)) ->
  let ns' := kept ++ filter (fun n => hn_handle n <> handle) todo in
  exists arr', compact (length todo) i j handle arr = Some (zlen ns', arr') /\
    zlen arr' = zlen arr /\ holds arr' ns'.
Proof.
  revert kept i j arr. induction todo as [|n todo IH]; intros kept i j arr Hj Hji Hlen Hk Ht;
    cbn [compact length].
  { simpl. rewrite app_nil_r, <- Hj. exists arr. split_and!; try done.
    split; [pose proof (zlen_nonneg (@nil handle_name)); zlen_lia|]. rewrite <- Hj. done. }
  rewrite zlen_cons in Hlen. pose proof (zlen_nonneg todo). pose proof (zlen_nonneg kept).
  assert (zget arr i = Some (Some n)) as Hi.
  { rewrite <- (Z.add_0_r i). apply (Ht 0). rewrite zlen_cons. lia. }
  rewrite Hi. simpl. rewrite filter_cons.
  assert (forall k, 0 <= k < zlen todo -> zget arr (i + 1 + k) = Some (zget todo k)) as Ht'.
  { intros k Hk'. replace (i + 1 + k) with (i + (1 + k)) by lia.
    rewrite Ht by (rewrite zlen_cons; lia). f_equal.
    rewrite !zget_nonneg by lia. by replace (Z.to_nat (1 + k)) with (S (Z.to_nat k)) by lia. }
  destruct (Z.eqb_spec (hn_handle n) handle) as [He|He].
  { rewrite decide_False by tauto. apply IH; done || lia. }
  rewrite decide_True by done.
  assert (exists arr1, (if i =? j then Some arr else zset arr j (Some n)) = Some arr1 /\
    zlen arr1 = zlen arr /\ zget arr1 j = Some (Some n) /\
    forall k, k <> j -> zget arr1 k = zget arr k) as (arr1 & -> & Hl1 & Hj1 & Ho1).
  { destruct (Z.eqb_spec i j) as [->|]; [by exists arr|].
    rewrite zset_eq by lia. eexists. split; [done|]. rewrite zlen_insert.
    split; [done|]. split; [apply zget_insert_eq; lia|]. intros. apply zget_insert_ne; lia. }
  simpl. destruct (IH (kept ++ [n]) (i + 1) (j + 1) arr1) as (arr2 & -> & Hl2 & Hh2).
  - zlen_lia.
  - lia.
  - lia.
  - intros k Hk'. destruct (decide (k = j)) as [->|].
    + rewrite Hj1, zget_app_r by lia. by rewrite Hj, Z.sub_diag.
    + rewrite Ho1, Hk by lia. by rewrite zget_app_l by lia.
  - intros k Hk'. rewrite Ho1 by lia. by apply Ht'.
  - rewrite <- app_assoc in *. simpl in *. exists arr2. split_and!; try done. lia.
Qed.

Definition name_lt (x y : handle_name) : Prop := str_lt (hn_name x) (hn_name y).

Lemma sorted_names_iff ns : sorted_names ns <-> StronglySorted name_lt ns.
Proof.
  induction ns as [|n ns IH].
  { split; [constructor|]. intros _ i j x y _ Hx. pose proof (zget_in _ _ _ Hx). zlen_lia. }
  rewrite StronglySorted_cons, <- IH, Forall_forall. unfold sorted_names. split.
  - intros Hs. split.
    + intros y [j Hj]%list_elem_of_lookup. apply (Hs 0 (Z.of_nat (S j)) n y); [lia|done|].
      by rewrite zget_nat.
    + intros i j x y Hij Hx Hy. pose proof (zget_in _ _ _ Hx).
      apply (Hs (i + 1) (j + 1)); [lia|..]; rewrite zget_nonneg by lia;
        [replace (Z.to_nat (i + 1)) with (S (Z.to_nat i)) by lia|
         replace (Z.to_nat (j + 1)) with (S (Z.to_nat j)) by lia]; simpl;
        rewrite <- zget_nonneg by lia; done.
  - intros [Hn Hs] i j x y Hij Hx Hy. pose proof (zget_in _ _ _ Hx).
    assert (zget ns (j - 1) = Some y) as Hy'.
    { rewrite zget_nonneg in * by lia. by replace (Z.to_nat j) with (S (Z.to_nat (j - 1))) in Hy by lia. }
    destruct (decide (i = 0)) as [->|].
    + injection Hx as <-. apply Hn. rewrite zget_nonneg in Hy' by lia.
      by apply list_elem_of_lookup_2 in Hy'.
    + apply (Hs (i - 1) (j - 1)); [lia| |done]. rewrite zget_nonneg in * by lia.
      by replace (Z.to_nat i) with (S (Z.to_nat (i - 1))) in Hx by lia.
Qed.

Lemma sorted_names_filter P `{!forall x, Decision (P x)} ns :
  sorted_names ns -> sorted_names (filter P ns).
Proof.
  rewrite !sorted_names_iff. induction 1 as [|n ns Hs IH Hn]; [constructor|].
  rewrite filter_cons. case_decide; [|done]. constructor; [done|].
  rewrite Forall_forall in *. intros x [_ Hx]%list_elem_of_filter. auto.
Qed.

Lemma sorted_names_insert ns n p :
  sorted_names ns -> 0 <= p <= zlen ns ->
  (forall i x, i < p -> zget ns i = Some x -> name_lt x n) ->
  (forall i x, p <= i -> zget ns i = Some x -> name_lt n x) ->
  sorted_names (take (Z.to_nat p) ns ++ n :: drop (Z.to_nat p) ns).
Proof.
  rewrite !sorted_names_iff. intros Hs Hp Hlo Hhi.
  rewrite <- (take_drop (Z.to_nat p) ns) in Hs. apply StronglySorted_app in Hs as (Hx & Ht & Hd).
  assert (Forall (name_lt n) (drop (Z.to_nat p) ns)) as Hnd.
  { apply Forall_forall. intros y [j Hj]%list_elem_of_lookup. rewrite lookup_drop in Hj.
    apply (Hhi (Z.of_nat (Z.to_nat p + j))); [lia|]. by rewrite zget_nat. }
  apply StronglySorted_app_2; [|done|by apply StronglySorted_cons].
  intros x y [j [Hj Hlt]%lookup_take_Some]%list_elem_of_lookup Hy.
  assert (name_lt x n) by (apply (Hlo (Z.of_nat j)); [lia|by rewrite zget_nat]).
  apply elem_of_cons in Hy as [->|Hy]; [done|].
  rewrite Forall_forall in Hnd. unfold name_lt in *. etransitivity; [eassumption|]. by apply Hnd.
Qed.

Definition name_pair (n : handle_name) : string * Z := (hn_name n, hn_handle n).
Definition names_map (ns : list handle_name) : gmap string Z := list_to_map (name_pair <$> ns).

Lemma sorted_names_NoDup ns : sorted_names ns -> NoDup (name_pair <$> ns).*1.
Proof.
  rewrite sorted_names_iff. induction 1 as [|n ns Hs IH Hn]; [constructor|]. simpl.
  apply NoDup_cons. split; [|done]. rewrite <- list_fmap_compose.
  intros (y & Hy & Hin)%list_elem_of_fmap. rewrite Forall_forall in Hn.
  specialize (Hn y Hin). unfold name_lt in Hn. simpl in Hy. rewrite Hy in Hn.
  by apply (StrictOrder_Irreflexive (R := str_lt)) in Hn.
Qed.

Lemma names_map_lookup ns k h :
  sorted_names ns -> names_map ns !! k = Some h <-> MkName k h ∈ ns.
Proof.
  intros Hs. unfold names_map. rewrite <- elem_of_list_to_map by by apply sorted_names_NoDup.
  rewrite list_elem_of_fmap. split.
  - intros ([k' h'] & [= -> ->] & ?). done.
  - intros ?. by exists (MkName k h).
Qed.

Lemma names_map_size ns : sorted_names ns -> Z.of_nat (size (names_map ns)) = zlen ns.
Proof.
  intros Hs. unfold names_map. rewrite map_size_list_to_map by by apply sorted_names_NoDup.
  by rewrite length_fmap.
Qed.

Lemma names_map_insert ns k h p :
  sorted_names (take (Z.to_nat p) ns ++ MkName k h :: drop (Z.to_nat p) ns) ->
  names_map (take (Z.to_nat p) ns ++ MkName k h :: drop (Z.to_nat p) ns) = <[k:=h]> (names_map ns).
Proof.
  intros Hs. unfold names_map. rewrite fmap_app. simpl.
  rewrite <- (list_to_map_cons _ k h). apply list_to_map_proper.
  - apply sorted_names_NoDup in Hs. by rewrite fmap_app in Hs.
  - rewrite <- Permutation_middle. unfold name_pair at 2. simpl.
    constructor. by rewrite <- fmap_app, take_drop.
Qed.

Lemma names_map_retire ns h :
  sorted_names ns ->
  names_map (filter (fun n => hn_handle n <> h) ns) = filter (fun kv => kv.2 <> h) (names_map ns).
Proof.
  intros Hs. apply map_eq_iff. intros k. apply option_eq. intros v.
  rewrite names_map_lookup by by apply sorted_names_filter.
  rewrite map_lookup_filter_Some, names_map_lookup by done.
  rewrite list_elem_of_filter. simpl. tauto.
Qed.

(** ** The name operations on the map *)

Lemma findname_spec s ns k :
  names_ok s ns ->
  exists r, search (Z.to_nat (hs_name_count s)) 0 (hs_name_count s - 1) k (hs_name s) = Some r /\
    match r with
    | inl h => names_map ns !! k = Some h
    | inr p => names_map ns !! k = None /\ 0 <= p <= zlen ns /\
        (forall h, sorted_names (take (Z.to_nat p) ns ++ MkName k h :: drop (Z.to_nat p) ns))
    end.
Proof.
  intros [Hh Hcap Hpos Hcount Hs]. rewrite Hcount. pose proof (zlen_nonneg ns).
  destruct (search_spec (Z.to_nat (zlen ns)) 0 (zlen ns - 1) k (hs_name s) ns)
    as [(h & -> & Hin)|(p & -> & Hp & Hlo & Hhi)]; try done; try lia.
  - intros i x Hi Hx. pose proof (zget_in _ _ _ Hx). lia.
  - intros i x Hi Hx. pose proof (zget_in _ _ _ Hx). lia.
  - eexists. split; [done|]. by apply names_map_lookup.
  - eexists. split; [done|]. simpl. split_and!; try lia.
    + destruct (names_map ns !! k) as [h|] eqn:Hk; [|done].
      apply names_map_lookup in Hk; [|done]. apply list_elem_of_lookup in Hk as [j Hj].
      rewrite <- zget_nat in Hj. exfalso.
      assert (str_lt k k) as Hkk; [|by apply (StrictOrder_Irreflexive (R := str_lt)) in Hkk].
      destruct (Z.lt_ge_cases (Z.of_nat j) p); [apply (Hlo _ _ H0 Hj)|apply (Hhi _ _ H0 Hj)].
    + intros h. apply sorted_names_insert; done.
Qed.

Lemma insert_name_spec s ns k h :
  names_ok s ns -> zlen ns < 2 ^ 29 ->
  exists r s', _insert_name s k h = Some (r, s') /\
    (exists ns', names_ok s' ns' /\
      (r, names_map ns') = (match names_map ns !! k with
                            | Some _ => (None, names_map ns)
                            | None => (Some k, <[k:=h]> (names_map ns)) end)) /\
    exists cap count arr, s' = set_names s cap count arr.
Proof.
  intros Hok Hlt. destruct (findname_spec s ns k Hok) as (r & Hr & Hspec).
  unfold _insert_name. rewrite Hr. simpl. destruct r as [h'|p].
  - exists None, s. split; [done|]. split; [exists ns; by rewrite Hspec|].
    exists (hs_name_cap s), (hs_name_count s), (hs_name s). by destruct s.
  - destruct Hspec as (Hk & Hp & Hs).
    destruct (insert_before_spec s ns k h p Hok Hp) as (cap & arr & -> & Hcap & Hge & Hh).
    { unfold MAX_SLOT_SIZE. lia. }
    simpl. eexists _, _. split; [done|]. split; [|eauto].
    eexists. split; [split; [exact Hh|simpl; done|..|apply Hs]|].
    + simpl. pose proof (nm_pos _ _ Hok). lia.
    + simpl. autorewrite with zlen. rewrite zlen_take, zlen_drop by lia. lia.
    + by rewrite Hk, names_map_insert.
Qed.

Lemma retire_names_spec s ns h :
  names_ok s ns ->
  exists count arr, compact (Z.to_nat (hs_name_count s)) 0 0 h (hs_name s) = Some (count, arr) /\
    forall slot, names_ok (set_names (set_slot s slot) (hs_name_cap s) count arr)
                   (filter (fun n => hn_handle n <> h) ns).
Proof.
  intros [[Hlen Hh] Hcap Hpos Hcount Hs]. rewrite Hcount.
  replace (Z.to_nat (zlen ns)) with (length ns) by (unfold zlen; lia).
  destruct (compact_spec h ns [] 0 0 (hs_name s)) as (arr & -> & Hl & Hh'); try done; try lia.
  eexists _, arr. split; [done|]. intros slot. split; simpl; try done; try lia.
  by apply sorted_names_filter.
Qed.

(** ** What the registry needs of the contexts

    [ctx_alive] says that an address holds a context with a reference to spare.
    Releasing one context touches neither the registry nor the others. *)
Class LawfulContexts (S : Type) `{Contexts S} := {
  ctx_alive : Z -> S -> Prop;
  context_handle_put_H : forall c s st, context_handle c (put_H s st) = context_handle c st;
  ctx_alive_put_H : forall c s st, ctx_alive c st -> ctx_alive c (put_H s st);
  context_grab_law : forall c st, ctx_alive c st ->
    exists st', context_grab c st = Some st' /\ get_H st' = get_H st /\
      (forall c', context_handle c' st' = context_handle c' st) /\
      (forall c', ctx_alive c' st -> ctx_alive c' st');
  context_release_law : forall c st, ctx_alive c st ->
    exists r st', context_release c st = Some (r, st') /\ get_H st' = get_H st /\
      (forall c', c' <> c -> context_handle c' st' = context_handle c' st) /\
      (forall c', c' <> c -> ctx_alive c' st -> ctx_alive c' st')
}.

(** The registry as two maps: handles to contexts, names to handles. *)
Record registry := Reg { reg_ctx : gmap Z Z; reg_names : gmap string Z }.

Section registry.
Context {S : Type} `{LawfulContexts S}.
Implicit Types (st : S) (R : registry).

Abbreviation hof st := (fun c => context_handle c st).

Record reg_rep st R : Prop := {
  rr_table : table_ok (hof st) (get_H st);
  rr_ctx : forall h c, registered (hof st) (get_H st) h c <-> reg_ctx R !! h = Some c;
  rr_alive : forall h c, reg_ctx R !! h = Some c -> ctx_alive c st;
  rr_names : exists ns, names_ok (get_H st) ns /\ names_map ns = reg_names R
}.

Lemma table_ok_ext hf hf' s :
  (forall i c, zget (hs_slot s) i = Some c -> c <> 0 -> hf' c = hf c) ->
  table_ok hf s -> table_ok hf' s.
Proof.
  intros Heq Hok. split; try apply Hok. intros i c Hi Hc. rewrite (Heq i c) by done.
  by apply (tb_slot _ _ Hok).
Qed.

Lemma lookup_slot_rep st R h :
  reg_rep st R -> lookup_slot (hof st) h (get_H st) = Some (default 0 (reg_ctx R !! h)).
Proof.
  intros Hr. destruct (lookup_slot_spec (hof st) (get_H st) h (rr_table _ _ Hr))
    as (c & -> & [[-> Hno]|Hc]).
  - destruct (reg_ctx R !! h) as [c|] eqn:E; [|done]. apply (rr_ctx _ _ Hr) in E. by apply Hno in E.
  - apply (rr_ctx _ _ Hr) in Hc. by rewrite Hc.
Qed.

Lemma reg_ctx_nonzero st R h c : reg_rep st R -> reg_ctx R !! h = Some c -> c <> 0.
Proof. intros Hr Hc. apply (rr_ctx _ _ Hr) in Hc. apply Hc. Qed.

Lemma reg_ctx_inj st R h h' c :
  reg_rep st R -> reg_ctx R !! h = Some c -> reg_ctx R !! h' = Some c -> h = h'.
Proof.
  intros Hr (_ & Hh1 & _)%(rr_ctx _ _ Hr) (_ & Hh2 & _)%(rr_ctx _ _ Hr). congruence.
Qed.

Lemma grab_spec st R h :
  reg_rep st R ->
  exists st', skynet_handle_grab h st = Some (default 0 (reg_ctx R !! h), st') /\ reg_rep st' R.
Proof.
  intros Hr. unfold skynet_handle_grab. rewrite (lookup_slot_rep _ _ _ Hr). simpl.
  destruct (reg_ctx R !! h) as [c|] eqn:Hc; simpl; [|eauto].
  destruct (Z.eqb_spec c 0) as [->|_]; simpl; [by apply (reg_ctx_nonzero _ _ _ _ Hr) in Hc|].
  destruct (context_grab_law c st) as (st' & -> & HH & Hh & Hal); [by eapply rr_alive|]. simpl.
  exists st'. split; [done|]. split.
  - rewrite HH. eapply table_ok_ext; [|apply Hr]. intros i c' _ _. apply Hh.
  - intros h' c'. rewrite <- (rr_ctx _ _ Hr), HH. unfold registered. by rewrite Hh.
  - intros h' c' Hc'. apply Hal. by eapply rr_alive.
  - rewrite HH. apply Hr.
Qed.

Lemma findname_rep st R k :
  reg_rep st R -> skynet_handle_findname k st = Some (default 0 (reg_names R !! k)).
Proof.
  intros [_ _ _ (ns & Hns & Hmap)]. unfold skynet_handle_findname.
  destruct (findname_spec _ ns k Hns) as (r & -> & Hspec). simpl. rewrite <- Hmap.
  destruct r; [by rewrite Hspec|]. destruct Hspec as [-> _]. done.
Qed.

Lemma namehandle_rep st R h k :
  reg_rep st R -> Z.of_nat (size (reg_names R)) < 2 ^ 29 ->
  exists r st', skynet_handle_namehandle h k st = Some (r, st') /\
    r = (match reg_names R !! k with Some _ => None | None => Some k end) /\
    reg_rep st' (Reg (reg_ctx R) (match reg_names R !! k with
                                  | Some _ => reg_names R
                                  | None => <[k:=h]> (reg_names R) end)).
Proof.
  intros [Ht Hc Ha (ns & Hns & Hmap)] Hsz. unfold skynet_handle_namehandle.
  destruct (insert_name_spec (get_H st) ns k h Hns) as (r & s' & -> & (ns' & Hns' & Heq) & cap & cnt & arr & ->).
  { rewrite <- names_map_size by apply Hns. by rewrite Hmap. }
  simpl. eexists _, _. split; [done|]. rewrite Hmap in Heq.
  split; [by destruct (reg_names R !! k); simplify_eq|].
  split; rewrite ?get_put_H.
  - destruct Ht. split; try done. intros i c Hi Hc'. rewrite context_handle_put_H. eauto.
  - intros h' c. simpl. rewrite <- Hc. unfold registered. simpl. by rewrite context_handle_put_H.
  - intros h' c Hc'. apply ctx_alive_put_H. by eapply Ha.
  - exists ns'. split; [done|]. simpl. by destruct (reg_names R !! k); simplify_eq.
Qed.

(** Retiring removes the context and every name of its handle. *)
Definition reg_retire h R : registry :=
  Reg (delete h (reg_ctx R)) (filter (fun kv => kv.2 <> h) (reg_names R)).

Lemma retire_rep st R h :
  reg_rep st R ->
  match reg_ctx R !! h with
  | None => skynet_handle_retire h st = Some (0, st)
  | Some c => exists st', skynet_handle_retire h st = Some (1, st') /\
      reg_rep st' (reg_retire h R) /\ hs_slot_size (get_H st') = hs_slot_size (get_H st) /\
      forall i, zget (hs_slot (get_H st')) i =
        if i =? h mod hs_slot_size (get_H st) then Some 0 else zget (hs_slot (get_H st)) i
  end.
Proof.
  intros Hr. unfold skynet_handle_retire. rewrite (lookup_slot_rep _ _ _ Hr). simpl.
  destruct (reg_ctx R !! h) as [c|] eqn:Hc; simpl; [|done].
  pose proof (reg_ctx_nonzero _ _ _ _ Hr Hc) as Hc0.
  destruct (Z.eqb_spec c 0) as [|_]; [done|]. simpl.
  pose proof (rr_table _ _ Hr) as Hok. rewrite (land_size _ _ _ Hok).
  destruct (slot_in_bounds _ _ h Hok) as [x Hx]. pose proof (zget_in _ _ _ Hx) as Hin.
  rewrite zset_eq by done. simpl.
  destruct (rr_names _ _ Hr) as (ns & Hns & Hmap).
  destruct (retire_names_spec _ ns h Hns) as (cnt & arr & -> & Hns'). simpl.
  set (s' := set_names _ _ cnt arr).
  destruct (context_release_law c (put_H s' st)) as (r & st' & -> & HH & Hh & Hal).
  { apply ctx_alive_put_H. by eapply rr_alive. }
  rewrite get_put_H in HH. simpl.
  assert (forall c', c' <> c -> context_handle c' st' = context_handle c' st) as Hh'.
  { intros c' Hne. by rewrite Hh, context_handle_put_H. }
  assert (forall i, zget (hs_slot (get_H st')) i =
    if i =? h mod hs_slot_size (get_H st) then Some 0 else zget (hs_slot (get_H st)) i) as Hget.
  { intros i. rewrite HH. simpl. by apply zget_insert. }
  assert (zget (hs_slot (get_H st)) (h mod hs_slot_size (get_H st)) = Some c) as Hcs.
  { apply (rr_ctx _ _ Hr) in Hc. destruct Hc as (_ & _ & Hc). by rewrite (land_size _ _ _ Hok) in Hc. }
  assert (forall i c', zget (hs_slot (get_H st)) i = Some c' -> c' <> 0 ->
    i <> h mod hs_slot_size (get_H st) -> c' <> c) as Hne.
  { intros i c' Hi Hc' Hih ->. destruct (tb_slot _ _ Hok i c Hi Hc0) as (l & Hl & _ & <-).
    destruct (tb_slot _ _ Hok _ c Hcs Hc0) as (l' & Hl' & _ & E).
    rewrite Hl in Hl'. injection Hl' as Hl'. assert (l = l') by lia. congruence. }
  assert (table_ok (hof st') (get_H st')) as Hok'.
  { destruct Hok. rewrite HH. split; try done.
    - simpl. by rewrite zlen_insert.
    - intros i c' Hi Hc'. rewrite <- HH, Hget in Hi.
      destruct (Z.eqb_spec i (h mod hs_slot_size (get_H st))) as [Hih|Hne']; [congruence|].
      rewrite Hh' by eauto. by apply tb_slot0. }
  exists st'. split; [done|]. split; [|split; [by rewrite HH|exact Hget]].
  split; [done|..].
  - intros h' c'. rewrite (registered_iff _ _ _ _ Hok'). simpl.
    rewrite lookup_delete_Some, <- (rr_ctx _ _ Hr), (registered_iff _ _ _ _ Hok). split.
    + intros (Hc' & Hhc & i & Hi). rewrite Hget in Hi.
      destruct (Z.eqb_spec i (h mod hs_slot_size (get_H st))) as [Hih|Hne']; [congruence|].
      assert (c' <> c) as Hcc by eauto. rewrite Hh' in Hhc by done. split; [|eauto].
      intros ->. destruct (tb_slot _ _ Hok i c' Hi Hc') as (l & Hl & _ & Hli).
      rewrite Hhc in Hl. injection Hl as ->. apply Hne'. by rewrite (mod_add_harbor _ _ _ Hok).
    + intros (Hhh & Hc' & Hhc & i & Hi).
      assert (c' <> c) as Hcc.
      { intros ->. apply (rr_ctx _ _ Hr) in Hc. destruct Hc as (_ & Hc & _). congruence. }
      split_and!; [done|by rewrite Hh'|]. exists i. rewrite Hget.
      destruct (Z.eqb_spec i (h mod hs_slot_size (get_H st))) as [Hih|Hne']; congruence.
  - intros h' c'. simpl. rewrite lookup_delete_Some. intros [Hhh Hc'].
    assert (c' <> c) by (intros ->; apply Hhh; by eapply reg_ctx_inj).
    apply Hal; [done|]. apply ctx_alive_put_H. by eapply rr_alive.
  - exists (filter (fun n => hn_handle n <> h) ns). rewrite HH. split; [apply Hns'|].
    simpl. rewrite names_map_retire by apply Hns. by rewrite Hmap.
Qed.

(** ** Retiring everything *)

(** Contexts went, and with each all the names of its handle. *)
Definition retired_from R R' : Prop :=
  reg_ctx R' ⊆ reg_ctx R /\
  forall k h, reg_names R' !! k = Some h <->
    reg_names R !! k = Some h /\ (reg_ctx R !! h = None \/ is_Some (reg_ctx R' !! h)).

Lemma retired_from_refl R : retired_from R R.
Proof.
  split; [done|]. intros k h. split; [|tauto]. intros. split; [done|].
  destruct (reg_ctx R !! h); eauto.
Qed.

Lemma retired_from_step R R1 h : retired_from R R1 -> is_Some (reg_ctx R1 !! h) ->
  retired_from R (reg_retire h R1).
Proof.
  intros [Hsub Hn] [c Hh]. split.
  { simpl. etransitivity; [apply delete_subseteq|done]. }
  intros k h'. simpl. rewrite map_lookup_filter_Some, Hn. simpl.
  assert (is_Some (reg_ctx R !! h)) as [cR HcR].
  { exists c. by eapply lookup_weaken. }
  split.
  - intros [[? [?|?]] Hne]; (split; [done|]); [by left|right]. by rewrite lookup_delete_ne by done.
  - intros [? [Hnone|Hsome]].
    + split; [split; [done|by left]|]. intros ->. congruence.
    + destruct (decide (h = h')) as [->|Hne]; [rewrite lookup_delete_eq in Hsome; by destruct Hsome|].
      rewrite lookup_delete_ne in Hsome by done. split; [split; [done|by right]|congruence].
Qed.

Lemma retire_round_spec n i cnt st R0 R :
  reg_rep st R -> retired_from R0 R -> 0 <= i -> hs_slot_size (get_H st) - i <= Z.of_nat n ->
  (forall j, 0 <= j < i -> j < hs_slot_size (get_H st) -> zget (hs_slot (get_H st)) j = Some 0) ->
  exists cnt' st' R', retire_round n i cnt st = Some (cnt', st') /\
    reg_rep st' R' /\ retired_from R0 R' /\ cnt <= cnt' /\
    hs_slot_size (get_H st') = hs_slot_size (get_H st) /\
    (forall j, 0 <= j < hs_slot_size (get_H st) -> zget (hs_slot (get_H st')) j = Some 0) /\
    (reg_ctx R = ∅ -> cnt' = cnt).
Proof.
  revert i cnt st R. induction n as [|n IH]; intros i cnt st R Hr Hfrom Hi Hn Hz; cbn [retire_round].
  { destruct (Z.ltb_spec i (hs_slot_size (get_H st))); [lia|].
    exists cnt, st, R. split_and!; try done. intros j Hj. apply Hz; lia. }
  destruct (Z.ltb_spec i (hs_slot_size (get_H st))) as [Hlt|Hge].
  2: { exists cnt, st, R. split_and!; try done. intros j Hj. apply Hz; lia. }
  pose proof (rr_table _ _ Hr) as Hok. pose proof (tb_len _ _ Hok) as Hlen.
  destruct (zget_is_Some (hs_slot (get_H st)) i) as [c Hc]; [lia|]. rewrite Hc. simpl.
  destruct (Z.eqb_spec c 0) as [->|Hc0]; simpl.
  { apply (IH (i + 1) cnt st R); try done; try lia.
    intros j Hj Hjs. destruct (decide (j = i)) as [->|]; [done|apply Hz; lia]. }
  destruct (tb_slot _ _ Hok i c Hc Hc0) as (l & Hl & Hlr & Hli). rewrite Hl. simpl.
  destruct (tb_harbor _ _ Hok) as (b & Hb & Hharb).
  destruct (Z.eqb_spec (l + hs_harbor (get_H st)) 0) as [|_]; [lia|]. simpl.
  assert (reg_ctx R !! (l + hs_harbor (get_H st)) = Some c) as Hreg.
  { apply (rr_ctx _ _ Hr). apply (registered_iff _ _ _ _ Hok). eauto. }
  pose proof (retire_rep st R (l + hs_harbor (get_H st)) Hr) as Hret. rewrite Hreg in Hret.
  destruct Hret as (st1 & -> & Hr1 & Hsz & Hget). simpl.
  rewrite (mod_add_harbor _ _ _ Hok), Hli in Hget.
  destruct (IH (i + 1) (cnt + 1) st1 _ Hr1) as (cnt' & st' & R' & -> & Hr' & Hf' & Hcnt & Hsz' & Hz' & _).
  - apply retired_from_step; [done|]. eauto.
  - lia.
  - lia.
  - intros j Hj Hjs. rewrite Hget. destruct (Z.eqb_spec j i); [done|apply Hz; lia].
  - exists cnt', st', R'. split_and!; try done; try lia.
    + intros j Hj. apply Hz'. by rewrite Hsz.
    + intros Hemp. by rewrite Hemp, lookup_empty in Hreg.
Qed.

(** ** The promises of the registry *)

Inductive reg_op := OGrab (h : Z) | ORetire (h : Z) | OFind (k : string) | ONamed (h : Z) (k : string).
Inductive reg_res := RNum (n : Z) | RName (k : option string).

Definition run_reg_op (o : reg_op) (st : S) : option (reg_res * S) :=
  match o with
  | OGrab h => '(c, st') ← skynet_handle_grab h st; Some (RNum c, st')
  | ORetire h => '(n, st') ← skynet_handle_retire h st; Some (RNum n, st')
  | OFind k => h ← skynet_handle_findname k st; Some (RNum h, st)
  | ONamed h k => '(r, st') ← skynet_handle_namehandle h k st; Some (RName r, st')
  end.

Definition spec_reg_op (o : reg_op) (R : registry) : option (reg_res * registry) :=
  match o with
  | OGrab h => Some (RNum (default 0 (reg_ctx R !! h)), R)
  | ORetire h =>
      match reg_ctx R !! h with
      | Some _ => Some (RNum 1, reg_retire h R)
      | None => Some (RNum 0, R)
      end
  | OFind k => Some (RNum (default 0 (reg_names R !! k)), R)
  | ONamed h k =>
      if bool_decide (Z.of_nat (size (reg_names R)) < 2 ^ 29) then
        match reg_names R !! k with
        | Some _ => Some (RName None, R)
        | None => Some (RName (Some k), Reg (reg_ctx R) (<[k:=h]> (reg_names R)))
        end
      else None
  end.

Fixpoint run_ops {T} (step : reg_op -> T -> option (reg_res * T)) (os : list reg_op) (s : T)
    : option (list reg_res * T) :=
  match os with
  | [] => Some ([], s)
  | o :: os' => '(r, s1) ← step o s; '(rs, s2) ← run_ops step os' s1; Some (r :: rs, s2)
  end.

Lemma reg_op_refines o st R r R' :
  reg_rep st R -> spec_reg_op o R = Some (r, R') ->
  exists st', run_reg_op o st = Some (r, st') /\ reg_rep st' R'.
Proof.
  intros Hr Hs. destruct o as [h|h|k|h k]; simpl in *.
  - injection Hs as <- <-. destruct (grab_spec st R h Hr) as (st' & -> & ?). simpl. eauto.
  - pose proof (retire_rep st R h Hr) as Hret. destruct (reg_ctx R !! h); injection Hs as <- <-.
    + destruct Hret as (st' & -> & ? & _). simpl. eauto.
    + rewrite Hret. simpl. eauto.
  - injection Hs as <- <-. rewrite (findname_rep _ _ _ Hr). simpl. eauto.
  - case_bool_decide as Hsz; [|done].
    destruct (namehandle_rep st R h k Hr Hsz) as (r' & st' & -> & -> & Hr'). simpl.
    destruct R as [rc rn]. simpl in *. destruct (rn !! k); injection Hs as <- <-; eauto.
Qed.

(** [C14] The registry is a pair of maps: any sequence of grabbing a handle,
    retiring it, looking a name up and giving a handle a name returns what the
    map of registered contexts and the map of names say, never reaches a slot or
    a name out of bounds, and leaves a table related to the updated maps; a name
    taken stays with its first handle, and retiring removes all names of the
    handle. *)
Theorem registry_refines_maps os st R rs R' :
  reg_rep st R -> run_ops spec_reg_op os R = Some (rs, R') ->
  exists st', run_ops run_reg_op os st = Some (rs, st') /\ reg_rep st' R'.
Proof.
  revert st R rs R'. induction os as [|o os IH]; intros st R rs R' Hr Hs; simpl in *; opt_inv; eauto.
  destruct (reg_op_refines _ _ _ _ _ Hr H2) as (st1 & -> & Hr1). simpl.
  destruct (IH _ _ _ _ Hr1 H3) as (st2 & -> & ?). simpl. eauto.
Qed.

(** [C15] Retiring everything terminates within two rounds and leaves no context
    registered, and of the names only those whose handle had no context. *)
Theorem retireall_empties st R :
  reg_rep st R ->
  exists st' names', skynet_handle_retireall 2 st = Some st' /\ reg_rep st' (Reg ∅ names') /\
    (forall i, 0 <= i < hs_slot_size (get_H st') -> zget (hs_slot (get_H st')) i = Some 0) /\
    forall k h, names' !! k = Some h <-> reg_names R !! k = Some h /\ reg_ctx R !! h = None.
Proof.
  intros Hr. pose proof (size_bounds _ _ (rr_table _ _ Hr)) as Hsz.
  assert (forall st1 R1, reg_rep st1 R1 ->
    (forall j, 0 <= j < hs_slot_size (get_H st1) -> zget (hs_slot (get_H st1)) j = Some 0) ->
    reg_ctx R1 = ∅) as Hempty.
  { intros st1 R1 Hr1 Hz. apply map_empty. intros h. destruct (reg_ctx R1 !! h) as [c|] eqn:Hc; [|done].
    pose proof (reg_ctx_nonzero _ _ _ _ Hr1 Hc).
    apply (rr_ctx _ _ Hr1) in Hc. destruct Hc as (_ & _ & Hc).
    pose proof (zget_in _ _ _ Hc). pose proof (tb_len _ _ (rr_table _ _ Hr1)).
    rewrite Hz in Hc by lia. congruence. }
  destruct (retire_round_spec (Z.to_nat (hs_slot_size (get_H st))) 0 0 st R R)
    as (n1 & st1 & R1 & Hrun & Hr1 & Hf1 & _ & Hsz1 & Hz1 & _);
    [done|apply retired_from_refl|lia..|].
  rewrite <- Hsz1 in Hz1. pose proof (Hempty _ _ Hr1 Hz1) as He1.
  destruct (retire_round_spec (Z.to_nat (hs_slot_size (get_H st1))) 0 0 st1 R R1)
    as (n2 & st2 & R2 & Hrun2 & Hr2 & Hf2 & _ & Hsz2 & Hz2 & Hcnt2); try done; try lia.
  rewrite <- Hsz2 in Hz2. pose proof (Hempty _ _ Hr2 Hz2) as He2.
  simpl. rewrite Hrun. simpl.
  assert (forall st' R', reg_rep st' R' -> retired_from R R' -> reg_ctx R' = ∅ ->
    (forall j, 0 <= j < hs_slot_size (get_H st') -> zget (hs_slot (get_H st')) j = Some 0) ->
    exists st'' names', Some st' = Some st'' /\ reg_rep st'' (Reg ∅ names') /\
    (forall i, 0 <= i < hs_slot_size (get_H st'') -> zget (hs_slot (get_H st'')) i = Some 0) /\
    forall k h, names' !! k = Some h <-> reg_names R !! k = Some h /\ reg_ctx R !! h = None) as Hend.
  { intros st' [rc rn] Hr' [_ Hn] Hc Hz. simpl in *. subst rc. exists st', rn. split_and!; try done.
    intros k h. rewrite Hn, lookup_empty. split; [intros [? [?|[??]]]; done|tauto]. }
  destruct (Z.eqb_spec n1 0) as [_|_]; [by eapply Hend|].
  rewrite Hrun2. simpl. rewrite (Hcnt2 He1). simpl. by eapply Hend.
Qed.

(** [register_fresh], and that only the registry part of the state changes. *)
Lemma register_fresh_full st R ctx :
  reg_rep st R -> can_register (get_H st) -> ctx <> 0 ->
  (forall h, reg_ctx R !! h <> Some ctx) ->
  (forall i, zget (hs_slot (get_H st)) i <> Some ctx) ->
  exists h st', skynet_handle_register ctx st = Some (h, st') /\ (exists s', st' = put_H s' st /\ hs_harbor s' = hs_harbor (get_H st)) /\
    1 <= h - hs_harbor (get_H st) <= HANDLE_MASK /\ reg_ctx R !! h = None /\
    forall st2, get_H st2 = get_H st' -> context_handle ctx st2 = Some h -> ctx_alive ctx st2 ->
      (forall c, c <> ctx -> context_handle c st2 = context_handle c st' /\
                             (ctx_alive c st' -> ctx_alive c st2)) ->
      reg_rep st2 (Reg (<[h:=ctx]> (reg_ctx R)) (reg_names R)).
Proof.
  intros Hr Hcan Hctx Hnot Hfresh. unfold skynet_handle_register.
  destruct (register_spec (hof st) (get_H st) ctx (rr_table _ _ Hr) Hcan Hctx Hfresh)
    as (h & s' & -> & Hh & Hharb & Hnames & Hno & Hpost). simpl.
  assert (reg_ctx R !! h = None) as Hnone.
  { destruct (reg_ctx R !! h) as [c|] eqn:Hc; [|done]. apply (rr_ctx _ _ Hr) in Hc. by apply Hno in Hc. }
  exists h, (put_H s' st). split; [done|]. split; [eauto|]. split; [done|]. split; [done|].
  intros st2 HH Hh2 Hal Hoth. rewrite get_put_H in HH.
  destruct (Hpost (hof st2)) as (Hok & Hreg & Hregs).
  { done. }
  { intros c Hc. destruct (Hoth c Hc) as [-> _]. apply context_handle_put_H. }
  rewrite <- HH in *. split; [done|..].
  - intros h' c. destruct (decide (c = ctx)) as [->|Hc].
    + destruct (decide (h' = h)) as [->|Hne]; simpl.
      { rewrite lookup_insert_eq. done. }
      rewrite lookup_insert_ne by done. split; [|by intros ?%Hnot].
      intros (_ & Hh' & _). congruence.
    + rewrite Hregs by done. rewrite (rr_ctx _ _ Hr). simpl.
      destruct (decide (h' = h)) as [->|Hne]; [|by rewrite lookup_insert_ne].
      rewrite lookup_insert_eq. split; congruence.
  - intros h' c Hc. simpl in Hc. apply lookup_insert_Some in Hc as [[<- <-]|[Hne Hc]]; [done|].
    destruct (decide (c = ctx)) as [->|Hcc]; [done|].
    apply Hoth; [done|]. apply ctx_alive_put_H. by eapply rr_alive.
  - destruct (rr_names _ _ Hr) as (ns & [Hns1 Hns2 Hns3 Hns4 Hns5] & Hmap).
    injection Hnames as H1' H2' H3'. exists ns. split; [|done].
    split; rewrite ?H1', ?H2', ?H3'; done.
Qed.

(** Registering looks at the handles of the contexts in the table only. *)
Lemma register_loop_ext hof hof' ctx s :
  (forall c, c ∈ hs_slot s -> hof c = hof' c) ->
  register_loop hof 2 ctx s = register_loop hof' 2 ctx s.
Proof.
  intros Heq. cbn [register_loop]. destruct (probe _ _ s) as [[h|]|]; [done| |done]. simpl.
  assert (grow_table hof s = grow_table hof' s) as ->.
  { unfold grow_table. destruct (c_assert _); [|done]. simpl. f_equal. revert Heq.
    generalize (replicate (Z.to_nat (hs_slot_size s * 2)) 0). generalize (hs_slot_size s * 2 - 1).
    induction (hs_slot s) as [|c l IH]; intros mask new Heq; [done|]. simpl. rewrite Heq by apply list_elem_of_here.
    destruct (hof' c); [|done]. simpl. destruct (zget new _); [|done]. simpl. destruct (c_assert _); [|done]. simpl.
    destruct (zset new _ _); [|done]. simpl. apply IH. intros d Hd. apply Heq. by apply list_elem_of_further. }
  destruct (grow_table hof' s) as [s'|]; [|done]. simpl. destruct (probe _ _ s') as [[h|]|]; [done| |done]. simpl.
  by destruct (grow_table hof s'), (grow_table hof' s').
Qed.

(** The code behind the two lookups, for a registered handle. *)
Lemma grab_unfold st R h c :
  reg_rep st R -> reg_ctx R !! h = Some c ->
  skynet_handle_grab h st = (st' ← context_grab c st; Some (c, st')).
Proof.
  intros Hr Hc. unfold skynet_handle_grab. rewrite (lookup_slot_rep _ _ _ Hr), some_bind, Hc. simpl.
  destruct (Z.eqb_spec c 0) as [->|_]; [by apply (reg_ctx_nonzero _ _ _ _ Hr) in Hc|done].
Qed.

Lemma grab_none st R h :
  reg_rep st R -> reg_ctx R !! h = None -> skynet_handle_grab h st = Some (0, st).
Proof. intros Hr Hc. unfold skynet_handle_grab. by rewrite (lookup_slot_rep _ _ _ Hr), some_bind, Hc. Qed.

Lemma retire_unfold st R h c :
  reg_rep st R -> reg_ctx R !! h = Some c ->
  exists s' r st', context_release c (put_H s' st) = Some (r, st') /\
    skynet_handle_retire h st = Some (1, st') /\ hs_harbor s' = hs_harbor (get_H st) /\
    ctx_alive c (put_H s' st).
Proof.
  intros Hr Hc. unfold skynet_handle_retire. rewrite (lookup_slot_rep _ _ _ Hr), some_bind, Hc. simpl.
  destruct (Z.eqb_spec c 0) as [->|_]; [by apply (reg_ctx_nonzero _ _ _ _ Hr) in Hc|]. simpl.
  pose proof (rr_table _ _ Hr) as Hok. rewrite (land_size _ _ _ Hok).
  destruct (slot_in_bounds _ _ h Hok) as [x Hx]. pose proof (zget_in _ _ _ Hx) as Hin.
  rewrite zset_eq, some_bind by done.
  destruct (rr_names _ _ Hr) as (ns & Hns & Hmap).
  destruct (retire_names_spec _ ns h Hns) as (cnt & arr & -> & _). rewrite some_bind.
  set (s' := set_names _ _ cnt arr).
  assert (ctx_alive c (put_H s' st)) as Hal by (apply ctx_alive_put_H; by eapply rr_alive).
  destruct (context_release_law c (put_H s' st) Hal) as (r & st' & Hrel & _).
  exists s', r, st'. split_and!; try done. by rewrite Hrel.
Qed.

(** Registering: unless the 24-bit handles are used up, a context gets a
    non-zero handle of this harbor that no registered context has; once the
    caller has stored it in the context, that handle finds the context and every
    other handle finds what it found before, growth of the table included. *)
Theorem register_fresh st R ctx :
  reg_rep st R -> can_register (get_H st) -> ctx <> 0 ->
  (forall h, reg_ctx R !! h <> Some ctx) ->
  (forall i, zget (hs_slot (get_H st)) i <> Some ctx) ->
  exists h st', skynet_handle_register ctx st = Some (h, st') /\
    1 <= h - hs_harbor (get_H st) <= HANDLE_MASK /\ reg_ctx R !! h = None /\
    forall st2, get_H st2 = get_H st' -> context_handle ctx st2 = Some h -> ctx_alive ctx st2 ->
      (forall c, c <> ctx -> context_handle c st2 = context_handle c st' /\
                             (ctx_alive c st' -> ctx_alive c st2)) ->
      reg_rep st2 (Reg (<[h:=ctx]> (reg_ctx R)) (reg_names R)).
Proof.
  intros Hr Hcan Hctx Hnot Hfresh.
  destruct (register_fresh_full st R ctx Hr Hcan Hctx Hnot Hfresh) as (h & st' & Hrun & _ & Hpost). eauto.
Qed.
End registry.

(** ** The initial registry, and contexts reduced to a handle and a count *)

Lemma table_ok_init hf harbor : table_ok hf (skynet_handle_init harbor).
Proof.
  unfold skynet_handle_init. split; simpl; try done.
  - exists 2. done.
  - exists (harbor mod 256). split; [apply Z.mod_pos_bound; lia|].
    rewrite land_255. unfold HANDLE_REMOTE_SHIFT. rewrite Z.shiftl_mul_pow2 by lia.
    pose proof (Z.mod_pos_bound harbor 256). apply wrap_small. unfold is_u. lia.
  - intros i c Hi Hc. pose proof (zget_in _ _ _ Hi) as Hin.
    change (zlen [0; 0; 0; 0]) with 4 in Hin.
    assert (i = 0 \/ i = 1 \/ i = 2 \/ i = 3) as [-> | [-> | [-> | ->]]] by lia;
      injection Hi as <-; done.
Qed.

Lemma names_ok_init harbor : names_ok (skynet_handle_init harbor) [].
Proof.
  split; simpl; try done.
  - split; [done|]. intros i Hi. change (0 <= i < 0) in Hi. lia.
  - intros i j x y _ Hi. pose proof (zget_in _ _ _ Hi). zlen_lia.
Qed.

(** The registry beside a store of contexts that have a handle and a count. *)
Record counted := Counted { cn_H : handle_storage; cn_ctx : gmap Z (Z * Z) }.

#[export] Instance counted_handles : HasHandles counted.
Proof.
  refine {| get_H := cn_H; put_H h s := Counted h (cn_ctx s) |}; [done|by intros []|done].
Defined.

#[export] Instance counted_contexts : Contexts counted := {|
  context_handle c s := fst <$> cn_ctx s !! c;
  context_grab c s := '(h, n) ← cn_ctx s !! c; Some (Counted (cn_H s) (<[c:=(h, n + 1)]> (cn_ctx s)));
  context_release c s := '(h, n) ← cn_ctx s !! c;
    if n - 1 =? 0 then Some (0, Counted (cn_H s) (delete c (cn_ctx s)))
    else Some (c, Counted (cn_H s) (<[c:=(h, n - 1)]> (cn_ctx s)))
|}.

#[export] Instance counted_lawful : LawfulContexts counted.
Proof.
  refine {| ctx_alive c s := is_Some (cn_ctx s !! c) |}; [done|done|..].
  - intros c [H ctxs] [[h n] Hc]. simpl in *. rewrite Hc. simpl. eexists. split; [done|].
    split; [done|]. simpl. split; intros c'.
    + destruct (decide (c' = c)) as [->|]; [by rewrite lookup_insert_eq, Hc|by rewrite lookup_insert_ne].
    + intros. apply lookup_insert_is_Some'. by right.
  - intros c [H ctxs] [[h n] Hc]. simpl in *. rewrite Hc. simpl.
    destruct (n - 1 =? 0); (eexists _, _; split; [done|]; split; [done|]; simpl; split; intros c' Hne).
    + by rewrite lookup_delete_ne.
    + by rewrite lookup_delete_ne.
    + by rewrite lookup_insert_ne.
    + by rewrite lookup_insert_ne.
Defined.

(** Handles 0x05000001 and 0x05000002 of harbor 5, and a name. *)
Definition two_contexts : counted :=
  Counted (MkHS 83886080 3 4 [0; 70; 71; 0] 2 1 [Some (MkName "gate" 83886081); None])
    {[70 := (83886081, 1); 71 := (83886082, 1)]}.
Definition two_registered : registry :=
  Reg {[83886081 := 70; 83886082 := 71]} {["gate" := 83886081]}.

Lemma two_contexts_rep : reg_rep two_contexts two_registered.
Proof.
  assert (table_ok (fun c => context_handle c two_contexts) (get_H two_contexts)) as Hok.
  { split; simpl; try done.
    - by exists 2.
    - by exists 5.
    - intros i c Hi Hc. pose proof (zget_in _ _ _ Hi) as Hin.
      change (zlen [0; 70; 71; 0]) with 4 in Hin.
      assert (i = 0 \/ i = 1 \/ i = 2 \/ i = 3) as [-> | [-> | [-> | ->]]] by lia;
        injection Hi as <-; try done; [exists 1|exists 2]; done. }
  split; [done|..].
  - intros h c. rewrite (registered_iff _ _ _ _ Hok). simpl.
    unfold two_registered. simpl. rewrite !lookup_insert_Some, lookup_singleton_Some. split.
    + intros (Hc & Hh & i & Hi). pose proof (zget_in _ _ _ Hi) as Hin.
      change (zlen [0; 70; 71; 0]) with 4 in Hin.
      assert (i = 0 \/ i = 1 \/ i = 2 \/ i = 3) as [-> | [-> | [-> | ->]]] by lia;
        injection Hi as <-; try done; vm_compute in Hh; injection Hh as <-; auto.
    + intros [[<- <-]|[_ [<- <-]]]; (split; [done|]; split; [reflexivity|]);
        [by exists 1|by exists 2].
  - intros h c Hc. unfold two_registered in Hc. simpl in Hc.
    rewrite lookup_insert_Some, lookup_singleton_Some in Hc.
    destruct Hc as [[<- <-]|[_ [<- <-]]]; by eexists.
  - exists [MkName "gate" 83886081]. split; [|done]. split; simpl; try done.
    + split; [done|]. intros i Hi. assert (i = 0) as -> by (unfold zlen in Hi; simpl in Hi; lia). done.
    + intros i j x y Hij Hx Hy. pose proof (zget_in _ _ _ Hx). pose proof (zget_in _ _ _ Hy).
      unfold zlen in *. simpl in *. lia.
Qed.

Lemma registry_refines_maps_witness :
  exists st', run_ops run_reg_op
      [OFind "gate"; ONamed 83886082 "gate"; ONamed 83886082 "agent"; ORetire 83886081;
       OFind "gate"; OFind "agent"; OGrab 83886081; OGrab 83886082] two_contexts =
    Some ([RNum 83886081; RName None; RName (Some "agent"); RNum 1; RNum 0; RNum 83886082;
           RNum 0; RNum 71], st') /\
    reg_rep st' (Reg {[83886082 := 71]} {["agent" := 83886082]}).
Proof.
  apply (registry_refines_maps _ two_contexts two_registered).
  - apply two_contexts_rep.
  - vm_compute. reflexivity.
Defined.

Lemma retireall_empties_witness :
  exists st' names', skynet_handle_retireall 2 two_contexts = Some st' /\ reg_rep st' (Reg ∅ names') /\
    (forall i, 0 <= i < hs_slot_size (get_H st') -> zget (hs_slot (get_H st')) i = Some 0) /\
    forall k h, names' !! k = Some h <->
      reg_names two_registered !! k = Some h /\ reg_ctx two_registered !! h = None.
Proof. apply (retireall_empties two_contexts two_registered), two_contexts_rep. Defined.

Lemma register_fresh_witness :
  exists h st', skynet_handle_register 72 two_contexts = Some (h, st') /\
    1 <= h - hs_harbor (get_H two_contexts) <= HANDLE_MASK /\ reg_ctx two_registered !! h = None /\
    forall st2, get_H st2 = get_H st' -> context_handle 72 st2 = Some h -> ctx_alive 72 st2 ->
      (forall c, c <> 72 -> context_handle c st2 = context_handle c st' /\
                            (ctx_alive c st' -> ctx_alive c st2)) ->
      reg_rep st2 (Reg (<[h:=72]> (reg_ctx two_registered)) (reg_names two_registered)).
Proof.
  apply (register_fresh two_contexts two_registered 72).
  - apply two_contexts_rep.
  - split; [left; vm_compute; congruence|right; by exists 0].
  - done.
  - intros h Hc. unfold two_registered in Hc. simpl in Hc.
    rewrite lookup_insert_Some, lookup_singleton_Some in Hc. naive_solver.
  - intros i Hi. pose proof (zget_in _ _ _ Hi) as Hin.
    change (zlen (hs_slot (get_H two_contexts))) with 4 in Hin.
    assert (i = 0 \/ i = 1 \/ i = 2 \/ i = 3) as [-> | [-> | [-> | ->]]] by lia; discriminate Hi.
Defined.

(** When the 24-bit handles run out during a sweep, the slot of index 0 is not
    looked at: with that slot free and the others taken, the table is taken for
    full, and the growing step reads the handle of a NULL context. *)
Lemma register_wraps_past_slot_0 hf c1 c2 c3 ctx :
  c1 <> 0 -> c2 <> 0 -> c3 <> 0 -> hf 0 = None ->
  register_loop hf 2 ctx (MkHS 0 HANDLE_MASK 4 [0; c1; c2; c3] 2 0 [None; None]) = None.
Proof.
  intros H1 H2 H3 H0. unfold register_loop. simpl.
  apply Z.eqb_neq in H1, H2, H3.
  change (Z.land 16777215 3) with 3. change (Z.land 1 3) with 1.
  cbn. rewrite H3, H1, H2. cbn.
  unfold grow_table. cbn. by rewrite H0.
Qed.

(** A context is in the table before its own handle field is set.  If another
    registration doubles the table in between, the context is filed under handle
    0 and its handle no longer finds it. *)
Lemma register_doubles_before_handle_set hf ctx :
  hf 64 = Some 0 -> hf 61 = Some 1 -> hf 62 = Some 2 -> hf 63 = Some 3 ->
  exists h s', register_loop hf 2 ctx (MkHS 0 5 4 [64; 61; 62; 63] 2 0 [None; None]) = Some (h, s') /\
    forall hf', hf' 64 = Some 4 -> lookup_slot hf' 4 s' = Some 0.
Proof.
  intros H0 H1 H2 H3. eexists _, _. split.
  - unfold register_loop, grow_table, rehash. cbn. rewrite H0, H1, H2, H3. vm_compute. reflexivity.
  - intros hf' _. reflexivity.
Qed.
