(* ===== verification/Node.v ===== *)
(** The state of a skynet node, and the smallest steps on it.

    One process is one node: its services (skynet_server.c), their mailboxes
    (MessageQueue), the handle registry (Handle), the module table
    (SkynetModule), the timing wheel (Timer), the environment (skynet_env.c), the
    monitors of the worker threads (skynet_monitor.c), the harbor service
    (skynet_harbor.c), and the memory that messages point to.  The functions
    are in a state monad with failure: failure is an access through a NULL or
    dangling pointer, or a failed assert.

    Service code (callbacks and the entry points of modules), the dynamic linker,
    file opening and the CPU clock of the thread are the parameters of the
    class [Services].  Writes to the log file of a service are recorded, in
    order, in [n_out]; the debugging output on the terminal is left out. *)

From S2P Require Import Prelude Types CString Timer MessageQueue SkynetModule Handle.
Local Open Scope Z_scope.

(** ** Data *)

Record skynet_context := Ctx {
  cx_instance : Z;
  cx_mod : Z;               (* index in the module table *)
  cx_cb_ud : Z;
  cx_cb : Z;
  cx_queue : Z;
  cx_logfile : Z;
  cx_cpu_cost : Z;
  cx_cpu_start : Z;
  cx_result : string;
  cx_handle : Z;
  cx_session_id : Z;
  cx_ref : Z;
  cx_message_count : Z;
  cx_init : bool;
  cx_endless : bool;
  cx_profile : bool
}.

Definition cx_set_ref (v : Z) (x : skynet_context) : skynet_context :=
  Ctx (cx_instance x) (cx_mod x) (cx_cb_ud x) (cx_cb x) (cx_queue x) (cx_logfile x) (cx_cpu_cost x)
    (cx_cpu_start x) (cx_result x) (cx_handle x) (cx_session_id x) v (cx_message_count x)
    (cx_init x) (cx_endless x) (cx_profile x).
Definition cx_set_handle (v : Z) (x : skynet_context) : skynet_context :=
  Ctx (cx_instance x) (cx_mod x) (cx_cb_ud x) (cx_cb x) (cx_queue x) (cx_logfile x) (cx_cpu_cost x)
    (cx_cpu_start x) (cx_result x) v (cx_session_id x) (cx_ref x) (cx_message_count x) (cx_init x)
    (cx_endless x) (cx_profile x).
Definition cx_set_queue (v : Z) (x : skynet_context) : skynet_context :=
  Ctx (cx_instance x) (cx_mod x) (cx_cb_ud x) (cx_cb x) v (cx_logfile x) (cx_cpu_cost x)
    (cx_cpu_start x) (cx_result x) (cx_handle x) (cx_session_id x) (cx_ref x) (cx_message_count x)
    (cx_init x) (cx_endless x) (cx_profile x).
Definition cx_set_session_id (v : Z) (x : skynet_context) : skynet_context :=
  Ctx (cx_instance x) (cx_mod x) (cx_cb_ud x) (cx_cb x) (cx_queue x) (cx_logfile x) (cx_cpu_cost x)
    (cx_cpu_start x) (cx_result x) (cx_handle x) v (cx_ref x) (cx_message_count x) (cx_init x)
    (cx_endless x) (cx_profile x).
Definition cx_set_init (v : bool) (x : skynet_context) : skynet_context :=
  Ctx (cx_instance x) (cx_mod x) (cx_cb_ud x) (cx_cb x) (cx_queue x) (cx_logfile x) (cx_cpu_cost x)
    (cx_cpu_start x) (cx_result x) (cx_handle x) (cx_session_id x) (cx_ref x) (cx_message_count x)
    v (cx_endless x) (cx_profile x).
Definition cx_set_endless (v : bool) (x : skynet_context) : skynet_context :=
  Ctx (cx_instance x) (cx_mod x) (cx_cb_ud x) (cx_cb x) (cx_queue x) (cx_logfile x) (cx_cpu_cost x)
    (cx_cpu_start x) (cx_result x) (cx_handle x) (cx_session_id x) (cx_ref x) (cx_message_count x)
    (cx_init x) v (cx_profile x).
Definition cx_set_logfile (v : Z) (x : skynet_context) : skynet_context :=
  Ctx (cx_instance x) (cx_mod x) (cx_cb_ud x) (cx_cb x) (cx_queue x) v (cx_cpu_cost x)
    (cx_cpu_start x) (cx_result x) (cx_handle x) (cx_session_id x) (cx_ref x) (cx_message_count x)
    (cx_init x) (cx_endless x) (cx_profile x).
Definition cx_set_message_count (v : Z) (x : skynet_context) : skynet_context :=
  Ctx (cx_instance x) (cx_mod x) (cx_cb_ud x) (cx_cb x) (cx_queue x) (cx_logfile x) (cx_cpu_cost x)
    (cx_cpu_start x) (cx_result x) (cx_handle x) (cx_session_id x) (cx_ref x) v (cx_init x)
    (cx_endless x) (cx_profile x).
Definition cx_set_cpu (cost start : Z) (x : skynet_context) : skynet_context :=
  Ctx (cx_instance x) (cx_mod x) (cx_cb_ud x) (cx_cb x) (cx_queue x) (cx_logfile x) cost start
    (cx_result x) (cx_handle x) (cx_session_id x) (cx_ref x) (cx_message_count x) (cx_init x)
    (cx_endless x) (cx_profile x).
Definition cx_set_result (v : string) (x : skynet_context) : skynet_context :=
  Ctx (cx_instance x) (cx_mod x) (cx_cb_ud x) (cx_cb x) (cx_queue x) (cx_logfile x) (cx_cpu_cost x)
    (cx_cpu_start x) v (cx_handle x) (cx_session_id x) (cx_ref x) (cx_message_count x) (cx_init x)
    (cx_endless x) (cx_profile x).
Definition cx_set_cb (ud cb : Z) (x : skynet_context) : skynet_context :=
  Ctx (cx_instance x) (cx_mod x) ud cb (cx_queue x) (cx_logfile x) (cx_cpu_cost x) (cx_cpu_start x)
    (cx_result x) (cx_handle x) (cx_session_id x) (cx_ref x) (cx_message_count x) (cx_init x)
    (cx_endless x) (cx_profile x).

(** The static [G_NODE]; [g_handle_key] is the value the current thread keeps
    under the key. *)
Record skynet_node := GNode {
  g_total : Z;
  g_init : bool;
  g_monitor_exit : Z;
  g_handle_key : Z;
  g_profile : bool
}.
Definition g_set_total (v : Z) (g : skynet_node) : skynet_node :=
  GNode v (g_init g) (g_monitor_exit g) (g_handle_key g) (g_profile g).
Definition g_set_monitor_exit (v : Z) (g : skynet_node) : skynet_node :=
  GNode (g_total g) (g_init g) v (g_handle_key g) (g_profile g).
Definition g_set_handle_key (v : Z) (g : skynet_node) : skynet_node :=
  GNode (g_total g) (g_init g) (g_monitor_exit g) v (g_profile g).
Definition g_set_profile (v : bool) (g : skynet_node) : skynet_node :=
  GNode (g_total g) (g_init g) (g_monitor_exit g) (g_handle_key g) v.

Record skynet_monitor := Mon {
  mon_version : Z;
  mon_check_version : Z;
  mon_source : Z;
  mon_destination : Z
}.

(** A message to another node; the name is [None] while it is not written. *)
Record remote_message := Remote {
  rm_name : option (list Z);
  rm_handle : Z;
  rm_message : Z;
  rm_sz : Z;
  rm_type : Z
}.

(** A block of message memory: bytes ([None] is not initialised), or a message
    to another node. *)
Inductive block := Data (l : list (option Z)) | Rmsg (r : remote_message).

(** What happens to the log file of a service. *)
Inductive io :=
  | LogOutput (f source type session data sz : Z)
  | LogOpened (f : Z)
  | LogClosed (f : Z).

Record node := Node {
  n_mq : mqworld;
  n_H : handle_storage;
  n_M : modules;
  n_TI : timer;
  n_ctx : gmap Z skynet_context;
  n_mem : gmap Z block;
  n_mon : gmap Z skynet_monitor;
  n_env : gmap string string;
  n_brk : Z;                (* the address the next allocation returns *)
  n_G : skynet_node;
  n_REMOTE : Z;
  n_HARBOR : Z;
  n_logger : Z;             (* the static of skynet_error *)
  n_out : list io;
  n_reads : nat             (* how often the clock was read *)
}.

Definition set_mq (v : mqworld) (s : node) : node :=
  Node v (n_H s) (n_M s) (n_TI s) (n_ctx s) (n_mem s) (n_mon s) (n_env s) (n_brk s) (n_G s)
    (n_REMOTE s) (n_HARBOR s) (n_logger s) (n_out s) (n_reads s).
Definition set_H (v : handle_storage) (s : node) : node :=
  Node (n_mq s) v (n_M s) (n_TI s) (n_ctx s) (n_mem s) (n_mon s) (n_env s) (n_brk s) (n_G s)
    (n_REMOTE s) (n_HARBOR s) (n_logger s) (n_out s) (n_reads s).
Definition set_M (v : modules) (s : node) : node :=
  Node (n_mq s) (n_H s) v (n_TI s) (n_ctx s) (n_mem s) (n_mon s) (n_env s) (n_brk s) (n_G s)
    (n_REMOTE s) (n_HARBOR s) (n_logger s) (n_out s) (n_reads s).
Definition set_TI (v : timer) (s : node) : node :=
  Node (n_mq s) (n_H s) (n_M s) v (n_ctx s) (n_mem s) (n_mon s) (n_env s) (n_brk s) (n_G s)
    (n_REMOTE s) (n_HARBOR s) (n_logger s) (n_out s) (n_reads s).
Definition set_ctx (v : gmap Z skynet_context) (s : node) : node :=
  Node (n_mq s) (n_H s) (n_M s) (n_TI s) v (n_mem s) (n_mon s) (n_env s) (n_brk s) (n_G s)
    (n_REMOTE s) (n_HARBOR s) (n_logger s) (n_out s) (n_reads s).
Definition set_mem (v : gmap Z block) (s : node) : node :=
  Node (n_mq s) (n_H s) (n_M s) (n_TI s) (n_ctx s) v (n_mon s) (n_env s) (n_brk s) (n_G s)
    (n_REMOTE s) (n_HARBOR s) (n_logger s) (n_out s) (n_reads s).
Definition set_mon (v : gmap Z skynet_monitor) (s : node) : node :=
  Node (n_mq s) (n_H s) (n_M s) (n_TI s) (n_ctx s) (n_mem s) v (n_env s) (n_brk s) (n_G s)
    (n_REMOTE s) (n_HARBOR s) (n_logger s) (n_out s) (n_reads s).
Definition set_env (v : gmap string string) (s : node) : node :=
  Node (n_mq s) (n_H s) (n_M s) (n_TI s) (n_ctx s) (n_mem s) (n_mon s) v (n_brk s) (n_G s)
    (n_REMOTE s) (n_HARBOR s) (n_logger s) (n_out s) (n_reads s).
Definition set_brk (v : Z) (s : node) : node :=
  Node (n_mq s) (n_H s) (n_M s) (n_TI s) (n_ctx s) (n_mem s) (n_mon s) (n_env s) v (n_G s)
    (n_REMOTE s) (n_HARBOR s) (n_logger s) (n_out s) (n_reads s).
Definition set_G (v : skynet_node) (s : node) : node :=
  Node (n_mq s) (n_H s) (n_M s) (n_TI s) (n_ctx s) (n_mem s) (n_mon s) (n_env s) (n_brk s) v
    (n_REMOTE s) (n_HARBOR s) (n_logger s) (n_out s) (n_reads s).
Definition set_REMOTE (v : Z) (s : node) : node :=
  Node (n_mq s) (n_H s) (n_M s) (n_TI s) (n_ctx s) (n_mem s) (n_mon s) (n_env s) (n_brk s) (n_G s)
    v (n_HARBOR s) (n_logger s) (n_out s) (n_reads s).
Definition set_HARBOR (v : Z) (s : node) : node :=
  Node (n_mq s) (n_H s) (n_M s) (n_TI s) (n_ctx s) (n_mem s) (n_mon s) (n_env s) (n_brk s) (n_G s)
    (n_REMOTE s) v (n_logger s) (n_out s) (n_reads s).
Definition set_logger (v : Z) (s : node) : node :=
  Node (n_mq s) (n_H s) (n_M s) (n_TI s) (n_ctx s) (n_mem s) (n_mon s) (n_env s) (n_brk s) (n_G s)
    (n_REMOTE s) (n_HARBOR s) v (n_out s) (n_reads s).
Definition add_out (v : io) (s : node) : node :=
  Node (n_mq s) (n_H s) (n_M s) (n_TI s) (n_ctx s) (n_mem s) (n_mon s) (n_env s) (n_brk s) (n_G s)
    (n_REMOTE s) (n_HARBOR s) (n_logger s) (n_out s ++ [v]) (n_reads s).
Definition set_reads (v : nat) (s : node) : node :=
  Node (n_mq s) (n_H s) (n_M s) (n_TI s) (n_ctx s) (n_mem s) (n_mon s) (n_env s) (n_brk s) (n_G s)
    (n_REMOTE s) (n_HARBOR s) (n_logger s) (n_out s) v.

(** ** The monad *)

Definition M (A : Type) : Type := node -> option (A * node).
Definition ret {A} (a : A) : M A := fun s => Some (a, s).
Definition bind {A B} (m : M A) (k : A -> M B) : M B :=
  fun s => match m s with Some (a, s') => k a s' | None => None end.
Definition fail {A} : M A := fun _ => None.
Definition gets {A} (f : node -> A) : M A := fun s => Some (f s, s).
Definition modify (f : node -> node) : M unit := fun s => Some (tt, f s).
Definition lift {A} (o : option A) : M A := fun s => match o with Some a => Some (a, s) | None => None end.
(** A function that reads the state only, and one that only changes it. *)
Definition reads {A} (f : node -> option A) : M A := fun s => match f s with Some a => Some (a, s) | None => None end.
Definition steps (f : node -> option node) : M unit := fun s => match f s with Some s' => Some (tt, s') | None => None end.

Declare Scope node_scope.
Delimit Scope node_scope with node.
Notation "x <- m ;; k" := (bind m (fun x => k)) (at level 20, m at level 99, k at level 200, only parsing) : node_scope.
Notation "' p <- m ;; k" := (bind m (fun x => let p := x in k))
  (at level 20, p pattern, m at level 99, k at level 200, only parsing) : node_scope.
Notation "m ;;; k" := (bind m (fun _ => k)) (at level 100, right associativity) : node_scope.
Local Open Scope node_scope.

Definition assert_ (b : bool) : M unit := lift (c_assert b).
Definition when (b : bool) (m : M unit) : M unit := if b then m else ret tt.

(** One step of a sequence whose first part is known to succeed. *)
Lemma bind_run {A B} (m : M A) (k : A -> M B) s a s' : m s = Some (a, s') -> bind m k s = k a s'.
Proof. unfold bind. by intros ->. Qed.
Lemma bind_assoc {A B C} (m : M A) (k : A -> M B) (l : B -> M C) s :
  bind (bind m k) l s = bind m (fun a => bind (k a) l) s.
Proof. unfold bind. by destruct (m s) as [[]|]. Qed.
Lemma bind_ret {A B} (a : A) (k : A -> M B) s : bind (ret a) k s = k a s.
Proof. done. Qed.
Lemma bind_gets {A B} (f : node -> A) (k : A -> M B) s : bind (gets f) k s = k (f s) s.
Proof. done. Qed.
Ltac mrun H := rewrite (bind_run _ _ _ _ _ H).

(** Mailbox operations, on the part of the state they concern. *)
Definition mq_step (f : mqworld -> option mqworld) : M unit :=
  fun s => match f (n_mq s) with Some w => Some (tt, set_mq w s) | None => None end.
Definition mq_call {A} (f : mqworld -> option (A * mqworld)) : M A :=
  fun s => match f (n_mq s) with Some (a, w) => Some (a, set_mq w s) | None => None end.

(** Field accesses of a context, through its address. *)
Definition deref (c : Z) : M skynet_context := reads (fun s => n_ctx s !! c).
Lemma bind_deref {B} c (k : skynet_context -> M B) s x : n_ctx s !! c = Some x -> bind (deref c) k s = k x s.
Proof. intros Hc. apply bind_run. unfold deref, reads. by rewrite Hc. Qed.
Definition update (c : Z) (f : skynet_context -> skynet_context) : M unit :=
  steps (fun s => x ← n_ctx s !! c; Some (set_ctx (<[c := f x]> (n_ctx s)) s)).

(** [skynet_malloc] of a message block and of a context, and [skynet_free]. *)
Definition malloc (b : block) : M Z :=
  fun s => Some (n_brk s, set_brk (n_brk s + 1) (set_mem (<[n_brk s := b]> (n_mem s)) s)).
Definition skynet_free (p : Z) : M unit :=
  if p =? 0 then ret tt
  else steps (fun s => _ ← n_mem s !! p; Some (set_mem (delete p (n_mem s)) s)).
Definition malloc_context (x : skynet_context) : M Z :=
  fun s => Some (n_brk s, set_brk (n_brk s + 1) (set_ctx (<[n_brk s := x]> (n_ctx s)) s)).

(** ** What is not in this program *)

Class Services := {
  (* the callback [cb] of a context: ctx, ud, type, session, source, msg, sz *)
  run_cb : Z -> Z -> Z -> Z -> Z -> Z -> Z -> Z -> M Z;
  (* the entry points of modules *)
  run_create : Z -> M Z;
  run_init : Z -> Z -> Z -> option string -> M Z;
  run_release : Z -> Z -> M unit;
  run_signal : Z -> Z -> Z -> M unit;
  (* dlopen, dlsym, fopen in mode "ab" *)
  dlopen : string -> Z;
  dlsym : Z -> string -> Z;
  fopen_append : string -> Z;
  (* the n-th reading of the thread's CPU clock, in microseconds *)
  cpu_clock : nat -> Z
}.

Definition thread_time `{Services} : M Z :=
  fun s => Some (cpu_clock (n_reads s), set_reads (S (n_reads s)) s).

(** ** Modules *)

Section module.
Context `{Services}.

Definition module_query (name : string) : M (option Z) :=
  fun s => match skynet_module_query dlopen dlsym (n_M s) name with
           | Some (r, m) => Some (r, set_M m s)
           | None => None
           end.

(** The module at an index of the table. *)
Definition module_at (i : Z) : M skynet_module :=
  reads (fun s => e ← zget (ms_m (n_M s)) i; e).

Definition skynet_module_instance_create (m : Z) : M Z :=
  x <- module_at m ;;
  if negb (sm_create x =? 0) then run_create (sm_create x) else ret (2 ^ 64 - 1).
Definition skynet_module_instance_init (m inst ctx : Z) (parm : option string) : M Z :=
  x <- module_at m ;; run_init (sm_init x) inst ctx parm.
Definition skynet_module_instance_release (m inst : Z) : M unit :=
  x <- module_at m ;; when (negb (sm_release x =? 0)) (run_release (sm_release x) inst).
Definition skynet_module_instance_signal (m inst signal : Z) : M unit :=
  x <- module_at m ;; when (negb (sm_signal x =? 0)) (run_signal (sm_signal x) inst signal).
End module.

(** ** The environment *)

Definition skynet_getenv (key : string) : M (option string) := gets (fun s => n_env s !! key).
Definition skynet_setenv (key value : string) : M unit :=
  old <- skynet_getenv key ;;
  assert_ (bool_decide (old = None)) ;;;
  modify (fun s => set_env (<[key := value]> (n_env s)) s).

(** ** Context counters and reference counts *)

Definition skynet_context_total : M Z := gets (fun s => g_total (n_G s)).
Definition context_inc : M unit := modify (fun s => set_G (g_set_total (g_total (n_G s) + 1) (n_G s)) s).
Definition context_dec : M unit := modify (fun s => set_G (g_set_total (g_total (n_G s) - 1) (n_G s)) s).

Definition THREAD_WORKER : Z := 0.
Definition THREAD_MAIN : Z := 1.
Definition THREAD_SOCKET : Z := 2.
Definition THREAD_TIMER : Z := 3.
Definition THREAD_MONITOR : Z := 4.

Definition skynet_current_handle : M Z :=
  gets (fun s => if g_init (n_G s) then u32 (g_handle_key (n_G s)) else u32 (- THREAD_MAIN)).
Definition set_handle_key (v : Z) : M unit := modify (fun s => set_G (g_set_handle_key v (n_G s)) s).
Definition skynet_initthread (m : Z) : M unit := set_handle_key (u32 (- m)).
Definition skynet_globalinit : M unit :=
  modify (fun s => set_G (GNode 0 true 0 (g_handle_key (n_G s)) (g_profile (n_G s))) s) ;;;
  skynet_initthread THREAD_MAIN.
Definition skynet_profile_enable (enable : Z) : M unit :=
  modify (fun s => set_G (g_set_profile (negb (enable =? 0)) (n_G s)) s).

Definition skynet_context_handle (ctx : Z) : M Z := x <- deref ctx ;; ret (cx_handle x).
Definition skynet_context_grab (ctx : Z) : M unit := update ctx (fun x => cx_set_ref (cx_ref x + 1) x).
Definition skynet_context_reserve (ctx : Z) : M unit := skynet_context_grab ctx ;;; context_dec.

Section release.
Context `{Services}.

Definition delete_context (ctx : Z) : M unit :=
  x <- deref ctx ;;
  when (negb (cx_logfile x =? 0)) (modify (add_out (LogClosed (cx_logfile x)))) ;;;
  skynet_module_instance_release (cx_mod x) (cx_instance x) ;;;
  mq_step (skynet_mq_mark_release (cx_queue x)) ;;;
  modify (fun s => set_ctx (delete ctx (n_ctx s)) s) ;;;
  context_dec.

(** The context, or NULL when it was the last reference. *)
Definition skynet_context_release (ctx : Z) : M Z :=
  update ctx (fun x => cx_set_ref (cx_ref x - 1) x) ;;;
  x <- deref ctx ;;
  if cx_ref x =? 0 then delete_context ctx ;;; ret 0 else ret ctx.
End release.

(** ** The node provides the registry with its contexts *)

#[export] Instance node_has_mq : HasMQ node.
Proof. refine {| get_mq := n_mq; put_mq := set_mq |}; by repeat intros []. Defined.

#[export] Instance node_has_handles : HasHandles node.
Proof. refine {| get_H := n_H; put_H := set_H |}; by repeat intros []. Defined.

#[export] Instance node_contexts `{Services} : Contexts node := {|
  context_handle c s := cx_handle <$> n_ctx s !! c;
  context_grab c s := match skynet_context_grab c s with Some (_, s') => Some s' | None => None end;
  context_release c s := skynet_context_release c s
|}.
