(* ===== verification/Server.v ===== *)
(** Services and messages: skynet-src/skynet_server.c with skynet_harbor.c,
    skynet_error.c, skynet_monitor.c, the file opening of skynet_log.c, the
    timeouts of skynet_timer.c and the threads' steps of skynet_start.c.

    A service is a context that is registered under its handle; its mailbox
    holds the messages sent to it until a worker thread dispatches them to its
    callback.  An operation that the code runs under locks of its own parts is
    here one sequence of steps of the monad of Node; a character pointer that
    may be NULL is an [option string]. *)

From S2P Require Import Prelude Types CString Timer MessageQueue SkynetModule Handle Node.
From Stdlib Require Import Ascii.
Local Open Scope string_scope.
Local Open Scope node_scope.
Local Open Scope Z_scope.

Section server.
Context `{Services}.

(** ** The harbor *)

Definition GLOBALNAME_LENGTH : Z := 16.
Definition SIZEOF_REMOTE_MESSAGE : Z := 48.
Definition HARBOR_UNSET : Z := 2 ^ 32 - 1.     (* ~0 *)

Definition skynet_harbor_init (harbor : Z) : M unit :=
  modify (set_HARBOR (u32 (Z.shiftl harbor HANDLE_REMOTE_SHIFT))).

Definition skynet_harbor_message_isremote (handle : Z) : M bool :=
  harbor <- gets n_HARBOR ;;
  assert_ (negb (harbor =? HARBOR_UNSET)) ;;;
  let h := Z.ldiff handle HANDLE_MASK in
  ret (negb (h =? harbor) && negb (h =? 0)).

Definition skynet_context_send (ctx msg sz source type session : Z) : M unit :=
  x <- deref ctx ;;
  mq_step (skynet_mq_push (cx_queue x) (Msg source session msg (tag_sz sz type))).

Definition invalid_type (type : Z) : bool :=
  negb (type =? PTYPE_SYSTEM) && negb (type =? PTYPE_HARBOR).

(** The message is given by its address. *)
Definition skynet_harbor_send (rmsg source session : Z) : M unit :=
  r <- reads (fun s => match n_mem s !! rmsg with Some (Rmsg r) => Some r | _ => None end) ;;
  remote <- gets n_REMOTE ;;
  assert_ (invalid_type (rm_type r) && negb (remote =? 0)) ;;;
  skynet_context_send remote rmsg SIZEOF_REMOTE_MESSAGE source PTYPE_SYSTEM session.

Definition skynet_harbor_start (ctx : Z) : M unit :=
  skynet_context_reserve ctx ;;; modify (set_REMOTE ctx).

Definition skynet_harbor_exit : M unit :=
  ctx <- gets n_REMOTE ;;
  modify (set_REMOTE 0) ;;;
  when (negb (ctx =? 0)) (_ <- skynet_context_release ctx ;; ret tt).

Definition skynet_isremote (handle : Z) : M (bool * Z) :=
  r <- skynet_harbor_message_isremote handle ;;
  ret (r, Z.shiftr handle HANDLE_REMOTE_SHIFT).

(** ** Delivery *)

Definition skynet_context_push (handle : Z) (message : skynet_message) : M Z :=
  ctx <- skynet_handle_grab handle ;;
  if ctx =? 0 then ret (-1)
  else
    x <- deref ctx ;;
    mq_step (skynet_mq_push (cx_queue x) message) ;;;
    _ <- skynet_context_release ctx ;;
    ret 0.

Definition skynet_context_endless (handle : Z) : M unit :=
  ctx <- skynet_handle_grab handle ;;
  if ctx =? 0 then ret tt
  else
    update ctx (cx_set_endless true) ;;;
    _ <- skynet_context_release ctx ;;
    ret tt.

(** ** Error messages: a text message to the service named logger *)

Definition LOG_MESSAGE_SIZE : Z := 256.

(** The bytes of a C string with its terminator. *)
Definition c_bytes (s : string) : list (option Z) :=
  ((fun a => Some (byte_of a)) <$> String.list_ascii_of_string s) ++ [Some 0].

(** [vsnprintf] into a block of [size] bytes: as much of the text as fits. *)
Definition vsnprintf_block (size : Z) (text : string) : list (option Z) :=
  let written := c_bytes (String.substring 0 (Z.to_nat (size - 1)) text) in
  written ++ replicate (Z.to_nat size - length written) None.

Fixpoint format_loop (fuel : nat) (max_size : Z) (text : string) : M Z :=
  let max_size := max_size * 2 in
  data <- malloc (Data (vsnprintf_block max_size text)) ;;
  if Z.of_nat (String.length text) <? max_size then ret data
  else
    skynet_free data ;;;
    match fuel with
    | O => fail
    | S fuel' => format_loop fuel' max_size text
    end.

(** The text is the formatted message. *)
Definition skynet_error (context : Z) (text : string) : M unit :=
  l0 <- gets n_logger ;;
  when (l0 =? 0) (h <- reads (skynet_handle_findname "logger") ;; modify (set_logger h)) ;;;
  logger <- gets n_logger ;;
  if logger =? 0 then ret tt
  else
    let len := Z.of_nat (String.length text) in
    data <- (if len <? LOG_MESSAGE_SIZE then malloc (Data (c_bytes text))
             else format_loop (String.length text) LOG_MESSAGE_SIZE text) ;;
    source <- (if context =? 0 then ret 0 else skynet_context_handle context) ;;
    _ <- skynet_context_push logger (Msg source 0 data (tag_sz len PTYPE_TEXT)) ;;
    ret tt.

(** ** Sending *)

(** The session numbers of a context are positive ints; the increment wraps. *)
Definition skynet_context_newsession (context : Z) : M Z :=
  update context (fun x => cx_set_session_id (i32 (cx_session_id x + 1)) x) ;;;
  x <- deref context ;;
  let session := cx_session_id x in
  if session <=? 0 then update context (cx_set_session_id 1) ;;; ret 1
  else ret session.

(** [memcpy] of [sz] bytes from [data] to a new block with a terminator. *)
Definition copy_data (data sz : Z) : M Z :=
  l <- reads (fun s => match n_mem s !! data with Some (Data l) => Some l | _ => None end) ;;
  assert_ (sz <=? zlen l) ;;;
  malloc (Data (take (Z.to_nat sz) l ++ [Some 0])).

(** The new values of [session], [data] and [sz]. *)
Definition _filter_args (context type session data sz : Z) : M (Z * Z * Z) :=
  let needcopy := Z.land type PTYPE_TAG_DONTCOPY =? 0 in
  let allocsession := negb (Z.land type PTYPE_TAG_ALLOCSESSION =? 0) in
  let type := Z.land type 255 in
  session <- (if allocsession
              then assert_ (session =? 0) ;;; skynet_context_newsession context
              else ret session) ;;
  data <- (if needcopy && negb (data =? 0) then copy_data data sz else ret data) ;;
  ret (session, data, tag_sz sz type).

Definition too_large (sz : Z) : bool := negb (Z.land sz MESSAGE_TYPE_MASK =? sz).
Definition dontcopy (type : Z) : bool := negb (Z.land type PTYPE_TAG_DONTCOPY =? 0).

Definition source_or_self (context source : Z) : M Z :=
  if source =? 0 then skynet_context_handle context else ret source.

(** The message to another node that carries [data], and its address. *)
Definition new_remote (name : option (list Z)) (handle data sz : Z) : M Z :=
  malloc (Rmsg (Remote name handle data (Z.land sz MESSAGE_TYPE_MASK) (Z.shiftr sz MESSAGE_TYPE_SHIFT))).

Definition skynet_send (context source destination type session data sz : Z) : M Z :=
  if too_large sz then
    skynet_error context ("The message to " ++ fmt_x destination ++ " is too large") ;;;
    when (dontcopy type) (skynet_free data) ;;;
    ret (-2)
  else
    ' (session, data, sz) <- _filter_args context type session data sz ;;
    source <- source_or_self context source ;;
    if destination =? 0 then
      if negb (data =? 0) then
        skynet_error context "Destination address can't be 0" ;;;
        skynet_free data ;;;
        ret (-1)
      else ret session
    else
      remote <- skynet_harbor_message_isremote destination ;;
      if (remote : bool) then
        rmsg <- new_remote None destination data sz ;;
        skynet_harbor_send rmsg source session ;;;
        ret session
      else
        r <- skynet_context_push destination (Msg source session data sz) ;;
        if negb (r =? 0) then skynet_free data ;;; ret (-1) else ret session.

(** [for (i=0;i<16 && addr[i];i++) name[i] = addr[i]; for (;i<16;i++) ...] *)
Fixpoint copy_name (n : nat) (addr : string) : list Z :=
  match n, addr with
  | O, _ => []
  | S n', "" => 0 :: copy_name n' ""
  | S n', String a addr' => byte_of a :: copy_name n' addr'
  end.

Definition skynet_sendname (context source : Z) (addr : string) (type session data sz : Z) : M Z :=
  source <- source_or_self context source ;;
  match addr with
  | String ":" addr' => skynet_send context source (u32 (strtoul16 addr')) type session data sz
  | String "." addr' =>
      des <- reads (skynet_handle_findname addr') ;;
      if des =? 0 then when (dontcopy type) (skynet_free data) ;;; ret (-1)
      else skynet_send context source des type session data sz
  | _ =>
      if too_large sz then
        skynet_error context ("The message to " ++ addr ++ " is too large") ;;;
        when (dontcopy type) (skynet_free data) ;;;
        ret (-2)
      else
        ' (session, data, sz) <- _filter_args context type session data sz ;;
        rmsg <- new_remote (Some (copy_name 16 addr)) 0 data sz ;;
        skynet_harbor_send rmsg source session ;;;
        ret session
  end.

(** The response to a session of a service, this repository's addition. *)
Definition skynet_resume (context handle session msg sz : Z) : M Z :=
  if too_large sz then
    skynet_error context ("The message to handle = " ++ fmt_x handle ++ ", session = " ++ fmt_x session
      ++ ", sz = " ++ fmt_x (u32 sz) ++ "  is too large") ;;;
    skynet_free msg ;;;
    ret (-1)
  else
    let sz := tag_sz sz PTYPE_RESPONSE in
    remote <- skynet_harbor_message_isremote handle ;;
    if (remote : bool) then
      rmsg <- new_remote None handle msg sz ;;
      skynet_harbor_send rmsg 0 session ;;;
      ret 0
    else
      r <- skynet_context_push handle (Msg 0 session msg sz) ;;
      if negb (r =? 0) then skynet_free msg ;;; ret (-2) else ret 0.

Definition skynet_callback (context ud cb : Z) : M unit := update context (cx_set_cb ud cb).

(** A message that is dropped with its mailbox is reported to its source. *)
Definition drop_message (handle : Z) (msg : skynet_message) : M unit :=
  skynet_free (msg_data msg) ;;;
  assert_ (negb (handle =? 0)) ;;;
  _ <- skynet_send 0 handle (msg_source msg) PTYPE_ERROR 0 0 0 ;;
  ret tt.

(** [skynet_mq_release] with [drop_message]; a mailbox holds less messages than
    its capacity, which bounds the loop. *)
Definition release_mailbox (q handle : Z) : M unit :=
  steps (fun s =>
    mb ← w_heap (n_mq s) !! q;
    skynet_mq_release (fun msg s => match drop_message handle msg s with Some (_, s') => Some s' | None => None end)
      (Z.to_nat (q_cap mb)) q s).

(** ** Creating a service *)

Definition skynet_context_new (name : string) (param : option string) : M Z :=
  mod_ <- module_query name ;;
  match mod_ with
  | None => ret 0
  | Some mod_ =>
      inst <- skynet_module_instance_create mod_ ;;
      if inst =? 0 then ret 0
      else
        profile <- gets (fun s => g_profile (n_G s)) ;;
        ctx <- malloc_context (Ctx inst mod_ 0 0 0 0 0 0 "" 0 0 2 0 false false profile) ;;
        handle <- skynet_handle_register ctx ;;
        update ctx (cx_set_handle handle) ;;;
        queue <- mq_call (fun w => Some (skynet_mq_create handle w)) ;;
        update ctx (cx_set_queue queue) ;;;
        context_inc ;;;
        r <- skynet_module_instance_init mod_ inst ctx param ;;
        if r =? 0 then
          ret_ <- skynet_context_release ctx ;;
          when (negb (ret_ =? 0)) (update ctx (cx_set_init true)) ;;;
          mq_step (skynet_globalmq_push queue) ;;;
          when (negb (ret_ =? 0)) (skynet_error ret_ ("LAUNCH " ++ name ++ " " ++ default "" param)) ;;;
          ret ret_
        else
          skynet_error ctx ("FAILED launch " ++ name) ;;;
          handle <- skynet_context_handle ctx ;;
          _ <- skynet_context_release ctx ;;
          _ <- skynet_handle_retire handle ;;
          release_mailbox queue handle ;;;
          ret 0
  end.

(** ** Dispatching *)

Definition dispatch_message (ctx : Z) (msg : skynet_message) : M unit :=
  x <- deref ctx ;;
  assert_ (cx_init x) ;;;
  set_handle_key (cx_handle x) ;;;
  let type := msg_type msg in
  let sz := msg_size msg in
  when (negb (cx_logfile x =? 0))
    (modify (add_out (LogOutput (cx_logfile x) (msg_source msg) type (msg_session msg) (msg_data msg) sz))) ;;;
  update ctx (fun x => cx_set_message_count (cx_message_count x + 1) x) ;;;
  let call := run_cb (cx_cb x) ctx (cx_cb_ud x) type (msg_session msg) (msg_source msg) (msg_data msg) sz in
  reserve_msg <- (if cx_profile x then
      t0 <- thread_time ;;
      update ctx (fun x => cx_set_cpu (cx_cpu_cost x) t0 x) ;;;
      r <- call ;;
      t1 <- thread_time ;;
      update ctx (fun x => cx_set_cpu (u64 (cx_cpu_cost x + u64 (t1 - cx_cpu_start x))) (cx_cpu_start x) x) ;;;
      ret r
    else call) ;;
  when (reserve_msg =? 0) (skynet_free (msg_data msg)).

(** All messages of a service; [fuel] bounds their number. *)
Fixpoint dispatchall_loop (fuel : nat) (ctx q : Z) : M unit :=
  msg <- mq_call (skynet_mq_pop q) ;;
  match msg with
  | None => ret tt
  | Some msg =>
      match fuel with
      | O => fail
      | S fuel' => dispatch_message ctx msg ;;; dispatchall_loop fuel' ctx q
      end
  end.
Definition skynet_context_dispatchall (fuel : nat) (ctx : Z) : M unit :=
  x <- deref ctx ;; dispatchall_loop fuel ctx (cx_queue x).

Definition skynet_monitor_trigger (sm source destination : Z) : M unit :=
  steps (fun s =>
    m ← n_mon s !! sm;
    Some (set_mon (<[sm := Mon (i32 (mon_version m + 1)) (mon_check_version m) source destination]> (n_mon s)) s)).

(** What a worker does with a message it has taken. *)
Definition dispatch_one (sm q handle ctx : Z) (msg : skynet_message) : M unit :=
  overload <- mq_call (skynet_mq_overload q) ;;
  when (negb (overload =? 0))
    (skynet_error ctx ("May overload, message queue length = " ++ fmt_d overload)) ;;;
  skynet_monitor_trigger sm (msg_source msg) handle ;;;
  x <- deref ctx ;;
  (if cx_cb x =? 0 then skynet_free (msg_data msg) else dispatch_message ctx msg) ;;;
  skynet_monitor_trigger sm 0 0.

(** [for (i=0;i<n;i++)]: [Some nq] when the mailbox ran empty and the function
    returns the next queue. *)
Fixpoint dispatch_loop (fuel : nat) (i n sm q weight handle ctx : Z) : M (option Z) :=
  if i <? n then
    msg <- mq_call (skynet_mq_pop q) ;;
    match msg with
    | None =>
        _ <- skynet_context_release ctx ;;
        nq <- mq_call skynet_globalmq_pop ;;
        ret (Some nq)
    | Some msg =>
        n <- (if (i =? 0) && (0 <=? weight) then
                len <- reads (fun s => skynet_mq_length q (n_mq s)) ;;
                ret (Z.shiftr len weight)
              else ret n) ;;
        dispatch_one sm q handle ctx msg ;;;
        match fuel with
        | O => fail
        | S fuel' => dispatch_loop fuel' (i + 1) n sm q weight handle ctx
        end
    end
  else ret None.

(** The queue to dispatch next, NULL when there is none.  The loop runs at most
    once for every message the mailbox holds at the start, and once. *)
Definition skynet_context_message_dispatch (sm q weight : Z) : M Z :=
  q <- (if q =? 0 then mq_call skynet_globalmq_pop else ret q) ;;
  if q =? 0 then ret 0
  else
    handle <- reads (fun s => skynet_mq_handle q (n_mq s)) ;;
    ctx <- skynet_handle_grab handle ;;
    if ctx =? 0 then
      release_mailbox q handle ;;;
      mq_call skynet_globalmq_pop
    else
      len <- reads (fun s => skynet_mq_length q (n_mq s)) ;;
      r <- dispatch_loop (S (Z.to_nat len)) 0 1 sm q weight handle ctx ;;
      match r with
      | Some nq => ret nq
      | None =>
          x <- deref ctx ;;
          assert_ (q =? cx_queue x) ;;;
          nq <- mq_call skynet_globalmq_pop ;;
          q <- (if negb (nq =? 0) then mq_step (skynet_globalmq_push q) ;;; ret nq else ret q) ;;
          _ <- skynet_context_release ctx ;;
          ret q
      end.

(** ** The monitor thread *)

Definition skynet_monitor_new : M Z :=
  fun s => Some (n_brk s, set_brk (n_brk s + 1) (set_mon (<[n_brk s := Mon 0 0 0 0]> (n_mon s)) s)).

Definition skynet_monitor_check (sm : Z) : M unit :=
  m <- reads (fun s => n_mon s !! sm) ;;
  if mon_version m =? mon_check_version m then
    when (negb (mon_destination m =? 0))
      (skynet_context_endless (mon_destination m) ;;;
       skynet_error 0 ("A message from [ :" ++ fmt_08x (mon_source m) ++ " ] to [ :"
         ++ fmt_08x (mon_destination m) ++ " ] maybe in an endless loop (version = "
         ++ fmt_d (mon_version m) ++ ")"))
  else
    modify (fun s => set_mon (<[sm := Mon (mon_version m) (mon_version m) (mon_source m) (mon_destination m)]>
                                (n_mon s)) s).

(** ** The timer thread *)

Definition skynet_timeout (handle time session : Z) : M Z :=
  if time <=? 0 then
    r <- skynet_context_push handle (timeout_message session) ;;
    if negb (r =? 0) then ret (-1) else ret session
  else
    T <- gets n_TI ;;
    T' <- lift (timer_add T (MkEvent handle session) time) ;;
    modify (set_TI T') ;;;
    ret session.

(** The dispatched timers push their messages; a push that fails is ignored. *)
Fixpoint push_all (l : list (Z * skynet_message)) : M unit :=
  match l with
  | [] => ret tt
  | (handle, message) :: l' => _ <- skynet_context_push handle message ;; push_all l'
  end.

(** [skynet_updatetime] with its messages; [cp] is the clock reading. *)
Definition updatetime (cp : Z) : M unit :=
  T <- gets n_TI ;;
  when (cp <? t_current_point T)
    (skynet_error 0 ("time diff error: change from " ++ fmt_d cp ++ " to " ++ fmt_d (t_current_point T))) ;;;
  ' (outs, T') <- lift (skynet_updatetime cp T) ;;
  modify (set_TI T') ;;;
  push_all (concat outs).

(** Asks the logger to reopen its file. *)
Definition signal_hup : M unit :=
  logger <- reads (skynet_handle_findname "logger") ;;
  when (negb (logger =? 0))
    (_ <- skynet_context_push logger (Msg 0 0 0 (tag_sz 0 PTYPE_SYSTEM)) ;; ret tt).

(** The first worker threads take one message at a time, the next ones all but one
    (the length is read after the first was popped), the others a half, a quarter
    and an eighth of the rest of the mailbox. *)
Definition worker_weight (i : Z) : Z :=
  if i <? 0 then 0 else if i <? 4 then -1 else if i <? 8 then 0
  else if i <? 16 then 1 else if i <? 24 then 2 else if i <? 32 then 3 else 0.
End server.
