(* ===== verification/Commands.v ===== *)
(** The text commands of a service: skynet_command of skynet-src/skynet_server.c
    and the table it searches, with the log files of skynet_log.c and the start of
    a node in skynet_start.c.

    A command gets its parameter, or NULL, and returns a text, or NULL; texts
    written with sprintf go to the result buffer of the context first. *)

From S2P Require Import Prelude Types CString Timer MessageQueue SkynetModule Handle Node Server.
From Stdlib Require Import Ascii.
Local Open Scope string_scope.
Local Open Scope node_scope.
Local Open Scope Z_scope.

(** [:] and eight upper-case hexadecimal digits, the most significant first. *)
Definition hex_digit (d : Z) : ascii := ascii_of_N (Z.to_N (if d <? 10 then 48 + d else 55 + d)).
Fixpoint hex_loop (n : nat) (i id : Z) : string :=
  match n with
  | O => ""
  | S n' => String (hex_digit (Z.land (Z.shiftr id ((7 - i) * 4)) 15)) (hex_loop n' (i + 1) id)
  end.
Definition id_to_hex (id : Z) : string := String ":" (hex_loop 8 0 id).

Section commands.
Context `{Services}.

(** [sprintf(context->result, ...); return context->result;] *)
Definition result (context : Z) (text : string) : M (option string) :=
  update context (cx_set_result text) ;;; ret (Some text).

Definition skynet_queryname (context : Z) (name : string) : M Z :=
  match name with
  | String ":" name' => ret (u32 (strtoul16 name'))
  | String "." name' => reads (skynet_handle_findname name')
  | _ => skynet_error context ("Don't support query global name " ++ name) ;;; ret 0
  end.

Definition handle_exit (context handle : Z) : M unit :=
  handle <- (if handle =? 0
             then self <- skynet_context_handle context ;; skynet_error context "KILL self" ;;; ret self
             else skynet_error context ("KILL :" ++ fmt_x handle) ;;; ret handle) ;;
  monitor_exit <- gets (fun s => g_monitor_exit (n_G s)) ;;
  when (negb (monitor_exit =? 0))
    (_ <- skynet_send context handle monitor_exit PTYPE_CLIENT 0 0 0 ;; ret tt) ;;;
  _ <- skynet_handle_retire handle ;;
  ret tt.

Definition cmd_handle (context : Z) (param : option string) : M (option string) :=
  handle <- skynet_context_handle context ;; result context (fmt_d (i32 handle)).

Definition cmd_session (context : Z) (param : option string) : M (option string) :=
  session <- skynet_context_newsession context ;; result context (fmt_d session).

(** [sscanf(param, "%d %d", &handle, &session)] on variables that are 0. *)
Definition scan_two (param : string) : Z * Z :=
  match scan_d param with
  | None => (0, 0)
  | Some (handle, rest) => (handle, match scan_d rest with None => 0 | Some (session, _) => session end)
  end.

Definition cmd_resume (context : Z) (param : option string) : M (option string) :=
  param <- lift param ;;
  let '(handle, session) := scan_two param in
  r <- skynet_context_push (u32 handle) (Msg 0 session 0 (tag_sz 0 PTYPE_RESPONSE)) ;;
  result context (fmt_d (if negb (r =? 0) then -1 else 0)).

Definition cmd_timeout (context : Z) (param : option string) : M (option string) :=
  param <- lift param ;;
  let ti := i32 (strtol10 param) in
  session <- skynet_context_newsession context ;;
  handle <- skynet_context_handle context ;;
  _ <- skynet_timeout handle ti session ;;
  result context (fmt_d session).

(** The copy of the name that the registry keeps, or NULL. *)
Definition name_handle (handle : Z) (name : string) : M (option string) :=
  skynet_handle_namehandle handle name.

Definition cmd_reg (context : Z) (param : option string) : M (option string) :=
  handle <- skynet_context_handle context ;;
  match param with
  | None | Some "" => result context (":" ++ fmt_x handle)
  | Some (String "." name) => name_handle handle name
  | Some param => skynet_error context ("Can't register global name " ++ param ++ " in C") ;;; ret None
  end.

Definition cmd_query (context : Z) (param : option string) : M (option string) :=
  param <- lift param ;;
  match param with
  | String "." name =>
      handle <- reads (skynet_handle_findname name) ;;
      if negb (handle =? 0) then result context (":" ++ fmt_x handle) else ret None
  | _ => ret None
  end.

(** The words are read into arrays on the stack: with less than two words
    [handle] is not initialised, and the code reads it. *)
Definition cmd_name (context : Z) (param : option string) : M (option string) :=
  param <- lift param ;;
  ' (name, rest) <- lift (scan_s param) ;;
  ' (handle, _) <- lift (scan_s rest) ;;
  match handle with
  | String ":" digits =>
      let handle_id := u32 (strtoul16 digits) in
      if handle_id =? 0 then ret None
      else
        match name with
        | String "." name' => name_handle handle_id name'
        | _ => skynet_error context ("Can't set global name " ++ name ++ " in C") ;;; ret None
        end
  | _ => ret None
  end.

Definition cmd_exit (context : Z) (param : option string) : M (option string) :=
  handle_exit context 0 ;;; ret None.

Definition tohandle (context : Z) (param : string) : M Z :=
  match param with
  | String ":" digits => ret (u32 (strtoul16 digits))
  | String "." name => reads (skynet_handle_findname name)
  | _ => skynet_error context ("Can't convert " ++ param ++ " to handle") ;;; ret 0
  end.

Definition cmd_kill (context : Z) (param : option string) : M (option string) :=
  param <- lift param ;;
  handle <- tohandle context param ;;
  when (negb (handle =? 0)) (handle_exit context handle) ;;;
  ret None.

Definition is_blank (a : ascii) : bool :=
  (byte_of a =? 32) || (byte_of a =? 9) || (byte_of a =? 13) || (byte_of a =? 10).
Definition is_eol (a : ascii) : bool := (byte_of a =? 13) || (byte_of a =? 10).

Definition cmd_launch (context : Z) (param : option string) : M (option string) :=
  param <- lift param ;;
  let '(mod_, args) := strsep is_blank param in
  let args := match args with Some args => Some (strsep is_eol args).1 | None => None end in
  inst <- skynet_context_new mod_ args ;;
  if inst =? 0 then ret None
  else handle <- skynet_context_handle inst ;; result context (id_to_hex handle).

Definition cmd_getenv (context : Z) (param : option string) : M (option string) :=
  param <- lift param ;; skynet_getenv param.

(** The key is the parameter up to its first space. *)
Definition cmd_setenv (context : Z) (param : option string) : M (option string) :=
  param <- lift param ;;
  match strsep (is_char " ") param with
  | (_, None) => ret None
  | (key, Some value) => skynet_setenv key value ;;; ret None
  end.

Definition cmd_starttime (context : Z) (param : option string) : M (option string) :=
  sec <- gets (fun s => skynet_starttime (n_TI s)) ;; result context (fmt_u sec).

(** Two rounds retire everything. *)
Definition cmd_abort (context : Z) (param : option string) : M (option string) :=
  steps (skynet_handle_retireall 2) ;;; ret None.

Definition set_monitor_exit (handle : Z) : M unit :=
  modify (fun s => set_G (g_set_monitor_exit handle (n_G s)) s).

Definition cmd_monitor (context : Z) (param : option string) : M (option string) :=
  match param with
  | None | Some "" =>
      monitor_exit <- gets (fun s => g_monitor_exit (n_G s)) ;;
      if negb (monitor_exit =? 0) then result context (":" ++ fmt_x monitor_exit) else ret None
  | Some param => handle <- tohandle context param ;; set_monitor_exit handle ;;; ret None
  end.

Definition cmd_stat (context : Z) (param : option string) : M (option string) :=
  param <- lift param ;;
  x <- deref context ;;
  if strcmp param "mqlen" =? 0 then
    len <- reads (fun s => skynet_mq_length (cx_queue x) (n_mq s)) ;; result context (fmt_d len)
  else if strcmp param "endless" =? 0 then
    if cx_endless x then
      update context (cx_set_result "1") ;;; update context (cx_set_endless false) ;;; ret (Some "1")
    else result context "0"
  else if strcmp param "cpu" =? 0 then result context (fmt_lf_micro (cx_cpu_cost x))
  else if strcmp param "time" =? 0 then
    if cx_profile x then
      t <- thread_time ;; result context (fmt_lf_micro (u64 (t - cx_cpu_start x)))
    else result context "0"
  else if strcmp param "message" =? 0 then result context (fmt_d (cx_message_count x))
  else result context "".

(** ** Log files *)

(** The file, or NULL; its first line is written. *)
Definition skynet_log_open (ctx handle : Z) : M Z :=
  logpath <- skynet_getenv "logpath" ;;
  match logpath with
  | None => ret 0
  | Some logpath =>
      let tmp := logpath ++ "/" ++ fmt_08x handle ++ ".log" in
      let f := fopen_append tmp in
      (if negb (f =? 0) then
         skynet_error ctx ("Open log file " ++ tmp) ;;; modify (add_out (LogOpened f))
       else skynet_error ctx ("Open log file " ++ tmp ++ " fail")) ;;;
      ret f
  end.

Definition skynet_log_close (ctx f handle : Z) : M unit :=
  skynet_error ctx ("Close log file :" ++ fmt_08x handle) ;;; modify (add_out (LogClosed f)).

(** [ATOM_CAS_POINTER(&ctx->logfile, old, new)] *)
Definition cas_logfile (ctx old new : Z) : M bool :=
  x <- deref ctx ;;
  if cx_logfile x =? old then update ctx (cx_set_logfile new) ;;; ret true else ret false.

Definition cmd_logon (context : Z) (param : option string) : M (option string) :=
  param <- lift param ;;
  handle <- tohandle context param ;;
  if handle =? 0 then ret None
  else
    ctx <- skynet_handle_grab handle ;;
    if ctx =? 0 then ret None
    else
      x <- deref ctx ;;
      (if cx_logfile x =? 0 then
         f <- skynet_log_open context handle ;;
         if negb (f =? 0) then
           done <- cas_logfile ctx 0 f ;;
           (* logfile opens in other thread, close this one. *)
           when (negb done) (modify (add_out (LogClosed f)))
         else ret tt
       else ret tt) ;;;
      _ <- skynet_context_release ctx ;;
      ret None.

Definition cmd_logoff (context : Z) (param : option string) : M (option string) :=
  param <- lift param ;;
  handle <- tohandle context param ;;
  if handle =? 0 then ret None
  else
    ctx <- skynet_handle_grab handle ;;
    if ctx =? 0 then ret None
    else
      x <- deref ctx ;;
      let f := cx_logfile x in
      (if negb (f =? 0) then
         done <- cas_logfile ctx f 0 ;;
         when done (skynet_log_close context f handle)
       else ret tt) ;;;
      _ <- skynet_context_release ctx ;;
      ret None.

Definition cmd_signal (context : Z) (param : option string) : M (option string) :=
  param <- lift param ;;
  handle <- tohandle context param ;;
  if handle =? 0 then ret None
  else
    ctx <- skynet_handle_grab handle ;;
    if ctx =? 0 then ret None
    else
      let sig := match strchr " " param with Some rest => i32 (strtol0 rest) | None => 0 end in
      x <- deref ctx ;;
      skynet_module_instance_signal (cx_mod x) (cx_instance x) sig ;;;
      _ <- skynet_context_release ctx ;;
      ret None.

(** ** The table *)

Definition cmd_funcs : list (string * (Z -> option string -> M (option string))) :=
  [("HANDLE", cmd_handle); ("SESSION", cmd_session); ("RESUME", cmd_resume);
   ("TIMEOUT", cmd_timeout); ("REG", cmd_reg); ("QUERY", cmd_query); ("NAME", cmd_name);
   ("EXIT", cmd_exit); ("KILL", cmd_kill); ("LAUNCH", cmd_launch); ("GETENV", cmd_getenv);
   ("SETENV", cmd_setenv); ("STARTTIME", cmd_starttime); ("ABORT", cmd_abort);
   ("MONITOR", cmd_monitor); ("STAT", cmd_stat); ("LOGON", cmd_logon); ("LOGOFF", cmd_logoff);
   ("SIGNAL", cmd_signal)]%list.

Fixpoint find_command (funcs : list (string * (Z -> option string -> M (option string)))) (cmd : string)
    (context : Z) (param : option string) : M (option string) :=
  match funcs with
  | []%list => ret None
  | ((name, func) :: funcs')%list =>
      if strcmp cmd name =? 0 then func context param else find_command funcs' cmd context param
  end.

Definition skynet_command (context : Z) (cmd : string) (param : option string) : M (option string) :=
  find_command cmd_funcs cmd context param.

(** ** Starting a node *)

(** The first service: [None] when the program exits.  [dispatch_fuel] bounds the
    messages the logger prints then. *)
Definition bootstrap (dispatch_fuel : nat) (logger : Z) (cmdline : string) : M bool :=
  ' (name, rest) <- lift (scan_s cmdline) ;;
  ' (args, _) <- lift (scan_s rest) ;;
  ctx <- skynet_context_new name (Some args) ;;
  if ctx =? 0 then
    skynet_error 0 ("Bootstrap error : " ++ cmdline ++ String (ascii_of_N 10) "") ;;;
    skynet_context_dispatchall dispatch_fuel logger ;;;
    ret false
  else ret true.

(** The services skynet_start creates, up to the start of the threads; [false]
    when it gives up. *)
Definition start_services (dispatch_fuel : nat) (logservice : string) (logger : option string)
    (bootstrap_line : string) : M bool :=
  ctx <- skynet_context_new logservice logger ;;
  if ctx =? 0 then ret false
  else
    handle <- skynet_context_handle ctx ;;
    _ <- skynet_handle_namehandle handle "logger" ;;
    bootstrap dispatch_fuel ctx bootstrap_line.
End commands.

(** The node before its first service: the init calls of skynet_main and
    skynet_start.  The clock readings, the environment that the configuration
    gives and the profile flag are arguments. *)
Definition initial_node (harbor : Z) (module_path : string) (real_sec real_nsec mono_sec mono_nsec : Z)
    (env : gmap string string) (profile : bool) : node :=
  Node skynet_mq_init (skynet_handle_init harbor) (skynet_module_init module_path)
    (skynet_timer_init real_sec real_nsec mono_sec mono_nsec) ∅ ∅ ∅ env 1
    (GNode 0 true 0 (u32 (- THREAD_MAIN)) profile) 0
    (u32 (Z.shiftl harbor HANDLE_REMOTE_SHIFT)) 0 [] 0.
