(* ===== verification/NodeInv.v ===== *)
(** What holds of a node between any two steps of its threads.

    The invariant relates the state of Node to an abstract one: the registry as
    two maps, the global queue as a list, the mailboxes as lists of messages,
    and the rights the running operations hold: references to contexts
    ([held]), mailboxes taken from the global queue by a worker ([work]) or not
    yet put there by the creator of a service ([crea]), and message blocks not yet
    handed over ([bufs]).  Every context that is registered or referenced is
    allocated, its count is the number of these references, and it is the only
    owner of a mailbox that is not marked for release; every mailbox with
    something in it is in the global queue or in the hands of one thread; every
    block a message points to is allocated and has one owner. *)

From S2P Require Import Prelude Types CString Timer MessageQueue SkynetModule Handle Node Server.
Local Open Scope Z_scope.

(** Releasing an instance frees what the instance owns; it calls nothing that
    changes the node, but may read the clock and write to a log. *)
Record quiet (s s' : node) : Prop := {
  qt_mq : n_mq s' = n_mq s; qt_H : n_H s' = n_H s; qt_M : n_M s' = n_M s; qt_TI : n_TI s' = n_TI s;
  qt_ctx : n_ctx s' = n_ctx s; qt_mem : n_mem s' = n_mem s; qt_mon : n_mon s' = n_mon s;
  qt_env : n_env s' = n_env s; qt_brk : n_brk s' = n_brk s; qt_G : n_G s' = n_G s;
  qt_REMOTE : n_REMOTE s' = n_REMOTE s; qt_HARBOR : n_HARBOR s' = n_HARBOR s;
  qt_logger : n_logger s' = n_logger s
}.

Class LawfulServices `{Services} : Prop := {
  run_release_law : forall fn inst s, exists s', run_release fn inst s = Some (tt, s') /\ quiet s s'
}.

Lemma quiet_refl s : quiet s s.
Proof. by split. Qed.
Lemma quiet_trans s1 s2 s3 : quiet s1 s2 -> quiet s2 s3 -> quiet s1 s3.
Proof. intros [] []. split; congruence. Qed.

(** ** Mailboxes and their contexts *)

Section core.
Implicit Types (s : node) (gq out : list Z) (qs : gmap Z aqueue) (x : skynet_context).

(** A mailbox outside the global queue and outside [out] is idle: empty, flagged
    so, and owned by a context. *)
Definition scheduled (gq out : list Z) (p : Z) (a : aqueue) : Prop :=
  (a_in_global a = MQ_IN_GLOBAL \/ a_in_global a = 0) /\
  (p ∈ gq ++ out \/ (a_in_global a = 0 /\ a_release a = 0 /\ a_msgs a = [])) /\
  (a_release a = 0 -> p ∈ gq ++ out -> a_in_global a = MQ_IN_GLOBAL).

(** A context whose mailbox is not created yet has the queue 0. *)
Record core s gq qs out : Prop := {
  co_world : world_rep (n_mq s) gq qs;
  co_nodup : NoDup (gq ++ out);
  co_sched : map_Forall (scheduled gq out) qs;
  co_out : forall p, p ∈ gq ++ out -> is_Some (qs !! p);
  co_queue : forall c x, n_ctx s !! c = Some x -> cx_queue x <> 0 ->
    exists a, qs !! cx_queue x = Some a /\ a_release a = 0 /\ a_handle a = cx_handle x;
  co_inj : forall c c' x x', n_ctx s !! c = Some x -> n_ctx s !! c' = Some x' ->
    cx_queue x <> 0 -> cx_queue x = cx_queue x' -> c = c';
  co_brk : forall c, is_Some (n_ctx s !! c) -> 0 < c < n_brk s;
  co_mod : forall c x, n_ctx s !! c = Some x -> exists m, zget (ms_m (n_M s)) (cx_mod x) = Some (Some m)
}.

Lemma core_ext s s' gq qs out :
  n_mq s' = n_mq s -> n_ctx s' = n_ctx s -> n_brk s <= n_brk s' -> n_M s' = n_M s ->
  core s gq qs out -> core s' gq qs out.
Proof.
  intros Hmq Hctx Hbrk HM []. split; rewrite ?Hmq, ?Hctx, ?HM; try done.
  intros c Hc. specialize (co_brk0 c Hc). lia.
Qed.

(** The parts of a context the invariant looks at. *)
Definition same_ctx x x' : Prop :=
  cx_queue x' = cx_queue x /\ cx_handle x' = cx_handle x /\ cx_mod x' = cx_mod x.

Lemma core_update s gq qs out c x x' :
  core s gq qs out -> n_ctx s !! c = Some x -> same_ctx x x' ->
  core (set_ctx (<[c := x']> (n_ctx s)) s) gq qs out.
Proof.
  intros [] Hc (Hq & Hh & Hm).
  assert (forall d y, <[c:=x']> (n_ctx s) !! d = Some y ->
    exists y0, n_ctx s !! d = Some y0 /\ cx_queue y = cx_queue y0 /\ cx_handle y = cx_handle y0 /\
      cx_mod y = cx_mod y0) as Hback.
  { intros d y [[<- <-]|[? Hy]]%lookup_insert_Some; [eauto 10|]. exists y. done. }
  split; simpl; try done.
  - intros d y Hd Hy. destruct (Hback d y Hd) as (y0 & Hd0 & E & -> & _). rewrite E in *. eauto.
  - intros d d' y y' Hd Hd' Hy E. destruct (Hback d y Hd) as (y0 & Hd0 & E0 & _).
    destruct (Hback d' y' Hd') as (y0' & Hd0' & E0' & _). rewrite E0, E0' in E. rewrite E0 in Hy. eauto.
  - intros d [y Hd]. destruct (Hback d y Hd) as (y0 & Hd0 & _). eauto.
  - intros d y Hd. destruct (Hback d y Hd) as (y0 & Hd0 & _ & _ & ->). eauto.
Qed.

(** ** Marking a mailbox for release *)

Definition marked (qs : gmap Z aqueue) (p : Z) (a : aqueue) : gmap Z aqueue :=
  <[p := AQ (a_handle a) (a_msgs a) (a_in_global a) 1]> qs.
Definition marked_gq (gq : list Z) (p : Z) (a : aqueue) : list Z :=
  if a_in_global a =? MQ_IN_GLOBAL then gq else gq ++ [p].

Lemma sched_marked gq out qs p a :
  NoDup (gq ++ out) -> map_Forall (scheduled gq out) qs -> qs !! p = Some a -> a_release a = 0 ->
  (a_in_global a <> MQ_IN_GLOBAL -> p ∉ gq ++ out) /\
  NoDup (marked_gq gq p a ++ out) /\
  map_Forall (scheduled (marked_gq gq p a) out) (marked qs p a).
Proof.
  intros Hnd Hs Ha Hrel. destruct (Hs p a Ha) as (Hg & Hin & Hsch).
  assert (a_in_global a <> MQ_IN_GLOBAL -> p ∉ gq ++ out) as Hni.
  { intros Hne Hp. by apply Hne, Hsch. }
  assert (forall y, y ∈ marked_gq gq p a ++ out <-> y ∈ gq ++ out \/ (a_in_global a <> MQ_IN_GLOBAL /\ y = p)) as Hmem.
  { intros y. unfold marked_gq. destruct (Z.eqb_spec (a_in_global a) MQ_IN_GLOBAL);
      rewrite ?elem_of_app, ?list_elem_of_singleton; naive_solver. }
  split; [done|]. split.
  - unfold marked_gq. destruct (Z.eqb_spec (a_in_global a) MQ_IN_GLOBAL) as [|Hne]; [done|].
    specialize (Hni Hne). rewrite elem_of_app in Hni. apply NoDup_app in Hnd as (Hg1 & Hd & Ho).
    rewrite NoDup_app, NoDup_app. split_and!; try done.
    + intros y Hy ->%list_elem_of_singleton. tauto.
    + apply NoDup_singleton.
    + intros y [Hy| ->%list_elem_of_singleton]%elem_of_app; [auto|tauto].
  - unfold marked. intros r b [[<- <-]|[Hne Hb]]%lookup_insert_Some.
    + split; [done|]. rewrite Hmem. simpl. split; [|done]. left.
      destruct Hg as [Hg|Hg]; [|right; rewrite Hg; done].
      destruct Hin as [|(Hin & _)]; [by left|]. rewrite Hin in Hg. done.
    + destruct (Hs r b Hb) as (Hg' & Hin' & Hsch'). split; [done|]. rewrite Hmem. split.
      * destruct Hin'; auto.
      * intros Hr [Hr'|[_ ?]]; [by apply Hsch'|]. congruence.
Qed.

Lemma core_mark s gq qs out c x a :
  core s gq qs out -> n_ctx s !! c = Some x -> cx_queue x <> 0 -> qs !! cx_queue x = Some a ->
  exists w', skynet_mq_mark_release (cx_queue x) (n_mq s) = Some w' /\
    core (set_ctx (delete c (n_ctx s)) (set_mq w' s)) (marked_gq gq (cx_queue x) a)
      (marked qs (cx_queue x) a) out.
Proof.
  intros Hcore Hc Hq Ha. pose proof Hcore as [].
  destruct (co_queue0 c x Hc Hq) as (a' & Ha' & Hrel & Hh). rewrite Ha in Ha'. injection Ha' as <-.
  destruct (sched_marked gq out qs _ a co_nodup0 co_sched0 Ha Hrel) as (Hni & Hnd & Hsch).
  destruct (mq_mark_release_spec (n_mq s) gq qs _ a co_world0 Ha Hrel) as (w' & Hw & Hrep).
  { intros Hne Hg. apply (Hni Hne). apply elem_of_app. by left. }
  exists w'. split; [done|]. split; simpl; try done.
  - intros p Hp. destruct (decide (p = cx_queue x)) as [->|Hne].
    + unfold marked. rewrite lookup_insert_eq. eauto.
    + unfold marked. rewrite lookup_insert_ne by done. apply co_out0.
      unfold marked_gq in Hp. destruct (_ =? _); [done|]. set_solver.
  - intros d y [Hdc Hd]%lookup_delete_Some Hy. destruct (co_queue0 d y Hd Hy) as (b & Hb & ?).
    exists b. unfold marked. rewrite lookup_insert_ne; [done|]. intros E. apply Hdc. eauto.
  - intros d d' y y' [_ Hd]%lookup_delete_Some [_ Hd']%lookup_delete_Some. eauto.
  - intros d [y [_ Hd]%lookup_delete_Some]. eauto.
  - intros d y [_ Hd]%lookup_delete_Some. eauto.
Qed.

(** ** Releasing a reference *)

Section release.
Context `{LawfulServices}.

(** What a release leaves alone. *)
Record static_eq s s' : Prop := {
  st_H : n_H s' = n_H s; st_M : n_M s' = n_M s; st_TI : n_TI s' = n_TI s; st_mem : n_mem s' = n_mem s;
  st_mon : n_mon s' = n_mon s; st_env : n_env s' = n_env s; st_brk : n_brk s' = n_brk s;
  st_G : g_set_total 0 (n_G s') = g_set_total 0 (n_G s);
  st_REMOTE : n_REMOTE s' = n_REMOTE s; st_HARBOR : n_HARBOR s' = n_HARBOR s;
  st_logger : n_logger s' = n_logger s
}.

Lemma quiet_static s s' : quiet s s' -> static_eq s s'.
Proof. intros []. split; congruence. Qed.

Lemma instance_release_spec s m inst i :
  zget (ms_m (n_M s)) i = Some (Some m) ->
  exists s', skynet_module_instance_release i inst s = Some (tt, s') /\ quiet s s'.
Proof.
  intros Hm. unfold skynet_module_instance_release, bind, module_at, reads. rewrite Hm. simpl.
  unfold when. destruct (negb _); [apply run_release_law|]. exists s. split; [done|apply quiet_refl].
Qed.

Lemma delete_context_spec s gq qs out c x :
  core s gq qs out -> n_ctx s !! c = Some x -> cx_queue x <> 0 ->
  exists s' a, delete_context c s = Some (tt, s') /\ qs !! cx_queue x = Some a /\
    core s' (marked_gq gq (cx_queue x) a) (marked qs (cx_queue x) a) out /\
    n_ctx s' = delete c (n_ctx s) /\ static_eq s s' /\ g_total (n_G s') = g_total (n_G s) - 1.
Proof.
  intros Hcore Hc Hq. unfold delete_context, bind at 1, deref, reads. rewrite Hc.
  assert (exists s1, when (negb (cx_logfile x =? 0)) (modify (add_out (LogClosed (cx_logfile x)))) s
    = Some (tt, s1) /\ quiet s s1) as (s1 & Hs1 & Hq1).
  { unfold when. destruct (negb _); (eexists; split; [done|]); by split. }
  unfold bind at 1. rewrite Hs1.
  destruct (co_mod _ _ _ _ Hcore c x Hc) as [m Hm]. pose proof Hq1 as [].
  destruct (instance_release_spec s1 m (cx_instance x) (cx_mod x)) as (s2 & Hs2 & Hq2); [by rewrite qt_M0|].
  unfold bind at 1. rewrite Hs2. pose proof (quiet_trans _ _ _ Hq1 Hq2) as Hq02. destruct Hq02.
  assert (core s2 gq qs out) as Hcore2 by (eapply core_ext; [..|exact Hcore]; done || lia).
  destruct (co_queue _ _ _ _ Hcore c x Hc Hq) as (a & Ha & _).
  rewrite <- qt_ctx1 in Hc.
  destruct (core_mark s2 gq qs out c x a Hcore2 Hc Hq Ha) as (w' & Hw & Hcore').
  unfold bind, mq_step. rewrite Hw. simpl. eexists _, a. split; [done|]. split; [done|]. split.
  - eapply core_ext; [..|exact Hcore']; done.
  - simpl. rewrite qt_ctx1. split; [done|]. split; [split; simpl; first [congruence|by rewrite qt_G1]|]. by rewrite qt_G1.
Qed.

Lemma context_release_spec s gq qs out c x :
  core s gq qs out -> n_ctx s !! c = Some x -> cx_queue x <> 0 ->
  exists s', skynet_context_release c s = Some (if cx_ref x =? 1 then 0 else c, s') /\ static_eq s s' /\
    if cx_ref x =? 1 then
      exists a, qs !! cx_queue x = Some a /\ n_ctx s' = delete c (n_ctx s) /\
        core s' (marked_gq gq (cx_queue x) a) (marked qs (cx_queue x) a) out /\
        g_total (n_G s') = g_total (n_G s) - 1
    else s' = set_ctx (<[c := cx_set_ref (cx_ref x - 1) x]> (n_ctx s)) s /\ core s' gq qs out.
Proof.
  intros Hcore Hc Hq. unfold skynet_context_release, bind at 1, update, steps. rewrite Hc. simpl.
  set (s1 := set_ctx _ s). unfold bind at 1, deref, reads. simpl. rewrite lookup_insert_eq.
  assert (core s1 gq qs out) as Hcore1 by (by apply (core_update s gq qs out c x)).
  simpl. destruct (Z.eqb_spec (cx_ref x) 1) as [He|Hne].
  - rewrite He. simpl.
    destruct (delete_context_spec s1 gq qs out c (cx_set_ref (cx_ref x - 1) x) Hcore1) as
      (s' & a & Hdel & Ha & Hcore' & Hctx & Hst & Hg); [apply lookup_insert_eq|done|].
    unfold bind. rewrite Hdel. exists s'. split; [done|].
    split; [destruct Hst; by split|]. exists a. split_and!; try done.
    rewrite Hctx. simpl. by rewrite delete_insert_eq.
  - destruct (Z.eqb_spec (cx_ref x - 1) 0); [lia|]. eexists. split; [done|]. split; [by split|]. done.
Qed.

(** ** The registry's view of the contexts *)

Definition node_alive (c : Z) (s : node) : Prop :=
  (exists x, n_ctx s !! c = Some x /\ cx_queue x <> 0) /\ exists gq qs out, core s gq qs out.

#[export] Instance node_lawful : LawfulContexts node.
Proof.
  refine {| ctx_alive := node_alive |}.
  - done.
  - intros c h s (Hx & gq & qs & out & Hcore). split; [done|]. exists gq, qs, out.
    by eapply core_ext; [..|exact Hcore].
  - intros c s ((x & Hc & Hq) & gq & qs & out & Hcore). simpl.
    unfold skynet_context_grab, update, steps. rewrite Hc. simpl.
    eexists. split; [done|]. split; [done|]. split.
    + intros c'. simpl. destruct (decide (c = c')) as [<-|]; [by rewrite lookup_insert_eq, Hc|].
      by rewrite lookup_insert_ne.
    + intros c' ((x' & Hc' & Hq') & _). split.
      * simpl. destruct (decide (c = c')) as [<-|]; [|rewrite lookup_insert_ne by done; eauto].
        rewrite lookup_insert_eq. eexists. split; [done|]. simpl. done.
      * exists gq, qs, out. by apply (core_update s gq qs out c x).
  - intros c s ((x & Hc & Hq) & gq & qs & out & Hcore).
    destruct (context_release_spec s gq qs out c x Hcore Hc Hq) as (s' & Hrel & Hst & Hcase).
    simpl. eexists _, s'. split; [exact Hrel|]. split; [apply Hst|].
    assert (forall c', c' <> c -> n_ctx s' !! c' = n_ctx s !! c') as Hoth.
    { intros c' Hne. destruct (cx_ref x =? 1).
      - destruct Hcase as (a & _ & -> & _). by rewrite lookup_delete_ne.
      - destruct Hcase as (-> & _). simpl. by rewrite lookup_insert_ne. }
    split; intros c' Hne; rewrite ?Hoth by done; [done|].
    intros (Hx & _). split; [by rewrite Hoth|]. destruct (cx_ref x =? 1).
    + destruct Hcase as (a & _ & _ & ? & _). eauto.
    + destruct Hcase as (_ & ?). eauto.
Defined.
End release.
End core.

(** ** The invariant *)

Definition refs (held : list Z) (c : Z) : Z := Z.of_nat (length (filter (fun d => d = c) held)).
Definition registered_as (R : registry) (h c : Z) : Z := b2i (bool_decide (reg_ctx R !! h = Some c)).

(** The reference the harbor keeps to its service. *)
Definition remote_ref (s : node) (c : Z) : Z := b2i (bool_decide (n_REMOTE s = c)).

(** The blocks that the messages of a mailbox, and of all mailboxes, point to. *)
Definition msg_ptrs (l : list skynet_message) : list Z := filter (fun p => p <> 0) (msg_data <$> l).
Definition ptrs (qs : gmap Z aqueue) : list Z := map_to_list qs ≫= fun pa => msg_ptrs (a_msgs pa.2).

Section inv.
Context `{LawfulServices}.

Record inv (s : node) (R : registry) (gq : list Z) (qs : gmap Z aqueue)
    (held work crea bufs : list Z) (resv : Z) : Prop := {
  iv_core : core s gq qs (work ++ crea);
  iv_reg : reg_rep s R;
  iv_ctx : forall c x, n_ctx s !! c = Some x ->
    cx_queue x <> 0 /\ 0 < cx_ref x /\ 
      cx_ref x = registered_as R (cx_handle x) c + refs held c + remote_ref s c;
  iv_init : forall c x, n_ctx s !! c = Some x -> reg_ctx R !! cx_handle x = Some c ->
    cx_init x = false -> cx_queue x ∈ crea;
  iv_held : forall c, c ∈ held -> is_Some (n_ctx s !! c);
  iv_owner : forall p a c, qs !! p = Some a -> reg_ctx R !! a_handle a = Some c ->
    exists x, n_ctx s !! c = Some x /\ cx_queue x = p;
  iv_handle : forall p a, qs !! p = Some a -> 0 < a_handle a /\ (a_release a = 0 \/ a_release a = 1);
  iv_ptrs : NoDup (ptrs qs ++ bufs);
  iv_alloc : forall p, p ∈ ptrs qs ++ bufs -> is_Some (n_mem s !! p);
  iv_membrk : forall p, is_Some (n_mem s !! p) -> 0 < p < n_brk s;
  iv_brk : 0 < n_brk s;
  iv_total : g_total (n_G s) = Z.of_nat (size (n_ctx s)) - resv;
  iv_harbor : n_HARBOR s = hs_harbor (n_H s);
  iv_remote : n_REMOTE s <> 0 -> is_Some (n_ctx s !! n_REMOTE s);
  iv_timer : exists l, wheel (n_TI s) l /\ all_pending (t_time (n_TI s)) l
}.
End inv.
