(* ===== verification/NodeOps.v ===== *)
(** The steps of a node keep its invariant: grabbing and releasing references,
    pushing and popping messages, taking mailboxes from the global queue and
    giving them back, retiring handles, allocating and freeing blocks. *)

From S2P Require Import Prelude Types CString Timer MessageQueue SkynetModule Handle Node Server NodeInv.
Local Open Scope Z_scope.
Section steps.
Context `{LawfulServices}.
Implicit Types (s : node) (R : registry) (gq held work crea bufs : list Z) (qs : gmap Z aqueue).

(** ** Counting and ownership *)

Lemma refs_nonneg held c : 0 <= refs held c.
Proof. unfold refs. lia. Qed.

Lemma refs_cons d held c : refs (d :: held) c = b2i (bool_decide (d = c)) + refs held c.
Proof.
  unfold refs. rewrite filter_cons. destruct (decide (d = c)).
  - rewrite bool_decide_true by done. simpl. lia.
  - by rewrite bool_decide_false.
Qed.

Lemma refs_perm held held' c : held ≡ₚ held' -> refs held c = refs held' c.
Proof. intros Hp. unfold refs. by rewrite Hp. Qed.

Lemma refs_pos held c : c ∈ held -> 0 < refs held c.
Proof. intros [l Hl]%elem_of_Permutation. rewrite (refs_perm _ _ _ Hl), refs_cons, bool_decide_true by done.
  pose proof (refs_nonneg l c). simpl. lia. Qed.

Lemma refs_zero held c : c ∉ held -> refs held c = 0.
Proof. intros Hc. unfold refs. rewrite filter_none; [done|]. intros y Hy ->. done. Qed.

Lemma remote_ref_range s c : 0 <= remote_ref s c <= 1.
Proof. unfold remote_ref. destruct (bool_decide _); simpl; lia. Qed.

Lemma registered_as_range R h c : 0 <= registered_as R h c <= 1.
Proof. unfold registered_as. destruct (bool_decide _); simpl; lia. Qed.

Lemma ptrs_delete qs p a : qs !! p = Some a -> ptrs qs ≡ₚ msg_ptrs (a_msgs a) ++ ptrs (delete p qs).
Proof. intros Ha. unfold ptrs. by rewrite <- (map_to_list_delete qs p a Ha). Qed.

Lemma ptrs_insert qs p a' : ptrs (<[p := a']> qs) ≡ₚ msg_ptrs (a_msgs a') ++ ptrs (delete p qs).
Proof. rewrite <- (delete_insert_eq qs p a'). apply ptrs_delete, lookup_insert_eq. Qed.

Lemma ptrs_same_msgs qs p a a' :
  qs !! p = Some a -> a_msgs a' = a_msgs a -> ptrs (<[p := a']> qs) ≡ₚ ptrs qs.
Proof. intros Ha E. by rewrite ptrs_insert, E, (ptrs_delete qs p a Ha). Qed.

Lemma msg_ptrs_app l l' : msg_ptrs (l ++ l') = msg_ptrs l ++ msg_ptrs l'.
Proof. unfold msg_ptrs. by rewrite fmap_app, filter_app. Qed.

(** The block of a message as a list of owned pointers. *)
Definition owned (p : Z) : list Z := if p =? 0 then [] else [p].
Lemma msg_ptrs_cons m l : msg_ptrs (m :: l) = owned (msg_data m) ++ msg_ptrs l.
Proof.
  unfold msg_ptrs, owned. simpl. rewrite filter_cons.
  destruct (Z.eqb_spec (msg_data m) 0); case_decide; done.
Qed.
Lemma elem_of_owned p q : q ∈ owned p <-> q = p /\ p <> 0.
Proof.
  unfold owned. destruct (Z.eqb_spec p 0) as [->|].
  - rewrite elem_of_nil. naive_solver.
  - rewrite list_elem_of_singleton. naive_solver.
Qed.

(** ** Changes the invariant does not see *)

Lemma reg_rep_ext s s' R :
  n_H s' = n_H s -> (forall h c, reg_ctx R !! h = Some c -> node_alive c s' /\
    (cx_handle <$> n_ctx s' !! c) = (cx_handle <$> n_ctx s !! c)) ->
  reg_rep s R -> reg_rep s' R.
Proof.
  intros HH Hc [Ht Hr Ha Hn].
  assert (forall i c, zget (hs_slot (get_H s)) i = Some c -> c <> 0 ->
    context_handle c s' = context_handle c s) as Heq.
  { intros i c Hi Hc0. destruct (tb_slot _ _ Ht i c Hi Hc0) as (l & Hl & _).
    apply (Hc (l + hs_harbor (get_H s))). apply Hr. apply (registered_iff _ _ _ _ Ht). eauto. }
  assert (forall h c, registered (fun c => context_handle c s') (get_H s) h c <->
    registered (fun c => context_handle c s) (get_H s) h c) as Hreg.
  { intros h c. unfold registered. split; intros (? & Hh & Hi); (split; [done|]); split; try done;
      rewrite (Heq _ _ Hi) in *; done. }
  change (n_H s' = n_H s) with (get_H s' = get_H s) in HH. split; rewrite ?HH.
  - eapply table_ok_ext; [|exact Ht]. intros i c Hi Hc0. by apply Heq with i.
  - intros h c. by rewrite Hreg.
  - intros h c Hh. by apply (Hc h).
  - done.
Qed.

Lemma inv_alive s R gq qs held work crea bufs resv h c :
  inv s R gq qs held work crea bufs resv -> reg_ctx R !! h = Some c ->
  exists x, n_ctx s !! c = Some x /\ cx_handle x = h.
Proof.
  intros Hi Hc. destruct (iv_reg _ _ _ _ _ _ _ _ _ Hi) as [_ Hr _ _].
  apply Hr in Hc as (_ & Hh & _). simpl in Hh.
  destruct (n_ctx s !! c) as [x|]; [|done]. injection Hh as Hh. eauto.
Qed.

(** Fields the invariant does not mention, and new message blocks. *)
Lemma inv_ext s s' R gq qs held work crea bufs bufs' resv :
  n_mq s' = n_mq s -> n_H s' = n_H s -> n_M s' = n_M s -> n_ctx s' = n_ctx s ->
  n_REMOTE s' = n_REMOTE s -> n_HARBOR s' = n_HARBOR s -> g_total (n_G s') = g_total (n_G s) ->
  n_brk s <= n_brk s' -> (exists l, wheel (n_TI s') l /\ all_pending (t_time (n_TI s')) l) ->
  NoDup (ptrs qs ++ bufs') ->
  (forall p, p ∈ ptrs qs ++ bufs' -> is_Some (n_mem s' !! p)) ->
  (forall p, is_Some (n_mem s' !! p) -> 0 < p < n_brk s') ->
  inv s R gq qs held work crea bufs resv -> inv s' R gq qs held work crea bufs' resv.
Proof.
  intros E1 E2 E3 E4 E5 E6 E7 E8 Htm Hnd Hal Hbrk Hi. pose proof Hi as [].
  assert (core s' gq qs (work ++ crea)) as Hcore by (by eapply core_ext; [..|exact iv_core]).
  split; rewrite ?E4, ?E5, ?E6, ?E7; try done; try lia.
  - eapply reg_rep_ext; [done| |exact iv_reg]. intros h c Hc. rewrite E4. split; [|done].
    destruct (inv_alive _ _ _ _ _ _ _ _ _ h c Hi Hc) as (x & Hx & _). split; [|eauto].
    exists x. rewrite E4. split; [done|]. by apply (iv_ctx c).
  - intros c x Hx. unfold remote_ref. rewrite E5. by apply iv_ctx.
  - by rewrite E2.
Qed.

Lemma inv_perm s R gq qs held held' work crea bufs bufs' resv :
  held ≡ₚ held' -> bufs ≡ₚ bufs' ->
  inv s R gq qs held work crea bufs resv -> inv s R gq qs held' work crea bufs' resv.
Proof.
  intros Hp Hb []. split; try done.
  - intros c x Hx. rewrite <- (refs_perm _ _ _ Hp). eauto.
  - intros c. rewrite <- Hp. eauto.
  - by rewrite <- Hb.
  - intros p. rewrite <- Hb. eauto.
Qed.

(** Dropping a claim on a block: the block leaks or is somebody else's now. *)
Lemma inv_forget s R gq qs held work crea bufs1 bufs resv :
  inv s R gq qs held work crea (bufs1 ++ bufs) resv -> inv s R gq qs held work crea bufs resv.
Proof.
  intros []. split; try done.
  - apply NoDup_app in iv_ptrs as (? & Hd & Hb%NoDup_app). apply NoDup_app. split_and!; [done| |apply Hb].
    intros p Hp Hp'. apply (Hd p Hp). apply elem_of_app. by right.
  - intros p Hp. apply iv_alloc. set_solver.
Qed.

(** ** References *)

Lemma inv_update s R gq qs held held' work crea bufs resv c x x' :
  inv s R gq qs held work crea bufs resv -> n_ctx s !! c = Some x -> same_ctx x x' ->
  (cx_init x' = false -> cx_init x = false) ->
  0 < cx_ref x' -> cx_ref x' - refs held' c = cx_ref x - refs held c ->
  (forall d, d <> c -> refs held' d = refs held d) ->
  (forall d, d ∈ held' -> d ∈ held \/ d = c) ->
  inv (set_ctx (<[c := x']> (n_ctx s)) s) R gq qs held' work crea bufs resv.
Proof.
  intros Hi Hc Hsame Hinit Hpos Href Hoth Hheld. pose proof Hi as []. pose proof Hsame as (Hq & Hh & Hm).
  assert (core (set_ctx (<[c:=x']> (n_ctx s)) s) gq qs (work ++ crea)) as Hcore
    by (by apply (core_update s gq qs _ c x)).
  assert (forall d, cx_handle <$> <[c:=x']> (n_ctx s) !! d = cx_handle <$> n_ctx s !! d) as Hhd.
  { intros d. destruct (decide (c = d)) as [<-|]; [|by rewrite lookup_insert_ne].
    rewrite lookup_insert_eq, Hc. simpl. congruence. }
  split; simpl; try done.
  - apply (reg_rep_ext s); [done| |done]. intros h d Hd. split; [|apply Hhd].
    destruct (inv_alive _ _ _ _ _ _ _ _ _ h d Hi Hd) as (y & Hy & _).
    split; [|eauto]. simpl. destruct (decide (c = d)) as [<-|].
    + rewrite lookup_insert_eq. exists x'. split; [done|]. rewrite Hq. by apply (iv_ctx c).
    + rewrite lookup_insert_ne by done. exists y. split; [done|]. by apply (iv_ctx d).
  - intros d y [[<- <-]|[Hne Hy]]%lookup_insert_Some.
    + destruct (iv_ctx c x Hc) as (? & ? & ?). rewrite Hq, Hh. split_and!; [done..|]. unfold remote_ref in *. simpl. lia.
    + rewrite Hoth by done. by apply iv_ctx.
  - intros d y [[<- <-]|[Hne Hy]]%lookup_insert_Some Hreg Hin; [|by apply (iv_init d)].
    rewrite Hq. rewrite Hh in Hreg. apply (iv_init c); auto.
  - intros d Hd. destruct (decide (c = d)) as [<-|]; [rewrite lookup_insert_eq; eauto|].
    rewrite lookup_insert_ne by done. apply iv_held. destruct (Hheld d Hd); congruence.
  - intros p a d Ha Hd. destruct (iv_owner p a d Ha Hd) as (y & Hy & <-).
    destruct (decide (c = d)) as [<-|]; [|rewrite lookup_insert_ne by done; eauto].
    rewrite lookup_insert_eq. exists x'. split; [done|]. congruence.
  - rewrite iv_total. rewrite map_size_insert_Some by eauto. done.
  - intros Hr. destruct (decide (c = n_REMOTE s)) as [<-|]; [rewrite lookup_insert_eq; eauto|].
    rewrite lookup_insert_ne by done. auto.
Qed.

(** A field the invariant does not mention. *)
Lemma inv_field s R gq qs held work crea bufs resv c x x' :
  inv s R gq qs held work crea bufs resv -> n_ctx s !! c = Some x -> same_ctx x x' ->
  (cx_init x' = false -> cx_init x = false) -> cx_ref x' = cx_ref x ->
  inv (set_ctx (<[c := x']> (n_ctx s)) s) R gq qs held work crea bufs resv.
Proof.
  intros Hi Hc Hs Hin Hr. apply (inv_update s R gq qs held held work crea bufs resv c x); try done.
  - rewrite Hr. by apply (iv_ctx _ _ _ _ _ _ _ _ _ Hi c).
  - lia.
  - auto.
Qed.

Lemma inv_grab s R gq qs held work crea bufs resv h c :
  inv s R gq qs held work crea bufs resv -> reg_ctx R !! h = Some c ->
  exists x, n_ctx s !! c = Some x /\ cx_handle x = h /\
    let s' := set_ctx (<[c := cx_set_ref (cx_ref x + 1) x]> (n_ctx s)) s in
    skynet_handle_grab h s = Some (c, s') /\ inv s' R gq qs (c :: held) work crea bufs resv.
Proof.
  intros Hi Hc. destruct (inv_alive _ _ _ _ _ _ _ _ _ h c Hi Hc) as (x & Hx & Hh).
  exists x. split; [done|]. split; [done|]. intros s'. split.
  - rewrite (grab_unfold s R h c (iv_reg _ _ _ _ _ _ _ _ _ Hi) Hc). simpl.
    unfold skynet_context_grab, update, steps. by rewrite Hx.
  - destruct (iv_ctx _ _ _ _ _ _ _ _ _ Hi c x Hx) as (_ & Hpos & _).
    apply (inv_update s R gq qs held (c :: held) work crea bufs resv c x); try done; simpl.
    + lia.
    + rewrite refs_cons, bool_decide_true by done. simpl. lia.
    + intros d Hd. rewrite refs_cons, bool_decide_false by done. simpl. lia.
    + intros d [->|]%elem_of_cons; auto.
Qed.

Lemma inv_grab_none s R gq qs held work crea bufs resv h :
  inv s R gq qs held work crea bufs resv -> reg_ctx R !! h = None -> skynet_handle_grab h s = Some (0, s).
Proof. intros Hi. apply grab_none, Hi. Qed.

(** What became of the context whose count was decremented. *)
Definition released (s s' : node) (c : Z) (x : skynet_context) (r : Z)
    (gq gq' : list Z) (qs qs' : gmap Z aqueue) : Prop :=
  if cx_ref x =? 1 then
    r = 0 /\ n_ctx s' = delete c (n_ctx s) /\
    exists a, qs !! cx_queue x = Some a /\ gq' = marked_gq gq (cx_queue x) a /\ qs' = marked qs (cx_queue x) a
  else r = c /\ n_ctx s' = <[c := cx_set_ref (cx_ref x - 1) x]> (n_ctx s) /\ gq' = gq /\ qs' = qs /\
    n_mq s' = n_mq s.

Lemma inv_release_gen s hs R R' gq qs held held' work crea bufs resv c x r s' :
  inv s R gq qs held work crea bufs resv -> n_ctx s !! c = Some x ->
  hs_harbor hs = hs_harbor (n_H s) ->
  skynet_context_release c (set_H hs s) = Some (r, s') -> reg_rep s' R' ->
  (forall h d, reg_ctx R' !! h = Some d -> reg_ctx R !! h = Some d) ->
  (forall h d, d <> c -> reg_ctx R !! h = Some d -> reg_ctx R' !! h = Some d) ->
  registered_as R' (cx_handle x) c + refs held' c + remote_ref s c = cx_ref x - 1 ->
  (forall d, d <> c -> refs held' d = refs held d) -> (forall d, d ∈ held' -> d ∈ held) ->
  exists gq' qs', inv s' R' gq' qs' held' work crea bufs resv /\ static_eq (set_H hs s) s' /\
    released s s' c x r gq gq' qs qs'.
Proof.
  intros Hi Hc Hharb Hrel Hrep Hsub Hsup Hcount Hoth Hheld. pose proof Hi as [].
  destruct (iv_ctx c x Hc) as (Hq & Hpos & _).
  destruct (context_release_spec (set_H hs s) gq qs (work ++ crea) c x) as (s2 & Hrel2 & Hst & Hcase); [|done..|].
  { by eapply core_ext; [..|exact iv_core]. }
  rewrite Hrel in Hrel2. injection Hrel2 as -> <-. unfold released. pose proof Hst as []. simpl in *.
  assert (g_total (n_G s') = g_total (n_G s) - b2i (cx_ref x =? 1)) as Htot.
  { destruct (cx_ref x =? 1); simpl.
    - by destruct Hcase as (_ & _ & _ & _ & ->).
    - destruct Hcase as (-> & _). simpl. lia. }
  pose proof (refs_nonneg held' c). pose proof (registered_as_range R' (cx_handle x) c).
  pose proof (remote_ref_range s c).
  assert (forall d, remote_ref s' d = remote_ref s d) as Hrr by (intros d; unfold remote_ref; by rewrite st_REMOTE).
  assert (forall d h, d <> c -> registered_as R' h d = registered_as R h d) as Hregd.
  { intros d h Hd. unfold registered_as. f_equal. apply bool_decide_ext. split; eauto. }
  destruct (Z.eqb_spec (cx_ref x) 1) as [He|Hne].
  - destruct Hcase as (a & Ha & Hctx & Hcore & Hg).
    assert (c ∉ held') as Hch by (intros Hin%refs_pos; lia).
    assert (reg_ctx R' !! cx_handle x <> Some c) as Hcr.
    { intros E. unfold registered_as in *. rewrite bool_decide_true in * by done. simpl in *. lia. }
    eexists _, _. split; [|split; [done|split_and!; eauto]].
    split; rewrite ?Hctx, ?st_mem, ?st_brk, ?st_HARBOR, ?st_H, ?st_REMOTE, ?st_TI; simpl; try done.
    + intros d y [Hd Hy]%lookup_delete_Some. rewrite Hrr, Hoth, Hregd by done. eauto.
    + intros d y [Hd Hy]%lookup_delete_Some Hr. apply (iv_init d); eauto.
    + intros d Hd. rewrite lookup_delete_ne; [by apply iv_held, Hheld|]. by intros <-.
    + unfold marked. intros p b d Hb Hd.
      assert (exists b0, qs !! p = Some b0 /\ a_handle b0 = a_handle b) as (b0 & Hb0 & Hbh).
      { apply lookup_insert_Some in Hb as [[<- <-]|[_ Hb]]; eauto. }
      rewrite <- Hbh in Hd. destruct (iv_owner p b0 d Hb0 (Hsub _ _ Hd)) as (y & Hy & Hyq).
      exists y. split; [|done]. rewrite lookup_delete_ne; [done|]. intros <-.
      destruct (inv_alive _ _ _ _ _ _ _ _ _ _ c Hi (Hsub _ _ Hd)) as (y' & Hy' & Hyh).
      apply Hcr. assert (y' = x) as -> by congruence. by rewrite Hyh.
    + unfold marked. intros p b [[<- <-]|[_ Hb]]%lookup_insert_Some; [|eauto]. split; [by apply (iv_handle (cx_queue x) a)|by right].
    + unfold marked. by rewrite (ptrs_same_msgs qs _ a).
    + intros p. unfold marked. rewrite (ptrs_same_msgs qs _ a) by done. auto.
    + rewrite Htot, iv_total, map_size_delete, Hc. simpl.
      assert (size (n_ctx s) <> 0%nat) by (by apply map_size_non_empty_iff; intros E; rewrite E in Hc).
      lia.
    + congruence.
    + intros Hr. rewrite lookup_delete_ne; [by apply iv_remote|]. intros Hcr'. unfold remote_ref in *.
      rewrite bool_decide_true in * by done. simpl in *. lia.
  - destruct Hcase as (-> & Hcore). exists gq, qs. split; [|split; [done|by split_and!]].
    split; simpl; try done.
    + intros d y [[<- <-]|[Hd Hy]]%lookup_insert_Some; rewrite Hrr; simpl; [split_and!; [done|lia..]|].
      rewrite Hoth, Hregd by done. eauto.
    + intros d y [[<- <-]|[Hd Hy]]%lookup_insert_Some; simpl; eauto.
    + intros d Hd. destruct (decide (c = d)) as [<-|]; [rewrite lookup_insert_eq; eauto|].
      rewrite lookup_insert_ne by done. by apply iv_held, Hheld.
    + intros p b d Hb Hd. destruct (iv_owner p b d Hb (Hsub _ _ Hd)) as (y & Hy & <-).
      destruct (decide (c = d)) as [<-|]; [|rewrite lookup_insert_ne by done; eauto].
      rewrite lookup_insert_eq. eexists. split; [done|]. simpl. congruence.
    + rewrite iv_total, map_size_insert_Some by eauto. done.
    + congruence.
    + intros Hr. destruct (decide (c = n_REMOTE s)) as [<-|]; [rewrite lookup_insert_eq; eauto|].
      rewrite lookup_insert_ne by done. auto.
Qed.

Lemma inv_release s R gq qs held work crea bufs resv c :
  inv s R gq qs (c :: held) work crea bufs resv ->
  exists x r s' gq' qs', n_ctx s !! c = Some x /\ skynet_context_release c s = Some (r, s') /\
    inv s' R gq' qs' held work crea bufs resv /\ static_eq s s' /\ released s s' c x r gq gq' qs qs'.
Proof.
  intros Hi. destruct (iv_held _ _ _ _ _ _ _ _ _ Hi c) as [x Hc]; [apply list_elem_of_here|].
  destruct (iv_ctx _ _ _ _ _ _ _ _ _ Hi c x Hc) as (Hq & Hpos & Hcnt).
  rewrite refs_cons, bool_decide_true in Hcnt by done. simpl in Hcnt.
  destruct (context_release_spec s gq qs (work ++ crea) c x) as (s' & Hrel & Hst & Hcase); [apply Hi|done..|].
  assert (set_H (n_H s) s = s) as Hss by (by destruct s).
  rewrite <- Hss in Hrel at 1.
  assert (reg_rep s' R) as Hrep.
  { apply (reg_rep_ext s); [apply Hst| |apply Hi]. intros h d Hd.
    destruct (inv_alive _ _ _ _ _ _ _ _ _ h d Hi Hd) as (y & Hy & Hyh).
    destruct (iv_ctx _ _ _ _ _ _ _ _ _ Hi d y Hy) as (Hyq & _).
    destruct (Z.eqb_spec (cx_ref x) 1) as [He|Hne].
    - destruct Hcase as (a & _ & Hctx & Hcore & _).
      assert (d <> c) as Hdc.
      { intros ->. assert (y = x) as -> by congruence. unfold registered_as in Hcnt.
        rewrite bool_decide_true in Hcnt by congruence. pose proof (refs_nonneg held c).
        pose proof (remote_ref_range s c). simpl in *. lia. }
      unfold node_alive. rewrite Hctx, lookup_delete_ne by done. split; [|done]. split; eauto 10.
    - destruct Hcase as (-> & Hcore). unfold node_alive. simpl. destruct (decide (c = d)) as [<-|].
      + rewrite lookup_insert_eq, Hc. split; [|done]. split; eauto 10.
      + rewrite lookup_insert_ne by done. split; [|done]. split; eauto 10. }
  destruct (inv_release_gen s (n_H s) R R gq qs (c :: held) held work crea bufs resv c x _ s' Hi Hc
    eq_refl Hrel Hrep) as (gq' & qs' & Hi' & Hst' & Hr); try done.
  - lia.
  - intros d Hd. by rewrite refs_cons, bool_decide_false.
  - intros d Hd. apply elem_of_cons. auto.
  - rewrite Hss in Hrel, Hst'. eauto 12.
Qed.

Lemma inv_retire s R gq qs held work crea bufs resv h c :
  inv s R gq qs held work crea bufs resv -> reg_ctx R !! h = Some c ->
  exists x r s' gq' qs', n_ctx s !! c = Some x /\ cx_handle x = h /\
    skynet_handle_retire h s = Some (1, s') /\
    inv s' (reg_retire h R) gq' qs' held work crea bufs resv /\
    (forall hs, static_eq (set_H hs s) (set_H hs s')) /\ released s s' c x r gq gq' qs qs'.
Proof.
  intros Hi Hc. pose proof (iv_reg _ _ _ _ _ _ _ _ _ Hi) as Hrep.
  destruct (inv_alive _ _ _ _ _ _ _ _ _ h c Hi Hc) as (x & Hx & Hh).
  destruct (retire_unfold s R h c Hrep Hc) as (hs & r & s' & Hrel & Hret & Hharb & _).
  pose proof (retire_rep s R h Hrep) as Hspec. rewrite Hc in Hspec.
  destruct Hspec as (s2 & Hret2 & Hrep' & _). rewrite Hret in Hret2. injection Hret2 as <-.
  destruct (iv_ctx _ _ _ _ _ _ _ _ _ Hi c x Hx) as (_ & _ & Hcnt).
  unfold registered_as in Hcnt. rewrite bool_decide_true in Hcnt by congruence. simpl in Hcnt.
  destruct (inv_release_gen s hs R (reg_retire h R) gq qs held held work crea bufs resv c x r s' Hi Hx
    Hharb Hrel Hrep') as (gq' & qs' & Hi' & Hst' & Hr); try done; simpl.
  - intros k d [_ Hd]%lookup_delete_Some. done.
  - intros k d Hd Hk. rewrite lookup_delete_ne; [done|]. intros ->. congruence.
  - unfold registered_as. simpl. rewrite bool_decide_false; [simpl; lia|]. rewrite Hh, lookup_delete_eq. done.
  - exists x, r, s', gq', qs'. split_and!; try done. intros hs'. destruct Hst'. split; simpl in *; done.
Qed.

(** ** Mailboxes *)

(** A step on the mailboxes alone. *)
Lemma inv_mq s w' R gq gq' qs qs' held work work' crea crea' bufs bufs' resv :
  inv s R gq qs held work crea bufs resv ->
  world_rep w' gq' qs' -> NoDup (gq' ++ work' ++ crea') ->
  map_Forall (scheduled gq' (work' ++ crea')) qs' ->
  (forall p, p ∈ gq' ++ work' ++ crea' -> is_Some (qs' !! p)) ->
  (forall p a, qs !! p = Some a -> a_release a = 0 -> exists a', qs' !! p = Some a' /\
    a_handle a' = a_handle a /\ a_release a' = 0) ->
  (forall p a', qs' !! p = Some a' -> exists a, qs !! p = Some a /\ a_handle a' = a_handle a /\
    a_release a' = a_release a) ->
  (forall c x, n_ctx s !! c = Some x -> reg_ctx R !! cx_handle x = Some c ->
    cx_init x = false -> cx_queue x ∈ crea') ->
  NoDup (ptrs qs' ++ bufs') -> (forall p, p ∈ ptrs qs' ++ bufs' -> p ∈ ptrs qs ++ bufs) ->
  inv (set_mq w' s) R gq' qs' held work' crea' bufs' resv.
Proof.
  intros Hi Hw Hnd Hsch Hout Hkeep Hback Hinit Hptr Hsub. pose proof Hi as [].
  assert (core (set_mq w' s) gq' qs' (work' ++ crea')) as Hcore.
  { destruct iv_core. split; simpl; try done.
    intros c x Hc Hq. destruct (co_queue c x Hc Hq) as (a & Ha & Hr & Hh).
    destruct (Hkeep _ a Ha Hr) as (a' & Ha' & Hh' & Hr'). exists a'. split_and!; [done..|congruence]. }
  split; simpl; try done.
  - apply (reg_rep_ext s); [done| |done]. intros h c Hc. split; [|done].
    destruct (inv_alive _ _ _ _ _ _ _ _ _ h c Hi Hc) as (x & Hx & _).
    split; [|eauto]. exists x. split; [done|]. by apply (iv_ctx c).
  - intros p a' c Ha' Hc. destruct (Hback p a' Ha') as (a & Ha & Hh & _). rewrite Hh in Hc. eauto.
  - intros p a' Ha'. destruct (Hback p a' Ha') as (a & Ha & -> & ->). eauto.
  - auto.
Qed.

(** The mailbox of an allocated context. *)
Lemma inv_queue s R gq qs held work crea bufs resv c x :
  inv s R gq qs held work crea bufs resv -> n_ctx s !! c = Some x ->
  exists a, qs !! cx_queue x = Some a /\ a_release a = 0 /\ a_handle a = cx_handle x.
Proof.
  intros Hi Hc. eapply (co_queue _ _ _ _ (iv_core _ _ _ _ _ _ _ _ _ Hi)); [done|].
  by apply (iv_ctx _ _ _ _ _ _ _ _ _ Hi c).
Qed.

(** The list of mailboxes and the global queue after a push. *)
Definition pushed_gq gq (p : Z) (a : aqueue) : list Z := if a_in_global a =? 0 then gq ++ [p] else gq.
Definition pushed qs (p : Z) (a : aqueue) (m : skynet_message) : gmap Z aqueue :=
  <[p := a_set_msgs a (a_msgs a ++ [m]) MQ_IN_GLOBAL]> qs.

Lemma inv_push s R gq qs held work crea bufs resv p a m :
  inv s R gq qs held work crea (owned (msg_data m) ++ bufs) resv ->
  qs !! p = Some a -> a_release a = 0 ->
  exists s', mq_step (skynet_mq_push p m) s = Some (tt, s') /\
    inv s' R (pushed_gq gq p a) (pushed qs p a m) held work crea bufs resv /\
    exists w', s' = set_mq w' s.
Proof.
  intros Hi Ha Hr. pose proof (iv_core _ _ _ _ _ _ _ _ _ Hi) as [].
  destruct (co_sched p a Ha) as (Hg & Hin & Hsch).
  assert (a_in_global a = 0 -> p ∉ gq ++ work ++ crea) as Hni.
  { intros H0' Hp. rewrite (Hsch Hr Hp) in H0'. done. }
  destruct (mq_push_spec (n_mq s) gq qs p a m co_world Ha) as (w' & Hpush & Hw).
  { intros H0'. pose proof (Hni H0') as Hn. rewrite elem_of_app in Hn. tauto. }
  unfold mq_step. rewrite Hpush. eexists. split; [done|]. split; [|eauto].
  assert ((if a_in_global a =? 0 then MQ_IN_GLOBAL else a_in_global a) = MQ_IN_GLOBAL) as E.
  { destruct Hg as [-> | ->]; done. }
  rewrite E in Hw.
  assert (forall q, q ∈ pushed_gq gq p a ++ work ++ crea <-> q ∈ gq ++ work ++ crea \/ (a_in_global a = 0 /\ q = p)) as Hmem.
  { intros q. unfold pushed_gq. destruct (Z.eqb_spec (a_in_global a) 0); set_solver. }
  assert (ptrs (pushed qs p a m) ++ bufs ≡ₚ ptrs qs ++ owned (msg_data m) ++ bufs) as Hperm.
  { unfold pushed. rewrite ptrs_insert, (ptrs_delete qs p a Ha). simpl.
    rewrite msg_ptrs_app, msg_ptrs_cons. change (msg_ptrs []) with (@nil Z). rewrite app_nil_r. solve_Permutation. }
  apply (inv_mq s w' R gq _ qs _ held work work crea crea _ bufs resv Hi Hw); unfold pushed.
  - unfold pushed_gq. destruct (Z.eqb_spec (a_in_global a) 0) as [H0'|]; [|done].
    assert ((gq ++ [p]) ++ work ++ crea ≡ₚ p :: gq ++ work ++ crea) as -> by solve_Permutation.
    apply NoDup_cons. split; [by apply Hni|done].
  - intros q b [[<- <-]|[Hne Hb]]%lookup_insert_Some; unfold scheduled; rewrite !Hmem; simpl.
    + split_and!; [auto| |done]. left. destruct Hg as [Hg|Hg]; [|auto]. left.
      destruct Hin as [|(Hin & _)]; [done|]. rewrite Hin in Hg. done.
    + destruct (co_sched q b Hb) as (? & ? & ?). split_and!; [done|tauto|].
      intros ? [?|[_ ?]]; [auto|congruence].
  - intros q [Hq|[_ ->]]%Hmem; [|rewrite lookup_insert_eq; eauto].
    destruct (decide (p = q)) as [<-|]; [rewrite lookup_insert_eq|rewrite lookup_insert_ne by done]; eauto.
  - intros q b Hb Hbr. destruct (decide (p = q)) as [<-|].
    + rewrite lookup_insert_eq. eexists. split; [done|]. simpl. split; congruence.
    + rewrite lookup_insert_ne by done. eauto.
  - intros q b [[<- <-]|[Hne Hb]]%lookup_insert_Some; eauto.
  - apply Hi.
  - fold (pushed qs p a m). rewrite Hperm. apply Hi.
  - intros q. fold (pushed qs p a m). by rewrite Hperm.
Qed.

(** A worker takes the first mailbox of the global queue. *)
Lemma inv_take s R gq qs held work crea bufs resv :
  inv s R gq qs held work crea bufs resv ->
  exists s', mq_call skynet_globalmq_pop s = Some (default 0 (head gq), s') /\
    inv s' R (tail gq) qs held (match head gq with Some p => p :: work | None => work end) crea bufs resv /\
    exists w', s' = set_mq w' s.
Proof.
  intros Hi. pose proof (iv_core _ _ _ _ _ _ _ _ _ Hi) as [].
  destruct (globalmq_pop_spec (n_mq s) gq qs co_world) as (w' & Hpop & Hw & _).
  unfold mq_call. rewrite Hpop. eexists. split; [done|]. split; [|eauto].
  set (work' := match head gq with Some p => p :: work | None => work end).
  assert (tail gq ++ work' ++ crea ≡ₚ gq ++ work ++ crea) as Hperm.
  { subst work'. destruct gq as [|p gq]; [done|]. simpl. solve_Permutation. }
  apply (inv_mq s w' R gq _ qs _ held work _ crea crea bufs bufs resv Hi Hw); rewrite ?Hperm; try done.
  - intros p a Ha. unfold scheduled. rewrite Hperm. by apply co_sched.
  - intros p. rewrite Hperm. auto.
  - eauto.
  - eauto.
  - apply Hi.
  - apply Hi.
Qed.

(** A worker, or the creator of a service, puts a mailbox into the global queue. *)
Lemma inv_give s R gq qs held work work' crea crea' bufs resv p :
  inv s R gq qs held work crea bufs resv -> work ++ crea ≡ₚ p :: work' ++ crea' ->
  (forall c x, n_ctx s !! c = Some x -> reg_ctx R !! cx_handle x = Some c ->
    cx_init x = false -> cx_queue x ∈ crea') ->
  exists s', mq_step (skynet_globalmq_push p) s = Some (tt, s') /\
    inv s' R (gq ++ [p]) qs held work' crea' bufs resv /\ exists w', s' = set_mq w' s.
Proof.
  intros Hi Hp Hinit. pose proof (iv_core _ _ _ _ _ _ _ _ _ Hi) as [].
  assert (p ∈ work ++ crea) as Hin by (rewrite Hp; apply list_elem_of_here).
  destruct (co_out p) as [a Ha]; [apply elem_of_app; by right|].
  assert (p ∉ gq) as Hng by (intros Hg; apply NoDup_app in co_nodup as (_ & Hd & _); by apply (Hd p)).
  destruct (globalmq_push_spec (n_mq s) gq qs p a co_world Ha Hng) as (w' & Hpush & Hw & _).
  unfold mq_step. rewrite Hpush. eexists. split; [done|]. split; [|eauto].
  assert ((gq ++ [p]) ++ work' ++ crea' ≡ₚ gq ++ work ++ crea) as Hperm by (rewrite Hp; solve_Permutation).
  apply (inv_mq s w' R gq _ qs _ held work _ crea crea' bufs bufs resv Hi Hw); rewrite ?Hperm; try done.
  - intros q b Hb. unfold scheduled. rewrite Hperm. by apply co_sched.
  - intros q. rewrite Hperm. auto.
  - eauto.
  - eauto.
  - apply Hi.
Qed.

(** The worker that has a mailbox takes its oldest message, which it then owns;
    when there is none the mailbox is idle and no longer in its hands. *)
Lemma inv_pop s R gq qs held work crea bufs resv p a :
  inv s R gq qs held (p :: work) crea bufs resv -> qs !! p = Some a -> a_release a = 0 ->
  (forall c x, n_ctx s !! c = Some x -> reg_ctx R !! cx_handle x = Some c ->
    cx_init x = false -> cx_queue x ∈ crea) ->
  exists s', mq_call (skynet_mq_pop p) s = Some (head (a_msgs a), s') /\ (exists w', s' = set_mq w' s) /\
    match a_msgs a with
    | [] => inv s' R gq (<[p := a_set_msgs a [] 0]> qs) held work crea bufs resv
    | m :: ms => inv s' R gq (<[p := a_set_msgs a ms MQ_IN_GLOBAL]> qs) held (p :: work) crea
        (owned (msg_data m) ++ bufs) resv
    end.
Proof.
  intros Hi Ha Hr Hinit. pose proof (iv_core _ _ _ _ _ _ _ _ _ Hi) as [].
  destruct (co_sched p a Ha) as (Hg & Hin & Hsch).
  assert (p ∈ gq ++ (p :: work) ++ crea) as Hpin by set_solver.
  specialize (Hsch Hr Hpin).
  destruct (mq_pop_spec (n_mq s) gq qs p a co_world Ha) as (w' & Hpop & _ & Hw).
  unfold mq_call. rewrite Hpop. eexists. split; [done|]. split; [eauto|].
  destruct (a_msgs a) as [|m ms] eqn:Hms; simpl in Hw.
  - assert (gq ++ (p :: work) ++ crea ≡ₚ p :: gq ++ work ++ crea) as Hperm by solve_Permutation.
    pose proof co_nodup as Hnd. rewrite Hperm in Hnd. apply NoDup_cons in Hnd as [Hni Hnd].
    apply (inv_mq s w' R gq _ qs _ held (p :: work) _ crea crea bufs bufs resv Hi Hw); try done.
    + intros q b [[<- <-]|[Hne Hb]]%lookup_insert_Some; unfold scheduled; simpl.
      * split_and!; [auto|by right|done].
      * destruct (co_sched q b Hb) as (? & Hq & Hs). rewrite Hperm, elem_of_cons in Hq, Hs.
        split_and!; [done| |auto]. destruct Hq as [[?|?]|?]; [congruence|auto|auto].
    + intros q Hq. destruct (decide (p = q)) as [<-|]; [rewrite lookup_insert_eq; eauto|].
      rewrite lookup_insert_ne by done. apply co_out. rewrite Hperm. by apply elem_of_cons; right.
    + intros q b Hb Hbr. destruct (decide (p = q)) as [<-|].
      * rewrite lookup_insert_eq. eexists. split; [done|]. simpl. split; congruence.
      * rewrite lookup_insert_ne by done. eauto.
    + intros q b [[<- <-]|[Hne Hb]]%lookup_insert_Some; eauto.
    + rewrite (ptrs_same_msgs qs p a); [apply Hi|done|by rewrite Hms].
    + intros q. by rewrite (ptrs_same_msgs qs p a).
  - rewrite Hsch in Hw.
    assert (ptrs (<[p := a_set_msgs a ms MQ_IN_GLOBAL]> qs) ++ owned (msg_data m) ++ bufs ≡ₚ ptrs qs ++ bufs) as Hperm.
    { rewrite ptrs_insert, (ptrs_delete qs p a Ha), Hms, msg_ptrs_cons. simpl. solve_Permutation. }
    apply (inv_mq s w' R gq _ qs _ held (p :: work) _ crea crea bufs _ resv Hi Hw); try done.
    + intros q b [[<- <-]|[Hne Hb]]%lookup_insert_Some; [|by apply co_sched].
      split_and!; simpl; [auto|by left|done].
    + intros q Hq. destruct (decide (p = q)) as [<-|]; [rewrite lookup_insert_eq; eauto|].
      rewrite lookup_insert_ne by done. by apply co_out.
    + intros q b Hb Hbr. destruct (decide (p = q)) as [<-|].
      * rewrite lookup_insert_eq. eexists. split; [done|]. simpl. split; congruence.
      * rewrite lookup_insert_ne by done. eauto.
    + intros q b [[<- <-]|[Hne Hb]]%lookup_insert_Some; eauto.
    + rewrite Hperm. apply Hi.
    + intros q. by rewrite Hperm.
Qed.

Lemma inv_overload s R gq qs held work crea bufs resv p a :
  inv s R gq qs held work crea bufs resv -> qs !! p = Some a ->
  exists o s', mq_call (skynet_mq_overload p) s = Some (o, s') /\
    inv s' R gq qs held work crea bufs resv /\ exists w', s' = set_mq w' s.
Proof.
  intros Hi Ha. pose proof (iv_core _ _ _ _ _ _ _ _ _ Hi) as [].
  destruct (mq_overload_spec (n_mq s) gq qs p a co_world Ha) as (o & w' & Ho & Hw & _).
  unfold mq_call. rewrite Ho. eexists _, _. split; [done|]. split; [|eauto].
  apply (inv_mq s w' R gq gq qs qs held work work crea crea bufs bufs resv Hi Hw); try done; try apply Hi; eauto.
Qed.

Lemma inv_length s R gq qs held work crea bufs resv p a :
  inv s R gq qs held work crea bufs resv -> qs !! p = Some a ->
  skynet_mq_length p (n_mq s) = Some (zlen (a_msgs a)) /\ skynet_mq_handle p (n_mq s) = Some (a_handle a).
Proof.
  intros Hi Ha. pose proof (co_world _ _ _ _ (iv_core _ _ _ _ _ _ _ _ _ Hi)) as Hw. split.
  - by eapply mq_length_spec.
  - destruct (world_rep_lookup _ _ _ _ _ Hw Ha) as (q & Hq & _ & Hh & _).
    unfold skynet_mq_handle. rewrite Hq. simpl. congruence.
Qed.

(** ** Memory *)

Lemma inv_malloc s R gq qs held work crea bufs resv b :
  inv s R gq qs held work crea bufs resv ->
  exists s', malloc b s = Some (n_brk s, s') /\ n_mem s !! n_brk s = None /\ n_brk s <> 0 /\
    s' = set_brk (n_brk s + 1) (set_mem (<[n_brk s := b]> (n_mem s)) s) /\
    inv s' R gq qs held work crea (n_brk s :: bufs) resv.
Proof.
  intros Hi. pose proof Hi as []. eexists. split; [done|].
  assert (n_mem s !! n_brk s = None) as Hfresh.
  { destruct (n_mem s !! n_brk s) eqn:E; [|done]. exfalso.
    assert (0 < n_brk s < n_brk s) by (apply iv_membrk; eauto). lia. }
  split_and!; [done|lia|done|].
  apply (inv_ext s _ R gq qs held work crea bufs _ resv); try done; simpl; try lia.
  - assert (ptrs qs ++ n_brk s :: bufs ≡ₚ n_brk s :: ptrs qs ++ bufs) as -> by solve_Permutation.
    apply NoDup_cons. split; [|done]. intros [? Hal]%iv_alloc. congruence.
  - intros p Hp. apply lookup_insert_is_Some'. assert (p = n_brk s \/ p ∈ ptrs qs ++ bufs) as [->|Hp'] by set_solver.
    + by left.
    + right. by apply iv_alloc.
  - intros p [<-|Hp]%lookup_insert_is_Some'; [lia|]. specialize (iv_membrk p Hp). lia.
Qed.

Lemma inv_free s R gq qs held work crea bufs resv p :
  inv s R gq qs held work crea (owned p ++ bufs) resv ->
  exists s', skynet_free p s = Some (tt, s') /\ s' = set_mem (delete p (n_mem s)) s /\
    inv s' R gq qs held work crea bufs resv.
Proof.
  unfold skynet_free, owned. intros Hi. pose proof Hi as [].
  destruct (Z.eqb_spec p 0) as [Hp0|Hne].
  { subst p. exists s. assert (n_mem s !! 0 = None) as H0'.
    { destruct (n_mem s !! 0) eqn:E; [|done]. assert (0 < 0 < n_brk s) by (apply iv_membrk; eauto). lia. }
    split; [done|]. split; [|done]. rewrite delete_id by done. by destruct s. }
  destruct (iv_alloc p) as [b Hb]; [set_solver|]. unfold steps. rewrite Hb. simpl.
  eexists. split; [done|]. split; [done|].
  assert (ptrs qs ++ [p] ++ bufs ≡ₚ p :: ptrs qs ++ bufs) as Hperm by solve_Permutation.
  rewrite Hperm in iv_ptrs. apply NoDup_cons in iv_ptrs as [Hni Hnd].
  apply (inv_ext s _ R gq qs held work crea ([p] ++ bufs) _ resv); try done; simpl; try lia.
  - intros q Hq. rewrite lookup_delete_ne by (by intros <-). apply iv_alloc. rewrite Hperm. by right.
  - intros q [? [_ Hq]%lookup_delete_Some]. eauto.
Qed.

(** ** Delivery *)

Lemma inv_remote_test s R gq qs held work crea bufs resv h :
  inv s R gq qs held work crea bufs resv ->
  skynet_harbor_message_isremote h s =
    Some (negb (Z.ldiff h HANDLE_MASK =? n_HARBOR s) && negb (Z.ldiff h HANDLE_MASK =? 0), s).
Proof.
  intros []. unfold skynet_harbor_message_isremote, bind, gets, assert_, lift.
  destruct (tb_harbor _ _ (rr_table _ _ iv_reg)) as (b & Hb & Hharb). simpl in Hharb.
  destruct (Z.eqb_spec (n_HARBOR s) HARBOR_UNSET) as [He|]; [|done].
  rewrite iv_harbor, Hharb in He. unfold HARBOR_UNSET in He. lia.
Qed.

Lemma cx_ref_eta x : cx_set_ref (cx_ref x) x = x.
Proof. by destruct x. Qed.

(** A push by handle: to the mailbox of the registered context, or nowhere. *)
Lemma inv_context_push s R gq qs held work crea bufs resv h m :
  inv s R gq qs held work crea (owned (msg_data m) ++ bufs) resv ->
  match reg_ctx R !! h with
  | None => skynet_context_push h m s = Some (-1, s)
  | Some c => exists x a w', n_ctx s !! c = Some x /\ qs !! cx_queue x = Some a /\
      a_handle a = h /\ a_release a = 0 /\ skynet_context_push h m s = Some (0, set_mq w' s) /\
      inv (set_mq w' s) R (pushed_gq gq (cx_queue x) a) (pushed qs (cx_queue x) a m) held work crea bufs resv
  end.
Proof.
  intros Hi. unfold skynet_context_push. destruct (reg_ctx R !! h) as [c|] eqn:Hc.
  2: { by mrun (inv_grab_none _ _ _ _ _ _ _ _ _ _ Hi Hc). }
  destruct (inv_grab _ _ _ _ _ _ _ _ _ h c Hi Hc) as (x & Hx & Hh & Hgrab & Hi1). mrun Hgrab.
  set (s1 := set_ctx _ s) in *.
  destruct (Z.eqb_spec c 0) as [->|_]; [by apply (reg_ctx_nonzero s R h 0) in Hc; [|apply Hi]|].
  destruct (inv_queue _ _ _ _ _ _ _ _ _ c x Hi Hx) as (a & Ha & Hr & Hah).
  destruct (inv_push s R gq qs held work crea bufs resv (cx_queue x) a m Hi Ha Hr) as (s2 & Hpush & Hi2 & w' & ->).
  destruct (inv_push s1 R gq qs (c :: held) work crea bufs resv (cx_queue x) a m Hi1 Ha Hr)
    as (s3 & Hpush3 & Hi3 & w3 & ->).
  exists x, a, w'. split_and!; try done; [congruence|].
  rewrite (bind_deref c _ s1 _ (lookup_insert_eq _ _ _)). simpl. unfold bind at 1. unfold mq_step in Hpush, Hpush3 |- *. simpl in Hpush3 |- *.
  destruct (skynet_mq_push (cx_queue x) m (n_mq s)) as [w|]; [|done].
  injection Hpush as <-. injection Hpush3 as <-.
  set (x1 := cx_set_ref (cx_ref x + 1) x) in *.
  destruct (context_release_spec (set_mq w s1) (pushed_gq gq (cx_queue x) a) (pushed qs (cx_queue x) a m)
    (work ++ crea) c x1) as (s4 & Hrel & _ & Hcase); [apply Hi3|apply lookup_insert_eq|exact (proj1 (iv_ctx _ _ _ _ _ _ _ _ _ Hi c x Hx))|].
  destruct (iv_ctx _ _ _ _ _ _ _ _ _ Hi c x Hx) as (_ & Hpos & _).
  unfold bind. rewrite Hrel. destruct (Z.eqb_spec (cx_ref x1) 1) as [He|_]; [simpl in He; lia|].
  destruct Hcase as [-> _]. unfold ret. do 2 f_equal. subst s1 x1. simpl.
  rewrite insert_insert_eq. replace (cx_ref x + 1 - 1) with (cx_ref x) by lia.
  change (cx_set_ref (cx_ref x) (cx_set_ref (cx_ref x + 1) x)) with (cx_set_ref (cx_ref x) x).
  rewrite cx_ref_eta, insert_id by done. by destruct s.
Qed.
End steps.
