(* ===== verification/Sending.v ===== *)
(** Sending a message: what becomes of it, of the block it points to and of the
    mailboxes, on every path of skynet_send, with the error messages and the
    session numbers it makes on the way. *)

From S2P Require Import Prelude Types CString Timer MessageQueue SkynetModule Handle Node Server NodeInv NodeOps.
Local Open Scope Z_scope.

(** ** What a sender leaves alone *)

Record frame (s s' : node) : Prop := {
  fr_H : n_H s' = n_H s; fr_M : n_M s' = n_M s; fr_TI : n_TI s' = n_TI s; fr_mon : n_mon s' = n_mon s;
  fr_env : n_env s' = n_env s; fr_G : n_G s' = n_G s; fr_REMOTE : n_REMOTE s' = n_REMOTE s;
  fr_HARBOR : n_HARBOR s' = n_HARBOR s; fr_out : n_out s' = n_out s
}.

Lemma frame_refl s : frame s s.
Proof. by split. Qed.
Lemma frame_trans s1 s2 s3 : frame s1 s2 -> frame s2 s3 -> frame s1 s3.
Proof. intros [] []. split; congruence. Qed.

(** Blocks that were there still hold what they held. *)
Definition mem_kept (s s' : node) : Prop :=
  forall p, is_Some (n_mem s !! p) -> n_mem s' !! p = n_mem s !! p.

Lemma mem_kept_refl s : mem_kept s s.
Proof. done. Qed.
Lemma mem_kept_trans s1 s2 s3 : mem_kept s1 s2 -> mem_kept s2 s3 -> mem_kept s1 s3.
Proof. intros H1 H2 p Hp. rewrite H2, H1; [done|done|]. by rewrite H1. Qed.

(** Mailboxes only get longer at the end, and those marked for release do not
    change. *)
Definition grew (qs qs' : gmap Z aqueue) : Prop :=
  forall p a, qs !! p = Some a -> exists a', qs' !! p = Some a' /\ a_handle a' = a_handle a /\
    a_release a' = a_release a /\ a_msgs a `prefix_of` a_msgs a' /\ (a_release a <> 0 -> a' = a).

Lemma grew_refl qs : grew qs qs.
Proof. intros p a Ha. exists a. done. Qed.
Lemma grew_trans qs1 qs2 qs3 : grew qs1 qs2 -> grew qs2 qs3 -> grew qs1 qs3.
Proof.
  intros H1 H2 p a Ha. destruct (H1 p a Ha) as (b & Hb & E1 & E2 & P1 & R1).
  destruct (H2 p b Hb) as (c & Hc & E3 & E4 & P2 & R2). exists c. split_and!; [done|congruence..|by etrans|].
  intros Hr. rewrite R2, R1 by congruence. done.
Qed.
Lemma grew_pushed qs p a m : qs !! p = Some a -> a_release a = 0 -> grew qs (pushed qs p a m).
Proof.
  intros Ha Hr q b Hb. unfold pushed. destruct (decide (p = q)) as [<-|].
  - rewrite lookup_insert_eq. assert (b = a) as -> by congruence. eexists. split; [done|]. simpl.
    split_and!; [done..|by apply prefix_app_r|done].
  - rewrite lookup_insert_ne by done. exists b. done.
Qed.

Section send.
Context `{LawfulServices}.
Implicit Types (s : node) (R : registry) (gq held work crea bufs : list Z) (qs : gmap Z aqueue).

(** A change of what neither the invariant nor a sender looks at. *)
Lemma inv_same s s' R gq qs held work crea bufs resv :
  n_mq s' = n_mq s -> n_ctx s' = n_ctx s -> n_mem s' = n_mem s -> n_brk s' = n_brk s -> n_H s' = n_H s ->
  n_M s' = n_M s -> n_TI s' = n_TI s -> n_REMOTE s' = n_REMOTE s -> n_HARBOR s' = n_HARBOR s ->
  g_total (n_G s') = g_total (n_G s) ->
  inv s R gq qs held work crea bufs resv -> inv s' R gq qs held work crea bufs resv.
Proof.
  intros E1 E2 E3 E4 E5 E6 E7 E8 E9 E10 Hi. pose proof Hi as [].
  apply (inv_ext s s' R gq qs held work crea bufs bufs resv); rewrite ?E3, ?E4, ?E7; try done.
Qed.

(** ** Error messages *)

Lemma format_loop_spec fuel max text s R gq qs held work crea bufs resv :
  inv s R gq qs held work crea bufs resv -> 0 < max ->
  Z.of_nat (String.length text) < max * 2 ^ Z.of_nat (S fuel) ->
  exists p s', format_loop fuel max text s = Some (p, s') /\ p <> 0 /\
    inv s' R gq qs held work crea (p :: bufs) resv /\ frame s s' /\ n_ctx s' = n_ctx s /\ n_mq s' = n_mq s /\
    n_logger s' = n_logger s /\ mem_kept s s'.
Proof.
  revert max s. induction fuel as [|fuel IH]; intros max s Hi Hm Hl; simpl format_loop;
    set (b := Data _); destruct (inv_malloc _ _ _ _ _ _ _ _ _ b Hi) as (s1 & Hrun & Hfr & Hne & Hs1 & Hi1);
    mrun Hrun;
    assert (frame s s1 /\ n_ctx s1 = n_ctx s /\ n_mq s1 = n_mq s /\ n_logger s1 = n_logger s /\ mem_kept s s1)
      as (F1 & F2 & F3 & F4 & F5)
      by (rewrite Hs1; split_and!; [by split|done..|]; intros q [? Hq]; simpl;
          rewrite lookup_insert_ne by congruence; done);
    destruct (Z.ltb_spec (Z.of_nat (String.length text)) (max * 2)) as [Hlt|Hge];
    try (exists (n_brk s), s1; by split_and!).
  { change (2 ^ Z.of_nat 1) with 2 in Hl. lia. }
  assert (n_brk s :: bufs = owned (n_brk s) ++ bufs) as E.
  { unfold owned. by rewrite (proj2 (Z.eqb_neq _ _) Hne). }
  rewrite E in Hi1. destruct (inv_free _ _ _ _ _ _ _ _ _ _ Hi1) as (s2 & Hfree & Hs2 & Hi2). mrun Hfree.
  destruct (IH (max * 2) s2 Hi2) as (p & s3 & Hrun3 & Hp & Hi3 & G1 & G2 & G3 & G4 & G5); [lia| |].
  { rewrite Nat2Z.inj_succ, Z.pow_succ_r in Hl by lia. lia. }
  assert (frame s s2) as F6 by (rewrite Hs2; destruct F1; by split).
  exists p, s3. rewrite Hrun3. split_and!; try done.
  - by eapply frame_trans.
  - by rewrite G2, Hs2.
  - by rewrite G3, Hs2.
  - by rewrite G4, Hs2.
  - intros q Hq. rewrite G5.
    + rewrite Hs2. simpl. rewrite lookup_delete_ne; [by apply F5|]. intros <-. rewrite Hfr in Hq. by destruct Hq.
    + rewrite Hs2. simpl. rewrite lookup_delete_ne; [by rewrite F5|]. intros <-. rewrite Hfr in Hq. by destruct Hq.
Qed.

(** At most one message, to the logger; nothing else changes. *)
Lemma inv_error s R gq qs held work crea bufs resv context text :
  inv s R gq qs held work crea bufs resv -> context = 0 \/ is_Some (n_ctx s !! context) ->
  exists s' gq' qs', skynet_error context text s = Some (tt, s') /\
    inv s' R gq' qs' held work crea bufs resv /\ frame s s' /\ n_ctx s' = n_ctx s /\ mem_kept s s' /\ grew qs qs'.
Proof.
  intros Hi Hctx. unfold skynet_error. rewrite bind_gets.
  assert (exists s1, when (n_logger s =? 0)
      (h <- reads (skynet_handle_findname "logger") ;; modify (set_logger h))%node s = Some (tt, s1) /\
      inv s1 R gq qs held work crea bufs resv /\ frame s s1 /\ n_ctx s1 = n_ctx s /\ mem_kept s s1)
    as (s1 & Hrun1 & Hi1 & F1 & C1 & M1).
  { unfold when. destruct (n_logger s =? 0); [|exists s; split_and!; done || apply frame_refl].
    unfold bind, reads. rewrite (findname_rep _ _ _ (iv_reg _ _ _ _ _ _ _ _ _ Hi)).
    eexists. split; [done|]. split_and!; [|by split|done|done].
    by eapply inv_same; [..|exact Hi]. }
  mrun Hrun1. rewrite bind_gets. rewrite <- C1 in Hctx.
  destruct (n_logger s1 =? 0).
  { exists s1, gq, qs. split_and!; done || apply grew_refl. }
  set (len := Z.of_nat (String.length text)).
  assert (exists p s2, (if len <? LOG_MESSAGE_SIZE then malloc (Data (c_bytes text))
             else format_loop (String.length text) LOG_MESSAGE_SIZE text) s1 = Some (p, s2) /\ p <> 0 /\
      inv s2 R gq qs held work crea (p :: bufs) resv /\ frame s1 s2 /\ n_ctx s2 = n_ctx s1 /\
      n_logger s2 = n_logger s1 /\ mem_kept s1 s2)
    as (p & s2 & Hrun2 & Hp & Hi2 & F2 & C2 & L2 & M2).
  { destruct (len <? LOG_MESSAGE_SIZE).
    - destruct (inv_malloc _ _ _ _ _ _ _ _ _ (Data (c_bytes text)) Hi1) as (s2 & Hrun & Hfr & Hne & Hs2 & Hi2).
      exists (n_brk s1), s2. rewrite Hs2. split_and!; try done; [by rewrite <- Hs2|].
      intros q [? Hq]. simpl. rewrite lookup_insert_ne by congruence. done.
    - destruct (format_loop_spec (String.length text) LOG_MESSAGE_SIZE text s1 R gq qs held work crea bufs resv Hi1)
        as (p & s2 & ? & ? & ? & ? & ? & ? & ? & ?); [done| |exists p, s2; by split_and!].
      pose proof (pow2_ge_nat (S (String.length text))). unfold LOG_MESSAGE_SIZE. lia. }
  mrun Hrun2. rewrite <- C2 in Hctx.
  assert (exists src, (if context =? 0 then ret 0 else skynet_context_handle context) s2 = Some (src, s2)) as (src & Hsrc).
  { destruct (Z.eqb_spec context 0); [by exists 0|]. destruct Hctx as [|[x Hx]]; [done|].
    exists (cx_handle x). unfold skynet_context_handle. by rewrite (bind_deref _ _ _ _ Hx). }
  mrun Hsrc. set (m := Msg src 0 p (tag_sz len PTYPE_TEXT)).
  assert (p :: bufs = owned (msg_data m) ++ bufs) as E.
  { unfold owned. simpl. by rewrite (proj2 (Z.eqb_neq _ _) Hp). }
  rewrite E in Hi2. pose proof (inv_context_push _ _ _ _ _ _ _ _ _ (n_logger s1) m Hi2) as Hpush.
  pose proof (frame_trans _ _ _ F1 F2) as F12. pose proof (mem_kept_trans _ _ _ M1 M2) as M12.
  destruct (reg_ctx R !! n_logger s1) as [c|].
  - destruct Hpush as (x & a & w' & Hx & Ha & _ & Hrl & Hrun & Hi3). mrun Hrun.
    eexists _, _, _. split; [done|]. split; [exact Hi3|]. simpl. rewrite C2, C1.
    split_and!; [destruct F12; by split|done|done|by apply grew_pushed].
  - mrun Hpush. exists s2, gq, qs. split; [done|]. split; [by eapply inv_forget|].
    split_and!; [done|congruence|done|apply grew_refl].
Qed.

(** ** Session numbers and arguments *)

(** The session number after [id], always a positive int. *)
Definition next_session (id : Z) : Z := let v := i32 (id + 1) in if v <=? 0 then 1 else v.

Lemma next_session_positive id : 1 <= next_session id < 2 ^ 31.
Proof.
  unfold next_session. pose proof (sgn_range 32 (id + 1) ltac:(lia)) as Hr. unfold i32.
  destruct (Z.leb_spec (sgn 32 (id + 1)) 0); [lia|]. change (32 - 1) with 31 in Hr. lia.
Qed.

Lemma newsession_spec s R gq qs held work crea bufs resv context x :
  inv s R gq qs held work crea bufs resv -> n_ctx s !! context = Some x ->
  exists s', skynet_context_newsession context s = Some (next_session (cx_session_id x), s') /\
    s' = set_ctx (<[context := cx_set_session_id (next_session (cx_session_id x)) x]> (n_ctx s)) s /\
    inv s' R gq qs held work crea bufs resv.
Proof.
  intros Hi Hx. unfold skynet_context_newsession, update, steps. unfold bind at 1. rewrite Hx. simpl.
  set (s1 := set_ctx _ s). rewrite (bind_deref context _ s1 _ (lookup_insert_eq _ _ _)). simpl.
  unfold next_session. destruct (Z.leb_spec (i32 (cx_session_id x + 1)) 0).
  - unfold bind. simpl. rewrite lookup_insert_eq. simpl. rewrite insert_insert_eq.
    eexists. split; [done|]. split; [done|]. by apply (inv_field s R gq qs held work crea bufs resv context x).
  - eexists. split; [done|]. split; [done|]. by apply (inv_field s R gq qs held work crea bufs resv context x).
Qed.

(** The call of a sender is in order: its context is allocated, or it is NULL
    and the call needs nothing of it; the size is a [size_t]; data that is not
    copied belongs to the caller, data that is copied can be read. *)
Definition alloc_session (type : Z) : bool := negb (Z.land type PTYPE_TAG_ALLOCSESSION =? 0).
Record sends (s : node) (context source type session data sz : Z) : Prop := {
  sd_context : is_Some (n_ctx s !! context) \/ context = 0 /\ source <> 0 /\ alloc_session type = false;
  sd_session : alloc_session type = true -> session = 0;
  sd_size : is_u64 sz;
  sd_data : dontcopy type = false -> data <> 0 -> too_large sz = false ->
    exists l, n_mem s !! data = Some (Data l) /\ sz <= zlen l
}.
(** What the caller hands over. *)
Definition given (type data : Z) : list Z := if dontcopy type then owned data else [].

Definition sent_session (s : node) (context type session : Z) : Z :=
  if alloc_session type then default 0 (next_session ∘ cx_session_id <$> n_ctx s !! context) else session.
Definition sent_source (s : node) (context source : Z) : Z :=
  if source =? 0 then default 0 (cx_handle <$> n_ctx s !! context) else source.
(** The block of the message: the caller's own, or a fresh copy of its bytes with
    a terminator. *)
Definition sent_data (s s' : node) (type data sz d : Z) : Prop :=
  if dontcopy type || (data =? 0) then d = data
  else n_mem s !! d = None /\ d <> 0 /\ exists l, n_mem s !! data = Some (Data l) /\
    n_mem s' !! d = Some (Data (take (Z.to_nat sz) l ++ [Some 0])).

(** The contexts after a send: the sender may have a new session number. *)
Definition ctx_after (s : node) (context type : Z) : gmap Z skynet_context :=
  match n_ctx s !! context with
  | Some x => if alloc_session type
              then <[context := cx_set_session_id (next_session (cx_session_id x)) x]> (n_ctx s) else n_ctx s
  | None => n_ctx s
  end.

Lemma ctx_after_handle s context type c :
  (cx_handle <$> ctx_after s context type !! c) = (cx_handle <$> n_ctx s !! c) /\
  (cx_queue <$> ctx_after s context type !! c) = (cx_queue <$> n_ctx s !! c).
Proof.
  unfold ctx_after. destruct (n_ctx s !! context) as [x|] eqn:Hx; [|done].
  destruct (alloc_session type); [|done]. destruct (decide (context = c)) as [<-|].
  - by rewrite lookup_insert_eq, Hx.
  - by rewrite lookup_insert_ne.
Qed.

Lemma filter_args_spec s R gq qs held work crea bufs resv context source type session data sz :
  inv s R gq qs held work crea (given type data ++ bufs) resv ->
  sends s context source type session data sz -> too_large sz = false ->
  exists d s', _filter_args context type session data sz s =
      Some ((sent_session s context type session, d, tag_sz sz (Z.land type 255)), s') /\
    inv s' R gq qs held work crea (owned d ++ bufs) resv /\ frame s s' /\ n_mq s' = n_mq s /\
    n_ctx s' = ctx_after s context type /\ n_logger s' = n_logger s /\ mem_kept s s' /\
    sent_data s s' type data sz d.
Proof.
  intros Hi [Hctx Hses Hsz Hdata] Hfit. unfold _filter_args. fold (alloc_session type).
  assert (exists s1, (if alloc_session type then (assert_ (session =? 0) ;;; skynet_context_newsession context)%node
      else ret session) s = Some (sent_session s context type session, s1) /\
      inv s1 R gq qs held work crea (given type data ++ bufs) resv /\ frame s s1 /\ n_mq s1 = n_mq s /\
      n_ctx s1 = ctx_after s context type /\ n_logger s1 = n_logger s /\ n_mem s1 = n_mem s /\ n_brk s1 = n_brk s)
    as (s1 & Hrun1 & Hi1 & F1 & Q1 & C1 & L1 & M1 & B1).
  { unfold sent_session, ctx_after. destruct (alloc_session type).
    - rewrite Hses by done. change (assert_ (0 =? 0)) with (ret tt). rewrite bind_ret.
      destruct Hctx as [[x Hx]|(_ & _ & ?)]; [|done]. rewrite Hx.
      destruct (newsession_spec _ _ _ _ _ _ _ _ _ context x Hi Hx) as (s1 & Hrun & -> & Hi1).
      rewrite Hrun. eexists. split; [done|]. split; [done|]. by split_and!.
    - exists s. split; [done|]. split; [done|]. split_and!; try done. by destruct (n_ctx s !! context). }
  mrun Hrun1. unfold sent_data, given, dontcopy in *.
  destruct (Z.eqb_spec (Z.land type PTYPE_TAG_DONTCOPY) 0) as [Hdc|Hdc]; simpl in *.
  - destruct (Z.eqb_spec data 0) as [->|Hd0]; simpl.
    { rewrite bind_ret. exists 0, s1. split; [done|]. split_and!; try done.
      intros p Hp. by rewrite M1. }
    destruct Hdata as (l & Hl & Hlen); [done..|]. unfold copy_data. rewrite bind_assoc.
    assert (reads (fun s => match n_mem s !! data with Some (Data l) => Some l | _ => None end) s1 = Some (l, s1)) as Hrd.
    { unfold reads. by rewrite M1, Hl. }
    mrun Hrd. rewrite bind_assoc.
    assert (assert_ (sz <=? zlen l) s1 = Some (tt, s1)) as Has by (unfold assert_; by rewrite (proj2 (Z.leb_le _ _) Hlen)).
    mrun Has. set (b := Data _).
    destruct (inv_malloc _ _ _ _ _ _ _ _ _ b Hi1) as (s2 & Hrun & Hfr & Hne & Hs2 & Hi2). mrun Hrun.
    rewrite B1, M1 in Hfr. exists (n_brk s1), s2. split; [done|].
    assert (owned (n_brk s1) = [n_brk s1]) as -> by (unfold owned; by rewrite (proj2 (Z.eqb_neq _ _) Hne)).
    split; [exact Hi2|]. rewrite Hs2, B1. simpl. split_and!; try done.
    + destruct F1. by split.
    + intros p [? Hp]. simpl. rewrite lookup_insert_ne by congruence. by rewrite M1.
    + congruence.
    + exists l. split; [done|]. by rewrite lookup_insert_eq.
  - rewrite bind_ret. exists data, s1. split; [done|]. split_and!; try done. intros p Hp. by rewrite M1.
Qed.

(** ** To another node *)

(** The mailbox and the context of the harbor service. *)
Lemma inv_harbor_send s R gq qs held work crea bufs resv rmsg r source session :
  inv s R gq qs held work crea (rmsg :: bufs) resv -> n_mem s !! rmsg = Some (Rmsg r) ->
  n_REMOTE s <> 0 -> invalid_type (rm_type r) = true ->
  exists x a w', n_ctx s !! n_REMOTE s = Some x /\ qs !! cx_queue x = Some a /\
    skynet_harbor_send rmsg source session s = Some (tt, set_mq w' s) /\
    inv (set_mq w' s) R (pushed_gq gq (cx_queue x) a)
      (pushed qs (cx_queue x) a (Msg source session rmsg (tag_sz SIZEOF_REMOTE_MESSAGE PTYPE_SYSTEM)))
      held work crea bufs resv.
Proof.
  intros Hi Hm Hrem Htype. pose proof Hi as [].
  destruct (iv_remote Hrem) as [x Hx].
  destruct (inv_queue _ _ _ _ _ _ _ _ _ _ x Hi Hx) as (a & Ha & Hr & _).
  set (m := Msg source session rmsg (tag_sz SIZEOF_REMOTE_MESSAGE PTYPE_SYSTEM)).
  assert (rmsg <> 0) as Hne by (assert (0 < rmsg < n_brk s) by eauto; lia).
  assert (rmsg :: bufs = owned (msg_data m) ++ bufs) as E.
  { unfold owned. simpl. by rewrite (proj2 (Z.eqb_neq _ _) Hne). }
  rewrite E in Hi. destruct (inv_push _ _ _ _ _ _ _ _ _ _ a m Hi Ha Hr) as (s' & Hrun & Hi' & w' & ->).
  exists x, a, w'. split_and!; try done. unfold skynet_harbor_send.
  assert (reads (fun s => match n_mem s !! rmsg with Some (Rmsg r) => Some r | _ => None end) s = Some (r, s)) as Hrd
    by (unfold reads; by rewrite Hm).
  mrun Hrd. rewrite bind_gets, Htype, (proj2 (Z.eqb_neq _ _) Hrem). simpl.
  change (assert_ true) with (ret tt). rewrite bind_ret. unfold skynet_context_send.
  by rewrite (bind_deref _ _ _ _ Hx).
Qed.

Definition is_remote (s : node) (h : Z) : bool :=
  negb (Z.ldiff h HANDLE_MASK =? n_HARBOR s) && negb (Z.ldiff h HANDLE_MASK =? 0).

(** ** The outcome of a send *)

(** The caller's block is gone, and every other block is as it was. *)
Definition discarded (s s' : node) (type data : Z) : Prop :=
  (dontcopy type = true -> n_mem s' !! data = None) /\
  forall p, is_Some (n_mem s !! p) -> dontcopy type = false \/ p <> data -> n_mem s' !! p = n_mem s !! p.

Inductive outcome_of_send (s : node) (R : registry) (qs : gmap Z aqueue)
    (context source destination type session data sz : Z) (r : Z) (s' : node) (qs' : gmap Z aqueue) : Prop :=
  | SentTooLarge :
      too_large sz = true -> r = -2 -> discarded s s' type data -> grew qs qs' -> n_ctx s' = n_ctx s ->
      outcome_of_send s R qs context source destination type session data sz r s' qs'
  | SentNowhere :
      too_large sz = false -> destination = 0 ->
      r = (if data =? 0 then sent_session s context type session else -1) ->
      discarded s s' type data -> grew qs qs' ->
      outcome_of_send s R qs context source destination type session data sz r s' qs'
  | SentRemote x a d rmsg :
      too_large sz = false -> destination <> 0 -> is_remote s destination = true ->
      r = sent_session s context type session -> sent_data s s' type data sz d ->
      n_mem s' !! rmsg = Some (Rmsg (Remote None destination d sz (Z.land type 255))) ->
      n_ctx s !! n_REMOTE s = Some x -> qs !! cx_queue x = Some a ->
      qs' = pushed qs (cx_queue x) a (Msg (sent_source s context source) r rmsg
              (tag_sz SIZEOF_REMOTE_MESSAGE PTYPE_SYSTEM)) ->
      outcome_of_send s R qs context source destination type session data sz r s' qs'
  | SentLocal c x a d :
      too_large sz = false -> destination <> 0 -> is_remote s destination = false ->
      reg_ctx R !! destination = Some c -> n_ctx s !! c = Some x -> qs !! cx_queue x = Some a ->
      a_handle a = destination -> r = sent_session s context type session ->
      sent_data s s' type data sz d ->
      qs' = pushed qs (cx_queue x) a (Msg (sent_source s context source) r d (tag_sz sz (Z.land type 255))) ->
      outcome_of_send s R qs context source destination type session data sz r s' qs'
  | SentLost :
      too_large sz = false -> destination <> 0 -> is_remote s destination = false ->
      reg_ctx R !! destination = None -> r = -1 -> qs' = qs -> discarded s s' type data ->
      outcome_of_send s R qs context source destination type session data sz r s' qs'.

Lemma ctx_after_found s context type c x :
  ctx_after s context type !! c = Some x ->
  exists y, n_ctx s !! c = Some y /\ cx_handle x = cx_handle y /\ cx_queue x = cx_queue y.
Proof.
  intros Hx. destruct (ctx_after_handle s context type c) as [E1 E2]. rewrite Hx in E1, E2.
  destruct (n_ctx s !! c) as [y|]; [|done]. simpl in *. exists y. split; [done|]. split; congruence.
Qed.

Lemma given_dontcopy type data : dontcopy type = true -> given type data = owned data.
Proof. unfold given. by intros ->. Qed.

(** Freeing what was to be sent leaves the blocks as [discarded] says. *)
Lemma free_sent s s1 s2 R gq qs held work crea bufs resv type data sz d :
  inv s R gq qs held work crea (given type data ++ bufs) resv ->
  mem_kept s s1 -> sent_data s s1 type data sz d -> s2 = set_mem (delete d (n_mem s1)) s1 ->
  discarded s s2 type data.
Proof.
  intros Hi Hk Hd ->. pose proof Hi as []. unfold sent_data in Hd. split; simpl.
  - intros Hdc. rewrite Hdc in Hd. simpl in Hd. subst d. apply lookup_delete_eq.
  - intros p Hp Hor. rewrite lookup_delete_ne; [by apply Hk|]. intros <-.
    destruct (dontcopy type) eqn:Hdc; simpl in Hd; [destruct Hor; done|].
    destruct (Z.eqb_spec data 0) as [->|].
    + subst d. assert (0 < 0 < n_brk s) by auto. lia.
    + destruct Hd as (Hn & _). rewrite Hn in Hp. by destruct Hp.
Qed.

Lemma sent_data_mono s s1 s2 type data sz d :
  sent_data s s1 type data sz d -> mem_kept s1 s2 -> sent_data s s2 type data sz d.
Proof.
  unfold sent_data. destruct (_ || _); [done|]. intros (? & ? & l & ? & Hl) Hk. split_and!; [done..|].
  exists l. split; [done|]. rewrite Hk; [done|by rewrite Hl].
Qed.

Lemma kept_discarded s s' R gq qs held work crea bufs resv type data :
  inv s' R gq qs held work crea bufs resv -> mem_kept s s' -> dontcopy type = false \/ data = 0 ->
  discarded s s' type data.
Proof.
  intros [] Hk Hor. split; [|by intros p Hp _; apply Hk]. intros Hd. destruct Hor as [Hno| ->]; [congruence|].
  destruct (n_mem s' !! 0) eqn:E; [|done]. assert (0 < 0 < n_brk s') by eauto. lia.
Qed.

Lemma sends_context s context source type session data sz :
  sends s context source type session data sz -> context = 0 \/ is_Some (n_ctx s !! context).
Proof. intros [[?|[? _]] _ _ _]; auto. Qed.

(** Freeing the caller's block when it was handed over. *)
Lemma when_free s R gq qs held work crea bufs resv type data :
  inv s R gq qs held work crea (given type data ++ bufs) resv ->
  exists s', when (dontcopy type) (skynet_free data) s = Some (tt, s') /\
    inv s' R gq qs held work crea bufs resv /\ frame s s' /\ n_ctx s' = n_ctx s /\ n_mq s' = n_mq s /\
    s' = set_mem (if dontcopy type then delete data (n_mem s) else n_mem s) s.
Proof.
  unfold given, when. intros Hi. destruct (dontcopy type).
  - destruct (inv_free _ _ _ _ _ _ _ _ _ _ Hi) as (s' & Hrun & -> & Hi'). eexists. split; [done|].
    split; [done|]. by split_and!.
  - exists s. split_and!; try done. by destruct s.
Qed.

Lemma source_spec s s1 context source type session data sz :
  sends s context source type session data sz -> n_ctx s1 = ctx_after s context type ->
  source_or_self context source s1 = Some (sent_source s context source, s1).
Proof.
  intros [Hctx _ _ _] HC. unfold source_or_self, sent_source. destruct (Z.eqb_spec source 0) as [E|]; [|done].
  destruct Hctx as [[x Hx]|(_ & Hne & _)]; [|done]. destruct (ctx_after_handle s context type context) as [E1 _].
  rewrite Hx in *. simpl in E1. rewrite <- HC in E1. destruct (n_ctx s1 !! context) as [y|] eqn:Hy; [|done].
  unfold skynet_context_handle. rewrite (bind_deref _ _ _ _ Hy). simpl in *. unfold ret. congruence.
Qed.

Lemma tag_fits sz type :
  is_u64 sz -> too_large sz = false ->
  Z.land (tag_sz sz (Z.land type 255)) MESSAGE_TYPE_MASK = sz /\
  Z.shiftr (tag_sz sz (Z.land type 255)) MESSAGE_TYPE_SHIFT = Z.land type 255.
Proof.
  intros Hsz Hfit. unfold too_large in Hfit. apply negb_false_iff, Z.eqb_eq in Hfit.
  apply size_fits_mask in Hfit; [|apply Hsz]. unfold is_u in Hsz.
  destruct (tag_sz_spec sz (Z.land type 255)) as (_ & ? & ?); [unfold is_u; lia| |done].
  rewrite land_255. apply (wrap_range 8). lia.
Qed.

(** The message to another node that a sender makes and passes to the harbor. *)
Lemma remote_step s1 R gq qs held work crea bufs resv name handle d sz type source session :
  inv s1 R gq qs held work crea (owned d ++ bufs) resv -> is_u64 sz -> too_large sz = false ->
  n_REMOTE s1 <> 0 -> invalid_type (Z.land type 255) = true ->
  exists rmsg s2 x a w', new_remote name handle d (tag_sz sz (Z.land type 255)) s1 = Some (rmsg, s2) /\
    n_ctx s1 !! n_REMOTE s1 = Some x /\ qs !! cx_queue x = Some a /\ frame s1 s2 /\ n_ctx s2 = n_ctx s1 /\
    skynet_harbor_send rmsg source session s2 = Some (tt, set_mq w' s2) /\
    n_mem s2 !! rmsg = Some (Rmsg (Remote name handle d sz (Z.land type 255))) /\ mem_kept s1 s2 /\
    inv (set_mq w' s2) R (pushed_gq gq (cx_queue x) a)
      (pushed qs (cx_queue x) a (Msg source session rmsg (tag_sz SIZEOF_REMOTE_MESSAGE PTYPE_SYSTEM)))
      held work crea bufs resv.
Proof.
  intros Hi Hsz Hfit Hrem Hty. destruct (tag_fits sz type Hsz Hfit) as [E1 E2].
  unfold new_remote. rewrite E1, E2. set (b := Rmsg _).
  destruct (inv_malloc _ _ _ _ _ _ _ _ _ b Hi) as (s2 & Hrun & Hfr & Hne & Hs2 & Hi2).
  assert (n_mem s2 !! n_brk s1 = Some b) as Hb by (rewrite Hs2; apply lookup_insert_eq).
  assert (frame s1 s2) as F by (rewrite Hs2; by split).
  assert (n_REMOTE s2 = n_REMOTE s1) as R2 by apply F. rewrite <- R2 in Hrem.
  destruct (inv_harbor_send _ _ _ _ _ _ _ _ _ _ _ source session Hi2 Hb Hrem Hty)
    as (x & a & w' & Hx & Ha & Hsend & Hi3).
  exists (n_brk s1), s2, x, a, w'. rewrite <- R2. assert (n_ctx s2 = n_ctx s1) as C2 by by rewrite Hs2.
  rewrite <- C2. split_and!; try done; try (by rewrite C2).
  - intros p [? Hp]. rewrite Hs2. simpl. by rewrite lookup_insert_ne by congruence.
  - eapply inv_forget. exact Hi3.
Qed.

Lemma send_full s R gq qs held work crea bufs resv context source destination type session data sz :
  inv s R gq qs held work crea (given type data ++ bufs) resv ->
  sends s context source type session data sz ->
  (is_remote s destination = true -> n_REMOTE s <> 0 /\ invalid_type (Z.land type 255) = true) ->
  exists r s' gq' qs', skynet_send context source destination type session data sz s = Some (r, s') /\
    inv s' R gq' qs' held work crea bufs resv /\ frame s s' /\
    (n_ctx s' = n_ctx s \/ n_ctx s' = ctx_after s context type) /\
    outcome_of_send s R qs context source destination type session data sz r s' qs'.
Proof.
  intros Hi Hs Hremote. pose proof (sends_context _ _ _ _ _ _ _ Hs) as Hctx. unfold skynet_send.
  destruct (too_large sz) eqn:Hfit.
  { destruct (inv_error _ _ _ _ _ _ _ _ _ context ("The message to " ++ fmt_x destination ++ " is too large") Hi Hctx)
      as (s1 & gq1 & qs1 & Hrun & Hi1 & F1 & C1 & M1 & G1). mrun Hrun.
    destruct (when_free _ _ _ _ _ _ _ _ _ _ _ Hi1) as (s2 & Hfree & Hi2 & F2 & C2 & _ & E2). mrun Hfree.
    eexists _, _, _, _. split; [done|]. split; [exact Hi2|]. split; [by eapply frame_trans|].
    split; [left; congruence|]. apply SentTooLarge; try done; [|congruence].
    destruct (dontcopy type) eqn:Hdc.
    - apply (free_sent s s1 s2 R gq qs held work crea bufs resv type data sz data Hi M1); [|done].
      unfold sent_data. by rewrite Hdc.
    - apply (kept_discarded s s2 R gq1 qs1 held work crea bufs resv); [done| |by left].
      intros p Hp. rewrite E2. simpl. by apply M1. }
  destruct (filter_args_spec _ _ _ _ _ _ _ _ _ context source type session data sz Hi Hs Hfit)
    as (d & s1 & Hrun & Hi1 & F1 & Q1 & C1 & L1 & M1 & Hd). mrun Hrun. simpl.
  mrun (source_spec _ _ _ _ _ _ _ _ Hs C1).
  assert (context = 0 \/ is_Some (n_ctx s1 !! context)) as Hctx1.
  { destruct Hctx as [|[x Hx]]; [by left|]. right. rewrite C1.
    destruct (ctx_after_handle s context type context) as [E _]. rewrite Hx in E.
    destruct (ctx_after s context type !! context); [eauto|done]. }
  destruct (Z.eqb_spec destination 0) as [->|Hdest].
  { destruct (Z.eqb_spec d 0) as [->|Hd0]; simpl.
    - assert (data = 0) as ->.
      { unfold sent_data in Hd. destruct (dontcopy type); [done|]. simpl in Hd.
        destruct (Z.eqb_spec data 0); [done|]. by destruct Hd as (_ & ? & _). }
      eexists _, s1, _, _. split; [done|]. split; [exact Hi1|]. split; [done|].
      split; [by right|]. apply SentNowhere; try done; [|apply grew_refl].
      eapply kept_discarded; [exact Hi1|done|by right].
    - assert (data <> 0) as Hdata.
      { intros ->. unfold sent_data in Hd. rewrite orb_true_r in Hd. done. }
      destruct (inv_error _ _ _ _ _ _ _ _ _ context "Destination address can't be 0" Hi1 Hctx1)
        as (s2 & gq2 & qs2 & Hrun2 & Hi2 & F2 & C2 & M2 & G2). mrun Hrun2.
      destruct (inv_free _ _ _ _ _ _ _ _ _ _ Hi2) as (s3 & Hfree & E3 & Hi3). mrun Hfree.
      eexists _, s3, _, _. split; [done|]. split; [exact Hi3|].
      split; [rewrite E3; destruct F1, F2; split; simpl; congruence|].
      split; [right; rewrite E3; simpl; congruence|].
      apply SentNowhere; try done; [by rewrite (proj2 (Z.eqb_neq _ _) Hdata)|].
      pose proof (mem_kept_trans _ _ _ M1 M2) as M12.
      eapply (free_sent s s2 s3); [exact Hi|done|by eapply sent_data_mono|done]. }
  mrun (inv_remote_test _ _ _ _ _ _ _ _ _ destination Hi1). rewrite (fr_HARBOR _ _ F1).
  fold (is_remote s destination). destruct (is_remote s destination) eqn:Hrem.
  - destruct Hremote as [HR Hty]; [done|]. rewrite <- (fr_REMOTE _ _ F1) in HR.
    destruct (remote_step s1 R gq qs held work crea bufs resv None destination d sz type
      (sent_source s context source) (sent_session s context type session) Hi1 (sd_size _ _ _ _ _ _ _ Hs) Hfit HR Hty)
      as (rmsg & s2 & x & a & w' & Hnew & Hx & Ha & F2 & C2 & Hsend & Hr & M2 & Hi3).
    mrun Hnew. mrun Hsend. rewrite (fr_REMOTE _ _ F1), C1 in Hx.
    destruct (ctx_after_found _ _ _ _ _ Hx) as (y & Hy & _ & Eq). rewrite Eq in *.
    eexists _, _, _, _. split; [done|]. split; [exact Hi3|].
    split; [destruct F1, F2; split; simpl; congruence|].
    split; [right; simpl; congruence|]. apply (SentRemote _ _ _ _ _ _ _ _ _ _ _ _ _ y a d rmsg); try done.
    by eapply sent_data_mono.
  - set (m := Msg _ _ d _). pose proof (inv_context_push s1 R gq qs held work crea bufs resv destination m Hi1) as Hpush.
    destruct (reg_ctx R !! destination) as [c|] eqn:Hc.
    + destruct Hpush as (x & a & w' & Hx & Ha & Hh & _ & Hrun2 & Hi2). mrun Hrun2. simpl.
      rewrite C1 in Hx. destruct (ctx_after_found _ _ _ _ _ Hx) as (y & Hy & _ & Eq). rewrite Eq in *.
      eexists _, _, _, _. split; [done|]. split; [exact Hi2|]. split; [destruct F1; by split|].
      split; [by right|]. by apply (SentLocal _ _ _ _ _ _ _ _ _ _ _ _ _ c y a d).
    + mrun Hpush. simpl. destruct (inv_free _ _ _ _ _ _ _ _ _ _ Hi1) as (s2 & Hfree & E2 & Hi2). mrun Hfree.
      eexists _, s2, _, _. split; [done|]. split; [exact Hi2|].
      split; [rewrite E2; destruct F1; split; simpl; congruence|].
      split; [right; rewrite E2; simpl; congruence|]. apply SentLost; try done. by eapply free_sent.
Qed.
End send.
