(* ===== verification/Dispatching.v ===== *)
(** Releasing mailboxes, and what a dispatcher relies on: what service code may
    do to the node while it runs, and the dispatch of one message to it. *)

From S2P Require Import Prelude Types CString Timer MessageQueue SkynetModule Handle Node Server NodeInv NodeOps Sending.
Local Open Scope Z_scope.
Section dispatch.
Context `{LawfulServices}.
Implicit Types (s : node) (R : registry) (gq held work crea bufs : list Z) (qs : gmap Z aqueue).

(** ** Releasing a mailbox *)

Lemma outcome_grew s R gq qs held work crea bufs resv context source destination type session data sz r s' qs' :
  inv s R gq qs held work crea bufs resv ->
  outcome_of_send s R qs context source destination type session data sz r s' qs' -> grew qs qs'.
Proof.
  intros Hi [| |x a d rmsg _ _ _ _ _ _ Hx Ha ->|c x a d _ _ _ _ Hx Ha _ _ _ ->|]; try done.
  - destruct (inv_queue _ _ _ _ _ _ _ _ _ _ x Hi Hx) as (b & Hb & Hr & _). apply grew_pushed; [done|congruence].
  - destruct (inv_queue _ _ _ _ _ _ _ _ _ _ x Hi Hx) as (b & Hb & Hr & _). apply grew_pushed; [done|congruence].
  - subst. apply grew_refl.
Qed.

(** The report of a dropped message to its source. *)
Lemma drop_message_spec s R gq qs held work crea bufs resv handle msg :
  inv s R gq qs held work crea (owned (msg_data msg) ++ bufs) resv -> 0 < handle -> n_REMOTE s <> 0 ->
  exists s' gq' qs', drop_message handle msg s = Some (tt, s') /\ inv s' R gq' qs' held work crea bufs resv /\
    frame s s' /\ n_ctx s' = n_ctx s /\ grew qs qs'.
Proof.
  intros Hi Hh Hrem. unfold drop_message.
  destruct (inv_free _ _ _ _ _ _ _ _ _ _ Hi) as (s1 & Hrun & E1 & Hi1). mrun Hrun.
  rewrite (proj2 (Z.eqb_neq handle 0)) by lia. change (assert_ (negb false)) with (ret tt). rewrite bind_ret.
  destruct (send_full s1 R gq qs held work crea bufs resv 0 handle (msg_source msg) PTYPE_ERROR 0 0 0)
    as (r & s2 & gq2 & qs2 & Hrun2 & Hi2 & F2 & C2 & Hout).
  - done.
  - split; [right; split_and!; [done|lia|done]|done|by split|done].
  - rewrite E1. done.
  - mrun Hrun2. exists s2, gq2, qs2. split; [done|]. split; [done|].
    split; [rewrite E1 in F2; destruct F2; by split|]. split; [|by eapply outcome_grew].
    assert (n_ctx s !! 0 = None) as H0'.
    { destruct (n_ctx s !! 0) eqn:E; [|done]. assert (0 < 0 < n_brk s); [|lia].
      apply (co_brk _ _ _ _ (iv_core _ _ _ _ _ _ _ _ _ Hi)). eauto. }
    rewrite E1 in C2. unfold ctx_after in C2. simpl in C2. rewrite H0' in C2. by destruct C2.
Qed.

Section one_mailbox.
Variables (work crea work' crea' : list Z) (p : Z).
Hypothesis Hperm : work ++ crea ≡ₚ p :: work' ++ crea'.
Hypothesis Hcrea : forall q, q ∈ crea -> q = p \/ q ∈ crea'.

Lemma p_in_out gq : p ∈ gq ++ work ++ crea.
Proof. rewrite Hperm. set_solver. Qed.

Lemma inv_drop_pop s R gq qs held bufs resv a m ms :
  inv s R gq qs held work crea bufs resv -> qs !! p = Some a -> a_release a = 1 -> a_msgs a = m :: ms ->
  exists w', skynet_mq_pop p (n_mq s) = Some (Some m, w') /\
    inv (set_mq w' s) R gq (<[p := a_set_msgs a ms (a_in_global a)]> qs) held work crea (owned (msg_data m) ++ bufs) resv.
Proof.
  intros Hi Ha Hr Hms. pose proof (iv_core _ _ _ _ _ _ _ _ _ Hi) as [].
  destruct (mq_pop_spec (n_mq s) gq qs p a co_world Ha) as (w' & Hpop & _ & Hw).
  rewrite Hms in Hw, Hpop. exists w'. split; [done|].
  assert (ptrs (<[p := a_set_msgs a ms (a_in_global a)]> qs) ++ owned (msg_data m) ++ bufs ≡ₚ ptrs qs ++ bufs) as Hp.
  { rewrite ptrs_insert, (ptrs_delete qs p a Ha), Hms, msg_ptrs_cons. simpl. solve_Permutation. }
  apply (inv_mq s w' R gq _ qs _ held work _ crea crea bufs _ resv Hi Hw); try done.
  - intros q b [[<- <-]|[Hne Hb]]%lookup_insert_Some; [|by apply co_sched].
    destruct (co_sched p a Ha) as (? & _ & _). split_and!; simpl; [done|left; apply p_in_out|congruence].
  - intros q Hq. destruct (decide (p = q)) as [<-|]; [rewrite lookup_insert_eq; eauto|].
    rewrite lookup_insert_ne by done. by apply co_out.
  - intros q b Hb Hbr. rewrite lookup_insert_ne by congruence. eauto.
  - intros q b [[<- <-]|[Hne Hb]]%lookup_insert_Some; eauto.
  - apply Hi.
  - rewrite Hp. apply Hi.
  - intros q. by rewrite Hp.
Qed.

Lemma inv_drop_last s R gq qs held bufs resv a :
  inv s R gq qs held work crea bufs resv -> qs !! p = Some a -> a_release a = 1 -> a_msgs a = [] ->
  exists w1 w2, skynet_mq_pop p (n_mq s) = Some (None, w1) /\ _release p w1 = Some w2 /\
    inv (set_mq w2 s) R gq (delete p qs) held work' crea' bufs resv.
Proof.
  intros Hi Ha Hr Hms. pose proof (iv_core _ _ _ _ _ _ _ _ _ Hi) as [].
  assert (gq ++ work ++ crea ≡ₚ p :: gq ++ work' ++ crea') as Hperm' by (rewrite Hperm; solve_Permutation).
  pose proof co_nodup as Hnd. rewrite Hperm' in Hnd. apply NoDup_cons in Hnd as [Hni Hnd].
  destruct (mq_pop_spec (n_mq s) gq qs p a co_world Ha) as (w1 & Hpop & _ & Hw1).
  rewrite Hms in Hw1, Hpop. simpl in *.
  destruct (release_spec w1 gq _ p _ Hw1 (lookup_insert_eq _ _ _)) as (w2 & Hrel & Hw2 & _); [set_solver|].
  exists w1, w2. split; [done|]. split; [done|]. rewrite delete_insert_eq in Hw2.
  assert (ptrs qs ≡ₚ ptrs (delete p qs)) as Hp by (by rewrite (ptrs_delete qs p a Ha), Hms).
  apply (inv_mq s w2 R gq _ qs _ held work _ crea crea' bufs _ resv Hi Hw2); try done.
  - intros q b [Hne Hb]%lookup_delete_Some. destruct (co_sched q b Hb) as (? & Hq & Hs).
    rewrite Hperm', elem_of_cons in Hq, Hs. split_and!; [done| |auto].
    destruct Hq as [[?|?]|?]; [congruence|auto|auto].
  - intros q Hq. rewrite lookup_delete_ne by (intros <-; done). apply co_out. rewrite Hperm'. by right.
  - intros q b Hb Hbr. rewrite lookup_delete_ne by congruence. eauto.
  - intros q b [Hne Hb]%lookup_delete_Some. eauto.
  - intros c x Hx Hc Hin. destruct (Hcrea (cx_queue x)) as [Hq|]; [by eapply iv_init|..|done].
    destruct (inv_queue _ _ _ _ _ _ _ _ _ c x Hi Hx) as (b & Hb & Hbr & _). congruence.
  - rewrite <- Hp. apply Hi.
  - intros q. by rewrite <- Hp.
Qed.

Abbreviation dropper h := (fun msg s => match drop_message h msg s with Some (_, s') => Some s' | None => None end).

(** Everything in a mailbox that is marked for release is dropped, each message
    with a report to its source, and the mailbox is freed. *)
Lemma drop_queue_spec fuel s R gq qs held bufs resv a :
  inv s R gq qs held work crea bufs resv -> qs !! p = Some a -> a_release a = 1 -> n_REMOTE s <> 0 ->
  (length (a_msgs a) <= fuel)%nat ->
  exists s' gq' qs', _drop_queue (dropper (a_handle a)) fuel p s = Some s' /\
    inv s' R gq' qs' held work' crea' bufs resv /\ frame s s' /\ n_ctx s' = n_ctx s /\
    qs' !! p = None /\ grew (delete p qs) qs'.
Proof.
  revert s gq qs a. induction fuel as [|fuel IH]; intros s gq qs a Hi Ha Hr Hrem Hf;
    (destruct (a_msgs a) as [|m ms] eqn:Hms;
     [destruct (inv_drop_last _ _ _ _ _ _ _ a Hi Ha Hr Hms) as (w1 & w2 & Hpop & Hrel & Hi');
      simpl; rewrite Hpop; simpl; rewrite Hrel; simpl; eexists _, _, _; split; [done|]; split; [exact Hi'|];
      split_and!; [by split|done|apply lookup_delete_eq|apply grew_refl]|]); simpl in Hf; [lia|].
  destruct (inv_drop_pop _ _ _ _ _ _ _ a m ms Hi Ha Hr Hms) as (w1 & Hpop & Hi1). simpl. rewrite Hpop. simpl.
  assert (0 < a_handle a) as Hh by exact (proj1 (iv_handle _ _ _ _ _ _ _ _ _ Hi p a Ha)).
  destruct (drop_message_spec _ _ _ _ _ _ _ _ _ (a_handle a) m Hi1 Hh Hrem) as (s2 & gq2 & qs2 & -> & Hi2 & F2 & C2 & G2).
  simpl. destruct (G2 p _ (lookup_insert_eq _ _ _)) as (a2 & Ha2 & _ & _ & _ & E2).
  rewrite E2 in Ha2 by (simpl; congruence).
  destruct (IH s2 gq2 qs2 _ Hi2 Ha2) as (s3 & gq3 & qs3 & Hrun & Hi3 & F3 & C3 & Hn & G3); simpl; try done.
  { by rewrite (fr_REMOTE _ _ F2). } { lia. }
  simpl in Hrun. exists s3, gq3, qs3. split; [done|]. split; [done|].
  split; [destruct F2, F3; split; simpl in *; congruence|]. split; [simpl in *; congruence|]. split; [done|].
  eapply grew_trans; [|exact G3]. intros q b [Hne Hb]%lookup_delete_Some.
  destruct (G2 q b) as (b' & Hb' & ?); [by rewrite lookup_insert_ne|]. exists b'. by rewrite lookup_delete_ne.
Qed.

(** [skynet_mq_release]: a mailbox that is not marked yet goes back to the global
    queue, to be released by the worker that takes it next. *)
Lemma release_mailbox_spec s R gq qs held bufs resv a :
  inv s R gq qs held work crea bufs resv -> qs !! p = Some a -> n_REMOTE s <> 0 ->
  (a_release a = 0 -> forall c x, n_ctx s !! c = Some x -> reg_ctx R !! cx_handle x = Some c ->
    cx_init x = false -> cx_queue x ∈ crea') ->
  exists s' gq' qs', release_mailbox p (a_handle a) s = Some (tt, s') /\
    inv s' R gq' qs' held work' crea' bufs resv /\ frame s s' /\ n_ctx s' = n_ctx s /\
    (if a_release a =? 0 then gq' = gq ++ [p] /\ qs' = qs
     else qs' !! p = None /\ grew (delete p qs) qs').
Proof.
  intros Hi Ha Hrem Hinit.
  pose proof (proj2 (iv_handle _ _ _ _ _ _ _ _ _ Hi p a Ha)) as Hr01. unfold release_mailbox, steps, skynet_mq_release. simpl.
  destruct (world_rep_lookup _ _ _ _ _ (co_world _ _ _ _ (iv_core _ _ _ _ _ _ _ _ _ Hi)) Ha)
    as (q & Hq & Hqr & _ & _ & Hrel). rewrite Hq. simpl. rewrite Hrel.
  destruct (Z.eqb_spec (a_release a) 0) as [H0'|H0']; simpl.
  - destruct (inv_give s R gq qs held work work' crea crea' bufs resv p Hi Hperm (Hinit H0')) as (s' & Hrun & Hi' & w' & ->).
    unfold mq_step in Hrun. destruct (skynet_globalmq_push p (n_mq s)) as [w|]; [|done].
    injection Hrun as <-. simpl. eexists _, _, _. split; [done|]. split; [exact Hi'|]. split; [by split|]. done.
  - destruct Hr01 as [|H1]; [done|].
    destruct (drop_queue_spec (Z.to_nat (q_cap q)) s R gq qs held bufs resv a Hi Ha H1 Hrem) as (s' & gq' & qs' & -> & ?).
    { destruct Hqr as (_ & _ & Hcap & _). unfold zlen in Hcap. lia. }
    exists s', gq', qs'. split; [done|]. naive_solver.
Qed.
End one_mailbox.
End dispatch.

(** ** What service code may do to the node *)

(** The caller's references, blocks and mailboxes are still its own: mailboxes
    in somebody's hands only got messages at the end, and a context that is
    referenced still has its mailbox and its handle. *)
Record evolved (s s' : node) (qs qs' : gmap Z aqueue) (held held' bufs bufs' keep : list Z) : Prop := {
  ev_held : held ⊆+ held';
  ev_bufs : bufs ⊆+ bufs';
  ev_queue : forall p a, p ∈ keep -> qs !! p = Some a -> exists a', qs' !! p = Some a' /\
    a_handle a' = a_handle a /\ a_msgs a `prefix_of` a_msgs a';
  ev_ctx : forall c x, c ∈ held -> n_ctx s !! c = Some x ->
    exists x', n_ctx s' !! c = Some x' /\ same_ctx x x' /\ (cx_init x = true -> cx_init x' = true);
  ev_mon : forall sm, is_Some (n_mon s !! sm) -> is_Some (n_mon s' !! sm);
  ev_remote : n_REMOTE s <> 0 -> n_REMOTE s' <> 0
}.

Lemma evolved_refl s qs held bufs keep : evolved s s qs qs held held bufs bufs keep.
Proof. split; eauto 10; intros; eexists; split_and!; done. Qed.

Lemma evolved_trans s1 s2 s3 qs1 qs2 qs3 h1 h2 h3 b1 b2 b3 keep :
  evolved s1 s2 qs1 qs2 h1 h2 b1 b2 keep -> evolved s2 s3 qs2 qs3 h2 h3 b2 b3 keep ->
  evolved s1 s3 qs1 qs3 h1 h3 b1 b3 keep.
Proof.
  intros [H1 B1 Q1 C1 M1 R1] [H2 B2 Q2 C2 M2 R2]. split; auto; [by etrans|by etrans|..].
  - intros p a Hp Ha. destruct (Q1 p a Hp Ha) as (a' & Ha' & E1 & P1).
    destruct (Q2 p a' Hp Ha') as (a'' & ? & E2 & P2). exists a''. split_and!; [done|congruence|by etrans].
  - intros c x Hc Hx. destruct (C1 c x Hc Hx) as (x' & Hx' & (?&?&?) & I1).
    destruct (C2 c x') as (x'' & ? & (?&?&?) & I2); [by eapply elem_of_submseteq|done|].
    exists x''. split_and!; [done| |auto]. split_and!; congruence.
Qed.

(** References taken in between may be given back. *)
Lemma evolved_drop s1 s2 s3 qs1 qs2 qs3 h1 h2 h3 b1 b2 b3 keep :
  evolved s1 s2 qs1 qs2 h1 h2 b1 b2 keep -> evolved s2 s3 qs2 qs3 h3 h3 b2 b3 keep -> h1 ⊆+ h3 ->
  evolved s1 s3 qs1 qs3 h1 h3 b1 b3 keep.
Proof.
  intros [_ B1 Q1 C1 M1 R1] [_ B2 Q2 C2 M2 R2] Hsub. split; auto; [by etrans|..].
  - intros p a Hp Ha. destruct (Q1 p a Hp Ha) as (a' & Ha' & E1 & P1).
    destruct (Q2 p a' Hp Ha') as (a'' & ? & E2 & P2). exists a''. split_and!; [done|congruence|by etrans].
  - intros c x Hc Hx. destruct (C1 c x Hc Hx) as (x' & Hx' & (?&?&?) & I1).
    destruct (C2 c x') as (x'' & ? & (?&?&?) & I2); [by eapply elem_of_submseteq|done|].
    exists x''. split_and!; [done| |auto]. split_and!; congruence.
Qed.

(** A step of the dispatcher itself. *)
Lemma evolved_step s s' qs qs' held bufs keep :
  (forall c x, n_ctx s !! c = Some x -> exists x', n_ctx s' !! c = Some x' /\ same_ctx x x' /\ (cx_init x = true -> cx_init x' = true)) ->
  (forall sm, is_Some (n_mon s !! sm) -> is_Some (n_mon s' !! sm)) -> n_REMOTE s' = n_REMOTE s -> grew qs qs' ->
  evolved s s' qs qs' held held bufs bufs keep.
Proof.
  intros Hc Hm HR Hg. split; auto; [|congruence].
  intros p a _ Ha. destruct (Hg p a Ha) as (a' & ? & ? & _ & ? & _). eauto.
Qed.

Lemma evolved_frame s s' qs qs' held bufs keep :
  frame s s' -> n_ctx s' = n_ctx s -> grew qs qs' -> evolved s s' qs qs' held held bufs bufs keep.
Proof.
  intros [] E Hg. apply evolved_step; try done; [|by intros sm; rewrite fr_mon].
  intros c x Hx. rewrite E. exists x. by split_and!.
Qed.

(** [m] returns from [s], keeps the invariant and respects its caller; [own a] are
    the blocks it hands back with the result [a]. *)
Definition runs `{LawfulServices} {A} (m : M A) (s : node) (qs : gmap Z aqueue) (held bufs work crea : list Z)
    (own : A -> list Z) : Prop :=
  exists a s' R' gq' qs' held' bufs' resv',
    m s = Some (a, s') /\ inv s' R' gq' qs' held' work crea (own a ++ bufs') resv' /\
    evolved s s' qs qs' held held' bufs bufs' (work ++ crea).

Lemma runs_bind `{LawfulServices} {A B} (m : M A) (k : A -> M B) s qs held bufs work crea own own' :
  runs m s qs held bufs work crea own ->
  (forall a s' R' gq' qs' held' bufs' resv',
    inv s' R' gq' qs' held' work crea (own a ++ bufs') resv' ->
    evolved s s' qs qs' held held' bufs bufs' (work ++ crea) ->
    runs (k a) s' qs' held' bufs' work crea own') ->
  runs (bind m k) s qs held bufs work crea own'.
Proof.
  intros (a & s1 & R1 & gq1 & qs1 & held1 & bufs1 & resv1 & Hrun & Hi1 & E1) Hk.
  destruct (Hk a s1 R1 gq1 qs1 held1 bufs1 resv1 Hi1 E1) as
    (b & s2 & R2 & gq2 & qs2 & held2 & bufs2 & resv2 & Hrun2 & Hi2 & E2).
  exists b, s2, R2, gq2, qs2, held2, bufs2, resv2. split; [by mrun Hrun|]. split; [done|by eapply evolved_trans].
Qed.

Lemma runs_intro `{LawfulServices} {A} (m : M A) s qs held bufs work crea (own : A -> list Z) a s' R' gq' qs' resv' :
  m s = Some (a, s') -> inv s' R' gq' qs' held work crea (own a ++ bufs) resv' ->
  evolved s s' qs qs' held held bufs bufs (work ++ crea) -> runs m s qs held bufs work crea own.
Proof. intros. by exists a, s', R', gq', qs', held, bufs, resv'. Qed.

(** The first step is known. *)
Lemma runs_step `{LawfulServices} {A B} (m : M A) (k : A -> M B) s s1 a qs held bufs work crea own :
  m s = Some (a, s1) -> evolved s s1 qs qs held held bufs bufs (work ++ crea) ->
  runs (k a) s1 qs held bufs work crea own -> runs (bind m k) s qs held bufs work crea own.
Proof.
  intros Hrun E (b & s2 & R2 & gq2 & qs2 & held2 & bufs2 & resv2 & Hrun2 & Hi2 & E2).
  exists b, s2, R2, gq2, qs2, held2, bufs2, resv2. split; [by mrun Hrun|]. split; [done|by eapply evolved_trans].
Qed.

(** A callback returns, keeps the invariant, and either takes the message block or
    leaves it to the caller. *)
Class SafeCallbacks `{LawfulServices} : Prop := {
  run_cb_law : forall cb ctx ud type session source msg sz s R gq qs held work crea bufs resv,
    inv s R gq qs held work crea (owned msg ++ bufs) resv -> ctx ∈ held ->
    runs (run_cb cb ctx ud type session source msg sz) s qs held bufs work crea
      (fun r => if r =? 0 then owned msg else [])
}.

(** Outside the contexts, the mailboxes and the memory. *)
Definition elsewhere (s s' : node) : Prop :=
  n_mq s' = n_mq s /\ n_ctx s' = n_ctx s /\ n_mem s' = n_mem s /\ n_brk s' = n_brk s /\ n_H s' = n_H s /\
  n_M s' = n_M s /\ n_TI s' = n_TI s /\ n_REMOTE s' = n_REMOTE s /\ n_HARBOR s' = n_HARBOR s /\
  g_total (n_G s') = g_total (n_G s) /\ (forall sm, is_Some (n_mon s !! sm) -> is_Some (n_mon s' !! sm)).

Section callbacks.
Context `{SafeCallbacks}.
Implicit Types (s : node) (R : registry) (gq held work crea bufs : list Z) (qs : gmap Z aqueue).

(** An update of a context that leaves what the invariant and its holders see. *)
Lemma field_step s R gq qs held work crea bufs resv c x f keep bufs0 :
  inv s R gq qs held work crea bufs resv -> n_ctx s !! c = Some x -> same_ctx x (f x) ->
  cx_init (f x) = cx_init x -> cx_ref (f x) = cx_ref x ->
  exists s', update c f s = Some (tt, s') /\ inv s' R gq qs held work crea bufs resv /\
    evolved s s' qs qs held held bufs0 bufs0 keep /\ n_ctx s' !! c = Some (f x).
Proof.
  intros Hi Hx Hs Hin Hr. unfold update, steps. rewrite Hx. simpl. eexists. split; [done|].
  split; [apply (inv_field s R gq qs held work crea bufs resv c x); [done..|congruence|done]|].
  split; [|simpl; apply lookup_insert_eq].
  apply evolved_step; try done; [|apply grew_refl]. intros d y Hd. simpl.
  destruct (decide (c = d)) as [<-|]; [|rewrite lookup_insert_ne by done; exists y; by split_and!].
  rewrite lookup_insert_eq. assert (y = x) as -> by congruence. exists (f x). split_and!; [done..|congruence].
Qed.

(** A step on the state outside the contexts, the mailboxes and the memory. *)
Lemma other_step s s' R gq qs held work crea bufs resv keep bufs0 :
  elsewhere s s' -> inv s R gq qs held work crea bufs resv ->
  inv s' R gq qs held work crea bufs resv /\ evolved s s' qs qs held held bufs0 bufs0 keep.
Proof.
  intros (E1 & E2 & E3 & E4 & E5 & E6 & E7 & E8 & E9 & E10 & Hm) Hi. split; [by eapply inv_same; [..|exact Hi]|].
  apply evolved_step; try done; [|apply grew_refl]. intros c x Hx. rewrite E2. exists x. by split_and!.
Qed.

Lemma dispatch_message_spec s R gq qs held work crea bufs resv c x m :
  inv s R gq qs held work crea (owned (msg_data m) ++ bufs) resv -> c ∈ held ->
  n_ctx s !! c = Some x -> cx_init x = true ->
  runs (dispatch_message c m) s qs held bufs work crea (fun _ => []).
Proof.
  intros Hi Hc Hx Hin. unfold dispatch_message.
  eapply runs_step; [unfold deref, reads; by rewrite Hx|apply evolved_refl|].
  rewrite Hin. eapply runs_step; [done|apply evolved_refl|].
  set (s1 := set_G (g_set_handle_key (cx_handle x) (n_G s)) s).
  destruct (other_step s s1 R gq qs held work crea _ resv (work ++ crea) bufs ltac:(by split_and!) Hi) as [Hi1 Ev1].
  eapply runs_step; [done|exact Ev1|]. cbn zeta.
  match goal with |- context [when ?b (modify (add_out ?o))] => set (wh := when b (modify (add_out o))) end.
  assert (exists s2, wh s1 = Some (tt, s2) /\ n_ctx s2 = n_ctx s1 /\
    inv s2 R gq qs held work crea (owned (msg_data m) ++ bufs) resv /\
    evolved s1 s2 qs qs held held bufs bufs (work ++ crea)) as (s2 & Hw & C2 & Hi2 & Ev2).
  { subst wh. unfold when. destruct (negb _).
    - eexists. split; [done|]. split; [done|]. by apply (other_step s1).
    - exists s1. split; [done|]. split; [done|]. split; [done|apply evolved_refl]. }
  eapply runs_step; [exact Hw|exact Ev2|]. assert (n_ctx s2 !! c = Some x) as Hx2 by by rewrite C2.
  destruct (field_step s2 R gq qs held work crea _ resv c x (fun x => cx_set_message_count (cx_message_count x + 1) x)
    (work ++ crea) bufs Hi2 Hx2) as (s3 & Hrun3 & Hi3 & Ev3 & Hx3); [done..|].
  eapply runs_step; [exact Hrun3|exact Ev3|]. eapply (runs_bind _ _ _ _ _ _ _ _ (fun r => if r =? 0 then owned (msg_data m) else [])).
  - destruct (cx_profile x); [|by eapply run_cb_law].
    set (s4 := set_reads (S (n_reads s3)) s3).
    destruct (other_step s3 s4 R gq qs held work crea _ resv (work ++ crea) bufs ltac:(by split_and!) Hi3) as [Hi4 Ev4].
    eapply runs_step; [done|exact Ev4|].
    destruct (field_step s4 R gq qs held work crea _ resv c _ (fun x => cx_set_cpu (cx_cpu_cost x) (cpu_clock (n_reads s3)) x)
      (work ++ crea) bufs Hi4 Hx3) as (s5 & Hrun5 & Hi5 & Ev5 & Hx5); [done..|].
    eapply runs_step; [exact Hrun5|exact Ev5|].
    eapply runs_bind; [by eapply run_cb_law|]. intros r s6 R6 gq6 qs6 held6 bufs6 resv6 Hi6 Ev6.
    destruct (ev_ctx _ _ _ _ _ _ _ _ _ Ev6 c _ Hc Hx5) as (x6 & Hx6 & _).
    set (s7 := set_reads (S (n_reads s6)) s6).
    destruct (other_step s6 s7 R6 gq6 qs6 held6 work crea _ resv6 (work ++ crea) bufs6 ltac:(by split_and!) Hi6) as [Hi7 Ev7].
    eapply runs_step; [done|exact Ev7|].
    destruct (field_step s7 R6 gq6 qs6 held6 work crea _ resv6 c x6
      (fun x => cx_set_cpu (u64 (cx_cpu_cost x + u64 (cpu_clock (n_reads s6) - cx_cpu_start x))) (cx_cpu_start x) x)
      (work ++ crea) bufs6 Hi7 Hx6) as (s8 & Hrun8 & Hi8 & Ev8 & Hx8); [done..|].
    eapply runs_step; [exact Hrun8|exact Ev8|].
    eapply runs_intro; [done|exact Hi8|apply evolved_refl].
  - intros r s4 R4 gq4 qs4 held4 bufs4 resv4 Hi4 Ev4. unfold when. destruct (r =? 0).
    + destruct (inv_free _ _ _ _ _ _ _ _ _ _ Hi4) as (s5 & Hrun5 & E5 & Hi5).
      eapply runs_intro; [exact Hrun5|exact Hi5|]. rewrite E5. apply evolved_step; try done; [|apply grew_refl].
      intros d y Hd. exists y. by split_and!.
    + eapply runs_intro; [done|exact Hi4|apply evolved_refl].
Qed.
End callbacks.
