(* ===== verification/Delivery.v ===== *)
(** What it means that a service gets a message, said of the states before, at and after the call of
    its callback, and that a worker's handling of a message is that. *)

From S2P Require Import Prelude Types CString MessageQueue SkynetModule Handle Node Server NodeInv NodeOps Sending.
Local Open Scope Z_scope.

(** ** The contract *)

Section contract.
Context `{Services}.
Implicit Types (s : node) (m : skynet_message) (x : skynet_context).

(** The mailbox [q] begins with the messages [ms]. *)
Definition mailbox_begins (q : Z) (ms : list skynet_message) s : Prop :=
  exists gq qs a, world_rep (n_mq s) gq qs /\ qs !! q = Some a /\ ms `prefix_of` a_msgs a.

(** free(NULL) does nothing. *)
Definition without (p : Z) (mem : gmap Z block) : gmap Z block := if p =? 0 then mem else delete p mem.

(** The state [s1] at the call, the message having been the first of the mailbox in [s]: it has left the
    mailbox and no other has, the monitor shows its source and the service, the thread is the service's, the
    count of messages is one more, the message is in the log if there is one, and its block is intact. *)
Record at_call (sm q h c : Z) m s s1 x : Prop := {
  ac_queue : exists ms, mailbox_begins q (m :: ms) s /\ mailbox_begins q ms s1;
  ac_monitor : exists v cv, n_mon s1 !! sm = Some (Mon v cv (msg_source m) h);
  ac_thread : g_handle_key (n_G s1) = h;
  ac_before : exists x0, n_ctx s !! c = Some x0 /\ cx_handle x0 = h /\ cx_cb x = cx_cb x0 /\ cx_cb_ud x = cx_cb_ud x0 /\
    cx_message_count x = cx_message_count x0 + 1 /\
    n_out s1 = n_out s ++ (if cx_logfile x0 =? 0 then [] else
      [LogOutput (cx_logfile x0) (msg_source m) (msg_sz m / 2 ^ 56) (msg_session m) (msg_data m) (msg_sz m mod 2 ^ 56)]);
  ac_ctx : n_ctx s1 !! c = Some x;
  ac_mem : mem_kept s s1
}.

(** The state [s'] when the monitor has been told, [s2] being the one in which the message was done with. *)
Definition idle_after (sm : Z) s2 s' : Prop :=
  n_mq s' = n_mq s2 /\ n_out s' = n_out s2 /\ exists v cv, n_mon s' !! sm = Some (Mon v cv 0 0).

(** The contexts after the callback: a service that is profiled pays for its time. *)
Definition charged (c : Z) x s2 (ctxs : gmap Z skynet_context) : Prop :=
  if cx_profile x then exists y, n_ctx s2 !! c = Some y /\
    ctxs = <[c := cx_set_cpu (u64 (cx_cpu_cost y + u64 (cpu_clock (n_reads s2) - cx_cpu_start y))) (cx_cpu_start y) y]> (n_ctx s2)
  else ctxs = n_ctx s2.

(** The service [c], registered as [h], gets the message [m]: its callback is called once, with its own data,
    the type, session, source, data and size of the message; what it leaves is the state, but that the
    block is freed unless the callback keeps it.  A service without a callback loses the message. *)
Inductive gets_message (sm q h c : Z) m s s' : Prop :=
  | gets_called x s1 r s2 :
      at_call sm q h c m s s1 x -> cx_cb x <> 0 ->
      run_cb (cx_cb x) c (cx_cb_ud x) (msg_sz m / 2 ^ 56) (msg_session m) (msg_source m) (msg_data m) (msg_sz m mod 2 ^ 56) s1
        = Some (r, s2) ->
      n_mem s' = (if r =? 0 then without (msg_data m) (n_mem s2) else n_mem s2) ->
      charged c x s2 (n_ctx s') -> idle_after sm s2 s' -> gets_message sm q h c m s s'
  | gets_none x ms :
      mailbox_begins q (m :: ms) s -> mailbox_begins q ms s' ->
      n_ctx s !! c = Some x -> cx_handle x = h -> cx_cb x = 0 ->
      n_ctx s' = n_ctx s -> n_out s' = n_out s -> n_mem s' !! msg_data m = None ->
      (forall p, p <> msg_data m -> is_Some (n_mem s !! p) -> n_mem s' !! p = n_mem s !! p) ->
      (exists v cv, n_mon s' !! sm = Some (Mon v cv 0 0)) -> gets_message sm q h c m s s'.

(** The messages [ms], one after the other, with nothing in between. *)
Inductive handled (sm q h c : Z) : list skynet_message -> node -> node -> Prop :=
  | handled_nil s : handled sm q h c [] s s
  | handled_cons m ms s s2 s3 :
      gets_message sm q h c m s s2 -> handled sm q h c ms s2 s3 -> handled sm q h c (m :: ms) s s3.

(** The mailboxes hold the same messages. *)
Definition same_mail s s' : Prop :=
  exists gq qs gq' qs', world_rep (n_mq s) gq qs /\ world_rep (n_mq s') gq' qs' /\ forall p, a_msgs <$> qs !! p = a_msgs <$> qs' !! p.

(** What is left of a round with the service [c] when its messages are done with: its reference is given back, and before and after
    that nothing but the order of the mailboxes changes. *)
Definition round_ends (c : Z) s s' : Prop :=
  exists w n s1 w', same_mail s (set_mq w s) /\ skynet_context_release c (set_mq w s) = Some (n, s1) /\
    same_mail s1 (set_mq w' s1) /\ s' = set_mq w' s1.
End contract.

(** ** The dispatcher keeps it *)

Section delivery.
Context `{LawfulServices}.
Implicit Types (s : node) (R : registry) (gq held work crea bufs : list Z) (qs : gmap Z aqueue).

Lemma msg_type_div (m : skynet_message) : msg_type m = msg_sz m / 2 ^ 56.
Proof. unfold msg_type, MESSAGE_TYPE_SHIFT. by rewrite Z.shiftr_div_pow2. Qed.
Lemma msg_size_mod (m : skynet_message) : msg_size m = msg_sz m mod 2 ^ 56.
Proof. unfold msg_size, MESSAGE_TYPE_MASK. by rewrite wrap_land. Qed.

Lemma free_run p s u s' : skynet_free p s = Some (u, s') -> s' = set_mem (without p (n_mem s)) s.
Proof.
  unfold skynet_free, without. destruct (p =? 0); [intros [= _ <-]; by destruct s|].
  unfold steps. destruct (n_mem s !! p); [|done]. by intros [= _ <-].
Qed.

Lemma trigger_run sm source destination s u s' : skynet_monitor_trigger sm source destination s = Some (u, s') ->
  (exists v cv, n_mon s' !! sm = Some (Mon v cv source destination)) /\
  exists mons, s' = set_mon mons s.
Proof.
  unfold skynet_monitor_trigger, steps. destruct (n_mon s !! sm) as [mo|]; [|done]. intros [= _ <-].
  split; [|by eexists]. eexists _, _. apply lookup_insert_eq.
Qed.

(** Takes a computation that has returned apart, one call at a time. *)
Tactic Notation "mstep" hyp(H) ident(a) ident(s) ident(E) := unfold bind at 1 in H;
  match type of H with match ?m with _ => _ end = _ => destruct m as [[a s]|] eqn:E; [|discriminate H] end.

Lemma update_returned c f s u s' : update c f s = Some (u, s') ->
  exists x, n_ctx s !! c = Some x /\ s' = set_ctx (<[c := f x]> (n_ctx s)) s.
Proof. unfold update, steps. destruct (n_ctx s !! c) as [x|]; [|done]. intros [= _ <-]. by exists x. Qed.

(** The call, with the time it takes. *)
Lemma profiled_run c x (f : M Z) r s s' : n_ctx s !! c = Some x ->
  (if cx_profile x then
      t0 <- thread_time ;;
      update c (fun x => cx_set_cpu (cx_cpu_cost x) t0 x) ;;;
      r <- f ;;
      t1 <- thread_time ;;
      update c (fun x => cx_set_cpu (u64 (cx_cpu_cost x + u64 (t1 - cx_cpu_start x))) (cx_cpu_start x) x) ;;;
      ret r
    else f)%node s = Some (r, s') ->
  exists x2 cs t s3, x2 = cx_set_cpu (cx_cpu_cost x) t x /\ cs !! c = Some x2 /\
    f (if cx_profile x then set_ctx cs (set_reads (S (n_reads s)) s) else s) = Some (r, s3) /\
    (cx_profile x = false -> x2 = x) /\
    charged c x2 s3 (n_ctx s') /\ n_mq s' = n_mq s3 /\ n_out s' = n_out s3 /\ n_mem s' = n_mem s3 /\ n_mon s' = n_mon s3.
Proof.
  intros Hx. destruct (cx_profile x) eqn:Hp; intros Hrun.
  - mstep Hrun t0 sa Ea. injection Ea as <- <-. mstep Hrun u0 sb Eb. apply update_returned in Eb as (y & Hy & ->).
    assert (y = x) as -> by (simpl in Hy; congruence). mstep Hrun r1 s3 E3.
    mstep Hrun t1 sc Ec. injection Ec as <- <-. mstep Hrun u1 sd Ed. apply update_returned in Ed as (z & Hz & ->).
    injection Hrun as <- <-.
    eexists _, _, _, s3. split; [reflexivity|]. split; [apply lookup_insert_eq|]. split; [exact E3|]. split; [done|].
    split_and!; try done. unfold charged. cbn [cx_profile cx_set_cpu]. rewrite Hp. by exists z.
  - exists x, (n_ctx s), (cx_cpu_start x), s'. split_and!; try done; [by destruct x|]. unfold charged. by rewrite Hp.
Qed.

(** The call itself, from the state [s1] in which the monitor has been told. *)
Lemma dispatch_message_run c m x s1 u s' : n_ctx s1 !! c = Some x -> dispatch_message c m s1 = Some (u, s') ->
  exists x2 s2 r s3, cx_cb x2 = cx_cb x /\ cx_cb_ud x2 = cx_cb_ud x /\ cx_message_count x2 = cx_message_count x + 1 /\
    n_ctx s2 !! c = Some x2 /\ n_mq s2 = n_mq s1 /\ n_mem s2 = n_mem s1 /\ n_mon s2 = n_mon s1 /\
    g_handle_key (n_G s2) = cx_handle x /\
    n_out s2 = n_out s1 ++ (if cx_logfile x =? 0 then [] else
      [LogOutput (cx_logfile x) (msg_source m) (msg_type m) (msg_session m) (msg_data m) (msg_size m)]) /\
    run_cb (cx_cb x) c (cx_cb_ud x) (msg_type m) (msg_session m) (msg_source m) (msg_data m) (msg_size m) s2 = Some (r, s3) /\
    charged c x2 s3 (n_ctx s') /\ n_mq s' = n_mq s3 /\ n_out s' = n_out s3 /\ n_mon s' = n_mon s3 /\
    n_mem s' = (if r =? 0 then without (msg_data m) (n_mem s3) else n_mem s3).
Proof.
  intros Hx Hrun. unfold dispatch_message in Hrun. rewrite (bind_deref _ _ _ _ Hx) in Hrun.
  mstep Hrun u0 sa Ea. unfold assert_, lift in Ea. destruct (cx_init x); [|done]. injection Ea as <- <-.
  mstep Hrun u0 sb Eb. injection Eb as <- <-. cbn zeta in Hrun. mstep Hrun u0 sc Ec.
  set (s2 := set_G (g_set_handle_key (cx_handle x) (n_G s1)) s1) in *.
  assert (n_ctx sc = n_ctx s1 /\ n_mq sc = n_mq s1 /\ n_mem sc = n_mem s1 /\ n_mon sc = n_mon s1 /\
    g_handle_key (n_G sc) = cx_handle x /\ n_out sc = n_out s1 ++ (if cx_logfile x =? 0 then [] else
      [LogOutput (cx_logfile x) (msg_source m) (msg_type m) (msg_session m) (msg_data m) (msg_size m)]))
    as (C & Q & B & Mo & G & O).
  { unfold when in Ec. destruct (cx_logfile x =? 0); injection Ec as <- <-; [|done]. by rewrite app_nil_r. }
  clear Ec s2. mstep Hrun u1 sd Ed. apply update_returned in Ed as (x' & Hx' & ->). rewrite C in Hx'.
  assert (x' = x) as -> by congruence.
  set (sd := set_ctx _ sc) in Hrun.
  set (x1 := cx_set_message_count (cx_message_count x + 1) x) in *.
  assert (n_ctx sd !! c = Some x1) as Hx1 by (apply lookup_insert_eq). mstep Hrun r s4 E4.
  destruct (profiled_run c x1 _ r sd s4 Hx1 E4) as (x2 & cs & t & s3 & -> & Hcs & Hcall & Hid & Hch & Hq & Ho & Hm & Hmon).
  assert (exists s2, s2 = (if cx_profile x1 then set_ctx cs (set_reads (S (n_reads sd)) sd) else sd)) as [s2 E2] by eauto.
  rewrite <- E2 in Hcall.
  exists (cx_set_cpu (cx_cpu_cost x1) t x1), s2, r, s3. do 3 (split; [done|]).
  split. { rewrite E2. destruct (cx_profile x1); [exact Hcs|]. by rewrite Hid. }
  assert (n_mq s2 = n_mq sd /\ n_mem s2 = n_mem sd /\ n_mon s2 = n_mon sd /\ n_G s2 = n_G sd /\ n_out s2 = n_out sd)
    as (-> & -> & -> & -> & ->) by (rewrite E2; by destruct (cx_profile x1)).
  do 5 (split; [done|]). split; [exact Hcall|].
  assert (n_ctx s' = n_ctx s4 /\ n_mq s' = n_mq s4 /\ n_out s' = n_out s4 /\ n_mon s' = n_mon s4 /\
    n_mem s' = (if r =? 0 then without (msg_data m) (n_mem s4) else n_mem s4)) as (-> & -> & -> & -> & ->).
  { unfold when in Hrun. destruct (r =? 0); [|by injection Hrun as _ <-]. by rewrite (free_run _ _ _ _ Hrun). }
  rewrite Hm. done.
Qed.

(** What the worker does with the message [m] it has taken from [q]. *)
Lemma dispatch_one_gets s0 s R gq qs held work crea bufs resv sm q h c x a m u s' :
  inv s R gq qs held work crea bufs resv -> qs !! q = Some a ->
  mailbox_begins q (m :: a_msgs a) s0 -> (exists w, s = set_mq w s0) ->
  n_ctx s !! c = Some x -> cx_handle x = h -> dispatch_one sm q h c m s = Some (u, s') ->
  gets_message sm q h c m s0 s'.
Proof.
  intros Hi Ha Hbeg [w Ew] Hx Hh Hrun. unfold dispatch_one in Hrun.
  destruct (inv_overload _ _ _ _ _ _ _ _ _ q a Hi Ha) as (o & s1 & Hov & Hi1 & w1 & E1).
  rewrite (bind_run _ _ _ _ _ Hov) in Hrun. mstep Hrun u1 s2 Ew2.
  assert (exists gq2 qs2, inv s2 R gq2 qs2 held work crea bufs resv /\ frame s1 s2 /\ n_ctx s2 = n_ctx s1 /\
    mem_kept s1 s2 /\ grew qs qs2) as (gq2 & qs2 & Hi2 & F2 & C2 & K2 & G2).
  { unfold when in Ew2. destruct (negb _).
    - edestruct (inv_error s1 R gq qs) as (s2' & gq2 & qs2 & Hrun2 & Hi2 & F2 & C2 & K2 & G2);
        [exact Hi1|right; rewrite E1; simpl; eauto|]. rewrite Hrun2 in Ew2. injection Ew2 as _ <-. eauto 10.
    - injection Ew2 as _ <-. exists gq, qs. split_and!; try done. apply grew_refl. }
  destruct (G2 q a Ha) as (a2 & Ha2 & _ & _ & Hpre & _).
  mstep Hrun u3 s3 Et. apply trigger_run in Et as (Hmo & mons & ->).
  assert (n_ctx s2 !! c = Some x) as Hx2 by (rewrite C2, E1; done).
  rewrite (bind_deref _ _ _ _ (Hx2 : n_ctx (set_mon mons s2) !! c = Some x)) in Hrun.
  assert (forall s4, n_mq s4 = n_mq s2 -> mailbox_begins q (a_msgs a) s4) as Hq4.
  { intros s4 E. exists gq2, qs2, a2. rewrite E. split; [apply Hi2|done]. }
  mstep Hrun u4 s5 Ec. apply trigger_run in Hrun as (Hmo' & mons' & ->).
  assert (n_ctx s0 !! c = Some x) as Hx0 by (by rewrite Ew in Hx).
  assert (mem_kept s0 s2) as K0 by (eapply mem_kept_trans; [|exact K2]; rewrite E1, Ew; by intros p _).
  assert (n_out s2 = n_out s0) as O2 by (rewrite (fr_out _ _ F2), E1, Ew; done).
  destruct (Z.eqb_spec (cx_cb x) 0) as [Hcb|Hcb].
  - apply free_run in Ec as ->.
    eapply (gets_none _ _ _ _ _ _ _ x (a_msgs a)); simpl; try done.
    + by apply Hq4.
    + by rewrite C2, E1, Ew.
    + unfold without. destruct (Z.eqb_spec (msg_data m) 0) as [->|]; [|apply lookup_delete_eq].
      destruct (n_mem s2 !! 0) eqn:E; [|done]. exfalso.
      assert (0 < 0 < n_brk s2); [|lia]. apply (iv_membrk _ _ _ _ _ _ _ _ _ Hi2). eauto.
    + intros p Hp Hal. unfold without. destruct (msg_data m =? 0); [by apply K0|].
      rewrite lookup_delete_ne by congruence. by apply K0.
  - destruct (dispatch_message_run c m x (set_mon mons s2) _ _ Hx2 Ec)
      as (x2 & s4 & r & s6 & E2 & E3 & E4 & Hx4 & Q4 & B4 & M4 & G4 & O4 & Hcall & Hch & Q5 & O5 & M5 & B5).
    rewrite msg_type_div, msg_size_mod in O4, Hcall. simpl in *.
    eapply (gets_called _ _ _ _ _ _ _ x2 s4 r s6); try done.
    + split; try done.
      * exists (a_msgs a). split; [done|by apply Hq4].
      * by rewrite M4.
      * congruence.
      * exists x. rewrite O4, O2. by split_and!.
      * intros p Hp. rewrite B4. by apply K0.
    + congruence.
    + by rewrite E2, E3.
Qed.
End delivery.
