(* ===== verification/Worker.v ===== *)
(** A worker thread: what skynet_context_message_dispatch does with the mailbox it
    has taken, whatever the callbacks of the service do meanwhile. *)

From S2P Require Import Prelude Types CString Timer MessageQueue SkynetModule Handle Node Server NodeInv NodeOps Sending Dispatching Delivery.
Local Open Scope Z_scope.

(** ** One message, and a batch *)

Section batch.
Context `{SafeCallbacks}.
Implicit Types (s : node) (R : registry) (gq held work crea bufs : list Z) (qs : gmap Z aqueue).

Lemma trigger_step s R gq qs held work crea bufs resv sm source destination keep bufs0 :
  inv s R gq qs held work crea bufs resv -> is_Some (n_mon s !! sm) ->
  exists s', skynet_monitor_trigger sm source destination s = Some (tt, s') /\
    inv s' R gq qs held work crea bufs resv /\ evolved s s' qs qs held held bufs0 bufs0 keep /\
    n_ctx s' = n_ctx s.
Proof.
  intros Hi [mo Hm]. unfold skynet_monitor_trigger, steps. rewrite Hm. simpl. eexists. split; [done|].
  match goal with |- inv ?s' _ _ _ _ _ _ _ _ /\ _ => assert (elsewhere s s') as He end.
  { split_and!; try done. intros sm' [y Hy]. simpl. apply lookup_insert_is_Some'. eauto. }
  destruct (other_step s _ R gq qs held work crea bufs resv keep bufs0 He Hi). by split_and!.
Qed.

Lemma dispatch_one_spec s R gq qs held work crea bufs resv sm q h c x a m :
  inv s R gq qs held work crea (owned (msg_data m) ++ bufs) resv -> c ∈ held ->
  n_ctx s !! c = Some x -> cx_init x = true -> qs !! q = Some a -> is_Some (n_mon s !! sm) ->
  runs (dispatch_one sm q h c m) s qs held bufs work crea (fun _ => []).
Proof.
  intros Hi Hc Hx Hin Ha Hm. unfold dispatch_one.
  destruct (inv_overload _ _ _ _ _ _ _ _ _ q a Hi Ha) as (o & s1 & Hrun1 & Hi1 & w1 & E1).
  assert (evolved s s1 qs qs held held bufs bufs (work ++ crea)) as Ev1.
  { rewrite E1. apply evolved_step; try done; [|apply grew_refl]. intros d y Hd. exists y. by split_and!. }
  eapply runs_step; [exact Hrun1|exact Ev1|].
  assert (n_ctx s1 = n_ctx s /\ n_mon s1 = n_mon s) as [C1 M1] by by rewrite E1.
  match goal with |- context [when ?b (skynet_error ?cc ?t)] => set (wh := when b (skynet_error cc t)) end.
  assert (exists s2 gq2 qs2, wh s1 = Some (tt, s2) /\ inv s2 R gq2 qs2 held work crea (owned (msg_data m) ++ bufs) resv /\
    frame s1 s2 /\ n_ctx s2 = n_ctx s1 /\ grew qs qs2) as (s2 & gq2 & qs2 & Hw & Hi2 & F2 & C2 & G2).
  { subst wh. unfold when. destruct (negb _).
    - edestruct (inv_error s1 R gq qs) as (s2 & gq2 & qs2 & Hrun & Hi2 & F2 & C2 & _ & G2);
        [exact Hi1|right; rewrite C1; eauto|]. exists s2, gq2, qs2. done.
    - exists s1, gq, qs. split_and!; try done. apply grew_refl. }
  eapply runs_bind; [eapply (runs_intro _ _ _ _ bufs _ _ (fun _ => owned (msg_data m))); [exact Hw|exact Hi2|by apply evolved_frame]|].
  intros u s2' R2' gq2' qs2' held2' bufs2' resv2' Hi2' Ev2'.
  destruct (ev_ctx _ _ _ _ _ _ _ _ _ Ev2' c x Hc) as (x2 & Hx2 & _ & I2); [by rewrite C1|].
  assert (c ∈ held2') as Hc2 by (eapply elem_of_submseteq; [exact Hc|apply Ev2']).
  destruct (trigger_step _ _ _ _ _ _ _ _ _ sm (msg_source m) h (work ++ crea) bufs2' Hi2') as (s3 & Hrun3 & Hi3 & Ev3 & C3).
  { apply (ev_mon _ _ _ _ _ _ _ _ _ Ev2'). by rewrite M1. }
  eapply runs_step; [exact Hrun3|exact Ev3|]. rewrite <- C3 in Hx2.
  eapply runs_step; [unfold deref, reads; by rewrite Hx2|apply evolved_refl|].
  eapply (runs_bind _ _ _ _ _ _ _ _ (fun _ => [])).
  - destruct (cx_cb x2 =? 0).
    + destruct (inv_free _ _ _ _ _ _ _ _ _ _ Hi3) as (s4 & Hrun4 & E4 & Hi4).
      eapply runs_intro; [exact Hrun4|exact Hi4|]. rewrite E4. apply evolved_step; try done; [|apply grew_refl].
      intros d y Hd. exists y. by split_and!.
    + eapply dispatch_message_spec; [exact Hi3|exact Hc2|exact Hx2|auto].
  - intros u' s4 R4 gq4 qs4 held4 bufs4 resv4 Hi4 Ev4.
    destruct (trigger_step _ _ _ _ _ _ _ _ _ sm 0 0 (work ++ crea) bufs4 Hi4) as (s5 & Hrun5 & Hi5 & Ev5 & _).
    { apply (ev_mon _ _ _ _ _ _ _ _ _ Ev4), (ev_mon _ _ _ _ _ _ _ _ _ Ev3),
        (ev_mon _ _ _ _ _ _ _ _ _ Ev2'). by rewrite M1. }
    eapply runs_intro; [exact Hrun5|exact Hi5|exact Ev5].
Qed.

Lemma evolved_keep s s' qs qs' held held' bufs bufs' keep keep' :
  (forall p, p ∈ keep' -> p ∈ keep) ->
  evolved s s' qs qs' held held' bufs bufs' keep -> evolved s s' qs qs' held held' bufs bufs' keep'.
Proof. intros Hk []. split; eauto. Qed.

(** What the worker knows of its mailbox and of the service between messages. *)
Definition serving s qs held (q h c sm : Z) : Prop :=
  (exists a, qs !! q = Some a /\ a_handle a = h) /\ c ∈ held /\
  (exists x, n_ctx s !! c = Some x /\ cx_queue x = q /\ cx_init x = true) /\ is_Some (n_mon s !! sm).

Lemma serving_evolved s s' qs qs' held held' bufs bufs' work crea q h c sm :
  serving s qs held q h c sm -> q ∈ work ++ crea ->
  evolved s s' qs qs' held held' bufs bufs' (work ++ crea) -> serving s' qs' held' q h c sm.
Proof.
  intros ((a & Ha & Hh) & Hc & (x & Hx & Hxq & Hxi) & Hm) Hq [].
  destruct (ev_queue q a Hq Ha) as (a' & ? & ? & _). destruct (ev_ctx c x Hc Hx) as (x' & ? & (? & _) & ?).
  split; [exists a'; split; [done|congruence]|]. split; [by eapply elem_of_submseteq|]. split; [|eauto].
  exists x'. split_and!; [done|congruence|auto].
Qed.

(** Taking and handling one message. *)
Lemma batch_step s R gq qs held work crea bufs resv sm q h c a m ms :
  inv s R gq qs held (q :: work) crea bufs resv -> serving s qs held q h c sm ->
  qs !! q = Some a -> a_msgs a = m :: ms ->
  exists s1 s2 R2 gq2 qs2 held2 bufs2 resv2,
    mq_call (skynet_mq_pop q) s = Some (Some m, s1) /\ skynet_mq_length q (n_mq s1) = Some (zlen ms) /\
    dispatch_one sm q h c m s1 = Some (tt, s2) /\ gets_message sm q h c m s s2 /\
    inv s2 R2 gq2 qs2 held2 (q :: work) crea bufs2 resv2 /\ serving s2 qs2 held2 q h c sm /\
    (exists a2, qs2 !! q = Some a2 /\ ms `prefix_of` a_msgs a2) /\
    evolved s s2 qs qs2 held held2 bufs bufs2 (work ++ crea).
Proof.
  intros Hi ((a0 & Ha0 & Hah) & Hc & (x & Hx & Hxq & Hxi) & Hm) Ha Hms.
  assert (a0 = a) as -> by congruence. destruct (inv_queue _ _ _ _ _ _ _ _ _ c x Hi Hx) as (a' & Ha' & Hr & Hh).
  rewrite Hxq, Ha in Ha'. injection Ha' as <-.
  destruct (inv_pop _ _ _ _ _ _ _ _ _ q a Hi Ha Hr (iv_init _ _ _ _ _ _ _ _ _ Hi)) as (s1 & Hpop & (w1 & E1) & Hi1).
  rewrite Hms in Hpop, Hi1. simpl in Hpop.
  assert (n_ctx s1 = n_ctx s /\ n_mon s1 = n_mon s /\ n_REMOTE s1 = n_REMOTE s) as (C1 & M1 & R1) by by rewrite E1.
  destruct (inv_length _ _ _ _ _ _ _ _ _ q _ Hi1 (lookup_insert_eq _ _ _)) as [Hlen _]. simpl in Hlen.
  destruct (dispatch_one_spec s1 R gq _ held (q :: work) crea bufs resv sm q h c x (a_set_msgs a ms MQ_IN_GLOBAL) m Hi1 Hc)
    as (u & s2 & R2 & gq2 & qs2 & held2 & bufs2 & resv2 & Hrun2 & Hi2 & Ev2).
  { by rewrite C1. } { done. } { apply lookup_insert_eq. } { by rewrite M1. }
  destruct u. exists s1, s2, R2, gq2, qs2, held2, bufs2, resv2. do 3 (split; [done|]). split.
  { apply (dispatch_one_gets s s1 R gq _ _ _ _ _ _ sm q h c x (a_set_msgs a ms MQ_IN_GLOBAL) m tt s2 Hi1); try done.
    - apply lookup_insert_eq.
    - exists gq, qs, a. split; [apply (co_world _ _ _ _ (iv_core _ _ _ _ _ _ _ _ _ Hi))|]. split; [done|]. by rewrite Hms.
    - by exists w1.
    - by rewrite C1.
    - congruence. }
  split; [done|].
  assert (q ∈ (q :: work) ++ crea) as Hq by (apply elem_of_app; left; apply list_elem_of_here).
  destruct (ev_queue _ _ _ _ _ _ _ _ _ Ev2 q _ Hq (lookup_insert_eq _ _ _)) as (a2 & Ha2 & Hh2 & Hpre). split.
  { eapply serving_evolved; [|exact Hq|exact Ev2]. split; [eexists; split; [apply lookup_insert_eq|done]|].
    rewrite C1, M1. split; [done|]. split; [|done]. eauto. }
  split; [eauto|].
  assert (q ∉ work ++ crea) as Hni.
  { pose proof (co_nodup _ _ _ _ (iv_core _ _ _ _ _ _ _ _ _ Hi)) as Hnd.
    apply NoDup_app in Hnd as (_ & _ & Hnd). by apply NoDup_cons in Hnd as [? _]. }
  destruct Ev2 as [V1 V2 V3 V4 V5 V6]. split; try done.
  - intros p b Hp Hb. apply (V3 p b); [apply elem_of_app in Hp; set_solver|]. rewrite lookup_insert_ne; [done|congruence].
  - intros d y. rewrite <- C1. apply V4.
  - intros sm'. rewrite <- M1. apply V5.
  - by rewrite <- R1.
Qed.

Lemma batch_rest k : forall fuel i n s R gq qs held work crea bufs resv sm q weight h c a,
  inv s R gq qs held (q :: work) crea bufs resv -> serving s qs held q h c sm ->
  qs !! q = Some a -> (k <= length (a_msgs a))%nat -> (k <= fuel)%nat -> 1 <= i -> Z.of_nat k = Z.max 0 (n - i) ->
  exists s' R' gq' qs' held' bufs' resv', dispatch_loop fuel i n sm q weight h c s = Some (None, s') /\
    handled sm q h c (take k (a_msgs a)) s s' /\
    inv s' R' gq' qs' held' (q :: work) crea bufs' resv' /\ serving s' qs' held' q h c sm /\
    evolved s s' qs qs' held held' bufs bufs' (work ++ crea).
Proof.
  induction k as [|k IH]; intros fuel i n s R gq qs held work crea bufs resv sm q weight h c a Hi Hs Ha Hlen Hf Hi1 Hk.
  { destruct fuel; cbn [dispatch_loop]; rewrite (proj2 (Z.ltb_ge i n)) by lia;
      exists s, R, gq, qs, held, bufs, resv; (split; [done|]); (split; [rewrite take_0; apply handled_nil|]);
      (split; [done|]); (split; [done|]); apply evolved_refl. }
  destruct (a_msgs a) as [|m ms] eqn:Hms; simpl in Hlen; [lia|]. destruct fuel as [|fuel]; [lia|].
  destruct (batch_step _ _ _ _ _ _ _ _ _ sm q h c a m ms Hi Hs Ha Hms)
    as (s1 & s2 & R2 & gq2 & qs2 & held2 & bufs2 & resv2 & Hpop & _ & Hone & Hget & Hi2 & Hs2 & (a2 & Ha2 & Hpre) & Ev2).
  pose proof (prefix_length _ _ Hpre).
  destruct (IH fuel (i + 1) n s2 R2 gq2 qs2 held2 work crea bufs2 resv2 sm q weight h c a2 Hi2 Hs2 Ha2)
    as (s3 & R3 & gq3 & qs3 & held3 & bufs3 & resv3 & Hrun3 & Hh3 & Hi3 & Hs3 & Ev3); [lia..|].
  exists s3, R3, gq3, qs3, held3, bufs3, resv3.
  split_and!; try done; [| |by eapply evolved_trans].
  - cbn [dispatch_loop]. rewrite (proj2 (Z.ltb_lt i n)) by lia. mrun Hpop. cbn beta iota.
    rewrite (proj2 (Z.eqb_neq i 0)) by lia. cbn [andb]. rewrite bind_ret. mrun Hone. done.
  - simpl. apply (handled_cons _ _ _ _ m _ s s2 s3); [done|].
    destruct Hpre as [k' E]. rewrite E in Hh3. rewrite take_app_le in Hh3 by lia. done.
Qed.

(** How many messages a worker of this weight handles when it finds [len]. *)
Definition batch_size (weight : Z) (len : Z) : Z :=
  if len =? 0 then 0 else if weight <? 0 then 1 else Z.max 1 (Z.shiftr (len - 1) weight).
End batch.

Section worker.
Context `{SafeCallbacks}.
Implicit Types (s : node) (R : registry) (gq held work crea bufs : list Z) (qs : gmap Z aqueue).

(** A reference given back, as the other holders see it. *)
Lemma evolved_released s s' R' gq gq' qs qs' held work crea bufs bufs0 resv' c x r keep :
  inv s' R' gq' qs' held work crea bufs resv' -> n_ctx s !! c = Some x -> released s s' c x r gq gq' qs qs' ->
  n_mon s' = n_mon s -> n_REMOTE s' = n_REMOTE s ->
  evolved s s' qs qs' held held bufs0 bufs0 keep.
Proof.
  intros Hi' Hx Hrel Hmon Hrem. unfold released in Hrel. split; try done.
  - intros p a _ Ha. destruct (cx_ref x =? 1).
    + destruct Hrel as (_ & _ & b & Hb & _ & ->). unfold marked. destruct (decide (cx_queue x = p)) as [<-|].
      * rewrite lookup_insert_eq. assert (b = a) as -> by congruence. by eexists.
      * rewrite lookup_insert_ne by done. eauto.
    + destruct Hrel as (_ & _ & _ & -> & _). eauto.
  - intros d y Hd Hy. pose proof (iv_held _ _ _ _ _ _ _ _ _ Hi' d Hd) as [y' Hy'].
    assert (n_ctx s' !! d = Some y \/ d = c /\ y = x /\ n_ctx s' !! d = Some (cx_set_ref (cx_ref x - 1) x)) as [Hd'|(-> & -> & Hd')].
    { destruct (cx_ref x =? 1).
      - destruct Hrel as (_ & E & _). rewrite E in Hy' |- *. apply lookup_delete_Some in Hy' as [Hne _].
        left. by rewrite lookup_delete_ne.
      - destruct Hrel as (_ & E & _). rewrite E. destruct (decide (c = d)) as [<-|].
        + right. split_and!; [done|congruence|apply lookup_insert_eq].
        + left. by rewrite lookup_insert_ne. }
    + exists y. by split_and!.
    + eexists. split; [exact Hd'|]. by split_and!.
  - intros sm. by rewrite Hmon.
  - by rewrite Hrem.
Qed.

Lemma release_step_full s R gq qs held work crea bufs resv c keep :
  inv s R gq qs (c :: held) work crea bufs resv ->
  exists r s' gq' qs' x, skynet_context_release c s = Some (r, s') /\
    inv s' R gq' qs' held work crea bufs resv /\ evolved s s' qs qs' held held bufs bufs keep /\
    n_ctx s !! c = Some x /\ released s s' c x r gq gq' qs qs'.
Proof.
  intros Hi. destruct (inv_release _ _ _ _ _ _ _ _ _ c Hi) as (x & r & s' & gq' & qs' & Hx & Hrun & Hi' & Hst & Hrel).
  exists r, s', gq', qs', x. split; [done|]. split; [done|]. split; [|by split].
  destruct Hst. by eapply evolved_released.
Qed.

(** Taking a handle from the registry, whether it is there or not. *)
Lemma retire_step s R gq qs held work crea bufs resv h keep :
  inv s R gq qs held work crea bufs resv ->
  exists r s' R' gq' qs', skynet_handle_retire h s = Some (r, s') /\
    inv s' R' gq' qs' held work crea bufs resv /\ evolved s s' qs qs' held held bufs bufs keep /\
    reg_ctx R' !! h = None.
Proof.
  intros Hi. destruct (reg_ctx R !! h) as [c|] eqn:Hc.
  - destruct (inv_retire _ _ _ _ _ _ _ _ _ h c Hi Hc) as (x & r & s' & gq' & qs' & Hx & _ & Hrun & Hi' & Hst & Hrel).
    exists 1, s', (reg_retire h R), gq', qs'. split; [done|]. split; [done|]. split; [|apply lookup_delete_eq].
    destruct (Hst (n_H s)). by eapply evolved_released.
  - exists 0, s, R, gq, qs. split; [|split; [done|split; [apply evolved_refl|done]]].
    pose proof (retire_rep s R h (iv_reg _ _ _ _ _ _ _ _ _ Hi)) as Hret. by rewrite Hc in Hret.
Qed.

Lemma release_step s R gq qs held work crea bufs resv c keep :
  inv s R gq qs (c :: held) work crea bufs resv ->
  exists r s' gq' qs', skynet_context_release c s = Some (r, s') /\
    inv s' R gq' qs' held work crea bufs resv /\ evolved s s' qs qs' held held bufs bufs keep.
Proof.
  intros Hi. destruct (release_step_full _ _ _ _ _ _ _ _ _ c keep Hi) as (r & s' & gq' & qs' & _ & ? & ? & ? & _). eauto 8.
Qed.

(** Taking the next mailbox. *)
Lemma take_step s R gq qs held work crea bufs resv keep bufs0 :
  inv s R gq qs held work crea bufs resv ->
  exists r s', mq_call skynet_globalmq_pop s = Some (r, s') /\ r = default 0 (head gq) /\
    inv s' R (tail gq) qs held (owned r ++ work) crea bufs resv /\ evolved s s' qs qs held held bufs0 bufs0 keep.
Proof.
  intros Hi. destruct (inv_take _ _ _ _ _ _ _ _ _ Hi) as (s' & Hrun & Hi' & w' & E).
  exists (default 0 (head gq)), s'. split; [done|]. split; [done|]. split.
  - destruct gq as [|p gq]; [done|]. simpl in *. unfold owned. destruct (Z.eqb_spec p 0) as [->|]; [|done].
    destruct (co_world _ _ _ _ (iv_core _ _ _ _ _ _ _ _ _ Hi)) as ((Hl & _) & _).
    destruct Hl as (_ & Hl & _). destruct (Hl 0%nat 0) as [? _]; done.
  - rewrite E. apply evolved_step; try done; [|apply grew_refl]. intros d y Hd. exists y. by split_and!.
Qed.

(** A mailbox released or put back, as the others see it. *)
Lemma evolved_mailbox s s' qs qs' gq gq' p rel held bufs keep :
  frame s s' -> n_ctx s' = n_ctx s -> p ∉ keep ->
  (if rel =? 0 then gq' = gq ++ [p] /\ qs' = qs else qs' !! p = None /\ grew (delete p qs) qs') ->
  evolved s s' qs qs' held held bufs bufs keep.
Proof.
  intros [] HC Hni Hcase. split; try done.
  - intros q b Hq Hb. destruct (rel =? 0); [destruct Hcase as [_ ->]; eauto|].
    destruct Hcase as [_ Hg]. destruct (Hg q b) as (b' & ? & ? & _ & ? & _); [|eauto].
    rewrite lookup_delete_ne; [done|congruence].
  - intros d y Hd Hy. rewrite HC. exists y. by split_and!.
  - intros sm. by rewrite fr_mon.
  - by rewrite fr_REMOTE.
Qed.

(** The worker has a mailbox of a service that is gone. *)
Lemma dispatch_gone s R gq qs held work crea bufs resv sm q weight a :
  inv s R gq qs held (q :: work) crea bufs resv -> q <> 0 -> qs !! q = Some a ->
  reg_ctx R !! a_handle a = None -> n_REMOTE s <> 0 ->
  exists r s' gq' qs', skynet_context_message_dispatch sm q weight s = Some (r, s') /\
    inv s' R gq' qs' held (owned r ++ work) crea bufs resv /\
    evolved s s' qs qs' held held bufs bufs (work ++ crea) /\ (a_release a = 1 -> qs' !! q = None).
Proof.
  intros Hi Hq Ha Hreg Hrem. unfold skynet_context_message_dispatch.
  rewrite (proj2 (Z.eqb_neq q 0)) by done. rewrite bind_ret, (proj2 (Z.eqb_neq q 0)) by done.
  destruct (inv_length _ _ _ _ _ _ _ _ _ q a Hi Ha) as [_ Hh].
  assert (reads (fun s => skynet_mq_handle q (n_mq s)) s = Some (a_handle a, s)) as Hrd by (unfold reads; by rewrite Hh).
  mrun Hrd. mrun (inv_grab_none _ _ _ _ _ _ _ _ _ _ Hi Hreg). cbn beta iota. rewrite Z.eqb_refl.
  destruct (release_mailbox_spec (q :: work) crea work crea q (reflexivity _) ltac:(auto) s R gq qs held bufs resv a Hi Ha Hrem)
    as (s1 & gq1 & qs1 & Hrun1 & Hi1 & F1 & C1 & Hcase).
  { intros _. apply Hi. }
  mrun Hrun1. destruct (take_step _ _ _ _ _ _ _ _ _ (work ++ crea) bufs Hi1) as (r & s2 & Hrun2 & Hr & Hi2 & Ev2).
  exists r, s2, (tail gq1), qs1. split; [done|]. split; [done|].
  assert (q ∉ work ++ crea) as Hni.
  { pose proof (co_nodup _ _ _ _ (iv_core _ _ _ _ _ _ _ _ _ Hi)) as Hnd.
    apply NoDup_app in Hnd as (_ & _ & Hnd). by apply NoDup_cons in Hnd as [? _]. }
  split.
  - eapply evolved_trans; [|exact Ev2]. by eapply evolved_mailbox.
  - intros Hr1. rewrite Hr1 in Hcase. by destruct Hcase.
Qed.

Lemma shiftr_le x w : 0 <= x -> 0 <= w -> 0 <= Z.shiftr x w <= x.
Proof.
  intros. rewrite Z.shiftr_div_pow2 by done. pose proof (Z.pow_pos_nonneg 2 w ltac:(lia) ltac:(lia)).
  split; [by apply Z.div_pos|]. apply Z.div_le_upper_bound; [lia|]. nia.
Qed.

(** The loop over a mailbox that has messages. *)
Lemma loop_served s R gq qs held work crea bufs resv sm q weight h c a m ms :
  inv s R gq qs held (q :: work) crea bufs resv -> serving s qs held q h c sm -> qs !! q = Some a ->
  a_msgs a = m :: ms ->
  exists s' R' gq' qs' held' bufs' resv',
    dispatch_loop (S (Z.to_nat (zlen (a_msgs a)))) 0 1 sm q weight h c s = Some (None, s') /\
    handled sm q h c (take (Z.to_nat (batch_size weight (zlen (a_msgs a)))) (a_msgs a)) s s' /\
    inv s' R' gq' qs' held' (q :: work) crea bufs' resv' /\ serving s' qs' held' q h c sm /\
    evolved s s' qs qs' held held' bufs bufs' (work ++ crea).
Proof.
  intros Hi Hs Ha Hms.
  destruct (batch_step _ _ _ _ _ _ _ _ _ sm q h c a m ms Hi Hs Ha Hms)
    as (s1 & s2 & R2 & gq2 & qs2 & held2 & bufs2 & resv2 & Hpop & Hlen & Hone & Hget & Hi2 & Hs2 & (a2 & Ha2 & Hpre) & Ev2).
  set (n := if 0 <=? weight then Z.shiftr (zlen ms) weight else 1).
  assert (0 <= n <= Z.max 1 (zlen ms)) as Hn.
  { subst n. pose proof (zlen_nonneg ms). destruct (Z.leb_spec 0 weight); [|lia].
    pose proof (shiftr_le (zlen ms) weight). lia. }
  pose proof (prefix_length _ _ Hpre) as Hpl. rewrite Hms. cbn [dispatch_loop].
  destruct (batch_rest (Z.to_nat (n - 1)) (Z.to_nat (zlen (m :: ms))) 1 n s2 R2 gq2 qs2 held2 work crea bufs2 resv2 sm q
    weight h c a2 Hi2 Hs2 Ha2) as (s3 & R3 & gq3 & qs3 & held3 & bufs3 & resv3 & Hrun3 & Hh3 & Hi3 & Hs3 & Ev3);
    [unfold zlen in *; lia|rewrite zlen_cons; lia|lia|lia|].
  exists s3, R3, gq3, qs3, held3, bufs3, resv3. split_and!; try done; [| |by eapply evolved_trans].
  - change (0 <? 1) with true. cbn iota. mrun Hpop. cbn beta iota. change (0 =? 0) with true. cbn [andb].
    assert ((if 0 <=? weight then len <- reads (fun s => skynet_mq_length q (n_mq s)) ;; ret (Z.shiftr len weight)
             else ret 1)%node s1 = Some (n, s1)) as Hnn.
    { subst n. destruct (0 <=? weight); [|done]. unfold bind, reads. by rewrite Hlen. }
    mrun Hnn. mrun Hone. exact Hrun3.
  - assert (Z.to_nat (batch_size weight (zlen (m :: ms))) = S (Z.to_nat (n - 1))) as ->.
    { unfold batch_size. rewrite zlen_cons. pose proof (zlen_nonneg ms). subst n.
      destruct (Z.eqb_spec (1 + zlen ms) 0); [lia|]. replace (1 + zlen ms - 1) with (zlen ms) by lia.
      destruct (Z.ltb_spec weight 0), (Z.leb_spec 0 weight); lia. }
    simpl. apply (handled_cons _ _ _ _ m _ s s2 s3); [done|].
    destruct Hpre as [k' E]. rewrite E in Hh3. rewrite take_app_le in Hh3; [done|]. unfold zlen in Hn. lia.
Qed.

(** A reference taken, as the other holders see it. *)
Lemma grab_step s R gq qs held work crea bufs resv h c keep :
  inv s R gq qs held work crea bufs resv -> reg_ctx R !! h = Some c ->
  exists x s', n_ctx s !! c = Some x /\ cx_handle x = h /\ skynet_handle_grab h s = Some (c, s') /\
    inv s' R gq qs (c :: held) work crea bufs resv /\ evolved s s' qs qs held (c :: held) bufs bufs keep /\
    n_ctx s' !! c = Some (cx_set_ref (cx_ref x + 1) x) /\ n_mon s' = n_mon s.
Proof.
  intros Hi Hc. destruct (inv_grab _ _ _ _ _ _ _ _ _ h c Hi Hc) as (x & Hx & Hh & Hrun & Hi').
  eexists x, _. split; [done|]. split; [done|]. split; [exact Hrun|]. split; [exact Hi'|].
  split; [|split; [apply lookup_insert_eq|done]]. split; try done.
  - by apply submseteq_cons.
  - intros p a _ Ha. by eexists.
  - intros d y _ Hd. simpl. destruct (decide (c = d)) as [<-|].
    + rewrite lookup_insert_eq. assert (y = x) as -> by congruence. eexists. by split_and!.
    + rewrite lookup_insert_ne by done. exists y. by split_and!.
Qed.

(** The mailboxes under two invariants. *)
Lemma inv_same_mail s R gq qs held work crea bufs resv s' R' gq' qs' held' work' crea' bufs' resv' :
  inv s R gq qs held work crea bufs resv -> inv s' R' gq' qs' held' work' crea' bufs' resv' ->
  (forall p, a_msgs <$> qs !! p = a_msgs <$> qs' !! p) -> same_mail s s'.
Proof.
  intros Hi Hi' Hq. exists gq, qs, gq', qs'. split; [apply Hi|]. split; [apply Hi'|done].
Qed.

Lemma take_keeps s R gq qs held work crea bufs resv r s' : inv s R gq qs held work crea bufs resv ->
  mq_call skynet_globalmq_pop s = Some (r, s') -> exists w, s' = set_mq w s /\ same_mail s s'.
Proof.
  intros Hi Hrun. destruct (inv_take _ _ _ _ _ _ _ _ _ Hi) as (s1 & Hrun1 & Hi1 & w & E). rewrite Hrun1 in Hrun. injection Hrun as _ <-.
  exists w. split; [done|]. by eapply inv_same_mail.
Qed.

(** Putting the mailbox back and giving up the service. *)
Lemma finish_served s R gq qs held0 held work crea bufs resv q h c sm :
  inv s R gq qs held (q :: work) crea bufs resv -> serving s qs held q h c sm -> q <> 0 ->
  c :: held0 ⊆+ held ->
  exists r s' gq' qs' held', (
      x <- deref c ;;
      assert_ (q =? cx_queue x) ;;;
      nq <- mq_call skynet_globalmq_pop ;;
      q <- (if negb (nq =? 0) then mq_step (skynet_globalmq_push q) ;;; ret nq else ret q) ;;
      _ <- skynet_context_release c ;;
      ret q)%node s = Some (r, s') /\ r <> 0 /\ round_ends c s s' /\
    inv s' R gq' qs' held' (owned r ++ work) crea bufs resv /\ held0 ⊆+ held' /\
    evolved s s' qs qs' held' held' bufs bufs (work ++ crea).
Proof.
  intros Hi (_ & Hc & (x & Hx & Hxq & Hxi) & _) Hq Hsub.
  apply submseteq_Permutation in Hsub as [k Hk]. simpl in Hk.
  apply (inv_perm _ _ _ _ _ (c :: held0 ++ k) _ _ bufs bufs) in Hi; [|done|done].
  rewrite (bind_deref _ _ _ _ Hx), Hxq, Z.eqb_refl. change (assert_ true) with (ret tt). rewrite bind_ret.
  destruct (take_step _ _ _ _ _ _ _ _ _ (work ++ crea) bufs Hi) as (nq & s1 & Hrun1 & Hnq & Hi1 & Ev1). mrun Hrun1.
  destruct (take_keeps _ _ _ _ _ _ _ _ _ _ _ Hi Hrun1) as (w1 & E1 & _).
  assert (exists r s2 gq2, (if negb (nq =? 0) then mq_step (skynet_globalmq_push q) ;;; ret nq else ret q)%node s1 = Some (r, s2) /\
    r <> 0 /\ (exists w, s2 = set_mq w s1) /\ inv s2 R gq2 qs (c :: held0 ++ k) (owned r ++ work) crea bufs resv /\
    evolved s1 s2 qs qs (held0 ++ k) (held0 ++ k) bufs bufs (work ++ crea)) as (r & s2 & gq2 & Hrun2 & Hr & (w2 & E2) & Hi2 & Ev2).
  { unfold owned in *. destruct (Z.eqb_spec nq 0) as [->|Hnz]; simpl.
    - exists q, s1, (tail gq). split; [done|]. split; [done|]. split; [exists (n_mq s1); by destruct s1|]. rewrite (proj2 (Z.eqb_neq q 0)) by done.
      split; [exact Hi1|apply evolved_refl].
    - destruct (inv_give _ _ _ _ _ _ (nq :: work) crea crea _ _ q Hi1) as (s2 & Hrun & Hi2 & w' & E2); [solve_Permutation|apply Hi1|].
      mrun Hrun. exists nq, s2, (tail gq ++ [q]). split; [done|]. split; [done|]. split; [by exists w'|]. rewrite (proj2 (Z.eqb_neq nq 0)) by done.
      split; [exact Hi2|]. rewrite E2. apply evolved_step; try done; [|apply grew_refl].
      intros d y Hd. exists y. by split_and!. }
  mrun Hrun2. destruct (release_step _ _ _ _ _ _ _ _ _ c (work ++ crea) Hi2) as (r3 & s3 & gq3 & qs3 & Hrun3 & Hi3 & Ev3).
  mrun Hrun3. exists r, s3, gq3, qs3, (held0 ++ k). split; [done|]. split; [done|]. split.
  { exists w2, r3, s3, (n_mq s3). assert (s2 = set_mq w2 s) as <- by (by rewrite E2, E1). split; [by eapply inv_same_mail|].
    split; [done|]. assert (set_mq (n_mq s3) s3 = s3) as -> by (by destruct s3). split; [by eapply inv_same_mail|done]. }
  split; [done|].
  split; [by apply submseteq_inserts_r|].
  eapply evolved_trans; [|exact Ev3]. eapply evolved_trans; [|exact Ev2]. destruct Ev1. split; try done.
  intros d y Hd. apply ev_ctx. by right.
Qed.

Lemma dispatch_served s R gq qs held work crea bufs resv sm q weight a c :
  inv s R gq qs held (q :: work) crea bufs resv -> q <> 0 -> qs !! q = Some a ->
  reg_ctx R !! a_handle a = Some c -> is_Some (n_mon s !! sm) ->
  exists r s' R' gq' qs' held' bufs' resv' s1 s2,
    skynet_context_message_dispatch sm q weight s = Some (r, s') /\
    skynet_handle_grab (a_handle a) s = Some (c, s1) /\
    handled sm q (a_handle a) c (take (Z.to_nat (batch_size weight (zlen (a_msgs a)))) (a_msgs a)) s1 s2 /\ round_ends c s2 s' /\
    inv s' R' gq' qs' held' (owned r ++ work) crea bufs' resv' /\
    evolved s s' qs qs' held held' bufs bufs' (work ++ crea) /\ (a_msgs a <> [] -> r <> 0).
Proof.
  intros Hi Hq Ha Hc Hm. unfold skynet_context_message_dispatch.
  rewrite (proj2 (Z.eqb_neq q 0)) by done. rewrite bind_ret, (proj2 (Z.eqb_neq q 0)) by done.
  destruct (inv_length _ _ _ _ _ _ _ _ _ q a Hi Ha) as [_ Hh].
  assert (reads (fun s => skynet_mq_handle q (n_mq s)) s = Some (a_handle a, s)) as Hrd by (unfold reads; by rewrite Hh).
  mrun Hrd. destruct (grab_step _ _ _ _ _ _ _ _ _ _ c (work ++ crea) Hi Hc) as (x & s1 & Hx & Hxh & Hgrab & Hi1 & Ev1 & Hx1 & M1).
  mrun Hgrab. rewrite (proj2 (Z.eqb_neq c 0)) by (by eapply reg_ctx_nonzero; [apply Hi|]).
  destruct (iv_owner _ _ _ _ _ _ _ _ _ Hi q a c Ha Hc) as (x' & Hx' & Hxq). assert (x' = x) as -> by congruence.
  destruct (inv_length _ _ _ _ _ _ _ _ _ q a Hi1 Ha) as [Hlen _].
  assert (reads (fun s => skynet_mq_length q (n_mq s)) s1 = Some (zlen (a_msgs a), s1)) as Hrd1 by (unfold reads; by rewrite Hlen).
  mrun Hrd1.
  assert (cx_init x = true) as Hxi.
  { destruct (cx_init x) eqn:E; [done|]. exfalso.
    pose proof (iv_init _ _ _ _ _ _ _ _ _ Hi c x Hx ltac:(congruence) E) as Hcr. rewrite Hxq in Hcr.
    pose proof (co_nodup _ _ _ _ (iv_core _ _ _ _ _ _ _ _ _ Hi)) as Hnd. apply NoDup_app in Hnd as (_ & _ & Hnd).
    simpl in Hnd. apply NoDup_cons in Hnd as [Hni _]. apply Hni, elem_of_app. by right. }
  assert (serving s1 qs (c :: held) q (a_handle a) c sm) as Hs.
  { split; [eauto|]. split; [apply list_elem_of_here|]. rewrite M1. split; [|done]. eexists. split; [exact Hx1|done]. }
  destruct (a_msgs a) as [|m ms] eqn:Hms.
  - destruct (inv_queue _ _ _ _ _ _ _ _ _ c x Hi Hx) as (b & Hb & Hr & _). rewrite Hxq, Ha in Hb. injection Hb as <-.
    destruct (inv_pop _ _ _ _ _ _ _ _ _ q a Hi1 Ha Hr (iv_init _ _ _ _ _ _ _ _ _ Hi1)) as (s2 & Hpop & (w2 & E2) & Hi2).
    rewrite Hms in Hpop, Hi2. simpl in Hpop.
    destruct (release_step _ _ _ _ _ _ _ _ _ c (work ++ crea) Hi2) as (r3 & s3 & gq3 & qs3 & Hrun3 & Hi3 & Ev3).
    destruct (take_step _ _ _ _ _ _ _ _ _ (work ++ crea) bufs Hi3) as (r4 & s4 & Hrun4 & _ & Hi4 & Ev4).
    exists r4, s4, R, (tail gq3), qs3, held, bufs, resv, s1, s1. split.
    { cbn [dispatch_loop]. change (0 <? 1) with true. cbn iota. rewrite bind_assoc. mrun Hpop. cbn beta iota.
      rewrite bind_assoc. mrun Hrun3. rewrite bind_assoc. mrun Hrun4. done. }
    split; [done|]. split; [apply handled_nil|]. split.
    { destruct (take_keeps _ _ _ _ _ _ _ _ _ _ _ Hi3 Hrun4) as (w4 & E4 & Hsm). exists w2, r3, s3, w4. rewrite <- E2, <- E4.
      split; [|done]. eapply inv_same_mail; [exact Hi1|exact Hi2|]. intros p. destruct (decide (p = q)) as [->|];
        [rewrite Ha, lookup_insert_eq; simpl; by rewrite Hms|by rewrite lookup_insert_ne]. }
    split; [done|]. split; [|done].
    eapply evolved_trans; [|exact Ev4]. eapply evolved_trans; [|exact Ev3].
    assert (q ∉ work ++ crea) as Hni.
    { pose proof (co_nodup _ _ _ _ (iv_core _ _ _ _ _ _ _ _ _ Hi)) as Hnd.
      apply NoDup_app in Hnd as (_ & _ & Hnd). by apply NoDup_cons in Hnd as [? _]. }
    destruct Ev1. rewrite E2. split; try done; simpl.
    + intros p b Hp Hb. rewrite lookup_insert_ne by congruence. by eexists.
  - rewrite <- Hms.
    destruct (loop_served s1 R gq qs (c :: held) work crea bufs resv sm q weight (a_handle a) c a m ms Hi1 Hs Ha Hms)
      as (s2 & R2 & gq2 & qs2 & held2 & bufs2 & resv2 & Hrun2 & Hh2 & Hi2 & Hs2 & Ev2). mrun Hrun2. cbn beta iota.
    destruct (finish_served s2 R2 gq2 qs2 held held2 work crea bufs2 resv2 q (a_handle a) c sm Hi2 Hs2 Hq (ev_held _ _ _ _ _ _ _ _ _ Ev2))
      as (r & s3 & gq3 & qs3 & held3 & Hrun3 & Hr & Hend & Hi3 & Hsub & Ev3). rewrite Hrun3.
    exists r, s3, R2, gq3, qs3, held3, bufs2, resv2, s1, s2. do 5 (split; [done|]). split; [|done].
    eapply evolved_drop; [by eapply evolved_trans|done|done].
Qed.
End worker.
