(* ===== verification/Launch.v ===== *)
(** Creating a service: skynet_context_new of skynet-src/skynet_server.c, from the
    module to the registered context whose mailbox the workers may take, or back
    to a node without it when the module refuses. *)

From S2P Require Import Prelude Types CString Timer MessageQueue SkynetModule Handle Node Server NodeInv NodeOps Sending Dispatching Worker.
Local Open Scope Z_scope.

(** A create function makes an instance and knows nothing of the node; an init
    function returns and respects its caller. *)
Class SafeModules `{LawfulServices} : Prop := {
  run_create_law : forall fn s, exists r s', run_create fn s = Some (r, s') /\ quiet s s';
  run_init_law : forall fn inst ctx param s R gq qs held work crea bufs resv,
    inv s R gq qs held work crea bufs resv -> ctx ∈ held ->
    runs (run_init fn inst ctx param) s qs held bufs work crea (fun _ => [])
}.

(** The handle that the next registration gives. *)
Definition next_handle (s : node) : option Z :=
  fst <$> register_loop (fun c => cx_handle <$> n_ctx s !! c) 2 (n_brk s) (n_H s).

Section launch.
Context `{SafeModules}.
Implicit Types (s : node) (R : registry) (gq held work crea bufs : list Z) (qs : gmap Z aqueue).

Lemma inv_quiet s s' R gq qs held work crea bufs resv :
  quiet s s' -> inv s R gq qs held work crea bufs resv -> inv s' R gq qs held work crea bufs resv.
Proof. intros [] Hi. eapply inv_same; [..|exact Hi]; try done. by rewrite qt_G. Qed.

(** The module table may get a module. *)
Lemma inv_modules s M' l l' R gq qs held work crea bufs resv :
  modules_ok (n_M s) l -> modules_ok M' l' -> l `prefix_of` l' ->
  inv s R gq qs held work crea bufs resv -> inv (set_M M' s) R gq qs held work crea bufs resv.
Proof.
  intros Hm Hm' Hp Hi. pose proof Hi as [].
  assert (core (set_M M' s) gq qs (work ++ crea)) as Hcore.
  { destruct iv_core. split; try done. intros c x Hx. destruct (co_mod c x Hx) as [m Hmo]. exists m.
    by apply (modules_prefix (n_M s) M' l l'). }
  split; try done. apply (reg_rep_ext s); [done| |done]. intros h c Hc. split; [|done].
  destruct (inv_alive _ _ _ _ _ _ _ _ _ h c Hi Hc) as (x & Hx & _). split; [|eauto].
  exists x. split; [done|]. by apply (iv_ctx c).
Qed.

(** ** A context without a mailbox *)

Lemma core_malloc s gq qs out x m :
  core s gq qs out -> 0 < n_brk s -> cx_queue x = 0 -> zget (ms_m (n_M s)) (cx_mod x) = Some (Some m) ->
  core (set_brk (n_brk s + 1) (set_ctx (<[n_brk s := x]> (n_ctx s)) s)) gq qs out.
Proof.
  intros [] Hb Hq Hm. split; simpl; try done.
  - intros c y [[<- <-]|[Hne Hy]]%lookup_insert_Some; [done|]. eauto.
  - intros c c' y y' [[<- <-]|[Hne Hy]]%lookup_insert_Some; [done|].
    intros [[<- <-]|[Hne' Hy']]%lookup_insert_Some; [congruence|]. eauto.
  - intros c [<-|Hc]%lookup_insert_is_Some'; [lia|]. specialize (co_brk c Hc). lia.
  - intros c y [[<- <-]|[Hne Hy]]%lookup_insert_Some; eauto.
Qed.

Lemma ctx_fresh s gq qs out : core s gq qs out -> n_ctx s !! n_brk s = None.
Proof.
  intros []. destruct (n_ctx s !! n_brk s) eqn:E; [|done].
  assert (0 < n_brk s < n_brk s) by (apply co_brk; eauto). lia.
Qed.

(** The state after the registered context has got its handle and its mailbox. *)
Definition created (s3 : node) (c : Z) (hs : handle_storage) (x : skynet_context) (h p : Z) (w : mqworld) : node :=
  set_G (g_set_total (g_total (n_G s3) + 1) (n_G s3))
    (set_ctx (<[c := cx_set_queue p (cx_set_handle h x)]> (n_ctx s3)) (set_mq w (set_H hs s3))).

Lemma core_created s gq qs out x h p w hs m :
  core s gq qs out -> 0 < n_brk s -> cx_queue x = 0 -> zget (ms_m (n_M s)) (cx_mod x) = Some (Some m) ->
  skynet_mq_create h (n_mq s) = (p, w) ->
  let s3 := set_brk (n_brk s + 1) (set_ctx (<[n_brk s := x]> (n_ctx s)) s) in
  core (created s3 (n_brk s) hs x h p w) gq (<[p := AQ h [] MQ_IN_GLOBAL 0]> qs) (p :: out) /\
  qs !! p = None /\ p <> 0 /\ p ∉ gq ++ out.
Proof.
  intros Hcore Hb Hq Hm Hcr s3. pose proof Hcore as [].
  pose proof (mq_create_spec (n_mq s) gq qs h co_world) as Hspec. rewrite Hcr in Hspec.
  destruct Hspec as (_ & Hqp & Hp0 & Hw & Hpg).
  assert (p ∉ gq ++ out) as Hpo by (intros [? ?]%co_out; congruence).
  assert (gq ++ p :: out ≡ₚ p :: gq ++ out) as Hperm by solve_Permutation.
  split; [|done]. split; simpl; try done.
  - rewrite Hperm. by apply NoDup_cons.
  - intros q a [[<- <-]|[Hne Ha]]%lookup_insert_Some; unfold scheduled; rewrite Hperm, elem_of_cons.
    + split_and!; auto.
    + destruct (co_sched q a Ha) as (? & Hin & Hs). split_and!; [done|tauto|].
      intros Hr [->|]; [congruence|auto].
  - intros q Hq'. rewrite Hperm in Hq'. apply elem_of_cons in Hq' as [->|Hq']; [rewrite lookup_insert_eq; eauto|].
    rewrite lookup_insert_ne by (intros <-; done). auto.
  - intros d y. rewrite insert_insert_eq. intros [[<- <-]|[Hne Hy]]%lookup_insert_Some; simpl.
    + intros _. rewrite lookup_insert_eq. by eexists.
    + intros Hyq. destruct (co_queue d y Hy Hyq) as (a & Ha & ?). exists a. rewrite lookup_insert_ne by congruence. done.
  - intros d d' y y'. rewrite insert_insert_eq.
    intros [[<- <-]|[Hne Hy]]%lookup_insert_Some [[<- <-]|[Hne' Hy']]%lookup_insert_Some; simpl; intros Hyq E; [done|..|eauto].
    + destruct (co_queue d' y' Hy') as (a & Ha & _); congruence.
    + destruct (co_queue d y Hy) as (a & Ha & _); congruence.
  - intros d. rewrite insert_insert_eq. intros [<-|Hd]%lookup_insert_is_Some'; [lia|]. specialize (co_brk d Hd). lia.
  - intros d y. rewrite insert_insert_eq. intros [[<- <-]|[Hne Hy]]%lookup_insert_Some; simpl; eauto.
Qed.

(** ** Registering it *)

(** From the allocation of the context to the mailbox: nothing can fail, and the
    invariant holds again, with the creator's reference and its mailbox. *)
Lemma create_context s R gq qs held work crea bufs resv x m :
  inv s R gq qs held work crea bufs resv -> can_register (n_H s) ->
  (forall p a, qs !! p = Some a -> next_handle s <> Some (a_handle a)) ->
  cx_queue x = 0 -> cx_ref x = 2 -> cx_init x = false -> zget (ms_m (n_M s)) (cx_mod x) = Some (Some m) ->
  let c := n_brk s in
  let s3 := set_brk (c + 1) (set_ctx (<[c := x]> (n_ctx s)) s) in
  exists h hs p w, skynet_handle_register c s3 = Some (h, set_H hs s3) /\ next_handle s = Some h /\
    skynet_mq_create h (n_mq s) = (p, w) /\ qs !! p = None /\ n_ctx s !! c = None /\
    inv (created s3 c hs x h p w) (Reg (<[h := c]> (reg_ctx R)) (reg_names R)) gq
      (<[p := AQ h [] MQ_IN_GLOBAL 0]> qs) (c :: held) work (p :: crea) bufs resv.
Proof.
  intros Hi Hcan Hnext Hq Hr Hin Hm c s3. pose proof Hi as [].
  pose proof (ctx_fresh _ _ _ _ iv_core) as Hfr. fold c in Hfr.
  assert (core s3 gq qs (work ++ crea)) as Hcore3 by (by eapply core_malloc).
  assert (forall h d, reg_ctx R !! h = Some d -> exists y, n_ctx s !! d = Some y /\ d <> c) as Hreg.
  { intros h d Hd. destruct (inv_alive _ _ _ _ _ _ _ _ _ h d Hi Hd) as (y & Hy & _).
    exists y. split; [done|]. intros ->. congruence. }
  assert (reg_rep s3 R) as Hrep3.
  { apply (reg_rep_ext s); [done| |done]. intros h d Hd. destruct (Hreg h d Hd) as (y & Hy & Hne).
    unfold node_alive. simpl. rewrite lookup_insert_ne by done. split; [|done]. split; [|eauto].
    exists y. split; [done|]. by apply (iv_ctx d). }
  assert (forall i d, zget (hs_slot (n_H s)) i = Some d -> d <> 0 -> exists y, n_ctx s !! d = Some y) as Hslot.
  { intros i d Hd Hd0. destruct (tb_slot _ _ (rr_table _ _ iv_reg) i d Hd Hd0) as (l & Hl & _). simpl in Hl.
    destruct (n_ctx s !! d); [eauto|done]. }
  assert (c <> 0) as Hc0 by (unfold c; lia).
  destruct (register_fresh_full s3 R c Hrep3 Hcan Hc0) as (h & s4 & Hrun & (hs & -> & Hharb) & Hh & Hnone & Hpost).
  { intros h Hd. by destruct (Hreg h c Hd) as (y & _ & ?). }
  { intros i Hi'. destruct (Hslot i c Hi' Hc0). congruence. }
  destruct (skynet_mq_create h (n_mq s)) as [p w] eqn:Hcr. exists h, hs, p, w.
  change (put_H hs s3) with (set_H hs s3) in *.
  assert (next_handle s = Some h) as Hnh.
  { unfold skynet_handle_register in Hrun. unfold next_handle.
    change (get_H s3) with (n_H s) in Hrun. fold c.
    rewrite (register_loop_ext _ (fun d => context_handle d s3)).
    - destruct (register_loop _ 2 c (n_H s)) as [[h' s']|]; [|done]. simpl in *. congruence.
    - intros d [i Hi']%list_elem_of_lookup. simpl. destruct (decide (d = 0)) as [->|Hd0].
      + rewrite lookup_insert_ne by done. done.
      + rewrite <- zget_nat in Hi'. destruct (Hslot _ _ Hi' Hd0) as [y Hy].
        rewrite lookup_insert_ne; [done|congruence]. }
  destruct (core_created s gq qs (work ++ crea) x h p w hs m iv_core iv_brk Hq Hm Hcr) as (Hcore & Hqp & Hp0 & Hpo).
  fold c s3 in Hcore. do 3 (split; [done|]). split; [done|]. split; [done|].
  assert (core (created s3 c hs x h p w) gq (<[p := AQ h [] MQ_IN_GLOBAL 0]> qs) (work ++ p :: crea)) as Hcore'.
  { destruct Hcore. assert (gq ++ p :: work ++ crea ≡ₚ gq ++ work ++ p :: crea) as E by solve_Permutation.
    split; try done; [by rewrite <- E| |].
    - intros q a Ha. unfold scheduled. rewrite <- E. by apply co_sched.
    - intros q. rewrite <- E. auto. }
  assert (c ∉ held) as Hch by (intros [y ?]%iv_held; congruence).
  assert (forall d y, n_ctx s !! d = Some y -> d <> c) as Hdc by (intros d y Hy ->; congruence).
  assert (forall k d, d <> c -> <[h := c]> (reg_ctx R) !! k = Some d <-> reg_ctx R !! k = Some d) as Hregd.
  { intros k d Hd. destruct (decide (h = k)) as [<-|]; [|by rewrite lookup_insert_ne].
    rewrite lookup_insert_eq, Hnone. split; congruence. }
  assert (remote_ref s c = 0) as Hrem0.
  { unfold remote_ref. rewrite bool_decide_false; [done|]. intros E.
    destruct iv_remote as [y Hy]; [congruence|]. rewrite E in Hy. congruence. }
  split; simpl; rewrite ?insert_insert_eq; try done.
  - apply Hpost; [done| | |]; simpl; rewrite ?insert_insert_eq.
    + by rewrite lookup_insert_eq.
    + split; [|eauto]. simpl. rewrite insert_insert_eq, lookup_insert_eq. by eexists.
    + intros d Hd. rewrite !lookup_insert_ne by done. split; [done|]. intros (Hy & _). split; [|eauto].
      simpl in *. rewrite insert_insert_eq. by rewrite lookup_insert_ne in Hy |- * by done.
  - intros d y [[<- <-]|[Hne Hy]]%lookup_insert_Some; simpl.
    + change (remote_ref (created s3 c hs x h p w) c) with (remote_ref s c).
      unfold registered_as. simpl. rewrite lookup_insert_eq, bool_decide_true, refs_cons, bool_decide_true, refs_zero, Hrem0, Hr by done.
      simpl. split_and!; done.
    + change (remote_ref (created s3 c hs x h p w) d) with (remote_ref s d).
      rewrite refs_cons, bool_decide_false by done. simpl.
      assert (registered_as (Reg (<[h:=c]> (reg_ctx R)) (reg_names R)) (cx_handle y) d = registered_as R (cx_handle y) d) as ->.
      { unfold registered_as. f_equal. apply bool_decide_ext. simpl. by apply Hregd. }
      by apply iv_ctx.
  - intros d y [[<- <-]|[Hne Hy]]%lookup_insert_Some; simpl; intros Hk Hyi; [apply list_elem_of_here|].
    right. apply (iv_init d); [done| |done]. by apply Hregd in Hk.
  - intros d [->|Hd]%elem_of_cons; [rewrite lookup_insert_eq; eauto|].
    rewrite lookup_insert_ne by (intros <-; done). auto.
  - intros q a d [[<- <-]|[Hne Ha]]%lookup_insert_Some; simpl.
    + rewrite lookup_insert_eq. intros [= <-]. rewrite lookup_insert_eq. by eexists.
    + intros Hd. assert (a_handle a <> h) as Hah by (intros E; apply (Hnext q a Ha); congruence).
      rewrite lookup_insert_ne in Hd by done. destruct (iv_owner q a d Ha Hd) as (y & Hy & Hyq).
      exists y. split; [|done]. rewrite lookup_insert_ne; [done|]. intros <-. congruence.
  - intros q a [[<- <-]|[Hne Ha]]%lookup_insert_Some; [|eauto]. simpl. split; [|by left].
    destruct (tb_harbor _ _ (rr_table _ _ Hrep3)) as (b & Hb & Eb). change (get_H s3) with (n_H s) in *. lia.
  - rewrite ptrs_insert, delete_id by done. done.
  - intros q Hq'. apply iv_alloc. rewrite ptrs_insert, delete_id in Hq' by done. done.
  - intros q Hq'. specialize (iv_membrk q Hq'). unfold c. lia.
  - unfold c. lia.
  - rewrite iv_total, map_size_insert_None by done. lia.
  - by rewrite iv_harbor, Hharb.
  - intros Hrm. destruct (iv_remote Hrm) as [y Hy]. rewrite lookup_insert_ne; [eauto|]. intros E. by apply (Hdc _ _ Hy).
Qed.

(** ** After the init function *)

(** Only its owner has the mailbox of a context. *)
Lemma queue_owner s R gq qs held work crea bufs resv c d x y :
  inv s R gq qs held work crea bufs resv -> n_ctx s !! c = Some x -> n_ctx s !! d = Some y ->
  cx_queue y = cx_queue x -> d = c.
Proof.
  intros Hi Hx Hy E. apply (co_inj _ _ _ _ (iv_core _ _ _ _ _ _ _ _ _ Hi) d c y x Hy Hx); [|done].
  by apply (iv_ctx _ _ _ _ _ _ _ _ _ Hi d).
Qed.

Lemma ctx_nonzero s R gq qs held work crea bufs resv c x :
  inv s R gq qs held work crea bufs resv -> n_ctx s !! c = Some x -> c <> 0.
Proof.
  intros Hi Hx. assert (0 < c < n_brk s); [|lia].
  apply (co_brk _ _ _ _ (iv_core _ _ _ _ _ _ _ _ _ Hi)). eauto.
Qed.

(** The mailbox of the new service goes to the global queue. *)
Lemma give_created s R gq qs held work crea bufs resv p keep bufs0 :
  inv s R gq qs held work (p :: crea) bufs resv ->
  (forall d y, n_ctx s !! d = Some y -> cx_queue y = p -> cx_init y = true) ->
  exists s', mq_step (skynet_globalmq_push p) s = Some (tt, s') /\ n_ctx s' = n_ctx s /\
    inv s' R (gq ++ [p]) qs held work crea bufs resv /\ evolved s s' qs qs held held bufs0 bufs0 keep.
Proof.
  intros Hi Hp. destruct (inv_give s R gq qs held work work (p :: crea) crea bufs resv p Hi) as (s' & Hrun & Hi' & w' & ->).
  - solve_Permutation.
  - intros d y Hy Hreg Hin. apply (iv_init _ _ _ _ _ _ _ _ _ Hi d y Hy Hreg) in Hin as Hq.
    apply elem_of_cons in Hq as [E|]; [|done]. rewrite (Hp d y Hy E) in Hin. done.
  - eexists. split; [done|]. split; [done|]. split; [done|]. apply evolved_step; try done; [|apply grew_refl].
    intros d y Hd. exists y. by split_and!.
Qed.

Lemma launch_success s R gq qs held work crea bufs resv c p x text :
  inv s R gq qs (c :: held) work (p :: crea) bufs resv -> n_ctx s !! c = Some x -> cx_queue x = p ->
  exists r s' gq' qs', (
      ret_ <- skynet_context_release c ;;
      when (negb (ret_ =? 0)) (update c (cx_set_init true)) ;;;
      mq_step (skynet_globalmq_push p) ;;;
      when (negb (ret_ =? 0)) (skynet_error ret_ text) ;;;
      ret ret_)%node s = Some (r, s') /\
    inv s' R gq' qs' held work crea bufs resv /\ evolved s s' qs qs' held held bufs bufs (work ++ crea) /\
    (r <> 0 -> r = c /\ exists x', n_ctx s' !! c = Some x' /\ cx_init x' = true /\ same_ctx x x').
Proof.
  intros Hi Hx Hxq. pose proof (ctx_nonzero _ _ _ _ _ _ _ _ _ _ _ Hi Hx) as Hc0.
  destruct (release_step_full _ _ _ _ _ _ _ _ _ c (work ++ crea) Hi)
    as (r & s1 & gq1 & qs1 & x0 & Hrun & Hi1 & Ev1 & Hx0 & Hrel).
  assert (x0 = x) as -> by congruence. mrun Hrun. unfold released in Hrel. destruct (cx_ref x =? 1).
  - destruct Hrel as (-> & C1 & _). change (when (negb (0 =? 0)) ?m) with (ret tt). rewrite bind_ret.
    destruct (give_created _ _ _ _ _ _ _ _ _ p (work ++ crea) bufs Hi1) as (s2 & Hrun2 & _ & Hi2 & Ev2).
    { intros d y Hy E. rewrite C1 in Hy. apply lookup_delete_Some in Hy as [Hne Hy]. destruct Hne. symmetry.
      apply (queue_owner _ _ _ _ _ _ _ _ _ c d x y Hi Hx Hy). congruence. }
    mrun Hrun2. exists 0, s2, (gq1 ++ [p]), qs1. split; [done|]. split; [done|]. split; [by eapply evolved_trans|done].
  - destruct Hrel as (-> & C1 & _). rewrite (proj2 (Z.eqb_neq c 0)) by done. cbn [negb]. unfold when.
    assert (n_ctx s1 !! c = Some (cx_set_ref (cx_ref x - 1) x)) as Hx1 by (rewrite C1; apply lookup_insert_eq).
    set (x1 := cx_set_ref (cx_ref x - 1) x) in *.
    assert (update c (cx_set_init true) s1 = Some (tt, set_ctx (<[c := cx_set_init true x1]> (n_ctx s1)) s1)) as Hrun2
      by (unfold update, steps; by rewrite Hx1).
    mrun Hrun2. set (s2 := set_ctx _ s1) in *.
    assert (inv s2 R gq1 qs1 held work (p :: crea) bufs resv) as Hi2.
    { by apply (inv_field s1 R gq1 qs1 held work (p :: crea) bufs resv c x1). }
    assert (n_ctx s2 !! c = Some (cx_set_init true x1)) as Hx2 by apply lookup_insert_eq.
    destruct (give_created _ _ _ _ _ _ _ _ _ p (work ++ crea) bufs Hi2) as (s3 & Hrun3 & C3 & Hi3 & Ev3).
    { intros d y Hy E. assert (d = c) as ->
        by (apply (queue_owner _ _ _ _ _ _ _ _ _ c d _ y Hi2 Hx2 Hy); simpl; congruence).
      assert (y = cx_set_init true x1) as -> by congruence. done. }
    mrun Hrun3. destruct (inv_error _ _ _ _ _ _ _ _ _ c text Hi3) as (s4 & gq4 & qs4 & Hrun4 & Hi4 & F4 & C4 & _ & G4).
    { right. rewrite C3. eauto. }
    mrun Hrun4. exists c, s4, gq4, qs4. split; [done|]. split; [done|]. split.
    + eapply evolved_trans; [exact Ev1|]. eapply evolved_trans; [|by apply evolved_frame].
      eapply evolved_trans; [|exact Ev3]. split; try done; [intros q a _ Ha; by eexists|].
      intros d y Hd Hy. destruct (decide (c = d)) as [<-|]; [|simpl; rewrite lookup_insert_ne by done; exists y; by split_and!].
      simpl. rewrite lookup_insert_eq. eexists. split; [done|]. assert (y = x1) as -> by congruence. by split_and!.
    + intros _. split; [done|]. exists (cx_set_init true x1). rewrite C4, C3. by split_and!.
Qed.

(** The module refused: the references are given back, and the mailbox goes too,
    or to the global queue when somebody still has the context. *)
Lemma launch_failure s R gq qs held work crea bufs resv c p x text :
  inv s R gq qs (c :: held) work (p :: crea) bufs resv -> n_ctx s !! c = Some x -> cx_queue x = p ->
  n_REMOTE s <> 0 ->
  exists s' R' gq' qs', (
      skynet_error c text ;;;
      handle <- skynet_context_handle c ;;
      _ <- skynet_context_release c ;;
      _ <- skynet_handle_retire handle ;;
      release_mailbox p handle ;;;
      ret 0)%node s = Some (0, s') /\
    inv s' R' gq' qs' held work crea bufs resv /\ evolved s s' qs qs' held held bufs bufs (work ++ crea).
Proof.
  intros Hi Hx Hxq Hrem.
  destruct (inv_error _ _ _ _ _ _ _ _ _ c text Hi) as (s1 & gq1 & qs1 & Hrun1 & Hi1 & F1 & C1 & _ & G1); [eauto|].
  mrun Hrun1. rewrite <- C1 in Hx.
  assert (skynet_context_handle c s1 = Some (cx_handle x, s1)) as Hh.
  { unfold skynet_context_handle. by rewrite (bind_deref _ _ _ _ Hx). }
  mrun Hh. destruct (inv_queue _ _ _ _ _ _ _ _ _ c x Hi1 Hx) as (a & Ha & _ & Hah). rewrite Hxq in Ha.
  destruct (release_step _ _ _ _ _ _ _ _ _ c (p :: work ++ crea) Hi1) as (r2 & s2 & gq2 & qs2 & Hrun2 & Hi2 & Ev2).
  mrun Hrun2. destruct (retire_step _ _ _ _ _ _ _ _ _ (cx_handle x) (p :: work ++ crea) Hi2)
    as (r3 & s3 & R3 & gq3 & qs3 & Hrun3 & Hi3 & Ev3 & Hnone). mrun Hrun3.
  pose proof (evolved_trans _ _ _ _ _ _ _ _ _ _ _ _ _ Ev2 Ev3) as Ev23.
  destruct (ev_queue _ _ _ _ _ _ _ _ _ Ev23 p a) as (a3 & Ha3 & Hah3 & _); [by left|done|].
  destruct (release_mailbox_spec work (p :: crea) work crea p ltac:(solve_Permutation) ltac:(intros q [->|]%elem_of_cons; auto)
    s3 R3 gq3 qs3 held bufs resv a3 Hi3 Ha3) as (s4 & gq4 & qs4 & Hrun4 & Hi4 & F4 & C4 & Hcase).
  { apply (ev_remote _ _ _ _ _ _ _ _ _ Ev23). by rewrite (fr_REMOTE _ _ F1). }
  { intros _ d y Hy Hreg Hin. pose proof (iv_init _ _ _ _ _ _ _ _ _ Hi3 d y Hy Hreg Hin) as [Hq|]%elem_of_cons; [|done].
    destruct (inv_queue _ _ _ _ _ _ _ _ _ d y Hi3 Hy) as (b & Hb & _ & Hbh). rewrite Hq in Hb. congruence. }
  rewrite Hah3, Hah in Hrun4. mrun Hrun4. exists s4, R3, gq4, qs4. split; [done|]. split; [done|].
  eapply evolved_trans; [by apply evolved_frame|]. eapply evolved_trans; [eapply evolved_keep; [|exact Ev23]; intros q Hq; by right|].
  assert (p ∉ work ++ crea) as Hni.
  { pose proof (co_nodup _ _ _ _ (iv_core _ _ _ _ _ _ _ _ _ Hi3)) as Hnd.
    apply NoDup_app in Hnd as (_ & _ & Hnd). rewrite <- Permutation_middle in Hnd. by apply NoDup_cons in Hnd as [? _]. }
  by eapply evolved_mailbox.
Qed.

(** ** skynet_context_new *)

(** The module table holds loaded modules, and its search path has a wildcard. *)
Definition loadable (s : node) : Prop :=
  exists l, modules_ok (n_M s) l /\ valid_path (String.length (ms_path (n_M s))) (ms_path (n_M s)) = true.

Lemma module_query_step s R gq qs held work crea bufs resv name keep bufs0 :
  inv s R gq qs held work crea bufs resv -> loadable s ->
  exists r M', module_query name s = Some (r, set_M M' s) /\
    inv (set_M M' s) R gq qs held work crea bufs resv /\
    evolved s (set_M M' s) qs qs held held bufs0 bufs0 keep /\
    (forall i, r = Some i -> exists m, zget (ms_m M') i = Some (Some m) /\ sm_name m = name).
Proof.
  intros Hi (l & Hok & Hv). destruct (module_query_spec dlopen dlsym (n_M s) l name Hok Hv) as (r & M' & l' & Hq & Hok' & _ & Hp & Hr).
  exists r, M'. unfold module_query. rewrite Hq. split; [done|]. split; [by eapply inv_modules|]. split.
  - apply evolved_step; try done; [|apply grew_refl]. intros d y Hd. exists y. by split_and!.
  - intros i ->. destruct Hr as (m & Hm & Hn & _). exists m. split; [|done].
    rewrite (mo_get _ _ Hok'), Hm; [done|]. exact (zget_in _ _ _ Hm).
Qed.

Lemma instance_create_step s R gq qs held work crea bufs resv i m keep bufs0 :
  inv s R gq qs held work crea bufs resv -> zget (ms_m (n_M s)) i = Some (Some m) ->
  exists r s', skynet_module_instance_create i s = Some (r, s') /\ quiet s s' /\
    inv s' R gq qs held work crea bufs resv /\ evolved s s' qs qs held held bufs0 bufs0 keep.
Proof.
  intros Hi Hm. assert (exists r s', skynet_module_instance_create i s = Some (r, s') /\ quiet s s') as (r & s' & Hrun & Hq).
  { unfold skynet_module_instance_create, bind, module_at, reads. rewrite Hm. simpl.
    destruct (negb _); [apply run_create_law|]. eexists _, s. split; [done|apply quiet_refl]. }
  exists r, s'. split; [done|]. split; [done|]. split; [by eapply inv_quiet|]. destruct Hq.
  apply evolved_step; try done; [| |apply grew_refl].
  - intros d y Hd. rewrite qt_ctx. exists y. by split_and!.
  - intros sm. by rewrite qt_mon.
Qed.

(** Init functions accept this parameter. *)
Definition accepted (param : option string) : Prop :=
  forall fn inst ctx s r s', run_init fn inst ctx param s = Some (r, s') -> r = 0.

Lemma update_run c f s x : n_ctx s !! c = Some x ->
  update c f s = Some (tt, set_ctx (<[c := f x]> (n_ctx s)) s).
Proof. intros Hx. unfold update, steps. by rewrite Hx. Qed.

(** The launch of a service never fails to return, whatever the module does within
    its law: the node is as good as before and its other users see nothing of
    it; a context it returns is new, has the next handle, and is initialised. *)
Lemma new_spec s R gq qs held work crea bufs resv name param :
  inv s R gq qs held work crea bufs resv -> loadable s -> can_register (n_H s) ->
  (forall p a, qs !! p = Some a -> next_handle s <> Some (a_handle a)) -> n_REMOTE s <> 0 \/ accepted param ->
  exists r s' R' gq' qs' held' bufs' resv', skynet_context_new name param s = Some (r, s') /\
    inv s' R' gq' qs' held' work crea bufs' resv' /\ evolved s s' qs qs' held held' bufs bufs' (work ++ crea) /\
    (r <> 0 -> n_ctx s !! r = None /\ exists x, n_ctx s' !! r = Some x /\ cx_init x = true /\
      next_handle s = Some (cx_handle x)).
Proof.
  intros Hi Hload Hcan Hnext Hrem. unfold skynet_context_new.
  destruct (module_query_step s R gq qs held work crea bufs resv name (work ++ crea) bufs Hi Hload)
    as (rm & M' & Hrun1 & Hi1 & Ev1 & Hmod). mrun Hrun1. set (s1 := set_M M' s) in *.
  destruct rm as [i|].
  2: { exists 0, s1, R, gq, qs, held, bufs, resv. split; [done|]. split; [done|]. by split. }
  destruct (Hmod i eq_refl) as (m & Hm & _).
  destruct (instance_create_step s1 R gq qs held work crea bufs resv i m (work ++ crea) bufs Hi1 Hm)
    as (inst & s2 & Hrun2 & Hq2 & Hi2 & Ev2). mrun Hrun2.
  pose proof (evolved_trans _ _ _ _ _ _ _ _ _ _ _ _ _ Ev1 Ev2) as Ev12.
  destruct (inst =? 0).
  { exists 0, s2, R, gq, qs, held, bufs, resv. split; [done|]. split; [done|]. by split. }
  rewrite bind_gets. set (x := Ctx inst i 0 0 0 0 0 0 "" 0 0 2 0 false false (g_profile (n_G s2))).
  assert (n_ctx s2 = n_ctx s /\ n_H s2 = n_H s /\ n_brk s2 = n_brk s /\ n_M s2 = M') as (E1 & E2 & E3 & E4) by (destruct Hq2; done).
  assert (next_handle s2 = next_handle s) as E5 by (unfold next_handle; by rewrite E1, E2, E3).
  destruct (create_context s2 R gq qs held work crea bufs resv x m) as (h & hs & p & w & Hreg & Hnh & Hmq & Hqp & Hcx & Hi3);
    try done; [by rewrite E2|by rewrite E5|by rewrite E4|].
  set (c := n_brk s2) in *. set (s3 := created _ c hs x h p w) in Hi3.
  rewrite (bind_run (malloc_context x) _ s2 c (set_brk (c + 1) (set_ctx (<[c := x]> (n_ctx s2)) s2))) by done.
  mrun Hreg.
  mrun (update_run c (cx_set_handle h) (set_H hs (set_brk (c + 1) (set_ctx (<[c := x]> (n_ctx s2)) s2))) x (lookup_insert_eq _ _ _)).
  match goal with |- context [bind (mq_call ?f) _ ?t] =>
    assert (mq_call f t = Some (p, set_mq w t)) as Hrun4 by (unfold mq_call; change (n_mq t) with (n_mq s2); by rewrite Hmq) end.
  mrun Hrun4.
  match goal with |- context [bind (update c (cx_set_queue p)) _ ?t] =>
    mrun (update_run c (cx_set_queue p) t (cx_set_handle h x) (lookup_insert_eq _ _ _)) end.
  match goal with |- context [bind context_inc _ ?t] =>
    assert (context_inc t = Some (tt, s3)) as Hrun5
      by (unfold s3, created, context_inc, modify; simpl; by rewrite !insert_insert_eq) end.
  mrun Hrun5.
  assert (evolved s2 s3 qs (<[p := AQ h [] MQ_IN_GLOBAL 0]> qs) held (c :: held) bufs bufs (work ++ crea)) as Ev3.
  { split; try done; [by apply submseteq_cons| |].
    - intros q a _ Ha. rewrite lookup_insert_ne by congruence. eauto.
    - intros d y _ Hy. assert (d <> c) by congruence. exists y. simpl. rewrite !lookup_insert_ne by done. by split_and!. }
  pose proof (evolved_trans _ _ _ _ _ _ _ _ _ _ _ _ _ Ev12 Ev3) as Ev13.
  assert (n_ctx s3 !! c = Some (cx_set_queue p (cx_set_handle h x))) as Hx3 by apply lookup_insert_eq.
  destruct (run_init_law (sm_init m) inst c param s3 _ _ _ _ _ _ _ _ Hi3 (list_elem_of_here _ _))
    as (r & s4 & R4 & gq4 & qs4 & held4 & bufs4 & resv4 & Hrun6 & Hi4 & Ev4).
  assert (skynet_module_instance_init i inst c param s3 = Some (r, s4)) as Hrun7.
  { unfold skynet_module_instance_init, module_at.
    rewrite (bind_run (reads _) _ s3 m s3); [done|]. unfold reads. 
    change (n_M s3) with (n_M s2). by rewrite E4, Hm. }
  mrun Hrun7.
  assert (evolved s3 s4 (<[p := AQ h [] MQ_IN_GLOBAL 0]> qs) qs4 (c :: held) held4 bufs bufs4 (work ++ crea)) as Ev4'.
  { eapply evolved_keep; [|exact Ev4]. intros q. rewrite !elem_of_app, elem_of_cons. tauto. }
  destruct (ev_ctx _ _ _ _ _ _ _ _ _ Ev4' c _ (list_elem_of_here _ _) Hx3) as (x4 & Hx4 & (Hxq & Hxh & _) & _).
  pose proof (ev_held _ _ _ _ _ _ _ _ _ Ev4') as Hsub. apply submseteq_Permutation in Hsub as [k Hk]. simpl in Hk.
  assert (evolved s s4 qs qs4 held (held ++ k) bufs bufs4 (work ++ crea)) as Ev14.
  { destruct (evolved_trans _ _ _ _ _ _ _ _ _ _ _ _ _ Ev13 Ev4'). split; try done. by apply submseteq_inserts_r. }
  apply (inv_perm _ _ _ _ _ (c :: held ++ k) _ _ bufs4 bufs4) in Hi4; [|done|done].
  destruct (Z.eqb_spec r 0) as [_|Hr0].
  - destruct (launch_success _ _ _ _ _ _ _ _ _ c p x4 ("LAUNCH " ++ name ++ " " ++ default "" param) Hi4 Hx4 Hxq)
      as (r5 & s5 & gq5 & qs5 & Hrun5' & Hi5 & Ev5 & Hr5).
    exists r5, s5, R4, gq5, qs5, (held ++ k), bufs4, resv4. split; [exact Hrun5'|]. split; [done|].
    split; [by eapply evolved_trans|]. intros Hr0. destruct (Hr5 Hr0) as (-> & x5 & Hx5 & Hin5 & _ & Hh5 & _).
    split; [congruence|]. exists x5. split_and!; try done. rewrite <- E5, Hnh, Hh5, Hxh. done.
  - assert (n_REMOTE s4 <> 0) as Hrem4.
    { destruct Hrem as [Hrem|Hacc]; [exact (ev_remote _ _ _ _ _ _ _ _ _ Ev14 Hrem)|]. by apply Hacc in Hrun6. }
    destruct (launch_failure _ _ _ _ _ _ _ _ _ c p x4 ("FAILED launch " ++ name) Hi4 Hx4 Hxq Hrem4)
      as (s5 & R5 & gq5 & qs5 & Hrun5' & Hi5 & Ev5).
    exists 0, s5, R5, gq5, qs5, (held ++ k), bufs4, resv4. split; [exact Hrun5'|]. split; [done|].
    split; [by eapply evolved_trans|done].
Qed.
End launch.
