(* ===== verification/System.v ===== *)
(** The running node: the threads of skynet-src/skynet_start.c over one node.

    A worker thread repeats skynet_context_message_dispatch with the mailbox the last
    round returned, the timer thread repeats skynet_updatetime and passes SIGHUP
    on, the monitor thread checks the workers' monitors.  The rounds follow each other in any order;
    a round is one step, so the interleavings of the steps inside two rounds are
    not covered. *)

From S2P Require Import Prelude Types CString Timer MessageQueue SkynetModule Handle Node Server Commands NodeInv NodeOps Sending Dispatching Delivery Worker Launch.
Local Open Scope Z_scope.

(** ** The threads *)

Record worker := Wk { wk_monitor : Z; wk_weight : Z; wk_queue : Z }.
Definition wk_set_queue (q : Z) (w : worker) : worker := Wk (wk_monitor w) (wk_weight w) q.

Inductive event :=
  | Round (i : nat)       (* one turn of worker [i]'s loop *)
  | Tick (cp : Z)         (* the timer thread reads the clock [cp] *)
  | Check (sm : Z)        (* the monitor thread looks at a worker *)
  | Hup.                  (* the timer thread saw SIGHUP *)

Section threads.
Context `{Services}.

Definition step (e : event) (s : node) (ws : list worker) : option (node * list worker) :=
  match e with
  | Round i =>
      w ← ws !! i;
      '(q, s') ← skynet_context_message_dispatch (wk_monitor w) (wk_queue w) (wk_weight w) s;
      Some (s', <[i := wk_set_queue q w]> ws)
  | Tick cp => '(_, s') ← updatetime cp s; Some (s', ws)
  | Check sm => '(_, s') ← skynet_monitor_check sm s; Some (s', ws)
  | Hup => '(_, s') ← signal_hup s; Some (s', ws)
  end.

Fixpoint run (es : list event) (s : node) (ws : list worker) : option (node * list worker) :=
  match es with
  | [] => Some (s, ws)
  | e :: es' => '(s', ws') ← step e s ws; run es' s' ws'
  end.

(** Only existing workers run, and the monitor thread looks at their monitors. *)
Definition possible (ws : list worker) (e : event) : Prop :=
  match e with
  | Round i => (i < length ws)%nat
  | Check sm => sm ∈ wk_monitor <$> ws
  | Tick _ | Hup => True
  end.

(** The mailboxes in the hands of the workers. *)
Definition taken (ws : list worker) : list Z := ws ≫= fun w => owned (wk_queue w).
End threads.

(** ** Each thread's round keeps the invariant *)

Section system.
Context `{SafeCallbacks}.
Implicit Types (s : node) (R : registry) (gq held work crea bufs : list Z) (qs : gmap Z aqueue).

Lemma dispatch_taken s R gq qs held work crea bufs resv sm q weight :
  q <> 0 -> inv s R gq qs held (q :: work) crea bufs resv -> is_Some (n_mon s !! sm) -> n_REMOTE s <> 0 ->
  exists r s' R' gq' qs' held' bufs' resv',
    skynet_context_message_dispatch sm q weight s = Some (r, s') /\
    inv s' R' gq' qs' held' (owned r ++ work) crea bufs' resv' /\
    evolved s s' qs qs' held held' bufs bufs' (work ++ crea).
Proof.
  intros Hq Hi Hm Hrem.
  destruct (co_out _ _ _ _ (iv_core _ _ _ _ _ _ _ _ _ Hi) q) as [a Ha]; [set_solver|].
  destruct (reg_ctx R !! a_handle a) as [c|] eqn:Hc.
  - destruct (dispatch_served s R gq qs held work crea bufs resv sm q weight a c Hi Hq Ha Hc Hm)
      as (r & s' & R' & gq' & qs' & held' & bufs' & resv' & _ & _ & Hrun & _ & _ & _ & Hi' & Ev & _).
    exists r, s', R', gq', qs', held', bufs', resv'. done.
  - destruct (dispatch_gone s R gq qs held work crea bufs resv sm q weight a Hi Hq Ha Hc Hrem)
      as (r & s' & gq' & qs' & Hrun & Hi' & Ev & _).
    exists r, s', R, gq', qs', held, bufs, resv. done.
Qed.

Lemma dispatch_total s R gq qs held work crea bufs resv sm q weight :
  inv s R gq qs held (owned q ++ work) crea bufs resv -> is_Some (n_mon s !! sm) -> n_REMOTE s <> 0 ->
  exists r s' R' gq' qs' held' bufs' resv',
    skynet_context_message_dispatch sm q weight s = Some (r, s') /\
    inv s' R' gq' qs' held' (owned r ++ work) crea bufs' resv' /\
    evolved s s' qs qs' held held' bufs bufs' (work ++ crea).
Proof.
  intros Hi Hm Hrem. unfold owned in Hi at 1. destruct (Z.eqb_spec q 0) as [->|Hq]; [|by eapply dispatch_taken].
  simpl in Hi. destruct (take_step _ _ _ _ _ _ _ _ _ (work ++ crea) bufs Hi) as (q & s1 & Hrun & _ & Hi1 & Ev1).
  destruct (decide (q = 0)) as [->|Hq].
  - exists 0, s1, R, (tail gq), qs, held, bufs, resv. split; [|done].
    unfold skynet_context_message_dispatch. change (0 =? 0) with true. cbn iota. by mrun Hrun.
  - assert (owned q = [q]) as Eq by (unfold owned; by rewrite (proj2 (Z.eqb_neq q 0))). rewrite Eq in Hi1.
    destruct (dispatch_taken s1 R (tail gq) qs held work crea bufs resv sm q weight Hq Hi1)
      as (r & s2 & R2 & gq2 & qs2 & held2 & bufs2 & resv2 & Hrun2 & Hi2 & Ev2);
      [by apply (ev_mon _ _ _ _ _ _ _ _ _ Ev1)|by apply (ev_remote _ _ _ _ _ _ _ _ _ Ev1)|].
    exists r, s2, R2, gq2, qs2, held2, bufs2, resv2. split; [|split; [done|by eapply evolved_trans]].
    rewrite <- Hrun2. unfold skynet_context_message_dispatch. change (0 =? 0) with true. cbn iota. mrun Hrun.
    rewrite (proj2 (Z.eqb_neq q 0)) by done. rewrite bind_ret, (proj2 (Z.eqb_neq q 0)) by done. done.
Qed.

(** A message without a block, pushed to whoever has the handle. *)
Lemma push_step s R gq qs held work crea bufs resv h m keep bufs0 :
  inv s R gq qs held work crea bufs resv -> msg_data m = 0 ->
  exists r s' gq' qs', skynet_context_push h m s = Some (r, s') /\
    inv s' R gq' qs' held work crea bufs resv /\ evolved s s' qs qs' held held bufs0 bufs0 keep /\
    n_TI s' = n_TI s.
Proof.
  intros Hi Hm. assert (inv s R gq qs held work crea (owned (msg_data m) ++ bufs) resv) as Hi0 by by rewrite Hm.
  pose proof (inv_context_push _ _ _ _ _ _ _ _ _ h m Hi0) as Hp. destruct (reg_ctx R !! h) as [c|].
  - destruct Hp as (x & a & w' & Hx & Ha & _ & Hr & Hrun & Hi'). eexists 0, _, _, _. split; [exact Hrun|].
    split; [exact Hi'|]. split; [|done]. apply evolved_step; try done; [|by apply grew_pushed].
    intros d y Hd. exists y. by split_and!.
  - exists (-1), s, gq, qs. split; [done|]. split; [done|]. split; [apply evolved_refl|done].
Qed.

Lemma push_all_step l : forall s R gq qs held work crea bufs resv keep bufs0,
  inv s R gq qs held work crea bufs resv -> Forall (fun hm => msg_data hm.2 = 0) l ->
  exists s' gq' qs', push_all l s = Some (tt, s') /\
    inv s' R gq' qs' held work crea bufs resv /\ evolved s s' qs qs' held held bufs0 bufs0 keep /\
    n_TI s' = n_TI s.
Proof.
  induction l as [|[h m] l IH]; intros s R gq qs held work crea bufs resv keep bufs0 Hi Hl; simpl.
  { exists s, gq, qs. split; [done|]. split; [done|]. split; [apply evolved_refl|done]. }
  apply Forall_cons in Hl as [Hm Hl].
  destruct (push_step s R gq qs held work crea bufs resv h m keep bufs0 Hi Hm) as (r & s1 & gq1 & qs1 & Hrun & Hi1 & Ev1 & T1).
  mrun Hrun. destruct (IH s1 R gq1 qs1 held work crea bufs resv keep bufs0 Hi1 Hl) as (s2 & gq2 & qs2 & Hrun2 & Hi2 & Ev2 & T2).
  exists s2, gq2, qs2. split; [done|]. split; [done|]. split; [by eapply evolved_trans|congruence].
Qed.

(** The clock of the wheel moves, and the messages of what fell due are delivered. *)
Lemma updatetime_step s R gq qs held work crea bufs resv cp keep bufs0 :
  inv s R gq qs held work crea bufs resv ->
  exists s' gq' qs', updatetime cp s = Some (tt, s') /\
    inv s' R gq' qs' held work crea bufs resv /\ evolved s s' qs qs' held held bufs0 bufs0 keep.
Proof.
  intros Hi. unfold updatetime. rewrite bind_gets.
  assert (exists s1 gq1 qs1, when (cp <? t_current_point (n_TI s)) (skynet_error 0 ("time diff error: change from " ++ fmt_d cp
      ++ " to " ++ fmt_d (t_current_point (n_TI s)))) s = Some (tt, s1) /\
    inv s1 R gq1 qs1 held work crea bufs resv /\ evolved s s1 qs qs1 held held bufs0 bufs0 keep /\ n_TI s1 = n_TI s)
    as (s1 & gq1 & qs1 & Hrun1 & Hi1 & Ev1 & T1).
  { unfold when. destruct (cp <? _).
    - destruct (inv_error _ _ _ _ _ _ _ _ _ 0 ("time diff error: change from " ++ fmt_d cp ++ " to "
        ++ fmt_d (t_current_point (n_TI s))) Hi) as (s1 & gq1 & qs1 & Hrun & Hi1 & F1 & C1 & _ & G1); [by left|].
      exists s1, gq1, qs1. split; [done|]. split; [done|]. split; [by apply evolved_frame|apply F1].
    - exists s, gq, qs. split; [done|]. split; [done|]. split; [apply evolved_refl|done]. }
  mrun Hrun1. destruct (iv_timer _ _ _ _ _ _ _ _ _ Hi1) as (l & Hw & Hp). rewrite T1 in Hw, Hp.
  destruct (updatetime_keeps (n_TI s) l cp Hw Hp) as (outs & T' & l' & Hup & Hout & Hw' & Hp').
  assert (lift (skynet_updatetime cp (n_TI s)) s1 = Some ((outs, T'), s1)) as Hrun2 by (unfold lift; by rewrite Hup).
  mrun Hrun2. cbn beta iota.
  assert (inv (set_TI T' s1) R gq1 qs1 held work crea bufs resv) as Hi2.
  { pose proof Hi1 as []. apply (inv_ext s1 _ R gq1 qs1 held work crea bufs bufs resv); simpl; try done. eauto. }
  assert (modify (set_TI T') s1 = Some (tt, set_TI T' s1)) as Hrun3 by done. mrun Hrun3.
  destruct (push_all_step (concat outs) (set_TI T' s1) R gq1 qs1 held work crea bufs resv keep bufs0 Hi2 Hout)
    as (s3 & gq3 & qs3 & Hrun4 & Hi3 & Ev3 & _).
  exists s3, gq3, qs3. split; [done|]. split; [done|]. eapply evolved_trans; [exact Ev1|].
  eapply evolved_trans; [|exact Ev3]. apply evolved_step; try done; [|apply grew_refl]. intros d y Hd. exists y. by split_and!.
Qed.

Lemma endless_step s R gq qs held work crea bufs resv h keep :
  inv s R gq qs held work crea bufs resv ->
  exists s' gq' qs', skynet_context_endless h s = Some (tt, s') /\
    inv s' R gq' qs' held work crea bufs resv /\ evolved s s' qs qs' held held bufs bufs keep.
Proof.
  intros Hi. unfold skynet_context_endless. destruct (reg_ctx R !! h) as [c|] eqn:Hc.
  - destruct (grab_step _ _ _ _ _ _ _ _ _ h c keep Hi Hc) as (x & s1 & Hx & _ & Hrun1 & Hi1 & Ev1 & Hx1 & _).
    mrun Hrun1. rewrite (proj2 (Z.eqb_neq c 0)) by (by eapply reg_ctx_nonzero; [apply Hi|]).
    destruct (field_step _ _ _ _ _ _ _ _ _ c _ (cx_set_endless true) keep bufs Hi1 Hx1)
      as (s2 & Hrun2 & Hi2 & Ev2 & _); try done. mrun Hrun2.
    destruct (release_step _ _ _ _ _ _ _ _ _ c keep Hi2) as (r & s3 & gq3 & qs3 & Hrun3 & Hi3 & Ev3). mrun Hrun3.
    exists s3, gq3, qs3. split; [done|]. split; [done|].
    eapply evolved_drop; [by eapply evolved_trans|done|done].
  - mrun (inv_grab_none _ _ _ _ _ _ _ _ _ _ Hi Hc). exists s, gq, qs. split; [done|]. split; [done|apply evolved_refl].
Qed.

Lemma check_step s R gq qs held work crea bufs resv sm keep :
  inv s R gq qs held work crea bufs resv -> is_Some (n_mon s !! sm) ->
  exists s' gq' qs', skynet_monitor_check sm s = Some (tt, s') /\
    inv s' R gq' qs' held work crea bufs resv /\ evolved s s' qs qs' held held bufs bufs keep.
Proof.
  intros Hi [m Hm]. unfold skynet_monitor_check.
  assert (reads (fun s => n_mon s !! sm) s = Some (m, s)) as Hrd by (unfold reads; by rewrite Hm). mrun Hrd.
  destruct (_ =? _).
  - unfold when. destruct (negb _); [|exists s, gq, qs; split; [done|]; split; [done|apply evolved_refl]].
    destruct (endless_step _ _ _ _ _ _ _ _ _ (mon_destination m) keep Hi) as (s1 & gq1 & qs1 & Hrun1 & Hi1 & Ev1).
    mrun Hrun1. match goal with |- context [skynet_error 0 ?t] => set (text := t) end.
    destruct (inv_error _ _ _ _ _ _ _ _ _ 0 text Hi1) as (s2 & gq2 & qs2 & Hrun2 & Hi2 & F2 & C2 & _ & G2); [by left|].
    exists s2, gq2, qs2. split; [exact Hrun2|]. split; [done|]. eapply evolved_trans; [exact Ev1|by apply evolved_frame].
  - eexists _, gq, qs. split; [done|]. match goal with |- inv ?s' _ _ _ _ _ _ _ _ /\ _ => assert (elsewhere s s') as He end.
    { split_and!; try done. intros sm' [y Hy]. simpl. apply lookup_insert_is_Some'. eauto. }
    by apply other_step.
Qed.

Lemma signal_hup_step s R gq qs held work crea bufs resv keep bufs0 :
  inv s R gq qs held work crea bufs resv ->
  exists s' gq' qs', signal_hup s = Some (tt, s') /\
    inv s' R gq' qs' held work crea bufs resv /\ evolved s s' qs qs' held held bufs0 bufs0 keep.
Proof.
  intros Hi. unfold signal_hup.
  assert (exists h, reads (skynet_handle_findname "logger") s = Some (h, s)) as [h Hrd].
  { unfold reads. rewrite (findname_rep _ _ _ (iv_reg _ _ _ _ _ _ _ _ _ Hi)). eauto. }
  mrun Hrd. unfold when. destruct (negb _); [|exists s, gq, qs; split; [done|]; split; [done|apply evolved_refl]].
  destruct (push_step s R gq qs held work crea bufs resv h (Msg 0 0 0 (tag_sz 0 PTYPE_SYSTEM)) keep bufs0 Hi eq_refl)
    as (r & s1 & gq1 & qs1 & Hrun & Hi1 & Ev1 & _).
  mrun Hrun. exists s1, gq1, qs1. done.
Qed.

(** ** The threads together *)

(** A node whose workers hold the mailboxes [taken ws], with the harbor started and
    no service half created. *)
Definition sound s (ws : list worker) : Prop :=
  (exists R gq qs held bufs resv, inv s R gq qs held (taken ws) [] bufs resv) /\
  n_REMOTE s <> 0 /\ Forall (fun w => is_Some (n_mon s !! wk_monitor w)) ws.

Lemma inv_work s R gq qs held work work' crea bufs resv :
  work ≡ₚ work' -> inv s R gq qs held work crea bufs resv -> inv s R gq qs held work' crea bufs resv.
Proof.
  intros Hp Hi. pose proof Hi as []. split; try done. destruct iv_core.
  assert (forall p, p ∈ gq ++ work' ++ crea <-> p ∈ gq ++ work ++ crea) as E by (intros p; by rewrite Hp).
  split; try done; [by rewrite <- Hp| |intros p; rewrite E; auto].
  intros p a Ha. unfold scheduled. rewrite E. by apply co_sched.
Qed.

Lemma taken_split l1 w l2 : taken (l1 ++ w :: l2) ≡ₚ owned (wk_queue w) ++ taken (l1 ++ l2).
Proof. unfold taken. rewrite !bind_app, bind_cons. solve_Permutation. Qed.

(** A round that is not a worker's. *)
Lemma sound_step (m : M unit) s ws :
  sound s ws ->
  (forall R gq qs held bufs resv, inv s R gq qs held (taken ws) [] bufs resv -> exists s' gq' qs',
     m s = Some (tt, s') /\ inv s' R gq' qs' held (taken ws) [] bufs resv /\ evolved s s' qs qs' held held bufs bufs []) ->
  exists s', m s = Some (tt, s') /\ sound s' ws.
Proof.
  intros ((R & gq & qs & held & bufs & resv & Hi) & Hrem & Hmon) Hstep.
  destruct (Hstep _ _ _ _ _ _ Hi) as (s' & gq' & qs' & Hrun & Hi' & Ev). exists s'. split; [done|].
  split; [by eexists R, gq', qs', held, bufs, resv|].
  split; [by apply (ev_remote _ _ _ _ _ _ _ _ _ Ev)|]. eapply Forall_impl; [exact Hmon|].
  intros w. apply (ev_mon _ _ _ _ _ _ _ _ _ Ev).
Qed.

Lemma round_sound s ws i :
  sound s ws -> (i < length ws)%nat ->
  exists s' ws', step (Round i) s ws = Some (s', ws') /\ sound s' ws' /\ wk_monitor <$> ws' = wk_monitor <$> ws.
Proof.
  intros ((R & gq & qs & held & bufs & resv & Hi) & Hrem & Hmon) Hlt.
  destruct (lookup_lt_is_Some_2 ws i Hlt) as [w Hw]. simpl. rewrite Hw. simpl.
  rewrite <- (take_drop_middle ws i w Hw) in Hi, Hmon |- *.
  set (l1 := take i ws) in *. set (l2 := drop (S i) ws) in *.
  assert (length l1 = i) as Hl by (apply length_take_le; lia).
  apply (inv_work _ _ _ _ _ _ _ _ _ _ (taken_split l1 w l2)) in Hi.
  assert (is_Some (n_mon s !! wk_monitor w)) as Hm.
  { rewrite Forall_forall in Hmon. apply Hmon. set_solver. }
  destruct (dispatch_total s R gq qs held _ _ bufs resv (wk_monitor w) (wk_queue w) (wk_weight w) Hi Hm Hrem)
    as (r & s' & R' & gq' & qs' & held' & bufs' & resv' & -> & Hi' & Ev). simpl.
  rewrite insert_app_r_alt by lia. rewrite Hl, Nat.sub_diag. simpl.
  eexists s', _. split; [done|]. split; [|by rewrite !fmap_app]. split; [|split].
  - exists R', gq', qs', held', bufs', resv'. eapply inv_work; [|exact Hi']. symmetry. apply (taken_split l1 (wk_set_queue r w)).
  - by apply (ev_remote _ _ _ _ _ _ _ _ _ Ev).
  - assert (forall v, is_Some (n_mon s !! wk_monitor v) -> is_Some (n_mon s' !! wk_monitor v)) as Hk
      by (intros v; apply (ev_mon _ _ _ _ _ _ _ _ _ Ev)).
    rewrite Forall_app, Forall_cons in Hmon |- *. destruct Hmon as (Hm1 & Hm2 & Hm3).
    split_and!; [eapply Forall_impl; [exact Hm1|auto]|simpl; by apply (Hk w)|eapply Forall_impl; [exact Hm3|auto]].
Qed.

Lemma step_sound s ws e :
  sound s ws -> possible ws e ->
  exists s' ws', step e s ws = Some (s', ws') /\ sound s' ws' /\ wk_monitor <$> ws' = wk_monitor <$> ws.
Proof.
  intros Hs Hp. destruct e as [i|cp|sm|]; [by apply round_sound|..]; simpl.
  - destruct (sound_step (updatetime cp) s ws Hs) as (s' & -> & Hs'); [|by eexists s', ws].
    intros. by eapply updatetime_step.
  - destruct (sound_step (skynet_monitor_check sm) s ws Hs) as (s' & -> & Hs'); [|by eexists s', ws].
    intros. eapply check_step; [done|]. simpl in Hp. apply list_elem_of_fmap in Hp as (w & -> & Hw).
    destruct Hs as (_ & _ & Hmon). rewrite Forall_forall in Hmon. by apply Hmon.
  - destruct (sound_step signal_hup s ws Hs) as (s' & -> & Hs'); [|by eexists s', ws].
    intros. by eapply signal_hup_step.
Qed.

Lemma possible_same ws ws' e : wk_monitor <$> ws' = wk_monitor <$> ws -> possible ws e -> possible ws' e.
Proof.
  intros E. destruct e; simpl; [|done| |done]; [|by rewrite E].
  assert (length ws' = length ws) by (rewrite <- (length_fmap wk_monitor), E; apply length_fmap). lia.
Qed.

Lemma run_sound es : forall s ws, sound s ws -> Forall (possible ws) es ->
  exists s' ws', run es s ws = Some (s', ws') /\ sound s' ws' /\ wk_monitor <$> ws' = wk_monitor <$> ws.
Proof.
  induction es as [|e es IH]; intros s ws Hs Hp; simpl; [by eexists s, ws|].
  apply Forall_cons in Hp as [He Hp]. destruct (step_sound s ws e Hs He) as (s1 & ws1 & -> & Hs1 & E1). simpl.
  destruct (IH s1 ws1 Hs1) as (s2 & ws2 & -> & Hs2 & E2).
  { eapply Forall_impl; [exact Hp|]. intros e'. by apply possible_same. }
  exists s2, ws2. split; [done|]. split; [done|congruence].
Qed.

(** ** Starting up *)

Lemma init_harbor harbor : u32 (Z.shiftl harbor HANDLE_REMOTE_SHIFT) = hs_harbor (skynet_handle_init harbor).
Proof.
  simpl. rewrite land_255. unfold HANDLE_REMOTE_SHIFT. rewrite !Z.shiftl_mul_pow2 by lia. unfold u32, wrap.
  change (2 ^ 32) with (256 * 2 ^ 24). rewrite !Z.mul_mod_distr_r by lia. f_equal. by rewrite Z.mod_mod.
Qed.

Lemma inv_initial harbor path rs rn ms mn env profile :
  inv (initial_node harbor path rs rn ms mn env profile) (Reg ∅ ∅) [] ∅ [] [] [] [] 0.
Proof.
  assert (core (initial_node harbor path rs rn ms mn env profile) [] ∅ []) as Hcore.
  { split; simpl; try done; [apply mq_init_spec|constructor|by intros p Hp%not_elem_of_nil|intros c [? ?]; done]. }
  split; simpl; try done.
  - split; simpl; try done; [apply table_ok_init| |].
    + intros h c. split; [by intros (_ & Hh & _)|done].
    + exists []. split; [apply names_ok_init|]. done.
  - by intros c Hc%not_elem_of_nil.
  - constructor.
  - by intros p Hp%not_elem_of_nil.
  - intros p [? ?]; done.
  - apply init_harbor.
  - exists []. split; [|constructor]. exact wheel_create.
Qed.

Lemma loadable_initial harbor path rs rn ms mn env profile :
  valid_path (String.length path) path = true -> loadable (initial_node harbor path rs rn ms mn env profile).
Proof. intros Hv. exists []. split; [apply modules_init_ok|done]. Qed.

(** The harbor keeps a reference to its service, which does not count as one more. *)
Lemma harbor_start_step s R gq qs held work crea bufs resv c x :
  inv s R gq qs held work crea bufs resv -> n_ctx s !! c = Some x -> n_REMOTE s = 0 ->
  exists s', skynet_harbor_start c s = Some (tt, s') /\ inv s' R gq qs held work crea bufs (resv + 1) /\
    n_REMOTE s' = c /\ c <> 0.
Proof.
  intros Hi Hx Hr. pose proof (ctx_nonzero _ _ _ _ _ _ _ _ _ _ _ Hi Hx) as Hc0.
  pose proof (iv_ctx _ _ _ _ _ _ _ _ _ Hi c x Hx) as (Hq & Hpos & Hcnt).
  assert (inv (set_ctx (<[c := cx_set_ref (cx_ref x + 1) x]> (n_ctx s)) s) R gq qs (c :: held) work crea bufs resv) as Hi1.
  { apply (inv_update s R gq qs held (c :: held) work crea bufs resv c x); try done; simpl; [lia| | |].
    - rewrite refs_cons, bool_decide_true by done. simpl. lia.
    - intros d Hd. rewrite refs_cons, bool_decide_false by done. done.
    - intros d [->|]%elem_of_cons; auto. }
  unfold skynet_harbor_start, skynet_context_reserve, skynet_context_grab, update.
  eexists. split; [unfold bind, steps; rewrite Hx; simpl; reflexivity|]. split; [|done].
  set (s1 := set_ctx _ s) in *. pose proof Hi1 as [].
  match goal with |- inv ?t _ _ _ _ _ _ _ _ => assert (core t gq qs (work ++ crea)) as Hcore
    by (by eapply core_ext; [..|exact iv_core]) end.
  split; simpl; try done; simpl in *.
  - apply (reg_rep_ext s1); [done| |done]. intros h d Hd. split; [|done].
    destruct (inv_alive _ _ _ _ _ _ _ _ _ h d Hi1 Hd) as (y & Hy & _). split; [|eauto].
    exists y. split; [done|]. by apply (iv_ctx d).
  - intros d y Hy. destruct (iv_ctx d y Hy) as (? & ? & E). split; [done|]. split; [done|].
    rewrite E, refs_cons. unfold remote_ref. simpl. rewrite Hr.
    rewrite (bool_decide_false (0 = d)); [|intros <-; by apply (ctx_nonzero _ _ _ _ _ _ _ _ _ _ _ Hi1) in Hy].
    simpl. lia.
  - intros d Hd. apply iv_held. by right.
  - rewrite iv_total. lia.
  - intros _. rewrite lookup_insert_eq. eauto.
Qed.

Lemma monitor_new_step s R gq qs held work crea bufs resv :
  inv s R gq qs held work crea bufs resv ->
  exists sm s', skynet_monitor_new s = Some (sm, s') /\ inv s' R gq qs held work crea bufs resv /\
    n_REMOTE s' = n_REMOTE s /\ (forall i, is_Some (n_mon s !! i) \/ i = sm -> is_Some (n_mon s' !! i)).
Proof.
  intros Hi. eexists _, _. split; [done|]. pose proof Hi as []. split_and!; simpl; try done.
  - apply (inv_ext s _ R gq qs held work crea bufs bufs resv); simpl; try done; try lia.
    intros p Hp. specialize (iv_membrk p Hp). lia.
  - intros i Hi'. apply lookup_insert_is_Some'. destruct Hi'; auto.
Qed.

(** ** What the threads guarantee *)

(** [C1] The node never fails: whatever the order in which worker, timer and monitor
    threads take their turns, no step dereferences a context, mailbox or block
    that is gone, no assertion fails, no loop runs out, and the node stays sound. *)
Theorem threads_never_fail es s ws :
  sound s ws -> Forall (possible ws) es ->
  exists s' ws', run es s ws = Some (s', ws') /\ sound s' ws' /\ wk_monitor <$> ws' = wk_monitor <$> ws.
Proof. intros. by apply run_sound. Qed.

Lemma run_inv es s ws s' ws' :
  sound s ws -> Forall (possible ws) es -> run es s ws = Some (s', ws') ->
  exists R gq qs held bufs resv, inv s' R gq qs held (taken ws') [] bufs resv.
Proof.
  intros Hs Hp Hr. destruct (run_sound es s ws Hs Hp) as (s1 & ws1 & Hrun & (Hi & _) & _).
  assert (s1 = s' /\ ws1 = ws') as [-> ->] by (split; congruence). exact Hi.
Qed.

Lemma taken_inj ws i j wi wj :
  NoDup (taken ws) -> ws !! i = Some wi -> ws !! j = Some wj -> wk_queue wi = wk_queue wj -> wk_queue wi <> 0 -> i = j.
Proof.
  revert ws i j. assert (forall ws w q, w ∈ ws -> wk_queue w = q -> q <> 0 -> q ∈ taken ws) as Hin.
  { intros ws w q Hw <- Hq. apply list_elem_of_bind. exists w. split; [|done]. unfold owned.
    rewrite (proj2 (Z.eqb_neq _ 0)) by done. apply list_elem_of_here. }
  induction ws as [|w ws IH]; intros i j Hnd Hi Hj E Hq; [done|].
  unfold taken in Hnd. rewrite bind_cons in Hnd. apply NoDup_app in Hnd as (_ & Hd & Hnd).
  assert (forall k wk, ws !! k = Some wk -> wk_queue wk = wk_queue w -> wk_queue w <> 0 -> False) as Hno.
  { intros k wk Hk Ek Hw. apply (Hd (wk_queue w)); [unfold owned; rewrite (proj2 (Z.eqb_neq _ 0)) by done; apply list_elem_of_here|].
    apply (Hin ws wk); [by eapply list_elem_of_lookup_2|done|done]. }
  destruct i as [|i], j as [|j]; simpl in Hi, Hj; [done|..].
  - injection Hi as ->. exfalso. apply (Hno j wj); [done|congruence|congruence].
  - injection Hj as ->. exfalso. apply (Hno i wi); [done|congruence|congruence].
  - f_equal. by apply (IH i j).
Qed.

(** [C2] Scheduling: in every state the threads reach, no two workers have the same
    mailbox, the mailbox of a worker is not in the global queue, and no message is
    forgotten: a service's mailbox with messages is in the global queue or in the
    hands of a worker. *)
Theorem mailboxes_scheduled es s ws s' ws' :
  sound s ws -> Forall (possible ws) es -> run es s ws = Some (s', ws') ->
  (forall i j wi wj, ws' !! i = Some wi -> ws' !! j = Some wj ->
     wk_queue wi = wk_queue wj -> wk_queue wi <> 0 -> i = j) /\
  exists gq, gq_rep (n_mq s') gq /\
    (forall w, w ∈ ws' -> wk_queue w ∉ gq) /\
    forall c x n, n_ctx s' !! c = Some x -> skynet_mq_length (cx_queue x) (n_mq s') = Some n -> 0 < n ->
      cx_queue x ∈ gq \/ exists w, w ∈ ws' /\ wk_queue w = cx_queue x.
Proof.
  intros Hs Hp Hr. destruct (run_inv _ _ _ _ _ Hs Hp Hr) as (R & gq & qs & held & bufs & resv & Hi).
  pose proof (iv_core _ _ _ _ _ _ _ _ _ Hi) as Hcore. pose proof (co_nodup _ _ _ _ Hcore) as Hnd.
  rewrite app_nil_r in Hnd. apply NoDup_app in Hnd as (_ & Hd & Hnd).
  split; [intros i j wi wj; by apply taken_inj|]. exists gq. split; [apply (co_world _ _ _ _ Hcore)|]. split.
  - intros w Hw Hq. assert (wk_queue w <> 0) as Hq0.
    { apply list_elem_of_lookup in Hq as [i Hq]. destruct (co_world _ _ _ _ Hcore) as ((Hl & _) & _).
      destruct Hl as (_ & Hl & _). by destruct (Hl i _ Hq). }
    apply (Hd _ Hq). apply list_elem_of_bind. exists w. split; [|done]. unfold owned.
    rewrite (proj2 (Z.eqb_neq _ 0)) by done. apply list_elem_of_here.
  - intros c x n Hx Hn Hpos. destruct (inv_queue _ _ _ _ _ _ _ _ _ c x Hi Hx) as (a & Ha & _).
    destruct (inv_length _ _ _ _ _ _ _ _ _ _ a Hi Ha) as [Hlen _]. rewrite Hlen in Hn. injection Hn as <-.
    destruct (co_sched _ _ _ _ Hcore _ a Ha) as (_ & [Hq|(_ & _ & E)] & _); [|rewrite E in Hpos; unfold zlen in Hpos; simpl in Hpos; lia].
    rewrite app_nil_r in Hq. apply elem_of_app in Hq as [|Hq]; [by left|right].
    apply list_elem_of_bind in Hq as (w & Hq & Hw). exists w. split; [done|]. unfold owned in Hq.
    destruct (wk_queue w =? 0); [by apply not_elem_of_nil in Hq|]. by apply list_elem_of_singleton in Hq.
Qed.

(** [C3] Memory: in every state the threads reach, each message that waits in a mailbox
    and points to a block points to an allocated one, no two messages share a
    block, every context has a positive count, and every registered handle leads
    to a context that is there and has that handle. *)
Theorem messages_own_blocks es s ws s' ws' :
  sound s ws -> Forall (possible ws) es -> run es s ws = Some (s', ws') ->
  (exists gq qs, world_rep (n_mq s') gq qs /\ NoDup (ptrs qs) /\ forall p, p ∈ ptrs qs -> is_Some (n_mem s' !! p)) /\
  (forall c x, n_ctx s' !! c = Some x -> 0 < cx_ref x) /\
  (forall h c s2, skynet_handle_grab h s' = Some (c, s2) -> c <> 0 -> exists x, n_ctx s' !! c = Some x /\ cx_handle x = h).
Proof.
  intros Hs Hp Hr. destruct (run_inv _ _ _ _ _ Hs Hp Hr) as (R & gq & qs & held & bufs & resv & Hi). split; [|split].
  - exists gq, qs. split; [apply (co_world _ _ _ _ (iv_core _ _ _ _ _ _ _ _ _ Hi))|]. split.
    + pose proof (iv_ptrs _ _ _ _ _ _ _ _ _ Hi) as Hnd. by apply NoDup_app in Hnd as [? _].
    + intros p Hq. apply (iv_alloc _ _ _ _ _ _ _ _ _ Hi). apply elem_of_app. by left.
  - intros c x Hx. by apply (iv_ctx _ _ _ _ _ _ _ _ _ Hi c x Hx).
  - intros h c s2 Hg Hc. destruct (reg_ctx R !! h) as [d|] eqn:Hd.
    + destruct (inv_grab _ _ _ _ _ _ _ _ _ h d Hi Hd) as (x & Hx & Hh & Hrun & _). rewrite Hrun in Hg.
      injection Hg as <- _. eauto.
    + rewrite (inv_grab_none _ _ _ _ _ _ _ _ _ h Hi Hd) in Hg. congruence.
Qed.

(** [C6] Launching: with a loadable module table, free handles, a next handle that no
    old mailbox still bears, and a harbor to tell of messages that are dropped, skynet_context_new
    returns whatever the module does within its law, leaves the threads' node
    sound, and what it returns is NULL or a new context that is initialised and
    bears the next handle. *)
Theorem launch_keeps_sound `{!SafeModules} s ws name param :
  sound s ws -> loadable s -> can_register (n_H s) ->
  (forall q h, skynet_mq_handle q (n_mq s) = Some h -> next_handle s <> Some h) ->
  exists r s', skynet_context_new name param s = Some (r, s') /\ sound s' ws /\
    (r <> 0 -> n_ctx s !! r = None /\ exists x, n_ctx s' !! r = Some x /\ cx_init x = true /\
      next_handle s = Some (cx_handle x)).
Proof.
  intros ((R & gq & qs & held & bufs & resv & Hi) & Hrem & Hmon) Hload Hcan Hnext.
  destruct (new_spec s R gq qs held (taken ws) [] bufs resv name param Hi Hload Hcan) as
    (r & s' & R' & gq' & qs' & held' & bufs' & resv' & Hrun & Hi' & Ev & Hr); [|by left|].
  - intros p a Ha. apply (Hnext p). by apply (inv_length _ _ _ _ _ _ _ _ _ p a Hi Ha).
  - exists r, s'. split; [done|]. split; [|done]. split; [by eexists R', gq', qs', held', bufs', resv'|].
    split; [by apply (ev_remote _ _ _ _ _ _ _ _ _ Ev)|]. eapply Forall_impl; [exact Hmon|].
    intros w. apply (ev_mon _ _ _ _ _ _ _ _ _ Ev).
Qed.

(** [C4] One round of a worker with a mailbox: the round returns; when the service is
    registered it gets exactly the first [batch_size] messages of the mailbox, one by one
    and in order: for each one its callback is called once, with the type, session, source, data and size
    of the message, when the message and those before it have left the mailbox, and the block is freed
    unless the callback keeps it (a service without a callback loses it); then the reference of the round
    is given back, and nothing else changes but the order of the mailboxes; when the service is gone and its
    mailbox was marked, the mailbox is dropped; what the others hold is intact, and after messages
    the worker has a mailbox for its next round. *)
Theorem dispatch_serves_batch s R gq qs held work crea bufs resv sm q weight a :
  inv s R gq qs held (q :: work) crea bufs resv -> q <> 0 -> qs !! q = Some a ->
  is_Some (n_mon s !! sm) -> n_REMOTE s <> 0 ->
  exists r s' R' gq' qs' held' bufs' resv',
    skynet_context_message_dispatch sm q weight s = Some (r, s') /\
    inv s' R' gq' qs' held' (owned r ++ work) crea bufs' resv' /\
    evolved s s' qs qs' held held' bufs bufs' (work ++ crea) /\
    match reg_ctx R !! a_handle a with
    | Some c => (a_msgs a <> [] -> r <> 0) /\ exists s1 s2, skynet_handle_grab (a_handle a) s = Some (c, s1) /\
        handled sm q (a_handle a) c (take (Z.to_nat (batch_size weight (zlen (a_msgs a)))) (a_msgs a)) s1 s2 /\
        round_ends c s2 s'
    | None => a_release a = 1 -> qs' !! q = None
    end.
Proof.
  intros Hi Hq Ha Hm Hrem. destruct (reg_ctx R !! a_handle a) as [c|] eqn:Hc.
  - destruct (dispatch_served s R gq qs held work crea bufs resv sm q weight a c Hi Hq Ha Hc Hm)
      as (r & s' & R' & gq' & qs' & held' & bufs' & resv' & s1 & s2 & Hrun & Hg & Hh & Hend & Hi' & Ev & Hr).
    exists r, s', R', gq', qs', held', bufs', resv'. do 3 (split; [done|]). split; [done|]. by exists s1, s2.
  - destruct (dispatch_gone s R gq qs held work crea bufs resv sm q weight a Hi Hq Ha Hc Hrem)
      as (r & s' & gq' & qs' & Hrun & Hi' & Ev & Hr).
    exists r, s', R, gq', qs', held, bufs, resv. done.
Qed.

(** [C5] Sending: skynet_send returns on every input its callers may give it, and its outcome
    is one of five: a message too large is refused with -2, nothing is sent to the
    address 0, a message to another node goes to the harbor's mailbox wrapped with its
    destination, a message to a registered service of this node is the
    last of its mailbox, with the sender as source, the session that is returned and the type in the
    high byte of the size, and a message to nobody is -1.  A block the sender gave
    away is the message's or freed; no other block changes. *)
Theorem send_outcomes s R gq qs held work crea bufs resv context source destination type session data sz :
  inv s R gq qs held work crea (given type data ++ bufs) resv ->
  sends s context source type session data sz ->
  (is_remote s destination = true -> n_REMOTE s <> 0 /\ invalid_type (Z.land type 255) = true) ->
  exists r s' gq' qs', skynet_send context source destination type session data sz s = Some (r, s') /\
    inv s' R gq' qs' held work crea bufs resv /\ frame s s' /\
    (n_ctx s' = n_ctx s \/ n_ctx s' = ctx_after s context type) /\
    outcome_of_send s R qs context source destination type session data sz r s' qs'.
Proof. apply send_full. Qed.
End system.

(** ** Services to run: the smallest that do something *)

Module Demo.

(** The init function sets a callback; the callback frees messages without a
    session and leaves the others to the dispatcher. *)
Definition demo_cb (cb ctx ud type session source msg sz : Z) : M Z :=
  if session =? 0 then (skynet_free msg ;;; ret 1)%node else ret 0.
Definition demo_init (fn inst ctx : Z) (param : option string) : M Z :=
  (update ctx (cx_set_cb inst 7) ;;; ret 0)%node.

Definition demo_services : Services := {|
  run_cb := demo_cb;
  run_create _ := ret 1;
  run_init := demo_init;
  run_release _ _ := ret tt;
  run_signal _ _ _ := ret tt;
  dlopen _ := 1;
  dlsym _ _ := 1;
  fopen_append _ := 0;
  cpu_clock n := Z.of_nat n
|}.
#[local] Existing Instance demo_services.

#[local] Instance demo_lawful : LawfulServices.
Proof. constructor. intros fn inst s. exists s. split; [done|apply quiet_refl]. Defined.

#[local] Instance demo_callbacks : SafeCallbacks.
Proof.
  constructor. intros cb ctx ud type session source msg sz s R gq qs held work crea bufs resv Hi Hc.
  change (run_cb cb ctx ud type session source msg sz) with (demo_cb cb ctx ud type session source msg sz).
  unfold demo_cb. destruct (session =? 0).
  - destruct (inv_free _ _ _ _ _ _ _ _ _ msg Hi) as (s1 & Hrun & E & Hi1).
    eapply runs_intro; [by mrun Hrun|exact Hi1|]. rewrite E. apply evolved_step; try done; [|apply grew_refl].
    intros d y Hd. exists y. by split_and!.
  - eapply runs_intro; [done|exact Hi|apply evolved_refl].
Defined.

#[local] Instance demo_modules : SafeModules.
Proof.
  constructor.
  - intros fn s. exists 1, s. split; [done|apply quiet_refl].
  - intros fn inst ctx param s R gq qs held work crea bufs resv Hi Hc.
    change (run_init fn inst ctx param) with (demo_init fn inst ctx param). unfold demo_init.
    destruct (iv_held _ _ _ _ _ _ _ _ _ Hi ctx Hc) as [x Hx].
    destruct (field_step _ _ _ _ _ _ _ _ _ ctx x (cx_set_cb inst 7) (work ++ crea) bufs Hi Hx)
      as (s1 & Hrun & Hi1 & Ev & _); try done.
    eapply runs_intro; [by mrun Hrun|exact Hi1|exact Ev].
Defined.

Definition demo_start : node := initial_node 1 "./?.so" 0 0 0 0 ∅ false.

(** A service is launched, becomes the harbor's, and one worker is made: the
    service, the worker's monitor and the node. *)
Definition demo_boot : M (Z * Z) :=
  (c <- skynet_context_new "echo" None ;;
   skynet_harbor_start c ;;;
   sm <- skynet_monitor_new ;;
   ret (c, sm))%node.

Lemma demo_booted :
  exists s, demo_boot demo_start = Some ((1, 2), s) /\ sound s [Wk 2 (-1) 0].
Proof.
  destruct (new_spec demo_start (Reg ∅ ∅) [] ∅ [] [] [] [] 0 "echo" None) as
    (r & s1 & R1 & gq1 & qs1 & held1 & bufs1 & resv1 & Hrun1 & Hi1 & Ev1 & Hr1).
  - apply inv_initial.
  - by apply loadable_initial.
  - split; left; done.
  - done.
  - right. intros fn inst ctx s r s'.
    change (run_init fn inst ctx None) with (demo_init fn inst ctx None). unfold demo_init, bind, update, steps.
    destruct (n_ctx s !! ctx); [|done]. by intros [= <- _].
  - assert (fst <$> skynet_context_new "echo" None demo_start = Some 1) as E by (vm_compute; reflexivity).
    assert (n_REMOTE <$> (snd <$> skynet_context_new "echo" None demo_start) = Some 0) as E2 by (vm_compute; reflexivity).
    rewrite Hrun1 in E, E2. simpl in E, E2. injection E as ->. injection E2 as E2.
    destruct Hr1 as (_ & x & Hx & _); [done|].
    destruct (harbor_start_step _ _ _ _ _ _ _ _ _ _ x Hi1 Hx E2) as (s2 & Hrun2 & Hi2 & Hrem2 & _).
    destruct (monitor_new_step _ _ _ _ _ _ _ _ _ Hi2) as (sm & s3 & Hrun3 & Hi3 & Hrem3 & Hm3).
    assert (demo_boot demo_start = Some ((1, sm), s3)) as Hboot.
    { unfold demo_boot. mrun Hrun1. mrun Hrun2. by mrun Hrun3. }
    assert (fst <$> demo_boot demo_start = Some (1, 2)) as E by (vm_compute; reflexivity).
    rewrite Hboot in E. simpl in E. injection E as ->. exists s3. split; [done|].
    split; [by eexists R1, gq1, qs1, held1, bufs1, _|]. split; [by rewrite Hrem3, Hrem2|].
    constructor; [|constructor]. apply Hm3. by right.
Qed.

(** ** The theorems at the demo node *)

Lemma threads_never_fail_witness :
  exists s s' ws', demo_boot demo_start = Some ((1, 2), s) /\
    run [Round 0; Tick 5; Check 2; Round 0; Hup; Tick 3] s [Wk 2 (-1) 0] = Some (s', ws') /\
    sound s' ws' /\ wk_monitor <$> ws' = [2].
Proof.
  destruct demo_booted as (s & Hboot & Hs). exists s.
  destruct (threads_never_fail [Round 0; Tick 5; Check 2; Round 0; Hup; Tick 3] s [Wk 2 (-1) 0] Hs)
    as (s' & ws' & Hrun & Hs' & E); [repeat constructor|].
  exists s', ws'. split; [exact Hboot|]. split; [exact Hrun|]. split; [exact Hs'|exact E].
Defined.

Lemma mailboxes_scheduled_witness :
  exists s s' ws', demo_boot demo_start = Some ((1, 2), s) /\
    run [Round 0; Round 0] s [Wk 2 (-1) 0] = Some (s', ws') /\
    (forall i j wi wj, ws' !! i = Some wi -> ws' !! j = Some wj ->
       wk_queue wi = wk_queue wj -> wk_queue wi <> 0 -> i = j) /\
    exists gq, gq_rep (n_mq s') gq /\ (forall w, w ∈ ws' -> wk_queue w ∉ gq) /\
      forall c x n, n_ctx s' !! c = Some x -> skynet_mq_length (cx_queue x) (n_mq s') = Some n -> 0 < n ->
        cx_queue x ∈ gq \/ exists w, w ∈ ws' /\ wk_queue w = cx_queue x.
Proof.
  destruct demo_booted as (s & Hboot & Hs).
  assert (Forall (possible [Wk 2 (-1) 0]) [Round 0; Round 0]) as Hp by (repeat constructor).
  destruct (run_sound _ _ _ Hs Hp) as (s' & ws' & Hrun & _). exists s, s', ws'. split; [exact Hboot|]. split; [exact Hrun|].
  exact (mailboxes_scheduled _ _ _ _ _ Hs Hp Hrun).
Defined.

Lemma messages_own_blocks_witness :
  exists s s' ws', demo_boot demo_start = Some ((1, 2), s) /\
    run [Round 0; Tick 1] s [Wk 2 (-1) 0] = Some (s', ws') /\
    (exists gq qs, world_rep (n_mq s') gq qs /\ NoDup (ptrs qs) /\ forall p, p ∈ ptrs qs -> is_Some (n_mem s' !! p)) /\
    (forall c x, n_ctx s' !! c = Some x -> 0 < cx_ref x) /\
    (forall h c s2, skynet_handle_grab h s' = Some (c, s2) -> c <> 0 -> exists x, n_ctx s' !! c = Some x /\ cx_handle x = h).
Proof.
  destruct demo_booted as (s & Hboot & Hs).
  assert (Forall (possible [Wk 2 (-1) 0]) [Round 0; Tick 1]) as Hp by (repeat constructor).
  destruct (run_sound _ _ _ Hs Hp) as (s' & ws' & Hrun & _). exists s, s', ws'. split; [exact Hboot|]. split; [exact Hrun|].
  exact (messages_own_blocks _ _ _ _ _ Hs Hp Hrun).
Defined.

(** What a function of the booted node computes to. *)
Lemma at_booted {A} (f : node -> A) s v :
  demo_boot demo_start = Some ((1, 2), s) -> f ∘ snd <$> demo_boot demo_start = Some v -> f s = v.
Proof. intros -> E. by injection E. Qed.

Lemma launch_keeps_sound_witness :
  exists s r s', demo_boot demo_start = Some ((1, 2), s) /\
    skynet_context_new "echo" (Some "again") s = Some (r, s') /\ sound s' [Wk 2 (-1) 0] /\
    (r <> 0 -> n_ctx s !! r = None /\ exists x, n_ctx s' !! r = Some x /\ cx_init x = true /\
      next_handle s = Some (cx_handle x)).
Proof.
  destruct demo_booted as (s & Hboot & Hs). exists s.
  destruct (launch_keeps_sound s [Wk 2 (-1) 0] "echo" (Some "again") Hs) as (r & s' & Hrun & Hs' & Hr).
  - assert (n_M s = default (n_M s) (snd <$> skynet_module_query dlopen dlsym (n_M demo_start) "echo")) as HM
      by (apply (at_booted n_M s _ Hboot); vm_compute; reflexivity).
    destruct (module_query_spec dlopen dlsym (n_M demo_start) [] "echo" (modules_init_ok "./?.so") eq_refl)
      as (q & M' & l & Hq & Hok & Hpath & _).
    rewrite Hq in HM. simpl in HM. exists l. rewrite HM, Hpath. split; [exact Hok|reflexivity].
  - assert (hs_handle_index (n_H s) = 2) as E1 by (apply (at_booted (hs_handle_index ∘ n_H) s _ Hboot); vm_compute; reflexivity).
    assert (hs_slot_size (n_H s) = 4) as E2 by (apply (at_booted (hs_slot_size ∘ n_H) s _ Hboot); vm_compute; reflexivity).
    unfold can_register. rewrite E1, E2. split; left; discriminate.
  - assert (map_to_list (q_handle <$> w_heap (n_mq s)) = [(1, 16777217)]) as E1
      by (apply (at_booted (fun s => map_to_list (q_handle <$> w_heap (n_mq s))) s _ Hboot); vm_compute; reflexivity).
    assert (next_handle s = Some 16777218) as E2 by (apply (at_booted next_handle s _ Hboot); vm_compute; reflexivity).
    intros q h Hh. rewrite E2. unfold skynet_mq_handle in Hh. rewrite <- lookup_fmap in Hh.
    apply elem_of_map_to_list in Hh. rewrite E1 in Hh. apply list_elem_of_singleton in Hh. congruence.
  - exists r, s'. split; [exact Hboot|]. split; [exact Hrun|]. split; [exact Hs'|exact Hr].
Defined.

Lemma send_outcomes_witness :
  exists s R gq qs held bufs resv r s' gq' qs', demo_boot demo_start = Some ((1, 2), s) /\
    skynet_send 1 0 16777217 PTYPE_TAG_ALLOCSESSION 0 0 0 s = Some (r, s') /\
    inv s' R gq' qs' held [] [] bufs resv /\ frame s s' /\
    (n_ctx s' = n_ctx s \/ n_ctx s' = ctx_after s 1 PTYPE_TAG_ALLOCSESSION) /\
    outcome_of_send s R qs 1 0 16777217 PTYPE_TAG_ALLOCSESSION 0 0 0 r s' qs' /\ inv s R gq qs held [] [] bufs resv.
Proof.
  destruct demo_booted as (s & Hboot & (R & gq & qs & held & bufs & resv & Hi) & _).
  assert (cx_handle <$> n_ctx s !! 1 = Some 16777217) as Hx
    by (apply (at_booted (fun s => cx_handle <$> n_ctx s !! 1) s _ Hboot); vm_compute; reflexivity).
  assert (is_remote s 16777217 = false) as Hr by (apply (at_booted (fun s => is_remote s 16777217) s _ Hboot); vm_compute; reflexivity).
  destruct (send_outcomes s R gq qs held [] [] bufs resv 1 0 16777217 PTYPE_TAG_ALLOCSESSION 0 0 0)
    as (r & s' & gq' & qs' & Hrun & Hi' & F & C & O).
  - exact Hi.
  - split; [left|reflexivity|split; [discriminate|reflexivity]|intros _ Hd; by destruct Hd].
    destruct (n_ctx s !! 1); [eauto|discriminate].
  - rewrite Hr. discriminate.
  - exists s, R, gq, qs, held, bufs, resv, r, s', gq', qs'. split; [exact Hboot|]. split; [exact Hrun|].
    split; [exact Hi'|]. split; [exact F|]. split; [exact C|]. split; [exact O|exact Hi].
Defined.

(** A message is pushed to the service and its mailbox taken. *)
Lemma demo_taken :
  exists s R gq qs held bufs resv a, inv s R gq qs held [1] [] bufs resv /\ qs !! 1 = Some a /\
    is_Some (n_mon s !! 2) /\ n_REMOTE s <> 0 /\ reg_ctx R !! a_handle a = Some 1 /\ a_msgs a <> [].
Proof.
  destruct demo_booted as (s & Hboot & (R & gq & qs & held & bufs & resv & Hi) & Hrem & Hmon).
  set (m := Msg 5 6 0 0).
  assert (reg_ctx R !! 16777217 = Some 1) as Hreg.
  { assert (fst <$> skynet_handle_grab 16777217 s = Some 1) as Hg
      by (apply (at_booted (fun s => fst <$> skynet_handle_grab 16777217 s) s _ Hboot); vm_compute; reflexivity).
    destruct (reg_ctx R !! 16777217) as [c|] eqn:Hc.
    - destruct (inv_grab _ _ _ _ _ _ _ _ _ _ c Hi Hc) as (x & _ & _ & Hrun & _). rewrite Hrun in Hg. by injection Hg as ->.
    - by rewrite (inv_grab_none _ _ _ _ _ _ _ _ _ _ Hi Hc) in Hg. }
  pose proof (inv_context_push s R gq qs held [] [] bufs resv 16777217 m Hi) as Hp. rewrite Hreg in Hp.
  destruct Hp as (x & a & w' & Hx & Ha & Hah & _ & Hrun & Hi1).
  assert (cx_queue <$> n_ctx s !! 1 = Some 1) as Hq
    by (apply (at_booted (fun s => cx_queue <$> n_ctx s !! 1) s _ Hboot); vm_compute; reflexivity).
  rewrite Hx in Hq. injection Hq as Hq. rewrite Hq in Ha, Hi1.
  destruct (inv_take _ _ _ _ _ _ _ _ _ Hi1) as (s2 & Hrun2 & Hi2 & w2 & E2).
  assert (fst <$> (r ← skynet_context_push 16777217 m s; mq_call skynet_globalmq_pop r.2) = Some 1) as Hpop
    by (apply (at_booted (fun s => fst <$> (r ← skynet_context_push 16777217 m s; mq_call skynet_globalmq_pop r.2)) s _ Hboot);
        vm_compute; reflexivity).
  rewrite Hrun in Hpop. simpl in Hpop. rewrite Hrun2 in Hpop. simpl in Hpop. injection Hpop as Hhd.
  destruct (pushed_gq gq 1 a) as [|p g] eqn:Eg; [discriminate|]. simpl in Hhd, Hi2. subst p.
  exists s2, R, g, (pushed qs 1 a m), held, bufs, resv, (a_set_msgs a (a_msgs a ++ [m]) MQ_IN_GLOBAL).
  split; [exact Hi2|]. split; [apply lookup_insert_eq|]. rewrite E2. split.
  { simpl. apply Forall_cons in Hmon as [Hmon _]. exact Hmon. }
  split; [exact Hrem|]. split; [simpl; congruence|]. simpl. by destruct (a_msgs a).
Qed.

Lemma dispatch_serves_batch_witness :
  exists s R gq qs held bufs resv a r s' R' gq' qs' held' bufs' resv',
    inv s R gq qs held [1] [] bufs resv /\ qs !! 1 = Some a /\ reg_ctx R !! a_handle a = Some 1 /\
    skynet_context_message_dispatch 2 1 0 s = Some (r, s') /\
    inv s' R' gq' qs' held' (owned r ++ []) [] bufs' resv' /\
    evolved s s' qs qs' held held' bufs bufs' [] /\ r <> 0 /\
    exists s1 s2, skynet_handle_grab (a_handle a) s = Some (1, s1) /\
      handled 2 1 (a_handle a) 1 (take (Z.to_nat (batch_size 0 (zlen (a_msgs a)))) (a_msgs a)) s1 s2 /\ round_ends 1 s2 s'.
Proof.
  destruct demo_taken as (s & R & gq & qs & held & bufs & resv & a & Hi & Ha & Hm & Hrem & Hreg & Hne).
  destruct (dispatch_serves_batch s R gq qs held [] [] bufs resv 2 1 0 a Hi ltac:(discriminate) Ha Hm Hrem)
    as (r & s' & R' & gq' & qs' & held' & bufs' & resv' & Hrun & Hi' & Ev & Hcase).
  rewrite Hreg in Hcase. destruct Hcase as [Hr Hh].
  exists s, R, gq, qs, held, bufs, resv, a, r, s', R', gq', qs', held', bufs', resv'.
  split; [exact Hi|]. split; [exact Ha|]. split; [exact Hreg|]. split; [exact Hrun|]. split; [exact Hi'|].
  split; [exact Ev|]. split; [exact (Hr Hne)|exact Hh].
Defined.
End Demo.
