(* ===== verification/Address.v ===== *)
(** Addresses and names as texts: the round trips of the commands in
    skynet-src/skynet_server.c. *)

From S2P Require Import Prelude Types CString Timer MessageQueue SkynetModule Handle Node Server Commands NodeInv NodeOps Sending Dispatching Worker Launch System.
From Stdlib Require Import Ascii.
Local Open Scope string_scope.
Local Open Scope Z_scope.

Lemma hex_digit_value d : 0 <= d < 16 -> digit_value (hex_digit d) = d.
Proof.
  intros Hd. assert (Z.to_nat d < 16)%nat as Hn by lia. rewrite <- (Z2Nat.id d) by lia.
  revert Hn. generalize (Z.to_nat d). intros n Hn. do 16 (destruct n as [|n]; [done|]). lia.
Qed.

(** The loop writes the low [4 * n] bits; what was read before is the bits above. *)
Lemma hex_loop_read n id : 0 <= id -> (n <= 8)%nat ->
  read_digits 16 (Z.shiftr id (4 * Z.of_nat n)) (hex_loop n (8 - Z.of_nat n) id) = (id, "") /\
  hex_string (hex_loop n (8 - Z.of_nat n) id).
Proof.
  intros Hid. induction n as [|n IH]; intros Hn.
  { simpl. by rewrite Z.shiftr_0_r. }
  cbn [hex_loop]. replace (8 - Z.of_nat (S n) + 1) with (8 - Z.of_nat n) by lia.
  replace ((7 - (8 - Z.of_nat (S n))) * 4) with (4 * Z.of_nat n) by lia.
  change 15 with (Z.ones 4). rewrite Z.land_ones by lia.
  pose proof (Z.mod_pos_bound (Z.shiftr id (4 * Z.of_nat n)) (2 ^ 4) ltac:(lia)) as Hd. change (2 ^ 4) with 16 in *.
  destruct IH as [IH IHs]; [lia|]. split; [|split; [rewrite hex_digit_value; lia|done]].
  cbn [read_digits]. rewrite hex_digit_value by lia. destruct (Z.ltb_spec (Z.shiftr id (4 * Z.of_nat n) mod 16) 16); [|lia].
  rewrite <- IH. f_equal. replace (4 * Z.of_nat (S n)) with (4 * Z.of_nat n + 4) by lia.
  rewrite <- Z.shiftr_shiftr by lia. set (v := Z.shiftr id (4 * Z.of_nat n)).
  rewrite (Z.shiftr_div_pow2 v 4) by lia. change (2 ^ 4) with 16. pose proof (Z.div_mod v 16). lia.
Qed.

Lemma strtoul16_id_to_hex h : is_u32 h -> strtoul16 (hex_loop 8 0 h) = h.
Proof.
  intros Hh. unfold is_u in Hh. destruct (hex_loop_read 8 h ltac:(lia) ltac:(lia)) as [Hr Hs].
  change (8 - Z.of_nat 8) with 0 in *. change (4 * Z.of_nat 8) with 32 in Hr.
  rewrite Z.shiftr_div_pow2, Z.div_small in Hr by lia.
  rewrite strtoul16_hex, Hr; [done|done|]. rewrite Hr. unfold ULONG_MAX. simpl. lia.
Qed.

Section addresses.
Context `{LawfulServices}.

(** An address written as a text, by the id_to_hex of LAUNCH or by the
    [:%x] of REG and QUERY, is read back as the same handle, by skynet_queryname
    and by the commands that take an address, and reading changes nothing. *)
Theorem address_roundtrip context h s :
  is_u32 h ->
  skynet_queryname context (id_to_hex h) s = Some (h, s) /\
  skynet_queryname context (":" ++ fmt_x h) s = Some (h, s) /\
  tohandle context (id_to_hex h) s = Some (h, s) /\
  tohandle context (":" ++ fmt_x h) s = Some (h, s).
Proof.
  intros Hh. assert (u32 h = h) as E by (by apply wrap_small). unfold id_to_hex, skynet_queryname, tohandle.
  rewrite strtoul16_id_to_hex by done. change (":" ++ fmt_x h)%string with (String ":" (fmt_x h)). cbn iota.
  rewrite strtoul16_fmt_x, E by done. done.
Qed.

Lemma name_handle_spec s R h k :
  reg_rep s R -> Z.of_nat (size (reg_names R)) < 2 ^ 29 ->
  exists hs, let s' := set_H hs s in
    skynet_handle_namehandle h k s = Some (match reg_names R !! k with Some _ => None | None => Some k end, s') /\
    reg_rep s' (Reg (reg_ctx R) (match reg_names R !! k with Some _ => reg_names R | None => <[k:=h]> (reg_names R) end)).
Proof.
  intros Hr Hsz. destruct (namehandle_rep s R h k Hr Hsz) as (r & s' & Hrun & -> & Hr').
  assert (exists hs, s' = set_H hs s) as [hs ->]; [|by exists hs].
  unfold skynet_handle_namehandle in Hrun. destruct (_insert_name _ _ _) as [[r' hs]|]; [|done].
  simpl in Hrun. injection Hrun as _ <-. by exists hs.
Qed.

Lemma result_spec context text s x : n_ctx s !! context = Some x ->
  result context text s = Some (Some text, set_ctx (<[context := cx_set_result text x]> (n_ctx s)) s).
Proof. intros Hx. unfold result. by rewrite (bind_run _ _ _ _ _ (update_run context _ s x Hx)). Qed.

(** Asked for [.n], the node answers what [names] has for [n], and 0 when it has nothing. *)
Definition answers (context : Z) (names : gmap string Z) (t : node) : Prop :=
  forall n, skynet_queryname context (String "." n) t = Some (default 0 (names !! n), t).

Lemma reg_answers context t R t' : reg_rep t R -> n_H t' = n_H t -> answers context (reg_names R) t'.
Proof.
  intros Ht E n. unfold skynet_queryname, reads. cbn iota. pose proof (findname_rep t R n Ht) as Hf.
  unfold skynet_handle_findname in Hf |- *. change (get_H t) with (n_H t) in Hf.
  change (get_H t') with (n_H t'). by rewrite E, Hf.
Qed.

(** [C21] A service with a handle registers an unused local name with REG, fewer than 2^29 names being in use: it gets the name
    back, and from then on the name stands for the service, and every other name for what it stood for.  QUERY answers the
    handle as an address text [:xx], which is read back as the handle, and so is the text that LAUNCH writes for it; it changes no name, and a second REG of the name
    answers NULL and changes no name either. *)
Theorem reg_then_query s R context x name :
  reg_rep s R -> Z.of_nat (S (size (reg_names R))) < 2 ^ 29 ->
  n_ctx s !! context = Some x -> cx_handle x <> 0 -> is_u32 (cx_handle x) -> reg_names R !! name = None ->
  answers context (reg_names R) s /\
  exists s1 s2 s3 text, skynet_command context "REG" (Some (String "." name)) s = Some (Some name, s1) /\
    answers context (<[name := cx_handle x]> (reg_names R)) s1 /\
    skynet_command context "QUERY" (Some (String "." name)) s1 = Some (Some text, s2) /\
    answers context (<[name := cx_handle x]> (reg_names R)) s2 /\
    skynet_queryname context text s2 = Some (cx_handle x, s2) /\
    skynet_queryname context (id_to_hex (cx_handle x)) s2 = Some (cx_handle x, s2) /\
    skynet_command context "REG" (Some (String "." name)) s2 = Some (None, s3) /\
    answers context (<[name := cx_handle x]> (reg_names R)) s3.
Proof.
  intros Hr Hsz Hx Hh Hu Hn. split; [by eapply reg_answers|]. set (k := cx_handle x) in *.
  assert (forall t y, n_ctx t !! context = Some y -> cx_handle y = k ->
    forall m, bind (skynet_context_handle context) m t = (m k t : option (option string * node))) as Hctx.
  { intros t y Ht Hy m. apply bind_run. unfold skynet_context_handle. rewrite (bind_deref _ _ _ _ Ht). by rewrite Hy. }
  destruct (name_handle_spec s R k name Hr ltac:(lia)) as (hs & Hreg & Hr1). rewrite Hn in Hreg, Hr1.
  set (R1 := Reg (reg_ctx R) (<[name := k]> (reg_names R))) in *. set (s1 := set_H hs s) in *.
  set (s2 := set_ctx (<[context := cx_set_result (":" ++ fmt_x k) x]> (n_ctx s1)) s1).
  assert (skynet_command context "QUERY" (Some (String "." name)) s1 = Some (Some (":" ++ fmt_x k)%string, s2)) as Hquery.
  { change (skynet_command context "QUERY") with (cmd_query context). unfold cmd_query.
    rewrite (bind_run (lift _) _ _ (String "." name) s1) by done. pose proof (findname_rep s1 R1 name Hr1) as Hf.
    rewrite (bind_run (reads (skynet_handle_findname name)) _ s1 k s1)
      by (unfold reads; rewrite Hf; unfold R1; simpl; by rewrite lookup_insert_eq).
    rewrite (proj2 (Z.eqb_neq k 0)) by done. by apply result_spec. }
  assert (n_ctx s2 !! context = Some (cx_set_result (":" ++ fmt_x k) x)) as Hx2 by apply lookup_insert_eq.
  destruct (name_handle_spec s1 R1 k name Hr1) as (hs3 & Hreg3 & Hr3).
  { unfold R1. simpl. by rewrite map_size_insert_None. }
  assert (R1.(reg_names) !! name = Some k) as Hk by apply lookup_insert_eq. rewrite Hk in Hreg3, Hr3.
  assert (skynet_handle_namehandle k name s2 = Some (None, set_H hs3 s2)) as Hreg2.
  { unfold skynet_handle_namehandle in Hreg3 |- *. change (get_H s2) with (get_H s1).
    destruct (_insert_name _ _ _) as [[r h']|]; [|done]. simpl in Hreg3 |- *. injection Hreg3 as -> E. by rewrite E. }
  exists s1, s2, (set_H hs3 s2), (":" ++ fmt_x k)%string.
  destruct (address_roundtrip context k s2 Hu) as (Ht1 & Ht2 & _).
  split_and!; try done; try by (apply (reg_answers context _ _ _ Hr1)).
  - change (skynet_command context "REG") with (cmd_reg context). unfold cmd_reg. by rewrite (Hctx s x).
  - change (skynet_command context "REG") with (cmd_reg context). unfold cmd_reg. by rewrite (Hctx s2 _ Hx2).
  - by apply (reg_answers context _ _ _ Hr3).
Qed.
End addresses.

Import Demo.
#[local] Existing Instances demo_services demo_lawful.

Lemma address_roundtrip_witness :
  is_u32 16777226 /\
  skynet_queryname 1 ":0100000A" demo_start = Some (16777226, demo_start) /\
  skynet_queryname 1 ":100000a" demo_start = Some (16777226, demo_start) /\
  tohandle 1 ":0100000A" demo_start = Some (16777226, demo_start) /\
  tohandle 1 ":100000a" demo_start = Some (16777226, demo_start).
Proof.
  assert (is_u32 16777226) as Hu by (split; [discriminate|reflexivity]). split; [exact Hu|].
  exact (address_roundtrip 1 16777226 demo_start Hu).
Defined.

Lemma reg_then_query_witness :
  exists s R s1 s2 s3 text, demo_boot demo_start = Some ((1, 2), s) /\ reg_rep s R /\
    skynet_command 1 "REG" (Some ".me") s = Some (Some "me", s1) /\
    answers 1 {["me" := 16777217]} s1 /\
    skynet_command 1 "QUERY" (Some ".me") s1 = Some (Some text, s2) /\
    skynet_queryname 1 text s2 = Some (16777217, s2) /\
    skynet_command 1 "REG" (Some ".me") s2 = Some (None, s3) /\ answers 1 {["me" := 16777217]} s3.
Proof.
  destruct demo_booted as (s & Hboot & (R & gq & qs & held & bufs & resv & Hi) & _).
  pose proof (iv_reg _ _ _ _ _ _ _ _ _ Hi) as Hr.
  assert (cx_handle <$> n_ctx s !! 1 = Some 16777217) as Hx
    by (apply (at_booted (fun s => cx_handle <$> n_ctx s !! 1) s _ Hboot); vm_compute; reflexivity).
  destruct (n_ctx s !! 1) as [x|] eqn:Hc; [|discriminate]. injection Hx as Hx.
  assert (hs_name_count (n_H s) = 0) as Hcount by (apply (at_booted (hs_name_count ∘ n_H) s _ Hboot); vm_compute; reflexivity).
  assert (reg_names R = ∅) as Hempty.
  { destruct (rr_names _ _ Hr) as (ns & Hns & <-). pose proof (nm_count _ _ Hns) as Hlen.
    change (get_H s) with (n_H s) in Hlen. rewrite Hcount in Hlen. destruct ns; [reflexivity|]. unfold zlen in Hlen. discriminate. }
  destruct (reg_then_query s R 1 x "me" Hr) as (_ & s1 & s2 & s3 & text & H1 & H2 & H3 & _ & H4 & _ & H5 & H6).
  - rewrite Hempty. reflexivity.
  - exact Hc.
  - rewrite Hx. discriminate.
  - rewrite Hx. split; [discriminate|reflexivity].
  - rewrite Hempty. reflexivity.
  - rewrite Hx, Hempty in H2, H6. rewrite Hx in H4. exists s, R, s1, s2, s3, text. split; [exact Hboot|]. split; [exact Hr|].
    split; [exact H1|]. split; [exact H2|]. split; [exact H3|]. split; [exact H4|]. split; [exact H5|exact H6].
Defined.
