(* ===== verification/Bytes.v ===== *)
(** Machine words as sequences of bytes: what reading and writing the bytes of
    a 32-bit or 64-bit word with shifts and masks amounts to. *)

From S2P Require Import Prelude.
Local Open Scope Z_scope.
Local Open Scope word_scope.

(** Linear arithmetic with divisions. *)
Ltac div_lia := Z.to_euclidean_division_equations; lia.

Definition is_bytes (l : list Z) : Prop := Forall is_u8 l.

#[export] Instance is_bytes_dec l : Decision (is_bytes l).
Proof. unfold is_bytes. apply _. Defined.

Lemma is_bytes_app l1 l2 : is_bytes (l1 ++ l2) <-> is_bytes l1 /\ is_bytes l2.
Proof. apply Forall_app. Qed.
Lemma is_bytes_cons x l : is_bytes (x :: l) <-> is_u8 x /\ is_bytes l.
Proof. apply Forall_cons. Qed.
Lemma is_bytes_take n l : is_bytes l -> is_bytes (take n l).
Proof. apply Forall_take. Qed.
Lemma is_bytes_drop n l : is_bytes l -> is_bytes (drop n l).
Proof. apply Forall_drop. Qed.
Lemma is_u8_u8 z : is_u8 (u8 z).
Proof. apply wrap_range. lia. Qed.
Lemma is_bytes_zget l i x : is_bytes l -> zget l i = Some x -> is_u8 x.
Proof.
  unfold zget, is_bytes. rewrite Forall_forall. intros Hl. case_match; [done|].
  intros Hi%list_elem_of_lookup_2. auto.
Qed.
#[export] Hint Resolve is_u8_u8 is_bytes_take is_bytes_drop : skynet.

(** Splits a list of known length into its bytes. *)
Ltac split_bytes :=
  repeat match goal with
  | H : is_bytes (_ :: _) |- _ => apply is_bytes_cons in H; destruct H as [? H]
  end.
Tactic Notation "explode" ident(l) integer(n) :=
  match goal with H : zlen l = _ |- _ =>
    unfold zlen in H; do n (destruct l as [|? l]; [exfalso; simpl in H; lia|]);
    destruct l; [|exfalso; simpl in H; lia]; clear H
  end; split_bytes.

(** The four bytes of a 32-bit word, the least significant first. *)
Definition word32 (b0 b1 b2 b3 : Z) : Z := b0 + b1 * 2 ^ 8 + b2 * 2 ^ 16 + b3 * 2 ^ 24.

Lemma word32_range b0 b1 b2 b3 :
  is_u8 b0 -> is_u8 b1 -> is_u8 b2 -> is_u8 b3 -> is_u32 (word32 b0 b1 b2 b3).
Proof. unfold is_u, word32. lia. Qed.

Lemma lor_word32 b0 b1 b2 b3 : is_u8 b0 -> is_u8 b1 -> is_u8 b2 -> is_u8 b3 ->
  b0 .| (b1 << 8) .| (b2 << 16) .| (b3 << 24) = word32 b0 b1 b2 b3.
Proof.
  intros H0 H1 H2 H3. unfold is_u in *.
  rewrite (lor_shiftl_add b0) by (unfold is_u; lia).
  rewrite (lor_shiftl_add (_ + _)) by (unfold is_u; lia).
  rewrite (lor_shiftl_add (_ + _)) by (unfold is_u; lia).
  unfold word32. lia.
Qed.

Lemma lor_word32_be b0 b1 b2 b3 : is_u8 b0 -> is_u8 b1 -> is_u8 b2 -> is_u8 b3 ->
  (b3 << 24) .| (b2 << 16) .| (b1 << 8) .| b0 = word32 b0 b1 b2 b3.
Proof. intros. rewrite <- lor_word32 by done. zbits. Qed.

Lemma u8_shiftr_word32 b0 b1 b2 b3 : is_u8 b0 -> is_u8 b1 -> is_u8 b2 -> is_u8 b3 ->
  u8 (word32 b0 b1 b2 b3) = b0 /\ u8 (word32 b0 b1 b2 b3 >> 8) = b1 /\
  u8 (word32 b0 b1 b2 b3 >> 16) = b2 /\ u8 (word32 b0 b1 b2 b3 >> 24) = b3.
Proof.
  unfold is_u, word32, u8, wrap. intros. rewrite !Z.shiftr_div_pow2 by lia.
  split_and!; symmetry.
  - apply (Z.mod_unique_pos _ _ (b1 + b2 * 2 ^ 8 + b3 * 2 ^ 16)); lia.
  - replace ((b0 + b1 * 2 ^ 8 + b2 * 2 ^ 16 + b3 * 2 ^ 24) / 2 ^ 8)
      with (b1 + b2 * 2 ^ 8 + b3 * 2 ^ 16).
    + apply (Z.mod_unique_pos _ _ (b2 + b3 * 2 ^ 8)); lia.
    + apply (Z.div_unique_pos _ _ _ b0); lia.
  - replace ((b0 + b1 * 2 ^ 8 + b2 * 2 ^ 16 + b3 * 2 ^ 24) / 2 ^ 16) with (b2 + b3 * 2 ^ 8).
    + apply (Z.mod_unique_pos _ _ b3); lia.
    + apply (Z.div_unique_pos _ _ _ (b0 + b1 * 2 ^ 8)); lia.
  - replace ((b0 + b1 * 2 ^ 8 + b2 * 2 ^ 16 + b3 * 2 ^ 24) / 2 ^ 24) with b3.
    + rewrite Z.mod_small; lia.
    + apply (Z.div_unique_pos _ _ _ (b0 + b1 * 2 ^ 8 + b2 * 2 ^ 16)); lia.
Qed.

Lemma word32_u8_shiftr n : is_u32 n ->
  word32 (u8 n) (u8 (n >> 8)) (u8 (n >> 16)) (u8 (n >> 24)) = n.
Proof.
  unfold is_u, word32, u8, wrap. intros. rewrite !Z.shiftr_div_pow2 by lia.
  change (2 ^ 24) with (2 ^ 8 * 2 ^ 8 * 2 ^ 8). change (2 ^ 16) with (2 ^ 8 * 2 ^ 8).
  rewrite <- !Z.div_div by lia.
  pose proof (Z.div_mod n (2 ^ 8)). pose proof (Z.div_mod (n / 2 ^ 8) (2 ^ 8)).
  pose proof (Z.div_mod (n / 2 ^ 8 / 2 ^ 8) (2 ^ 8)).
  rewrite (Z.mod_small (n / 2 ^ 8 / 2 ^ 8 / 2 ^ 8)); [lia|].
  pose proof (Z.div_mod (n / 2 ^ 8 / 2 ^ 8 / 2 ^ 8) (2 ^ 8)).
  split; [repeat (apply Z.div_pos; [|lia]); lia|].
  repeat (apply Z.div_lt_upper_bound; [lia|]). lia.
Qed.

(** A test that holds of the 256 bytes. *)
Lemma byte_forall (P : Z -> bool) : forallb P (seqZ 0 256) = true -> forall b, is_u8 b -> P b = true.
Proof.
  intros Hall b Hb. rewrite forallb_forall in Hall. apply Hall, list_elem_of_In, elem_of_seqZ.
  unfold is_u in Hb. lia.
Qed.

(** [x & 0xff] is the low byte. *)
Lemma land_ff z : z .& 0xff = u8 z.
Proof. apply (wrap_land 8). lia. Qed.

(** Shifts and masks by powers of two as quotients and remainders. *)
Lemma shiftr_div v n : 0 <= n -> v >> n = v / 2 ^ n.
Proof. intros. by rewrite Z.shiftr_div_pow2. Qed.

(** The little-endian words of a string of bytes, and the bytes of a word. *)
Fixpoint le_words (l : list Z) : list Z :=
  match l with
  | b0 :: b1 :: b2 :: b3 :: l' => word32 b0 b1 b2 b3 :: le_words l'
  | _ => []
  end.

Definition le32 (x : Z) : list Z := [u8 x; u8 (x >> 8); u8 (x >> 16); u8 (x >> 24)].

Lemma le_words_app l1 l2 n : length l1 = (4 * n)%nat -> le_words (l1 ++ l2) = le_words l1 ++ le_words l2.
Proof.
  revert l1. induction n as [|n IH]; intros l1 Hl; [by destruct l1|].
  do 4 (destruct l1 as [|? l1]; [simpl in Hl; lia|]). simpl. f_equal. apply IH. simpl in Hl. lia.
Qed.

Lemma length_le_words l n : length l = (4 * n)%nat -> length (le_words l) = n.
Proof.
  revert l. induction n as [|n IH]; intros l Hl; [by destruct l|].
  do 4 (destruct l as [|? l]; [simpl in Hl; lia|]). simpl. f_equal. apply IH. simpl in Hl. lia.
Qed.

Lemma u8_lxor a b : u8 (a .^ b) = u8 a .^ u8 b.
Proof. rewrite <- !land_ff. zbits. Qed.

(** ** Memory

    A block of memory is its cells; one that was not written is [None].
    [skynet_malloc], and [memcpy(dst + off, src, n)]: *)
Abbreviation cells := (list (option Z)).

Definition malloc (n : Z) : cells := replicate (Z.to_nat n) None.
Definition memcpy (dst : cells) (off : Z) (src : cells) (n : Z) : option cells :=
  if (0 <=? off) && (0 <=? n) && (off + n <=? zlen dst) && (n <=? zlen src)
  then Some (take (Z.to_nat off) dst ++ take (Z.to_nat n) src ++ drop (Z.to_nat (off + n)) dst)
  else None.

Lemma memcpy_fill a r d n :
  0 <= n <= zlen d -> n <= zlen r ->
  memcpy ((Some <$> a) ++ r) (zlen a) (Some <$> d) n =
    Some ((Some <$> (a ++ take (Z.to_nat n) d)) ++ drop (Z.to_nat n) r).
Proof.
  intros Hn Hr. unfold memcpy. rewrite zlen_app, !zlen_fmap. pose proof (zlen_nonneg a).
  destruct (Z.leb_spec 0 (zlen a)), (Z.leb_spec 0 n), (Z.leb_spec (zlen a + n) (zlen a + zlen r)), (Z.leb_spec n (zlen d));
    try lia. simpl. f_equal. unfold zlen in *.
  rewrite take_app_length' by (rewrite length_fmap; lia). rewrite drop_app_ge by (rewrite length_fmap; lia).
  rewrite length_fmap, fmap_app, <- app_assoc, <- fmap_take. do 2 f_equal. f_equal. lia.
Qed.

Lemma memcpy_malloc d n : 0 <= n <= zlen d -> memcpy (malloc n) 0 (Some <$> d) n = Some (Some <$> take (Z.to_nat n) d).
Proof.
  intros Hn. pose proof (memcpy_fill [] (malloc n) d n Hn) as H.
  change (zlen (@nil Z)) with 0 in H. change ((Some <$> []) ++ malloc n) with (malloc n) in H. rewrite H.
  - unfold malloc. by rewrite drop_ge, app_nil_r by (rewrite length_replicate; done).
  - unfold malloc. rewrite zlen_replicate. lia.
Qed.

(** *** Consecutive stores *)

Section splices.
Context {A : Type}.
Implicit Types (l xs ys : list A) (i n : Z).

Lemma take_splice_before l i xs n : n <= i <= zlen l -> take (Z.to_nat n) (splice l i xs) = take (Z.to_nat n) l.
Proof.
  unfold zlen, splice. intros. rewrite take_app_le by (rewrite length_take; lia).
  rewrite take_take. f_equal. lia.
Qed.

Lemma take_splice l i xs : 0 <= i <= zlen l -> take (Z.to_nat (i + zlen xs)) (splice l i xs) = take (Z.to_nat i) l ++ xs.
Proof.
  unfold zlen, splice. intros. rewrite app_assoc, take_app_le by (rewrite length_app, length_take; lia).
  apply take_ge. rewrite length_app, length_take. lia.
Qed.

Lemma splice_splice l i xs ys : 0 <= i <= zlen l ->
  splice (splice l i xs) (i + zlen xs) ys = splice l i (xs ++ ys).
Proof.
  intros Hi. unfold splice at 1. rewrite take_splice by done. unfold splice, zlen in *.
  rewrite <- !app_assoc. do 3 f_equal.
  rewrite app_assoc, drop_app_ge by (rewrite length_app, length_take; lia).
  rewrite drop_drop, !length_app, length_take. f_equal. lia.
Qed.

Lemma zset_splice l i x : 0 <= i < zlen l -> zset l i x = Some (splice l i [x]).
Proof. intros. rewrite zset_eq by lia. by rewrite <- splice_cons, splice_nil by done. Qed.
End splices.

Lemma memcpy_splice (dst : cells) off src n : zlen src = n -> 0 <= off -> off + n <= zlen dst ->
  memcpy dst off src n = Some (splice dst off src).
Proof.
  intros <- ??. unfold memcpy, splice. pose proof (zlen_nonneg src).
  destruct (Z.leb_spec 0 off), (Z.leb_spec 0 (zlen src)), (Z.leb_spec (off + zlen src) (zlen dst)),
    (Z.leb_spec (zlen src) (zlen src)); try lia. simpl.
  do 3 f_equal; [by unfold zlen; rewrite Nat2Z.id, firstn_all | unfold zlen; f_equal; lia].
Qed.

(** ** Little-endian words of any width *)

(** The [n] low bytes of [x], the lowest first: the memory of an [n]-byte word. *)
Fixpoint le_bytes (n : nat) (x : Z) : list Z :=
  match n with O => [] | S n' => u8 x :: le_bytes n' (x >> 8) end.
Fixpoint le_value (l : list Z) : Z :=
  match l with [] => 0 | b :: l' => b + 2 ^ 8 * le_value l' end.

Lemma length_le_bytes n x : length (le_bytes n x) = n.
Proof. revert x. induction n as [|n IH]; intros x; simpl; auto. Qed.

Lemma zlen_le_bytes n x : zlen (le_bytes n x) = Z.of_nat n.
Proof. unfold zlen. by rewrite length_le_bytes. Qed.

Lemma is_bytes_le_bytes n x : is_bytes (le_bytes n x).
Proof.
  revert x. induction n as [|n IH]; intros x; [by apply Forall_nil|].
  apply is_bytes_cons. split; [apply is_u8_u8|apply IH].
Qed.

Lemma le_value_bytes n x : le_value (le_bytes n x) = x mod 2 ^ (8 * Z.of_nat n).
Proof.
  revert x. induction n as [|n IH]; intros x; [by rewrite Z.mod_1_r|].
  cbn [le_bytes le_value]. rewrite IH, shiftr_div by lia. unfold u8, wrap.
  replace (8 * Z.of_nat (S n)) with (8 + 8 * Z.of_nat n) by lia. rewrite Z.pow_add_r by lia.
  pose proof (Z.pow_pos_nonneg 2 (8 * Z.of_nat n) ltac:(lia) ltac:(lia)).
  rewrite (Z.mul_comm (2 ^ 8) (_ mod _)), (Z.mul_comm (2 ^ 8)).
  rewrite (Z.mul_comm (2 ^ (8 * Z.of_nat n))), Z.rem_mul_r by lia. lia.
Qed.

Lemma le_value_range l : is_bytes l -> 0 <= le_value l < 2 ^ (8 * zlen l).
Proof.
  induction l as [|b l IH]; intros Hl; [done|]. apply is_bytes_cons in Hl as [Hb Hl].
  specialize (IH Hl). cbn [le_value]. rewrite zlen_cons. pose proof (zlen_nonneg l).
  replace (8 * (1 + zlen l)) with (8 + 8 * zlen l) by lia. rewrite Z.pow_add_r by lia.
  unfold is_u in Hb. nia.
Qed.
#[export] Hint Rewrite zlen_le_bytes : zlen.
#[export] Hint Resolve is_bytes_le_bytes : skynet.
