(* ===== verification/Des.v ===== *)
(** DES, the block cipher of lualib-src/lua-crypt.c: the key schedule, the
    16-round block transform, and the string functions over it.

    Words are 32 bits, shifts to the left wrap.  The s-boxes and the two
    permuted-choice tables are the arrays of the source.  A Lua function returns
    an [outcome]: a value, a raised error, or undefined behaviour. *)

From S2P Require Import Prelude Bytes.
Local Open Scope Z_scope.
Local Open Scope word_scope.

Definition SB1 : list Z := [
  0x01010400; 0x00000000; 0x00010000; 0x01010404;
  0x01010004; 0x00010404; 0x00000004; 0x00010000;
  0x00000400; 0x01010400; 0x01010404; 0x00000400;
  0x01000404; 0x01010004; 0x01000000; 0x00000004;
  0x00000404; 0x01000400; 0x01000400; 0x00010400;
  0x00010400; 0x01010000; 0x01010000; 0x01000404;
  0x00010004; 0x01000004; 0x01000004; 0x00010004;
  0x00000000; 0x00000404; 0x00010404; 0x01000000;
  0x00010000; 0x01010404; 0x00000004; 0x01010000;
  0x01010400; 0x01000000; 0x01000000; 0x00000400;
  0x01010004; 0x00010000; 0x00010400; 0x01000004;
  0x00000400; 0x00000004; 0x01000404; 0x00010404;
  0x01010404; 0x00010004; 0x01010000; 0x01000404;
  0x01000004; 0x00000404; 0x00010404; 0x01010400;
  0x00000404; 0x01000400; 0x01000400; 0x00000000;
  0x00010004; 0x00010400; 0x00000000; 0x01010004].

Definition SB2 : list Z := [
  0x80108020; 0x80008000; 0x00008000; 0x00108020;
  0x00100000; 0x00000020; 0x80100020; 0x80008020;
  0x80000020; 0x80108020; 0x80108000; 0x80000000;
  0x80008000; 0x00100000; 0x00000020; 0x80100020;
  0x00108000; 0x00100020; 0x80008020; 0x00000000;
  0x80000000; 0x00008000; 0x00108020; 0x80100000;
  0x00100020; 0x80000020; 0x00000000; 0x00108000;
  0x00008020; 0x80108000; 0x80100000; 0x00008020;
  0x00000000; 0x00108020; 0x80100020; 0x00100000;
  0x80008020; 0x80100000; 0x80108000; 0x00008000;
  0x80100000; 0x80008000; 0x00000020; 0x80108020;
  0x00108020; 0x00000020; 0x00008000; 0x80000000;
  0x00008020; 0x80108000; 0x00100000; 0x80000020;
  0x00100020; 0x80008020; 0x80000020; 0x00100020;
  0x00108000; 0x00000000; 0x80008000; 0x00008020;
  0x80000000; 0x80100020; 0x80108020; 0x00108000].

Definition SB3 : list Z := [
  0x00000208; 0x08020200; 0x00000000; 0x08020008;
  0x08000200; 0x00000000; 0x00020208; 0x08000200;
  0x00020008; 0x08000008; 0x08000008; 0x00020000;
  0x08020208; 0x00020008; 0x08020000; 0x00000208;
  0x08000000; 0x00000008; 0x08020200; 0x00000200;
  0x00020200; 0x08020000; 0x08020008; 0x00020208;
  0x08000208; 0x00020200; 0x00020000; 0x08000208;
  0x00000008; 0x08020208; 0x00000200; 0x08000000;
  0x08020200; 0x08000000; 0x00020008; 0x00000208;
  0x00020000; 0x08020200; 0x08000200; 0x00000000;
  0x00000200; 0x00020008; 0x08020208; 0x08000200;
  0x08000008; 0x00000200; 0x00000000; 0x08020008;
  0x08000208; 0x00020000; 0x08000000; 0x08020208;
  0x00000008; 0x00020208; 0x00020200; 0x08000008;
  0x08020000; 0x08000208; 0x00000208; 0x08020000;
  0x00020208; 0x00000008; 0x08020008; 0x00020200].

Definition SB4 : list Z := [
  0x00802001; 0x00002081; 0x00002081; 0x00000080;
  0x00802080; 0x00800081; 0x00800001; 0x00002001;
  0x00000000; 0x00802000; 0x00802000; 0x00802081;
  0x00000081; 0x00000000; 0x00800080; 0x00800001;
  0x00000001; 0x00002000; 0x00800000; 0x00802001;
  0x00000080; 0x00800000; 0x00002001; 0x00002080;
  0x00800081; 0x00000001; 0x00002080; 0x00800080;
  0x00002000; 0x00802080; 0x00802081; 0x00000081;
  0x00800080; 0x00800001; 0x00802000; 0x00802081;
  0x00000081; 0x00000000; 0x00000000; 0x00802000;
  0x00002080; 0x00800080; 0x00800081; 0x00000001;
  0x00802001; 0x00002081; 0x00002081; 0x00000080;
  0x00802081; 0x00000081; 0x00000001; 0x00002000;
  0x00800001; 0x00002001; 0x00802080; 0x00800081;
  0x00002001; 0x00002080; 0x00800000; 0x00802001;
  0x00000080; 0x00800000; 0x00002000; 0x00802080].

Definition SB5 : list Z := [
  0x00000100; 0x02080100; 0x02080000; 0x42000100;
  0x00080000; 0x00000100; 0x40000000; 0x02080000;
  0x40080100; 0x00080000; 0x02000100; 0x40080100;
  0x42000100; 0x42080000; 0x00080100; 0x40000000;
  0x02000000; 0x40080000; 0x40080000; 0x00000000;
  0x40000100; 0x42080100; 0x42080100; 0x02000100;
  0x42080000; 0x40000100; 0x00000000; 0x42000000;
  0x02080100; 0x02000000; 0x42000000; 0x00080100;
  0x00080000; 0x42000100; 0x00000100; 0x02000000;
  0x40000000; 0x02080000; 0x42000100; 0x40080100;
  0x02000100; 0x40000000; 0x42080000; 0x02080100;
  0x40080100; 0x00000100; 0x02000000; 0x42080000;
  0x42080100; 0x00080100; 0x42000000; 0x42080100;
  0x02080000; 0x00000000; 0x40080000; 0x42000000;
  0x00080100; 0x02000100; 0x40000100; 0x00080000;
  0x00000000; 0x40080000; 0x02080100; 0x40000100].

Definition SB6 : list Z := [
  0x20000010; 0x20400000; 0x00004000; 0x20404010;
  0x20400000; 0x00000010; 0x20404010; 0x00400000;
  0x20004000; 0x00404010; 0x00400000; 0x20000010;
  0x00400010; 0x20004000; 0x20000000; 0x00004010;
  0x00000000; 0x00400010; 0x20004010; 0x00004000;
  0x00404000; 0x20004010; 0x00000010; 0x20400010;
  0x20400010; 0x00000000; 0x00404010; 0x20404000;
  0x00004010; 0x00404000; 0x20404000; 0x20000000;
  0x20004000; 0x00000010; 0x20400010; 0x00404000;
  0x20404010; 0x00400000; 0x00004010; 0x20000010;
  0x00400000; 0x20004000; 0x20000000; 0x00004010;
  0x20000010; 0x20404010; 0x00404000; 0x20400000;
  0x00404010; 0x20404000; 0x00000000; 0x20400010;
  0x00000010; 0x00004000; 0x20400000; 0x00404010;
  0x00004000; 0x00400010; 0x20004010; 0x00000000;
  0x20404000; 0x20000000; 0x00400010; 0x20004010].

Definition SB7 : list Z := [
  0x00200000; 0x04200002; 0x04000802; 0x00000000;
  0x00000800; 0x04000802; 0x00200802; 0x04200800;
  0x04200802; 0x00200000; 0x00000000; 0x04000002;
  0x00000002; 0x04000000; 0x04200002; 0x00000802;
  0x04000800; 0x00200802; 0x00200002; 0x04000800;
  0x04000002; 0x04200000; 0x04200800; 0x00200002;
  0x04200000; 0x00000800; 0x00000802; 0x04200802;
  0x00200800; 0x00000002; 0x04000000; 0x00200800;
  0x04000000; 0x00200800; 0x00200000; 0x04000802;
  0x04000802; 0x04200002; 0x04200002; 0x00000002;
  0x00200002; 0x04000000; 0x04000800; 0x00200000;
  0x04200800; 0x00000802; 0x00200802; 0x04200800;
  0x00000802; 0x04000002; 0x04200802; 0x04200000;
  0x00200800; 0x00000000; 0x00000002; 0x04200802;
  0x00000000; 0x00200802; 0x04200000; 0x00000800;
  0x04000002; 0x04000800; 0x00000800; 0x00200002].

Definition SB8 : list Z := [
  0x10001040; 0x00001000; 0x00040000; 0x10041040;
  0x10000000; 0x10001040; 0x00000040; 0x10000000;
  0x00040040; 0x10040000; 0x10041040; 0x00041000;
  0x10041000; 0x00041040; 0x00001000; 0x00000040;
  0x10040000; 0x10000040; 0x10001000; 0x00001040;
  0x00041000; 0x00040040; 0x10040040; 0x10041000;
  0x00001040; 0x00000000; 0x00000000; 0x10040040;
  0x10000040; 0x10001000; 0x00041040; 0x00040000;
  0x00041040; 0x00040000; 0x10041000; 0x00001000;
  0x00000040; 0x10040040; 0x00001000; 0x00041040;
  0x10001000; 0x00000040; 0x10000040; 0x10040000;
  0x10040040; 0x10000000; 0x00040000; 0x10001040;
  0x00000000; 0x10041040; 0x00040040; 0x10000040;
  0x10040000; 0x10001000; 0x10001040; 0x00000000;
  0x10041040; 0x00041000; 0x00041000; 0x00001040;
  0x00001040; 0x00040040; 0x10000000; 0x10041000].

Definition LHs : list Z := [
  0x00000000; 0x00000001; 0x00000100; 0x00000101;
  0x00010000; 0x00010001; 0x00010100; 0x00010101;
  0x01000000; 0x01000001; 0x01000100; 0x01000101;
  0x01010000; 0x01010001; 0x01010100; 0x01010101].

Definition RHs : list Z := [
  0x00000000; 0x01000000; 0x00010000; 0x01010000;
  0x00000100; 0x01000100; 0x00010100; 0x01010100;
  0x00000001; 0x01000001; 0x00010001; 0x01010001;
  0x00000101; 0x01000101; 0x00010101; 0x01010101].

(** ** Words *)

Definition shl (x n : Z) : Z := u32 (x << n).
Definition rotl1 (x : Z) : Z := (shl x 1 .| (x >> 31)) .& 0xFFFFFFFF.
Definition rotr1 (x : Z) : Z := (shl x 31 .| (x >> 1)) .& 0xFFFFFFFF.

Definition GET_UINT32 (b : list Z) (i : Z) : option Z :=
  b0 ← zget b i; b1 ← zget b (i + 1); b2 ← zget b (i + 2); b3 ← zget b (i + 3);
  Some (shl b0 24 .| shl b1 16 .| shl b2 8 .| b3).

Definition PUT_UINT32 (n : Z) : list Z := [u8 (n >> 24); u8 (n >> 16); u8 (n >> 8); u8 n].

(** The step the permutation macros repeat:
    [T = ((X >> n) ^ Y) & m; Y ^= T; X ^= (T << n);] *)
Definition swap_bits (n m : Z) (XY : Z * Z) : Z * Z :=
  let '(X, Y) := XY in
  let T := ((X >> n) .^ Y) .& m in
  (X .^ shl T n, Y .^ T).

(** The same step with the two words exchanged. *)
Definition swap_bits' (n m : Z) (XY : Z * Z) : Z * Z :=
  let '(X, Y) := XY in
  let '(Y', X') := swap_bits n m (Y, X) in (X', Y').

Definition DES_IP (XY : Z * Z) : Z * Z :=
  let '(X, Y) := swap_bits' 8 0x00FF00FF (swap_bits' 2 0x33333333
                  (swap_bits 16 0x0000FFFF (swap_bits 4 0x0F0F0F0F XY))) in
  let Y := rotl1 Y in
  let T := (X .^ Y) .& 0xAAAAAAAA in
  let Y := Y .^ T in
  let X := X .^ T in
  (rotl1 X, Y).

Definition DES_FP (XY : Z * Z) : Z * Z :=
  let '(X, Y) := XY in
  let X := rotr1 X in
  let T := (X .^ Y) .& 0xAAAAAAAA in
  let X := X .^ T in
  let Y := Y .^ T in
  let Y := rotr1 Y in
  swap_bits 4 0x0F0F0F0F (swap_bits 16 0x0000FFFF
    (swap_bits' 2 0x33333333 (swap_bits' 8 0x00FF00FF (X, Y)))).

Definition sbox (t : list Z) (i : Z) : Z := t !!! Z.to_nat i.

(** What a round adds to [Y]. *)
Definition DES_ROUND (k0 k1 X : Z) : Z :=
  let T := k0 .^ X in
  let a := sbox SB8 (T .& 0x3F) .^ sbox SB6 ((T >> 8) .& 0x3F) .^
           sbox SB4 ((T >> 16) .& 0x3F) .^ sbox SB2 ((T >> 24) .& 0x3F) in
  let T := k1 .^ (shl X 28 .| (X >> 4)) in
  a .^ (sbox SB7 (T .& 0x3F) .^ sbox SB5 ((T >> 8) .& 0x3F) .^
        sbox SB3 ((T >> 16) .& 0x3F) .^ sbox SB1 ((T >> 24) .& 0x3F)).

(** ** The key schedule *)

Definition pick (t : list Z) (x n : Z) : Z := t !!! Z.to_nat ((x >> n) .& 0xF).

Definition subkey1 (X Y : Z) : Z :=
     (shl X 4 .& 0x24000000) .| (shl X 28 .& 0x10000000)
  .| (shl X 14 .& 0x08000000) .| (shl X 18 .& 0x02080000)
  .| (shl X 6 .& 0x01000000) .| (shl X 9 .& 0x00200000)
  .| ((X >> 1) .& 0x00100000) .| (shl X 10 .& 0x00040000)
  .| (shl X 2 .& 0x00020000) .| ((X >> 10) .& 0x00010000)
  .| ((Y >> 13) .& 0x00002000) .| ((Y >> 4) .& 0x00001000)
  .| (shl Y 6 .& 0x00000800) .| ((Y >> 1) .& 0x00000400)
  .| ((Y >> 14) .& 0x00000200) .| (Y .& 0x00000100)
  .| ((Y >> 5) .& 0x00000020) .| ((Y >> 10) .& 0x00000010)
  .| ((Y >> 3) .& 0x00000008) .| ((Y >> 18) .& 0x00000004)
  .| ((Y >> 26) .& 0x00000002) .| ((Y >> 24) .& 0x00000001).

Definition subkey2 (X Y : Z) : Z :=
     (shl X 15 .& 0x20000000) .| (shl X 17 .& 0x10000000)
  .| (shl X 10 .& 0x08000000) .| (shl X 22 .& 0x04000000)
  .| ((X >> 2) .& 0x02000000) .| (shl X 1 .& 0x01000000)
  .| (shl X 16 .& 0x00200000) .| (shl X 11 .& 0x00100000)
  .| (shl X 3 .& 0x00080000) .| ((X >> 6) .& 0x00040000)
  .| (shl X 15 .& 0x00020000) .| ((X >> 4) .& 0x00010000)
  .| ((Y >> 2) .& 0x00002000) .| (shl Y 8 .& 0x00001000)
  .| ((Y >> 14) .& 0x00000808) .| ((Y >> 9) .& 0x00000400)
  .| (Y .& 0x00000200) .| (shl Y 7 .& 0x00000100)
  .| ((Y >> 7) .& 0x00000020) .| ((Y >> 3) .& 0x00000011)
  .| (shl Y 2 .& 0x00000004) .| ((Y >> 21) .& 0x00000002).

(** Iterations [i .. i+n-1] of the loop that calculates the subkeys. *)
Fixpoint subkeys (n : nat) (i X Y : Z) : list Z :=
  match n with
  | O => []
  | S n' =>
      let s := if (i <? 2) || (i =? 8) || (i =? 15) then 1 else 2 in
      let X := (shl X s .| (X >> (28 - s))) .& 0x0FFFFFFF in
      let Y := (shl Y s .| (Y >> (28 - s))) .& 0x0FFFFFFF in
      subkey1 X Y :: subkey2 X Y :: subkeys n' (i + 1) X Y
  end.

Definition des_main_ks (key : list Z) : option (list Z) :=
  X ← GET_UINT32 key 0;
  Y ← GET_UINT32 key 4;
  (* Permuted Choice 1 *)
  let T := ((Y >> 4) .^ X) .& 0x0F0F0F0F in
  let X := X .^ T in let Y := Y .^ shl T 4 in
  let T := (Y .^ X) .& 0x10101010 in
  let X := X .^ T in let Y := Y .^ T in
  let X := shl (pick LHs X 0) 3 .| shl (pick LHs X 8) 2
        .| shl (pick LHs X 16) 1 .| pick LHs X 24
        .| shl (pick LHs X 5) 7 .| shl (pick LHs X 13) 6
        .| shl (pick LHs X 21) 5 .| shl (pick LHs X 29) 4 in
  let Y := shl (pick RHs Y 1) 3 .| shl (pick RHs Y 9) 2
        .| shl (pick RHs Y 17) 1 .| pick RHs Y 25
        .| shl (pick RHs Y 4) 7 .| shl (pick RHs Y 12) 6
        .| shl (pick RHs Y 20) 5 .| shl (pick RHs Y 28) 4 in
  Some (subkeys 16 0 (X .& 0x0FFFFFFF) (Y .& 0x0FFFFFFF)).

(** ** The block transform *)

(** [n] times [DES_ROUND(Y, X); DES_ROUND(X, Y);], reading the subkeys in turn. *)
Fixpoint des_rounds (n : nat) (SK : list Z) (X Y : Z) : option (Z * Z) :=
  match n, SK with
  | O, _ => Some (X, Y)
  | S n', k0 :: k1 :: k2 :: k3 :: SK' =>
      let X := X .^ DES_ROUND k0 k1 Y in
      let Y := Y .^ DES_ROUND k2 k3 X in
      des_rounds n' SK' X Y
  | _, _ => None
  end.

Definition des_crypt (SK input : list Z) : option (list Z) :=
  X ← GET_UINT32 input 0;
  Y ← GET_UINT32 input 4;
  let '(X, Y) := DES_IP (X, Y) in
  '(X, Y) ← des_rounds 8 SK X Y;
  let '(Y, X) := DES_FP (Y, X) in
  Some (PUT_UINT32 Y ++ PUT_UINT32 X).

(** ** The string functions *)

Definition des_key (key : list Z) : outcome (list Z) :=
  if negb (zlen key =? 8) then Raise "Invalid key size, need 8 bytes"
  else chk (des_main_ks key).

(** [for (i;i<bound;i+=8) des_crypt(SK, text+i, buffer+i)], [n] times. *)
Fixpoint crypt_blocks (n : nat) (SK text : list Z) : option (list Z) :=
  match n with
  | O => Some []
  | S n' =>
      b ← des_crypt SK (take 8 text);
      rest ← crypt_blocks n' SK (drop 8 text);
      Some (b ++ rest)
  end.

(** The last block: the rest of the text, 0x80, and zeros up to 8 bytes. *)
Definition des_tail (rest : list Z) : list Z :=
  (fun j : nat => if Z.of_nat j <? zlen rest then default 0 (rest !! j)
                  else if Z.of_nat j =? zlen rest then 0x80 else 0) <$> seq 0 8.

Definition ldesencode (key text : list Z) : outcome (list Z) :=
  SK ← des_key key;
  let textsz := zlen text in
  let n := Z.to_nat (textsz / 8) in
  blocks ← chk (crypt_blocks n SK text);
  tail ← chk (des_crypt SK (des_tail (drop (8 * n) text)));
  Ret (blocks ++ tail).

Fixpoint reverse_pairs (ESK : list Z) (n : nat) : list Z :=
  match n with
  | O => []
  | S n' => (ESK !!! (2 * n')%nat) :: (ESK !!! (2 * n' + 1)%nat) :: reverse_pairs ESK n'
  end.

(** The padding is measured from the end: [i] runs down from [textsz-1] while
    [i >= textsz-8], a comparison of unsigned 64-bit numbers. *)
Fixpoint padding_loop (fuel : nat) (i textsz padding : Z) (buffer : list Z) : outcome Z :=
  if u64 (textsz - 8) <=? u64 i then
    match fuel with
    | O => Undef
    | S fuel' =>
        b ← chk (zget buffer i);
        if b =? 0 then padding_loop fuel' (i - 1) textsz (padding + 1) buffer
        else if b =? 0x80 then Ret padding
        else Raise "Invalid des crypt text"
    end
  else Ret padding.

Definition ldesdecode (key text : list Z) : outcome (list Z) :=
  ESK ← des_key key;
  let SK := reverse_pairs ESK 16 in
  let textsz := zlen text in
  if negb (Z.land textsz 7 =? 0) || (textsz =? 0) then Raise "Invalid des crypt text length"
  else
    buffer ← chk (crypt_blocks (Z.to_nat (textsz / 8)) SK text);
    padding ← padding_loop 9 (textsz - 1) textsz 1 buffer;
    if 8 <? padding then Raise "Invalid des crypt text"
    else Ret (take (Z.to_nat (textsz - padding)) buffer).

(** [random] is the sequence of values the library call returns. *)
Definition lrandomkey (random : nat -> Z) : list Z :=
  let tmp := (fun j => Z.land (random j) 0xff) <$> seq 0 8 in
  let x := foldl Z.lxor 0 tmp in
  if x =? 0 then
    match tmp with t0 :: rest => Z.lor t0 1 :: rest | [] => [] end
  else tmp.

(** ** Words of 32 bits *)

Lemma shl_small x n : 0 <= n -> 0 <= x -> x * 2 ^ n < 2 ^ 32 -> shl x n = Z.shiftl x n.
Proof.
  intros. unfold shl, u32. apply wrap_small. rewrite Z.shiftl_mul_pow2 by done.
  pose proof (Z.pow_pos_nonneg 2 n). unfold is_u. lia.
Qed.

Lemma is_u32_shl x n : is_u32 (shl x n).
Proof. apply wrap_range. lia. Qed.

Lemma lxor_lxor_r a b : Z.lxor (Z.lxor a b) b = a.
Proof. rewrite Z.lxor_assoc, Z.lxor_nilpotent. apply Z.lxor_0_r. Qed.

(** The permutation step is an involution. *)
Lemma swap_bits_involutive n m X Y :
  0 <= n -> 0 <= m -> m * 2 ^ n < 2 ^ 32 -> swap_bits n m (swap_bits n m (X, Y)) = (X, Y).
Proof.
  intros Hn Hm Hlt. unfold swap_bits.
  set (T := ((X >> n) .^ Y) .& m).
  assert (shl T n = T << n) as Hshl.
  { pose proof (land_bound ((X >> n) .^ Y) m Hm). apply shl_small; subst T; try lia. nia. }
  rewrite Hshl.
  assert ((((X .^ (T << n)) >> n) .^ (Y .^ T)) .& m = T) as ->.
  { rewrite Z.shiftr_lxor, Z.shiftr_shiftl_l, Z.sub_diag, Z.shiftl_0_r by lia. subst T. zbits. }
  by rewrite Hshl, !lxor_lxor_r.
Qed.

Lemma swap_bits'_involutive n m X Y :
  0 <= n -> 0 <= m -> m * 2 ^ n < 2 ^ 32 -> swap_bits' n m (swap_bits' n m (X, Y)) = (X, Y).
Proof.
  intros. pose proof (swap_bits_involutive n m Y X) as Hs. unfold swap_bits'.
  destruct (swap_bits n m (Y, X)) as [Y' X'] eqn:E. rewrite Hs by done. done.
Qed.

Definition is_words (XY : Z * Z) : Prop := is_u32 XY.1 /\ is_u32 XY.2.

Lemma is_words_swap_bits n m XY : 0 <= n -> is_u32 m -> is_words XY -> is_words (swap_bits n m XY).
Proof.
  destruct XY as [X Y]. intros Hn Hm [HX HY]. unfold swap_bits, is_words. simpl in *.
  split; apply is_u_lxor; try done; try lia; [apply is_u32_shl|by apply is_u_land].
Qed.

Lemma is_words_swap_bits' n m XY : 0 <= n -> is_u32 m -> is_words XY -> is_words (swap_bits' n m XY).
Proof.
  destruct XY as [X Y]. intros Hn Hm [HX HY].
  pose proof (is_words_swap_bits n m (Y, X) Hn Hm (conj HY HX)) as [??].
  unfold swap_bits'. by destruct (swap_bits n m (Y, X)).
Qed.

Lemma is_u32_rotl1 x : is_u32 (rotl1 x).
Proof. apply is_u_land; [lia|]. done. Qed.
Lemma is_u32_rotr1 x : is_u32 (rotr1 x).
Proof. apply is_u_land; [lia|]. done. Qed.

Lemma mask32 x : is_u32 x -> x .& 0xFFFFFFFF = x.
Proof. intros. change 0xFFFFFFFF with (2 ^ 32 - 1). rewrite wrap_land by lia. by apply wrap_small. Qed.

Lemma rotl1_eq x : is_u32 x -> rotl1 x = 2 * (x mod 2 ^ 31) + x / 2 ^ 31.
Proof.
  intros Hx. unfold rotl1. rewrite Z.shiftr_div_pow2 by lia.
  assert (shl x 1 = (x mod 2 ^ 31) << 1) as ->.
  { unfold shl, u32, wrap. rewrite !Z.shiftl_mul_pow2 by lia.
    change (2 ^ 32) with (2 ^ 31 * 2 ^ 1). by rewrite Z.mul_mod_distr_r by lia. }
  assert (0 <= x / 2 ^ 31 < 2) by
    (unfold is_u in Hx; split; [apply Z.div_pos; lia|apply Z.div_lt_upper_bound; lia]).
  pose proof (Z.mod_pos_bound x (2 ^ 31)).
  rewrite (lor_shiftl_add' (x / 2 ^ 31)) by (unfold is_u; lia).
  rewrite mask32 by (unfold is_u; lia). lia.
Qed.

Lemma rotr1_eq x : is_u32 x -> rotr1 x = (x mod 2) * 2 ^ 31 + x / 2.
Proof.
  intros Hx. unfold rotr1. rewrite Z.shiftr_div_pow2 by lia. change (2 ^ 1) with 2.
  assert (shl x 31 = (x mod 2) << 31) as ->.
  { unfold shl, u32, wrap. rewrite !Z.shiftl_mul_pow2 by lia.
    change (2 ^ 32) with (2 * 2 ^ 31). by rewrite Z.mul_mod_distr_r by lia. }
  assert (0 <= x / 2 < 2 ^ 31) by
    (unfold is_u in Hx; split; [apply Z.div_pos; lia|apply Z.div_lt_upper_bound; lia]).
  pose proof (Z.mod_pos_bound x 2).
  rewrite (lor_shiftl_add' (x / 2)) by (unfold is_u; lia).
  rewrite mask32 by (unfold is_u; lia). lia.
Qed.

Lemma rotr1_rotl1 x : is_u32 x -> rotr1 (rotl1 x) = x.
Proof.
  intros Hx. rewrite rotr1_eq by apply is_u32_rotl1. rewrite rotl1_eq by done.
  assert (0 <= x / 2 ^ 31 < 2) by
    (unfold is_u in Hx; split; [apply Z.div_pos; lia|apply Z.div_lt_upper_bound; lia]).
  pose proof (Z.div_mod x (2 ^ 31)).
  set (h := x / 2 ^ 31) in *. set (l := x mod 2 ^ 31) in *.
  replace (2 * l + h) with (h + l * 2) by lia.
  rewrite Z_mod_plus_full, Z.div_add, Z.mod_small, Z.div_small by lia. lia.
Qed.

Lemma rotl1_rotr1 x : is_u32 x -> rotl1 (rotr1 x) = x.
Proof.
  intros Hx. rewrite rotl1_eq by apply is_u32_rotr1. rewrite rotr1_eq by done.
  assert (0 <= x / 2 < 2 ^ 31) by
    (unfold is_u in Hx; split; [apply Z.div_pos; lia|apply Z.div_lt_upper_bound; lia]).
  pose proof (Z.div_mod x 2).
  set (h := x / 2) in *. set (l := x mod 2) in *.
  replace (l * 2 ^ 31 + h) with (h + l * 2 ^ 31) by lia.
  rewrite Z_mod_plus_full, Z.div_add, Z.mod_small, Z.div_small by lia. lia.
Qed.

(** The initial and the final permutation are inverse. *)
Definition rot_half (XY : Z * Z) : Z * Z :=
  let '(X, Y) := XY in
  let Y := rotl1 Y in
  let T := (X .^ Y) .& 0xAAAAAAAA in
  (rotl1 (X .^ T), Y .^ T).
Definition unrot_half (XY : Z * Z) : Z * Z :=
  let '(X, Y) := XY in
  let X := rotr1 X in
  let T := (X .^ Y) .& 0xAAAAAAAA in
  (X .^ T, rotr1 (Y .^ T)).

Lemma is_u32_exchange X Y : is_u32 X -> is_u32 Y -> is_u32 (X .^ ((X .^ Y) .& 0xAAAAAAAA)).
Proof. intros. apply is_u_lxor; [lia|done|]. apply is_u_land; [lia|]. done. Qed.

Lemma exchange_involutive X Y m :
  (X .^ ((X .^ Y) .& m)) .^ (((X .^ ((X .^ Y) .& m)) .^ (Y .^ ((X .^ Y) .& m))) .& m) = X.
Proof. zbits. Qed.
Lemma exchange_involutive' X Y m :
  (Y .^ ((X .^ Y) .& m)) .^ (((X .^ ((X .^ Y) .& m)) .^ (Y .^ ((X .^ Y) .& m))) .& m) = Y.
Proof. zbits. Qed.

Lemma unrot_rot XY : is_words XY -> unrot_half (rot_half XY) = XY.
Proof.
  destruct XY as [X Y]. intros [HX HY]. simpl in *. unfold unrot_half, rot_half.
  rewrite rotr1_rotl1 by (apply is_u32_exchange; [done|apply is_u32_rotl1]).
  by rewrite exchange_involutive, exchange_involutive', rotr1_rotl1.
Qed.

Lemma rot_unrot XY : is_words XY -> rot_half (unrot_half XY) = XY.
Proof.
  destruct XY as [X Y]. intros [HX HY]. simpl in *. unfold unrot_half, rot_half.
  assert (is_u32 (Y .^ ((rotr1 X .^ Y) .& 0xAAAAAAAA))).
  { apply is_u_lxor; [lia|done|]. apply is_u_land; [lia|done]. }
  rewrite rotl1_rotr1 by done.
  by rewrite exchange_involutive, exchange_involutive', rotl1_rotr1.
Qed.

Lemma DES_IP_eq XY : DES_IP XY = rot_half (swap_bits' 8 0x00FF00FF (swap_bits' 2 0x33333333
  (swap_bits 16 0x0000FFFF (swap_bits 4 0x0F0F0F0F XY)))).
Proof. unfold DES_IP, rot_half. by destruct (swap_bits' 8 _ _). Qed.
Lemma DES_FP_eq XY : DES_FP XY = swap_bits 4 0x0F0F0F0F (swap_bits 16 0x0000FFFF
  (swap_bits' 2 0x33333333 (swap_bits' 8 0x00FF00FF (unrot_half XY)))).
Proof. by destruct XY. Qed.

Lemma is_words_rot XY : is_words XY -> is_words (rot_half XY).
Proof.
  destruct XY as [X Y]. intros [HX HY]. split; simpl; [apply is_u32_rotl1|].
  apply is_u_lxor; [lia|apply is_u32_rotl1|]. apply is_u_land; [lia|done].
Qed.
Lemma is_words_unrot XY : is_words XY -> is_words (unrot_half XY).
Proof.
  destruct XY as [X Y]. intros [HX HY]. split; simpl; [|apply is_u32_rotr1].
  apply is_u32_exchange; [apply is_u32_rotr1|done].
Qed.

Ltac words := repeat first
  [ done | lia | apply is_words_rot | apply is_words_unrot
  | apply is_words_swap_bits | apply is_words_swap_bits' ].

Lemma is_words_IP XY : is_words XY -> is_words (DES_IP XY).
Proof. intros. rewrite DES_IP_eq. words. Qed.
Lemma is_words_FP XY : is_words XY -> is_words (DES_FP XY).
Proof. intros. rewrite DES_FP_eq. words. Qed.

Lemma swap_inv n m XY : 0 <= n -> 0 <= m -> m * 2 ^ n < 2 ^ 32 -> swap_bits n m (swap_bits n m XY) = XY.
Proof. destruct XY. apply swap_bits_involutive. Qed.
Lemma swap_inv' n m XY : 0 <= n -> 0 <= m -> m * 2 ^ n < 2 ^ 32 -> swap_bits' n m (swap_bits' n m XY) = XY.
Proof. destruct XY. apply swap_bits'_involutive. Qed.

Lemma DES_FP_IP XY : is_words XY -> DES_FP (DES_IP XY) = XY.
Proof.
  intros. rewrite DES_FP_eq, DES_IP_eq, unrot_rot by words.
  by rewrite !swap_inv', !swap_inv by lia.
Qed.
Lemma DES_IP_FP XY : is_words XY -> DES_IP (DES_FP XY) = XY.
Proof.
  intros. rewrite DES_FP_eq, DES_IP_eq.
  rewrite !swap_inv, !swap_inv' by lia. by apply rot_unrot.
Qed.

(** ** One block *)

Lemma GET_word b0 b1 b2 b3 :
  is_u8 b0 -> is_u8 b1 -> is_u8 b2 -> is_u8 b3 ->
  shl b0 24 .| shl b1 16 .| shl b2 8 .| b3 = word32 b3 b2 b1 b0.
Proof.
  intros. rewrite !shl_small by (unfold is_u in *; lia). by apply lor_word32_be.
Qed.

Lemma GET_PUT n m : is_u32 n -> is_u32 m ->
  GET_UINT32 (PUT_UINT32 n ++ PUT_UINT32 m) 0 = Some n /\
  GET_UINT32 (PUT_UINT32 n ++ PUT_UINT32 m) 4 = Some m.
Proof.
  intros. unfold GET_UINT32, PUT_UINT32. simpl.
  rewrite !GET_word by apply is_u8_u8. by rewrite !word32_u8_shiftr.
Qed.

Lemma PUT_GET b : is_bytes b -> zlen b = 8 ->
  exists X Y, GET_UINT32 b 0 = Some X /\ GET_UINT32 b 4 = Some Y /\ is_u32 X /\ is_u32 Y /\
    PUT_UINT32 X ++ PUT_UINT32 Y = b.
Proof.
  intros Hb Hl. explode b 8.
  eexists _, _. split; [reflexivity|]. split; [reflexivity|].
  rewrite !GET_word by done. split; [by apply word32_range|]. split; [by apply word32_range|].
  unfold PUT_UINT32.
  destruct (u8_shiftr_word32 z2 z1 z0 z) as (-> & -> & -> & ->); try done.
  destruct (u8_shiftr_word32 z6 z5 z4 z3) as (-> & -> & -> & ->); done.
Qed.

Lemma is_u32_sbox t i : Forall is_u32 t -> is_u32 (sbox t i).
Proof.
  intros Ht. unfold sbox. rewrite list_lookup_total_alt.
  destruct (t !! Z.to_nat i) as [x|] eqn:E; simpl; [|done].
  rewrite Forall_forall in Ht. by apply Ht, (list_elem_of_lookup_2 _ (Z.to_nat i)).
Qed.

Lemma is_u32_ROUND k0 k1 X : is_u32 (DES_ROUND k0 k1 X).
Proof.
  unfold DES_ROUND. repeat (apply is_u_lxor; [lia|..]); apply is_u32_sbox;
by_eval.
Qed.

(** The subkeys in the order that undoes the rounds. *)
Fixpoint rev_pairs (SK : list Z) : list Z :=
  match SK with
  | k0 :: k1 :: SK' => rev_pairs SK' ++ [k0; k1]
  | _ => []
  end.

Lemma des_rounds_app n SK k0 k1 k2 k3 X Y :
  length SK = (4 * n)%nat ->
  des_rounds (S n) (SK ++ [k0; k1; k2; k3]) X Y =
  '(X', Y') ← des_rounds n SK X Y; des_rounds 1 [k0; k1; k2; k3] X' Y'.
Proof.
  revert SK X Y. induction n as [|n IH]; intros SK X Y Hl.
  { destruct SK; [done|discriminate Hl]. }
  destruct SK as [|a0 [|a1 [|a2 [|a3 SK]]]]; try (simpl in Hl; lia).
  change (des_rounds (S (S n)) ((a0 :: a1 :: a2 :: a3 :: SK) ++ [k0; k1; k2; k3]) X Y) with
    (let X := X .^ DES_ROUND a0 a1 Y in let Y := Y .^ DES_ROUND a2 a3 X in
     des_rounds (S n) (SK ++ [k0; k1; k2; k3]) X Y).
  cbv zeta. rewrite IH by (simpl in Hl; lia). done.
Qed.

Lemma length_rev_pairs n SK : length SK = (2 * n)%nat -> length (rev_pairs SK) = (2 * n)%nat.
Proof.
  revert SK. induction n as [|n IH]; intros [|a0 [|a1 SK]] Hl; try done; try (simpl in Hl; lia).
  simpl. rewrite length_app, IH; simpl in *; lia.
Qed.

Lemma des_rounds_inverse n SK X Y :
  length SK = (4 * n)%nat -> is_words (X, Y) ->
  exists X' Y', des_rounds n SK X Y = Some (X', Y') /\ is_words (X', Y') /\
    des_rounds n (rev_pairs SK) Y' X' = Some (Y, X).
Proof.
  revert SK X Y. induction n as [|n IH]; intros SK X Y Hl Hw.
  { destruct SK; [|discriminate Hl]. by exists X, Y. }
  destruct SK as [|k0 [|k1 [|k2 [|k3 SK]]]]; try (simpl in Hl; lia).
  assert (length SK = (4 * n)%nat) as Hl' by (simpl in Hl; lia).
  set (X1 := X .^ DES_ROUND k0 k1 Y). set (Y1 := Y .^ DES_ROUND k2 k3 X1).
  destruct (IH SK X1 Y1 Hl') as (X' & Y' & Hf & Hw' & Hb).
  { destruct Hw as [??]. split; apply is_u_lxor; done || lia || apply is_u32_ROUND. }
  exists X', Y'. split; [exact Hf|]. split; [done|].
  assert (length (rev_pairs SK) = (4 * n)%nat) as Hlr.
  { rewrite (length_rev_pairs (2 * n)); lia. }
  cbn [rev_pairs]. rewrite <- app_assoc. simpl app.
  rewrite des_rounds_app by done. rewrite Hb. simpl. subst X1 Y1.
  by rewrite !lxor_lxor_r.
Qed.

Lemma des_crypt_inverse SK b :
  length SK = 32%nat -> is_bytes b -> zlen b = 8 ->
  exists out, des_crypt SK b = Some out /\ is_bytes out /\ zlen out = 8 /\
    des_crypt (rev_pairs SK) out = Some b.
Proof.
  intros HS Hb Hl. destruct (PUT_GET b Hb Hl) as (X & Y & HX & HY & Hu1 & Hu2 & Hput).
  unfold des_crypt at 1. rewrite HX, HY. cbn [mbind option_bind].
  destruct (DES_IP (X, Y)) as [X0 Y0] eqn:HIP.
  assert (is_words (X0, Y0)) as Hw0 by (rewrite <- HIP; by apply is_words_IP).
  destruct (des_rounds_inverse 8 SK X0 Y0 HS Hw0) as (X1 & Y1 & -> & Hw1 & Hback).
  cbn [mbind option_bind].
  destruct (DES_FP (Y1, X1)) as [Y2 X2] eqn:HFP.
  assert (is_words (Y2, X2)) as [Hw2 Hw3].
  { rewrite <- HFP. apply is_words_FP. destruct Hw1. by split. }
  exists (PUT_UINT32 Y2 ++ PUT_UINT32 X2). split; [done|].
  split; [repeat constructor; apply is_u8_u8|]. split; [done|].
  destruct (GET_PUT Y2 X2) as [HG1 HG2]; [done..|].
  unfold des_crypt. rewrite HG1, HG2. cbn [mbind option_bind].
  rewrite <- HFP, DES_IP_FP by (destruct Hw1; by split). rewrite Hback. cbn [mbind option_bind].
  rewrite <- HIP, DES_FP_IP by by split. f_equal. exact Hput.
Qed.

(** ** Texts *)

Lemma GET_total b i : 0 <= i -> i + 4 <= zlen b -> exists x, GET_UINT32 b i = Some x.
Proof.
  intros. unfold GET_UINT32.
  destruct (zget_is_Some b i) as [? ->]; [lia|]. destruct (zget_is_Some b (i + 1)) as [? ->]; [lia|].
  destruct (zget_is_Some b (i + 2)) as [? ->]; [lia|].
  destruct (zget_is_Some b (i + 3)) as [? ->]; [lia|]. simpl. eauto.
Qed.

Lemma des_rounds_total n SK X Y : length SK = (4 * n)%nat -> is_Some (des_rounds n SK X Y).
Proof.
  revert SK X Y. induction n as [|n IH]; intros SK X Y Hl; [by eexists|].
  destruct SK as [|k0 [|k1 [|k2 [|k3 SK]]]]; try (simpl in Hl; lia).
  apply IH. simpl in Hl. lia.
Qed.

Lemma des_crypt_total SK b : length SK = 32%nat -> zlen b = 8 ->
  exists out, des_crypt SK b = Some out /\ zlen out = 8.
Proof.
  intros HS Hb. unfold des_crypt.
  destruct (GET_total b 0) as [X ->]; [lia..|]. destruct (GET_total b 4) as [Y ->]; [lia..|].
  cbn [mbind option_bind]. destruct (DES_IP (X, Y)) as [X0 Y0].
  destruct (des_rounds_total 8 SK X0 Y0 HS) as [[X1 Y1] ->]. cbn [mbind option_bind].
  destruct (DES_FP (Y1, X1)). eauto.
Qed.

Lemma length_subkeys n i X Y : length (subkeys n i X Y) = (2 * n)%nat.
Proof. revert i X Y. induction n as [|n IH]; intros; [done|]. simpl. rewrite IH. lia. Qed.

Lemma des_key_total key : zlen key = 8 -> exists SK, des_key key = Ret SK /\ length SK = 32%nat.
Proof.
  intros Hk. unfold des_key. rewrite Hk. cbn [negb Z.eqb Pos.eqb]. unfold des_main_ks.
  destruct (GET_total key 0) as [X ->]; [lia..|]. destruct (GET_total key 4) as [Y ->]; [lia..|].
  cbn [mbind option_bind chk]. eexists. split; [reflexivity|]. apply length_subkeys.
Qed.

Lemma reverse_pairs_eq SK : length SK = 32%nat -> reverse_pairs SK 16 = rev_pairs SK.
Proof.
  intros Hl. do 32 (destruct SK as [|? SK]; [discriminate Hl|]).
  destruct SK; [reflexivity|discriminate Hl].
Qed.

Lemma crypt_blocks_total n SK text :
  length SK = 32%nat -> 8 * Z.of_nat n <= zlen text ->
  exists out, crypt_blocks n SK text = Some out /\ zlen out = 8 * Z.of_nat n.
Proof.
  intros HS. revert text. induction n as [|n IH]; intros text Hl; [by exists []|].
  cbn [crypt_blocks].
  destruct (des_crypt_total SK (take 8 text) HS) as (b & -> & Hb); [apply (zlen_take 8); lia|].
  cbn [mbind option_bind].
  destruct (IH (drop 8 text)) as (rest & -> & Hr); [rewrite (zlen_drop 8); lia|].
  exists (b ++ rest). split; [done|]. zlen_lia.
Qed.

Lemma crypt_blocks_inverse n SK text :
  length SK = 32%nat -> is_bytes text -> 8 * Z.of_nat n <= zlen text ->
  exists out, crypt_blocks n SK text = Some out /\ zlen out = 8 * Z.of_nat n /\
    forall m extra, crypt_blocks (n + m) (rev_pairs SK) (out ++ extra) =
      r ← crypt_blocks m (rev_pairs SK) extra; Some (take (8 * n) text ++ r).
Proof.
  intros HS. revert text. induction n as [|n IH]; intros text Hb Hl.
  { exists []. split_and!; try done. intros m extra. simpl. by destruct (crypt_blocks m _ extra). }
  cbn [crypt_blocks].
  destruct (des_crypt_inverse SK (take 8 text) HS) as (b & -> & Hbb & Hlb & Hinv);
    [by apply is_bytes_take|apply (zlen_take 8); lia|]. cbn [mbind option_bind].
  destruct (IH (drop 8 text)) as (rest & -> & Hr & Hback);
    [by apply is_bytes_drop|rewrite (zlen_drop 8); lia|].
  exists (b ++ rest). split; [done|]. split; [zlen_lia|]. intros m extra.
  cbn [Nat.add crypt_blocks]. rewrite <- app_assoc.
  rewrite (take_app_length' b) by (unfold zlen in Hlb; lia).
  rewrite (drop_app_length' b) by (unfold zlen in Hlb; lia).
  rewrite Hinv. cbn [mbind option_bind]. rewrite Hback.
  destruct (crypt_blocks m _ extra); cbn [mbind option_bind]; [|done].
  f_equal. rewrite app_assoc. f_equal.
  replace (8 * S n)%nat with (8 + 8 * n)%nat by lia. by rewrite take_take_drop.
Qed.

Lemma des_tail_eq rest : zlen rest < 8 ->
  des_tail rest = rest ++ 128 :: replicate (7 - length rest) 0.
Proof.
  unfold zlen. intros Hl. do 8 (destruct rest as [|? rest]; [reflexivity|]). simpl in Hl. lia.
Qed.

Lemma padding_loop_spec z fuel j i textsz p buffer :
  i = j + Z.of_nat z -> (z < fuel)%nat -> 0 <= textsz - 8 <= j -> i < 2 ^ 64 ->
  zget buffer j = Some 128 -> (forall k, j < k <= i -> zget buffer k = Some 0) ->
  padding_loop fuel i textsz p buffer = Ret (p + Z.of_nat z).
Proof.
  revert fuel i p. induction z as [|z IH]; intros fuel i p Hi Hf Hts Hmax Hj Hz;
    (destruct fuel as [|fuel]; [lia|]); cbn [padding_loop].
  - assert (i = j) as -> by lia.
    assert ((u64 (textsz - 8) <=? u64 j) = true) as ->.
    { unfold u64. rewrite !wrap_small by (unfold is_u; lia). apply Z.leb_le. lia. }
    rewrite Hj. simpl. f_equal. lia.
  - assert ((u64 (textsz - 8) <=? u64 i) = true) as ->.
    { unfold u64. rewrite !wrap_small by (unfold is_u; lia). apply Z.leb_le. lia. }
    rewrite (Hz i) by lia. simpl. rewrite (IH fuel (i - 1) (p + 1)); try lia; try done.
    + f_equal. lia.
    + intros k Hk. apply Hz. lia.
Qed.

Lemma crypt_blocks_1 SK text :
  crypt_blocks 1 SK text = b ← des_crypt SK (take 8 text); Some (b ++ []).
Proof. done. Qed.

#[local] Opaque des_crypt crypt_blocks padding_loop des_tail rev_pairs.

Lemma ldesencode_eq key text SK n blocks tail :
  des_key key = Ret SK -> n = Z.to_nat (zlen text / 8) ->
  crypt_blocks n SK text = Some blocks ->
  des_crypt SK (des_tail (drop (8 * n) text)) = Some tail ->
  ldesencode key text = Ret (blocks ++ tail).
Proof.
  intros Hk -> Hb Ht. unfold ldesencode. rewrite Hk. unfold mbind, outcome_bind.
  by rewrite Hb, Ht.
Qed.

(** [C33] Decrypting what was encrypted gives the text back, whatever the 8-byte
    key and the text: the 16 Feistel rounds with the subkeys in reverse order
    undo themselves between the two bit permutations, and the 0x80 padding that
    fills the last block is recognised and removed. *)
Theorem des_roundtrip key text :
  zlen key = 8 -> is_bytes text -> zlen text < 2 ^ 31 - 8 ->
  exists c, ldesencode key text = Ret c /\ zlen c = (zlen text / 8 + 1) * 8 /\
    ldesdecode key c = Ret text.
Proof.
  intros Hk Hb Hmax. destruct (des_key_total key Hk) as (SK & HSK & HlSK).
  pose proof (zlen_nonneg text) as Hnn. pose proof (Z.div_mod (zlen text) 8) as Hdm.
  pose proof (Z.mod_pos_bound (zlen text) 8) as Hmod.
  assert (0 <= zlen text / 8) as Hq by (apply Z.div_pos; lia).
  remember (Z.to_nat (zlen text / 8)) as n eqn:Hn. remember (drop (8 * n) text) as rest eqn:Hr.
  assert (zlen rest = zlen text mod 8) as Hrest.
  { subst rest n. replace (8 * Z.to_nat (zlen text / 8))%nat with (Z.to_nat (8 * (zlen text / 8))) by lia.
    rewrite zlen_drop; lia. }
  destruct (crypt_blocks_inverse n SK text HlSK Hb) as (blocks & Hblocks & Hlb & Hback); [lia|].
  assert (is_bytes (des_tail rest) /\ zlen (des_tail rest) = 8) as [Htb Htl].
  { rewrite des_tail_eq by lia. split; [|unfold zlen in *; rewrite length_app; simpl; rewrite length_replicate; lia].
    apply is_bytes_app. split; [subst rest; by apply is_bytes_drop|]. constructor; [done|]. by apply Forall_replicate. }
  destruct (des_crypt_inverse SK (des_tail rest) HlSK Htb Htl) as (tail & Htail & _ & Hlt & Hinv).
  exists (blocks ++ tail). split; [subst rest; by eapply ldesencode_eq|].
  assert (zlen (blocks ++ tail) = (zlen text / 8 + 1) * 8) as Hlen by zlen_lia.
  split; [done|]. unfold ldesdecode. rewrite HSK. cbn [mbind outcome_bind].
  rewrite Hlen, reverse_pairs_eq by done. rewrite land_7, Z_mod_mult. cbn [negb Z.eqb orb].
  destruct (Z.eqb_spec ((zlen text / 8 + 1) * 8) 0) as [|_]; [lia|].
  rewrite Z.div_mul by lia. replace (Z.to_nat (zlen text / 8 + 1)) with (n + 1)%nat by lia.
  rewrite Hback, crypt_blocks_1, (take_ge tail) by (unfold zlen in Hlt; lia). rewrite Hinv.
  cbn [mbind option_bind chk outcome_bind]. rewrite app_nil_r, des_tail_eq by lia.
  rewrite app_assoc. subst rest. rewrite take_drop.
  rewrite (padding_loop_spec (7 - length (drop (8 * n) text)) 9 (zlen text)); try lia.
  - cbn [mbind outcome_bind]. destruct (Z.ltb_spec 8 (1 + Z.of_nat (7 - length (drop (8 * n) text)))); [lia|].
    f_equal. rewrite take_app_length'; [done|]. unfold zlen in *. lia.
  - unfold zlen in *. lia.
  - rewrite zget_app_r by lia. by rewrite Z.sub_diag.
  - intros k Hkr. rewrite zget_app_r by lia. rewrite zget_nonneg by lia.
    replace (Z.to_nat (k - zlen text)) with (S (Z.to_nat (k - zlen text - 1))) by lia.
    apply (lookup_replicate_2 (7 - length (drop (8 * n) text))). unfold zlen in *. lia.
Qed.

Lemma des_roundtrip_witness :
  exists c, ldesencode [1;2;3;4;5;6;7;8] [104;101;108;108;111;44;32;119;111;114;108;100] = Ret c /\
    zlen c = 16 /\
    ldesdecode [1;2;3;4;5;6;7;8] c = Ret [104;101;108;108;111;44;32;119;111;114;108;100].
Proof.
  apply (des_roundtrip [1;2;3;4;5;6;7;8] [104;101;108;108;111;44;32;119;111;114;108;100]);
    [done|by_eval|done].
Defined.

#[local] Transparent des_crypt crypt_blocks padding_loop des_tail rev_pairs.

(** The published test vector of the standard. *)
Example des_known_answer :
  (SK ← des_main_ks [0x13;0x34;0x57;0x79;0x9B;0xBC;0xDF;0xF1];
   des_crypt SK [0x01;0x23;0x45;0x67;0x89;0xAB;0xCD;0xEF])
  = Some [0x85;0xE8;0x13;0x54;0x0F;0x0A;0xB4;0x05].
Proof. vm_compute. reflexivity. Qed.

(** ** Texts that were not encrypted with the key *)

(** Decryption never reads outside its buffer when the text is not a single
    block: a key of another size, an empty text, a size that is not a multiple
    of 8 or a bad padding raise an error, anything else returns the plain text. *)
Theorem desdecode_safe key text :
  zlen text <> 8 -> zlen text < 2 ^ 31 ->
  (exists msg, ldesdecode key text = Raise msg) \/
  (exists out, ldesdecode key text = Ret out /\ zlen key = 8 /\ zlen text mod 8 = 0 /\
    zlen text - 8 <= zlen out < zlen text).
Proof.
  intros H8 Hmax. unfold ldesdecode.
  destruct (Z.eqb_spec (zlen key) 8) as [Hk|Hk].
  2: { unfold des_key. destruct (Z.eqb_spec (zlen key) 8); [done|]. left. by eexists. }
  destruct (des_key_total key Hk) as (SK & -> & HlSK). cbn [mbind outcome_bind].
  rewrite land_7. destruct (Z.eqb_spec (zlen text mod 8) 0) as [Hm|Hm]; [|left; by eexists].
  cbn [negb orb]. destruct (Z.eqb_spec (zlen text) 0) as [|H0]; [left; by eexists|].
  pose proof (zlen_nonneg text). pose proof (Z.div_mod (zlen text) 8) as Hdm.
  assert (16 <= zlen text) as H16 by lia.
  destruct (crypt_blocks_total (Z.to_nat (zlen text / 8)) (reverse_pairs SK 16) text)
    as (buffer & -> & Hlb); [|lia|].
  { rewrite reverse_pairs_eq by done. by rewrite (length_rev_pairs 16). }
  cbn [chk mbind outcome_bind].
  assert (zlen buffer = zlen text) as Hbuf by lia.
  assert (forall fuel i p, i - (zlen text - 8) < Z.of_nat fuel -> zlen text - 9 <= i < zlen text ->
    p = zlen text - i ->
    (exists msg, padding_loop fuel i (zlen text) p buffer = Raise msg) \/
    exists q, padding_loop fuel i (zlen text) p buffer = Ret q /\ p <= q <= 9) as Hloop.
  { assert (forall z, 0 <= z < 2 ^ 31 -> u64 z = z) as Hu.
    { intros z Hz. apply wrap_small. unfold is_u. lia. }
    induction fuel as [|fuel IH]; intros i p Hf Hi Hp; cbn [padding_loop].
    - rewrite !Hu by lia. destruct (Z.leb_spec (zlen text - 8) i); [lia|].
      right. eexists. split; [done|lia].
    - rewrite !Hu by lia. destruct (Z.leb_spec (zlen text - 8) i); [|right; eexists; split; [done|lia]].
      destruct (zget_is_Some buffer i) as [b ->]; [lia|]. cbn [chk mbind outcome_bind].
      destruct (b =? 0).
      + destruct (IH (i - 1) (p + 1)) as [?|(q & ? & ?)]; try lia; [by left|].
        right. exists q. split; [done|lia].
      + destruct (b =? 128); [right; eexists; split; [done|lia]|left; by eexists]. }
  destruct (Hloop 9%nat (zlen text - 1) 1) as [(msg & ->)|(q & -> & Hq)]; try lia.
  { left. by eexists. }
  cbn [mbind outcome_bind]. destruct (Z.ltb_spec 8 q); [left; by eexists|]. right.
  eexists. split; [done|]. split; [done|]. split; [done|]. rewrite zlen_take; lia.
Qed.

Lemma desdecode_safe_witness :
  (exists msg, ldesdecode [1;2;3;4;5;6;7;8] (replicate 16 7) = Raise msg) \/
  (exists out, ldesdecode [1;2;3;4;5;6;7;8] (replicate 16 7) = Ret out /\
    zlen [1;2;3;4;5;6;7;8] = 8 /\ zlen (replicate 16 7) mod 8 = 0 /\
    zlen (replicate 16 7) - 8 <= zlen out < zlen (replicate 16 7)).
Proof. apply (desdecode_safe [1;2;3;4;5;6;7;8] (replicate 16 7)); done. Defined.

(** For a single block the padding loop has no lower end: the comparison
    [i >= textsz-8] is unsigned and [textsz-8] is 0.  For every key some 8-byte
    text decrypts to zeros, and the loop then reads [buffer[-1]]. *)
Lemma desdecode_one_block_underflow key :
  zlen key = 8 -> exists c, zlen c = 8 /\ ldesdecode key c = Undef.
Proof.
  intros Hk. destruct (des_key_total key Hk) as (SK & HSK & HlSK).
  destruct (des_crypt_inverse SK (replicate 8 0) HlSK) as (c & _ & _ & Hc & Hinv);
    [by_eval|done|].
  exists c. split; [done|]. unfold ldesdecode. rewrite HSK. cbn [mbind outcome_bind].
  rewrite Hc, reverse_pairs_eq by done. change (Z.to_nat (8 / 8)) with 1%nat.
  cbn [crypt_blocks]. rewrite (take_ge c) by (unfold zlen in Hc; lia). rewrite Hinv.
  vm_compute. reflexivity.
Qed.

(** A random key is never all zeros. *)
Lemma randomkey_nonzero random : Exists (fun b => b <> 0) (lrandomkey random).
Proof.
  unfold lrandomkey. set (tmp := _ <$> seq 0 8). destruct (Z.eqb_spec (foldl Z.lxor 0 tmp) 0) as [_|Hx].
  - subst tmp. simpl. constructor. intros H%Z.lor_eq_0_iff. lia.
  - apply not_Forall_Exists; [apply _|]. intros Hall. apply Hx. clear Hx.
    assert (forall a l, Forall (fun b => b = 0) l -> foldl Z.lxor a l = a) as Hf.
    { intros a l Hl. induction Hl as [|b l -> _ IH]; [done|]. simpl. by rewrite Z.lxor_0_r. }
    apply Hf. eapply Forall_impl; [exact Hall|]. intros b Hb. exact Hb.
Qed.
