(* ===== verification/Crypt.v ===== *)
(** The rest of lualib-src/lua-crypt.c: the string hash, hexadecimal and base64
    text, the MD5 based message authentication codes, the Diffie-Hellman
    exchange modulo the largest 64-bit prime, and the exclusive or of strings.

    A Lua string is a list of bytes.  A Lua function returns an [outcome]. *)

From Stdlib Require Import Ascii Znumtheory Zpow_facts.
From S2P Require Import Prelude Bytes CString.
Local Open Scope Z_scope.
Local Open Scope word_scope.

Definition bytes_of (s : string) : list Z := byte_of <$> String.list_ascii_of_string s.

(** ** Hash *)

Fixpoint hash_loop (str : list Z) (djb_hash js_hash : Z) : Z * Z :=
  match str with
  | [] => (djb_hash, js_hash)
  | c :: str' =>
      hash_loop str' (u32 (djb_hash + (u32 (djb_hash << 5) + c)))
        (js_hash .^ u32 (u32 (js_hash << 5) + c + (js_hash >> 2)))
  end.

Definition Hash (str : list Z) : list Z :=
  let '(djb_hash, js_hash) := hash_loop str 5381 1315423911 in
  [djb_hash .& 0xff; (djb_hash >> 8) .& 0xff; (djb_hash >> 16) .& 0xff; (djb_hash >> 24) .& 0xff;
   js_hash .& 0xff; (js_hash >> 8) .& 0xff; (js_hash >> 16) .& 0xff; (js_hash >> 24) .& 0xff].

Definition lhashkey (key : list Z) : outcome (list Z) := Ret (Hash key).

(** ** Hexadecimal text *)

Definition hex : list Z := bytes_of "0123456789abcdef".

Fixpoint ltohex (text : list Z) : outcome (list Z) :=
  match text with
  | [] => Ret []
  | t :: text' =>
      hi ← chk (zget hex (t >> 4));
      low ← chk (zget hex (t .& 0xf));
      rest ← ltohex text';
      Ret (hi :: low :: rest)
  end.

(** [char tmp] is signed; the result is stored in a [uint8_t]. *)
Definition HEX (c : Z) : Z :=
  let tmp := i8 c in
  if (48 <=? tmp) && (tmp <=? 57) then u8 (tmp - 48) else u8 (tmp - 97 + 10).

Fixpoint fromhex_loop (text : list Z) : outcome (list Z) :=
  match text with
  | c0 :: c1 :: text' =>
      let hi := HEX c0 in
      let low := HEX c1 in
      if (16 <? hi) || (16 <? low) then Raise "Invalid hex text"
      else
        rest ← fromhex_loop text';
        Ret (u8 ((hi << 4) .| low) :: rest)
  | _ => Ret []
  end.

Definition lfromhex (text : list Z) : outcome (list Z) :=
  if negb (Z.land (zlen text) 1 =? 0) then Raise "Invalid hex text size"
  else fromhex_loop text.

(** ** The MD5 compression *)

Definition k : list Z := [
  0xd76aa478; 0xe8c7b756; 0x242070db; 0xc1bdceee;
  0xf57c0faf; 0x4787c62a; 0xa8304613; 0xfd469501;
  0x698098d8; 0x8b44f7af; 0xffff5bb1; 0x895cd7be;
  0x6b901122; 0xfd987193; 0xa679438e; 0x49b40821;
  0xf61e2562; 0xc040b340; 0x265e5a51; 0xe9b6c7aa;
  0xd62f105d; 0x02441453; 0xd8a1e681; 0xe7d3fbc8;
  0x21e1cde6; 0xc33707d6; 0xf4d50d87; 0x455a14ed;
  0xa9e3e905; 0xfcefa3f8; 0x676f02d9; 0x8d2a4c8a;
  0xfffa3942; 0x8771f681; 0x6d9d6122; 0xfde5380c;
  0xa4beea44; 0x4bdecfa9; 0xf6bb4b60; 0xbebfbc70;
  0x289b7ec6; 0xeaa127fa; 0xd4ef3085; 0x04881d05;
  0xd9d4d039; 0xe6db99e5; 0x1fa27cf8; 0xc4ac5665;
  0xf4292244; 0x432aff97; 0xab9423a7; 0xfc93a039;
  0x655b59c3; 0x8f0ccc92; 0xffeff47d; 0x85845dd1;
  0x6fa87e4f; 0xfe2ce6e0; 0xa3014314; 0x4e0811a1;
  0xf7537e82; 0xbd3af235; 0x2ad7d2bb; 0xeb86d391].

Definition r : list Z := [
  7; 12; 17; 22; 7; 12; 17; 22; 7; 12; 17; 22; 7; 12; 17; 22;
  5; 9; 14; 20; 5; 9; 14; 20; 5; 9; 14; 20; 5; 9; 14; 20;
  4; 11; 16; 23; 4; 11; 16; 23; 4; 11; 16; 23; 4; 11; 16; 23;
  6; 10; 15; 21; 6; 10; 15; 21; 6; 10; 15; 21; 6; 10; 15; 21].

Definition LEFTROTATE (x c : Z) : Z := u32 (x << c) .| (x >> (32 - c)).

(** Iterations [i .. i+n-1] of the loop. *)
Fixpoint md5_loop (n : nat) (i : Z) (w : list Z) (a b c d : Z) : Z * Z * Z * Z :=
  match n with
  | O => (a, b, c, d)
  | S n' =>
      let '(f, g) :=
        if i <? 16 then ((b .& c) .| (u32 (Z.lnot b) .& d), i)
        else if i <? 32 then ((d .& b) .| (u32 (Z.lnot d) .& c), (5 * i + 1) mod 16)
        else if i <? 48 then (b .^ c .^ d, (3 * i + 5) mod 16)
        else (c .^ (b .| u32 (Z.lnot d)), (7 * i) mod 16) in
      let t := u32 (a + f + (k !!! Z.to_nat i) + (w !!! Z.to_nat g)) in
      md5_loop n' (i + 1) w d (u32 (b + LEFTROTATE t (r !!! Z.to_nat i))) b c
  end.

Definition digest_md5 (w : list Z) : Z * Z * Z * Z :=
  md5_loop 64 0 w 0x67452301 0xefcdab89 0x98badcfe 0x10325476.

Definition hmac (x y : Z * Z) : Z * Z :=
  let w4 := [x.2; x.1; y.2; y.1] in
  let '(r0, r1, r2, r3) := digest_md5 (w4 ++ w4 ++ w4 ++ w4) in
  (r2 .^ r3, r0 .^ r1).

Definition hmac_md5 (x y : Z * Z) : Z * Z :=
  let w4 := [x.1; x.2; y.1; y.2] in
  let '(r0, r1, r2, r3) := digest_md5 (w4 ++ w4 ++ w4 ++ [0x80; 0; 384; 0]) in
  (u32 (r0 + 0x67452301) .^ u32 (r2 + 0x98badcfe), u32 (r1 + 0xefcdab89) .^ u32 (r3 + 0x10325476)).

(** The 64-bit arguments are 8 bytes, read as two little-endian words. *)
Definition read_word (x : list Z) (i : Z) : option Z :=
  b0 ← zget x i; b1 ← zget x (i + 1); b2 ← zget x (i + 2); b3 ← zget x (i + 3);
  Some (u32 (b0 .| (b1 << 8) .| (b2 << 16) .| (b3 << 24))).

Definition read_qword (x : list Z) : outcome (Z * Z) :=
  x0 ← chk (read_word x 0); x1 ← chk (read_word x 4); Ret (x0, x1).

Definition read64 (x y : list Z) : outcome ((Z * Z) * (Z * Z)) :=
  if negb (zlen x =? 8) then Raise "Invalid uint64 x"
  else if negb (zlen y =? 8) then Raise "Invalid uint64 y"
  else xx ← read_qword x; yy ← read_qword y; Ret (xx, yy).

Definition pushqword (result : Z * Z) : list Z :=
  [result.1 .& 0xff; (result.1 >> 8) .& 0xff; (result.1 >> 16) .& 0xff; (result.1 >> 24) .& 0xff;
   result.2 .& 0xff; (result.2 >> 8) .& 0xff; (result.2 >> 16) .& 0xff; (result.2 >> 24) .& 0xff].

Definition lhmac64 (x y : list Z) : outcome (list Z) :=
  '(x, y) ← read64 x y; Ret (pushqword (hmac x y)).

Definition lhmac64_md5 (x y : list Z) : outcome (list Z) :=
  '(x, y) ← read64 x y; Ret (pushqword (hmac_md5 x y)).

Definition lhmac_hash (key text : list Z) : outcome (list Z) :=
  if negb (zlen key =? 8) then Raise "Invalid uint64 key"
  else
    key ← read_qword key;
    htext ← read_qword (Hash text);
    Ret (pushqword (hmac htext key)).

(** ** Diffie-Hellman *)

(** The biggest 64bit prime *)
Definition P : Z := 0xffffffffffffffc5.

(** The loop runs once per bit of [b]. *)
Fixpoint mul_loop (fuel : nat) (a b m : Z) : option Z :=
  if b =? 0 then Some m
  else match fuel with
    | O => None
    | S fuel' =>
        let m := if Z.land b 1 =? 1 then
                   let t := u64 (P - a) in
                   if t <=? m then u64 (m - t) else u64 (m + a)
                 else m in
        let a := if u64 (P - a) <=? a then u64 (a * 2 - P) else u64 (a * 2) in
        mul_loop fuel' a (b >> 1) m
    end.

Definition mul_mod_p (a b : Z) : option Z := mul_loop 64 a b 0.

(** The recursion halves [b]; it does not end for 0, which the callers reject. *)
Fixpoint pow_mod_p (fuel : nat) (a b : Z) : option Z :=
  if b =? 1 then Some a
  else match fuel with
    | O => None
    | S fuel' =>
        t ← pow_mod_p fuel' a (b >> 1);
        t ← mul_mod_p t t;
        if negb (b mod 2 =? 0) then mul_mod_p t a else Some t
    end.

Definition powmodp (a b : Z) : option Z :=
  let a := if P <? a then a mod P else a in
  pow_mod_p 64 a b.

Definition push64 (r : Z) : list Z :=
  [r .& 0xff; (r >> 8) .& 0xff; (r >> 16) .& 0xff; (r >> 24) .& 0xff;
   (r >> 32) .& 0xff; (r >> 40) .& 0xff; (r >> 48) .& 0xff; (r >> 56) .& 0xff].

Definition ldhsecret (x y : list Z) : outcome (list Z) :=
  '(x, y) ← read64 x y;
  let xx := x.1 .| (x.2 << 32) in
  let yy := y.1 .| (y.2 << 32) in
  if (xx =? 0) || (yy =? 0) then Raise "Can't be 0"
  else r ← chk (powmodp xx yy); Ret (push64 r).

Definition G : Z := 5.

Definition ldhexchange (x : list Z) : outcome (list Z) :=
  if negb (zlen x =? 8) then Raise "Invalid dh uint64 key"
  else
    xx ← read_qword x;
    let x64 := xx.1 .| (xx.2 << 32) in
    if x64 =? 0 then Raise "Can't be 0"
    else r ← chk (powmodp G x64); Ret (push64 r).

(** ** Base64 *)

Definition encoding : list Z :=
  bytes_of "ABCDEFGHIJKLMNOPQRSTUVWXYZabcdefghijklmnopqrstuvwxyz0123456789+/".

Definition enc (v : Z) : outcome Z := chk (zget encoding v).

Fixpoint lb64encode (text : list Z) : outcome (list Z) :=
  match text with
  | t0 :: t1 :: t2 :: text' =>
      let v := (t0 << 16) .| (t1 << 8) .| t2 in
      b0 ← enc (v >> 18);
      b1 ← enc ((v >> 12) .& 0x3f);
      b2 ← enc ((v >> 6) .& 0x3f);
      b3 ← enc (v .& 0x3f);
      rest ← lb64encode text';
      Ret (b0 :: b1 :: b2 :: b3 :: rest)
  | [t0] =>
      b0 ← enc (t0 >> 2);
      b1 ← enc ((t0 .& 3) << 4);
      Ret [b0; b1; 61; 61]
  | [t0; t1] =>
      let v := (t0 << 8) .| t1 in
      b0 ← enc (v >> 10);
      b1 ← enc ((v >> 4) .& 0x3f);
      b2 ← enc ((v .& 0xf) << 2);
      Ret [b0; b1; b2; 61]
  | [] => Ret []
  end.

Definition decoding : list Z := [
  62; -1; -1; -1; 63; 52; 53; 54; 55; 56; 57; 58; 59; 60; 61; -1; -1; -1; -2; -1;
  -1; -1; 0; 1; 2; 3; 4; 5; 6; 7; 8; 9; 10; 11; 12; 13; 14; 15; 16; 17;
  18; 19; 20; 21; 22; 23; 24; 25; -1; -1; -1; -1; -1; -1; 26; 27; 28; 29; 30; 31;
  32; 33; 34; 35; 36; 37; 38; 39; 40; 41; 42; 43; 44; 45; 46; 47; 48; 49; 50; 51].

Definition b64index (c : Z) : Z :=
  if c <? 43 then -1
  else
    let c := u8 (c - 43) in
    if zlen decoding <=? c then -1 else decoding !!! Z.to_nat c.

(** Four characters of the alphabet, others skipped: their values, how many are
    padding, and the rest of the text. *)
Fixpoint b64_quad (text : list Z) (need : nat) (padding : Z) (c : list Z)
    : outcome (list Z * Z * list Z) :=
  match need with
  | O => Ret (c, padding, text)
  | S need' =>
      match text with
      | [] => Raise "Invalid base64 text"
      | ch :: text' =>
          let x := b64index ch in
          if x =? -1 then b64_quad text' need padding c
          else b64_quad text' need' (if x =? -2 then padding + 1 else padding) (c ++ [x])
      end
  end.

Definition b64_bytes (c : list Z) (padding : Z) : outcome (list Z) :=
  match c with
  | [c0; c1; c2; c3] =>
      if padding =? 0 then
        let v := u32 ((c0 << 18) .| (c1 << 12) .| (c2 << 6) .| c3) in
        Ret [u8 (v >> 16); (v >> 8) .& 0xff; v .& 0xff]
      else if padding =? 1 then
        if negb (c3 =? -2) || negb (Z.land c2 3 =? 0) then Raise "Invalid base64 text"
        else
          let v := u32 ((c0 << 10) .| (c1 << 4) .| (c2 >> 2)) in
          Ret [u8 (v >> 8); v .& 0xff]
      else if padding =? 2 then
        if negb (c3 =? -2) || negb (c2 =? -2) || negb (Z.land c1 0xf =? 0) then
          Raise "Invalid base64 text"
        else Ret [u8 ((c0 << 2) .| (c1 >> 4))]
      else Raise "Invalid base64 text"
  | _ => Undef
  end.

(** [fuel] bounds the number of groups of four. *)
Fixpoint b64_loop (fuel : nat) (text : list Z) : outcome (list Z) :=
  match text with
  | [] => Ret []
  | _ =>
      match fuel with
      | O => Undef
      | S fuel' =>
          '(c, padding, text') ← b64_quad text 4 0 [];
          out ← b64_bytes c padding;
          rest ← b64_loop fuel' text';
          Ret (out ++ rest)
      end
  end.

Definition lb64decode (text : list Z) : outcome (list Z) := b64_loop (length text) text.

(** ** Exclusive or of strings *)

Fixpoint xor_loop (s1 : list Z) (i : Z) (s2 : list Z) : outcome (list Z) :=
  match s1 with
  | [] => Ret []
  | c :: s1' =>
      x ← chk (zget s2 (i mod zlen s2));
      rest ← xor_loop s1' (i + 1) s2;
      Ret (c .^ x :: rest)
  end.

Definition lxor_str (s1 s2 : list Z) : outcome (list Z) :=
  if zlen s2 =? 0 then Raise "Can't xor empty string" else xor_loop s1 0 s2.

(** ** Hexadecimal text *)

Definition hex_digit_ok (v : Z) : bool :=
  match zget hex v with Some c => (HEX c =? v) && bool_decide (is_u8 c) | None => false end.

Lemma hex_digits_ok : forallb hex_digit_ok (seqZ 0 16) = true.
Proof. vm_compute. reflexivity. Qed.

Lemma hex_digit v : 0 <= v < 16 -> exists c, zget hex v = Some c /\ is_u8 c /\ HEX c = v.
Proof.
  intros Hv. pose proof hex_digits_ok as Hall. rewrite forallb_forall in Hall.
  specialize (Hall v). unfold hex_digit_ok in Hall. destruct (zget hex v) as [c|].
  - exists c. split; [done|]. rewrite andb_true_iff, Z.eqb_eq, bool_decide_eq_true in Hall.
    destruct Hall; [|done]. apply list_elem_of_In, elem_of_seqZ. lia.
  - discriminate Hall. apply list_elem_of_In, elem_of_seqZ. lia.
Qed.

Lemma nibbles t : is_u8 t -> 0 <= t >> 4 < 16 /\ 0 <= t .& 0xf < 16 /\ u8 (((t >> 4) << 4) .| (t .& 0xf)) = t.
Proof.
  unfold is_u. intros Ht. rewrite Z.shiftr_div_pow2, land_15 by lia.
  pose proof (Z.mod_pos_bound t 16). pose proof (Z.div_mod t 16).
  rewrite lor_shiftl_add' by (unfold is_u; lia).
  replace (t mod 16 + t / 2 ^ 4 * 2 ^ 4) with t by (change (2 ^ 4) with 16; lia).
  split; [|split; [lia|apply wrap_small; unfold is_u; lia]].
  change (2 ^ 4) with 16. lia.
Qed.

Lemma ltohex_spec text : is_bytes text ->
  exists h, ltohex text = Ret h /\ is_bytes h /\ zlen h = 2 * zlen text /\
    fromhex_loop h = Ret text.
Proof.
  induction text as [|t text IH]; intros Hb.
  { exists []. by repeat split. }
  apply is_bytes_cons in Hb as [Ht Hb]. destruct (IH Hb) as (h & Hh & Hhb & Hl & Hf).
  destruct (nibbles t Ht) as (Hhi & Hlo & Hn).
  destruct (hex_digit _ Hhi) as (c0 & Hc0 & Hu0 & HH0).
  destruct (hex_digit _ Hlo) as (c1 & Hc1 & Hu1 & HH1).
  exists (c0 :: c1 :: h). cbn [ltohex]. rewrite Hc0, Hc1. cbn [chk mbind outcome_bind].
  rewrite Hh. cbn [mbind outcome_bind]. split; [done|].
  split; [by rewrite !is_bytes_cons|]. split; [zlen_lia|].
  cbn [fromhex_loop]. rewrite HH0, HH1, Hf. cbn [mbind outcome_bind]. rewrite Hn.
  destruct (Z.ltb_spec 16 (t >> 4)); [lia|]. destruct (Z.ltb_spec 16 (t .& 0xf)); [lia|]. done.
Qed.

(** A byte string written in hexadecimal has two characters per byte and is
    read back unchanged. *)
Theorem hex_roundtrip text :
  is_bytes text -> exists h, ltohex text = Ret h /\ zlen h = 2 * zlen text /\ lfromhex h = Ret text.
Proof.
  intros Hb. destruct (ltohex_spec text Hb) as (h & ? & _ & Hl & Hf).
  exists h. split; [done|]. split; [done|]. unfold lfromhex.
  rewrite Hl, land_1, Z.mul_comm, Z_mod_mult. done.
Qed.

Lemma hex_roundtrip_witness :
  exists h, ltohex [0; 171; 255] = Ret h /\ zlen h = 6 /\ lfromhex h = Ret [0; 171; 255].
Proof. apply (hex_roundtrip [0; 171; 255]). by_eval. Defined.

(** Characters that are not hexadecimal digits are read as digits: [g] is 16,
    and the ten characters before [a] are 0 to 9. *)
Lemma fromhex_accepts_non_digits :
  lfromhex (bytes_of "0g") = Ret [16] /\ lfromhex (bytes_of "g0") = Ret [0] /\
  lfromhex (bytes_of "W_") = Ret [8].
Proof. vm_compute. done. Qed.

(** ** Base64 *)

Definition b64_char_ok (v : Z) : bool :=
  match zget encoding v with Some c => b64index c =? v | None => false end.

Lemma b64_chars_ok : forallb b64_char_ok (seqZ 0 64) = true.
Proof. vm_compute. reflexivity. Qed.

Lemma b64_char v : 0 <= v < 64 -> exists c, enc v = Ret c /\ b64index c = v.
Proof.
  intros Hv. pose proof b64_chars_ok as Hall. rewrite forallb_forall in Hall.
  specialize (Hall v). unfold b64_char_ok in Hall. unfold enc.
  destruct (zget encoding v) as [c|].
  - exists c. split; [done|]. apply Z.eqb_eq, Hall, list_elem_of_In, elem_of_seqZ. lia.
  - discriminate Hall. apply list_elem_of_In, elem_of_seqZ. lia.
Qed.

Lemma land_3f z : z .& 0x3f = z mod 64.
Proof. apply land_63. Qed.

(** A group of four characters is read as such. *)
Lemma b64_quad_cons ch v text need p c :
  b64index ch = v -> v <> -1 ->
  b64_quad (ch :: text) (S need) p c =
  b64_quad text need (if v =? -2 then p + 1 else p) (c ++ [v]).
Proof. intros Hv Hne. cbn [b64_quad]. rewrite Hv. by destruct (Z.eqb_spec v (-1)). Qed.

Lemma b64_pad : b64index 61 = -2.
Proof. done. Qed.

Lemma b64_loop_group c0 c1 c2 c3 text fuel x0 x1 x2 x3 p out :
  b64index c0 = x0 -> b64index c1 = x1 -> b64index c2 = x2 -> b64index c3 = x3 ->
  0 <= x0 -> 0 <= x1 -> x2 = -2 \/ 0 <= x2 -> x3 = -2 \/ 0 <= x3 ->
  p = b2i (x2 =? -2) + b2i (x3 =? -2) ->
  b64_bytes [x0; x1; x2; x3] p = Ret out ->
  b64_loop (S fuel) (c0 :: c1 :: c2 :: c3 :: text) =
  (rest ← b64_loop fuel text; Ret (out ++ rest)).
Proof.
  intros H0 H1 H2 H3 P0 P1 P2 P3 Hp Hout. cbn [b64_loop].
  rewrite (b64_quad_cons c0 x0), (b64_quad_cons c1 x1), (b64_quad_cons c2 x2), (b64_quad_cons c3 x3)
    by (done || lia).
  rewrite (proj2 (Z.eqb_neq x0 (-2))), (proj2 (Z.eqb_neq x1 (-2))) by lia.
  assert ((if x3 =? -2 then (if x2 =? -2 then 0 + 1 else 0) + 1 else (if x2 =? -2 then 0 + 1 else 0)) = p)
    as -> by (subst p; unfold b2i; destruct (x2 =? -2), (x3 =? -2); lia).
  assert (forall l, b64_quad text 0 p l = Ret (l, p, text)) as Hq by (by destruct text).
  rewrite Hq. cbn [mbind outcome_bind app]. by rewrite Hout.
Qed.

(** The bytes of a group from its four digits in base 64, and back. *)
Lemma group3 t0 t1 t2 : is_u8 t0 -> is_u8 t1 -> is_u8 t2 ->
  let v := (t0 << 16) .| (t1 << 8) .| t2 in
  let d0 := v >> 18 in let d1 := (v >> 12) .& 0x3f in
  let d2 := (v >> 6) .& 0x3f in let d3 := v .& 0x3f in
  0 <= d0 < 64 /\ 0 <= d1 < 64 /\ 0 <= d2 < 64 /\ 0 <= d3 < 64 /\
  b64_bytes [d0; d1; d2; d3] 0 = Ret [t0; t1; t2].
Proof.
  intros H0 H1 H2 v d0 d1 d2 d3.
  pose proof (lor_word32_be t2 t1 t0 0 H2 H1 H0 ltac:(done)) as Hv.
  rewrite Z.shiftl_0_l, Z.lor_0_l in Hv. fold v in Hv.
  destruct (u8_shiftr_word32 t2 t1 t0 0) as (B0 & B1 & B2 & _); try done. rewrite <- Hv in *.
  assert (0 <= v < 2 ^ 24) as Hr by (rewrite Hv; unfold word32, is_u in *; lia).
  clear Hv. clearbody v.
  assert (d1 = (v / 2 ^ 12) mod 64 /\ d2 = (v / 2 ^ 6) mod 64 /\ d3 = v mod 64 /\ d0 = v / 2 ^ 18)
    as (E1 & E2 & E3 & E0).
  { subst d0 d1 d2 d3. rewrite !land_3f, !shiftr_div by lia. done. }
  pose proof (Z.mod_pos_bound v 64). pose proof (Z.mod_pos_bound (v / 2 ^ 6) 64).
  pose proof (Z.mod_pos_bound (v / 2 ^ 12) 64).
  assert (v = d0 * 2 ^ 18 + d1 * 2 ^ 12 + d2 * 2 ^ 6 + d3) as Hd.
  { rewrite E0, E1, E2, E3. change (2 ^ 18) with (64 * 64 * 64). change (2 ^ 12) with (64 * 64).
    change (2 ^ 6) with 64. rewrite <- !Z.div_div by lia.
    pose proof (Z.div_mod v 64). pose proof (Z.div_mod (v / 64) 64).
    pose proof (Z.div_mod (v / 64 / 64) 64). lia. }
  assert (0 <= d0 < 64) by (rewrite E0; split; [apply Z.div_pos; lia|apply Z.div_lt_upper_bound; lia]).
  clearbody d0 d1 d2 d3. split_and!; try lia.
  cbn [b64_bytes Z.eqb]. rewrite <- !Z.lor_assoc.
  rewrite (lor_shiftl_add' d3 d2 6) by (unfold is_u; lia).
  rewrite (lor_shiftl_add' (d3 + d2 * 2 ^ 6) d1 12) by (unfold is_u; lia).
  rewrite (lor_shiftl_add' (d3 + d2 * 2 ^ 6 + d1 * 2 ^ 12) d0 18) by (unfold is_u; lia).
  replace (d3 + d2 * 2 ^ 6 + d1 * 2 ^ 12 + d0 * 2 ^ 18) with v by lia.
  unfold u32. rewrite wrap_small by (unfold is_u; lia). rewrite !land_ff. by rewrite B0, B1, B2.
Qed.

Lemma group2 t0 t1 : is_u8 t0 -> is_u8 t1 ->
  let v := (t0 << 8) .| t1 in
  let d0 := v >> 10 in let d1 := (v >> 4) .& 0x3f in let d2 := (v .& 0xf) << 2 in
  0 <= d0 < 64 /\ 0 <= d1 < 64 /\ 0 <= d2 < 64 /\
  b64_bytes [d0; d1; d2; -2] 1 = Ret [t0; t1].
Proof.
  intros H0 H1 v d0 d1 d2.
  pose proof (lor_word32_be t1 t0 0 0 H1 H0 ltac:(done) ltac:(done)) as Hv.
  rewrite !Z.shiftl_0_l, !Z.lor_0_l in Hv. fold v in Hv.
  destruct (u8_shiftr_word32 t1 t0 0 0) as (B0 & B1 & _ & _); try done. rewrite <- Hv in *.
  assert (0 <= v < 2 ^ 16) as Hr by (rewrite Hv; unfold word32, is_u in *; lia).
  clear Hv. clearbody v.
  assert (d1 = (v / 2 ^ 4) mod 64 /\ d2 = (v mod 16) * 4 /\ d0 = v / 2 ^ 10) as (E1 & E2 & E0).
  { subst d0 d1 d2. rewrite land_3f, land_15, !shiftr_div, Z.shiftl_mul_pow2 by lia. done. }
  pose proof (Z.mod_pos_bound v 16). pose proof (Z.mod_pos_bound (v / 2 ^ 4) 64).
  assert (v = d0 * 2 ^ 10 + d1 * 2 ^ 4 + v mod 16) as Hd.
  { rewrite E0, E1. change (2 ^ 10) with (16 * 64). change (2 ^ 4) with 16.
    rewrite <- !Z.div_div by lia.
    pose proof (Z.div_mod v 16). pose proof (Z.div_mod (v / 16) 64). lia. }
  assert (0 <= d0 < 64) by (rewrite E0; split; [apply Z.div_pos; lia|apply Z.div_lt_upper_bound; lia]).
  assert (d2 >> 2 = v mod 16 /\ d2 .& 3 = 0) as [Es El].
  { rewrite shiftr_div, land_3, E2 by lia. change (2 ^ 2) with 4. split; [apply Z.div_mul; lia|apply Z_mod_mult]. }
  clearbody d0 d1 d2. split_and!; try lia.
  cbn [b64_bytes Z.eqb Pos.eqb negb orb]. rewrite El, Es. cbn [negb Z.eqb].
  rewrite <- !Z.lor_assoc.
  rewrite (lor_shiftl_add' (v mod 16) d1 4) by (unfold is_u; lia).
  rewrite (lor_shiftl_add' (v mod 16 + d1 * 2 ^ 4) d0 10) by (unfold is_u; lia).
  replace (v mod 16 + d1 * 2 ^ 4 + d0 * 2 ^ 10) with v by lia.
  unfold u32. rewrite wrap_small by (unfold is_u; lia). rewrite !land_ff. by rewrite B0, B1.
Qed.

Lemma group1 t0 : is_u8 t0 ->
  let d0 := t0 >> 2 in let d1 := (t0 .& 3) << 4 in
  0 <= d0 < 64 /\ 0 <= d1 < 64 /\ b64_bytes [d0; d1; -2; -2] 2 = Ret [t0].
Proof.
  intros H0 d0 d1. unfold is_u in H0.
  assert (d1 = (t0 mod 4) * 16 /\ d0 = t0 / 4) as (E1 & E0).
  { subst d0 d1. rewrite land_3, !shiftr_div, Z.shiftl_mul_pow2 by lia. done. }
  pose proof (Z.mod_pos_bound t0 4). pose proof (Z.div_mod t0 4).
  assert (d1 >> 4 = t0 mod 4 /\ d1 .& 15 = 0) as [Es El].
  { rewrite shiftr_div, land_15, E1 by lia. change (2 ^ 4) with 16. split; [apply Z.div_mul; lia|apply Z_mod_mult]. }
  clearbody d0 d1. split_and!; try lia.
  cbn [b64_bytes Z.eqb Pos.eqb negb orb]. rewrite El, Es. cbn [negb Z.eqb].
  rewrite lor_shiftl_add' by (unfold is_u; lia).
  replace (t0 mod 4 + d0 * 2 ^ 2) with t0 by lia. unfold u8. by rewrite wrap_small by (unfold is_u; lia).
Qed.

(** Induction three bytes at a time. *)
Lemma list_ind3 {A} (Q : list A -> Prop) :
  Q [] -> (forall a, Q [a]) -> (forall a b, Q [a; b]) ->
  (forall a b c l, Q l -> Q (a :: b :: c :: l)) -> forall l, Q l.
Proof. intros H0 H1 H2 H3. fix IH 1. intros [|a [|b [|c l]]]; [done..|]. apply H3, IH. Qed.

Lemma b64encode_spec text : is_bytes text ->
  exists e, lb64encode text = Ret e /\ zlen e = (zlen text + 2) / 3 * 4 /\
    forall fuel, (length e <= fuel)%nat -> b64_loop fuel e = Ret text.
Proof.
  induction text as [|t0|t0 t1|t0 t1 t2 text IH] using list_ind3; intros Hb; split_bytes.
  - exists []. split_and!; try done. intros fuel _. by destruct fuel.
  - destruct (group1 t0) as (P0 & P1 & Hg); [done|].
    destruct (b64_char _ P0) as (c0 & E0 & I0), (b64_char _ P1) as (c1 & E1 & I1).
    exists [c0; c1; 61; 61]. cbn [lb64encode]. rewrite E0, E1. split_and!; try done.
    intros [|fuel] Hf; [simpl in Hf; lia|].
    rewrite (b64_loop_group c0 c1 61 61 [] fuel _ _ _ _ 2 [t0] I0 I1 b64_pad b64_pad); try done; try lia; auto.
    by destruct fuel.
  - destruct (group2 t0 t1) as (P0 & P1 & P2 & Hg); [done..|].
    destruct (b64_char _ P0) as (c0 & E0 & I0), (b64_char _ P1) as (c1 & E1 & I1),
      (b64_char _ P2) as (c2 & E2 & I2).
    exists [c0; c1; c2; 61]. cbn [lb64encode]. rewrite E0, E1, E2. split_and!; try done.
    intros [|fuel] Hf; [simpl in Hf; lia|].
    rewrite (b64_loop_group c0 c1 c2 61 [] fuel _ _ _ _ 1 [t0; t1] I0 I1 I2 b64_pad);
      try done; try lia; auto.
    + by destruct fuel.
    + rewrite (proj2 (Z.eqb_neq _ (-2))); [done|lia].
  - destruct (group3 t0 t1 t2) as (P0 & P1 & P2 & P3 & Hg); [done..|].
    destruct (b64_char _ P0) as (c0 & E0 & I0), (b64_char _ P1) as (c1 & E1 & I1),
      (b64_char _ P2) as (c2 & E2 & I2), (b64_char _ P3) as (c3 & E3 & I3).
    destruct (IH Hb) as (e & He & Hl & Hd).
    exists (c0 :: c1 :: c2 :: c3 :: e). cbn [lb64encode]. rewrite E0, E1, E2, E3.
    cbn [mbind outcome_bind]. rewrite He. split_and!; [done|..].
    + rewrite !zlen_cons, Hl. replace (1 + (1 + (1 + zlen text)) + 2) with (zlen text + 2 + 1 * 3) by lia.
      rewrite Z.div_add by lia. lia.
    + intros [|fuel] Hf; [simpl in Hf; lia|].
      rewrite (b64_loop_group c0 c1 c2 c3 e fuel _ _ _ _ 0 [t0; t1; t2] I0 I1 I2 I3); try done; try lia; auto.
      * rewrite Hd by (simpl in Hf; lia). done.
      * rewrite !(proj2 (Z.eqb_neq _ (-2))) by lia. done.
Qed.

(** [C34] Base64: a byte string is encoded into 4 characters for every 3 bytes
    begun, and decoding returns it. *)
Theorem b64_roundtrip text :
  is_bytes text ->
  exists e, lb64encode text = Ret e /\ zlen e = (zlen text + 2) / 3 * 4 /\ lb64decode e = Ret text.
Proof.
  intros Hb. destruct (b64encode_spec text Hb) as (e & ? & ? & Hd).
  exists e. split_and!; try done. by apply Hd.
Qed.

Lemma b64_roundtrip_witness :
  exists e, lb64encode [255; 0; 128; 7] = Ret e /\ zlen e = 8 /\ lb64decode e = Ret [255; 0; 128; 7].
Proof. apply (b64_roundtrip [255; 0; 128; 7]). by_eval. Defined.

Lemma b64_quad_spec text need p c :
  (exists msg, b64_quad text need p c = Raise msg) \/
  (exists c' p' rest, b64_quad text need p c = Ret (c', p', rest) /\
    length c' = (length c + need)%nat /\ (length rest + need <= length text)%nat).
Proof.
  revert need p c. induction text as [|ch text IH]; intros [|need] p c; cbn [b64_quad].
  - right. eexists _, _, _. split; [done|]. simpl. lia.
  - left. by eexists.
  - right. eexists _, _, _. split; [done|]. simpl. lia.
  - destruct (b64index ch =? -1).
    + destruct (IH (S need) p c) as [?|(c' & p' & rest & -> & ? & ?)]; [by left|right].
      eexists _, _, _. split; [done|]. simpl. lia.
    + destruct (IH need (if b64index ch =? -2 then p + 1 else p) (c ++ [b64index ch]))
        as [?|(c' & p' & rest & -> & Hl & ?)]; [by left|right].
      eexists _, _, _. split; [done|]. rewrite length_app in Hl. simpl in *. lia.
Qed.

Lemma b64_bytes_spec c p : length c = 4%nat ->
  (exists msg, b64_bytes c p = Raise msg) \/ (exists out, b64_bytes c p = Ret out /\ zlen out <= 3).
Proof.
  intros Hc. do 4 (destruct c as [|? c]; [discriminate Hc|]). destruct c; [|discriminate Hc].
  unfold b64_bytes. repeat case_match; (by left; eexists) || (right; by eexists).
Qed.

(** Base64 decoding of any text ends with an error or with at most the
    number of bytes the code reserves for it, and never leaves its arrays. *)
Theorem b64decode_safe text :
  (exists msg, lb64decode text = Raise msg) \/
  (exists out, lb64decode text = Ret out /\ zlen out <= (zlen text + 3) / 4 * 3).
Proof.
  unfold lb64decode. assert (forall fuel t, (length t <= fuel)%nat ->
    (exists msg, b64_loop fuel t = Raise msg) \/
    (exists out, b64_loop fuel t = Ret out /\ zlen out <= (zlen t + 3) / 4 * 3)) as Hl; [|by apply Hl].
  induction fuel as [|fuel IH]; intros t Ht.
  { destruct t; [|simpl in Ht; lia]. right. by exists []. }
  destruct t as [|ch t]; [right; by exists []|]. cbn [b64_loop].
  destruct (b64_quad_spec (ch :: t) 4 0 []) as [(msg & ->)|(c & p & rest & -> & Hc & Hr)]; [left; by eexists|].
  cbn [mbind outcome_bind].
  destruct (b64_bytes_spec c p) as [(msg & ->)|(out & -> & Ho)]; [done|left; by eexists|].
  cbn [mbind outcome_bind]. destruct (IH rest) as [(msg & ->)|(o2 & -> & Ho2)];
    [simpl in *; lia|left; by eexists|].
  right. exists (out ++ o2). split; [done|]. rewrite zlen_app.
  assert (zlen rest + 4 <= zlen (ch :: t)) as Hz by (unfold zlen; lia).
  assert ((zlen rest + 3) / 4 + 1 <= (zlen (ch :: t) + 3) / 4).
  { rewrite <- (Z.div_add (zlen rest + 3) 1 4) by lia. apply Z.div_le_mono; lia. }
  lia.
Qed.

(** ** The prime field *)

Lemma P_pos : 0 < P < 2 ^ 64.
Proof. unfold P. lia. Qed.

Lemma u64_small z : 0 <= z < 2 ^ 64 -> u64 z = z.
Proof. apply wrap_small. Qed.

Lemma mul_loop_spec fuel a b m :
  0 <= a <= P -> 0 <= b < 2 ^ Z.of_nat fuel -> 0 <= m < P ->
  mul_loop fuel a b m = Some ((m + a * b) mod P).
Proof.
  pose proof P_pos as HP.
  revert a b m. induction fuel as [|fuel IH]; intros a b m Ha Hb Hm; cbn [mul_loop].
  { assert (b = 0) as -> by (simpl in Hb; lia). simpl. rewrite Z.mul_0_r, Z.add_0_r.
    by rewrite Z.mod_small. }
  destruct (Z.eqb_spec b 0) as [->|Hb0].
  { rewrite Z.mul_0_r, Z.add_0_r. by rewrite Z.mod_small. }
  rewrite Nat2Z.inj_succ, Z.pow_succ_r in Hb by lia.
  rewrite land_1, shiftr_div by lia. change (2 ^ 1) with 2.
  pose proof (Z.div_mod b 2) as Hdm. pose proof (Z.mod_pos_bound b 2).
  rewrite !(u64_small (P - a)) by lia.
  set (m' := if b mod 2 =? 1 then _ else m).
  assert (0 <= m' < P /\ exists q, m' = m + a * (b mod 2) - q * P) as [Hm' (q & Hq)].
  { subst m'. destruct (Z.eqb_spec (b mod 2) 1) as [->|].
    - destruct (Z.leb_spec (P - a) m); rewrite u64_small by lia.
      + split; [lia|]. exists 1. lia.
      + split; [lia|]. exists 0. lia.
    - assert (b mod 2 = 0) as -> by lia. split; [lia|]. exists 0. lia. }
  set (a' := if P - a <=? a then _ else _).
  assert (0 <= a' <= P /\ exists q, a' = 2 * a - q * P) as [Ha' (q' & Hq')].
  { subst a'. destruct (Z.leb_spec (P - a) a); rewrite u64_small by lia.
    - split; [lia|]. exists 1. lia.
    - split; [lia|]. exists 0. lia. }
  rewrite IH by lia. f_equal.
  rewrite Hq, Hq'. 
  replace (m + a * (b mod 2) - q * P + (2 * a - q' * P) * (b / 2)) with
    (m + a * b + (- q - q' * (b / 2)) * P) by (rewrite Hdm at 1 by lia; ring).
  apply Z_mod_plus_full.
Qed.

Lemma mul_mod_p_spec a b : 0 <= a <= P -> 0 <= b < 2 ^ 64 -> mul_mod_p a b = Some ((a * b) mod P).
Proof. intros. unfold mul_mod_p. rewrite mul_loop_spec by (done || pose proof P_pos; lia). done. Qed.

Lemma pow_mod_p_spec fuel a b :
  0 <= a <= P -> 1 <= b < 2 ^ (Z.of_nat fuel + 1) ->
  exists r, pow_mod_p fuel a b = Some r /\ 0 <= r <= P /\ r mod P = a ^ b mod P /\
    (b <> 1 \/ a < P -> r < P) /\ (b = 1 -> r = a).
Proof.
  pose proof P_pos as HP. intros Ha. revert b. induction fuel as [|fuel IH]; intros b Hb; cbn [pow_mod_p].
  { simpl in Hb. assert (b = 1) as -> by lia. exists a. rewrite Z.pow_1_r. split_and!; try done; lia. }
  destruct (Z.eqb_spec b 1) as [->|Hb1].
  { exists a. rewrite Z.pow_1_r. split_and!; try done; lia. }
  rewrite shiftr_div by lia. change (2 ^ 1) with 2.
  pose proof (Z.div_mod b 2) as Hdm. pose proof (Z.mod_pos_bound b 2).
  rewrite Nat2Z.inj_succ, <- Z.add_1_r, Z.pow_add_r in Hb by lia.
  destruct (IH (b / 2)) as (t & -> & Ht & Htm & _ & _); [lia|]. rewrite some_bind.
  rewrite mul_mod_p_spec by lia. rewrite some_bind.
  pose proof (Z.mod_pos_bound (t * t) P).
  assert ((t * t) mod P = (a ^ (b / 2 + b / 2)) mod P) as Hsq.
  { rewrite Z.pow_add_r by lia. rewrite Zmult_mod, Htm, <- Zmult_mod. done. }
  destruct (Z.eqb_spec (b mod 2) 0) as [He|He]; cbn [negb].
  - eexists. split; [done|]. rewrite Z.mod_mod by lia. split_and!; try lia.
    rewrite Hsq. f_equal. f_equal. lia.
  - rewrite mul_mod_p_spec by lia. eexists. split; [done|]. rewrite Z.mod_mod by lia.
    pose proof (Z.mod_pos_bound (((t * t) mod P) * a) P). split_and!; try lia.
    rewrite Zmult_mod_idemp_l, Zmult_mod, Hsq, <- Zmult_mod.
    rewrite <- (Z.pow_1_r a) at 2. rewrite <- Z.pow_add_r by lia. f_equal. f_equal. lia.
Qed.

Lemma powmodp_full a b :
  is_u64 a -> is_u64 b -> b <> 0 ->
  powmodp a b = Some (if (a =? P) && (b =? 1) then P else a ^ b mod P).
Proof.
  unfold is_u. intros Ha Hb Hb0. pose proof P_pos as HP. unfold powmodp.
  set (a' := if P <? a then a mod P else a).
  assert (0 <= a' <= P /\ a' mod P = a mod P /\ (a <> P -> a' < P)) as (Ha' & Hmod & Hlt).
  { subst a'. destruct (Z.ltb_spec P a).
    - pose proof (Z.mod_pos_bound a P). rewrite Z.mod_mod by lia. lia.
    - split; [lia|]. split; [done|lia]. }
  destruct (pow_mod_p_spec 64 a' b) as (r & -> & Hr & Hrm & Hrl & Hr1); [done|lia|].
  assert (r mod P = a ^ b mod P) as Hrm'.
  { rewrite Hrm, (Zpower_mod a'), Hmod, <- Zpower_mod by lia. done. }
  f_equal. destruct (Z.eqb_spec a P) as [->|Hne]; cbn [andb].
  - destruct (Z.eqb_spec b 1) as [->|Hb1].
    + rewrite (Hr1 eq_refl). subst a'. by rewrite Z.ltb_irrefl.
    + rewrite <- Hrm'. symmetry. apply Z.mod_small. lia.
  - rewrite <- Hrm'. symmetry. apply Z.mod_small. lia.
Qed.

Lemma powmodp_val a b : is_u64 a -> is_u64 b -> b <> 0 -> a <> P -> powmodp a b = Some (a ^ b mod P).
Proof. intros. rewrite powmodp_full by done. by rewrite (proj2 (Z.eqb_neq a P)). Qed.

(** Modular powers: for 64-bit numbers, powmodp terminates and computes
    a^b modulo the prime P, for every a and every b but 0, the one exception
    being P to the first power, which is returned unreduced. *)
Theorem powmodp_spec a b :
  is_u64 a -> is_u64 b -> b <> 0 ->
  powmodp a b = Some (if (a =? P) && (b =? 1) then P else a ^ b mod P).
Proof. apply powmodp_full. Qed.

Lemma powmodp_spec_witness :
  powmodp 5 65537 = Some (if (5 =? P) && (65537 =? 1) then P else 5 ^ 65537 mod P).
Proof. apply (powmodp_spec 5 65537); [by_eval|by_eval|done]. Defined.

(** Reading and writing the 8-byte numbers. *)
Definition qword (x : list Z) : Z :=
  match x with
  | [b0; b1; b2; b3; b4; b5; b6; b7] => word32 b0 b1 b2 b3 + word32 b4 b5 b6 b7 * 2 ^ 32
  | _ => 0
  end.

Lemma read_qword_spec x : is_bytes x -> zlen x = 8 ->
  exists x0 x1, read_qword x = Ret (x0, x1) /\ is_u32 x0 /\ is_u32 x1 /\
    x0 .| (x1 << 32) = qword x /\ is_u64 (qword x) /\ pushqword (x0, x1) = x.
Proof.
  intros Hb Hl. explode x 8.
  exists (word32 z z0 z1 z2), (word32 z3 z4 z5 z6). split.
  { change (read_qword _) with (Ret (A := Z * Z)
      (u32 (z .| (z0 << 8) .| (z1 << 16) .| (z2 << 24)), u32 (z3 .| (z4 << 8) .| (z5 << 16) .| (z6 << 24)))).
    rewrite !lor_word32 by done. unfold u32. by rewrite !wrap_small by by apply word32_range. }
  split; [by apply word32_range|]. split; [by apply word32_range|].
  pose proof (word32_range z z0 z1 z2 ltac:(done) ltac:(done) ltac:(done) ltac:(done)).
  pose proof (word32_range z3 z4 z5 z6 ltac:(done) ltac:(done) ltac:(done) ltac:(done)).
  split_and!.
  - apply lor_shiftl_add; [lia|]. auto.
  - unfold qword, is_u in *. lia.
  - unfold pushqword. cbn [fst snd]. rewrite !land_ff.
    destruct (u8_shiftr_word32 z z0 z1 z2) as (-> & -> & -> & ->); try done.
    destruct (u8_shiftr_word32 z3 z4 z5 z6) as (-> & -> & -> & ->); done.
Qed.

Lemma push64_spec r : is_u64 r -> is_bytes (push64 r) /\ zlen (push64 r) = 8 /\ qword (push64 r) = r.
Proof.
  intros Hr. unfold push64. split_and!; [repeat constructor; rewrite land_ff; apply is_u8_u8|done|].
  unfold qword. rewrite !land_ff.
  unfold word32, u8, wrap, is_u in *. rewrite !shiftr_div by lia.
  replace (2 ^ 56) with (256 * 256 * 256 * 256 * 256 * 256 * 256) by done.
  replace (2 ^ 48) with (256 * 256 * 256 * 256 * 256 * 256) by done.
  replace (2 ^ 40) with (256 * 256 * 256 * 256 * 256) by done.
  replace (2 ^ 32) with (256 * 256 * 256 * 256) by done.
  replace (2 ^ 24) with (256 * 256 * 256) by done. replace (2 ^ 16) with (256 * 256) by done.
  change (2 ^ 8) with 256. rewrite <- !Z.div_div by lia.
  pose proof (Z.div_mod r 256). set (r1 := r / 256) in *. pose proof (Z.div_mod r1 256).
  set (r2 := r1 / 256) in *. pose proof (Z.div_mod r2 256). set (r3 := r2 / 256) in *.
  pose proof (Z.div_mod r3 256). set (r4 := r3 / 256) in *. pose proof (Z.div_mod r4 256).
  set (r5 := r4 / 256) in *. pose proof (Z.div_mod r5 256). set (r6 := r5 / 256) in *.
  pose proof (Z.div_mod r6 256). set (r7 := r6 / 256) in *.
  assert (r7 mod 256 = r7) as ->; [|lia]. apply Z.mod_small.
  subst r7 r6 r5 r4 r3 r2 r1. rewrite !Z.div_div by lia.
  split; [apply Z.div_pos; lia|apply Z.div_lt_upper_bound; lia].
Qed.

(** ** The exchange *)

Lemma pow_G_nonzero n : 0 <= n -> 0 < G ^ n mod P < P.
Proof.
  intros Hn. pose proof (Z.mod_pos_bound (G ^ n) P ltac:(done)) as Hr.
  assert (G ^ n mod P <> 0) as Hne; [|lia]. intros H0.
  apply Z.mod_divide in H0; [|done].
  assert (Z.gcd (G ^ n) P = 1) as Hg.
  { apply Z.coprime_pow_l; [done|]. vm_compute. reflexivity. }
  apply Z.divide_gcd_iff in H0; [|done]. rewrite Z.gcd_comm, Hg in H0. done.
Qed.

Lemma ldhexchange_spec x :
  is_bytes x -> zlen x = 8 -> qword x <> 0 -> ldhexchange x = Ret (push64 (G ^ qword x mod P)).
Proof.
  intros Hb Hl H0. destruct (read_qword_spec x Hb Hl) as (x0 & x1 & Hr & _ & _ & Hq & Hu & _).
  unfold ldhexchange. rewrite Hl, Hr, ret_bind. cbn [negb Z.eqb Pos.eqb fst snd]. rewrite Hq.
  destruct (Z.eqb_spec (qword x) 0); [done|].
  rewrite (powmodp_val G (qword x) ltac:(by_eval) Hu H0 ltac:(by_eval)). by rewrite chk_some, ret_bind.
Qed.

Lemma ldhsecret_spec x y :
  is_bytes x -> zlen x = 8 -> is_bytes y -> zlen y = 8 -> qword x <> 0 -> qword y <> 0 -> qword x <> P ->
  ldhsecret x y = Ret (push64 (qword x ^ qword y mod P)).
Proof.
  intros Hbx Hlx Hby Hly Hx0 Hy0 HxP.
  destruct (read_qword_spec x Hbx Hlx) as (x0 & x1 & Hrx & _ & _ & Hqx & Hux & _).
  destruct (read_qword_spec y Hby Hly) as (y0 & y1 & Hry & _ & _ & Hqy & Huy & _).
  unfold ldhsecret, read64. rewrite Hlx, Hly, Hrx, Hry.
  cbn [negb Z.eqb Pos.eqb]. rewrite !ret_bind. cbn [fst snd]. rewrite Hqx, Hqy.
  destruct (Z.eqb_spec (qword x) 0); [done|]. destruct (Z.eqb_spec (qword y) 0); [done|].
  cbn [orb]. rewrite (powmodp_val (qword x) (qword y) Hux Huy Hy0 HxP). by rewrite chk_some, ret_bind.
Qed.

(** Key agreement: two parties with non-zero 64-bit secrets exchange
    numbers that are valid non-zero 64-bit arguments, and both compute the same
    shared secret, G to the product of the secrets modulo P. *)
Theorem dh_agreement x y :
  is_bytes x -> zlen x = 8 -> is_bytes y -> zlen y = 8 -> qword x <> 0 -> qword y <> 0 ->
  exists ex ey s, ldhexchange x = Ret ex /\ ldhexchange y = Ret ey /\
    ldhsecret ey x = Ret s /\ ldhsecret ex y = Ret s /\
    qword s = G ^ (qword x * qword y) mod P.
Proof.
  intros Hbx Hlx Hby Hly Hx0 Hy0.
  destruct (read_qword_spec x Hbx Hlx) as (_ & _ & _ & _ & _ & _ & Hux & _).
  destruct (read_qword_spec y Hby Hly) as (_ & _ & _ & _ & _ & _ & Huy & _).
  unfold is_u in *.
  pose proof (pow_G_nonzero (qword x)) as HGx. pose proof (pow_G_nonzero (qword y)) as HGy.
  pose proof P_pos as HP.
  destruct (push64_spec (G ^ qword x mod P)) as (Hb1 & Hl1 & Hq1); [unfold is_u; lia|].
  destruct (push64_spec (G ^ qword y mod P)) as (Hb2 & Hl2 & Hq2); [unfold is_u; lia|].
  assert (forall a b, 0 <= a -> 0 <= b -> (G ^ a mod P) ^ b mod P = G ^ (a * b) mod P) as Hpow.
  { intros a b Ha Hb. rewrite <- Zpower_mod by done. by rewrite <- Z.pow_mul_r. }
  eexists _, _, (push64 (G ^ (qword x * qword y) mod P)).
  split; [by apply ldhexchange_spec|]. split; [by apply ldhexchange_spec|].
  rewrite !ldhsecret_spec by (done || lia). rewrite Hq1, Hq2, !Hpow by lia.
  rewrite (Z.mul_comm (qword y)). split; [done|]. split; [done|].
  destruct (push64_spec (G ^ (qword x * qword y) mod P)) as (_ & _ & ->); [|done].
  pose proof (Z.mod_pos_bound (G ^ (qword x * qword y)) P). unfold is_u. lia.
Qed.

Lemma dh_agreement_witness :
  exists ex ey s, ldhexchange [3;1;4;1;5;9;2;6] = Ret ex /\ ldhexchange [2;7;1;8;2;8;1;8] = Ret ey /\
    ldhsecret ey [3;1;4;1;5;9;2;6] = Ret s /\ ldhsecret ex [2;7;1;8;2;8;1;8] = Ret s /\
    qword s = G ^ (qword [3;1;4;1;5;9;2;6] * qword [2;7;1;8;2;8;1;8]) mod P.
Proof. apply dh_agreement; (by_eval || done). Defined.

(** ** MD5 as published, and what the 64-bit codes compute

    RFC 1321: the message is padded with 0x80, zeros and its length in bits; each
    64-byte block is read as 16 little-endian words and compressed; the digest is
    the final state in little-endian bytes. *)

Definition md5_pad (msg : list Z) : list Z :=
  msg ++ [0x80] ++ replicate (Z.to_nat ((55 - zlen msg) mod 64)) 0 ++
  le32 (u32 (8 * zlen msg)) ++ le32 (u32 ((8 * zlen msg) >> 32)).

Definition md5_compress (st : Z * Z * Z * Z) (w : list Z) : Z * Z * Z * Z :=
  let '(a0, b0, c0, d0) := st in
  let '(a, b, c, d) := md5_loop 64 0 w a0 b0 c0 d0 in
  (u32 (a + a0), u32 (b + b0), u32 (c + c0), u32 (d + d0)).

Fixpoint md5_blocks (n : nat) (st : Z * Z * Z * Z) (l : list Z) : Z * Z * Z * Z :=
  match n with
  | O => st
  | S n' => md5_blocks n' (md5_compress st (le_words (take 64 l))) (drop 64 l)
  end.

Definition md5_sum (msg : list Z) : list Z :=
  let l := md5_pad msg in
  let '(a, b, c, d) := md5_blocks (length l / 64) (0x67452301, 0xefcdab89, 0x98badcfe, 0x10325476) l in
  le32 a ++ le32 b ++ le32 c ++ le32 d.

Example md5_sum_empty : ltohex (md5_sum []) = Ret (bytes_of "d41d8cd98f00b204e9800998ecf8427e").
Proof. vm_compute. reflexivity. Qed.
Example md5_sum_long :
  ltohex (md5_sum (bytes_of "12345678901234567890123456789012345678901234567890123456789012345678901234567890"))
  = Ret (bytes_of "57edf4a22be3c955ac49da2e2107b67a").
Proof. vm_compute. reflexivity. Qed.

Lemma pushqword_lxor a b c d :
  pushqword (a .^ b, c .^ d) = zip_with Z.lxor (le32 a ++ le32 c) (le32 b ++ le32 d).
Proof.
  unfold pushqword, le32. cbn [fst snd zip_with app]. rewrite !land_ff, !Z.shiftr_lxor, !u8_lxor. done.
Qed.

Lemma md5_pad_48 m : is_bytes m -> zlen m = 16 ->
  exists w0 w1 w2 w3, le_words m = [w0; w1; w2; w3] /\
    md5_blocks (length (md5_pad (m ++ m ++ m)) / 64)
      (0x67452301, 0xefcdab89, 0x98badcfe, 0x10325476) (md5_pad (m ++ m ++ m)) =
    md5_compress (0x67452301, 0xefcdab89, 0x98badcfe, 0x10325476)
      [w0; w1; w2; w3; w0; w1; w2; w3; w0; w1; w2; w3; 0x80; 0; 384; 0].
Proof.
  intros Hb Hl. explode m 16. eexists _, _, _, _. split; [reflexivity|].
  cbn [app]. unfold md5_pad. cbn [app].
  replace (length _ / 64)%nat with 1%nat by reflexivity. cbn [md5_blocks]. f_equal.
Qed.

(** The 64-bit authentication code is the one its comment describes: the MD5
    digest (RFC 1321, padding and length included) of the two arguments repeated
    three times, the first half of it xor-ed with the second. *)
Theorem hmac64_md5_reference x y :
  is_bytes x -> zlen x = 8 -> is_bytes y -> zlen y = 8 ->
  let m := md5_sum ((x ++ y) ++ (x ++ y) ++ (x ++ y)) in
  lhmac64_md5 x y = lxor_str (take 8 m) (drop 8 m) /\ is_Some (match lhmac64_md5 x y with Ret r => Some r | _ => None end).
Proof.
  intros Hbx Hlx Hby Hly.
  destruct (read_qword_spec x Hbx Hlx) as (x0 & x1 & Hrx & Hx0 & Hx1 & _ & _ & Hpx).
  destruct (read_qword_spec y Hby Hly) as (y0 & y1 & Hry & Hy0 & Hy1 & _ & _ & Hpy).
  destruct (md5_pad_48 (x ++ y)) as (w0 & w1 & w2 & w3 & Hw & Hblk);
    [by apply is_bytes_app|zlen_lia|].
  assert (w0 = x0 /\ w1 = x1 /\ w2 = y0 /\ w3 = y1) as (-> & -> & -> & ->).
  { clear Hblk. rewrite <- Hpx, <- Hpy in Hw. unfold pushqword in Hw. cbn [app le_words fst snd] in Hw.
    rewrite !land_ff, !word32_u8_shiftr in Hw by done. by injection Hw as -> -> -> ->. }
  unfold md5_sum. rewrite Hblk. unfold md5_compress.
  unfold lhmac64_md5, read64. rewrite Hlx, Hly, Hrx, Hry. cbn [negb Z.eqb Pos.eqb].
  rewrite !ret_bind. unfold hmac_md5. cbn [fst snd app].
  unfold digest_md5. destruct (md5_loop 64 0 _ _ _ _ _) as [[[r0 r1] r2] r3].
  split; [|by eexists]. rewrite pushqword_lxor. reflexivity.
Qed.

Lemma hmac64_md5_reference_witness :
  let m := md5_sum (([1;2;3;4;5;6;7;8] ++ [8;7;6;5;4;3;2;1]) ++ ([1;2;3;4;5;6;7;8] ++ [8;7;6;5;4;3;2;1]) ++
    ([1;2;3;4;5;6;7;8] ++ [8;7;6;5;4;3;2;1])) in
  lhmac64_md5 [1;2;3;4;5;6;7;8] [8;7;6;5;4;3;2;1] = lxor_str (take 8 m) (drop 8 m) /\
  is_Some (match lhmac64_md5 [1;2;3;4;5;6;7;8] [8;7;6;5;4;3;2;1] with Ret r => Some r | _ => None end).
Proof. apply (hmac64_md5_reference [1;2;3;4;5;6;7;8] [8;7;6;5;4;3;2;1]); (by_eval || done). Defined.

(** ** Exclusive or *)

Lemma xor_loop_spec s1 i s2 :
  0 < zlen s2 -> 0 <= i ->
  exists c, xor_loop s1 i s2 = Ret c /\ zlen c = zlen s1 /\ xor_loop c i s2 = Ret s1.
Proof.
  intros Hl. revert i. induction s1 as [|b s1 IH]; intros i Hi; cbn [xor_loop]; [by exists []|].
  pose proof (Z.mod_pos_bound i (zlen s2) Hl).
  destruct (zget_is_Some s2 (i mod zlen s2)) as [x Hx]; [lia|]. rewrite Hx, chk_some, ret_bind.
  destruct (IH (i + 1)) as (c & Hc & Hlc & Hback); [lia|]. rewrite Hc, ret_bind.
  exists (b .^ x :: c). split; [done|]. split; [zlen_lia|].
  cbn [xor_loop]. rewrite Hx, chk_some, ret_bind, Hback, ret_bind.
  by rewrite Z.lxor_assoc, Z.lxor_nilpotent, Z.lxor_0_r.
Qed.

(** A non-empty key xor-ed twice gives the text back; an empty key is an error. *)
Lemma xor_str_involutive s1 s2 :
  if zlen s2 =? 0 then lxor_str s1 s2 = Raise "Can't xor empty string"
  else exists c, lxor_str s1 s2 = Ret c /\ zlen c = zlen s1 /\ lxor_str c s2 = Ret s1.
Proof.
  unfold lxor_str. destruct (Z.eqb_spec (zlen s2) 0); [done|].
  pose proof (zlen_nonneg s2). apply xor_loop_spec; lia.
Qed.
