(* ===== verification/Sha1.v ===== *)
(** SHA-1 and the keyed digest: lualib-src/lsha1.c.

    The context keeps the state, the length in bits in two 32-bit words and a
    64-byte buffer.  Rounds 0 to 79 are the unrolled macro calls: the five
    working variables change places at each of them.  The message block is kept
    in 16 words that are overwritten as the message schedule advances. *)

From S2P Require Import Prelude Bytes.
Local Open Scope Z_scope.
Local Open Scope word_scope.

Definition sha_state : Type := Z * Z * Z * Z * Z.

Record SHA1_CTX := MkSha { sha_st : sha_state; count0 : Z; count1 : Z; sha_buffer : list Z }.

Definition SHA1_DIGEST_SIZE : Z := 20.
Definition BLOCKSIZE : Z := 64.

Definition rol (value bits : Z) : Z := u32 (value << bits) .| (value >> (32 - bits)).

(** [blk0] and [blk] store the word they return. *)
Definition blk0 (i : Z) (l : list Z) : Z * list Z :=
  let x := l !!! Z.to_nat i in
  let v := (rol x 24 .& 0xFF00FF00) .| (rol x 8 .& 0x00FF00FF) in
  (v, <[Z.to_nat i := v]> l).
Definition blk (i : Z) (l : list Z) : Z * list Z :=
  let at_ j := l !!! Z.to_nat (j .& 15) in
  let v := rol (at_ (i + 13) .^ at_ (i + 8) .^ at_ (i + 2) .^ at_ i) 1 in
  (v, <[Z.to_nat (i .& 15) := v]> l).

(** What the macros add to [z] besides the block word and [rol(v,5)]. *)
Definition R01 (w x y : Z) : Z := (w .& (x .^ y)) .^ y.
Definition R24 (w x y : Z) : Z := w .^ x .^ y.
Definition R3 (w x y : Z) : Z := ((w .| x) .& y) .| (w .& x).

Definition sha_round (i : Z) (vwxyz : sha_state) (l : list Z) : sha_state * list Z :=
  let '(v, w, x, y, z) := vwxyz in
  let '(b, l) := if i <? 16 then blk0 i l else blk i l in
  let '(f, k) := if i <? 20 then (R01 w x y, 0x5A827999)
                 else if i <? 40 then (R24 w x y, 0x6ED9EBA1)
                 else if i <? 60 then (R3 w x y, 0x8F1BBCDC)
                 else (R24 w x y, 0xCA62C1D6) in
  let z := u32 (z + (f + b + k + rol v 5)) in
  let w := rol w 30 in
  ((z, v, w, x, y), l).

Fixpoint sha_rounds (n : nat) (i : Z) (st : sha_state) (l : list Z) : sha_state :=
  match n with
  | O => st
  | S n' => let '(st, l) := sha_round i st l in sha_rounds n' (i + 1) st l
  end.

Definition SHA1_Transform (state : sha_state) (buffer : list Z) : sha_state :=
  let '(a0, b0, c0, d0, e0) := state in
  let '(a, b, c, d, e) := sha_rounds 80 0 state (le_words buffer) in
  (u32 (a0 + a), u32 (b0 + b), u32 (c0 + c), u32 (d0 + d), u32 (e0 + e)).

Definition sat_SHA1_Init (context : SHA1_CTX) : SHA1_CTX :=
  MkSha (0x67452301, 0xEFCDAB89, 0x98BADCFE, 0x10325476, 0xC3D2E1F0) 0 0 (sha_buffer context).

(** [memcpy(&buffer[j], data, ...)] *)
Definition copy_at (buffer : list Z) (j : Z) (data : list Z) : option (list Z) :=
  if (0 <=? j) && (j + zlen data <=? zlen buffer) then
    Some (take (Z.to_nat j) buffer ++ data ++ drop (Z.to_nat (j + zlen data)) buffer)
  else None.

(** [for ( ; i + 63 < len; i += 64) SHA1_Transform(state, data + i);] *)
Fixpoint transform_loop (fuel : nat) (i : Z) (data : list Z) (state : sha_state)
    : option (Z * sha_state) :=
  if i + 63 <? zlen data then
    match fuel with
    | O => None
    | S fuel' =>
        transform_loop fuel' (i + 64) data
          (SHA1_Transform state (take 64 (drop (Z.to_nat i) data)))
    end
  else Some (i, state).

Definition sat_SHA1_Update (context : SHA1_CTX) (data : list Z) : option SHA1_CTX :=
  let len := zlen data in
  let j := (count0 context >> 3) .& 63 in
  let lenb := u64 (len << 3) in
  let c0 := u32 (count0 context + lenb) in
  let c1 := if c0 <? lenb then u32 (count1 context + 1) else count1 context in
  let c1 := u32 (c1 + (len >> 29)) in
  '(i, j, st, buffer) ←
    (if 63 <? j + len then
       let i := 64 - j in
       buffer ← copy_at (sha_buffer context) j (take (Z.to_nat i) data);
       let st := SHA1_Transform (sha_st context) buffer in
       '(i, st) ← transform_loop (Z.to_nat len) i data st;
       Some (i, 0, st, buffer)
     else Some (0, j, sha_st context, sha_buffer context));
  buffer ← copy_at buffer j (drop (Z.to_nat i) data);
  Some (MkSha st c0 c1 buffer).

(** [while ((context->count[0] & 504) != 448) Update(context, "\0", 1)] *)
Fixpoint pad_loop (fuel : nat) (context : SHA1_CTX) : option SHA1_CTX :=
  if negb (count0 context .& 504 =? 448) then
    match fuel with
    | O => None
    | S fuel' => context ← sat_SHA1_Update context [0]; pad_loop fuel' context
    end
  else Some context.

Definition word_bytes_be (x : Z) : list Z := [(x >> 24) .& 255; (x >> 16) .& 255; (x >> 8) .& 255; x .& 255].

Definition sat_SHA1_Final (context : SHA1_CTX) : option (list Z) :=
  let finalcount := word_bytes_be (count1 context) ++ word_bytes_be (count0 context) in
  context ← sat_SHA1_Update context [128];
  context ← pad_loop 64 context;
  context ← sat_SHA1_Update context finalcount;
  let '(a, b, c, d, e) := sha_st context in
  Some (word_bytes_be a ++ word_bytes_be b ++ word_bytes_be c ++ word_bytes_be d ++ word_bytes_be e).

(** A local context is not initialised: [ctx] is what the memory holds. *)
Definition lsha1 (ctx : SHA1_CTX) (buffer : list Z) : outcome (list Z) :=
  chk (ctx ← sat_SHA1_Update (sat_SHA1_Init ctx) buffer; sat_SHA1_Final ctx).

(** The key is xor-ed word by word. *)
Fixpoint xor_key (key : list Z) (xor : Z) : list Z :=
  match key with
  | b0 :: b1 :: b2 :: b3 :: key' => le32 (word32 b0 b1 b2 b3 .^ xor) ++ xor_key key' xor
  | _ => []
  end.

Definition lhmac_sha1 (ctx ctx1 ctx2 : SHA1_CTX) (key text : list Z) : outcome (list Z) :=
  let rkey := replicate (Z.to_nat BLOCKSIZE) 0 in
  rkey ← chk (
    if BLOCKSIZE <? zlen key then
      ctx ← sat_SHA1_Update (sat_SHA1_Init ctx) key;
      digest ← sat_SHA1_Final ctx;
      copy_at rkey 0 digest
    else copy_at rkey 0 key);
  let rkey := xor_key rkey 0x5c5c5c5c in
  ctx1 ← chk (sat_SHA1_Update (sat_SHA1_Init ctx1) rkey);
  let rkey := xor_key rkey (0x5c5c5c5c .^ 0x36363636) in
  ctx2 ← chk (sat_SHA1_Update (sat_SHA1_Init ctx2) rkey);
  ctx2 ← chk (sat_SHA1_Update ctx2 text);
  digest2 ← chk (sat_SHA1_Final ctx2);
  ctx1 ← chk (sat_SHA1_Update ctx1 digest2);
  digest1 ← chk (sat_SHA1_Final ctx1);
  Ret digest1.

(** ** SHA-1 as published (FIPS 180)

    The message schedule is expanded to 80 words before the rounds; the message
    is padded with 0x80, zeros and its length in bits, and hashed block by
    block. *)

Definition be_word (b0 b1 b2 b3 : Z) : Z := word32 b3 b2 b1 b0.

Fixpoint be_words (l : list Z) : list Z :=
  match l with
  | b0 :: b1 :: b2 :: b3 :: l' => be_word b0 b1 b2 b3 :: be_words l'
  | _ => []
  end.

Fixpoint sha_expand (n : nat) (ws : list Z) : list Z :=
  match n with
  | O => ws
  | S n' =>
      let w := sha_expand n' ws in
      let t := (16 + n')%nat in
      w ++ [rol ((w !!! (t - 3)%nat) .^ (w !!! (t - 8)%nat) .^ (w !!! (t - 14)%nat) .^ (w !!! (t - 16)%nat)) 1]
  end.

Definition Ch (x y z : Z) : Z := (x .& y) .^ Z.ldiff z x.
Definition Parity (x y z : Z) : Z := x .^ y .^ z.
Definition Maj (x y z : Z) : Z := (x .& y) .^ (x .& z) .^ (y .& z).

Definition sha_ref_round (t : nat) (W : list Z) (s : sha_state) : sha_state :=
  let '(a, b, c, d, e) := s in
  let '(f, k) := if (t <? 20)%nat then (Ch b c d, 0x5A827999)
                 else if (t <? 40)%nat then (Parity b c d, 0x6ED9EBA1)
                 else if (t <? 60)%nat then (Maj b c d, 0x8F1BBCDC)
                 else (Parity b c d, 0xCA62C1D6) in
  (u32 (rol a 5 + f + e + k + W !!! t), a, rol b 30, c, d).

Definition sha_ref_block (s : sha_state) (block : list Z) : sha_state :=
  let W := sha_expand 64 (be_words block) in
  let '(a0, b0, c0, d0, e0) := s in
  let '(a, b, c, d, e) := foldl (fun s t => sha_ref_round t W s) s (seq 0 80) in
  (u32 (a0 + a), u32 (b0 + b), u32 (c0 + c), u32 (d0 + d), u32 (e0 + e)).

Fixpoint sha_blocks (n : nat) (s : sha_state) (l : list Z) : sha_state :=
  match n with
  | O => s
  | S n' => sha_blocks n' (sha_ref_block s (take 64 l)) (drop 64 l)
  end.

Definition be32 (x : Z) : list Z := [u8 (x >> 24); u8 (x >> 16); u8 (x >> 8); u8 x].
Definition be64 (x : Z) : list Z := be32 (u32 (x >> 32)) ++ be32 (u32 x).

Definition sha_pad (msg : list Z) : list Z :=
  msg ++ [0x80] ++ replicate (Z.to_nat ((55 - zlen msg) mod 64)) 0 ++ be64 (8 * zlen msg).

Definition sha_init : sha_state := (0x67452301, 0xEFCDAB89, 0x98BADCFE, 0x10325476, 0xC3D2E1F0).

Definition sha_bytes (s : sha_state) : list Z :=
  let '(a, b, c, d, e) := s in be32 a ++ be32 b ++ be32 c ++ be32 d ++ be32 e.

Definition sha1_ref (msg : list Z) : list Z :=
  let l := sha_pad msg in sha_bytes (sha_blocks (length l / 64) sha_init l).

Definition hmac_ref (key text : list Z) : list Z :=
  let k0 := if 64 <? zlen key then sha1_ref key else key in
  let k := k0 ++ replicate (64 - length k0) 0 in
  sha1_ref (map (Z.lxor 0x5c) k ++ sha1_ref (map (Z.lxor 0x36) k ++ text)).

(** ** One block *)

Lemma rol_word32_24 b0 b1 b2 b3 : is_u8 b0 -> is_u8 b1 -> is_u8 b2 -> is_u8 b3 ->
  rol (word32 b0 b1 b2 b3) 24 = word32 b1 b2 b3 b0.
Proof.
  intros. unfold rol. change (32 - 24) with 8. unfold u32, wrap.
  rewrite Z.shiftl_mul_pow2, shiftr_div by lia. unfold word32, is_u in *.
  replace ((b0 + b1 * 2 ^ 8 + b2 * 2 ^ 16 + b3 * 2 ^ 24) / 2 ^ 8) with (b1 + b2 * 2 ^ 8 + b3 * 2 ^ 16)
    by (apply (Z.div_unique_pos _ _ _ b0); lia).
  replace (((b0 + b1 * 2 ^ 8 + b2 * 2 ^ 16 + b3 * 2 ^ 24) * 2 ^ 24) mod 2 ^ 32) with (Z.shiftl b0 24).
  - rewrite lor_shiftl_add' by (unfold is_u; lia). lia.
  - rewrite Z.shiftl_mul_pow2 by lia.
    apply (Z.mod_unique_pos _ _ (b1 + b2 * 2 ^ 8 + b3 * 2 ^ 16)); lia.
Qed.

Lemma rol_word32_8 b0 b1 b2 b3 : is_u8 b0 -> is_u8 b1 -> is_u8 b2 -> is_u8 b3 ->
  rol (word32 b0 b1 b2 b3) 8 = word32 b3 b0 b1 b2.
Proof.
  intros. unfold rol. change (32 - 8) with 24. unfold u32, wrap.
  rewrite Z.shiftl_mul_pow2, shiftr_div by lia. unfold word32, is_u in *.
  replace ((b0 + b1 * 2 ^ 8 + b2 * 2 ^ 16 + b3 * 2 ^ 24) / 2 ^ 24) with b3
    by (apply (Z.div_unique_pos _ _ _ (b0 + b1 * 2 ^ 8 + b2 * 2 ^ 16)); lia).
  replace (((b0 + b1 * 2 ^ 8 + b2 * 2 ^ 16 + b3 * 2 ^ 24) * 2 ^ 8) mod 2 ^ 32)
    with (Z.shiftl (b0 + b1 * 2 ^ 8 + b2 * 2 ^ 16) 8).
  - rewrite lor_shiftl_add' by (unfold is_u; lia). lia.
  - rewrite Z.shiftl_mul_pow2 by lia. apply (Z.mod_unique_pos _ _ b3); lia.
Qed.

(** A mask that keeps or clears whole bytes, checked on every byte. *)
Definition keeps (m n : Z) : bool :=
  forallb (fun b => (b << n) .& m =? if Z.testbit m n then b << n else 0) (seqZ 0 256).

Lemma keeps_byte m n b : keeps m n = true -> is_u8 b ->
  (b << n) .& m = if Z.testbit m n then b << n else 0.
Proof.
  intros Hk Hb. apply Z.eqb_eq.
  by apply (byte_forall (fun b => (b << n) .& m =? if Z.testbit m n then b << n else 0) Hk).
Qed.

Lemma blk0_swaps b0 b1 b2 b3 : is_u8 b0 -> is_u8 b1 -> is_u8 b2 -> is_u8 b3 ->
  (rol (word32 b0 b1 b2 b3) 24 .& 0xFF00FF00) .| (rol (word32 b0 b1 b2 b3) 8 .& 0x00FF00FF)
  = be_word b0 b1 b2 b3.
Proof.
  intros H0 H1 H2 H3. rewrite rol_word32_24, rol_word32_8 by done. unfold be_word.
  rewrite <- !lor_word32 by done. rewrite !Z.land_lor_distr_l.
  assert (forall b, b = b << 0) as Hs by (intros; by rewrite Z.shiftl_0_r).
  rewrite (Hs b1) at 1. rewrite (Hs b3) at 2.
  rewrite !keeps_byte by (done || (vm_compute; reflexivity)).
  cbn [Z.testbit Pos.testbit Pos.pred_N Pos.pred_double Z.odd]. rewrite ?Z.shiftl_0_r. zbits.
Qed.

(** ** The message schedule *)

Lemma length_sha_expand n ws : length (sha_expand n ws) = (length ws + n)%nat.
Proof. induction n as [|n IH]; simpl; [lia|]. rewrite length_app, IH. simpl. lia. Qed.

Lemma sha_expand_stable n m ws t : (t < length ws + n)%nat ->
  sha_expand (n + m) ws !!! t = sha_expand n ws !!! t.
Proof.
  intros Ht. induction m as [|m IH]; [by rewrite Nat.add_0_r|].
  rewrite Nat.add_succ_r. simpl. rewrite lookup_total_app_l; [done|].
  rewrite length_sha_expand. lia.
Qed.

Lemma sha_expand_old ws n t : (t < length ws)%nat -> sha_expand n ws !!! t = ws !!! t.
Proof. intros. apply (sha_expand_stable 0 n). lia. Qed.

Lemma sha_expand_new ws t : length ws = 16%nat -> (16 <= t < 80)%nat ->
  let W := sha_expand 64 ws in
  W !!! t = rol ((W !!! (t - 3)%nat) .^ (W !!! (t - 8)%nat) .^ (W !!! (t - 14)%nat) .^ (W !!! (t - 16)%nat)) 1.
Proof.
  intros Hl Ht W. set (n := (t - 16)%nat).
  assert (forall u, (u < 17 + n)%nat -> W !!! u = sha_expand (S n) ws !!! u) as Hst.
  { intros u Hu. subst W. replace 64%nat with (S n + (63 - n))%nat by lia.
    apply sha_expand_stable. lia. }
  assert (forall u, (u < 16 + n)%nat -> W !!! u = sha_expand n ws !!! u) as Hst'.
  { intros u Hu. subst W. replace 64%nat with (n + (64 - n))%nat by lia.
    apply sha_expand_stable. lia. }
  rewrite Hst by lia. cbn [sha_expand]. rewrite !Hst' by lia.
  rewrite lookup_total_app_r by (rewrite length_sha_expand; lia).
  rewrite length_sha_expand. replace (t - (length ws + n))%nat with 0%nat by lia.
  replace (16 + n)%nat with t by lia. done.
Qed.

(** What the 16 words hold before round [i]: of the past rounds the last 16 words
    of the schedule, of the coming ones the block's words, still to be swapped. *)
Definition swap_word (x : Z) : Z := (rol x 24 .& 0xFF00FF00) .| (rol x 8 .& 0x00FF00FF).

Lemma swap_word_be b0 b1 b2 b3 : is_u8 b0 -> is_u8 b1 -> is_u8 b2 -> is_u8 b3 ->
  swap_word (word32 b0 b1 b2 b3) = be_word b0 b1 b2 b3.
Proof. apply blk0_swaps. Qed.

Definition window (W : list Z) (i : nat) (l : list Z) : Prop :=
  length l = 16%nat /\
  (forall t, (t < i)%nat -> (i <= t + 16)%nat -> l !!! (t mod 16)%nat = W !!! t) /\
  (forall t, (i <= t < 16)%nat -> swap_word (l !!! t) = W !!! t).

Lemma land_15_nat (t : nat) : Z.to_nat (Z.land (Z.of_nat t) 15) = (t mod 16)%nat.
Proof.
  rewrite land_15. replace 16 with (Z.of_nat 16) by done. rewrite <- Nat2Z.inj_mod. apply Nat2Z.id.
Qed.

Lemma window_step ws i l :
  length ws = 16%nat -> (i < 80)%nat -> window (sha_expand 64 ws) i l ->
  exists l', (if Z.of_nat i <? 16 then blk0 (Z.of_nat i) l else blk (Z.of_nat i) l)
             = (sha_expand 64 ws !!! i, l') /\ window (sha_expand 64 ws) (S i) l'.
Proof.
  intros Hws Hi (Hl & Hpast & Hnext).
  assert (exists v, (if Z.of_nat i <? 16 then blk0 (Z.of_nat i) l else blk (Z.of_nat i) l)
      = (v, <[(i mod 16)%nat := v]> l) /\ v = sha_expand 64 ws !!! i) as (v & -> & Hv).
  { destruct (Z.ltb_spec (Z.of_nat i) 16).
    - unfold blk0. rewrite Nat2Z.id. eexists. rewrite Nat.mod_small by lia. split; [done|].
      apply Hnext. lia.
    - unfold blk. rewrite land_15_nat. eexists. split; [done|].
      rewrite sha_expand_new by lia.
      replace (Z.of_nat i + 13) with (Z.of_nat (i + 13)) by lia.
      replace (Z.of_nat i + 8) with (Z.of_nat (i + 8)) by lia.
      replace (Z.of_nat i + 2) with (Z.of_nat (i + 2)) by lia.
      rewrite !land_15_nat.
      replace ((i + 13) mod 16)%nat with ((i - 3) mod 16)%nat
        by (rewrite <- (Nat.Div0.mod_add (i - 3) 1 16); f_equal; lia).
      replace ((i + 8) mod 16)%nat with ((i - 8) mod 16)%nat
        by (rewrite <- (Nat.Div0.mod_add (i - 8) 1 16); f_equal; lia).
      replace ((i + 2) mod 16)%nat with ((i - 14) mod 16)%nat
        by (rewrite <- (Nat.Div0.mod_add (i - 14) 1 16); f_equal; lia).
      replace (i mod 16)%nat with ((i - 16) mod 16)%nat
        by (rewrite <- (Nat.Div0.mod_add (i - 16) 1 16); f_equal; lia).
      by rewrite !Hpast by lia. }
  eexists. split; [by rewrite Hv|]. split; [by rewrite length_insert|]. split.
  - intros t Ht Ht16. destruct (decide (t = i)) as [->|Hne].
    + rewrite list_lookup_total_insert_eq; [done|].
      pose proof (Nat.mod_upper_bound i 16). lia.
    + rewrite list_lookup_total_insert_ne; [apply Hpast; lia|].
      intros He. assert (i = t + (i - t))%nat as Hit by lia.
      assert (Z.of_nat i mod 16 = Z.of_nat t mod 16) as Hz
        by (change 16 with (Z.of_nat 16); rewrite <- !Nat2Z.inj_mod; f_equal; congruence).
      pose proof (Z.div_mod (Z.of_nat i) 16). pose proof (Z.div_mod (Z.of_nat t) 16).
      rewrite Hz in *. lia.
  - intros t Ht. rewrite list_lookup_total_insert_ne; [apply Hnext; lia|].
    rewrite Nat.mod_small; lia.
Qed.

(** ** The rounds *)

Lemma R01_Ch x y z : R01 x y z = Ch x y z.
Proof. unfold R01, Ch. zbits. Qed.
Lemma R3_Maj x y z : R3 x y z = Maj x y z.
Proof. unfold R3, Maj. zbits. Qed.

Lemma sha_rounds_ref ws n i st l :
  length ws = 16%nat -> (i + n = 80)%nat -> window (sha_expand 64 ws) i l ->
  sha_rounds n (Z.of_nat i) st l =
  foldl (fun s t => sha_ref_round t (sha_expand 64 ws) s) st (seq i n).
Proof.
  intros Hws. revert i st l. induction n as [|n IH]; intros i st l Hi Hw; [done|].
  cbn [sha_rounds seq foldl].
  destruct (window_step ws i l Hws ltac:(lia) Hw) as (l' & Hb & Hw').
  assert (sha_round (Z.of_nat i) st l = (sha_ref_round i (sha_expand 64 ws) st, l')) as ->.
  { destruct st as [[[[v w] x] y] z]. unfold sha_round. rewrite Hb. unfold sha_ref_round.
    assert (forall k : nat, (Z.of_nat i <? Z.of_nat k) = (i <? k)%nat) as Hlt.
    { intros k. destruct (Nat.ltb_spec i k), (Z.ltb_spec (Z.of_nat i) (Z.of_nat k)); done || lia. }
    rewrite (Hlt 20%nat : (Z.of_nat i <? 20) = _), (Hlt 40%nat : (Z.of_nat i <? 40) = _),
      (Hlt 60%nat : (Z.of_nat i <? 60) = _).
    assert (forall z f b k r, u32 (z + (f + b + k + r)) = u32 (r + f + z + k + b)) as Hsum
      by (intros; f_equal; lia).
    rewrite R01_Ch, R3_Maj. destruct (i <? 20)%nat, (i <? 40)%nat, (i <? 60)%nat; cbv zeta; by rewrite Hsum. }
  replace (Z.of_nat i + 1) with (Z.of_nat (S i)) by lia. apply IH; [lia|done].
Qed.

Lemma le_be_words l n : is_bytes l -> length l = (4 * n)%nat -> swap_word <$> le_words l = be_words l.
Proof.
  revert l. induction n as [|n IH]; intros l Hb Hl; [by destruct l|].
  do 4 (destruct l as [|? l]; [simpl in Hl; lia|]). split_bytes. cbn [le_words be_words].
  rewrite fmap_cons, swap_word_be, IH by (done || (simpl in Hl; lia)). done.
Qed.

(** The unrolled rounds compute the published compression of the block. *)
Lemma transform_ref st block : is_bytes block -> length block = 64%nat ->
  SHA1_Transform st block = sha_ref_block st block.
Proof.
  intros Hb Hl. pose proof (length_le_words block 16 Hl) as Hlen.
  pose proof (le_be_words block 16 Hb Hl) as Hswap.
  assert (length (be_words block) = 16%nat) as Hbl by (by rewrite <- Hswap, length_fmap).
  unfold SHA1_Transform, sha_ref_block.
  rewrite (sha_rounds_ref (be_words block) 80 0 st); [done|done|done|].
  split; [done|]. split; [intros; lia|]. intros t Ht.
  rewrite sha_expand_old by lia. rewrite <- Hswap.
  symmetry. apply list_lookup_total_fmap. lia.
Qed.

(** ** Feeding a message in pieces *)

Lemma sha_blocks_app n m s l1 l2 : length l1 = (64 * n)%nat ->
  sha_blocks (n + m) s (l1 ++ l2) = sha_blocks m (sha_blocks n s l1) l2.
Proof.
  revert s l1. induction n as [|n IH]; intros s l1 Hl; [by destruct l1|].
  cbn [Nat.add sha_blocks]. rewrite take_app_le, drop_app_le by lia. apply IH.
  rewrite length_drop. lia.
Qed.

Lemma sha_blocks_take n s l k : (64 * n <= k)%nat -> sha_blocks n s (take k l) = sha_blocks n s l.
Proof.
  revert s l k. induction n as [|n IH]; intros s l k Hk; [done|]. cbn [sha_blocks].
  rewrite take_take, Nat.min_l by lia.
  replace (drop 64 (take k l)) with (take (k - 64) (drop 64 l)); [apply IH; lia|].
  rewrite take_drop_commute. by replace (64 + (k - 64))%nat with k by lia.
Qed.

(** The context after the bytes of [msg]: the whole blocks are hashed, the rest
    waits in the buffer, and the counters hold the length in bits. *)
Record sha_rep (ctx : SHA1_CTX) (msg : list Z) : Prop := {
  sr_bytes : is_bytes msg;
  sr_len : length (sha_buffer ctx) = 64%nat;
  sr_state : sha_st ctx = sha_blocks (length msg / 64) sha_init msg;
  sr_rest : take (length msg mod 64) (sha_buffer ctx) = drop (64 * (length msg / 64)) msg;
  sr_count0 : count0 ctx = u32 (8 * zlen msg);
  sr_count1 : count1 ctx = u32 ((8 * zlen msg) / 2 ^ 32)
}.

Lemma sha_init_rep ctx : length (sha_buffer ctx) = 64%nat -> sha_rep (sat_SHA1_Init ctx) [].
Proof. intros Hl. split; try done. constructor. Qed.

Lemma copy_at_spec buffer j data : (j + length data <= length buffer)%nat ->
  copy_at buffer (Z.of_nat j) data = Some (take j buffer ++ data ++ drop (j + length data) buffer).
Proof.
  intros Hj. unfold copy_at, zlen.
  destruct (Z.leb_spec 0 (Z.of_nat j)); [|lia].
  destruct (Z.leb_spec (Z.of_nat j + Z.of_nat (length data)) (Z.of_nat (length buffer))); [|lia]. simpl.
  rewrite Nat2Z.id. by replace (Z.to_nat (Z.of_nat j + Z.of_nat (length data))) with (j + length data)%nat by lia.
Qed.

Lemma transform_loop_spec fuel i data st :
  is_bytes data -> (i <= length data)%nat -> (length data - i <= 64 * fuel)%nat ->
  exists k, k = ((length data - i) / 64)%nat /\
    transform_loop fuel (Z.of_nat i) data st =
    Some (Z.of_nat (i + 64 * k), sha_blocks k st (drop i data)).
Proof.
  intros Hb. revert i st. induction fuel as [|fuel IH]; intros i st Hi Hf; cbn [transform_loop];
    unfold zlen; (destruct (Z.ltb_spec (Z.of_nat i + 63) (Z.of_nat (length data))) as [Hlt|Hge]).
  - lia.
  - exists 0%nat. rewrite Nat.div_small by lia. split; [done|]. simpl. by rewrite Nat.add_0_r.
  - rewrite Nat2Z.id. rewrite transform_ref;
      [|by apply is_bytes_take, is_bytes_drop|rewrite length_take, length_drop; lia].
    replace (Z.of_nat i + 64) with (Z.of_nat (i + 64)) by lia.
    destruct (IH (i + 64)%nat (sha_ref_block st (take 64 (drop i data)))) as (k & Hk & ->); [lia..|].
    exists (S k). split.
    + replace (length data - i)%nat with ((length data - (i + 64)) + 1 * 64)%nat by lia.
      rewrite Nat.div_add by lia. lia.
    + cbn [sha_blocks]. rewrite drop_drop. do 2 f_equal. lia.
  - exists 0%nat. rewrite Nat.div_small by lia. split; [done|]. simpl. by rewrite Nat.add_0_r.
Qed.

(** The counters after [len] more bytes, for [len] below 2^29. *)
Lemma count_step L len : 0 <= L -> 0 <= len < 2 ^ 29 ->
  let c0 := u32 (8 * L) in let c1 := u32 ((8 * L) / 2 ^ 32) in
  let lenb := u64 (len << 3) in
  let c0' := u32 (c0 + lenb) in
  c0' = u32 (8 * (L + len)) /\
  u32 ((if c0' <? lenb then u32 (c1 + 1) else c1) + (len >> 29)) = u32 ((8 * (L + len)) / 2 ^ 32).
Proof.
  intros HL Hlen c0 c1 lenb c0'.
  assert (lenb = 8 * len) as ->.
  { subst lenb. rewrite Z.shiftl_mul_pow2 by lia. unfold u64. rewrite wrap_small; [lia|].
    unfold is_u. lia. }
  assert (c0' = u32 (8 * (L + len))) as E0.
  { subst c0' c0. unfold u32. rewrite wrap_add_l. f_equal. lia. }
  split; [done|]. rewrite shiftr_div, (Z.div_small len) by lia. rewrite Z.add_0_r.
  pose proof (Z.div_mod (8 * L) (2 ^ 32)) as Hdm. pose proof (Z.mod_pos_bound (8 * L) (2 ^ 32)).
  assert (c0 = (8 * L) mod 2 ^ 32) as Hc0 by done.
  assert (c0' = (c0 + 8 * len) mod 2 ^ 32) as Hc0' by done.
  destruct (Z.ltb_spec c0' (8 * len)) as [Hlt|Hge].
  - assert (2 ^ 32 <= c0 + 8 * len) as Hov.
    { destruct (Z.lt_ge_cases (c0 + 8 * len) (2 ^ 32)); [|done].
      rewrite Hc0', Z.mod_small in Hlt by lia. lia. }
    unfold u32. rewrite wrap_idemp by lia. subst c1. unfold u32. rewrite wrap_add_l. f_equal.
    apply (Z.div_unique_pos _ _ _ (c0 + 8 * len - 2 ^ 32)); lia.
  - assert (c0 + 8 * len < 2 ^ 32) as Hno.
    { destruct (Z.lt_ge_cases (c0 + 8 * len) (2 ^ 32)) as [|Hov]; [done|].
      rewrite Hc0' in Hge. replace (c0 + 8 * len) with (c0 + 8 * len - 2 ^ 32 + 1 * 2 ^ 32) in Hge by lia.
      rewrite Z_mod_plus_full, Z.mod_small in Hge by lia. lia. }
    subst c1. unfold u32. rewrite wrap_idemp by lia. f_equal.
    apply (Z.div_unique_pos _ _ _ (c0 + 8 * len)); lia.
Qed.

Lemma update_rep ctx msg data :
  sha_rep ctx msg -> is_bytes data -> zlen data < 2 ^ 29 ->
  exists ctx', sat_SHA1_Update ctx data = Some ctx' /\ sha_rep ctx' (msg ++ data).
Proof.
  intros [Hb Hlb Hst Hrest Hc0 Hc1] Hbd Hmax.
  set (n := (length msg / 64)%nat) in *. set (j := (length msg mod 64)%nat) in *.
  assert (length msg = 64 * n + j)%nat as Hlm by (apply Nat.div_mod; lia).
  assert (j < 64)%nat as Hj by (apply Nat.mod_upper_bound; lia).
  unfold sat_SHA1_Update.
  assert ((count0 ctx >> 3) .& 63 = Z.of_nat j) as ->.
  { rewrite Hc0, land_63, shiftr_div by lia. unfold u32, wrap, zlen.
    change (2 ^ 32) with (2 ^ 3 * (64 * 2 ^ 23)). change 8 with (2 ^ 3).
    rewrite Z.mul_mod_distr_l by lia. rewrite Z.mul_comm, Z.div_mul by lia.
    rewrite Z.rem_mul_r by lia. rewrite Z.mul_comm, Z_mod_plus_full, Z.mod_mod by lia.
    subst j. by rewrite Nat2Z.inj_mod. }
  destruct (count_step (zlen msg) (zlen data)) as [E0 E1]; [apply zlen_nonneg|split; [apply zlen_nonneg|done]|].
  cbv zeta in E0, E1. rewrite <- Hc0 in E0, E1. rewrite <- Hc1 in E1. cbv zeta. rewrite E1, E0. rewrite <- zlen_app.
  unfold zlen. destruct (Z.ltb_spec 63 (Z.of_nat j + Z.of_nat (length data))) as [Hbig|Hsmall].
  - set (i := (64 - j)%nat).
    replace (64 - Z.of_nat j) with (Z.of_nat i) by lia. rewrite !Nat2Z.id.
    rewrite copy_at_spec by (rewrite length_take; lia). rewrite some_bind.
    rewrite length_take, Nat.min_l, Hrest by lia.
    rewrite (drop_ge (sha_buffer ctx)) by lia. rewrite app_nil_r.
    set (block := drop (64 * n) msg ++ take i data).
    assert (length block = 64%nat) as Hblk.
    { subst block. rewrite length_app, length_drop, length_take. lia. }
    rewrite transform_ref; [|apply is_bytes_app; split; [by apply is_bytes_drop|by apply is_bytes_take]|done].
    destruct (transform_loop_spec (length data) i data (sha_ref_block (sha_st ctx) block))
      as (k & Hk & ->); [done|lia|lia|].
    rewrite some_bind. cbv beta iota. rewrite some_bind. cbv beta iota.
    rewrite Nat2Z.id. change 0 with (Z.of_nat 0).
    assert (length (drop (i + 64 * k) data) = ((length data - i) mod 64)%nat) as Hld.
    { rewrite length_drop. pose proof (Nat.div_mod (length data - i) 64). lia. }
    pose proof (Nat.mod_upper_bound (length data - i) 64) as Hmb.
    rewrite copy_at_spec by lia. rewrite some_bind. eexists. split; [done|].
    assert (length (msg ++ data) = (length data - i) mod 64 + (n + 1 + k) * 64)%nat as Hlen.
    { rewrite length_app. pose proof (Nat.div_mod (length data - i) 64). lia. }
    assert (length (msg ++ data) / 64 = n + 1 + k)%nat as Hq.
    { rewrite Hlen, Nat.div_add, (Nat.div_small ((length data - i) mod 64)) by lia. lia. }
    assert (length (msg ++ data) mod 64 = (length data - i) mod 64)%nat as Hr.
    { rewrite Hlen, Nat.Div0.mod_add, Nat.Div0.mod_mod. done. }
    assert (msg ++ data = (take (64 * n) msg ++ block) ++ drop i data) as Hsplit.
    { subst block. rewrite <- !app_assoc, !take_drop. rewrite app_assoc, take_drop. done. }
    split; cbn [sha_st count0 count1 sha_buffer]; try done.
    + by apply is_bytes_app.
    + rewrite take_0, !length_app, !length_drop. rewrite length_drop in Hld. simpl. lia.
    + rewrite Hq. rewrite Hsplit at 1.
      rewrite sha_blocks_app by (rewrite length_app, length_take; lia).
      rewrite sha_blocks_app by (rewrite length_take; lia). rewrite sha_blocks_take by lia.
      cbn [sha_blocks]. rewrite (take_ge block) by lia. by rewrite <- Hst.
    + rewrite Hr, Hq. rewrite take_0, app_nil_l, take_app_length' by lia. rewrite Hsplit.
      rewrite drop_app_ge by (rewrite !length_app, length_take; lia).
      rewrite !length_app, length_take, drop_drop. f_equal. lia.
  - rewrite some_bind. cbv beta iota. change (Z.to_nat 0) with 0%nat. rewrite drop_0.
    rewrite copy_at_spec by lia. rewrite some_bind. eexists. split; [done|].
    assert (length (msg ++ data) / 64 = n)%nat as Hq.
    { rewrite length_app, Hlm. replace (64 * n + j + length data)%nat with ((j + length data) + n * 64)%nat by lia.
      rewrite Nat.div_add, Nat.div_small; lia. }
    assert (length (msg ++ data) mod 64 = j + length data)%nat as Hr.
    { rewrite length_app, Hlm. replace (64 * n + j + length data)%nat with ((j + length data) + n * 64)%nat by lia.
      rewrite Nat.Div0.mod_add, Nat.mod_small; lia. }
    split; cbn [sha_st count0 count1 sha_buffer]; try done.
    + by apply is_bytes_app.
    + rewrite !length_app, length_take, length_drop. lia.
    + rewrite Hq, Hst, <- (sha_blocks_take n sha_init msg (64 * n)),
        <- (sha_blocks_take n sha_init (msg ++ data) (64 * n)) by lia.
      by rewrite take_app_le by lia.
    + rewrite Hr, Hq, Hrest. rewrite app_assoc, take_app_le by (rewrite length_app, length_drop; lia).
      rewrite take_ge by (rewrite length_app, length_drop; lia). by rewrite drop_app_le by lia.
Qed.

(** ** The digest *)

Lemma word_bytes_be_eq x : word_bytes_be x = be32 x.
Proof. unfold word_bytes_be, be32. change 255 with 0xff. by rewrite !land_ff. Qed.

Lemma is_bytes_be32 x : is_bytes (be32 x).
Proof. repeat constructor; apply is_u8_u8. Qed.

Lemma count_low_bits ctx msg : sha_rep ctx msg -> count0 ctx .& 504 = 8 * (zlen msg mod 64).
Proof.
  intros Hr. rewrite (sr_count0 _ _ Hr). unfold u32, wrap.
  change (2 ^ 32) with (8 * 2 ^ 29). rewrite Z.mul_mod_distr_l by lia.
  change 504 with (63 << 3). rewrite <- (Z.mul_comm _ 8) at 1. change 8 with (2 ^ 3) at 1.
  rewrite <- Z.shiftl_mul_pow2, <- Z.shiftl_land, land_63, Z.shiftl_mul_pow2 by lia.
  change (2 ^ 29) with (64 * 2 ^ 23). rewrite Z.rem_mul_r by lia.
  rewrite (Z.mul_comm 64), Z_mod_plus_full, Z.mod_mod by lia. lia.
Qed.

Lemma pad_loop_spec k fuel ctx msg :
  sha_rep ctx msg -> Z.of_nat k = (56 - zlen msg) mod 64 -> (k <= fuel)%nat ->
  exists ctx', pad_loop fuel ctx = Some ctx' /\ sha_rep ctx' (msg ++ replicate k 0).
Proof.
  revert fuel ctx msg. induction k as [|k IH]; intros fuel ctx msg Hr Hk Hf.
  - exists ctx. rewrite app_nil_r. split; [|done].
    assert (zlen msg mod 64 = 56) as Hm.
    { pose proof (Z.mod_pos_bound (zlen msg) 64). pose proof (Z.div_mod (zlen msg) 64).
      pose proof (Z.div_mod (56 - zlen msg) 64). lia. }
    destruct fuel; cbn [pad_loop]; by rewrite (count_low_bits _ _ Hr), Hm.
  - destruct fuel as [|fuel]; [lia|]. cbn [pad_loop]. rewrite (count_low_bits _ _ Hr).
    destruct (Z.eqb_spec (8 * (zlen msg mod 64)) 448) as [He|_]; cbn [negb].
    { pose proof (Z.div_mod (zlen msg) 64).
      replace (56 - zlen msg) with (0 + (- (zlen msg / 64)) * 64) in Hk by lia.
      rewrite Z_mod_plus_full, Z.mod_0_l in Hk by lia. lia. }
    destruct (update_rep ctx msg [0] Hr) as (c1 & -> & Hr1); [by repeat constructor|done|].
    rewrite some_bind.
    destruct (IH fuel c1 (msg ++ [0]) Hr1) as (c2 & -> & Hr2); [|lia|].
    + rewrite zlen_app. change (zlen [0]) with 1.
      pose proof (Z.div_mod (56 - zlen msg) 64). pose proof (Z.mod_pos_bound (56 - zlen msg) 64).
      apply (Z.mod_unique_pos _ _ ((56 - zlen msg) / 64)); lia.
    + exists c2. split; [done|]. rewrite <- app_assoc in Hr2. exact Hr2.
Qed.

Lemma final_rep ctx msg : sha_rep ctx msg -> zlen msg < 2 ^ 61 ->
  sat_SHA1_Final ctx = Some (sha1_ref msg).
Proof.
  intros Hr Hmax. unfold sat_SHA1_Final.
  destruct (update_rep ctx msg [128] Hr) as (c1 & -> & Hr1); [by repeat constructor|done|].
  rewrite some_bind. pose proof (Z.mod_pos_bound (55 - zlen msg) 64 ltac:(lia)) as Hk.
  destruct (pad_loop_spec (Z.to_nat ((55 - zlen msg) mod 64)) 64 c1 (msg ++ [128]) Hr1)
    as (c2 & -> & Hr2); [rewrite zlen_app; change (zlen [128]) with 1|lia|].
  { rewrite Z2Nat.id by lia. f_equal. lia. }
  rewrite some_bind, (sr_count0 _ _ Hr), (sr_count1 _ _ Hr), !word_bytes_be_eq.
  assert (be32 (u32 ((8 * zlen msg) / 2 ^ 32)) ++ be32 (u32 (8 * zlen msg)) = be64 (8 * zlen msg)) as ->.
  { unfold be64. by rewrite shiftr_div by lia. }
  destruct (update_rep c2 _ (be64 (8 * zlen msg)) Hr2) as (c3 & -> & Hr3);
    [apply is_bytes_app; split; apply is_bytes_be32|done|].
  rewrite some_bind, (sr_state _ _ Hr3). rewrite <- !app_assoc. change ([128] ++ ?l) with ([0x80] ++ l).
  fold (sha_pad msg). unfold sha1_ref.
  destruct (sha_blocks (length (sha_pad msg) / 64) sha_init (sha_pad msg)) as [[[[a b] c] d] e].
  cbn [sha_bytes]. by rewrite !word_bytes_be_eq.
Qed.

(** [C35] The incremental digest computes SHA-1: cutting a message into pieces in
    any way and feeding them in turn gives, for pieces below 2^29 bytes, the
    published digest of the whole message, padding and length included, whatever
    the context's memory held before; no access leaves the 64-byte buffer. *)
Theorem sha1_pieces ctx pieces :
  length (sha_buffer ctx) = 64%nat ->
  Forall (fun p => is_bytes p /\ zlen p < 2 ^ 29) pieces -> zlen (concat pieces) < 2 ^ 61 ->
  (c ← foldl (fun c p => c ← c; sat_SHA1_Update c p) (Some (sat_SHA1_Init ctx)) pieces;
   sat_SHA1_Final c) = Some (sha1_ref (concat pieces)).
Proof.
  intros Hl Hp Hmax. assert (forall c msg, sha_rep c msg ->
    exists c', foldl (fun c p => c ← c; sat_SHA1_Update c p) (Some c) pieces = Some c' /\
      sha_rep c' (msg ++ concat pieces)) as Hf.
  { clear Hmax. induction Hp as [|p ps [Hb Hlp] _ IH]; intros c msg Hr; simpl.
    - exists c. by rewrite app_nil_r.
    - destruct (update_rep c msg p Hr Hb Hlp) as (c1 & -> & Hr1).
      destruct (IH c1 _ Hr1) as (c2 & -> & Hr2). exists c2. by rewrite app_assoc. }
  destruct (Hf _ _ (sha_init_rep ctx Hl)) as (c' & -> & Hr). rewrite some_bind.
  by apply final_rep.
Qed.

Definition blank_ctx : SHA1_CTX := MkSha sha_init 7 7 (replicate 64 99).

Lemma sha1_pieces_witness :
  (c ← foldl (fun c p => c ← c; sat_SHA1_Update c p) (Some (sat_SHA1_Init blank_ctx)) [[97]; []; [98; 99]];
   sat_SHA1_Final c) = Some (sha1_ref [97; 98; 99]).
Proof. apply (sha1_pieces blank_ctx [[97]; []; [98; 99]]); [done|by_eval|done]. Defined.

(** The test vector of the source's comment: "abc". *)
Example sha1_abc : sha1_ref [97; 98; 99] =
  [0xA9;0x99;0x3E;0x36;0x47;0x06;0x81;0x6A;0xBA;0x3E;0x25;0x71;0x78;0x50;0xC2;0x6C;0x9C;0xD0;0xD8;0x9D].
Proof. vm_compute. reflexivity. Qed.

(** From 2^29 bytes on, the length is miscounted: the sum is a 32-bit number and
    the bits added a 64-bit one, so the carry is counted twice. *)
Lemma update_miscounts ctx data ctx' :
  count0 ctx = 0 -> count1 ctx = 0 -> zlen data = 2 ^ 29 ->
  sat_SHA1_Update ctx data = Some ctx' -> count0 ctx' = 0 /\ count1 ctx' = 2.
Proof.
  intros H0 H1 Hl. unfold sat_SHA1_Update. rewrite H0, H1, Hl. cbv zeta.
  intros ([[[i j] st] b] & _ & (b' & _ & [= <-])%bind_Some)%bind_Some. done.
Qed.

(** ** The keyed digest *)

Lemma xor_key_eq key x n : is_bytes key -> length key = (4 * n)%nat -> is_u8 x ->
  xor_key key (word32 x x x x) = map (Z.lxor x) key.
Proof.
  intros Hb Hl Hx. revert key Hb Hl. induction n as [|n IH]; intros key Hb Hl; [by destruct key|].
  do 4 (destruct key as [|? key]; [simpl in Hl; lia|]). split_bytes. cbn [xor_key map].
  rewrite IH by (done || (simpl in Hl; lia)). unfold le32. rewrite !Z.shiftr_lxor, !u8_lxor.
  destruct (u8_shiftr_word32 z z0 z1 z2) as (-> & -> & -> & ->); try done.
  destruct (u8_shiftr_word32 x x x x) as (-> & -> & -> & ->); try done.
  by rewrite !(Z.lxor_comm x).
Qed.

Lemma is_bytes_map_lxor x l : is_u8 x -> is_bytes l -> is_bytes (map (Z.lxor x) l).
Proof. intros Hx Hl. induction Hl; constructor; [apply is_u_lxor; done|done]. Qed.

Lemma length_sha1_ref msg : length (sha1_ref msg) = 20%nat /\ is_bytes (sha1_ref msg).
Proof.
  unfold sha1_ref. destruct (sha_blocks _ _ _) as [[[[a b] c] d] e].
  split; [done|]. repeat (apply is_bytes_app; split; [apply is_bytes_be32|]). apply is_bytes_be32.
Qed.

(** The keyed digest is HMAC-SHA1 (RFC 2104): a key longer than a block is
    digested first, the key is filled up with zeros, and the result is the
    digest of the outer key and the digest of the inner key and the text. *)
Theorem hmac_sha1_reference ctx ctx1 ctx2 key text :
  length (sha_buffer ctx) = 64%nat -> length (sha_buffer ctx1) = 64%nat ->
  length (sha_buffer ctx2) = 64%nat ->
  is_bytes key -> is_bytes text -> zlen key < 2 ^ 29 -> zlen text < 2 ^ 29 ->
  lhmac_sha1 ctx ctx1 ctx2 key text = Ret (hmac_ref key text).
Proof.
  intros H0 H1 H2 Hbk Hbt Hlk Hlt. unfold lhmac_sha1, hmac_ref.
  set (k0 := if 64 <? zlen key then sha1_ref key else key).
  assert (is_bytes k0 /\ (length k0 <= 64)%nat) as [Hb0 Hl0].
  { subst k0. destruct (length_sha1_ref key) as [Hl Hb]. unfold zlen.
    destruct (Z.ltb_spec 64 (Z.of_nat (length key))); [by rewrite Hl; split; [|lia]|split; [done|lia]]. }
  change (Z.to_nat BLOCKSIZE) with 64%nat. change BLOCKSIZE with 64.
  assert (copy_at (replicate 64 0) 0 k0 = Some (k0 ++ replicate (64 - length k0) 0)) as Hcopy.
  { change 0 with (Z.of_nat 0) at 2. rewrite copy_at_spec by (rewrite length_replicate; lia).
    rewrite take_0, drop_replicate. done. }
  assert ((if 64 <? zlen key then
     ctx ← sat_SHA1_Update (sat_SHA1_Init ctx) key; digest ← sat_SHA1_Final ctx;
     copy_at (replicate 64 0) 0 digest else copy_at (replicate 64 0) 0 key)
     = Some (k0 ++ replicate (64 - length k0) 0)) as ->.
  { rewrite <- Hcopy. subst k0. destruct (64 <? zlen key); [|done].
    destruct (update_rep _ _ key (sha_init_rep ctx H0) Hbk Hlk) as (c & -> & Hr).
    rewrite some_bind, (final_rep c key); [by rewrite some_bind|exact Hr|lia]. }
  rewrite chk_some, ret_bind. cbv zeta. set (k := k0 ++ replicate (64 - length k0) 0).
  assert (length k = 64%nat) as Hlen by (subst k; rewrite length_app, length_replicate; lia).
  assert (is_bytes k) as Hbb by (apply is_bytes_app; split; [done|by apply Forall_replicate]).
  change (0x5c5c5c5c .^ 0x36363636) with (word32 0x6a 0x6a 0x6a 0x6a).
  change 0x5c5c5c5c with (word32 0x5c 0x5c 0x5c 0x5c).
  rewrite (xor_key_eq k 0x5c 16) by done.
  rewrite (xor_key_eq _ 0x6a 16) by (done || (by apply is_bytes_map_lxor) || (by rewrite length_map)).
  assert (map (Z.lxor 0x6a) (map (Z.lxor 0x5c) k) = map (Z.lxor 0x36) k) as ->.
  { rewrite map_map. apply map_ext. intros z. by rewrite <- Z.lxor_assoc. }
  assert (forall x, zlen (map (Z.lxor x) k) = 64) as Hz by (intros; unfold zlen; by rewrite length_map, Hlen).
  destruct (update_rep _ _ (map (Z.lxor 0x5c) k) (sha_init_rep ctx1 H1)) as (c1 & -> & Hr1);
    [by apply is_bytes_map_lxor|by rewrite Hz|]. rewrite chk_some, ret_bind.
  destruct (update_rep _ _ (map (Z.lxor 0x36) k) (sha_init_rep ctx2 H2)) as (c2 & -> & Hr2);
    [by apply is_bytes_map_lxor|by rewrite Hz|]. rewrite chk_some, ret_bind.
  destruct (update_rep _ _ text Hr2 Hbt Hlt) as (c3 & -> & Hr3). rewrite chk_some, ret_bind.
  rewrite app_nil_l in Hr1, Hr2, Hr3.
  rewrite (final_rep c3 (map (Z.lxor 0x36) k ++ text)) by (done || (rewrite zlen_app, Hz; lia)).
  rewrite chk_some, ret_bind.
  destruct (length_sha1_ref (map (Z.lxor 0x36) k ++ text)) as [Hl2 Hb2].
  destruct (update_rep _ _ (sha1_ref (map (Z.lxor 0x36) k ++ text)) Hr1 Hb2) as (c4 & -> & Hr4);
    [unfold zlen; by rewrite Hl2|]. rewrite chk_some, ret_bind.
  rewrite (final_rep c4 _ Hr4) by (rewrite zlen_app, Hz; unfold zlen; rewrite Hl2; lia).
  by rewrite chk_some, ret_bind.
Qed.

Lemma hmac_sha1_reference_witness :
  lhmac_sha1 blank_ctx blank_ctx blank_ctx [107;101;121] [116;101;120;116] = Ret (hmac_ref [107;101;121] [116;101;120;116]).
Proof. apply (hmac_sha1_reference blank_ctx blank_ctx blank_ctx); (done || by_eval). Defined.
