(* ===== verification/Netpack.v ===== *)
(** Length-prefixed packages: lualib-src/lua-netpack.c.

    A package is its length in two bytes, most significant first, and its data.
    Socket messages bring pieces of the byte stream of a connection, cut anywhere;
    the filter puts packages together: an unfinished one waits in a hash table
    under its connection, finished ones go to a circular queue, except when a
    message completes just one.

    A buffer has one owner at a time, so it is its contents, and freeing one has
    no counterpart; a cell that was not written is [None].  The Lua value that holds the
    queue is [None] before the first use.  [None] as a result is an access out of
    bounds or a failed assert. *)

From S2P Require Import Prelude Ring Bytes.
Local Open Scope Z_scope.


Definition QUEUESIZE : Z := 1024.
Definition HASHSIZE : Z := 4096.

Definition SKYNET_SOCKET_TYPE_DATA : Z := 1.
Definition SKYNET_SOCKET_TYPE_CONNECT : Z := 2.
Definition SKYNET_SOCKET_TYPE_CLOSE : Z := 3.
Definition SKYNET_SOCKET_TYPE_ACCEPT : Z := 4.
Definition SKYNET_SOCKET_TYPE_ERROR : Z := 5.
Definition SKYNET_SOCKET_TYPE_WARNING : Z := 7.

(** [buffer] is NULL in an unfinished package whose length is not known yet. *)
Record netpack := Pack { id : Z; size : Z; buffer : option cells }.
Record uncomplete := Unc { pack : netpack; read : Z; header : Z }.
(** A list of [struct uncomplete] is the list of its nodes. *)
Record queue := Queue {
  cap : Z; head : Z; tail : Z;
  hash : list (list uncomplete);
  queue_ : list (option netpack)
}.

Definition set_hash (h : list (list uncomplete)) (q : queue) : queue :=
  Queue (cap q) (head q) (tail q) h (queue_ q).

(** [buffer += n] stays in the block or just behind it. *)
Definition advance (buf : cells) (n : Z) : option cells :=
  if (0 <=? n) && (n <=? zlen buf) then Some (drop (Z.to_nat n) buf) else None.
Definition byte_at (buf : cells) (i : Z) : option Z := c ← zget buf i; c.

Definition hash_fd (fd : Z) : Z := u32 (Z.shiftr fd 24 + Z.shiftr fd 12 + fd) mod HASHSIZE.

(** The first unfinished package of [fd] in a list, and the list without it. *)
Fixpoint find_list (l : list uncomplete) (fd : Z) : option (uncomplete * list uncomplete) :=
  match l with
  | [] => None
  | uc :: l' => if id (pack uc) =? fd then Some (uc, l')
                else '(r, l2) ← find_list l' fd; Some (r, uc :: l2)
  end.

Definition find_uncomplete (q : option queue) (fd : Z) : option (option uncomplete * option queue) :=
  match q with
  | None => Some (None, None)
  | Some q =>
      l ← zget (hash q) (hash_fd fd);
      match find_list l fd with
      | None => Some (None, Some q)
      | Some (uc, l') => h ← zset (hash q) (hash_fd fd) l'; Some (Some uc, Some (set_hash h q))
      end
  end.

Definition get_queue (q : option queue) : queue :=
  default (Queue QUEUESIZE 0 0 (replicate (Z.to_nat HASHSIZE) []) (replicate (Z.to_nat QUEUESIZE) None)) q.

(** The queue that takes the place of a full one. *)
Definition expand_queue (q : queue) : option queue :=
  nq ← copy_loop (Z.to_nat (cap q)) 0 (head q) (cap q) (queue_ q)
         (replicate (Z.to_nat (QUEUESIZE + cap q)) None);
  Some (Queue (cap q + QUEUESIZE) 0 (cap q) (hash q) nq).

Definition push_data (q : option queue) (fd : Z) (buf : cells) (sz : Z) (clone : bool) : option queue :=
  buf ← (if clone then memcpy (malloc sz) 0 buf sz else Some buf);
  let q := get_queue q in
  np ← zset (queue_ q) (tail q) (Some (Pack fd sz (Some buf)));
  let tl := if cap q <=? tail q + 1 then tail q + 1 - cap q else tail q + 1 in
  let q := Queue (cap q) (head q) tl (hash q) np in
  if head q =? tl then expand_queue q else Some q.

(** [save_uncomplete] with the stores its callers do to the new node. *)
Definition save_uncomplete (q : option queue) (fd : Z) (uc : uncomplete) : option queue :=
  let q := get_queue q in
  l ← zget (hash q) (hash_fd fd);
  h ← zset (hash q) (hash_fd fd) (uc :: l);
  Some (set_hash h q).

Definition read_size (buf : cells) : option Z :=
  b0 ← byte_at buf 0; b1 ← byte_at buf 1; Some (Z.lor (Z.shiftl b0 8) b1).

(** The node for a header of which one byte is there, and for a package of
    [pack_size] bytes of which [sz] are there. *)
Definition save_header (q : option queue) (fd : Z) (buf : cells) : option queue :=
  b ← byte_at buf 0; save_uncomplete q fd (Unc (Pack fd 0 None) (-1) b).
Definition save_part (q : option queue) (fd pack_size : Z) (buf : cells) (sz : Z) : option queue :=
  b ← memcpy (malloc pack_size) 0 buf sz;
  save_uncomplete q fd (Unc (Pack fd pack_size (Some b)) sz 0).

(** Each package takes at least two bytes. *)
Fixpoint push_more (fuel : nat) (q : option queue) (fd : Z) (buf : cells) (sz : Z) : option queue :=
  if sz =? 1 then save_header q fd buf
  else
    pack_size ← read_size buf;
    buf ← advance buf 2;
    let sz := sz - 2 in
    if sz <? pack_size then save_part q fd pack_size buf sz
    else
      q ← push_data q fd buf pack_size true;
      buf ← advance buf pack_size;
      let sz := sz - pack_size in
      if 0 <? sz then match fuel with O => None | S fuel' => push_more fuel' (Some q) fd buf sz end
      else Some q.

Definition close_uncomplete (q : option queue) (fd : Z) : option (option queue) :=
  '(_, q) ← find_uncomplete q fd; Some q.

(** What the filter returns besides the queue. *)
Inductive event :=
  | ENone
  | EData (fd : Z) (buf : cells) (sz : Z)
  | EMore
  | EError (fd : Z) (msg : cells)
  | EOpen (fd : Z) (msg : cells)
  | EClose (fd : Z)
  | EWarning (fd ud : Z).

(** The second header byte gives the length of a package of which only the first
    was there. *)
Definition fill_header (uc : uncomplete) (buf : cells) (sz : Z) : option (uncomplete * cells * Z) :=
  if read uc <? 0 then
    if read uc =? -1 then
      b ← byte_at buf 0;
      let pack_size := Z.lor b (Z.shiftl (header uc) 8) in
      buf ← advance buf 1;
      Some (Unc (Pack (id (pack uc)) pack_size (Some (malloc pack_size))) 0 (header uc), buf, sz - 1)
    else None
  else Some (uc, buf, sz).

Definition filter_data_ (q : option queue) (fd : Z) (buf : cells) (sz : Z) : option (event * option queue) :=
  '(uc, q) ← find_uncomplete q fd;
  match uc with
  | Some uc =>
      '(uc, buf, sz) ← fill_header uc buf sz;
      dst ← buffer (pack uc);
      let need := size (pack uc) - read uc in
      if sz <? need then
        dst ← memcpy dst (read uc) buf sz;
        q ← q;
        l ← zget (hash q) (hash_fd fd);
        h ← zset (hash q) (hash_fd fd) (Unc (Pack (id (pack uc)) (size (pack uc)) (Some dst)) (read uc + sz) (header uc) :: l);
        Some (ENone, Some (set_hash h q))
      else
        dst ← memcpy dst (read uc) buf need;
        buf ← advance buf need;
        let sz := sz - need in
        if sz =? 0 then Some (EData fd dst (size (pack uc)), q)
        else
          q ← push_data q fd dst (size (pack uc)) false;
          q ← push_more (Z.to_nat sz) (Some q) fd buf sz;
          Some (EMore, Some q)
  | None =>
      if sz =? 1 then q ← save_header q fd buf; Some (ENone, Some q)
      else
        pack_size ← read_size buf;
        buf ← advance buf 2;
        let sz := sz - 2 in
        if sz <? pack_size then q ← save_part q fd pack_size buf sz; Some (ENone, Some q)
        else if sz =? pack_size then
          result ← memcpy (malloc pack_size) 0 buf sz;
          Some (EData fd result sz, q)
        else
          q ← push_data q fd buf pack_size true;
          buf ← advance buf pack_size;
          let sz := sz - pack_size in
          q ← push_more (Z.to_nat sz) (Some q) fd buf sz;
          Some (EMore, Some q)
  end.

(** A socket message: its buffer, or NULL and the bytes that follow the struct. *)
Record skynet_socket_message := SMsg {
  sm_type : Z; sm_id : Z; sm_ud : Z; sm_buffer : option cells; sm_padding : cells
}.

Definition lfilter (q : option queue) (m : skynet_socket_message) : option (event * option queue) :=
  let padding := match sm_buffer m with None => Some (sm_padding m) | Some _ => None end in
  if sm_type m =? SKYNET_SOCKET_TYPE_DATA then buf ← sm_buffer m; filter_data_ q (sm_id m) buf (sm_ud m)
  else if sm_type m =? SKYNET_SOCKET_TYPE_CONNECT then Some (ENone, q)
  else if sm_type m =? SKYNET_SOCKET_TYPE_CLOSE then
    q ← close_uncomplete q (sm_id m); Some (EClose (sm_id m), q)
  else if sm_type m =? SKYNET_SOCKET_TYPE_ACCEPT then msg ← padding; Some (EOpen (sm_ud m) msg, q)
  else if sm_type m =? SKYNET_SOCKET_TYPE_ERROR then
    q ← close_uncomplete q (sm_id m); msg ← padding; Some (EError (sm_id m) msg, q)
  else if sm_type m =? SKYNET_SOCKET_TYPE_WARNING then Some (EWarning (sm_id m) (sm_ud m), q)
  else Some (ENone, q).

Definition lpop (q : option queue) : option (option netpack * option queue) :=
  match q with
  | None => Some (None, None)
  | Some q =>
      if head q =? tail q then Some (None, Some q)
      else
        np ← zget (queue_ q) (head q); np ← np;
        let hd := if cap q <=? head q + 1 then 0 else head q + 1 in
        Some (Some np, Some (Queue (cap q) hd (tail q) (hash q) (queue_ q)))
  end.

(** Reads every queued package to free its buffer. *)
Fixpoint clear_loop (n : nat) (i : Z) (q : queue) : option unit :=
  match n with
  | O => Some tt
  | S n' => np ← zget (queue_ q) (Z.rem i (cap q)); _ ← np; clear_loop n' (i + 1) q
  end.
Definition lclear (q : option queue) : option (option queue) :=
  match q with
  | None => Some None
  | Some q =>
      let tl := if tail q <? head q then tail q + cap q else tail q in
      _ ← clear_loop (Z.to_nat (tl - head q)) (head q) q;
      Some (Some (Queue (cap q) 0 0 (replicate (Z.to_nat HASHSIZE) []) (queue_ q)))
  end.

Definition write_size (len : Z) : cells := [Some (Z.land (Z.shiftr len 8) 255); Some (Z.land len 255)].
Definition lpack (ptr : list Z) : outcome cells :=
  if 0x10000 <=? zlen ptr then Raise "Invalid size (too long) of data : %d"
  else Ret (write_size (zlen ptr) ++ (Some <$> ptr)).
Definition ltostring (ptr : option cells) (sz : Z) : option (list Z) :=
  match ptr with
  | None => Some []
  | Some b => if (0 <=? sz) && (sz <=? zlen b) then mapM (fun c => c) (take (Z.to_nat sz) b) else None
  end.

(** ** The contract: cutting a byte stream *)

(** The packages at the front of a byte stream, and what is left of it. *)
Fixpoint cut_fuel (n : nat) (bs : list Z) : list (list Z) * list Z :=
  match n, bs with
  | S n', hi :: lo :: rest =>
      let len := hi * 256 + lo in
      if len <=? zlen rest then
        let '(ps, rem) := cut_fuel n' (drop (Z.to_nat len) rest) in (take (Z.to_nat len) rest :: ps, rem)
      else ([], bs)
  | _, _ => ([], bs)
  end.
Definition cut (bs : list Z) : list (list Z) * list Z := cut_fuel (length bs) bs.

(** The unfinished part of each connection's stream, and the queued packages. *)
Record spec := Spec { pend : gmap Z (list Z); ready : list (Z * list Z) }.
Definition pending (s : spec) (fd : Z) : list Z := default [] (pend s !! fd).
Definition set_pending (fd : Z) (bs : list Z) (m : gmap Z (list Z)) : gmap Z (list Z) :=
  match bs with [] => delete fd m | _ => <[fd := bs]> m end.

Definition spec_data (fd : Z) (d : list Z) (s : spec) : event * spec :=
  let '(ps, rem) := cut (pending s fd ++ d) in
  let pend' := set_pending fd rem (pend s) in
  match ps, rem with
  | [], _ => (ENone, Spec pend' (ready s))
  | [p], [] => (EData fd (Some <$> p) (zlen p), Spec pend' (ready s))
  | _, _ => (EMore, Spec pend' (ready s ++ ((fun p => (fd, p)) <$> ps)))
  end.

Lemma cut_fuel_enough n : forall bs m, (length bs <= n)%nat -> (length bs <= m)%nat -> cut_fuel n bs = cut_fuel m bs.
Proof.
  induction n as [|n IH]; intros bs m Hn Hm; destruct bs as [|hi [|lo rest]]; simpl in Hn; try lia;
    (destruct m as [|m]; simpl in Hm; try lia; simpl; try done).
  destruct (_ <=? _); [|done]. rewrite (IH _ m); [done|rewrite length_drop; lia..].
Qed.

Lemma cut_fuel_cons n hi lo rest :
  cut_fuel (S n) (hi :: lo :: rest) =
    if hi * 256 + lo <=? zlen rest then
      let '(ps, rem) := cut_fuel n (drop (Z.to_nat (hi * 256 + lo)) rest) in
      (take (Z.to_nat (hi * 256 + lo)) rest :: ps, rem)
    else ([], hi :: lo :: rest).
Proof. done. Qed.

Lemma cut_package hi lo rest :
  0 <= hi * 256 + lo <= zlen rest ->
  cut (hi :: lo :: rest) =
    (take (Z.to_nat (hi * 256 + lo)) rest :: (cut (drop (Z.to_nat (hi * 256 + lo)) rest)).1,
     (cut (drop (Z.to_nat (hi * 256 + lo)) rest)).2).
Proof.
  intros Hn. unfold cut at 1. cbn [length]. rewrite cut_fuel_cons. destruct (Z.leb_spec (hi * 256 + lo) (zlen rest)); [|lia].
  rewrite (cut_fuel_enough _ _ (length (drop (Z.to_nat (hi * 256 + lo)) rest))) by (rewrite ?length_drop; lia).
  unfold cut. by destruct (cut_fuel _ _).
Qed.

Lemma cut_part hi lo rest : zlen rest < hi * 256 + lo -> cut (hi :: lo :: rest) = ([], hi :: lo :: rest).
Proof. intros Hn. unfold cut. cbn [length]. rewrite cut_fuel_cons. destruct (Z.leb_spec (hi * 256 + lo) (zlen rest)); [lia|done]. Qed.

(** ** What the queue stands for *)

(** [data] is what is there of a package with the header [hi], [lo]. *)
Definition part (uc : uncomplete) (hi lo : Z) (data : list Z) : Prop :=
  size (pack uc) = hi * 256 + lo /\ read uc = zlen data /\
  exists rest, buffer (pack uc) = Some ((Some <$> data) ++ rest) /\ zlen data + zlen rest = hi * 256 + lo.

Definition unc_rep (uc : uncomplete) (bs : list Z) : Prop :=
  is_bytes bs /\
  match bs with
  | [] => False
  | [b] => read uc = -1 /\ header uc = b
  | hi :: lo :: data => part uc hi lo data /\ zlen data < hi * 256 + lo
  end.

Definition fds (l : list uncomplete) : list Z := (id ∘ pack) <$> l.
Definition waiting (h : list (list uncomplete)) (fd : Z) : option uncomplete :=
  l ← zget h (hash_fd fd); fst <$> find_list l fd.

Record hash_rep (h : list (list uncomplete)) (m : gmap Z (list Z)) : Prop := {
  hr_len : zlen h = HASHSIZE;
  hr_fds : forall i l, zget h i = Some l -> NoDup (fds l);
  hr_pend : forall fd, option_Forall2 unc_rep (waiting h fd) (m !! fd)
}.

Definition entry (p : Z * list Z) : netpack := Pack p.1 (zlen p.2) (Some (Some <$> p.2)).

Record queue_rep (q : queue) (s : spec) : Prop := {
  qr_ring : ring_rep (cap q) (head q) (queue_ q) (entry <$> ready s);
  qr_tail : tail q = (head q + zlen (ready s)) mod cap q;
  qr_room : zlen (ready s) < cap q;
  qr_hash : hash_rep (hash q) (pend s)
}.

Definition rep (q : option queue) (s : spec) : Prop := queue_rep (get_queue q) s.

Lemma hash_fd_range fd : 0 <= hash_fd fd < HASHSIZE.
Proof. apply Z.mod_pos_bound. done. Qed.

Lemma find_list_spec l fd :
  NoDup (fds l) ->
  match find_list l fd with
  | None => fd ∉ fds l
  | Some (uc, l') => id (pack uc) = fd /\ NoDup (fds l') /\ (fd ∉ fds l') /\
      (forall d, d <> fd -> (fst <$> find_list l' d) = (fst <$> find_list l d)) /\ (forall d, d ∈ fds l' -> d ∈ fds l)
  end.
Proof.
  induction l as [|uc l IH]; simpl; [set_solver|]. intros Hnd. apply NoDup_cons in Hnd as [Hni Hnd].
  destruct (Z.eqb_spec (id (pack uc)) fd) as [<-|Hne].
  - split; [done|]. split; [done|]. split; [done|]. split; [|intros d Hd; by right].
    intros d Hd. destruct (Z.eqb_spec (id (pack uc)) d); [congruence|]. destruct (find_list l d) as [[]|]; done.
  - specialize (IH Hnd). destruct (find_list l fd) as [[r l2]|]; simpl.
    + destruct IH as (Hr & Hnd2 & Hni2 & Hoth & Hsub). split; [done|]. split; [apply NoDup_cons; split; [auto|done]|].
      split; [set_solver|]. split; [|set_solver]. intros d Hd. simpl.
      destruct (Z.eqb_spec (id (pack uc)) d); [done|]. specialize (Hoth d Hd).
      destruct (find_list l2 d) as [[]|], (find_list l d) as [[]|]; simpl in *; congruence.
    + set_solver.
Qed.

Lemma find_list_none l fd : fd ∉ fds l -> find_list l fd = None.
Proof.
  induction l as [|uc l IH]; simpl; [done|]. intros [Hne Hni]%not_elem_of_cons.
  destruct (Z.eqb_spec (id (pack uc)) fd); [congruence|]. by rewrite IH.
Qed.

(** ** Memory *)

Lemma advance_bytes d n : 0 <= n <= zlen d -> advance (Some <$> d) n = Some (Some <$> drop (Z.to_nat n) d).
Proof.
  intros Hn. unfold advance. rewrite zlen_fmap. destruct (Z.leb_spec 0 n), (Z.leb_spec n (zlen d)); try lia.
  simpl. by rewrite fmap_drop.
Qed.

Lemma read_size_bytes hi lo d : 0 <= hi < 256 -> 0 <= lo < 256 -> read_size (Some <$> hi :: lo :: d) = Some (hi * 256 + lo).
Proof.
  intros Hh Hl. unfold read_size, byte_at. simpl.
  f_equal. rewrite lor_shiftl_add' by (unfold is_u; lia). lia.
Qed.

(** ** The hash table *)

Lemma hash_rep_take h m fd :
  hash_rep h m ->
  exists l h', zget h (hash_fd fd) = Some l /\
    match find_list l fd with
    | None => m !! fd = None
    | Some (uc, l') => zset h (hash_fd fd) l' = Some h' /\ id (pack uc) = fd /\
        (exists bs, m !! fd = Some bs /\ unc_rep uc bs) /\ hash_rep h' (delete fd m)
    end.
Proof.
  intros [Hl Hf Hp]. pose proof (hash_fd_range fd) as Hr.
  destruct (zget_is_Some h (hash_fd fd)) as [l Hg]; [lia|]. exists l.
  pose proof (find_list_spec l fd (Hf _ _ Hg)) as Hs. pose proof (Hp fd) as Hfd.
  unfold waiting in Hfd. rewrite Hg in Hfd. simpl in Hfd.
  destruct (find_list l fd) as [[uc l']|] eqn:E; simpl in Hfd.
  2: { exists h. split; [done|]. by inversion Hfd. }
  destruct Hs as (Hid & Hnd & Hni & Hoth & Hsub). exists (<[Z.to_nat (hash_fd fd) := l']> h).
  split; [done|]. split; [by rewrite zset_eq by lia|]. split; [done|].
  split; [inversion Hfd; subst; eauto|]. split.
  - by rewrite zlen_insert.
  - intros i l2 Hi. destruct (decide (i = hash_fd fd)) as [->|Hne].
    + rewrite zget_insert_eq in Hi by lia. congruence.
    + rewrite zget_insert_ne in Hi by lia. eauto.
  - intros d. destruct (decide (d = fd)) as [->|Hne].
    + rewrite lookup_delete_eq. unfold waiting. rewrite zget_insert_eq by lia. simpl.
      rewrite find_list_none by done. constructor.
    + rewrite lookup_delete_ne by done. specialize (Hp d). unfold waiting in *.
      destruct (decide (hash_fd d = hash_fd fd)) as [Eh|Eh].
      * rewrite Eh in *. rewrite zget_insert_eq by lia. rewrite Hg in Hp. simpl in *. by rewrite Hoth.
      * rewrite zget_insert_ne by lia. done.
Qed.

Lemma hash_rep_put h m fd uc bs :
  hash_rep h m -> m !! fd = None -> id (pack uc) = fd -> unc_rep uc bs ->
  exists l h', zget h (hash_fd fd) = Some l /\ zset h (hash_fd fd) (uc :: l) = Some h' /\
    hash_rep h' (<[fd := bs]> m).
Proof.
  intros [Hl Hf Hp] Hnone Hid Hu. pose proof (hash_fd_range fd) as Hr.
  destruct (zget_is_Some h (hash_fd fd)) as [l Hg]; [lia|]. exists l, (<[Z.to_nat (hash_fd fd) := uc :: l]> h).
  split; [done|]. split; [by rewrite zset_eq by lia|].
  assert (fd ∉ fds l) as Hni.
  { pose proof (find_list_spec l fd (Hf _ _ Hg)) as Hs. pose proof (Hp fd) as Hfd. unfold waiting in Hfd.
    rewrite Hg, Hnone in Hfd. simpl in Hfd. destruct (find_list l fd) as [[]|]; [by inversion Hfd|done]. }
  split.
  - by rewrite zlen_insert.
  - intros i l2 Hi. destruct (decide (i = hash_fd fd)) as [->|Hne].
    + rewrite zget_insert_eq in Hi by lia. injection Hi as <-. simpl. rewrite Hid. apply NoDup_cons. eauto.
    + rewrite zget_insert_ne in Hi by lia. eauto.
  - intros d. unfold waiting. destruct (decide (hash_fd d = hash_fd fd)) as [Eh|Eh].
    + rewrite Eh, zget_insert_eq by lia. simpl. destruct (Z.eqb_spec (id (pack uc)) d) as [E|E].
      * replace d with fd by congruence. rewrite lookup_insert_eq. simpl. by constructor.
      * rewrite lookup_insert_ne by congruence. specialize (Hp d). unfold waiting in Hp. rewrite Eh, Hg in Hp. simpl in Hp.
        destruct (find_list l d) as [[]|]; done.
    + rewrite zget_insert_ne by lia. rewrite lookup_insert_ne by congruence. apply Hp.
Qed.

Lemma find_uncomplete_spec q s fd :
  rep q s ->
  match pend s !! fd with
  | None => find_uncomplete q fd = Some (None, q)
  | Some bs => exists uc q', find_uncomplete q fd = Some (Some uc, Some q') /\ id (pack uc) = fd /\ unc_rep uc bs /\
      queue_rep q' (Spec (delete fd (pend s)) (ready s))
  end.
Proof.
  intros Hr. pose proof (qr_hash _ _ Hr) as Hh. destruct (hash_rep_take _ _ fd Hh) as (l & h' & Hg & Hcase).
  destruct q as [q|].
  - unfold rep in Hr. change (get_queue (Some q)) with q in *. unfold find_uncomplete. rewrite Hg, some_bind.
    destruct (find_list l fd) as [[uc l']|].
    + destruct Hcase as (Hz & Hid & (bs & -> & Hu) & Hrep). rewrite Hz, some_bind. eexists _, _. split; [done|].
      split; [done|]. split; [done|]. destruct Hr. by split.
    + by rewrite Hcase.
  - assert (find_list l fd = None) as E.
    { change (hash (get_queue None)) with (replicate (Z.to_nat HASHSIZE) (@nil uncomplete)) in Hg.
      rewrite zget_replicate in Hg by exact (hash_fd_range fd). by injection Hg as <-. }
    rewrite E in Hcase. by rewrite Hcase.
Qed.

Lemma save_uncomplete_spec q s fd uc bs :
  rep q s -> pend s !! fd = None -> id (pack uc) = fd -> unc_rep uc bs ->
  exists q', save_uncomplete q fd uc = Some q' /\ queue_rep q' (Spec (<[fd := bs]> (pend s)) (ready s)).
Proof.
  intros Hr Hn Hid Hu. destruct (hash_rep_put _ _ fd uc bs (qr_hash _ _ Hr) Hn Hid Hu) as (l & h' & Hg & Hz & Hrep).
  unfold save_uncomplete. rewrite Hg, some_bind, Hz, some_bind. eexists. split; [done|]. destruct Hr. by split.
Qed.

(** ** The queue of packages *)

Lemma queue_expanded q xs :
  ring_rep (cap q) (head q) (queue_ q) xs -> zlen xs = cap q ->
  exists nq, expand_queue q = Some (Queue (cap q + QUEUESIZE) 0 (cap q) (hash q) nq) /\
    ring_rep (cap q + QUEUESIZE) 0 nq xs.
Proof.
  intros Hr Hfull. pose proof Hr as (Hlen & Hhd & _ & _). unfold expand_queue.
  set (new := replicate (Z.to_nat (QUEUESIZE + cap q)) None).
  assert (zlen new = QUEUESIZE + cap q) as Hnew by (unfold new; rewrite zlen_replicate; unfold QUEUESIZE; lia).
  destruct (copy_loop_spec (Z.to_nat (cap q)) 0 (head q) (cap q) (queue_ q) new)
    as (nq & Hcp & Hl & Hget & _); [lia|done|lia|lia|rewrite Hnew; unfold QUEUESIZE; lia|].
  rewrite Hcp, some_bind. exists nq. split; [done|].
  apply (ring_rep_copy (cap q) (head q) (queue_ q)); [done|lia|unfold QUEUESIZE; lia|].
  intros i Hi. apply Hget. lia.
Qed.

Lemma wrap_tail cp hd n : 0 <= hd < cp -> 0 <= n < cp ->
  let tl := (hd + n) mod cp in
  (if cp <=? tl + 1 then tl + 1 - cp else tl + 1) = (hd + (n + 1)) mod cp.
Proof.
  intros Hh Hn tl. pose proof (Z.mod_pos_bound (hd + n) cp ltac:(lia)) as Hb. unfold tl in *.
  rewrite Z.add_assoc, <- (Z.add_mod_idemp_l (hd + n)) by lia.
  destruct (Z.leb_spec cp ((hd + n) mod cp + 1)).
  - replace ((hd + n) mod cp + 1) with cp by lia. rewrite Z.mod_same; lia.
  - rewrite (Z.mod_small (_ mod _ + 1)); lia.
Qed.

Lemma push_data_spec q s fd buf p sz (clone : bool) :
  rep q s -> (if clone then memcpy (malloc sz) 0 buf sz else Some buf) = Some (Some <$> p) -> sz = zlen p ->
  exists q', push_data q fd buf sz clone = Some q' /\ queue_rep q' (Spec (pend s) (ready s ++ [(fd, p)])).
Proof.
  intros Hr Hb ->. unfold push_data. rewrite Hb, some_bind. unfold rep in Hr.
  cbv zeta. set (q0 := get_queue q) in *. destruct Hr as [Hring Htail Hroom Hhash].
  pose proof Hring as (Hlen & Hhd & _ & _). pose proof (zlen_nonneg (ready s)) as Hnn.
  assert (zlen (entry <$> ready s) = zlen (ready s)) as Hzl by apply zlen_fmap.
  destruct (ring_push_in_bounds _ _ _ _ (Pack fd (zlen p) (Some (Some <$> p))) Hring) as [np Hnp].
  rewrite Hzl, <- Htail in Hnp. rewrite Hnp, some_bind.
  pose proof (ring_rep_push (cap q0) (head q0) (queue_ q0) _ (entry (fd, p)) np Hring ltac:(lia)) as Hring'.
  rewrite Hzl, <- Htail in Hring'. specialize (Hring' Hnp).
  change (Pack fd (zlen p) (Some (Some <$> p))) with (entry (fd, p)) in Hring'.
  assert ((entry <$> ready s) ++ [entry (fd, p)] = entry <$> (ready s ++ [(fd, p)])) as E by (by rewrite fmap_app).
  rewrite E in Hring'. rewrite Htail.
  rewrite (wrap_tail (cap q0) (head q0) (zlen (ready s)) Hhd ltac:(lia)). cbv zeta.
  set (tl := (head q0 + (zlen (ready s) + 1)) mod cap q0).
  assert (zlen (ready s ++ [(fd, p)]) = zlen (ready s) + 1) as Hl' by (rewrite zlen_app; done).
  cbn [cap head tail hash queue_]. destruct (Z.eqb_spec (head q0) tl) as [Et|Et].
  - assert (zlen (ready s) + 1 = cap q0) as Hfull.
    { unfold tl in Et. destruct (Z.lt_ge_cases (zlen (ready s) + 1) (cap q0)); [|lia].
      assert (0 = zlen (ready s) + 1); [|lia]. apply (ring_pos_inj (cap q0) (head q0)); [lia..|].
      rewrite Z.add_0_r, (Z.mod_small (head q0)) by lia. congruence. }
    edestruct (queue_expanded (Queue (cap q0) (head q0) tl (hash q0) np)) as (nq & Hex & Hr'); [exact Hring'| |].
    { simpl. by rewrite zlen_fmap, Hl'. }
    rewrite Hex. eexists. split; [reflexivity|]. split; cbn [cap head tail queue_ hash ready pend].
    + exact Hr'.
    + rewrite Hl', Hfull, Z.add_0_l, Z.mod_small; [done|unfold QUEUESIZE; lia].
    + unfold QUEUESIZE. lia.
    + done.
  - eexists. split; [done|]. split; simpl; [done|unfold tl; by rewrite Hl'| |done].
    destruct (Z.lt_ge_cases (zlen (ready s) + 1) (cap q0)); [lia|].
    exfalso. apply Et. unfold tl. replace (zlen (ready s) + 1) with (cap q0) by lia.
    rewrite <- Z.add_mod_idemp_r, Z.mod_same, Z.add_0_r, Z.mod_small; lia.
Qed.

(** ** Putting packages together *)


(** ** Putting packages together *)

Lemma cut_nil : cut [] = ([], []).
Proof. done. Qed.
Lemma cut_one b : cut [b] = ([], [b]).
Proof. done. Qed.

Lemma is_bytes_header hi lo d : is_bytes (hi :: lo :: d) -> 0 <= hi < 256 /\ 0 <= lo < 256 /\ is_bytes d.
Proof. unfold is_bytes. rewrite !Forall_cons. intros (Hh & Hl & Hd). unfold is_u in *. simpl in *. lia || done. Qed.

Lemma set_pending_some fd bs m : bs <> [] -> set_pending fd bs m = <[fd := bs]> m.
Proof. by destruct bs. Qed.

Lemma save_header_spec q s fd b :
  rep q s -> pend s !! fd = None -> is_bytes [b] ->
  exists q', save_header q fd (Some <$> [b]) = Some q' /\ queue_rep q' (Spec (<[fd := [b]]> (pend s)) (ready s)).
Proof.
  intros Hr Hn Hb. unfold save_header. change (byte_at (Some <$> [b]) 0) with (Some b). rewrite some_bind.
  apply save_uncomplete_spec; done.
Qed.

Lemma save_part_spec q s fd hi lo d :
  rep q s -> pend s !! fd = None -> is_bytes (hi :: lo :: d) -> zlen d < hi * 256 + lo ->
  exists q', save_part q fd (hi * 256 + lo) (Some <$> d) (zlen d) = Some q' /\
    queue_rep q' (Spec (<[fd := hi :: lo :: d]> (pend s)) (ready s)).
Proof.
  intros Hr Hn Hb Hlt. unfold save_part. pose proof (zlen_nonneg d).
  pose proof (memcpy_fill [] (malloc (hi * 256 + lo)) d (zlen d) ltac:(lia)) as Hm.
  change (zlen (@nil Z)) with 0 in Hm. change ((Some <$> []) ++ malloc (hi * 256 + lo)) with (malloc (hi * 256 + lo)) in Hm.
  assert (zlen (malloc (hi * 256 + lo)) = hi * 256 + lo) as Hl by (unfold malloc; rewrite zlen_replicate; lia).
  rewrite Hm, some_bind by lia. apply save_uncomplete_spec; [done|done|done|].
  split; [done|]. split; [|done]. split; [done|]. split; [done|]. simpl.
  rewrite take_ge by (unfold zlen; lia). eexists. split; [done|]. rewrite zlen_drop by lia. lia.
Qed.

Lemma push_more_spec fuel : forall q s fd d,
  rep q s -> pend s !! fd = None -> is_bytes d -> d <> [] -> (length d <= S fuel)%nat ->
  exists q', push_more fuel q fd (Some <$> d) (zlen d) = Some q' /\
    queue_rep q' (Spec (set_pending fd (cut d).2 (pend s)) (ready s ++ ((fun p => (fd, p)) <$> (cut d).1))).
Proof.
  induction fuel as [|fuel IH]; intros q s fd d Hr Hn Hb Hne Hf;
    (destruct d as [|hi [|lo d]]; [done| |]).
  1,3: destruct (save_header_spec q s fd hi Hr Hn Hb) as (q' & Hrun & Hr'); exists q'; split; [exact Hrun|];
    rewrite cut_one; simpl; by rewrite app_nil_r.
  { simpl in Hf. lia. }
  destruct (is_bytes_header _ _ _ Hb) as (Hh & Hl & Hd). pose proof (zlen_nonneg d) as Hnn.
  cbn [push_more]. rewrite !zlen_cons. destruct (Z.eqb_spec (1 + (1 + zlen d)) 1); [lia|].
  rewrite read_size_bytes, some_bind by done. cbv zeta.
  rewrite (advance_bytes (hi :: lo :: d) 2) by (rewrite !zlen_cons; lia). rewrite some_bind.
  change (drop (Z.to_nat 2) (hi :: lo :: d)) with d. replace (1 + (1 + zlen d) - 2) with (zlen d) by lia.
  destruct (Z.ltb_spec (zlen d) (hi * 256 + lo)) as [Hlt|Hge].
  - rewrite cut_part by done. rewrite set_pending_some by done. simpl. rewrite app_nil_r. by apply save_part_spec.
  - set (pk := hi * 256 + lo) in *. rewrite cut_package by (subst pk; lia). fold pk. cbn [fst snd fmap list_fmap].
    destruct (push_data_spec q s fd (Some <$> d) (take (Z.to_nat pk) d) pk true Hr) as (q1 & Hrun1 & Hr1).
    { apply memcpy_malloc. lia. }
    { rewrite zlen_take; lia. }
    rewrite Hrun1, some_bind, advance_bytes, some_bind by lia.
    set (d' := drop (Z.to_nat pk) d). assert (zlen d - pk = zlen d') as Hl' by (unfold d'; rewrite zlen_drop; lia).
    rewrite Hl'. destruct (Z.ltb_spec 0 (zlen d')) as [Hpos|Hz].
    + destruct (IH (Some q1) _ fd d' Hr1) as (q2 & Hrun2 & Hr2); [done|by apply is_bytes_drop| | |].
      * intros E. rewrite E in Hpos. done.
      * unfold d'. rewrite length_drop. simpl in Hf. lia.
      * exists q2. split; [exact Hrun2|]. simpl in Hr2. by rewrite <- app_assoc in Hr2.
    + assert (d' = []) as -> by (destruct d'; [done|rewrite zlen_cons in Hz; pose proof (zlen_nonneg d'); lia]).
      exists q1. split; [done|]. rewrite cut_nil. simpl. rewrite delete_id by done. exact Hr1.
Qed.

Lemma set_pending_delete fd bs m : set_pending fd bs (delete fd m) = set_pending fd bs m.
Proof. destruct bs; simpl; [by rewrite delete_delete_eq|by rewrite insert_delete_eq]. Qed.

Lemma cut_nothing bs : cut bs = ([], []) -> bs = [].
Proof.
  destruct bs as [|hi [|lo rest]]; [done|done|]. intros E.
  destruct (Z.lt_ge_cases (zlen rest) (hi * 256 + lo)) as [Hlt|Hge]; [by rewrite cut_part in E|].
  unfold cut in E. cbn [length] in E. rewrite cut_fuel_cons in E. destruct (_ <=? _); [|done].
  by destruct (cut_fuel _ _).
Qed.

(** More than one package, or one and something left, goes to the queue. *)
Lemma spec_data_more fd d s p rest :
  (cut (pending s fd ++ d)) = (p :: (cut rest).1, (cut rest).2) -> rest <> [] ->
  spec_data fd d s = (EMore, Spec (set_pending fd (cut rest).2 (pend s))
                                  (ready s ++ ((fun p => (fd, p)) <$> (p :: (cut rest).1)))).
Proof.
  intros E Hne. unfold spec_data. rewrite E. destruct (cut rest) as [ps rem] eqn:Ec. simpl.
  destruct ps, rem; try done. by apply cut_nothing in Ec.
Qed.

(** A package that was begun, with its whole header known. *)
Lemma filter_part q s fd uc hi lo data d :
  rep (Some q) s -> pend s !! fd = None -> id (pack uc) = fd -> part uc hi lo data ->
  zlen data <= hi * 256 + lo -> is_bytes (hi :: lo :: data ++ d) ->
  let need := size (pack uc) - read uc in
  exists dst, buffer (pack uc) = Some dst /\
  if zlen d <? need then
    exists dst' l h q', memcpy dst (read uc) (Some <$> d) (zlen d) = Some dst' /\ zget (hash q) (hash_fd fd) = Some l /\
      zset (hash q) (hash_fd fd) (Unc (Pack (id (pack uc)) (size (pack uc)) (Some dst')) (read uc + zlen d) (header uc) :: l) = Some h /\
      q' = set_hash h q /\ queue_rep q' (Spec (<[fd := hi :: lo :: data ++ d]> (pend s)) (ready s)) /\
      cut (hi :: lo :: data ++ d) = ([], hi :: lo :: data ++ d)
  else
    exists p rest, memcpy dst (read uc) (Some <$> d) need = Some (Some <$> p) /\ zlen p = size (pack uc) /\
      advance (Some <$> d) need = Some (Some <$> rest) /\ zlen d - need = zlen rest /\ is_bytes rest /\
      (length rest <= length d)%nat /\
      cut (hi :: lo :: data ++ d) = (p :: (cut rest).1, (cut rest).2).
Proof.
  intros Hr Hn Hid (Hsz & Hrd & r & Hbuf & Hlen) Hle Hb need. exists ((Some <$> data) ++ r). split; [done|].
  assert (need = zlen r) as Hneed by (unfold need; lia). pose proof (zlen_nonneg d) as Hd0. pose proof (zlen_nonneg r) as Hr0.
  rewrite Hrd. destruct (Z.ltb_spec (zlen d) need) as [Hlt|Hge].
  - rewrite memcpy_fill by lia. rewrite take_ge by (unfold zlen; lia).
    destruct (hash_rep_put (hash q) (pend s) fd
      (Unc (Pack (id (pack uc)) (size (pack uc)) (Some ((Some <$> data ++ d) ++ drop (Z.to_nat (zlen d)) r))) (zlen data + zlen d) (header uc))
      (hi :: lo :: data ++ d) (qr_hash _ _ Hr) Hn Hid) as (l & h & Hg & Hz & Hrep).
    { split; [done|]. split; [|rewrite zlen_app; lia]. split; [done|]. split; [by rewrite zlen_app|].
      eexists. split; [done|]. rewrite zlen_app, zlen_drop by lia. lia. }
    eexists _, l, h, _. split; [done|]. split; [done|]. split; [done|]. split; [done|].
    split; [by destruct Hr; split|]. apply cut_part. rewrite zlen_app. lia.
  - set (p := data ++ take (Z.to_nat need) d). exists p, (drop (Z.to_nat need) d).
    assert (zlen p = hi * 256 + lo) as Hp by (unfold p; rewrite zlen_app, zlen_take by lia; lia).
    split; [|split; [lia|split; [apply advance_bytes; lia|split; [rewrite zlen_drop; lia|split]]]].
    + rewrite memcpy_fill by lia. rewrite drop_ge by (unfold zlen in *; lia). by rewrite app_nil_r.
    + apply is_bytes_header in Hb as (_ & _ & Hb). apply is_bytes_app in Hb as [_ Hb]. by apply is_bytes_drop.
    + split; [rewrite length_drop; lia|].
      pose proof (zlen_nonneg data). rewrite cut_package by (rewrite zlen_app; lia).
      assert (take (Z.to_nat (hi * 256 + lo)) (data ++ d) = p /\ drop (Z.to_nat (hi * 256 + lo)) (data ++ d) = drop (Z.to_nat need) d) as [-> ->]; [|done].
      unfold p. rewrite take_app, drop_app, take_ge, drop_ge by (unfold zlen in *; lia).
      replace (Z.to_nat (hi * 256 + lo) - length data)%nat with (Z.to_nat need) by (unfold zlen in *; lia). done.
Qed.

Lemma fill_header_spec uc bs d :
  unc_rep uc bs -> is_bytes d -> d <> [] ->
  exists uc' hi lo data d', fill_header uc (Some <$> d) (zlen d) = Some (uc', Some <$> d', zlen d') /\
    id (pack uc') = id (pack uc) /\ part uc' hi lo data /\ zlen data <= hi * 256 + lo /\
    bs ++ d = hi :: lo :: data ++ d' /\ (length d' <= length d)%nat.
Proof.
  intros [Hb Hu] Hd Hne. unfold fill_header. destruct bs as [|hi [|lo data]]; [done| |].
  - destruct Hu as [Hrd Hhd]. rewrite Hrd. change (-1 <? 0) with true. change (-1 =? -1) with true. cbn iota.
    destruct d as [|lo d]; [done|]. change (byte_at (Some <$> lo :: d) 0) with (Some lo). rewrite some_bind. cbv zeta.
    rewrite (advance_bytes (lo :: d) 1) by (rewrite zlen_cons; pose proof (zlen_nonneg d); lia).
    rewrite some_bind. change (drop (Z.to_nat 1) (lo :: d)) with d. rewrite Hhd.
    assert (is_bytes (hi :: lo :: [])) as Hb2.
    { apply Forall_cons in Hb as [H1 _]. apply Forall_cons in Hd as [H2 _]. apply Forall_cons. split; [done|]. by apply Forall_singleton. }
    apply is_bytes_header in Hb2 as (Hh & Hl & _).
    rewrite lor_shiftl_add by (unfold is_u; lia). change (2 ^ 8) with 256. replace (lo + hi * 256) with (hi * 256 + lo) by lia.
    eexists _, hi, lo, [], d. split; [rewrite zlen_cons; do 2 f_equal; lia|]. split; [done|]. split; [|split; [unfold zlen; simpl; lia|split; [done|simpl; lia]]].
    split; [done|]. split; [done|]. exists (malloc (hi * 256 + lo)). split; [done|]. unfold malloc. rewrite zlen_replicate, zlen_nil. lia.
  - destruct Hu as [Hp Hlt]. pose proof Hp as (_ & Hrd & _). pose proof (zlen_nonneg data).
    destruct (Z.ltb_spec (read uc) 0); [lia|]. exists uc, hi, lo, data, d. split; [done|]. split; [done|]. split; [done|].
    split; [lia|]. split; [done|lia].
Qed.

Lemma filter_data_spec q s fd d :
  rep q s -> is_bytes d -> d <> [] ->
  exists q', filter_data_ q fd (Some <$> d) (zlen d) = Some ((spec_data fd d s).1, q') /\ rep q' (spec_data fd d s).2.
Proof.
  intros Hr Hd Hne. unfold filter_data_. pose proof (find_uncomplete_spec q s fd Hr) as Hfind.
  destruct (pend s !! fd) as [bs|] eqn:Hp.
  - destruct Hfind as (uc & q1 & -> & Hid & Hu & Hr1). rewrite some_bind. cbn iota beta.
    assert (pending s fd = bs) as Hpd by (unfold pending; by rewrite Hp).
    destruct (fill_header_spec uc bs d Hu Hd Hne) as (uc1 & hi & lo & data & d1 & -> & Hid1 & Hpart & Hle & Eb & Hl1).
    rewrite some_bind. cbn iota beta.
    assert (is_bytes (hi :: lo :: data ++ d1)) as Hb by (rewrite <- Eb; apply is_bytes_app; split; [apply Hu|done]).
    destruct (filter_part q1 _ fd uc1 hi lo data d1 Hr1) as (dst & Hbuf & Hcase); [apply lookup_delete_eq|congruence|done..|].
    rewrite Hbuf, some_bind. cbv zeta. rewrite <- Eb in Hcase. destruct (_ <? _).
    + destruct Hcase as (dst' & l & h & q' & -> & Hg & Hz & -> & Hr' & Hcut). rewrite !some_bind, Hg, some_bind, Hz, some_bind.
      eexists. unfold spec_data. rewrite Hpd, Hcut. split; [done|]. simpl.
      destruct (bs ++ d) eqn:E; [destruct bs; [by destruct Hu|done]|]. simpl in Hr'. rewrite insert_delete_eq in Hr'. done.
    + destruct Hcase as (p & rest & Hm & Hlp & -> & Hlr & Hbr & Hlr2 & Hcut). rewrite Hm, some_bind, some_bind, Hlr.
      destruct (Z.eqb_spec (zlen rest) 0) as [Hz|Hz].
      * assert (rest = []) as -> by (destruct rest; [done|rewrite zlen_cons in Hz; pose proof (zlen_nonneg rest); lia]).
        rewrite cut_nil in Hcut. eexists. unfold spec_data. rewrite Hpd, Hcut. simpl. split; [by rewrite Hlp|]. exact Hr1.
      * assert (rest <> []) as Hrne by (intros ->; done).
        destruct (push_data_spec (Some q1) (Spec (delete fd (pend s)) (ready s)) fd (Some <$> p) p (size (pack uc1)) false Hr1 eq_refl)
          as (q2 & -> & Hr2); [done|]. rewrite some_bind.
        destruct (push_more_spec (Z.to_nat (zlen rest)) (Some q2) _ fd rest Hr2) as (q3 & -> & Hr3);
          [apply lookup_delete_eq|done|done|unfold zlen; lia|]. rewrite some_bind.
        rewrite (spec_data_more fd d s p rest) by (by rewrite ?Hpd). eexists. split; [done|].
        simpl in Hr3. rewrite set_pending_delete, <- app_assoc in Hr3. exact Hr3.
  - rewrite Hfind, some_bind. cbn iota beta.
    assert (pending s fd = []) as Hpd by (unfold pending; by rewrite Hp).
    destruct d as [|hi [|lo d]]; [done| |].
    + destruct (save_header_spec q s fd hi Hr Hp Hd) as (q' & -> & Hr'). simpl. eexists.
      unfold spec_data. rewrite Hpd. simpl. by split.
    + destruct (is_bytes_header _ _ _ Hd) as (Hh & Hl & Hb). pose proof (zlen_nonneg d) as Hnn.
      rewrite !zlen_cons. destruct (Z.eqb_spec (1 + (1 + zlen d)) 1); [lia|].
      rewrite read_size_bytes, some_bind by done. cbv zeta.
      rewrite (advance_bytes (hi :: lo :: d) 2) by (rewrite !zlen_cons; lia). rewrite some_bind.
      change (drop (Z.to_nat 2) (hi :: lo :: d)) with d. replace (1 + (1 + zlen d) - 2) with (zlen d) by lia.
      destruct (Z.ltb_spec (zlen d) (hi * 256 + lo)) as [Hlt|Hge].
      * destruct (save_part_spec q s fd hi lo d Hr Hp Hd Hlt) as (q' & -> & Hr'). simpl. eexists.
        unfold spec_data. rewrite Hpd. cbn [app]. rewrite cut_part by done. by split.
      * set (pk := hi * 256 + lo) in *. pose proof (cut_package hi lo d ltac:(subst pk; lia)) as Hcut. fold pk in Hcut.
        set (p := take (Z.to_nat pk) d) in *. set (rest := drop (Z.to_nat pk) d) in *.
        assert (zlen p = pk) as Hlp by (unfold p; rewrite zlen_take; lia).
        assert (zlen rest = zlen d - pk) as Hlr by (unfold rest; rewrite zlen_drop; lia).
        destruct (Z.eqb_spec (zlen d) pk) as [He|He].
        -- assert (rest = []) as Er by (destruct rest; [done|rewrite zlen_cons in Hlr; pose proof (zlen_nonneg rest); lia]).
           rewrite He, memcpy_malloc by lia. simpl. eexists. unfold spec_data. rewrite Hpd. cbn [app].
           rewrite Hcut, Er, cut_nil. simpl. split; [by rewrite Hlp|]. rewrite delete_id by done. by destruct s.
        -- assert (rest <> []) as Hrne by (intros E; rewrite E in Hlr; change (zlen (@nil Z)) with 0 in Hlr; lia).
           destruct (push_data_spec q s fd (Some <$> d) p pk true Hr) as (q2 & -> & Hr2); [apply memcpy_malloc; lia|done|].
           rewrite some_bind, advance_bytes, some_bind by lia. fold rest.
           rewrite <- Hlr.
           destruct (push_more_spec (Z.to_nat (zlen rest)) (Some q2) _ fd rest Hr2) as (q3 & -> & Hr3);
             [done|by apply is_bytes_drop|done|unfold zlen; lia|]. rewrite some_bind.
           rewrite (spec_data_more fd (hi :: lo :: d) s p rest) by (by rewrite ?Hpd). eexists. split; [done|].
           simpl in Hr3. rewrite <- app_assoc in Hr3. exact Hr3.
Qed.

(** ** Streams *)

Lemma cut_app a b : cut (a ++ b) = ((cut a).1 ++ (cut ((cut a).2 ++ b)).1, (cut ((cut a).2 ++ b)).2).
Proof.
  remember (length a) as k eqn:Ek. revert a Ek. induction (lt_wf k) as [k _ IH]. intros a ->.
  destruct a as [|hi [|lo rest]]; [simpl; by destruct (cut b)|simpl; by destruct (cut _)|].
  destruct (Z.lt_ge_cases (zlen rest) (hi * 256 + lo)) as [Hlt|Hge].
  { rewrite (cut_part hi lo rest) by done. simpl. by destruct (cut _). }
  destruct (Z.lt_ge_cases (hi * 256 + lo) 0) as [Hneg|Hnn].
  { (* a negative length takes nothing *)
    assert (forall l, cut (hi :: lo :: l) = ([] :: (cut l).1, (cut l).2)) as Hcut.
    { intros l. unfold cut at 1. cbn [length]. rewrite cut_fuel_cons. pose proof (zlen_nonneg l).
      destruct (Z.leb_spec (hi * 256 + lo) (zlen l)); [|lia]. replace (Z.to_nat (hi * 256 + lo)) with O by lia.
      rewrite drop_0, take_0, (cut_fuel_enough _ l (length l)) by lia. unfold cut. by destruct (cut_fuel _ _). }
    cbn [app]. rewrite !Hcut. simpl. rewrite (IH (length rest)); [done|simpl; lia|done]. }
  pose proof (cut_package hi lo rest ltac:(lia)) as E1.
  pose proof (cut_package hi lo (rest ++ b) ltac:(rewrite zlen_app; pose proof (zlen_nonneg b); lia)) as E2.
  cbn [app]. rewrite E1, E2. simpl.
  assert (Z.to_nat (hi * 256 + lo) <= length rest)%nat as Hle by (unfold zlen in Hge; lia).
  rewrite take_app_le, drop_app_le by done.
  rewrite (IH (length (drop (Z.to_nat (hi * 256 + lo)) rest))); [done|rewrite length_drop; simpl; lia|done].
Qed.

(** A package on the wire. *)
Definition wire (m : list Z) : list Z := Z.land (Z.shiftr (zlen m) 8) 255 :: Z.land (zlen m) 255 :: m.

Lemma wire_length (m : list Z) : zlen m < 0x10000 -> Z.land (Z.shiftr (zlen m) 8) 255 * 256 + Z.land (zlen m) 255 = zlen m.
Proof.
  intros Hm. pose proof (zlen_nonneg m). change 255 with (Z.ones 8). rewrite !Z.land_ones, Z.shiftr_div_pow2 by lia.
  change (2 ^ 8) with 256. rewrite (Z.mod_small (zlen m / 256)); [pose proof (Z.div_mod (zlen m) 256); lia|].
  split; [by apply Z.div_pos|]. apply Z.div_lt_upper_bound; lia.
Qed.

Lemma cut_wires ms : Forall (fun m : list Z => zlen m < 0x10000) ms -> cut (concat (wire <$> ms)) = (ms, []).
Proof.
  induction 1 as [|m ms Hm _ IH]; [done|]. cbn [fmap list_fmap concat]. unfold wire at 1. cbn [app].
  rewrite cut_package; rewrite wire_length by done.
  2: { rewrite zlen_app. pose proof (zlen_nonneg m). pose proof (zlen_nonneg (concat (wire <$> ms))). lia. }
  unfold zlen. rewrite Nat2Z.id, take_app_length, drop_app_length. by rewrite IH.
Qed.

Lemma lpack_wire m : zlen m < 0x10000 -> lpack m = Ret (Some <$> wire m).
Proof. intros Hm. unfold lpack. destruct (Z.leb_spec 0x10000 (zlen m)); [lia|done]. Qed.

(** ** Operations and their contract *)

Lemma rep_none s : rep None s -> s = Spec ∅ [].
Proof.
  intros [Hring Htail Hroom Hhash]. destruct s as [m r]. f_equal.
  - apply map_eq. intros fd. rewrite lookup_empty. pose proof (hr_pend _ _ Hhash fd) as Hp.
    unfold waiting in Hp. change (hash (get_queue None)) with (replicate (Z.to_nat HASHSIZE) (@nil uncomplete)) in Hp.
    rewrite zget_replicate in Hp by exact (hash_fd_range fd). simpl in Hp. by inversion Hp.
  - change (tail (get_queue None)) with 0 in Htail. change (cap (get_queue None)) with 1024 in Htail, Hroom.
    change (head (get_queue None)) with 0 in Htail. simpl in Htail, Hroom. pose proof (zlen_nonneg r).
    rewrite Z.mod_small in Htail by lia. destruct r; [done|]. rewrite zlen_cons in Htail. pose proof (zlen_nonneg r). lia.
Qed.

Lemma hash_rep_empty : hash_rep (replicate (Z.to_nat HASHSIZE) []) ∅.
Proof.
  split.
  - by rewrite zlen_replicate.
  - intros i l Hi. pose proof (zget_in _ _ _ Hi) as Hr. rewrite zlen_replicate in Hr. rewrite zget_replicate in Hi by lia.
    injection Hi as <-. constructor.
  - intros fd. unfold waiting. rewrite zget_replicate by exact (hash_fd_range fd). rewrite lookup_empty. constructor.
Qed.

Lemma rep_init : rep None (Spec ∅ []).
Proof.
  split; [|done|done|exact hash_rep_empty]. apply ring_rep_nil; [|done].
  change (zlen (replicate (Z.to_nat QUEUESIZE) (@None netpack)) = QUEUESIZE). by rewrite zlen_replicate.
Qed.

Lemma close_spec q s fd : rep q s ->
  exists q', close_uncomplete q fd = Some q' /\ rep q' (Spec (delete fd (pend s)) (ready s)).
Proof.
  intros Hr. unfold close_uncomplete. pose proof (find_uncomplete_spec q s fd Hr) as Hf.
  destruct (pend s !! fd) as [bs|] eqn:Hp.
  - destruct Hf as (uc & q' & -> & _ & _ & Hr'). by eexists.
  - rewrite Hf. simpl. eexists. split; [done|]. rewrite delete_id by done. by destruct s.
Qed.

Lemma lpop_spec q s : rep q s ->
  exists q', lpop q = Some (match ready s with [] => None | x :: _ => Some (entry x) end, q') /\
    rep q' (Spec (pend s) (drop 1 (ready s))).
Proof.
  intros Hr. destruct q as [q|].
  2: { exists None. rewrite (rep_none _ Hr). split; [done|]. apply rep_init. }
  unfold rep in *. change (get_queue (Some q)) with q in *. pose proof Hr as [Hring Htail Hroom Hhash].
  pose proof Hring as (_ & Hhd & _). unfold lpop. destruct s as [m r]; cbn [ready pend] in *.
  destruct r as [|x r].
  - assert (tail q = head q) as -> by (rewrite Htail; unfold zlen; simpl; rewrite Z.add_0_r, Z.mod_small; lia).
    rewrite Z.eqb_refl. eexists. split; [done|]. done.
  - rewrite zlen_cons in Htail, Hroom. pose proof (zlen_nonneg r).
    destruct (Z.eqb_spec (head q) (tail q)) as [E|_].
    { exfalso. assert (0 = 1 + zlen r); [|lia]. apply (ring_pos_inj (cap q) (head q)); [lia..|].
      rewrite Z.add_0_r, (Z.mod_small (head q)) by lia. congruence. }
    rewrite (ring_rep_head _ _ _ _ _ Hring). simpl. eexists. split; [done|].
    assert ((if cap q <=? head q + 1 then 0 else head q + 1) = (head q + 1) mod cap q) as E.
    { destruct (Z.leb_spec (cap q) (head q + 1)).
      - replace (head q + 1) with (cap q) by lia. by rewrite Z.mod_same by lia.
      - by rewrite Z.mod_small by lia. }
    change (get_queue (Some ?x)) with x. rewrite drop_0. split; cbn [cap head tail queue_ hash ready pend]; rewrite ?E.
    + by apply (ring_rep_pop _ _ _ (entry x)).
    + rewrite Htail, Zplus_mod_idemp_l. f_equal. lia.
    + lia.
    + done.
Qed.

Lemma clear_loop_spec n : forall i q xs,
  ring_rep (cap q) (head q) (queue_ q) xs -> 0 <= i -> i + Z.of_nat n <= zlen xs ->
  clear_loop n (head q + i) q = Some tt.
Proof.
  induction n as [|n IH]; intros i q xs Hring Hi Hn; simpl; [done|].
  pose proof Hring as (_ & Hhd & _ & Hget). rewrite Z.rem_mod_nonneg by lia.
  destruct (lookup_lt_is_Some_2 xs (Z.to_nat i)) as [x Hx]; [unfold zlen in Hn; lia|].
  specialize (Hget (Z.to_nat i) x Hx). rewrite Z2Nat.id in Hget by done. rewrite Hget. simpl.
  rewrite <- Z.add_assoc. apply (IH (i + 1) q xs); [done|lia|lia].
Qed.

Lemma lclear_spec q s : rep q s -> exists q', lclear q = Some q' /\ rep q' (Spec ∅ []).
Proof.
  intros Hr. destruct q as [q|].
  2: { exists None. split; [done|apply rep_init]. }
  unfold rep in *. change (get_queue (Some q)) with q in *. destruct Hr as [Hring Htail Hroom Hhash].
  pose proof Hring as (Hlen & Hhd & _). unfold lclear. pose proof (zlen_nonneg (ready s)).
  assert (zlen (entry <$> ready s) = zlen (ready s)) as Hzl by apply zlen_fmap.
  assert ((if tail q <? head q then tail q + cap q else tail q) - head q = zlen (ready s)) as E.
  { rewrite Htail. destruct (Z.lt_ge_cases (head q + zlen (ready s)) (cap q)).
    - rewrite Z.mod_small by lia. destruct (Z.ltb_spec (head q + zlen (ready s)) (head q)); lia.
    - assert ((head q + zlen (ready s)) mod cap q = head q + zlen (ready s) - cap q) as ->
        by (symmetry; apply (Z.mod_unique_pos _ _ 1); lia).
      destruct (Z.ltb_spec (head q + zlen (ready s) - cap q) (head q)); lia. }
  cbv zeta. rewrite E.
  pose proof (clear_loop_spec (Z.to_nat (zlen (ready s))) 0 q _ Hring ltac:(lia) ltac:(lia)) as Hc.
  rewrite Z.add_0_r in Hc. rewrite Hc, some_bind. eexists. split; [done|].
  change (queue_rep (Queue (cap q) 0 0 (replicate (Z.to_nat HASHSIZE) []) (queue_ q)) (Spec ∅ [])).
  split; cbn [cap head tail queue_ hash ready pend].
  - apply ring_rep_nil; [done|lia].
  - simpl. rewrite Z.mod_0_l; lia.
  - unfold zlen. simpl. lia.
  - exact hash_rep_empty.
Qed.

(** What a socket message means, and the message itself. *)
Inductive socket_event :=
  | SData (fd : Z) (d : list Z)
  | SConnect (fd : Z)
  | SClose (fd : Z)
  | SAccept (fd ud : Z) (addr : cells)
  | SError (fd : Z) (msg : cells)
  | SWarning (fd ud : Z).

Definition message_of (e : socket_event) : skynet_socket_message :=
  match e with
  | SData fd d => SMsg SKYNET_SOCKET_TYPE_DATA fd (zlen d) (Some (Some <$> d)) []
  | SConnect fd => SMsg SKYNET_SOCKET_TYPE_CONNECT fd 0 None []
  | SClose fd => SMsg SKYNET_SOCKET_TYPE_CLOSE fd 0 None []
  | SAccept fd ud addr => SMsg SKYNET_SOCKET_TYPE_ACCEPT fd ud None addr
  | SError fd msg => SMsg SKYNET_SOCKET_TYPE_ERROR fd 0 None msg
  | SWarning fd ud => SMsg SKYNET_SOCKET_TYPE_WARNING fd ud None []
  end.

Inductive netop := OFilter (e : socket_event) | OPop | OClear.
Inductive netres := RFilter (e : event) | RPop (p : option netpack) | RClear.

Definition run_op (o : netop) (q : option queue) : option (netres * option queue) :=
  match o with
  | OFilter e => '(r, q') ← lfilter q (message_of e); Some (RFilter r, q')
  | OPop => '(r, q') ← lpop q; Some (RPop r, q')
  | OClear => q' ← lclear q; Some (RClear, q')
  end.

Definition closed (fd : Z) (s : spec) : spec := Spec (delete fd (pend s)) (ready s).

(** The contract asks for data that is there and made of bytes. *)
Definition spec_op (o : netop) (s : spec) : option (netres * spec) :=
  match o with
  | OFilter (SData fd d) =>
      if decide (is_bytes d /\ d <> []) then Some (RFilter (spec_data fd d s).1, (spec_data fd d s).2) else None
  | OFilter (SConnect fd) => Some (RFilter ENone, s)
  | OFilter (SClose fd) => Some (RFilter (EClose fd), closed fd s)
  | OFilter (SAccept fd ud addr) => Some (RFilter (EOpen ud addr), s)
  | OFilter (SError fd msg) => Some (RFilter (EError fd msg), closed fd s)
  | OFilter (SWarning fd ud) => Some (RFilter (EWarning fd ud), s)
  | OPop => Some (RPop (entry <$> hd_error (ready s)), Spec (pend s) (drop 1 (ready s)))
  | OClear => Some (RClear, Spec ∅ [])
  end.

Fixpoint run_ops {S} (step : netop -> S -> option (netres * S)) (os : list netop) (s : S) : option (list netres * S) :=
  match os with
  | [] => Some ([], s)
  | o :: os' => '(r, s1) ← step o s; '(rs, s2) ← run_ops step os' s1; Some (r :: rs, s2)
  end.

Lemma run_op_spec o q s r s' :
  rep q s -> spec_op o s = Some (r, s') -> exists q', run_op o q = Some (r, q') /\ rep q' s'.
Proof.
  intros Hr Ho. destruct o as [e| |]; simpl in Ho.
  - destruct e as [fd d|fd|fd|fd ud addr|fd msg|fd ud]; simpl in Ho; unfold run_op.
    + destruct (decide _) as [[Hb Hd]|]; [|done]. injection Ho as <- <-.
      destruct (filter_data_spec q s fd d Hr Hb Hd) as (q' & Hrun & Hr'). exists q'.
      change (lfilter q (message_of (SData fd d))) with (filter_data_ q fd (Some <$> d) (zlen d)). by rewrite Hrun.
    + injection Ho as <- <-. by exists q.
    + injection Ho as <- <-. destruct (close_spec q s fd Hr) as (q' & Hrun & Hr'). exists q'.
      unfold lfilter. simpl. by rewrite Hrun.
    + injection Ho as <- <-. by exists q.
    + injection Ho as <- <-. destruct (close_spec q s fd Hr) as (q' & Hrun & Hr'). exists q'.
      unfold lfilter. simpl. by rewrite Hrun.
    + injection Ho as <- <-. by exists q.
  - injection Ho as <- <-. destruct (lpop_spec q s Hr) as (q' & Hrun & Hr'). exists q'. simpl. rewrite Hrun. simpl.
    by destruct (ready s).
  - injection Ho as <- <-. destruct (lclear_spec q s Hr) as (q' & Hrun & Hr'). exists q'. simpl. by rewrite Hrun.
Qed.

(** [C32] The package filter refines a map of unfinished streams and a list of packages:
    whatever the sequence of socket messages, pops and clears, whatever the
    connections and wherever the messages cut the stream, the results are
    those of cutting each connection's bytes into packages, in order; the hash
    table and the circular queue, growth included, are never accessed out of bounds. *)
Theorem netpack_refines_streams os q s rs s' :
  rep q s -> run_ops spec_op os s = Some (rs, s') ->
  exists q', run_ops run_op os q = Some (rs, q') /\ rep q' s'.
Proof.
  revert q s rs s'. induction os as [|o os IH]; intros q s rs s' Hr Hrun; simpl in *.
  { injection Hrun as <- <-. by exists q. }
  destruct (spec_op o s) as [[r s1]|] eqn:Ho; [|done]. simpl in Hrun.
  destruct (run_ops spec_op os s1) as [[rs1 s2]|] eqn:Hos; [|done]. injection Hrun as <- <-.
  destruct (run_op_spec o q s r s1 Hr Ho) as (q1 & -> & Hr1). simpl.
  destruct (IH q1 s1 rs1 s2 Hr1 Hos) as (q2 & -> & Hr2). simpl. by exists q2.
Qed.

Lemma netpack_refines_streams_witness :
  exists q', run_ops run_op [OFilter (SData 7 [0; 3; 97]); OFilter (SData 8 [0]); OFilter (SData 7 [98; 99; 0; 1; 100; 0]);
      OPop; OFilter (SData 8 [1; 120]); OPop; OPop; OFilter (SClose 7)] None =
    Some ([RFilter ENone; RFilter ENone; RFilter EMore; RPop (Some (entry (7, [97; 98; 99])));
           RFilter (EData 8 [Some 120] 1); RPop (Some (entry (7, [100]))); RPop None; RFilter (EClose 7)], q') /\
    rep q' (Spec (delete 7 (<[7 := [0]]> (delete 8 (<[8 := [0]]> (<[7 := [0; 3; 97]]> ∅))))) []).
Proof.
  apply (netpack_refines_streams _ None (Spec ∅ [])); [exact rep_init|]. vm_compute. reflexivity.
Defined.

(** ** Receiving a stream *)

(** A message, and the packages it completes: the one it returns, or those that are
    popped until there is none. *)
Fixpoint pop_all (fuel : nat) (q : option queue) : option (list netpack * option queue) :=
  '(r, q1) ← lpop q;
  match r, fuel with
  | None, _ => Some ([], q1)
  | Some p, S fuel' => '(ps, q2) ← pop_all fuel' q1; Some (p :: ps, q2)
  | Some _, O => None
  end.

Definition receive (fd : Z) (d : list Z) (q : option queue) : option (list netpack * option queue) :=
  '(e, q1) ← lfilter q (message_of (SData fd d));
  match e with
  | EData fd buf sz => Some ([Pack fd sz (Some buf)], q1)
  | EMore => pop_all (Z.to_nat (cap (get_queue q1))) q1
  | _ => Some ([], q1)
  end.

Fixpoint receive_all (fd : Z) (ds : list (list Z)) (q : option queue) : option (list netpack * option queue) :=
  match ds with
  | [] => Some ([], q)
  | d :: ds' => '(ps, q1) ← receive fd d q; '(qs, q2) ← receive_all fd ds' q1; Some (ps ++ qs, q2)
  end.

Lemma pop_all_spec fuel q s :
  rep q s -> (length (ready s) <= fuel)%nat ->
  exists q', pop_all fuel q = Some (entry <$> ready s, q') /\ rep q' (Spec (pend s) []).
Proof.
  revert q s. induction fuel as [|fuel IH]; intros q [m r] Hr Hf; simpl in Hf;
    (destruct (lpop_spec q _ Hr) as (q1 & Hrun & Hr1); destruct r as [|x r]; simpl in *; rewrite Hrun; simpl;
     [by exists q1|]); [lia|].
  destruct (IH q1 _ Hr1) as (q2 & -> & Hr2); [simpl; rewrite drop_0; lia|]. simpl. exists q2. by rewrite drop_0.
Qed.

Lemma receive_spec q s fd d :
  rep q s -> ready s = [] -> is_bytes d -> d <> [] ->
  exists q', receive fd d q = Some ((fun p => entry (fd, p)) <$> (cut (pending s fd ++ d)).1, q') /\
    rep q' (Spec (set_pending fd (cut (pending s fd ++ d)).2 (pend s)) []).
Proof.
  intros Hr He Hb Hd. destruct (filter_data_spec q s fd d Hr Hb Hd) as (q1 & Hrun & Hr1). unfold receive.
  change (lfilter q (message_of (SData fd d))) with (filter_data_ q fd (Some <$> d) (zlen d)). rewrite Hrun, some_bind.
  unfold spec_data in *. destruct (cut (pending s fd ++ d)) as [ps rem]. cbn [fst snd].
  assert (forall m, rep q1 (Spec m (ready s ++ ((fun p => (fd, p)) <$> ps))) ->
    exists q', pop_all (Z.to_nat (cap (get_queue q1))) q1 = Some ((fun p => entry (fd, p)) <$> ps, q') /\ rep q' (Spec m [])) as Hpop.
  { intros m Hr2. rewrite He in Hr2. pose proof (qr_room _ _ Hr2) as Hroom. simpl in Hroom.
    destruct (pop_all_spec (Z.to_nat (cap (get_queue q1))) q1 _ Hr2) as (q2 & -> & Hr3);
      [cbn [ready app]; unfold zlen in Hroom; lia|].
    exists q2. split; [|done]. cbn [ready app]. by rewrite <- list_fmap_compose. }
  destruct ps as [|p [|p2 ps]], rem as [|b rem]; cbn [fst snd] in *; try (by apply Hpop);
    (exists q1; split; [done|]; by rewrite He in Hr1).
Qed.

Lemma cut_rest a : cut (cut a).2 = ([], (cut a).2).
Proof.
  pose proof (cut_app a []) as E. rewrite !app_nil_r in E. 
  destruct (cut a) as [ps rem]. simpl in *. destruct (cut rem) as [ps2 rem2]. simpl in *.
  injection E as E1 E2. subst rem2. f_equal. apply (f_equal length) in E1. rewrite length_app in E1.
  destruct ps2; [done|simpl in E1; lia].
Qed.

Lemma receive_all_spec ds : forall q s fd,
  rep q s -> ready s = [] -> Forall (fun d => is_bytes d /\ d <> []) ds ->
  cut (pending s fd) = ([], pending s fd) ->
  exists q', receive_all fd ds q = Some ((fun p => entry (fd, p)) <$> (cut (pending s fd ++ concat ds)).1, q') /\
    rep q' (Spec (set_pending fd (cut (pending s fd ++ concat ds)).2 (pend s)) []).
Proof.
  induction ds as [|d ds IH]; intros q s fd Hr He Hds Hp; simpl.
  { rewrite app_nil_r, Hp. exists q. split; [done|]. cbn [fst snd]. unfold pending. destruct s as [m r]. cbn [pend ready] in *. subst r.
    destruct (m !! fd) as [bs|] eqn:E; simpl.
    - destruct bs as [|b bs]; [|simpl; by rewrite insert_id].
      pose proof (hr_pend _ _ (qr_hash _ _ Hr) fd) as Hq. cbn [pend] in Hq. rewrite E in Hq. inversion Hq as [? ? Hu Eu1 Eu2|]. by destruct Hu as [_ []].
    - by rewrite delete_id. }
  apply Forall_cons in Hds as [[Hb Hd] Hds].
  destruct (receive_spec q s fd d Hr He Hb Hd) as (q1 & -> & Hr1). rewrite some_bind. cbn iota beta.
  set (s1 := Spec _ []) in *. set (c := cut (pending s fd ++ d)) in *.
  assert (pending s1 fd = c.2) as Hp1.
  { unfold pending, s1. simpl. destruct c.2; simpl; [by rewrite lookup_delete_eq|by rewrite lookup_insert_eq]. }
  assert (cut (pending s1 fd) = ([], pending s1 fd)) as Hc1.
  { rewrite Hp1. apply cut_rest. }
  destruct (IH q1 s1 fd Hr1 eq_refl Hds Hc1) as (q2 & -> & Hr2). rewrite some_bind. cbn iota beta. exists q2.
  rewrite Hp1 in Hr2 |- *. rewrite app_assoc, (cut_app (pending s fd ++ d) (concat ds)). fold c. cbn [fst snd]. rewrite fmap_app.
  split; [reflexivity|].
  simpl in Hr2. assert (forall bs, set_pending fd bs (set_pending fd c.2 (pend s)) = set_pending fd bs (pend s)) as E.
  { intros bs. destruct c.2; simpl; [apply set_pending_delete|]. destruct bs; simpl; [by rewrite delete_insert_eq|by rewrite insert_insert_eq]. }
  by rewrite E in Hr2.
Qed.

(** Streams: messages packed with [pack], joined, and cut anywhere into non-empty
    socket messages come out of the filter as they were, in order and complete,
    with nothing left waiting; [tostring] gives their bytes back; and [pack] refuses
    exactly the messages of 65536 bytes or more. *)
Theorem netpack_stream_roundtrip fd ms ds :
  Forall (fun m => is_bytes m /\ zlen m < 0x10000) ms ->
  Forall (fun d => d <> []) ds -> concat ds = concat (wire <$> ms) ->
  exists q', receive_all fd ds None = Some ((fun m => Pack fd (zlen m) (Some (Some <$> m))) <$> ms, q') /\
    rep q' (Spec ∅ []) /\
    Forall (fun m => lpack m = Ret (Some <$> wire m) /\ ltostring (Some (Some <$> m)) (zlen m) = Some m) ms /\
    forall m, zlen m >= 0x10000 <-> exists e, lpack m = Raise e.
Proof.
  intros Hms Hds E. assert (is_bytes (concat ds)) as Hb.
  { rewrite E. clear E. induction Hms as [|m ms [Hm Hl] _ IH]; [constructor|]. cbn [fmap list_fmap concat].
    apply is_bytes_app. split; [|done]. pose proof (zlen_nonneg m).
    assert (forall x, 0 <= Z.land x 255 < 256) as Hx by (intros x; change 255 with (Z.ones 8); rewrite Z.land_ones by lia; by apply Z.mod_pos_bound).
    unfold wire. repeat (apply is_bytes_cons; split; [unfold is_u; apply Hx|]). done. }
  destruct (receive_all_spec ds None (Spec ∅ []) fd rep_init eq_refl) as (q' & Hrun & Hr').
  - clear E Hms. induction Hds as [|d ds Hd _ IH]; [constructor|]. cbn [concat] in Hb. apply is_bytes_app in Hb as [Hb1 Hb2].
    constructor; [done|by apply IH].
  - done.
  - assert (cut (pending (Spec ∅ []) fd ++ concat ds) = (ms, [])) as Hcut.
    { change (pending (Spec ∅ []) fd) with (@nil Z). rewrite E. apply cut_wires. eapply Forall_impl; [exact Hms|]. by intros m []. }
    rewrite Hcut in Hrun, Hr'. exists q'. split; [exact Hrun|]. split.
    { simpl in Hr'. by rewrite delete_empty in Hr'. }
    split.
    + eapply Forall_impl; [exact Hms|]. intros m [_ Hm]. split; [by apply lpack_wire|]. unfold ltostring.
      rewrite zlen_fmap. pose proof (zlen_nonneg m). rewrite Z.leb_refl. destruct (Z.leb_spec 0 (zlen m)); [|lia]. simpl.
      rewrite take_ge by (rewrite length_fmap; unfold zlen; lia). clear. induction m as [|b m IH]; [done|].
      change (mapM (fun c => c) (Some <$> b :: m)) with (ys ← mapM (fun c => c) (Some <$> m); Some (b :: ys)). by rewrite IH.
    + intros m. unfold lpack. destruct (Z.leb_spec 0x10000 (zlen m)); split; try lia; [eauto|intros [? [=]]].
Qed.

Lemma netpack_stream_roundtrip_witness :
  exists q', receive_all 5 [[0]; [3; 104; 105]; [33; 0; 0; 0]; [2; 1]; [2]] None =
    Some ([Pack 5 3 (Some [Some 104; Some 105; Some 33]); Pack 5 0 (Some []); Pack 5 2 (Some [Some 1; Some 2])], q') /\
    rep q' (Spec ∅ []) /\
    Forall (fun m => lpack m = Ret (Some <$> wire m) /\ ltostring (Some (Some <$> m)) (zlen m) = Some m) [[104; 105; 33]; []; [1; 2]] /\
    forall m, zlen m >= 0x10000 <-> exists e, lpack m = Raise e.
Proof.
  apply (netpack_stream_roundtrip 5 [[104; 105; 33]; []; [1; 2]]).
  - repeat constructor; unfold is_u; vm_compute; try discriminate; split; discriminate || reflexivity.
  - repeat constructor; discriminate.
  - reflexivity.
Defined.
