(* ===== verification/Seri.v ===== *)
(** Serialisation of Lua values: lualib-src/lua-seri.c.

    Packing writes a sequence of Lua values into a chain of blocks of 128 bytes,
    the first of them on the C stack, and [seri] copies the chain into one buffer.
    Unpacking reads the values back from a buffer.

    The Lua virtual machine is seen through the values it hands over.  A table is
    its length and its pairs in the order of [lua_next]; a table whose metatable
    has a [__pairs] field is the pairs that its iterator gives.  What [lua_rawlen]
    and [lua_next] say of a table that was just built depends on the layout of its
    hash part, so it is the class [LuaTables], with the laws of the manual.
    Numbers are 64-bit integers or the bits of a double; words are stored the
    lowest byte first.  [luaL_checkstack] and allocations succeed.  [Raise] is a Lua
    error, [Undef] an access out of bounds. *)

From stdpp Require Import pretty.
From S2P Require Import Prelude Bytes.
Local Open Scope Z_scope.

Definition TYPE_NIL : Z := 0.
Definition TYPE_BOOLEAN : Z := 1.
Definition TYPE_NUMBER : Z := 2.
Definition TYPE_NUMBER_ZERO : Z := 0.
Definition TYPE_NUMBER_BYTE : Z := 1.
Definition TYPE_NUMBER_WORD : Z := 2.
Definition TYPE_NUMBER_DWORD : Z := 4.
Definition TYPE_NUMBER_QWORD : Z := 6.
Definition TYPE_NUMBER_REAL : Z := 8.
Definition TYPE_USERDATA : Z := 3.
Definition TYPE_SHORT_STRING : Z := 4.
Definition TYPE_LONG_STRING : Z := 5.
Definition TYPE_TABLE : Z := 6.
Definition MAX_COOKIE : Z := 32.
Definition COMBINE_TYPE (t v : Z) : Z := Z.lor t (Z.shiftl v 3).
Definition BLOCK_SIZE : Z := 128.
Definition MAX_DEPTH : Z := 32.

(** ** Lua values *)

Inductive lval :=
| VNil
| VBoolean (b : bool)
| VInteger (x : Z)
| VNumber (d : Z)
| VPointer (p : Z)
| VString (s : list Z)
| VTable (n : Z) (kvs : list (lval * lval))
| VPairs (kvs : list (lval * lval))
| VOther (typename : string).

Definition is_nil (v : lval) : bool := match v with VNil => true | _ => false end.

(** [lua_rawgeti]. *)
Fixpoint rawgeti (kvs : list (lval * lval)) (i : Z) : lval :=
  match kvs with
  | [] => VNil
  | (VInteger j, v) :: r => if j =? i then v else rawgeti r i
  | _ :: r => rawgeti r i
  end.

(** A double that is a whole number in the range of an integer is the same key as
    the integer; a NaN is no key. *)
Definition exponent (d : Z) : Z := Z.shiftr d 52 mod 2048.
Definition mantissa (d : Z) : Z := d mod 2 ^ 52.
Definition is_nan (d : Z) : bool := (exponent d =? 2047) && negb (mantissa d =? 0).
Definition whole (d : Z) : option Z :=
  if exponent d =? 2047 then None
  else if exponent d =? 0 then if mantissa d =? 0 then Some 0 else None
  else
    let m := mantissa d + 2 ^ 52 in
    let s := exponent d - 1075 in
    if 0 <=? s then Some (m * 2 ^ s)
    else if m mod 2 ^ (- s) =? 0 then Some (m / 2 ^ (- s)) else None.
Definition whole_integer (d : Z) : option Z :=
  x ← whole d;
  let x := if Z.testbit d 63 then - x else x in
  if (- 2 ^ 63 <=? x) && (x <? 2 ^ 63) then Some x else None.
Definition key_of (k : lval) : lval :=
  match k with
  | VNumber d => match whole_integer d with Some i => VInteger i | None => k end
  | _ => k
  end.

(** Raw equality of keys; a table that is unpacked is a new one. *)
Definition key_eq (k k' : lval) : bool :=
  match k, k' with
  | VBoolean b, VBoolean b' => bool_decide (b = b')
  | VInteger x, VInteger x' => x =? x'
  | VNumber d, VNumber d' => d =? d'
  | VPointer p, VPointer p' => p =? p'
  | VString s, VString s' => bool_decide (s = s')
  | _, _ => false
  end.

(** [lua_rawset] and [lua_rawseti] on the pairs of a table. *)
Definition absent (k : lval) (kv : lval * lval) : Prop := key_eq k kv.1 = false.
#[export] Instance absent_dec k kv : Decision (absent k kv).
Proof. unfold absent. apply _. Defined.
Definition rawset (kvs : list (lval * lval)) (kv : lval * lval) : list (lval * lval) :=
  let k := key_of kv.1 in
  let kvs := filter (absent k) kvs in
  if is_nil kv.2 then kvs else kvs ++ [(k, kv.2)].
Definition table_of (sets : list (lval * lval)) : list (lval * lval) := foldl rawset [] sets.

Definition is_border (kvs : list (lval * lval)) (n : Z) : Prop :=
  0 <= n /\ (n = 0 \/ rawgeti kvs n <> VNil) /\ rawgeti kvs (n + 1) = VNil.

(** The length and the pairs in the order of [lua_next] of the table that
    [lua_createtable] with room for [n] array values and these stores make. *)
Class LuaTables := built : Z -> list (lval * lval) -> Z * list (lval * lval).
Class LawfulTables `{LuaTables} := {
  built_contents n sets : (built n sets).2 ≡ₚ table_of sets;
  built_border n sets : is_border (built n sets).2 (built n sets).1
}.

(** ** Writing *)

(** The blocks from [head] on, and the place of [current] in the chain. *)
Record write_block := WB { chain : list cells; current : nat; wb_len : Z; wb_ptr : Z }.

Definition blk_alloc : cells := malloc BLOCK_SIZE.

Definition wb_init (b : cells) : write_block := WB [b] 0 0 0.

(** [b->current = b->current->next = blk_alloc(); b->ptr = 0] *)
Definition wb_next (b : write_block) : write_block :=
  WB (take (S (current b)) (chain b) ++ [blk_alloc]) (S (current b)) (wb_len b) 0.

(** [memcpy(b->current->buffer + b->ptr, buffer, n); b->len += n] *)
Definition wb_copy (b : write_block) (buf : list Z) (n : Z) : option write_block :=
  blk ← chain b !! current b;
  blk ← memcpy blk (wb_ptr b) (Some <$> buf) n;
  Some (WB (<[current b := blk]> (chain b)) (current b) (wb_len b + n) (wb_ptr b)).

(** From behind the label [_again] on. *)
Fixpoint wb_put (fuel : nat) (b : write_block) (buf : list Z) (sz : Z) : option write_block :=
  if wb_ptr b <=? BLOCK_SIZE - sz then
    b ← wb_copy b buf sz;
    Some (WB (chain b) (current b) (wb_len b) (wb_ptr b + sz))
  else match fuel with
  | O => None
  | S fuel =>
    let copy := BLOCK_SIZE - wb_ptr b in
    b ← wb_copy b buf copy;
    wb_put fuel (wb_next b) (drop (Z.to_nat copy) buf) (sz - copy)
  end.

(** Every round but the last stores at least one byte: [length buf] rounds are
    enough. *)
Definition wb_push (b : write_block) (buf : list Z) (sz : Z) : outcome write_block :=
  chk (wb_put (length buf) (if wb_ptr b =? BLOCK_SIZE then wb_next b else b) buf sz).

Definition wb_nil (wb : write_block) : outcome write_block := wb_push wb [u8 TYPE_NIL] 1.
Definition wb_boolean (wb : write_block) (boolean : bool) : outcome write_block :=
  wb_push wb [u8 (COMBINE_TYPE TYPE_BOOLEAN (b2i boolean))] 1.

Definition wb_integer (wb : write_block) (v : Z) : outcome write_block :=
  let type := TYPE_NUMBER in
  if v =? 0 then wb_push wb [u8 (COMBINE_TYPE type TYPE_NUMBER_ZERO)] 1
  else if negb (v =? i32 v) then
    wb ← wb_push wb [u8 (COMBINE_TYPE type TYPE_NUMBER_QWORD)] 1;
    wb_push wb (le_bytes 8 v) 8
  else if v <? 0 then
    wb ← wb_push wb [u8 (COMBINE_TYPE type TYPE_NUMBER_DWORD)] 1;
    wb_push wb (le_bytes 4 v) 4
  else if v <? 0x100 then
    wb ← wb_push wb [u8 (COMBINE_TYPE type TYPE_NUMBER_BYTE)] 1;
    wb_push wb (le_bytes 1 v) 1
  else if v <? 0x10000 then
    wb ← wb_push wb [u8 (COMBINE_TYPE type TYPE_NUMBER_WORD)] 1;
    wb_push wb (le_bytes 2 v) 2
  else
    wb ← wb_push wb [u8 (COMBINE_TYPE type TYPE_NUMBER_DWORD)] 1;
    wb_push wb (le_bytes 4 v) 4.

Definition wb_real (wb : write_block) (v : Z) : outcome write_block :=
  wb ← wb_push wb [u8 (COMBINE_TYPE TYPE_NUMBER TYPE_NUMBER_REAL)] 1;
  wb_push wb (le_bytes 8 v) 8.
Definition wb_pointer (wb : write_block) (v : Z) : outcome write_block :=
  wb ← wb_push wb [u8 TYPE_USERDATA] 1;
  wb_push wb (le_bytes 8 v) 8.

Definition wb_string (wb : write_block) (str : list Z) (len : Z) : outcome write_block :=
  if len <? MAX_COOKIE then
    wb ← wb_push wb [u8 (COMBINE_TYPE TYPE_SHORT_STRING len)] 1;
    if 0 <? len then wb_push wb str len else Ret wb
  else
    wb ← (if len <? 0x10000 then
            wb ← wb_push wb [u8 (COMBINE_TYPE TYPE_LONG_STRING 2)] 1;
            wb_push wb (le_bytes 2 len) 2
          else
            wb ← wb_push wb [u8 (COMBINE_TYPE TYPE_LONG_STRING 4)] 1;
            wb_push wb (le_bytes 4 len) 4);
    wb_push wb str len.

Section tables.
(** [pack_one] at the depth of the table's elements. *)
Variable pack_one : write_block -> lval -> outcome write_block.

Fixpoint array_loop (wb : write_block) (kvs : list (lval * lval)) (ixs : list Z) : outcome write_block :=
  match ixs with
  | [] => Ret wb
  | i :: ixs => wb ← pack_one wb (rawgeti kvs i); array_loop wb kvs ixs
  end.

Definition wb_table_array (wb : write_block) (n : Z) (kvs : list (lval * lval)) : outcome (Z * write_block) :=
  let array_size := i32 n in
  wb ← (if MAX_COOKIE - 1 <=? array_size then
          wb ← wb_push wb [u8 (COMBINE_TYPE TYPE_TABLE (MAX_COOKIE - 1))] 1;
          wb_integer wb array_size
        else wb_push wb [u8 (COMBINE_TYPE TYPE_TABLE array_size)] 1);
  wb ← array_loop wb kvs (seqZ 1 array_size);
  Ret (array_size, wb).

Fixpoint hash_loop (wb : write_block) (array_size : Z) (kvs : list (lval * lval)) : outcome write_block :=
  match kvs with
  | [] => Ret wb
  | (k, v) :: kvs =>
    if match k with VInteger x => (0 <? x) && (x <=? array_size) | _ => false end
    then hash_loop wb array_size kvs
    else wb ← pack_one wb k; wb ← pack_one wb v; hash_loop wb array_size kvs
  end.
Definition wb_table_hash (wb : write_block) (array_size : Z) (kvs : list (lval * lval)) : outcome write_block :=
  wb ← hash_loop wb array_size kvs; wb_nil wb.

Fixpoint pairs_loop (wb : write_block) (kvs : list (lval * lval)) : outcome write_block :=
  match kvs with
  | [] => Ret wb
  | (k, v) :: kvs =>
    if is_nil k then Ret wb
    else wb ← pack_one wb k; wb ← pack_one wb v; pairs_loop wb kvs
  end.
Definition wb_table_metapairs (wb : write_block) (kvs : list (lval * lval)) : outcome write_block :=
  wb ← wb_push wb [u8 (COMBINE_TYPE TYPE_TABLE 0)] 1;
  wb ← pairs_loop wb kvs;
  wb_nil wb.
End tables.

(** The depth grows with every level, so the fuel [MAX_DEPTH + 1] is enough at
    depth 0. *)
Fixpoint pack_one (fuel : nat) (b : write_block) (v : lval) (depth : Z) : outcome write_block :=
  if MAX_DEPTH <? depth then Raise "serialize can't pack too depth table"
  else match fuel with
  | O => Undef
  | S fuel =>
    match v with
    | VNil => wb_nil b
    | VInteger x => wb_integer b x
    | VNumber n => wb_real b n
    | VBoolean x => wb_boolean b x
    | VString str => wb_string b str (i32 (zlen str))
    | VPointer p => wb_pointer b p
    | VPairs kvs => wb_table_metapairs (fun b v => pack_one fuel b v (depth + 1)) b kvs
    | VTable n kvs =>
      '(array_size, b) ← wb_table_array (fun b v => pack_one fuel b v (depth + 1)) b n kvs;
      wb_table_hash (fun b v => pack_one fuel b v (depth + 1)) b array_size kvs
    | VOther t => Raise ("Unsupport type " +:+ t +:+ " to serialize")
    end
  end.

Fixpoint pack_from (b : write_block) (vs : list lval) : outcome write_block :=
  match vs with
  | [] => Ret b
  | v :: vs => b ← pack_one (Z.to_nat (MAX_DEPTH + 1)) b v 0; pack_from b vs
  end.

Fixpoint seri_loop (b : list cells) (buffer : cells) (ptr len : Z) : option cells :=
  if 0 <? len then
    match b with
    | [] => None
    | blk :: next =>
      if BLOCK_SIZE <=? len then
        buffer ← memcpy buffer ptr blk BLOCK_SIZE;
        seri_loop next buffer (ptr + BLOCK_SIZE) (len - BLOCK_SIZE)
      else memcpy buffer ptr blk len
    end
  else Some buffer.
Definition seri (b : list cells) (len : Z) : outcome (cells * Z) :=
  buffer ← chk (seri_loop b (malloc len) 0 len); Ret (buffer, len).

Definition luaseri_pack (vs : list lval) : outcome (cells * Z) :=
  wb ← pack_from (wb_init (malloc BLOCK_SIZE)) vs;
  seri (chain wb) (wb_len wb).

(** ** Reading *)

Record read_block := RB { buffer : list Z; rb_len : Z; rb_ptr : Z }.

Definition rball_init (buffer : list Z) (size : Z) : read_block := RB buffer size 0.

(** The position that is read from; [None] is NULL. *)
Definition rb_read (rb : read_block) (sz : Z) : option (Z * read_block) :=
  if rb_len rb <? sz then None
  else Some (rb_ptr rb, RB (buffer rb) (rb_len rb - sz) (rb_ptr rb + sz)).

(** Reading [sz] bytes at a position of the buffer. *)
Definition bytes_at (rb : read_block) (p sz : Z) : option (list Z) :=
  if (0 <=? p) && (0 <=? sz) && (p + sz <=? zlen (buffer rb))
  then Some (take (Z.to_nat sz) (drop (Z.to_nat p) (buffer rb))) else None.

Definition invalid_stream {A} (rb : read_block) (line : Z) : outcome A :=
  Raise ("Invalid serialize stream " +:+ pretty (rb_len rb) +:+ " (line:" +:+ pretty line +:+ ")").

(** [pn = rb_read(rb,sizeof(n)); if (pn == NULL) invalid_stream(L,rb);
    memcpy(&n, pn, sizeof(n))] *)
Definition get_bytes (rb : read_block) (sz : Z) (line : Z) : outcome (list Z * read_block) :=
  match rb_read rb sz with
  | None => invalid_stream rb line
  | Some (pn, rb) => n ← chk (bytes_at rb pn sz); Ret (n, rb)
  end.

Definition get_integer (rb : read_block) (cookie : Z) : outcome (Z * read_block) :=
  if cookie =? TYPE_NUMBER_ZERO then Ret (0, rb)
  else if cookie =? TYPE_NUMBER_BYTE then
    '(n, rb) ← get_bytes rb 1 368; Ret (le_value n, rb)
  else if cookie =? TYPE_NUMBER_WORD then
    '(n, rb) ← get_bytes rb 2 376; Ret (le_value n, rb)
  else if cookie =? TYPE_NUMBER_DWORD then
    '(n, rb) ← get_bytes rb 4 384; Ret (i32 (le_value n), rb)
  else if cookie =? TYPE_NUMBER_QWORD then
    '(n, rb) ← get_bytes rb 8 392; Ret (i64 (le_value n), rb)
  else invalid_stream rb 397.

Definition get_real (rb : read_block) : outcome (Z * read_block) :=
  '(n, rb) ← get_bytes rb 8 407; Ret (le_value n, rb).
Definition get_pointer (rb : read_block) : outcome (Z * read_block) :=
  '(v, rb) ← get_bytes rb 8 417; Ret (le_value v, rb).

(** A negative length is a huge [size_t], which [lua_pushlstring] refuses. *)
Definition get_buffer (rb : read_block) (len : Z) : outcome (list Z * read_block) :=
  match rb_read rb len with
  | None => invalid_stream rb 427
  | Some (p, rb) =>
    if len <? 0 then Raise "memory allocation error: block too big"
    else s ← chk (bytes_at rb p len); Ret (s, rb)
  end.

(** The size of the array part: in the cookie, or a number behind it. *)
Definition table_size (rb : read_block) (cookie : Z) : outcome (Z * read_block) :=
  if cookie =? MAX_COOKIE - 1 then
    '(t, rb) ← get_bytes rb 1 440;
    let type := le_value t in
    let cookie := Z.shiftr type 3 in
    if negb (Z.land type 7 =? TYPE_NUMBER) || (cookie =? TYPE_NUMBER_REAL) then invalid_stream rb 445
    else '(n, rb) ← get_integer rb cookie; Ret (i32 n, rb)
  else Ret (cookie, rb).

Section unpack.
Context `{LuaTables}.

Section tables.
Variable unpack_one : read_block -> outcome (lval * read_block).

(** The stores so far are kept, the oldest first.  Every round reads a byte. *)
Fixpoint unpack_array (fuel : nat) (rb : read_block) (i array_size : Z) (sets : list (lval * lval))
    : outcome (list (lval * lval) * read_block) :=
  if i <=? array_size then
    match fuel with
    | O => Undef
    | S fuel =>
      '(v, rb) ← unpack_one rb;
      unpack_array fuel rb (i + 1) array_size (sets ++ [(VInteger i, v)])
    end
  else Ret (sets, rb).

Fixpoint unpack_hash (fuel : nat) (rb : read_block) (sets : list (lval * lval))
    : outcome (list (lval * lval) * read_block) :=
  match fuel with
  | O => Undef
  | S fuel =>
    '(k, rb) ← unpack_one rb;
    if is_nil k then Ret (sets, rb)
    else
      '(v, rb) ← unpack_one rb;
      if match k with VNumber d => is_nan d | _ => false end then Raise "table index is NaN"
      else unpack_hash fuel rb (sets ++ [(k, v)])
  end.

Definition unpack_table (fuel : nat) (rb : read_block) (array_size : Z) : outcome (lval * read_block) :=
  '(array_size, rb) ← table_size rb array_size;
  '(sets, rb) ← unpack_array fuel rb 1 array_size [];
  '(sets, rb) ← unpack_hash fuel rb sets;
  let '(n, kvs) := built array_size sets in
  Ret (VTable n kvs, rb).

Definition push_value (fuel : nat) (rb : read_block) (type cookie : Z) : outcome (lval * read_block) :=
  if type =? TYPE_NIL then Ret (VNil, rb)
  else if type =? TYPE_BOOLEAN then Ret (VBoolean (negb (cookie =? 0)), rb)
  else if type =? TYPE_NUMBER then
    if cookie =? TYPE_NUMBER_REAL then '(d, rb) ← get_real rb; Ret (VNumber d, rb)
    else '(n, rb) ← get_integer rb cookie; Ret (VInteger n, rb)
  else if type =? TYPE_USERDATA then '(p, rb) ← get_pointer rb; Ret (VPointer p, rb)
  else if type =? TYPE_SHORT_STRING then '(s, rb) ← get_buffer rb cookie; Ret (VString s, rb)
  else if type =? TYPE_LONG_STRING then
    if cookie =? 2 then
      '(n, rb) ← get_bytes rb 2 493;
      '(s, rb) ← get_buffer rb (le_value n); Ret (VString s, rb)
    else if negb (cookie =? 4) then invalid_stream rb 500
    else
      '(n, rb) ← get_bytes rb 4 504;
      '(s, rb) ← get_buffer rb (i32 (le_value n)); Ret (VString s, rb)
  else if type =? TYPE_TABLE then unpack_table fuel rb cookie
  else invalid_stream rb 517.
End tables.

(** A table reads the byte of its type before its elements are read: more fuel than
    bytes is enough. *)
Fixpoint unpack_one (fuel : nat) (rb : read_block) : outcome (lval * read_block) :=
  match fuel with
  | O => Undef
  | S fuel =>
    '(t, rb) ← get_bytes rb 1 528;
    let type := le_value t in
    push_value (unpack_one fuel) fuel rb (Z.land type 7) (Z.shiftr type 3)
  end.

Fixpoint unpack_loop (fuel : nat) (rb : read_block) (vs : list lval) : outcome (list lval) :=
  match rb_read rb 1 with
  | None => Ret vs
  | Some (t, rb) =>
    match fuel with
    | O => Undef
    | S fuel =>
      t ← chk (bytes_at rb t 1);
      let type := le_value t in
      '(v, rb) ← push_value (unpack_one fuel) fuel rb (Z.land type 7) (Z.shiftr type 3);
      unpack_loop fuel rb (vs ++ [v])
    end
  end.

(** The arguments: nothing or nil, a string, or a pointer, NULL or to a block, and
    a length. *)
Inductive unpack_arg :=
| ANil
| AString (s : list Z)
| APointer (buffer : option (list Z)) (len : Z).

Definition luaseri_unpack (a : unpack_arg) : outcome (list lval) :=
  match a with
  | ANil => Ret []
  | AString _ | APointer _ _ =>
    let '(buffer, len) :=
      match a with AString s => (Some s, i32 (zlen s)) | APointer b len => (b, i32 len) | ANil => (None, 0) end in
    if len =? 0 then Ret []
    else match buffer with
    | None => Raise "deserialize null pointer"
    | Some buffer => unpack_loop (S (Z.to_nat len)) (rball_init buffer len) []
    end
  end.
End unpack.

(** ** What packing writes

    The reference: the bytes of a value, without blocks.  [room] is the number of
    levels that are left, the value's own one included. *)

Definition seqr (e1 e2 : outcome (list Z)) : outcome (list Z) := x ← e1; y ← e2; Ret (x ++ y).
Fixpoint enc_seq (f : lval -> outcome (list Z)) (vs : list lval) : outcome (list Z) :=
  match vs with [] => Ret [] | v :: vs => seqr (f v) (enc_seq f vs) end.

Definition enc_integer (v : Z) : list Z :=
  if v =? 0 then [2]
  else if negb (v =? i32 v) then 50 :: le_bytes 8 v
  else if v <? 0 then 34 :: le_bytes 4 v
  else if v <? 0x100 then 10 :: le_bytes 1 v
  else if v <? 0x10000 then 18 :: le_bytes 2 v
  else 34 :: le_bytes 4 v.
(** The length is kept as an [int]. *)
Definition enc_string (s : list Z) : list Z :=
  let len := i32 (zlen s) in
  if len <=? 0 then [u8 (COMBINE_TYPE 4 len)]
  else
    (if len <? 32 then [u8 (COMBINE_TYPE 4 len)]
     else if len <? 0x10000 then 21 :: le_bytes 2 len else 37 :: le_bytes 4 len)
    ++ take (Z.to_nat len) s.
Definition enc_header (m : Z) : list Z :=
  if m <? 31 then [u8 (COMBINE_TYPE 6 m)] else 254 :: enc_integer m.

Definition in_array (m : Z) (k : lval) : bool :=
  match k with VInteger x => (0 <? x) && (x <=? m) | _ => false end.
Definition outside (m : Z) (kv : lval * lval) : Prop := in_array m kv.1 = false.
#[export] Instance outside_dec m kv : Decision (outside m kv).
Proof. unfold outside. apply _. Defined.
(** The values that stand for array items, and pairs one behind the other. *)
Definition items (m : Z) (kvs : list (lval * lval)) : list lval := rawgeti kvs <$> seqZ 1 m.
Definition flat (kvs : list (lval * lval)) : list lval := concat ((fun kv => [kv.1; kv.2]) <$> kvs).
Fixpoint before_nil (kvs : list (lval * lval)) : list (lval * lval) :=
  match kvs with [] => [] | kv :: kvs => if is_nil kv.1 then [] else kv :: before_nil kvs end.

Fixpoint enc (room : nat) (v : lval) : outcome (list Z) :=
  match room with
  | O => Raise "serialize can't pack too depth table"
  | S room =>
    match v with
    | VNil => Ret [0]
    | VBoolean b => Ret [if b then 9 else 1]
    | VInteger x => Ret (enc_integer x)
    | VNumber d => Ret (66 :: le_bytes 8 d)
    | VPointer p => Ret (3 :: le_bytes 8 p)
    | VString s => Ret (enc_string s)
    | VTable n kvs =>
      let m := i32 n in
      seqr (Ret (enc_header m))
        (seqr (enc_seq (enc room) (items m kvs ++ flat (filter (outside m) kvs))) (Ret [0]))
    | VPairs kvs => seqr (Ret [6]) (seqr (enc_seq (enc room) (flat (before_nil kvs))) (Ret [0]))
    | VOther t => Raise ("Unsupport type " +:+ t +:+ " to serialize")
    end
  end.

Definition encode (vs : list lval) : outcome (list Z) := enc_seq (enc 33) vs.

Lemma seqr_nil_l e : seqr (Ret []) e = e.
Proof. unfold seqr. rewrite ret_bind. by destruct e. Qed.
Lemma seqr_nil_r e : seqr e (Ret []) = e.
Proof. unfold seqr. destruct e; [|done..]. by rewrite !ret_bind, app_nil_r. Qed.
Lemma seqr_assoc e1 e2 e3 : seqr e1 (seqr e2 e3) = seqr (seqr e1 e2) e3.
Proof. unfold seqr. destruct e1, e2, e3; try done. rewrite !ret_bind. by rewrite app_assoc. Qed.
Lemma seqr_ret x y : seqr (Ret x) (Ret y) = Ret (x ++ y).
Proof. done. Qed.
Lemma seqr_Ret e1 e2 z : seqr e1 e2 = Ret z -> exists x y, e1 = Ret x /\ e2 = Ret y /\ z = x ++ y.
Proof. unfold seqr. destruct e1, e2; try done. rewrite !ret_bind. intros [= <-]. eauto. Qed.
Lemma seqr_not_undef e1 e2 : e1 <> Undef -> e2 <> Undef -> seqr e1 e2 <> Undef.
Proof. by destruct e1, e2. Qed.

Lemma enc_seq_app f vs1 vs2 : enc_seq f (vs1 ++ vs2) = seqr (enc_seq f vs1) (enc_seq f vs2).
Proof.
  induction vs1 as [|v vs1 IH]; cbn [enc_seq app]; [by rewrite seqr_nil_l|]. by rewrite IH, seqr_assoc.
Qed.
Lemma enc_seq_not_undef f vs : (forall v, f v <> Undef) -> enc_seq f vs <> Undef.
Proof. intros Hf. induction vs as [|v vs IH]; [done|]. by apply seqr_not_undef. Qed.
Lemma enc_not_undef room v : enc room v <> Undef.
Proof.
  revert v. induction room as [|room IH]; intros v; [done|]. destruct v; cbn [enc]; try done;
    repeat apply seqr_not_undef; try done; by apply enc_seq_not_undef.
Qed.

(** ** The chain of blocks is an append-only string of bytes *)

Definition repr (b : write_block) (bs : list Z) : Prop :=
  exists (fulls : list (list Z)) (a : list Z) (r : cells),
    b = WB ((fmap (M:=list) Some <$> fulls) ++ [(Some <$> a) ++ r]) (length fulls) (zlen bs) (zlen a) /\
    Forall (fun f => zlen f = BLOCK_SIZE) fulls /\ zlen a + zlen r = BLOCK_SIZE /\ bs = concat fulls ++ a.

(** An operation on a block chain that writes what the reference [e] says. *)
Definition writes (bs : list Z) (o : outcome write_block) (e : outcome (list Z)) : Prop :=
  match e with
  | Ret x => exists b, o = Ret b /\ repr b (bs ++ x)
  | Raise msg => o = Raise msg
  | Undef => False
  end.

Lemma writes_bind bs o e1 f e2 :
  writes bs o e1 -> (forall b bs', repr b bs' -> writes bs' (f b) e2) -> writes bs (o ≫= f) (seqr e1 e2).
Proof.
  intros H1 H2. destruct e1 as [x|msg|]; simpl in H1; [|by subst|done].
  destruct H1 as (b & -> & Hb). rewrite ret_bind. specialize (H2 b (bs ++ x) Hb).
  unfold seqr. rewrite ret_bind. destruct e2 as [y|msg|]; simpl in H2; [|done|done].
  rewrite ret_bind. simpl. by rewrite app_assoc.
Qed.
Lemma writes_ret b bs : repr b bs -> writes bs (Ret b) (Ret []).
Proof. intros Hb. exists b. by rewrite app_nil_r. Qed.

Lemma repr_init : repr (wb_init (malloc BLOCK_SIZE)) [].
Proof. exists [], [], (malloc BLOCK_SIZE). by repeat split. Qed.

Lemma wb_copy_repr (fulls : list (list Z)) (a : list Z) (r : cells) len (buf : list Z) n :
  0 <= n <= zlen buf -> n <= zlen r ->
  wb_copy (WB ((fmap (M:=list) Some <$> fulls) ++ [(Some <$> a) ++ r]) (length fulls) len (zlen a)) buf n =
  Some (WB ((fmap (M:=list) Some <$> fulls) ++ [(Some <$> (a ++ take (Z.to_nat n) buf)) ++ drop (Z.to_nat n) r])
           (length fulls) (len + n) (zlen a)).
Proof.
  intros Hn Hr. unfold wb_copy. cbn [chain current wb_ptr wb_len].
  rewrite lookup_app_r, length_fmap, Nat.sub_diag by (rewrite length_fmap; lia). cbn [lookup list_lookup].
  rewrite some_bind, memcpy_fill by lia. rewrite some_bind. do 3 f_equal.
  rewrite insert_app_r_alt by (rewrite length_fmap; lia). by rewrite length_fmap, Nat.sub_diag.
Qed.

Lemma wb_next_repr (fulls : list (list Z)) (a : list Z) len p :
  wb_next (WB ((fmap (M:=list) Some <$> fulls) ++ [Some <$> a]) (length fulls) len p) =
  WB ((fmap (M:=list) Some <$> fulls ++ [a]) ++ [(Some <$> []) ++ blk_alloc]) (length (fulls ++ [a])) len 0.
Proof.
  unfold wb_next. cbn [chain current wb_len]. rewrite fmap_app, length_app. cbn [length fmap list_fmap].
  rewrite take_ge by (rewrite length_app, length_fmap; simpl; lia).
  f_equal. lia.
Qed.

Lemma wb_put_writes fuel : forall (buf : list Z) sz b bs,
  repr b bs -> wb_ptr b < BLOCK_SIZE -> 0 <= sz <= zlen buf -> sz <= Z.of_nat fuel ->
  exists b', wb_put fuel b buf sz = Some b' /\ repr b' (bs ++ take (Z.to_nat sz) buf).
Proof.
  induction fuel as [|fuel IH]; intros buf sz b bs (fulls & a & r & -> & Hf & Har & Hbs) Hp Hsz Hfuel;
    cbn [wb_put wb_ptr] in *; pose proof (zlen_nonneg a); pose proof (zlen_nonneg r).
  all: destruct (Z.leb_spec (zlen a) (BLOCK_SIZE - sz)).
  1, 3: (* it fits *)
    rewrite wb_copy_repr, some_bind by lia; eexists; split; [done|];
    exists fulls, (a ++ take (Z.to_nat sz) buf), (drop (Z.to_nat sz) r); cbn [chain current wb_len wb_ptr];
    rewrite !zlen_app, zlen_take, zlen_drop by lia;
    split; [done|]; split; [done|]; split; [lia|]; by rewrite Hbs, app_assoc.
  - unfold BLOCK_SIZE in *. lia.
  - set (copy := BLOCK_SIZE - zlen a). assert (0 < copy < sz) by (unfold copy; lia).
    rewrite wb_copy_repr, some_bind by lia.
    assert (drop (Z.to_nat copy) r = []) as -> by (apply drop_ge; unfold zlen in *; lia).
    rewrite app_nil_r, wb_next_repr.
    destruct (IH (drop (Z.to_nat copy) buf) (sz - copy)
      (WB ((fmap (M:=list) Some <$> fulls ++ [a ++ take (Z.to_nat copy) buf]) ++ [(Some <$> []) ++ blk_alloc])
          (length (fulls ++ [a ++ take (Z.to_nat copy) buf])) (zlen bs + copy) 0) (bs ++ take (Z.to_nat copy) buf))
      as (b' & Hb' & Hrepr').
    + exists (fulls ++ [a ++ take (Z.to_nat copy) buf]), [], blk_alloc. rewrite zlen_app, zlen_take by lia.
      split; [done|]. split; [apply Forall_app; split; [done|]; constructor; [|done]; rewrite zlen_app, zlen_take; lia|].
      split; [done|]. by rewrite concat_app, app_nil_r, Hbs, <- app_assoc; simpl; rewrite app_nil_r.
    + done.
    + rewrite zlen_drop by lia. lia.
    + lia.
    + exists b'. split; [done|]. rewrite <- app_assoc in Hrepr'. replace (take (Z.to_nat sz) buf) with (take (Z.to_nat copy) buf ++ take (Z.to_nat (sz - copy)) (drop (Z.to_nat copy) buf)); [done|].
      rewrite take_drop_commute. replace (Z.to_nat copy + Z.to_nat (sz - copy))%nat with (Z.to_nat sz) by lia.
      rewrite <- (take_drop (Z.to_nat copy) (take (Z.to_nat sz) buf)) at 2.
      by rewrite take_take, Nat.min_l by lia.
Qed.

Lemma wb_push_writes b bs (buf : list Z) sz : repr b bs -> 0 <= sz <= zlen buf ->
  writes bs (wb_push b buf sz) (Ret (take (Z.to_nat sz) buf)).
Proof.
  intros Hb Hsz. unfold wb_push.
  assert (exists b', (if wb_ptr b =? BLOCK_SIZE then wb_next b else b) = b' /\ repr b' bs /\ wb_ptr b' < BLOCK_SIZE) as (b' & -> & Hb' & Hp).
  { destruct (Z.eqb_spec (wb_ptr b) BLOCK_SIZE) as [Hfull|Hfull]; (eexists; split; [done|]).
    - destruct Hb as (fulls & a & r & -> & Hf & Har & Hbs). cbn [wb_ptr] in Hfull.
      assert (r = []) as -> by (apply length_zero_iff_nil; unfold zlen in *; lia).
      rewrite app_nil_r, wb_next_repr. split; [|done]. exists (fulls ++ [a]), [], blk_alloc.
      split; [done|]. split; [apply Forall_app; auto|]. split; [done|]. rewrite concat_app, Hbs. simpl. by rewrite !app_nil_r.
    - split; [done|]. destruct Hb as (fulls & a & r & -> & Hf & Har & Hbs). cbn [wb_ptr] in *. pose proof (zlen_nonneg r). lia. }
  destruct (wb_put_writes (length buf) buf sz b' bs Hb' Hp) as (b'' & -> & Hb''); [done|unfold zlen in *; lia|].
  by exists b''.
Qed.

Lemma wb_push_all b bs (buf : list Z) sz : repr b bs -> sz = zlen buf -> writes bs (wb_push b buf sz) (Ret buf).
Proof.
  intros Hb ->. pose proof (wb_push_writes b bs buf (zlen buf) Hb) as H.
  rewrite take_ge in H by (unfold zlen; lia). apply H. pose proof (zlen_nonneg buf). lia.
Qed.

(** Two pushes: a tag and its data. *)
Lemma wb_push2 b bs (x y : list Z) n m : repr b bs -> n = zlen x -> m = zlen y ->
  writes bs (b ← wb_push b x n; wb_push b y m) (Ret (x ++ y)).
Proof.
  intros Hb Hn Hm. rewrite <- seqr_ret. apply writes_bind; [by apply wb_push_all|].
  intros b' bs' Hb'. by apply wb_push_all.
Qed.

Lemma wb_nil_writes b bs : repr b bs -> writes bs (wb_nil b) (Ret [0]).
Proof. intros Hb. by apply wb_push_all. Qed.

Lemma wb_boolean_writes b bs x : repr b bs -> writes bs (wb_boolean b x) (Ret [if x then 9 else 1]).
Proof. intros Hb. unfold wb_boolean. destruct x; by apply (wb_push_all b bs [_]). Qed.

Lemma wb_integer_writes b bs v : repr b bs -> writes bs (wb_integer b v) (Ret (enc_integer v)).
Proof.
  intros Hb. unfold wb_integer, enc_integer. repeat case_match; try (by apply wb_push_all);
    by apply (wb_push2 b bs [_]).
Qed.

Lemma wb_real_writes b bs v : repr b bs -> writes bs (wb_real b v) (Ret (66 :: le_bytes 8 v)).
Proof. intros Hb. by apply (wb_push2 b bs [_]). Qed.
Lemma wb_pointer_writes b bs v : repr b bs -> writes bs (wb_pointer b v) (Ret (3 :: le_bytes 8 v)).
Proof. intros Hb. by apply (wb_push2 b bs [_]). Qed.

Lemma i32_le (n : Z) : 0 <= n -> i32 n <= n.
Proof.
  intros Hn. unfold i32, sgn. pose proof (Z.mod_le n (2 ^ 32) Hn ltac:(lia)).
  pose proof (wrap_range 32 n ltac:(lia)). unfold is_u, wrap in *. case_match; lia.
Qed.

Lemma COMBINE_TYPE_add t v : is_u 3 t -> COMBINE_TYPE t v = t + v * 8.
Proof. intros Ht. unfold COMBINE_TYPE. by rewrite lor_shiftl_add. Qed.

Lemma wb_string_writes b bs s : repr b bs -> writes bs (wb_string b s (i32 (zlen s))) (Ret (enc_string s)).
Proof.
  intros Hb. unfold wb_string, enc_string. set (len := i32 (zlen s)).
  assert (len <= zlen s) by (apply i32_le, zlen_nonneg). change MAX_COOKIE with 32.
  destruct (Z.ltb_spec len 32), (Z.leb_spec len 0), (Z.ltb_spec 0 len); try lia.
  - change (Ret [u8 (COMBINE_TYPE 4 len)]) with (seqr (Ret [u8 (COMBINE_TYPE 4 len)]) (Ret [])).
    apply writes_bind; [by apply wb_push_all|]. intros. by apply writes_ret.
  - rewrite <- seqr_ret. apply writes_bind.
    + apply wb_push_all; [done|]. done.
    + intros b' bs' Hb'. apply wb_push_writes; [done|lia].
  - rewrite <- seqr_ret. apply writes_bind.
    + case_match; by apply (wb_push2 b bs [_]).
    + intros b' bs' Hb'. apply wb_push_writes; [done|lia].
Qed.

Section tables_write.
Context (p : write_block -> lval -> outcome write_block) (e : lval -> outcome (list Z)).
Context (Hp : forall b bs v, repr b bs -> writes bs (p b v) (e v)).

Lemma array_loop_writes kvs ixs : forall b bs, repr b bs ->
  writes bs (array_loop p b kvs ixs) (enc_seq e (rawgeti kvs <$> ixs)).
Proof.
  induction ixs as [|i ixs IH]; intros b bs Hb; [by apply writes_ret|].
  cbn [array_loop fmap list_fmap enc_seq]. apply writes_bind; [by apply Hp|done].
Qed.

Lemma hash_loop_writes m kvs : forall b bs, repr b bs ->
  writes bs (hash_loop p b m kvs) (enc_seq e (flat (filter (outside m) kvs))).
Proof.
  induction kvs as [|[k v] kvs IH]; intros b bs Hb; [by apply writes_ret|].
  cbn [hash_loop]. rewrite filter_cons.
  change (match k with VInteger x => (0 <? x) && (x <=? m) | _ => false end) with (in_array m k).
  destruct (in_array m k) eqn:Hk.
  { rewrite decide_False by (unfold outside; simpl; congruence). by apply IH. }
  rewrite decide_True by done. cbn [flat fmap list_fmap concat app enc_seq fst snd].
  apply writes_bind; [by apply Hp|]. intros b1 bs1 Hb1.
  apply writes_bind; [by apply Hp|]. intros b2 bs2 Hb2. by apply IH.
Qed.

Lemma pairs_loop_writes kvs : forall b bs, repr b bs ->
  writes bs (pairs_loop p b kvs) (enc_seq e (flat (before_nil kvs))).
Proof.
  induction kvs as [|[k v] kvs IH]; intros b bs Hb; [by apply writes_ret|].
  cbn [pairs_loop before_nil fst]. destruct (is_nil k); [by apply writes_ret|].
  cbn [flat fmap list_fmap concat app enc_seq fst snd].
  apply writes_bind; [by apply Hp|]. intros b1 bs1 Hb1.
  apply writes_bind; [by apply Hp|]. intros b2 bs2 Hb2. by apply IH.
Qed.

Lemma wb_header_writes b bs m : repr b bs ->
  writes bs
    (if MAX_COOKIE - 1 <=? m then
       wb ← wb_push b [u8 (COMBINE_TYPE TYPE_TABLE (MAX_COOKIE - 1))] 1; wb_integer wb m
     else wb_push b [u8 (COMBINE_TYPE TYPE_TABLE m)] 1) (Ret (enc_header m)).
Proof.
  intros Hb. unfold enc_header. change (MAX_COOKIE - 1) with 31.
  destruct (Z.leb_spec 31 m), (Z.ltb_spec m 31); try lia; [|by apply wb_push_all].
  change (Ret (254 :: enc_integer m)) with (seqr (Ret [254]) (Ret (enc_integer m))).
  apply writes_bind; [by apply wb_push_all|]. intros. by apply wb_integer_writes.
Qed.

Lemma wb_table_writes b bs n kvs : repr b bs ->
  writes bs ('(m, b) ← wb_table_array p b n kvs; wb_table_hash p b m kvs)
    (seqr (Ret (enc_header (i32 n)))
       (seqr (enc_seq e (items (i32 n) kvs ++ flat (filter (outside (i32 n)) kvs))) (Ret [0]))).
Proof.
  intros Hb. set (m := i32 n). rewrite enc_seq_app, <- seqr_assoc, seqr_assoc.
  assert (writes bs (wb ← (if MAX_COOKIE - 1 <=? m then
            wb ← wb_push b [u8 (COMBINE_TYPE TYPE_TABLE (MAX_COOKIE - 1))] 1; wb_integer wb m
          else wb_push b [u8 (COMBINE_TYPE TYPE_TABLE m)] 1); array_loop p wb kvs (seqZ 1 m))
          (seqr (Ret (enc_header m)) (enc_seq e (items m kvs)))) as H1.
  { apply writes_bind; [by apply wb_header_writes|]. intros. by apply array_loop_writes. }
  assert (forall b' bs', repr b' bs' -> writes bs' (wb_table_hash p b' m kvs)
            (seqr (enc_seq e (flat (filter (outside m) kvs))) (Ret [0]))) as H2.
  { intros. apply writes_bind; [by apply hash_loop_writes|]. intros. by apply wb_nil_writes. }
  pose proof (writes_bind _ _ _ _ _ H1 H2) as H. revert H. unfold wb_table_array. fold m.
  match goal with |- context [(if MAX_COOKIE - 1 <=? m then ?x else ?y)] => destruct (if MAX_COOKIE - 1 <=? m then x else y) end;
    [|done..]. rewrite !ret_bind. by destruct (array_loop p a kvs (seqZ 1 m)).
Qed.

Lemma wb_metapairs_writes b bs kvs : repr b bs ->
  writes bs (wb_table_metapairs p b kvs) (seqr (Ret [6]) (seqr (enc_seq e (flat (before_nil kvs))) (Ret [0]))).
Proof.
  intros Hb. apply writes_bind; [by apply (wb_push_all b bs [_])|]. intros b1 bs1 Hb1.
  apply writes_bind; [by apply pairs_loop_writes|]. intros. by apply wb_nil_writes.
Qed.
End tables_write.

Lemma pack_one_writes fuel : forall b bs v depth,
  repr b bs -> 33 - depth <= Z.of_nat fuel -> writes bs (pack_one fuel b v depth) (enc (Z.to_nat (33 - depth)) v).
Proof.
  induction fuel as [|fuel IH]; intros b bs v depth Hb Hd; cbn [pack_one]; change MAX_DEPTH with 32;
    destruct (Z.ltb_spec 32 depth); try lia; try (by replace (Z.to_nat (33 - depth)) with 0%nat by lia).
  replace (Z.to_nat (33 - depth)) with (S (Z.to_nat (33 - (depth + 1)))) by lia.
  assert (forall b bs v, repr b bs -> writes bs (pack_one fuel b v (depth + 1)) (enc (Z.to_nat (33 - (depth + 1))) v)) as Hrec.
  { intros. apply IH; [done|lia]. }
  destruct v; cbn [enc].
  - by apply wb_nil_writes.
  - by apply wb_boolean_writes.
  - by apply wb_integer_writes.
  - by apply wb_real_writes.
  - by apply wb_pointer_writes.
  - by apply wb_string_writes.
  - by apply wb_table_writes.
  - by apply wb_metapairs_writes.
  - done.
Qed.

Lemma pack_from_writes vs : forall b bs, repr b bs -> writes bs (pack_from b vs) (encode vs).
Proof.
  induction vs as [|v vs IH]; intros b bs Hb; [by apply writes_ret|].
  cbn [pack_from]. unfold encode. cbn [enc_seq]. apply writes_bind; [|by apply IH].
  by apply (pack_one_writes _ _ _ _ 0).
Qed.

Lemma memcpy_prefix (dst : cells) off (s1 s2 : cells) : memcpy dst off (s1 ++ s2) (zlen s1) = memcpy dst off s1 (zlen s1).
Proof.
  unfold memcpy. rewrite zlen_app. pose proof (zlen_nonneg s2).
  rewrite (proj2 (Z.leb_le (zlen s1) (zlen s1 + zlen s2))), (proj2 (Z.leb_le (zlen s1) (zlen s1))) by lia.
  unfold zlen. by rewrite Nat2Z.id, take_app_length, firstn_all.
Qed.

(** The next bytes of the chain go behind the [done] ones. *)
Lemma seri_copy (dn x : list Z) (junk : cells) n : zlen x <= n ->
  memcpy ((Some <$> dn) ++ malloc n) (zlen dn) ((Some <$> x) ++ junk) (zlen x) =
  Some ((Some <$> (dn ++ x)) ++ malloc (n - zlen x)).
Proof.
  intros Hn. pose proof (zlen_nonneg x). rewrite <- (zlen_fmap Some x) at 1. rewrite memcpy_prefix, zlen_fmap.
  unfold malloc. rewrite memcpy_fill by (rewrite ?zlen_replicate; lia). do 2 f_equal.
  - f_equal. f_equal. apply take_ge. unfold zlen. lia.
  - rewrite drop_replicate. f_equal. lia.
Qed.

Lemma seri_loop_repr (fulls : list (list Z)) : forall (a : list Z) (r : cells) (dn : list Z),
  Forall (fun f => zlen f = BLOCK_SIZE) fulls -> zlen a + zlen r = BLOCK_SIZE ->
  seri_loop ((fmap (M:=list) Some <$> fulls) ++ [(Some <$> a) ++ r])
    ((Some <$> dn) ++ malloc (zlen (concat fulls ++ a))) (zlen dn) (zlen (concat fulls ++ a)) =
  Some (Some <$> (dn ++ concat fulls ++ a)).
Proof.
  assert (forall (a dn : list Z), Some ((Some <$> (dn ++ a)) ++ malloc 0) = Some (Some <$> (dn ++ a))) as Hdone.
  { intros a dn. change (malloc 0) with (@nil (option Z)). by rewrite app_nil_r. }
  induction fulls as [|f fulls IH]; intros a r dn Hf Ha; pose proof (zlen_nonneg a); pose proof (zlen_nonneg r).
  - cbn [concat app fmap list_fmap seri_loop].
    destruct (Z.ltb_spec 0 (zlen a)).
    2: { assert (a = []) as -> by (apply length_zero_iff_nil; unfold zlen in *; lia).
         change (malloc (zlen (@nil Z))) with (@nil (option Z)). by rewrite !app_nil_r. }
    destruct (Z.leb_spec BLOCK_SIZE (zlen a)).
    + replace BLOCK_SIZE with (zlen a) by lia.
      rewrite seri_copy, some_bind, Z.sub_diag by lia. cbn [seri_loop]. apply Hdone.
    + rewrite seri_copy, Z.sub_diag by lia. apply Hdone.
  - apply Forall_cons in Hf as [Hf0 Hf]. cbn [concat app fmap list_fmap seri_loop].
    pose proof (zlen_nonneg (concat fulls ++ a)).
    assert (zlen ((f ++ concat fulls) ++ a) = BLOCK_SIZE + zlen (concat fulls ++ a)) as Hlen by (rewrite <- app_assoc, zlen_app; lia).
    rewrite Hlen. destruct (Z.ltb_spec 0 (BLOCK_SIZE + zlen (concat fulls ++ a))); [|unfold BLOCK_SIZE in *; lia].
    destruct (Z.leb_spec BLOCK_SIZE (BLOCK_SIZE + zlen (concat fulls ++ a))); [|lia].
    rewrite <- Hf0. rewrite <- (app_nil_r (Some <$> f)), seri_copy, some_bind by lia.
    rewrite Z.add_simpl_l, <- zlen_app, IH by done. by rewrite <- !app_assoc.
Qed.

Lemma seri_repr b bs : repr b bs -> seri (chain b) (wb_len b) = Ret (Some <$> bs, zlen bs).
Proof.
  intros (fulls & a & r & -> & Hf & Har & ->). cbn [chain wb_len]. unfold seri.
  change (malloc (zlen (concat fulls ++ a))) with ((Some <$> []) ++ malloc (zlen (concat fulls ++ a))).
  pose proof (seri_loop_repr fulls a r [] Hf Har) as H. change (zlen (@nil Z)) with 0 in H. by rewrite H.
Qed.

Lemma luaseri_pack_encode vs :
  luaseri_pack vs = match encode vs with Ret bs => Ret (Some <$> bs, zlen bs) | Raise msg => Raise msg | Undef => Undef end.
Proof.
  unfold luaseri_pack. pose proof (pack_from_writes vs _ _ repr_init) as H.
  destruct (encode vs) as [bs|msg|]; simpl in H; [|by rewrite H|done].
  destruct H as (b & -> & Hb). rewrite ret_bind. by apply seri_repr.
Qed.

(** ** Well-formed values *)

Definition key_ok (k : lval) : Prop :=
  match k with
  | VNil => False
  | VNumber d => is_nan d = false /\ whole_integer d = None
  | _ => True
  end.
(** A key that [lua_rawset] takes. *)
Definition settable (k : lval) : Prop :=
  match k with VNil => False | VNumber d => is_nan d = false | _ => True end.

Fixpoint distinct (kvs : list (lval * lval)) : Prop :=
  match kvs with [] => True | kv :: r => Forall (absent kv.1) r /\ distinct r end.

Inductive lv_wf : lval -> Prop :=
| wf_nil : lv_wf VNil
| wf_boolean b : lv_wf (VBoolean b)
| wf_integer x : - 2 ^ 63 <= x < 2 ^ 63 -> lv_wf (VInteger x)
| wf_number d : is_u64 d -> lv_wf (VNumber d)
| wf_pointer p : is_u64 p -> lv_wf (VPointer p)
| wf_string s : is_bytes s -> lv_wf (VString s)
| wf_table n kvs :
    Forall (fun kv => lv_wf kv.1 /\ lv_wf kv.2 /\ key_ok kv.1 /\ is_nil kv.2 = false) kvs ->
    distinct kvs -> is_border kvs n -> lv_wf (VTable n kvs)
| wf_pairs kvs : Forall (fun kv => lv_wf kv.1 /\ lv_wf kv.2 /\ settable kv.1) kvs -> lv_wf (VPairs kvs)
| wf_other t : lv_wf (VOther t).

Lemma key_eq_sym k k' : key_eq k k' = key_eq k' k.
Proof.
  destruct k, k'; simpl; try done; try (by apply Z.eqb_sym); by apply bool_decide_ext.
Qed.

Lemma key_eq_integer i k : key_eq (VInteger i) k = match k with VInteger j => i =? j | _ => false end.
Proof. by destruct k. Qed.

Lemma distinct_perm l1 l2 : l1 ≡ₚ l2 -> distinct l1 -> distinct l2.
Proof.
  induction 1 as [|x l1 l2 Hp IH|x y l|l1 l2 l3 _ IH1 _ IH2]; simpl; [done| | |by auto].
  - intros [Hx Hl]. split; [by rewrite <- Hp|auto].
  - intros [Hy [Hx Hl]]. apply Forall_cons in Hy as [Hxy Hy]. unfold absent in Hxy.
    split; [|done]. constructor; [|done]. unfold absent. by rewrite key_eq_sym.
Qed.
#[export] Instance distinct_proper : Proper ((≡ₚ) ==> iff) distinct.
Proof. intros l1 l2 Hp. split; by apply distinct_perm. Qed.

Lemma distinct_filter k l : distinct l -> distinct (filter (absent k) l).
Proof.
  induction l as [|x l IH]; [done|]. intros [Hx Hl]. rewrite filter_cons.
  case_decide; [|auto]. split; [by apply Forall_filter|auto].
Qed.

Lemma distinct_snoc l kv : distinct l -> Forall (absent kv.1) l -> distinct (l ++ [kv]).
Proof.
  intros Hl Hkv. rewrite <- Permutation_cons_append. by split.
Qed.

(** ** Tables built by stores *)

Lemma rawset_distinct l kv : distinct l -> distinct (rawset l kv).
Proof.
  intros Hl. unfold rawset. case_match; [by apply distinct_filter|].
  apply distinct_snoc; [by apply distinct_filter|]. apply Forall_forall. intros x Hx. by apply list_elem_of_filter in Hx as [? _].
Qed.

Lemma foldl_rawset_distinct sets : forall l, distinct l -> distinct (foldl rawset l sets).
Proof. induction sets as [|kv sets IH]; simpl; intros l Hl; [done|]. by apply IH, rawset_distinct. Qed.

Lemma table_of_distinct sets : distinct (table_of sets).
Proof. by apply foldl_rawset_distinct. Qed.

Lemma whole_integer_range d i : whole_integer d = Some i -> - 2 ^ 63 <= i < 2 ^ 63.
Proof.
  unfold whole_integer. destruct (whole d) as [x|]; [|done]. rewrite some_bind. cbn zeta.
  generalize (if Z.testbit d 63 then - x else x). intros y.
  destruct (Z.leb_spec (- 2 ^ 63) y), (Z.ltb_spec y (2 ^ 63)); simpl; intros [=]. lia.
Qed.

Lemma key_of_wf k : lv_wf k -> settable k -> lv_wf (key_of k) /\ key_ok (key_of k).
Proof.
  intros Hk Hs. destruct k as [| | |d| | | | |]; try (split; [exact Hk|exact I]); [by destruct Hs|].
  unfold key_of. destruct (whole_integer d) eqn:Hw; [|split; [exact Hk|by split]]. split; [|exact I]. constructor. by eapply whole_integer_range.
Qed.

Lemma table_of_wf sets :
  Forall (fun kv => lv_wf kv.1 /\ lv_wf kv.2 /\ settable kv.1) sets ->
  Forall (fun kv => lv_wf kv.1 /\ lv_wf kv.2 /\ key_ok kv.1 /\ is_nil kv.2 = false) (table_of sets).
Proof.
  unfold table_of. set (l := []) at 1. assert (Forall (fun kv => lv_wf kv.1 /\ lv_wf kv.2 /\ key_ok kv.1 /\ is_nil kv.2 = false) l) as Hl by constructor.
  clearbody l. revert l Hl. induction sets as [|[k v] sets IH]; intros l Hl Hsets; [done|].
  apply Forall_cons in Hsets as [(Hk & Hv & Hs) Hsets]. simpl. apply IH; [|done].
  destruct (key_of_wf k Hk Hs). unfold rawset. simpl. destruct (is_nil v) eqn:Hnil; [by apply Forall_filter|].
  apply Forall_app. split; [by apply Forall_filter|]. by repeat constructor.
Qed.

(** A concrete virtual machine: the traversal is the order of the stores, the
    length the first border. *)
Fixpoint border_from (fuel : nat) (kvs : list (lval * lval)) (i : Z) : Z :=
  match fuel with
  | O => i
  | S fuel => if is_nil (rawgeti kvs (i + 1)) then i else border_from fuel kvs (i + 1)
  end.
Definition first_border (n : Z) (sets : list (lval * lval)) : Z * list (lval * lval) :=
  (border_from (length (table_of sets)) (table_of sets) 0, table_of sets).

Lemma is_nil_true v : is_nil v = true <-> v = VNil.
Proof. by destruct v. Qed.

Definition int_keys (kvs : list (lval * lval)) : list Z :=
  omap (fun kv => match kv.1 with VInteger j => Some j | _ => None end) kvs.

Lemma rawgeti_int_key kvs i : rawgeti kvs i <> VNil -> i ∈ int_keys kvs.
Proof.
  induction kvs as [|[k v] kvs IH]; simpl; [done|]. unfold int_keys in *. simpl.
  destruct k; try done. destruct (Z.eqb_spec x i) as [->|Hne]; intros Hi; [by left|right; auto].
Qed.

Lemma length_omap {A B} (f : A -> option B) l : (length (omap f l) <= length l)%nat.
Proof.
  induction l as [|x l IH]; [done|].
  change (omap f (x :: l)) with (match f x with Some y => y :: omap f l | None => omap f l end).
  destruct (f x); cbn [length]; lia.
Qed.

Lemma border_room kvs n : (forall i, 1 <= i <= Z.of_nat n -> rawgeti kvs i <> VNil) -> (n <= length kvs)%nat.
Proof.
  intros Hn. rewrite <- (Nat2Z.id n), <- (length_seqZ 1 (Z.of_nat n)).
  trans (length (int_keys kvs)); [|apply length_omap].
  apply submseteq_length, NoDup_submseteq; [apply NoDup_seqZ|].
  intros i Hi. apply elem_of_seqZ in Hi. apply rawgeti_int_key, Hn. lia.
Qed.

Lemma border_from_border kvs fuel : forall i,
  0 <= i -> (forall j, 1 <= j <= i -> rawgeti kvs j <> VNil) -> (length kvs <= Z.to_nat i + fuel)%nat ->
  is_border kvs (border_from fuel kvs i).
Proof.
  induction fuel as [|fuel IH]; intros i Hi Hall Hlen; cbn [border_from].
  - split; [done|]. split; [destruct (decide (i = 0)); [by left|right; apply Hall; lia]|].
    destruct (is_nil (rawgeti kvs (i + 1))) eqn:Hnil; [by apply is_nil_true|].
    assert (S (Z.to_nat i) <= length kvs)%nat; [|lia]. apply border_room. intros j Hj.
    destruct (decide (j = i + 1)) as [->|]; [|apply Hall; lia]. intros He. by rewrite He in Hnil.
  - destruct (is_nil (rawgeti kvs (i + 1))) eqn:Hnil.
    + split; [done|]. split; [destruct (decide (i = 0)); [by left|right; apply Hall; lia]|by apply is_nil_true].
    + apply IH; [lia| |lia]. intros j Hj. destruct (decide (j = i + 1)) as [->|]; [|apply Hall; lia].
      intros He. by rewrite He in Hnil.
Qed.

#[export] Instance first_border_lawful : @LawfulTables first_border.
Proof.
  split; intros n sets; [done|]. apply border_from_border; [done|intros; lia|simpl; lia].
Qed.

(** ** Reading is reading from a string *)

(** [rb] has the bytes [bs] before it. *)
Definition sees (rb : read_block) (bs : list Z) : Prop :=
  0 <= rb_ptr rb /\ rb_len rb = zlen bs /\ zlen (buffer rb) = rb_ptr rb + zlen bs /\
  drop (Z.to_nat (rb_ptr rb)) (buffer rb) = bs.

Lemma sees_init bs : sees (rball_init bs (zlen bs)) bs.
Proof. by repeat split. Qed.

Lemma rb_read_sees rb bs sz : sees rb bs -> 0 <= sz <= zlen bs ->
  exists rb', rb_read rb sz = Some (rb_ptr rb, rb') /\ sees rb' (drop (Z.to_nat sz) bs) /\
    bytes_at rb' (rb_ptr rb) sz = Some (take (Z.to_nat sz) bs).
Proof.
  intros (Hp & Hl & Hb & Hd) Hsz. unfold rb_read. destruct (Z.ltb_spec (rb_len rb) sz); [lia|].
  eexists. split; [done|]. split.
  - unfold sees. cbn [rb_ptr rb_len buffer]. rewrite zlen_drop by lia. repeat split; [lia..|].
    rewrite <- Hd, drop_drop. f_equal. lia.
  - unfold bytes_at. cbn [buffer]. rewrite (proj2 (Z.leb_le 0 (rb_ptr rb))), (proj2 (Z.leb_le 0 sz)) by lia.
    rewrite (proj2 (Z.leb_le (rb_ptr rb + sz) (zlen (buffer rb)))) by lia. by rewrite Hd.
Qed.

Lemma rb_read_short rb bs sz : sees rb bs -> zlen bs < sz -> rb_read rb sz = None.
Proof. intros (Hp & Hl & Hb & Hd) Hsz. unfold rb_read. destruct (Z.ltb_spec (rb_len rb) sz); [done|lia]. Qed.

Lemma get_bytes_sees rb (x y : list Z) sz line : sees rb (x ++ y) -> zlen x = sz ->
  exists rb', get_bytes rb sz line = Ret (x, rb') /\ sees rb' y.
Proof.
  intros Hs Hx. pose proof (zlen_nonneg x). pose proof (zlen_nonneg y).
  destruct (rb_read_sees rb (x ++ y) sz Hs) as (rb' & Hr & Hs' & Hb); [rewrite zlen_app; lia|].
  exists rb'. unfold get_bytes. rewrite Hr, Hb. subst sz. unfold zlen in *. rewrite Nat2Z.id in *.
  rewrite take_app_length. by rewrite drop_app_length in Hs'.
Qed.

Lemma get_buffer_sees rb (x y : list Z) len : sees rb (x ++ y) -> zlen x = len ->
  exists rb', get_buffer rb len = Ret (x, rb') /\ sees rb' y.
Proof.
  intros Hs Hx. pose proof (zlen_nonneg x). pose proof (zlen_nonneg y).
  destruct (rb_read_sees rb (x ++ y) len Hs) as (rb' & Hr & Hs' & Hb); [rewrite zlen_app; lia|].
  exists rb'. unfold get_buffer. rewrite Hr. destruct (Z.ltb_spec len 0); [lia|]. rewrite Hb. subst len. unfold zlen in *. rewrite Nat2Z.id in *.
  rewrite take_app_length. by rewrite drop_app_length in Hs'.
Qed.

(** A reading operation on the bytes [bs]: it stays inside, takes at least [n] of
    them, and its result is a [P], unless it raises an error. *)
Definition reads {A} (bs : list Z) (n : Z) (P : A -> Prop) (o : outcome (A * read_block)) : Prop :=
  match o with
  | Ret (x, rb) => P x /\ exists bs', sees rb bs' /\ is_bytes bs' /\ zlen bs' + n <= zlen bs
  | Raise _ => True
  | Undef => False
  end.

Lemma reads_ret {A} rb bs (P : A -> Prop) x : sees rb bs -> is_bytes bs -> P x -> reads bs 0 P (Ret (x, rb)).
Proof. intros Hs Hb HP. split; [done|]. exists bs. repeat split; [apply Hs..|done|lia]. Qed.

Lemma reads_bind {A B} bs n m (P : A -> Prop) (Q : B -> Prop) o f :
  reads bs n P o -> 
  (forall x rb bs', P x -> sees rb bs' -> is_bytes bs' -> zlen bs' + n <= zlen bs -> reads bs' m Q (f (x, rb))) ->
  reads bs (n + m) Q (o ≫= f).
Proof.
  destruct o as [[x rb]|msg|]; [|done..]. intros (HP & bs' & Hs & Hb & Hn) Hf. rewrite ret_bind.
  specialize (Hf x rb bs' HP Hs Hb Hn). unfold reads in *. destruct (f (x, rb)) as [[y rb2]|msg|]; [|done..].
  destruct Hf as (HQ & bs2 & Hs2 & Hb2 & Hm). split; [done|]. exists bs2. repeat split; [apply Hs2..|done|lia].
Qed.

Lemma reads_weaken {A} bs n m (P Q : A -> Prop) o : reads bs n P o -> m <= n -> (forall x, P x -> Q x) -> reads bs m Q o.
Proof.
  destruct o as [[x rb]|msg|]; [|done..]. intros (HP & bs' & Hs & Hb & Hn) Hm HPQ. split; [auto|].
  exists bs'. repeat split; [apply Hs..|done|lia].
Qed.

Lemma get_bytes_reads rb bs sz line : sees rb bs -> is_bytes bs -> 0 <= sz ->
  reads bs sz (fun x : list Z => is_bytes x /\ zlen x = sz) (get_bytes rb sz line).
Proof.
  intros Hs Hb Hsz. destruct (Z.le_gt_cases sz (zlen bs)) as [Hle|Hgt].
  - destruct (get_bytes_sees rb (take (Z.to_nat sz) bs) (drop (Z.to_nat sz) bs) sz line) as (rb' & -> & Hs').
    + by rewrite take_drop.
    + by rewrite zlen_take by lia.
    + split; [split; [auto with skynet|by rewrite zlen_take by lia]|].
      exists (drop (Z.to_nat sz) bs). split; [done|]. split; [auto with skynet|]. rewrite zlen_drop by lia. lia.
  - unfold get_bytes. by rewrite (rb_read_short rb bs sz).
Qed.

(** A word of at most eight bytes. *)
Lemma get_word_reads {A} rb bs sz line (f : Z -> A) (P : A -> Prop) : sees rb bs -> is_bytes bs -> 0 <= sz ->
  (forall v, 0 <= v < 2 ^ (8 * sz) -> P (f v)) ->
  reads bs sz P ('(n, rb) ← get_bytes rb sz line; Ret (f (le_value n), rb)).
Proof.
  intros Hs Hb Hsz Hf. eapply reads_weaken; [eapply (reads_bind _ _ 0); [by apply get_bytes_reads|]|lia|done].
  intros x rb' bs' [Hx Hlen] Hs' Hb' Hn. apply reads_ret; [done|done|]. apply Hf. rewrite <- Hlen. by apply le_value_range.
Qed.

Lemma get_buffer_reads rb bs len : sees rb bs -> is_bytes bs -> reads bs 0 is_bytes (get_buffer rb len).
Proof.
  intros Hs Hb. destruct (Z.le_gt_cases len (zlen bs)) as [Hle|Hgt].
  - destruct (Z.le_gt_cases 0 len).
    + destruct (get_buffer_sees rb (take (Z.to_nat len) bs) (drop (Z.to_nat len) bs) len) as (rb' & -> & Hs').
      * by rewrite take_drop.
      * by rewrite zlen_take by lia.
      * split; [auto with skynet|].
        exists (drop (Z.to_nat len) bs). split; [done|]. split; [auto with skynet|]. rewrite zlen_drop by lia. lia.
    + unfold get_buffer. destruct (rb_read rb len) as [[p rb']|]; [|done]. by destruct (Z.ltb_spec len 0); [|lia].
  - unfold get_buffer. by rewrite (rb_read_short rb bs len).
Qed.

Definition is_int64 (x : Z) : Prop := - 2 ^ 63 <= x < 2 ^ 63.

Lemma get_integer_reads rb bs cookie : sees rb bs -> is_bytes bs -> reads bs 0 is_int64 (get_integer rb cookie).
Proof.
  intros Hs Hb. unfold get_integer.
  case_match; [by apply reads_ret|].
  assert (forall sz line (f : Z -> Z), 0 <= sz -> (forall v, 0 <= v < 2 ^ (8 * sz) -> is_int64 (f v)) ->
    reads bs 0 is_int64 ('(n, rb) ← get_bytes rb sz line; Ret (f (le_value n), rb))) as Hw.
  { intros sz line f Hsz Hf. eapply reads_weaken; [by apply get_word_reads|lia|done]. }
  unfold is_int64 in *.
  case_match; [apply (Hw 1 368 (fun v => v)); lia|].
  case_match; [apply (Hw 2 376 (fun v => v)); lia|].
  case_match; [apply (Hw 4 384 i32); [lia|]|].
  { intros v _. pose proof (sgn_range 32 v ltac:(lia)). unfold i32. lia. }
  case_match; [apply (Hw 8 392 i64); [lia|]|done].
  intros v _. apply (sgn_range 64 v). lia.
Qed.

(** ** Unpacking any bytes *)

Section unpack_reads.
Context `{Lw : LawfulTables}.

Definition set_wf (kv : lval * lval) : Prop := lv_wf kv.1 /\ lv_wf kv.2 /\ settable kv.1.

Lemma built_wf n sets : Forall set_wf sets -> lv_wf (VTable (built n sets).1 (built n sets).2).
Proof.
  intros Hs. pose proof (built_contents n sets) as Hc. constructor.
  - rewrite Hc. by apply table_of_wf.
  - rewrite Hc. apply table_of_distinct.
  - apply built_border.
Qed.

Section tables.
Context (p : read_block -> outcome (lval * read_block)) (F : Z).
Context (Hp : forall rb bs, sees rb bs -> is_bytes bs -> zlen bs < F -> reads bs 1 lv_wf (p rb)).

Lemma unpack_array_reads fuel : forall rb bs i m sets,
  sees rb bs -> is_bytes bs -> zlen bs < F -> zlen bs < Z.of_nat fuel -> 1 <= i -> m < 2 ^ 31 -> Forall set_wf sets ->
  reads bs 0 (Forall set_wf) (unpack_array p fuel rb i m sets).
Proof using Lw Hp.
  induction fuel as [|fuel IH]; intros rb bs i m sets Hs Hb HF Hfuel Hi Hm Hsets;
    [pose proof (zlen_nonneg bs); lia|].
  cbn [unpack_array]. destruct (Z.leb_spec i m); [|by apply reads_ret].
  apply (reads_weaken bs (1 + 0) 0 (Forall set_wf)); [|lia|done].
  eapply (reads_bind _ _ _ lv_wf); [by apply Hp|]. intros v rb' bs' Hv Hs' Hb' Hn.
  apply IH; [done|done|lia..|]. apply Forall_app. split; [done|]. constructor; [|done].
  split; [constructor; lia|]. split; [done|exact I].
Qed.

Lemma unpack_hash_reads fuel : forall rb bs sets,
  sees rb bs -> is_bytes bs -> zlen bs < F -> zlen bs < Z.of_nat fuel -> Forall set_wf sets ->
  reads bs 0 (Forall set_wf) (unpack_hash p fuel rb sets).
Proof using Lw Hp.
  induction fuel as [|fuel IH]; intros rb bs sets Hs Hb HF Hfuel Hsets; [pose proof (zlen_nonneg bs); lia|].
  cbn [unpack_hash]. apply (reads_weaken bs (1 + 0) 0 (Forall set_wf)); [|lia|done].
  eapply (reads_bind _ _ _ lv_wf); [by apply Hp|]. intros k rb1 bs1 Hk Hs1 Hb1 Hn1.
  destruct (is_nil k) eqn:Hnil; [by apply reads_ret|].
  apply (reads_weaken bs1 (1 + 0) 0 (Forall set_wf)); [|lia|done].
  eapply (reads_bind _ _ _ lv_wf); [apply Hp; [done|done|lia]|]. intros v rb2 bs2 Hv Hs2 Hb2 Hn2.
  destruct (match k with VNumber d => is_nan d | _ => false end) eqn:Hnan; [done|].
  apply IH; [done|done|lia|lia|]. apply Forall_app. split; [done|]. constructor; [|done].
  split; [done|]. split; [done|]. by destruct k.
Qed.

Lemma table_size_reads rb bs cookie : sees rb bs -> is_bytes bs -> cookie < 2 ^ 31 ->
  reads bs 0 (fun m => m < 2 ^ 31) (table_size rb cookie).
Proof.
  intros Hs Hb Hc. unfold table_size. case_match; [|by apply reads_ret].
  apply (reads_weaken bs (1 + 0) 0 (fun m => m < 2 ^ 31)); [|lia|done].
  eapply reads_bind; [by apply get_bytes_reads|]. intros t rb1 bs1 _ Hs1 Hb1 _. cbn zeta. case_match; [done|].
  eapply (reads_bind _ 0 0); [by apply get_integer_reads|]. intros n rb2 bs2 _ Hs2 Hb2 _.
  apply reads_ret; [done|done|]. apply (sgn_range 32 n). lia.
Qed.

Lemma unpack_table_reads fuel rb bs cookie :
  sees rb bs -> is_bytes bs -> zlen bs < F -> zlen bs < Z.of_nat fuel -> cookie < 2 ^ 31 ->
  reads bs 0 lv_wf (unpack_table p fuel rb cookie).
Proof using Lw Hp.
  intros Hs Hb HF Hfuel Hc. unfold unpack_table.
  eapply (reads_bind _ 0 0); [by apply table_size_reads|]. intros m rb1 bs1 Hm Hs1 Hb1 Hn1. cbn beta in Hm.
  eapply (reads_bind _ 0 0 (Forall set_wf)); [apply unpack_array_reads; [done|done|lia|lia|lia|lia|done]|].
  intros sets1 rb2 bs2 Hsets1 Hs2 Hb2 Hn2.
  eapply (reads_bind _ 0 0 (Forall set_wf)); [apply unpack_hash_reads; [done|done|lia|lia|done]|].
  intros sets2 rb3 bs3 Hsets2 Hs3 Hb3 Hn3.
  pose proof (built_wf m sets2 Hsets2) as Hw. destruct (built m sets2) as [n kvs]. by apply reads_ret.
Qed.

Lemma push_value_reads fuel rb bs type cookie :
  sees rb bs -> is_bytes bs -> zlen bs < F -> zlen bs < Z.of_nat fuel -> cookie < 2 ^ 31 ->
  reads bs 0 lv_wf (push_value p fuel rb type cookie).
Proof using Lw Hp.
  intros Hs Hb HF Hfuel Hc. unfold push_value.
  assert (forall rb bs len, sees rb bs -> is_bytes bs -> reads bs 0 lv_wf ('(s, rb) ← get_buffer rb len; Ret (VString s, rb))) as Hbuf.
  { intros rb0 bs0 len Hs0 Hb0. eapply (reads_bind _ 0 0); [by apply get_buffer_reads|].
    intros s rb1 bs1 Hstr Hs1 Hb1 _. apply reads_ret; [done..|by constructor]. }
  assert (forall sz line (f : Z -> Z), 0 <= sz -> reads bs 0 lv_wf
            ('(n, rb) ← get_bytes rb sz line; '(s, rb) ← get_buffer rb (f (le_value n)); Ret (VString s, rb))) as Hlong.
  { intros sz line f Hsz. apply (reads_weaken bs (sz + 0) 0 lv_wf); [|lia|done].
    eapply reads_bind; [by apply get_bytes_reads|]. intros n rb1 bs1 _ Hs1 Hb1 _. by apply Hbuf. }
  case_match; [by apply reads_ret; [..|constructor]|].
  case_match; [by apply reads_ret; [..|constructor]|].
  case_match; [case_match|].
  - unfold get_real. eapply (reads_bind _ 0 0 is_u64).
    + eapply reads_weaken; [apply (get_word_reads rb bs 8 407 (fun d => d) is_u64); [done|done|lia|done]|lia|done].
    + intros d rb1 bs1 Hd Hs1 Hb1 _. apply reads_ret; [done..|by constructor].
  - eapply (reads_bind _ 0 0); [by apply get_integer_reads|].
    intros n rb1 bs1 Hd Hs1 Hb1 _. apply reads_ret; [done..|by constructor].
  - case_match; [|case_match; [by apply Hbuf|]].
    + unfold get_pointer. eapply (reads_bind _ 0 0 is_u64).
      * eapply reads_weaken; [apply (get_word_reads rb bs 8 417 (fun d => d) is_u64); [done|done|lia|done]|lia|done].
      * intros d rb1 bs1 Hd Hs1 Hb1 _. apply reads_ret; [done..|by constructor].
    + case_match; [|case_match; [by apply unpack_table_reads|done]].
      case_match; [by apply (Hlong 2 493 (fun n => n))|]. case_match; [done|]. by apply (Hlong 4 504 i32).
Qed.
End tables.

Lemma tag_cookie_range (t : list Z) : is_bytes t -> zlen t = 1 -> 0 <= Z.shiftr (le_value t) 3 < 32.
Proof.
  intros Ht Hl. pose proof (le_value_range t Ht) as Hr. rewrite Hl in Hr. rewrite Z.shiftr_div_pow2 by lia.
  change (2 ^ (8 * 1)) with 256 in Hr. change (2 ^ 3) with 8. split; [apply Z.div_pos; lia|apply Z.div_lt_upper_bound; lia].
Qed.

Lemma unpack_one_reads fuel : forall rb bs,
  sees rb bs -> is_bytes bs -> zlen bs < Z.of_nat fuel -> reads bs 1 lv_wf (unpack_one fuel rb).
Proof.
  induction fuel as [|fuel IH]; intros rb bs Hs Hb Hfuel; [pose proof (zlen_nonneg bs); lia|].
  cbn [unpack_one]. eapply (reads_bind _ 1 0); [by apply get_bytes_reads|].
  intros t rb1 bs1 [Ht Hlt] Hs1 Hb1 Hn1. cbn zeta. pose proof (tag_cookie_range t Ht Hlt).
  apply (push_value_reads _ (Z.of_nat fuel)); [done|done|done|lia..].
Qed.

Lemma unpack_loop_safe fuel : forall rb bs vs,
  sees rb bs -> is_bytes bs -> zlen bs < Z.of_nat fuel -> Forall lv_wf vs ->
  match unpack_loop fuel rb vs with Ret vs' => Forall lv_wf vs' | Raise _ => True | Undef => False end.
Proof.
  induction fuel as [|fuel IH]; intros rb bs vs Hs Hb Hfuel Hvs; [pose proof (zlen_nonneg bs); lia|].
  cbn [unpack_loop]. destruct bs as [|b bs]; [by rewrite (rb_read_short rb []) by done|].
  destruct (rb_read_sees rb (b :: bs) 1 Hs) as (rb' & -> & Hs' & ->); [rewrite zlen_cons; pose proof (zlen_nonneg bs); lia|].
  change (take (Z.to_nat 1) (b :: bs)) with [b] in *. change (drop (Z.to_nat 1) (b :: bs)) with bs in *.
  apply is_bytes_cons in Hb as [Hb0 Hb]. rewrite zlen_cons in Hfuel. rewrite chk_some, ret_bind. cbn zeta.
  assert (is_bytes [b]) as Hb1 by (by apply Forall_cons). pose proof (tag_cookie_range [b] Hb1 eq_refl).
  pose proof (push_value_reads (unpack_one fuel) (Z.of_nat fuel) (unpack_one_reads fuel) fuel rb' bs
    (Z.land (le_value [b]) 7) (Z.shiftr (le_value [b]) 3) Hs' Hb ltac:(lia) ltac:(lia) ltac:(lia)) as Hpush.
  destruct (push_value _ _ _ _ _) as [[v rb2]|msg|]; [|done..].
  destruct Hpush as (Hv & bs2 & Hs2 & Hb2 & Hn2). rewrite ret_bind. apply (IH rb2 bs2); [done|done|lia|].
  apply Forall_app. split; [done|]. by constructor.
Qed.
End unpack_reads.

(** ** Unpacking what was packed *)

(** [v'] is a copy of [v]: tables are new ones with the same pairs in some order; a
    table with [__pairs] becomes the table of the pairs that the iterator gave. *)
Definition scalar (v : lval) : Prop :=
  match v with VTable _ _ | VPairs _ | VOther _ => False | _ => True end.
Inductive same : lval -> lval -> Prop :=
| same_scalar v : scalar v -> same v v
| same_table n kvs n' kvs' kvs'' :
    Forall2 (fun a b => same a.1 b.1 /\ same a.2 b.2) kvs kvs'' -> kvs' ≡ₚ kvs'' ->
    same (VTable n kvs) (VTable n' kvs')
| same_pairs kvs n' kvs' kvs'' :
    Forall2 (fun a b => same a.1 b.1 /\ same a.2 b.2) kvs kvs'' -> kvs' ≡ₚ table_of kvs'' ->
    same (VPairs kvs) (VTable n' kvs').
Definition psame (a b : lval * lval) : Prop := same a.1 b.1 /\ same a.2 b.2.

(** What [pack_one] takes when [room] levels are left. *)
Fixpoint fits (room : nat) (v : lval) : bool :=
  match room with
  | O => false
  | S room =>
    match v with
    | VString s => zlen s <? 2 ^ 31
    | VTable n kvs => (n <? 2 ^ 31) && forallb (fun kv => fits room kv.1 && fits room kv.2) kvs
    | VPairs kvs => forallb (fun kv => fits room kv.1 && fits room kv.2) kvs
    | VOther _ => false
    | _ => true
    end
  end.

Lemma fits_pairs room kvs : forallb (fun kv => fits room kv.1 && fits room kv.2) kvs = true ->
  Forall (fun kv => fits room kv.1 /\ fits room kv.2) kvs.
Proof.
  induction kvs as [|kv kvs IH]; [constructor|]. intros [[H1 H2]%andb_true_iff H3]%andb_true_iff.
  constructor; [by rewrite H1, H2|auto].
Qed.

Lemma same_nil v v' : same v v' -> is_nil v' = is_nil v.
Proof. by destruct 1. Qed.

Lemma same_key_eq k1 k1' k2 k2' : same k1 k1' -> same k2 k2' -> key_eq k1 k2 = false -> key_eq k1' k2' = false.
Proof. destruct 1, 1; simpl; try done; by destruct v. Qed.

Lemma same_integer i v : same (VInteger i) v -> v = VInteger i.
Proof. by inversion 1. Qed.

Lemma psame_absent a a' l l' : psame a a' -> Forall2 psame l l' -> Forall (absent a.1) l -> Forall (absent a'.1) l'.
Proof.
  intros [Ha _] Hl. induction Hl as [|b b' l l' [Hb _] Hl IH]; [constructor|].
  intros [Hab Hal]%Forall_cons. constructor; [|auto]. by eapply same_key_eq.
Qed.

Lemma distinct_psame l l' : Forall2 psame l l' -> distinct l -> distinct l'.
Proof.
  induction 1 as [|a a' l l' Ha Hl IH]; [done|]. intros [Hd1 Hd2]. split; [by eapply psame_absent|auto].
Qed.

Definition nonnil (kv : lval * lval) : Prop := is_nil kv.2 = false.
#[export] Instance nonnil_dec kv : Decision (nonnil kv).
Proof. unfold nonnil. apply _. Defined.

Lemma filter_nonnil_psame l l' : Forall2 psame l l' -> Forall2 psame (filter nonnil l) (filter nonnil l').
Proof.
  induction 1 as [|a a' l l' Ha Hl IH]; [constructor|]. rewrite !filter_cons.
  pose proof (same_nil _ _ (proj2 Ha)) as Hn. repeat case_decide; unfold nonnil in *; try congruence; by try constructor.
Qed.

Lemma distinct_mid l kv r : distinct (l ++ kv :: r) -> Forall (absent kv.1) l.
Proof.
  induction l as [|x l IH]; simpl; [constructor|]. intros [Hx Hl].
  apply Forall_app in Hx as [_ [Hx _]%Forall_cons]. constructor; [|auto]. unfold absent in *. by rewrite key_eq_sym.
Qed.

Lemma foldl_rawset_new sets : forall l,
  distinct (l ++ sets) -> Forall (fun kv => key_of kv.1 = kv.1) sets ->
  foldl rawset l sets = l ++ filter nonnil sets.
Proof.
  induction sets as [|[k v] sets IH]; intros l Hd Hk; [by rewrite app_nil_r|].
  apply Forall_cons in Hk as [Hkv Hk]. simpl in Hkv. cbn [foldl]. pose proof (distinct_mid l (k, v) sets Hd) as Habs.
  assert (rawset l (k, v) = if is_nil v then l else l ++ [(k, v)]) as ->.
  { unfold rawset. cbn [fst snd]. rewrite Hkv. by rewrite (list_filter_Forall_all _ l) by done. }
  rewrite filter_cons. destruct (is_nil v) eqn:Hv.
  - rewrite decide_False by (unfold nonnil; simpl; congruence). apply IH; [|done].
    revert Hd. by rewrite <- Permutation_middle; intros [_ Hd].
  - rewrite decide_True by done. rewrite IH; [by rewrite <- app_assoc|by rewrite <- app_assoc|done].
Qed.

Lemma table_of_new sets :
  distinct sets -> Forall (fun kv => key_of kv.1 = kv.1) sets -> table_of sets = filter nonnil sets.
Proof. intros. by rewrite <- (app_nil_l (filter nonnil sets)), <- foldl_rawset_new. Qed.

(** *** The pairs of a table, array items first *)

Definition array_pairs (m : Z) (kvs : list (lval * lval)) : list (lval * lval) :=
  (fun i => (VInteger i, rawgeti kvs i)) <$> seqZ 1 m.

Lemma distinct_app l1 l2 : distinct l1 -> distinct l2 -> Forall (fun kv => Forall (absent kv.1) l2) l1 -> distinct (l1 ++ l2).
Proof.
  induction l1 as [|x l1 IH]; [done|]. intros [Hx H1] H2 [Hx2 H12]%Forall_cons. split; [by apply Forall_app|auto].
Qed.

Lemma distinct_filter_gen P `{!forall x, Decision (P x)} l : distinct l -> distinct (filter P l).
Proof.
  induction l as [|x l IH]; [done|]. intros [Hx Hl]. rewrite filter_cons.
  case_decide; [|auto]. split; [by apply Forall_filter|auto].
Qed.

Lemma in_array_spec m k : in_array m k = true <-> exists i, k = VInteger i /\ 1 <= i <= m.
Proof.
  destruct k; simpl; split; try done; try (by intros (? & ? & ?)).
  - intros [H1%Z.ltb_lt H2%Z.leb_le]%andb_true_iff. exists x. split; [done|lia].
  - intros (i & [= ->] & Hi). apply andb_true_iff. split; [apply Z.ltb_lt|apply Z.leb_le]; lia.
Qed.

Lemma array_pairs_distinct m kvs : distinct (array_pairs m kvs).
Proof.
  unfold array_pairs. pose proof (NoDup_seqZ 1 m) as Hnd. induction Hnd as [|i l Hi Hnd IH]; [done|].
  split; [|done]. apply Forall_fmap, Forall_forall. intros j Hj. unfold absent. simpl. apply Z.eqb_neq. by intros ->.
Qed.

Lemma parts_distinct m kvs : distinct kvs -> distinct (array_pairs m kvs ++ filter (outside m) kvs).
Proof.
  intros Hd. apply distinct_app; [apply array_pairs_distinct|by apply distinct_filter_gen|].
  apply Forall_fmap, Forall_forall. intros i [Hi1 Hi2]%elem_of_seqZ. apply Forall_forall.
  intros [k v] [Ho _]%list_elem_of_filter. unfold absent, outside in *. simpl in *. destruct k; try done.
  apply Z.eqb_neq. intros ->. apply not_true_iff_false in Ho. apply Ho, in_array_spec. exists x. split; [done|lia].
Qed.

Lemma rawgeti_elem kvs i v : distinct kvs -> (VInteger i, v) ∈ kvs -> rawgeti kvs i = v.
Proof.
  induction kvs as [|[k w] kvs IH]; [set_solver|]. intros [Hk Hd] [[= <- <-]|Hin]%elem_of_cons.
  - simpl. by rewrite Z.eqb_refl.
  - simpl. rewrite Forall_forall in Hk. specialize (Hk _ Hin). unfold absent in Hk. simpl in Hk.
    destruct k; auto. by destruct (Z.eqb_spec x i); [subst; simpl in Hk; lia|auto].
Qed.

Lemma rawgeti_found kvs i : rawgeti kvs i <> VNil -> (VInteger i, rawgeti kvs i) ∈ kvs.
Proof.
  induction kvs as [|[k w] kvs IH]; simpl; [done|]. intros Hne.
  destruct k; try (right; by apply IH). destruct (Z.eqb_spec x i) as [->|]; [by left|right; by apply IH].
Qed.

Lemma in_array_NoDup m kvs : distinct kvs -> NoDup (filter (fun kv => ~ outside m kv) kvs).
Proof.
  induction kvs as [|[k v] kvs IH]; intros Hd; [constructor|]. destruct Hd as [Hk Hd]. rewrite filter_cons.
  case_decide as Ho; [|auto]. constructor; [|auto]. intros [_ Hin]%list_elem_of_filter.
  rewrite Forall_forall in Hk. specialize (Hk _ Hin). unfold outside in Ho. simpl in Ho. apply not_false_iff_true in Ho.
  apply in_array_spec in Ho as (i & -> & _). unfold absent in Hk. simpl in Hk. lia.
Qed.

Lemma array_part_perm m kvs : distinct kvs -> Forall nonnil kvs ->
  filter (fun kv => ~ outside m kv) kvs ≡ₚ filter nonnil (array_pairs m kvs).
Proof.
  intros Hd Hn. apply NoDup_Permutation; [by apply in_array_NoDup| |].
  { apply NoDup_filter. apply NoDup_fmap_2; [|apply NoDup_seqZ]. intros i j. by intros [= ->]. }
  intros [k v]. rewrite !list_elem_of_filter. unfold array_pairs. rewrite list_elem_of_fmap. unfold outside, nonnil. simpl.
  rewrite not_false_iff_true, in_array_spec. rewrite Forall_forall in Hn. split.
  - intros [(i & -> & Hi) Hin]. split; [by apply (Hn _ Hin)|]. exists i.
    rewrite (rawgeti_elem _ _ _ Hd Hin). split; [done|]. apply elem_of_seqZ. lia.
  - intros [Hv (i & [= -> ->] & Hi%elem_of_seqZ)]. split; [exists i; split; [done|lia]|].
    apply rawgeti_found. intros He. by rewrite He in Hv.
Qed.

Lemma parts_perm m kvs : distinct kvs -> Forall nonnil kvs ->
  filter nonnil (array_pairs m kvs ++ filter (outside m) kvs) ≡ₚ kvs.
Proof.
  intros Hd Hn. rewrite filter_app, <- array_part_perm by done.
  rewrite (list_filter_Forall_all nonnil (filter _ _)) by (by apply Forall_filter). apply filter_perm_app.
Qed.

(** The table that the stores of a copy make is a copy. *)
Lemma stores_same m kvs sets n' kvs' n :
  distinct kvs -> Forall nonnil kvs -> Forall (fun kv => key_ok kv.1) kvs ->
  Forall2 psame (array_pairs m kvs ++ filter (outside m) kvs) sets -> kvs' ≡ₚ table_of sets ->
  same (VTable n kvs) (VTable n' kvs').
Proof.
  intros Hd Hn Hk Hs Hkvs'. pose proof (distinct_psame _ _ Hs (parts_distinct m kvs Hd)) as Hds.
  destruct (Permutation_Forall2 (P := psame) (parts_perm m kvs Hd Hn) (filter_nonnil_psame _ _ Hs)) as (kvs'' & Hp & H2).
  apply (same_table n kvs n' kvs' kvs''); [done|]. rewrite Hkvs', table_of_new; [done|done|].
  assert (Forall (fun kv => key_of kv.1 = kv.1) (array_pairs m kvs ++ filter (outside m) kvs)) as Hnorm.
  { apply Forall_app. split; [by apply Forall_fmap, Forall_true|]. apply Forall_filter.
    eapply Forall_impl; [exact Hk|]. intros [k v] Hkk. cbn [fst] in *. unfold key_of.
    destruct k; try exact eq_refl. destruct Hkk as [_ Hw]. by rewrite Hw. }
  clear -Hs Hnorm. induction Hs as [|a b l l' [Hab _] Hs IH]; [constructor|].
  apply Forall_cons in Hnorm as [Ha Hl]. constructor; [|auto]. by destruct Hab.
Qed.

(** *** Reading what the reference encoder wrote *)

Lemma get_integer_enc v : is_int64 v ->
  exists c data, enc_integer v = (2 + 8 * c) :: data /\ 0 <= c < 8 /\ is_bytes data /\
    forall rb rest, sees rb (data ++ rest) -> exists rb', get_integer rb c = Ret (v, rb') /\ sees rb' rest.
Proof.
  intros Hv. unfold is_int64 in Hv. unfold enc_integer.
  destruct (Z.eqb_spec v 0) as [->|Hv0].
  { exists 0, []. split; [done|]. split; [done|]. split; [constructor|]. intros rb rest Hs. by exists rb. }
  assert (forall n line (f : Z -> Z) rb rest, sees rb (le_bytes n v ++ rest) -> f (v mod 2 ^ (8 * Z.of_nat n)) = v ->
    exists rb', ('(x, rb) ← get_bytes rb (Z.of_nat n) line; Ret (f (le_value x), rb)) = Ret (v, rb') /\ sees rb' rest) as Hget.
  { intros n line f rb rest Hs Hf. destruct (get_bytes_sees rb (le_bytes n v) rest (Z.of_nat n) line Hs) as (rb' & -> & Hs').
    - apply zlen_le_bytes.
    - exists rb'. rewrite ret_bind, le_value_bytes. by rewrite Hf. }
  destruct (Z.eqb_spec v (i32 v)) as [H32|H32]; cbn [negb].
  - pose proof (sgn_range 32 v ltac:(lia)) as Hr. fold (i32 v) in Hr. rewrite <- H32 in Hr.
    assert (i32 (v mod 2 ^ (8 * Z.of_nat 4)) = v) as H4.
    { change (v mod 2 ^ (8 * Z.of_nat 4)) with (wrap 32 v). unfold i32. by rewrite sgn_wrap. }
    assert (0 <= v -> v < 2 ^ 16 -> v mod 2 ^ (8 * Z.of_nat 2) = v) as H2 by (intros; apply Z.mod_small; simpl; lia).
    assert (0 <= v -> v < 2 ^ 8 -> v mod 2 ^ (8 * Z.of_nat 1) = v) as H1 by (intros; apply Z.mod_small; simpl; lia).
    destruct (Z.ltb_spec v 0); [|destruct (Z.ltb_spec v 0x100); [|destruct (Z.ltb_spec v 0x10000)]].
    + exists 4, (le_bytes 4 v). split; [done|]. split; [done|]. split; [auto with skynet|]. intros rb rest Hs. by apply (Hget 4%nat 384 i32).
    + exists 1, (le_bytes 1 v). split; [done|]. split; [done|]. split; [auto with skynet|]. intros rb rest Hs. apply (Hget 1%nat 368 (fun x => x)); auto.
    + exists 2, (le_bytes 2 v). split; [done|]. split; [done|]. split; [auto with skynet|]. intros rb rest Hs. apply (Hget 2%nat 376 (fun x => x)); auto.
    + exists 4, (le_bytes 4 v). split; [done|]. split; [done|]. split; [auto with skynet|]. intros rb rest Hs. by apply (Hget 4%nat 384 i32).
  - exists 6, (le_bytes 8 v). split; [done|]. split; [done|]. split; [auto with skynet|]. intros rb rest Hs.
    apply (Hget 8%nat 392 i64); [done|]. change (v mod 2 ^ (8 * Z.of_nat 8)) with (wrap 64 v).
    unfold i64. rewrite sgn_wrap by lia. apply sgn_small; lia.
Qed.

Lemma tag_split t c : 0 <= t < 8 -> 0 <= c -> Z.land (t + 8 * c) 7 = t /\ Z.shiftr (t + 8 * c) 3 = c.
Proof.
  intros Ht Hc. rewrite land_7, Z.shiftr_div_pow2 by lia. change (2 ^ 3) with 8. split.
  - rewrite Z.mul_comm, Z.mod_add by lia. by apply Z.mod_small.
  - rewrite Z.mul_comm, Z.div_add, Z.div_small by lia. lia.
Qed.

Lemma COMBINE_TYPE_tag t c : 0 <= t < 8 -> 0 <= c < 32 -> u8 (COMBINE_TYPE t c) = t + 8 * c.
Proof.
  intros Ht Hc. rewrite COMBINE_TYPE_add by (unfold is_u; lia). unfold u8. rewrite wrap_small by (unfold is_u; lia). lia.
Qed.

Section roundtrip.
Context `{Lw : LawfulTables}.

(** The reader [p] reads a copy of [v] from the bytes [x]. *)
Definition decodes (p : read_block -> outcome (lval * read_block)) (x : list Z) (v : lval) : Prop :=
  forall rb rest, sees rb (x ++ rest) -> exists v' rb', p rb = Ret (v', rb') /\ sees rb' rest /\ same v v'.

Lemma unpack_one_tag fuel (x : list Z) v t c data :
  x = (t + 8 * c) :: data -> 0 <= t < 8 -> 0 <= c ->
  decodes (fun rb => push_value (unpack_one fuel) fuel rb t c) data v -> decodes (unpack_one (S fuel)) x v.
Proof.
  intros -> Ht Hc Hd rb rest Hs.
  destruct (get_bytes_sees rb [t + 8 * c] (data ++ rest) 1 528 Hs eq_refl) as (rb1 & Hg & Hs1).
  destruct (Hd rb1 rest Hs1) as (v' & rb' & Hp & Hs' & Hsame). exists v', rb'. split; [|done].
  cbn [unpack_one]. rewrite Hg, ret_bind. cbn [le_value]. cbn zeta. rewrite Z.mul_0_r, Z.add_0_r.
  by destruct (tag_split t c Ht Hc) as [-> ->].
Qed.

(** Words of eight bytes. *)
Lemma eight_bytes {A} (f : Z -> A) d line rb rest : is_u64 d -> sees rb (le_bytes 8 d ++ rest) ->
  exists rb', ('(n, rb) ← get_bytes rb 8 line; Ret (f (le_value n), rb)) = Ret (f d, rb') /\ sees rb' rest.
Proof.
  intros Hd Hs. destruct (get_bytes_sees rb (le_bytes 8 d) rest 8 line Hs) as (rb' & -> & Hs').
  - apply zlen_le_bytes.
  - exists rb'. rewrite ret_bind, le_value_bytes. change (2 ^ (8 * Z.of_nat 8)) with (2 ^ 64).
    by rewrite Z.mod_small by apply Hd.
Qed.

Lemma enc_string_bytes s : is_bytes s -> is_bytes (enc_string s).
Proof.
  intros Hs. unfold enc_string. set (len := i32 (zlen s)).
  case_match; [by apply is_bytes_cons; split; [apply is_u8_u8|constructor]|].
  apply is_bytes_app. split; [|auto with skynet].
  case_match; [by apply is_bytes_cons; split; [apply is_u8_u8|constructor]|].
  case_match; (apply is_bytes_cons; split; [done|auto with skynet]).
Qed.

Lemma string_decodes fuel s : zlen s < 2 ^ 31 -> decodes (unpack_one (S fuel)) (enc_string s) (VString s).
Proof using Lw.
  intros Hs. pose proof (zlen_nonneg s). unfold enc_string.
  assert (i32 (zlen s) = zlen s) as -> by (apply sgn_small; lia).
  assert (Z.to_nat (zlen s) = length s) as -> by (unfold zlen; lia). rewrite firstn_all.
  destruct (Z.leb_spec (zlen s) 0).
  { assert (s = []) as -> by (apply length_zero_iff_nil; unfold zlen in *; lia).
    eapply (unpack_one_tag fuel _ _ 4 0 []); [done|lia|lia|].
    intros rb rest Hrb. destruct (get_buffer_sees rb [] rest 0 Hrb eq_refl) as (rb' & Hg & Hs').
    exists (VString []), rb'. split; [|split; [done|by constructor]]. unfold push_value.
    cbn [Z.eqb TYPE_NIL TYPE_BOOLEAN TYPE_NUMBER TYPE_USERDATA TYPE_SHORT_STRING Pos.eqb]. by rewrite Hg. }
  destruct (Z.ltb_spec (zlen s) 32); [|destruct (Z.ltb_spec (zlen s) 0x10000)].
  - eapply (unpack_one_tag fuel _ _ 4 (zlen s) s); [|lia|lia|].
    { simpl. by rewrite COMBINE_TYPE_tag by lia. }
    intros rb rest Hrb. destruct (get_buffer_sees rb s rest (zlen s) Hrb eq_refl) as (rb' & Hg & Hs').
    exists (VString s), rb'. split; [|split; [done|by constructor]]. unfold push_value.
    cbn [Z.eqb TYPE_NIL TYPE_BOOLEAN TYPE_NUMBER TYPE_USERDATA TYPE_SHORT_STRING Pos.eqb]. by rewrite Hg.
  - eapply (unpack_one_tag fuel _ _ 5 2 (le_bytes 2 (zlen s) ++ s)); [done|lia|lia|].
    intros rb rest Hrb. rewrite <- app_assoc in Hrb.
    destruct (get_bytes_sees rb _ _ 2 493 Hrb (zlen_le_bytes 2 _)) as (rb1 & Hg1 & Hs1).
    destruct (get_buffer_sees rb1 s rest (zlen s) Hs1 eq_refl) as (rb' & Hg & Hs').
    exists (VString s), rb'. split; [|split; [done|by constructor]]. unfold push_value.
    change (5 =? TYPE_NIL) with false. change (5 =? TYPE_BOOLEAN) with false. change (5 =? TYPE_NUMBER) with false.
    change (5 =? TYPE_USERDATA) with false. change (5 =? TYPE_SHORT_STRING) with false. change (5 =? TYPE_LONG_STRING) with true.
    change (2 =? 2) with true. cbv iota. rewrite Hg1, ret_bind, le_value_bytes, Z.mod_small, Hg by (simpl; lia). done.
  - eapply (unpack_one_tag fuel _ _ 5 4 (le_bytes 4 (zlen s) ++ s)); [done|lia|lia|].
    intros rb rest Hrb. rewrite <- app_assoc in Hrb.
    destruct (get_bytes_sees rb _ _ 4 504 Hrb (zlen_le_bytes 4 _)) as (rb1 & Hg1 & Hs1).
    destruct (get_buffer_sees rb1 s rest (zlen s) Hs1 eq_refl) as (rb' & Hg & Hs').
    exists (VString s), rb'. split; [|split; [done|by constructor]]. unfold push_value.
    change (5 =? TYPE_NIL) with false. change (5 =? TYPE_BOOLEAN) with false. change (5 =? TYPE_NUMBER) with false.
    change (5 =? TYPE_USERDATA) with false. change (5 =? TYPE_SHORT_STRING) with false. change (5 =? TYPE_LONG_STRING) with true.
    change (4 =? 2) with false. change (4 =? 4) with true. cbn [negb]. cbv iota.
    rewrite Hg1, ret_bind, le_value_bytes, Z.mod_small by (simpl; lia).
    assert (i32 (zlen s) = zlen s) as -> by (apply sgn_small; lia). by rewrite Hg.
Qed.

(** [x] is the encoding of [v], short enough for [F] rounds of [p]. *)
Definition codes (p : read_block -> outcome (lval * read_block)) (e : lval -> outcome (list Z)) (F : Z) (v : lval) : Prop :=
  exists x, e v = Ret x /\ is_bytes x /\ 1 <= zlen x /\ (zlen x <= F -> decodes p x v).

Section tables.
Context (p : read_block -> outcome (lval * read_block)) (e : lval -> outcome (list Z)) (F : Z).

Lemma codes_seq vs : Forall (codes p e F) vs ->
  exists xs, enc_seq e vs = Ret (concat xs) /\ is_bytes (concat xs) /\
    Forall2 (fun v x => 1 <= zlen x /\ (zlen x <= F -> decodes p x v)) vs xs.
Proof.
  induction 1 as [|v vs (x & Hx & Hb & Hl & Hd) _ IH]; [exists []; repeat constructor|].
  destruct IH as (xs & Hxs & Hbs & H2). exists (x :: xs). cbn [enc_seq concat]. rewrite Hx, Hxs. split; [done|].
  split; [by apply is_bytes_app|]. constructor; [done|done].
Qed.

Definition numbered (i : Z) (vs : list lval) : list (lval * lval) :=
  zip_with (fun i v => (VInteger i, v)) (seqZ i (zlen vs)) vs.

Lemma numbered_cons i v vs : numbered i (v :: vs) = (VInteger i, v) :: numbered (i + 1) vs.
Proof.
  unfold numbered. rewrite zlen_cons. pose proof (zlen_nonneg vs).
  rewrite seqZ_cons by lia. simpl. do 2 f_equal; f_equal; lia.
Qed.

Lemma unpack_array_codes vs xs : Forall2 (fun v x => 1 <= zlen x /\ (zlen x <= F -> decodes p x v)) vs xs ->
  forall fuel rb rest i sets, zlen (concat xs) <= F -> zlen (concat xs) <= Z.of_nat fuel -> sees rb (concat xs ++ rest) ->
  exists vs' rb', unpack_array p fuel rb i (i + zlen vs - 1) sets = Ret (sets ++ numbered i vs', rb') /\
    sees rb' rest /\ Forall2 same vs vs'.
Proof.
  induction 1 as [|v x vs xs [Hx Hd] Hvs IH]; intros fuel rb rest i sets HF Hfuel Hs.
  - exists [], rb. split; [|split; [done|constructor]]. rewrite app_nil_r. destruct fuel; cbn [unpack_array];
      (destruct (Z.leb_spec i (i + zlen (@nil lval) - 1)); [change (zlen (@nil lval)) with 0 in *; lia|done]).
  - cbn [concat] in *. rewrite zlen_app in *. pose proof (zlen_nonneg (concat xs)). pose proof (zlen_nonneg vs).
    destruct fuel as [|fuel]; [lia|]. cbn [unpack_array]. rewrite zlen_cons.
    destruct (Z.leb_spec i (i + (1 + zlen vs) - 1)); [|lia]. rewrite <- app_assoc in Hs.
    destruct (Hd ltac:(lia) rb _ Hs) as (v' & rb1 & -> & Hs1 & Hsame). rewrite ret_bind.
    destruct (IH fuel rb1 rest (i + 1) (sets ++ [(VInteger i, v')]) ltac:(lia) ltac:(lia) Hs1) as (vs' & rb' & Hu & Hs' & Hsames).
    exists (v' :: vs'), rb'. split; [|split; [done|by constructor]].
    rewrite numbered_cons. replace (i + (1 + zlen vs) - 1) with (i + 1 + zlen vs - 1) by lia. rewrite Hu. by rewrite <- app_assoc.
Qed.

Lemma unpack_hash_codes kvs : Forall (fun kv => settable kv.1) kvs -> decodes p [0] VNil ->
  forall xs, Forall2 (fun v x => 1 <= zlen x /\ (zlen x <= F -> decodes p x v)) (flat kvs) xs ->
  forall fuel rb rest sets, zlen (concat xs) <= F -> zlen (concat xs) < Z.of_nat fuel -> sees rb (concat xs ++ 0 :: rest) ->
  exists kvs' rb', unpack_hash p fuel rb sets = Ret (sets ++ kvs', rb') /\ sees rb' rest /\ Forall2 psame kvs kvs'.
Proof.
  intros Hk Hnil. induction Hk as [|[k v] kvs Hk _ IH]; intros xs Hxs fuel rb rest sets HF Hfuel Hs;
    pose proof (zlen_nonneg (concat xs)); (destruct fuel as [|fuel]; [lia|]).
  - apply Forall2_nil_inv_l in Hxs as ->. destruct (Hnil rb rest Hs) as (v' & rb' & Hp & Hs' & Hsame).
    exists [], rb'. split; [|split; [done|constructor]]. inversion Hsame; subst. rewrite app_nil_r.
    cbn [unpack_hash]. by rewrite Hp.
  - cbn [flat fmap list_fmap concat app fst snd] in Hxs.
    apply Forall2_cons_inv_l in Hxs as (x & xs1 & [Hx Hdx] & Hxs & ->).
    apply Forall2_cons_inv_l in Hxs as (y & xs2 & [Hy Hdy] & Hxs & ->).
    cbn [concat] in *. rewrite !zlen_app in *. pose proof (zlen_nonneg (concat xs2)).
    rewrite <- !app_assoc in Hs. cbn [unpack_hash].
    destruct (Hdx ltac:(lia) rb _ Hs) as (k' & rb1 & -> & Hs1 & Hsk). rewrite ret_bind.
    destruct (Hdy ltac:(lia) rb1 _ Hs1) as (v' & rb2 & Hpv & Hs2 & Hsv). cbn [fst] in Hk.
    assert (is_nil k' = false) as -> by (rewrite (same_nil _ _ Hsk); by destruct k).
    rewrite Hpv, ret_bind.
    assert (match k' with VNumber d => is_nan d | _ => false end = false) as -> by (destruct Hsk as [k Hsc| |]; [by destruct k|done|done]).
    destruct (IH xs2 Hxs fuel rb2 rest (sets ++ [(k', v')]) ltac:(lia) ltac:(lia) Hs2) as (kvs' & rb' & Hu & Hs' & H2).
    exists ((k', v') :: kvs'), rb'. split; [|split; [done|by constructor]]. rewrite Hu. by rewrite <- app_assoc.
Qed.

Lemma table_size_codes m data rb : enc_header m = data -> 0 <= m < 2 ^ 31 ->
  exists c x, data = (6 + 8 * c) :: x /\ 0 <= c < 32 /\ is_bytes data /\ forall rest, sees rb (x ++ rest) ->
  exists rb', table_size rb c = Ret (m, rb') /\ sees rb' rest.
Proof.
  intros <- Hm. unfold enc_header, table_size. destruct (Z.ltb_spec m 31).
  - exists m, []. rewrite COMBINE_TYPE_tag by lia. split; [done|]. split; [lia|].
    split; [apply is_bytes_cons; split; [unfold is_u; lia|constructor]|]. intros rest Hs. exists rb.
    by destruct (Z.eqb_spec m (MAX_COOKIE - 1)); [unfold MAX_COOKIE in *; lia|].
  - destruct (get_integer_enc m ltac:(unfold is_int64; lia)) as (c & x & He & Hc & Hb & Hg). rewrite He.
    exists 31, ((2 + 8 * c) :: x). split; [done|]. split; [done|].
    split; [by apply is_bytes_cons; split; [|apply is_bytes_cons; split; [unfold is_u; lia|]]|].
    intros rest Hs. cbn [app] in Hs. destruct (get_bytes_sees rb [2 + 8 * c] _ 1 440 Hs eq_refl) as (rb1 & Hg1 & Hs1).
    destruct (Hg rb1 rest Hs1) as (rb' & Hgi & Hs'). exists rb'. split; [|done].
    change (31 =? MAX_COOKIE - 1) with true. cbv iota. rewrite Hg1, ret_bind. cbn [le_value]. cbn zeta.
    rewrite Z.mul_0_r, Z.add_0_r. destruct (tag_split 2 c ltac:(lia) ltac:(lia)) as [-> ->].
    change (2 =? TYPE_NUMBER) with true. cbn [negb orb].
    destruct (Z.eqb_spec c TYPE_NUMBER_REAL); [unfold TYPE_NUMBER_REAL in *; lia|]. rewrite Hgi, ret_bind.
    do 2 f_equal. unfold i32. apply sgn_small; lia.
Qed.
End tables.

Lemma array_pairs_numbered kvs n : forall i vs',
  Forall2 same (rawgeti kvs <$> seqZ i (Z.of_nat n)) vs' ->
  Forall2 psame ((fun i => (VInteger i, rawgeti kvs i)) <$> seqZ i (Z.of_nat n)) (numbered i vs').
Proof using.
  induction n as [|n IH]; intros i vs' H2; [by apply Forall2_nil_inv_l in H2 as ->|].
  rewrite seqZ_cons in * by lia. replace (Z.pred (Z.of_nat (S n))) with (Z.of_nat n) in * by lia.
  apply Forall2_cons_inv_l in H2 as (v' & vs2 & Hv & H2 & ->). rewrite numbered_cons. cbn [fmap list_fmap].
  constructor; [split; [by constructor|done]|]. by apply (IH (Z.succ i)).
Qed.

Definition wcodes (e : lval -> outcome (list Z)) (v : lval) : Prop :=
  exists x, e v = Ret x /\ is_bytes x /\ 1 <= zlen x /\ forall fuel, zlen x <= Z.of_nat fuel -> decodes (unpack_one fuel) x v.

Lemma wcodes_codes e v fuel : wcodes e v -> codes (unpack_one fuel) e (Z.of_nat fuel) v.
Proof using. intros (x & He & Hb & Hl & Hd). exists x. auto. Qed.

Lemma wcodes_seq e vs : Forall (wcodes e) vs ->
  exists y, enc_seq e vs = Ret y /\ is_bytes y /\
    forall fuel, exists xs, y = concat xs /\
      Forall2 (fun v x => 1 <= zlen x /\ (zlen x <= Z.of_nat fuel -> decodes (unpack_one fuel) x v)) vs xs.
Proof using.
  intros Hw. assert (forall fuel, Forall (codes (unpack_one fuel) e (Z.of_nat fuel)) vs) as Hc.
  { intros fuel. eapply Forall_impl; [exact Hw|]. intros v. apply wcodes_codes. }
  destruct (codes_seq _ _ _ vs (Hc 0%nat)) as (xs0 & He & Hb & _). exists (concat xs0). split; [done|]. split; [done|].
  intros fuel. destruct (codes_seq _ _ _ vs (Hc fuel)) as (xs & He' & _ & H2). exists xs. split; [congruence|done].
Qed.

Lemma nil_decodes fuel : (0 < fuel)%nat -> decodes (unpack_one fuel) [0] VNil.
Proof using.
  destruct fuel as [|fuel]; [lia|]. intros _. apply (unpack_one_tag fuel _ _ 0 0 []); [done|lia|lia|].
  intros rb rest Hs. exists VNil, rb. split; [done|]. split; [done|by constructor].
Qed.

Lemma push_value_table p fuel rb c : push_value p fuel rb 6 c = unpack_table p fuel rb c.
Proof using. done. Qed.

Definition elements_fit (e : lval -> outcome (list Z)) (kvs : list (lval * lval)) : Prop :=
  Forall (fun kv => wcodes e kv.1 /\ wcodes e kv.2) kvs.

Lemma flat_wcodes e kvs : elements_fit e kvs -> Forall (wcodes e) (flat kvs).
Proof using.
  induction 1 as [|[k v] kvs [Hk Hv] _ IH]; [constructor|]. cbn [flat fmap list_fmap concat app]. by repeat constructor.
Qed.

(** The body of a table: [m] array items and the pairs [hs]. *)
Lemma table_decodes m its hs kvs y fuel :
  0 <= m < 2 ^ 31 -> zlen its = m -> Forall (fun kv => settable kv.1) hs ->
  (exists xs, y = concat xs /\ Forall2 (fun v x => 1 <= zlen x /\ (zlen x <= Z.of_nat fuel -> decodes (unpack_one fuel) x v)) (its ++ flat hs) xs) ->
  zlen y < Z.of_nat fuel ->
  (forall vs' hs' n' kvs', Forall2 same its vs' -> Forall2 psame hs hs' -> kvs' ≡ₚ table_of (numbered 1 vs' ++ hs') -> same kvs (VTable n' kvs')) ->
  decodes (unpack_one (S fuel)) (enc_header m ++ y ++ [0]) kvs.
Proof using Lw.
  intros Hm Hits Hset (xs & -> & Hxs) Hfuel Hsame rb0 rest0 Hs0.
  destruct (table_size_codes m _ rb0 eq_refl Hm) as (c & h & Hh & Hc & _ & _).
  revert rb0 rest0 Hs0. apply (unpack_one_tag fuel _ _ 6 c (h ++ concat xs ++ [0])); [by rewrite Hh|lia|lia|].
  intros rb rest Hs. rewrite push_value_table. unfold unpack_table.
  destruct (table_size_codes m _ rb eq_refl Hm) as (c2 & h2 & Hh2 & _ & _ & Hsize). rewrite Hh in Hh2. injection Hh2 as Hc2 Hh2.
  assert (c2 = c) as -> by lia. subst h2. rewrite <- !app_assoc in Hs.
  destruct (Hsize _ Hs) as (rb1 & -> & Hs1). rewrite ret_bind.
  apply Forall2_app_inv_l in Hxs as (xs1 & xs2 & Hx1 & Hx2 & ->). rewrite concat_app in *. rewrite <- app_assoc in Hs1.
  rewrite zlen_app in Hfuel. pose proof (zlen_nonneg (concat xs1)). pose proof (zlen_nonneg (concat xs2)).
  destruct (unpack_array_codes _ _ its xs1 Hx1 fuel rb1 _ 1 [] ltac:(lia) ltac:(lia) Hs1) as (vs' & rb2 & Hu & Hs2 & Hvs').
  replace (1 + zlen its - 1) with m in Hu by lia. rewrite Hu, ret_bind.
  destruct (unpack_hash_codes (unpack_one fuel) (Z.of_nat fuel) hs Hset (nil_decodes fuel ltac:(lia)) xs2 Hx2 fuel rb2 rest (numbered 1 vs') ltac:(lia) ltac:(lia) Hs2)
    as (hs' & rb3 & Hu3 & Hs3 & Hhs').
  cbn [app]. rewrite Hu3, ret_bind. pose proof (built_contents m (numbered 1 vs' ++ hs')) as Hb.
  destruct (built m (numbered 1 vs' ++ hs')) as [n' kvs'] eqn:Hbuilt.
  exists (VTable n' kvs'), rb3. split; [done|]. split; [done|]. by eapply Hsame.
Qed.

Lemma enc_header_bytes m : 0 <= m < 2 ^ 31 -> is_bytes (enc_header m) /\ 1 <= zlen (enc_header m).
Proof using.
  intros Hm. destruct (table_size_codes m _ (RB [] 0 0) eq_refl Hm) as (c & x & Hx & _ & Hb & _). split; [done|].
  rewrite Hx, zlen_cons. pose proof (zlen_nonneg x). lia.
Qed.

Lemma wcodes_scalar e v x t c data : e v = Ret x -> x = (t + 8 * c) :: data -> 0 <= t < 8 -> 0 <= c < 32 -> is_bytes data ->
  (forall fuel, decodes (fun rb => push_value (unpack_one fuel) fuel rb t c) data v) -> wcodes e v.
Proof using.
  intros He -> Ht Hc Hb Hd. exists ((t + 8 * c) :: data). split; [done|]. pose proof (zlen_nonneg data).
  split; [by apply is_bytes_cons; split; [unfold is_u; lia|]|]. rewrite zlen_cons. split; [lia|].
  intros [|fuel] Hfuel; [lia|]. apply (unpack_one_tag fuel _ _ t c data); [done|lia|lia|apply Hd].
Qed.

Lemma items_wcodes e m kvs : wcodes e VNil -> elements_fit e kvs -> Forall (wcodes e) (items m kvs).
Proof using.
  intros Hnil Hk. apply Forall_fmap, Forall_forall. intros i _. unfold compose. induction Hk as [|[k v] kvs [_ Hv] _ IH]; [done|].
  simpl. destruct k; try done. by destruct (x =? i).
Qed.

Lemma enc_table_wcodes e m its hs kvs :
  0 <= m < 2 ^ 31 -> zlen its = m -> Forall (fun kv => settable kv.1) hs -> Forall (wcodes e) (its ++ flat hs) ->
  (forall vs' hs' n' kvs', Forall2 same its vs' -> Forall2 psame hs hs' -> kvs' ≡ₚ table_of (numbered 1 vs' ++ hs') -> same kvs (VTable n' kvs')) ->
  exists x, seqr (Ret (enc_header m)) (seqr (enc_seq e (its ++ flat hs)) (Ret [0])) = Ret x /\ is_bytes x /\ 1 <= zlen x /\
    forall fuel, zlen x <= Z.of_nat fuel -> decodes (unpack_one fuel) x kvs.
Proof using Lw.
  intros Hm Hits Hset Hw Hsame. destruct (wcodes_seq e _ Hw) as (y & Hy & Hby & Hxs). rewrite Hy, !seqr_ret.
  destruct (enc_header_bytes m Hm) as [Hbh Hlh]. exists (enc_header m ++ y ++ [0]). pose proof (zlen_nonneg y). split; [done|].
  split; [apply is_bytes_app; split; [done|apply is_bytes_app; split; [done|by apply Forall_cons]]|].
  rewrite !zlen_app. change (zlen [0]) with 1. split; [lia|].
  intros [|fuel] Hfuel; [lia|]. eapply table_decodes; eauto. lia.
Qed.

Lemma before_nil_settable kvs : Forall (fun kv => settable kv.1) kvs -> before_nil kvs = kvs.
Proof using. induction 1 as [|[k v] kvs Hk _ IH]; [done|]. simpl in *. destruct k; try done; by rewrite IH. Qed.

Lemma enc_nil_wcodes room : wcodes (enc (S room)) VNil.
Proof using.
  apply (wcodes_scalar _ _ [0] 0 0 []); [done|done|lia|lia|constructor|].
  intros fuel rb rest Hs. exists VNil, rb. split; [done|]. split; [done|by constructor].
Qed.

Lemma enc_wcodes room : forall v, lv_wf v -> fits room v -> wcodes (enc room) v.
Proof using Lw.
  induction room as [|room IH]; intros v Hv Hfit; [done|].
  assert (forall kvs, Forall (fun kv => lv_wf kv.1 /\ lv_wf kv.2) kvs -> Forall (fun kv => fits room kv.1 /\ fits room kv.2) kvs ->
    elements_fit (enc room) kvs) as Hel.
  { intros kvs Hw Hf. apply Forall_forall. intros kv Hin. rewrite Forall_forall in Hw, Hf.
    destruct (Hw kv Hin), (Hf kv Hin). auto. }
  destruct Hv as [|b|x Hx|d Hd|q Hq|s Hs|n kvs Hkvs Hdist Hbord|kvs Hkvs|t]; cbn [fits] in Hfit; [apply enc_nil_wcodes|..|done];
    try apply Is_true_true in Hfit.
  - apply (wcodes_scalar _ _ [if b then 9 else 1] 1 (b2i b) []); [done|by destruct b|lia|destruct b; simpl; lia|constructor|].
    intros fuel rb rest Hs. exists (VBoolean b), rb. split; [by destruct b|]. split; [done|by constructor].
  - destruct (get_integer_enc x Hx) as (c & data & He & Hc & Hb & Hg).
    apply (wcodes_scalar _ _ (enc_integer x) 2 c data); [done|done|lia|lia|done|].
    intros fuel rb rest Hs. destruct (Hg rb rest Hs) as (rb' & Hgi & Hs'). exists (VInteger x), rb'.
    split; [|split; [done|by constructor]]. unfold push_value. change (2 =? TYPE_NIL) with false.
    change (2 =? TYPE_BOOLEAN) with false. change (2 =? TYPE_NUMBER) with true. cbv iota.
    destruct (Z.eqb_spec c TYPE_NUMBER_REAL); [unfold TYPE_NUMBER_REAL in *; lia|]. by rewrite Hgi.
  - apply (wcodes_scalar _ _ (66 :: le_bytes 8 d) 2 8 (le_bytes 8 d)); [done|done|lia|lia|auto with skynet|].
    intros fuel rb rest Hs. destruct (eight_bytes (fun d => d) d 407 rb rest Hd Hs) as (rb' & Hg & Hs').
    exists (VNumber d), rb'. split; [|split; [done|by constructor]].
    change (push_value (unpack_one fuel) fuel rb 2 8) with ('(d, rb) ← get_real rb; Ret (VNumber d, rb)).
    unfold get_real. by rewrite Hg.
  - apply (wcodes_scalar _ _ (3 :: le_bytes 8 q) 3 0 (le_bytes 8 q)); [done|done|lia|lia|auto with skynet|].
    intros fuel rb rest Hs. destruct (eight_bytes (fun d => d) q 417 rb rest Hq Hs) as (rb' & Hg & Hs').
    exists (VPointer q), rb'. split; [|split; [done|by constructor]].
    change (push_value (unpack_one fuel) fuel rb 3 0) with ('(d, rb) ← get_pointer rb; Ret (VPointer d, rb)).
    unfold get_pointer. by rewrite Hg.
  - exists (enc_string s). split; [done|]. split; [by apply enc_string_bytes|].
    assert (1 <= zlen (enc_string s)) as Hl.
    { unfold enc_string. case_match; [done|]. rewrite zlen_app. pose proof (zlen_nonneg (take (Z.to_nat (i32 (zlen s))) s)).
      repeat case_match; rewrite ?zlen_cons; pose proof (zlen_nonneg (le_bytes 2 (i32 (zlen s))));
        pose proof (zlen_nonneg (le_bytes 4 (i32 (zlen s)))); change (zlen (@nil Z)) with 0; lia. }
    split; [done|]. intros [|fuel] Hfuel; [lia|]. apply string_decodes. by apply Z.ltb_lt.
  - apply andb_true_iff in Hfit as [Hn%Z.ltb_lt Hfit%fits_pairs]. destruct Hbord as (Hn0 & Hborder). assert (i32 n = n) as Hi by (apply sgn_small; lia).
    assert (elements_fit (enc room) kvs) as Helk by (apply Hel; [eapply Forall_impl; [exact Hkvs|]; by intros [] (? & ? & _)|done]).
    unfold wcodes. cbn [enc]. rewrite Hi. apply enc_table_wcodes.
    + lia.
    + unfold items. rewrite zlen_fmap. unfold zlen. rewrite length_seqZ. lia.
    + apply Forall_filter. eapply Forall_impl; [exact Hkvs|]. intros [k v] (_ & _ & Hk & _). simpl in *. destruct k; try done. apply Hk.
    + apply Forall_app. split; [|by apply flat_wcodes, Forall_filter].
      destruct room as [|room].
      * destruct kvs as [|kv kvs]; [|by apply Forall_cons in Hfit as [[[]] _]].
        assert (n = 0) as ->; [|constructor]. by destruct Hborder as [[|[]] _].
      * apply items_wcodes; [apply enc_nil_wcodes|done].
    + intros vs' hs' n' kvs' Hvs Hhs Hkvs'. eapply (stores_same n); [done| | | |done].
      * eapply Forall_impl; [exact Hkvs|]. by intros [] (_ & _ & _ & ?).
      * eapply Forall_impl; [exact Hkvs|]. by intros [] (_ & _ & ? & _).
      * apply Forall2_app; [|done]. unfold array_pairs, items in *. rewrite <- (Z2Nat.id n) in * by lia. by apply array_pairs_numbered.
  - apply fits_pairs in Hfit. assert (elements_fit (enc room) kvs) as Helk by (apply Hel; [eapply Forall_impl; [exact Hkvs|]; by intros [] (? & ? & _)|done]).
    assert (Forall (fun kv => settable kv.1) kvs) as Hset by (eapply Forall_impl; [exact Hkvs|]; by intros [] (_ & _ & ?)).
    unfold wcodes. cbn [enc]. rewrite before_nil_settable by done.
    apply (enc_table_wcodes _ 0 [] kvs); [lia|done|done|by apply flat_wcodes|].
    intros vs' hs' n' kvs' Hvs Hhs Hkvs'. apply Forall2_nil_inv_l in Hvs as ->. by eapply same_pairs.
Qed.

Lemma unpack_loop_codes vs : forall xs fuel rb out,
  Forall2 (fun v x => 1 <= zlen x /\ forall fuel, zlen x <= Z.of_nat fuel -> decodes (unpack_one fuel) x v) vs xs ->
  sees rb (concat xs) -> zlen (concat xs) < Z.of_nat fuel ->
  exists vs', unpack_loop fuel rb out = Ret (out ++ vs') /\ Forall2 same vs vs'.
Proof using.
  induction vs as [|v vs IH]; intros xs fuel rb out Hxs Hs Hfuel.
  - apply Forall2_nil_inv_l in Hxs as ->. exists []. rewrite app_nil_r. split; [|constructor].
    destruct fuel; cbn [unpack_loop]; by rewrite (rb_read_short rb []).
  - apply Forall2_cons_inv_l in Hxs as (x & xs' & [Hx Hd] & Hxs & ->). cbn [concat] in *. rewrite zlen_app in Hfuel.
    pose proof (zlen_nonneg (concat xs')). destruct fuel as [|fuel]; [lia|].
    destruct (Hd (S fuel) ltac:(lia) rb (concat xs') Hs) as (v' & rb' & Hu & Hs' & Hv).
    destruct (IH xs' fuel rb' (out ++ [v']) Hxs Hs' ltac:(lia)) as (vs' & Hl & Hvs).
    exists (v' :: vs'). split; [|by constructor]. cbn [unpack_loop unpack_one] in *. unfold get_bytes in Hu.
    destruct (rb_read rb 1) as [[t rb1]|]; [|done]. destruct (bytes_at rb1 t 1) as [tb|]; [|done].
    rewrite !chk_some, !ret_bind in Hu. rewrite chk_some, ret_bind, Hu, ret_bind, Hl. by rewrite <- app_assoc.
Qed.
End roundtrip.

(** ** The properties of the serialiser *)

(** [C22] Packing any values gives exactly the bytes of the reference encoding, one value
    behind the other: the chain of 128-byte blocks with data split between blocks
    is an append-only string, and no byte of the result is uninitialised.  It raises
    exactly the errors of the reference, for a value of another type and for
    tables nested too deep, and never leaves the blocks. *)
Theorem pack_is_encode vs :
  encode vs <> Undef /\
  luaseri_pack vs =
    match encode vs with Ret bs => Ret (Some <$> bs, zlen bs) | Raise msg => Raise msg | Undef => Undef end.
Proof. split; [apply enc_seq_not_undef, enc_not_undef|apply luaseri_pack_encode]. Qed.

(** [C23] Unpacking any string of bytes ends, reads nothing outside of it, and either
    raises a Lua error or gives well-formed values: integers of 64 bits, strings of
    bytes, tables with distinct keys that are neither nil nor NaN, no nil values and
    a length that is a border. *)
Theorem unpack_well_formed `{LawfulTables} bs :
  is_bytes bs -> zlen bs < 2 ^ 31 ->
  match luaseri_unpack (AString bs) with Ret vs => Forall lv_wf vs | Raise _ => True | Undef => False end.
Proof.
  intros Hb Hl. unfold luaseri_unpack. pose proof (zlen_nonneg bs).
  assert (i32 (zlen bs) = zlen bs) as -> by (apply sgn_small; lia).
  destruct (Z.eqb_spec (zlen bs) 0); [constructor|].
  apply (unpack_loop_safe _ _ bs); [apply sees_init|done|lia|constructor].
Qed.

(** A table whose array size is announced as a long number, one byte of string data
    missing. *)
Example unpack_well_formed_witness :
  let bs := [254; 10; 2; 9; 36; 65; 66; 67] in
  is_bytes bs /\
  match @luaseri_unpack first_border (AString bs) with Ret vs => Forall lv_wf vs | Raise _ => True | Undef => False end.
Proof. split; [by_eval|]. apply (@unpack_well_formed first_border first_border_lawful); [by_eval|done]. Defined.

(** [C24] Well-formed values of the types that can be packed, nested at most 32 deep, are
    packed, and unpacking the buffer, as a pointer with its length or as a string,
    gives copies of all of them in order: equal scalars, and tables with the same
    pairs. *)
Theorem seri_roundtrip `{LawfulTables} vs :
  Forall lv_wf vs -> Forall (fits 33) vs ->
  exists bs, luaseri_pack vs = Ret (Some <$> bs, zlen bs) /\ is_bytes bs /\
    (zlen bs < 2 ^ 31 -> exists vs',
      luaseri_unpack (APointer (Some bs) (zlen bs)) = Ret vs' /\ luaseri_unpack (AString bs) = Ret vs' /\
      Forall2 same vs vs').
Proof.
  intros Hw Hf.
  assert (Forall (wcodes (enc 33)) vs) as Hc.
  { apply Forall_forall. intros v Hin. rewrite Forall_forall in Hw, Hf. by apply enc_wcodes; auto. }
  assert (exists xs, encode vs = Ret (concat xs) /\ is_bytes (concat xs) /\
    Forall2 (fun v x => 1 <= zlen x /\ forall fuel, zlen x <= Z.of_nat fuel -> decodes (unpack_one fuel) x v) vs xs)
    as (xs & He & Hb & Hxs).
  { clear Hw Hf. unfold encode. induction Hc as [|v vs (x & Hx & Hbx & Hl & Hd) _ IH]; [exists []; repeat constructor|].
    destruct IH as (xs & Hxs & Hbs & H2). exists (x :: xs). cbn [enc_seq concat]. rewrite Hx, Hxs.
    split; [done|]. split; [by apply is_bytes_app|]. by constructor. }
  exists (concat xs). rewrite luaseri_pack_encode, He. split; [done|]. split; [done|]. intros Hlen.
  pose proof (zlen_nonneg (concat xs)). assert (i32 (zlen (concat xs)) = zlen (concat xs)) as Hi by (apply sgn_small; lia).
  destruct (unpack_loop_codes vs xs (S (Z.to_nat (zlen (concat xs)))) (rball_init (concat xs) (zlen (concat xs))) []
              Hxs (sees_init _) ltac:(lia)) as (vs' & Hu & Hsame).
  exists vs'. unfold luaseri_unpack. rewrite Hi. destruct (Z.eqb_spec (zlen (concat xs)) 0) as [Hz|Hz]; [|done].
  assert (concat xs = []) as Hnil by (apply length_zero_iff_nil; unfold zlen in *; lia).
  rewrite Hnil in Hu. cbn in Hu. injection Hu as <-. done.
Qed.

Definition sample : list lval :=
  [VInteger (-5); VNil; VString [104; 105];
   VTable 2 [(VInteger 1, VBoolean true); (VInteger 2, VInteger 70000);
             (VString [107], VTable 0 [(VInteger 9, VNumber 4609434218613702656)])];
   VPairs [(VBoolean true, VPointer 4096)]; VInteger 5000000000].

Ltac wf_eval := repeat first
  [ progress cbn [fst snd key_ok settable is_nil] | exact I | left; reflexivity | right; discriminate | split | constructor | discriminate | lia | by_eval ].

Lemma sample_wf : Forall lv_wf sample.
Proof. unfold sample. wf_eval. Qed.
Lemma sample_fits : Forall (fits 33) sample.
Proof. by_eval. Qed.

Example seri_roundtrip_witness :
  Forall lv_wf sample /\ Forall (fits 33) sample /\
  exists bs, luaseri_pack sample = Ret (Some <$> bs, zlen bs) /\ is_bytes bs /\
    (zlen bs < 2 ^ 31 -> exists vs',
      @luaseri_unpack first_border (APointer (Some bs) (zlen bs)) = Ret vs' /\ @luaseri_unpack first_border (AString bs) = Ret vs' /\
      Forall2 same sample vs').
Proof.
  pose proof sample_wf as Hw. pose proof sample_fits as Hf. split; [exact Hw|]. split; [exact Hf|].
  exact (@seri_roundtrip first_border first_border_lawful sample Hw Hf).
Defined.
