(* ===== verification/SprotoPack.v ===== *)
(** The packing of sproto messages: [sproto_pack] and [sproto_unpack] of
    lualib-src/sproto/sproto.c, and their callers [lpack] and [lunpack] of lsproto.c.

    Packing replaces eight bytes by a byte that says which of them are not zero,
    followed by those; a run of up to 256 groups with at least six such bytes is
    copied behind 0xff and the number of groups minus one.  What is written is
    the relation [packed].

    Source memory is a list of bytes, longer than the size handed over where more
    can be read; a read outside of it is [None].  The destination is the cells of a
    block.  Both functions return the size needed, and write no more than there is. *)

From S2P Require Import Prelude Bytes.
Local Open Scope Z_scope.
Local Open Scope word_scope.

(** ** Packing *)

(** [n] bytes of memory from [p] on. *)
Definition mread (mem : list Z) (p n : Z) : option (list Z) :=
  if (0 <=? p) && (0 <=? n) && (p + n <=? zlen mem) then Some (take (Z.to_nat n) (drop (Z.to_nat p) mem)) else None.

(** The loop of [pack_seg]: the header, the number of bytes that are not zero, and the
    destination, where the bytes go from [p] on as long as there is room. *)
Fixpoint pack_bytes (src : list Z) (i : Z) (buf : cells) (p sz header notzero : Z) : option (Z * Z * cells) :=
  match src with
  | [] => Some (header, notzero, buf)
  | x :: r =>
    if x =? 0 then pack_bytes r (i + 1) buf p sz header notzero
    else
      let header := header .| (1 << i) in
      if 0 <? sz
      then buf ← zset buf p (Some x); pack_bytes r (i + 1) buf (p + 1) (sz - 1) header (notzero + 1)
      else pack_bytes r (i + 1) buf p sz header (notzero + 1)
  end.

Definition pack_seg (src : list Z) (buf : cells) (p sz n : Z) : option (Z * cells) :=
  '(header, notzero, buf) ← pack_bytes src 0 buf (p + 1) (sz - 1) 0 0;
  let notzero := if ((notzero =? 7) || (notzero =? 6)) && (0 <? n) then 8 else notzero in
  if notzero =? 8 then Some (if 0 <? n then 8 else 10, buf)
  else
    buf ← (if sz - 1 <? 0 then Some buf else zset buf p (Some header));
    Some (notzero + 1, buf).

(** A pointer into the source, or to the local copy of its last bytes. *)
Inductive sptr := InSrc (p : Z) | InTmp (tmp : list Z).
Definition pread (mem : list Z) (s : sptr) (n : Z) : option (list Z) :=
  match s with InSrc p => mread mem p n | InTmp tmp => mread tmp 0 n end.

Definition align8 (n : Z) : Z := Z.land (n + 7) (Z.lnot 7).

Definition write_ff (mem : list Z) (src : sptr) (buf : cells) (des n : Z) : option cells :=
  let align8_n := align8 n in
  buf ← zset buf des (Some 0xff);
  buf ← zset buf (des + 1) (Some (u8 (align8_n / 8 - 1)));
  bytes ← pread mem src n;
  buf ← memcpy buf (des + 2) (Some <$> bytes) n;
  memcpy buf (des + 2 + n) (Some <$> replicate (Z.to_nat (align8_n - n)) 0) (align8_n - n).

Record pack_state := {
  k_buf : cells; k_at : Z; k_room : Z; k_size : Z;
  k_src : option sptr; k_des : Z; k_n : Z }.

(** The pointer to the eight bytes at [i]. *)
Definition seg_ptr (mem : list Z) (srcsz i : Z) : option sptr :=
  let padding := i + 8 - srcsz in
  if 0 <? padding then tmp ← mread mem i (8 - padding); Some (InTmp (tmp ++ replicate (Z.to_nat padding) 0))
  else Some (InSrc i).

Definition pack_next (k : pack_state) (n : Z) (buf : cells) (ff_src : option sptr) (des ff_n : Z) : option pack_state :=
  Some {| k_buf := buf; k_at := k_at k + n; k_room := k_room k - n; k_size := k_size k + n;
          k_src := ff_src; k_des := des; k_n := ff_n |}.

(** The run written, [bytes] bytes of the source, when there is room for what is packed so far. *)
Definition flush (mem : list Z) (k : pack_state) (n : Z) (buf : cells) (bytes : Z) : option cells :=
  if 0 <=? k_room k - n then src ← k_src k; write_ff mem src buf (k_des k) bytes else Some buf.

(** One round of the loop of [sproto_pack], with the source at [i]. *)
Definition pack_step (mem : list Z) (srcsz i : Z) (k : pack_state) : option pack_state :=
  src ← seg_ptr mem srcsz i;
  seg ← pread mem src 8;
  '(n, buf) ← pack_seg seg (k_buf k) (k_at k) (k_room k) (k_n k);
  if n =? 10 then pack_next k n buf (Some src) (k_at k) 1
  else if (n =? 8) && (0 <? k_n k) then
    if k_n k + 1 =? 256
    then buf ← flush mem k n buf (256 * 8); pack_next k n buf (k_src k) (k_des k) 0
    else pack_next k n buf (k_src k) (k_des k) (k_n k + 1)
  else if 0 <? k_n k
  then buf ← flush mem k n buf (k_n k * 8); pack_next k n buf (k_src k) (k_des k) 0
  else pack_next k n buf (k_src k) (k_des k) (k_n k).

Fixpoint pack_loop (fuel : nat) (mem : list Z) (srcsz i : Z) (k : pack_state) : option pack_state :=
  match fuel with
  | O => Some k
  | S fuel => k ← pack_step mem srcsz i k; pack_loop fuel mem srcsz (i + 8) k
  end.

(** The number of rounds of [for (i=0;i<srcsz;i+=8)]. *)
Definition groups (srcsz : Z) : Z := (srcsz + 7) / 8.

Definition pack_end (mem : list Z) (srcsz : Z) (k : pack_state) : option cells :=
  if 0 <=? k_room k then
    if k_n k =? 1 then src ← k_src k; write_ff mem src (k_buf k) (k_des k) 8
    else if 1 <? k_n k then
      src ← k_src k;
      match src with
      | InSrc p => write_ff mem src (k_buf k) (k_des k) (srcsz - p)
      | InTmp _ => None
      end
    else Some (k_buf k)
  else Some (k_buf k).

(** The size of the packed bytes, and the destination, whose size is [bufsz]. *)
Definition sproto_pack (mem : list Z) (srcsz : Z) (buf : cells) : option (Z * cells) :=
  k ← pack_loop (Z.to_nat (groups srcsz)) mem srcsz 0
    {| k_buf := buf; k_at := 0; k_room := zlen buf; k_size := 0; k_src := None; k_des := 0; k_n := 0 |};
  buf ← pack_end mem srcsz k;
  Some (k_size k, buf).

(** ** Unpacking *)

Record unpack_state := { u_p : Z; u_n : Z; u_buf : cells; u_at : Z; u_room : Z; u_size : Z }.

(** One byte into the destination when there is room for it. *)
Definition put_byte (x : Z) (s : unpack_state) : option unpack_state :=
  if 0 <? u_room s then
    buf ← zset (u_buf s) (u_at s) (Some x);
    Some {| u_p := u_p s; u_n := u_n s; u_buf := buf; u_at := u_at s + 1; u_room := u_room s - 1; u_size := u_size s |}
  else Some s.

(** The loop over the bits of a header; [Some None] is a [return -1]. *)
Fixpoint unpack_bits (mem : list Z) (bits : list Z) (header : Z) (s : unpack_state) : option (option unpack_state) :=
  match bits with
  | [] => Some (Some s)
  | i :: r =>
    let counted s := {| u_p := u_p s; u_n := u_n s; u_buf := u_buf s; u_at := u_at s; u_room := u_room s; u_size := u_size s + 1 |} in
    if (header >> i) .& 1 =? 0 then s ← put_byte 0 s; unpack_bits mem r header (counted s)
    else if u_n s <? 0 then Some None
    else
      x ← zget mem (u_p s);
      s ← put_byte x s;
      unpack_bits mem r header
        (counted {| u_p := u_p s + 1; u_n := u_n s - 1; u_buf := u_buf s; u_at := u_at s; u_room := u_room s; u_size := u_size s |})
  end.

(** One round of the loop of [sproto_unpack]. *)
Definition unpack_step (mem : list Z) (s : unpack_state) : option (option unpack_state) :=
  header ← zget mem (u_p s);
  let srcsz := u_n s - 1 in
  let p := u_p s + 1 in
  if header =? 0xff then
    if srcsz <? 0 then Some None
    else
      x ← zget mem p;
      let n := (x + 1) * 8 in
      if srcsz <? n + 1 then Some None
      else
        buf ← (if n <=? u_room s then bytes ← mread mem (p + 1) n; memcpy (u_buf s) (u_at s) (Some <$> bytes) n else Some (u_buf s));
        Some (Some {| u_p := p + 1 + n; u_n := srcsz - (n + 1); u_buf := buf; u_at := u_at s + n;
                      u_room := u_room s - n; u_size := u_size s + n |})
  else
    unpack_bits mem [0; 1; 2; 3; 4; 5; 6; 7] header
      {| u_p := p; u_n := srcsz; u_buf := u_buf s; u_at := u_at s; u_room := u_room s; u_size := u_size s |}.

(** The loop; it takes a byte in each round. *)
Fixpoint unpack_loop (fuel : nat) (mem : list Z) (s : unpack_state) : option (option unpack_state) :=
  if 0 <? u_n s then
    match fuel with
    | O => None
    | S fuel => r ← unpack_step mem s; match r with None => Some None | Some s => unpack_loop fuel mem s end
    end
  else Some (Some s).

(** The size and the destination; [Some None] when it returns -1. *)
Definition sproto_unpack (mem : list Z) (srcsz : Z) (buf : cells) : option (option (Z * cells)) :=
  r ← unpack_loop (Z.to_nat srcsz) mem {| u_p := 0; u_n := srcsz; u_buf := buf; u_at := 0; u_room := zlen buf; u_size := 0 |};
  Some (s ← r; Some (u_size s, u_buf s)).

(** ** The functions of Lua

    The source is a string or a block with its size; the buffer is an upvalue of the
    function, which is replaced by a larger one. *)

Definition ENCODE_BUFFERSIZE : Z := 2050.
Definition ENCODE_MAXSIZE : Z := 0x1000000.

Fixpoint double_until (fuel : nat) (osz nsz : Z) : Z :=
  match fuel with
  | O => osz
  | S fuel => let osz := osz * 2 in if osz <? nsz then double_until fuel osz nsz else osz
  end.
Definition expand_buffer (osz nsz : Z) : outcome cells :=
  let osz := double_until 64 osz nsz in
  if ENCODE_MAXSIZE <? osz then Raise "object is too large (>16777216)"%string else Ret (malloc osz).

(** The first [n] bytes of a block, all of them written. *)
Definition pushlstring (buf : cells) (n : Z) : outcome (list Z) :=
  if (0 <=? n) && (n <=? zlen buf) then chk (mapM id (take (Z.to_nat n) buf)) else Undef.

(** [f(buffer, sz, output, n)] where the block is larger than [n]. *)
Definition within (output : cells) (n : Z) (r : Z * cells) : Z * cells := (r.1, r.2 ++ drop (Z.to_nat n) output).
Definition pack_into (mem : list Z) (sz : Z) (output : cells) (n : Z) : option (Z * cells) :=
  within output n <$> sproto_pack mem sz (take (Z.to_nat n) output).
Definition unpack_into (mem : list Z) (sz : Z) (output : cells) (n : Z) : outcome (Z * cells) :=
  r ← chk (sproto_unpack mem sz (take (Z.to_nat n) output));
  match r with None => Raise "Invalid unpack stream"%string | Some r => Ret (within output n r) end.

Definition maxsz_of (sz : Z) : Z := (sz + 2047) / 2048 * 2 + sz + 2.

Definition lpack (mem : list Z) (sz : Z) (output : cells) : outcome (list Z * cells) :=
  let maxsz := maxsz_of sz in
  output ← (if zlen output <? maxsz then expand_buffer (zlen output) maxsz else Ret output);
  '(bytes, output) ← chk (pack_into mem sz output maxsz);
  if maxsz <? bytes then Raise "packing error"%string
  else s ← pushlstring output bytes; Ret (s, output).

Definition lunpack (mem : list Z) (sz : Z) (output : cells) : outcome (list Z * cells) :=
  '(r, output) ← unpack_into mem sz output (zlen output);
  '(r, output) ←
    (if zlen output <? r then output ← expand_buffer (zlen output) r; unpack_into mem sz output r else Ret (r, output));
  s ← pushlstring output r;
  Ret (s, output).

(** ** The format *)

(** The header of a group: bit [i] for its first byte when that is not zero, and so on. *)
Fixpoint header_of (i : Z) (seg : list Z) : Z :=
  match seg with
  | [] => 0
  | x :: r => if x =? 0 then header_of (i + 1) r else (1 << i) .| header_of (i + 1) r
  end.
Definition nonzero (seg : list Z) : list Z := filter (fun x => x <> 0) seg.

Inductive group : list Z -> list Z -> Prop :=
| group_sparse seg : zlen seg = 8 -> zlen (nonzero seg) < 8 -> group (header_of 0 seg :: nonzero seg) seg
| group_run l k : 1 <= k <= 256 -> zlen l = 8 * k -> group (0xff :: k - 1 :: l) l.

Inductive packed : list Z -> list Z -> Prop :=
| packed_nil : packed [] []
| packed_cons o s os ss : group o s -> packed os ss -> packed (o ++ os) (s ++ ss).

Lemma packed_snoc os ss o s : packed os ss -> group o s -> packed (os ++ o) (ss ++ s).
Proof.
  induction 1 as [|o' s' os ss Hg Hp IH]; intros; rewrite <- ?app_assoc; [|by constructor; auto].
  rewrite <- (app_nil_r o), <- (app_nil_r s). simpl. constructor; [done|constructor].
Qed.

Lemma nonzero_cons x seg : nonzero (x :: seg) = if x =? 0 then nonzero seg else x :: nonzero seg.
Proof.
  unfold nonzero. rewrite filter_cons. destruct (Z.eqb_spec x 0), (decide (x <> 0)); done.
Qed.
Lemma zlen_nonzero seg : 0 <= zlen (nonzero seg) <= zlen seg.
Proof.
  induction seg as [|x seg IH]; [done|]. rewrite nonzero_cons. zcase; zlen_lia.
Qed.
Lemma nonzero_zeros n : nonzero (replicate n 0) = [].
Proof. by induction n. Qed.
Lemma nonzero_app l1 l2 : nonzero (l1 ++ l2) = nonzero l1 ++ nonzero l2.
Proof. apply filter_app. Qed.

Lemma header_testbit seg i j : 0 <= i -> 0 <= j ->
  Z.testbit (header_of i seg) j = (i <=? j) && match zget seg (j - i) with Some x => negb (x =? 0) | None => false end.
Proof.
  revert i. induction seg as [|x seg IH]; intros i Hi Hj; cbn [header_of].
  { rewrite Z.bits_0. unfold zget. destruct (_ <? 0); by rewrite andb_false_r. }
  assert (Hx : zget (x :: seg) (j - i) = if j =? i then Some x else if j <? i then None else zget seg (j - (i + 1))).
  { destruct (Z.eqb_spec j i) as [->|]; [by rewrite Z.sub_diag|].
    destruct (Z.ltb_spec j i); [unfold zget; destruct (Z.ltb_spec (j - i) 0); [done|lia]|].
    rewrite (zget_app_r [x] seg) by (zlen_lia). f_equal. zlen_lia. }
  assert (Hb : Z.testbit (1 << i) j = (j =? i)).
  { rewrite Z.shiftl_spec by done. destruct (Z.eqb_spec j i) as [->|]; [by rewrite Z.sub_diag|].
    destruct (Z.lt_total j i) as [?|[?|?]]; [by rewrite Z.testbit_neg_r by lia|lia|].
    apply Z.bits_above_log2; simpl; lia. }
  rewrite Hx. destruct (Z.eqb_spec x 0) as [->|Hx0]; [|rewrite Z.lor_spec, Hb]; rewrite IH by lia; clear IH Hx Hb.
  - repeat zcase; simpl; try lia; try done.
  - repeat zcase; simpl; try lia; try done.
Qed.

(** *** One group *)

Lemma header_range seg i : 0 <= i -> i + zlen seg <= 8 -> is_u8 (header_of i seg).
Proof.
  intros Hi Hl. apply is_u_iff; [lia|]. apply Z.bits_inj'. intros j Hj.
  rewrite Z.land_spec, header_testbit by lia. rewrite Z.testbit_ones by lia.
  destruct (Z.ltb_spec j 8), (Z.leb_spec 0 j); try lia; simpl; rewrite ?andb_true_r, ?andb_false_r; try done.
  rewrite zget_none by lia. by rewrite andb_false_r.
Qed.

Lemma insert_splice {A} (l : list A) i x xs : 0 <= i < zlen l ->
  <[Z.to_nat i := x]> (splice l (i + 1) xs) = splice l i (x :: xs).
Proof.
  intros Hi. rewrite <- splice_cons by done. unfold splice, zlen in *.
  rewrite insert_app_l by (rewrite length_take; lia). rewrite take_insert_lt by lia. do 2 f_equal.
  by rewrite drop_insert_lt by lia.
Qed.

Lemma pack_bytes_spec src i buf p sz header n :
  (0 < sz -> 0 <= p /\ p + sz = zlen buf) ->
  pack_bytes src i buf p sz header n =
    Some (header .| header_of i src, n + zlen (nonzero src), splice buf p (take (Z.to_nat sz) (Some <$> nonzero src))).
Proof.
  revert i buf p sz header n. induction src as [|x src IH]; intros i buf p sz header n Hp.
  { simpl. rewrite take_nil, splice_nil, Z.lor_0_r. do 3 f_equal. zlen_lia. }
  cbn [pack_bytes header_of]. rewrite nonzero_cons.
  destruct (Z.eqb_spec x 0) as [->|Hx]; [by rewrite IH|]. rewrite Z.lor_assoc.
  destruct (Z.ltb_spec 0 sz) as [Hs|Hs].
  - destruct (Hp Hs) as [Hp0 Hpl]. rewrite zset_eq, some_bind by lia.
    rewrite IH by (intros; autorewrite with zlen; lia).
    assert (Z.to_nat sz = S (Z.to_nat (sz - 1))) as -> by lia. cbn [fmap list_fmap take].
    rewrite splice_cons by lia. f_equal. f_equal. f_equal. zlen_lia.
  - rewrite IH by lia. assert (Z.to_nat sz = 0%nat) as -> by lia.
    rewrite !take_0. do 3 f_equal. zlen_lia.
Qed.

(** What a group costs: [n] is the number of groups in the run so far. *)
Definition is_run (seg : list Z) (n : Z) : bool :=
  (zlen (nonzero seg) =? 8) || (((zlen (nonzero seg) =? 7) || (zlen (nonzero seg) =? 6)) && (0 <? n)).
Definition seg_cost (seg : list Z) (n : Z) : Z :=
  if is_run seg n then if 0 <? n then 8 else 10 else zlen (nonzero seg) + 1.

Lemma pack_seg_spec seg buf p sz n : zlen seg = 8 -> 0 <= p -> p + sz = zlen buf -> 
  exists buf', pack_seg seg buf p sz n = Some (seg_cost seg n, buf') /\ zlen buf' = zlen buf /\
    (p <= zlen buf -> take (Z.to_nat p) buf' = take (Z.to_nat p) buf) /\
    (is_run seg n = false -> seg_cost seg n <= sz ->
       take (Z.to_nat (p + seg_cost seg n)) buf' =
         take (Z.to_nat p) buf ++ (Some <$> (header_of 0 seg :: nonzero seg))).
Proof.
  intros Hs Hp Hb. unfold pack_seg, seg_cost, is_run. rewrite pack_bytes_spec by lia. cbn [mbind option_bind].
  pose proof (zlen_nonzero seg) as Hn. rewrite Z.add_0_l, Z.lor_0_l.
  set (c := zlen (nonzero seg)) in *. set (buf1 := splice _ _ _).
  assert (Hw : zlen (take (Z.to_nat (sz - 1)) (Some <$> nonzero seg)) = Z.min (Z.max 0 (sz - 1)) c).
  { unfold c, zlen. rewrite length_take, length_fmap. lia. }
  assert (Hl : zlen buf1 = zlen buf).
  { destruct (Z.leb_spec (sz - 1) 0).
    - unfold buf1. assert (Z.to_nat (sz - 1) = 0%nat) as -> by lia. by rewrite take_0, splice_nil.
    - apply zlen_splice; lia. }
  assert (Hpre : p <= zlen buf -> take (Z.to_nat p) buf1 = take (Z.to_nat p) buf).
  { intros. destruct (Z.leb_spec (sz - 1) 0).
    - unfold buf1. assert (Z.to_nat (sz - 1) = 0%nat) as -> by lia. by rewrite take_0, splice_nil.
    - apply take_splice_before. lia. }
  replace (if ((c =? 7) || (c =? 6)) && (0 <? n) then 8 else c)
    with (if (c =? 8) || (((c =? 7) || (c =? 6)) && (0 <? n)) then 8 else c)
    by (destruct (Z.eqb_spec c 8), (Z.eqb_spec c 7), (Z.eqb_spec c 6), (0 <? n); simpl; lia).
  destruct ((c =? 8) || _) eqn:Hr.
  { exists buf1. destruct (0 <? n); done. }
  destruct (Z.eqb_spec c 8); [done|].
  destruct (Z.ltb_spec (sz - 1) 0).
  { exists buf1. split_and!; try done. lia. }
  rewrite zset_eq, some_bind by lia. exists (<[Z.to_nat p := Some (header_of 0 seg)]> buf1).
  split_and!; [done|by rewrite zlen_insert| |].
  - intros. rewrite take_insert_ge by lia. auto.
  - intros _ Hc. unfold buf1. rewrite (take_ge (Some <$> nonzero seg)) by (rewrite length_fmap; unfold c, zlen in *; lia).
    rewrite insert_splice by lia.
    replace (p + (c + 1)) with (p + zlen (Some <$> (header_of 0 seg :: nonzero seg))) by (unfold c; rewrite zlen_fmap; zlen_lia).
    apply take_splice. lia.
Qed.

(** *** Copying a run *)

Lemma align8_eq n : align8 n = (n + 7) / 8 * 8.
Proof.
  unfold align8. rewrite <- Z.ldiff_land. change 7 with (Z.ones 3) at 2.
  rewrite Z.ldiff_ones_r by lia. by rewrite Z.shiftl_mul_pow2, Z.shiftr_div_pow2 by lia.
Qed.

Lemma mread_Some mem p n : 0 <= p -> 0 <= n -> p + n <= zlen mem ->
  mread mem p n = Some (take (Z.to_nat n) (drop (Z.to_nat p) mem)).
Proof.
  intros. unfold mread. destruct (Z.leb_spec 0 p), (Z.leb_spec 0 n), (Z.leb_spec (p + n) (zlen mem)); try lia. done.
Qed.
Lemma zlen_mread mem p n l : mread mem p n = Some l -> zlen l = n.
Proof.
  unfold mread. destruct (Z.leb_spec 0 p), (Z.leb_spec 0 n), (Z.leb_spec (p + n) (zlen mem)); try done.
  intros [= <-]. unfold zlen in *. rewrite length_take, length_drop. lia.
Qed.

Lemma take_splice_over {A} (l : list A) i e m xs y : 0 <= i -> i + zlen xs = e -> e <= m -> e <= zlen l ->
  take (Z.to_nat m) l = take (Z.to_nat e) l ++ y -> take (Z.to_nat m) (splice l i xs) = take (Z.to_nat i) l ++ xs ++ y.
Proof.
  intros Hi He Hm Hl Hy. unfold splice, zlen in *. rewrite !take_app, length_take. rewrite take_take.
  f_equal; [f_equal; lia|]. rewrite (take_ge xs) by lia. f_equal.
  apply (f_equal (drop (Z.to_nat e))) in Hy. rewrite drop_app_length' in Hy by (rewrite length_take; lia).
  rewrite <- Hy, skipn_firstn_comm. f_equal; [lia|f_equal; lia].
Qed.

(** The bytes of a run: they may be fewer than the groups need, zeros follow. *)
Definition run_bytes (bytes : list Z) : list Z := bytes ++ replicate (Z.to_nat (align8 (zlen bytes) - zlen bytes)) 0.

Lemma write_ff_spec mem src buf des bytes n :
  0 <= des -> des + 2 + align8 n <= zlen buf -> pread mem src n = Some bytes -> zlen bytes = n -> 0 < n ->
  align8 n <= 2048 ->
  write_ff mem src buf des n = Some (splice buf des (Some <$> (0xff :: align8 n / 8 - 1 :: run_bytes bytes))).
Proof.
  intros Hd Hb Hr Hl Hn Ha. unfold write_ff, run_bytes. rewrite Hl, Hr.
  assert (n <= align8 n) as Hle by (rewrite align8_eq; div_lia).
  unfold u8. rewrite wrap_small by (rewrite align8_eq in *; unfold is_u; div_lia).
  set (z := replicate _ _). assert (zlen z = align8 n - n) as Hz by (unfold z; rewrite zlen_replicate; lia).
  rewrite zset_splice, some_bind by lia.
  rewrite zset_splice, !some_bind by (rewrite zlen_splice; zlen_lia).
  change (des + 1) with (des + zlen [Some 255]). rewrite splice_splice by lia. cbn [app].
  set (hd := [Some 255; Some (align8 n / 8 - 1)]). assert (zlen hd = 2) as Hh by done.
  assert (zlen (splice buf des hd) = zlen buf) as H1 by (apply zlen_splice; lia).
  rewrite memcpy_splice, some_bind by (rewrite ?zlen_fmap; lia).
  replace (des + 2) with (des + zlen hd) by lia. rewrite splice_splice by lia.
  assert (zlen (hd ++ (Some <$> bytes)) = 2 + n) as H2 by (rewrite zlen_app, zlen_fmap; lia).
  assert (zlen (splice buf des (hd ++ (Some <$> bytes))) = zlen buf) as H3 by (apply zlen_splice; lia).
  rewrite memcpy_splice by (rewrite ?zlen_fmap; lia).
  replace (des + zlen hd + n) with (des + zlen (hd ++ (Some <$> bytes))) by lia.
  rewrite splice_splice by lia. cbn [fmap list_fmap]. by rewrite fmap_app.
Qed.

(** *** The loop *)

Section pack.
Context (mem : list Z) (srcsz : Z).
Context (Hmem : is_bytes mem).
Context (Hsrc : 0 <= srcsz <= zlen mem).
Context (Hpad : 6 <= srcsz mod 8 -> groups srcsz * 8 <= zlen mem).

(** [s] is [j] bytes that agree with the source. *)
Definition agrees (s : list Z) (j : Z) : Prop :=
  is_bytes s /\ zlen s = j /\ take (Z.to_nat srcsz) s = take (Z.to_nat (Z.min j srcsz)) mem.

Lemma agrees_app s x j n : agrees s j -> 0 <= j <= srcsz -> is_bytes x -> zlen x = n ->
  take (Z.to_nat (srcsz - j)) x = take (Z.to_nat (Z.min n (srcsz - j))) (drop (Z.to_nat j) mem) -> agrees (s ++ x) (j + n).
Proof.
  intros (Hb & Hl & Hs) Hj Hbx Hx Hax. split; [by apply is_bytes_app|]. split; [rewrite zlen_app; lia|]. unfold zlen in *.
  rewrite take_app, Hs, Z.min_l by lia.
  replace (Z.to_nat srcsz - length s)%nat with (Z.to_nat (srcsz - j)) by lia. rewrite Hax.
  replace (Z.to_nat (Z.min (j + n) srcsz)) with (Z.to_nat j + Z.to_nat (Z.min n (srcsz - j)))%nat by lia.
  apply take_take_drop.
Qed.

Lemma seg_read i : 0 <= i < srcsz -> exists src seg,
  seg_ptr mem srcsz i = Some src /\ pread mem src 8 = Some seg /\ is_bytes seg /\ zlen seg = 8 /\
  (i + 8 <= srcsz -> src = InSrc i) /\ zlen (nonzero seg) <= srcsz - i /\
  take (Z.to_nat (srcsz - i)) seg = take (Z.to_nat (Z.min 8 (srcsz - i))) (drop (Z.to_nat i) mem).
Proof.
  intros Hi. unfold seg_ptr. destruct (Z.ltb_spec 0 (i + 8 - srcsz)).
  - rewrite mread_Some by lia. rewrite some_bind. set (t := take _ _). set (z := replicate _ 0).
    assert (Ht : zlen t = srcsz - i) by (unfold t, zlen in *; rewrite length_take, length_drop; lia).
    assert (Hz : zlen z = i + 8 - srcsz) by (unfold z; rewrite zlen_replicate; lia).
    assert (H8 : zlen (t ++ z) = 8) by (rewrite zlen_app; lia).
    exists (InTmp (t ++ z)), (t ++ z). split_and!; try done; try lia.
    + cbn [pread]. rewrite mread_Some by lia. f_equal. apply take_ge. simpl. unfold zlen in *. lia.
    + apply is_bytes_app. split; [unfold t; auto with skynet|]. by apply Forall_replicate.
    + rewrite nonzero_app. unfold z. rewrite nonzero_zeros, app_nil_r. pose proof (zlen_nonzero t). lia.
    + rewrite take_app_le by (unfold zlen in *; lia). unfold t. rewrite take_take. f_equal. lia.
  - eexists _, _. split; [done|]. cbn [pread]. rewrite mread_Some by lia.
    assert (H8 : zlen (take (Z.to_nat 8) (drop (Z.to_nat i) mem)) = 8)
      by (unfold zlen in *; rewrite length_take, length_drop; lia).
    split_and!; [done|auto with skynet|done|done| |].
    + pose proof (zlen_nonzero (take (Z.to_nat 8) (drop (Z.to_nat i) mem))). lia.
    + rewrite take_take. f_equal. lia.
Qed.

(** The bytes before [mark] are final. *)
Definition mark (k : pack_state) : Z := if 0 <? k_n k then k_des k else k_at k.

Record pack_inv (bufsz i : Z) (k : pack_state) : Prop := {
  pi_len : zlen (k_buf k) = bufsz;
  pi_room : k_at k + k_room k = bufsz;
  pi_at : 0 <= k_at k;
  pi_size : k_size k = k_at k;
  pi_n : 0 <= k_n k < 256;
  pi_run : 0 < k_n k -> k_src k = Some (InSrc (i - 8 * k_n k)) /\ 0 <= k_des k /\ k_at k = k_des k + 2 + 8 * k_n k /\
    0 <= i - 8 * k_n k /\ i - 8 * k_n k + 8 <= srcsz;
  pi_one : i <= srcsz \/ k_n k <> 1;
  pi_bound : exists full, 0 <= full /\ 2048 * full + 8 * k_n k <= i /\
    k_at k <= i + 2 * full + (if 0 <? k_n k then 2 else 0) /\
    (srcsz < i -> k_at k <= maxsz_of srcsz);
  pi_done : 0 <= k_room k -> exists o s, take (Z.to_nat (mark k)) (k_buf k) = Some <$> o /\
    packed o s /\ agrees s (i - 8 * k_n k) }.

(** A run of [n] groups at [des], written after the first group that is not of it, or
    after its last one. *)
Lemma flush_spec buf p des n m o s y : 0 <= p -> p + n * 8 <= zlen mem -> 1 <= n <= 256 -> 0 <= des ->
  des + 2 + n * 8 <= m -> m <= zlen buf ->
  take (Z.to_nat des) buf = Some <$> o -> packed o s -> agrees s p -> p <= srcsz ->
  take (Z.to_nat m) buf = take (Z.to_nat (des + 2 + n * 8)) buf ++ (Some <$> y) ->
  exists buf' o' s', write_ff mem (InSrc p) buf des (n * 8) = Some buf' /\ zlen buf' = zlen buf /\
    take (Z.to_nat m) buf' = Some <$> (o' ++ y) /\ packed o' s' /\ agrees s' (p + n * 8).
Proof.
  intros Hp Hm Hn Hd Hdm Hmb Ho Hpk Ha Hps Hy.
  set (bytes := take (Z.to_nat (n * 8)) (drop (Z.to_nat p) mem)).
  assert (Hr : mread mem p (n * 8) = Some bytes) by (apply mread_Some; lia).
  pose proof (zlen_mread _ _ _ _ Hr) as Hl.
  assert (Hal : align8 (n * 8) = n * 8) by (rewrite align8_eq; div_lia).
  assert (Hrb : run_bytes bytes = bytes) by (unfold run_bytes; rewrite Hl, Hal, Z.sub_diag; apply app_nil_r).
  set (xs := Some <$> (255 :: n - 1 :: bytes)).
  assert (Hx : zlen xs = 2 + n * 8) by (unfold xs; rewrite zlen_fmap; zlen_lia).
  exists (splice buf des xs), (o ++ 255 :: n - 1 :: bytes), (s ++ bytes). split_and!.
  - rewrite (write_ff_spec _ _ _ _ bytes) by (rewrite ?Hal; try lia; done). rewrite Hal, Z.div_mul, Hrb by lia. done.
  - apply zlen_splice; lia.
  - rewrite (take_splice_over _ _ (des + 2 + n * 8) m _ (Some <$> y)) by (try done; lia).
    by rewrite Ho, !fmap_app, app_assoc.
  - apply packed_snoc; [done|]. constructor; lia.
  - apply agrees_app; try done; try lia; [unfold bytes; auto with skynet|]. unfold bytes. rewrite take_take. f_equal. lia.
Qed.

Definition next_n (seg : list Z) (n : Z) : Z := if is_run seg n then if n + 1 =? 256 then 0 else n + 1 else 0.

(** The overhead of a run is made up for by the group that ends it. *)
Lemma step_bound seg i at' n full :
  zlen seg = 8 -> zlen (nonzero seg) <= srcsz - i -> 0 <= i < srcsz -> 0 <= n < 256 ->
  0 <= full -> 2048 * full + 8 * n <= i -> at' <= i + 2 * full + (if 0 <? n then 2 else 0) ->
  exists full, 0 <= full /\ 2048 * full + 8 * next_n seg n <= i + 8 /\
    at' + seg_cost seg n <= i + 8 + 2 * full + (if 0 <? next_n seg n then 2 else 0) /\
    (srcsz < i + 8 -> at' + seg_cost seg n <= maxsz_of srcsz).
Proof.
  intros Hs Hc Hi Hn Hf Hle Ha. pose proof (zlen_nonzero seg). set (c := zlen (nonzero seg)) in *.
  unfold maxsz_of, next_n, seg_cost, is_run. fold c.
  exists (if is_run seg n && (n =? 255) then full + 1 else full). unfold is_run. fold c.
  destruct (Z.eqb_spec c 8), (Z.eqb_spec c 7), (Z.eqb_spec c 6), (Z.ltb_spec 0 n), (Z.eqb_spec n 255), (Z.eqb_spec (n + 1) 256);
    try lia; simpl; repeat zcase; try lia; split_and!; try lia; intros; div_lia.
Qed.

Lemma is_run_full seg : zlen seg = 8 -> is_run seg 0 = true -> zlen (nonzero seg) = 8.
Proof. unfold is_run. rewrite andb_false_r, orb_false_r. intros ?. zcase; [done|discriminate]. Qed.

Lemma is_run_many seg n : is_run seg n = true -> 6 <= zlen (nonzero seg).
Proof. unfold is_run. repeat zcase; simpl; try done; lia. Qed.

Lemma not_run_few seg n : is_run seg n = false -> zlen seg = 8 -> zlen (nonzero seg) < 8 /\ (0 < n -> zlen (nonzero seg) < 6).
Proof. unfold is_run. pose proof (zlen_nonzero seg). repeat zcase; simpl; try done; lia. Qed.

(** The branches of a round: [n] is what the group cost, [buf] the block after it. *)
Section round.
Context (bufsz i j : Z) (k : pack_state) (seg : list Z) (buf : cells).
Context (Hi : 0 <= i < srcsz) (Hj : i = 8 * j) (Hk : pack_inv bufsz i k) (Hseg : zlen seg = 8).
Context (Hsegb : is_bytes seg) (Hfew : zlen (nonzero seg) <= srcsz - i).
Context (Hag : take (Z.to_nat (srcsz - i)) seg = take (Z.to_nat (Z.min 8 (srcsz - i))) (drop (Z.to_nat i) mem)).
Context (Hbuf : zlen buf = zlen (k_buf k)).
Context (Hpre : k_at k <= zlen (k_buf k) -> take (Z.to_nat (k_at k)) buf = take (Z.to_nat (k_at k)) (k_buf k)).
Let cost := seg_cost seg (k_n k).

Definition step_to (r : option pack_state) : Prop := exists k', r = Some k' /\ pack_inv bufsz (i + 8) k'.

Lemma cost_pos : 1 <= cost.
Proof. unfold cost, seg_cost. pose proof (zlen_nonzero seg). destruct (is_run _ _), (0 <? k_n k); lia. Qed.

Lemma next_inv (buf' : cells) src des n :
  zlen buf' = zlen (k_buf k) -> n = next_n seg (k_n k) ->
  (0 < n -> src = Some (InSrc (i + 8 - 8 * n)) /\ 0 <= des /\ k_at k + cost = des + 2 + 8 * n /\ 0 <= i + 8 - 8 * n /\ i + 8 - 8 * n + 8 <= srcsz) ->
  (i + 8 <= srcsz \/ n <> 1) ->
  (0 <= k_room k - cost -> exists (o s : list Z), take (Z.to_nat (if 0 <? n then des else k_at k + cost)) buf' = Some <$> o /\ packed o s /\ agrees s (i + 8 - 8 * n)) ->
  step_to (pack_next k cost buf' src des n).
Proof.
  intros Hb -> Hr Ho Hd. destruct Hk as [Hlen Hroom Hat Hsize Hn _ _ (full & Hf & Hf8 & Hfa & _) _].
  pose proof cost_pos.
  assert (0 <= next_n seg (k_n k) < 256) by (unfold next_n; destruct (is_run _ _); repeat zcase; lia).
  eexists. split; [done|]. constructor; cbn; try lia; try done.
  eapply step_bound; eauto.
Qed.

Lemma prefix_kept m : m <= k_at k -> 0 <= k_room k -> take (Z.to_nat m) buf = take (Z.to_nat m) (k_buf k).
Proof.
  intros Hm Hr. destruct Hk as [Hlen Hroom Hat _ _ _ _ _ _].
  assert (He : take (Z.to_nat (k_at k)) buf = take (Z.to_nat (k_at k)) (k_buf k)) by (apply Hpre; lia).
  apply (f_equal (take (Z.to_nat m))) in He. rewrite !take_take in He. by rewrite Nat.min_l in He by lia.
Qed.

Lemma round_first : k_n k = 0 -> is_run seg 0 = true -> step_to (pack_next k cost buf (Some (InSrc i)) (k_at k) 1).
Proof.
  intros H0 Hr. pose proof (is_run_full _ Hseg Hr). assert (Hc : cost = 10) by (unfold cost, seg_cost; by rewrite H0, Hr).
  destruct Hk as [Hlen Hroom Hat Hsize Hn Hrun Hone _ Hdone]. apply next_inv; try lia.
  - unfold next_n. by rewrite H0, Hr.
  - intros _. split_and!; try lia. do 2 f_equal. lia.
  - intros Hro. destruct Hdone as (o & s & Ho & Hp & Ha); [lia|]. exists o, s. unfold mark in Ho. rewrite H0 in *.
    change (0 <? 1) with true. cbv iota. rewrite prefix_kept by lia. split_and!; [done|done|]. by replace (i + 8 - 8 * 1) with (i - 8 * 0) by lia.
Qed.

Lemma round_more : 0 < k_n k < 255 -> is_run seg (k_n k) = true -> step_to (pack_next k cost buf (k_src k) (k_des k) (k_n k + 1)).
Proof.
  intros H0 Hr.
  assert (Hc : cost = 8) by (unfold cost, seg_cost; rewrite Hr; zcase; lia).
  destruct Hk as [Hlen Hroom Hat Hsize Hn Hrun Hone _ Hdone]. destruct Hrun as (Hs & Hd & He & Hge & Hle); [lia|].
  apply next_inv; try lia.
  - unfold next_n. rewrite Hr. zcase; lia.
  - intros _. split_and!; try lia. rewrite Hs. do 2 f_equal. lia.
  - intros Hro. destruct Hdone as (o & s & Ho & Hp & Ha); [lia|]. exists o, s. unfold mark in Ho.
    destruct (Z.ltb_spec 0 (k_n k)), (Z.ltb_spec 0 (k_n k + 1)); try lia.
    rewrite prefix_kept by lia. split_and!; [done|done|]. by replace (i + 8 - 8 * (k_n k + 1)) with (i - 8 * k_n k) by lia.
Qed.

Lemma round_full : k_n k = 255 -> is_run seg (k_n k) = true ->
  step_to (buf ← flush mem k cost buf (256 * 8); pack_next k cost buf (k_src k) (k_des k) 0).
Proof.
  intros H0 Hr. pose proof (is_run_many _ _ Hr).
  assert (Hc : cost = 8) by (unfold cost, seg_cost; rewrite Hr, H0; done).
  assert (Hnx : 0 = next_n seg (k_n k)) by (unfold next_n; rewrite Hr, H0; done).
  destruct Hk as [Hlen Hroom Hat Hsize Hn Hrun Hone _ Hdone]. destruct Hrun as (Hs & Hd & He & Hge & Hle); [lia|].
  unfold flush. destruct (Z.leb_spec 0 (k_room k - cost)); [|rewrite some_bind; apply next_inv; try lia; done].
  destruct Hdone as (o & s & Ho & Hp & Ha); [lia|]. unfold mark in Ho. rewrite H0 in *. cbn in Ho.
  rewrite Hs, some_bind. destruct (flush_spec buf (i - 8 * 255) (k_des k) 256 (k_at k + cost) o s []) as (buf' & o' & s' & Hw & Hl & Ht & Hp' & Ha');
    try done; try lia.
  - unfold groups in Hpad. assert (i + 8 <= srcsz \/ srcsz < i + 8) as [?|?] by lia; [lia|]. 
    assert (6 <= srcsz mod 8) by div_lia. assert (i + 8 = (srcsz + 7) / 8 * 8) by div_lia. specialize (Hpad ltac:(done)). lia.
  - rewrite prefix_kept by lia. done.
  - rewrite app_nil_r. do 2 f_equal. lia.
  - change (256 * 8) with 2048 in *. rewrite Hw, some_bind. apply next_inv; rewrite ?H0; try lia; try done.
    intros _. exists o', s'. rewrite app_nil_r in Ht. split_and!; [done|done|]. by replace (i + 8 - 8 * 0) with (i - 8 * 255 + 2048) by lia.
Qed.

Context (Hput : is_run seg (k_n k) = false -> cost <= k_room k ->
       take (Z.to_nat (k_at k + cost)) buf = take (Z.to_nat (k_at k)) (k_buf k) ++ (Some <$> (header_of 0 seg :: nonzero seg))).

Lemma group_of_seg : is_run seg (k_n k) = false -> group (header_of 0 seg :: nonzero seg) seg.
Proof. intros Hr. destruct (not_run_few _ _ Hr Hseg). by constructor. Qed.

Lemma round_end : 0 < k_n k -> is_run seg (k_n k) = false ->
  step_to (buf ← flush mem k cost buf (k_n k * 8); pack_next k cost buf (k_src k) (k_des k) 0).
Proof.
  intros H0 Hr. pose proof cost_pos. specialize (Hput Hr).
  assert (Hnx : 0 = next_n seg (k_n k)) by (unfold next_n; by rewrite Hr).
  destruct Hk as [Hlen Hroom Hat Hsize Hn Hrun Hone _ Hdone]. destruct Hrun as (Hs & Hd & He & Hge & Hle); [lia|].
  unfold flush. destruct (Z.leb_spec 0 (k_room k - cost)); [|rewrite some_bind; apply next_inv; try lia; done].
  destruct Hdone as (o & s & Ho & Hp & Ha); [lia|]. unfold mark in Ho. destruct (Z.ltb_spec 0 (k_n k)); [|lia].
  rewrite Hs, some_bind. destruct (flush_spec buf (i - 8 * k_n k) (k_des k) (k_n k) (k_at k + cost) o s (header_of 0 seg :: nonzero seg))
    as (buf' & o' & s' & Hw & Hl & Ht & Hp' & Ha'); try done; try lia.
  - rewrite prefix_kept by lia. done.
  - rewrite Hput by lia. f_equal. rewrite <- prefix_kept by lia. do 2 f_equal. lia.
  - rewrite Hw, some_bind. apply next_inv; try lia; try done.
    intros _. exists (o' ++ header_of 0 seg :: nonzero seg), (s' ++ seg). split_and!; [done| |].
    + apply packed_snoc; [done|]. by apply group_of_seg.
    + replace (i + 8 - 8 * 0) with (i + 8) by lia. replace (i - 8 * k_n k + k_n k * 8) with i in Ha' by lia.
      apply agrees_app; try done; lia.
Qed.

Lemma round_sparse : k_n k = 0 -> is_run seg (k_n k) = false -> step_to (pack_next k cost buf (k_src k) (k_des k) (k_n k)).
Proof.
  intros H0 Hr. specialize (Hput Hr).
  assert (Hnx : k_n k = next_n seg (k_n k)) by (unfold next_n; by rewrite Hr).
  destruct Hk as [Hlen Hroom Hat Hsize Hn Hrun Hone _ Hdone]. pose proof cost_pos. apply next_inv; try lia; try done.
  intros Hro. destruct Hdone as (o & s & Ho & Hp & Ha); [lia|]. unfold mark in Ho. rewrite H0 in Ho, Ha |- *. cbn in Ho |- *.
  rewrite Hput by lia. rewrite Ho, <- fmap_app.
  exists (o ++ header_of 0 seg :: nonzero seg), (s ++ seg). split_and!; [done| |].
  - apply packed_snoc; [done|]. by apply group_of_seg.
  - replace (i + 8 - 8 * 0) with (i + 8) by lia. rewrite Z.sub_0_r in Ha. by apply (agrees_app s seg i 8); try lia.
Qed.
End round.

Lemma pack_step_spec bufsz i j k : i = 8 * j -> 0 <= i < srcsz -> pack_inv bufsz i k ->
  exists k', pack_step mem srcsz i k = Some k' /\ pack_inv bufsz (i + 8) k'.
Proof.
  intros Hj Hi Hk. pose proof Hk as [Hlen Hroom Hat Hsize Hn Hrun Hone _ _].
  destruct (seg_read i Hi) as (src & seg & Hptr & Hread & Hsegb & Hseg & Hin & Hfew & Hag).
  unfold pack_step. rewrite Hptr, some_bind, Hread, some_bind.
  destruct (pack_seg_spec seg (k_buf k) (k_at k) (k_room k) (k_n k)) as (buf & Hps & Hbl & Hpre & Hput); [done|done|lia|].
  rewrite Hps, some_bind. cbv beta iota zeta. pose proof (zlen_nonzero seg).
  destruct (is_run seg (k_n k)) eqn:Hr.
  - destruct (Z.ltb_spec 0 (k_n k)) as [H0|H0].
    + assert (seg_cost seg (k_n k) = 8) as Hc by (unfold seg_cost; rewrite Hr; zcase; lia).
      rewrite (proj2 (Z.eqb_neq _ 10)), (proj2 (Z.eqb_eq _ 8)) by lia. cbn [andb]. zcase.
      * eapply round_full; eauto; lia.
      * eapply round_more; eauto; lia.
    + assert (k_n k = 0) as Hk0 by lia. assert (seg_cost seg (k_n k) = 10) as Hc by (unfold seg_cost; rewrite Hr; zcase; lia).
      rewrite (proj2 (Z.eqb_eq _ 10)) by lia. rewrite Hk0 in Hr. pose proof (is_run_full _ Hseg Hr).
      rewrite Hin by lia. eapply round_first; eauto; lia.
  - destruct (not_run_few _ _ Hr Hseg) as [H8 H6].
    assert (seg_cost seg (k_n k) = zlen (nonzero seg) + 1) as Hc by (unfold seg_cost; by rewrite Hr).
    rewrite (proj2 (Z.eqb_neq _ 10)) by lia.
    destruct (Z.ltb_spec 0 (k_n k)) as [H0|H0]; rewrite ?andb_false_r.
    + rewrite (proj2 (Z.eqb_neq _ 8)) by lia. cbn [andb]. eapply round_end; eauto; lia.
    + eapply round_sparse; eauto; lia.
Qed.

Lemma pack_loop_spec bufsz m j k : 8 * j + 8 * Z.of_nat m = groups srcsz * 8 -> 0 <= j -> pack_inv bufsz (8 * j) k ->
  exists k', pack_loop m mem srcsz (8 * j) k = Some k' /\ pack_inv bufsz (groups srcsz * 8) k'.
Proof.
  revert j k. induction m as [|m IH]; intros j k Hm Hj Hk.
  { exists k. split; [done|]. by replace (groups srcsz * 8) with (8 * j) by lia. }
  destruct (pack_step_spec bufsz (8 * j) j k) as (k' & Hs & Hk'); [done|unfold groups in *; div_lia|done|].
  cbn [pack_loop]. rewrite Hs, some_bind. replace (8 * j + 8) with (8 * (j + 1)) in * by lia. apply IH; try done; lia.
Qed.

(** The last run is written with zeros up to a whole number of groups. *)
Lemma last_run_spec buf p des n o s : 0 <= p <= srcsz -> p + 8 * n = groups srcsz * 8 -> 1 <= n <= 256 -> 0 <= des ->
  des + 2 + 8 * n <= zlen buf -> 0 < srcsz - p ->
  take (Z.to_nat des) buf = Some <$> o -> packed o s -> agrees s p ->
  exists buf' o' s', write_ff mem (InSrc p) buf des (srcsz - p) = Some buf' /\ zlen buf' = zlen buf /\
    take (Z.to_nat (des + 2 + 8 * n)) buf' = Some <$> o' /\ packed o' s' /\ agrees s' (groups srcsz * 8).
Proof.
  intros Hp Hpn Hn Hd Hdb Hlt Ho Hpk Ha.
  set (bytes := take (Z.to_nat (srcsz - p)) (drop (Z.to_nat p) mem)).
  assert (Hr : mread mem p (srcsz - p) = Some bytes) by (apply mread_Some; lia).
  pose proof (zlen_mread _ _ _ _ Hr) as Hl.
  assert (Hal : align8 (srcsz - p) = n * 8) by (rewrite align8_eq; unfold groups in *; div_lia).
  assert (Hge : srcsz - p <= n * 8) by (rewrite <- Hal, align8_eq; div_lia).
  assert (Hrb : zlen (run_bytes bytes) = 8 * n).
  { unfold run_bytes. rewrite Hl, Hal, zlen_app, zlen_replicate. lia. }
  set (xs := Some <$> (255 :: n - 1 :: run_bytes bytes)).
  assert (Hx : zlen xs = 2 + 8 * n) by (unfold xs; rewrite zlen_fmap; zlen_lia).
  exists (splice buf des xs), (o ++ 255 :: n - 1 :: run_bytes bytes), (s ++ run_bytes bytes). split_and!.
  - rewrite (write_ff_spec _ _ _ _ bytes) by (rewrite ?Hal; try lia; done). rewrite Hal, Z.div_mul by lia. done.
  - apply zlen_splice; lia.
  - replace (des + 2 + 8 * n) with (des + zlen xs) by lia. rewrite take_splice by lia. by rewrite Ho, fmap_app.
  - apply packed_snoc; [done|]. by constructor.
  - rewrite <- Hpn. apply agrees_app; try done; unfold run_bytes.
    { apply is_bytes_app. split; [unfold bytes; auto with skynet|]. by apply Forall_replicate. }
    rewrite take_app_le, Z.min_r by (unfold zlen in *; lia). fold bytes. apply take_ge. unfold zlen in *. lia.
Qed.

Lemma pack_end_spec bufsz k : pack_inv bufsz (groups srcsz * 8) k ->
  exists buf, pack_end mem srcsz k = Some buf /\ zlen buf = bufsz /\ 0 <= k_size k <= maxsz_of srcsz /\
    (k_size k <= bufsz -> exists o s, take (Z.to_nat (k_size k)) buf = Some <$> o /\ packed o s /\
      agrees s (groups srcsz * 8)).
Proof.
  intros [Hlen Hroom Hat Hsize Hn Hrun Hone (full & Hf & Hf8 & Hfa & Hfm) Hdone]. rewrite Hsize.
  assert (Hmax : k_at k <= maxsz_of srcsz).
  { assert (srcsz < groups srcsz * 8 \/ srcsz = groups srcsz * 8) as [?|He] by (unfold groups; div_lia); [by apply Hfm|].
    rewrite <- He in *. unfold maxsz_of. destruct (Z.ltb_spec 0 (k_n k)); div_lia. }
  unfold pack_end. destruct (Z.leb_spec 0 (k_room k)); [|eexists; split_and!; try done; lia].
  destruct Hdone as (o & s & Ho & Hp & Ha); [done|]. unfold mark in Ho.
  destruct (Z.ltb_spec 0 (k_n k)) as [H0|H0].
  - destruct Hrun as (Hs & Hd & He & Hge & Hle); [done|]. rewrite Hs, !some_bind.
    set (p := groups srcsz * 8 - 8 * k_n k) in *.
    destruct (last_run_spec (k_buf k) p (k_des k) (k_n k) o s) as (buf & o' & s' & Hw & Hl & Ht & Hp' & Ha'); try done; try lia.
    exists buf. rewrite He, Hl, Hlen. split_and!; try done; try lia; [|intros; by exists o', s'].
    destruct (Z.eqb_spec (k_n k) 1).
    + rewrite <- Hw. f_equal. unfold groups in *. div_lia.
    + by destruct (Z.ltb_spec 1 (k_n k)); [|lia].
  - destruct (Z.eqb_spec (k_n k) 1), (Z.ltb_spec 1 (k_n k)); try lia. eexists. split_and!; try done.
    intros. exists o, s. split_and!; try done. by replace (groups srcsz * 8 - 8 * k_n k) with (groups srcsz * 8) in Ha by lia.
Qed.

Lemma pack_spec buf : exists size buf', sproto_pack mem srcsz buf = Some (size, buf') /\ zlen buf' = zlen buf /\
  0 <= size <= maxsz_of srcsz /\
  (size <= zlen buf -> exists o s, take (Z.to_nat size) buf' = Some <$> o /\ packed o s /\ agrees s (groups srcsz * 8)).
Proof.
  unfold sproto_pack. set (k0 := {| k_buf := buf |}).
  assert (H0 : pack_inv (zlen buf) (8 * 0) k0).
  { constructor; cbn; try lia; try done.
    - exists 0. split_and!; lia.
    - intros _. exists [], []. split_and!; [done|constructor|]. split; [by apply Forall_nil|]. split; [done|]. rewrite Z.min_l by lia. by rewrite take_nil. }
  destruct (pack_loop_spec (zlen buf) (Z.to_nat (groups srcsz)) 0 k0) as (k & Hk & Hinv); try done.
  { unfold groups. div_lia. }
  change (8 * 0) with 0 in Hk. rewrite Hk, some_bind. destruct (pack_end_spec _ _ Hinv) as (buf' & He & Hl & Hr). rewrite He, some_bind.
  by exists (k_size k), buf'.
Qed.
End pack.

(** ** What the packed bytes mean

    The loop of [sproto_unpack] without its destination. *)

Fixpoint bits_ref (mem : list Z) (bits : list Z) (header p n : Z) : option (option (list Z * Z * Z)) :=
  match bits with
  | [] => Some (Some ([], p, n))
  | i :: r =>
    if Z.testbit header i then
      if n <? 0 then Some None
      else x ← zget mem p; res ← bits_ref mem r header (p + 1) (n - 1); Some ('(l, p, n) ← res; Some (x :: l, p, n))
    else res ← bits_ref mem r header p n; Some ('(l, p, n) ← res; Some (0 :: l, p, n))
  end.

Definition step_ref (mem : list Z) (p n : Z) : option (option (list Z * Z * Z)) :=
  header ← zget mem p;
  if header =? 0xff then
    if n - 1 <? 0 then Some None
    else
      x ← zget mem (p + 1);
      let k := (x + 1) * 8 in
      if n - 1 <? k + 1 then Some None else l ← mread mem (p + 2) k; Some (Some (l, p + 2 + k, n - 1 - (k + 1)))
  else bits_ref mem [0; 1; 2; 3; 4; 5; 6; 7] header (p + 1) (n - 1).

Fixpoint loop_ref (fuel : nat) (mem : list Z) (p n : Z) : option (option (list Z)) :=
  if 0 <? n then
    match fuel with
    | O => None
    | S fuel =>
      r ← step_ref mem p n;
      match r with
      | None => Some None
      | Some (l, p, n) => r ← loop_ref fuel mem p n; Some (l' ← r; Some (l ++ l'))
      end
    end
  else Some (Some []).

Definition unpack_ref (mem : list Z) (srcsz : Z) : option (option (list Z)) := loop_ref (Z.to_nat srcsz) mem 0 srcsz.

(** *** The destination holds what was unpacked, as far as there is room *)

Record unpack_inv (bufsz : Z) (out : list Z) (s : unpack_state) : Prop := {
  ui_len : zlen (u_buf s) = bufsz;
  ui_size : u_size s = zlen out;
  ui_at : 0 <= u_at s;
  ui_fits : zlen out <= bufsz -> u_at s = zlen out /\ u_room s = bufsz - zlen out /\
    take (Z.to_nat (zlen out)) (u_buf s) = Some <$> out;
  ui_over : bufsz < zlen out -> u_room s <= 0 }.

Lemma bit_test h i : 0 <= i -> ((h >> i) .& 1 =? 0) = negb (Z.testbit h i).
Proof.
  intros Hi. rewrite land_1, <- Z.bit0_mod, Z.shiftr_spec by lia. by destruct (Z.testbit h (0 + i)) eqn:E; rewrite Z.add_0_l in E; rewrite E.
Qed.

(** The state after one more byte. *)
Definition counted (p n : Z) (s : unpack_state) : unpack_state :=
  {| u_p := p; u_n := n; u_buf := u_buf s; u_at := u_at s; u_room := u_room s; u_size := u_size s + 1 |}.

Lemma put_byte_spec bufsz out x s : unpack_inv bufsz out s ->
  exists s', put_byte x s = Some s' /\ u_p s' = u_p s /\ u_n s' = u_n s /\
    forall p n, unpack_inv bufsz (out ++ [x]) (counted p n s').
Proof.
  intros [Hl Hs Ha Hf Ho]. unfold put_byte. pose proof (zlen_nonneg out).
  assert (H1 : zlen (out ++ [x]) = zlen out + 1) by (rewrite zlen_app; done).
  destruct (Z.ltb_spec 0 (u_room s)) as [Hr|Hr].
  - assert (zlen out <= bufsz) as Hle by (destruct (Z.leb_spec (zlen out) bufsz); lia).
    destruct (Hf Hle) as (Hat & Hroom & Ht). rewrite zset_splice, some_bind by lia.
    eexists. split_and!; [done|done|done|]. intros p n. constructor; cbn; try lia.
    + rewrite zlen_splice; zlen_lia.
    + intros _. split_and!; try lia. rewrite H1, Hat. change 1 with (zlen [Some x]).
      rewrite take_splice by lia. by rewrite Ht, fmap_app.
  - exists s. split_and!; try done. intros p n. constructor; cbn; lia.
Qed.

Definition bits_match (bufsz : Z) (out : list Z) (r : option (option unpack_state)) (r' : option (option (list Z * Z * Z))) : Prop :=
  match r' with
  | None => r = None
  | Some None => r = Some None
  | Some (Some (l, p, n)) => exists s, r = Some (Some s) /\ u_p s = p /\ u_n s = n /\ unpack_inv bufsz (out ++ l) s
  end.

Lemma bits_match_cons bufsz out x r r' : bits_match bufsz (out ++ [x]) r r' ->
  bits_match bufsz out r (res ← r'; Some ('(l, p, n) ← res; Some (x :: l, p, n))).
Proof.
  destruct r' as [[[[l p] n]|]|]; cbn; try done. intros (s & ? & ? & ? & Hs). exists s. split_and!; try done.
  by rewrite <- app_assoc in Hs.
Qed.

Lemma unpack_bits_ref mem bufsz bits header out s :
  Forall (fun i => 0 <= i) bits -> unpack_inv bufsz out s ->
  bits_match bufsz out (unpack_bits mem bits header s) (bits_ref mem bits header (u_p s) (u_n s)).
Proof.
  intros Hb. revert out s. induction Hb as [|i bits Hi Hb IH]; intros out s Hs; cbn [unpack_bits bits_ref].
  { exists s. by rewrite app_nil_r. }
  rewrite bit_test by done. destruct (Z.testbit header i); cbn [negb].
  - destruct (u_n s <? 0); [done|]. destruct (zget mem (u_p s)) as [x|]; [rewrite !some_bind|done].
    destruct (put_byte_spec _ _ x _ Hs) as (s' & Hp & Hpp & Hpn & Hs'). rewrite Hp, some_bind, Hpp, Hpn.
    apply bits_match_cons. apply (IH (out ++ [x]) (counted (u_p s + 1) (u_n s - 1) s')). apply Hs'.
  - destruct (put_byte_spec _ _ 0 _ Hs) as (s' & Hp & Hpp & Hpn & Hs'). rewrite Hp, some_bind. apply bits_match_cons.
    rewrite <- Hpp, <- Hpn. apply (IH (out ++ [0]) (counted (u_p s') (u_n s') s')). apply Hs'.
Qed.

Lemma unpack_step_ref mem bufsz out s : is_bytes mem -> 0 <= u_p s -> u_p s + u_n s <= zlen mem -> unpack_inv bufsz out s ->
  bits_match bufsz out (unpack_step mem s) (step_ref mem (u_p s) (u_n s)).
Proof.
  intros Hm Hp Hpn Hs. unfold unpack_step, step_ref. destruct (zget mem (u_p s)) as [header|]; [rewrite !some_bind|done].
  destruct (header =? 255).
  2: { apply (unpack_bits_ref _ _ _ _ _ {| u_p := u_p s + 1; u_n := u_n s - 1; u_buf := u_buf s |}); [by_eval|].
       destruct Hs. by constructor. }
  destruct (u_n s - 1 <? 0); [done|]. destruct (zget mem (u_p s + 1)) as [x|] eqn:Hx; [rewrite !some_bind|done].
  apply is_bytes_zget in Hx; [|done]. unfold is_u in Hx. set (k := (x + 1) * 8) in *.
  destruct (Z.ltb_spec (u_n s - 1) (k + 1)); [done|].
  replace (u_p s + 1 + 1) with (u_p s + 2) by lia. destruct Hs as [Hl Hs Ha Hf Ho].
  assert (Hrd : mread mem (u_p s + 2) k = Some (take (Z.to_nat k) (drop (Z.to_nat (u_p s + 2)) mem))) by (apply mread_Some; lia).
  pose proof (zlen_mread _ _ _ _ Hrd) as Hk. rewrite Hrd, !some_bind. set (l := take (Z.to_nat k) _) in *.
  assert (Hll : zlen (out ++ l) = zlen out + k) by (rewrite zlen_app; lia). pose proof (zlen_nonneg out).
  destruct (Z.leb_spec k (u_room s)) as [Hr|Hr].
  - assert (zlen out <= bufsz) as Hle by (destruct (Z.leb_spec (zlen out) bufsz); lia).
    destruct (Hf Hle) as (Hat & Hroom & Ht).
    assert (Hx' : zlen (Some <$> l) = k) by (rewrite zlen_fmap; done).
    rewrite memcpy_splice, some_bind by lia. eexists. split_and!; [done|done|done|]. constructor; cbn; try lia.
    + rewrite zlen_splice; lia.
    + intros _. split_and!; try lia. rewrite Hll, Hat, <- Hx', take_splice by lia. by rewrite Ht, fmap_app.
  - rewrite some_bind. eexists. split_and!; [done|done|done|]. constructor; cbn; lia.
Qed.

Lemma bits_ref_total mem bits header p n l p' n' : 0 <= p -> bits_ref mem bits header p n = Some (Some (l, p', n')) ->
  p <= p' /\ p' + n' = p + n /\ n' <= n.
Proof.
  revert p n l p' n'. induction bits as [|i bits IH]; intros p n l p' n' Hp; cbn [bits_ref]; [intros [= <- <- <-]; lia|].
  destruct (Z.testbit header i).
  - destruct (n <? 0); [done|]. destruct (zget mem p); [rewrite some_bind|done].
    destruct (bits_ref _ _ _ _ _) as [[[[l1 p1] n1]|]|] eqn:E; [|done|done].
    intros [= <- <- <-]. apply IH in E; lia.
  - destruct (bits_ref _ _ _ _ _) as [[[[l1 p1] n1]|]|] eqn:E; [|done|done].
    intros [= <- <- <-]. apply IH in E; lia.
Qed.

Lemma step_ref_total mem p n l p' n' : is_bytes mem -> 0 <= p -> step_ref mem p n = Some (Some (l, p', n')) ->
  p < p' /\ p' + n' = p + n /\ n' < n.
Proof.
  intros Hm Hp. unfold step_ref. destruct (zget mem p); [rewrite some_bind|done]. destruct (_ =? _).
  - destruct (_ <? _); [done|]. destruct (zget mem (p + 1)) as [x|] eqn:Hx; [rewrite some_bind|done].
    apply is_bytes_zget in Hx; [|done]. unfold is_u in Hx.
    destruct (_ <? _); [done|]. destruct (mread _ _ _); [|done]. intros [= <- <- <-]. lia.
  - intros Hb. apply bits_ref_total in Hb; lia.
Qed.

Lemma unpack_loop_ref mem bufsz fuel out s : is_bytes mem -> 0 <= u_p s -> u_p s + u_n s <= zlen mem -> unpack_inv bufsz out s ->
  match loop_ref fuel mem (u_p s) (u_n s) with
  | None => unpack_loop fuel mem s = None
  | Some None => unpack_loop fuel mem s = Some None
  | Some (Some l) => exists s', unpack_loop fuel mem s = Some (Some s') /\ unpack_inv bufsz (out ++ l) s'
  end.
Proof.
  intros Hm. revert out s. induction fuel as [|fuel IH]; intros out s Hp Hpn Hs; cbn [loop_ref unpack_loop].
  { destruct (0 <? u_n s); [done|]. exists s. by rewrite app_nil_r. }
  destruct (0 <? u_n s); [|exists s; by rewrite app_nil_r].
  pose proof (unpack_step_ref mem bufsz out s Hm Hp Hpn Hs) as Hst.
  destruct (step_ref mem (u_p s) (u_n s)) as [[[[l p] n]|]|] eqn:E; cbn in Hst.
  - destruct Hst as (s' & Hst & <- & <- & Hs'). rewrite Hst, !some_bind. apply step_ref_total in E; [|done|done].
    specialize (IH (out ++ l) s' ltac:(lia) ltac:(lia) Hs').
    destruct (loop_ref fuel mem (u_p s') (u_n s')) as [[l'|]|]; cbn; try done.
    destruct IH as (s2 & ? & Hs2). exists s2. by rewrite <- app_assoc in Hs2.
  - rewrite Hst. done.
  - rewrite Hst. done.
Qed.

Lemma unpack_refines mem srcsz buf : is_bytes mem -> srcsz <= zlen mem ->
  match unpack_ref mem srcsz with
  | None => sproto_unpack mem srcsz buf = None
  | Some None => sproto_unpack mem srcsz buf = Some None
  | Some (Some out) => exists buf', sproto_unpack mem srcsz buf = Some (Some (zlen out, buf')) /\ zlen buf' = zlen buf /\ (zlen out <= zlen buf -> take (Z.to_nat (zlen out)) buf' = Some <$> out)
  end.
Proof.
  intros Hm Hl. unfold sproto_unpack, unpack_ref. set (s0 := {| u_buf := buf |}).
  assert (H0 : unpack_inv (zlen buf) [] s0) by (pose proof (zlen_nonneg buf); constructor; cbn; rewrite ?zlen_nil, ?Z.sub_0_r; intros; try split_and!; done || lia).
  pose proof (unpack_loop_ref mem (zlen buf) (Z.to_nat srcsz) [] s0 Hm ltac:(done) Hl H0) as H.
  cbn [u_p u_n s0] in H. destruct (loop_ref _ _ _ _) as [[out|]|]; [|by rewrite H|by rewrite H].
  destruct H as (s & -> & [H1 H2 H3 H4 H5]). exists (u_buf s). rewrite some_bind. cbn. rewrite H2. split_and!; [done|done|].
  intros Ho. by apply H4.
Qed.

(** Every input gives a result when there is a byte behind it, as there is behind a
    string of Lua: a group that is cut short is found one byte too late. *)
Lemma bits_ref_safe mem bits header p n : 0 <= p -> p + n < zlen mem -> is_Some (bits_ref mem bits header p n).
Proof.
  revert p n. induction bits as [|i bits IH]; intros p n Hp Hpn; cbn [bits_ref]; [done|].
  destruct (Z.testbit header i).
  - destruct (Z.ltb_spec n 0); [done|]. destruct (zget_is_Some mem p) as [x ->]; [lia|]. rewrite some_bind.
    by destruct (IH (p + 1) (n - 1)) as [r ->]; [lia|lia|].
  - by destruct (IH p n) as [r ->]; [lia|lia|].
Qed.

Lemma loop_ref_safe mem fuel p n : is_bytes mem -> 0 <= p -> p + n < zlen mem -> n <= Z.of_nat fuel ->
  is_Some (loop_ref fuel mem p n).
Proof.
  intros Hm. revert p n. induction fuel as [|fuel IH]; intros p n Hp Hpn Hf; cbn [loop_ref].
  { destruct (Z.ltb_spec 0 n); [lia|done]. }
  destruct (Z.ltb_spec 0 n); [|done].
  assert (is_Some (step_ref mem p n)) as [r Hr].
  { unfold step_ref. destruct (zget_is_Some mem p) as [h ->]; [lia|]. rewrite some_bind. destruct (h =? 255).
    - destruct (Z.ltb_spec (n - 1) 0); [done|]. destruct (zget_is_Some mem (p + 1)) as [x Hx]; [lia|]. rewrite Hx, some_bind.
      apply is_bytes_zget in Hx; [|done]. unfold is_u in Hx.
      destruct (Z.ltb_spec (n - 1) ((x + 1) * 8 + 1)); [done|]. by rewrite mread_Some by lia.
    - apply bits_ref_safe; lia. }
  rewrite Hr, some_bind. destruct r as [[[l p'] n']|]; [|done]. apply step_ref_total in Hr; [|done|done].
  by destruct (IH p' n') as [r ->]; [lia|lia|lia|].
Qed.

Ltac tuple_eq := repeat match goal with |- Some _ = Some _ => f_equal | |- (_, _) = (_, _) => f_equal end; try done; zlen_lia.
(** *** Unpacking what was packed *)

Lemma mread_app pre l rest : mread (pre ++ l ++ rest) (zlen pre) (zlen l) = Some l.
Proof.
  pose proof (zlen_nonneg pre). pose proof (zlen_nonneg l). pose proof (zlen_nonneg rest).
  rewrite mread_Some by (zlen_lia). unfold zlen. rewrite !Nat2Z.id.
  by rewrite drop_app_length, take_app_length.
Qed.

Lemma zget_app_mid pre (x : Z) l : zget (pre ++ x :: l) (zlen pre) = Some x.
Proof. rewrite zget_app_r by lia. by rewrite Z.sub_diag. Qed.

Lemma bits_ref_group seg i pre rest header n :
  0 <= i -> (forall j x, zget seg j = Some x -> Z.testbit header (i + j) = negb (x =? 0)) -> zlen (nonzero seg) <= n ->
  bits_ref (pre ++ nonzero seg ++ rest) (seqZ i (zlen seg)) header (zlen pre) n =
    Some (Some (seg, zlen pre + zlen (nonzero seg), n - zlen (nonzero seg))).
Proof.
  revert i pre n. induction seg as [|x seg IH]; intros i pre n Hi Hb Hn.
  { change (nonzero []) with (@nil Z). rewrite zlen_nil, seqZ_nil by lia. cbn. tuple_eq. }
  assert (Hx : Z.testbit header i = negb (x =? 0)) by (rewrite <- (Hb 0 x) by done; f_equal; lia).
  rewrite (seqZ_cons i) by (zlen_lia; pose proof (zlen_nonneg seg); lia).
  replace (Z.succ i) with (i + 1) by lia. replace (Z.pred (zlen (x :: seg))) with (zlen seg) by (zlen_lia).
  assert (Hb' : forall j y, zget seg j = Some y -> Z.testbit header (i + 1 + j) = negb (y =? 0)).
  { intros j y Hj. rewrite <- (Hb (j + 1) y); [f_equal; lia|]. pose proof (zget_in _ _ _ Hj).
    rewrite (zget_app_r [x] seg) by (zlen_lia). rewrite <- Hj. f_equal. zlen_lia. }
  cbn [bits_ref]. rewrite Hx. rewrite nonzero_cons in *. destruct (Z.eqb_spec x 0) as [->|Hx0]; cbn [negb].
  - by rewrite IH by (done || lia).
  - pose proof (zlen_nonneg (nonzero seg)). destruct (Z.ltb_spec n 0); [zlen_lia|]. cbn [app].
    rewrite zget_app_mid, some_bind. rewrite cons_middle, app_assoc.
    replace (zlen pre + 1) with (zlen (pre ++ [x])) by (zlen_lia). rewrite IH; [|lia|done|zlen_lia].
    cbn. tuple_eq.
Qed.

Lemma step_ref_group o s pre rest n : group o s -> zlen o <= n ->
  step_ref (pre ++ o ++ rest) (zlen pre) n = Some (Some (s, zlen pre + zlen o, n - zlen o)).
Proof.
  intros Hg Hn. pose proof (zlen_nonneg pre). unfold step_ref.
  destruct Hg as [seg H8 Hf|l k Hk Hl]; cbn [app]; rewrite zget_app_mid, some_bind.
  - assert (Hh : header_of 0 seg <> 255).
    { intros He. assert (Hall : forall j x, zget seg j = Some x -> x <> 0).
      { intros j x Hj -> . pose proof (zget_in _ _ _ Hj). pose proof (header_testbit seg 0 j ltac:(lia) ltac:(lia)) as Hb.
        rewrite Z.sub_0_r, Hj, He, andb_false_r in Hb. change 255 with (Z.ones 8) in Hb. rewrite Z.ones_spec_low in Hb by lia. done. }
      assert (nonzero seg = seg) as Heq; [|rewrite Heq in Hf; lia].
      unfold nonzero. clear -Hall. induction seg as [|x seg IH]; [done|]. rewrite filter_cons_True by (by apply (Hall 0)).
      f_equal. apply IH. intros j y Hj. pose proof (zget_in _ _ _ Hj). apply (Hall (j + 1) y).
      rewrite (zget_app_r [x] seg) by (zlen_lia). rewrite <- Hj. f_equal. zlen_lia. }
    destruct (Z.eqb_spec (header_of 0 seg) 255); [done|].
    rewrite cons_middle, app_assoc. replace (zlen pre + 1) with (zlen (pre ++ [header_of 0 seg])) by (zlen_lia).
    change [0; 1; 2; 3; 4; 5; 6; 7] with (seqZ 0 8). rewrite <- H8.
    rewrite bits_ref_group; [|lia| |zlen_lia].
    + tuple_eq.
    + intros j x Hj. pose proof (zget_in _ _ _ Hj). rewrite header_testbit by lia. rewrite Z.add_0_l, Z.sub_0_r, Hj. zcase; [done|lia].
  - change (255 =? 255) with true. cbv iota. autorewrite with zlen in Hn. pose proof (zlen_nonneg l).
    destruct (Z.ltb_spec (n - 1) 0); [lia|].
    rewrite cons_middle, app_assoc. replace (zlen pre + 1) with (zlen (pre ++ [255])) by (zlen_lia).
    rewrite zget_app_mid, some_bind. replace (k - 1 + 1) with k by lia.
    destruct (Z.ltb_spec (n - 1) (k * 8 + 1)); [lia|].
    rewrite cons_middle, app_assoc. replace (zlen pre + 2) with (zlen ((pre ++ [255]) ++ [k - 1])) by (zlen_lia).
    replace (k * 8) with (zlen l) by lia. rewrite mread_app. rewrite some_bind. tuple_eq.
Qed.

Lemma group_nonempty o s : group o s -> 0 < zlen o.
Proof. destruct 1; rewrite zlen_cons; [pose proof (zlen_nonneg (nonzero seg))|pose proof (zlen_nonneg (k - 1 :: l))]; lia. Qed.

Lemma loop_ref_packed o s pre rest fuel : packed o s -> zlen o <= Z.of_nat fuel ->
  loop_ref fuel (pre ++ o ++ rest) (zlen pre) (zlen o) = Some (Some s).
Proof.
  intros Hp. revert pre fuel. induction Hp as [|o s os ss Hg Hp IH]; intros pre fuel Hf.
  { by destruct fuel. }
  pose proof (group_nonempty _ _ Hg). pose proof (zlen_nonneg os). autorewrite with zlen in Hf.
  destruct fuel as [|fuel]; [lia|]. cbn [loop_ref]. destruct (Z.ltb_spec 0 (zlen (o ++ os))); [|zlen_lia].
  rewrite <- app_assoc, (step_ref_group o s); [|done|zlen_lia]. rewrite some_bind.
  replace (zlen pre + zlen o) with (zlen (pre ++ o)) by (zlen_lia).
  replace (zlen (o ++ os) - zlen o) with (zlen os) by (zlen_lia).
  rewrite app_assoc, IH by lia. done.
Qed.

Lemma unpack_ref_packed o s rest : packed o s -> unpack_ref (o ++ rest) (zlen o) = Some (Some s).
Proof. intros Hp. unfold unpack_ref. apply (loop_ref_packed o s [] rest); [done|]. pose proof (zlen_nonneg o). lia. Qed.

Lemma is_bytes_nonzero s : is_bytes s -> is_bytes (nonzero s).
Proof. apply Forall_filter. Qed.

Lemma packed_bytes o s : packed o s -> is_bytes s -> is_bytes o.
Proof.
  induction 1 as [|o s os ss Hg Hp IH]; [done|]. rewrite !is_bytes_app. intros [Hs Hss]. split; [|auto].
  destruct Hg; rewrite !is_bytes_cons.
  - split; [apply header_range; lia|]. by apply is_bytes_nonzero.
  - split_and!; [by_eval|unfold is_u; lia|done].
Qed.

(** ** The functions of Lua *)

Lemma double_until_lt fuel osz nsz : 0 < osz < nsz -> double_until fuel osz nsz < 2 * nsz.
Proof.
  revert osz. induction fuel as [|fuel IH]; intros osz Ho; cbn [double_until]; [lia|]. zcase; [apply IH|]; lia.
Qed.

Lemma double_until_big fuel osz nsz : 0 < osz ->
  nsz <= double_until fuel osz nsz \/ double_until fuel osz nsz = osz * 2 ^ Z.of_nat fuel.
Proof.
  revert osz. induction fuel as [|fuel IH]; intros osz Ho; cbn [double_until]; [right; lia|].
  zcase; [|by left]. destruct (IH (osz * 2)) as [?|He]; [lia|by left|right]. rewrite He, Nat2Z.inj_succ, Z.pow_succ_r by lia. lia.
Qed.

Lemma expand_buffer_spec osz nsz : 0 < osz < nsz ->
  (exists msg, expand_buffer osz nsz = Raise msg /\ ENCODE_MAXSIZE / 2 < nsz) \/
  exists buf, expand_buffer osz nsz = Ret buf /\ nsz <= zlen buf.
Proof.
  intros Ho. unfold expand_buffer, ENCODE_MAXSIZE. pose proof (double_until_lt 64 osz nsz Ho).
  destruct (Z.ltb_spec 0x1000000 (double_until 64 osz nsz)); [left; eexists; split; [done|div_lia]|right].
  eexists. split; [done|]. unfold malloc. rewrite zlen_replicate.
  destruct (double_until_big 64 osz nsz) as [?|He]; [lia|lia|].
  change (2 ^ Z.of_nat 64) with 18446744073709551616 in He. lia.
Qed.

Lemma mapM_written {A} (l : list A) : mapM id (Some <$> l) = Some l.
Proof. induction l as [|x l IH]; [done|]. cbn. by rewrite IH. Qed.

Lemma pushlstring_spec buf n l : take (Z.to_nat n) buf = Some <$> l -> 0 <= n <= zlen buf -> pushlstring buf n = Ret l.
Proof.
  intros Ht Hn. unfold pushlstring. destruct (Z.leb_spec 0 n), (Z.leb_spec n (zlen buf)); try lia. cbn [andb].
  by rewrite Ht, mapM_written.
Qed.

Lemma take_within (b r : cells) n l : n <= zlen b -> take (Z.to_nat n) b = l -> take (Z.to_nat n) (b ++ r) = l.
Proof. unfold zlen. intros ? <-. apply take_app_le. lia. Qed.

(** What [lpack] needs of its source: bytes, all of them there, and those of the last
    group as well when up to two of them are missing. *)
Definition source_ok (mem : list Z) (sz : Z) : Prop :=
  is_bytes mem /\ 0 <= sz <= zlen mem /\ (6 <= sz mod 8 -> groups sz * 8 <= zlen mem).

#[export] Instance source_ok_dec mem sz : Decision (source_ok mem sz).
Proof. unfold source_ok. apply _. Defined.

Lemma lpack_spec mem sz output : source_ok mem sz -> 0 < zlen output -> maxsz_of sz <= ENCODE_MAXSIZE / 2 ->
  exists o s output', lpack mem sz output = Ret (o, output') /\ packed o s /\ agrees mem sz s (groups sz * 8).
Proof.
  intros (Hm & Hs & Hp) Ho Hmax. unfold lpack. assert (0 <= maxsz_of sz) by (unfold maxsz_of; div_lia).
  assert (exists buf, (if zlen output <? maxsz_of sz then expand_buffer (zlen output) (maxsz_of sz) else Ret output) = Ret buf /\
    maxsz_of sz <= zlen buf) as (buf & -> & Hb).
  { destruct (Z.ltb_spec (zlen output) (maxsz_of sz)); [destruct (expand_buffer_spec (zlen output) (maxsz_of sz)) as [(? & _ & ?)|?]; [lia|lia|done]|by exists output]. }
  rewrite ret_bind. unfold pack_into.
  assert (Ht : zlen (take (Z.to_nat (maxsz_of sz)) buf) = maxsz_of sz) by (apply zlen_take; lia).
  destruct (pack_spec mem sz Hm Hs Hp (take (Z.to_nat (maxsz_of sz)) buf)) as (n & buf' & -> & Hl & Hn & Hd).
  cbn [fmap option_fmap option_map chk]. rewrite ret_bind. destruct Hd as (o & s & Ho' & Hpk & Ha); [lia|].
  cbn [within fst snd]. destruct (Z.ltb_spec (maxsz_of sz) n); [lia|].
  rewrite (pushlstring_spec _ _ o); [by exists o, s; eexists| |].
  - apply take_within; [lia|done].
  - rewrite zlen_app. pose proof (zlen_nonneg (drop (Z.to_nat (maxsz_of sz)) buf)). lia.
Qed.

Lemma lunpack_spec mem sz out output : is_bytes mem -> sz <= zlen mem -> unpack_ref mem sz = Some (Some out) ->
  0 < zlen output ->
  (exists msg, lunpack mem sz output = Raise msg /\ ENCODE_MAXSIZE / 2 < zlen out) \/
  exists output', lunpack mem sz output = Ret (out, output').
Proof.
  intros Hm Hs Hr Ho. unfold lunpack, unpack_into, within. rewrite (take_ge output), (drop_ge output) by (unfold zlen; lia).
  pose proof (unpack_refines mem sz output Hm Hs) as H. rewrite Hr in H. destruct H as (buf & -> & Hl & Ht).
  cbn [chk]. rewrite !ret_bind. cbn [fst snd]. rewrite app_nil_r, Hl. pose proof (zlen_nonneg out).
  destruct (Z.ltb_spec (zlen output) (zlen out)) as [Hlt|Hge].
  - destruct (expand_buffer_spec (zlen output) (zlen out)) as [(msg & -> & ?)|(big & -> & Hbig)]; [lia|left; by eexists|right].
    rewrite ret_bind.
    assert (Hz : zlen (take (Z.to_nat (zlen out)) big) = zlen out) by (apply zlen_take; lia).
    pose proof (unpack_refines mem sz (take (Z.to_nat (zlen out)) big) Hm Hs) as H2. rewrite Hr in H2.
    destruct H2 as (buf2 & -> & Hl2 & Ht2). cbn [chk]. rewrite !ret_bind. cbn [fst snd].
    rewrite (pushlstring_spec _ _ out); [by eexists| |].
    + apply take_within; [lia|]. apply Ht2. lia.
    + rewrite zlen_app. pose proof (zlen_nonneg (drop (Z.to_nat (zlen out)) big)). lia.
  - right. rewrite ret_bind. rewrite (pushlstring_spec _ _ out); [by eexists| |lia]. apply Ht. lia.
Qed.

(** [C29] [sproto_pack] returns on every source that can be read, whatever the size of the
    destination: the size it returns is at most what [lpack] reserves, it writes
    nothing beyond the destination, and when the destination is large enough, it
    holds a sequence of groups that stands for the source followed by up to seven
    more bytes. *)
Theorem sproto_pack_writes_groups mem srcsz buf : is_bytes mem -> 0 <= srcsz <= zlen mem -> (6 <= srcsz mod 8 -> groups srcsz * 8 <= zlen mem) ->
  exists size buf', sproto_pack mem srcsz buf = Some (size, buf') /\ zlen buf' = zlen buf /\ 0 <= size <= maxsz_of srcsz /\
    (size <= zlen buf -> exists o s, take (Z.to_nat size) buf' = Some <$> o /\ packed o s /\
       zlen s = groups srcsz * 8 /\ take (Z.to_nat srcsz) s = take (Z.to_nat srcsz) mem).
Proof.
  intros Hm Hs Hp. destruct (pack_spec mem srcsz Hm Hs Hp buf) as (n & buf' & H & Hl & Hn & Hd). exists n, buf'. split_and!; try done; try lia.
  intros Hr. destruct (Hd Hr) as (o & s & ? & ? & _ & Hz & Ht). exists o, s. split_and!; try done.
  rewrite Ht. do 2 f_equal. unfold groups. div_lia.
Qed.

Example sproto_pack_writes_groups_witness :
  let mem := [0x08; 0; 0; 0; 0x03; 0; 0x02; 0; 0x19; 0; 0; 0; 0xaa; 0x01; 0; 0; 7] in
  exists size buf', sproto_pack mem 17 (malloc 40) = Some (size, buf') /\ zlen buf' = 40 /\ 0 <= size <= maxsz_of 17 /\
    (size <= 40 -> exists o s, take (Z.to_nat size) buf' = Some <$> o /\ packed o s /\
       zlen s = 24 /\ take 17 s = mem).
Proof. intros mem. apply (sproto_pack_writes_groups mem 17 (malloc 40)); [by_eval|by_eval|by_eval]. Defined.

(** [C28] What [lpack] returns, [lunpack] turns back into the source, followed by what
    fills its last group of eight bytes, however small their buffers are. *)
Theorem lunpack_lpack mem sz output output' :
  source_ok mem sz -> 0 < zlen output -> 0 < zlen output' -> maxsz_of sz <= 0x400000 ->
  exists o s b b', lpack mem sz output = Ret (o, b) /\ lunpack (o ++ [0]) (zlen o) output' = Ret (s, b') /\
    zlen s = groups sz * 8 /\ take (Z.to_nat sz) s = take (Z.to_nat sz) mem.
Proof.
  intros Hs Ho Ho' Hm. destruct (lpack_spec mem sz output Hs Ho) as (o & s & b & Hl & Hp & Hb & Hz & Ht); [unfold ENCODE_MAXSIZE; div_lia|].
  destruct Hs as (_ & Hs & _).
  destruct (lunpack_spec (o ++ [0]) (zlen o) s output') as [(msg & _ & Hbig)|[b' Hu]].
  - apply is_bytes_app. split; [by eapply packed_bytes|by_eval].
  - zlen_lia.
  - by apply unpack_ref_packed.
  - done.
  - exfalso. revert Hbig. rewrite Hz. unfold maxsz_of, ENCODE_MAXSIZE, groups in *. div_lia.
  - exists o, s, b, b'. split_and!; try done. rewrite Ht. do 2 f_equal. unfold groups. div_lia.
Qed.

Example lunpack_lpack_witness :
  let mem := [0x08; 0; 0; 0; 0x03; 0; 0x02; 0; 0x19; 0; 0; 0; 0xaa; 0x01; 0; 0; 7] in
  exists o s b b', lpack mem 17 (malloc 3) = Ret (o, b) /\ lunpack (o ++ [0]) (zlen o) (malloc 5) = Ret (s, b') /\
    zlen s = 24 /\ take 17 s = mem.
Proof. intros mem. apply (lunpack_lpack mem 17 (malloc 3) (malloc 5)); by_eval. Defined.

(** [C30] [lunpack] reads nothing out of bounds on any string, well-formed or not: the zero
    that Lua keeps behind a string is the only byte it may look at beyond the end.
    What [sproto_unpack] answers, a size or -1, does not depend on the buffer. *)
Theorem lunpack_safe s output : is_bytes s -> 0 < zlen output ->
  lunpack (s ++ [0]) (zlen s) output <> Undef /\
  exists r : option Z, forall buf, exists buf', sproto_unpack (s ++ [0]) (zlen s) buf = Some (n ← r; Some (n, buf')).
Proof.
  intros Hs Ho.
  assert (Hm : is_bytes (s ++ [0])) by (apply is_bytes_app; split; [done|by_eval]).
  assert (Hl : zlen s <= zlen (s ++ [0])) by (zlen_lia). pose proof (zlen_nonneg s).
  destruct (loop_ref_safe (s ++ [0]) (Z.to_nat (zlen s)) 0 (zlen s) Hm) as [r Hr]; [lia|zlen_lia|lia|].
  change (unpack_ref (s ++ [0]) (zlen s) = Some r) in Hr. split.
  - destruct r as [out|].
    + destruct (lunpack_spec (s ++ [0]) (zlen s) out output Hm Hl Hr Ho) as [(msg & -> & _)|[b ->]]; done.
    + unfold lunpack, unpack_into. pose proof (unpack_refines (s ++ [0]) (zlen s) (take (Z.to_nat (zlen output)) output) Hm Hl) as Hu.
      rewrite Hr in Hu. by rewrite Hu.
  - exists (zlen <$> r). intros buf. pose proof (unpack_refines (s ++ [0]) (zlen s) buf Hm Hl) as Hu. rewrite Hr in Hu.
    destruct r as [out|]; [|by exists buf]. destruct Hu as (b & Hu & _). by exists b.
Qed.

Example lunpack_safe_witness :
  lunpack ([0xff; 0; 1] ++ [0]) (zlen [0xff; 0; 1]) (malloc 5) <> Undef /\
  exists r : option Z, forall buf, exists buf', sproto_unpack ([0xff; 0; 1] ++ [0]) (zlen [0xff; 0; 1]) buf = Some (n ← r; Some (n, buf')).
Proof. apply (lunpack_safe [0xff; 0; 1] (malloc 5)); by_eval. Defined.

(** ** What modelling showed *)

(** When a run of 256 groups ends with the last bytes of the source, all 2048 bytes are
    copied from it, though up to two of them are behind its end. *)
Example pack_reads_behind : sproto_pack (replicate 2046 1) 2046 (malloc (maxsz_of 2046)) = None.
Proof. vm_compute. reflexivity. Qed.

(** A group whose last byte is missing is accepted, with the byte behind the input in
    its place. *)
Example unpack_accepts_cut : lunpack [1; 77] 1 (malloc 8) =
  Ret ([77; 0; 0; 0; 0; 0; 0; 0], Some <$> [77; 0; 0; 0; 0; 0; 0; 0]).
Proof. vm_compute. reflexivity. Qed.
