(* ===== verification/Sproto.v ===== *)
(** Messages of sproto: the descriptions and their queries, [sproto_encode] and
    [sproto_decode] of lualib-src/sproto/sproto.c.

    A message is described by a type: fields with ascending tags.  Its encoding starts
    with the number of slots of two bytes, an odd slot skips tags, an even one is the
    value of the next field or, when it is 0, says that the value is in the data part.
    Encoding asks a callback for the values, decoding hands them to one; a callback
    is a function of the argument, of the memory at [args->value], and of the state [U]
    behind [ud].

    Memory that is written is the cells of a block, memory that is read a list of
    bytes; a pointer is an offset, a pointer to a type is its index.  Pointer and
    length of the value are no part of [sproto_arg]: the callback is given the memory. *)

From S2P Require Import Prelude Bytes.
From S2P Require Import CString.
Local Open Scope Z_scope.
Local Open Scope word_scope.

Definition SPROTO_TARRAY : Z := 0x80.
Definition SIZEOF_LENGTH : Z := 4.
Definition SIZEOF_HEADER : Z := 2.
Definition SIZEOF_FIELD : Z := 2.
Definition SIZEOF_INT64 : Z := 8.
Definition SIZEOF_INT32 : Z := 4.
Definition SPROTO_REQUEST : Z := 0.
Definition SPROTO_RESPONSE : Z := 1.
Definition SPROTO_TINTEGER : Z := 0.
Definition SPROTO_TBOOLEAN : Z := 1.
Definition SPROTO_TSTRING : Z := 2.
Definition SPROTO_TSTRUCT : Z := 3.
Definition SPROTO_CB_ERROR : Z := -1.
Definition SPROTO_CB_NIL : Z := -2.
Definition SPROTO_CB_NOARRAY : Z := -3.

(** ** Descriptions *)

Record field := {
  f_tag : Z; f_type : Z; f_name : list Z; f_st : option Z; f_key : Z; f_extra : Z }.
Record sproto_type := { t_name : list Z; t_n : Z; t_base : Z; t_maxn : Z; t_f : list field }.
Record protocol := { p_name : list Z; p_tag : Z; p_confirm : Z; p_request : option Z; p_response : option Z }.
Record sproto := { type_n : Z; protocol_n : Z; types : list sproto_type; protos : list protocol }.

#[export] Instance field_dec : EqDecision field.
Proof. solve_decision. Defined.

(** *** Queries

    [None] is an access out of bounds, [Some None] the NULL or -1 of the code. *)

Fixpoint prototag_loop (ps : list protocol) (n : nat) (name : list Z) : option Z :=
  match n with
  | O => Some (-1)
  | S n =>
    match ps with
    | [] => None
    | p :: r => if bool_decide (name = p_name p) then Some (p_tag p) else prototag_loop r n name
    end
  end.
Definition sproto_prototag (sp : sproto) (name : list Z) : option Z :=
  prototag_loop (protos sp) (Z.to_nat (protocol_n sp)) name.

(** Binary search for [tag] in the elements [begin, end) of an array. *)
Fixpoint search {A} (key : A -> Z) (fuel : nat) (l : list A) (tag begin end_ : Z) : option (option A) :=
  match fuel with
  | O => None
  | S fuel =>
    if begin <? end_ then
      let mid := (begin + end_) / 2 in
      x ← zget l mid;
      if key x =? tag then Some (Some x)
      else if key x <? tag then search key fuel l tag (mid + 1) end_
      else search key fuel l tag begin mid
    else Some None
  end.

Definition query_proto (sp : sproto) (tag : Z) : option (option protocol) :=
  search p_tag (S (Z.to_nat (protocol_n sp))) (protos sp) tag 0 (protocol_n sp).

Definition sproto_protoquery (sp : sproto) (proto what : Z) : option (option Z) :=
  if (what <? 0) || (1 <? what) then Some None
  else p ← query_proto sp proto; Some (p ← p; if what =? SPROTO_REQUEST then p_request p else p_response p).
Definition sproto_protoresponse (sp : sproto) (proto : Z) : option bool :=
  p ← query_proto sp proto;
  Some (match p with Some p => bool_decide (is_Some (p_response p)) || negb (p_confirm p =? 0) | None => false end).
Definition sproto_protoname (sp : sproto) (proto : Z) : option (option (list Z)) :=
  p ← query_proto sp proto; Some (option_map p_name p).

(** The index of the type. *)
Fixpoint type_loop (ts : list sproto_type) (n : nat) (i : Z) (name : list Z) : option (option Z) :=
  match n with
  | O => Some None
  | S n =>
    match ts with
    | [] => None
    | t :: r => if bool_decide (name = t_name t) then Some (Some i) else type_loop r n (i + 1) name
    end
  end.
Definition sproto_type_query (sp : sproto) (name : list Z) : option (option Z) :=
  type_loop (types sp) (Z.to_nat (type_n sp)) 0 name.

Definition findtag (st : sproto_type) (tag : Z) : option (option field) :=
  if 0 <=? t_base st then
    let tag := tag - t_base st in
    if (tag <? 0) || (t_n st <=? tag) then Some None else f ← zget (t_f st) tag; Some (Some f)
  else search f_tag (S (Z.to_nat (t_n st))) (t_f st) tag 0 (t_n st).

(** ** Reading *)

Definition toword (mem : list Z) (p : Z) : option Z :=
  a ← zget mem p; b ← zget mem (p + 1); Some (a .| (b << 8)).
Definition todword (mem : list Z) (p : Z) : option Z :=
  a ← zget mem p; b ← zget mem (p + 1); c ← zget mem (p + 2); d ← zget mem (p + 3);
  Some (u32 (a .| (b << 8) .| (c << 16) .| (d << 24))).

(** ** Callbacks *)

Record sproto_arg := {
  a_tagname : list Z; a_tagid : Z; a_type : Z; a_subtype : option Z; a_index : Z; a_mainindex : Z; a_extra : Z }.
Definition set_index (i : Z) (a : sproto_arg) : sproto_arg :=
  {| a_tagname := a_tagname a; a_tagid := a_tagid a; a_type := a_type a; a_subtype := a_subtype a;
     a_index := i; a_mainindex := a_mainindex a; a_extra := a_extra a |}.

(** What the callback is told of a field. *)
Definition arg_of (f : field) : sproto_arg :=
  {| a_tagname := f_name f; a_tagid := f_tag f; a_type := f_type f .& Z.lnot SPROTO_TARRAY; a_subtype := f_st f;
     a_index := 0; a_mainindex := f_key f; a_extra := f_extra f |}.
Definition is_array (f : field) : bool := negb (f_type f .& SPROTO_TARRAY =? 0).

(** ** Encoding *)

Definition store (buf : cells) (p : Z) (bytes : list Z) : option cells := memcpy buf p (Some <$> bytes) (zlen bytes).
Definition cread (buf : cells) (p n : Z) : option cells :=
  if (0 <=? p) && (0 <=? n) && (p + n <=? zlen buf) then Some (take (Z.to_nat n) (drop (Z.to_nat p) buf)) else None.

(** An integer the callback left in its union of eight bytes. *)
Definition union_value (n : Z) (v : cells) : option Z := le_value <$> mapM id (take (Z.to_nat n) v).

Definition fill_size (buf : cells) (data sz : Z) : option (Z * cells) :=
  buf ← store buf data (le32 sz); Some (sz + SIZEOF_LENGTH, buf).
Definition encode_integer (v : Z) (buf : cells) (data size : Z) : option (Z * cells) :=
  if u64 size <? SIZEOF_LENGTH + 4 then Some (-1, buf)
  else buf ← store buf (data + 4) (le_bytes 4 v); fill_size buf data 4.
Definition encode_uint64 (v : Z) (buf : cells) (data size : Z) : option (Z * cells) :=
  if u64 size <? SIZEOF_LENGTH + 8 then Some (-1, buf)
  else buf ← store buf (data + 4) (le_bytes 8 v); fill_size buf data 8.

Section encode.
Context {U : Type} (cb : sproto_arg -> cells -> U -> option (Z * cells * U)).

(** The callback with [length] bytes of the buffer as its value. *)
Definition call_on (args : sproto_arg) (buf : cells) (value length : Z) (u : U) : option (Z * cells * U) :=
  v ← cread buf value length;
  '(sz, v, u) ← cb args v u;
  buf ← memcpy buf value v length;
  Some (sz, buf, u).

Definition encode_object (args : sproto_arg) (buf : cells) (data size : Z) (u : U) : option (Z * cells * U) :=
  if size <? SIZEOF_LENGTH then Some (-1, buf, u)
  else
    '(sz, buf, u) ← call_on args buf (data + SIZEOF_LENGTH) (size - SIZEOF_LENGTH) u;
    if sz <? 0 then Some (if sz =? SPROTO_CB_NIL then 0 else -1, buf, u)
    else
      c_assert (sz <=? size - SIZEOF_LENGTH);;
      '(sz, buf) ← fill_size buf data sz;
      Some (sz, buf, u).

(** The upper half of a 64-bit integer at [p]. *)
Definition uint32_to_uint64 (negative : bool) (buf : cells) (p : Z) : option cells :=
  store buf (p + 4) (if negative then [0xff; 0xff; 0xff; 0xff] else [0; 0; 0; 0]).

(** The integers encoded so far are widened, the last one first. *)
Fixpoint rearrange (n : nat) (header : Z) (buf : cells) : option cells :=
  match n with
  | O => Some buf
  | S n =>
    let i := Z.of_nat n in
    low ← cread buf (header + 1 + i * SIZEOF_INT32) SIZEOF_INT32;
    buf ← memcpy buf (header + 1 + i * SIZEOF_INT64) low SIZEOF_INT32;
    top ← zget buf (header + 1 + i * SIZEOF_INT64 + 3);
    top ← top;
    buf ← uint32_to_uint64 (negb (top .& 0x80 =? 0)) buf (header + 1 + i * SIZEOF_INT64);
    rearrange n header buf
  end.

(** How the loop over an array ends: [return NULL], no array, or the end of it. *)
Inductive array_end := AFail | ANone | AEnd.

(** One integer for the callback; [size] shrinks in every round. *)
Fixpoint integer_loop (fuel : nat) (args : sproto_arg) (header buffer size intlen index : Z) (buf : cells) (u : U)
  : option (array_end * Z * Z * cells * U) :=
  match fuel with
  | O => None
  | S fuel =>
    let args := set_index index args in
    '(sz, v, u) ← cb args (malloc 8) u;
    if sz <=? 0 then
      Some (if sz =? SPROTO_CB_NIL then AEnd else if sz =? SPROTO_CB_NOARRAY then ANone else AFail, buffer, intlen, buf, u)
    else if size <? SIZEOF_INT64 then Some (AFail, buffer, intlen, buf, u)
    else if sz =? SIZEOF_INT32 then
      x ← union_value 4 v;
      buf ← store buf buffer (le_bytes 4 x);
      buf ← (if intlen =? SIZEOF_INT64 then uint32_to_uint64 (negb (x .& 0x80000000 =? 0)) buf buffer else Some buf);
      integer_loop fuel args header (buffer + intlen) (size - intlen) intlen (index + 1) buf u
    else if negb (sz =? SIZEOF_INT64) then Some (AFail, buffer, intlen, buf, u)
    else
      let wide := intlen =? SIZEOF_INT32 in
      let size := if wide then size - (index - 1) * SIZEOF_INT32 else size in
      if wide && (size <? SIZEOF_INT64) then Some (AFail, buffer, intlen, buf, u)
      else
        let buffer := if wide then buffer + (index - 1) * SIZEOF_INT32 else buffer in
        buf ← (if wide then rearrange (Z.to_nat (index - 1)) header buf else Some buf);
        x ← union_value 8 v;
        buf ← store buf buffer (le_bytes 8 x);
        integer_loop fuel args header (buffer + 8) (size - 8) 8 (index + 1) buf u
  end.

(** The position behind the array; [AFail] for NULL, [ANone] for [*noarray = 1]. *)
Definition encode_integer_array (args : sproto_arg) (buf : cells) (buffer size : Z) (u : U)
  : option (array_end * Z * cells * U) :=
  if size <? 1 then Some (AFail, buffer, buf, u)
  else
    '(e, p, intlen, buf, u) ← integer_loop (S (Z.to_nat size)) args buffer (buffer + 1) (size - 1) SIZEOF_INT32 1 buf u;
    match e with
    | AFail => Some (AFail, p, buf, u)
    | _ =>
      if p =? buffer + 1 then Some (e, buffer, buf, u)
      else buf ← store buf buffer [u8 intlen]; Some (e, p, buf, u)
    end.

Fixpoint boolean_loop (fuel : nat) (args : sproto_arg) (buffer size : Z) (buf : cells) (u : U)
  : option (array_end * Z * cells * U) :=
  match fuel with
  | O => None
  | S fuel =>
    '(sz, v, u) ← cb args (Some <$> [0; 0; 0; 0]) u;
    if sz <? 0 then
      Some (if sz =? SPROTO_CB_NIL then AEnd else if sz =? SPROTO_CB_NOARRAY then ANone else AFail, buffer, buf, u)
    else if size <? 1 then Some (AFail, buffer, buf, u)
    else
      x ← union_value 4 v;
      buf ← store buf buffer [b2i (negb (x =? 0))];
      boolean_loop fuel (set_index (a_index args + 1) args) (buffer + 1) (size - 1) buf u
  end.

Fixpoint object_loop (fuel : nat) (args : sproto_arg) (buffer size : Z) (buf : cells) (u : U)
  : option (array_end * Z * cells * U) :=
  match fuel with
  | O => None
  | S fuel =>
    if size <? SIZEOF_LENGTH then Some (AFail, buffer, buf, u)
    else
      let size := size - SIZEOF_LENGTH in
      '(sz, buf, u) ← call_on args buf (buffer + SIZEOF_LENGTH) size u;
      if sz <? 0 then
        Some (if sz =? SPROTO_CB_NIL then AEnd else if sz =? SPROTO_CB_NOARRAY then ANone else AFail, buffer, buf, u)
      else
        '(_, buf) ← fill_size buf buffer sz;
        object_loop fuel (set_index (a_index args + 1) args) (buffer + SIZEOF_LENGTH + sz) (size - sz) buf u
  end.

Definition encode_array (args : sproto_arg) (buf : cells) (data size : Z) (u : U) : option (Z * cells * U) :=
  if size <? SIZEOF_LENGTH then Some (-1, buf, u)
  else
    let size := size - SIZEOF_LENGTH in
    let buffer := data + SIZEOF_LENGTH in
    '(e, p, buf, u) ←
      (if a_type args =? SPROTO_TINTEGER then encode_integer_array args buf buffer size u
       else if a_type args =? SPROTO_TBOOLEAN
       then boolean_loop (S (S (Z.to_nat size))) (set_index 1 args) buffer size buf u
       else object_loop (S (S (Z.to_nat size))) (set_index 1 args) buffer size buf u);
    match e with
    | AFail => Some (-1, buf, u)
    | ANone => Some (0, buf, u)
    | AEnd => '(sz, buf) ← fill_size buf data (p - (data + SIZEOF_LENGTH)); Some (sz, buf, u)
    end.

Record encode_state := { e_buf : cells; e_data : Z; e_size : Z; e_index : Z; e_lasttag : Z; e_ud : U }.

(** What a field becomes: nothing ([continue]), a return of the function, or the size
    of its data and the value of its slot. *)
Inductive field_result := FSkip | FReturn (r : Z) | FSize (sz value : Z).

(** The integer or boolean of a field. *)
Definition encode_scalar (args : sproto_arg) (buf : cells) (data size : Z) (u : U) : option (field_result * cells * U) :=
  '(sz, v, u) ← cb args (malloc 8) u;
  if sz <? 0 then
    Some (if sz =? SPROTO_CB_NIL then FSkip else if sz =? SPROTO_CB_NOARRAY then FReturn 0 else FReturn (-1), buf, u)
  else if sz =? SIZEOF_INT32 then
    x ← union_value 4 v;
    if x <? 0x7fff then Some (FSize 2 ((x + 1) * 2), buf, u)
    else '(sz, buf) ← encode_integer x buf data size; Some (FSize sz 0, buf, u)
  else if sz =? SIZEOF_INT64 then
    x ← union_value 8 v;
    '(sz, buf) ← encode_uint64 x buf data size;
    Some (FSize sz 0, buf, u)
  else Some (FReturn (-1), buf, u).

Definition encode_value (f : field) (buf : cells) (data size : Z) (u : U) : option (field_result * cells * U) :=
  if is_array f then '(sz, buf, u) ← encode_array (arg_of f) buf data size u; Some (FSize sz 0, buf, u)
  else if (f_type f =? SPROTO_TINTEGER) || (f_type f =? SPROTO_TBOOLEAN) then encode_scalar (arg_of f) buf data size u
  else if (f_type f =? SPROTO_TSTRUCT) || (f_type f =? SPROTO_TSTRING)
  then '(sz, buf, u) ← encode_object (arg_of f) buf data size u; Some (FSize sz 0, buf, u)
  else Some (FSize (-1) 0, buf, u).

(** The slots of a field; [Some None] is a [return -1]. *)
Definition encode_record (f : field) (sz value : Z) (e : encode_state) (buf : cells) (u : U) : option (option encode_state) :=
  if 0 <? sz then
    let data := if value =? 0 then e_data e + sz else e_data e in
    let size := if value =? 0 then e_size e - sz else e_size e in
    let record := SIZEOF_HEADER + SIZEOF_FIELD * e_index e in
    let tag := f_tag f - e_lasttag e - 1 in
    let next buf record index :=
      buf ← store buf record (le_bytes 2 value);
      Some (Some {| e_buf := buf; e_data := data; e_size := size; e_index := index + 1; e_lasttag := f_tag f; e_ud := u |}) in
    if 0 <? tag then
      let tag := (tag - 1) * 2 + 1 in
      if 0xffff <? tag then Some None
      else buf ← store buf record (le_bytes 2 tag); next buf (record + SIZEOF_FIELD) (e_index e + 1)
    else next buf record (e_index e)
  else Some (Some {| e_buf := buf; e_data := e_data e; e_size := e_size e; e_index := e_index e; e_lasttag := e_lasttag e; e_ud := u |}).

(** The loop over the fields: the state at its end, or what is returned from inside. *)
Fixpoint encode_fields (fs : list field) (e : encode_state) : option (encode_state + Z * cells * U) :=
  match fs with
  | [] => Some (inl e)
  | f :: fs =>
    '(r, buf, u) ← encode_value f (e_buf e) (e_data e) (e_size e) (e_ud e);
    match r with
    | FSkip =>
      encode_fields fs {| e_buf := buf; e_data := e_data e; e_size := e_size e; e_index := e_index e; e_lasttag := e_lasttag e; e_ud := u |}
    | FReturn n => Some (inr (n, buf, u))
    | FSize sz value =>
      if sz <? 0 then Some (inr (-1, buf, u))
      else
        r ← encode_record f sz value e buf u;
        match r with None => Some (inr (-1, buf, u)) | Some e => encode_fields fs e end
    end
  end.

(** The slots are followed by the data: [memmove] closes the gap between them. *)
Definition encode_end (st : sproto_type) (e : encode_state) : option (Z * cells * U) :=
  let header_sz := SIZEOF_HEADER + t_maxn st * SIZEOF_FIELD in
  buf ← store (e_buf e) 0 (le_bytes 2 (e_index e));
  let datasz := e_data e - header_sz in
  buf ← (if negb (e_index e =? t_maxn st)
    then d ← cread buf header_sz datasz; memcpy buf (SIZEOF_HEADER + e_index e * SIZEOF_FIELD) d datasz
    else Some buf);
  Some (SIZEOF_HEADER + e_index e * SIZEOF_FIELD + datasz, buf, e_ud e).

(** [buf] is the buffer, all of its [size] bytes. *)
Definition sproto_encode (st : sproto_type) (buf : cells) (u : U) : option (Z * cells * U) :=
  let header_sz := SIZEOF_HEADER + t_maxn st * SIZEOF_FIELD in
  if zlen buf <? header_sz then Some (-1, buf, u)
  else
    fs ← (if t_n st <=? zlen (t_f st) then Some (take (Z.to_nat (t_n st)) (t_f st)) else None);
    r ← encode_fields fs
      {| e_buf := buf; e_data := header_sz; e_size := zlen buf - header_sz; e_index := 0; e_lasttag := -1; e_ud := u |};
    match r with inr r => Some r | inl e => encode_end st e end.
End encode.

(** ** Decoding *)

Section decode.
Context {U : Type} (cb : sproto_arg -> list Z -> U -> option (Z * U)).

(** The callback with [length] bytes of memory from [p] on, which must be there. *)
Definition call_with (args : sproto_arg) (mem : list Z) (p length : Z) (u : U) : option (Z * U) :=
  if (0 <=? p) && (0 <=? length) && (p + length <=? zlen mem)
  then cb args (take (Z.to_nat length) (drop (Z.to_nat p) mem)) u else None.
(** ... with a 64-bit integer. *)
Definition call_int (args : sproto_arg) (value : Z) (u : U) : option (Z * U) := cb args (le_bytes 8 value) u.

(** 0 or -1; each round takes at least four bytes. *)
Fixpoint decode_array_object (fuel : nat) (args : sproto_arg) (mem : list Z) (stream sz index : Z) (u : U) : option (Z * U) :=
  if 0 <? sz then
    match fuel with
    | O => None
    | S fuel =>
      if sz <? SIZEOF_LENGTH then Some (-1, u)
      else
        hsz ← todword mem stream;
        let stream := stream + SIZEOF_LENGTH in
        let sz := sz - SIZEOF_LENGTH in
        if sz <? hsz then Some (-1, u)
        else
          '(r, u) ← call_with (set_index index args) mem stream hsz u;
          if negb (r =? 0) then Some (-1, u)
          else decode_array_object fuel args mem (stream + hsz) (sz - hsz) (index + 1) u
    end
  else Some (0, u).

Definition expand64 (v : Z) : Z := if v .& 0x80000000 =? 0 then v else v .| (0xffffffff << 32).

(** [n] integers of [len] bytes, and [n] booleans; [i] counts up. *)
Fixpoint decode_integers (n : nat) (args : sproto_arg) (mem : list Z) (stream len i : Z) (u : U) : option U :=
  match n with
  | O => Some u
  | S n =>
    value ← (if len =? SIZEOF_INT32 then v ← todword mem (stream + i * SIZEOF_INT32); Some (expand64 v)
             else low ← todword mem (stream + i * SIZEOF_INT64);
                  hi ← todword mem (stream + i * SIZEOF_INT64 + SIZEOF_INT32);
                  Some (low .| (hi << 32)));
    '(_, u) ← call_int (set_index (i + 1) args) value u;
    decode_integers n args mem stream len (i + 1) u
  end.
Fixpoint decode_booleans (n : nat) (args : sproto_arg) (mem : list Z) (stream i : Z) (u : U) : option U :=
  match n with
  | O => Some u
  | S n =>
    value ← zget mem (stream + i);
    '(_, u) ← call_int (set_index (i + 1) args) value u;
    decode_booleans n args mem stream (i + 1) u
  end.

Definition decode_array (args : sproto_arg) (mem : list Z) (stream : Z) (u : U) : option (Z * U) :=
  sz ← todword mem stream;
  if sz =? 0 then '(_, u) ← cb (set_index (-1) args) [] u; Some (0, u)
  else
    let stream := stream + SIZEOF_LENGTH in
    if a_type args =? SPROTO_TINTEGER then
      len ← zget mem stream;
      let stream := stream + 1 in
      let sz := sz - 1 in
      if (len =? SIZEOF_INT32) || (len =? SIZEOF_INT64) then
        if negb (sz mod len =? 0) then Some (-1, u)
        else u ← decode_integers (Z.to_nat (sz / len)) args mem stream len 0 u; Some (0, u)
      else Some (-1, u)
    else if a_type args =? SPROTO_TBOOLEAN then
      u ← decode_booleans (Z.to_nat sz) args mem stream 0 u; Some (0, u)
    else if (a_type args =? SPROTO_TSTRING) || (a_type args =? SPROTO_TSTRUCT)
    then decode_array_object (Z.to_nat (i32 sz)) args mem stream (i32 sz) 1 u
    else Some (-1, u).

(** A field whose value is in the data part, at [p]; nonzero is a [return -1]. *)
Definition decode_data (f : field) (mem : list Z) (p : Z) (u : U) : option (Z * U) :=
  let args := arg_of f in
  if is_array f then decode_array args mem p u
  else if f_type f =? SPROTO_TINTEGER then
    sz ← todword mem p;
    if sz =? SIZEOF_INT32 then
      v ← todword mem (p + SIZEOF_LENGTH);
      '(_, u) ← call_int args (expand64 v) u; Some (0, u)
    else if negb (sz =? SIZEOF_INT64) then Some (-1, u)
    else
      low ← todword mem (p + SIZEOF_LENGTH);
      hi ← todword mem (p + SIZEOF_LENGTH + SIZEOF_INT32);
      '(_, u) ← call_int args (low .| (hi << 32)) u; Some (0, u)
  else if (f_type f =? SPROTO_TSTRING) || (f_type f =? SPROTO_TSTRUCT) then
    sz ← todword mem p;
    call_with args mem (p + SIZEOF_LENGTH) (i32 sz) u
  else Some (-1, u).

(** A field whose value is in its slot. *)
Definition decode_slot (f : field) (value : Z) (u : U) : option (Z * U) :=
  if negb (f_type f =? SPROTO_TINTEGER) && negb (f_type f =? SPROTO_TBOOLEAN) then Some (-1, u)
  else '(_, u) ← call_int (arg_of f) value u; Some (0, u).

(** The loop over the [n] slots that are left, the next one at [stream]: the size that
    is left at its end, [None] for a [return -1]. *)
Fixpoint decode_fields (n : nat) (st : sproto_type) (mem : list Z) (stream datastream size tag : Z) (u : U) : option (option Z * U) :=
  match n with
  | O => Some (Some size, u)
  | S n =>
    value ← toword mem stream;
    let stream := stream + SIZEOF_FIELD in
    let tag := tag + 1 in
    if Z.odd value then decode_fields n st mem stream datastream size (tag + value / 2) u
    else
      let value := value / 2 - 1 in
      let currentdata := datastream in
      r ← (if value <? 0 then
             if size <? SIZEOF_LENGTH then Some None
             else
               sz ← todword mem datastream;
               let len := u32 (sz + SIZEOF_LENGTH) in
               if u32 size <? len then Some None else Some (Some (datastream + len, i32 (size - len)))
           else Some (Some (datastream, size)));
      match r with
      | None => Some (None, u)
      | Some (datastream, size) =>
        f ← findtag st tag;
        match f with
        | None => decode_fields n st mem stream datastream size tag u
        | Some f =>
          '(r, u) ← (if value <? 0 then decode_data f mem currentdata u else decode_slot f value u);
          if negb (r =? 0) then Some (None, u) else decode_fields n st mem stream datastream size tag u
        end
      end
  end.

(** The number of bytes that were read, or -1. *)
Definition sproto_decode (st : sproto_type) (mem : list Z) (size : Z) (u : U) : option (Z * U) :=
  let total := size in
  if size <? SIZEOF_HEADER then Some (-1, u)
  else
    fn ← toword mem 0;
    let size := size - SIZEOF_HEADER in
    if size <? fn * SIZEOF_FIELD then Some (-1, u)
    else
      '(r, u) ← decode_fields (Z.to_nat fn) st mem SIZEOF_HEADER (SIZEOF_HEADER + fn * SIZEOF_FIELD) (size - fn * SIZEOF_FIELD) (-1) u;
      Some (match r with None => -1 | Some size => total - size end, u).
End decode.
