(* ===== verification/SprotoMessage.v ===== *)
(** What a message of sproto means: the values of its fields, the types that a
    description can have, and the bytes of the message, on which encoding and
    decoding are to agree. *)

From S2P Require Import Prelude Bytes CString Sproto.
Local Open Scope Z_scope.
Local Open Scope word_scope.

(** ** What a message means

    The values of the fields, as the callbacks exchange them. *)

Inductive item := IInt (v : Z) | IBool (b : bool) | IObj (l : list Z).
Inductive fval := FNone | FOne (x : item) | FMany (l : list item).

Definition fits32 (v : Z) : bool := (v >> 31 =? 0) || (v >> 31 =? -1).

Definition wf_item (type : Z) (x : item) : Prop :=
  match x with
  | IInt v => type = SPROTO_TINTEGER /\ - 2 ^ 63 <= v < 2 ^ 63
  | IBool _ => type = SPROTO_TBOOLEAN
  | IObj l => (type = SPROTO_TSTRING \/ type = SPROTO_TSTRUCT) /\ is_bytes l
  end.
Definition elem_type (f : field) : Z := f_type f .& Z.lnot SPROTO_TARRAY.
Definition wf_fval (f : field) (v : fval) : Prop :=
  match v with
  | FNone => True
  | FOne x => is_array f = false /\ wf_item (f_type f) x
  | FMany l => is_array f = true /\ Forall (wf_item (elem_type f)) l
  end.
(** The types that descriptions can have. *)
Definition wf_field (f : field) : Prop :=
  (0 <= f_type f <= 3 \/ SPROTO_TARRAY <= f_type f <= SPROTO_TARRAY + 3) /\ 0 <= f_tag f <= 0x7ffe.

#[export] Instance wf_item_dec type x : Decision (wf_item type x).
Proof. destruct x; cbn; apply _. Defined.
#[export] Instance wf_fval_dec f v : Decision (wf_fval f v).
Proof. destruct v; cbn; apply _. Defined.
#[export] Instance wf_field_dec f : Decision (wf_field f).
Proof. unfold wf_field. apply _. Defined.

(** *** The bytes of a message *)

Definition obj_data (l : list Z) : list Z := le32 (zlen l) ++ l.
Definition int_of (x : item) : Z := match x with IInt v => v | IBool b => b2i b | IObj _ => 0 end.
Definition bytes_of (x : item) : list Z := match x with IObj l => l | _ => [] end.
Definition int_width (l : list item) : nat := if forallb (fun x => fits32 (int_of x)) l then 4 else 8.
Definition ints_data (w : nat) (l : list item) : list Z := flat_map (fun x => le_bytes w (int_of x)) l.
Definition payload (type : Z) (l : list item) : list Z :=
  if type =? SPROTO_TINTEGER then
    match l with [] => [] | _ => Z.of_nat (int_width l) :: ints_data (int_width l) l end
  else if type =? SPROTO_TBOOLEAN then int_of <$> l
  else flat_map (fun x => obj_data (bytes_of x)) l.

(** The slot of a value and its data. *)
Definition slot_of (f : field) (v : fval) : option (Z * list Z) :=
  match v with
  | FNone => None
  | FOne (IObj l) => Some (0, obj_data l)
  | FOne x =>
    let v := int_of x in
    if fits32 v then if u32 v <? 0x7fff then Some ((v + 1) * 2, []) else Some (0, obj_data (le_bytes 4 v))
    else Some (0, obj_data (le_bytes 8 v))
  | FMany l => Some (0, obj_data (payload (elem_type f) l))
  end.

Definition gap_slots (last tag : Z) : list Z := if 0 <? tag - last - 1 then [(tag - last - 2) * 2 + 1] else [].

Fixpoint slots_of (content : field -> fval) (fs : list field) (last : Z) : list Z :=
  match fs with
  | [] => []
  | f :: fs =>
    match slot_of f (content f) with
    | None => slots_of content fs last
    | Some (v, _) => gap_slots last (f_tag f) ++ v :: slots_of content fs (f_tag f)
    end
  end.
Definition data_of (content : field -> fval) (fs : list field) : list Z :=
  flat_map (fun f => match slot_of f (content f) with None => [] | Some (_, d) => d end) fs.

Definition message (content : field -> fval) (fs : list field) : list Z :=
  let slots := slots_of content fs (-1) in
  le_bytes 2 (zlen slots) ++ flat_map (le_bytes 2) slots ++ data_of content fs.

(** *** Well-formed types *)

Fixpoint ascending (last : Z) (fs : list field) : Prop :=
  match fs with [] => True | f :: fs => last < f_tag f /\ ascending (f_tag f) fs end.
(** The slots that the fields may need. *)
Fixpoint max_slots (last : Z) (fs : list field) : Z :=
  match fs with [] => 0 | f :: fs => zlen (gap_slots last (f_tag f)) + 1 + max_slots (f_tag f) fs end.

Record wf_type (st : sproto_type) : Prop := {
  wt_n : t_n st = zlen (t_f st);
  wt_fields : Forall wf_field (t_f st);
  wt_ascending : ascending (-1) (t_f st);
  wt_maxn : max_slots (-1) (t_f st) <= t_maxn st < 0x10000;
  wt_base : 0 <= t_base st -> forall i f, zget (t_f st) i = Some f -> f_tag f = t_base st + i }.

(** ** Memory *)

Definition holds (buf : cells) (p : Z) (bytes : list Z) : Prop :=
  0 <= p /\ forall i x, zget bytes i = Some x -> zget buf (p + i) = Some (Some x).
(** Nothing before [n] is changed. *)
Definition keeps (n : Z) (buf buf' : cells) : Prop :=
  zlen buf' = zlen buf /\ forall k, k < n -> zget buf' k = zget buf k.

Lemma zget_neg {A} (l : list A) i : i < 0 -> zget l i = None.
Proof. unfold zget. by destruct (Z.ltb_spec i 0); [|lia]. Qed.

Lemma zget_fmap {A B} (f : A -> B) l i x : zget l i = Some x -> zget (f <$> l) i = Some (f x).
Proof. unfold zget. case_match; [done|]. intros Hx. by rewrite list_lookup_fmap, Hx. Qed.

Lemma zget_splice {A} (l : list A) p xs k : 0 <= p -> p + zlen xs <= zlen l ->
  zget (splice l p xs) k = if (p <=? k) && (k <? p + zlen xs) then zget xs (k - p) else zget l k.
Proof.
  intros Hp Hl. unfold splice. pose proof (zlen_nonneg xs).
  assert (Ht : zlen (take (Z.to_nat p) l) = p) by (apply zlen_take; lia).
  destruct (Z.ltb_spec k 0); [rewrite !zget_neg by lia; destruct (Z.leb_spec p k); [lia|done]|].
  destruct (Z.leb_spec p k).
  - rewrite zget_app_r by lia. rewrite Ht. destruct (Z.ltb_spec k (p + zlen xs)); cbn [andb].
    + by rewrite zget_app_l by lia.
    + rewrite zget_app_r by lia.
      replace (Z.to_nat p + length xs)%nat with (Z.to_nat (p + zlen xs)) by (unfold zlen; lia).
      rewrite zget_drop by lia. f_equal. lia.
  - cbn [andb]. rewrite zget_app_l by lia. apply zget_take. lia.
Qed.

Lemma store_spec buf p bytes : 0 <= p -> p + zlen bytes <= zlen buf ->
  exists buf', store buf p bytes = Some buf' /\ zlen buf' = zlen buf /\ holds buf' p bytes /\
    forall k, k < p \/ p + zlen bytes <= k -> zget buf' k = zget buf k.
Proof.
  intros Hp Hl. unfold store. assert (zlen (Some <$> bytes) = zlen bytes) as Hf by apply zlen_fmap.
  rewrite memcpy_splice by lia. eexists. split; [done|]. split; [apply zlen_splice; lia|]. split.
  - split; [done|]. intros i x Hx. pose proof (zget_in _ _ _ Hx). rewrite zget_splice by lia.
    destruct (Z.leb_spec p (p + i)), (Z.ltb_spec (p + i) (p + zlen (Some <$> bytes))); try lia. cbn [andb].
    replace (p + i - p) with i by lia. by apply zget_fmap.
  - intros k Hk. rewrite zget_splice by lia.
    destruct (Z.leb_spec p k), (Z.ltb_spec k (p + zlen (Some <$> bytes))); try lia; done.
Qed.

Lemma holds_app buf p a b : holds buf p (a ++ b) <-> holds buf p a /\ holds buf (p + zlen a) b.
Proof.
  pose proof (zlen_nonneg a). split.
  - intros [Hp H1]. split; (split; [lia|]); intros i x Hx; pose proof (zget_in _ _ _ Hx).
    + apply H1. by rewrite zget_app_l by lia.
    + rewrite <- Z.add_assoc. apply H1. rewrite zget_app_r by lia. rewrite <- Hx. f_equal. lia.
  - intros [[Hp Ha] [_ Hb]]. split; [done|]. intros i x Hx.
    destruct (Z.ltb_spec i (zlen a)).
    + apply Ha. by rewrite zget_app_l in Hx by lia.
    + rewrite zget_app_r in Hx by lia. specialize (Hb _ _ Hx). rewrite <- Hb. f_equal. lia.
Qed.

Lemma holds_nil buf p : 0 <= p -> holds buf p [].
Proof. intros. split; [done|]. intros i x Hx. pose proof (zget_in _ _ _ Hx). autorewrite with zlen in *. lia. Qed.

Lemma holds_frame buf buf' p bytes : holds buf p bytes ->
  (forall k, p <= k < p + zlen bytes -> zget buf' k = zget buf k) -> holds buf' p bytes.
Proof.
  intros [Hp H1] Hk. split; [done|]. intros i x Hx. pose proof (zget_in _ _ _ Hx). rewrite Hk by lia. by apply H1.
Qed.

Lemma holds_keeps n buf buf' p bytes : holds buf p bytes -> keeps n buf buf' -> p + zlen bytes <= n -> holds buf' p bytes.
Proof. intros Hh [_ Hk] Hn. eapply holds_frame; [done|]. intros. apply Hk. lia. Qed.

Lemma keeps_refl n buf : keeps n buf buf.
Proof. done. Qed.
Lemma keeps_trans n m buf buf1 buf2 : keeps n buf buf1 -> keeps m buf1 buf2 -> n <= m -> keeps n buf buf2.
Proof. intros [H1 H2] [H3 H4] Hnm. split; [congruence|]. intros k Hk. rewrite H4 by lia. by apply H2. Qed.

Lemma holds_take buf p bytes : holds buf p bytes -> p + zlen bytes <= zlen buf ->
  take (length bytes) (drop (Z.to_nat p) buf) = Some <$> bytes.
Proof.
  intros [Hp Hh] Hl. pose proof (zlen_nonneg bytes).
  assert (Hz : zlen (take (length bytes) (drop (Z.to_nat p) buf)) = zlen bytes)
    by (unfold zlen in *; rewrite length_take, length_drop; lia).
  apply zget_ext; [by rewrite Hz, zlen_fmap|]. intros i Hi. rewrite Hz in Hi.
  destruct (zget_is_Some bytes i) as [x Hx]; [lia|].
  replace (length bytes) with (Z.to_nat (zlen bytes)) by (unfold zlen; lia).
  rewrite zget_take, zget_drop by lia. rewrite (Hh _ _ Hx). symmetry. by apply zget_fmap.
Qed.

(** ** Words *)

Lemma le_bytes_value l : is_bytes l -> le_bytes (length l) (le_value l) = l.
Proof.
  induction l as [|b l IH]; intros Hl; [done|]. apply is_bytes_cons in Hl as [Hb Hl]. cbn [length le_bytes le_value].
  rewrite shiftr_div by lia. unfold u8, wrap. unfold is_u in Hb. change (2 ^ 8) with 256 in *.
  replace ((b + 256 * le_value l) mod 256) with b by (Z.to_euclidean_division_equations; lia).
  replace ((b + 256 * le_value l) / 256) with (le_value l) by (Z.to_euclidean_division_equations; lia).
  by rewrite IH.
Qed.

Lemma le_bytes_mod n x : le_bytes n (x mod 2 ^ (8 * Z.of_nat n)) = le_bytes n x.
Proof.
  rewrite <- le_value_bytes. rewrite <- (length_le_bytes n x) at 1. apply le_bytes_value, is_bytes_le_bytes.
Qed.

Lemma le_bytes_app n m x : le_bytes (n + m) x = le_bytes n x ++ le_bytes m (x >> (8 * Z.of_nat n)).
Proof.
  revert x. induction n as [|n IH]; intros x; [cbn; by rewrite Z.shiftr_0_r|].
  cbn [plus le_bytes app]. rewrite IH, Z.shiftr_shiftr by lia. do 4 f_equal. lia.
Qed.

Lemma fits32_range v : fits32 v = true <-> - 2 ^ 31 <= v < 2 ^ 31.
Proof.
  unfold fits32. rewrite Z.shiftr_div_pow2 by lia. rewrite orb_true_iff, !Z.eqb_eq. div_lia.
Qed.

(** A 32-bit integer widened to 64 bits. *)
Lemma le_bytes_widen v : fits32 v = true ->
  le_bytes 8 v = le_bytes 4 v ++ (if v <? 0 then [0xff; 0xff; 0xff; 0xff] else [0; 0; 0; 0]).
Proof.
  intros Hv%fits32_range. rewrite (le_bytes_app 4 4). f_equal. rewrite Z.shiftr_div_pow2 by lia.
  change (8 * Z.of_nat 4) with 32. zcase.
  - by replace (v / 2 ^ 32) with (-1) by div_lia.
  - by replace (v / 2 ^ 32) with 0 by div_lia.
Qed.

Lemma land_sign v : fits32 v = true -> ((v mod 2 ^ 32) .& 0x80000000 =? 0) = negb (v <? 0).
Proof.
  intros Hv%fits32_range. change 0x80000000 with (2 ^ 31).
  assert (H : ((v mod 2 ^ 32) .& 2 ^ 31) = if Z.testbit (v mod 2 ^ 32) 31 then 2 ^ 31 else 0).
  { apply Z.bits_inj'. intros n Hn. rewrite Z.land_spec, Z.pow2_bits_eqb by lia.
    destruct (Z.eqb_spec 31 n) as [<-|].
    - rewrite andb_true_r. destruct (Z.testbit _ 31); [by rewrite Z.pow2_bits_true by lia|by rewrite Z.bits_0].
    - rewrite andb_false_r. destruct (Z.testbit _ 31); [by rewrite Z.pow2_bits_false by lia|by rewrite Z.bits_0]. }
  rewrite H. assert (Ht : Z.testbit (v mod 2 ^ 32) 31 = (v <? 0)).
  { rewrite Z.testbit_odd, Z.shiftr_div_pow2 by lia. zcase.
    - replace (v mod 2 ^ 32 / 2 ^ 31) with 1 by div_lia. done.
    - replace (v mod 2 ^ 32 / 2 ^ 31) with 0 by div_lia. done. }
  rewrite Ht. by zcase.
Qed.

Lemma zlen_le_word x : zlen (le32 x) = 4.
Proof. done. Qed.
Lemma le32_bytes x : le32 x = le_bytes 4 x.
Proof.
  unfold le32. cbn [le_bytes]. rewrite !Z.shiftr_div_pow2 by lia. unfold u8, wrap. rewrite ?Z.div_div by lia. done.
Qed.

Lemma zlen_obj_data l : zlen (obj_data l) = 4 + zlen l.
Proof. unfold obj_data. by rewrite zlen_app, zlen_le_word. Qed.

Lemma field_types f : wf_field f ->
  (is_array f = false /\ elem_type f = f_type f /\ 0 <= f_type f <= 3) \/ (is_array f = true /\ 0 <= elem_type f <= 3).
Proof.
  intros [Ht _]. unfold is_array, elem_type, SPROTO_TARRAY in *.
  assert (f_type f = 0 \/ f_type f = 1 \/ f_type f = 2 \/ f_type f = 3 \/ f_type f = 128 \/ f_type f = 129 \/ f_type f = 130 \/ f_type f = 131)
    as Hc by lia.
  destruct Hc as [->|[->|[->|[->|[->|[->|[->| ->]]]]]]]; first [left; by_eval|right; by_eval].
Qed.

Lemma int_width_cases l : int_width l = 4%nat \/ int_width l = 8%nat.
Proof. unfold int_width. destruct (forallb _ l); auto. Qed.

Lemma zlen_ints_data w l : zlen (ints_data w l) = Z.of_nat w * zlen l.
Proof. unfold ints_data. induction l as [|x l IH]; [zlen_lia|]. cbn [flat_map]. rewrite zlen_app, IH, zlen_le_bytes. zlen_lia. Qed.

Lemma zlen_slots sl : zlen (flat_map (le_bytes 2) sl) = 2 * zlen sl.
Proof. induction sl as [|x sl IH]; [done|]. cbn [flat_map]. rewrite zlen_app, zlen_le_bytes, IH, zlen_cons. lia. Qed.

Lemma slots_app a b : flat_map (le_bytes 2) (a ++ b) = flat_map (le_bytes 2) a ++ flat_map (le_bytes 2) b.
Proof. apply flat_map_app. Qed.

Lemma zlen_gap last tag : 0 <= zlen (gap_slots last tag) <= 1.
Proof. unfold gap_slots. by destruct (_ <? _). Qed.
