(* ===== verification/SprotoEncode.v ===== *)
(** [sproto_encode] writes the message.

    The callback is any that hands over the values of a message (class [Sender]);
    whatever the size of the buffer, encoding writes the bytes of the message or
    returns -1, and it does the former when there is enough room. *)

From S2P Require Import Prelude Bytes CString Sproto SprotoMessage.
Local Open Scope Z_scope.
Local Open Scope word_scope.

(** ** Callbacks that hand over a message

    [M fs i u]: in state [u] the callback is ready for the fields [fs], for index [i] of the
    first of them when that is an array.  It may fail on an object when there is less
    than [room] for it. *)

Definition cb_bytes (x : item) : list Z :=
  match x with
  | IInt v => if fits32 v then le_bytes 4 v else le_bytes 8 v
  | IBool b => le_bytes 4 (b2i b)
  | IObj l => l
  end.
(** The memory at [args->value] before the call. *)
Definition region_ok (f : field) (v : cells) : Prop :=
  if elem_type f =? SPROTO_TINTEGER then v = malloc 8
  else if elem_type f =? SPROTO_TBOOLEAN then v = if is_array f then Some <$> [0; 0; 0; 0] else malloc 8
  else True.
Definition room_for (room : field -> list Z -> Z) (f : field) (x : item) : Z :=
  match x with IObj l => Z.max (zlen l) (room f l) | _ => 0 end.
Definition is_obj (x : item) : bool := match x with IObj _ => true | _ => false end.

Section answers.
Context {U : Type} (cb : sproto_arg -> cells -> U -> option (Z * cells * U)) (room : field -> list Z -> Z).

Definition gives (f : field) (args : sproto_arg) (v : cells) (u : U) (x : item) (Q : U -> Prop) : Prop :=
  exists r v' u', cb args v u = Some (r, v', u') /\ zlen v' = zlen v /\
    ((r = zlen (cb_bytes x) /\ r <= zlen v /\ take (Z.to_nat r) v' = Some <$> cb_bytes x /\ Q u') \/
     (r = SPROTO_CB_ERROR /\ is_obj x = true /\ zlen v < room_for room f x)).
Definition ends (args : sproto_arg) (v : cells) (u : U) (code : Z) (Q : U -> Prop) : Prop :=
  exists v' u', cb args v u = Some (code, v', u') /\ zlen v' = zlen v /\ Q u'.
End answers.

Class Sender {U : Type} (cb : sproto_arg -> cells -> U -> option (Z * cells * U))
    (content : field -> fval) (room : field -> list Z -> Z) (M : list field -> Z -> U -> Prop) := {
  sender_law f fs i u v : M (f :: fs) i u -> 1 <= i -> region_ok f v ->
    match content f with
    | FNone => if is_array f then ends cb (set_index i (arg_of f)) v u SPROTO_CB_NOARRAY (M fs 1)
               else ends cb (arg_of f) v u SPROTO_CB_NIL (M fs 1)
    | FOne x => gives cb room f (arg_of f) v u x (M fs 1)
    | FMany l =>
      match zget l (i - 1) with
      | Some x => gives cb room f (set_index i (arg_of f)) v u x (M (f :: fs) (i + 1))
      | None => ends cb (set_index i (arg_of f)) v u SPROTO_CB_NIL (M fs 1)
      end
    end }.

(** ** Encoding *)

Lemma zlen_cb_bytes x : is_obj x = false -> zlen (cb_bytes x) = 4 \/ zlen (cb_bytes x) = 8.
Proof. destruct x as [v| |]; cbn [cb_bytes is_obj]; [destruct (fits32 v)| |done]; rewrite zlen_le_bytes; auto. Qed.

Lemma cb_bytes_int x : is_obj x = false -> cb_bytes x = le_bytes (if fits32 (int_of x) then 4 else 8) (int_of x).
Proof. destruct x as [v|[]|]; cbn [cb_bytes int_of is_obj]; [by destruct (fits32 v)|done|done|done]. Qed.

Lemma keeps_weaken n m buf buf' : keeps n buf buf' -> m <= n -> keeps m buf buf'.
Proof. intros [H1 H2] Hm. split; [done|]. intros. apply H2. lia. Qed.

Lemma memcpy_spec (dst : cells) off src n : 0 <= off -> 0 <= n -> off + n <= zlen dst -> zlen src = n ->
  exists dst', memcpy dst off src n = Some dst' /\ zlen dst' = zlen dst /\
    (forall k, k < off \/ off + n <= k -> zget dst' k = zget dst k) /\
    (forall k, 0 <= k < n -> zget dst' (off + k) = zget src k).
Proof.
  intros Ho Hn Hl Hs. rewrite memcpy_splice by lia. eexists. split; [done|]. split; [apply zlen_splice; lia|]. split.
  - intros k Hk. rewrite zget_splice by lia. rewrite Hs. destruct (Z.leb_spec off k), (Z.ltb_spec k (off + n)); try lia; done.
  - intros k Hk. rewrite zget_splice by lia. rewrite Hs.
    destruct (Z.leb_spec off (off + k)), (Z.ltb_spec (off + k) (off + n)); try lia. cbn [andb]. f_equal. lia.
Qed.

Lemma cread_spec (buf : cells) p n : 0 <= p -> 0 <= n -> p + n <= zlen buf ->
  exists v, cread buf p n = Some v /\ zlen v = n /\ forall k, 0 <= k < n -> zget v k = zget buf (p + k).
Proof.
  intros Hp Hn Hl. unfold cread. destruct (Z.leb_spec 0 p), (Z.leb_spec 0 n), (Z.leb_spec (p + n) (zlen buf)); try lia.
  eexists. split; [done|]. split; [unfold zlen in *; rewrite length_take, length_drop; lia|].
  intros k Hk. by rewrite zget_take, zget_drop by lia.
Qed.

Lemma take_Some_zget v l : take (length l) v = Some <$> l -> forall i (x : Z), zget l i = Some x -> zget v i = Some (Some x).
Proof.
  intros Ht i x Hx. pose proof (zget_in _ _ _ Hx). rewrite <- (zget_take (zlen l)) by lia.
  replace (Z.to_nat (zlen l)) with (length l) by (unfold zlen; lia). rewrite Ht. by apply zget_fmap.
Qed.

Lemma union_value_spec v bytes : take (length bytes) v = Some <$> bytes -> union_value (zlen bytes) v = Some (le_value bytes).
Proof.
  intros Ht. unfold union_value. replace (Z.to_nat (zlen bytes)) with (length bytes) by (unfold zlen; lia).
  rewrite Ht. clear Ht. assert (mapM id (Some <$> bytes) = Some bytes) as ->; [|done].
  induction bytes as [|b l IH]; [done|]. cbn. by rewrite IH.
Qed.

Lemma fill_size_spec buf data sz : 0 <= data -> data + 4 <= zlen buf ->
  exists buf', fill_size buf data sz = Some (sz + 4, buf') /\ zlen buf' = zlen buf /\ holds buf' data (le32 sz) /\
    forall k, k < data \/ data + 4 <= k -> zget buf' k = zget buf k.
Proof.
  intros Hd Hl. destruct (store_spec buf data (le32 sz)) as (buf' & Hs & Hz & Hh & Hk); [done|by rewrite zlen_le_word|].
  exists buf'. unfold fill_size. rewrite Hs. done.
Qed.

Lemma call_on_spec {U} (cb : sproto_arg -> cells -> U -> option (Z * cells * U)) args buf p n u :
  0 <= p -> 0 <= n -> p + n <= zlen buf ->
  exists v, zlen v = n /\ forall sz v' u', cb args v u = Some (sz, v', u') -> zlen v' = n ->
    exists buf', call_on cb args buf p n u = Some (sz, buf', u') /\ keeps p buf buf' /\
      forall l, take (length l) v' = Some <$> l -> zlen l <= n -> holds buf' p l.
Proof.
  intros Hp Hn Hl. destruct (cread_spec buf p n Hp Hn Hl) as (v & Hv & Hvl & _). exists v. split; [done|].
  intros sz v' u' Hcb Hv'. unfold call_on. rewrite Hv, some_bind, Hcb, some_bind. cbv beta iota.
  destruct (memcpy_spec buf p v' n Hp Hn Hl Hv') as (buf' & Hm & Hbl & Hk & Hin). rewrite Hm, some_bind.
  exists buf'. split; [done|]. split; [split; [done|]; intros; apply Hk; lia|].
  intros l Ht Hll. split; [done|]. intros i x Hx. pose proof (zget_in _ _ _ Hx). rewrite Hin by lia.
  by eapply take_Some_zget.
Qed.

Section sender.
Context {U : Type} (cb : sproto_arg -> cells -> U -> option (Z * cells * U)) (room : field -> list Z -> Z).
Implicit Types (Q : U -> Prop).

(** The length in front of what is there. *)
Lemma fill_size_obj buf data l : 0 <= data -> data + 4 + zlen l <= zlen buf -> holds buf (data + 4) l ->
  exists buf', fill_size buf data (zlen l) = Some (zlen (obj_data l), buf') /\ zlen buf' = zlen buf /\
    holds buf' data (obj_data l) /\ (forall k, k < data \/ data + 4 <= k -> zget buf' k = zget buf k).
Proof.
  intros Hd Hl Hh. pose proof (zlen_nonneg l).
  destruct (fill_size_spec buf data (zlen l)) as (buf' & Hf & Hz & Hh' & Hk); [lia|lia|].
  exists buf'. split_and!; [|done| |done].
  - rewrite Hf. unfold obj_data. rewrite zlen_app, zlen_le_word. do 2 f_equal. lia.
  - apply holds_app. split; [done|]. rewrite zlen_le_word. eapply holds_frame; [done|]. intros. apply Hk. lia.
Qed.

Lemma encode_object_gives f args l Q buf data size u : 0 <= data -> 0 <= size -> data + size = zlen buf ->
  (forall v, gives cb room f args v u (IObj l) Q) ->
  exists sz buf' u', encode_object cb args buf data size u = Some (sz, buf', u') /\ keeps data buf buf' /\
    ((sz = zlen (obj_data l) /\ sz <= size /\ holds buf' data (obj_data l) /\ Q u') \/
     (sz = -1 /\ size < 4 + room_for room f (IObj l))).
Proof.
  intros Hd Hs Hb Hg. unfold encode_object, SIZEOF_LENGTH. pose proof (zlen_nonneg l).
  destruct (Z.ltb_spec size 4).
  { exists (-1), buf, u. split; [done|]. split; [apply keeps_refl|]. right. cbn. lia. }
  destruct (call_on_spec cb args buf (data + 4) (size - 4) u) as (v & Hv & Hcall); [lia|lia|lia|].
  destruct (Hg v) as (r & v' & u' & Hcb & Hvl & Hr). rewrite Hv in *.
  destruct (Hcall _ _ _ Hcb Hvl) as (buf1 & Hc & Hk1 & Hh1). rewrite Hc, some_bind. cbv beta iota.
  destruct Hr as [(-> & Hle & Ht & HQ)|(-> & _ & Hlt)].
  - cbn [cb_bytes] in *. destruct (Z.ltb_spec (zlen l) 0); [lia|].
    rewrite c_assert_true, some_bind by (by apply Z.leb_le).
    destruct Hk1 as [Hk1 Hk1']. destruct (fill_size_obj buf1 data l) as (buf2 & Hf & Hz & Hh2 & Hk2); [lia|lia| |].
    { apply Hh1; [|done]. rewrite <- Ht. f_equal. unfold zlen. lia. }
    rewrite Hf, some_bind. exists (zlen (obj_data l)), buf2, u'. split; [done|]. split.
    + split; [congruence|]. intros k Hk. rewrite Hk2 by lia. apply Hk1'. lia.
    + left. split_and!; try done. unfold obj_data. rewrite zlen_app, zlen_le_word. lia.
  - exists (-1), buf1, u'. split; [done|]. split; [eapply keeps_weaken; [done|lia]|].
    right. split; [done|]. lia.
Qed.

Lemma encode_object_ends args Q buf data size u : 0 <= data -> 0 <= size -> data + size = zlen buf ->
  (forall v, ends cb args v u SPROTO_CB_NIL Q) ->
  exists sz buf' u', encode_object cb args buf data size u = Some (sz, buf', u') /\ keeps data buf buf' /\
    ((sz = 0 /\ Q u') \/ (sz = -1 /\ size < 4)).
Proof.
  intros Hd Hs Hb Hg. unfold encode_object, SIZEOF_LENGTH.
  destruct (Z.ltb_spec size 4).
  { exists (-1), buf, u. split; [done|]. split; [apply keeps_refl|]. right. lia. }
  destruct (call_on_spec cb args buf (data + 4) (size - 4) u) as (v & Hv & Hcall); [lia|lia|lia|].
  destruct (Hg v) as (v' & u' & Hcb & Hvl & HQ). rewrite Hv in *.
  destruct (Hcall _ _ _ Hcb Hvl) as (buf1 & Hc & [Hk1 Hk1'] & _). rewrite Hc, some_bind.
  exists 0, buf1, u'. split; [done|]. split; [|by left]. split; [done|]. intros. apply Hk1'. lia.
Qed.

(** *** Integers and booleans *)

(** The value of the bytes that the callback stored. *)
Lemma union_int r v' x : is_obj x = false -> r = zlen (cb_bytes x) -> take (Z.to_nat r) v' = Some <$> cb_bytes x ->
  let w := if fits32 (int_of x) then 4%nat else 8%nat in
  r = Z.of_nat w /\ exists y, union_value r v' = Some y /\ y = int_of x mod 2 ^ (8 * r) /\ le_bytes w y = le_bytes w (int_of x).
Proof.
  intros Hx -> Ht w. rewrite (cb_bytes_int x Hx) in *. fold w in Ht |- *. rewrite zlen_le_bytes in *. split; [done|].
  exists (int_of x mod 2 ^ (8 * Z.of_nat w)). split_and!; [|done|apply le_bytes_mod].
  rewrite <- le_value_bytes. rewrite <- (zlen_le_bytes w (int_of x)) at 1. apply union_value_spec.
  rewrite <- Ht. f_equal. rewrite length_le_bytes. lia.
Qed.

(** An integer in the data part. *)
Lemma encode_number buf data size w y v : (w = 4%nat \/ w = 8%nat) -> le_bytes w y = le_bytes w v ->
  0 <= data -> data + size = zlen buf -> size < 2 ^ 63 -> 0 <= size ->
  exists sz buf', (if u64 size <? SIZEOF_LENGTH + Z.of_nat w then Some (-1, buf)
      else buf ← store buf (data + 4) (le_bytes w y); fill_size buf data (Z.of_nat w)) = Some (sz, buf') /\
    keeps data buf buf' /\
    ((sz = zlen (obj_data (le_bytes w v)) /\ sz <= size /\ holds buf' data (obj_data (le_bytes w v))) \/ (sz = -1 /\ size < 12)).
Proof.
  intros Hw Hy Hd Hb Hs1 Hs0. unfold SIZEOF_LENGTH, u64. rewrite (wrap_small 64 size) by (unfold is_u; lia).
  destruct (Z.ltb_spec size (4 + Z.of_nat w)).
  { exists (-1), buf. split; [done|]. split; [apply keeps_refl|]. right. lia. }
  destruct (store_spec buf (data + 4) (le_bytes w y)) as (buf1 & Hst & Hz1 & Hh1 & Hk1); [lia|rewrite zlen_le_bytes; lia|].
  rewrite Hst, some_bind. rewrite Hy in Hh1.
  destruct (fill_size_obj buf1 data (le_bytes w v)) as (buf2 & Hf & Hz2 & Hh2 & Hk2); [lia|rewrite zlen_le_bytes; lia|done|].
  rewrite zlen_le_bytes in Hf. rewrite Hf. do 2 eexists. split; [done|]. split.
  - split; [congruence|]. intros k Hk. rewrite Hk2, Hk1 by lia. done.
  - left. split_and!; try done. unfold obj_data. rewrite zlen_app, zlen_le_word, zlen_le_bytes. lia.
Qed.

Lemma encode_scalar_spec f args x Q buf data size u : is_obj x = false -> 0 <= data -> 0 <= size -> size < 2 ^ 63 -> data + size = zlen buf ->
  gives cb room f args (malloc 8) u x Q -> - 2 ^ 63 <= int_of x < 2 ^ 63 ->
  exists sz value d buf' u', encode_scalar cb args buf data size u = Some (FSize sz value, buf', u') /\ keeps data buf buf' /\
    ((slot_of f (FOne x) = Some (value, d) /\ 0 < sz /\ (value = 0 -> sz = zlen d) /\ (value <> 0 -> d = [] /\ 0 < value < 0x10000) /\
      zlen d <= size /\ holds buf' data d /\ Q u') \/ (sz = -1 /\ size < 12)).
Proof.
  intros Hx Hd Hs Hsz Hb (r & v' & u' & Hcb & Hvl & [(-> & Hr & Ht & HQ)|(_ & ? & _)]) Hv; [|congruence].
  unfold encode_scalar. rewrite Hcb, some_bind. cbv beta iota.
  destruct (union_int _ _ x Hx eq_refl Ht) as (Hw & y & Huv & Hy & Hyb). set (v := int_of x) in *.
  assert (Hslot : slot_of f (FOne x) = if fits32 v then if u32 v <? 0x7fff then Some ((v + 1) * 2, []) else Some (0, obj_data (le_bytes 4 v))
    else Some (0, obj_data (le_bytes 8 v))) by (unfold v; destruct x; done).
  rewrite Hslot, Hw in *. clear Hslot Hw. destruct (fits32 v) eqn:Hf.
  - apply fits32_range in Hf. change (Z.of_nat 4) with 4 in *. change (4 <? 0) with false. change (4 =? SIZEOF_INT32) with true. cbv iota.
    rewrite Huv, some_bind. unfold u32, wrap. change (8 * 4) with 32 in *. rewrite <- Hy.
    destruct (Z.ltb_spec y 0x7fff).
    + assert (y = v /\ 0 <= v) as [-> ?] by div_lia. exists 2, ((v + 1) * 2), [], buf, u'. split; [done|]. split; [apply keeps_refl|].
      left. split_and!; try done; try lia; [intros; split; [done|lia]|by apply holds_nil].
    + destruct (encode_number buf data size 4 y v) as (sz & buf' & He & Hk & Hr'); [by left|done|done|done|done|done|].
      unfold encode_integer. change (Z.of_nat 4) with 4 in He. rewrite He, some_bind.
      exists sz, 0, (obj_data (le_bytes 4 v)), buf', u'. split; [done|]. split; [done|].
      destruct Hr' as [(-> & ? & ?)|?]; [left|by right]. split_and!; try done; lia.
  - change (Z.of_nat 8) with 8 in *. change (8 <? 0) with false. change (8 =? SIZEOF_INT32) with false. change (8 =? SIZEOF_INT64) with true. cbv iota.
    rewrite Huv, some_bind. destruct (encode_number buf data size 8 y v) as (sz & buf' & He & Hk & Hr'); [by right|done|done|done|done|done|].
    unfold encode_uint64. change (Z.of_nat 8) with 8 in He. rewrite He, some_bind.
    exists sz, 0, (obj_data (le_bytes 8 v)), buf', u'. split; [done|]. split; [done|].
    destruct Hr' as [(-> & ? & ?)|?]; [left|by right]. split_and!; try done; lia.
Qed.

Lemma encode_scalar_ends args Q buf data size u : ends cb args (malloc 8) u SPROTO_CB_NIL Q ->
  exists u', encode_scalar cb args buf data size u = Some (FSkip, buf, u') /\ Q u'.
Proof. intros (v' & u' & Hcb & _ & HQ). exists u'. unfold encode_scalar. by rewrite Hcb. Qed.

(** *** Arrays of integers *)

Definition items_hold (buf : cells) (h : Z) (w : nat) (l : list item) : Prop :=
  forall i x, zget l i = Some x -> holds buf (h + Z.of_nat w * i) (le_bytes w (int_of x)).

Lemma items_hold_snoc buf buf' h w l x : items_hold buf h w l -> 0 <= h ->
  (forall k, h <= k < h + Z.of_nat w * zlen l -> zget buf' k = zget buf k) ->
  holds buf' (h + Z.of_nat w * zlen l) (le_bytes w (int_of x)) -> items_hold buf' h w (l ++ [x]).
Proof.
  intros Hl Hh Hk Hx i y Hi. pose proof (zget_in _ _ _ Hi). rewrite zlen_app in *. change (zlen [x]) with 1 in *.
  destruct (Z.ltb_spec i (zlen l)).
  - rewrite zget_app_l in Hi by lia. eapply holds_frame; [by apply Hl|]. intros k. rewrite zlen_le_bytes. intros. apply Hk. nia.
  - assert (i = zlen l) as -> by lia. rewrite zget_app_r, Z.sub_diag in Hi by lia. by injection Hi as <-.
Qed.

Lemma items_hold_data buf h w l : items_hold buf h w l -> 0 <= h -> holds buf h (ints_data w l).
Proof.
  intros Hl Hh. unfold ints_data. revert h Hh Hl. induction l as [|x l IH]; intros h Hh Hl; [by apply holds_nil|].
  cbn [flat_map]. apply holds_app. split; [specialize (Hl 0 x eq_refl); by rewrite Z.mul_0_r, Z.add_0_r in Hl|].
  rewrite zlen_le_bytes. apply IH; [lia|]. intros i y Hi. pose proof (zget_in _ _ _ Hi).
  replace (h + Z.of_nat w + Z.of_nat w * i) with (h + Z.of_nat w * (1 + i)) by lia. apply Hl.
  rewrite (zget_app_r [x] l) by (zlen_lia). rewrite <- Hi. f_equal. zlen_lia.
Qed.

Lemma land_top b : is_u8 b -> (b .& 0x80 =? 0) = (b <? 128).
Proof.
  intros Hb. assert (Hall : forallb (fun b => Bool.eqb (b .& 0x80 =? 0) (b <? 128)) (seqZ 0 256) = true) by by_eval.
  rewrite forallb_forall in Hall. apply Bool.eqb_prop, Hall, list_elem_of_In, elem_of_seqZ. unfold is_u in Hb. lia.
Qed.

Lemma zget_le_bytes_top v : fits32 v = true -> exists b, zget (le_bytes 4 v) 3 = Some b /\ (b .& 0x80 =? 0) = negb (v <? 0).
Proof.
  intros Hv%fits32_range. eexists. split; [done|]. rewrite land_top by apply is_u8_u8.
  rewrite !Z.shiftr_shiftr, Z.shiftr_div_pow2 by lia. change (8 + (8 + 8)) with 24. unfold u8, wrap.
  repeat zcase; try done; div_lia.
Qed.

Lemma rearrange_spec header l : forall n buf, (n <= length l)%nat -> forallb (fun x => fits32 (int_of x)) l = true -> 0 <= header ->
  header + 1 + 8 * zlen l <= zlen buf ->
  (forall i x, zget l i = Some x -> i < Z.of_nat n -> holds buf (header + 1 + 4 * i) (le_bytes 4 (int_of x))) ->
  (forall i x, zget l i = Some x -> Z.of_nat n <= i -> holds buf (header + 1 + 8 * i) (le_bytes 8 (int_of x))) ->
  exists buf', rearrange n header buf = Some buf' /\ keeps (header + 1) buf buf' /\ items_hold buf' (header + 1) 8 l.
Proof.
  induction n as [|n IH]; intros buf Hn Hf Hh Hb Hlow Hhigh; cbn [rearrange].
  { exists buf. split; [done|]. split; [apply keeps_refl|]. intros i x Hi. apply Hhigh; [done|]. apply zget_in in Hi. lia. }
  set (i := Z.of_nat n). assert (Hi : 0 <= i < zlen l) by (unfold zlen; lia).
  destruct (zget_is_Some l i) as [x Hx]; [lia|].
  assert (Hfx : fits32 (int_of x) = true).
  { rewrite forallb_forall in Hf. apply Hf. apply list_elem_of_In. rewrite zget_nonneg in Hx by lia. by eapply list_elem_of_lookup_2. }
  pose proof (Hlow i x Hx ltac:(lia)) as Hxl. unfold SIZEOF_INT32, SIZEOF_INT64.
  destruct (cread_spec buf (header + 1 + i * 4) 4) as (low & Hr & Hll & Hrl); [lia|lia|lia|]. rewrite Hr, some_bind.
  destruct (memcpy_spec buf (header + 1 + i * 8) low 4) as (buf1 & Hm & Hz1 & Hk1 & Hin1); [lia|lia|lia|lia|]. rewrite Hm, some_bind.
  assert (Hh1 : holds buf1 (header + 1 + 8 * i) (le_bytes 4 (int_of x))).
  { split; [lia|]. intros j y Hj. pose proof (zget_in _ _ _ Hj) as Hjr. rewrite zlen_le_bytes in Hjr.
    replace (header + 1 + 8 * i + j) with (header + 1 + i * 8 + j) by lia. rewrite Hin1, Hrl by lia.
    destruct Hxl as [_ Hxl]. rewrite <- (Hxl j y Hj). f_equal. lia. }
  destruct (zget_le_bytes_top _ Hfx) as (b & Hb3 & Hbs). destruct Hh1 as [Hh1p Hh1].
  pose proof (Hh1 3 b Hb3) as Htop. replace (header + 1 + i * 8 + 3) with (header + 1 + 8 * i + 3) by lia.
  rewrite Htop, !some_bind, Hbs, negb_involutive. unfold uint32_to_uint64.
  set (ext := if int_of x <? 0 then _ else _). assert (He : zlen ext = 4) by (unfold ext; by destruct (_ <? _)).
  destruct (store_spec buf1 (header + 1 + i * 8 + 4) ext) as (buf2 & Hs & Hz2 & Hh2 & Hk2); [lia|lia|]. rewrite Hs, some_bind.
  destruct (IH buf2) as (buf' & Hre & Hkeep & Hit); [lia|done|done|lia| | |].
  - intros j y Hj Hjn. pose proof (zget_in _ _ _ Hj). eapply holds_frame; [apply (Hlow j y Hj); lia|].
    intros k. rewrite zlen_le_bytes. intros. rewrite Hk2, Hk1 by lia. done.
  - intros j y Hj Hjn. destruct (Z.eq_dec j i) as [->|Hne].
    + assert (y = x) as -> by congruence. rewrite le_bytes_widen by done. apply holds_app. split.
      * eapply holds_frame; [split; [done|apply Hh1]|]. intros k. rewrite zlen_le_bytes. intros. apply Hk2. lia.
      * rewrite zlen_le_bytes. by replace (header + 1 + 8 * i + Z.of_nat 4) with (header + 1 + i * 8 + 4) by lia.
    + eapply holds_frame; [apply (Hhigh j y Hj); lia|]. intros k. rewrite zlen_le_bytes. intros. rewrite Hk2, Hk1 by lia. done.
  - exists buf'. split; [done|]. split; [|done]. destruct Hkeep as [Hz3 Hk3]. split; [congruence|].
    intros k Hk. rewrite Hk3, Hk2, Hk1 by lia. done.
Qed.

Lemma int_width_snoc l x : int_width (l ++ [x]) = if fits32 (int_of x) then int_width l else 8%nat.
Proof.
  unfold int_width. rewrite forallb_app. cbn [forallb]. rewrite andb_true_r.
  destruct (forallb _ l), (fits32 (int_of x)); done.
Qed.
Lemma set_index_twice i j a : set_index i (set_index j a) = set_index i a.
Proof. done. Qed.

Section integers.
Context (f : field) (header S : Z) (buf0 : cells).
Context (Hheader : 0 <= header) (HS : header + 1 + S <= zlen buf0).

(** The items [l] are written. *)
Definition int_inv (l : list item) (buffer size intlen : Z) (buf : cells) : Prop :=
  intlen = Z.of_nat (int_width l) /\ buffer = header + 1 + intlen * zlen l /\ size = S - intlen * zlen l /\ 0 <= size /\
  keeps (header + 1) buf0 buf /\ items_hold buf (header + 1) (int_width l) l.

Lemma int_inv_snoc l x w buffer size buf buf' :
  keeps (header + 1) buf0 buf -> items_hold buf (header + 1) w l -> int_width (l ++ [x]) = w ->
  buffer = header + 1 + Z.of_nat w * zlen l -> size = S - Z.of_nat w * zlen l -> 8 <= size ->
  zlen buf' = zlen buf -> (forall k, k < buffer -> zget buf' k = zget buf k) -> holds buf' buffer (le_bytes w (int_of x)) ->
  int_inv (l ++ [x]) (buffer + Z.of_nat w) (size - Z.of_nat w) (Z.of_nat w) buf'.
Proof.
  intros [Hz Hk] Hit Hw Hb Hs H8 Hz' Hk' Hh. pose proof (zlen_nonneg l). unfold int_inv. rewrite Hw, zlen_app.
  change (zlen [x]) with 1. assert (Z.of_nat w <= 8) by (destruct (int_width_cases (l ++ [x])); lia).
  split_and!; try lia.
  - split; [congruence|]. intros. rewrite Hk' by nia. by apply Hk.
  - apply (items_hold_snoc buf); try done; [lia| |by rewrite <- Hb]. intros. apply Hk'. lia.
Qed.

(** A small integer at the end of the array, whatever the width so far. *)
Lemma store_small l x buffer size intlen buf : int_inv l buffer size intlen buf -> fits32 (int_of x) = true -> 8 <= size ->
  exists buf' buf'', store buf buffer (le_bytes 4 (int_of x)) = Some buf' /\
    (if intlen =? SIZEOF_INT64 then uint32_to_uint64 (int_of x <? 0) buf' buffer else Some buf') = Some buf'' /\
    int_inv (l ++ [x]) (buffer + intlen) (size - intlen) intlen buf''.
Proof.
  intros (Hw & Hbuf & Hsize & Hs0 & Hkeep & Hit) Hf H8. pose proof (zlen_nonneg l). pose proof (int_width_cases l) as Hwc.
  pose proof Hkeep as [Hz _]. unfold SIZEOF_INT64.
  destruct (store_spec buf buffer (le_bytes 4 (int_of x))) as (buf1 & Hs & Hz1 & Hh1 & Hk1); [lia|rewrite zlen_le_bytes; lia|].
  rewrite zlen_le_bytes in Hk1. exists buf1.
  assert (Hw' : int_width (l ++ [x]) = int_width l) by (by rewrite int_width_snoc, Hf).
  destruct Hwc as [Hwc|Hwc]; rewrite Hwc in *; subst intlen.
  - exists buf1. split_and!; [done|done|]. apply (int_inv_snoc l x 4 buffer size buf); try done. intros. apply Hk1. lia.
  - unfold uint32_to_uint64. set (ext := if int_of x <? 0 then _ else _).
    assert (He : zlen ext = 4) by (unfold ext; by destruct (_ <? _)).
    destruct (store_spec buf1 (buffer + 4) ext) as (buf2 & Hs2 & Hz2 & Hh2 & Hk2); [lia|lia|].
    exists buf2. split_and!; [done|done|]. apply (int_inv_snoc l x 8 buffer size buf); try done; [congruence| |].
    + intros. rewrite Hk2, Hk1 by lia. done.
    + rewrite le_bytes_widen by done. apply holds_app. split; [|by rewrite zlen_le_bytes].
      eapply holds_frame; [done|]. intros k. rewrite zlen_le_bytes. intros. apply Hk2. lia.
Qed.

Lemma store_large l x buffer size buf : keeps (header + 1) buf0 buf -> items_hold buf (header + 1) 8 l ->
  buffer = header + 1 + 8 * zlen l -> size = S - 8 * zlen l -> 8 <= size -> fits32 (int_of x) = false ->
  exists buf', store buf buffer (le_bytes 8 (int_of x)) = Some buf' /\ int_inv (l ++ [x]) (buffer + 8) (size - 8) 8 buf'.
Proof.
  intros Hkeep Hit Hb Hs H8 Hf. pose proof (zlen_nonneg l). pose proof Hkeep as [Hz _].
  destruct (store_spec buf buffer (le_bytes 8 (int_of x))) as (buf1 & Hst & Hz1 & Hh1 & Hk1); [lia|rewrite zlen_le_bytes; lia|].
  exists buf1. split; [done|]. apply (int_inv_snoc l x 8 buffer size buf); try done; [by rewrite int_width_snoc, Hf|].
  intros. apply Hk1. lia.
Qed.

(** One round, with [l] written so far. *)
Lemma integer_round fuel i l x Q buffer size intlen buf u args :
  int_inv l buffer size intlen buf -> i = zlen l + 1 -> is_obj x = false -> set_index i args = set_index i (arg_of f) ->
  gives cb room f (set_index i (arg_of f)) (malloc 8) u x Q ->
  (exists buffer' intlen' buf' u',
    integer_loop cb (Datatypes.S fuel) args header buffer size intlen i buf u = Some (AFail, buffer', intlen', buf', u') /\
    keeps (header + 1) buf0 buf' /\ S < 8 * (zlen l + 1)) \/
  (exists buffer' size' intlen' buf' u',
    integer_loop cb (Datatypes.S fuel) args header buffer size intlen i buf u =
       integer_loop cb fuel (set_index i (arg_of f)) header buffer' size' intlen' (i + 1) buf' u' /\
    size' < size /\ Q u' /\ int_inv (l ++ [x]) buffer' size' intlen' buf').
Proof.
  intros Hinv Hi Hx Ha (r & v' & u' & Hcb & Hvl & [(Hr & _ & Ht & HQ)|(_ & ? & _)]); [|congruence].
  destruct (union_int r v' x Hx Hr Ht) as (Hrw & y & Huv & Hy & Hyb). clear Hr Ht.
  pose proof Hinv as (Hw & Hbuf & Hsize & Hs0 & Hkeep & Hit).
  pose proof (zlen_nonneg l). pose proof (int_width_cases l) as Hwc.
  cbn [integer_loop]. rewrite Ha, Hcb, some_bind. cbv beta iota.
  destruct (Z.leb_spec r 0); [destruct (fits32 (int_of x)); lia|]. unfold SIZEOF_INT32, SIZEOF_INT64.
  destruct (Z.ltb_spec size 8).
  { left. do 4 eexists. split; [done|]. split; [done|]. destruct Hwc as [Hwc|Hwc]; rewrite Hwc in *; lia. }
  destruct (fits32 (int_of x)) eqn:Hf; rewrite Hrw in *.
  - right. destruct (store_small l x buffer size intlen buf) as (buf1 & buf2 & Hs1 & Hs2 & Hinv'); [done|done|lia|].
    unfold SIZEOF_INT64 in Hs2. change (Z.of_nat 4 =? 4) with true. cbv iota. change (Z.of_nat 4) with 4 in Huv, Hy. rewrite Huv, some_bind, Hyb, Hs1, some_bind.
    change (8 * 4) with 32 in Hy. rewrite Hy, land_sign, negb_involutive, Hs2, some_bind by done.
    do 5 eexists. split; [done|]. split_and!; [destruct Hwc; lia|done|done].
  - change (Z.of_nat 8 =? 4) with false. change (Z.of_nat 8 =? 8) with true. cbv iota. cbn [negb].
    change (Z.of_nat 8) with 8 in Huv. rewrite Hw. destruct Hwc as [Hwc|Hwc]; rewrite Hwc in *.
    + change (Z.of_nat 4 =? 4) with true. cbv iota. cbn [andb]. destruct (Z.ltb_spec (size - (i - 1) * 4) 8).
      { left. do 4 eexists. split; [done|]. split; [done|]. lia. }
      destruct (rearrange_spec header l (length l) buf) as (buf1 & Hre & Hk1 & Hit1); try done.
      { unfold int_width in Hwc. by destruct (forallb _ l). }
      { destruct Hkeep as [-> _]. lia. }
      { intros j z Hj _. by apply Hit. }
      { intros j z Hj Hjl. apply zget_in in Hj. unfold zlen in Hj. lia. }
      replace (Z.to_nat (i - 1)) with (length l) by (unfold zlen in Hi; lia). rewrite Hre, some_bind, Huv, some_bind, Hyb.
      destruct (store_large l x (buffer + (i - 1) * 4) (size - (i - 1) * 4) buf1) as (buf2 & Hs2 & Hinv'); try done; try lia.
      { eapply keeps_trans; [done..|lia]. }
      rewrite Hs2, some_bind. right. do 5 eexists. split; [done|]. split_and!; [lia|done|done].
    + change (Z.of_nat 8 =? 4) with false. cbv iota. cbn [andb]. rewrite some_bind, Huv, some_bind, Hyb.
      destruct (store_large l x buffer size buf) as (buf2 & Hs2 & Hinv'); try done; try lia.
      rewrite Hs2, some_bind. right. do 5 eexists. split; [done|]. split_and!; [lia|done|done].
Qed.
End integers.

End sender.

Section fields.
Context {U : Type} (cb : sproto_arg -> cells -> U -> option (Z * cells * U)).
Context (content : field -> fval) (room : field -> list Z -> Z) (M : list field -> Z -> U -> Prop).
Context `{!Sender cb content room M}.

Lemma sender_item f fs i u v l x : M (f :: fs) i u -> 1 <= i -> region_ok f v -> content f = FMany l -> zget l (i - 1) = Some x ->
  gives cb room f (set_index i (arg_of f)) v u x (M (f :: fs) (i + 1)).
Proof. intros HM Hi Hv Hc Hx. pose proof (sender_law f fs i u v HM Hi Hv) as H. by rewrite Hc, Hx in H. Qed.

Lemma sender_end f fs i u v l : M (f :: fs) i u -> region_ok f v -> content f = FMany l -> i = zlen l + 1 ->
  ends cb (set_index i (arg_of f)) v u SPROTO_CB_NIL (M fs 1).
Proof.
  intros HM Hv Hc ->. pose proof (zlen_nonneg l). pose proof (sender_law f fs (zlen l + 1) u v HM ltac:(lia) Hv) as H'.
  rewrite Hc in H'. by rewrite zget_none in H' by lia.
Qed.

Lemma sender_none f fs u v : M (f :: fs) 1 u -> region_ok f v -> content f = FNone -> is_array f = true ->
  ends cb (set_index 1 (arg_of f)) v u SPROTO_CB_NOARRAY (M fs 1).
Proof. intros HM Hv Hc Ha. pose proof (sender_law f fs 1 u v HM ltac:(lia) Hv) as H'. by rewrite Hc, Ha in H'. Qed.

Lemma zget_middle {A} (l : list A) x l' : zget (l ++ x :: l') (zlen l) = Some x.
Proof. rewrite zget_app_r by lia. by rewrite Z.sub_diag. Qed.

Definition needs (f : field) (l : list item) : Z := foldr (fun x a => 8 + room_for room f x + a) 8 l.
Lemma room_for_nonneg f x : 0 <= room_for room f x.
Proof. destruct x as [| |l]; cbn; [lia|lia|]. pose proof (zlen_nonneg l). lia. Qed.
Lemma needs_ge f l : 8 + 8 * zlen l <= needs f l.
Proof. induction l as [|x l IH]; cbn [needs foldr]; [done|]. rewrite zlen_cons. pose proof (room_for_nonneg f x). unfold needs in IH. lia. Qed.

Lemma integer_loop_spec f fs all header S buf0 : 0 <= header -> header + 1 + S <= zlen buf0 -> elem_type f = SPROTO_TINTEGER ->
  content f = FMany all -> Forall (wf_item SPROTO_TINTEGER) all ->
  forall l2 l fuel buffer size intlen buf u args, all = l ++ l2 -> size < Z.of_nat fuel ->
  int_inv header S buf0 l buffer size intlen buf -> M (f :: fs) (zlen l + 1) u ->
  (forall i, set_index i args = set_index i (arg_of f)) ->
  exists e p w buf' u', integer_loop cb fuel args header buffer size intlen (zlen l + 1) buf u = Some (e, p, w, buf', u') /\
    keeps (header + 1) buf0 buf' /\
    ((e = AEnd /\ (exists size', int_inv header S buf0 all p size' w buf') /\ M fs 1 u') \/ (e = AFail /\ S < 8 * zlen all)).
Proof.
  intros Hh HS Ht Hc Hall l2.
  assert (Hreg : region_ok f (malloc 8)) by (unfold region_ok; by rewrite Ht).
  induction l2 as [|x l2 IH]; intros l fuel buffer size intlen buf u args Hl Hfuel Hinv HM Ha.
  - rewrite app_nil_r in Hl. subst l. destruct fuel as [|fuel]; [destruct Hinv as (_ & _ & _ & ? & _); lia|].
    destruct (sender_end f fs _ u _ all HM Hreg Hc eq_refl) as (v' & u' & Hcb & _ & HM').
    cbn [integer_loop]. rewrite Ha, Hcb, some_bind. exists AEnd, buffer, intlen, buf, u'. split; [done|].
    pose proof Hinv as (_ & _ & _ & _ & ? & _). split; [done|]. left. split; [done|]. split; [by exists size|done].
  - destruct fuel as [|fuel]; [destruct Hinv as (_ & _ & _ & ? & _); lia|].
    assert (Hx : zget all (zlen l + 1 - 1) = Some x) by (rewrite Z.add_simpl_r, Hl; apply zget_middle).
    assert (Hxo : is_obj x = false).
    { rewrite Hl in Hall. apply Forall_app in Hall as [_ [Hwx _]%Forall_cons]. by destruct x; [| |destruct Hwx as [[|] _]]. }
    pose proof (zlen_nonneg l). pose proof (sender_item f fs _ u _ all x HM ltac:(lia) Hreg Hc Hx) as Hg.
    destruct (integer_round cb room f header S buf0 Hh HS fuel (zlen l + 1) l x _ buffer size intlen buf u args Hinv eq_refl Hxo (Ha _) Hg)
      as [(b' & w' & buf' & u' & He & Hk & Hlt)|(b' & s' & w' & buf' & u' & He & Hs & HM' & Hinv')].
    + rewrite He. do 5 eexists. split; [done|]. split; [done|]. right. split; [done|]. rewrite Hl, zlen_app, zlen_cons.
      pose proof (zlen_nonneg l2). lia.
    + rewrite He. assert (Hsn : zlen (l ++ [x]) = zlen l + 1) by (rewrite zlen_app; done).
      rewrite <- Hsn. apply (IH (l ++ [x]) fuel b' s' w' buf' u'); try done; [by rewrite <- app_assoc|lia|by rewrite Hsn].
Qed.

Lemma encode_integer_array_spec f fs all buf buffer size u : 0 <= buffer -> 0 <= size -> buffer + size = zlen buf ->
  elem_type f = SPROTO_TINTEGER -> content f = FMany all -> Forall (wf_item SPROTO_TINTEGER) all -> M (f :: fs) 1 u ->
  exists e p buf' u', encode_integer_array cb (arg_of f) buf buffer size u = Some (e, p, buf', u') /\ keeps buffer buf buf' /\
    ((e = AEnd /\ p = buffer + zlen (payload SPROTO_TINTEGER all) /\ p <= zlen buf /\
      holds buf' buffer (payload SPROTO_TINTEGER all) /\ M fs 1 u') \/
     (e = AFail /\ size < 1 + 8 * zlen all)).
Proof.
  intros Hb Hs Hl Ht Hc Hall HM. unfold encode_integer_array. pose proof (zlen_nonneg all).
  destruct (Z.ltb_spec size 1).
  { do 4 eexists. split; [done|]. split; [apply keeps_refl|]. right. split; [done|]. lia. }
  destruct (integer_loop_spec f fs all buffer (size - 1) buf Hb ltac:(lia) Ht Hc Hall all [] (S (Z.to_nat size)) (buffer + 1) (size - 1) 4 buf u (arg_of f))
    as (e & p & w & buf' & u' & He & Hk & Hr); try done; try lia.
  { unfold int_inv. change (zlen (@nil item)) with 0. split_and!; try done; try lia.
    intros i x Hi%zget_in. change (zlen (@nil item)) with 0 in Hi. lia. }
  change (zlen (@nil item) + 1) with 1 in He. unfold SIZEOF_INT32. rewrite He, some_bind. cbv beta iota.
  destruct Hr as [(-> & (size' & Hw & Hp & Hsz & Hs0 & _ & Hit) & HM')|(-> & Hlt)].
  2: { do 4 eexists. split; [done|]. split; [eapply keeps_weaken; [done|lia]|]. right. split; [done|]. lia. }
  destruct all as [|x all'] eqn:Hall'.
  { rewrite zlen_nil, Z.mul_0_r, Z.add_0_r in Hp. subst p. rewrite Z.eqb_refl. do 4 eexists. split; [done|].
    split; [eapply keeps_weaken; [done|lia]|]. left. change (payload SPROTO_TINTEGER []) with (@nil Z). rewrite zlen_nil.
    split_and!; try done; try lia. by apply holds_nil. }
  rewrite <- Hall' in *. assert (0 < zlen all) by (rewrite Hall', zlen_cons; pose proof (zlen_nonneg all'); lia).
  assert (Hpay : payload SPROTO_TINTEGER all = Z.of_nat (int_width all) :: ints_data (int_width all) all) by (rewrite Hall'; done).
  assert (4 <= w <= 8) by (destruct (int_width_cases all); lia).
  destruct (Z.eqb_spec p (buffer + 1)); [nia|].
  destruct Hk as [Hz Hk]. destruct (store_spec buf' buffer [u8 w]) as (buf2 & Hst & Hz2 & Hh2 & Hk2); [done|change (zlen [u8 w]) with 1; lia|].
  rewrite Hst, some_bind. change (zlen [u8 w]) with 1 in Hk2. do 4 eexists. split; [done|]. split.
  - split; [congruence|]. intros k Hkb. rewrite Hk2 by lia. apply Hk. lia.
  - left. rewrite Hpay. split; [done|]. split; [rewrite zlen_cons, zlen_ints_data; nia|]. split; [nia|]. split; [|done].
    change (?a :: ?b) with ([a] ++ b). apply holds_app. split.
    + unfold u8 in Hh2. rewrite wrap_small in Hh2 by (unfold is_u; lia). by rewrite <- Hw.
    + change (zlen [Z.of_nat (int_width all)]) with 1. eapply holds_frame; [apply items_hold_data; [done|lia]|].
      intros. apply Hk2. lia.
Qed.

Definition bools_data (l : list item) : list Z := int_of <$> l.
Definition objs_data (l : list item) : list Z := flat_map (fun x => obj_data (bytes_of x)) l.

Lemma zlen_objs_data_snoc l x : zlen (objs_data (l ++ [x])) = zlen (objs_data l) + (4 + zlen (bytes_of x)).
Proof. unfold objs_data. rewrite flat_map_app, zlen_app. cbn [flat_map]. rewrite app_nil_r. unfold obj_data. by rewrite zlen_app, zlen_le_word. Qed.

(** The state of the other two loops: [done l] is written from [b0] on. *)
Definition loop_inv (b0 S : Z) (buf0 : cells) (bytes : list Z) (buffer size : Z) (buf : cells) : Prop :=
  buffer = b0 + zlen bytes /\ size = S - zlen bytes /\ 0 <= size /\ keeps b0 buf0 buf /\ holds buf b0 bytes.

Lemma loop_inv_app b0 S buf0 bytes buffer size buf more buf' : loop_inv b0 S buf0 bytes buffer size buf -> 0 <= b0 ->
  zlen more <= size -> zlen buf' = zlen buf -> (forall k, k < buffer -> zget buf' k = zget buf k) -> holds buf' buffer more ->
  loop_inv b0 S buf0 (bytes ++ more) (buffer + zlen more) (size - zlen more) buf'.
Proof.
  intros (Hb & Hs & H0 & [Hz Hk] & Hh) Hb0 Hm Hz' Hk' Hh'. unfold loop_inv. rewrite zlen_app. pose proof (zlen_nonneg bytes).
  split_and!; try lia.
  - split; [congruence|]. intros. rewrite Hk' by lia. apply Hk. lia.
  - apply holds_app. split; [|by rewrite <- Hb]. eapply holds_frame; [done|]. intros. apply Hk'. lia.
Qed.

Lemma boolean_loop_spec f fs all b0 S buf0 : 0 <= b0 -> b0 + S <= zlen buf0 -> elem_type f = SPROTO_TBOOLEAN -> is_array f = true ->
  content f = FMany all -> Forall (wf_item SPROTO_TBOOLEAN) all ->
  forall l2 l fuel buffer size buf u, all = l ++ l2 -> size < Z.of_nat fuel ->
  loop_inv b0 S buf0 (bools_data l) buffer size buf -> M (f :: fs) (zlen l + 1) u ->
  exists e p buf' u', boolean_loop cb fuel (set_index (zlen l + 1) (arg_of f)) buffer size buf u = Some (e, p, buf', u') /\
    keeps b0 buf0 buf' /\
    ((e = AEnd /\ (exists size', loop_inv b0 S buf0 (bools_data all) p size' buf') /\ M fs 1 u') \/ (e = AFail /\ S < zlen all)).
Proof.
  intros Hb0 HS Ht Har Hc Hall l2.
  assert (Hreg : region_ok f (Some <$> [0; 0; 0; 0])) by (unfold region_ok; by rewrite Ht, Har).
  induction l2 as [|x l2 IH]; intros l fuel buffer size buf u Hl Hfuel Hinv HM; pose proof Hinv as (Hb & Hs & Hs0 & Hk & Hh);
    (destruct fuel as [|fuel]; [lia|]).
  - rewrite app_nil_r in Hl. subst l.
    destruct (sender_end f fs _ u _ all HM Hreg Hc eq_refl) as (v' & u' & Hcb & _ & HM').
    cbn [boolean_loop]. rewrite Hcb, some_bind. exists AEnd, buffer, buf, u'. split; [done|]. split; [done|].
    left. split; [done|]. split; [by exists size|done].
  - assert (Hx : zget all (zlen l + 1 - 1) = Some x) by (rewrite Z.add_simpl_r, Hl; apply zget_middle).
    assert (Hwx : wf_item SPROTO_TBOOLEAN x) by (rewrite Hl in Hall; by apply Forall_app in Hall as [_ [? _]%Forall_cons]).
    destruct x as [v|b|o]; [by destruct Hwx| |by destruct Hwx as [[|] _]].
    pose proof (zlen_nonneg l). assert (Hlen : zlen (bools_data l) = zlen l) by apply zlen_fmap.
    destruct (sender_item f fs _ u _ all (IBool b) HM ltac:(lia) Hreg Hc Hx)
      as (r & v' & u' & Hcb & Hvl & [(Hr & _ & Htk & HM')|(_ & ? & _)]); [|done].
    cbn [cb_bytes] in Hr, Htk. rewrite zlen_le_bytes in Hr. change (Z.of_nat 4) with 4 in Hr. subst r.
    cbn [boolean_loop]. rewrite Hcb, some_bind. change (4 <? 0) with false. cbv iota beta.
    destruct (Z.ltb_spec size 1).
    { do 4 eexists. split; [done|]. split; [done|]. right. split; [done|]. rewrite Hl, zlen_app, zlen_cons. pose proof (zlen_nonneg l2). lia. }
    assert (Huv : union_value 4 v' = Some (le_value (le_bytes 4 (b2i b)))) by (apply (union_value_spec v' (le_bytes 4 (b2i b))), Htk).
    rewrite Huv, some_bind. assert (Hb2 : b2i (negb (le_value (le_bytes 4 (b2i b)) =? 0)) = b2i b) by (by destruct b). rewrite Hb2.
    destruct Hk as [Hz Hk]. destruct (store_spec buf buffer [b2i b]) as (buf1 & Hst & Hz1 & Hh1 & Hk1); [lia|change (zlen [b2i b]) with 1; lia|].
    rewrite Hst, some_bind. change (set_index (a_index (set_index (zlen l + 1) (arg_of f)) + 1) (set_index (zlen l + 1) (arg_of f)))
      with (set_index (zlen l + 1 + 1) (arg_of f)).
    assert (Hsn : zlen (l ++ [IBool b]) = zlen l + 1) by (rewrite zlen_app; done).
    pose proof (loop_inv_app _ _ _ _ _ _ _ [b2i b] buf1 Hinv Hb0 ltac:(change (zlen [b2i b]) with 1; lia) Hz1
      ltac:(intros; apply Hk1; lia) Hh1) as Hinv'. change (zlen [b2i b]) with 1 in Hinv'.
    rewrite <- Hsn. apply (IH (l ++ [IBool b])); [by rewrite <- app_assoc|lia| |by rewrite Hsn].
    unfold bools_data. rewrite fmap_app. exact Hinv'.
Qed.

Lemma needs_app f l1 l2 : needs f (l1 ++ l2) = needs f l1 + needs f l2 - 8.
Proof. unfold needs. induction l1 as [|x l1 IH]; cbn [foldr app]; lia. Qed.

Lemma needs_objs f l : zlen (objs_data l) + 8 <= needs f l.
Proof.
  unfold objs_data, needs. induction l as [|x l IH]; [done|]. cbn [flat_map foldr].
  rewrite zlen_app, zlen_obj_data.
  assert (zlen (bytes_of x) <= room_for room f x) by (destruct x; cbn [bytes_of room_for]; rewrite ?zlen_nil; lia). lia.
Qed.

Lemma object_loop_spec f fs all b0 S buf0 : 0 <= b0 -> b0 + S = zlen buf0 -> elem_type f <> SPROTO_TINTEGER -> elem_type f <> SPROTO_TBOOLEAN ->
  content f = FMany all -> Forall (fun x => is_obj x = true) all ->
  forall l2 l fuel buffer size buf u, all = l ++ l2 -> size < Z.of_nat fuel ->
  loop_inv b0 S buf0 (objs_data l) buffer size buf -> M (f :: fs) (zlen l + 1) u ->
  exists e p buf' u', object_loop cb fuel (set_index (zlen l + 1) (arg_of f)) buffer size buf u = Some (e, p, buf', u') /\
    keeps b0 buf0 buf' /\
    ((e = AEnd /\ (exists size', loop_inv b0 S buf0 (objs_data all) p size' buf') /\ M fs 1 u') \/ (e = AFail /\ S + 4 < needs f all)).
Proof.
  intros Hb0 HS Ht1 Ht2 Hc Hall l2.
  assert (Hreg : forall v, region_ok f v) by (intros v; unfold region_ok; destruct (Z.eqb_spec (elem_type f) SPROTO_TINTEGER), (Z.eqb_spec (elem_type f) SPROTO_TBOOLEAN); done).
  induction l2 as [|x l2 IH]; intros l fuel buffer size buf u Hl Hfuel Hinv HM; pose proof Hinv as (Hb & Hs & Hs0 & [Hz Hk] & Hh);
    (destruct fuel as [|fuel]; [lia|]); cbn [object_loop]; unfold SIZEOF_LENGTH; pose proof (zlen_nonneg (objs_data l)); pose proof (needs_objs f l).
  - destruct (Z.ltb_spec size 4).
    { do 4 eexists. split; [done|]. split; [done|]. right. split; [done|]. rewrite app_nil_r in Hl. subst l. lia. }
    rewrite app_nil_r in Hl. subst l.
    destruct (call_on_spec cb (set_index (zlen all + 1) (arg_of f)) buf (buffer + 4) (size - 4) u) as (v & Hv & Hcall); [lia|lia|lia|].
    destruct (sender_end f fs _ u v all HM (Hreg v) Hc eq_refl) as (v' & u' & Hcb & Hvl & HM'). rewrite Hv in Hvl.
    destruct (Hcall _ _ _ Hcb Hvl) as (buf1 & Hco & [Hz1 Hk1] & _). rewrite Hco, some_bind. cbv beta iota.
    exists AEnd, buffer, buf1, u'. split; [done|]. split; [split; [congruence|]; intros; rewrite Hk1 by lia; apply Hk; lia|].
    left. split; [done|]. split; [|done]. exists size. split_and!; try done; [split; [congruence|]; intros; rewrite Hk1 by lia; apply Hk; lia|].
    eapply holds_frame; [done|]. intros. apply Hk1. lia.
  - assert (Hneeds : needs f all = needs f l + (8 + room_for room f x) + needs f l2 - 8) by (rewrite Hl, needs_app; cbn [needs foldr]; unfold needs; lia).
    pose proof (needs_ge f l2). pose proof (zlen_nonneg l2). pose proof (room_for_nonneg f x).
    destruct (Z.ltb_spec size 4).
    { do 4 eexists. split; [done|]. split; [done|]. right. split; [done|]. lia. }
    assert (Hx : zget all (zlen l + 1 - 1) = Some x) by (rewrite Z.add_simpl_r, Hl; apply zget_middle).
    assert (Hxo : is_obj x = true) by (rewrite Hl in Hall; by apply Forall_app in Hall as [_ [? _]%Forall_cons]).
    destruct x as [| |o]; [done|done|]. pose proof (zlen_nonneg l). pose proof (zlen_nonneg o).
    destruct (call_on_spec cb (set_index (zlen l + 1) (arg_of f)) buf (buffer + 4) (size - 4) u) as (v & Hv & Hcall); [lia|lia|lia|].
    destruct (sender_item f fs _ u v all (IObj o) HM ltac:(lia) (Hreg v) Hc Hx) as (r & v' & u' & Hcb & Hvl & Hr). rewrite Hv in *.
    destruct (Hcall _ _ _ Hcb Hvl) as (buf1 & Hco & [Hz1 Hk1] & Hh1). rewrite Hco, some_bind. cbv beta iota.
    destruct Hr as [(-> & Hle & Htk & HM')|(-> & _ & Hlt)].
    2: { exists AFail, buffer, buf1, u'. split; [done|]. split; [split; [congruence|]; intros; rewrite Hk1 by lia; apply Hk; lia|].
         right. split; [done|]. lia. }
    cbn [cb_bytes] in *. destruct (Z.ltb_spec (zlen o) 0); [lia|].
    destruct (fill_size_obj buf1 buffer o) as (buf2 & Hf & Hz2 & Hh2 & Hk2); [lia|lia| |].
    { apply Hh1; [|done]. rewrite <- Htk. f_equal. unfold zlen. lia. }
    rewrite Hf, some_bind. change (set_index (a_index (set_index (zlen l + 1) (arg_of f)) + 1) (set_index (zlen l + 1) (arg_of f)))
      with (set_index (zlen l + 1 + 1) (arg_of f)).
    assert (Hsn : zlen (l ++ [IObj o]) = zlen l + 1) by (rewrite zlen_app; done).
    assert (Hod : zlen (obj_data o) = 4 + zlen o) by (unfold obj_data; by rewrite zlen_app, zlen_le_word).
    assert (Hinv' : loop_inv b0 S buf0 (objs_data (l ++ [IObj o])) (buffer + 4 + zlen o) (size - 4 - zlen o) buf2).
    { replace (buffer + 4 + zlen o) with (buffer + zlen (obj_data o)) by lia. replace (size - 4 - zlen o) with (size - zlen (obj_data o)) by lia.
      unfold objs_data. rewrite flat_map_app. cbn [flat_map bytes_of]. rewrite app_nil_r.
      apply (loop_inv_app _ _ _ _ _ _ _ _ _ Hinv); [done|lia|congruence| |done]. intros. rewrite Hk2, Hk1 by lia. done. }
    rewrite <- Hsn. apply (IH (l ++ [IObj o])); [by rewrite <- app_assoc|lia|done|by rewrite Hsn].
Qed.

(** *** A field *)

Definition need (f : field) : Z :=
  match content f with FNone => 8 | FOne x => 12 + room_for room f x | FMany l => needs f l end.

Lemma needs_payload f all : Forall (wf_item (elem_type f)) all -> zlen (payload (elem_type f) all) + 4 <= needs f all.
Proof.
  intros Hall. pose proof (needs_ge f all). pose proof (zlen_nonneg all). unfold payload. destruct (_ =? _).
  - destruct all as [|x all'] eqn:Ha; [rewrite zlen_nil; lia|]. rewrite <- Ha in *. rewrite zlen_cons, zlen_ints_data.
    destruct (int_width_cases all) as [-> | ->]; lia.
  - destruct (_ =? _); [rewrite zlen_fmap; lia|]. pose proof (needs_objs f all). unfold objs_data in *. lia.
Qed.

Lemma array_loop_spec f fs all buf b0 S u : 0 <= b0 -> 0 <= S -> b0 + S = zlen buf -> is_array f = true -> 0 <= elem_type f <= 3 ->
  content f = FMany all -> Forall (wf_item (elem_type f)) all -> M (f :: fs) 1 u ->
  exists e p buf' u',
    (if elem_type f =? SPROTO_TINTEGER then encode_integer_array cb (arg_of f) buf b0 S u
     else if elem_type f =? SPROTO_TBOOLEAN then boolean_loop cb (Datatypes.S (Datatypes.S (Z.to_nat S))) (set_index 1 (arg_of f)) b0 S buf u
     else object_loop cb (Datatypes.S (Datatypes.S (Z.to_nat S))) (set_index 1 (arg_of f)) b0 S buf u) = Some (e, p, buf', u') /\
    keeps b0 buf buf' /\
    ((e = AEnd /\ p = b0 + zlen (payload (elem_type f) all) /\ p <= zlen buf /\ holds buf' b0 (payload (elem_type f) all) /\ M fs 1 u') \/
     (e = AFail /\ S + 4 < needs f all)).
Proof.
  intros Hb HS Hl Har Ht Hc Hall HM. pose proof (needs_ge f all). pose proof (zlen_nonneg all).
  assert (Hnil : loop_inv b0 S buf [] b0 S buf) by (unfold loop_inv; rewrite zlen_nil; split_and!; try lia; [apply keeps_refl|by apply holds_nil]).
  destruct (Z.eqb_spec (elem_type f) SPROTO_TINTEGER) as [Hti|Hti].
  { rewrite Hti in *. destruct (encode_integer_array_spec f fs all buf b0 S u Hb HS Hl Hti Hc Hall HM) as (e & p & buf' & u' & He & Hk & Hr).
    exists e, p, buf', u'. split; [done|]. split; [done|]. destruct Hr as [?|[? ?]]; [by left|right]. split; [done|]. lia. }
  unfold payload. destruct (Z.eqb_spec (elem_type f) SPROTO_TINTEGER); [done|].
  destruct (Z.eqb_spec (elem_type f) SPROTO_TBOOLEAN) as [Htb|Htb].
  - rewrite Htb in Hall.
    destruct (boolean_loop_spec f fs all b0 S buf Hb ltac:(lia) Htb Har Hc Hall all [] (Datatypes.S (Datatypes.S (Z.to_nat S))) b0 S buf u)
      as (e & p & buf' & u' & He & Hk & Hr); try done; try lia.
    exists e, p, buf', u'. split; [done|]. split; [done|].
    destruct Hr as [(-> & (s' & Hp & Hs & Hs0 & Hk' & Hh) & HM')|[-> ?]]; [left|right; split; [done|]; lia].
    split_and!; try done; lia.
  - assert (Hobj : Forall (fun x => is_obj x = true) all).
    { eapply Forall_impl; [exact Hall|]. intros [v|b|o]; cbn; [intros [? _]; done|done|done]. }
    destruct (object_loop_spec f fs all b0 S buf Hb Hl Hti Htb Hc Hobj all [] (Datatypes.S (Datatypes.S (Z.to_nat S))) b0 S buf u)
      as (e & p & buf' & u' & He & Hk & Hr); try done; try lia.
    exists e, p, buf', u'. split; [done|]. split; [done|].
    destruct Hr as [(-> & (s' & Hp & Hs & Hs0 & Hk' & Hh) & HM')|[-> ?]]; [left|right; split; [done|]; lia].
    split_and!; try done; lia.
Qed.

Lemma encode_array_items f fs all buf data size u : 0 <= data -> 0 <= size -> data + size = zlen buf -> is_array f = true ->
  0 <= elem_type f <= 3 -> content f = FMany all -> Forall (wf_item (elem_type f)) all -> M (f :: fs) 1 u ->
  exists sz buf' u', encode_array cb (arg_of f) buf data size u = Some (sz, buf', u') /\ keeps data buf buf' /\
    ((sz = zlen (obj_data (payload (elem_type f) all)) /\ sz <= size /\ holds buf' data (obj_data (payload (elem_type f) all)) /\ M fs 1 u') \/
     (sz = -1 /\ size < needs f all)).
Proof.
  intros Hd Hs Hl Har Ht Hc Hall HM. unfold encode_array, SIZEOF_LENGTH. pose proof (needs_ge f all). pose proof (zlen_nonneg all).
  destruct (Z.ltb_spec size 4).
  { do 3 eexists. split; [done|]. split; [apply keeps_refl|]. right. lia. }
  destruct (array_loop_spec f fs all buf (data + 4) (size - 4) u) as (e & p & buf1 & u' & He & [Hz1 Hk1] & Hr); try done; try lia.
  change (a_type (arg_of f)) with (elem_type f). rewrite He, some_bind. cbv beta iota.
  destruct Hr as [(-> & -> & Hp & Hh & HM')|[-> ?]].
  - replace (data + 4 + zlen (payload (elem_type f) all) - (data + 4)) with (zlen (payload (elem_type f) all)) by lia.
    destruct (fill_size_obj buf1 data (payload (elem_type f) all)) as (buf2 & Hf & Hz2 & Hh2 & Hk2); [lia|lia|done|].
    rewrite Hf, some_bind. do 3 eexists. split; [done|]. split.
    + split; [congruence|]. intros. rewrite Hk2, Hk1 by lia. done.
    + left. split_and!; try done. rewrite zlen_obj_data. lia.
  - do 3 eexists. split; [done|]. split; [split; [done|]; intros; apply Hk1; lia|]. right. lia.
Qed.

Lemma encode_array_none f fs buf data size u : 0 <= data -> 0 <= size -> data + size = zlen buf -> is_array f = true ->
  content f = FNone -> M (f :: fs) 1 u ->
  exists sz buf' u', encode_array cb (arg_of f) buf data size u = Some (sz, buf', u') /\ keeps data buf buf' /\
    ((sz = 0 /\ M fs 1 u') \/ (sz = -1 /\ size < 8)).
Proof.
  intros Hd Hs Hl Har Hc HM. unfold encode_array, SIZEOF_LENGTH.
  destruct (Z.ltb_spec size 4).
  { do 3 eexists. split; [done|]. split; [apply keeps_refl|]. right. lia. }
  change (a_type (arg_of f)) with (elem_type f).
  pose proof (fun v => sender_none f fs u v HM) as Hn. unfold region_ok in Hn. rewrite Har in Hn.
  destruct (Z.eqb_spec (elem_type f) SPROTO_TINTEGER).
  - destruct (Hn (malloc 8) eq_refl Hc eq_refl) as (v' & u' & Hcb & _ & HM').
    unfold encode_integer_array. destruct (Z.ltb_spec (size - 4) 1).
    { rewrite some_bind. do 3 eexists. split; [done|]. split; [apply keeps_refl|]. right. lia. }
    cbn [integer_loop]. rewrite Hcb, !some_bind. change (SPROTO_CB_NOARRAY <=? 0) with true. cbv beta iota.
    change (SPROTO_CB_NOARRAY =? SPROTO_CB_NIL) with false. change (SPROTO_CB_NOARRAY =? SPROTO_CB_NOARRAY) with true. cbv beta iota.
    rewrite !some_bind. cbv beta iota. rewrite Z.eqb_refl, some_bind. do 3 eexists. split; [done|]. split; [apply keeps_refl|]. by left.
  - destruct (Z.eqb_spec (elem_type f) SPROTO_TBOOLEAN).
    + destruct (Hn (Some <$> [0; 0; 0; 0]) eq_refl Hc eq_refl) as (v' & u' & Hcb & _ & HM').
      cbn [boolean_loop]. rewrite Hcb, !some_bind. do 3 eexists. split; [done|]. split; [apply keeps_refl|]. by left.
    + cbn [object_loop]. unfold SIZEOF_LENGTH. destruct (Z.ltb_spec (size - 4) 4).
      { rewrite some_bind. do 3 eexists. split; [done|]. split; [apply keeps_refl|]. right. lia. }
      destruct (call_on_spec cb (set_index 1 (arg_of f)) buf (data + 4 + 4) (size - 4 - 4) u) as (v & Hv & Hcall); [lia|lia|lia|].
      destruct (Hn v I Hc eq_refl) as (v' & u' & Hcb & Hvl & HM'). rewrite Hv in Hvl.
      destruct (Hcall _ _ _ Hcb Hvl) as (buf1 & Hco & [Hz1 Hk1] & _). rewrite Hco, !some_bind.
      do 3 eexists. split; [done|]. split; [split; [done|]; intros; apply Hk1; lia|]. by left.
Qed.

(** What [encode_value] makes of a field: the slot and the data of its value. *)
Lemma encode_value_spec f fs buf data size u : 0 <= data -> 0 <= size -> size < 2 ^ 63 -> data + size = zlen buf -> wf_field f ->
  wf_fval f (content f) -> M (f :: fs) 1 u ->
  exists r buf' u', encode_value cb f buf data size u = Some (r, buf', u') /\ keeps data buf buf' /\
    ((match slot_of f (content f) with
      | None => r = FSkip \/ r = FSize 0 0
      | Some (value, d) => exists sz, r = FSize sz value /\ 0 < sz /\ (value = 0 -> sz = zlen d) /\ (value <> 0 -> d = []) /\
          0 <= value < 0x10000 /\ zlen d <= size /\ holds buf' data d /\ zlen d <= need f
      end /\ M fs 1 u') \/
     (exists value, r = FSize (-1) value) /\ size < need f).
Proof.
  intros Hd Hs Hs63 Hl Hf Hv HM. unfold encode_value. unfold need. destruct (field_types f Hf) as [(Har & Het & Ht)|(Har & Ht)]; rewrite Har.
  - pose proof (sender_law f fs 1 u) as Hlaw. rewrite Har in Hlaw. unfold region_ok in Hlaw. rewrite Har, Het in Hlaw.
    destruct (content f) as [|x|l] eqn:Hc; [| |by destruct Hv; congruence].
    + destruct (Z.eqb_spec (f_type f) SPROTO_TINTEGER) as [Hti|Hti]; [|destruct (Z.eqb_spec (f_type f) SPROTO_TBOOLEAN) as [Htb|Htb]]; cbn [orb].
      1,2: destruct (encode_scalar_ends cb (arg_of f) _ buf data size u (Hlaw _ HM ltac:(done) eq_refl)) as (u' & -> & HM');
        do 3 eexists; (split; [done|]); (split; [apply keeps_refl|]); left; (split; [by left|done]).
      assert ((f_type f =? SPROTO_TSTRUCT) || (f_type f =? SPROTO_TSTRING) = true) as -> by (unfold SPROTO_TSTRUCT, SPROTO_TSTRING, SPROTO_TINTEGER, SPROTO_TBOOLEAN in *; repeat zcase; done || lia).
      destruct (encode_object_ends cb (arg_of f) (M fs 1) buf data size u Hd Hs Hl) as (sz & buf' & u' & He & Hk & Hr); [by intros; apply Hlaw|].
      rewrite He, some_bind. do 3 eexists. split; [done|]. split; [done|]. destruct Hr as [[-> HM']|[-> ?]]; [left|right].
      * split; [by right|done].
      * split; [by exists 0|lia].
    + destruct Hv as [_ Hx]. pose proof (room_for_nonneg f x). destruct (is_obj x) eqn:Ho.
      * destruct x as [| |l]; [done|done|]. destruct Hx as [Hx _].
        assert ((f_type f =? SPROTO_TINTEGER) = false /\ (f_type f =? SPROTO_TBOOLEAN) = false /\ (f_type f =? SPROTO_TSTRUCT) || (f_type f =? SPROTO_TSTRING) = true)
          as (Hb1 & Hb2 & Hb3) by (destruct Hx as [-> | ->]; done).
        rewrite Hb1, Hb2, Hb3 in *. cbn [orb].
        destruct (encode_object_gives cb room f (arg_of f) l (M fs 1) buf data size u Hd Hs Hl) as (sz & buf' & u' & He & Hk & Hr); [by intros; apply Hlaw|].
        rewrite He, some_bind. do 3 eexists. split; [done|]. split; [done|]. cbn [slot_of]. destruct Hr as [(-> & Hle & Hh & HM')|[-> ?]]; [left|right].
        -- rewrite zlen_obj_data in *. pose proof (zlen_nonneg l). cbn [room_for]. split; [|done].
           eexists. split_and!; try done; lia.
        -- split; [by exists 0|lia].
      * assert (Hty : (f_type f =? SPROTO_TINTEGER) || (f_type f =? SPROTO_TBOOLEAN) = true /\ - 2 ^ 63 <= int_of x < 2 ^ 63).
        { destruct x as [v|b|]; [|cbn in Hx; subst|done]; [destruct Hx as [-> ?]; done|]. rewrite Hx. split; [done|]. cbn. destruct b; cbn; lia. }
        destruct Hty as [Hty Hrg]. rewrite Hty.
        destruct (encode_scalar_spec cb room f (arg_of f) x (M fs 1) buf data size u Ho Hd Hs Hs63 Hl) as (sz & value & d & buf' & u' & He & Hk & Hr); [|done|].
        { apply Hlaw; try done. apply orb_true_iff in Hty as [E|E]; rewrite E; [done|]. by destruct (_ =? _). }
        do 3 eexists. split; [exact He|]. split; [done|]. destruct Hr as [(Hsl & Hsz & Hz & Hnz & Hle & Hh & HM')|[-> ?]]; [left|right].
        -- rewrite Hsl. split; [|done]. exists sz. split; [done|]. split; [done|]. split; [done|]. split; [intros Hv0; apply (Hnz Hv0)|].
           split; [destruct (Z.eq_dec value 0); [lia|]; destruct (Hnz ltac:(done)); lia|]. split; [done|]. split; [done|].
           destruct (Z.eq_dec value 0) as [Hv0|Hv0]; [|destruct (Hnz Hv0) as [-> _]; rewrite zlen_nil; lia].
           clear -Hsl Hv0 Ho. subst value. destruct x as [v|b|]; [| |done]; cbn [slot_of] in Hsl;
             destruct (fits32 _); [destruct (_ <? _)| |destruct (_ <? _)|]; simplify_eq; rewrite ?zlen_obj_data, ?zlen_le_bytes, ?zlen_nil; cbn [room_for]; lia.
        -- split; [by exists value|lia].
  - destruct (content f) as [|x|l] eqn:Hc; [|by destruct Hv; congruence|].
    + destruct (encode_array_none f fs buf data size u Hd Hs Hl Har Hc HM) as (sz & buf' & u' & He & Hk & Hr). rewrite He, some_bind.
      do 3 eexists. split; [done|]. split; [done|]. destruct Hr as [[-> HM']|[-> ?]]; [left; split; [by right|done]|right; split; [by exists 0|lia]].
    + destruct Hv as [_ Hv]. destruct (encode_array_items f fs l buf data size u Hd Hs Hl Har Ht Hc Hv HM) as (sz & buf' & u' & He & Hk & Hr).
      rewrite He, some_bind. do 3 eexists. split; [done|]. split; [done|]. cbn [slot_of]. pose proof (needs_payload f l Hv).
      destruct Hr as [(-> & Hle & Hh & HM')|[-> ?]]; [left|right; split; [by exists 0|lia]].
      rewrite zlen_obj_data in *. pose proof (zlen_nonneg (payload (elem_type f) l)). split; [|done]. eexists. split_and!; try done; lia.
Qed.

(** *** The fields *)

Definition header_size (maxn : Z) : Z := 2 + 2 * maxn.

(** The state after fields that became the slots [sl] and the data [d]. *)
Record enc_inv (bufsz maxn : Z) (sl d : list Z) (last : Z) (e : @encode_state U) : Prop := {
  ei_len : zlen (e_buf e) = bufsz;
  ei_data : e_data e = header_size maxn + zlen d;
  ei_size : e_data e + e_size e = bufsz;
  ei_room : 0 <= e_size e;
  ei_index : e_index e = zlen sl;
  ei_slots : zlen sl <= maxn;
  ei_last : e_lasttag e = last;
  ei_header : holds (e_buf e) 2 (flat_map (le_bytes 2) sl);
  ei_bytes : holds (e_buf e) (header_size maxn) d }.

(** A slot in the header. *)
Lemma store_slot buf maxn sl d x : zlen sl < maxn -> header_size maxn + zlen d <= zlen buf ->
  holds buf 2 (flat_map (le_bytes 2) sl) -> holds buf (header_size maxn) d ->
  exists buf', store buf (SIZEOF_HEADER + SIZEOF_FIELD * zlen sl) (le_bytes 2 x) = Some buf' /\ zlen buf' = zlen buf /\
    holds buf' 2 (flat_map (le_bytes 2) (sl ++ [x])) /\ holds buf' (header_size maxn) d.
Proof.
  intros Hs Hl H1 H2. unfold header_size, SIZEOF_HEADER, SIZEOF_FIELD in *. pose proof (zlen_nonneg sl). pose proof (zlen_nonneg d).
  destruct (store_spec buf (2 + 2 * zlen sl) (le_bytes 2 x)) as (buf' & Hst & Hz & Hh & Hk); [lia|rewrite zlen_le_bytes; lia|].
  rewrite zlen_le_bytes in Hk. change (Z.of_nat 2) with 2 in Hk.
  exists buf'. split_and!; [done|done| |].
  - rewrite slots_app. apply holds_app. rewrite zlen_slots. split.
    + eapply holds_frame; [done|]. rewrite zlen_slots. intros. apply Hk. lia.
    + cbn [flat_map]. by rewrite app_nil_r.
  - eapply holds_frame; [done|]. intros. apply Hk. lia.
Qed.

Lemma encode_record_spec bufsz maxn sl d last e f sz value d' buf u :
  enc_inv bufsz maxn sl d last e -> wf_field f -> -1 <= last < f_tag f -> 0 < sz ->
  (value = 0 -> sz = zlen d') -> (value <> 0 -> d' = []) -> zlen d' <= e_size e ->
  keeps (e_data e) (e_buf e) buf -> holds buf (e_data e) d' ->
  zlen sl + zlen (gap_slots last (f_tag f)) + 1 <= maxn ->
  exists e', encode_record f sz value e buf u = Some (Some e') /\ e_ud e' = u /\ e_size e' = e_size e - zlen d' /\
    enc_inv bufsz maxn (sl ++ gap_slots last (f_tag f) ++ [value]) (d ++ d') (f_tag f) e'.
Proof.
  intros [Hlen Hdata Hsize Hroom Hidx Hslots Hlast Hhdr Hby] [_ Htag] Hl Hsz Hz0 Hz1 Hd' Hk Hh Hmax.
  unfold encode_record. destruct (Z.ltb_spec 0 sz); [|lia]. rewrite Hidx, Hlast. pose proof (zlen_nonneg d). pose proof (zlen_nonneg d'). pose proof (zlen_nonneg sl).
  assert (Hhs : header_size maxn = 2 + 2 * maxn) by done. pose proof Hk as [Hbl _].
  assert (Hdd : holds buf (header_size maxn) (d ++ d')) by (apply holds_app; split; [eapply holds_keeps; [done..|lia]|by rewrite <- Hdata]).
  assert (Hbh : holds buf 2 (flat_map (le_bytes 2) sl)) by (eapply holds_keeps; [done..|rewrite zlen_slots; lia]).
  assert (Hsize' : (if value =? 0 then e_data e + sz else e_data e) = header_size maxn + zlen (d ++ d') /\
     (if value =? 0 then e_size e - sz else e_size e) = e_size e - zlen d').
  { rewrite zlen_app. destruct (Z.eqb_spec value 0) as [Hv|Hv]; [rewrite (Hz0 Hv); lia|]. rewrite (Hz1 Hv), zlen_nil. lia. }
  destruct Hsize' as [-> ->]. assert (Hfit : header_size maxn + zlen (d ++ d') <= zlen buf) by (rewrite zlen_app; lia).
  unfold gap_slots in *. destruct (Z.ltb_spec 0 (f_tag f - last - 1)).
  - destruct (Z.ltb_spec 0xffff ((f_tag f - last - 1 - 1) * 2 + 1)); [lia|]. change (zlen [?x]) with 1 in Hmax.
    replace (f_tag f - last - 1 - 1) with (f_tag f - last - 2) by lia. set (g := (f_tag f - last - 2) * 2 + 1) in *.
    destruct (store_slot buf maxn sl (d ++ d') g) as (buf1 & Hs1 & Hz1' & Hh1 & Hd1); [lia|done..|].
    assert (Hsn : zlen (sl ++ [g]) = zlen sl + 1) by (rewrite zlen_app; done).
    destruct (store_slot buf1 maxn (sl ++ [g]) (d ++ d') value) as (buf2 & Hs2 & Hz2' & Hh2 & Hd2); [lia|lia|done..|].
    rewrite Hs1, some_bind. unfold SIZEOF_HEADER, SIZEOF_FIELD in *.
    replace (2 + 2 * zlen sl + 2) with (2 + 2 * zlen (sl ++ [g])) by lia. rewrite Hs2, some_bind.
    eexists. split; [done|]. split; [done|]. split; [done|]. rewrite <- app_assoc in Hh2.
    constructor; cbn [e_buf e_data e_size e_index e_lasttag]; rewrite ?zlen_app in *; try done; try lia.
    all: change (zlen [g]) with 1; change (zlen [value]) with 1; lia.
  - change (zlen (@nil Z)) with 0 in Hmax.
    destruct (store_slot buf maxn sl (d ++ d') value) as (buf1 & Hs1 & Hz1' & Hh1 & Hd1); [lia|done..|].
    rewrite Hs1, some_bind. eexists. split; [done|]. split; [done|]. split; [done|].
    constructor; cbn [e_buf e_data e_size e_index e_lasttag app]; rewrite ?zlen_app in *; try done; try lia.
    all: change (zlen [value]) with 1; lia.
Qed.

Definition all_needs (fs : list field) : Z := foldr (fun f a => need f + a) 0 fs.
Lemma need_nonneg f : 0 <= need f.
Proof.
  unfold need. destruct (content f) as [|x|l]; [lia| |].
  - pose proof (room_for_nonneg f x). lia.
  - pose proof (needs_ge f l). pose proof (zlen_nonneg l). lia.
Qed.
Lemma all_needs_nonneg fs : 0 <= all_needs fs.
Proof. induction fs as [|f fs IH]; [done|]. cbn [all_needs foldr]. pose proof (need_nonneg f). unfold all_needs in IH. lia. Qed.

(** The slots that are left are enough: a field that is left out saves the slot that
    the gap behind it may take. *)
Lemma encode_fields_spec bufsz maxn fs : bufsz < 2 ^ 63 -> Forall wf_field fs -> Forall (fun f => wf_fval f (content f)) fs ->
  forall sl d last prev e, enc_inv bufsz maxn sl d last e -> -1 <= last <= prev -> ascending prev fs ->
  zlen sl + max_slots prev fs + b2i (last <? prev) <= maxn -> M fs 1 (e_ud e) ->
  (exists e' last', encode_fields cb fs e = Some (inl e') /\
     enc_inv bufsz maxn (sl ++ slots_of content fs last) (d ++ data_of content fs) last' e' /\ M [] 1 (e_ud e')) \/
  (exists buf' u', encode_fields cb fs e = Some (inr (-1, buf', u')) /\ zlen buf' = bufsz /\ e_size e < all_needs fs).
Proof.
  intros H63. induction fs as [|f fs IH]; intros Hwf Hwv sl d last prev e Hinv Hlp Hasc Hmax HM.
  { left. exists e, last. cbn [slots_of data_of flat_map]. by rewrite !app_nil_r. }
  apply Forall_cons in Hwf as [Hf Hwf]. apply Forall_cons in Hwv as [Hv Hwv]. destruct Hasc as [Htag Hasc].
  cbn [max_slots] in Hmax. pose proof (zlen_gap prev (f_tag f)). pose proof (all_needs_nonneg fs). pose proof (need_nonneg f).
  pose proof Hinv as [Hlen Hdata Hsize Hroom Hidx Hslots Hlast Hhdr Hby]. pose proof (zlen_nonneg d). pose proof (zlen_nonneg sl).
  assert (Hhs : header_size maxn = 2 + 2 * maxn) by done.
  destruct (encode_value_spec f fs (e_buf e) (e_data e) (e_size e) (e_ud e)) as (r & buf' & u' & He & Hk & Hr); try done; try lia.
  cbn [encode_fields]. rewrite He, some_bind. cbv beta iota. unfold all_needs. cbn [foldr]. fold (all_needs fs).
  destruct Hr as [[Hr HM']|[[value ->] Hlt]].
  2: { right. change (-1 <? 0) with true. cbv iota. do 2 eexists. split; [done|]. destruct Hk as [-> _]. lia. }
  cbn [slots_of data_of flat_map]. fold (data_of content fs).
  destruct (slot_of f (content f)) as [[value d']|] eqn:Hslot.
  - destruct Hr as (sz & -> & Hsz & Hz0 & Hz1 & Hval & Hle & Hh & Hnd). destruct (Z.ltb_spec sz 0); [lia|].
    assert (Hg : zlen (gap_slots last (f_tag f)) <= zlen (gap_slots prev (f_tag f)) + b2i (last <? prev)).
    { destruct (Z.ltb_spec last prev); cbn [b2i]; [pose proof (zlen_gap last (f_tag f)); lia|]. assert (last = prev) as -> by lia. lia. }
    assert (0 <= max_slots (f_tag f) fs).
    { clear. generalize (f_tag f). induction fs as [|g fs IH]; intros p; cbn [max_slots]; [lia|]. pose proof (zlen_gap p (f_tag g)). specialize (IH (f_tag g)). lia. }
    destruct (encode_record_spec bufsz maxn sl d last e f sz value d' buf' u') as (e' & Her & Hud & Hes & Hinv'); try done; try lia.
    rewrite Her, some_bind.
    destruct (IH Hwf Hwv _ _ _ (f_tag f) e' Hinv') as [(e2 & l2 & Hfs & Hi2 & HM2)|(b2 & u2 & Hfs & Hb2 & Hlt)]; try done; try lia.
    + rewrite Z.ltb_irrefl. cbn [b2i]. rewrite !zlen_app. change (zlen [value]) with 1. lia.
    + by rewrite Hud.
    + left. exists e2, l2. split; [done|]. split; [|done]. by rewrite <- !app_assoc in Hi2.
    + right. exists b2, u2. split; [done|]. split; [done|]. lia.
  - cbn [app]. assert (Hinv' : enc_inv bufsz maxn sl d last
      {| e_buf := buf'; e_data := e_data e; e_size := e_size e; e_index := e_index e; e_lasttag := e_lasttag e; e_ud := u' |}).
    { destruct Hk as [Hkl Hk]. constructor; cbn; try done; try lia; (eapply holds_frame; [done|]); rewrite ?zlen_slots; intros; apply Hk; lia. }
    assert (Hb : (last <? f_tag f) = true) by (by apply Z.ltb_lt; lia).
    destruct (IH Hwf Hwv _ _ _ (f_tag f) _ Hinv') as [(e2 & l2 & Hfs & Hi2 & HM2)|(b2 & u2 & Hfs & Hb2 & Hlt)]; try done; try lia.
    + rewrite Hb. assert (0 <= b2i (last <? prev)) by (by destruct (last <? prev)). cbn [b2i]. lia.
    + left. exists e2, l2. split; [|done]. destruct Hr as [-> | ->]; [done|]. change (0 <? 0) with false. cbv iota. unfold encode_record. change (0 <? 0) with false. cbv iota. by rewrite some_bind.
    + right. exists b2, u2. split; [|split; [done|cbn in Hlt; lia]]. destruct Hr as [-> | ->]; [done|]. change (0 <? 0) with false. cbv iota. unfold encode_record. change (0 <? 0) with false. cbv iota. by rewrite some_bind.
Qed.

Lemma encode_end_spec st bufsz sl d last e : t_maxn st < 0x10000 -> enc_inv bufsz (t_maxn st) sl d last e ->
  let bytes := le_bytes 2 (zlen sl) ++ flat_map (le_bytes 2) sl ++ d in
  exists buf', encode_end st e = Some (zlen bytes, buf', e_ud e) /\ zlen buf' = bufsz /\ zlen bytes <= bufsz /\ holds buf' 0 bytes.
Proof.
  intros Hm [Hlen Hdata Hsize Hroom Hidx Hslots Hlast Hhdr Hby] bytes. unfold encode_end, SIZEOF_HEADER, SIZEOF_FIELD.
  unfold header_size in *. pose proof (zlen_nonneg sl). pose proof (zlen_nonneg d).
  assert (Hbl : zlen bytes = 2 + 2 * zlen sl + zlen d) by (unfold bytes; rewrite !zlen_app, zlen_slots, zlen_le_bytes; lia).
  destruct (store_spec (e_buf e) 0 (le_bytes 2 (e_index e))) as (buf1 & Hs & Hz1 & Hh1 & Hk1); [lia|rewrite zlen_le_bytes; lia|].
  rewrite zlen_le_bytes in Hk1. rewrite Hs, some_bind, Hidx in *.
  replace (e_data e - (2 + t_maxn st * 2)) with (zlen d) by lia. replace (2 + zlen sl * 2 + zlen d) with (zlen bytes) by lia.
  assert (Hs1 : holds buf1 2 (flat_map (le_bytes 2) sl)) by (eapply holds_frame; [done|]; rewrite zlen_slots; intros; apply Hk1; lia).
  assert (Hd1 : holds buf1 (2 + 2 * t_maxn st) d) by (eapply holds_frame; [done|]; intros; apply Hk1; lia).
  assert (Hjoin : forall b, holds b 0 (le_bytes 2 (zlen sl)) -> holds b 2 (flat_map (le_bytes 2) sl) -> holds b (2 + 2 * zlen sl) d -> holds b 0 bytes).
  { intros b H1 H2 H3. unfold bytes. apply holds_app. split; [done|]. rewrite zlen_le_bytes. apply holds_app. split; [done|].
    rewrite zlen_slots. by replace (0 + Z.of_nat 2 + 2 * zlen sl) with (2 + 2 * zlen sl) by lia. }
  destruct (Z.eqb_spec (zlen sl) (t_maxn st)) as [He|He]; cbn [negb].
  - exists buf1. rewrite some_bind. split; [done|]. split; [lia|]. split; [lia|]. apply Hjoin; [done|done|by rewrite He].
  - destruct (cread_spec buf1 (2 + t_maxn st * 2) (zlen d)) as (v & Hr & Hvl & Hv); [lia|lia|lia|]. rewrite Hr, some_bind.
    destruct (memcpy_spec buf1 (2 + zlen sl * 2) v (zlen d)) as (buf2 & Hm2 & Hz2 & Hk2 & Hin2); [lia|lia|lia|done|]. rewrite Hm2, some_bind.
    exists buf2. split; [done|]. split; [lia|]. split; [lia|]. apply Hjoin.
    + eapply holds_frame; [done|]. rewrite zlen_le_bytes. intros. apply Hk2. lia.
    + eapply holds_frame; [done|]. rewrite zlen_slots. intros. apply Hk2. lia.
    + split; [lia|]. intros i x Hx. pose proof (zget_in _ _ _ Hx). replace (2 + 2 * zlen sl + i) with (2 + zlen sl * 2 + i) by lia.
      rewrite Hin2, Hv by lia. destruct Hd1 as [_ Hd1]. rewrite <- (Hd1 i x Hx). f_equal. lia.
Qed.

Lemma sproto_encode_spec st buf u : wf_type st -> zlen buf < 2 ^ 63 -> Forall (fun f => wf_fval f (content f)) (t_f st) -> M (t_f st) 1 u ->
  exists r buf' u', sproto_encode cb st buf u = Some (r, buf', u') /\ zlen buf' = zlen buf /\
    ((r = zlen (message content (t_f st)) /\ r <= zlen buf /\ take (Z.to_nat r) buf' = Some <$> message content (t_f st) /\ M [] 1 u') \/
     (r = -1 /\ zlen buf < header_size (t_maxn st) + all_needs (t_f st))).
Proof.
  intros [Hn Hf Hasc Hmax Hbase] H63 Hv HM. unfold sproto_encode, SIZEOF_HEADER, SIZEOF_FIELD.
  pose proof (all_needs_nonneg (t_f st)). destruct (Z.ltb_spec (zlen buf) (2 + t_maxn st * 2)) as [Hlt|Hge].
  { do 3 eexists. split; [done|]. split; [done|]. right. unfold header_size. lia. }
  rewrite Hn, Z.leb_refl, some_bind. replace (Z.to_nat (zlen (t_f st))) with (length (t_f st)) by (unfold zlen; lia). rewrite firstn_all.
  assert (0 <= max_slots (-1) (t_f st)).
  { clear. generalize (-1). induction (t_f st) as [|g fs IH]; intros p; cbn [max_slots]; [lia|]. pose proof (zlen_gap p (f_tag g)). specialize (IH (f_tag g)). lia. }
  set (e0 := {| e_buf := buf |}).
  assert (Hinv : enc_inv (zlen buf) (t_maxn st) [] [] (-1) e0).
  { unfold header_size. constructor; cbn; rewrite ?zlen_nil; unfold header_size; try done; try lia; [by apply holds_nil|apply holds_nil; lia]. }
  destruct (encode_fields_spec (zlen buf) (t_maxn st) (t_f st) H63 Hf Hv [] [] (-1) (-1) e0 Hinv) as [(e' & last' & He & Hinv' & HM')|(b & u' & He & Hb & Hlt)]; try done; try lia.
  - rewrite zlen_nil. cbn [b2i Z.ltb]. change (b2i (-1 <? -1)) with 0. lia.
  - rewrite He, some_bind. cbv beta iota. destruct (encode_end_spec st _ _ _ _ e' ltac:(lia) Hinv') as (buf' & Hend & Hz & Hle & Hh).
    cbn [app] in *. rewrite Hend. do 3 eexists. split; [done|]. split; [done|]. left. split; [done|]. split; [done|]. split; [|done].
    fold (message content (t_f st)) in *. pose proof (holds_take buf' 0 _ Hh ltac:(lia)) as Ht. cbn [drop] in Ht.
    rewrite <- Ht. f_equal. unfold zlen. lia.
  - rewrite He, some_bind. do 3 eexists. split; [done|]. split; [done|]. right. split; [done|]. cbn [e_size e0] in Hlt. unfold header_size. lia.
Qed.
End fields.
