(* ===== verification/SprotoDecode.v ===== *)
(** [sproto_decode] on the bytes of a message hands over its values, and reads nothing
    out of bounds on others.

    The calls that a message asks for are [calls_of]; decoding it makes them in order, up
    to the first one on a string or a struct that fails. *)

From S2P Require Import Prelude Bytes CString Sproto SprotoMessage.
Local Open Scope Z_scope.
Local Open Scope word_scope.

(** ** Finding a field *)

Lemma ascending_above fs : forall last k g, ascending last fs -> zget fs k = Some g -> last < f_tag g.
Proof.
  induction fs as [|a fs IH]; intros last k g Ha Hk; [by apply zget_in in Hk; zlen_lia|]. destruct Ha as [Hp Ha].
  pose proof (zget_in _ _ _ Hk). destruct (Z.eq_dec k 0) as [->|]; [by injection Hk as <-|].
  rewrite (zget_app_r [a] fs) in Hk by (zlen_lia). specialize (IH _ _ _ Ha Hk). lia.
Qed.

Lemma ascending_lt last fs i j f g : ascending last fs -> zget fs i = Some f -> zget fs j = Some g -> i < j -> f_tag f < f_tag g.
Proof.
  revert last i j. induction fs as [|h fs IH]; intros last i j Hasc Hi Hj Hij; [by apply zget_in in Hi; zlen_lia|].
  destruct Hasc as [_ Hasc]. pose proof (zget_in _ _ _ Hi). pose proof (zget_in _ _ _ Hj). autorewrite with zlen in *.
  rewrite (zget_app_r [h] fs) in Hj by (zlen_lia).
  destruct (Z.eq_dec i 0) as [->|]; [injection Hi as ->; by eapply ascending_above|].
  rewrite (zget_app_r [h] fs) in Hi by (zlen_lia). eapply IH; [done..|lia].
Qed.

(** Binary search in a list with ascending keys. *)
Definition sorted_by {A} (key : A -> Z) (l : list A) : Prop :=
  forall i j x y, zget l i = Some x -> zget l j = Some y -> i < j -> key x < key y.

Lemma tag_search_spec {A} (key : A -> Z) l tag : sorted_by key l -> forall fuel b e, 0 <= b <= e -> e <= zlen l -> e - b < Z.of_nat fuel ->
  exists r, search key fuel l tag b e = Some r /\
    match r with
    | Some x => key x = tag /\ exists i, b <= i < e /\ zget l i = Some x
    | None => forall i x, b <= i < e -> zget l i = Some x -> key x <> tag
    end.
Proof.
  intros Hs. induction fuel as [|fuel IH]; intros b e Hb He Hf; cbn [search].
  { lia. }
  destruct (Z.ltb_spec b e); [|exists None; split; [done|]; intros; lia].
  set (mid := (b + e) / 2). assert (b <= mid < e) by (unfold mid; div_lia).
  destruct (zget_is_Some l mid) as [x Hx]; [lia|]. rewrite Hx, some_bind.
  destruct (Z.eqb_spec (key x) tag) as [Hk|Hk].
  { exists (Some x). split; [done|]. split; [done|]. by exists mid. }
  destruct (Z.ltb_spec (key x) tag).
  - destruct (IH (mid + 1) e) as (r & Hr & Hm); [lia..|]. exists r. split; [done|]. destruct r as [y|].
    + destruct Hm as (? & i & ? & ?). split; [done|]. exists i. split; [lia|done].
    + intros i y Hi Hy. destruct (Z.lt_total i mid) as [?|[->|?]]; [|congruence|apply (Hm i); [lia|done]].
      pose proof (Hs i mid y x Hy Hx ltac:(done)). lia.
  - destruct (IH b mid) as (r & Hr & Hm); [lia..|]. exists r. split; [done|]. destruct r as [y|].
    + destruct Hm as (? & i & ? & ?). split; [done|]. exists i. split; [lia|done].
    + intros i y Hi Hy. destruct (Z.lt_total i mid) as [?|[->|?]]; [apply (Hm i); [lia|done]|congruence|].
      pose proof (Hs mid i x y Hx Hy ltac:(done)). lia.
Qed.

Lemma wf_sorted st : wf_type st -> sorted_by f_tag (t_f st).
Proof. intros Hwf i j x y Hx Hy Hij. by eapply ascending_lt; [apply wt_ascending|..]. Qed.

Lemma findtag_spec st tag : wf_type st ->
  exists r, findtag st tag = Some r /\
    match r with
    | Some f => f ∈ t_f st /\ f_tag f = tag
    | None => forall f, f ∈ t_f st -> f_tag f <> tag
    end.
Proof.
  intros Hwf. pose proof (wf_sorted st Hwf) as Hs. destruct Hwf as [Hn _ _ _ Hbase].
  assert (Hin : forall f, f ∈ t_f st -> exists i, zget (t_f st) i = Some f).
  { intros f [n Hf]%list_elem_of_lookup. exists (Z.of_nat n). by rewrite zget_nat. }
  assert (Hof : forall i f, zget (t_f st) i = Some f -> f ∈ t_f st).
  { intros i f Hi. pose proof (zget_in _ _ _ Hi). rewrite zget_nonneg in Hi by lia. by eapply list_elem_of_lookup_2. }
  unfold findtag. destruct (Z.leb_spec 0 (t_base st)) as [Hb|Hb].
  - specialize (Hbase Hb). destruct (Z.ltb_spec (tag - t_base st) 0) as [|H0]; cbn [orb].
    { exists None. split; [done|]. intros f (i & Hi)%Hin. pose proof (zget_in _ _ _ Hi). rewrite (Hbase _ _ Hi). lia. }
    rewrite Hn. destruct (Z.leb_spec (zlen (t_f st)) (tag - t_base st)).
    { exists None. split; [done|]. intros f (i & Hi)%Hin. pose proof (zget_in _ _ _ Hi). rewrite (Hbase _ _ Hi). lia. }
    destruct (zget_is_Some (t_f st) (tag - t_base st)) as [f Hf]; [lia|]. rewrite Hf, some_bind. exists (Some f). split; [done|].
    split; [by eapply Hof|]. rewrite (Hbase _ _ Hf). lia.
  - rewrite Hn. pose proof (zlen_nonneg (t_f st)).
    destruct (tag_search_spec f_tag (t_f st) tag Hs (S (Z.to_nat (zlen (t_f st)))) 0 (zlen (t_f st))) as (r & Hr & Hm); [lia..|].
    exists r. split; [done|]. destruct r as [f|].
    + destruct Hm as (? & i & _ & Hi). split; [by eapply Hof|done].
    + intros f (i & Hi)%Hin. apply (Hm i f); [by eapply zget_in|done].
Qed.

Lemma findtag_field st f : wf_type st -> f ∈ t_f st -> findtag st (f_tag f) = Some (Some f).
Proof.
  intros Hwf Hf. destruct (findtag_spec st (f_tag f) Hwf) as (r & -> & Hr). destruct r as [g|]; [|by destruct (Hr f Hf)].
  destruct Hr as [Hg Ht]. do 2 f_equal. apply list_elem_of_lookup in Hf as [i Hi], Hg as [j Hj].
  pose proof (wf_sorted st Hwf) as Hs.
  destruct (Nat.lt_trichotomy i j) as [?|[->|?]]; [|congruence|].
  - pose proof (Hs (Z.of_nat i) (Z.of_nat j) f g ltac:(by rewrite zget_nat) ltac:(by rewrite zget_nat) ltac:(lia)). lia.
  - pose proof (Hs (Z.of_nat j) (Z.of_nat i) g f ltac:(by rewrite zget_nat) ltac:(by rewrite zget_nat) ltac:(lia)). lia.
Qed.

(** ** The calls *)

Definition call : Type := bool * sproto_arg * list Z.
Definition value_bytes (x : item) : list Z := match x with IObj l => l | _ => le_bytes 8 (int_of x) end.
Definition item_call (args : sproto_arg) (x : item) : call :=
  (match x with IObj _ => true | _ => false end, args, value_bytes x).
Fixpoint item_calls (args : sproto_arg) (i : Z) (l : list item) : list call :=
  match l with [] => [] | x :: l => item_call (set_index i args) x :: item_calls args (i + 1) l end.
Definition field_calls (f : field) (v : fval) : list call :=
  match v with
  | FNone => []
  | FOne x => [item_call (arg_of f) x]
  | FMany [] => [(false, set_index (-1) (arg_of f), [])]
  | FMany l => item_calls (arg_of f) 1 l
  end.
Definition calls_of (content : field -> fval) (fs : list field) : list call := flat_map (fun f => field_calls f (content f)) fs.

(** The calls in order; false when a call that counts returned something else than 0. *)
Fixpoint run_calls {U} (cb : sproto_arg -> list Z -> U -> option (Z * U)) (cs : list call) (u : U) : option (bool * U) :=
  match cs with
  | [] => Some (true, u)
  | (checked, args, bytes) :: cs =>
    '(r, u) ← cb args bytes u;
    if checked && negb (r =? 0) then Some (false, u) else run_calls cb cs u
  end.

Lemma run_calls_app {U} (cb : sproto_arg -> list Z -> U -> option (Z * U)) cs1 cs2 u :
  run_calls cb (cs1 ++ cs2) u = ('(ok, u) ← run_calls cb cs1 u; if ok : bool then run_calls cb cs2 u else Some (false, u)).
Proof.
  revert u. induction cs1 as [|[[c a] b] cs1 IH]; intros u; [done|]. cbn [app run_calls].
  destruct (cb a b u) as [[r u']|]; [|done]. rewrite !some_bind. destruct (c && negb (r =? 0)); [done|apply IH].
Qed.

(** ** Reading words *)

Definition has (mem : list Z) (p : Z) (bytes : list Z) : Prop :=
  0 <= p /\ forall i x, zget bytes i = Some x -> zget mem (p + i) = Some x.

Lemma has_app mem p a b : has mem p (a ++ b) <-> has mem p a /\ has mem (p + zlen a) b.
Proof.
  pose proof (zlen_nonneg a). split.
  - intros [Hp Hh]. split; (split; [lia|]); intros i x Hx; pose proof (zget_in _ _ _ Hx).
    + apply Hh. by rewrite zget_app_l by lia.
    + rewrite <- Z.add_assoc. apply Hh. rewrite zget_app_r by lia. rewrite <- Hx. f_equal. lia.
  - intros [[Hp Ha] [_ Hb]]. split; [done|]. intros i x Hx.
    destruct (Z.ltb_spec i (zlen a)).
    + apply Ha. by rewrite zget_app_l in Hx by lia.
    + rewrite zget_app_r in Hx by lia. specialize (Hb _ _ Hx). rewrite <- Hb. f_equal. lia.
Qed.

Lemma has_room mem p bytes : has mem p bytes -> 0 < zlen bytes -> p + zlen bytes <= zlen mem.
Proof.
  intros [Hp Hh] Hl. destruct (zget_is_Some bytes (zlen bytes - 1)) as [x Hx]; [lia|].
  specialize (Hh _ _ Hx). apply zget_in in Hh. lia.
Qed.

Lemma has_take mem p bytes : has mem p bytes -> p + zlen bytes <= zlen mem ->
  take (Z.to_nat (zlen bytes)) (drop (Z.to_nat p) mem) = bytes.
Proof.
  intros [Hp Hh] Hl. pose proof (zlen_nonneg bytes).
  assert (Hz : zlen (take (Z.to_nat (zlen bytes)) (drop (Z.to_nat p) mem)) = zlen bytes)
    by (unfold zlen in *; rewrite length_take, length_drop; lia).
  apply zget_ext; [done|]. intros i Hi. rewrite Hz in Hi. rewrite zget_take, zget_drop by lia.
  destruct (zget_is_Some bytes i) as [x Hx]; [lia|]. rewrite Hx. by apply Hh.
Qed.

Lemma has_prefix bytes rest : has (bytes ++ rest) 0 bytes.
Proof. split; [done|]. intros i x Hx. pose proof (zget_in _ _ _ Hx). by rewrite zget_app_l by lia. Qed.

Lemma toword_has mem p x : has mem p (le_bytes 2 x) -> 0 <= x < 0x10000 -> toword mem p = Some x.
Proof.
  intros [Hp Hh] Hx. unfold toword. pose proof (Hh 0 _ eq_refl) as H0. pose proof (Hh 1 _ eq_refl) as H1.
  rewrite Z.add_0_r in H0. rewrite H0, H1, !some_bind. f_equal. unfold u8, wrap. rewrite lor_shiftl_add by (unfold is_u; div_lia).
  rewrite Z.shiftr_div_pow2 by lia. change (2 ^ 8) with 256. div_lia.
Qed.

Lemma todword_has mem p x : has mem p (le_bytes 4 x) -> todword mem p = Some (u32 x).
Proof.
  intros [Hp Hh]. unfold todword. pose proof (Hh 0 _ eq_refl) as H0. pose proof (Hh 1 _ eq_refl) as H1.
  pose proof (Hh 2 _ eq_refl) as H2. pose proof (Hh 3 _ eq_refl) as H3.
  rewrite Z.add_0_r in H0. rewrite H0, H1, H2, H3, !some_bind. f_equal.
  rewrite !Z.shiftr_shiftr by lia. rewrite lor_word32 by apply is_u8_u8. unfold u32, u8, wrap, word32.
  rewrite !Z.shiftr_div_pow2 by lia.
  change (2 ^ 8) with 256. change (2 ^ 16) with 65536. change (2 ^ 24) with 16777216. change (2 ^ 32) with 4294967296.
  change (2 ^ (8 + 8)) with 65536. change (2 ^ (8 + (8 + 8))) with 16777216. div_lia.
Qed.

(** ** A field *)

Section decode_value.
Context {U : Type} (cb : sproto_arg -> list Z -> U -> option (Z * U)) (mem : list Z).

Definition ok_of (o : option (Z * U)) : option (bool * U) := '(r, u) ← o; Some (r =? 0, u).

Lemma run_unchecked args bytes cs u : run_calls cb ((false, args, bytes) :: cs) u = ('(_, u) ← cb args bytes u; run_calls cb cs u).
Proof. cbn [run_calls andb]. by destruct (cb args bytes u) as [[r u']|]. Qed.

Lemma le_bytes_expand64 v : fits32 v = true -> le_bytes 8 (expand64 (u32 v)) = le_bytes 8 v.
Proof.
  intros Hv. unfold expand64. unfold u32 at 1, wrap. rewrite land_sign by done. rewrite <- (le_bytes_mod 8 v).
  apply fits32_range in Hv. f_equal. unfold u32, wrap. change (8 * Z.of_nat 8) with 64.
  destruct (Z.ltb_spec v 0); cbn [negb]; [|div_lia].
  rewrite lor_shiftl_add by (unfold is_u; div_lia).
  change (2 ^ 64) with 18446744073709551616. change (2 ^ 32) with 4294967296. div_lia.
Qed.

Lemma le_bytes_halves v : le_bytes 8 (u32 v .| (u32 (v >> 32) << 32)) = le_bytes 8 v.
Proof.
  rewrite <- (le_bytes_mod 8 v). f_equal. unfold u32, wrap. rewrite lor_shiftl_add by (unfold is_u; div_lia).
  rewrite Z.shiftr_div_pow2 by lia. change (8 * Z.of_nat 8) with 64.
  change (2 ^ 64) with 18446744073709551616. change (2 ^ 32) with 4294967296. div_lia.
Qed.

Lemma has_le8 p v : has mem p (le_bytes 8 v) -> todword mem p = Some (u32 v) /\ todword mem (p + 4) = Some (u32 (v >> 32)).
Proof.
  rewrite (le_bytes_app 4 4), has_app, zlen_le_bytes. intros [H1 H2]. split; by apply todword_has.
Qed.

(** The length of data, and what is behind it. *)
Lemma has_obj_data p l : has mem p (obj_data l) -> zlen l < 2 ^ 32 -> todword mem p = Some (zlen l) /\ has mem (p + 4) l /\ p + 4 + zlen l <= zlen mem.
Proof.
  intros Hh Hl. pose proof (zlen_nonneg l). pose proof (has_room _ _ _ Hh) as Hr. rewrite zlen_obj_data in Hr.
  unfold obj_data in Hh. apply has_app in Hh as [H1 H2]. rewrite le32_bytes in H1. rewrite zlen_le_word in H2.
  rewrite (todword_has _ _ _ H1). unfold u32. rewrite wrap_small by (unfold is_u; lia). split_and!; [done|done|lia].
Qed.

Lemma call_with_has args p l u : has mem p l -> p + zlen l <= zlen mem -> call_with cb args mem p (zlen l) u = cb args l u.
Proof.
  intros Hh Hl. pose proof Hh as [Hp _]. pose proof (zlen_nonneg l). unfold call_with.
  destruct (Z.leb_spec 0 p), (Z.leb_spec 0 (zlen l)), (Z.leb_spec (p + zlen l) (zlen mem)); try lia. cbn [andb]. by rewrite has_take.
Qed.

Lemma zlen_flat_map_cons {A} (f : A -> list Z) x l : zlen (flat_map f (x :: l)) = zlen (f x) + zlen (flat_map f l).
Proof. cbn [flat_map]. apply zlen_app. Qed.

Lemma decode_objects args l : Forall (fun x => exists o, x = IObj o) l -> forall fuel stream sz i u,
  has mem stream (flat_map (fun x => obj_data (bytes_of x)) l) -> sz = zlen (flat_map (fun x => obj_data (bytes_of x)) l) ->
  sz < 2 ^ 31 -> sz <= Z.of_nat fuel ->
  ok_of (decode_array_object cb fuel args mem stream sz i u) = run_calls cb (item_calls args i l) u.
Proof.
  induction 1 as [|x l [o ->] Hl IH]; intros fuel stream sz i u Hh Hsz H31 Hf.
  { subst sz. by destruct fuel. }
  rewrite zlen_flat_map_cons in Hsz. cbn [bytes_of] in Hsz. rewrite zlen_obj_data in Hsz.
  pose proof (zlen_nonneg o). pose proof (zlen_nonneg (flat_map (fun x => obj_data (bytes_of x)) l)).
  cbn [flat_map bytes_of] in Hh. apply has_app in Hh as [Ho Hr]. rewrite zlen_obj_data in Hr.
  destruct (has_obj_data _ _ Ho) as (Hd & Hb & Hroom); [lia|].
  destruct fuel as [|fuel]; [lia|]. cbn [decode_array_object]. destruct (Z.ltb_spec 0 sz); [|lia]. unfold SIZEOF_LENGTH.
  destruct (Z.ltb_spec sz 4); [lia|]. rewrite Hd, some_bind. destruct (Z.ltb_spec (sz - 4) (zlen o)); [lia|].
  rewrite call_with_has by done. cbn [item_calls item_call run_calls value_bytes].
  destruct (cb (set_index i args) o u) as [[r u']|]; [|done]. rewrite !some_bind. cbv beta iota. cbn [andb].
  destruct (Z.eqb_spec r 0); cbn [negb]; [|done]. apply IH; [|lia..]. by replace (stream + 4 + zlen o) with (stream + (4 + zlen o)) by lia.
Qed.

Lemma decode_integers_spec args w l : (w = 4%nat /\ Forall (fun x => fits32 (int_of x) = true) l) \/ w = 8%nat ->
  Forall (fun x => exists v, x = IInt v) l -> forall stream i u,
  has mem (stream + Z.of_nat w * i) (ints_data w l) -> 0 <= i ->
  (u ← decode_integers cb (length l) args mem stream (Z.of_nat w) i u; Some (true, u)) = run_calls cb (item_calls args (i + 1) l) u.
Proof.
  intros Hw Hl. induction Hl as [|x l [v ->] Hl IH]; intros stream i u Hh Hi; [done|].
  cbn [ints_data flat_map int_of] in Hh. fold (ints_data w l) in Hh. apply has_app in Hh as [Hv Hr]. rewrite zlen_le_bytes in Hr.
  assert (Hval : exists y, (if Z.of_nat w =? SIZEOF_INT32 then v ← todword mem (stream + i * SIZEOF_INT32); Some (expand64 v)
             else low ← todword mem (stream + i * SIZEOF_INT64);
                  hi ← todword mem (stream + i * SIZEOF_INT64 + SIZEOF_INT32); Some (low .| (hi << 32))) = Some y /\ le_bytes 8 y = le_bytes 8 v).
  { destruct Hw as [[-> [Hf _]%Forall_cons]| ->].
    - change (Z.of_nat 4 =? SIZEOF_INT32) with true. cbv iota. unfold SIZEOF_INT32. replace (stream + i * 4) with (stream + Z.of_nat 4 * i) by lia.
      rewrite (todword_has _ _ _ Hv), some_bind. eexists. split; [done|]. by apply le_bytes_expand64.
    - change (Z.of_nat 8 =? SIZEOF_INT32) with false. cbv iota. unfold SIZEOF_INT64, SIZEOF_INT32. replace (stream + i * 8) with (stream + Z.of_nat 8 * i) by lia.
      destruct (has_le8 _ _ Hv) as [H1 H2]. rewrite H1, H2, !some_bind. eexists. split; [done|]. apply le_bytes_halves. }
  destruct Hval as (y & Hy & Hb). cbn [length decode_integers]. rewrite Hy, some_bind. unfold call_int. rewrite Hb.
  cbn [item_calls]. change (item_call ?a (IInt ?v)) with (false, a, le_bytes 8 v). rewrite run_unchecked. destruct (cb _ _ u) as [[r u']|]; [|done]. rewrite !some_bind.
  apply IH; [|by replace (stream + Z.of_nat w * (i + 1)) with (stream + Z.of_nat w * i + Z.of_nat w) by lia|lia].
  destruct Hw as [[? [_ ?]%Forall_cons]|?]; [left|right]; done.
Qed.

Lemma decode_booleans_spec args l : Forall (fun x => exists b, x = IBool b) l -> forall stream i u,
  has mem (stream + i) (int_of <$> l) -> 0 <= i ->
  (u ← decode_booleans cb (length l) args mem stream i u; Some (true, u)) = run_calls cb (item_calls args (i + 1) l) u.
Proof.
  induction 1 as [|x l [b ->] Hl IH]; intros stream i u Hh Hi; [done|].
  change (int_of <$> IBool b :: l) with ([b2i b] ++ (int_of <$> l)) in Hh. apply has_app in Hh as [[_ Hv] Hr].
  specialize (Hv 0 _ eq_refl). rewrite Z.add_0_r in Hv. cbn [length decode_booleans]. rewrite Hv, some_bind. unfold call_int.
  cbn [item_calls]. change (item_call ?a (IBool b)) with (false, a, le_bytes 8 (b2i b)). rewrite run_unchecked. destruct (cb _ _ u) as [[r u']|]; [|done]. rewrite !some_bind.
  apply IH; [by rewrite Z.add_assoc|lia].
Qed.

Lemma payload_nil type l : payload type l = [] -> l = [].
Proof.
  destruct l as [|x l]; [done|]. unfold payload. destruct (_ =? _); [done|]. destruct (_ =? _); [done|]. cbn [flat_map]. done.
Qed.

Lemma decode_array_spec f l p u : 0 <= elem_type f <= 3 -> Forall (wf_item (elem_type f)) l ->
  has mem p (obj_data (payload (elem_type f) l)) -> zlen (payload (elem_type f) l) < 2 ^ 31 ->
  ok_of (decode_array cb (arg_of f) mem p u) = run_calls cb (field_calls f (FMany l)) u.
Proof.
  intros Ht Hl Hh H31. destruct (has_obj_data _ _ Hh) as (Hd & Hb & Hroom); [lia|].
  unfold decode_array. rewrite Hd, some_bind. change (a_type (arg_of f)) with (elem_type f).
  destruct (Z.eqb_spec (zlen (payload (elem_type f) l)) 0) as [H0|H0].
  { assert (l = []) as ->.
    { apply (payload_nil (elem_type f)). destruct (payload (elem_type f) l) as [|a b] eqn:E; [done|].
      rewrite zlen_cons in H0. pose proof (zlen_nonneg b). lia. }
    cbn [field_calls]. rewrite run_unchecked. by destruct (cb _ [] u) as [[r u']|]. }
  assert (Hne : l <> []).
  { intros ->. apply H0. unfold payload. destruct (_ =? _); [done|]. by destruct (_ =? _). }
  assert (Hcalls : field_calls f (FMany l) = item_calls (arg_of f) 1 l) by (by destruct l). rewrite Hcalls. clear Hcalls.
  unfold SIZEOF_LENGTH. set (pl := payload (elem_type f) l) in *. pose proof (zlen_nonneg l).
  destruct (Z.eqb_spec (elem_type f) SPROTO_TINTEGER) as [Hti|Hti].
  - rewrite Hti in *. assert (Hpl : pl = Z.of_nat (int_width l) :: ints_data (int_width l) l) by (unfold pl, payload; rewrite Hti; by destruct l).
    rewrite Hpl in *. change (?a :: ?b) with ([a] ++ b) in Hb. apply has_app in Hb as [[Hp Hlen] Hints].
    specialize (Hlen 0 _ eq_refl). rewrite Z.add_0_r in Hlen. rewrite Hlen, some_bind. rewrite zlen_cons, zlen_ints_data.
    change (zlen [Z.of_nat (int_width l)]) with 1 in Hints.
    assert (Hintl : Forall (fun x => exists v, x = IInt v) l).
    { eapply Forall_impl; [exact Hl|]. intros [v| |o]; [by exists v|done|intros [[|] _]; done]. }
    assert (Hwid : (int_width l = 4%nat /\ Forall (fun x => fits32 (int_of x) = true) l) \/ int_width l = 8%nat).
    { unfold int_width. destruct (forallb (fun x => fits32 (int_of x)) l) eqn:E; [left|by right]. split; [done|].
      rewrite forallb_forall in E. apply Forall_forall. intros x Hx. by apply E, list_elem_of_In. }
    replace (1 + Z.of_nat (int_width l) * zlen l - 1) with (zlen l * Z.of_nat (int_width l)) by lia.
    assert (Hw : 0 < Z.of_nat (int_width l)) by (destruct (int_width_cases l); lia).
    assert (((Z.of_nat (int_width l) =? SIZEOF_INT32) || (Z.of_nat (int_width l) =? SIZEOF_INT64)) = true) as -> by (destruct (int_width_cases l) as [-> | ->]; done).
    rewrite Z.mod_mul, Z.div_mul by lia. change (0 =? 0) with true. cbn [negb].
    replace (Z.to_nat (zlen l)) with (length l) by (unfold zlen; lia).
    pose proof (decode_integers_spec (arg_of f) (int_width l) l Hwid Hintl (p + 4 + 1) 0 u) as Hspec.
    rewrite Z.mul_0_r, Z.add_0_r in Hspec. change (0 + 1) with 1 in Hspec. rewrite <- (Hspec Hints ltac:(done)).
    unfold ok_of. by destruct (decode_integers _ _ _ _ _ _ _ _).
  - assert (Hpl : pl = if elem_type f =? SPROTO_TBOOLEAN then int_of <$> l else flat_map (fun x => obj_data (bytes_of x)) l).
    { unfold pl, payload. by destruct (Z.eqb_spec (elem_type f) SPROTO_TINTEGER). }
    destruct (Z.eqb_spec (elem_type f) SPROTO_TBOOLEAN) as [Htb|Htb].
    + rewrite Htb in *. assert (Hbl : Forall (fun x => exists b, x = IBool b) l).
      { eapply Forall_impl; [exact Hl|]. intros [|b|o]; [intros [? _]; done|by exists b|intros [[|] _]; done]. }
      rewrite Hpl in *. rewrite zlen_fmap. replace (Z.to_nat (zlen l)) with (length l) by (unfold zlen; lia).
      pose proof (decode_booleans_spec (arg_of f) l Hbl (p + 4) 0 u) as Hspec. rewrite Z.add_0_r in Hspec. change (0 + 1) with 1 in Hspec.
      rewrite <- (Hspec Hb ltac:(done)). unfold ok_of. by destruct (decode_booleans _ _ _ _ _ _ _).
    + assert (((elem_type f =? SPROTO_TSTRING) || (elem_type f =? SPROTO_TSTRUCT)) = true) as ->.
      { unfold SPROTO_TSTRING, SPROTO_TSTRUCT, SPROTO_TINTEGER, SPROTO_TBOOLEAN in *. repeat zcase; done || lia. }
      assert (Hol : Forall (fun x => exists o, x = IObj o) l).
      { eapply Forall_impl; [exact Hl|]. intros [|b|o]; [intros [? _]; done|done|by exists o]. }
      pose proof (zlen_nonneg pl). unfold i32. rewrite sgn_small by lia. rewrite Hpl in *. apply decode_objects; [done|done|done|lia|lia].
Qed.

(** The value of a field, from its slot and its data at [p]. *)
Lemma decode_value_spec f v slot d p u : wf_field f -> wf_fval f v -> slot_of f v = Some (slot, d) -> has mem p d -> zlen d < 2 ^ 31 ->
  ok_of (if slot / 2 - 1 <? 0 then decode_data cb f mem p u else decode_slot cb f (slot / 2 - 1) u) = run_calls cb (field_calls f v) u.
Proof.
  intros Hf Hv Hslot Hh H31. unfold decode_data, decode_slot. destruct (field_types f Hf) as [(Har & Het & Ht)|(Har & Ht)]; rewrite Har.
  2: { destruct v as [|x|l]; [done|by destruct Hv; congruence|]. apply (inj Some), pair_eq in Hslot as [<- <-]. change (0 / 2 - 1 <? 0) with true. cbv iota.
       destruct Hv as [_ Hv]. rewrite zlen_obj_data in H31. apply decode_array_spec; try done. lia. }
  destruct v as [|x|l]; [done| |by destruct Hv; congruence]. destruct Hv as [_ Hv]. cbn [field_calls].
  destruct x as [v|b|o]; cbn [slot_of int_of] in Hslot.
  - destruct Hv as [Hti Hrange]. rewrite Hti. change (SPROTO_TINTEGER =? SPROTO_TINTEGER) with true. cbn [negb andb].
    change (item_call ?a (IInt ?v)) with (false, a, le_bytes 8 v). rewrite run_unchecked. cbn [run_calls].
    assert (Hgo : forall y, le_bytes 8 y = le_bytes 8 v -> ok_of ('(_, u) ← call_int cb (arg_of f) y u; Some (0, u)) =
      ('(_, u) ← cb (arg_of f) (le_bytes 8 v) u; Some (true, u))).
    { intros y Hy. unfold call_int. rewrite Hy. by destruct (cb _ _ u) as [[r u']|]. }
    destruct (fits32 v) eqn:Hfit; [destruct (Z.ltb_spec (u32 v) 0x7fff)|]; apply (inj Some), pair_eq in Hslot as [<- <-].
    + apply fits32_range in Hfit. unfold u32, wrap in *. assert (0 <= v) by div_lia.
      replace ((v + 1) * 2 / 2 - 1) with v by div_lia. destruct (Z.ltb_spec v 0); [lia|]. by apply Hgo.
    + change (0 / 2 - 1 <? 0) with true. cbv iota. destruct (has_obj_data _ _ Hh) as (Hd & Hb & Hroom); [rewrite zlen_le_bytes; lia|].
      rewrite Hd, some_bind, zlen_le_bytes. change (Z.of_nat 4 =? SIZEOF_INT32) with true. cbv iota. unfold SIZEOF_LENGTH.
      rewrite (todword_has _ _ _ Hb), some_bind. apply Hgo. by apply le_bytes_expand64.
    + change (0 / 2 - 1 <? 0) with true. cbv iota. destruct (has_obj_data _ _ Hh) as (Hd & Hb & Hroom); [rewrite zlen_le_bytes; lia|].
      rewrite Hd, some_bind, zlen_le_bytes. change (Z.of_nat 8 =? SIZEOF_INT32) with false. change (Z.of_nat 8 =? SIZEOF_INT64) with true. cbv iota. cbn [negb].
      unfold SIZEOF_LENGTH, SIZEOF_INT32. destruct (has_le8 _ _ Hb) as [H1 H2]. rewrite H1, H2, !some_bind. apply Hgo, le_bytes_halves.
  - cbn in Hv. rewrite Hv. change (SPROTO_TBOOLEAN =? SPROTO_TINTEGER) with false. change (SPROTO_TBOOLEAN =? SPROTO_TBOOLEAN) with true. cbn [negb andb].
    change (item_call ?a (IBool b)) with (false, a, le_bytes 8 (b2i b)). rewrite run_unchecked. cbn [run_calls].
    assert (slot / 2 - 1 = b2i b) as -> by (destruct b; by apply (inj Some), pair_eq in Hslot as [<- <-]).
    assert ((b2i b <? 0) = false) as -> by (by destruct b). unfold call_int. by destruct (cb _ _ u) as [[r u']|].
  - apply (inj Some), pair_eq in Hslot as [<- <-]. change (0 / 2 - 1 <? 0) with true. cbv iota. destruct Hv as [Hty _]. rewrite zlen_obj_data in H31.
    destruct (has_obj_data _ _ Hh) as (Hd & Hb & Hroom); [lia|]. pose proof (zlen_nonneg o).
    assert ((f_type f =? SPROTO_TINTEGER) = false /\ ((f_type f =? SPROTO_TSTRING) || (f_type f =? SPROTO_TSTRUCT)) = true) as [-> ->] by (by destruct Hty as [-> | ->]).
    rewrite Hd, some_bind. unfold i32, SIZEOF_LENGTH. rewrite sgn_small by lia. rewrite call_with_has by done.
    change (item_call ?a (IObj o)) with (true, a, o). cbn [run_calls]. unfold ok_of.
    destruct (cb (arg_of f) o u) as [[r u']|]; [|done]. rewrite !some_bind. cbn [andb]. by destruct (r =? 0).
Qed.
End decode_value.

(** ** The message *)

Lemma slot_of_range f v s d : slot_of f v = Some (s, d) ->
  0 <= s < 0x10000 /\ Z.odd s = false /\ ((s = 0 /\ exists l, d = obj_data l) \/ (2 <= s /\ d = [])).
Proof.
  assert (Hint : forall v, (if fits32 v then if u32 v <? 0x7fff then Some ((v + 1) * 2, []) else Some (0, obj_data (le_bytes 4 v))
      else Some (0, obj_data (le_bytes 8 v))) = Some (s, d) ->
    0 <= s < 0x10000 /\ Z.odd s = false /\ ((s = 0 /\ exists l, d = obj_data l) \/ (2 <= s /\ d = []))).
  { intros z. destruct (fits32 z) eqn:Hf; [destruct (Z.ltb_spec (u32 z) 0x7fff)|]; intros [<- <-]%(inj Some)%pair_eq.
    - apply fits32_range in Hf. unfold u32, wrap in *. assert (0 <= z < 0x7fff) by div_lia.
      split; [lia|]. split; [by rewrite Z.odd_mul, andb_false_r|]. right. split; [lia|done].
    - split; [lia|]. split; [done|]. left. split; [done|by eexists].
    - split; [lia|]. split; [done|]. left. split; [done|by eexists]. }
  destruct v as [|x|l]; [done| |].
  - destruct x as [v|b|o]; [apply Hint|apply Hint|]. intros [<- <-]%(inj Some)%pair_eq. split; [lia|]. split; [done|]. left. split; [done|by eexists].
  - intros [<- <-]%(inj Some)%pair_eq. split; [lia|]. split; [done|]. left. split; [done|by eexists].
Qed.

Lemma ascending_weaken last last' fs : last' <= last -> ascending last fs -> ascending last' fs.
Proof. destruct fs; [done|]. intros ? [? ?]. split; [lia|done]. Qed.

Section decode_message.
Context {U : Type} (cb : sproto_arg -> list Z -> U -> option (Z * U)) (mem : list Z).
Context (st : sproto_type) (content : field -> fval) (Hst : wf_type st).

Lemma decode_fields_spec fs : Forall (fun f => f ∈ t_f st /\ wf_field f /\ wf_fval f (content f)) fs ->
  forall last stream ds size u, ascending last fs -> -1 <= last ->
  has mem stream (flat_map (le_bytes 2) (slots_of content fs last)) -> has mem ds (data_of content fs) ->
  zlen (data_of content fs) <= size -> size < 2 ^ 31 ->
  decode_fields cb (length (slots_of content fs last)) st mem stream ds size last u =
    ('(ok, u) ← run_calls cb (calls_of content fs) u; Some (if ok : bool then Some (size - zlen (data_of content fs)) else None, u)).
Proof.
  induction 1 as [|f fs (Hin & Hf & Hv) Hfs IH]; intros last stream ds size u Hasc Hlast Hs Hd Hsz H31.
  { cbn. by rewrite Z.sub_0_r. }
  cbn [slots_of data_of flat_map calls_of] in *. fold (data_of content fs) (calls_of content fs) in *. destruct Hasc as [Htag Hasc].
  destruct (slot_of f (content f)) as [[v d]|] eqn:Hslot.
  2: { assert (content f = FNone) as -> by (destruct (content f) as [|[]|]; cbn in Hslot; repeat case_match; done).
       cbn [field_calls app]. apply IH; try done. eapply ascending_weaken; [|done]. lia. }
  destruct (slot_of_range _ _ _ _ Hslot) as (Hvr & Hodd & Hvd).
  rewrite slots_app in Hs. cbn [flat_map] in Hs. apply has_app in Hs as [Hgap Hs]. apply has_app in Hs as [Hval Hs].
  rewrite zlen_slots in *. rewrite zlen_le_bytes in Hs. apply has_app in Hd as [Hdf Hd]. rewrite zlen_app in *. destruct Hf as [Hft Hftag].
  pose proof (zlen_nonneg d). pose proof (zlen_nonneg (data_of content fs)).
  (* the step on the slot of the field *)
  assert (Hstep : forall u, decode_fields cb (S (length (slots_of content fs (f_tag f)))) st mem (stream + 2 * zlen (gap_slots last (f_tag f))) ds size (f_tag f - 1) u =
    ('(ok, u) ← run_calls cb (field_calls f (content f) ++ calls_of content fs) u;
     Some (if ok : bool then Some (size - (zlen d + zlen (data_of content fs))) else None, u))).
  { clear u. intros u. cbn [decode_fields]. rewrite (toword_has _ _ _ Hval Hvr), some_bind, Hodd. rewrite Z.sub_add.
    pose proof (decode_value_spec cb mem f (content f) v d ds u (conj Hft Hftag) Hv Hslot Hdf ltac:(lia)) as Hdv.
    assert (Hsize : (if v / 2 - 1 <? 0 then
             if size <? SIZEOF_LENGTH then Some None
             else sz ← todword mem ds;
               if u32 size <? u32 (sz + SIZEOF_LENGTH) then Some None
               else Some (Some (ds + u32 (sz + SIZEOF_LENGTH), i32 (size - u32 (sz + SIZEOF_LENGTH))))
           else Some (Some (ds, size))) = Some (Some (ds + zlen d, size - zlen d))).
    { destruct Hvd as [(-> & l & ->)|[Hv2 ->]].
      - change (0 / 2 - 1 <? 0) with true. cbv iota. rewrite zlen_obj_data in *. pose proof (zlen_nonneg l). unfold SIZEOF_LENGTH.
        destruct (Z.ltb_spec size 4); [lia|]. destruct (has_obj_data mem _ _ Hdf) as (Hw & _ & _); [lia|]. rewrite Hw, some_bind. unfold u32, i32.
        rewrite (wrap_small 32 (zlen l + 4)), (wrap_small 32 size) by (unfold is_u; lia).
        destruct (Z.ltb_spec size (zlen l + 4)); [lia|]. rewrite sgn_small by lia. by rewrite (Z.add_comm (zlen l)).
      - destruct (Z.ltb_spec (v / 2 - 1) 0); [div_lia|]. by rewrite zlen_nil, Z.add_0_r, Z.sub_0_r. }
    rewrite Hsize, some_bind, (findtag_field st f Hst Hin), some_bind. rewrite run_calls_app.
    rewrite <- Hdv. unfold ok_of. destruct (if v / 2 - 1 <? 0 then _ else _) as [[r u']|]; [|done]. rewrite !some_bind. cbv beta iota.
    destruct (r =? 0); cbn [negb]; [|done]. unfold SIZEOF_FIELD. rewrite IH; try done; try lia.
    by rewrite Z.sub_add_distr. }
  unfold gap_slots in *. destruct (Z.ltb_spec 0 (f_tag f - last - 1)).
  - cbn [app length]. change (zlen [?x]) with 1 in *. cbn [flat_map] in Hgap. rewrite app_nil_r in Hgap.
    set (g := (f_tag f - last - 2) * 2 + 1) in *. cbn [decode_fields]. rewrite (toword_has _ _ g Hgap), some_bind by lia.
    assert (Z.odd g = true) as -> by (unfold g; rewrite Z.add_comm, Z.odd_add_mul_2 || (rewrite Z.odd_add, Z.odd_mul, andb_false_r); done).
    unfold SIZEOF_FIELD. replace (last + 1 + g / 2) with (f_tag f - 1) by (unfold g; div_lia). apply Hstep.
  - cbn [app length]. change (zlen (@nil Z)) with 0 in *. specialize (Hstep u). rewrite Z.mul_0_r, Z.add_0_r in Hstep.
    replace (f_tag f - 1) with last in Hstep by lia. exact Hstep.
Qed.

Lemma zlen_message : zlen (message content (t_f st)) = 2 + 2 * zlen (slots_of content (t_f st) (-1)) + zlen (data_of content (t_f st)).
Proof. unfold message. rewrite !zlen_app, zlen_slots, zlen_le_bytes. lia. Qed.

Lemma slots_bound fs last prev : -1 <= last <= prev -> ascending prev fs ->
  zlen (slots_of content fs last) <= max_slots prev fs + b2i (last <? prev).
Proof.
  revert last prev. induction fs as [|f fs IH]; intros last prev Hlp Hasc; [cbn; by destruct (last <? prev)|].
  destruct Hasc as [Ht Hasc]. cbn [slots_of max_slots].
  assert (Hb : 0 <= b2i (last <? prev)) by (by destruct (last <? prev)).
  pose proof (zlen_gap prev (f_tag f)). destruct (slot_of f (content f)) as [[v d]|].
  - rewrite zlen_app, zlen_cons. specialize (IH (f_tag f) (f_tag f) ltac:(lia) Hasc). rewrite Z.ltb_irrefl in IH. cbn [b2i] in IH.
    pose proof (zlen_gap last (f_tag f)). destruct (Z.ltb_spec last prev); cbn [b2i]; [lia|]. assert (last = prev) as -> by lia. lia.
  - specialize (IH last (f_tag f) ltac:(lia) Hasc). destruct (Z.ltb_spec last (f_tag f)); [cbn [b2i] in IH; lia|lia].
Qed.

Lemma sproto_decode_spec rest u : mem = message content (t_f st) ++ rest -> zlen (message content (t_f st)) < 2 ^ 31 ->
  Forall (fun f => wf_fval f (content f)) (t_f st) ->
  sproto_decode cb st mem (zlen (message content (t_f st))) u =
    ('(ok, u) ← run_calls cb (calls_of content (t_f st)) u; Some (if ok : bool then zlen (message content (t_f st)) else -1, u)).
Proof.
  intros Hmem H31 Hv. pose proof Hst as [Hn Hf Hasc Hmax _]. pose proof zlen_message as Hl. set (n := zlen (message content (t_f st))) in *.
  set (sl := slots_of content (t_f st) (-1)) in *. set (d := data_of content (t_f st)) in *. pose proof (zlen_nonneg sl). pose proof (zlen_nonneg d).
  assert (Hsl : zlen sl < 0x10000) by (pose proof (slots_bound (t_f st) (-1) (-1) ltac:(lia) Hasc) as Hsb; rewrite Z.ltb_irrefl in Hsb; cbn [b2i] in Hsb; fold sl in Hsb; lia).
  pose proof (has_prefix (message content (t_f st)) rest) as Hh. rewrite <- Hmem in Hh. unfold message in Hh. fold sl d in Hh.
  apply has_app in Hh as [Hh0 Hh]. apply has_app in Hh as [Hh1 Hh2]. rewrite zlen_slots, zlen_le_bytes in Hh2. rewrite zlen_le_bytes in Hh1.
  unfold sproto_decode, SIZEOF_HEADER, SIZEOF_FIELD. destruct (Z.ltb_spec n 2); [lia|].
  rewrite (toword_has _ _ _ Hh0), some_bind by lia. destruct (Z.ltb_spec (n - 2) (zlen sl * 2)); [lia|].
  replace (Z.to_nat (zlen sl)) with (length sl) by (unfold zlen; lia).
  pose proof (decode_fields_spec (t_f st)) as Hds. unfold sl. rewrite Hds; try done; try lia.
  - fold sl d. destruct (run_calls cb (calls_of content (t_f st)) u) as [[[|] ?]|]; try done. rewrite !some_bind. do 2 f_equal. lia.
  - apply Forall_forall. intros f Hin. split; [done|]. rewrite Forall_forall in Hf, Hv. by auto.
  - fold sl d. by replace (2 + zlen sl * 2) with (0 + Z.of_nat 2 + 2 * zlen sl) by lia.
  - fold sl d. lia.
  - fold sl. lia.
Qed.
End decode_message.

(** ** Any bytes

    The sum of a size of the data and 4 wraps in 32 bits; where it does not, nothing is
    read out of bounds, whatever the bytes are. *)

Section any_bytes.
Context {U : Type} (cb : sproto_arg -> list Z -> U -> option (Z * U)) (mem : list Z).
Context (Hcb : forall a bytes u, is_Some (cb a bytes u)).
Context (Hmem : is_bytes mem) (Hnowrap : forall p w, todword mem p = Some w -> w < 0xfffffffc).

Lemma todword_in p : 0 <= p -> p + 4 <= zlen mem -> exists w, todword mem p = Some w /\ 0 <= w < 0xfffffffc.
Proof.
  intros Hp Hl. unfold todword at 1. destruct (zget_is_Some mem p) as [a Ha], (zget_is_Some mem (p + 1)) as [b Hb],
    (zget_is_Some mem (p + 2)) as [c Hc], (zget_is_Some mem (p + 3)) as [d Hd]; [lia..|].
  rewrite Ha, Hb, Hc, Hd, !some_bind. eexists. split; [done|]. split; [apply wrap_range; lia|]. apply (Hnowrap p).
  unfold todword. by rewrite Ha, Hb, Hc, Hd.
Qed.

Lemma toword_in p : 0 <= p -> p + 2 <= zlen mem -> exists w, toword mem p = Some w /\ 0 <= w < 0x10000.
Proof.
  intros Hp Hl. unfold toword. destruct (zget_is_Some mem p) as [a Ha], (zget_is_Some mem (p + 1)) as [b Hb]; [lia..|].
  rewrite Ha, Hb, !some_bind. eexists. split; [done|]. apply is_bytes_zget in Ha, Hb; [|done..]. unfold is_u in *.
  rewrite lor_shiftl_add by (unfold is_u; lia). lia.
Qed.

Lemma call_with_in args p n u : 0 <= p -> 0 <= n -> p + n <= zlen mem -> is_Some (call_with cb args mem p n u).
Proof.
  intros. unfold call_with. destruct (Z.leb_spec 0 p), (Z.leb_spec 0 n), (Z.leb_spec (p + n) (zlen mem)); try lia. apply Hcb.
Qed.

Lemma decode_objects_in args fuel : forall stream sz i u, 0 <= stream -> stream + sz <= zlen mem -> sz <= Z.of_nat fuel ->
  is_Some (decode_array_object cb fuel args mem stream sz i u).
Proof.
  induction fuel as [|fuel IH]; intros stream sz i u Hs Hl Hf; cbn [decode_array_object].
  { destruct (Z.ltb_spec 0 sz); [lia|done]. }
  destruct (Z.ltb_spec 0 sz); [|done]. unfold SIZEOF_LENGTH. destruct (Z.ltb_spec sz 4); [done|].
  destruct (todword_in stream) as (w & Hw & Hwr); [lia|lia|]. rewrite Hw, some_bind. destruct (Z.ltb_spec (sz - 4) w); [done|].
  destruct (call_with_in (set_index i args) (stream + 4) w u) as [[r u'] Hr]; [lia..|]. rewrite Hr, some_bind. cbv beta iota.
  destruct (negb (r =? 0)); [done|]. apply IH; lia.
Qed.

Lemma decode_integers_in args len n : len = 4 \/ len = 8 -> forall stream i u, 0 <= stream -> 0 <= i -> stream + len * (i + Z.of_nat n) <= zlen mem ->
  is_Some (decode_integers cb n args mem stream len i u).
Proof.
  intros Hlen. induction n as [|n IH]; intros stream i u Hs Hi Hl; cbn [decode_integers]; [done|]. unfold SIZEOF_INT32, SIZEOF_INT64.
  assert (exists y, (if len =? 4 then v ← todword mem (stream + i * 4); Some (expand64 v)
    else low ← todword mem (stream + i * 8); hi ← todword mem (stream + i * 8 + 4); Some (low .| (hi << 32))) = Some y) as [y ->].
  { destruct Hlen as [-> | ->].
    - destruct (todword_in (stream + i * 4)) as (w & -> & _); [lia|lia|]. by eexists.
    - destruct (todword_in (stream + i * 8)) as (w & -> & _); [lia|lia|]. destruct (todword_in (stream + i * 8 + 4)) as (w' & -> & _); [lia|lia|]. by eexists. }
  rewrite some_bind. unfold call_int. destruct (Hcb (set_index (i + 1) args) (le_bytes 8 y) u) as [[r u'] ->]. rewrite some_bind.
  apply IH; lia.
Qed.

Lemma decode_booleans_in args n : forall stream i u, 0 <= stream -> 0 <= i -> stream + i + Z.of_nat n <= zlen mem ->
  is_Some (decode_booleans cb n args mem stream i u).
Proof.
  induction n as [|n IH]; intros stream i u Hs Hi Hl; cbn [decode_booleans]; [done|].
  destruct (zget_is_Some mem (stream + i)) as [y ->]; [lia|]. rewrite some_bind. unfold call_int.
  destruct (Hcb (set_index (i + 1) args) (le_bytes 8 y) u) as [[r u'] ->]. rewrite some_bind. apply IH; lia.
Qed.

Lemma decode_array_in args p sz u : 0 <= p -> todword mem p = Some sz -> p + 4 + sz <= zlen mem -> sz < 2 ^ 31 ->
  is_Some (decode_array cb args mem p u).
Proof.
  intros Hp Hsz Hl H31. pose proof (Hnowrap _ _ Hsz). assert (0 <= sz) as H0.
  { destruct (todword_in p) as (w & Hw & ?); [done| |congruence || (rewrite Hsz in Hw; injection Hw as ->; lia)].
    unfold todword in Hsz. destruct (zget mem (p + 3)) eqn:E; [apply zget_in in E; lia|].
    destruct (zget mem p), (zget mem (p + 1)), (zget mem (p + 2)); done. }
  unfold decode_array. rewrite Hsz, some_bind. destruct (Z.eqb_spec sz 0).
  { destruct (Hcb (set_index (-1) args) [] u) as [[r u'] ->]. done. }
  unfold SIZEOF_LENGTH. destruct (a_type args =? SPROTO_TINTEGER).
  - destruct (zget_is_Some mem (p + 4)) as [len ->]; [lia|]. rewrite some_bind. unfold SIZEOF_INT32, SIZEOF_INT64.
    destruct (Z.eqb_spec len 4) as [->|]; [|destruct (Z.eqb_spec len 8) as [->|]; [|done]]; cbn [orb].
    + destruct (Z.eqb_spec ((sz - 1) mod 4) 0); [|done]. cbn [negb].
      destruct (decode_integers_in args 4 (Z.to_nat ((sz - 1) / 4)) ltac:(by left) (p + 4 + 1) 0 u) as [u' ->]; [lia|lia|div_lia|done].
    + destruct (Z.eqb_spec ((sz - 1) mod 8) 0); [|done]. cbn [negb].
      destruct (decode_integers_in args 8 (Z.to_nat ((sz - 1) / 8)) ltac:(by right) (p + 4 + 1) 0 u) as [u' ->]; [lia|lia|div_lia|done].
  - destruct (a_type args =? SPROTO_TBOOLEAN).
    + destruct (decode_booleans_in args (Z.to_nat sz) (p + 4) 0 u) as [u' ->]; [lia..|done].
    + destruct (_ || _); [|done]. unfold i32. rewrite sgn_small by lia. apply decode_objects_in; lia.
Qed.

Lemma decode_data_in f p sz u : 0 <= p -> todword mem p = Some sz -> 0 <= sz -> p + 4 + sz <= zlen mem -> sz < 2 ^ 31 ->
  is_Some (decode_data cb f mem p u).
Proof.
  intros Hp Hsz H0 Hl H31. unfold decode_data, SIZEOF_LENGTH, SIZEOF_INT32, SIZEOF_INT64. destruct (is_array f); [by eapply decode_array_in|].
  destruct (_ =? _).
  - rewrite Hsz, some_bind. destruct (Z.eqb_spec sz 4) as [->|].
    + destruct (todword_in (p + 4)) as (w & -> & _); [lia|lia|]. rewrite some_bind. unfold call_int.
      by destruct (Hcb (arg_of f) (le_bytes 8 (expand64 w)) u) as [[r u'] ->].
    + destruct (Z.eqb_spec sz 8) as [->|]; [|done]. cbn [negb].
      destruct (todword_in (p + 4)) as (w & -> & _); [lia|lia|]. destruct (todword_in (p + 4 + 4)) as (w' & -> & _); [lia|lia|]. rewrite !some_bind.
      unfold call_int. by destruct (Hcb (arg_of f) (le_bytes 8 (w .| (w' << 32))) u) as [[r u'] ->].
  - destruct (_ || _); [|done]. rewrite Hsz, some_bind. unfold i32. rewrite sgn_small by lia. apply call_with_in; lia.
Qed.

Lemma decode_fields_in st total n : wf_type st -> total <= zlen mem -> total < 2 ^ 31 -> forall stream ds size tag u,
  0 <= stream -> stream + 2 * Z.of_nat n <= zlen mem -> 0 <= size -> ds + size = total -> 0 <= ds ->
  exists r u', decode_fields cb n st mem stream ds size tag u = Some (r, u') /\ match r with Some s => 0 <= s <= size | None => True end.
Proof.
  intros Hst Htot H31. induction n as [|n IH]; intros stream ds size tag u Hs Hsn Hsz Hds Hd0; cbn [decode_fields].
  { exists (Some size), u. split; [done|lia]. }
  destruct (toword_in stream) as (v & Hv & Hvr); [lia|lia|]. rewrite Hv, some_bind. unfold SIZEOF_FIELD.
  destruct (Z.odd v); [apply IH; lia|].
  destruct (findtag_spec st (tag + 1) Hst) as (f & Hft & _).
  destruct (Z.ltb_spec (v / 2 - 1) 0) as [Hneg|Hpos].
  - unfold SIZEOF_LENGTH. destruct (Z.ltb_spec size 4); [rewrite some_bind; by exists None, u|].
    destruct (todword_in ds) as (w & Hw & Hwr); [lia|lia|]. rewrite Hw, !some_bind. unfold u32, i32.
    rewrite (wrap_small 32 (w + 4)), (wrap_small 32 size) by (unfold is_u; lia).
    destruct (Z.ltb_spec size (w + 4)); [rewrite some_bind; by exists None, u|]. rewrite some_bind, sgn_small by lia. cbv beta iota.
    rewrite Hft, some_bind. destruct f as [f|].
    + destruct (decode_data_in f ds w u) as [[r u'] Hr]; [done|done|lia|lia|lia|]. rewrite Hr, some_bind. cbv beta iota.
      destruct (r =? 0); cbn [negb]; [|by exists None, u'].
      destruct (IH (stream + 2) (ds + (w + 4)) (size - (w + 4)) (tag + 1) u') as (r2 & u2 & -> & Hr2); [lia..|].
      exists r2, u2. split; [done|]. destruct r2; [lia|done].
    + destruct (IH (stream + 2) (ds + (w + 4)) (size - (w + 4)) (tag + 1) u) as (r2 & u2 & -> & Hr2); [lia..|].
      exists r2, u2. split; [done|]. destruct r2; [lia|done].
  - rewrite some_bind. cbv beta iota. rewrite Hft, some_bind. destruct f as [f|]; [|apply IH; lia].
    assert (exists r u', decode_slot cb f (v / 2 - 1) u = Some (r, u')) as (r & u' & ->).
    { unfold decode_slot. destruct (_ && _); [by exists (-1), u|]. unfold call_int. destruct (Hcb (arg_of f) (le_bytes 8 (v / 2 - 1)) u) as [[r u'] ->]. by eexists 0, u'. }
    rewrite some_bind. cbv beta iota. destruct (r =? 0); cbn [negb]; [apply IH; lia|by exists None, u'].
Qed.

Lemma decode_in st size u : wf_type st -> 0 <= size <= zlen mem -> size < 2 ^ 31 ->
  exists r u', sproto_decode cb st mem size u = Some (r, u') /\ -1 <= r <= size.
Proof.
  intros Hst Hs H31. unfold sproto_decode, SIZEOF_HEADER, SIZEOF_FIELD. destruct (Z.ltb_spec size 2); [exists (-1), u; split; [done|lia]|].
  destruct (toword_in 0) as (fn & Hfn & Hr); [lia|lia|]. rewrite Hfn, some_bind. destruct (Z.ltb_spec (size - 2) (fn * 2)); [exists (-1), u; split; [done|lia]|].
  destruct (decode_fields_in st size (Z.to_nat fn) Hst ltac:(lia) H31 2 (2 + fn * 2) (size - 2 - fn * 2) (-1) u) as (r & u' & -> & Hr'); [lia..|].
  rewrite some_bind. eexists _, u'. split; [done|]. destruct r; lia.
Qed.
End any_bytes.
