(* ===== verification/SprotoCodec.v ===== *)
(** The properties of sproto's messages: encoding and decoding together, and a callback
    that plays back a message, on which they are evaluated. *)

From S2P Require Import Prelude Bytes CString Sproto SprotoMessage SprotoEncode SprotoDecode.
Local Open Scope Z_scope.

(** ** A callback that plays back answers *)

Module Script.
(** The next answer: an item or the end of what was asked for. *)
Inductive answer := AItem (x : item) | ACode (code : Z).
Definition script_field (f : field) (v : fval) : list answer :=
  match v with
  | FNone => [ACode (if is_array f then SPROTO_CB_NOARRAY else SPROTO_CB_NIL)]
  | FOne x => [AItem x]
  | FMany l => (AItem <$> l) ++ [ACode SPROTO_CB_NIL]
  end.
Definition script (content : field -> fval) (fs : list field) : list answer := flat_map (fun f => script_field f (content f)) fs.

Definition play (args : sproto_arg) (v : cells) (u : list answer) : option (Z * cells * list answer) :=
  match u with
  | [] => None
  | ACode code :: u => Some (code, v, u)
  | AItem x :: u =>
    let bytes := cb_bytes x in
    if zlen bytes <=? zlen v then v ← store v 0 bytes; Some (zlen bytes, v, u) else Some (SPROTO_CB_ERROR, v, u)
  end.

(** What is left of the script before index [i] of the first field. *)
Definition at_index (content : field -> fval) (fs : list field) (i : Z) (u : list answer) : Prop :=
  match fs with
  | [] => u = []
  | f :: _ =>
    match content f with
    | FMany l => u = drop (Z.to_nat (i - 1)) (script content fs) /\ i - 1 <= zlen l
    | _ => u = script content fs
    end
  end.

Lemma take_holds v l : holds v 0 l -> zlen l <= zlen v -> take (Z.to_nat (zlen l)) v = Some <$> l.
Proof. intros Hh Hl. pose proof (holds_take v 0 l Hh ltac:(lia)) as <-. cbn [drop]. f_equal. unfold zlen. lia. Qed.

Lemma play_gives f args v x u Q : Q u ->
  (is_obj x = false -> 8 <= zlen v \/ (zlen (cb_bytes x) <= zlen v)) -> gives play (fun _ _ => 0) f args v (AItem x :: u) x Q.
Proof.
  intros HQ Hv. unfold gives, play. destruct (Z.leb_spec (zlen (cb_bytes x)) (zlen v)).
  - destruct (store_spec v 0 (cb_bytes x)) as (v' & Hs & Hz & Hh & _); [done|lia|]. rewrite Hs, some_bind.
    do 3 eexists. split; [done|]. split; [done|]. left. split; [done|]. split; [done|]. split; [apply take_holds; [done|lia]|done].
  - do 3 eexists. split; [done|]. split; [done|]. right. split; [done|]. destruct x as [| |l]; [| |split; [done|cbn [cb_bytes room_for] in *; lia]].
    1,2: match goal with |- context [is_obj ?y] => pose proof (zlen_cb_bytes y eq_refl); specialize (Hv eq_refl); lia end.
Qed.

Lemma at_next content fs : at_index content fs 1 (script content fs).
Proof. destruct fs as [|f fs]; [done|]. unfold at_index. destruct (content f); [done|done|]. split; [done|apply zlen_nonneg]. Qed.

Lemma scalar_room f x v : wf_item (elem_type f) x -> region_ok f v -> is_obj x = false -> zlen (cb_bytes x) <= zlen v.
Proof.
  intros Hx Hv Ho. unfold region_ok in Hv. destruct x as [z|b|]; [| |done]; cbn [cb_bytes].
  - destruct Hx as [Ht _]. rewrite Ht in Hv. cbn in Hv. subst v. destruct (fits32 z); rewrite zlen_le_bytes; done.
  - cbn in Hx. rewrite Hx in Hv. cbn in Hv. rewrite zlen_le_bytes. subst v. by destruct (is_array f).
Qed.

#[export] Instance play_sender content : (forall f, content f = FNone \/ (wf_field f /\ wf_fval f (content f))) -> Sender play content (fun _ _ => 0) (at_index content).
Proof.
  intros Hwf. constructor. intros f fs i u v HM Hi Hv. specialize (Hwf f). unfold at_index in HM.
  assert (Hs : script content (f :: fs) = script_field f (content f) ++ script content fs) by done. rewrite Hs in HM.
  destruct (content f) as [|x|l] eqn:Hcf.
  - cbn [script_field app] in HM. destruct (is_array f); subst u; do 2 eexists; (split; [done|]); (split; [done|apply at_next]).
  - cbn [script_field app] in HM. subst u. apply play_gives; [apply at_next|]. intros Ho. right. destruct Hwf as [|[Hf [Ha Hx]]]; [done|].
    apply (scalar_room f); [|done|done]. by destruct (field_types f Hf) as [(_ & -> & _)|[? _]]; [|congruence].
  - destruct HM as [-> Hil].
    assert (Hdrop : forall n, (n <= length l)%nat -> drop n (script_field f (FMany l) ++ script content fs) =
      (AItem <$> drop n l) ++ ACode SPROTO_CB_NIL :: script content fs).
    { intros n Hn. cbn [script_field]. rewrite <- app_assoc, drop_app_le by (by rewrite length_fmap). by rewrite fmap_drop. }
    destruct (zget l (i - 1)) as [x|] eqn:Hx.
    + pose proof (zget_in _ _ _ Hx). rewrite zget_nonneg in Hx by lia. rewrite Hdrop by (unfold zlen in *; lia).
      rewrite (drop_S _ _ _ Hx). cbn [fmap list_fmap app]. apply play_gives.
      * unfold at_index. rewrite Hcf, Hs, Hdrop by (unfold zlen in *; lia). split; [|lia]. do 3 f_equal. lia.
      * intros Ho. right. destruct Hwf as [|[_ [_ Hc]]]; [done|]. rewrite Forall_forall in Hc. apply (scalar_room f); [|done|done]. apply Hc.
        by eapply list_elem_of_lookup_2.
    + assert (Hend : i - 1 = zlen l).
      { destruct (Z.lt_ge_cases (i - 1) (zlen l)); [|lia]. by destruct (zget_is_Some l (i - 1)) as [? ?]; [lia|congruence]. }
      rewrite Hdrop by (unfold zlen in *; lia). rewrite drop_ge by (unfold zlen in *; lia). cbn [fmap list_fmap app].
      do 2 eexists. split; [done|]. split; [done|apply at_next].
Qed.
End Script.

(** ** Properties *)

(** [C26] Whatever the callback that hands over a message, and whatever the size of the buffer, [sproto_encode]
    never writes beyond the buffer nor a slot into the data: it returns the size of the
    message, whose bytes are then at the start of the buffer, or -1, and that only when the
    buffer is smaller than the message may need. *)
Theorem sproto_encode_message {U} (cb : sproto_arg -> cells -> U -> option (Z * cells * U)) content room M `{!Sender cb content room M} st buf u :
  wf_type st -> zlen buf < 2 ^ 63 -> Forall (fun f => wf_fval f (content f)) (t_f st) -> M (t_f st) 1 u ->
  exists r buf' u', sproto_encode cb st buf u = Some (r, buf', u') /\ zlen buf' = zlen buf /\
    ((r = zlen (message content (t_f st)) /\ r <= zlen buf /\ take (Z.to_nat r) buf' = Some <$> message content (t_f st)) \/
     (r = -1 /\ zlen buf < header_size (t_maxn st) + all_needs content room (t_f st))).
Proof.
  intros Hst H63 Hv HM. destruct (sproto_encode_spec cb content room M st buf u Hst H63 Hv HM) as (r & buf' & u' & He & Hz & Hr).
  exists r, buf', u'. split; [done|]. split; [done|]. destruct Hr as [(? & ? & ? & _)|?]; [by left|by right].
Qed.

(** [C25] A message that a callback hands over is encoded when the buffer has enough room for it, and what
    is encoded, whatever follows it, is decoded into exactly the calls with its values, in order, up to one on a
    string or a struct that fails; decoding returns the size of the message. *)
Theorem sproto_roundtrip {U V} (cb : sproto_arg -> cells -> U -> option (Z * cells * U)) content room M `{!Sender cb content room M}
    (receive : sproto_arg -> list Z -> V -> option (Z * V)) st buf u rest v :
  wf_type st -> header_size (t_maxn st) + all_needs content room (t_f st) <= zlen buf < 2 ^ 31 ->
  Forall (fun f => wf_fval f (content f)) (t_f st) -> M (t_f st) 1 u ->
  exists n buf' u' bytes, sproto_encode cb st buf u = Some (n, buf', u') /\
    take (Z.to_nat n) buf' = Some <$> bytes /\ zlen bytes = n /\
    sproto_decode receive st (bytes ++ rest) n v =
      ('(ok, v) ← run_calls receive (calls_of content (t_f st)) v; Some (if ok : bool then n else -1, v)).
Proof.
  intros Hst Hb Hv HM. destruct (sproto_encode_spec cb content room M st buf u Hst ltac:(lia) Hv HM) as (r & buf' & u' & He & Hz & Hr).
  destruct Hr as [(-> & Hle & Ht & _)|[_ ?]]; [|lia]. exists (zlen (message content (t_f st))), buf', u', (message content (t_f st)).
  split_and!; try done. apply (sproto_decode_spec receive _ st content Hst rest); [done|lia|done].
Qed.

(** [C27] Decoding reads nothing out of bounds on any bytes in which no four are a number above 0xfffffffb,
    and returns -1 or the number of bytes it has read. *)
Theorem sproto_decode_safe {U} (cb : sproto_arg -> list Z -> U -> option (Z * U)) st mem size u :
  (forall a bytes u, is_Some (cb a bytes u)) -> is_bytes mem -> (forall p w, todword mem p = Some w -> w < 0xfffffffc) ->
  wf_type st -> 0 <= size <= zlen mem -> size < 2 ^ 31 ->
  exists r u', sproto_decode cb st mem size u = Some (r, u') /\ -1 <= r <= size.
Proof. intros Hcb Hm Hw Hst Hs H31. by apply (decode_in cb mem Hcb Hm Hw). Qed.


(** ** At a concrete message *)

Module Demo.
Import Script.
Definition mk (tag type : Z) : field := {| f_tag := tag; f_type := type; f_name := [97; tag]; f_st := None; f_key := -1; f_extra := 0 |}.
Definition st : sproto_type := {|
  t_name := [116]; t_n := 6; t_base := -1; t_maxn := 9;
  t_f := [mk 0 SPROTO_TSTRING; mk 1 SPROTO_TINTEGER; mk 3 (SPROTO_TARRAY + SPROTO_TBOOLEAN); mk 4 SPROTO_TINTEGER;
          mk 7 (SPROTO_TARRAY + SPROTO_TINTEGER); mk 9 (SPROTO_TARRAY + SPROTO_TSTRUCT)] |}.
(** A string, a large integer, an array of booleans, nothing, integers of both widths, two structs. *)
Definition content (f : field) : fval :=
  if bool_decide (f = mk 0 SPROTO_TSTRING) then FOne (IObj [104; 105])
  else if bool_decide (f = mk 1 SPROTO_TINTEGER) then FOne (IInt (-5))
  else if bool_decide (f = mk 3 (SPROTO_TARRAY + SPROTO_TBOOLEAN)) then FMany [IBool true; IBool false]
  else if bool_decide (f = mk 7 (SPROTO_TARRAY + SPROTO_TINTEGER)) then FMany [IInt 7; IInt (-1); IInt (2 ^ 40); IInt 3]
  else if bool_decide (f = mk 9 (SPROTO_TARRAY + SPROTO_TSTRUCT)) then FMany [IObj [0; 0]; IObj []]
  else FNone.

Lemma wf_st : wf_type st.
Proof. constructor; [done|by_eval|by_eval|by_eval|done]. Qed.

Lemma content_wf : Forall (fun f => wf_fval f (content f)) (t_f st).
Proof. repeat constructor; by_eval. Qed.

Lemma content_any f : content f = FNone \/ (wf_field f /\ wf_fval f (content f)).
Proof. unfold content. repeat case_bool_decide; try (by left); right; subst f; split; by_eval. Qed.

(** A receiver that notes down what it is given. *)
Definition note (args : sproto_arg) (bytes : list Z) (u : list (Z * Z * list Z)) : option (Z * list (Z * Z * list Z)) :=
  Some (0, u ++ [(a_tagid args, a_index args, bytes)]).

Lemma start : at_index content (t_f st) 1 (script content (t_f st)).
Proof. apply at_next. Qed.
End Demo.

Example sproto_encode_message_witness :
  exists r buf' u', sproto_encode Script.play Demo.st (malloc 60) (Script.script Demo.content (t_f Demo.st)) = Some (r, buf', u') /\ zlen buf' = 60 /\
    ((r = zlen (message Demo.content (t_f Demo.st)) /\ r <= 60 /\ take (Z.to_nat r) buf' = Some <$> message Demo.content (t_f Demo.st)) \/
     (r = -1 /\ 60 < header_size 9 + all_needs Demo.content (fun _ _ => 0) (t_f Demo.st))).
Proof.
  apply (sproto_encode_message Script.play Demo.content (fun _ _ => 0) (Script.at_index Demo.content)
    (Sender0 := Script.play_sender Demo.content Demo.content_any) Demo.st (malloc 60));
    [apply Demo.wf_st|by_eval|apply Demo.content_wf|apply Demo.start].
Defined.

Example sproto_roundtrip_witness :
  exists n buf' u' bytes, sproto_encode Script.play Demo.st (malloc 400) (Script.script Demo.content (t_f Demo.st)) = Some (n, buf', u') /\
    take (Z.to_nat n) buf' = Some <$> bytes /\ zlen bytes = n /\
    sproto_decode Demo.note Demo.st (bytes ++ [255; 255]) n [] =
      ('(ok, v) ← run_calls Demo.note (calls_of Demo.content (t_f Demo.st)) []; Some (if ok : bool then n else -1, v)).
Proof.
  apply (sproto_roundtrip Script.play Demo.content (fun _ _ => 0) (Script.at_index Demo.content)
    (Sender0 := Script.play_sender Demo.content Demo.content_any) Demo.note Demo.st (malloc 400));
    [apply Demo.wf_st|by_eval|apply Demo.content_wf|apply Demo.start].
Defined.

Example sproto_decode_safe_witness :
  exists r u', sproto_decode Demo.note Demo.st [1; 0; 0; 0; 200; 1; 0; 0] 8 [] = Some (r, u') /\ -1 <= r <= 8.
Proof.
  apply (sproto_decode_safe Demo.note Demo.st [1; 0; 0; 0; 200; 1; 0; 0]);
    [by intros|by_eval| |apply Demo.wf_st|by_eval|by_eval].
  assert (Hall : forallb (fun p => match todword [1; 0; 0; 0; 200; 1; 0; 0] p with Some w => w <? 0xfffffffc | None => true end) (seqZ 0 8) = true) by by_eval.
  intros p w Hw. assert (0 <= p < 8) as Hp.
  { unfold todword in Hw. destruct (zget _ p) eqn:E; [|done]. by apply zget_in in E. }
  rewrite forallb_forall in Hall. specialize (Hall p). rewrite Hw in Hall. apply Z.ltb_lt, Hall, list_elem_of_In, elem_of_seqZ. lia.
Defined.

(** ** What modelling showed *)

(** A size of 0xfffffffc passes the check, and the callback is given a length of -4. *)
Example decode_size_wraps : sproto_decode Demo.note Demo.st [1; 0; 0; 0; 252; 255; 255; 255] 8 [] = None.
Proof. vm_compute. reflexivity. Qed.

(** What is written for [Demo.content]: nine slots would fit, eight are used. *)
Example demo_message : message Demo.content (t_f Demo.st) =
  [8; 0;  0; 0;  0; 0;  1; 0;  0; 0;  5; 0;  0; 0;  1; 0;  0; 0;
   2; 0; 0; 0; 104; 105;  4; 0; 0; 0; 251; 255; 255; 255;  2; 0; 0; 0; 1; 0;
   33; 0; 0; 0; 8;  7; 0; 0; 0; 0; 0; 0; 0;  255; 255; 255; 255; 255; 255; 255; 255;
   0; 0; 0; 0; 0; 1; 0; 0;  3; 0; 0; 0; 0; 0; 0; 0;
   10; 0; 0; 0;  2; 0; 0; 0; 0; 0;  0; 0; 0; 0].
Proof. vm_compute. reflexivity. Qed.
