(* ===== verification/SprotoImport.v ===== *)
(** Loading descriptions: [sproto_create] of lualib-src/sproto/sproto.c, which reads the types and protocols from
    a bundle, itself a message of sproto; and what the types it accepts satisfy.

    The bundle is [mem], a pointer into it an offset.  [None] is a read out of bounds or a loop that does not
    end, [Some None] the NULL or -1 of the code.  Allocations from the pool succeed. *)

From S2P Require Import Prelude Bytes CString Sproto SprotoMessage SprotoDecode.
Local Open Scope Z_scope.
Local Open Scope word_scope.

Section bundle.
Context (mem : list Z).

Fixpoint count_loop (fuel : nat) (stream length n : Z) : option (option Z) :=
  if 0 <? length then
    match fuel with
    | O => None
    | S fuel =>
      if length <? SIZEOF_LENGTH then Some None
      else
        nsz ← todword mem stream;
        let nsz := u32 (nsz + SIZEOF_LENGTH) in
        if length <? nsz then Some None else count_loop fuel (stream + nsz) (length - nsz) (n + 1)
    end
  else Some (Some n).
Definition count_array (stream : Z) : option (option Z) :=
  length ← todword mem stream;
  count_loop (Z.to_nat length) (stream + SIZEOF_LENGTH) length 0.

(** The loop over the slots, from slot [i] on. *)
Fixpoint struct_loop (n : nat) (field i stream sz : Z) : option bool :=
  match n with
  | O => Some true
  | S n =>
    value ← toword mem (field + i * SIZEOF_FIELD);
    if negb (value =? 0) then struct_loop n field (i + 1) stream sz
    else if sz <? SIZEOF_LENGTH then Some false
    else
      dsz ← todword mem stream;
      let len := u32 (SIZEOF_LENGTH + dsz) in
      if sz <? len then Some false else struct_loop n field (i + 1) (stream + len) (sz - len)
  end.
Definition struct_field (stream sz : Z) : option (option Z) :=
  if sz <? SIZEOF_LENGTH then Some None
  else
    fn ← toword mem stream;
    let header := SIZEOF_HEADER + SIZEOF_FIELD * fn in
    if sz <? header then Some None
    else
      ok ← struct_loop (Z.to_nat fn) (stream + SIZEOF_HEADER) 0 (stream + header) (sz - header);
      Some (if ok : bool then Some fn else None).

(** The bytes before the first zero: what the string functions see. *)
Fixpoint c_string (l : list Z) : list Z := match l with [] => [] | x :: l => if x =? 0 then [] else x :: c_string l end.
Definition import_string (stream : Z) : option (list Z) :=
  sz ← todword mem stream;
  let p := stream + SIZEOF_LENGTH in
  if (0 <=? p) && (p + sz <=? zlen mem) then Some (c_string (take (Z.to_nat sz) (drop (Z.to_nat p) mem))) else None.

Fixpoint calc_pow_loop (fuel : nat) (base n : Z) : Z :=
  match fuel with
  | O => 1
  | S fuel =>
    if n =? 0 then 1
    else let r := calc_pow_loop fuel (base * base) (n / 2) in if Z.odd n then r * base else r
  end.
Definition calc_pow (base n : Z) : Z := calc_pow_loop 32 base n.

Record import_state := { i_tag : Z; i_type : Z; i_name : option (list Z); i_st : option Z; i_key : Z; i_extra : Z; i_array : Z }.

(** One attribute of a field, with [value] already decoded; [None] is a [return NULL]. *)
Definition import_attribute (ntypes tag value : Z) (f : import_state) : option import_state :=
  match f with
  | {| i_tag := t; i_type := ty; i_name := nm; i_st := st; i_key := k; i_extra := x; i_array := a |} =>
    if tag =? 1 then
      if SPROTO_TSTRUCT <=? value then None
      else Some {| i_tag := t; i_type := value; i_name := nm; i_st := st; i_key := k; i_extra := x; i_array := a |}
    else if tag =? 2 then
      if ty =? SPROTO_TINTEGER
      then Some {| i_tag := t; i_type := ty; i_name := nm; i_st := st; i_key := k; i_extra := calc_pow 10 value; i_array := a |}
      else if ty =? SPROTO_TSTRING
      then Some {| i_tag := t; i_type := ty; i_name := nm; i_st := st; i_key := k; i_extra := value; i_array := a |}
      else if ntypes <=? value then None
      else if 0 <=? ty then None
      else Some {| i_tag := t; i_type := SPROTO_TSTRUCT; i_name := nm; i_st := Some value; i_key := k; i_extra := x; i_array := a |}
    else if tag =? 3 then Some {| i_tag := value; i_type := ty; i_name := nm; i_st := st; i_key := k; i_extra := x; i_array := a |}
    else if tag =? 4 then
      Some {| i_tag := t; i_type := ty; i_name := nm; i_st := st; i_key := k; i_extra := x;
              i_array := if negb (value =? 0) then SPROTO_TARRAY else a |}
    else if tag =? 5 then Some {| i_tag := t; i_type := ty; i_name := nm; i_st := st; i_key := value; i_extra := x; i_array := a |}
    else None
  end.
Definition set_name (nm : list Z) (f : import_state) : import_state :=
  {| i_tag := i_tag f; i_type := i_type f; i_name := Some nm; i_st := i_st f; i_key := i_key f; i_extra := i_extra f; i_array := i_array f |}.

(** The loop over the [fn] slots of a field, which start at [stream]. *)
Fixpoint import_slots (n : nat) (ntypes fn stream i tag : Z) (f : import_state) : option (option import_state) :=
  match n with
  | O => Some (Some f)
  | S n =>
    let tag := tag + 1 in
    value ← toword mem (stream + SIZEOF_FIELD * i);
    if Z.odd value then import_slots n ntypes fn stream (i + 1) (tag + value / 2) f
    else if tag =? 0 then
      if negb (value =? 0) then Some None
      else nm ← import_string (stream + fn * SIZEOF_FIELD); import_slots n ntypes fn stream (i + 1) tag (set_name nm f)
    else if value =? 0 then Some None
    else
      match import_attribute ntypes tag (value / 2 - 1) f with
      | None => Some None
      | Some f => import_slots n ntypes fn stream (i + 1) tag f
      end
  end.

Definition import_field (ntypes stream : Z) : option (option (field * Z)) :=
  sz ← todword mem stream;
  let stream := stream + SIZEOF_LENGTH in
  fn ← struct_field stream sz;
  match fn with
  | None => Some None
  | Some fn =>
    f ← import_slots (Z.to_nat fn) ntypes fn (stream + SIZEOF_HEADER) 0 (-1)
      {| i_tag := -1; i_type := -1; i_name := None; i_st := None; i_key := -1; i_extra := 0; i_array := 0 |};
    Some (f ← f; nm ← i_name f;
      if (i_tag f <? 0) || (i_type f <? 0) then None
      else Some ({| f_tag := i_tag f; f_type := i_type f .| i_array f; f_name := nm; f_st := i_st f; f_key := i_key f; f_extra := i_extra f |},
                 stream + sz))
  end.

(** The fields of a type: [last] is the last tag, [maxn] the slots counted so far. *)
Fixpoint import_fields (n : nat) (ntypes stream last maxn : Z) : option (option (list field * Z)) :=
  match n with
  | O => Some (Some ([], maxn))
  | S n =>
    r ← import_field ntypes stream;
    match r with
    | None => Some None
    | Some (f, stream) =>
      let tag := f_tag f in
      if tag <=? last then Some None
      else
        r ← import_fields n ntypes stream tag (if last + 1 <? tag then maxn + 1 else maxn);
        Some ('(fs, maxn) ← r; Some (f :: fs, maxn))
    end
  end.

(** Each of the [n] slots at [p] is 0. *)
Fixpoint zero_slots (n : nat) (p : Z) : option bool :=
  match n with
  | O => Some true
  | S n => v ← toword mem p; if negb (v =? 0) then Some false else zero_slots n (p + SIZEOF_FIELD)
  end.

Definition import_type (ntypes stream : Z) : option (option (sproto_type * Z)) :=
  sz ← todword mem stream;
  let stream := stream + SIZEOF_LENGTH in
  let result := stream + sz in
  fn ← struct_field stream sz;
  match fn with
  | None => Some None
  | Some fn =>
    if (fn <=? 0) || (2 <? fn) then Some None
    else
      ok ← zero_slots (Z.to_nat fn) (stream + SIZEOF_HEADER);
      if negb ok then Some None
      else
        let stream := stream + SIZEOF_HEADER + fn * SIZEOF_FIELD in
        name ← import_string stream;
        if fn =? 1 then Some (Some ({| t_name := name; t_n := 0; t_base := 0; t_maxn := 0; t_f := [] |}, result))
        else
          namesz ← todword mem stream;
          let stream := stream + u32 (namesz + SIZEOF_LENGTH) in
          n ← count_array stream;
          match n with
          | None => Some None
          | Some n =>
            r ← import_fields (Z.to_nat n) ntypes (stream + SIZEOF_LENGTH) (-1) n;
            match r with
            | None => Some None
            | Some (fs, maxn) =>
              first ← zget fs 0;
              last ← zget fs (n - 1);
              let base := f_tag first in
              Some (Some ({| t_name := name; t_n := n;
                             t_base := if f_tag last - base + 1 =? n then base else -1; t_maxn := maxn; t_f := fs |}, result))
            end
          end
  end.

Record protocol_state := { s_name : option (list Z); s_tag : Z; s_request : option Z; s_response : option Z; s_confirm : Z }.

(** One slot of a protocol: the cases are by slot, not by tag. *)
Definition import_case (ntypes fn stream i value : Z) (p : protocol_state) : option (option protocol_state) :=
  if i =? 0 then
    if negb (value =? -1) then Some None
    else nm ← import_string (stream + SIZEOF_FIELD * fn);
         Some (Some {| s_name := Some nm; s_tag := s_tag p; s_request := s_request p; s_response := s_response p; s_confirm := s_confirm p |})
  else if i =? 1 then
    Some (if value <? 0 then None
      else Some {| s_name := s_name p; s_tag := value; s_request := s_request p; s_response := s_response p; s_confirm := s_confirm p |})
  else if i =? 2 then
    Some (if (value <? 0) || (ntypes <=? value) then None
      else Some {| s_name := s_name p; s_tag := s_tag p; s_request := Some value; s_response := s_response p; s_confirm := s_confirm p |})
  else if i =? 3 then
    Some (if (value <? 0) || (ntypes <=? value) then None
      else Some {| s_name := s_name p; s_tag := s_tag p; s_request := s_request p; s_response := Some value; s_confirm := s_confirm p |})
  else if i =? 4 then
    Some (Some {| s_name := s_name p; s_tag := s_tag p; s_request := s_request p; s_response := s_response p; s_confirm := value |})
  else Some None.

Fixpoint import_cases (n : nat) (ntypes fn stream i : Z) (p : protocol_state) : option (option protocol_state) :=
  match n with
  | O => Some (Some p)
  | S n =>
    value ← toword mem (stream + SIZEOF_FIELD * i);
    if Z.odd value then import_cases n ntypes fn stream (i + 1) p
    else
      r ← import_case ntypes fn stream i (value / 2 - 1) p;
      match r with None => Some None | Some p => import_cases n ntypes fn stream (i + 1) p end
  end.

Definition import_protocol (ntypes stream : Z) : option (option (protocol * Z)) :=
  sz ← todword mem stream;
  let stream := stream + SIZEOF_LENGTH in
  fn ← struct_field stream sz;
  let fn := default (-1) fn in
  p ← import_cases (Z.to_nat fn) ntypes fn (stream + SIZEOF_HEADER) 0
    {| s_name := None; s_tag := -1; s_request := None; s_response := None; s_confirm := 0 |};
  Some (p ← p; nm ← s_name p;
    if s_tag p <? 0 then None
    else Some ({| p_name := nm; p_tag := s_tag p; p_confirm := s_confirm p; p_request := s_request p; p_response := s_response p |}, stream + sz)).

(** [n] types or protocols behind one another. *)
Fixpoint import_all {A} (import : Z -> option (option (A * Z))) (n : nat) (stream : Z) : option (option (list A)) :=
  match n with
  | O => Some (Some [])
  | S n =>
    r ← import stream;
    match r with
    | None => Some None
    | Some (x, stream) => r ← import_all import n stream; Some (l ← r; Some (x :: l))
    end
  end.

(** The arrays of the bundle: number and position, that of the types first. *)
Fixpoint bundle_arrays (n : nat) (stream i content : Z) : option (option (list (Z * Z))) :=
  match n with
  | O => Some (Some [])
  | S n =>
    value ← toword mem (stream + i * SIZEOF_FIELD);
    if negb (value =? 0) then Some None
    else
      k ← count_array content;
      match k with
      | None => Some None
      | Some k =>
        sz ← todword mem content;
        r ← bundle_arrays n stream (i + 1) (content + u32 (sz + SIZEOF_LENGTH));
        Some (l ← r; Some ((k, content + SIZEOF_LENGTH) :: l))
      end
  end.

Definition create_from_bundle (sz : Z) : option (option sproto) :=
  fn ← struct_field 0 sz;
  match fn with
  | None => Some None
  | Some fn =>
    if 2 <? fn then Some None
    else
      r ← bundle_arrays (Z.to_nat fn) SIZEOF_HEADER 0 (SIZEOF_HEADER + fn * SIZEOF_FIELD);
      match r with
      | None => Some None
      | Some arrays =>
        let '(ntypes, typedata) := default (0, 0) (arrays !! 0%nat) in
        let '(nprotos, protodata) := default (0, 0) (arrays !! 1%nat) in
        ts ← import_all (import_type ntypes) (Z.to_nat ntypes) typedata;
        match ts with
        | None => Some None
        | Some ts =>
          ps ← import_all (import_protocol ntypes) (Z.to_nat nprotos) protodata;
          Some (ps ← ps; Some {| type_n := ntypes; protocol_n := nprotos; types := ts; protos := ps |})
        end
      end
  end.

Definition sproto_create (sz : Z) : option (option sproto) := create_from_bundle sz.
End bundle.

(** ** What is accepted *)

Section accepted.
Context (mem : list Z) (Hmem : is_bytes mem).

Lemma toword_range p v : toword mem p = Some v -> 0 <= v < 0x10000.
Proof.
  unfold toword. destruct (zget mem p) as [a|] eqn:Ha; [|done]. destruct (zget mem (p + 1)) as [b|] eqn:Hb; [|done].
  intros [= <-]. apply is_bytes_zget in Ha, Hb; [|done..]. unfold is_u in *. rewrite lor_shiftl_add by (unfold is_u; lia). lia.
Qed.

Lemma count_loop_nonneg fuel stream length n k : 0 <= n -> count_loop mem fuel stream length n = Some (Some k) -> 0 <= k.
Proof.
  revert stream length n. induction fuel as [|fuel IH]; intros stream length n Hn; cbn [count_loop].
  { destruct (0 <? length); [done|]. by intros [= <-]. }
  destruct (0 <? length); [|by intros [= <-]]. destruct (length <? SIZEOF_LENGTH); [done|].
  destruct (todword mem stream) as [w|]; [|done]. rewrite some_bind. destruct (_ <? _); [done|]. apply IH. lia.
Qed.

Definition state_ok (ntypes : Z) (f : import_state) : Prop :=
  -1 <= i_tag f <= 0x7ffe /\ -1 <= i_type f <= 3 /\ (i_array f = 0 \/ i_array f = SPROTO_TARRAY) /\
  (forall i, i_st f = Some i -> 0 <= i < ntypes).

Lemma import_attribute_ok ntypes tag value f f' : 0 <= value <= 0x7ffe -> state_ok ntypes f ->
  import_attribute ntypes tag value f = Some f' -> state_ok ntypes f'.
Proof.
  intros Hv (Ht & Hty & Ha & Hst). destruct f as [t ty nm st k x a]. cbn in Ht, Hty, Ha, Hst. unfold import_attribute, state_ok.
  unfold SPROTO_TSTRUCT, SPROTO_TINTEGER, SPROTO_TSTRING.
  repeat (case_match; try discriminate); intros [= <-]; cbn; split_and!; try lia; try done; try (intros ? [= <-]; lia); by right.
Qed.

Lemma import_slots_ok n ntypes fn stream i tag f f' : state_ok ntypes f ->
  import_slots mem n ntypes fn stream i tag f = Some (Some f') -> state_ok ntypes f'.
Proof.
  revert i tag f. induction n as [|n IH]; intros i tag f Hf; cbn [import_slots]; [by intros [= <-]|].
  destruct (toword mem _) as [v|] eqn:Hv; [|done]. rewrite some_bind. apply toword_range in Hv.
  destruct (Z.odd v) eqn:Hodd; [by apply IH|]. destruct (tag + 1 =? 0).
  { destruct (negb (v =? 0)); [done|]. destruct (import_string mem _) as [nm|]; [|done]. rewrite some_bind. by apply IH. }
  destruct (Z.eqb_spec v 0); [done|]. destruct (import_attribute _ _ _ f) as [f1|] eqn:Hat; [|done].
  apply IH. eapply import_attribute_ok; [|done..]. assert (v mod 2 = 0) by (rewrite Zmod_odd, Hodd; done). div_lia.
Qed.

Definition refs_ok (ntypes : Z) (f : field) : Prop := forall i, f_st f = Some i -> 0 <= i < ntypes.

Lemma import_field_ok ntypes stream f stream' : import_field mem ntypes stream = Some (Some (f, stream')) -> wf_field f /\ refs_ok ntypes f.
Proof.
  unfold import_field. destruct (todword mem stream) as [sz|]; [|done]. rewrite some_bind.
  destruct (struct_field mem _ _) as [[fn|]|]; [|done|done]. rewrite some_bind.
  destruct (import_slots _ _ _ _ _ _ _ _) as [[s|]|] eqn:Hs; [|done|done]. rewrite some_bind.
  apply import_slots_ok in Hs as (Ht & Hty & Ha & Hst); [|unfold state_ok; cbn; split_and!; first [lia|by left|done]].
  cbn [mbind option_bind]. destruct (i_name s) as [nm|]; [|done]. cbn [mbind option_bind].
  destruct (Z.ltb_spec (i_tag s) 0), (Z.ltb_spec (i_type s) 0); try done. cbn [orb]. intros [= <- <-].
  split; [|intros i; apply Hst]. unfold wf_field. cbn. split; [|lia].
  assert (i_type s = 0 \/ i_type s = 1 \/ i_type s = 2 \/ i_type s = 3) as Hc by lia.
  destruct Ha as [-> | ->], Hc as [->|[->|[->| ->]]]; first [left; by_eval|right; by_eval].
Qed.

Lemma import_fields_ok n ntypes : forall stream last maxn fs maxn', import_fields mem n ntypes stream last maxn = Some (Some (fs, maxn')) ->
  length fs = n /\ ascending last fs /\ Forall wf_field fs /\ Forall (refs_ok ntypes) fs /\ maxn' = maxn + (max_slots last fs - Z.of_nat n).
Proof.
  induction n as [|n IH]; intros stream last maxn fs maxn'; cbn [import_fields].
  { intros [= <- <-]. split_and!; try done; [constructor..|cbn; lia]. }
  destruct (import_field mem ntypes stream) as [[[f s]|]|] eqn:Hf; [|done|done]. rewrite some_bind.
  destruct (Z.leb_spec (f_tag f) last); [done|].
  destruct (import_fields mem n ntypes s _ _) as [[[fs1 m1]|]|] eqn:Hr; [|done|done]. rewrite some_bind. intros [= <- <-].
  apply import_field_ok in Hf as [Hwf Hrf]. apply IH in Hr as (Hl & Hasc & Hall & Hrefs & ->). split_and!.
  - by cbn; rewrite Hl.
  - done.
  - by constructor.
  - by constructor.
  - cbn [max_slots]. unfold gap_slots. destruct (Z.ltb_spec (last + 1) (f_tag f)), (Z.ltb_spec 0 (f_tag f - last - 1)); try lia;
      rewrite ?zlen_nil; change (zlen [?x]) with 1; lia.
Qed.

Lemma ascending_span last fs : ascending last fs -> forall i j f g, zget fs i = Some f -> zget fs j = Some g -> i <= j -> j - i <= f_tag g - f_tag f.
Proof.
  intros Hasc i j f g Hi Hj Hij. assert (Hn : exists n, j = i + Z.of_nat n) by (exists (Z.to_nat (j - i)); lia). destruct Hn as [n ->].
  clear Hij. revert g Hj. induction n as [|n IH]; intros g Hj.
  { rewrite Z.add_0_r in *. assert (f = g) as -> by congruence. lia. }
  pose proof (zget_in _ _ _ Hi). pose proof (zget_in _ _ _ Hj). destruct (zget_is_Some fs (i + Z.of_nat n)) as [h Hh]; [lia|].
  specialize (IH h Hh). pose proof (ascending_lt last fs _ _ _ _ Hasc Hh Hj ltac:(lia)). lia.
Qed.

Lemma max_slots_le last fs : max_slots last fs <= 2 * zlen fs.
Proof.
  revert last. induction fs as [|f fs IH]; intros last; cbn [max_slots]; [done|]. rewrite zlen_cons.
  pose proof (zlen_gap last (f_tag f)). specialize (IH (f_tag f)). lia.
Qed.

Lemma import_type_ok ntypes stream t stream' : import_type mem ntypes stream = Some (Some (t, stream')) ->
  wf_type t /\ Forall (refs_ok ntypes) (t_f t).
Proof.
  unfold import_type. destruct (todword mem stream) as [sz|]; [|done]. rewrite some_bind.
  destruct (struct_field mem _ _) as [[fn|]|]; [|done|done]. rewrite some_bind. destruct (_ || _); [done|].
  destruct (zero_slots _ _ _) as [ok|]; [|done]. rewrite some_bind. destruct ok; [|done]. cbn [negb].
  destruct (import_string mem _) as [name|]; [|done]. rewrite some_bind. destruct (fn =? 1).
  { intros [= <- <-]. split; [|by constructor]. constructor; cbn; try done. intros _ i f Hi%zget_in. zlen_lia. }
  destruct (todword mem _) as [nsz|]; [|done]. rewrite some_bind. unfold count_array. destruct (todword mem _) as [cl|]; [|done]. rewrite some_bind.
  destruct (count_loop mem _ _ _ _) as [[n|]|] eqn:Hn; [|done|done]. rewrite some_bind. apply count_loop_nonneg in Hn; [|done].
  destruct (import_fields mem _ _ _ _ _) as [[[fs m]|]|] eqn:Hfs; [|done|done]. rewrite some_bind.
  apply import_fields_ok in Hfs as (Hl & Hasc & Hall & Hrefs & ->).
  destruct (zget fs 0) as [first|] eqn:H0; [|done]. rewrite some_bind. destruct (zget fs (n - 1)) as [last|] eqn:H1; [|done]. rewrite some_bind.
  intros [= <- <-]. assert (Hz : zlen fs = n) by (unfold zlen; lia).
  assert (Hlast : forall i f, zget fs i = Some f -> 0 <= f_tag f <= 0x7ffe).
  { intros i f Hi. pose proof (zget_in _ _ _ Hi). rewrite Forall_forall in Hall. apply (Hall f). rewrite zget_nonneg in Hi by lia. by eapply list_elem_of_lookup_2. }
  pose proof (Hlast _ _ H0). pose proof (Hlast _ _ H1). pose proof (zget_in _ _ _ H0).
  pose proof (ascending_span (-1) fs Hasc 0 (n - 1) first last H0 H1 ltac:(lia)). pose proof (max_slots_le (-1) fs).
  split; [|done]. constructor; cbn [t_n t_f t_maxn t_base]; try done; [lia|]. intros Hb i f Hi. pose proof (zget_in _ _ _ Hi).
  destruct (Z.eqb_spec (f_tag last - f_tag first + 1) n); [|done].
  pose proof (ascending_span (-1) fs Hasc 0 i first f H0 Hi ltac:(lia)). pose proof (ascending_span (-1) fs Hasc i (n - 1) f last Hi H1 ltac:(lia)). lia.
Qed.

Definition protocol_ok (ntypes : Z) (p : protocol) : Prop :=
  0 <= p_tag p /\ (forall i, p_request p = Some i -> 0 <= i < ntypes) /\ (forall i, p_response p = Some i -> 0 <= i < ntypes).
Definition pstate_ok (ntypes : Z) (p : protocol_state) : Prop :=
  (forall i, s_request p = Some i -> 0 <= i < ntypes) /\ (forall i, s_response p = Some i -> 0 <= i < ntypes).

Lemma import_cases_ok n ntypes fn stream : forall i p p', pstate_ok ntypes p ->
  import_cases mem n ntypes fn stream i p = Some (Some p') -> pstate_ok ntypes p'.
Proof.
  induction n as [|n IH]; intros i p p' Hp; cbn [import_cases]; [by intros [= <-]|].
  destruct (toword mem _) as [v|]; [|done]. rewrite some_bind. destruct (Z.odd v); [by apply IH|].
  destruct (import_case mem _ _ _ _ _ p) as [[p1|]|] eqn:Hc; [|done|done]. rewrite some_bind. apply IH.
  destruct Hp as [Hq Hr]. unfold import_case in Hc. destruct (i =? 0).
  { destruct (negb _); [done|]. destruct (import_string mem _); [|done]. rewrite some_bind in Hc. by injection Hc as <-. }
  destruct (i =? 1); [destruct (_ <? _); [done|]; by injection Hc as <-|].
  destruct (i =? 2); [|destruct (i =? 3); [|destruct (i =? 4); [by injection Hc as <-|done]]].
  all: destruct (Z.ltb_spec (v / 2 - 1) 0), (Z.leb_spec ntypes (v / 2 - 1)); try done; injection Hc as <-; split; try done; intros ? [= <-]; lia.
Qed.

Lemma import_protocol_ok ntypes stream p stream' : import_protocol mem ntypes stream = Some (Some (p, stream')) -> protocol_ok ntypes p.
Proof.
  unfold import_protocol. destruct (todword mem stream) as [sz|]; [|done]. rewrite some_bind.
  destruct (struct_field mem _ _) as [fn|]; [|done]. rewrite some_bind.
  destruct (import_cases mem _ _ _ _ _ _) as [[s|]|] eqn:Hs; [|done|done]. rewrite some_bind.
  apply import_cases_ok in Hs as [Hq Hr]; [|done]. cbn [mbind option_bind]. destruct (s_name s); [|done]. cbn [mbind option_bind].
  destruct (Z.ltb_spec (s_tag s) 0); [done|]. by intros [= <- <-].
Qed.

Lemma import_all_ok {A} (P : A -> Prop) (import : Z -> option (option (A * Z))) n :
  (forall s x s', import s = Some (Some (x, s')) -> P x) -> forall s l, import_all import n s = Some (Some l) -> length l = n /\ Forall P l.
Proof.
  intros HP. induction n as [|n IH]; intros s l; cbn [import_all]; [by intros [= <-]|].
  destruct (import s) as [[[x s']|]|] eqn:Hx; [|done|done]. rewrite some_bind.
  destruct (import_all import n s') as [[l1|]|] eqn:Hl; [|done|done]. rewrite some_bind. intros [= <-].
  destruct (IH _ _ Hl). split; [cbn; congruence|]. constructor; eauto.
Qed.

Lemma bundle_arrays_nonneg n : forall stream i content l, bundle_arrays mem n stream i content = Some (Some l) -> Forall (fun x => 0 <= x.1) l.
Proof.
  induction n as [|n IH]; intros stream i content l; cbn [bundle_arrays]; [by intros [= <-]|].
  destruct (toword mem _); [|done]. rewrite some_bind. destruct (negb _); [done|]. unfold count_array.
  destruct (todword mem content); [|done]. rewrite some_bind. destruct (count_loop _ _ _ _ _) as [[k|]|] eqn:Hk; [|done|done]. rewrite !some_bind.
  destruct (bundle_arrays mem n _ _ _) as [[l1|]|] eqn:Hl; [|done|done]. rewrite some_bind. intros [= <-].
  constructor; [by eapply count_loop_nonneg in Hk|by eapply IH].
Qed.
End accepted.

(** [C31] What [sproto_create] accepts is well-formed, whatever bytes it is given: the tags of each type ascend, its number of slots is
    that of its fields and gaps, its base is right, and references to types are in range. *)
Theorem sproto_create_wf mem sz sp : is_bytes mem -> sproto_create mem sz = Some (Some sp) ->
  zlen (types sp) = type_n sp /\ zlen (protos sp) = protocol_n sp /\
  Forall (fun t => wf_type t /\ Forall (refs_ok (type_n sp)) (t_f t)) (types sp) /\ Forall (protocol_ok (type_n sp)) (protos sp).
Proof.
  intros Hmem. unfold sproto_create, create_from_bundle. destruct (struct_field mem 0 sz) as [[fn|]|]; [|done|done]. rewrite some_bind.
  destruct (2 <? fn); [done|]. destruct (bundle_arrays mem _ _ _ _) as [[l|]|] eqn:Hl; [|done|done]. rewrite some_bind.
  apply bundle_arrays_nonneg in Hl. assert (Hd : forall i : nat, 0 <= (default (0, 0) (l !! i)).1).
  { intros i. destruct (l !! i) as [x|] eqn:E; [|done]. rewrite Forall_forall in Hl. apply Hl. by eapply list_elem_of_lookup_2. }
  pose proof (Hd 0%nat) as Hd0. pose proof (Hd 1%nat) as Hd1.
  destruct (default (0, 0) (l !! 0%nat)) as [nt td], (default (0, 0) (l !! 1%nat)) as [np pd]. cbn [fst] in *.
  destruct (import_all (import_type mem nt) _ _) as [[ts|]|] eqn:Ht; [|done|done]. rewrite some_bind.
  destruct (import_all (import_protocol mem nt) _ _) as [[ps|]|] eqn:Hp; [|done|done]. rewrite some_bind. intros [= <-]. cbn.
  apply (import_all_ok (fun t => wf_type t /\ Forall (refs_ok nt) (t_f t))) in Ht as [Htl Ht]; [|intros; by eapply import_type_ok].
  apply (import_all_ok (protocol_ok nt)) in Hp as [Hpl Hp]; [|intros; by eapply import_protocol_ok].
  unfold zlen. split_and!; [lia|lia|done|done].
Qed.

(** A bundle with a type of two fields, the second an array of the type itself, and a protocol. *)
Definition demo_bundle : list Z :=
  [2; 0; 0; 0; 0; 0; 63; 0; 0; 0; 59; 0; 0; 0; 2; 0; 0; 0; 0; 0; 1; 0; 0; 0; 116; 44; 0; 0; 0; 16; 0; 0; 0; 4; 0;
   0; 0; 2; 0; 1; 0; 2; 0; 2; 0; 0; 0; 105; 100; 20; 0; 0; 0; 5; 0; 0; 0; 1; 0; 2; 0; 6; 0; 4; 0; 4; 0; 0; 0;
   107; 105; 100; 115; 17; 0; 0; 0; 13; 0; 0; 0; 3; 0; 0; 0; 12; 0; 2; 0; 1; 0; 0; 0; 112].

Definition demo_sproto : sproto := {|
  type_n := 1; protocol_n := 1;
  types := [{| t_name := [116]; t_n := 2; t_base := -1; t_maxn := 3;
    t_f := [{| f_tag := 0; f_type := 0; f_name := [105; 100]; f_st := None; f_key := -1; f_extra := 0 |};
            {| f_tag := 2; f_type := 0x83; f_name := [107; 105; 100; 115]; f_st := Some 0; f_key := -1; f_extra := 0 |}] |}];
  protos := [{| p_name := [112]; p_tag := 5; p_confirm := 0; p_request := Some 0; p_response := None |}] |}.

Example demo_bundle_accepted : sproto_create demo_bundle 94 = Some (Some demo_sproto).
Proof. vm_compute. reflexivity. Qed.

Example sproto_create_wf_witness :
  zlen (types demo_sproto) = 1 /\ zlen (protos demo_sproto) = 1 /\
  Forall (fun t => wf_type t /\ Forall (refs_ok 1) (t_f t)) (types demo_sproto) /\ Forall (protocol_ok 1) (protos demo_sproto).
Proof. apply (sproto_create_wf demo_bundle 94); [by_eval|vm_compute; reflexivity]. Defined.

(** ** What modelling showed *)

(** The cases of [import_protocol] are chosen by the number of the slot, not by the tag: in a protocol without
    request and response, whose slots are name, tag, a gap of two and confirm, confirm is taken for a response. *)
Example confirm_is_response :
  import_cases [0; 0; 12; 0; 3; 0; 4; 0; 1; 0; 0; 0; 112] 4 2 4 0 0
    {| s_name := None; s_tag := -1; s_request := None; s_response := None; s_confirm := 0 |} =
  Some (Some {| s_name := Some [112]; s_tag := 5; s_request := None; s_response := Some 1; s_confirm := 0 |}).
Proof. vm_compute. reflexivity. Qed.

(** An element of size 0xfffffffc takes no bytes off an array: [count_array] does not end. *)
Lemma count_array_forever mem stream length n fuel : todword mem stream = Some 0xfffffffc -> 4 <= length ->
  count_loop mem fuel stream length n = None.
Proof.
  intros Hw Hl. revert n. induction fuel as [|fuel IH]; intros n; cbn [count_loop]; destruct (Z.ltb_spec 0 length); try lia; [done|].
  unfold SIZEOF_LENGTH. destruct (Z.ltb_spec length 4); [lia|]. rewrite Hw, some_bind. change (u32 (0xfffffffc + 4)) with 0.
  destruct (Z.ltb_spec length 0); [lia|]. rewrite Z.add_0_r, Z.sub_0_r. apply IH.
Qed.

(** A type whose array of fields is empty is read before and behind that array. *)
Example empty_fields_read : import_type [15; 0; 0; 0;  2; 0; 0; 0; 0; 0;  1; 0; 0; 0; 116;  0; 0; 0; 0] 1 0 = None.
Proof. vm_compute. reflexivity. Qed.
