(* ===== verification/Conc.v ===== *)
(** Threads that share memory, interleaved at the level of single memory accesses.

    A program is a tree of atomic actions on a shared state; a pool of programs runs under a
    schedule, which says whose turn it is.  A program is verified on its own by [safe], against
    an invariant of the state and of what each thread owns ([G], one element for each thread); programs
    that are safe one by one never fail together ([pool_safe]). *)

From S2P Require Import Prelude.

(** [Act f k] is one access to the shared state (a load, a store, an atomic instruction); [f] is
    [None] where the access is an error.  [Loop body k] repeats [body] while it gives [true]. *)
Inductive prog (S : Type) : Type -> Type :=
| Ret {A} (a : A) : prog S A
| Act {A B} (f : S -> option (B * S)) (k : B -> prog S A) : prog S A
| Loop {A} (body : prog S bool) (k : prog S A) : prog S A.

Arguments Ret {S A} a.
Arguments Act {S A B} f k.
Arguments Loop {S A} body k.

Fixpoint pbind {S A B} (p : prog S A) : (A -> prog S B) -> prog S B :=
  match p with
  | Ret a => fun q => q a
  | Act f k => fun q => Act f (fun b => pbind (k b) q)
  | Loop body k => fun q => Loop body (pbind k q)
  end.

Declare Scope prog_scope.
Delimit Scope prog_scope with prog.
Notation "x <-- p ;; q" := (pbind p (fun x => q)) (at level 100, p at next level, right associativity) : prog_scope.
Notation "p ;;;; q" := (pbind p (fun _ => q)) (at level 100, right associativity) : prog_scope.

Definition act {S B} (f : S -> option (B * S)) : prog S B := Act f Ret.
Definition skip {S} : prog S unit := Ret tt.

(** [while (c) {}] *)
Definition spin {S} (c : prog S bool) : prog S unit := Loop c skip.

(** One step of a thread. *)
Definition pstep {S A} (p : prog S A) (s : S) : option (prog S A * S) :=
  match p in prog _ A return option (prog S A * S) with
  | Ret a => Some (Ret a, s)
  | Act f k => '(b, s) ← f s; Some (k b, s)
  | Loop body k => Some (pbind body (fun b : bool => if b then Loop body k else k), s)
  end.

(** A schedule of a pool; a number that is no thread does nothing. *)
Fixpoint run {S A} (schedule : list nat) (ps : list (prog S A)) (s : S) : option (list (prog S A) * S) :=
  match schedule with
  | [] => Some (ps, s)
  | i :: schedule =>
    match ps !! i with
    | Some p => '(p, s) ← pstep p s; run schedule (<[i := p]> ps) s
    | None => run schedule ps s
    end
  end.

(** ** A thread on its own *)

Section safe.
Context {S G : Type} (I : S -> list G -> Prop).

(** With [g] its own, the program does no illegal access and keeps the invariant, whatever the others do
    between its accesses, and ends in [Q]. *)
Fixpoint safe {A} (p : prog S A) : G -> (A -> G -> Prop) -> Prop :=
  match p in prog _ A return G -> (A -> G -> Prop) -> Prop with
  | Ret a => fun g Q => Q a g
  | Act f k => fun g Q => forall s gs i, I s gs -> gs !! i = Some g ->
      exists b s' g', f s = Some (b, s') /\ I s' (<[i := g']> gs) /\ safe (k b) g' Q
  | Loop body k => fun g Q => safe body g (fun b g' => if b : bool then g' = g else safe k g' Q)
  end.

Lemma safe_mono {A} (p : prog S A) : forall g Q R, (forall a g, Q a g -> R a g) -> safe p g Q -> safe p g R.
Proof.
  induction p as [A a|A B f k IH|A body IHb k IHk]; intros g Q R HQ; cbn.
  - apply HQ.
  - intros Hp s gs i Hs Hi. destruct (Hp s gs i Hs Hi) as (b & s' & g' & ? & ? & ?). exists b, s', g'. by eauto.
  - intros Hp. eapply IHb, Hp. intros [] g' Hg; [done|]. by eapply IHk, Hg.
Qed.

Lemma safe_bind {A B} (p : prog S A) : forall (q : A -> prog S B) g Q,
  safe p g (fun a g => safe (q a) g Q) -> safe (pbind p q) g Q.
Proof.
  induction p as [A a|A C f k IH|A body IHb k IHk]; intros q g Q; cbn; [done| |].
  - intros Hp s gs i Hs Hi. destruct (Hp s gs i Hs Hi) as (b & s' & g' & ? & ? & ?). exists b, s', g'. by eauto.
  - intros Hp. eapply safe_mono, Hp. intros [] g' Hg; [done|]. by apply IHk.
Qed.

Lemma safe_act {B} (f : S -> option (B * S)) g Q :
  (forall s gs i, I s gs -> gs !! i = Some g -> exists b s' g', f s = Some (b, s') /\ I s' (<[i := g']> gs) /\ Q b g') ->
  safe (act f) g Q.
Proof. done. Qed.

Lemma safe_loop {A} body (k : prog S A) g Q :
  safe body g (fun b g' => if b : bool then g' = g else safe k g' Q) -> safe (Loop body k) g Q.
Proof. done. Qed.

Lemma safe_spin c g (Q : unit -> G -> Prop) : safe c g (fun b g' => if b : bool then g' = g else Q tt g') -> safe (spin c) g Q.
Proof. intros Hc. eapply safe_mono, Hc. by intros []. Qed.

Lemma pstep_safe {A} (p : prog S A) s gs i g Q : I s gs -> gs !! i = Some g -> safe p g Q ->
  exists p' s' g', pstep p s = Some (p', s') /\ I s' (<[i := g']> gs) /\ safe p' g' Q.
Proof.
  intros Hs Hi Hp. destruct p as [A a|A B f k|A body k].
  - exists (Ret a), s, g. split_and!; [done|by rewrite (list_insert_id gs i g)|done].
  - destruct (Hp s gs i Hs Hi) as (b & s' & g' & Hf & ? & ?). exists (k b), s', g'. cbn. by rewrite Hf.
  - eexists _, s, g. split_and!; [done|by rewrite (list_insert_id gs i g)|]. apply safe_bind.
    eapply safe_mono, Hp. intros [] g'; [by intros ->|done].
Qed.

(** Whatever the schedule, the pool runs on, and its invariant with it. *)
Lemma pool_safe {A} (Q : A -> G -> Prop) schedule : forall ps s gs,
  I s gs -> Forall2 (fun p g => safe p g Q) ps gs ->
  exists ps' s' gs', run schedule ps s = Some (ps', s') /\ I s' gs' /\ Forall2 (fun p g => safe p g Q) ps' gs'.
Proof.
  induction schedule as [|i schedule IH]; intros ps s gs Hs Hps; [by exists ps, s, gs|]. cbn.
  destruct (ps !! i) as [p|] eqn:Hp; [|by apply (IH ps s gs)].
  destruct (Forall2_lookup_l _ _ _ _ _ Hps Hp) as (g & Hg & Hsafe).
  destruct (pstep_safe p s gs i g Q Hs Hg Hsafe) as (p' & s' & g' & -> & Hs' & Hsafe'). cbn.
  apply (IH _ _ _ Hs'). by apply Forall2_insert.
Qed.
End safe.

(** ** Sums over the threads *)

Section total.
Context {G : Type}.

Fixpoint total (f : G -> Z) (gs : list G) : Z :=
  match gs with [] => 0 | g :: gs => f g + total f gs end%Z.

Lemma total_insert f gs : forall i g g', gs !! i = Some g -> (total f (<[i := g']> gs) = total f gs - f g + f g')%Z.
Proof.
  induction gs as [|a gs IH]; intros [|i] g g' Hi; [done|done| |]; [injection Hi as ->; cbn; lia|].
  change (<[Datatypes.S i:=g']> (a :: gs)) with (a :: <[i:=g']> gs). cbn [total].
  rewrite (IH i g g' Hi). lia.
Qed.

Lemma total_nonneg f gs : (forall g, 0 <= f g)%Z -> (0 <= total f gs)%Z.
Proof. intros Hf. induction gs as [|g gs IH]; cbn; [done|]. specialize (Hf g). lia. Qed.

Lemma total_in f gs i g : (forall g, 0 <= f g)%Z -> gs !! i = Some g -> (f g <= total f gs)%Z.
Proof.
  intros Hf. revert i. induction gs as [|a gs IH]; intros [|i] Hi; cbn in *; [done|done| |].
  - injection Hi as ->. pose proof (total_nonneg f gs Hf). lia.
  - specialize (IH i Hi). specialize (Hf a). lia.
Qed.

Lemma total_in2 f gs i j g h : (forall g, 0 <= f g)%Z -> gs !! i = Some g -> gs !! j = Some h -> i <> j -> (f g + f h <= total f gs)%Z.
Proof.
  intros Hf Hi Hj Hij. revert i j Hi Hj Hij. induction gs as [|a gs IH]; intros [|i] [|j] Hi Hj Hij; cbn in *; try done.
  - injection Hi as ->. pose proof (total_in f gs j h Hf Hj). lia.
  - injection Hj as ->. pose proof (total_in f gs i g Hf Hi). lia.
  - specialize (IH i j Hi Hj ltac:(lia)). specialize (Hf a). lia.
Qed.

Lemma total_pos f gs : (0 < total f gs)%Z -> exists i g, gs !! i = Some g /\ (0 < f g)%Z.
Proof.
  induction gs as [|a gs IH]; cbn; [lia|]. intros Hp. destruct (decide (0 < f a)%Z); [by exists 0%nat, a|].
  destruct IH as (i & g & ? & ?); [lia|]. by exists (Datatypes.S i), g.
Qed.

Lemma total_le f h gs : (forall g, f g <= h g)%Z -> (total f gs <= total h gs)%Z.
Proof. intros Hf. induction gs as [|g gs IH]; cbn; [done|]. specialize (Hf g). lia. Qed.
End total.

Lemma total_fmap {G H} (f : H -> Z) (h : G -> H) gs : total f (h <$> gs) = total (fun g => f (h g)) gs.
Proof. induction gs as [|g gs IH]; [done|]. rewrite fmap_cons. cbn [total]. by rewrite IH. Qed.

Lemma total_replicate {G} (f : G -> Z) n g : f g = 0%Z -> total f (replicate n g) = 0%Z.
Proof. intros Hf. induction n as [|n IH]; [done|]. cbn [replicate total]. by rewrite Hf, IH. Qed.

Lemma total_ext {G} (f h : G -> Z) gs : (forall g, f g = h g) -> total f gs = total h gs.
Proof. intros Hf. induction gs as [|g gs IH]; [done|]. cbn [total]. by rewrite Hf, IH. Qed.
