(* ===== verification/Locks.v ===== *)
(** rwlock.h and spinlock.h, without USE_PTHREAD_LOCK: locks made of atomic instructions.

    The instructions of gcc ([__sync_...]) and the loads of the fields are one action each,
    and take effect in one order for all threads; [__sync_synchronize] has nothing to do then. *)

From S2P Require Import Prelude Conc.
Local Open Scope Z_scope.
Local Open Scope prog_scope.

(** ** The operations

    A lock is somewhere in a state [S]; [get] is [None] when that place has been freed. *)

Record rwlock := { write : Z; read : Z }.

Definition rwlock_init : rwlock := {| write := 0; read := 0 |}.

Definition set_write (w : Z) (l : rwlock) : rwlock := {| write := w; read := read l |}.
Definition set_read (r : Z) (l : rwlock) : rwlock := {| write := write l; read := r |}.

Section rwlock.
Context {S : Type} (get : S -> option rwlock) (put : rwlock -> S -> S).

Definition on_lock {B} (f : rwlock -> B * rwlock) : prog S B :=
  act (fun s => l ← get s; Some ((f l).1, put (f l).2 s)).

Definition load_write : prog S Z := on_lock (fun l => (write l, l)).
Definition load_read : prog S Z := on_lock (fun l => (read l, l)).
Definition add_and_fetch_read (n : Z) : prog S Z := on_lock (fun l => (read l + n, set_read (read l + n) l)).
Definition test_and_set_write : prog S Z := on_lock (fun l => (write l, set_write 1 l)).
Definition lock_release_write : prog S unit := on_lock (fun l => (tt, set_write 0 l)).

Definition is_set (p : prog S Z) : prog S bool := x <-- p;; Ret (negb (x =? 0)).

Definition rwlock_rlock : prog S unit :=
  Loop (
    spin (is_set load_write);;;;
    add_and_fetch_read 1;;;;
    w <-- is_set load_write;;
    if w : bool then add_and_fetch_read (-1);;;; Ret true
    else Ret false)
  skip.

Definition rwlock_wlock : prog S unit :=
  spin (is_set test_and_set_write);;;;
  spin (is_set load_read).

Definition rwlock_wunlock : prog S unit := lock_release_write.
Definition rwlock_runlock : prog S unit := add_and_fetch_read (-1);;;; skip.
End rwlock.

Section spinlock.
Context {S : Type} (get : S -> option Z) (put : Z -> S -> S).

Definition spinlock_init : Z := 0.
Definition lock_test_and_set (v : Z) : prog S Z := act (fun s => l ← get s; Some (l, put v s)).
Definition spinlock_lock : prog S unit := spin (x <-- lock_test_and_set 1;; Ret (negb (x =? 0))).
Definition spinlock_trylock : prog S bool := x <-- lock_test_and_set 1;; Ret (x =? 0).
Definition spinlock_unlock : prog S unit := act (fun s => _ ← get s; Some (tt, put 0 s)).
End spinlock.

(** ** What a thread has of a reader-writer lock *)

(** [Counted]: counted among the readers, not in yet; [Waiting]: has the writer's flag, and waits for the readers. *)
Inductive lstate := Out | Counted | Reading | Waiting | Writing.

Definition counted (st : lstate) : Z := match st with Counted | Reading => 1 | _ => 0 end.
Definition reading (st : lstate) : Z := match st with Reading => 1 | _ => 0 end.
Definition flagged (st : lstate) : Z := match st with Waiting | Writing => 1 | _ => 0 end.
Definition writing (st : lstate) : Z := match st with Writing => 1 | _ => 0 end.

Record lock_inv (l : rwlock) (sts : list lstate) : Prop := {
  li_read : read l = total counted sts;
  li_write : write l = total flagged sts;
  li_one : write l <= 1;
  li_excl : 0 < total writing sts -> total reading sts = 0 }.

Lemma lock_inv_bounds sts :
  0 <= total reading sts <= total counted sts /\ 0 <= total writing sts <= total flagged sts.
Proof.
  split; split; try (apply total_nonneg; by intros []); apply total_le; by intros [].
Qed.

(** A move of one thread from [st] to [st'] while the lock goes from [l] to [l']. *)
Lemma lock_inv_move l l' sts i st st' : lock_inv l sts -> sts !! i = Some st ->
  read l' = read l - counted st + counted st' -> write l' = write l - flagged st + flagged st' -> write l' <= 1 ->
  (writing st < writing st' -> read l' = 0) -> (reading st < reading st' -> write l' = 0) ->
  lock_inv l' (<[i := st']> sts).
Proof.
  intros [Hr Hw H1 Hx] Hi Hr' Hw' H1' Hwr Hrd. pose proof (lock_inv_bounds (<[i:=st']> sts)) as [[? Hb] [? Hb']].
  rewrite !(total_insert _ _ _ _ st' Hi) in *. constructor; rewrite ?(total_insert _ _ _ _ st' Hi); [lia..|].
  destruct st, st'; cbn in *; lia.
Qed.

Lemma lock_inv_init n : lock_inv rwlock_init (replicate n Out).
Proof. by split; cbn; rewrite ?total_replicate. Qed.

Lemma lock_inv_excl l sts i j : lock_inv l sts -> sts !! i = Some Writing -> i <> j ->
  sts !! j <> Some Writing /\ sts !! j <> Some Reading.
Proof.
  intros [Hr Hw H1 Hx] Hi Hij. pose proof (total_in writing sts i Writing ltac:(by intros []) Hi) as Ht. cbn in Ht.
  split; intros Hj.
  - pose proof (total_in2 flagged sts i j Writing Writing ltac:(by intros []) Hi Hj Hij) as H2. cbn in H2. lia.
  - pose proof (total_in reading sts j Reading ltac:(by intros []) Hj) as H2. cbn in H2. lia.
Qed.

(** ** The operations for one thread

    [own] is the part of what a thread owns that belongs to the lock. *)

Section rules.
Context {S G : Type} (I : S -> list G -> Prop) (get : S -> option rwlock) (put : rwlock -> S -> S).
Context (own : G -> lstate) (set_own : lstate -> G -> G).
Context (own_set : forall st g, own (set_own st g) = st).

(** A thread with [g] may move the lock from the states [P] to the states [P'], and then have [g']: the lock is there, and the rest of the
    invariant does not mind. *)
Definition lock_access (P P' : lstate -> Prop) (g g' : G) : Prop :=
  forall s gs i st, I s gs -> gs !! i = Some (set_own st g) -> P st ->
  exists l, get s = Some l /\ lock_inv l (own <$> gs) /\
    forall l' st', P' st' -> lock_inv l' (own <$> <[i := set_own st' g']> gs) -> I (put l' s) (<[i := set_own st' g']> gs).

Lemma safe_on_lock {B} (f : rwlock -> B * rwlock) P P' g g' st (Q : B -> G -> Prop) : lock_access P P' g g' -> P st ->
  (forall l sts i, lock_inv l sts -> sts !! i = Some st ->
     exists st', P' st' /\ lock_inv (f l).2 (<[i := st']> sts) /\ Q (f l).1 (set_own st' g')) ->
  safe I (on_lock get put f) (set_own st g) Q.
Proof.
  intros Hacc HP Hf. apply safe_act. intros s gs i Hs Hi. destruct (Hacc s gs i st Hs Hi HP) as (l & Hl & Hinv & Hput).
  destruct (Hf l (own <$> gs) i Hinv) as (st' & HP' & Hinv' & HQ); [by rewrite list_lookup_fmap, Hi; cbn; rewrite own_set|].
  eexists _, _, _. rewrite Hl. split_and!; [done| |done]. apply Hput; [done|]. by rewrite list_fmap_insert, own_set.
Qed.

(** What the instructions do to the state of the thread. *)
Local Ltac moves st' :=
  exists st'; split; [cbn; tauto|split];
  [match goal with Hl : lock_inv _ _ |- _ => destruct (Hl) end; eapply lock_inv_move; [eassumption..| | | | |]; cbn; lia|].

Lemma safe_load_write P g st (Q : Z -> G -> Prop) : lock_access P P g g -> P st ->
  (forall w, (flagged st <= w) -> Q w (set_own st g)) -> safe I (load_write get put) (set_own st g) Q.
Proof.
  intros Hacc HP HQ. apply (safe_on_lock _ P P g g); [done..|]. intros l sts i Hl Hi. exists st. rewrite list_insert_id by done. split_and!; [done..|].
  apply HQ. rewrite (li_write _ _ Hl). apply (total_in flagged sts i st); [by intros []|done].
Qed.

Lemma safe_is_set p g (Q : bool -> G -> Prop) : safe I p g (fun x => Q (negb (x =? 0))) -> safe I (is_set p) g Q.
Proof. intros Hp. apply safe_bind, Hp. Qed.

Lemma rwlock_rlock_safe g (Q : unit -> G -> Prop) : lock_access (fun st => In st [Out; Counted; Reading]) (fun st => In st [Out; Counted; Reading]) g g ->
  Q tt (set_own Reading g) -> safe I (rwlock_rlock get put) (set_own Out g) Q.
Proof.
  intros Hacc HQ. apply safe_loop, safe_bind, safe_spin, safe_is_set, (safe_load_write _ _ _ _ Hacc); [by left|].
  intros w _. destruct (negb (w =? 0)); [done|].
  apply safe_bind, (safe_on_lock _ _ _ _ _ _ _ Hacc); [by left|]. intros l sts i Hl Hi. moves Counted.
  apply safe_bind, safe_is_set, (safe_on_lock _ _ _ _ _ _ _ Hacc); [cbn; tauto|]. clear l sts i Hl Hi. intros l sts i Hl Hi. cbn [fst snd].
  destruct (Z.eqb_spec (write l) 0) as [Hw|Hw]; cbn [negb].
  - by moves Reading.
  - exists Counted. split; [cbn; tauto|]. split; [by rewrite list_insert_id|].
    apply safe_bind, (safe_on_lock _ _ _ _ _ _ _ Hacc); [cbn; tauto|]. clear l sts i Hl Hi Hw. intros l sts i Hl Hi.
    by moves Out.
Qed.

Lemma rwlock_runlock_safe g g' (Q : unit -> G -> Prop) : lock_access (eq Reading) (eq Out) g g' ->
  Q tt (set_own Out g') -> safe I (rwlock_runlock get put) (set_own Reading g) Q.
Proof.
  intros Hacc HQ. apply safe_bind, (safe_on_lock _ _ _ _ _ _ _ Hacc); [cbn; tauto|]. intros l sts i Hl Hi.
  by moves Out.
Qed.

Lemma rwlock_wlock_safe g (Q : unit -> G -> Prop) : lock_access (fun st => In st [Out; Waiting; Writing]) (fun st => In st [Out; Waiting; Writing]) g g ->
  Q tt (set_own Writing g) -> safe I (rwlock_wlock get put) (set_own Out g) Q.
Proof.
  intros Hacc HQ. apply safe_bind, safe_spin, safe_is_set, (safe_on_lock _ _ _ _ _ _ _ Hacc); [by left|]. intros l sts i Hl Hi. cbn [fst snd].
  destruct (Z.eqb_spec (write l) 0) as [Hw|Hw]; cbn [negb].
  - moves Waiting.
    clear l sts i Hl Hi Hw. apply safe_spin, safe_is_set, (safe_on_lock _ _ _ _ _ _ _ Hacc); [cbn; tauto|]. intros l sts i Hl Hi. cbn [fst snd].
    destruct (Z.eqb_spec (read l) 0) as [Hr|Hr]; cbn [negb].
    + by moves Writing.
    + exists Waiting. split; [cbn; tauto|]. split; [by rewrite list_insert_id|done].
  - exists Out. split; [by left|]. split; [|done]. replace (set_write 1 l) with l; [by rewrite list_insert_id|].
    pose proof (lock_inv_bounds sts). destruct Hl as [Hlr Hlw Hl1 _], l as [w r]. cbn in *. unfold set_write. cbn. f_equal. lia.
Qed.

Lemma rwlock_wunlock_safe g g' (Q : unit -> G -> Prop) : lock_access (eq Writing) (eq Out) g g' ->
  Q tt (set_own Out g') -> safe I (rwlock_wunlock get put) (set_own Writing g) Q.
Proof.
  intros Hacc HQ. apply (safe_on_lock _ _ _ _ _ _ _ Hacc); [cbn; tauto|]. intros l sts i Hl Hi.
  pose proof (total_in flagged sts i Writing ltac:(by intros []) Hi) as Ht. cbn in Ht. by moves Out.
Qed.
End rules.

(** ** Mutual exclusion

    Threads visit a shared thing, to read or to write it; a visit that meets another one it must not
    meet is an error. *)

Record shared := { sh_lock : rwlock; sh_readers : Z; sh_writers : Z }.

Definition sh_put (l : rwlock) (s : shared) : shared := {| sh_lock := l; sh_readers := sh_readers s; sh_writers := sh_writers s |}.
Definition sh_get (s : shared) : option rwlock := Some (sh_lock s).

Definition begin_read : prog shared unit := act (fun s =>
  if sh_writers s =? 0 then Some (tt, {| sh_lock := sh_lock s; sh_readers := sh_readers s + 1; sh_writers := sh_writers s |}) else None).
Definition end_read : prog shared unit := act (fun s =>
  Some (tt, {| sh_lock := sh_lock s; sh_readers := sh_readers s - 1; sh_writers := sh_writers s |})).
Definition begin_write : prog shared unit := act (fun s =>
  if (sh_writers s =? 0) && (sh_readers s =? 0)
  then Some (tt, {| sh_lock := sh_lock s; sh_readers := sh_readers s; sh_writers := sh_writers s + 1 |}) else None).
Definition end_write : prog shared unit := act (fun s =>
  Some (tt, {| sh_lock := sh_lock s; sh_readers := sh_readers s; sh_writers := sh_writers s - 1 |})).

(** The visits of a thread, [true] to write. *)
Fixpoint visits (l : list bool) : prog shared unit :=
  match l with
  | [] => skip
  | true :: l => rwlock_wlock sh_get sh_put;;;; begin_write;;;; end_write;;;; rwlock_wunlock sh_get sh_put;;;; visits l
  | false :: l => rwlock_rlock sh_get sh_put;;;; begin_read;;;; end_read;;;; rwlock_runlock sh_get sh_put;;;; visits l
  end.

(** A thread's part of the lock, and whether it is inside. *)
Abbreviation visitor := (lstate * bool)%type (only parsing).
Definition readers_in (g : visitor) : Z := if g.2 then reading g.1 else 0.
Definition writers_in (g : visitor) : Z := if g.2 then writing g.1 else 0.
Definition set_lstate (st : lstate) (g : visitor) : visitor := (st, g.2).

Record shared_inv (s : shared) (gs : list visitor) : Prop := {
  sv_lock : lock_inv (sh_lock s) (fst <$> gs);
  sv_readers : sh_readers s = total readers_in gs;
  sv_writers : sh_writers s = total writers_in gs }.

Lemma visitors_bounds gs : 0 <= total readers_in gs <= total reading (fst <$> gs) /\ 0 <= total writers_in gs <= total writing (fst <$> gs).
Proof. rewrite !total_fmap. split; split; try (apply total_nonneg; by intros [[] []]); apply total_le; by intros [[] []]. Qed.

Lemma shared_access P P' st0 : lock_access shared_inv sh_get sh_put fst set_lstate P P' (st0, false) (st0, false).
Proof.
  intros s gs i st [Hl Hr Hw] Hi HP. exists (sh_lock s). split_and!; [done..|]. intros l' st' HP' Hl'.
  constructor; [done|..]; rewrite (total_insert _ _ _ _ _ Hi); cbn; lia.
Qed.

(** A step inside: the lock stays, and the counters follow. *)
Lemma shared_step (s s' : shared) gs i st b b' : shared_inv s gs -> gs !! i = Some (st, b) -> sh_lock s' = sh_lock s ->
  sh_readers s' = sh_readers s - readers_in (st, b) + readers_in (st, b') ->
  sh_writers s' = sh_writers s - writers_in (st, b) + writers_in (st, b') -> shared_inv s' (<[i := (st, b')]> gs).
Proof.
  intros [Hl Hr Hw] Hi Hls Hrs Hws. constructor; [|rewrite (total_insert _ _ _ _ _ Hi); lia..].
  rewrite list_fmap_insert, Hls. cbn [fst]. rewrite list_insert_id; [done|]. by rewrite list_lookup_fmap, Hi.
Qed.

(** A thread that is inside has the lock, so nothing it must not meet is there. *)
Lemma shared_excl s gs i st : shared_inv s gs -> gs !! i = Some (st, false) ->
  (st = Writing -> sh_readers s = 0 /\ sh_writers s = 0) /\ (st = Reading -> sh_writers s = 0).
Proof.
  intros [Hl Hr Hw] Hi. pose proof (visitors_bounds gs) as [Hb1 Hb2].
  assert (Hin : (fst <$> gs) !! i = Some st) by by rewrite list_lookup_fmap, Hi. destruct (Hl) as [_ Hlw Hl1 Hx].
  pose proof (lock_inv_bounds (fst <$> gs)) as [_ Hb]. split; intros ->.
  - pose proof (total_in writing _ i _ ltac:(by intros []) Hin) as Ht. cbn in Ht.
    pose proof (visitors_bounds (<[i := (Writing, true)]> gs)) as [_ Hb3]. rewrite (total_insert _ _ _ _ _ Hi), list_fmap_insert in Hb3. cbn in Hb3.
    rewrite list_insert_id in Hb3 by done. lia.
  - pose proof (total_in reading _ i _ ltac:(by intros []) Hin) as Ht. cbn in Ht. lia.
Qed.

Lemma visits_safe l : safe shared_inv (visits l) (Out, false) (fun _ g => g = (Out, false)).
Proof.
  induction l as [|[] l IH]; [done| |]; cbn [visits].
  - apply safe_bind, (rwlock_wlock_safe _ _ _ fst set_lstate ltac:(done) (Out, false)); [apply shared_access|].
    apply safe_bind, safe_act. intros s gs i Hs Hi. destruct (proj1 (shared_excl s gs i Writing Hs Hi) eq_refl) as [Hr Hw].
    rewrite Hr, Hw. eexists _, _, (Writing, true). split; [done|]. split; [eapply shared_step; try done; cbn; lia|]. clear s gs i Hs Hi Hr Hw.
    apply safe_bind, safe_act. intros s gs i Hs Hi. eexists _, _, (Writing, false). split; [done|]. split; [eapply shared_step; try done; cbn; lia|].
    by apply safe_bind, (rwlock_wunlock_safe _ _ _ fst set_lstate ltac:(done) (Out, false) (Out, false)); [apply shared_access|].
  - apply safe_bind, (rwlock_rlock_safe _ _ _ fst set_lstate ltac:(done) (Out, false)); [apply shared_access|].
    apply safe_bind, safe_act. intros s gs i Hs Hi. pose proof (proj2 (shared_excl s gs i Reading Hs Hi) eq_refl) as Hw. rewrite Hw.
    eexists _, _, (Reading, true). split; [done|]. split; [eapply shared_step; try done; cbn; lia|]. clear s gs i Hs Hi Hw.
    apply safe_bind, safe_act. intros s gs i Hs Hi. eexists _, _, (Reading, false). split; [done|]. split; [eapply shared_step; try done; cbn; lia|].
    by apply safe_bind, (rwlock_runlock_safe _ _ _ fst set_lstate ltac:(done) (Out, false) (Out, false)); [apply shared_access|].
Qed.

(** [C8] The reader-writer lock excludes: whatever the threads' visits and the schedule, no visit meets one it must
    not meet; at every time there is one writer and nobody else inside, or no writer. *)
Theorem rwlock_excludes (ls : list (list bool)) schedule :
  exists ps s, run schedule (visits <$> ls) {| sh_lock := rwlock_init; sh_readers := 0; sh_writers := 0 |} = Some (ps, s) /\
    0 <= sh_readers s /\ (sh_writers s = 0 \/ sh_writers s = 1 /\ sh_readers s = 0).
Proof.
  destruct (pool_safe shared_inv (fun _ g => g = (Out, false)) schedule (visits <$> ls)
    {| sh_lock := rwlock_init; sh_readers := 0; sh_writers := 0 |} (replicate (length ls) (Out, false))) as (ps & s & gs & Hrun & Hs & _).
  - constructor; cbn; rewrite ?total_replicate by done; [|done..]. rewrite fmap_replicate. apply lock_inv_init.
  - apply Forall2_fmap_l, Forall2_same_length_lookup_2; [by rewrite length_replicate|]. intros i l g _ Hg.
    apply lookup_replicate in Hg as [-> _]. apply visits_safe.
  - exists ps, s. split; [done|]. destruct Hs as [[_ Hw H1 Hx] -> ->].
    pose proof (visitors_bounds gs) as [??]. pose proof (lock_inv_bounds (fst <$> gs)) as [_ ?]. lia.
Qed.

Example visits_end : (fun x => (forallb (fun p : prog shared unit => match p with Ret _ => true | _ => false end) x.1, x.2)) <$>
    run (concat (replicate 40 [0; 1; 2]%nat)) (visits <$> [[true; false]; [false; true]; [true]])
      {| sh_lock := rwlock_init; sh_readers := 0; sh_writers := 0 |} =
  Some (true, {| sh_lock := rwlock_init; sh_readers := 0; sh_writers := 0 |}).
Proof. vm_compute. reflexivity. Qed.

(** ** The spin lock *)

(** A thing that one thread may use at a time, and the threads that use it: [true] to wait for
    the lock, [false] to try it and go on without. *)
Record single := { sg_lock : Z; sg_users : Z }.

Definition sg_get (s : single) : option Z := Some (sg_lock s).
Definition sg_put (l : Z) (s : single) : single := {| sg_lock := l; sg_users := sg_users s |}.
Definition begin_use : prog single unit := act (fun s =>
  if sg_users s =? 0 then Some (tt, {| sg_lock := sg_lock s; sg_users := sg_users s + 1 |}) else None).
Definition end_use : prog single unit := act (fun s => Some (tt, {| sg_lock := sg_lock s; sg_users := sg_users s - 1 |})).

Fixpoint uses (l : list bool) : prog single unit :=
  match l with
  | [] => skip
  | wait :: l =>
    got <-- (if wait then spinlock_lock sg_get sg_put;;;; Ret true else spinlock_trylock sg_get sg_put);;
    (if got : bool then begin_use;;;; end_use;;;; spinlock_unlock sg_get sg_put else skip);;;;
    uses l
  end.

(** What a thread has: nothing, the lock, or the lock and the thing. *)
Inductive user := Away | Held | Using.
Definition holding (g : user) : Z := match g with Away => 0 | _ => 1 end.
Definition in_use (g : user) : Z := match g with Using => 1 | _ => 0 end.

Record single_inv (s : single) (gs : list user) : Prop := {
  si_lock : sg_lock s = total holding gs;
  si_one : sg_lock s <= 1;
  si_users : sg_users s = total in_use gs }.

Lemma users_bounds gs : 0 <= total in_use gs <= total holding gs.
Proof. split; [apply total_nonneg; by intros []|apply total_le; by intros []]. Qed.

Lemma single_step s s' gs i g g' : single_inv s gs -> gs !! i = Some g ->
  sg_lock s' = sg_lock s - holding g + holding g' -> sg_lock s' <= 1 -> sg_users s' = sg_users s - in_use g + in_use g' ->
  single_inv s' (<[i := g']> gs).
Proof. intros [Hl H1 Hu] Hi ???. constructor; rewrite ?(total_insert _ _ _ _ _ Hi); lia. Qed.

Lemma test_and_set_safe (Q : Z -> user -> Prop) : Q 0 Held -> (forall l, l <> 0 -> Q l Away) ->
  safe single_inv (lock_test_and_set sg_get sg_put 1) Away Q.
Proof.
  intros Ht Hf. apply safe_act. intros s gs i Hs Hi. pose proof (users_bounds gs). destruct (Hs) as [Hl H1 Hu].
  exists (sg_lock s), (sg_put 1 s). destruct (Z.eq_dec (sg_lock s) 0) as [E|E]; [exists Held|exists Away].
  all: split; [done|split; [eapply single_step; try done; cbn; lia|rewrite ?E; by auto]].
Qed.

Lemma take_spinlock (Q : bool -> user -> Prop) : Q true Held -> Q false Away ->
  safe single_inv (spinlock_trylock sg_get sg_put) Away Q.
Proof. intros Ht Hf. by apply safe_bind, test_and_set_safe; [|intros l Hl; cbn; rewrite (proj2 (Z.eqb_neq _ _) Hl)]. Qed.

Lemma lock_spinlock (Q : unit -> user -> Prop) : Q tt Held -> safe single_inv (spinlock_lock sg_get sg_put) Away Q.
Proof. intros HQ. by apply safe_spin, safe_bind, test_and_set_safe; [|intros l Hl; cbn; rewrite (proj2 (Z.eqb_neq _ _) Hl)]. Qed.

Lemma use_single (Q : unit -> user -> Prop) : Q tt Away ->
  safe single_inv (begin_use;;;; end_use;;;; spinlock_unlock sg_get sg_put) Held Q.
Proof.
  intros HQ. apply safe_bind, safe_act. intros s gs i Hs Hi. destruct (Hs) as [Hl H1 Hu].
  assert (Hn : sg_users s = 0).
  { pose proof (users_bounds (<[i := Using]> gs)) as Hb. rewrite !(total_insert _ _ _ _ _ Hi) in Hb. cbn in Hb. pose proof (users_bounds gs). lia. }
  rewrite Hn. eexists _, _, Using. split; [done|]. split; [eapply single_step; try done; cbn; lia|]. clear s gs i Hs Hi Hl H1 Hu Hn.
  apply safe_bind, safe_act. intros s gs i Hs Hi. destruct (Hs) as [Hl H1 Hu].
  eexists _, _, Held. split; [done|]. split; [eapply single_step; try done; cbn; lia|]. clear s gs i Hs Hi Hl H1 Hu.
  apply safe_act. intros s gs i Hs Hi. pose proof (total_in holding gs i _ ltac:(by intros []) Hi) as Ht. cbn in Ht. destruct (Hs) as [Hl H1 Hu].
  eexists _, _, Away. split; [done|]. split; [eapply single_step; try done; cbn; lia|done].
Qed.

Lemma uses_safe l : safe single_inv (uses l) Away (fun _ g => g = Away).
Proof.
  induction l as [|wait l IH]; [done|]. cbn [uses]. apply safe_bind.
  assert (Hrest : forall got g, g = (if got : bool then Held else Away) ->
    safe single_inv ((if got then begin_use;;;; end_use;;;; spinlock_unlock sg_get sg_put else skip);;;; uses l) g (fun _ g => g = Away)).
  { intros [] g ->; apply safe_bind; [by apply use_single|done]. }
  destruct wait; [apply safe_bind, lock_spinlock; by apply (Hrest true)|apply take_spinlock; [by apply (Hrest true)|by apply (Hrest false)]].
Qed.

(** [C9] The spin lock excludes: whatever the threads do and the schedule, no two of them are inside at a time. *)
Theorem spinlock_excludes (ls : list (list bool)) schedule :
  exists ps s, run schedule (uses <$> ls) {| sg_lock := spinlock_init; sg_users := 0 |} = Some (ps, s) /\ 0 <= sg_users s <= 1.
Proof.
  destruct (pool_safe single_inv (fun _ g => g = Away) schedule (uses <$> ls)
    {| sg_lock := spinlock_init; sg_users := 0 |} (replicate (length ls) Away)) as (ps & s & gs & Hrun & [Hl H1 Hu] & _).
  - by constructor; cbn; rewrite ?total_replicate.
  - apply Forall2_fmap_l, Forall2_same_length_lookup_2; [by rewrite length_replicate|]. intros i l g _ Hg.
    apply lookup_replicate in Hg as [-> _]. apply uses_safe.
  - exists ps, s. split; [done|]. pose proof (users_bounds gs). lia.
Qed.
