(* ===== verification/Stm.v ===== *)
(** lua-stm.c: a message that one service updates and others read, without copying.

    A [stm_object] is shared by its references; it points to the last [stm_copy], which is shared by those
    who read it.  The functions are programs of single accesses, so every interleaving of the
    services' threads is covered. *)

From S2P Require Import Prelude Conc Locks.
Local Open Scope Z_scope.
Local Open Scope prog_scope.

(** ** The store *)

(** [c_msg] is the message's block, [None] when it has been freed. *)
Record stm_copy_t := { c_reference : Z; c_sz : Z; c_msg : option (list Z) }.
Record stm_object := { o_lock : rwlock; o_reference : Z; o_copy : Z }.

(** [mail] are the pointers to objects inside the messages that are on their way between services. *)
Record store := { objs : gmap Z stm_object; copies : gmap Z stm_copy_t; next_block : Z; mail : list Z }.

Definition set_objs o s := {| objs := o; copies := copies s; next_block := next_block s; mail := mail s |}.
Definition set_copies c s := {| objs := objs s; copies := c; next_block := next_block s; mail := mail s |}.
Definition set_mail m s := {| objs := objs s; copies := copies s; next_block := next_block s; mail := m |}.

Definition set_o_lock l o := {| o_lock := l; o_reference := o_reference o; o_copy := o_copy o |}.
Definition set_o_reference r o := {| o_lock := o_lock o; o_reference := r; o_copy := o_copy o |}.
Definition set_o_copy c o := {| o_lock := o_lock o; o_reference := o_reference o; o_copy := c |}.
Definition set_c_reference r c := {| c_reference := r; c_sz := c_sz c; c_msg := c_msg c |}.

Definition stm_prog := prog store.

Definition on_obj {B} (obj : Z) (f : stm_object -> B * stm_object) : stm_prog B :=
  act (fun s => o ← objs s !! obj; Some ((f o).1, set_objs (<[obj := (f o).2]> (objs s)) s)).
Definition on_copy {B} (copy : Z) (f : stm_copy_t -> B * stm_copy_t) : stm_prog B :=
  act (fun s => c ← copies s !! copy; Some ((f c).1, set_copies (<[copy := (f c).2]> (copies s)) s)).

Definition assert (b : bool) : stm_prog unit := act (fun s => if b then Some (tt, s) else None).

(** The lock of an object. *)
Definition obj_lock (obj : Z) (s : store) : option rwlock := o_lock <$> objs s !! obj.
Definition put_lock (obj : Z) (l : rwlock) (s : store) : store := set_objs (alter (set_o_lock l) obj (objs s)) s.
Definition wlock obj := rwlock_wlock (obj_lock obj) (put_lock obj).
Definition wunlock obj := rwlock_wunlock (obj_lock obj) (put_lock obj).
Definition rlock obj := rwlock_rlock (obj_lock obj) (put_lock obj).
Definition runlock obj := rwlock_runlock (obj_lock obj) (put_lock obj).

Definition load_copy obj : stm_prog Z := on_obj obj (fun o => (o_copy o, o)).
Definition store_copy obj c : stm_prog unit := on_obj obj (fun o => (tt, set_o_copy c o)).
Definition load_reference obj : stm_prog Z := on_obj obj (fun o => (o_reference o, o)).
Definition store_reference obj r : stm_prog unit := on_obj obj (fun o => (tt, set_o_reference r o)).
Definition obj_dec obj : stm_prog Z := on_obj obj (fun o => (o_reference o - 1, set_o_reference (o_reference o - 1) o)).
Definition obj_finc obj : stm_prog Z := on_obj obj (fun o => (o_reference o, set_o_reference (o_reference o + 1) o)).
Definition copy_dec c : stm_prog Z := on_copy c (fun o => (c_reference o - 1, set_c_reference (c_reference o - 1) o)).
Definition copy_finc c : stm_prog Z := on_copy c (fun o => (c_reference o, set_c_reference (c_reference o + 1) o)).

(** [skynet_free] of an object, of a copy's message, of a copy; what is not there must not be freed. *)
Definition free_obj obj : stm_prog unit :=
  act (fun s => _ ← objs s !! obj; Some (tt, set_objs (delete obj (objs s)) s)).
Definition free_msg copy : stm_prog unit :=
  act (fun s => c ← copies s !! copy; _ ← c_msg c;
    Some (tt, set_copies (<[copy := {| c_reference := c_reference c; c_sz := c_sz c; c_msg := None |}]> (copies s)) s)).
Definition free_copy copy : stm_prog unit :=
  act (fun s => _ ← copies s !! copy; Some (tt, set_copies (delete copy (copies s)) s)).

(** ** The functions

    A block is new until its pointer is stored, so making it is one action. *)

Definition stm_newcopy (msg : list Z) (sz : Z) : stm_prog Z :=
  act (fun s => let copy := next_block s in
    Some (copy, {| objs := objs s; next_block := next_block s + 1; mail := mail s;
      copies := <[copy := {| c_reference := 1; c_sz := u32 sz; c_msg := Some msg |}]> (copies s) |})).

(** The object is private until it is returned; its field [copy] is set last. *)
Definition new_object : stm_prog Z :=
  act (fun s => let obj := next_block s in
    Some (obj, {| copies := copies s; next_block := next_block s + 1; mail := mail s;
      objs := <[obj := {| o_lock := rwlock_init; o_reference := 1; o_copy := 0 |}]> (objs s) |})).

Definition stm_new (msg : list Z) (sz : Z) : stm_prog Z :=
  obj <-- new_object;;
  copy <-- stm_newcopy msg sz;;
  store_copy obj copy;;;;
  Ret obj.

Definition stm_releasecopy (copy : Z) : stm_prog unit :=
  if copy =? 0 then skip
  else
    n <-- copy_dec copy;;
    if n =? 0 then free_msg copy;;;; free_copy copy else skip.

Definition stm_release (obj : Z) : stm_prog unit :=
  copy <-- load_copy obj;;
  assert (negb (copy =? 0));;;;
  wlock obj;;;;
  copy <-- load_copy obj;;
  stm_releasecopy copy;;;;
  store_copy obj 0;;;;
  reference <-- load_reference obj;;
  store_reference obj (reference - 1);;;;
  if 0 <? reference - 1 then wunlock obj else free_obj obj.

Definition stm_releasereader (obj : Z) : stm_prog unit :=
  rlock obj;;;;
  n <-- obj_dec obj;;
  if n =? 0 then
    copy <-- load_copy obj;;
    assert (copy =? 0);;;;
    free_obj obj
  else runlock obj.

Definition stm_grab (obj : Z) : stm_prog unit :=
  rlock obj;;;;
  ref <-- obj_finc obj;;
  runlock obj;;;;
  assert (0 <? ref).

Definition stm_copy (obj : Z) : stm_prog Z :=
  rlock obj;;;;
  ret <-- load_copy obj;;
  (if negb (ret =? 0) then ref <-- copy_finc ret;; assert (0 <? ref) else skip);;;;
  runlock obj;;;;
  Ret ret.

Definition stm_update (obj : Z) (msg : list Z) (sz : Z) : stm_prog unit :=
  copy <-- stm_newcopy msg sz;;
  wlock obj;;;;
  oldcopy <-- load_copy obj;;
  store_copy obj copy;;;;
  wunlock obj;;;;
  stm_releasecopy oldcopy.

(** ** The functions of Lua

    A box is a userdata of Lua; its fields belong to the service. *)

Record boxreader := { r_obj : Z; r_lastcopy : Z }.

Definition lcopy (box : Z) : stm_prog Z := stm_grab box;;;; Ret box.
Definition lnewwriter (msg : list Z) : stm_prog Z := stm_new msg (zlen msg).
Definition ldeletewriter (box : Z) : stm_prog Z := stm_release box;;;; Ret 0.
Definition lupdate (box : Z) (msg : list Z) : stm_prog unit := stm_update box msg (zlen msg).
Definition lnewreader (obj : Z) : boxreader := {| r_obj := obj; r_lastcopy := 0 |}.
Definition ldeletereader (box : boxreader) : stm_prog boxreader :=
  stm_releasereader (r_obj box);;;;
  stm_releasecopy (r_lastcopy box);;;;
  Ret {| r_obj := 0; r_lastcopy := 0 |}.

(** What the function of [lread] sees at the pointer and size it is given. *)
Definition message_of (copy : Z) : stm_prog (list Z) :=
  act (fun s => c ← copies s !! copy; m ← c_msg c; if c_sz c <=? zlen m then Some (take (Z.to_nat (c_sz c)) m, s) else None).

(** The box, and the message when the function is called. *)
Definition lread (box : boxreader) : stm_prog (boxreader * option (list Z)) :=
  copy <-- stm_copy (r_obj box);;
  if copy =? r_lastcopy box then
    stm_releasecopy copy;;;;
    Ret (box, None)
  else
    stm_releasecopy (r_lastcopy box);;;;
    let box := {| r_obj := r_obj box; r_lastcopy := copy |} in
    if negb (copy =? 0) then m <-- message_of copy;; Ret (box, Some m)
    else Ret (box, None).

(** ** Services

    What a service does with its writer and its reader, one at a time of each, and where the pointers that [stm.copy]
    gives go: into a message to another service, which takes them out again. *)

Inductive command := Update (msg : list Z) | SendCopy | DeleteWriter | ReceiveReader | Read | DeleteReader.

Definition send (obj : Z) : stm_prog unit := act (fun s => Some (tt, set_mail (mail s ++ [obj]) s)).
Definition receive : stm_prog (option Z) :=
  act (fun s => Some (match mail s with [] => (None, s) | obj :: l => (Some obj, set_mail l s) end)).

(** The service's writer (0 when it has none), its reader, and what it has read: the address of the copy and the message. *)
Record service := { v_writer : Z; v_reader : boxreader; v_log : list (Z * list Z) }.

Definition command_step (c : command) (v : service) : stm_prog service :=
  let box := v_reader v in
  match c with
  | Update msg => if v_writer v =? 0 then Ret v else lupdate (v_writer v) msg;;;; Ret v
  | SendCopy => if v_writer v =? 0 then Ret v else obj <-- lcopy (v_writer v);; send obj;;;; Ret v
  | DeleteWriter =>
    if v_writer v =? 0 then Ret v else w <-- ldeletewriter (v_writer v);; Ret {| v_writer := w; v_reader := box; v_log := v_log v |}
  | ReceiveReader =>
    if negb (r_obj box =? 0) then Ret v
    else m <-- receive;;
      Ret match m with Some obj => {| v_writer := v_writer v; v_reader := lnewreader obj; v_log := v_log v |} | None => v end
  | Read =>
    if r_obj box =? 0 then Ret v
    else x <-- lread box;;
      Ret {| v_writer := v_writer v; v_reader := x.1;
        v_log := v_log v ++ match x.2 with Some m => [(r_lastcopy x.1, m)] | None => [] end |}
  | DeleteReader =>
    if r_obj box =? 0 then Ret v
    else r <-- ldeletereader box;; Ret {| v_writer := v_writer v; v_reader := r; v_log := v_log v |}
  end.

Fixpoint commands (l : list command) (v : service) : stm_prog service :=
  match l with
  | [] => Ret v
  | c :: l => v <-- command_step c v;; commands l v
  end.
