(* ===== verification/StmInv.v ===== *)
(** What keeps the store of lua-stm.c sound: the invariant of one object, its copies, and the services that
    share them. *)

From S2P Require Import Prelude Conc Locks Stm.
Local Open Scope Z_scope.
Local Open Scope prog_scope.

(** ** What a thread owns *)

(** Where the thread is in a function: what it knows of the object while it has the lock. *)
Inductive phase :=
| Idle
| Pending (c : Z)           (* stm_update: the new copy *)
| Swapping (c old : Z)      (* stm_update: the object's copy has been read *)
| Copying (c : Z)           (* stm_copy: the object's copy has been read *)
| Releasing                 (* stm_release: the object's reference to its copy is the thread's *)
| Cleared                   (* stm_release: the object has no copy *)
| Dropping (r : Z)          (* stm_release: the count has been read *)
| Leaving                   (* stm_release: the writer's reference is gone, others are there *)
| Freeing                   (* stm_release, stm_releasereader: no reference is there *)
| Dropped.                  (* stm_releasereader: the reader's reference is gone, others are there *)

(** [g_refs]: references to the object as a reader or as a sender; [g_writer]: the writer's; [g_right]: the right to
    drop readers' references; [g_copies]: references to copies; [g_dying]: a copy whose count the thread has
    brought to 0, and whether its message is still there; [g_seen]: the last copy it has got. *)
Record owned := Owned {
  g_refs : nat; g_writer : bool; g_right : bool; g_copies : list Z; g_dying : option (Z * bool);
  g_lock : lstate; g_phase : phase; g_seen : Z }.

Definition set_g_refs n g := Owned n (g_writer g) (g_right g) (g_copies g) (g_dying g) (g_lock g) (g_phase g) (g_seen g).
Definition set_g_writer b g := Owned (g_refs g) b (g_right g) (g_copies g) (g_dying g) (g_lock g) (g_phase g) (g_seen g).
Definition set_g_copies l g := Owned (g_refs g) (g_writer g) (g_right g) l (g_dying g) (g_lock g) (g_phase g) (g_seen g).
Definition set_g_dying d g := Owned (g_refs g) (g_writer g) (g_right g) (g_copies g) d (g_lock g) (g_phase g) (g_seen g).
Definition set_g_lock st g := Owned (g_refs g) (g_writer g) (g_right g) (g_copies g) (g_dying g) st (g_phase g) (g_seen g).
Definition set_g_phase p g := Owned (g_refs g) (g_writer g) (g_right g) (g_copies g) (g_dying g) (g_lock g) p (g_seen g).
Definition set_g_seen n g := Owned (g_refs g) (g_writer g) (g_right g) (g_copies g) (g_dying g) (g_lock g) (g_phase g) n.

(** Occurrences of a copy in a list of references. *)
Fixpoint occ (c : Z) (l : list Z) : Z := match l with [] => 0 | x :: l => Z.b2z (x =? c) + occ c l end.

Lemma occ_perm c l l' : l ≡ₚ l' -> occ c l = occ c l'.
Proof. induction 1; cbn; lia. Qed.

Lemma occ_nonneg c l : 0 <= occ c l.
Proof. induction l as [|x l IH]; cbn; [done|]. destruct (x =? c); cbn; lia. Qed.

(** ** The copies

    [n c] is the number of references to [c], whoever has them; [dying] is what each thread is about to free. *)

Record copies_inv (V : list Z -> Prop) (cs : gmap Z stm_copy_t) (next : Z) (n : Z -> Z) (dying : list (option (Z * bool))) : Prop := {
  ci_nonneg : forall c, 0 <= n c;
  ci_live : forall c, 0 < n c -> exists m, cs !! c = Some {| c_reference := n c; c_sz := zlen m; c_msg := Some m |} /\ V m;
  ci_all : forall c x, cs !! c = Some x -> 0 < c < next /\ (0 < n c \/ exists i b, dying !! i = Some (Some (c, b)));
  ci_dying : forall i c b, dying !! i = Some (Some (c, b)) -> n c = 0 /\ exists x, cs !! c = Some x /\ (b = true -> is_Some (c_msg x));
  ci_one : forall i j c b b', dying !! i = Some (Some (c, b)) -> dying !! j = Some (Some (c, b')) -> i = j }.

Lemma dying_insert (dying : list (option (Z * bool))) i w o j d b : dying !! i = Some w -> <[i := o]> dying !! j = Some (Some (d, b)) ->
  (j = i /\ o = Some (d, b)) \/ (j <> i /\ dying !! j = Some (Some (d, b))).
Proof.
  intros Hi. destruct (decide (j = i)) as [->|Hj]; [|rewrite list_lookup_insert_ne by done; by right].
  rewrite list_lookup_insert_eq by by eapply lookup_lt_Some. intros [= ->]. by left.
Qed.

Section copies.
Context (V : list Z -> Prop).

Lemma copies_ext cs next n n' dying : (forall c, n c = n' c) -> copies_inv V cs next n dying -> copies_inv V cs next n' dying.
Proof.
  intros Hn [H0 Hl Ha Hd H1]. constructor; intros; rewrite <- ?Hn in *; eauto.
Qed.

(** A new copy. *)
Lemma copies_new cs next n n' dying m : copies_inv V cs next n dying -> 0 < next -> V m ->
  (forall c, n' c = n c + Z.b2z (c =? next)) ->
  copies_inv V (<[next := {| c_reference := 1; c_sz := zlen m; c_msg := Some m |}]> cs) (next + 1) n' dying.
Proof.
  intros [H0 Hl Ha Hd H1] Hnext HV Hn.
  assert (Hfresh : cs !! next = None) by (destruct (cs !! next) eqn:E; [apply Ha in E; lia|done]).
  assert (Hn0 : n next = 0).
  { destruct (Z.eq_dec (n next) 0); [done|]. specialize (H0 next). destruct (Hl next) as (? & E & _); [lia|]. congruence. }
  constructor.
  - intros c. rewrite Hn. specialize (H0 c). destruct (c =? next); cbn; lia.
  - intros c. rewrite Hn. destruct (Z.eqb_spec c next) as [->|Hc]; cbn [Z.b2z].
    + intros _. exists m. rewrite lookup_insert_eq, Hn0. done.
    + rewrite lookup_insert_ne, Z.add_0_r by done. apply Hl.
  - intros c x. destruct (Z.eq_dec c next) as [->|Hc].
    + intros _. rewrite Hn, Z.eqb_refl. cbn. lia.
    + rewrite lookup_insert_ne, Hn, (proj2 (Z.eqb_neq _ _) Hc), Z.add_0_r by done. intros Hx. destruct (Ha _ _ Hx). split; [lia|done].
  - intros i c b Hi. destruct (Hd i c b Hi) as (Hc & x & Hx & Hb). assert (c <> next) as Hne by congruence.
    rewrite Hn, (proj2 (Z.eqb_neq _ _) Hne), lookup_insert_ne by done. split; [cbn; lia|eauto].
  - done.
Qed.

(** One more reference, or one less of several. *)
Lemma copies_count cs next n n' dying c x : copies_inv V cs next n dying -> 0 < n c -> 0 < n' c -> (forall d, d <> c -> n' d = n d) ->
  cs !! c = Some x -> copies_inv V (<[c := set_c_reference (n' c) x]> cs) next n' dying.
Proof.
  intros [H0 Hl Ha Hd H1] Hc Hc' Hn Hx. constructor.
  - intros d. destruct (Z.eq_dec d c) as [->|Hne]; [lia|]. by rewrite Hn.
  - intros d. destruct (Z.eq_dec d c) as [->|Hne].
    + intros _. destruct (Hl c Hc) as (m & Hm & HV). exists m. rewrite lookup_insert_eq. rewrite Hm in Hx. by injection Hx as <-.
    + rewrite (Hn d), lookup_insert_ne by done. apply Hl.
  - intros d y. destruct (Z.eq_dec d c) as [->|Hne].
    + intros _. destruct (Ha c x Hx). split; [done|by left].
    + rewrite (Hn d), lookup_insert_ne by done. apply Ha.
  - intros i d b Hi. destruct (Hd i d b Hi) as (Hz & y & Hy & Hb). assert (d <> c) by (intros ->; lia).
    rewrite (Hn d), lookup_insert_ne by done. eauto.
  - done.
Qed.

(** The last reference. *)
Lemma copies_last cs next n n' dying c x i : copies_inv V cs next n dying -> n c = 1 -> n' c = 0 -> (forall d, d <> c -> n' d = n d) ->
  cs !! c = Some x -> dying !! i = Some None ->
  copies_inv V (<[c := set_c_reference 0 x]> cs) next n' (<[i := Some (c, true)]> dying).
Proof.
  intros [H0 Hl Ha Hd H1] Hc Hc' Hn Hx Hi. assert (Hlen : (i < length dying)%nat) by by eapply lookup_lt_Some.
  assert (Hold : forall j d b, <[i := Some (c, true)]> dying !! j = Some (Some (d, b)) ->
    (j = i /\ d = c /\ b = true) \/ (j <> i /\ d <> c /\ dying !! j = Some (Some (d, b)))).
  { intros j d b Hj. destruct (dying_insert _ _ _ _ _ _ _ Hi Hj) as [[-> [= -> ->]]|[? Hj']]; [by left|right].
    split_and!; [done| |done]. intros ->. destruct (Hd _ _ _ Hj') as [? _]. lia. }
  constructor.
  - intros d. destruct (Z.eq_dec d c) as [->|Hne]; [lia|]. by rewrite Hn.
  - intros d Hd'. assert (d <> c) as Hne by (intros ->; lia). rewrite Hn, lookup_insert_ne by done. apply Hl. by rewrite <- Hn.
  - intros d y. destruct (Z.eq_dec d c) as [->|Hne].
    + intros _. destruct (Ha c x Hx). split; [done|right]. exists i, true. by rewrite list_lookup_insert_eq.
    + rewrite Hn, lookup_insert_ne by done. intros Hy. destruct (Ha d y Hy) as [? [?|(j & b & Hj)]]; [by auto|]. split; [done|right].
      exists j, b. rewrite list_lookup_insert_ne; [done|]. intros ->. congruence.
  - intros j d b Hj. destruct (Hold j d b Hj) as [(-> & -> & ->)|(Hj' & Hne & Hdj)].
    + split; [done|]. exists (set_c_reference 0 x). rewrite lookup_insert_eq. split; [done|intros _].
      destruct (Hl c) as (m & Hm & _); [lia|]. rewrite Hm in Hx. injection Hx as <-. by eexists.
    + rewrite Hn, lookup_insert_ne by done. by eapply Hd.
  - intros j k d b b' Hj Hk. destruct (Hold _ _ _ Hj) as [(-> & -> & ->)|(? & ? & ?)], (Hold _ _ _ Hk) as [(? & ? & ?)|(? & ? & ?)]; [done..|].
    by eapply H1.
Qed.

Lemma copies_free_msg cs next n dying c x i : copies_inv V cs next n dying -> dying !! i = Some (Some (c, true)) -> cs !! c = Some x ->
  copies_inv V (<[c := {| c_reference := c_reference x; c_sz := c_sz x; c_msg := None |}]> cs) next n (<[i := Some (c, false)]> dying).
Proof.
  intros [H0 Hl Ha Hd H1] Hi Hx. assert (Hlen : (i < length dying)%nat) by by eapply lookup_lt_Some. destruct (Hd _ _ _ Hi) as [Hc _].
  assert (Hold : forall j d b, <[i := Some (c, false)]> dying !! j = Some (Some (d, b)) ->
    (j = i /\ d = c /\ b = false) \/ (j <> i /\ d <> c /\ dying !! j = Some (Some (d, b)))).
  { intros j d b Hj. destruct (dying_insert _ _ _ _ _ _ _ Hi Hj) as [[-> [= -> ->]]|[? Hj']]; [by left|right].
    split_and!; [done| |done]. intros ->. by destruct (H1 _ _ _ _ _ Hi Hj'). }
  constructor.
  - done.
  - intros d Hd'. assert (d <> c) as Hne by (intros ->; lia). rewrite lookup_insert_ne by done. by apply Hl.
  - intros d y. destruct (Z.eq_dec d c) as [->|Hne].
    + intros _. destruct (Ha c x Hx). split; [done|right]. exists i, false. by rewrite list_lookup_insert_eq.
    + rewrite lookup_insert_ne by done. intros Hy. destruct (Ha d y Hy) as [? [?|(j & b & Hj)]]; [by auto|]. split; [done|right].
      exists j, b. rewrite list_lookup_insert_ne; [done|]. intros ->. congruence.
  - intros j d b Hj. destruct (Hold j d b Hj) as [(-> & -> & ->)|(Hj' & Hne & Hdj)].
    + split; [done|]. eexists. by rewrite lookup_insert_eq.
    + rewrite lookup_insert_ne by done. by eapply Hd.
  - intros j k d b b' Hj Hk. destruct (Hold _ _ _ Hj) as [(-> & -> & ->)|(? & ? & ?)], (Hold _ _ _ Hk) as [(? & ? & ?)|(? & ? & ?)]; [done..|].
    by eapply H1.
Qed.

Lemma copies_free cs next n dying c b i : copies_inv V cs next n dying -> dying !! i = Some (Some (c, b)) ->
  copies_inv V (delete c cs) next n (<[i := None]> dying).
Proof.
  intros [H0 Hl Ha Hd H1] Hi. destruct (Hd _ _ _ Hi) as [Hc _].
  assert (Hold : forall j d b, <[i := None]> dying !! j = Some (Some (d, b)) -> j <> i /\ d <> c /\ dying !! j = Some (Some (d, b))).
  { intros j d b' Hj. destruct (dying_insert _ _ _ _ _ _ _ Hi Hj) as [[_ [=]]|[? Hj']].
    split_and!; [done| |done]. intros ->. by destruct (H1 _ _ _ _ _ Hi Hj'). }
  constructor.
  - done.
  - intros d Hd'. assert (d <> c) as Hne by (intros ->; lia). rewrite lookup_delete_ne by done. by apply Hl.
  - intros d y. destruct (Z.eq_dec d c) as [->|Hne]; [by rewrite lookup_delete_eq|].
    rewrite lookup_delete_ne by done. intros Hy. destruct (Ha d y Hy) as [? [?|(j & b' & Hj)]]; [by auto|]. split; [done|right].
    exists j, b'. rewrite list_lookup_insert_ne; [done|]. intros ->. congruence.
  - intros j d b' Hj. destruct (Hold j d b' Hj) as (Hj' & Hne & Hdj). rewrite lookup_delete_ne by done. by eapply Hd.
  - intros j k d b1 b2 Hj Hk. destruct (Hold _ _ _ Hj) as (? & ? & ?), (Hold _ _ _ Hk) as (? & ? & ?). by eapply H1.
Qed.
End copies.

(** ** The object *)

Definition releasing (g : owned) : Z := match g_phase g with Releasing => 1 | _ => 0 end.
Definition freeing (g : owned) : Z := match g_phase g with Freeing => 1 | _ => 0 end.
Definition writer (g : owned) : Z := Z.b2z (g_writer g).
Definition holds (g : owned) : Z := Z.of_nat (g_refs g) + writer g.
Definition right (g : owned) : Z := Z.b2z (g_right g).
Definition alive (g : owned) : Prop := 0 < holds g.

(** What a thread in its phase knows of the object, and what it must have. *)
Definition phase_ok (ob : stm_object) (g : owned) : Prop :=
  match g_phase g with
  | Idle => match g_lock g with Out => True | Counted | Reading => alive g | _ => g_writer g = true end
  | Pending c => g_writer g = true /\ g_lock g <> Counted /\ g_lock g <> Reading /\ o_copy ob < c
  | Swapping c old => g_writer g = true /\ g_lock g = Writing /\ o_copy ob = old /\ old < c
  | Copying c => alive g /\ g_lock g = Reading /\ o_copy ob = c
  | Releasing => g_writer g = true /\ g_lock g = Writing
  | Cleared => g_writer g = true /\ g_lock g = Writing /\ o_copy ob = 0
  | Dropping r => g_writer g = true /\ g_lock g = Writing /\ o_copy ob = 0 /\ o_reference ob = r
  | Leaving => g_writer g = false /\ g_lock g = Writing /\ 0 < o_reference ob
  | Freeing => g_writer g = false /\ o_reference ob = 0 /\ (g_lock g = Writing \/ g_right g = true /\ g_lock g = Reading)
  | Dropped => g_right g = true /\ g_lock g = Reading /\ 0 < o_reference ob
  end.

Record thread_ok (ob : stm_object) (g : owned) : Prop := {
  tk_phase : phase_ok ob g;
  tk_copy : g_writer g = true -> match g_phase g with Cleared | Dropping _ => True | _ => o_copy ob <> 0 end;
  tk_seen : 0 <= g_seen g /\ (g_seen g <= o_copy ob \/ o_copy ob = 0) }.

(** [m] references are inside messages. *)
Record obj_inv (ob : stm_object) (m : Z) (gs : list owned) : Prop := {
  oi_lock : lock_inv (o_lock ob) (g_lock <$> gs);
  oi_reference : 0 <= m /\ o_reference ob = m + total holds gs;
  oi_writer : total writer gs <= 1;
  oi_right : total right gs <= 1;
  oi_copy : 0 <= o_copy ob /\ (total writer gs = 0 -> o_copy ob = 0);
  oi_alive : 0 < o_reference ob \/ 0 < total freeing gs;
  oi_threads : forall i g, gs !! i = Some g -> thread_ok ob g }.

(** Two threads at the same object. *)
Record apart (ob : stm_object) (m : Z) (g h : owned) : Prop := {
  ap_writer : g_writer g = true -> g_writer h = false;
  ap_right : g_right g = true -> g_right h = false;
  ap_writing : g_lock g = Writing -> g_lock h <> Writing /\ g_lock h <> Reading;
  ap_reading : g_lock g = Reading -> g_lock h <> Writing;
  ap_reference : m + holds g + holds h <= o_reference ob }.

Lemma owned_nonneg g : 0 <= writer g <= 1 /\ 0 <= right g <= 1 /\ 0 <= holds g /\ 0 <= freeing g <= 1 /\ 0 <= releasing g <= 1.
Proof. unfold holds, writer, right, freeing, releasing. destruct (g_writer g), (g_right g), (g_phase g); cbn; lia. Qed.

(** The sums over the threads, bounded by what one or two of them have. *)
Ltac owned_nonneg := let g := fresh in intros g; pose proof (owned_nonneg g); lia.

Lemma lock_of (gs : list owned) i g : gs !! i = Some g -> (g_lock <$> gs) !! i = Some (g_lock g).
Proof. intros Hi. by rewrite list_lookup_fmap, Hi. Qed.

Lemma writer_true g : writer g = 1 <-> g_writer g = true.
Proof. unfold writer. by destruct (g_writer g). Qed.

Lemma right_true g : right g = 1 <-> g_right g = true.
Proof. unfold right. by destruct (g_right g). Qed.

Lemma obj_apart ob m gs i j g h : obj_inv ob m gs -> gs !! i = Some g -> gs !! j = Some h -> i <> j -> apart ob m g h.
Proof.
  intros [Hl Href Hw Hr _ _ _] Hi Hj Hij.
  pose proof (total_in2 writer gs i j g h ltac:(owned_nonneg) Hi Hj Hij) as Hw2.
  pose proof (total_in2 right gs i j g h ltac:(owned_nonneg) Hi Hj Hij) as Hr2.
  pose proof (total_in2 holds gs i j g h ltac:(owned_nonneg) Hi Hj Hij) as Hh2.
  constructor.
  - intros Hg%writer_true. destruct (g_writer h) eqn:E; [|done]. apply writer_true in E. lia.
  - intros Hg%right_true. destruct (g_right h) eqn:E; [|done]. apply right_true in E. lia.
  - intros Hg. pose proof (lock_of gs i g Hi) as Hli. rewrite Hg in Hli. pose proof (lock_of gs j h Hj) as Hlj.
    destruct (lock_inv_excl _ _ i j Hl Hli Hij) as [Ha Hb]. split; intros E; [apply Ha|apply Hb]; by rewrite Hlj, E.
  - intros Hg E. pose proof (lock_of gs i g Hi) as Hli. rewrite Hg in Hli. pose proof (lock_of gs j h Hj) as Hlj. rewrite E in Hlj.
    by destruct (lock_inv_excl _ _ j i Hl Hlj ltac:(done)) as [_ Hb].
  - lia.
Qed.

(** A step of thread [i], which has [g] and then [g'], with the object and the mail. *)
Lemma obj_move ob m gs i g ob' m' g' : obj_inv ob m gs -> gs !! i = Some g -> 0 <= m' ->
  lock_inv (o_lock ob') (<[i := g_lock g']> (g_lock <$> gs)) ->
  o_reference ob' = o_reference ob + (m' - m) + (holds g' - holds g) ->
  writer g' <= writer g -> right g' = right g ->
  0 <= o_copy ob' /\ (writer g' < writer g \/ o_copy ob <> o_copy ob' -> o_copy ob' = 0 \/ writer g' = 1) ->
  0 < o_reference ob' \/ 0 < freeing g' ->
  thread_ok ob' g' -> (forall h, apart ob m g h -> thread_ok ob h -> thread_ok ob' h) ->
  obj_inv ob' m' (<[i := g']> gs).
Proof.
  intros Hinv Hi Hm Hl Hr Hw Hrt [Hc0 Hc] Ha Hg Hothers. destruct (Hinv) as [Hl0 Href Hw1 Hr1 [Hc1 Hcopy] _ Hth].
  pose proof (total_in writer gs i g ltac:(owned_nonneg) Hi) as Htw.
  pose proof (owned_nonneg g). pose proof (owned_nonneg g').
  constructor; rewrite ?(total_insert _ _ _ _ g' Hi); [|split; lia|lia..| | |].
  - by rewrite list_fmap_insert.
  - split; [done|]. intros Hz. destruct (Z.eq_dec (o_copy ob) (o_copy ob')) as [E|Hne].
    + destruct (decide (writer g' < writer g)) as [Hlt|Hge]; [destruct (Hc (or_introl Hlt)); lia|rewrite <- E; apply Hcopy; lia].
    + destruct (Hc (or_intror Hne)); lia.
  - destruct Ha as [?|?]; [by left|right]. pose proof (total_in freeing gs i g ltac:(owned_nonneg) Hi). lia.
  - intros j h. destruct (decide (j = i)) as [->|Hne].
    + rewrite list_lookup_insert_eq by by eapply lookup_lt_Some. by intros [= <-].
    + rewrite list_lookup_insert_ne by done. intros Hj. apply Hothers; [|by eapply Hth]. by eapply obj_apart.
Qed.

(** The object does not depend on what its threads have of the copies. *)
Record same_view (g g' : owned) : Prop := {
  sv_holds : g_refs g' = g_refs g /\ g_writer g' = g_writer g;
  sv_right : g_right g' = g_right g;
  sv_lock : g_lock g' = g_lock g;
  sv_phase : g_phase g' = g_phase g;
  sv_seen : g_seen g' = g_seen g }.

Lemma thread_view ob g g' : same_view g g' -> thread_ok ob g -> thread_ok ob g'.
Proof.
  intros [[Hr Hw] Hrt Hl Hp Hs] [Hph Hc Hse]. constructor; [|by rewrite Hw, Hp|by rewrite Hs].
  revert Hph. unfold phase_ok, alive, holds, writer. by rewrite Hr, Hw, Hrt, Hl, Hp.
Qed.

Lemma view_counts g g' : same_view g g' ->
  writer g' = writer g /\ right g' = right g /\ holds g' = holds g /\ freeing g' = freeing g /\ releasing g' = releasing g.
Proof. intros [[Hr Hw] Hrt Hl Hp Hs]. unfold holds, writer, right, freeing, releasing. by rewrite Hr, Hw, Hrt, Hp. Qed.

Lemma obj_view ob m gs i g g' : same_view g g' -> gs !! i = Some g -> obj_inv ob m gs -> obj_inv ob m (<[i := g']> gs).
Proof.
  intros Hv Hi [Hl Hr Hw Hrt Hc Ha Hth]. destruct (view_counts _ _ Hv) as (E1 & E2 & E3 & E4 & E5).
  constructor; rewrite ?(total_insert _ _ _ _ g' Hi), ?E1, ?E2, ?E3, ?E4.
  - rewrite list_fmap_insert, (sv_lock _ _ Hv). rewrite list_insert_id; [done|]. by apply lock_of.
  - lia.
  - lia.
  - lia.
  - split; [apply Hc|]. intros. apply Hc. lia.
  - destruct Ha; [by left|right; lia].
  - intros j h. destruct (decide (j = i)) as [->|Hne].
    + rewrite list_lookup_insert_eq by by eapply lookup_lt_Some. intros [= <-]. by eapply thread_view, Hth.
    + rewrite list_lookup_insert_ne by done. apply Hth.
Qed.

(** ** The whole *)

(** The thread is in the middle of nothing, and has nothing of the object. *)
Definition gone (g : owned) : Prop := holds g = 0 /\ g_lock g = Out /\ g_phase g = Idle.
Definition present (g : owned) : Prop := alive g \/ g_phase g <> Idle.

(** The object's own reference to its copy. *)
Definition obj_copies (ob : stm_object) (gs : list owned) : list Z :=
  if (o_copy ob =? 0) || (0 <? total releasing gs) then [] else [o_copy ob].

Definition references (c : Z) (oc : list Z) (gs : list owned) : Z := occ c oc + total (fun g => occ c (g_copies g)) gs.

Section inv.
Context (V : list Z -> Prop) (o : Z).

Definition refs_of (s : store) (gs : list owned) (c : Z) : Z :=
  references c (match objs s !! o with Some ob => obj_copies ob gs | None => [] end) gs.

Record stm_inv (s : store) (gs : list owned) : Prop := {
  st_next : 0 < next_block s;
  st_mail : Forall (eq o) (mail s);
  st_obj : match objs s !! o with
    | Some ob => obj_inv ob (zlen (mail s)) gs
    | None => mail s = [] /\ Forall gone gs
    end;
  st_copies : copies_inv V (copies s) (next_block s) (refs_of s gs) (g_dying <$> gs);
  st_only : forall p x, objs s !! p = Some x -> p = o }.

Lemma inv_present s gs i g : stm_inv s gs -> gs !! i = Some g -> present g -> exists ob, objs s !! o = Some ob /\ obj_inv ob (zlen (mail s)) gs.
Proof.
  intros [_ _ Ho _ _] Hi Hp. destruct (objs s !! o) as [ob|]; [by exists ob|]. destruct Ho as [_ Hg].
  rewrite Forall_lookup in Hg. destruct (Hg _ _ Hi) as (? & ? & ?). destruct Hp as [Hp|Hp]; [unfold alive in Hp; lia|done].
Qed.

Lemma references_insert c oc gs i g g' : gs !! i = Some g ->
  references c oc (<[i := g']> gs) = references c oc gs - occ c (g_copies g) + occ c (g_copies g').
Proof. intros Hi. unfold references. rewrite (total_insert _ _ _ _ _ Hi). lia. Qed.

Lemma references_in s gs i g c : gs !! i = Some g -> 0 <= occ c (g_copies g) <= refs_of s gs c.
Proof.
  intros Hi. unfold refs_of, references. pose proof (total_in (fun g => occ c (g_copies g)) gs i g ltac:(intros; apply occ_nonneg) Hi).
  pose proof (occ_nonneg c (match objs s !! o with Some ob => obj_copies ob gs | None => [] end)). pose proof (occ_nonneg c (g_copies g)). cbn in *. lia.
Qed.

(** A step on the copies. *)
Lemma safe_copies {B} (f : store -> option (B * store)) g (Q : B -> owned -> Prop) :
  (forall s gs i, stm_inv s gs -> gs !! i = Some g ->
    exists b s' l d, f s = Some (b, s') /\ objs s' = objs s /\ mail s' = mail s /\ 0 < next_block s' /\
      copies_inv V (copies s') (next_block s') (fun c => refs_of s gs c - occ c (g_copies g) + occ c l) (<[i := d]> (g_dying <$> gs)) /\
      Q b (set_g_copies l (set_g_dying d g))) ->
  safe stm_inv (act f) g Q.
Proof.
  intros Hf. apply safe_act. intros s gs i Hs Hi. destruct (Hs) as [Hn Hm Ho Hc Honly].
  destruct (Hf s gs i Hs Hi) as (b & s' & l & d & Hfs & Hobjs & Hmail & Hn' & Hc' & HQ).
  exists b, s', (set_g_copies l (set_g_dying d g)). split; [done|]. split; [|done].
  assert (Hv : same_view g (set_g_copies l (set_g_dying d g))) by done.
  constructor; [done|by rewrite Hmail| | |by rewrite Hobjs].
  - rewrite Hobjs, Hmail. destruct (objs s !! o) as [ob|]; [by eapply obj_view|]. destruct Ho as [? Hg]. split; [done|].
    apply Forall_insert; [done|]. rewrite Forall_lookup in Hg. exact (Hg i g Hi).
  - rewrite list_fmap_insert. eapply copies_ext, Hc'. intros c. unfold refs_of. rewrite Hobjs, (references_insert _ _ _ _ _ _ Hi). cbn [g_copies set_g_copies].
    destruct (objs s !! o) as [ob|]; [|done]. do 2 f_equal. unfold obj_copies. rewrite (total_insert _ _ _ _ _ Hi).
    destruct (view_counts _ _ Hv) as (_ & _ & _ & _ & ->). by replace (total releasing gs - releasing g + releasing g) with (total releasing gs) by lia.
Qed.

(** A step on the object. *)
Lemma safe_on_obj {B} (f : stm_object -> B * stm_object) g (Q : B -> owned -> Prop) : present g ->
  (forall ob m gs i, obj_inv ob m gs -> gs !! i = Some g ->
    exists g', obj_inv (f ob).2 m (<[i := g']> gs) /\ g_dying g' = g_dying g /\ Q (f ob).1 g' /\
      (forall c, occ c (obj_copies (f ob).2 (<[i := g']> gs)) + occ c (g_copies g') = occ c (obj_copies ob gs) + occ c (g_copies g))) ->
  safe stm_inv (on_obj o f) g Q.
Proof.
  intros Hp Hf. apply safe_act. intros s gs i Hs Hi. destruct (inv_present s gs i g Hs Hi Hp) as (ob & Hob & Hinv).
  destruct (Hf _ _ _ _ Hinv Hi) as (g' & Hinv' & Hd & HQ & Hc). destruct (Hs) as [Hn Hm _ Hcs Honly]. unfold refs_of in Hcs. rewrite Hob in Hcs |- *.
  exists (f ob).1, (set_objs (<[o := (f ob).2]> (objs s)) s), g'. split; [done|]. split; [|done].
  constructor; cbn [objs mail next_block copies set_objs]; [done|done|by rewrite lookup_insert_eq| |intros p x; destruct (Z.eq_dec p o); [done|rewrite lookup_insert_ne by done; apply Honly]].
  unfold refs_of. cbn [objs set_objs]. rewrite lookup_insert_eq, list_fmap_insert, Hd, (list_insert_id (g_dying <$> gs) i) by (by rewrite list_lookup_fmap, Hi).
  eapply copies_ext, Hcs. intros c. specialize (Hc c). unfold references. rewrite (total_insert _ _ _ _ _ Hi). cbn beta. lia.
Qed.
End inv.
