(* ===== verification/StmSafe.v ===== *)
(** The functions of lua-stm.c keep the store sound, each one for its thread alone; together, whatever the
    schedule, services read whole messages, and never an older one after a newer one. *)

From S2P Require Import Prelude Conc Locks Stm StmInv.
Local Open Scope Z_scope.
Local Open Scope prog_scope.

Section functions.
Context (V : list Z -> Prop) (o : Z).
Abbreviation safe := (safe (stm_inv V o)).

(** ** Copies *)

Lemma dying_of (gs : list owned) i g : gs !! i = Some g -> (g_dying <$> gs) !! i = Some (g_dying g).
Proof. intros Hi. by rewrite list_lookup_fmap, Hi. Qed.

Lemma copy_dec_safe c l g (Q : Z -> owned -> Prop) : g_copies g ≡ₚ c :: l -> g_dying g = None ->
  Q 0 (set_g_copies l (set_g_dying (Some (c, true)) g)) -> (forall n, n <> 0 -> Q n (set_g_copies l (set_g_dying None g))) ->
  safe (copy_dec c) g Q.
Proof.
  intros Hc Hd Hlast Hmore. apply safe_copies. intros s gs i Hs Hi. pose proof (st_copies _ _ _ _ Hs) as Hcs.
  pose proof (references_in o s gs i g c Hi) as Hin. rewrite (occ_perm c _ _ Hc) in Hin. cbn [occ] in Hin. rewrite Z.eqb_refl in Hin. cbn in Hin.
  pose proof (occ_nonneg c l). destruct (ci_live _ _ _ _ _ Hcs c ltac:(lia)) as (m & Hm & HV). rewrite Hm.
  assert (Hother : forall d, d <> c -> refs_of o s gs d - occ d (g_copies g) + occ d l = refs_of o s gs d).
  { intros d Hne. rewrite (occ_perm d _ _ Hc). cbn [occ]. rewrite (proj2 (Z.eqb_neq c d)) by done. cbn. lia. }
  assert (Hthis : refs_of o s gs c - occ c (g_copies g) + occ c l = refs_of o s gs c - 1).
  { rewrite (occ_perm c _ _ Hc). cbn [occ]. rewrite Z.eqb_refl. cbn. lia. }
  pose proof (st_next _ _ _ _ Hs). destruct (Z.eq_dec (refs_of o s gs c) 1) as [E|E].
  - eexists 0, _, l, (Some (c, true)). split; [cbn; rewrite E; done|]. cbn [copies next_block objs mail set_copies]. split_and!; [done..| |done].
    eapply (copies_last _ _ _ _ _ _ _ {| c_reference := 1; c_sz := zlen m; c_msg := Some m |}); try done; [cbn; lia|by rewrite Hm, E|by rewrite (dying_of _ _ _ Hi), Hd].
  - eexists (refs_of o s gs c - 1), _, l, None. split; [done|]. cbn [copies next_block objs mail set_copies]. split_and!; [done..| |apply Hmore; lia].
    rewrite list_insert_id by (by rewrite (dying_of _ _ _ Hi), Hd). cbn [fst snd c_reference]. rewrite <- Hthis.
    eapply (copies_count V _ _ (refs_of o s gs) (fun c => refs_of o s gs c - occ c (g_copies g) + occ c l) _ c {| c_reference := refs_of o s gs c; c_sz := zlen m; c_msg := Some m |}); try done; cbn beta; lia.
Qed.

Lemma free_copy_safe c g (Q : unit -> owned -> Prop) : g_dying g = Some (c, true) -> Q tt (set_g_dying None g) ->
  safe (free_msg c;;;; free_copy c) g Q.
Proof.
  intros Hd HQ. apply safe_bind, safe_copies. intros s gs i Hs Hi. pose proof (st_copies _ _ _ _ Hs) as Hcs. pose proof (st_next _ _ _ _ Hs).
  pose proof (dying_of _ _ _ Hi) as Hdi. rewrite Hd in Hdi. destruct (ci_dying _ _ _ _ _ Hcs i c true Hdi) as (Hz & x & Hx & Hb).
  destruct (Hb eq_refl) as [m Hm]. eexists tt, _, (g_copies g), (Some (c, false)). rewrite Hx. cbn. rewrite Hm. split_and!; [done..| |].
  { eapply copies_ext, copies_free_msg; [|done..]. intros d. cbn. lia. }
  clear s gs i Hs Hi Hcs Hdi Hz x Hx Hb m Hm H. apply safe_copies. intros s gs i Hs Hi. pose proof (st_copies _ _ _ _ Hs) as Hcs. pose proof (st_next _ _ _ _ Hs).
  pose proof (dying_of _ _ _ Hi) as Hdi. cbn in Hdi. destruct (ci_dying _ _ _ _ _ Hcs i c false Hdi) as (Hz & x & Hx & _).
  eexists tt, _, (g_copies g), None. cbn. rewrite Hx. split_and!; [done..| |by destruct g].
  eapply copies_ext, copies_free; [|done..]. intros d. cbn. lia.
Qed.

Lemma stm_releasecopy_safe c l g (Q : unit -> owned -> Prop) : c <> 0 -> g_copies g ≡ₚ c :: l -> g_dying g = None -> Q tt (set_g_copies l g) ->
  safe (stm_releasecopy c) g Q.
Proof.
  intros Hc0 Hc Hd HQ. assert (Hg : set_g_copies l (set_g_dying None g) = set_g_copies l g) by (destruct g; cbn in *; by rewrite Hd).
  unfold stm_releasecopy. rewrite (proj2 (Z.eqb_neq _ _) Hc0). apply safe_bind, (copy_dec_safe c l); [done..| |].
  - apply free_copy_safe; [done|]. cbn. by rewrite <- Hg in HQ.
  - intros n Hn. rewrite (proj2 (Z.eqb_neq _ _) Hn). cbn. by rewrite Hg.
Qed.

(** ** The object's lock *)

Lemma thread_set_lock ob l h : thread_ok ob h -> thread_ok (set_o_lock l ob) h.
Proof. intros [? ? ?]. by constructor. Qed.

Lemma reference_pos ob m gs i g : obj_inv ob m gs -> gs !! i = Some g -> alive g \/ g_phase g = Leaving \/ g_phase g = Dropped ->
  0 < o_reference ob.
Proof.
  intros [_ [Hm Hr] _ _ _ _ Hth] Hi Hg. destruct Hg as [Hg|Hg].
  - pose proof (total_in holds gs i g ltac:(owned_nonneg) Hi). unfold alive in Hg. lia.
  - destruct (Hth i g Hi) as [Hp _ _]. unfold phase_ok in Hp. destruct Hg as [Hg|Hg]; rewrite Hg in Hp; tauto.
Qed.

(** The thread moves the lock, and may leave a phase with that. *)
Lemma obj_lock_access P P' g g' : g_refs g' = g_refs g -> g_writer g' = g_writer g -> g_right g' = g_right g -> releasing g' = releasing g ->
  g_copies g' = g_copies g -> g_dying g' = g_dying g -> alive g \/ g_phase g = Leaving \/ g_phase g = Dropped ->
  (forall st st' ob, P st -> P' st' -> thread_ok ob (set_g_lock st g) -> thread_ok ob (set_g_lock st' g')) ->
  lock_access (stm_inv V o) (obj_lock o) (put_lock o) g_lock set_g_lock P P' g g'.
Proof.
  intros Hr Hw Hrt Hrel Hc Hd Hal Hth s gs i st Hs Hi HP.
  assert (Hal' : alive (set_g_lock st g) \/ g_phase (set_g_lock st g) = Leaving \/ g_phase (set_g_lock st g) = Dropped) by done.
  assert (Hp : present (set_g_lock st g)) by (destruct Hal' as [?|[E|E]]; [by left|right; by rewrite E..]).
  destruct (inv_present V o s gs i _ Hs Hi Hp) as (ob & Hob & Hinv). exists (o_lock ob). unfold obj_lock. rewrite Hob.
  split_and!; [done|apply Hinv|]. intros l' st' HP' Hl'. destruct (Hs) as [Hn Hm _ Hcs Honly]. unfold refs_of in Hcs. rewrite Hob in Hcs.
  assert (Hholds : holds (set_g_lock st' g') = holds (set_g_lock st g)) by (unfold holds, writer; cbn; by rewrite Hr, Hw).
  constructor; cbn [put_lock set_objs objs mail next_block copies]; [done|done| | |intros p x; destruct (Z.eq_dec p o); [done|rewrite lookup_alter_ne by done; apply Honly]].
  - rewrite lookup_alter_eq, Hob. cbn. eapply (obj_move ob _ gs i (set_g_lock st g) (set_o_lock l' ob) _ (set_g_lock st' g')); try done.
    + apply zlen_nonneg.
    + by rewrite list_fmap_insert in Hl'.
    + cbn. lia.
    + unfold writer. cbn. rewrite Hw. lia.
    + unfold right. cbn. by rewrite Hrt.
    + split; [apply Hinv|]. unfold writer. cbn. rewrite Hw. lia.
    + left. by eapply (reference_pos ob).
    + apply thread_set_lock. eapply Hth; [apply HP|done|]. by eapply (oi_threads _ _ _ Hinv).
    + intros h _. apply thread_set_lock.
  - unfold refs_of, put_lock. cbn [set_objs objs]. rewrite lookup_alter_eq, Hob, list_fmap_insert. cbn [fmap option_fmap option_map g_dying set_g_lock]. rewrite Hd, (list_insert_id (g_dying <$> gs) i) by (by rewrite (dying_of _ _ _ Hi)).
    eapply copies_ext, Hcs. intros c. rewrite (references_insert _ _ _ _ _ _ Hi). cbn [g_copies set_g_lock]. rewrite Hc.
    unfold obj_copies. rewrite (total_insert _ _ _ _ _ Hi). change (releasing (set_g_lock st' g')) with (releasing g').
    change (releasing (set_g_lock st g)) with (releasing g). rewrite Hrel.
    replace (total releasing gs - releasing g + releasing g) with (total releasing gs) by lia. cbn [o_copy set_o_lock]. lia.
Qed.

(** ** Steps on the object *)

Lemma lone_releasing ob m gs i g : obj_inv ob m gs -> gs !! i = Some g -> g_writer g = true \/ g_lock g = Reading ->
  total releasing gs = releasing g.
Proof.
  intros Hinv Hi Hg. pose proof (total_insert releasing gs i g (set_g_phase Idle g) Hi) as Ht. cbn in Ht.
  pose proof (total_nonneg releasing (<[i := set_g_phase Idle g]> gs) ltac:(owned_nonneg)).
  destruct (Z.eq_dec (total releasing (<[i := set_g_phase Idle g]> gs)) 0); [lia|exfalso].
  destruct (total_pos releasing (<[i := set_g_phase Idle g]> gs)) as (j & h & Hj & Hpos); [lia|].
  destruct (decide (j = i)) as [->|Hne]; [rewrite list_lookup_insert_eq in Hj by (by eapply lookup_lt_Some); by injection Hj as <-|].
  rewrite list_lookup_insert_ne in Hj by done. pose proof (obj_apart ob m gs i j g h Hinv Hi Hj ltac:(done)) as [Hw _ _ Hr _].
  pose proof (oi_threads _ _ _ Hinv j h Hj) as [Hp _ _]. unfold phase_ok in Hp. unfold releasing in Hpos.
  destruct (g_phase h); try lia. destruct Hp as [Hhw Hhl]. destruct Hg as [Hg|Hg]; [by rewrite Hw in Hhw|by apply Hr].
Qed.

(** A step that has nothing to do with references to copies. *)
Lemma safe_obj_step {B} (f : stm_object -> B * stm_object) g (Q : B -> owned -> Prop) : present g ->
  (forall ob m, thread_ok ob g -> 0 <= o_copy ob -> 0 <= m -> m + holds g <= o_reference ob ->
    (o_reference ob = 0 -> o_copy ob = 0) ->
    let ob' := (f ob).2 in
    o_lock ob' = o_lock ob /\ o_copy ob' = o_copy ob /\
    exists g', g_lock g' = g_lock g /\ releasing g' = releasing g /\ g_copies g' = g_copies g /\ g_dying g' = g_dying g /\ right g' = right g /\
      o_reference ob' = o_reference ob + (holds g' - holds g) /\ writer g' <= writer g /\ (writer g' < writer g -> o_copy ob = 0) /\
      (0 < o_reference ob' \/ 0 < freeing g') /\ thread_ok ob' g' /\ (forall h, apart ob m g h -> thread_ok ob h -> thread_ok ob' h) /\
      Q (f ob).1 g') ->
  safe (on_obj o f) g Q.
Proof.
  intros Hp Hf. apply safe_on_obj; [done|]. intros ob m gs i Hinv Hi.
  destruct (Hinv) as [Hl [Hm Href] Hw Hrt [Hc0 Hc] Ha Hth]. pose proof (total_in holds gs i g ltac:(owned_nonneg) Hi) as Hh.
  pose proof (total_in writer gs i g ltac:(owned_nonneg) Hi) as Hwg.
  assert (Hz : o_reference ob = 0 -> o_copy ob = 0).
  { intros Hz. apply Hc. pose proof (total_le writer holds gs) as Hle. pose proof (total_nonneg writer gs ltac:(owned_nonneg)).
    cut (total writer gs <= total holds gs); [lia|]. apply Hle. intros x. unfold holds. lia. }
  destruct (Hf ob m (Hth _ _ Hi) Hc0 Hm ltac:(lia) Hz) as (Hlk & Hcp & g' & E1 & E2 & E3 & E4 & E5 & Hr' & Hw' & Hwc & Ha' & Hth' & Hoth & HQ).
  exists g'. split_and!; [|done|done|].
  - eapply (obj_move ob m gs i g); try done; [by rewrite Hlk, E1, list_insert_id by (by apply lock_of)|lia|].
    split; [lia|]. rewrite Hcp. intros [Hlt|Hne]; [by left; apply Hwc|done].
  - intros c. rewrite E3. unfold obj_copies. rewrite Hcp, (total_insert _ _ _ _ _ Hi), E2.
    by replace (total releasing gs - releasing g + releasing g) with (total releasing gs) by lia.
Qed.

(** A load: the thread knows more of the object. *)
Lemma safe_load {B} (f : stm_object -> B) (p : stm_object -> phase) g (Q : B -> owned -> Prop) : alive g ->
  (forall ob, thread_ok ob g -> 0 <= o_copy ob ->
    (match p ob with Releasing => 1 | _ => 0 end) = releasing g /\ thread_ok ob (set_g_phase (p ob) g) /\ Q (f ob) (set_g_phase (p ob) g)) ->
  safe (on_obj o (fun ob => (f ob, ob))) g Q.
Proof.
  intros Ha Hf. apply safe_obj_step; [by left|]. intros ob m Hth Hc Hm Hr _. destruct (Hf ob Hth Hc) as (Hrel & Hth' & HQ).
  unfold alive in Ha. split_and!; [done..|]. exists (set_g_phase (p ob) g).
  change (holds (set_g_phase (p ob) g)) with (holds g). change (writer (set_g_phase (p ob) g)) with (writer g). cbn [fst snd].
  split_and!; try done; try lia; left; lia.
Qed.

(** ** The functions *)

(** What a thread has between the functions. *)
Definition rest n w rt cs seen : owned := Owned n w rt cs None Out Idle seen.
Definition has (n : nat) (w : bool) : Prop := 0 < Z.of_nat n + Z.b2z w.

Lemma rlock_safe n w rt cs seen (Q : unit -> owned -> Prop) : has n w -> Q tt (Owned n w rt cs None Reading Idle seen) ->
  safe (rlock o) (rest n w rt cs seen) Q.
Proof.
  intros Ha HQ. apply (rwlock_rlock_safe _ _ _ g_lock set_g_lock ltac:(done) (rest n w rt cs seen)); [|done].
  apply obj_lock_access; try done; [by left|]. intros st st' ob Hst Hst' [Hph Hc Hs]. constructor; [|done..].
  cbn in Hst'. by destruct Hst' as [<-|[<-|[<-|[]]]].
Qed.

(** Giving the lock back, from a phase in which the thread knows something. *)
Lemma runlock_safe n w rt cs p seen seen' (Q : unit -> owned -> Prop) :
  has n w \/ p = Dropped -> p <> Releasing ->
  (forall ob, thread_ok ob (Owned n w rt cs None Reading p seen) -> thread_ok ob (rest n w rt cs seen')) ->
  Q tt (rest n w rt cs seen') -> safe (runlock o) (Owned n w rt cs None Reading p seen) Q.
Proof.
  intros Ha Hp Hth HQ. apply (rwlock_runlock_safe _ _ _ g_lock set_g_lock ltac:(done) (Owned n w rt cs None Reading p seen) (rest n w rt cs seen')); [|done].
  apply obj_lock_access; try done; [by unfold releasing; cbn; destruct p|destruct Ha as [Ha|Ha]; [by left|by right; right]|]. intros st st' ob <- <-. apply Hth.
Qed.

Lemma safe_assert b g (Q : unit -> owned -> Prop) : b = true -> Q tt g -> safe (assert b) g Q.
Proof. intros -> HQ. apply safe_act. intros s gs i Hs Hi. exists tt, s, g. by rewrite (list_insert_id gs i g). Qed.

(** The object's reference keeps the copy there that has just been read. *)
Lemma copy_finc_safe n w rt cs seen c (Q : Z -> owned -> Prop) : c <> 0 ->
  (forall r, 0 < r -> Q r (Owned n w rt (c :: cs) None Reading (Copying c) seen)) ->
  safe (copy_finc c) (Owned n w rt cs None Reading (Copying c) seen) Q.
Proof.
  intros Hc0 HQ. apply safe_copies. intros s gs i Hs Hi.
  destruct (inv_present V o s gs i _ Hs Hi ltac:(by right)) as (ob & Hob & Hinv). pose proof (st_copies _ _ _ _ Hs) as Hcs.
  pose proof (oi_threads _ _ _ Hinv i _ Hi) as [(_ & _ & Hc) _ _]. cbn in Hc.
  pose proof (lone_releasing ob _ gs i _ Hinv Hi ltac:(by right)) as Hrel. unfold releasing in Hrel at 2; cbn in Hrel.
  assert (Hn : 0 < refs_of o s gs c).
  { unfold refs_of, references, obj_copies. rewrite Hob, Hrel, Hc, (proj2 (Z.eqb_neq c 0) Hc0). cbn. rewrite Z.eqb_refl. cbn.
    pose proof (total_nonneg (fun g => occ c (g_copies g)) gs ltac:(intros; apply occ_nonneg)). lia. }
  destruct (ci_live _ _ _ _ _ Hcs c Hn) as (m & Hm & HV). rewrite Hm.
  eexists (refs_of o s gs c), _, (c :: cs), None. split; [done|]. cbn [copies next_block objs mail set_copies]. split_and!; [done|done|by apply Hs| |by apply HQ].
  rewrite (list_insert_id (g_dying <$> gs) i) by (by rewrite (dying_of _ _ _ Hi)). cbn [g_copies occ fst snd c_reference].
  set (n' := fun d => refs_of o s gs d - occ d cs + (Z.b2z (c =? d) + occ d cs)).
  replace (refs_of o s gs c + 1) with (n' c) by (unfold n'; rewrite Z.eqb_refl; cbn; lia).
  eapply (copies_count V _ _ (refs_of o s gs) n' _ c {| c_reference := refs_of o s gs c; c_sz := zlen m; c_msg := Some m |}); try done; unfold n'.
  - rewrite Z.eqb_refl. cbn. lia.
  - intros d Hd. rewrite (proj2 (Z.eqb_neq c d)) by done. cbn. lia.
Qed.

Lemma stm_copy_safe n w rt cs seen (Q : Z -> owned -> Prop) : has n w -> Q 0 (rest n w rt cs seen) ->
  (forall c, c <> 0 -> seen <= c -> Q c (rest n w rt (c :: cs) c)) -> safe (stm_copy o) (rest n w rt cs seen) Q.
Proof.
  intros Ha HQ0 HQ. apply safe_bind, rlock_safe; [done|].
  apply safe_bind, (safe_load _ (fun ob => Copying (o_copy ob))); [done|]. intros ob [Hph Hcp Hs] Hc0. split_and!; [done|done|].
  cbn in Hs. apply safe_bind. destruct (Z.eqb_spec (o_copy ob) 0) as [E|E]; cbn [negb].
  - apply safe_bind, (runlock_safe _ _ _ _ _ _ seen); rewrite ?E; try done; [by left|].
    clear. intros ob [Hph Hcp Hs]. by constructor.
  - specialize (HQ (o_copy ob) E ltac:(lia)). revert HQ E. generalize (o_copy ob). clear -Ha. intros c HQ E.
    apply safe_bind, copy_finc_safe; [done|]. intros r Hr. apply safe_assert; [by apply Z.ltb_lt|].
    apply safe_bind, (runlock_safe _ _ _ _ _ _ c); try done; [by left|].
    clear. intros ob [Hph Hcp Hs]. destruct Hph as (? & ? & Hc). cbn in *. constructor; [done|done|]. cbn. lia.
Qed.

(** The other threads, when the count changes. *)
Lemma thread_set_reference ob r h : thread_ok ob h -> g_lock h <> Writing -> g_phase h <> Freeing -> (g_phase h = Dropped -> 0 < r) ->
  thread_ok (set_o_reference r ob) h.
Proof. intros [Hph Hc Hs] Hl Hf Hd. constructor; [|done..]. revert Hph Hd. unfold phase_ok. destruct (g_phase h); cbn; tauto. Qed.

Lemma stm_grab_safe n w rt cs seen (Q : unit -> owned -> Prop) : has n w -> Q tt (rest (S n) w rt cs seen) ->
  safe (stm_grab o) (rest n w rt cs seen) Q.
Proof.
  intros Ha HQ. apply safe_bind, rlock_safe; [done|]. apply safe_bind, safe_obj_step; [by left|].
  intros ob m [Hph Hcp Hs] Hc0 Hm Hr _. unfold has in Ha. unfold holds, writer in Hr. cbn in Hr. split_and!; [done..|].
  exists (Owned (S n) w rt cs None Reading Idle seen). cbn [fst snd]. split_and!; try done; try (unfold holds, writer; cbn; lia).
  - constructor; [|done..]. unfold phase_ok, alive, holds, writer. cbn. lia.
  - intros h Hap Hth. apply thread_set_reference; [done|by apply (ap_reading _ _ _ _ Hap)| |lia]. intros E. destruct Hth as [Hp _ _]. unfold phase_ok in Hp.
    rewrite E in Hp. lia.
  - apply safe_bind, (runlock_safe _ _ _ _ _ _ seen); try done; [left; unfold has; lia| |].
    { clear. intros ob [Hph Hcp Hs]. by constructor. }
    apply safe_assert; [apply Z.ltb_lt; lia|done].
Qed.

(** ** The end of the object *)

(** Nobody has anything of the object whose count is 0. *)
Lemma others_gone ob m gs i j g h : obj_inv ob m gs -> gs !! i = Some g -> gs !! j = Some h -> i <> j -> g_phase g = Freeing -> gone h.
Proof.
  intros Hinv Hi Hj Hij Hg. pose proof (obj_apart ob m gs i j g h Hinv Hi Hj Hij) as [Hw Hrt Hwr Hrd Href].
  pose proof (oi_threads _ _ _ Hinv i g Hi) as [Hpg _ _]. unfold phase_ok in Hpg. rewrite Hg in Hpg. destruct Hpg as (_ & Hr0 & Hlg).
  pose proof (oi_threads _ _ _ Hinv j h Hj) as [Hph _ _]. destruct (oi_reference _ _ _ Hinv) as [Hm _].
  pose proof (owned_nonneg g). pose proof (owned_nonneg h). assert (Hh : holds h = 0) by lia.
  assert (Hwh : g_writer h = false) by (destruct (g_writer h) eqn:E; [apply writer_true in E; unfold holds in Hh; lia|done]).
  unfold phase_ok, alive in Hph. rewrite Hwh, Hh, Hr0 in Hph. split; [done|].
  destruct (g_phase h); try (by destruct Hph as [? _]); try lia; try tauto.
  - split; [|done]. destruct (g_lock h); try done; lia.
  - exfalso. destruct Hph as (_ & _ & Hlh), Hlg as [E|[E1 E2]], Hlh as [F|[F1 F2]]; [by destruct (Hwr E)|by destruct (Hwr E)|by apply (Hrd E2)|].
    by rewrite (Hrt E1) in F1.
Qed.

Lemma free_obj_safe w rt cs st seen (Q : unit -> owned -> Prop) : Q tt (rest 0 false rt cs seen) ->
  safe (free_obj o) (Owned 0 w rt cs None st Freeing seen) Q.
Proof.
  intros HQ. apply safe_act. intros s gs i Hs Hi.
  destruct (inv_present V o s gs i _ Hs Hi ltac:(by right)) as (ob & Hob & Hinv). rewrite Hob.
  eexists tt, _, (rest 0 false rt cs seen). split; [done|]. split; [|done].
  pose proof (oi_threads _ _ _ Hinv i _ Hi) as [(Hw & Hr0 & Hl) _ _]. cbn in Hw. destruct (oi_reference _ _ _ Hinv) as [Hm Href].
  assert (Hh0 : 0 <= total holds gs) by (apply total_nonneg; owned_nonneg).
  assert (Hc0 : o_copy ob = 0).
  { apply (oi_copy _ _ _ Hinv). pose proof (total_nonneg writer gs ltac:(owned_nonneg)). 
    pose proof (total_le writer holds gs ltac:(intros x; unfold holds; lia)). lia. }
  destruct Hs as [Hn Hmail _ Hcs Honly]. constructor; cbn [objs mail next_block copies set_objs]; [done|done| | |by intros p x [_ Hx]%lookup_delete_Some; eapply Honly].
  - rewrite lookup_delete_eq. split; [destruct (mail s); [done|rewrite zlen_cons in *; pose proof (zlen_nonneg l); lia]|]. apply Forall_lookup. intros j h. destruct (decide (j = i)) as [->|Hne].
    + rewrite list_lookup_insert_eq by (by eapply lookup_lt_Some). by intros [= <-].
    + rewrite list_lookup_insert_ne by done. intros Hj. by apply (others_gone ob (zlen (mail s)) gs i j _ h Hinv Hi Hj).
  - rewrite list_fmap_insert, (list_insert_id (g_dying <$> gs) i) by (by rewrite (dying_of _ _ _ Hi)).
    eapply copies_ext, Hcs. intros c. unfold refs_of. cbn [objs set_objs]. rewrite lookup_delete_eq, Hob, (references_insert _ _ _ _ _ _ Hi).
    unfold obj_copies. rewrite Hc0. cbn [Z.eqb orb g_copies rest]. lia.
Qed.

Lemma stm_releasereader_safe n w cs seen (Q : unit -> owned -> Prop) : Q tt (rest n w true cs seen) ->
  safe (stm_releasereader o) (rest (S n) w true cs seen) Q.
Proof.
  intros HQ. apply safe_bind, rlock_safe; [unfold has; destruct w; cbn; lia|].
  apply safe_bind, safe_obj_step; [left; unfold alive, holds, writer; destruct w; cbn; lia|].
  intros ob m [Hph Hcp Hs] Hc0 Hm Hr Hz. unfold holds, writer in Hr. cbn in Hr. split_and!; [done..|].
  exists (Owned n w true cs None Reading (if o_reference ob - 1 =? 0 then Freeing else Dropped) seen). cbn [fst snd].
  assert (Hrel : releasing (Owned n w true cs None Reading (if o_reference ob - 1 =? 0 then Freeing else Dropped) seen) = 0) by (by destruct (_ =? 0)).
  split_and!; try done; try (unfold holds, writer; cbn; lia).
  - cbn. destruct (Z.eqb_spec (o_reference ob - 1) 0); [by right|left; destruct w; cbn in *; lia].
  - constructor; [|by destruct (_ =? 0)|done]. unfold phase_ok. cbn. destruct (Z.eqb_spec (o_reference ob - 1) 0); cbn.
    + split_and!; [destruct w; [cbn in *; lia|done]|lia|by right].
    + split_and!; [done|done|destruct w; cbn in *; lia].
  - intros h Hap [Hp ? ?]. pose proof (ap_right _ _ _ _ Hap eq_refl) as Hrh. pose proof (ap_reading _ _ _ _ Hap eq_refl) as Hlh.
    apply thread_set_reference; [done|done|intros E|intros E]; unfold phase_ok in Hp; rewrite E, ?Hrh in Hp; [|by destruct Hp].
    by destruct Hp as (_ & _ & [?|[? _]]).
  - destruct (Z.eqb_spec (o_reference ob - 1) 0) as [E|E].
    + assert (n = 0%nat /\ w = false) as [-> ->] by (destruct w; cbn in *; [lia|by split; [lia|]]). clear -HQ.
      apply safe_bind, safe_obj_step; [by right|]. intros ob m Hth Hc Hm Hr Hz. split_and!; [done..|]. cbn [fst snd].
      exists (Owned 0 false true cs None Reading Freeing seen). split_and!; try done; [lia|by right|].
      rewrite Hz by apply Hth. apply safe_bind, safe_assert; [done|]. by apply free_obj_safe.
    + apply (runlock_safe _ _ _ _ _ _ seen); try done; [by right|]. clear. intros ob [(_ & _ & Hp) Hc Hs]. by constructor.
Qed.

(** ** The writer *)

Lemma wlock_safe n rt cs p seen (Q : unit -> owned -> Prop) : p = Idle \/ (exists c, p = Pending c) ->
  Q tt (Owned n true rt cs None Writing p seen) -> safe (wlock o) (Owned n true rt cs None Out p seen) Q.
Proof.
  intros Hp HQ. apply (rwlock_wlock_safe _ _ _ g_lock set_g_lock ltac:(done) (Owned n true rt cs None Out p seen)); [|done].
  apply obj_lock_access; try done; [left; unfold alive, holds, writer; cbn; lia|]. intros st st' ob Hst Hst' [Hph Hc Hs]. constructor; [|done..].
  cbn in Hst'. unfold phase_ok in *. cbn [g_phase g_lock set_g_lock g_writer] in *.
  destruct Hp as [->|[c ->]]; destruct Hst' as [<-|[<-|[<-|[]]]]; tauto || (split_and!; try done; tauto).
Qed.

Lemma wunlock_safe n w rt cs p seen (Q : unit -> owned -> Prop) : w = true /\ p = Idle \/ p = Leaving ->
  Q tt (rest n w rt cs seen) -> safe (wunlock o) (Owned n w rt cs None Writing p seen) Q.
Proof.
  intros Hp HQ. apply (rwlock_wunlock_safe _ _ _ g_lock set_g_lock ltac:(done) (Owned n w rt cs None Writing p seen) (rest n w rt cs seen)); [|done].
  apply obj_lock_access; try done; [by unfold releasing; destruct Hp as [[_ ->]| ->]| |].
  - destruct Hp as [[-> ->]| ->]; [left; unfold alive, holds, writer; cbn; lia|by right; left].
  - intros st st' ob <- <- [Hph Hc Hs]. constructor; [done| |done]. cbn in *. by destruct Hp as [[_ ->]| ->].
Qed.

(** The others, when the writer in the lock changes the copy. *)
Lemma thread_set_copy ob m g c h : apart ob m g h -> g_writer g = true -> g_lock g = Writing -> thread_ok ob h ->
  o_copy ob <> 0 -> o_copy ob < c \/ c = 0 -> thread_ok (set_o_copy c ob) h.
Proof.
  intros [Hw _ Hwr _ _] Hg Hl [Hph Hc [Hs0 Hs]] Hne Hlt. specialize (Hw Hg). destruct (Hwr Hl) as [H1 H2].
  constructor; [|by rewrite Hw|split; [done|]; cbn; lia]. revert Hph. unfold phase_ok. rewrite Hw. destruct (g_phase h); cbn; naive_solver.
Qed.

Lemma stm_newcopy_safe n rt cs seen msg (Q : Z -> owned -> Prop) : V msg -> zlen msg < 2 ^ 32 ->
  (forall c, 0 < c -> Q c (Owned n true rt (c :: cs) None Out (Pending c) seen)) ->
  safe (stm_newcopy msg (zlen msg)) (rest n true rt cs seen) Q.
Proof.
  intros HV Hlen HQ. apply safe_act. intros s gs i Hs Hi. set (c := next_block s).
  destruct (inv_present V o s gs i _ Hs Hi ltac:(left; unfold alive, holds, writer; cbn; lia)) as (ob & Hob & Hinv).
  destruct Hs as [Hn Hmail _ Hcs Honly]. pose proof (oi_threads _ _ _ Hinv i _ Hi) as Hth. pose proof (tk_copy _ _ Hth eq_refl) as Hne. cbn in Hne.
  assert (Hlt : o_copy ob < c).
  { pose proof (lone_releasing ob _ gs i _ Hinv Hi ltac:(by left)) as Hrel. change (releasing (rest n true rt cs seen)) with 0 in Hrel.
    destruct (ci_live _ _ _ _ _ Hcs (o_copy ob)) as (x & Hx & _); [|by apply (ci_all _ _ _ _ _ Hcs) in Hx as [? _]; subst c; lia].
    unfold refs_of, references, obj_copies. rewrite Hob, Hrel, (proj2 (Z.eqb_neq _ _) Hne). cbn. rewrite Z.eqb_refl. cbn.
    pose proof (total_nonneg (fun g => occ (o_copy ob) (g_copies g)) gs ltac:(intros; apply occ_nonneg)). lia. }
  eexists c, _, (Owned n true rt (c :: cs) None Out (Pending c) seen). split; [done|]. split; [|by apply HQ].
  constructor; cbn [objs mail next_block copies]; [lia|done| | |done].
  - rewrite Hob. destruct (oi_reference _ _ _ Hinv) as [Hm Hr]. apply (obj_move ob (zlen (mail s)) gs i (rest n true rt cs seen)); try done.
    + rewrite list_insert_id by (apply (lock_of _ _ _ Hi)). apply Hinv.
    + unfold holds, writer. cbn. lia.
    + split; [apply Hinv|]. by right.
    + left. eapply (reference_pos ob); [done|done|]. left. unfold alive, holds, writer. cbn. lia.
    + constructor; [|done|apply Hth]. cbn. by split_and!.
  - rewrite list_fmap_insert, (list_insert_id (g_dying <$> gs) i) by (by rewrite (dying_of _ _ _ Hi)).
    replace (u32 (zlen msg)) with (zlen msg) by (symmetry; apply wrap_small; pose proof (zlen_nonneg msg); done). eapply copies_new; try done. intros d.
    unfold refs_of. cbn [objs]. rewrite Hob, (references_insert _ _ _ _ _ _ Hi). unfold obj_copies. rewrite (total_insert _ _ _ _ _ Hi).
    change (releasing (rest n true rt cs seen)) with 0. cbn [releasing g_phase g_copies rest occ]. rewrite (Z.eqb_sym d c).
    replace (total releasing gs - 0 + 0) with (total releasing gs) by lia. subst c. lia.
Qed.

(** The new copy goes in, and the object's reference to the old one is the thread's. *)
Lemma swap_copy_safe n rt cs c old seen (Q : unit -> owned -> Prop) : Q tt (Owned n true rt (old :: cs) None Writing Idle seen) ->
  safe (store_copy o c) (Owned n true rt (c :: cs) None Writing (Swapping c old) seen) Q.
Proof.
  intros HQ. apply safe_on_obj; [by right|]. intros ob m gs i Hinv Hi. set (g := Owned n true rt (c :: cs) None Writing (Swapping c old) seen).
  pose proof (oi_threads _ _ _ Hinv i _ Hi) as [(_ & _ & Hold & Hlt) Hne [Hs0 Hs]]. specialize (Hne eq_refl). cbn in Hold, Hlt, Hne, Hs0, Hs.
  destruct (oi_copy _ _ _ Hinv) as [Hc0 _]. destruct (oi_reference _ _ _ Hinv) as [Hm Hr].
  pose proof (lone_releasing ob _ gs i _ Hinv Hi ltac:(by left)) as Hrel. change (releasing g) with 0 in Hrel.
  exists (Owned n true rt (old :: cs) None Writing Idle seen). cbn [fst snd]. split_and!; [|done|done|].
  - apply (obj_move ob m gs i g); try done.
    + rewrite list_insert_id by (apply (lock_of _ _ _ Hi)). apply Hinv.
    + unfold holds, writer. cbn. lia.
    + cbn. split; [lia|]. by right.
    + left. eapply (reference_pos ob); [done|done|]. left. unfold alive, holds, writer. cbn. lia.
    + constructor; [done|cbn; lia|cbn; lia].
    + intros h Hap Hth. apply (thread_set_copy ob m g); try done. left. lia.
  - intros d. unfold obj_copies. rewrite (total_insert _ _ _ _ _ Hi), Hrel. cbn [o_copy set_o_copy g_copies releasing g_phase].
    rewrite (proj2 (Z.eqb_neq c 0)), (proj2 (Z.eqb_neq (o_copy ob) 0)) by lia. cbn. rewrite Hold. change (0 <? 0 - 0 + 0) with false. cbn. lia.
Qed.

Lemma stm_update_safe n rt cs seen msg (Q : unit -> owned -> Prop) : V msg -> zlen msg < 2 ^ 32 -> Q tt (rest n true rt cs seen) ->
  safe (stm_update o msg (zlen msg)) (rest n true rt cs seen) Q.
Proof.
  intros HV Hlen HQ. apply safe_bind, stm_newcopy_safe; [done..|]. intros c Hc.
  apply safe_bind, wlock_safe; [by right; exists c|].
  apply safe_bind, (safe_load _ (fun ob => Swapping c (o_copy ob))); [unfold alive, holds, writer; cbn; lia|].
  intros ob [(_ & _ & _ & Hlt) Hne Hs] Hc0. specialize (Hne eq_refl). split_and!; [done|by constructor|].
  cbn in Hne. apply safe_bind, swap_copy_safe. apply safe_bind, wunlock_safe; [by left|].
  by apply (stm_releasecopy_safe (o_copy ob) cs).
Qed.

(** The writer takes the object's reference to its copy. *)
Lemma take_copy_safe n rt cs seen (Q : Z -> owned -> Prop) :
  (forall c, c <> 0 -> Q c (Owned n true rt (c :: cs) None Writing Releasing seen)) ->
  safe (load_copy o) (Owned n true rt cs None Writing Idle seen) Q.
Proof.
  intros HQ. apply safe_on_obj; [left; unfold alive, holds, writer; cbn; lia|]. intros ob m gs i Hinv Hi. set (g := Owned n true rt cs None Writing Idle seen).
  pose proof (oi_threads _ _ _ Hinv i _ Hi) as [_ Hne Hs]. specialize (Hne eq_refl). cbn in Hne.
  destruct (oi_reference _ _ _ Hinv) as [Hm Hr]. pose proof (lone_releasing ob _ gs i _ Hinv Hi ltac:(by left)) as Hrel. change (releasing g) with 0 in Hrel.
  exists (Owned n true rt (o_copy ob :: cs) None Writing Releasing seen). cbn [fst snd]. split_and!; [|done|by apply HQ|].
  - apply (obj_move ob m gs i g); try done.
    + rewrite list_insert_id by (apply (lock_of _ _ _ Hi)). apply Hinv.
    + unfold holds, writer. cbn. lia.
    + split; [apply Hinv|]. by right.
    + left. eapply (reference_pos ob); [done|done|]. left. unfold alive, holds, writer. cbn. lia.
  - intros d. unfold obj_copies. rewrite (total_insert _ _ _ _ _ Hi), Hrel. cbn [g_copies releasing g_phase].
    rewrite (proj2 (Z.eqb_neq (o_copy ob) 0)) by lia. change (releasing g) with 0. change (0 <? 0 - 0 + 1) with true. cbn. lia.
Qed.

Lemma clear_copy_safe n rt cs seen (Q : unit -> owned -> Prop) : Q tt (Owned n true rt cs None Writing Cleared seen) ->
  safe (store_copy o 0) (Owned n true rt cs None Writing Releasing seen) Q.
Proof.
  intros HQ. apply safe_on_obj; [by right|]. intros ob m gs i Hinv Hi. set (g := Owned n true rt cs None Writing Releasing seen).
  pose proof (oi_threads _ _ _ Hinv i _ Hi) as [_ Hne [Hs _]]. specialize (Hne eq_refl). cbn in Hne, Hs.
  destruct (oi_reference _ _ _ Hinv) as [Hm Hr]. pose proof (lone_releasing ob _ gs i _ Hinv Hi ltac:(by left)) as Hrel. change (releasing g) with 1 in Hrel.
  exists (Owned n true rt cs None Writing Cleared seen). cbn [fst snd]. split_and!; [|done|done|].
  - apply (obj_move ob m gs i g); try done.
    + rewrite list_insert_id by (apply (lock_of _ _ _ Hi)). apply Hinv.
    + unfold holds, writer. cbn. lia.
    + split; [done|]. by left.
    + left. eapply (reference_pos ob); [done|done|]. left. unfold alive, holds, writer. cbn. lia.
    + constructor; [done|done|split; [done|by right]].
    + intros h Hap Hth. apply (thread_set_copy ob m g); try done. by right.
  - intros d. unfold obj_copies. rewrite Hrel. cbn. by rewrite orb_true_r.
Qed.

(** The writer's own reference, the last one or not. *)
Lemma drop_writer_safe n rt cs seen r (Q : unit -> owned -> Prop) :
  (0 < r - 1 -> Q tt (Owned n false rt cs None Writing Leaving seen)) ->
  (r - 1 = 0 -> n = 0%nat -> Q tt (Owned 0 false rt cs None Writing Freeing seen)) -> 
  safe (store_reference o (r - 1)) (Owned n true rt cs None Writing (Dropping r) seen) Q.
Proof.
  intros Hleave Hfree. apply safe_obj_step; [by right|]. intros ob m Hth Hc Hm Href Hz.
  pose proof (tk_phase _ _ Hth) as (_ & _ & Hc0 & Hr). cbn in Hc0, Hr. unfold holds, writer in Href. cbn in Href.
  split_and!; [done..|]. cbn [fst snd].
  exists (Owned n false rt cs None Writing (if 0 <? r - 1 then Leaving else Freeing) seen).
  assert (Hrel : releasing (Owned n false rt cs None Writing (if 0 <? r - 1 then Leaving else Freeing) seen) = 0) by (by destruct (0 <? _)).
  split_and!; try done; try (unfold holds, writer; cbn; lia).
  - cbn. destruct (Z.ltb_spec 0 (r - 1)); [by left|by right].
  - constructor; [|done|apply Hth]. cbn. destruct (Z.ltb_spec 0 (r - 1)); cbn; [done|]. split_and!; [done|lia|by left].
  - intros h Hap [Hph Hcp Hs]. destruct (ap_writing _ _ _ _ Hap eq_refl) as [H1 H2].
    apply thread_set_reference; [done|done|intros E|intros E]; unfold phase_ok in Hph; rewrite E in Hph; tauto.
  - destruct (Z.ltb_spec 0 (r - 1)); [by apply Hleave|]. assert (n = 0%nat) as -> by lia. apply Hfree; [lia|done].
Qed.

Lemma stm_release_safe n rt cs seen (Q : unit -> owned -> Prop) : Q tt (rest n false rt cs seen) ->
  safe (stm_release o) (rest n true rt cs seen) Q.
Proof.
  intros HQ. assert (Ha : forall cs st p, alive (Owned n true rt cs None st p seen)) by (intros; unfold alive, holds, writer; cbn; lia).
  apply safe_bind, (safe_load _ (fun _ => Idle)); [apply Ha|]. intros ob Hth _. split_and!; [done|done|].
  pose proof (tk_copy _ _ Hth eq_refl) as Hne. cbn in Hne.
  apply safe_bind, safe_assert; [by rewrite (proj2 (Z.eqb_neq _ _) Hne)|]. apply safe_bind, wlock_safe; [by left|]. clear ob Hth Hne.
  apply safe_bind, take_copy_safe. intros c Hc. apply safe_bind, (stm_releasecopy_safe c cs); [done..|].
  apply safe_bind, clear_copy_safe. apply safe_bind, (safe_load _ (fun ob => Dropping (o_reference ob))); [apply Ha|].
  intros ob [(_ & _ & Hc0) Hcp Hs] _. split_and!; [done|by constructor|].
  apply safe_bind, drop_writer_safe.
  - intros Hr. rewrite (proj2 (Z.ltb_lt _ _) Hr). apply wunlock_safe; [by right|done].
  - intros Hr Hn. cbn in Hn. subst n. rewrite (proj2 (Z.ltb_ge _ _)) by lia. by apply free_obj_safe.
Qed.

(** ** The rest of a service *)

Lemma message_of_safe n w rt c cs seen (Q : list Z -> owned -> Prop) : (forall m, V m -> Q m (rest n w rt (c :: cs) seen)) ->
  safe (message_of c) (rest n w rt (c :: cs) seen) Q.
Proof.
  intros HQ. apply safe_act. intros s gs i Hs Hi. pose proof (references_in o s gs i _ c Hi) as Hin. cbn in Hin. rewrite Z.eqb_refl in Hin. cbn in Hin.
  pose proof (occ_nonneg c cs). destruct (ci_live _ _ _ _ _ (st_copies _ _ _ _ Hs) c ltac:(lia)) as (m & Hm & HV).
  exists m, s, (rest n w rt (c :: cs) seen). rewrite Hm. cbn. rewrite Z.leb_refl, take_ge by (unfold zlen; lia).
  rewrite (list_insert_id gs i) by done. by split_and!; [|done|apply HQ].
Qed.

(** A reference goes into a message, or comes out of one. *)
Lemma mail_step s gs i g g' l : stm_inv V o s gs -> gs !! i = Some g -> Forall (eq o) l ->
  (exists ob, objs s !! o = Some ob /\ obj_inv ob (zlen l) (<[i := g']> gs)) -> releasing g' = releasing g -> g_copies g' = g_copies g -> g_dying g' = g_dying g ->
  stm_inv V o (set_mail l s) (<[i := g']> gs).
Proof.
  intros [Hn Hm _ Hcs Honly] Hi Hl (ob & Hob & Hinv) Hr Hc Hd. constructor; cbn [set_mail next_block mail objs copies]; [done|done|by rewrite Hob| |done].
  rewrite list_fmap_insert, Hd, (list_insert_id (g_dying <$> gs) i) by (by rewrite (dying_of _ _ _ Hi)).
  eapply copies_ext, Hcs. intros c. unfold refs_of. cbn [set_mail objs]. rewrite Hob, (references_insert _ _ _ _ _ _ Hi), Hc.
  unfold obj_copies. rewrite (total_insert _ _ _ _ _ Hi), Hr.
  replace (total releasing gs - releasing g + releasing g) with (total releasing gs) by lia. lia.
Qed.

Lemma send_safe n w rt cs seen (Q : unit -> owned -> Prop) : Q tt (rest n w rt cs seen) -> safe (send o) (rest (S n) w rt cs seen) Q.
Proof.
  intros HQ. apply safe_act. intros s gs i Hs Hi.
  destruct (inv_present V o s gs i _ Hs Hi ltac:(left; unfold alive, holds, writer; destruct w; cbn; lia)) as (ob & Hob & Hinv).
  eexists tt, _, (rest n w rt cs seen). split; [done|]. split; [|done].
  apply (mail_step s gs i (rest (S n) w rt cs seen)); try done; [apply Forall_app; split; [apply Hs|by constructor]|].
  exists ob. split; [done|]. rewrite zlen_app. change (zlen [o]) with 1. destruct (oi_reference _ _ _ Hinv) as [Hm Hr].
  pose proof (oi_threads _ _ _ Hinv i _ Hi) as Hth. apply (obj_move ob (zlen (mail s)) gs i (rest (S n) w rt cs seen)); try done.
  - lia.
  - rewrite list_insert_id by (apply (lock_of _ _ _ Hi)). apply Hinv.
  - unfold holds, writer. cbn. lia.
  - split; [apply Hinv|]. unfold writer. cbn. lia.
  - left. eapply (reference_pos ob); [done|done|]. left. unfold alive, holds, writer. destruct w; cbn; lia.
  - constructor; [done|apply Hth|apply Hth].
Qed.

Lemma receive_safe w rt cs (Q : option Z -> owned -> Prop) seen : Q None (rest 0 w rt cs seen) -> Q (Some o) (rest 1 w rt cs seen) ->
  safe receive (rest 0 w rt cs seen) Q.
Proof.
  intros HQ0 HQ1. apply safe_act. intros s gs i Hs Hi. destruct (mail s) as [|p l] eqn:El.
  { exists None, s, (rest 0 w rt cs seen). by rewrite (list_insert_id gs i). }
  pose proof (st_mail _ _ _ _ Hs) as Hmail. rewrite El in Hmail. apply Forall_cons in Hmail as [E Hl]. subst p.
  eexists (Some o), _, (rest 1 w rt cs seen). split; [done|]. split; [|done].
  apply (mail_step s gs i (rest 0 w rt cs seen)); try done. pose proof (st_obj _ _ _ _ Hs) as Ho. rewrite El in Ho.
  destruct (objs s !! o) as [ob|]; [|by destruct Ho]. exists ob. split; [done|]. rewrite zlen_cons in Ho. pose proof (zlen_nonneg l).
  pose proof (oi_threads _ _ _ Ho i _ Hi) as Hth. destruct (oi_reference _ _ _ Ho) as [Hm Hr].
  apply (obj_move ob (1 + zlen l) gs i (rest 0 w rt cs seen)); try done.
  - rewrite list_insert_id by (apply (lock_of _ _ _ Hi)). apply Ho.
  - unfold holds, writer. cbn. lia.
  - split; [apply Ho|]. unfold writer. cbn. lia.
  - left. pose proof (total_nonneg holds gs ltac:(owned_nonneg)). lia.
  - constructor; [done|apply Hth|apply Hth].
Qed.
End functions.
