(* ===== verification/StmSystem.v ===== *)
(** Services that share a message of lua-stm.c, under every schedule. *)

From S2P Require Import Prelude Conc Locks Stm StmInv StmSafe.
From Stdlib Require Import Sorted.
Local Open Scope Z_scope.
Local Open Scope prog_scope.

Section services.
Context (V : list Z -> Prop) (o : Z) (Ho : o <> 0).

(** ** A service *)

Definition list_of (c : Z) : list Z := if c =? 0 then [] else [c].

(** What the service has, and what it has read: newer and newer copies. *)
Record service_ok (right : bool) (v : service) (g : owned) : Prop := {
  so_owned : exists seen, g = rest (if r_obj (v_reader v) =? 0 then 0 else 1) (negb (v_writer v =? 0)) right (list_of (r_lastcopy (v_reader v))) seen /\
    Forall (fun x => x.1 <= seen) (v_log v);
  so_writer : v_writer v = 0 \/ v_writer v = o;
  so_reader : r_obj (v_reader v) = o \/ v_reader v = {| r_obj := 0; r_lastcopy := 0 |};
  so_sorted : StronglySorted Z.le (v_log v).*1;
  so_messages : Forall (fun x => V x.2) (v_log v) }.

Lemma releasecopy_list c cs n w rt seen (Q : unit -> owned -> Prop) : Q tt (rest n w rt cs seen) ->
  safe (stm_inv V o) (stm_releasecopy c) (rest n w rt (list_of c ++ cs) seen) Q.
Proof. intros HQ. unfold list_of. destruct (Z.eqb_spec c 0) as [->|Hc]; [done|]. by apply (stm_releasecopy_safe V o c cs). Qed.

Lemma sorted_snoc l x : StronglySorted Z.le l -> Forall (fun y => y <= x) l -> StronglySorted Z.le (l ++ [x]).
Proof.
  induction 1 as [|a l Hl IH Ha]; intros Hx; cbn; [by repeat constructor|]. apply Forall_cons in Hx as [? Hx].
  constructor; [by apply IH|]. apply Forall_app. split; [done|by constructor].
Qed.

Lemma lread_safe w rt last seen (Q : boxreader * option (list Z) -> owned -> Prop) :
  Q ({| r_obj := o; r_lastcopy := last |}, None) (rest 1 w rt (list_of last) seen) ->
  (forall c, seen <= c -> Q ({| r_obj := o; r_lastcopy := last |}, None) (rest 1 w rt (list_of last) c)) ->
  Q ({| r_obj := o; r_lastcopy := 0 |}, None) (rest 1 w rt [] seen) ->
  (forall c m, c <> 0 -> seen <= c -> V m -> Q ({| r_obj := o; r_lastcopy := c |}, Some m) (rest 1 w rt [c] c)) ->
  safe (stm_inv V o) (lread {| r_obj := o; r_lastcopy := last |}) (rest 1 w rt (list_of last) seen) Q.
Proof.
  intros Hsame Hold Hnone Hnew. apply safe_bind, stm_copy_safe; [unfold has; destruct w; cbn; lia| |]; cbn [r_lastcopy r_obj].
  - destruct (Z.eqb_spec 0 last) as [<-|Hne]; [by apply safe_bind|].
    apply safe_bind. rewrite <- (app_nil_r (list_of last)). by apply releasecopy_list.
  - intros c Hc Hs. destruct (Z.eqb_spec c last) as [<-|Hne].
    + apply safe_bind. specialize (Hold c Hs). unfold list_of in *. rewrite (proj2 (Z.eqb_neq _ _) Hc) in *.
      by apply (stm_releasecopy_safe V o c [c]).
    + apply safe_bind, (safe_mono _ _ _ (fun _ g => g = rest 1 w rt [c] c)).
      * intros _ g ->. rewrite (proj2 (Z.eqb_neq _ _) Hc). cbn [negb]. apply safe_bind, message_of_safe. intros m Hm. by apply Hnew.
      * unfold list_of. destruct (Z.eqb_spec last 0) as [->|Hl]; [done|].
        apply (stm_releasecopy_safe V o last [c]); try done. apply Permutation_swap.
Qed.

(** The commands a service may give: updates with good messages; to drop its reader, it needs the right. *)
Definition command_ok (right : bool) (c : command) : Prop :=
  match c with Update msg => V msg /\ zlen msg < 2 ^ 32 | DeleteReader => right = true | _ => True end.

Lemma command_safe right c v g : command_ok right c -> service_ok right v g ->
  safe (stm_inv V o) (command_step c v) g (service_ok right).
Proof.
  intros Hc Hv. destruct (Hv) as [(seen & -> & Hseen) Hw Hr Hsort Hmsg]. destruct v as [w [r last] log]. cbn [v_writer v_reader v_log r_obj r_lastcopy] in *.
  destruct c as [msg| | | | |]; cbn [command_step v_writer v_reader r_obj v_log].
  - destruct (Z.eqb_spec w 0) as [->|Hw0]; [done|]. destruct Hw as [?| ->]; [done|]. destruct Hc as [HV Hlen]. apply safe_bind. by apply stm_update_safe.
  - destruct (Z.eqb_spec w 0) as [->|Hw0]; [done|]. destruct Hw as [?| ->]; [done|]. cbn [negb].
    apply safe_bind, safe_bind, stm_grab_safe; [unfold has; destruct (r =? 0); cbn; lia|]. by apply safe_bind, send_safe.
  - destruct (Z.eqb_spec w 0) as [->|Hw0]; [done|]. destruct Hw as [?| ->]; [done|]. cbn [negb].
    apply safe_bind, safe_bind, stm_release_safe. constructor; try done; [|by left]. exists seen. done.
  - destruct (Z.eqb_spec r 0) as [->|Hr0]; [|done]. cbn [negb]. destruct Hr as [?|E]; [done|]. injection E as ->.
    apply safe_bind, receive_safe; [done|]. constructor; try done; [|by left]. exists seen. split; [|done].
    cbn. by rewrite (proj2 (Z.eqb_neq _ _) Ho).
  - destruct (Z.eqb_spec r 0) as [->|Hr0]; [done|]. destruct Hr as [->|E]; [|by injection E as -> ->].
    assert (Hok : forall last seen' log', Forall (fun x => x.1 <= seen') log' -> StronglySorted Z.le log'.*1 -> Forall (fun x => V x.2) log' ->
      service_ok right {| v_writer := w; v_reader := {| r_obj := o; r_lastcopy := last |}; v_log := log' |}
        (rest 1 (negb (w =? 0)) right (list_of last) seen')).
    { intros last' seen' log' ???. constructor; try done; [|by left]. exists seen'. split; [|done]. cbn. by rewrite (proj2 (Z.eqb_neq _ _) Ho). }
    assert (Hle : forall c, seen <= c -> Forall (fun x => x.1 <= c) log) by (intros c Hs; eapply Forall_impl; [exact Hseen|]; intros x ?; cbn in *; lia).
    apply safe_bind, lread_safe; cbn [safe fst snd r_lastcopy]; rewrite ?app_nil_r.
    + by apply Hok.
    + intros c Hs. by apply Hok; [apply Hle| |].
    + by apply (Hok 0).
    + intros c m Hc0 Hs Hm. specialize (Hok c c (log ++ [(c, m)])). unfold list_of in Hok. rewrite (proj2 (Z.eqb_neq c 0) Hc0) in Hok. apply Hok.
      * apply Forall_app. split; [by apply Hle|]. by constructor; [cbn; lia|].
      * rewrite fmap_app. apply sorted_snoc; [done|]. apply Forall_fmap. by apply Hle.
      * apply Forall_app. split; [done|]. by constructor.
  - destruct (Z.eqb_spec r 0) as [->|Hr0]; [done|]. destruct Hr as [->|E]; [|by injection E as -> ->].
    cbn in Hc. subst right. apply safe_bind, safe_bind, stm_releasereader_safe. cbn [r_lastcopy].
    apply safe_bind. rewrite <- (app_nil_r (list_of last)). apply releasecopy_list. constructor; try done; [|by right]. by exists seen.
Qed.

Lemma commands_safe right l : forall v g, Forall (command_ok right) l -> service_ok right v g ->
  safe (stm_inv V o) (commands l v) g (service_ok right).
Proof.
  induction l as [|c l IH]; intros v g Hl Hv; [done|]. apply Forall_cons in Hl as [Hc Hl]. apply safe_bind.
  eapply safe_mono; [|by apply command_safe]. intros v' g'. by apply IH.
Qed.

(** Nobody has anything: nothing is there. *)
Lemma nothing_left s gs : stm_inv V o s gs -> mail s = [] -> Forall (fun g => exists right seen, g = rest 0 false right [] seen) gs ->
  objs s = ∅ /\ copies s = ∅.
Proof.
  intros [Hn Hm Hobj Hcs Honly] Hmail Hg.
  assert (Ht : forall f : owned -> Z, (forall right seen, f (rest 0 false right [] seen) = 0) -> total f gs = 0).
  { intros f Hf. clear -Hg Hf. induction Hg as [|g gs (right & seen & ->) _ IH]; [done|]. cbn [total]. by rewrite Hf, IH. }
  assert (Hnone : objs s !! o = None).
  { destruct (objs s !! o) as [ob|]; [|done]. destruct (oi_reference _ _ _ Hobj) as [_ Hr]. rewrite Hmail, (Ht holds) in Hr by done. change (zlen []) with 0 in Hr.
    destruct (oi_alive _ _ _ Hobj) as [?|Hf]; [lia|]. by rewrite (Ht freeing) in Hf. }
  split; apply map_empty.
  - intros p. destruct (objs s !! p) eqn:E; [|done]. pose proof (Honly _ _ E). congruence.
  - intros c. destruct (copies s !! c) eqn:E; [|done]. apply (ci_all _ _ _ _ _ Hcs) in E as [_ [Hpos|(i & b & Hi)]].
    + unfold refs_of, references in Hpos. rewrite Hnone, (Ht (fun g => occ c (g_copies g))) in Hpos by done. cbn in Hpos. lia.
    + rewrite list_lookup_fmap in Hi. destruct (gs !! i) as [g|] eqn:Eg; [|done]. rewrite Forall_lookup in Hg.
      destruct (Hg _ _ Eg) as (? & ? & ->). done.
Qed.
End services.

(** ** The services together *)

Definition no_reader : boxreader := {| r_obj := 0; r_lastcopy := 0 |}.
Definition writer_service (obj : Z) : service := {| v_writer := obj; v_reader := no_reader; v_log := [] |}.
Definition empty_store : store := {| objs := ∅; copies := ∅; next_block := 1; mail := [] |}.

(** The messages of the updates in a list of commands. *)
Definition messages (l : list command) : list (list Z) := omap (fun c => match c with Update msg => Some msg | _ => None end) l.

(** The services: the first one has made the object, the others have nothing. *)
Definition services (obj : Z) (first : list command) (others : list (list command)) : list (stm_prog service) :=
  commands first (writer_service obj) :: ((fun l => commands l (writer_service 0)) <$> others).

Definition created (msg : list Z) : store :=
  {| objs := {[ 1 := {| o_lock := rwlock_init; o_reference := 1; o_copy := 2 |} ]}; next_block := 3; mail := [];
     copies := {[ 2 := {| c_reference := 1; c_sz := zlen msg; c_msg := Some msg |} ]} |}.

Lemma created_inv (V : list Z -> Prop) msg rt rights : V msg -> Z.b2z rt + total Z.b2z rights <= 1 ->
  stm_inv V 1 (created msg) (rest 0 true rt [] 0 :: ((fun b => rest 0 false b [] 0) <$> rights)).
Proof.
  intros HV Hone. set (gs := _ :: _).
  assert (Ht : forall f : owned -> Z, (forall b, f (rest 0 false b [] 0) = 0) -> total f gs = f (rest 0 true rt [] 0)).
  { intros f Hf. subst gs. cbn [total]. rewrite total_fmap. rewrite (total_ext _ (fun _ => 0)) by done. clear. induction rights; cbn [total] in *; lia. }
  assert (Hg : forall i g, gs !! i = Some g -> exists w b, g = rest 0 w b [] 0).
  { intros [|i] g Hi; [injection Hi as <-; by exists true, rt|].
    assert (Hi' : ((fun b => rest 0 false b [] 0) <$> rights) !! i = Some g) by exact Hi. rewrite list_lookup_fmap in Hi'.
    destruct (rights !! i) as [b|]; [|done]. injection Hi' as <-. by exists false, b. }
  assert (Hr : forall c, references c [2] gs = Z.b2z (2 =? c)).
  { intros c. unfold references. rewrite (Ht (fun g => occ c (g_copies g))) by done. cbn. lia. }
  constructor; cbn [created objs mail next_block copies]; [done|done| | |by intros p x [<- _]%lookup_singleton_Some].
  - rewrite lookup_singleton_eq. constructor; cbn [o_lock o_reference o_copy].
    + pose proof (lock_inv_init (length gs)) as Hl. replace (g_lock <$> gs) with (replicate (length gs) Out); [done|].
      symmetry. apply list_eq. intros i. rewrite list_lookup_fmap. destruct (gs !! i) as [g|] eqn:E; cbn [fmap option_fmap option_map].
      * rewrite lookup_replicate_2 by by eapply lookup_lt_Some. destruct (Hg i g E) as (w & b & ->). done.
      * symmetry. apply lookup_replicate_None. by apply lookup_ge_None.
    + change (zlen []) with 0. by rewrite (Ht holds).
    + by rewrite (Ht writer).
    + subst gs. cbn [total]. rewrite total_fmap. exact Hone.
    + split; [done|]. by rewrite (Ht writer).
    + by left.
    + intros i g Hi. destruct (Hg i g Hi) as (w & b & ->). constructor; [done|done|]. cbn. lia.
  - apply (copies_ext V _ _ (fun c => Z.b2z (2 =? c))).
    { intros c. unfold refs_of, obj_copies. cbn [objs created]. rewrite lookup_singleton_eq. cbn [o_copy]. by rewrite (Ht releasing), Hr. }
    constructor.
    + intros c. by destruct (2 =? c).
    + intros c. destruct (Z.eqb_spec 2 c) as [<-|]; [|done]. intros _. exists msg. by rewrite lookup_singleton_eq.
    + intros c x [<- <-]%lookup_singleton_Some. split; [lia|by left].
    + intros i c b Hi. rewrite list_lookup_fmap in Hi. destruct (gs !! i) as [g|] eqn:E; [|done]. by destruct (Hg i g E) as (? & ? & ->).
    + intros i j c b b' Hi _. rewrite list_lookup_fmap in Hi. destruct (gs !! i) as [g|] eqn:E; [|done]. by destruct (Hg i g E) as (? & ? & ->).
Qed.

Lemma one_right k m : forall n, total (fun i => Z.b2z (bool_decide (i = k))) (seq n m) <= 1 /\
  ((k < n)%nat -> total (fun i => Z.b2z (bool_decide (i = k))) (seq n m) = 0).
Proof.
  induction m as [|m IH]; intros n; cbn [seq total]; [done|]. destruct (IH (S n)) as [H1 H2]. case_bool_decide as E; cbn.
  - subst n. rewrite H2 by lia. lia.
  - split; [lia|]. intros. rewrite H2; lia.
Qed.

Lemma messages_ok (V : list Z -> Prop) right l : Forall V (messages l) -> Forall (fun m => zlen m < 2 ^ 32) (messages l) ->
  (DeleteReader ∈ l -> right = true) -> Forall (command_ok V right) l.
Proof.
  intros HV Hlen Hright. apply Forall_forall. intros c Hc. destruct c as [m| | | | |]; try done.
  - assert (Hm : m ∈ messages l) by (apply list_elem_of_omap; by exists (Update m)).
    rewrite !Forall_forall in *. split; [by apply HV|by apply Hlen].
  - by apply Hright.
Qed.

Lemma services_safe (V : list Z -> Prop) first others k :
  Forall V (messages first ++ concat (messages <$> others)) ->
  Forall (fun m => zlen m < 2 ^ 32) (messages first ++ concat (messages <$> others)) ->
  (forall i l, (first :: others) !! i = Some l -> DeleteReader ∈ l -> i = k) ->
  Forall2 (fun p g => safe (stm_inv V 1) p g (fun v g => service_ok V 1 (g_right g) v g)) (services 1 first others)
    (rest 0 true (bool_decide (0%nat = k)) [] 0 :: ((fun b => rest 0 false b [] 0) <$> ((fun i => bool_decide (i = k)) <$> seq 1 (length others)))).
Proof.
  intros HV Hlen Hk. apply Forall_app in HV as [HV1 HV2]. apply Forall_app in Hlen as [Hl1 Hl2].
  assert (Hsafe : forall l w right, (w = 0 \/ w = 1) -> Forall (command_ok V right) l ->
    safe (stm_inv V 1) (commands l (writer_service w)) (rest 0 (negb (w =? 0)) right [] 0) (fun v g => service_ok V 1 (g_right g) v g)).
  { intros l w right Hw Hl. eapply safe_mono; [|apply (commands_safe V 1 ltac:(done) right l); [done|]].
    - intros v g Hv. destruct (Hv) as [(seen & -> & _) _ _ _ _]. exact Hv.
    - constructor; try done; [by exists 0|by right|by constructor]. }
  constructor.
  - apply (Hsafe first 1 _); [by right|]. apply messages_ok; [done..|]. intros Hd. apply bool_decide_eq_true. by apply (Hk 0%nat first).
  - apply Forall2_same_length_lookup_2; [by rewrite !length_fmap, length_seq|]. intros i p g Hp Hg.
    rewrite list_lookup_fmap in Hp. destruct (others !! i) as [l|] eqn:El; [|done]. injection Hp as <-.
    rewrite !list_lookup_fmap, lookup_seq_lt in Hg by by eapply lookup_lt_Some. injection Hg as <-.
    apply (Hsafe l 0 _); [by left|]. rewrite Forall_concat, Forall_fmap, Forall_lookup in HV2, Hl2.
    apply messages_ok; [by eapply HV2|by eapply Hl2|]. intros Hd. apply bool_decide_eq_true. by apply (Hk (S i) l).
Qed.

(** [C7] Services that update, copy, read and release a shared message in every interleaving of their memory accesses: nothing
    that has been freed is used, no assertion fails; a service reads whole messages, of the writer's, and never an older one after a newer
    one; and when all is released nothing is left.  It takes that one service alone drops readers: with two, a freed lock is
    written ([releasereader_races]). *)
Theorem stm_services_sound msg first others k schedule :
  Forall (fun m => zlen m < 2 ^ 32) (msg :: messages first ++ concat (messages <$> others)) ->
  (forall i l, (first :: others) !! i = Some l -> DeleteReader ∈ l -> i = k) ->
  run [0; 0; 0]%nat [lnewwriter msg] empty_store = Some ([Ret 1], created msg) /\
  exists ps s, run schedule (services 1 first others) (created msg) = Some (ps, s) /\
    (forall i v, ps !! i = Some (Ret v) -> StronglySorted Z.le (v_log v).*1 /\
      Forall (fun x => x.2 ∈ msg :: messages first ++ concat (messages <$> others)) (v_log v)) /\
    (mail s = [] -> Forall (fun p => exists log, p = Ret {| v_writer := 0; v_reader := no_reader; v_log := log |}) ps ->
      objs s = ∅ /\ copies s = ∅).
Proof.
  intros Hlen Hk. apply Forall_cons in Hlen as [Hlen0 Hlen]. set (V := fun m => m ∈ msg :: messages first ++ concat (messages <$> others)).
  assert (HV : Forall V (messages first ++ concat (messages <$> others))) by (apply Forall_forall; intros m Hm; by right).
  split. { cbn. unfold created. rewrite !insert_empty. unfold u32. by rewrite (wrap_small 32) by (pose proof (zlen_nonneg msg); split; [done|exact Hlen0]). }
  assert (Hone : Z.b2z (bool_decide (0%nat = k)) + total Z.b2z ((fun i => bool_decide (i = k)) <$> seq 1 (length others)) <= 1).
  { rewrite total_fmap. exact (proj1 (one_right k (S (length others)) 0)). }
  destruct (pool_safe (stm_inv V 1) (fun v g => service_ok V 1 (g_right g) v g) schedule (services 1 first others) (created msg) _
    (created_inv V msg _ _ ltac:(by left) Hone)) as (ps & s & gs & Hrun & Hs & Hps); [by apply services_safe|].
  exists ps, s. split; [done|]. split.
  - intros i v Hi. destruct (Forall2_lookup_l _ _ _ _ _ Hps Hi) as (g & _ & Hv). split; [exact (so_sorted _ _ _ _ _ Hv)|exact (so_messages _ _ _ _ _ Hv)].
  - intros Hmail Hdone. apply (nothing_left V 1 s gs Hs Hmail). apply Forall_lookup. intros i g Hg.
    destruct (Forall2_lookup_r _ _ _ _ _ Hps Hg) as (p & Hp & Hv). rewrite Forall_lookup in Hdone. destruct (Hdone i p Hp) as [log ->].
    destruct (so_owned _ _ _ _ _ Hv) as (seen & E & _). exists (g_right g), seen. exact E.
Qed.

(** ** At concrete services *)

(** The writer hands out one copy, updates twice and goes; the reader reads. *)
Definition demo_writer : list command := [SendCopy; Update [4; 5]; Update [6]; DeleteWriter].
Definition demo_reader : list command := [ReceiveReader; Read; Read; Read; Read; DeleteReader].
Definition turns (l : list (nat * nat)) : list nat := concat ((fun x => replicate x.2 x.1) <$> l).
Definition demo_schedule : list nat := turns [(0, 9); (1, 11); (0, 9); (1, 13); (0, 9); (1, 13); (0, 60); (1, 60)]%nat.

(** All messages are read, and all is freed. *)
Example demo_turns : run demo_schedule (services 1 demo_writer [demo_reader]) (created [1; 2; 3]) =
  Some ([Ret {| v_writer := 0; v_reader := no_reader; v_log := [] |};
         Ret {| v_writer := 0; v_reader := no_reader; v_log := [(2, [1; 2; 3]); (3, [4; 5]); (4, [6])] |}],
    {| objs := ∅; copies := ∅; next_block := 5; mail := [] |}).
Proof. vm_compute. reflexivity. Qed.

Example stm_services_sound_witness :
  run [0; 0; 0]%nat [lnewwriter [1; 2; 3]] empty_store = Some ([Ret 1], created [1; 2; 3]) /\
  exists ps s, run demo_schedule (services 1 demo_writer [demo_reader]) (created [1; 2; 3]) = Some (ps, s) /\
    (forall i v, ps !! i = Some (Ret v) -> StronglySorted Z.le (v_log v).*1 /\
      Forall (fun x => x.2 ∈ [1; 2; 3] :: messages demo_writer ++ concat (messages <$> [demo_reader])) (v_log v)) /\
    (mail s = [] -> Forall (fun p => exists log, p = Ret {| v_writer := 0; v_reader := no_reader; v_log := log |}) ps ->
      objs s = ∅ /\ copies s = ∅).
Proof.
  apply (stm_services_sound [1; 2; 3] demo_writer [demo_reader] 1%nat demo_schedule).
  - repeat constructor.
  - intros [|[|i]] l Hl Hin; cbn in Hl; [|done|done]. injection Hl as <-. exfalso.
    repeat (apply list_elem_of_In in Hin; destruct Hin as [Hin|Hin]; [done|apply list_elem_of_In in Hin]). by apply not_elem_of_nil in Hin.
Defined.

(** ** What modelling showed *)

(** Two services drop their readers, nobody else being there: the first gives up its reference, the second one frees the
    object, and the first one unlocks what has been freed. *)
Example releasereader_races :
  run (turns [(0, 60); (1, 7); (2, 14)]%nat ++ [1%nat]) (services 1 [SendCopy; SendCopy; DeleteWriter] [[ReceiveReader; DeleteReader]; [ReceiveReader; DeleteReader]])
    (created [1]) = None /\
  (fun x => objs x.2) <$> run (turns [(0, 60); (1, 7); (2, 14)]%nat) (services 1 [SendCopy; SendCopy; DeleteWriter] [[ReceiveReader; DeleteReader]; [ReceiveReader; DeleteReader]])
    (created [1]) = Some ∅.
Proof. by vm_compute. Qed.
