(* ===== verification/State.v ===== *)
(** Computations over a state that may fail, and weakest preconditions for them.

    [ST S A] is C code that changes a state [S] and gives an [A]; [None] is what C
    leaves undefined or aborts on.  [wp m Q s] says that [m] does not fail in [s]
    and that [Q] holds of what it gives and leaves: total correctness, proved by
    walking through the code. *)

From S2P Require Import Prelude.

Definition ST (S A : Type) : Type := S -> option (A * S).

Section st.
Context {S : Type}.

Definition ret {A} (a : A) : ST S A := fun s => Some (a, s).
Definition bind {A B} (m : ST S A) (k : A -> ST S B) : ST S B :=
  fun s => match m s with Some (a, s') => k a s' | None => None end.
Definition fail {A} : ST S A := fun _ => None.
Definition gets {A} (f : S -> A) : ST S A := fun s => Some (f s, s).
Definition modify (f : S -> S) : ST S unit := fun s => Some (tt, f s).
Definition lift {A} (o : option A) : ST S A := fun s => match o with Some a => Some (a, s) | None => None end.
Definition assert_ (b : bool) : ST S unit := if b then ret tt else fail.
Definition when (b : bool) (m : ST S unit) : ST S unit := if b then m else ret tt.

Definition wp {A} (m : ST S A) (Q : A -> S -> Prop) (s : S) : Prop :=
  match m s with Some (a, s') => Q a s' | None => False end.

Lemma wp_ret {A} (a : A) Q s : wp (ret a) Q s <-> Q a s.
Proof. done. Qed.
Lemma wp_bind {A B} (m : ST S A) (k : A -> ST S B) Q s : wp (bind m k) Q s <-> wp m (fun a => wp (k a) Q) s.
Proof. unfold wp, bind. by destruct (m s) as [[]|]. Qed.
Lemma wp_gets {A} (f : S -> A) Q s : wp (gets f) Q s <-> Q (f s) s.
Proof. done. Qed.
Lemma wp_modify f Q s : wp (modify f) Q s <-> Q tt (f s).
Proof. done. Qed.
Lemma wp_lift {A} (o : option A) a Q s : o = Some a -> Q a s -> wp (lift o) Q s.
Proof. by intros ->. Qed.
Lemma wp_assert b Q s : b = true -> Q tt s -> wp (assert_ b) Q s.
Proof. by intros ->. Qed.
Lemma wp_when b (m : ST S unit) Q s : (b = true -> wp m Q s) -> (b = false -> Q tt s) -> wp (when b m) Q s.
Proof. intros Ht Hf. destruct b; [by apply Ht|]. by apply Hf. Qed.
Lemma wp_mono {A} (m : ST S A) (Q R : A -> S -> Prop) s : wp m Q s -> (forall a s', Q a s' -> R a s') -> wp m R s.
Proof. unfold wp. destruct (m s) as [[]|]; auto. Qed.
Lemma wp_run {A} (m : ST S A) Q s : wp m Q s <-> exists a s', m s = Some (a, s') /\ Q a s'.
Proof.
  unfold wp. destruct (m s) as [[a s']|]; split; try done.
  - intros HQ. by exists a, s'.
  - intros (? & ? & [= -> ->] & HQ). done.
  - by intros (? & ? & ? & _).
Qed.
End st.

Declare Scope st_scope.
Delimit Scope st_scope with st.
Notation "x <- m ;; k" := (bind m (fun x => k)) (at level 20, m at level 99, k at level 200, only parsing) : st_scope.
Notation "' p <- m ;; k" := (bind m (fun x => let p := x in k))
  (at level 20, p pattern, m at level 99, k at level 200, only parsing) : st_scope.
Notation "m ;;; k" := (bind m (fun _ => k)) (at level 100, right associativity) : st_scope.

(** Running [m] on a part of the state. *)
Definition zoom {S T A} (get : S -> T) (put : T -> S -> S) (m : ST T A) : ST S A :=
  fun s => match m (get s) with Some (a, t) => Some (a, put t s) | None => None end.

Lemma wp_zoom {S T A} (get : S -> T) (put : T -> S -> S) (m : ST T A) Q s :
  wp (zoom get put m) Q s <-> wp m (fun a t => Q a (put t s)) (get s).
Proof. unfold wp, zoom. by destruct (m (get s)) as [[]|]. Qed.
