(* ===== verification/Socket.v ===== *)
(** One socket: the part of skynet-src/socket_server.c that sends, receives and
    closes, with socket_epoll.h.

    The operating system is the class [Kernel]: every call asks a kernel state for
    its answer, which is arbitrary within the laws of [LawfulKernel].  The set of
    events (epoll) is what the calls made it.  A package to send is a block of the
    store [e_mem]; one that is freed is gone.  What goes out and what is closed is
    recorded in [e_trace].

    A list of write buffers is the list of its nodes; [tail] is the last one.  The lock
    of a socket is held for the whole of a step; [trylock] says if another thread
    has it.  [None] is a failed assert, a use of a freed block or a wrong free. *)

From stdpp Require Import pretty.
From S2P Require Import Prelude Bytes State.
Local Open Scope Z_scope.
Local Open Scope st_scope.

Definition MAX_SOCKET_P : Z := 16.
Definition MAX_EVENT : Z := 64.
Definition MIN_READ_BUFFER : Z := 64.
Definition SOCKET_TYPE_INVALID : Z := 0.
Definition SOCKET_TYPE_RESERVE : Z := 1.
Definition SOCKET_TYPE_PLISTEN : Z := 2.
Definition SOCKET_TYPE_LISTEN : Z := 3.
Definition SOCKET_TYPE_CONNECTING : Z := 4.
Definition SOCKET_TYPE_CONNECTED : Z := 5.
Definition SOCKET_TYPE_HALFCLOSE : Z := 6.
Definition SOCKET_TYPE_PACCEPT : Z := 7.
Definition SOCKET_TYPE_BIND : Z := 8.
Definition MAX_SOCKET : Z := Z.shiftl 1 MAX_SOCKET_P.
Definition HASH_ID (id : Z) : Z := u32 id mod MAX_SOCKET.
Definition ID_TAG16 (id : Z) : Z := Z.land (Z.shiftr id MAX_SOCKET_P) 0xffff.
Definition PROTOCOL_TCP : Z := 0.
Definition PROTOCOL_UDP : Z := 1.
Definition PROTOCOL_UDPv6 : Z := 2.
Definition PROTOCOL_UNKNOWN : Z := 255.
Definition UDP_ADDRESS_SIZE : Z := 19.
Definition MAX_UDP_PACKAGE : Z := 65535.
Definition WARNING_SIZE : Z := 1024 * 1024.

Definition SOCKET_DATA : Z := 0.
Definition SOCKET_CLOSE : Z := 1.
Definition SOCKET_OPEN : Z := 2.
Definition SOCKET_ACCEPT : Z := 3.
Definition SOCKET_ERR : Z := 4.
Definition SOCKET_EXIT : Z := 5.
Definition SOCKET_UDP : Z := 6.
Definition SOCKET_WARNING : Z := 7.

(** ** The operating system *)

Inductive errno := EINTR | EAGAIN | EMFILE | EERR (code : Z).
#[export] Instance errno_dec : EqDecision errno.
Proof. solve_decision. Defined.

(** The bytes of port and address, in network order. *)
Inductive sockaddr := V4 (port addr : list Z) | V6 (port addr : list Z).
#[export] Instance sockaddr_dec : EqDecision sockaddr.
Proof. solve_decision. Defined.

(** [ev_s] is the index of the socket's slot, [None] for the pipe. *)
Record event := Event { ev_s : option Z; ev_read : bool; ev_write : bool; ev_error : bool; ev_eof : bool }.

Class Kernel (K : Type) := {
  sys_write : Z -> list Z -> K -> (errno + Z) * K;
  sys_sendto : Z -> list Z -> sockaddr -> K -> (errno + Z) * K;
  sys_read : Z -> Z -> K -> (errno + list Z) * K;
  sys_recvfrom : Z -> Z -> K -> (errno + list Z * sockaddr) * K;
  sys_accept : Z -> K -> (errno + Z * sockaddr) * K;
  (* getsockopt SO_ERROR, getpeername, getsockname *)
  sys_so_error : Z -> K -> (errno + Z) * K;
  sys_getpeername : Z -> K -> option sockaddr * K;
  sys_getsockname : Z -> K -> option sockaddr * K;
  (* getaddrinfo: family and address of each answer; socket, connect, bind, listen *)
  sys_getaddrinfo : string -> Z -> bool -> K -> (Z + list sockaddr) * K;
  sys_socket : bool -> K -> (errno + Z) * K;
  sys_connect : Z -> sockaddr -> K -> option errno * K;
  sys_reuse_bind : Z -> sockaddr -> K -> bool * K;
  sys_listen : Z -> Z -> K -> bool * K;
  (* epoll_ctl ADD: true when it fails; epoll_wait, for the set of events *)
  sys_epoll_add : Z -> K -> bool * K;
  sys_epoll_wait : gmap Z (Z * bool) -> Z -> K -> (errno + list event) * K;
  (* another thread has the socket's lock *)
  sys_locked : K -> bool * K;
  inet_ntop : sockaddr -> option string;
  (* EINTR is not returned for ever *)
  sys_patience : nat
}.

Definition EINPROGRESS : errno := EERR 115.

(** ** Data *)

Record write_buffer := WBuf {
  wb_buffer : Z; wb_ptr : Z; wb_sz : Z; wb_userobject : bool; wb_udp_address : list Z
}.
Record socket_stat := Stat { st_rtime : Z; st_wtime : Z; st_read : Z; st_write : Z }.

(** [s_size] and [s_udp_address] are the two sides of the union [p]: the first is
    used with TCP, the second without.  [s_dw] is [dw_buffer] with [dw_size] and
    [dw_offset]. *)
Record socket := Socket {
  s_opaque : Z; s_high : list write_buffer; s_low : list write_buffer; s_wb_size : Z; s_stat : socket_stat;
  s_sending : Z; s_fd : Z; s_id : Z; s_protocol : Z; s_type : Z; s_udpconnecting : Z; s_warn_size : Z;
  s_size : Z; s_udp_address : list Z; s_dw : option (Z * Z * Z)
}.

Definition set_opaque v s := Socket v (s_high s) (s_low s) (s_wb_size s) (s_stat s) (s_sending s) (s_fd s) (s_id s) (s_protocol s) (s_type s) (s_udpconnecting s) (s_warn_size s) (s_size s) (s_udp_address s) (s_dw s).
Definition set_high v s := Socket (s_opaque s) v (s_low s) (s_wb_size s) (s_stat s) (s_sending s) (s_fd s) (s_id s) (s_protocol s) (s_type s) (s_udpconnecting s) (s_warn_size s) (s_size s) (s_udp_address s) (s_dw s).
Definition set_low v s := Socket (s_opaque s) (s_high s) v (s_wb_size s) (s_stat s) (s_sending s) (s_fd s) (s_id s) (s_protocol s) (s_type s) (s_udpconnecting s) (s_warn_size s) (s_size s) (s_udp_address s) (s_dw s).
Definition set_wb_size v s := Socket (s_opaque s) (s_high s) (s_low s) v (s_stat s) (s_sending s) (s_fd s) (s_id s) (s_protocol s) (s_type s) (s_udpconnecting s) (s_warn_size s) (s_size s) (s_udp_address s) (s_dw s).
Definition set_stat v s := Socket (s_opaque s) (s_high s) (s_low s) (s_wb_size s) v (s_sending s) (s_fd s) (s_id s) (s_protocol s) (s_type s) (s_udpconnecting s) (s_warn_size s) (s_size s) (s_udp_address s) (s_dw s).
Definition set_sending v s := Socket (s_opaque s) (s_high s) (s_low s) (s_wb_size s) (s_stat s) v (s_fd s) (s_id s) (s_protocol s) (s_type s) (s_udpconnecting s) (s_warn_size s) (s_size s) (s_udp_address s) (s_dw s).
Definition set_fd v s := Socket (s_opaque s) (s_high s) (s_low s) (s_wb_size s) (s_stat s) (s_sending s) v (s_id s) (s_protocol s) (s_type s) (s_udpconnecting s) (s_warn_size s) (s_size s) (s_udp_address s) (s_dw s).
Definition set_id v s := Socket (s_opaque s) (s_high s) (s_low s) (s_wb_size s) (s_stat s) (s_sending s) (s_fd s) v (s_protocol s) (s_type s) (s_udpconnecting s) (s_warn_size s) (s_size s) (s_udp_address s) (s_dw s).
Definition set_protocol v s := Socket (s_opaque s) (s_high s) (s_low s) (s_wb_size s) (s_stat s) (s_sending s) (s_fd s) (s_id s) v (s_type s) (s_udpconnecting s) (s_warn_size s) (s_size s) (s_udp_address s) (s_dw s).
Definition set_type v s := Socket (s_opaque s) (s_high s) (s_low s) (s_wb_size s) (s_stat s) (s_sending s) (s_fd s) (s_id s) (s_protocol s) v (s_udpconnecting s) (s_warn_size s) (s_size s) (s_udp_address s) (s_dw s).
Definition set_udpconnecting v s := Socket (s_opaque s) (s_high s) (s_low s) (s_wb_size s) (s_stat s) (s_sending s) (s_fd s) (s_id s) (s_protocol s) (s_type s) v (s_warn_size s) (s_size s) (s_udp_address s) (s_dw s).
Definition set_warn_size v s := Socket (s_opaque s) (s_high s) (s_low s) (s_wb_size s) (s_stat s) (s_sending s) (s_fd s) (s_id s) (s_protocol s) (s_type s) (s_udpconnecting s) v (s_size s) (s_udp_address s) (s_dw s).
Definition set_size v s := Socket (s_opaque s) (s_high s) (s_low s) (s_wb_size s) (s_stat s) (s_sending s) (s_fd s) (s_id s) (s_protocol s) (s_type s) (s_udpconnecting s) (s_warn_size s) v (s_udp_address s) (s_dw s).
Definition set_udp_addr v s := Socket (s_opaque s) (s_high s) (s_low s) (s_wb_size s) (s_stat s) (s_sending s) (s_fd s) (s_id s) (s_protocol s) (s_type s) (s_udpconnecting s) (s_warn_size s) (s_size s) v (s_dw s).
Definition set_dw v s := Socket (s_opaque s) (s_high s) (s_low s) (s_wb_size s) (s_stat s) (s_sending s) (s_fd s) (s_id s) (s_protocol s) (s_type s) (s_udpconnecting s) (s_warn_size s) (s_size s) (s_udp_address s) v.

(** What [result->data] points to: a text, the text of an error, a block of data. *)
Inductive mdata := DNull | DText (t : string) | DError (e : errno) | DGai (status : Z) | DBlock (l : list Z).
(** A [struct socket_message] with the type that is returned with it; -1 is [None]. *)
Record message := Message { m_type : Z; m_id : Z; m_opaque : Z; m_ud : Z; m_data : mdata }.

(** A package to send, or a user's object for one: [ob_base] is what [soi.buffer]
    gives, the address of the block itself when it is not an object. *)
Record object := Object { ob_user : bool; ob_base : Z; ob_data : list Z }.

Inductive trace :=
| TWrite (fd : Z) (bytes : list Z)
| TSendto (fd : Z) (bytes : list Z) (to : sockaddr)
| TClose (fd : Z)
| TSetopt (fd what value : Z).

Section socket.
Context {K : Type} `{Kernel K}.

Record env := Env {
  e_k : K; e_mem : gmap Z object; e_poll : gmap Z (Z * bool); e_trace : list trace; e_time : Z; e_soi : bool
}.
Definition set_k v e := Env v (e_mem e) (e_poll e) (e_trace e) (e_time e) (e_soi e).
Definition set_mem v e := Env (e_k e) v (e_poll e) (e_trace e) (e_time e) (e_soi e).
Definition set_poll v e := Env (e_k e) (e_mem e) v (e_trace e) (e_time e) (e_soi e).
Definition add_trace t e := Env (e_k e) (e_mem e) (e_poll e) (e_trace e ++ [t]) (e_time e) (e_soi e).
Definition set_time v e := Env (e_k e) (e_mem e) (e_poll e) (e_trace e) v (e_soi e).
Definition set_soi v e := Env (e_k e) (e_mem e) (e_poll e) (e_trace e) (e_time e) v.

(** A call of the operating system. *)
Definition syscall {A} (f : K -> A * K) : ST env A := fun e => let '(a, k) := f (e_k e) in Some (a, set_k k e).

(** *** socket_epoll.h *)
Definition sp_add (fd slot : Z) : ST env bool :=
  failed <- syscall (sys_epoll_add fd) ;;
  when (negb failed) (modify (fun e => set_poll (<[fd := (slot, false)]> (e_poll e)) e)) ;;;
  ret failed.
Definition sp_del (fd : Z) : ST env unit := modify (fun e => set_poll (delete fd (e_poll e)) e).
Definition sp_write (fd slot : Z) (enable : bool) : ST env unit :=
  modify (fun e => set_poll (alter (fun _ => (slot, enable)) fd (e_poll e)) e).
Definition sp_wait (max : Z) : ST env (errno + list event) :=
  p <- gets e_poll ;; syscall (sys_epoll_wait p max).
(** [close]: the kernel forgets the events of a closed socket. *)
Definition close (fd : Z) : ST env unit :=
  modify (fun e => add_trace (TClose fd) (set_poll (delete fd (e_poll e)) e)).

(** *** Packages *)

Record send_object := SendObject { so_buffer : Z; so_sz : Z; so_user : bool }.

Definition send_object_init (object_ sz : Z) : ST env send_object :=
  if sz <? 0 then
    soi <- gets e_soi ;; assert_ soi ;;;
    o <- gets (fun e => e_mem e !! object_) ;; o <- lift o ;;
    assert_ (ob_user o) ;;;
    ret (SendObject (ob_base o) (zlen (ob_data o)) true)
  else ret (SendObject object_ sz false).

(** [soi.free] for objects, [FREE] for the rest. *)
Definition free_block (user : bool) (p : Z) : ST env unit :=
  o <- gets (fun e => e_mem e !! p) ;; o <- lift o ;;
  assert_ (Bool.eqb (ob_user o) user) ;;;
  modify (fun e => set_mem (delete p (e_mem e)) e).

Definition write_buffer_free (wb : write_buffer) : ST env unit := free_block (wb_userobject wb) (wb_buffer wb).

Definition free_buffer (buffer sz : Z) : ST env unit :=
  so <- send_object_init buffer sz ;; free_block (so_user so) buffer.

(** The [sz] bytes at [ptr], inside the package [p]. *)
Definition bytes_of (p ptr sz : Z) : ST env (list Z) :=
  o <- gets (fun e => e_mem e !! p) ;; o <- lift o ;;
  let off := ptr - ob_base o in
  assert_ ((0 <=? off) && (0 <=? sz) && (off + sz <=? zlen (ob_data o))) ;;;
  ret (take (Z.to_nat sz) (drop (Z.to_nat off) (ob_data o))).

Definition do_write (fd : Z) (bytes : list Z) : ST env (errno + Z) :=
  r <- syscall (sys_write fd bytes) ;;
  match r with
  | inr n => modify (add_trace (TWrite fd (take (Z.to_nat n) bytes))) ;;; ret r
  | inl _ => ret r
  end.
Definition do_sendto (fd : Z) (bytes : list Z) (to : sockaddr) : ST env (errno + Z) :=
  r <- syscall (sys_sendto fd bytes to) ;;
  match r with
  | inr n => modify (add_trace (TSendto fd (take (Z.to_nat n) bytes) to)) ;;; ret r
  | inl _ => ret r
  end.
(** [write] again while it is interrupted. *)
Fixpoint write_retry (fuel : nat) (fd : Z) (bytes : list Z) : ST env (errno + Z) :=
  r <- do_write fd bytes ;;
  match r with
  | inl EINTR => match fuel with O => fail | S fuel => write_retry fuel fd bytes end
  | _ => ret r
  end.

(** *** Computations on one socket *)

Definition SE : Type := env * socket.
Definition on_env {A} (m : ST env A) : ST SE A := zoom fst (fun e s => (e, s.2)) m.
Definition get {A} (f : socket -> A) : ST SE A := gets (fun s => f s.2).
Definition upd (f : socket -> socket) : ST SE unit := modify (fun s => (s.1, f s.2)).

Definition stat_read (n : Z) : ST SE unit :=
  t <- on_env (gets e_time) ;;
  upd (fun s => set_stat (Stat t (st_wtime (s_stat s)) (u64 (st_read (s_stat s) + n)) (st_write (s_stat s))) s).
Definition stat_write (n : Z) : ST SE unit :=
  t <- on_env (gets e_time) ;;
  upd (fun s => set_stat (Stat (st_rtime (s_stat s)) t (st_read (s_stat s)) (u64 (st_write (s_stat s) + n))) s).

Fixpoint free_nodes (l : list write_buffer) : ST env unit :=
  match l with [] => ret tt | wb :: l => write_buffer_free wb ;;; free_nodes l end.

(** The two lists of a socket. *)
Definition get_list (high : bool) (s : socket) : list write_buffer := if high then s_high s else s_low s.
Definition set_list (high : bool) (l : list write_buffer) (s : socket) : socket := if high then set_high l s else set_low l s.
Definition free_wb_list (high : bool) : ST SE unit :=
  l <- get (get_list high) ;; on_env (free_nodes l) ;;; upd (set_list high []).

(** Without the events that were not asked for; a bound descriptor stays open. *)
Definition close_fd (t fd : Z) : ST env unit :=
  when (negb (t =? SOCKET_TYPE_PACCEPT) && negb (t =? SOCKET_TYPE_PLISTEN)) (sp_del fd) ;;;
  when (negb (t =? SOCKET_TYPE_BIND)) (close fd).
Definition free_dw : ST SE unit :=
  dw <- get s_dw ;;
  match dw with
  | Some (b, sz, _) => on_env (free_buffer b sz) ;;; upd (set_dw None)
  | None => ret tt
  end.

Definition force_close (type : Z) (data : mdata) : ST SE message :=
  result <- get (fun s => Message type (s_id s) (s_opaque s) 0 data) ;;
  t <- get s_type ;;
  if t =? SOCKET_TYPE_INVALID then ret result
  else
    assert_ (negb (t =? SOCKET_TYPE_RESERVE)) ;;;
    free_wb_list true ;;;
    free_wb_list false ;;;
    fd <- get s_fd ;;
    on_env (close_fd t fd) ;;;
    upd (set_type SOCKET_TYPE_INVALID) ;;;
    free_dw ;;;
    ret result.

(** *** Sending *)

Fixpoint tcp_loop (high : bool) (l : list write_buffer) : ST SE (option message) :=
  match l with
  | [] => ret None
  | tmp :: next =>
    fd <- get s_fd ;;
    bytes <- on_env (bytes_of (wb_buffer tmp) (wb_ptr tmp) (wb_sz tmp)) ;;
    r <- on_env (write_retry sys_patience fd bytes) ;;
    match r with
    | inl EAGAIN => ret None
    | inl _ => m <- force_close SOCKET_CLOSE DNull ;; ret (Some m)
    | inr sz =>
      stat_write sz ;;;
      upd (fun s => set_wb_size (s_wb_size s - sz) s) ;;;
      if negb (sz =? wb_sz tmp) then
        upd (set_list high (WBuf (wb_buffer tmp) (wb_ptr tmp + sz) (wb_sz tmp - sz) (wb_userobject tmp) (wb_udp_address tmp) :: next)) ;;;
        ret None
      else
        upd (set_list high next) ;;;
        on_env (write_buffer_free tmp) ;;;
        tcp_loop high next
    end
  end.
Definition send_list_tcp (high : bool) : ST SE (option message) := l <- get (get_list high) ;; tcp_loop high l.

(** The address that is meant, if it fits the socket's protocol. *)
Definition udp_socket_address (s : socket) (udp_address : list Z) : option sockaddr :=
  if negb (default 0 (zget udp_address 0) =? s_protocol s) then None
  else
    let port := take 2 (drop 1 udp_address) in
    if s_protocol s =? PROTOCOL_UDP then Some (V4 port (take 4 (drop 3 udp_address)))
    else if s_protocol s =? PROTOCOL_UDPv6 then Some (V6 port (take 16 (drop 3 udp_address)))
    else None.

Definition drop_udp (high : bool) (tmp : write_buffer) (next : list write_buffer) : ST SE unit :=
  upd (fun s => set_wb_size (s_wb_size s - wb_sz tmp) s) ;;;
  upd (set_list high next) ;;;
  on_env (write_buffer_free tmp).

Fixpoint udp_loop (high : bool) (l : list write_buffer) : ST SE (option message) :=
  match l with
  | [] => ret None
  | tmp :: next =>
    sa <- get (fun s => udp_socket_address s (wb_udp_address tmp)) ;;
    match sa with
    | None => drop_udp high tmp next ;;; ret None
    | Some sa =>
      fd <- get s_fd ;;
      bytes <- on_env (bytes_of (wb_buffer tmp) (wb_ptr tmp) (wb_sz tmp)) ;;
      r <- on_env (do_sendto fd bytes sa) ;;
      match r with
      | inl EINTR | inl EAGAIN => ret None
      | inl _ => drop_udp high tmp next ;;; ret None
      | inr _ =>
        stat_write (wb_sz tmp) ;;;
        upd (fun s => set_wb_size (s_wb_size s - wb_sz tmp) s) ;;;
        upd (set_list high next) ;;;
        on_env (write_buffer_free tmp) ;;;
        udp_loop high next
      end
    end
  end.
Definition send_list_udp (high : bool) : ST SE (option message) := l <- get (get_list high) ;; udp_loop high l.

Definition send_list (high : bool) : ST SE (option message) :=
  protocol <- get s_protocol ;;
  if protocol =? PROTOCOL_TCP then send_list_tcp high else send_list_udp high.

Definition list_uncomplete (l : list write_buffer) : bool :=
  match l with [] => false | wb :: _ => negb (wb_ptr wb =? wb_buffer wb) end.

Definition raise_uncomplete : ST SE unit :=
  low <- get s_low ;;
  '(tmp, rest) <- lift (match low with tmp :: rest => Some (tmp, rest) | [] => None end) ;;
  upd (set_low rest) ;;;
  high <- get s_high ;;
  assert_ (match high with [] => true | _ => false end) ;;;
  upd (set_high [tmp]).

Definition is_empty {A} (l : list A) : bool := match l with [] => true | _ => false end.
Definition send_buffer_empty (s : socket) : bool := is_empty (s_high s) && is_empty (s_low s).
Definition is_close (r : option message) : bool := match r with Some m => m_type m =? SOCKET_CLOSE | None => false end.

(** Step 4: both lists are empty. *)
Definition all_sent (slot : Z) : ST SE (option message) :=
  ok <- get (fun s => send_buffer_empty s && (s_wb_size s =? 0)) ;; assert_ ok ;;;
  fd <- get s_fd ;; on_env (sp_write fd slot false) ;;;
  t <- get s_type ;; w <- get s_warn_size ;;
  if t =? SOCKET_TYPE_HALFCLOSE then m <- force_close SOCKET_CLOSE DNull ;; ret (Some m)
  else if 0 <? w then
    upd (set_warn_size 0) ;;;
    get (fun s => Some (Message SOCKET_WARNING (s_id s) (s_opaque s) 0 DNull))
  else ret None.

Definition send_buffer_ (slot : Z) : ST SE (option message) :=
  low <- get s_low ;; assert_ (negb (list_uncomplete low)) ;;;
  r <- send_list true ;;
  if is_close r then ret r
  else
    high <- get s_high ;;
    if negb (is_empty high) then ret None
    else
      low <- get s_low ;;
      if is_empty low then all_sent slot
      else
        r <- send_list false ;;
        if is_close r then ret r
        else
          low <- get s_low ;;
          if list_uncomplete low then raise_uncomplete ;;; ret None
          else if negb (is_empty low) then ret None
          else all_sent slot.

(** The rest of a direct write goes before [high.head]. *)
Definition take_dw : ST SE unit :=
  dw <- get s_dw ;;
  match dw with
  | None => ret tt
  | Some (b, size, offset) =>
    so <- on_env (send_object_init b size) ;;
    let buf := WBuf b (so_buffer so + offset) (so_sz so - offset) (so_user so) [] in
    upd (fun s => set_dw None (set_high (buf :: s_high s) (set_wb_size (s_wb_size s + wb_sz buf) s)))
  end.

Definition send_buffer (slot : Z) : ST SE (option message) :=
  locked <- on_env (syscall sys_locked) ;;
  if locked then ret None else take_dw ;;; send_buffer_ slot.

Definition append_sendbuffer_ (high : bool) (buffer sz : Z) (udp_address : list Z) : ST SE unit :=
  so <- on_env (send_object_init buffer sz) ;;
  let buf := WBuf buffer (so_buffer so) (so_sz so) (so_user so) udp_address in
  upd (fun s => set_wb_size (s_wb_size s + wb_sz buf) (set_list high (get_list high s ++ [buf]) s)).
Definition append_sendbuffer_udp (high : bool) (buffer sz : Z) (udp_address : list Z) : ST SE unit :=
  append_sendbuffer_ high buffer sz udp_address.
Definition append_sendbuffer (buffer sz : Z) : ST SE unit := append_sendbuffer_ true buffer sz [].
Definition append_sendbuffer_low (buffer sz : Z) : ST SE unit := append_sendbuffer_ false buffer sz [].

(** The warning when much is waiting. *)
Definition send_warning : ST SE (option message) :=
  s <- get (fun s => s) ;;
  if (WARNING_SIZE <=? s_wb_size s) && (s_warn_size s <=? s_wb_size s) then
    upd (set_warn_size (if s_warn_size s =? 0 then WARNING_SIZE * 2 else s_warn_size s * 2)) ;;;
    ret (Some (Message SOCKET_WARNING (s_id s) (s_opaque s)
      (if s_wb_size s mod 1024 =? 0 then s_wb_size s / 1024 else s_wb_size s / 1024 + 1) DNull))
  else ret None.

Definition send_socket (slot id buffer sz : Z) (high : bool) (udp_address : option (list Z)) : ST SE (option message) :=
  so <- on_env (send_object_init buffer sz) ;;
  s <- get (fun s => s) ;;
  let t := s_type s in
  let udp_address := default (s_udp_address s) udp_address in
  if (t =? SOCKET_TYPE_INVALID) || negb (s_id s =? id) || (t =? SOCKET_TYPE_HALFCLOSE) || (t =? SOCKET_TYPE_PACCEPT) then
    on_env (free_block (so_user so) buffer) ;;; ret None
  else if (t =? SOCKET_TYPE_PLISTEN) || (t =? SOCKET_TYPE_LISTEN) then
    on_env (free_block (so_user so) buffer) ;;; ret None
  else if send_buffer_empty s && (t =? SOCKET_TYPE_CONNECTED) then
    if s_protocol s =? PROTOCOL_TCP then
      append_sendbuffer buffer sz ;;; on_env (sp_write (s_fd s) slot true) ;;; send_warning
    else
      match udp_socket_address s udp_address with
      | None => on_env (free_block (so_user so) buffer) ;;; ret None
      | Some sa =>
        bytes <- on_env (bytes_of buffer (so_buffer so) (so_sz so)) ;;
        r <- on_env (do_sendto (s_fd s) bytes sa) ;;
        if match r with inr n => n =? so_sz so | inl _ => (-1) =? so_sz so end then
          stat_write (so_sz so) ;;; on_env (free_block (so_user so) buffer) ;;; ret None
        else
          append_sendbuffer_udp high buffer sz udp_address ;;; on_env (sp_write (s_fd s) slot true) ;;; send_warning
      end
  else
    (if s_protocol s =? PROTOCOL_TCP then
       if high then append_sendbuffer buffer sz else append_sendbuffer_low buffer sz
     else append_sendbuffer_udp high buffer sz udp_address) ;;;
    send_warning.

Definition nomore_sending_data (s : socket) : bool :=
  send_buffer_empty s && match s_dw s with None => true | _ => false end && (Z.land (s_sending s) 0xffff =? 0).

(** *** Receiving *)

Definition forward_message_tcp : ST SE (option message) :=
  s <- get (fun s => s) ;;
  let sz := s_size s in
  r <- on_env (syscall (sys_read (s_fd s) sz)) ;;
  match r with
  | inl EINTR | inl EAGAIN => ret None
  | inl e => m <- force_close SOCKET_ERR (DError e) ;; ret (Some m)
  | inr buffer =>
    let n := zlen buffer in
    if n =? 0 then m <- force_close SOCKET_CLOSE DNull ;; ret (Some m)
    else if s_type s =? SOCKET_TYPE_HALFCLOSE then ret None
    else
      stat_read n ;;;
      (if n =? sz then upd (set_size (sz * 2))
       else when ((MIN_READ_BUFFER <? sz) && (n * 2 <? sz)) (upd (set_size (sz / 2)))) ;;;
      ret (Some (Message SOCKET_DATA (s_id s) (s_opaque s) n (DBlock buffer)))
  end.

Definition gen_udp_address (protocol : Z) (sa : sockaddr) : list Z :=
  protocol :: match sa with V4 port addr | V6 port addr => port ++ addr end.

Definition forward_message_udp : ST SE (option message) :=
  s <- get (fun s => s) ;;
  r <- on_env (syscall (sys_recvfrom (s_fd s) MAX_UDP_PACKAGE)) ;;
  match r with
  | inl EINTR | inl EAGAIN => ret None
  | inl e => m <- force_close SOCKET_ERR (DError e) ;; ret (Some m)
  | inr (udpbuffer, sa) =>
    let n := zlen udpbuffer in
    stat_read n ;;;
    let message protocol :=
      ret (Some (Message SOCKET_UDP (s_id s) (s_opaque s) n (DBlock (udpbuffer ++ gen_udp_address protocol sa)))) in
    match sa with
    | V4 _ _ => if negb (s_protocol s =? PROTOCOL_UDP) then ret None else message PROTOCOL_UDP
    | V6 _ _ => if negb (s_protocol s =? PROTOCOL_UDPv6) then ret None else message PROTOCOL_UDPv6
    end
  end.

Definition name_data (sa : option sockaddr) : mdata :=
  match sa ≫= inet_ntop with Some t => DText t | None => DNull end.

Definition report_connect (slot : Z) : ST SE message :=
  fd <- get s_fd ;;
  error <- on_env (syscall (sys_so_error fd)) ;;
  match error with
  | inl e => force_close SOCKET_ERR (DError e)
  | inr error =>
    if negb (error =? 0) then force_close SOCKET_ERR (DError (EERR error))
    else
      upd (set_type SOCKET_TYPE_CONNECTED) ;;;
      done <- get nomore_sending_data ;;
      when done (on_env (sp_write fd slot false)) ;;;
      u <- on_env (syscall (sys_getpeername fd)) ;;
      get (fun s => Message SOCKET_OPEN (s_id s) (s_opaque s) 0 (name_data u))
  end.

(** "address:port", cut to the size of the buffer. *)
Definition getname (u : sockaddr) : option string :=
  match inet_ntop u with
  | Some tmp =>
    let port := match u with V4 p _ | V6 p _ => match p with [b0; b1] => b0 * 256 + b1 | _ => 0 end end in
    Some (String.substring 0 127 (tmp +:+ ":" +:+ pretty port))
  | None => None
  end.
End socket.
Arguments env _ : clear implicits.
Arguments SE _ : clear implicits.
