(* ===== verification/SocketServer.v ===== *)
(** The socket server: skynet-src/socket_server.c.

    Worker threads call the functions at the end of this file.  Most of them reserve
    the slot of a socket or look at it, and end with a request in a pipe.  The
    socket thread takes requests and events one at a time ([poll_step]).  A call is
    one step up to the request, which [send_request] writes in a step of its own: other
    threads may come in between. *)

From stdpp Require Import pretty.
From S2P Require Import Prelude Bytes State Socket.
Local Open Scope Z_scope.
Local Open Scope st_scope.

(** The requests: S, B, L, K, O, X, D or P, A, T, U, C. *)
Inductive request :=
| RStart (id opaque : Z)
| RBind (id fd opaque : Z)
| RListen (id fd opaque : Z)
| RClose (id : Z) (shutdown : bool) (opaque : Z)
| ROpen (id port opaque : Z) (host : string)
| RExit
| RSend (id sz buffer : Z) (high : bool)
| RSendUdp (id sz buffer : Z) (address : list Z)
| RSetopt (id what value : Z)
| RUdp (id fd : Z) (inet6 : bool) (opaque : Z)
| RSetUdp (id : Z) (address : list Z).

Section server.
Context {K : Type} `{Kernel K}.
(** What [MALLOC] leaves in the slots. *)
Context (junk : Z -> socket).

(** [ev] are the events from [event_index] on; [soi] is in [e_soi]. *)
Record socket_server := Server {
  sv_env : env K; sv_slot : gmap Z socket; sv_alloc_id : Z; sv_checkctrl : bool;
  sv_ev : list event; sv_pipe : list request
}.
Definition set_env v ss := Server v (sv_slot ss) (sv_alloc_id ss) (sv_checkctrl ss) (sv_ev ss) (sv_pipe ss).
Definition set_slot v ss := Server (sv_env ss) v (sv_alloc_id ss) (sv_checkctrl ss) (sv_ev ss) (sv_pipe ss).
Definition set_alloc_id v ss := Server (sv_env ss) (sv_slot ss) v (sv_checkctrl ss) (sv_ev ss) (sv_pipe ss).
Definition set_checkctrl v ss := Server (sv_env ss) (sv_slot ss) (sv_alloc_id ss) v (sv_ev ss) (sv_pipe ss).
Definition set_ev v ss := Server (sv_env ss) (sv_slot ss) (sv_alloc_id ss) (sv_checkctrl ss) v (sv_pipe ss).
Definition set_pipe v ss := Server (sv_env ss) (sv_slot ss) (sv_alloc_id ss) (sv_checkctrl ss) (sv_ev ss) v.


(** The socket in slot [i]: before its first use, junk marked as invalid. *)
Definition fresh_slot (i : Z) : socket :=
  set_high [] (set_low [] (set_type SOCKET_TYPE_INVALID (junk i))).
Definition slot (ss : socket_server) (i : Z) : socket := default (fresh_slot i) (sv_slot ss !! i).
Definition the_slot (i : Z) : ST socket_server socket := gets (fun ss => slot ss i).
Definition put_slot (i : Z) (s : socket) : ST socket_server unit := modify (fun ss => set_slot (<[i := s]> (sv_slot ss)) ss).

Definition sys {A} (m : ST (env K) A) : ST socket_server A := zoom sv_env set_env m.
(** A computation on the socket in slot [i]. *)
Definition on {A} (i : Z) (m : ST (SE K) A) : ST socket_server A :=
  zoom (fun ss => (sv_env ss, slot ss i)) (fun p ss => set_slot (<[i := p.2]> (sv_slot ss)) (set_env p.1 ss)) m.

Definition socket_server_create (time : Z) (k : K) (mem : gmap Z object) : socket_server :=
  Server (Env k mem ∅ [] time false) ∅ 0 true [] [].

Definition socket_server_updatetime (time : Z) : ST socket_server unit := sys (modify (set_time time)).
Definition socket_server_userobject : ST socket_server unit := sys (modify (set_soi true)).

(** [ATOM_INC(&ss->alloc_id)], made positive when it overflows. *)
Definition alloc_id : ST socket_server Z :=
  id <- gets (fun ss => i32 (sv_alloc_id ss + 1)) ;;
  let id := if id <? 0 then Z.land id 0x7fffffff else id in
  modify (set_alloc_id id) ;;; ret id.

Fixpoint reserve_loop (n : nat) : ST socket_server Z :=
  match n with
  | O => ret (-1)
  | S n =>
    id <- alloc_id ;;
    s <- the_slot (HASH_ID id) ;;
    if s_type s =? SOCKET_TYPE_INVALID then
      put_slot (HASH_ID id) (set_fd (-1) (set_udpconnecting 0 (set_protocol PROTOCOL_UNKNOWN (set_id id
        (set_type SOCKET_TYPE_RESERVE s))))) ;;;
      ret id
    else reserve_loop n
  end.
Definition reserve_id : ST socket_server Z := reserve_loop (Z.to_nat MAX_SOCKET).

(** The new socket's slot is [HASH_ID id]; false is NULL. *)
Definition new_fd (id fd protocol opaque : Z) (add : bool) : ST socket_server bool :=
  let i := HASH_ID id in
  s <- the_slot i ;;
  assert_ (s_type s =? SOCKET_TYPE_RESERVE) ;;;
  failed <- (if add then sys (sp_add fd i) else ret false) ;;
  if failed then put_slot i (set_type SOCKET_TYPE_INVALID s) ;;; ret false
  else
    assert_ (is_empty (s_high s)) ;;; assert_ (is_empty (s_low s)) ;;;
    put_slot i (Socket opaque [] [] 0 (Stat 0 0 0 0) (Z.shiftl (ID_TAG16 id) 16) fd id protocol (s_type s)
      (s_udpconnecting s) 0 MIN_READ_BUFFER (s_udp_address s) None) ;;;
    ret true.

Definition set_slot_type (i t : Z) : ST socket_server unit := on i (upd (set_type t)).

(** [socket] and [connect] for each answer of [getaddrinfo]: the descriptor, if it is
    connected already, and the address; or the last error. *)
Fixpoint connect_loop (l : list sockaddr) (err : errno) : ST (env K) (errno + Z * bool * sockaddr) :=
  match l with
  | [] => ret (inl err)
  | addr :: l =>
    sock <- syscall (sys_socket true) ;;
    match sock with
    | inl e => connect_loop l e
    | inr sock =>
      status <- syscall (sys_connect sock addr) ;;
      match status with
      | None => ret (inr (sock, true, addr))
      | Some e =>
        if bool_decide (e = EINPROGRESS) then ret (inr (sock, false, addr))
        else close sock ;;; connect_loop l e
      end
    end
  end.

Definition open_socket (id port opaque : Z) (host : string) : ST socket_server (option message) :=
  let i := HASH_ID id in
  let failed data := set_slot_type i SOCKET_TYPE_INVALID ;;; ret (Some (Message SOCKET_ERR id opaque 0 data)) in
  status <- sys (syscall (sys_getaddrinfo host port true)) ;;
  match status with
  | inl status => failed (DGai status)
  | inr ai_list =>
    c <- sys (connect_loop ai_list (EERR 0)) ;;
    match c with
    | inl e => failed (DError e)
    | inr (sock, connected, addr) =>
      ns <- new_fd id sock PROTOCOL_TCP opaque true ;;
      if negb ns then sys (close sock) ;;; failed (DText "reach skynet socket number limit")
      else if connected : bool then
        set_slot_type i SOCKET_TYPE_CONNECTED ;;;
        ret (Some (Message SOCKET_OPEN id opaque 0 (name_data (Some addr))))
      else
        set_slot_type i SOCKET_TYPE_CONNECTING ;;;
        sys (sp_write sock i true) ;;; ret None
    end
  end.

Definition listen_socket (id listen_fd opaque : Z) : ST socket_server (option message) :=
  s <- new_fd id listen_fd PROTOCOL_TCP opaque false ;;
  if negb s then
    sys (close listen_fd) ;;;
    set_slot_type (HASH_ID id) SOCKET_TYPE_INVALID ;;;
    ret (Some (Message SOCKET_ERR id opaque 0 (DText "reach skynet socket number limit")))
  else set_slot_type (HASH_ID id) SOCKET_TYPE_PLISTEN ;;; ret None.

Definition is_stale (s : socket) (id : Z) : bool := (s_type s =? SOCKET_TYPE_INVALID) || negb (s_id s =? id).

Definition close_socket (id : Z) (shutdown : bool) (opaque : Z) : ST socket_server (option message) :=
  let i := HASH_ID id in
  s <- the_slot i ;;
  if is_stale s id then ret (Some (Message SOCKET_CLOSE id opaque 0 DNull))
  else on i (
    done <- get nomore_sending_data ;;
    r <- (if negb done then send_buffer i else ret None) ;;
    if match r with Some m => negb (m_type m =? SOCKET_WARNING) | None => false end then ret r
    else
      done <- get nomore_sending_data ;;
      if shutdown || done then
        m <- force_close SOCKET_CLOSE DNull ;;
        ret (Some (Message SOCKET_CLOSE id opaque (m_ud m) (m_data m)))
      else upd (set_type SOCKET_TYPE_HALFCLOSE) ;;; ret None).

Definition bind_socket (id fd opaque : Z) : ST socket_server (option message) :=
  s <- new_fd id fd PROTOCOL_TCP opaque true ;;
  if negb s then ret (Some (Message SOCKET_ERR id opaque 0 (DText "reach skynet socket number limit")))
  else set_slot_type (HASH_ID id) SOCKET_TYPE_BIND ;;; ret (Some (Message SOCKET_OPEN id opaque 0 (DText "binding"))).

Definition start_socket (id opaque : Z) : ST socket_server (option message) :=
  let i := HASH_ID id in
  s <- the_slot i ;;
  if is_stale s id then ret (Some (Message SOCKET_ERR id opaque 0 (DText "invalid socket")))
  else if (s_type s =? SOCKET_TYPE_PACCEPT) || (s_type s =? SOCKET_TYPE_PLISTEN) then
    failed <- sys (sp_add (s_fd s) i) ;;
    if failed then m <- on i (force_close SOCKET_ERR (DError (EERR 0))) ;; ret (Some m)
    else
      on i (upd (fun s => set_opaque opaque
        (set_type (if s_type s =? SOCKET_TYPE_PACCEPT then SOCKET_TYPE_CONNECTED else SOCKET_TYPE_LISTEN) s))) ;;;
      ret (Some (Message SOCKET_OPEN id opaque 0 (DText "start")))
  else if s_type s =? SOCKET_TYPE_CONNECTED then
    on i (upd (set_opaque opaque)) ;;; ret (Some (Message SOCKET_OPEN id opaque 0 (DText "transfer")))
  else ret None.

Definition setopt_socket (id what value : Z) : ST socket_server unit :=
  s <- the_slot (HASH_ID id) ;;
  if is_stale s id then ret tt else sys (modify (add_trace (TSetopt (s_fd s) what value))).

Definition add_udp_socket (id fd : Z) (inet6 : bool) (opaque : Z) : ST socket_server unit :=
  let i := HASH_ID id in
  ns <- new_fd id fd (if inet6 then PROTOCOL_UDPv6 else PROTOCOL_UDP) opaque true ;;
  if negb ns then sys (close fd) ;;; set_slot_type i SOCKET_TYPE_INVALID
  else
    set_slot_type i SOCKET_TYPE_CONNECTED ;;;
    on i (upd (set_udp_addr (replicate (Z.to_nat UDP_ADDRESS_SIZE) 0))).

Definition u16_dec (x : Z) : Z := u16 (x - 1).
Definition set_udp_address (id : Z) (address : list Z) : ST socket_server (option message) :=
  let i := HASH_ID id in
  s <- the_slot i ;;
  if is_stale s id then ret None
  else
    let type := default 0 (zget address 0) in
    if negb (type =? s_protocol s) then
      ret (Some (Message SOCKET_ERR (s_id s) (s_opaque s) 0 (DText "protocol mismatch")))
    else
      let n := if type =? PROTOCOL_UDP then 7%nat else 19%nat in
      on i (upd (fun s => set_udpconnecting (u16_dec (s_udpconnecting s))
        (set_udp_addr (take n address ++ drop n (s_udp_address s)) s))) ;;;
      ret None.

(** [None]: the counter is at its limit, and the thread waits. *)
Definition inc_sending_ref (i id : Z) : ST socket_server (option unit) :=
  s <- the_slot i ;;
  if negb (s_protocol s =? PROTOCOL_TCP) then ret (Some tt)
  else if Z.shiftr (s_sending s) 16 =? ID_TAG16 id then
    if Z.land (s_sending s) 0xffff =? 0xffff then ret None
    else put_slot i (set_sending (s_sending s + 1) s) ;;; ret (Some tt)
  else ret (Some tt).

Definition dec_sending_ref (id : Z) : ST socket_server unit :=
  s <- the_slot (HASH_ID id) ;;
  if (s_id s =? id) && (s_protocol s =? PROTOCOL_TCP) then
    assert_ (negb (Z.land (s_sending s) 0xffff =? 0)) ;;;
    put_slot (HASH_ID id) (set_sending (s_sending s - 1) s)
  else ret tt.

Definition ctrl_cmd (r : request) : ST socket_server (option message) :=
  match r with
  | RStart id opaque => start_socket id opaque
  | RBind id fd opaque => bind_socket id fd opaque
  | RListen id fd opaque => listen_socket id fd opaque
  | RClose id shutdown opaque => close_socket id shutdown opaque
  | ROpen id port opaque host => open_socket id port opaque host
  | RExit => ret (Some (Message SOCKET_EXIT 0 0 0 DNull))
  | RSend id sz buffer high =>
    r <- on (HASH_ID id) (send_socket (HASH_ID id) id buffer sz high None) ;;
    dec_sending_ref id ;;; ret r
  | RSendUdp id sz buffer address =>
    on (HASH_ID id) (send_socket (HASH_ID id) id buffer sz true (Some address))
  | RSetUdp id address => set_udp_address id address
  | RSetopt id what value => setopt_socket id what value ;;; ret None
  | RUdp id fd inet6 opaque => add_udp_socket id fd inet6 opaque ;;; ret None
  end.

(** The results 0, -1 and 1. *)
Inductive accepted := ANone | AFileLimit (m : message) | AConn (m : message).
Definition report_accept (i : Z) : ST socket_server accepted :=
  s <- the_slot i ;;
  c <- sys (syscall (sys_accept (s_fd s))) ;;
  match c with
  | inl e =>
    if bool_decide (e = EMFILE) then ret (AFileLimit (Message SOCKET_ERR (s_id s) (s_opaque s) 0 (DError e)))
    else ret ANone
  | inr (client_fd, u) =>
    id <- reserve_id ;;
    if id <? 0 then sys (close client_fd) ;;; ret ANone
    else
      ns <- new_fd id client_fd PROTOCOL_TCP (s_opaque s) false ;;
      if negb ns then sys (close client_fd) ;;; ret ANone
      else
        on i (stat_read 1) ;;;
        set_slot_type (HASH_ID id) SOCKET_TYPE_PACCEPT ;;;
        ret (AConn (Message SOCKET_ACCEPT (s_id s) (s_opaque s) id
          (match getname u with Some t => DText t | None => DNull end)))
  end.

Definition is_end (m : message) : bool := (m_type m =? SOCKET_CLOSE) || (m_type m =? SOCKET_ERR).

(** The first event of the closed socket loses its socket. *)
Fixpoint clear_first (ss : socket_server) (id : Z) (l : list event) : list event :=
  match l with
  | [] => []
  | e :: l =>
    match ev_s e with
    | Some i =>
      if (s_type (slot ss i) =? SOCKET_TYPE_INVALID) && (s_id (slot ss i) =? id)
      then Event None (ev_read e) (ev_write e) (ev_error e) (ev_eof e) :: l
      else e :: clear_first ss id l
    | None => e :: clear_first ss id l
    end
  end.
Definition clear_closed_event (m : message) : ST socket_server unit :=
  when (is_end m) (modify (fun ss => set_ev (clear_first ss (m_id m) (sv_ev ss)) ss)).

(** What an iteration of the loop in [socket_server_poll] does: go on, return a
    message, or give up because the events cannot be waited for. *)
Inductive polled := PAgain | PReturn (m : message) | PFail.
Definition of_result (r : option message) : polled := match r with Some m => PReturn m | None => PAgain end.

Definition back (e : event) : ST socket_server unit := modify (fun ss => set_ev (e :: sv_ev ss) ss).

Definition error_event (i fd : Z) : ST socket_server polled :=
  code <- sys (syscall (sys_so_error fd)) ;;
  let err := match code with
    | inl e => DError e
    | inr error => if negb (error =? 0) then DError (EERR error) else DText "Unknown error"
    end in
  m <- on i (force_close SOCKET_ERR err) ;; ret (PReturn m).

Definition read_event (i : Z) (e : event) (protocol : Z) : ST socket_server polled :=
  type <- on i (if protocol =? PROTOCOL_TCP then forward_message_tcp else forward_message_udp) ;;
  if match type with Some m => negb (protocol =? PROTOCOL_TCP) && (m_type m =? SOCKET_UDP) | None => false end then
    back e ;;; ret (of_result type) (* try read again *)
  else
    when (ev_write e && match type with Some m => negb (is_end m) | None => true end)
      (back (Event (ev_s e) false (ev_write e) (ev_error e) (ev_eof e))) ;;;
    ret (of_result type).

Definition handle_event (e : event) : ST socket_server polled :=
  match ev_s e with
  | None => ret PAgain
  | Some i =>
    s <- the_slot i ;;
    let t := s_type s in
    if t =? SOCKET_TYPE_CONNECTING then m <- on i (report_connect i) ;; ret (PReturn m)
    else if t =? SOCKET_TYPE_LISTEN then
      ok <- report_accept i ;;
      match ok with AConn m | AFileLimit m => ret (PReturn m) | ANone => ret PAgain end
    else if t =? SOCKET_TYPE_INVALID then ret PAgain
    else if ev_read e then read_event i e (s_protocol s)
    else if ev_write e then r <- on i (send_buffer i) ;; ret (of_result r)
    else if ev_error e then error_event i (s_fd s)
    else if ev_eof e then m <- on i (force_close SOCKET_CLOSE DNull) ;; ret (PReturn m)
    else ret PAgain
  end.

Definition next_event : ST socket_server polled :=
  l <- gets sv_ev ;;
  match l with
  | [] => ret PFail
  | e :: l => modify (set_ev l) ;;; handle_event e
  end.

(** One iteration; with it, if the thread waited for events. *)
Definition poll_step : ST socket_server (polled * bool) :=
  check <- gets sv_checkctrl ;;
  pipe <- gets sv_pipe ;;
  match check, pipe with
  | true, r :: pipe =>
    modify (set_pipe pipe) ;;;
    type <- ctrl_cmd r ;;
    match type with Some m => clear_closed_event m | None => ret tt end ;;;
    ret (of_result type, false)
  | _, _ =>
    modify (set_checkctrl false) ;;;
    l <- gets sv_ev ;;
    if is_empty l then
      r <- sys (sp_wait MAX_EVENT) ;;
      modify (set_checkctrl true) ;;;
      match r with
      | inl e => ret (if bool_decide (e = EINTR) then PAgain else PFail, true)
      | inr l => modify (set_ev l) ;;; p <- next_event ;; ret (p, true)
      end
    else p <- next_event ;; ret (p, false)
  end.

(** The loop, for at most [fuel] iterations: the message, or none after a failed wait,
    and [*more]. *)
Fixpoint socket_server_poll (fuel : nat) (more : bool) : ST socket_server (option message * bool) :=
  match fuel with
  | O => fail
  | S fuel =>
    '(p, waited) <- poll_step ;;
    let more := more && negb waited in
    match p with
    | PAgain => socket_server_poll fuel more
    | PReturn m => ret (Some m, more)
    | PFail => ret (None, more)
    end
  end.

Definition send_request (r : request) : ST socket_server unit := modify (fun ss => set_pipe (sv_pipe ss ++ [r]) ss).

(** ** Calls from other threads

    The result and the request that is written last; or the thread waits for the
    counter of packages on their way, and tries again. *)
Inductive called := Spin | Done (r : Z) (req : option request).

Definition SIZEOF_REQUEST_OPEN : Z := 24.
(** The id, unless the name is too long for a request or no slot is free. *)
Definition open_request (addr : string) : ST socket_server Z :=
  let len := Z.of_nat (String.length addr) in
  if 256 <=? len + SIZEOF_REQUEST_OPEN then ret (-1) else reserve_id.
Definition socket_server_connect (opaque : Z) (addr : string) (port : Z) : ST socket_server called :=
  id <- open_request addr ;;
  if id <? 0 then ret (Done (-1) None) else ret (Done id (Some (ROpen id port opaque addr))).

Definition can_direct_write (s : socket) (id : Z) : bool :=
  (s_id s =? id) && nomore_sending_data s && (s_type s =? SOCKET_TYPE_CONNECTED) && (s_udpconnecting s =? 0).

(** The second half of [can_direct_write(s,id) && socket_trylock(&l)]. *)
Definition trylock (direct : bool) : ST socket_server bool :=
  if direct then locked <- sys (syscall sys_locked) ;; ret (negb locked) else ret false.

(** The write under the lock; 0 or -1. *)
Definition direct_write (i buffer sz : Z) : ST (SE K) Z :=
  so <- on_env (send_object_init buffer sz) ;;
  s <- get (fun s => s) ;;
  let wrote (r : errno + Z) :=
    let n := match r with inl _ => 0 | inr n => n end in
    stat_write n ;;;
    if n =? so_sz so then on_env (free_block (so_user so) buffer) ;;; ret 0
    else upd (set_dw (Some (buffer, sz, n))) ;;; on_env (sp_write (s_fd s) i true) ;;; ret 0 in
  if s_protocol s =? PROTOCOL_TCP then
    bytes <- on_env (bytes_of buffer (so_buffer so) (so_sz so)) ;;
    r <- on_env (do_write (s_fd s) bytes) ;; wrote r
  else
    match udp_socket_address s (s_udp_address s) with
    | None => on_env (free_block (so_user so) buffer) ;;; ret (-1)
    | Some sa =>
      bytes <- on_env (bytes_of buffer (so_buffer so) (so_sz so)) ;;
      r <- on_env (do_sendto (s_fd s) bytes sa) ;; wrote r
    end.

Definition via_pipe (i id sz buffer : Z) (high : bool) : ST socket_server called :=
  r <- inc_sending_ref i id ;;
  match r with None => ret Spin | Some _ => ret (Done 0 (Some (RSend id sz buffer high))) end.

Definition socket_server_send (id buffer sz : Z) : ST socket_server called :=
  let i := HASH_ID id in
  s <- the_slot i ;;
  if negb (s_id s =? id) || (s_type s =? SOCKET_TYPE_INVALID) then
    sys (free_buffer buffer sz) ;;; ret (Done (-1) None)
  else
    direct <- trylock (can_direct_write s id) ;;
    if direct then r <- on i (direct_write i buffer sz) ;; ret (Done r None)
    else via_pipe i id sz buffer true.

Definition socket_server_send_lowpriority (id buffer sz : Z) : ST socket_server called :=
  let i := HASH_ID id in
  s <- the_slot i ;;
  if negb (s_id s =? id) || (s_type s =? SOCKET_TYPE_INVALID) then
    sys (free_buffer buffer sz) ;;; ret (Done (-1) None)
  else via_pipe i id sz buffer false.

Definition socket_server_exit : ST socket_server called := ret (Done 0 (Some RExit)).
Definition socket_server_close (opaque id : Z) : ST socket_server called := ret (Done 0 (Some (RClose id false opaque))).
Definition socket_server_shutdown (opaque id : Z) : ST socket_server called := ret (Done 0 (Some (RClose id true opaque))).

(** A descriptor bound to the first answer of [getaddrinfo], and if it is of IPv6. *)
Definition do_bind (host : string) (port : Z) (tcp : bool) : ST (env K) (option (Z * bool)) :=
  let host := if String.eqb host "" then "0.0.0.0"%string else host in
  status <- syscall (sys_getaddrinfo host port tcp) ;;
  match status with
  | inl _ | inr [] => ret None
  | inr (ai :: _) =>
    fd <- syscall (sys_socket tcp) ;;
    match fd with
    | inl _ => ret None
    | inr fd =>
      ok <- syscall (sys_reuse_bind fd ai) ;;
      if ok then ret (Some (fd, match ai with V4 _ _ => false | V6 _ _ => true end))
      else close fd ;;; ret None
    end
  end.
Definition do_listen (host : string) (port backlog : Z) : ST (env K) Z :=
  fd <- do_bind host port true ;;
  match fd with
  | None => ret (-1)
  | Some (listen_fd, _) =>
    ok <- syscall (sys_listen listen_fd backlog) ;;
    if ok then ret listen_fd else close listen_fd ;;; ret (-1)
  end.

Definition socket_server_listen (opaque : Z) (addr : string) (port backlog : Z) : ST socket_server called :=
  fd <- sys (do_listen addr port backlog) ;;
  if fd <? 0 then ret (Done (-1) None)
  else
    id <- reserve_id ;;
    if id <? 0 then sys (close fd) ;;; ret (Done id None)
    else ret (Done id (Some (RListen id fd opaque))).

Definition socket_server_bind (opaque fd : Z) : ST socket_server called :=
  id <- reserve_id ;;
  if id <? 0 then ret (Done (-1) None) else ret (Done id (Some (RBind id fd opaque))).
Definition socket_server_start (opaque id : Z) : ST socket_server called := ret (Done 0 (Some (RStart id opaque))).
Definition TCP_NODELAY : Z := 1.
Definition socket_server_nodelay (id : Z) : ST socket_server called := ret (Done 0 (Some (RSetopt id TCP_NODELAY 1))).

(** [addr] is [None] for NULL. *)
Definition socket_server_udp (opaque : Z) (addr : option string) (port : Z) : ST socket_server called :=
  fd <- (if negb (port =? 0) || bool_decide (addr <> None) then sys (do_bind (default EmptyString addr) port false)
         else
           fd <- sys (syscall (sys_socket false)) ;;
           ret (match fd with inl _ => None | inr fd => Some (fd, false) end)) ;;
  match fd with
  | None => ret (Done (-1) None)
  | Some (fd, inet6) =>
    id <- reserve_id ;;
    if id <? 0 then sys (close fd) ;;; ret (Done (-1) None)
    else ret (Done id (Some (RUdp id fd inet6 opaque)))
  end.

Definition udp_direct_write (buffer sz : Z) (udp_address : list Z) : ST (SE K) (option Z) :=
  so <- on_env (send_object_init buffer sz) ;;
  s <- get (fun s => s) ;;
  match udp_socket_address s udp_address with
  | None => on_env (free_block (so_user so) buffer) ;;; ret (Some (-1))
  | Some sa =>
    bytes <- on_env (bytes_of buffer (so_buffer so) (so_sz so)) ;;
    n <- on_env (do_sendto (s_fd s) bytes sa) ;;
    match n with
    | inr n => stat_write n ;;; on_env (free_block (so_user so) buffer) ;;; ret (Some 0)
    | inl _ => ret None (* the socket thread tries again *)
    end
  end.

Definition socket_server_udp_send (id : Z) (udp_address : list Z) (buffer sz : Z) : ST socket_server called :=
  let i := HASH_ID id in
  s <- the_slot i ;;
  if negb (s_id s =? id) || (s_type s =? SOCKET_TYPE_INVALID) then
    sys (free_buffer buffer sz) ;;; ret (Done (-1) None)
  else
    let type := default 0 (zget udp_address 0) in
    if negb ((type =? PROTOCOL_UDP) || (type =? PROTOCOL_UDPv6)) then sys (free_buffer buffer sz) ;;; ret (Done (-1) None)
    else
      let addrsz := if type =? PROTOCOL_UDP then 7%nat else 19%nat in
      direct <- trylock (can_direct_write s id) ;;
      r <- (if direct then on i (udp_direct_write buffer sz udp_address) else ret None) ;;
      match r with
      | Some r => ret (Done r None)
      | None => ret (Done 0 (Some (RSendUdp id sz buffer (take addrsz udp_address))))
      end.

Definition socket_server_udp_connect (id : Z) (addr : string) (port : Z) : ST socket_server called :=
  let i := HASH_ID id in
  s <- the_slot i ;;
  if negb (s_id s =? id) || (s_type s =? SOCKET_TYPE_INVALID) then ret (Done (-1) None)
  else
    on i (upd (fun s => set_udpconnecting (u16 (s_udpconnecting s + 1)) s)) ;;;
    status <- sys (syscall (sys_getaddrinfo addr port false)) ;;
    match status with
    | inl _ | inr [] => ret (Done (-1) None)
    | inr (ai :: _) =>
      let protocol := match ai with V4 _ _ => PROTOCOL_UDP | V6 _ _ => PROTOCOL_UDPv6 end in
      ret (Done 0 (Some (RSetUdp id (gen_udp_address protocol ai))))
    end.

(** The address behind the data of an SOCKET_UDP message. *)
Definition socket_server_udp_address (m : message) : option (list Z) :=
  match m_data m with
  | DBlock l =>
    let address := drop (Z.to_nat (m_ud m)) l in
    type ← zget address 0;
    if type =? PROTOCOL_UDP then Some (take 7 address)
    else if type =? PROTOCOL_UDPv6 then Some (take 19 address) else None
  | _ => None
  end.

(** *** Information *)

Definition SOCKET_INFO_LISTEN : Z := 1.
Definition SOCKET_INFO_TCP : Z := 2.
Definition SOCKET_INFO_UDP : Z := 3.
Definition SOCKET_INFO_BIND : Z := 4.
Record socket_info := Info {
  si_id : Z; si_type : Z; si_opaque : Z; si_read : Z; si_write : Z; si_rtime : Z; si_wtime : Z; si_wbuffer : Z; si_name : option string
}.
(** The name is not written when the address is not known. *)
Definition name_of (u : option sockaddr) : option string := (fun u => default EmptyString (getname u)) <$> u.
Definition query_info (s : socket) : ST (env K) (option socket_info) :=
  let info type name := ret (Some (Info (s_id s) type (s_opaque s) (st_read (s_stat s)) (st_write (s_stat s))
    (st_rtime (s_stat s)) (st_wtime (s_stat s)) (s_wb_size s) name)) in
  if s_type s =? SOCKET_TYPE_BIND then info SOCKET_INFO_BIND (Some EmptyString)
  else if s_type s =? SOCKET_TYPE_LISTEN then u <- syscall (sys_getsockname (s_fd s)) ;; info SOCKET_INFO_LISTEN (name_of u)
  else if s_type s =? SOCKET_TYPE_CONNECTED then
    if s_protocol s =? PROTOCOL_TCP then u <- syscall (sys_getpeername (s_fd s)) ;; info SOCKET_INFO_TCP (name_of u)
    else info SOCKET_INFO_UDP (name_of (udp_socket_address s (s_udp_address s)))
  else ret None.
(** The newest slot first, as in the C list. *)
Fixpoint info_loop (l : list Z) (si : list socket_info) : ST socket_server (list socket_info) :=
  match l with
  | [] => ret si
  | i :: l =>
    s <- the_slot i ;;
    temp <- sys (query_info s) ;;
    info_loop l (match temp with Some temp => temp :: si | None => si end)
  end.
Definition socket_server_info : ST socket_server (list socket_info) := info_loop (seqZ 0 MAX_SOCKET) [].

Fixpoint release_loop (l : list Z) : ST socket_server unit :=
  match l with
  | [] => ret tt
  | i :: l =>
    s <- the_slot i ;;
    when (negb (s_type s =? SOCKET_TYPE_RESERVE)) (_ <- on i (force_close SOCKET_CLOSE DNull) ;; ret tt) ;;;
    release_loop l
  end.
Definition socket_server_release : ST socket_server unit := release_loop (seqZ 0 MAX_SOCKET).
End server.
Arguments socket_server _ : clear implicits.
