(* ===== verification/SocketBuffer.v ===== *)
(** The write buffers of a socket: what sending, flushing and closing do to them. *)

From S2P Require Import Prelude Bytes State Socket SocketServer.
Local Open Scope Z_scope.
Local Open Scope st_scope.

(** ** Laws of the operating system *)

(** Within [n] more tries [write] is not interrupted. *)
Fixpoint not_forever {K} `{Kernel K} (n : nat) (fd : Z) (bytes : list Z) (k : K) : Prop :=
  match (sys_write fd bytes k).1 with
  | inl EINTR => match n with O => False | S n => not_forever n fd bytes (sys_write fd bytes k).2 end
  | _ => True
  end.

Class LawfulKernel (K : Type) `{Kernel K} := {
  write_range fd bytes k n : (sys_write fd bytes k).1 = inr n -> 0 <= n <= zlen bytes;
  write_patience fd bytes k : not_forever sys_patience fd bytes k;
  sendto_range fd bytes sa k n : (sys_sendto fd bytes sa k).1 = inr n -> 0 <= n <= zlen bytes;
  read_range fd sz k l : (sys_read fd sz k).1 = inr l -> zlen l <= sz;
  (* a package with the address it came from, of its family's size *)
  recvfrom_range fd sz k l sa : (sys_recvfrom fd sz k).1 = inr (l, sa) -> zlen l <= sz /\
    match sa with V4 port addr => zlen port = 2 /\ zlen addr = 4 | V6 port addr => zlen port = 2 /\ zlen addr = 16 end;
  (* events are those of registered sockets, each at most once *)
  wait_some p max k l : (sys_epoll_wait p max k).1 = inr l -> l <> [];
  wait_registered p max k l e i : (sys_epoll_wait p max k).1 = inr l -> e ∈ l -> ev_s e = Some i ->
    exists fd w, p !! fd = Some (i, w);
  wait_once p max k l : (sys_epoll_wait p max k).1 = inr l ->
    (forall fd fd' i w w', p !! fd = Some (i, w) -> p !! fd' = Some (i, w') -> fd = fd') -> NoDup (omap ev_s l)
}.

(** ** What a socket holds *)

Definition dw_ptr (dw : option (Z * Z * Z)) : list Z := match dw with Some (b, _, _) => [b] | None => [] end.
Definition held (s : socket) : list Z := (wb_buffer <$> s_high s) ++ (wb_buffer <$> s_low s) ++ dw_ptr (s_dw s).

(** The object [o] at [p] is what a call with size [sz] says it is. *)
Definition pkg_ok (soi : bool) (p sz : Z) (o : object) : Prop :=
  if sz <? 0 then ob_user o = true /\ soi = true
  else ob_user o = false /\ ob_base o = p /\ sz = zlen (ob_data o).

(** The bytes of [wb] that are still to send are [c]. *)
Definition node_rep (mem : gmap Z object) (wb : write_buffer) (c : list Z) : Prop :=
  exists o, mem !! wb_buffer wb = Some o /\ ob_user o = wb_userobject wb /\ wb_sz wb = zlen c /\
    0 <= wb_ptr wb - ob_base o <= zlen (ob_data o) /\ drop (Z.to_nat (wb_ptr wb - ob_base o)) (ob_data o) = c.
Definition dw_rep (soi : bool) (mem : gmap Z object) (dw : option (Z * Z * Z)) (c : list Z) : Prop :=
  match dw with
  | None => c = []
  | Some (b, sz, off) => exists o, mem !! b = Some o /\ pkg_ok soi b sz o /\ 0 <= off <= zlen (ob_data o) /\ drop (Z.to_nat off) (ob_data o) = c
  end.
Definition complete (wb : write_buffer) : Prop := wb_ptr wb = wb_buffer wb.

Section buffers.
Context {K : Type} `{LawfulKernel K}.
Implicit Types (e : env K) (s : socket).

(** The waiting bytes: of the direct write, of the two lists. *)
Record sok (e : env K) (s : socket) (dc : list Z) (hc lc : list (list Z)) : Prop := {
  sok_high : Forall2 (node_rep (e_mem e)) (s_high s) hc;
  sok_low : Forall2 (node_rep (e_mem e)) (s_low s) lc;
  sok_dw : dw_rep (e_soi e) (e_mem e) (s_dw s) dc;
  sok_nodup : NoDup (held s);
  sok_size : s_wb_size s = zlen (concat hc) + zlen (concat lc)
}.

Lemma node_rep_mem mem mem' wb c : mem' !! wb_buffer wb = mem !! wb_buffer wb -> node_rep mem wb c -> node_rep mem' wb c.
Proof. intros Hm (o & Ho & Hr). exists o. by rewrite Hm. Qed.

Lemma nodes_rep_mem mem mem' l cs :
  (forall p, p ∈ (wb_buffer <$> l) -> mem' !! p = mem !! p) -> Forall2 (node_rep mem) l cs -> Forall2 (node_rep mem') l cs.
Proof.
  intros Hm Hl. induction Hl as [|wb c l cs Hwb Hl IH]; [constructor|]. constructor.
  - eapply node_rep_mem; [|exact Hwb]. apply Hm. by left.
  - apply IH. intros p Hp. apply Hm. by right.
Qed.

Lemma dw_rep_mem soi mem mem' dw c :
  (forall p, p ∈ dw_ptr dw -> mem' !! p = mem !! p) -> dw_rep soi mem dw c -> dw_rep soi mem' dw c.
Proof.
  intros Hm. destruct dw as [[[b sz] off]|]; [|done]. intros (o & Ho & Hr). exists o. by rewrite Hm by by left.
Qed.

(** *** Environment steps *)

Lemma wp_syscall {A} (f : K -> A * K) Q e : Q (f (e_k e)).1 (set_k (f (e_k e)).2 e) -> wp (syscall f) Q e.
Proof. unfold wp, syscall. by destruct (f (e_k e)). Qed.

Lemma wp_on_env {A} (m : ST (env K) A) Q e s : wp m (fun a e' => Q a (e', s)) e -> wp (on_env m) Q (e, s).
Proof. unfold on_env. by rewrite wp_zoom. Qed.

Lemma wp_get {A} (f : socket -> A) Q e s : Q (f s) (e, s) -> wp (get f) Q (e, s).
Proof. done. Qed.
Lemma wp_upd f Q e s : Q tt (e, f s) -> wp (upd f) Q (e, s).
Proof. done. Qed.

Lemma wp_free_block user p o Q e : e_mem e !! p = Some o -> ob_user o = user ->
  Q tt (set_mem (delete p (e_mem e)) e) -> wp (free_block user p) Q e.
Proof.
  intros Ho Hu HQ. unfold free_block. rewrite wp_bind, wp_gets, wp_bind. eapply wp_lift; [exact Ho|].
  rewrite wp_bind. apply wp_assert; [by rewrite Hu, Bool.eqb_reflx|]. by rewrite wp_modify.
Qed.

Lemma wp_send_object_init p sz o Q e : e_mem e !! p = Some o -> pkg_ok (e_soi e) p sz o ->
  Q (SendObject (ob_base o) (zlen (ob_data o)) (ob_user o)) e -> wp (send_object_init p sz) Q e.
Proof.
  unfold send_object_init, pkg_ok. intros Ho Hok HQ. destruct (sz <? 0).
  - destruct Hok as [Hu Hsoi]. rewrite wp_bind, wp_gets, wp_bind. apply wp_assert; [done|].
    rewrite wp_bind, wp_gets, wp_bind. eapply wp_lift; [exact Ho|]. rewrite wp_bind. apply wp_assert; [done|].
    apply wp_ret. by rewrite <- Hu.
  - destruct Hok as (Hu & Hb & Hs). apply wp_ret. by rewrite <- Hu, Hs, <- Hb.
Qed.

Lemma wp_bytes_of wb c Q e : node_rep (e_mem e) wb c -> Q c e ->
  wp (bytes_of (wb_buffer wb) (wb_ptr wb) (wb_sz wb)) Q e.
Proof.
  intros (o & Ho & Hu & Hsz & Hoff & Hc) HQ. unfold bytes_of.
  rewrite wp_bind, wp_gets, wp_bind. eapply wp_lift; [exact Ho|]. cbn zeta. rewrite wp_bind.
  assert (zlen c = zlen (ob_data o) - (wb_ptr wb - ob_base o)) as Hlen by (rewrite <- Hc, zlen_drop; lia).
  pose proof (zlen_nonneg c). apply wp_assert; [|apply wp_ret].
  - repeat (apply andb_true_iff; split); apply Z.leb_le; lia.
  - rewrite Hc. rewrite take_ge; [done|]. unfold zlen in *. lia.
Qed.

(** Freed blocks are gone, the others stay. *)
Definition del_all (ps : list Z) (mem : gmap Z object) : gmap Z object := foldl (fun m p => delete p m) mem ps.

Lemma del_all_ne ps : forall mem p, p ∉ ps -> del_all ps mem !! p = mem !! p.
Proof.
  induction ps as [|q ps IH]; intros mem p Hp; [done|]. apply not_elem_of_cons in Hp as [Hne Hp].
  simpl. by rewrite IH, lookup_delete_ne.
Qed.
Lemma del_all_in ps : forall mem p, p ∈ ps -> del_all ps mem !! p = None.
Proof.
  induction ps as [|q ps IH]; intros mem p; [set_solver|]. simpl. intros [->|Hp]%elem_of_cons; [|by apply IH].
  destruct (decide (q ∈ ps)); [by apply IH|]. rewrite del_all_ne by done. apply lookup_delete_eq.
Qed.
Lemma del_all_app ps qs mem : del_all (ps ++ qs) mem = del_all qs (del_all ps mem).
Proof. apply foldl_app. Qed.

Lemma wp_free_nodes l : forall cs Q e,
  Forall2 (node_rep (e_mem e)) l cs -> NoDup (wb_buffer <$> l) ->
  Q tt (set_mem (del_all (wb_buffer <$> l) (e_mem e)) e) -> wp (free_nodes l) Q e.
Proof.
  induction l as [|wb l IH]; intros cs Q e Hl Hnd HQ; [by destruct e|].
  apply Forall2_cons_inv_l in Hl as (c & cs' & (o & Ho & Hu & _) & Hl & ->).
  apply NoDup_cons in Hnd as [Hni Hnd]. cbn [free_nodes]. rewrite wp_bind.
  eapply wp_free_block; [exact Ho|exact Hu|]. eapply (IH cs'); [|done|exact HQ].
  eapply nodes_rep_mem; [|exact Hl]. intros p Hp. cbn [e_mem set_mem]. apply lookup_delete_ne. intros Heq. apply Hni. by rewrite Heq.
Qed.

(** *** Frames *)

(** The bytes the kernel took for a descriptor. *)
Definition written (fd : Z) (tr : list trace) : list Z :=
  concat ((fun t => match t with TWrite f b => if f =? fd then b else [] | _ => [] end) <$> tr).

Lemma written_app fd tr1 tr2 : written fd (tr1 ++ tr2) = written fd tr1 ++ written fd tr2.
Proof. unfold written. by rewrite fmap_app, concat_app. Qed.

Definition poll_frame (slot fd : Z) (p p' : gmap Z (Z * bool)) : Prop :=
  forall fd' i w, p' !! fd' = Some (i, w) ->
    exists i' w', p !! fd' = Some (i', w') /\ (i = i' \/ (fd' = fd /\ i = slot)).

Lemma poll_frame_refl slot fd p : poll_frame slot fd p p.
Proof. intros fd' i w Hp. exists i, w. auto. Qed.
Lemma poll_frame_trans slot fd p1 p2 p3 : poll_frame slot fd p1 p2 -> poll_frame slot fd p2 p3 -> poll_frame slot fd p1 p3.
Proof.
  intros H12 H23 fd' i w (i2 & w2 & Hp2 & Hi2)%H23. apply H12 in Hp2 as (i1 & w1 & Hp1 & Hi1).
  exists i1, w1. split; [done|]. destruct Hi2 as [->|[-> ->]]; auto.
Qed.
Lemma poll_frame_delete slot fd p fd' : poll_frame slot fd p (delete fd' p).
Proof. intros fd2 i w [_ Hp]%lookup_delete_Some. exists i, w. auto. Qed.
Lemma poll_frame_alter slot fd p b : poll_frame slot fd p (alter (fun _ => (slot, b)) fd p).
Proof.
  intros fd' i w. destruct (decide (fd' = fd)) as [->|Hne].
  - rewrite lookup_alter_eq. destruct (p !! fd) as [[i' w']|]; [|done]. intros [= <- <-]. exists i', w'. auto.
  - rewrite lookup_alter_ne by done. intros Hp. exists i, w. auto.
Qed.

(** What an operation on the socket [s] in [slot] may do to the rest: blocks that
    are not its own, [ps], stay, and those that the socket does not hold then are
    freed. *)
Record framep (slot : Z) (ps : list Z) (e : env K) (s : socket) (e' : env K) (s' : socket) : Prop := {
  fr_time : e_time e' = e_time e;
  fr_soi : e_soi e' = e_soi e;
  fr_keep : forall p, p ∉ ps -> e_mem e' !! p = e_mem e !! p;
  fr_free : forall p, p ∈ ps -> p ∉ held s' -> e_mem e' !! p = None;
  fr_held : forall p, p ∈ held s' -> p ∈ ps;
  fr_poll : poll_frame slot (s_fd s) (e_poll e) (e_poll e');
  fr_fd : s_fd s' = s_fd s;
  fr_id : s_id s' = s_id s;
  fr_opaque : s_opaque s' = s_opaque s;
  fr_protocol : s_protocol s' = s_protocol s;
  fr_sending : s_sending s' = s_sending s
}.

Abbreviation frame slot e s e' s' := (framep slot (held s) e s e' s').
Arguments fr_fd {_ _ _ _ _ _} _. Arguments fr_id {_ _ _ _ _ _} _. Arguments fr_opaque {_ _ _ _ _ _} _.
Arguments fr_protocol {_ _ _ _ _ _} _. Arguments fr_sending {_ _ _ _ _ _} _.
Arguments fr_poll {_ _ _ _ _ _} _. Arguments fr_keep {_ _ _ _ _ _} _. Arguments fr_free {_ _ _ _ _ _} _.
Arguments fr_held {_ _ _ _ _ _} _. Arguments fr_time {_ _ _ _ _ _} _. Arguments fr_soi {_ _ _ _ _ _} _.

Lemma framep_refl slot e s : frame slot e s e s.
Proof. by split; try done; try apply poll_frame_refl. Qed.

Lemma framep_trans slot ps e1 s1 e2 s2 e3 s3 : framep slot ps e1 s1 e2 s2 -> frame slot e2 s2 e3 s3 -> framep slot ps e1 s1 e3 s3.
Proof.
  intros [] []. split; try congruence.
  - intros p Hp. rewrite fr_keep1, fr_keep0; auto.
  - intros p Hp Hp3. destruct (decide (p ∈ held s2)) as [Hp2|Hp2]; [by apply fr_free1|].
    rewrite fr_keep1 by done. by apply fr_free0.
  - auto.
  - eapply poll_frame_trans; [done|]. by rewrite fr_fd0 in fr_poll1.
Qed.

(** A step that changes nothing the frame speaks of. *)
Lemma frame_same slot e s e' s' :
  e_time e' = e_time e -> e_soi e' = e_soi e -> e_mem e' = e_mem e -> poll_frame slot (s_fd s) (e_poll e) (e_poll e') ->
  held s' ≡ₚ held s -> s_fd s' = s_fd s -> s_id s' = s_id s -> s_opaque s' = s_opaque s -> s_protocol s' = s_protocol s ->
  s_sending s' = s_sending s -> frame slot e s e' s'.
Proof.
  intros Ht Hs Hm Hp Hh. split; try done.
  - by rewrite Hm.
  - intros p Hin Hni. by rewrite Hh in Hni.
  - intros p Hin. by rewrite Hh in Hin.
Qed.

Definition close_state (s : socket) : socket := set_dw None (set_type SOCKET_TYPE_INVALID (set_low [] (set_high [] s))).

Lemma dw_held s b sz off : s_dw s = Some (b, sz, off) -> held s = (wb_buffer <$> s_high s) ++ (wb_buffer <$> s_low s) ++ [b].
Proof. unfold held. by intros ->. Qed.

Lemma written_close fd tr fd' : written fd (tr ++ [TClose fd']) = written fd tr.
Proof. by rewrite written_app, app_nil_r. Qed.

Lemma wp_close_fd t fd Q e :
  (forall e', e_mem e' = e_mem e -> e_time e' = e_time e -> e_soi e' = e_soi e -> e_poll e' = delete fd (e_poll e) ->
     (forall fd', written fd' (e_trace e') = written fd' (e_trace e)) -> Q tt e') ->
  wp (close_fd t fd) Q e.
Proof.
  intros HQ. unfold close_fd. rewrite wp_bind. destruct (Z.eqb_spec t SOCKET_TYPE_BIND) as [->|Hb].
  - by apply HQ.
  - apply wp_when; intros _; apply HQ; try done.
    + apply delete_delete_eq.
    + intros fd'. apply written_close.
    + intros fd'. apply written_close.
Qed.

Lemma wp_free_dw Q e s c : dw_rep (e_soi e) (e_mem e) (s_dw s) c ->
  Q tt (set_mem (del_all (dw_ptr (s_dw s)) (e_mem e)) e, set_dw None s) -> wp free_dw Q (e, s).
Proof.
  intros Hdw HQ. unfold free_dw. rewrite wp_bind. apply wp_get.
  destruct (s_dw s) as [[[b sz] off]|] eqn:Hs.
  - destruct Hdw as (o & Ho & Hok & _). rewrite wp_bind. apply wp_on_env. unfold free_buffer. rewrite wp_bind.
    eapply wp_send_object_init; [exact Ho|exact Hok|]. eapply wp_free_block; [exact Ho|done|exact HQ].
  - simpl in HQ. by destruct e, s; simpl in *; subst.
Qed.

(** Closing gives back everything. *)
Lemma force_close_wp slot type data e s dc hc lc (Q : message -> SE K -> Prop) :
  sok e s dc hc lc -> s_type s <> SOCKET_TYPE_RESERVE -> s_type s <> SOCKET_TYPE_INVALID ->
  (forall e', frame slot e s e' (close_state s) -> e_poll e' !! s_fd s = None ->
     (forall fd, written fd (e_trace e') = written fd (e_trace e)) ->
     Q (Message type (s_id s) (s_opaque s) 0 data) (e', close_state s)) ->
  wp (force_close type data) Q (e, s).
Proof.
  intros [Hh Hl Hdw Hnd _] Hres Hinv HQ. unfold force_close.
  rewrite wp_bind. apply wp_get. rewrite wp_bind. apply wp_get.
  destruct (Z.eqb_spec (s_type s) SOCKET_TYPE_INVALID) as [|_]; [done|].
  rewrite wp_bind. apply wp_assert; [by apply negb_true_iff, Z.eqb_neq|].
  pose proof Hnd as Hheld. unfold held in Hnd. apply NoDup_app in Hnd as (Hndh & Hdis & Hnd). apply NoDup_app in Hnd as (Hndl & Hdis2 & Hnddw).
  unfold free_wb_list. rewrite !wp_bind. apply wp_get. rewrite wp_bind. apply wp_on_env.
  eapply wp_free_nodes; [exact Hh|exact Hndh|]. apply wp_upd.
  rewrite !wp_bind. apply wp_get. rewrite wp_bind. apply wp_on_env.
  eapply wp_free_nodes; [|exact Hndl|].
  { eapply nodes_rep_mem; [|exact Hl]. intros p Hp. apply del_all_ne. intros Hph. apply (Hdis p Hph). set_solver. }
  apply wp_upd. rewrite wp_bind. apply wp_get. rewrite wp_bind. apply wp_on_env, wp_close_fd.
  intros e1 Hm1 Ht1 Hs1 Hp1 Hw1. rewrite wp_bind. apply wp_upd. rewrite wp_bind.
  apply (wp_free_dw _ _ _ dc).
  { eapply dw_rep_mem; [|rewrite Hs1; exact Hdw]. intros p Hp. rewrite Hm1. cbn [e_mem set_mem].
    rewrite !del_all_ne; [done| |]; intros Hpin; [apply (Hdis p Hpin)|apply (Hdis2 p Hpin)]; set_solver. }
  apply wp_ret. apply HQ.
  - set (e2 := set_mem _ e1).
    assert (e_mem e2 = del_all (held s) (e_mem e)) as Hm2.
    { unfold e2, held. cbn [e_mem set_mem s_dw set_type set_list set_low set_high]. rewrite Hm1, !del_all_app. done. }
    split; try done.
    + intros p Hp. by rewrite Hm2, del_all_ne.
    + intros p Hp _. rewrite Hm2. by apply del_all_in.
    + intros p Hp. by apply not_elem_of_nil in Hp.
    + change (e_poll e2) with (e_poll e1). rewrite Hp1. apply poll_frame_delete.
  - change (e_poll e1 !! s_fd s = None). rewrite Hp1. apply lookup_delete_eq.
  - exact Hw1.
Qed.

(** *** Writing *)

(** Only the kernel and the trace change; the bytes [w] went out on [fd]. *)
Record io (fd : Z) (w : list Z) (e e' : env K) : Prop := {
  io_mem : e_mem e' = e_mem e;
  io_poll : e_poll e' = e_poll e;
  io_time : e_time e' = e_time e;
  io_soi : e_soi e' = e_soi e;
  io_written : forall fd', written fd' (e_trace e') = written fd' (e_trace e) ++ (if fd' =? fd then w else [])
}.

Lemma io_refl fd e : io fd [] e e.
Proof. split; try done. intros fd'. by destruct (fd' =? fd); rewrite app_nil_r. Qed.
Lemma io_trans fd w1 w2 e1 e2 e3 : io fd w1 e1 e2 -> io fd w2 e2 e3 -> io fd (w1 ++ w2) e1 e3.
Proof.
  intros [] []. split; try congruence. intros fd'. rewrite io_written1, io_written0, <- app_assoc.
  by destruct (fd' =? fd).
Qed.

Lemma wp_do_write fd bytes Q e :
  (forall err e', (sys_write fd bytes (e_k e)).1 = inl err -> e_k e' = (sys_write fd bytes (e_k e)).2 ->
     io fd [] e e' -> Q (inl err) e') ->
  (forall n e', 0 <= n <= zlen bytes -> io fd (take (Z.to_nat n) bytes) e e' -> Q (inr n) e') ->
  wp (do_write fd bytes) Q e.
Proof.
  intros HE HN. unfold do_write. rewrite wp_bind. apply wp_syscall.
  destruct (sys_write fd bytes (e_k e)) as [[err|n] k] eqn:Hr; cbn [fst snd] in *.
  - apply wp_ret. apply HE; [done|done|]. split; try done. intros fd'. by destruct (fd' =? fd); rewrite app_nil_r.
  - rewrite wp_bind, wp_modify. apply wp_ret. apply HN; [apply (write_range fd bytes (e_k e)); by rewrite Hr|].
    split; try done. intros fd'. cbn [e_trace add_trace set_k]. rewrite written_app. f_equal. unfold written. simpl.
    rewrite (Z.eqb_sym fd fd'). destruct (fd' =? fd); by rewrite ?app_nil_r.
Qed.

Lemma wp_write_retry n fd bytes : forall Q e,
  not_forever n fd bytes (e_k e) ->
  (forall err e', err <> EINTR -> io fd [] e e' -> Q (inl err) e') ->
  (forall n e', 0 <= n <= zlen bytes -> io fd (take (Z.to_nat n) bytes) e e' -> Q (inr n) e') ->
  wp (write_retry n fd bytes) Q e.
Proof.
  induction n as [|n IH]; intros Q e Hnf HE HN; cbn [write_retry not_forever] in *; rewrite wp_bind; apply wp_do_write;
    try (intros m e' Hm Hio; by apply HN); intros err e' Hr Hk Hio; rewrite Hr in Hnf; destruct err; try done;
    try (apply wp_ret; by apply HE).
  apply IH; [by rewrite Hk| |].
  - intros err e2 Herr Hio2. apply HE; [done|]. apply (io_trans _ [] [] _ _ _ Hio Hio2).
  - intros m e2 Hm Hio2. apply HN; [done|]. apply (io_trans _ [] _ _ _ _ Hio Hio2).
Qed.

(** *** One list *)

Definition contents : Type := bool -> list (list Z).
Definition setc (b : bool) (cs : list (list Z)) (C : contents) : contents := fun b' => if Bool.eqb b' b then cs else C b'.
Definition sokc e s dc (C : contents) : Prop := sok e s dc (C true) (C false).

Lemma sokc_list e s dc C high : sokc e s dc C -> Forall2 (node_rep (e_mem e)) (get_list high s) (C high).
Proof. intros []. by destruct high. Qed.

Lemma held_list high s : held s ≡ₚ (wb_buffer <$> get_list high s) ++ (wb_buffer <$> get_list (negb high) s) ++ dw_ptr (s_dw s).
Proof. unfold held. destruct high; simpl; [done|]. by rewrite !(assoc (++)), (comm (++) (wb_buffer <$> s_high s)). Qed.

Lemma sokc_size e s dc C high : sokc e s dc C -> s_wb_size s = zlen (concat (C high)) + zlen (concat (C (negb high))).
Proof. intros []. destruct high; simpl; lia. Qed.

(** The other fields. *)
Definition core (s : socket) := (s_type s, s_warn_size s, s_udpconnecting s, s_dw s, (s_size s, s_udp_address s)).

(** [sokc] from the two lists, whichever is which. *)
Lemma sokc_intro high e s dc (C : contents) :
  Forall2 (node_rep (e_mem e)) (get_list high s) (C high) ->
  Forall2 (node_rep (e_mem e)) (get_list (negb high) s) (C (negb high)) ->
  dw_rep (e_soi e) (e_mem e) (s_dw s) dc ->
  NoDup ((wb_buffer <$> get_list high s) ++ (wb_buffer <$> get_list (negb high) s) ++ dw_ptr (s_dw s)) ->
  s_wb_size s = zlen (concat (C high)) + zlen (concat (C (negb high))) -> sokc e s dc C.
Proof.
  intros H1 H2 Hdw Hnd Hsz. rewrite <- held_list in Hnd. destruct high; split; simpl in *; try done. lia.
Qed.

(** The head of a list is sent: it is freed and taken off. *)
Lemma pop_head slot high e s dc C wb next c cs e1 s1 :
  sokc e s dc C -> get_list high s = wb :: next -> C high = c :: cs ->
  e_mem e1 = delete (wb_buffer wb) (e_mem e) -> e_time e1 = e_time e -> e_soi e1 = e_soi e -> e_poll e1 = e_poll e ->
  get_list high s1 = next -> get_list (negb high) s1 = get_list (negb high) s -> s_dw s1 = s_dw s ->
  s_wb_size s1 = s_wb_size s - zlen c ->
  s_fd s1 = s_fd s -> s_id s1 = s_id s -> s_opaque s1 = s_opaque s -> s_protocol s1 = s_protocol s -> s_sending s1 = s_sending s ->
  sokc e1 s1 dc (setc high cs C) /\ frame slot e s e1 s1.
Proof.
  intros Hok Hl Hc Hm Ht Hsoi Hpoll Hl1 Hl2 Hdw1 Hsz Hfd Hid Hop Hpr Hse.
  pose proof (sok_nodup _ _ _ _ _ Hok) as Hnd. rewrite (held_list high) in Hnd. rewrite Hl in Hnd.
  cbn [fmap list_fmap app] in Hnd. apply NoDup_cons in Hnd as [Hni Hnd].
  assert (forall p, p ∈ (wb_buffer <$> next) ++ (wb_buffer <$> get_list (negb high) s) ++ dw_ptr (s_dw s) -> e_mem e1 !! p = e_mem e !! p) as Hkeep.
  { intros p Hp. rewrite Hm. apply lookup_delete_ne. by intros <-. }
  split.
  - apply (sokc_intro high); rewrite ?Hl1, ?Hl2, ?Hdw1, ?Hsoi.
    + pose proof (sokc_list _ _ _ _ high Hok) as Hlist. rewrite Hl, Hc in Hlist. apply Forall2_cons in Hlist as [_ Hlist].
      unfold setc. rewrite Bool.eqb_reflx. eapply nodes_rep_mem; [|exact Hlist]. intros p Hp. apply Hkeep. set_solver.
    + pose proof (sokc_list _ _ _ _ (negb high) Hok) as Hlist. replace (setc high cs C (negb high)) with (C (negb high)) by by destruct high.
      eapply nodes_rep_mem; [|exact Hlist]. intros p Hp. apply Hkeep. set_solver.
    + eapply dw_rep_mem; [|apply Hok]. intros p Hp. apply Hkeep. set_solver.
    + done.
    + rewrite Hsz, (sokc_size _ _ _ _ high Hok), Hc. replace (setc high cs C high) with cs by (unfold setc; by rewrite Bool.eqb_reflx).
      replace (setc high cs C (negb high)) with (C (negb high)) by by destruct high.
      simpl. rewrite zlen_app. lia.
  - assert (held s ≡ₚ wb_buffer wb :: held s1) as Hh.
    { rewrite (held_list high s), (held_list high s1), Hl, Hl1, Hl2, Hdw1. done. }
    split; try done.
    + intros p Hp. rewrite Hm. apply lookup_delete_ne. intros <-. apply Hp. rewrite Hh. by left.
    + intros p Hp Hp1. rewrite Hh in Hp. apply elem_of_cons in Hp as [->|]; [|done]. rewrite Hm. apply lookup_delete_eq.
    + intros p Hp. rewrite Hh. by right.
    + rewrite Hpoll. apply poll_frame_refl.
Qed.

(** Part of the head is sent. *)
Lemma advance_head slot high e s dc C wb next c cs n e1 s1 :
  sokc e s dc C -> get_list high s = wb :: next -> C high = c :: cs -> 0 <= n <= zlen c ->
  e_mem e1 = e_mem e -> e_time e1 = e_time e -> e_soi e1 = e_soi e -> e_poll e1 = e_poll e ->
  get_list high s1 = WBuf (wb_buffer wb) (wb_ptr wb + n) (wb_sz wb - n) (wb_userobject wb) (wb_udp_address wb) :: next ->
  get_list (negb high) s1 = get_list (negb high) s -> s_dw s1 = s_dw s -> s_wb_size s1 = s_wb_size s - n ->
  s_fd s1 = s_fd s -> s_id s1 = s_id s -> s_opaque s1 = s_opaque s -> s_protocol s1 = s_protocol s -> s_sending s1 = s_sending s ->
  sokc e1 s1 dc (setc high (drop (Z.to_nat n) c :: cs) C) /\ frame slot e s e1 s1.
Proof.
  intros Hok Hl Hc Hn Hm Ht Hsoi Hpoll Hl1 Hl2 Hdw1 Hsz Hfd Hid Hop Hpr Hse.
  pose proof (sokc_list _ _ _ _ high Hok) as Hlist. rewrite Hl, Hc in Hlist.
  apply Forall2_cons in Hlist as [(o & Ho & Hu & Hwsz & Hoff & Hd) Hlist]. split.
  - apply (sokc_intro high); rewrite ?Hl1, ?Hl2, ?Hdw1, ?Hsoi, ?Hm.
    + unfold setc. rewrite Bool.eqb_reflx. constructor; [|done]. exists o. cbn [wb_buffer wb_ptr wb_sz wb_userobject].
      split; [done|]. split; [done|]. assert (zlen c = zlen (ob_data o) - (wb_ptr wb - ob_base o)) as Hlc by (rewrite <- Hd, zlen_drop; lia).
      split; [rewrite zlen_drop by lia; lia|]. split; [lia|]. rewrite <- Hd, drop_drop. f_equal. lia.
    + replace (setc high _ C (negb high)) with (C (negb high)) by by destruct high. by apply (sokc_list e s dc).
    + apply Hok.
    + pose proof (sok_nodup _ _ _ _ _ Hok) as Hnd. rewrite (held_list high), Hl in Hnd. done.
    + rewrite Hsz, (sokc_size _ _ _ _ high Hok), Hc. replace (setc high (drop (Z.to_nat n) c :: cs) C high) with (drop (Z.to_nat n) c :: cs) by (unfold setc; by rewrite Bool.eqb_reflx).
      replace (setc high _ C (negb high)) with (C (negb high)) by by destruct high.
      simpl. rewrite !zlen_app, zlen_drop by lia. lia.
  - apply frame_same; try done; [by rewrite Hpoll; apply poll_frame_refl|].
    rewrite (held_list high s1), (held_list high s), Hl1, Hl2, Hl, Hdw1. done.
Qed.

(** *** Sending a list over TCP *)

(** From [l] with contents [cs] the bytes [w] went out: the packages [dn], and a part of
    the next one. *)
Inductive progress : list write_buffer -> list (list Z) -> list Z -> list (list Z) -> list write_buffer -> list (list Z) -> Prop :=
| pr_none l cs : progress l cs [] [] l cs
| pr_part wb wb' l c1 c2 cs : wb_buffer wb' = wb_buffer wb -> wb_ptr wb' = wb_ptr wb + zlen c1 ->
    progress (wb :: l) ((c1 ++ c2) :: cs) c1 [] (wb' :: l) (c2 :: cs)
| pr_full wb l c cs w dn l' cs' : progress l cs w dn l' cs' -> progress (wb :: l) (c :: cs) (c ++ w) (c :: dn) l' cs'.

Lemma progress_bytes l cs w dn l' cs' : progress l cs w dn l' cs' -> concat cs = w ++ concat cs'.
Proof. induction 1 as [|? ? ? ? ? ? ? ?|? ? ? ? ? ? ? ? _ IH]; simpl; [done|by rewrite <- app_assoc|by rewrite IH, <- app_assoc]. Qed.

Definition closed (s : socket) : Prop := s_type s = SOCKET_TYPE_INVALID /\ s_high s = [] /\ s_low s = [] /\ s_dw s = None.
Definition live (s : socket) : Prop := s_type s <> SOCKET_TYPE_INVALID /\ s_type s <> SOCKET_TYPE_RESERVE.
Definition wrote (fd : Z) (w : list Z) e e' : Prop :=
  forall fd', written fd' (e_trace e') = written fd' (e_trace e) ++ (if fd' =? fd then w else []).

Lemma wrote_nil fd e e' : (forall fd', written fd' (e_trace e') = written fd' (e_trace e)) -> wrote fd [] e e'.
Proof. intros Hw fd'. rewrite Hw. by destruct (fd' =? fd); rewrite app_nil_r. Qed.
Lemma wrote_trans fd w1 w2 e1 e2 e3 : wrote fd w1 e1 e2 -> wrote fd w2 e2 e3 -> wrote fd (w1 ++ w2) e1 e3.
Proof. intros H1 H2 fd'. rewrite H2, H1, <- app_assoc. by destruct (fd' =? fd). Qed.

(** The results of sending: still open, or closed. *)
Record shut slot e s e' s' w : Prop := {
  sh_frame : frame slot e s e' s';
  sh_closed : closed s';
  sh_poll : e_poll e' !! s_fd s = None;
  sh_wrote : wrote (s_fd s) w e e'
}.
Record kept slot e s e' s' dc (C : contents) w : Prop := {
  kp_frame : frame slot e s e' s';
  kp_ok : sokc e' s' dc C;
  kp_core : core s' = core s;
  kp_wrote : wrote (s_fd s) w e e'
}.

Lemma closed_close_state s : closed (close_state s).
Proof. done. Qed.

Lemma shut_trans slot e1 s1 e2 s2 e3 s3 dc C w1 w2 :
  kept slot e1 s1 e2 s2 dc C w1 -> shut slot e2 s2 e3 s3 w2 -> shut slot e1 s1 e3 s3 (w1 ++ w2).
Proof.
  intros [] []. split; [by eapply framep_trans|done| |].
  - by rewrite <- (fr_fd kp_frame0).
  - eapply wrote_trans; [done|]. by rewrite <- (fr_fd kp_frame0).
Qed.
Lemma kept_trans slot e1 s1 e2 s2 e3 s3 dc dc' C C' w1 w2 :
  kept slot e1 s1 e2 s2 dc C w1 -> kept slot e2 s2 e3 s3 dc' C' w2 -> kept slot e1 s1 e3 s3 dc' C' (w1 ++ w2).
Proof.
  intros [] []. split; [by eapply framep_trans|done|congruence|].
  eapply wrote_trans; [done|]. by rewrite <- (fr_fd kp_frame0).
Qed.
Lemma kept_refl slot e s dc C : sokc e s dc C -> kept slot e s e s dc C [].
Proof. intros Hok. split; [apply framep_refl|done|done|by apply wrote_nil]. Qed.
Lemma core_live s s' : core s' = core s -> live s -> live s'.
Proof. unfold core, live. by intros [= -> _ _ _ _]. Qed.

Lemma sokc_ext e s dc C C' : C true = C' true -> C false = C' false -> sokc e s dc C -> sokc e s dc C'.
Proof. unfold sokc. by intros -> ->. Qed.
Lemma setc_setc high a b C : forall x, setc high a (setc high b C) x = setc high a C x.
Proof. intros x. unfold setc. by destruct (Bool.eqb x high). Qed.
Lemma setc_eq high a C : setc high a C high = a.
Proof. unfold setc. by rewrite Bool.eqb_reflx. Qed.
Lemma setc_ne high a C : setc high a C (negb high) = C (negb high).
Proof. by destruct high. Qed.
Lemma setc_same high C : forall x, setc high (C high) C x = C x.
Proof. intros x. unfold setc. destruct (Bool.eqb_spec x high) as [->|]; done. Qed.

Lemma stat_write_wp n Q e s : Q tt (e, set_stat (Stat (st_rtime (s_stat s)) (e_time e) (st_read (s_stat s)) (u64 (st_write (s_stat s) + n))) s) ->
  wp (stat_write n) Q (e, s).
Proof. done. Qed.

Lemma tcp_loop_wp slot high l : forall e s dc C (Q : option message -> SE K -> Prop),
  sokc e s dc C -> get_list high s = l -> live s ->
  (forall e' s' w dn cs', kept slot e s e' s' dc (setc high cs' C) w ->
     get_list (negb high) s' = get_list (negb high) s -> progress l (C high) w dn (get_list high s') cs' -> Q None (e', s')) ->
  (forall e' s' w lost, shut slot e s e' s' w -> concat (C high) = w ++ lost ->
     Q (Some (Message SOCKET_CLOSE (s_id s) (s_opaque s) 0 DNull)) (e', s')) ->
  wp (tcp_loop high l) Q (e, s).
Proof.
  induction l as [|wb next IH]; intros e s dc C Q Hok Hl Hlive Hnone Hclose; cbn [tcp_loop].
  { apply wp_ret. apply (Hnone e s [] [] (C high)); [|done|rewrite Hl; constructor].
    apply kept_refl. eapply sokc_ext; [..|exact Hok]; by rewrite setc_same. }
  pose proof (sokc_list _ _ _ _ high Hok) as Hlist. rewrite Hl in Hlist.
  destruct (C high) as [|c cs] eqn:HC; [by inversion Hlist|]. apply Forall2_cons in Hlist as [Hrep Hlist].
  rewrite wp_bind. apply wp_get. rewrite wp_bind. apply wp_on_env. eapply wp_bytes_of; [exact Hrep|].
  rewrite wp_bind. apply wp_on_env. pose proof (zlen_nonneg c).
  assert (wb_sz wb = zlen c) as Hsz by (by destruct Hrep as (o & _ & _ & ? & _)).
  apply wp_write_retry; [apply write_patience| |].
  - intros err e1 Herr [Hm1 Hp1 Ht1 Hs1 Hw1].
    assert (sokc e1 s dc C) as Hok1.
    { destruct Hok as [Hk1 Hk2 Hk3 Hk4 Hk5]. split; by rewrite ?Hm1, ?Hs1. }
    assert (frame slot e s e1 s) as Hf1 by (apply frame_same; try done; rewrite Hp1; apply poll_frame_refl).
    destruct err; [done| | |].
    + apply wp_ret. apply (Hnone e1 s [] [] (C high)); [|done|rewrite HC, Hl; constructor].
      split; [done| |done|exact Hw1]. eapply sokc_ext; [..|exact Hok1]; by rewrite setc_same.
    + rewrite wp_bind. eapply (force_close_wp slot); [exact Hok1|apply Hlive..|]. intros e2 Hf2 Hp2 Hw2. apply wp_ret.
      apply (Hclose e2 _ [] (concat (c :: cs))); [|done]. split; [by eapply framep_trans|done|done|].
      apply wrote_nil. intros fd'. rewrite Hw2, Hw1. by destruct (fd' =? s_fd s); rewrite app_nil_r.
    + rewrite wp_bind. eapply (force_close_wp slot); [exact Hok1|apply Hlive..|]. intros e2 Hf2 Hp2 Hw2. apply wp_ret.
      apply (Hclose e2 _ [] (concat (c :: cs))); [|done]. split; [by eapply framep_trans|done|done|].
      apply wrote_nil. intros fd'. rewrite Hw2, Hw1. by destruct (fd' =? s_fd s); rewrite app_nil_r.
  - intros n e1 Hn [Hm1 Hp1 Ht1 Hs1 Hw1]. rewrite wp_bind. apply stat_write_wp. rewrite wp_bind. apply wp_upd.
    set (s1 := set_wb_size _ _). rewrite Hsz. destruct (Z.eqb_spec n (zlen c)) as [->|Hne]; cbn [negb].
    + (* the whole package *)
      rewrite wp_bind. apply wp_upd. rewrite wp_bind. apply wp_on_env.
      destruct Hrep as (o & Ho & Hu & _). eapply wp_free_block; [by rewrite Hm1|exact Hu|].
      set (e2 := set_mem _ e1).
      destruct (pop_head slot high e s dc C wb next c cs e2 (set_list high next s1)) as [Hok2 Hf2]; try done;
        try (by destruct high); [unfold e2; cbn; by rewrite Hm1|].
      assert (kept slot e s e2 (set_list high next s1) dc (setc high cs C) c) as Hk.
      { split; [done|done|by destruct high|]. intros fd'. change (e_trace e2) with (e_trace e1). rewrite Hw1.
        by rewrite take_ge by (unfold zlen; lia). }
      apply (IH e2 _ dc (setc high cs C)); [done|by destruct high| |..].
      * by eapply core_live; [apply Hk|].
      * intros e3 s3 w dn cs' Hk3 Hot Hpr. apply (Hnone e3 s3 (c ++ w) (c :: dn) cs'); [|rewrite Hot; by destruct high|].
        -- eapply kept_trans; [exact Hk|]. destruct Hk3 as [Hka Hkb Hkc Hkd]. split; [done| |done|done].
           eapply sokc_ext; [..|exact Hkb]; by rewrite setc_setc.
        -- rewrite setc_eq in Hpr. by constructor.
      * intros e3 s3 w lost Hsh Hlost. rewrite setc_eq in Hlost.
        replace (s_id (set_list high next s1)) with (s_id s) by by destruct high.
        replace (s_opaque (set_list high next s1)) with (s_opaque s) by by destruct high.
        apply (Hclose e3 s3 (c ++ w) lost); [by eapply shut_trans|]. simpl. by rewrite Hlost, <- app_assoc.
    + (* a part *)
      rewrite wp_bind. apply wp_upd. apply wp_ret.
      set (wb' := WBuf _ _ _ _ _).
      destruct (advance_head slot high e s dc C wb next c cs n e1 (set_list high (wb' :: next) s1)) as [Hok2 Hf2];
        try done; try (by destruct high); [by unfold wb'; rewrite Hsz; destruct high|].
      apply (Hnone e1 _ (take (Z.to_nat n) c) [] (drop (Z.to_nat n) c :: cs)); [|by destruct high|].
      * split; [done|done|by destruct high|exact Hw1].
      * rewrite <- (take_drop (Z.to_nat n) c) at 1.
        replace (get_list high (set_list high (wb' :: next) s1)) with (wb' :: next) by by destruct high.
        constructor; [done|]. cbn [wb' wb_ptr]. by rewrite zlen_take by lia.
Qed.

(** *** Sending a list over UDP *)

Lemma wp_do_sendto fd fd0 bytes sa Q e :
  (forall r e', io fd0 [] e e' -> match r with inr n => 0 <= n <= zlen bytes | inl _ => True end -> Q r e') ->
  wp (do_sendto fd bytes sa) Q e.
Proof.
  intros HQ. unfold do_sendto. rewrite wp_bind. apply wp_syscall.
  destruct (sys_sendto fd bytes sa (e_k e)) as [[err|n] k] eqn:Hr; cbn [fst snd].
  - apply wp_ret. apply HQ; [|done]. split; try done. intros fd'. by destruct (fd' =? fd0); rewrite app_nil_r.
  - rewrite wp_bind, wp_modify. apply wp_ret. apply HQ; [|apply (sendto_range fd bytes sa (e_k e)); by rewrite Hr].
    split; try done. intros fd'. cbn [e_trace add_trace set_k]. rewrite written_app. f_equal. simpl.
    by destruct (fd' =? fd0).
Qed.

Lemma sokc_io e e1 s dc C fd w : io fd w e e1 -> sokc e s dc C -> sokc e1 s dc C.
Proof. intros [Hm _ _ Hs _] [Hk1 Hk2 Hk3 Hk4 Hk5]. split; by rewrite ?Hm, ?Hs. Qed.
Lemma frame_io slot e e1 s fd w : io fd w e e1 -> frame slot e s e1 s.
Proof. intros []. apply frame_same; try done. rewrite io_poll0. apply poll_frame_refl. Qed.

(** Taking the head off, when it is sent or dropped. *)
Lemma pop_kept slot high e s dc C wb next c cs e1 s1 :
  sokc e s dc C -> get_list high s = wb :: next -> C high = c :: cs -> io (s_fd s) [] e e1 ->
  get_list high s1 = next -> get_list (negb high) s1 = get_list (negb high) s ->
  s_wb_size s1 = s_wb_size s - zlen c -> core s1 = core s ->
  s_fd s1 = s_fd s -> s_id s1 = s_id s -> s_opaque s1 = s_opaque s -> s_protocol s1 = s_protocol s -> s_sending s1 = s_sending s ->
  kept slot e s (set_mem (delete (wb_buffer wb) (e_mem e1)) e1) s1 dc (setc high cs C) [].
Proof.
  intros Hok Hl HC [Hm Hp Ht Hs Hw] Hl1 Hl2 Hsz Hcore Hfd Hid Hop Hpr Hse.
  assert (s_dw s1 = s_dw s) as Hdw by (unfold core in Hcore; congruence).
  assert (e_mem (set_mem (delete (wb_buffer wb) (e_mem e1)) e1) = delete (wb_buffer wb) (e_mem e)) as Hm2 by (cbn; by rewrite Hm).
  pose proof (pop_head slot high e s dc C wb next c cs _ s1 Hok Hl HC Hm2 Ht Hs Hp Hl1 Hl2 Hdw Hsz Hfd Hid Hop Hpr Hse) as [Hok2 Hf2].
  split; try done.
Qed.

Lemma udp_loop_wp slot high l : forall e s dc C (Q : option message -> SE K -> Prop),
  sokc e s dc C -> get_list high s = l ->
  (forall e' s' k cs', kept slot e s e' s' dc (setc high cs' C) [] ->
     get_list (negb high) s' = get_list (negb high) s -> get_list high s' = drop k l -> Q None (e', s')) ->
  wp (udp_loop high l) Q (e, s).
Proof.
  induction l as [|wb next IH]; intros e s dc C Q Hok Hl Hnone; cbn [udp_loop].
  { apply wp_ret. apply (Hnone e s 0%nat (C high)); [|done|by rewrite Hl].
    apply kept_refl. eapply sokc_ext; [..|exact Hok]; by rewrite setc_same. }
  pose proof (sokc_list _ _ _ _ high Hok) as Hlist. rewrite Hl in Hlist.
  destruct (C high) as [|c cs] eqn:HC; [by inversion Hlist|]. apply Forall2_cons in Hlist as [Hrep Hlist].
  assert (wb_sz wb = zlen c) as Hsz by (by destruct Hrep as (o & _ & _ & ? & _)).
  assert (forall e1, io (s_fd s) [] e e1 -> wp (drop_udp high wb next ;;; ret None) Q (e1, s)) as Hdrop.
  { intros e1 Hio. unfold drop_udp. rewrite !wp_bind. apply wp_upd. rewrite wp_bind. apply wp_upd. apply wp_on_env.
    destruct Hrep as (o & Ho & Hu & _). eapply wp_free_block; [rewrite (io_mem _ _ _ _ Hio); exact Ho|exact Hu|].
    apply wp_ret. eapply (Hnone _ _ 1%nat cs); [|by destruct high|by destruct high].
    eapply pop_kept; try done; try (by destruct high). by destruct high; simpl; rewrite Hsz. }
  rewrite wp_bind. apply wp_get. destruct (udp_socket_address s (wb_udp_address wb)) as [sa|].
  2: { apply Hdrop, io_refl. }
  rewrite wp_bind. apply wp_get. rewrite wp_bind. apply wp_on_env. eapply wp_bytes_of; [exact Hrep|].
  rewrite wp_bind. apply wp_on_env. apply (wp_do_sendto _ (s_fd s)). intros r e1 Hio Hn.
  assert (Q None (e1, s)) as Hlater.
  { apply (Hnone e1 s 0%nat (C high)); [|done|by rewrite Hl]. split; [by eapply frame_io| |done|].
    - eapply sokc_ext; [..|eapply sokc_io; [exact Hio|exact Hok]]; by rewrite setc_same.
    - apply wrote_nil. intros fd'. rewrite (io_written _ _ _ _ Hio). by destruct (fd' =? s_fd s); rewrite app_nil_r. }
  destruct r as [[| | |]|n]; [by apply wp_ret|by apply wp_ret|by apply Hdrop|by apply Hdrop|].
  rewrite wp_bind. apply stat_write_wp. rewrite wp_bind. apply wp_upd. rewrite wp_bind. apply wp_upd.
  rewrite wp_bind. apply wp_on_env.
  destruct Hrep as (o & Ho & Hu & _). eapply wp_free_block; [rewrite (io_mem _ _ _ _ Hio); exact Ho|exact Hu|].
  match goal with |- wp _ _ (?e2, ?s2) => assert (kept slot e s e2 s2 dc (setc high cs C) []) as Hk end.
  { eapply pop_kept; try done; try (by destruct high). by destruct high; simpl; rewrite Hsz. }
  eapply (IH _ _ dc (setc high cs C)); [apply Hk|by destruct high|].
  intros e3 s3 k cs' Hk3 Hot Hdr. apply (Hnone e3 s3 (S k) cs'); [|rewrite Hot; by destruct high|done].
  eapply kept_trans with (w1 := []) (w2 := []); [exact Hk|]. destruct Hk3 as [Hka Hkb Hkc Hkd]. split; [done| |done|done].
  eapply sokc_ext; [..|exact Hkb]; by rewrite setc_setc.
Qed.

(** *** The whole buffer *)

Lemma wp_sp_write fd slot b Q e : Q tt (set_poll (alter (fun _ => (slot, b)) fd (e_poll e)) e) -> wp (sp_write fd slot b) Q e.
Proof. done. Qed.

(** What [send_buffer] may do: go on with some bytes gone, or close. *)
Definition flushed slot e s w dc' C' e' s' : Prop :=
  frame slot e s e' s' /\ sokc e' s' dc' C' /\ Forall complete (s_low s') /\ wrote (s_fd s) w e e' /\
  s_type s' = s_type s /\ s_udpconnecting s' = s_udpconnecting s /\ s_udp_address s' = s_udp_address s /\ s_size s' = s_size s.

(** The packages that are partly or wholly on their way: those of the high list and the
    direct write before, some of the low list behind. *)
Definition split_low (hc lc : list (list Z)) w hc' lc' : Prop :=
  exists dn, lc = dn ++ lc' /\ concat hc ++ concat dn = w ++ concat hc'.

Lemma is_empty_true {A} (l : list A) : is_empty l = true <-> l = [].
Proof. by destruct l. Qed.

Lemma progress_cases l cs w dn l' cs' : progress l cs w dn l' cs' -> Forall complete l ->
  (exists dn', cs = dn' ++ cs' /\ w = concat dn' /\ Forall complete l') \/
  (exists wb lr c1 c2 cr dn', l' = wb :: lr /\ list_uncomplete l' = true /\ Forall complete lr /\ cs' = c2 :: cr /\
     cs = dn' ++ (c1 ++ c2) :: cr /\ w = concat dn' ++ c1).
Proof.
  induction 1 as [l cs|wb wb' l c1 c2 cs Hb Hp|wb l c cs w dn l' cs' Hpr IH]; intros Hc.
  - left. exists []. done.
  - apply Forall_cons in Hc as [Hwb Hc]. unfold complete in Hwb. destruct (decide (c1 = [])) as [->|Hne].
    + left. exists []. split; [done|]. split; [done|]. constructor; [|done]. unfold complete. rewrite Hb, Hp, zlen_nil. lia.
    + right. exists wb', l, c1, c2, cs, []. split; [done|]. split; [|done]. simpl. apply negb_true_iff, Z.eqb_neq.
      destruct c1 as [|x c1]; [done|]. rewrite Hb, Hp, Hwb, zlen_cons. pose proof (zlen_nonneg c1). lia.
  - apply Forall_cons in Hc as [Hwb Hc]. destruct (IH Hc) as [(dn' & -> & -> & Hl)|(wb1 & lr & c1 & c2 & cr & dn' & -> & Hu & Hlr & -> & -> & ->)].
    + left. by exists (c :: dn').
    + right. exists wb1, lr, c1, c2, cr, (c :: dn'). simpl. rewrite <- app_assoc. done.
Qed.

Lemma send_list_wp slot high e s dc C (Q : option message -> SE K -> Prop) :
  sokc e s dc C -> live s ->
  (forall e' s' w cs', kept slot e s e' s' dc (setc high cs' C) w ->
     get_list (negb high) s' = get_list (negb high) s ->
     (s_protocol s = PROTOCOL_TCP -> exists dn, progress (get_list high s) (C high) w dn (get_list high s') cs') ->
     (s_protocol s <> PROTOCOL_TCP -> exists k, get_list high s' = drop k (get_list high s)) -> Q None (e', s')) ->
  (forall e' s' w lost, shut slot e s e' s' w -> s_protocol s = PROTOCOL_TCP -> concat (C high) = w ++ lost ->
     Q (Some (Message SOCKET_CLOSE (s_id s) (s_opaque s) 0 DNull)) (e', s')) ->
  wp (send_list high) Q (e, s).
Proof.
  intros Hok Hlive Hnone Hclose. unfold send_list. rewrite wp_bind. apply wp_get.
  destruct (Z.eqb_spec (s_protocol s) PROTOCOL_TCP) as [Htcp|Htcp].
  - unfold send_list_tcp. rewrite wp_bind. apply wp_get. apply (tcp_loop_wp slot high _ e s dc C); try done.
    + intros e' s' w dn cs' Hk Ho Hp. apply (Hnone e' s' w cs'); [done|done|by exists dn|done].
    + intros e' s' w lost Hsh Hl. by apply (Hclose e' s' w lost).
  - unfold send_list_udp. rewrite wp_bind. apply wp_get. apply (udp_loop_wp slot high _ e s dc C); try done.
    intros e' s' k cs' Hk Ho Hd. apply (Hnone e' s' [] cs'); [done|done|done|by exists k].
Qed.

(** A kept socket may give its state on. *)
Definition settled slot e s e' s' dc (C : contents) w : Prop :=
  frame slot e s e' s' /\ sokc e' s' dc C /\ Forall complete (s_low s') /\ wrote (s_fd s) w e e' /\
  s_type s' = s_type s /\ s_udpconnecting s' = s_udpconnecting s /\ s_dw s' = s_dw s.

Lemma kept_settled slot e s e' s' dc C w : kept slot e s e' s' dc C w -> Forall complete (s_low s') -> settled slot e s e' s' dc C w.
Proof. intros [Hf Hk Hc Hw] Hcl. unfold core in Hc. injection Hc as Ht _ Hu Hd _ _. by repeat split; try apply Hf; try apply Hk. Qed.

Lemma settled_trans slot e1 s1 e2 s2 e3 s3 dc dc' C C' w1 w2 :
  kept slot e1 s1 e2 s2 dc C w1 -> settled slot e2 s2 e3 s3 dc' C' w2 -> settled slot e1 s1 e3 s3 dc' C' (w1 ++ w2).
Proof.
  intros [Hf Hk Hc Hw] (Hf2 & Hk2 & Hcl & Hw2 & Ht & Hu & Hd). unfold core in Hc. injection Hc as Ht1 _ Hu1 Hd1 _ _.
  split; [by eapply framep_trans|]. split; [done|]. split; [done|].
  split; [eapply wrote_trans; [done|]; by rewrite <- (fr_fd Hf)|]. split_and!; congruence.
Qed.

Definition warning_of (s : socket) (r : option message) : Prop :=
  match r with Some m => m_type m = SOCKET_WARNING /\ m_id m = s_id s | None => True end.

Lemma all_sent_wp slot e s dc C (Q : option message -> SE K -> Prop) :
  sokc e s dc C -> live s -> s_high s = [] -> s_low s = [] ->
  (forall r e' s', settled slot e s e' s' dc C [] -> warning_of s r -> s_high s' = [] -> s_low s' = [] -> Q r (e', s')) ->
  (forall e' s', shut slot e s e' s' [] -> Q (Some (Message SOCKET_CLOSE (s_id s) (s_opaque s) 0 DNull)) (e', s')) ->
  wp (all_sent slot) Q (e, s).
Proof.
  intros Hok Hlive Hh Hl Hret Hclose. unfold all_sent. rewrite wp_bind. apply wp_get. rewrite wp_bind. apply wp_assert.
  { apply andb_true_iff. split; [unfold send_buffer_empty; by rewrite Hh, Hl|]. apply Z.eqb_eq.
    pose proof (sok_high _ _ _ _ _ Hok) as H1. pose proof (sok_low _ _ _ _ _ Hok) as H2. rewrite Hh in H1. rewrite Hl in H2.
    apply Forall2_nil_inv_l in H1. apply Forall2_nil_inv_l in H2. rewrite (sok_size _ _ _ _ _ Hok), H1, H2. done. }
  rewrite wp_bind. apply wp_get. rewrite wp_bind. apply wp_on_env, wp_sp_write.
  rewrite wp_bind. apply wp_get. rewrite wp_bind. apply wp_get.
  set (e1 := set_poll _ e).
  assert (frame slot e s e1 s) as Hf1 by (apply frame_same; try done; apply poll_frame_alter).
  assert (sokc e1 s dc C) as Hok1 by (destruct Hok; by split).
  destruct (Z.eqb_spec (s_type s) SOCKET_TYPE_HALFCLOSE).
  - rewrite wp_bind. eapply (force_close_wp slot); [exact Hok1|apply Hlive..|]. intros e2 Hf2 Hp2 Hw2. apply wp_ret.
    apply Hclose. split; [by eapply framep_trans|done|done|]. apply wrote_nil. intros fd'. by rewrite Hw2.
  - destruct (0 <? s_warn_size s).
    + rewrite wp_bind. apply wp_upd. apply wp_get.
      apply (Hret (Some (Message SOCKET_WARNING (s_id s) (s_opaque s) 0 DNull)) e1 (set_warn_size 0 s)); [|done|done|done].
      split; [eapply framep_trans; [exact Hf1|]; apply frame_same; try done; apply poll_frame_refl|]. split; [by destruct Hok1; split|].
      split; [change (Forall complete (s_low s)); by rewrite Hl|]. split; [by apply wrote_nil|]. done.
    + apply wp_ret. apply (Hret None e1 s); [|done|done|done].
      split; [done|]. split; [done|]. split; [by rewrite Hl|]. split; [by apply wrote_nil|]. done.
Qed.

(** The bytes [w] that went out, the whole packages [dn] of the low list that are sent
    or moved to the high list. *)
Definition flows (s : socket) dc (C : contents) w dc' (C' : contents) : Prop :=
  s_protocol s = PROTOCOL_TCP ->
  exists dn, C false = dn ++ C' false /\ dc ++ concat (C true) ++ concat dn = w ++ dc' ++ concat (C' true).

Lemma send_buffer__wp slot e s C (Q : option message -> SE K -> Prop) :
  sokc e s [] C -> s_dw s = None -> Forall complete (s_low s) -> live s ->
  (forall r e' s' w C', settled slot e s e' s' [] C' w -> warning_of s r -> flows s [] C w [] C' -> Q r (e', s')) ->
  (forall e' s' w lost, shut slot e s e' s' w -> (s_protocol s = PROTOCOL_TCP -> concat (C true) ++ concat (C false) = w ++ lost) ->
     Q (Some (Message SOCKET_CLOSE (s_id s) (s_opaque s) 0 DNull)) (e', s')) ->
  wp (send_buffer_ slot) Q (e, s).
Proof.
  intros Hok Hdw Hcomp Hlive Hret Hclose. unfold send_buffer_. rewrite wp_bind. apply wp_get. rewrite wp_bind. apply wp_assert.
  { destruct Hcomp as [|wb l Hwb Hl]; [done|]. simpl. rewrite Hwb, Z.eqb_refl. done. }
  rewrite wp_bind. apply (send_list_wp slot true e s [] C); try done.
  2: { intros e1 s1 w lost Hsh Htcp Hl. cbn [is_close m_type Z.eqb Pos.eqb]. apply wp_ret.
       apply (Hclose e1 s1 w (lost ++ concat (C false))); [done|]. intros _. by rewrite Hl, <- app_assoc. }
  intros e1 s1 w1 cs1 Hk1 Hlow1 Hp1 Hd1. cbn [is_close]. cbn [get_list negb] in Hlow1, Hp1, Hd1.
  pose proof Hk1 as [Hf1 Hok1 Hc1 Hw1]. rewrite wp_bind. apply wp_get.
  assert (s_protocol s = PROTOCOL_TCP -> concat (C true) = w1 ++ concat cs1) as Hb1.
  { intros Ht. destruct (Hp1 Ht) as [dn Hp]. by eapply progress_bytes. }
  destruct (is_empty (s_high s1)) eqn:He1; cbn [negb].
  2: { apply wp_ret. apply (Hret None e1 s1 w1 (setc true cs1 C)); [|done|].
       - apply kept_settled; [done|by rewrite Hlow1].
       - intros Ht. exists []. split; [done|]. cbn. rewrite app_nil_r. by apply Hb1. }
  apply is_empty_true in He1. assert (cs1 = []) as ->.
  { pose proof (sok_high _ _ _ _ _ Hok1) as Hh. rewrite He1 in Hh. by apply Forall2_nil_inv_l in Hh. }
  assert (live s1) as Hlive1 by (by eapply core_live).
  assert (s_id s1 = s_id s /\ s_opaque s1 = s_opaque s /\ s_protocol s1 = s_protocol s) as (Hid1 & Hop1 & Hpr1) by (split_and!; apply Hf1).
  rewrite wp_bind. apply wp_get. destruct (is_empty (s_low s1)) eqn:Hel.
  { apply is_empty_true in Hel. apply (all_sent_wp slot e1 s1 [] (setc true [] C)); try done.
    - intros r e2 s2 Hs2 Hr Hh2 Hl2. apply (Hret r e2 s2 w1 (setc true [] C)).
      + rewrite <- (app_nil_r w1). by eapply settled_trans.
      + destruct r; [|done]. destruct Hr as [Hr1 Hr2]. split; [done|congruence].
      + intros Ht. exists []. split; [done|]. cbn. rewrite app_nil_r. by apply Hb1.
    - intros e2 s2 Hsh. rewrite Hid1, Hop1. apply (Hclose e2 s2 w1 (concat (C false))).
      + rewrite <- (app_nil_r w1). by eapply shut_trans.
      + intros Ht. by rewrite (Hb1 Ht), app_nil_r. }
  rewrite wp_bind. apply (send_list_wp slot false e1 s1 [] (setc true [] C)); try done.
  2: { intros e2 s2 w2 lost Hsh Htcp Hl. cbn [is_close m_type Z.eqb Pos.eqb]. apply wp_ret. rewrite Hid1, Hop1.
       apply (Hclose e2 s2 (w1 ++ w2) lost); [by eapply shut_trans|]. intros Ht. change (setc true [] C false) with (C false) in Hl.
       by rewrite (Hb1 Ht), Hl, app_nil_r, <- app_assoc. }
  intros e2 s2 w2 cs2 Hk2 Hhigh2 Hp2 Hd2. cbn [is_close]. cbn [get_list negb] in Hhigh2, Hp2, Hd2. rewrite Hlow1 in Hp2, Hd2.
  pose proof (kept_trans _ _ _ _ _ _ _ _ _ _ _ _ _ Hk1 Hk2) as Hk12. pose proof Hk12 as [Hf12 Hok12 Hc12 Hw12].
  assert (sokc e2 s2 [] (setc false cs2 (setc true [] C))) as Hok2 by done.
  rewrite wp_bind. apply wp_get.
  change (setc true [] C false) with (C false) in Hp2. rewrite Hpr1 in Hp2, Hd2.
  (* what is left in the low list *)
  assert ((Forall complete (s_low s2) /\ (s_protocol s = PROTOCOL_TCP -> exists dn, C false = dn ++ cs2 /\ w2 = concat dn)) \/
          (s_protocol s = PROTOCOL_TCP /\ exists wb lr c1 c2 cr dn', s_low s2 = wb :: lr /\ list_uncomplete (s_low s2) = true /\
             Forall complete lr /\ cs2 = c2 :: cr /\ C false = dn' ++ (c1 ++ c2) :: cr /\ w2 = concat dn' ++ c1)) as Hcases.
  { destruct (decide (s_protocol s = PROTOCOL_TCP)) as [Ht|Ht].
    - destruct (Hp2 Ht) as [dn Hp]. destruct (progress_cases _ _ _ _ _ _ Hp Hcomp) as [(dn' & Hcs & Hw & Hl)|Hpart]; [left|by right].
      split; [done|]. by exists dn'.
    - left. destruct (Hd2 Ht) as [k ->]. split; [by apply Forall_drop|done]. }
  destruct Hcases as [[Hcl Hdn]|(Ht & wb & lr & c1 & c2 & cr & dn' & Hl2 & Hu & Hlr & -> & HCf & ->)].
  - assert (list_uncomplete (s_low s2) = false) as ->.
    { destruct Hcl as [|wb l Hwb Hl]; [done|]. simpl. by rewrite Hwb, Z.eqb_refl. }
    assert (flows s [] C (w1 ++ w2) [] (setc false cs2 (setc true [] C))) as Hfl.
    { intros Ht. destruct (Hdn Ht) as (dn & HCf & ->). exists dn. split; [done|]. cbn. rewrite (Hb1 Ht). cbn. by rewrite !app_nil_r. }
    destruct (is_empty (s_low s2)) eqn:Hel2; cbn [negb].
    + apply is_empty_true in Hel2. apply (all_sent_wp slot e2 s2 [] (setc false cs2 (setc true [] C))); try done.
      * by eapply core_live.
      * by rewrite Hhigh2.
      * intros r e3 s3 Hs3 Hr Hh3 Hl3. apply (Hret r e3 s3 (w1 ++ w2) (setc false cs2 (setc true [] C))); [|by destruct r; [destruct Hr as [Hr1 Hr2]; split; [done|rewrite Hr2; apply Hf12]|]|done].
        rewrite <- (app_nil_r (w1 ++ w2)). by eapply settled_trans.
      * intros e3 s3 Hsh. rewrite (fr_id Hf12), (fr_opaque Hf12).
        apply (Hclose e3 s3 (w1 ++ w2) (concat cs2)); [rewrite <- (app_nil_r (w1 ++ w2)); by eapply shut_trans|].
        intros Ht. destruct (Hfl Ht) as (dn & HCf & Hb). rewrite HCf. change (setc false cs2 (setc true [] C) false) with cs2.
        rewrite concat_app, (assoc (++)). f_equal. cbn in Hb. by rewrite app_nil_r in Hb.
    + apply wp_ret. by apply (Hret None e2 s2 (w1 ++ w2) (setc false cs2 (setc true [] C))); [apply kept_settled|..].
  - rewrite Hu. unfold raise_uncomplete. rewrite !wp_bind. apply wp_get. rewrite wp_bind. eapply wp_lift; [by rewrite Hl2|].
    cbn beta iota. rewrite wp_bind. apply wp_upd. rewrite wp_bind. apply wp_get. rewrite wp_bind.
    apply wp_assert; [cbn; by rewrite Hhigh2, He1|]. apply wp_upd. apply wp_ret.
    assert (s_high s2 = []) as Hh2 by (by rewrite Hhigh2).
    apply (Hret None e2 _ (w1 ++ concat dn' ++ c1) (setc false cr (setc true [c2] C))); [|done|].
    + assert (held (set_high [wb] (set_low lr s2)) ≡ₚ held s2) as Hheld.
      { unfold held. cbn. rewrite Hl2, Hh2. done. }
      split_and!; try done.
      * eapply framep_trans; [exact Hf12|]. apply frame_same; try done. apply poll_frame_refl.
      * destruct Hok2 as [Ha Hb Hcc Hd Hee]. cbn in Ha, Hb, Hee. rewrite Hl2 in Hb. apply Forall2_cons in Hb as [Hb1' Hb2'].
        split; cbn; [by repeat constructor|done|done|by rewrite Hheld|]. rewrite Hee. rewrite !zlen_app. simpl. lia.
      * unfold core in Hc12. injection Hc12 as Ha _ _ _ _ _. exact Ha.
      * unfold core in Hc12. injection Hc12 as _ _ Ha _ _ _. exact Ha.
      * unfold core in Hc12. injection Hc12 as _ _ _ Ha _ _. exact Ha.
    + intros _. exists (dn' ++ [c1 ++ c2]). split; [cbn; by rewrite HCf, <- app_assoc|]. cbn. rewrite (Hb1 Ht). cbn.
      rewrite concat_app. cbn. by rewrite !app_nil_r, <- !app_assoc.
Qed.

(** *** [send_buffer] *)

Lemma take_dw_wp slot e s dc C (Q : unit -> SE K -> Prop) :
  sokc e s dc C ->
  (forall s' C', frame slot e s e s' -> sokc e s' [] C' -> s_dw s' = None -> s_low s' = s_low s -> s_type s' = s_type s ->
     C' false = C false -> concat (C' true) = dc ++ concat (C true) -> Q tt (e, s')) ->
  wp take_dw Q (e, s).
Proof.
  intros Hok HQ. unfold take_dw. rewrite wp_bind. apply wp_get. pose proof (sok_dw _ _ _ _ _ Hok) as Hdw.
  destruct (s_dw s) as [[[b sz] off]|] eqn:Hs.
  2: { simpl in Hdw. subst dc. apply wp_ret. apply (HQ s C); try done. apply framep_refl. }
  destruct Hdw as (o & Ho & Hpk & Hoff & Hdc). rewrite wp_bind. apply wp_on_env.
  eapply wp_send_object_init; [exact Ho|exact Hpk|]. cbn [so_buffer so_sz so_user]. apply wp_upd.
  set (buf := WBuf b (ob_base o + off) (zlen (ob_data o) - off) (ob_user o) []).
  assert (held (set_dw None (set_high (buf :: s_high s) (set_wb_size (s_wb_size s + wb_sz buf) s))) ≡ₚ held s) as Hheld.
  { unfold held. cbn. rewrite Hs. cbn. rewrite app_nil_r, (assoc (++)). by rewrite <- Permutation_cons_append. }
  assert (zlen dc = zlen (ob_data o) - off) as Hlen by (rewrite <- Hdc, zlen_drop; lia).
  apply (HQ _ (setc true (dc :: C true) C)); try done.
  - apply frame_same; try done. apply poll_frame_refl.
  - destruct Hok as [H1 H2 H3 H4 H5]. split; cbn.
    + constructor; [|done]. exists o. cbn. split; [done|]. split; [done|]. split; [lia|]. split; [lia|].
      rewrite <- Hdc. f_equal. lia.
    + done.
    + done.
    + revert H4. by rewrite <- Hheld.
    + rewrite H5, zlen_app. lia.
Qed.

(** What an operation leaves when it does not close the socket. *)
Definition fine slot ps e s e' s' dc (C : contents) w : Prop :=
  framep slot ps e s e' s' /\ sokc e' s' dc C /\ Forall complete (s_low s') /\ wrote (s_fd s) w e e' /\ s_type s' = s_type s.

Lemma send_buffer_wp slot e s dc C (Q : option message -> SE K -> Prop) :
  sokc e s dc C -> Forall complete (s_low s) -> live s ->
  (forall r e' s' w dc' C', fine slot (held s) e s e' s' dc' C' w -> warning_of s r -> flows s dc C w dc' C' -> Q r (e', s')) ->
  (forall e' s' w lost, shut slot e s e' s' w ->
     (s_protocol s = PROTOCOL_TCP -> dc ++ concat (C true) ++ concat (C false) = w ++ lost) ->
     Q (Some (Message SOCKET_CLOSE (s_id s) (s_opaque s) 0 DNull)) (e', s')) ->
  wp (send_buffer slot) Q (e, s).
Proof.
  intros Hok Hcomp Hlive Hret Hclose. unfold send_buffer. rewrite wp_bind. apply wp_on_env, wp_syscall.
  destruct (sys_locked (e_k e)) as [[] k]; cbn [fst snd]; set (e1 := set_k k e).
  { apply wp_ret. apply (Hret None e1 s [] dc C); [|done|].
    - split; [by apply frame_same; try done; apply poll_frame_refl|]. split; [by destruct Hok; split|].
      split; [done|]. split; [by apply wrote_nil|done].
    - intros _. exists []. by rewrite app_nil_r. }
  rewrite wp_bind. apply (take_dw_wp slot e1 s dc C); [by destruct Hok; split|].
  intros s1 C1 Hf1 Hok1 Hdw1 Hlow1 Ht1 HCf HCt. assert (live s1) as Hlive1 by (unfold live; by rewrite Ht1).
  assert (frame slot e s e1 s) as Hf0 by (apply frame_same; try done; apply poll_frame_refl).
  assert (frame slot e s e1 s1) as Hf01 by (by eapply framep_trans).
  apply (send_buffer__wp slot e1 s1 C1); try done; [by rewrite Hlow1| |].
  - intros r e2 s2 w C2 (Hf2 & Hok2 & Hc2 & Hw2 & Ht2 & _ & _) Hr Hfl. apply (Hret r e2 s2 w [] C2).
    + split; [by eapply framep_trans|]. split; [done|]. split; [done|]. split; [|congruence].
      rewrite (fr_fd Hf01) in Hw2. intros fd'. by rewrite Hw2.
    + destruct r; [|done]. destruct Hr as [Hr1 Hr2]. split; [done|]. by rewrite Hr2, (fr_id Hf01).
    + intros Ht. destruct Hfl as (dn & Hdn & Hb); [by rewrite (fr_protocol Hf01)|]. exists dn. rewrite HCf, HCt in *.
      split; [done|]. cbn [app] in *. by rewrite <- (assoc (++)) in Hb.
  - intros e2 s2 w lost Hsh Hl. rewrite (fr_id Hf01), (fr_opaque Hf01). apply (Hclose e2 s2 w lost).
    + destruct Hsh as [Ha Hb Hc Hd]. rewrite (fr_fd Hf01) in *. split; [by eapply framep_trans|done|done|].
      intros fd'. by rewrite Hd.
    + intros Ht. rewrite <- Hl by (by rewrite (fr_protocol Hf01)). by rewrite HCt, HCf, (assoc (++)).
Qed.

(** *** New packages *)

Lemma append_wp slot high p sz o addr e s dc C (Q : unit -> SE K -> Prop) :
  sokc e s dc C -> Forall complete (s_low s) -> e_mem e !! p = Some o -> pkg_ok (e_soi e) p sz o -> p ∉ held s ->
  (high = false -> ob_base o = p) ->
  (forall s', framep slot (p :: held s) e s e s' -> sokc e s' dc (setc high (C high ++ [ob_data o]) C) ->
     Forall complete (s_low s') -> s_type s' = s_type s -> s_dw s' = s_dw s -> Q tt (e, s')) ->
  wp (append_sendbuffer_ high p sz addr) Q (e, s).
Proof.
  intros Hok Hcomp Ho Hpk Hp Hbase HQ. unfold append_sendbuffer_. rewrite wp_bind. apply wp_on_env.
  eapply wp_send_object_init; [exact Ho|exact Hpk|]. cbn [so_buffer so_sz so_user]. apply wp_upd.
  set (buf := WBuf p (ob_base o) (zlen (ob_data o)) (ob_user o) addr).
  set (s' := set_wb_size _ _).
  assert (node_rep (e_mem e) buf (ob_data o)) as Hrep.
  { exists o. cbn. split; [done|]. split; [done|]. split; [done|]. rewrite Z.sub_diag. split; [|done].
    pose proof (zlen_nonneg (ob_data o)). lia. }
  assert (held s' ≡ₚ p :: held s) as Hheld.
  { rewrite (held_list high s), (held_list high s'). unfold s'. destruct high; cbn; rewrite fmap_app; cbn;
      by rewrite <- Permutation_cons_append. }
  apply HQ.
  - split; try done; try (by destruct high).
    + intros q Hq. by rewrite Hheld.
    + intros q Hq. by rewrite <- Hheld.
    + apply poll_frame_refl.
  - apply (sokc_intro high).
    + replace (get_list high s') with (get_list high s ++ [buf]) by by destruct high. rewrite setc_eq.
      apply Forall2_app; [by apply (sokc_list e s dc)|by repeat constructor].
    + replace (get_list (negb high) s') with (get_list (negb high) s) by by destruct high. rewrite setc_ne. by apply (sokc_list e s dc).
    + replace (s_dw s') with (s_dw s) by by destruct high. apply Hok.
    + rewrite <- held_list, Hheld. apply NoDup_cons. split; [done|apply Hok].
    + replace (s_wb_size s') with (s_wb_size s + zlen (ob_data o)) by by destruct high.
      rewrite setc_eq, setc_ne, (sokc_size _ _ _ _ high Hok), concat_app, zlen_app. simpl. rewrite app_nil_r. lia.
  - unfold s'. destruct high; cbn; [done|]. apply Forall_app. split; [done|]. repeat constructor. unfold complete. cbn. auto.
  - by destruct high.
  - by destruct high.
Qed.

Lemma send_warning_wp e s (Q : option message -> SE K -> Prop) :
  (forall r w, warning_of s r -> Q r (e, set_warn_size w s)) -> wp send_warning Q (e, s).
Proof.
  intros HQ. unfold send_warning. rewrite wp_bind. apply wp_get. case_match.
  - rewrite wp_bind. apply wp_upd. apply wp_ret. by apply HQ.
  - apply wp_ret. pose proof (HQ None (s_warn_size s) I) as Hq. by destruct s.
Qed.

Lemma fine_warn slot ps e s e' s' dc C w v : fine slot ps e s e' s' dc C w -> fine slot ps e s e' (set_warn_size v s') dc C w.
Proof. intros (Hf & Hok & Hc & Hw & Ht). split; [by destruct Hf; split|]. split; [by destruct Hok; split|]. done. Qed.

(** The package is appended, or freed: sent at once over UDP, or not wanted. *)
Definition added (C : contents) (c : list Z) (high : bool) C' : Prop := C' = setc high (C high ++ [c]) C.

Lemma freed_fine slot p o e s dc C e1 s1 user (Q : option message -> SE K -> Prop) :
  sokc e s dc C -> Forall complete (s_low s) -> e_mem e !! p = Some o -> ob_user o = user -> p ∉ held s ->
  io (s_fd s) [] e e1 -> core s1 = core s -> get_list true s1 = get_list true s -> get_list false s1 = get_list false s ->
  s_wb_size s1 = s_wb_size s -> s_fd s1 = s_fd s -> s_id s1 = s_id s -> s_opaque s1 = s_opaque s -> s_protocol s1 = s_protocol s ->
  s_sending s1 = s_sending s ->
  (forall e', fine slot (p :: held s) e s e' s1 dc C [] -> e_mem e' !! p = None -> Q None (e', s1)) ->
  wp (on_env (free_block user p) ;;; ret None) Q (e1, s1).
Proof.
  intros Hok Hcomp Ho Hu Hp [Hm Hpo Ht Hs Hw] Hcore Hhigh Hlow Hsz Hfd Hid Hop Hpr Hse HQ.
  rewrite wp_bind. apply wp_on_env. eapply wp_free_block; [by rewrite Hm|done|]. apply wp_ret.
  assert (s_dw s1 = s_dw s) as Hdw by (unfold core in Hcore; congruence).
  assert (held s1 = held s) as Hheld by (unfold held; cbn in Hhigh, Hlow; by rewrite Hhigh, Hlow, Hdw).
  apply HQ; [|apply lookup_delete_eq]. split; [|split; [|split; [|split]]].
  - split; try done.
    + intros q [Hne Hq]%not_elem_of_cons. cbn. rewrite lookup_delete_ne by done. by rewrite Hm.
    + intros q [->|Hq]%elem_of_cons Hq1; [apply lookup_delete_eq|by rewrite Hheld in Hq1].
    + rewrite Hheld. by right.
    + cbn. rewrite Hpo. apply poll_frame_refl.
  - destruct Hok as [Hk1 Hk2 Hk3 Hk4 Hk5]. cbn in Hhigh, Hlow.
    assert (forall q, q ∈ held s -> (delete p (e_mem e1) : gmap Z object) !! q = e_mem e !! q) as Hkeep.
    { intros q Hq. rewrite lookup_delete_ne, Hm by (by intros <-). done. }
    split; rewrite ?Hhigh, ?Hlow, ?Hdw, ?Hheld, ?Hsz; try done.
    + eapply nodes_rep_mem; [|exact Hk1]. intros q Hq. apply Hkeep. unfold held. set_solver.
    + eapply nodes_rep_mem; [|exact Hk2]. intros q Hq. apply Hkeep. unfold held. set_solver.
    + cbn. rewrite Hs. eapply dw_rep_mem; [|exact Hk3]. intros q Hq. apply Hkeep. unfold held. set_solver.
  - cbn in Hlow. by rewrite Hlow.
  - exact Hw.
  - unfold core in Hcore. congruence.
Qed.

(** *** The socket thread's other operations *)

Lemma send_socket_stale slot id p sz high addr o e s (Q : option message -> SE K -> Prop) :
  s_type s = SOCKET_TYPE_INVALID \/ s_id s <> id -> e_mem e !! p = Some o -> pkg_ok (e_soi e) p sz o ->
  Q None (set_mem (delete p (e_mem e)) e, s) -> wp (send_socket slot id p sz high addr) Q (e, s).
Proof.
  intros Hst Ho Hpk HQ. unfold send_socket. rewrite wp_bind. apply wp_on_env. eapply wp_send_object_init; [exact Ho|exact Hpk|].
  rewrite wp_bind. apply wp_get. cbn [so_user].
  assert ((s_type s =? SOCKET_TYPE_INVALID) || negb (s_id s =? id) = true) as Hb.
  { destruct Hst as [->|Hne]; [done|]. apply orb_true_iff. right. by apply negb_true_iff, Z.eqb_neq. }
  rewrite Hb. cbn [orb]. rewrite wp_bind. apply wp_on_env. by eapply wp_free_block.
Qed.

Definition open_type (t : Z) : Prop := t = SOCKET_TYPE_CONNECTED \/ t = SOCKET_TYPE_CONNECTING \/ t = SOCKET_TYPE_BIND.

Lemma send_socket_wp slot id p sz high addr o e s dc C (Q : option message -> SE K -> Prop) :
  sokc e s dc C -> Forall complete (s_low s) -> live s -> s_id s = id ->
  e_mem e !! p = Some o -> pkg_ok (e_soi e) p sz o -> p ∉ held s -> (high = false -> ob_base o = p) ->
  (forall r e' s' C', fine slot (p :: held s) e s e' s' dc C' [] -> s_dw s' = s_dw s -> warning_of s r ->
     (s_protocol s = PROTOCOL_TCP -> open_type (s_type s) ->
        exists hi, (hi = high \/ hi = true /\ s_high s = [] /\ s_low s = []) /\ forall x, C' x = setc hi (C hi ++ [ob_data o]) C x) ->
     Q r (e', s')) ->
  wp (send_socket slot id p sz high addr) Q (e, s).
Proof.
  intros Hok Hcomp [Hinv Hres] Hid Ho Hpk Hp Hbase HQ. unfold send_socket.
  rewrite wp_bind. apply wp_on_env. eapply wp_send_object_init; [exact Ho|exact Hpk|].
  rewrite wp_bind. apply wp_get. cbn [so_user so_buffer so_sz]. set (addr' := default (s_udp_address s) addr).
  rewrite Hid, Z.eqb_refl. cbn [negb]. destruct (Z.eqb_spec (s_type s) SOCKET_TYPE_INVALID) as [|_]; [done|]. cbn [orb].
  assert (forall e1 s1, io (s_fd s) [] e e1 -> s1 = s \/ (exists st, s1 = set_stat st s) ->
    (s_protocol s = PROTOCOL_TCP -> ~ open_type (s_type s)) ->
    wp (on_env (free_block (ob_user o) p) ;;; ret None) Q (e1, s1)) as Hfree.
  { intros e1 s1 Hio Hs1 Hno. eapply (freed_fine slot p o e s dc C); try done; try (by destruct Hs1 as [->|[st ->]]).
    intros e' Hf _. apply (HQ None e' s1 C); [done|by destruct Hs1 as [->|[st ->]]|done|]. intros Ht Hop. by destruct (Hno Ht). }
  assert (forall hi addr2, (hi = false -> ob_base o = p) ->
    (s_protocol s = PROTOCOL_TCP -> hi = high \/ hi = true /\ s_high s = [] /\ s_low s = []) -> forall e1, io (s_fd s) [] e e1 -> forall b,
    wp (append_sendbuffer_ hi p sz addr2 ;;; (if b : bool then on_env (sp_write (s_fd s) slot true) else ret tt) ;;; send_warning) Q (e1, s)) as Happ.
  { intros hi addr2 Hb Hhi e1 Hio b. rewrite wp_bind. pose proof (sokc_io _ _ _ _ _ _ _ Hio Hok) as Hok1. destruct Hio as [Hm1 Hp1 Ht1 Hs1 Hw1].
    eapply (append_wp slot hi p sz o addr2 e1 s dc C); try done; [by rewrite Hm1|by rewrite Hs1|].
    intros s' Hf Hok' Hc' Ht' Hd'. rewrite wp_bind.
    assert (forall e2, e2 = e1 \/ e2 = set_poll (alter (fun _ => (slot, true)) (s_fd s) (e_poll e1)) e1 -> wp send_warning Q (e2, s')) as Hw.
    { intros e2 He2. apply send_warning_wp. intros r v Hr.
      eapply (HQ r e2 _ (setc hi (C hi ++ [ob_data o]) C)).
      - apply fine_warn. split; [|split; [|split; [|split; [|exact Ht']]]].
        + destruct Hf as [Ha Hbb Hc Hd He Hf Hg Hh Hi Hj Hkk]. destruct He2 as [->| ->]; (split; try done); try congruence.
          * rewrite Hp1. apply poll_frame_refl.
          * intros q Hq. cbn. by rewrite Hm1.
          * cbn. rewrite Hp1. apply poll_frame_alter.
        + destruct He2 as [->| ->]; [done|]. by destruct Hok'; split.
        + done.
        + destruct He2 as [->| ->]; intros fd'; [by rewrite Hw1|exact (Hw1 fd')].
      - done.
      - destruct r; [|done]. destruct Hr as [Hr1 Hr2]. split; [done|]. by rewrite Hr2, (fr_id Hf).
      - intros Ht _. exists hi. split; [auto|done]. }
    destruct b; [apply wp_on_env, wp_sp_write|apply wp_ret]; apply Hw; auto. }
  destruct (Z.eqb_spec (s_type s) SOCKET_TYPE_HALFCLOSE) as [Hh|Hh]; cbn [orb].
  { apply Hfree; [apply io_refl|by left|]. intros _. unfold open_type. rewrite Hh. by intros [|[|]]. }
  destruct (Z.eqb_spec (s_type s) SOCKET_TYPE_PACCEPT) as [Hpa|Hpa].
  { apply Hfree; [apply io_refl|by left|]. intros _. unfold open_type. rewrite Hpa. by intros [|[|]]. }
  destruct ((s_type s =? SOCKET_TYPE_PLISTEN) || (s_type s =? SOCKET_TYPE_LISTEN)) eqn:Hli.
  { apply Hfree; [apply io_refl|by left|]. intros _. unfold open_type.
    apply orb_true_iff in Hli as [->%Z.eqb_eq| ->%Z.eqb_eq]; by intros [|[|]]. }
  destruct (send_buffer_empty s && (s_type s =? SOCKET_TYPE_CONNECTED)) eqn:Hemp.
  - apply andb_true_iff in Hemp as [[He1%is_empty_true He2%is_empty_true]%andb_true_iff Hconn].
    destruct (Z.eqb_spec (s_protocol s) PROTOCOL_TCP) as [Ht|Ht].
    + apply (Happ true []) with (b := true); [done|by auto|apply io_refl].
    + destruct (udp_socket_address s addr') as [sa|]; [|by apply Hfree; [apply io_refl|left|]].
      rewrite wp_bind. apply wp_on_env.
      assert (node_rep (e_mem e) (WBuf p (ob_base o) (zlen (ob_data o)) (ob_user o) []) (ob_data o)) as Hrep.
      { exists o. cbn. split; [done|]. split; [done|]. split; [done|]. rewrite Z.sub_diag. split; [|done]. pose proof (zlen_nonneg (ob_data o)). lia. }
      eapply (wp_bytes_of (WBuf p (ob_base o) (zlen (ob_data o)) (ob_user o) [])); [exact Hrep|].
      rewrite wp_bind. apply wp_on_env. apply (wp_do_sendto _ (s_fd s)). intros r e1 Hio _.
      destruct (match r with inl _ => _ | inr n => _ end).
      * rewrite wp_bind. apply stat_write_wp. apply Hfree; [done|right; by eexists|done].
      * by apply (Happ high addr') with (b := true).
  - destruct (Z.eqb_spec (s_protocol s) PROTOCOL_TCP) as [Ht|Ht]; [destruct high|].
    + refine (Happ true [] _ _ e (io_refl _ _) false); [done|by auto].
    + refine (Happ false [] _ _ e (io_refl _ _) false); [done|by auto].
    + refine (Happ high addr' _ _ e (io_refl _ _) false); done.
Qed.

(** A message that ends the socket. *)
Definition end_of (s : socket) (m : message) : Prop := (m_type m = SOCKET_CLOSE \/ m_type m = SOCKET_ERR) /\ m_id m = s_id s.
Definition news_of (s : socket) (r : option message) : Prop :=
  match r with Some m => m_type m <> SOCKET_CLOSE /\ m_type m <> SOCKET_ERR | None => True end.

Lemma close_end slot type data e s dc C (Q : message -> SE K -> Prop) :
  sokc e s dc C -> live s -> type = SOCKET_CLOSE \/ type = SOCKET_ERR ->
  (forall m e' s', end_of s m -> shut slot e s e' s' [] -> Q m (e', s')) -> wp (force_close type data) Q (e, s).
Proof.
  intros Hok Hlive Ht HQ. eapply (force_close_wp slot); [exact Hok|apply Hlive..|]. intros e' Hf Hp Hw.
  apply HQ; [by split|]. split; [done|done|done|by apply wrote_nil].
Qed.

Lemma sokc_k e s dc C k : sokc e s dc C -> sokc (set_k k e) s dc C.
Proof. intros []. by split. Qed.
Lemma shut_k slot e k s e' s' w : shut slot (set_k k e) s e' s' w -> shut slot e s e' s' w.
Proof. intros [Hf Hc Hp Hw]. by split; [destruct Hf; split|..]. Qed.
Lemma fine_k slot ps e k s s' dc C : framep slot ps (set_k k e) s (set_k k e) s' -> sokc e s' dc C -> Forall complete (s_low s') -> s_type s' = s_type s ->
  fine slot ps e s (set_k k e) s' dc C [].
Proof.
  intros Hf Hok Hc Ht. split; [by destruct Hf; split|]. split; [by apply sokc_k|]. split; [done|]. split; [by apply wrote_nil|done].
Qed.

Lemma forward_message_tcp_wp slot e s dc C (Q : option message -> SE K -> Prop) :
  sokc e s dc C -> Forall complete (s_low s) -> live s ->
  (forall r e' s', fine slot (held s) e s e' s' dc C [] -> news_of s r -> Q r (e', s')) ->
  (forall m e' s', end_of s m -> shut slot e s e' s' [] -> Q (Some m) (e', s')) ->
  wp forward_message_tcp Q (e, s).
Proof.
  intros Hok Hcomp Hlive Hret Hend. unfold forward_message_tcp. rewrite wp_bind. apply wp_get. rewrite wp_bind. apply wp_on_env, wp_syscall.
  set (r := (sys_read _ _ _).1). set (e1 := set_k _ e).
  assert (forall r', news_of s r' -> wp (ret r') Q (e1, s)) as Hnone.
  { intros r' Hr'. apply wp_ret. apply Hret; [|done]. apply fine_k; [apply framep_refl|done..]. }
  assert (forall type data, type = SOCKET_CLOSE \/ type = SOCKET_ERR -> wp (m <- force_close type data ;; ret (Some m)) Q (e1, s)) as Hcl.
  { intros type data Ht. rewrite wp_bind. eapply close_end; [by apply sokc_k|done|done|].
    intros m e2 s2 Hm Hsh. apply wp_ret. apply Hend; [done|]. by eapply shut_k. }
  destruct r as [[| | |]|buffer]; [by apply Hnone|by apply Hnone|apply Hcl; by right|apply Hcl; by right|].
  destruct (zlen buffer =? 0); [apply Hcl; by left|]. destruct (s_type s =? SOCKET_TYPE_HALFCLOSE); [by apply Hnone|].
  rewrite wp_bind. unfold stat_read. rewrite wp_bind. apply wp_on_env. rewrite wp_gets. apply wp_upd. rewrite wp_bind.
  assert (forall v st, wp (ret (Some (Message SOCKET_DATA (s_id s) (s_opaque s) (zlen buffer) (DBlock buffer)))) Q (e1, set_size v (set_stat st s))) as Hdata.
  { intros v st. apply wp_ret. apply Hret; [|by split]. apply fine_k; [apply frame_same; try done; apply poll_frame_refl|by destruct Hok; split|done|done]. }
  assert (forall st, set_stat st s = set_size (s_size s) (set_stat st s)) as Hsame by (intros st; by destruct s).
  case_match; [apply wp_upd, Hdata|]. apply wp_when; intros _; [apply wp_upd, Hdata|]. rewrite Hsame. apply Hdata.
Qed.

Lemma forward_message_udp_wp slot e s dc C (Q : option message -> SE K -> Prop) :
  sokc e s dc C -> Forall complete (s_low s) -> live s ->
  (forall r e' s', fine slot (held s) e s e' s' dc C [] -> news_of s r -> Q r (e', s')) ->
  (forall m e' s', end_of s m -> shut slot e s e' s' [] -> Q (Some m) (e', s')) ->
  wp forward_message_udp Q (e, s).
Proof.
  intros Hok Hcomp Hlive Hret Hend. unfold forward_message_udp. rewrite wp_bind. apply wp_get. rewrite wp_bind. apply wp_on_env, wp_syscall.
  set (r := (sys_recvfrom _ _ _).1). set (e1 := set_k _ e).
  assert (forall r' st, news_of s r' -> wp (ret r') Q (e1, set_stat st s)) as Hnone.
  { intros r' st Hr'. apply wp_ret. apply Hret; [|done]. apply fine_k; [apply frame_same; try done; apply poll_frame_refl|by destruct Hok; split|done|done]. }
  assert (forall data, wp (m <- force_close SOCKET_ERR data ;; ret (Some m)) Q (e1, s)) as Hcl.
  { intros data. rewrite wp_bind. eapply close_end; [by apply sokc_k|done|by right|].
    intros m e2 s2 Hm Hsh. apply wp_ret. apply Hend; [done|]. by eapply shut_k. }
  assert (set_stat (s_stat s) s = s) as Hsame by (by destruct s).
  destruct r as [[| | |]|[buffer sa]]; [rewrite <- Hsame; by apply Hnone|rewrite <- Hsame; by apply Hnone|apply Hcl|apply Hcl|].
  rewrite wp_bind. unfold stat_read. rewrite wp_bind. apply wp_on_env. rewrite wp_gets. apply wp_upd.
  destruct sa; case_match; by apply Hnone.
Qed.

Lemma report_connect_wp slot e s dc C (Q : message -> SE K -> Prop) :
  sokc e s dc C -> Forall complete (s_low s) -> live s ->
  (forall m e' s', framep slot (held s) e s e' s' -> sokc e' s' dc C -> Forall complete (s_low s') -> s_type s' = SOCKET_TYPE_CONNECTED ->
     wrote (s_fd s) [] e e' -> m_type m = SOCKET_OPEN -> Q m (e', s')) ->
  (forall m e' s', end_of s m -> shut slot e s e' s' [] -> Q m (e', s')) ->
  wp (report_connect slot) Q (e, s).
Proof.
  intros Hok Hcomp Hlive Hret Hend. unfold report_connect. rewrite wp_bind. apply wp_get. rewrite wp_bind. apply wp_on_env, wp_syscall.
  set (r := (sys_so_error _ _).1). set (e1 := set_k _ e).
  assert (forall data, wp (force_close SOCKET_ERR data) Q (e1, s)) as Hcl.
  { intros data. eapply close_end; [by apply sokc_k|done|by right|]. intros m e2 s2 Hm Hsh. apply Hend; [done|]. by eapply shut_k. }
  destruct r as [err|error]; [apply Hcl|]. case_match; [apply Hcl|].
  rewrite wp_bind. apply wp_upd. rewrite wp_bind. apply wp_get. rewrite wp_bind.
  set (s1 := set_type SOCKET_TYPE_CONNECTED s).
  assert (forall e2, (exists p, e2 = set_poll p e1 /\ poll_frame slot (s_fd s) (e_poll e) p) ->
    wp (u <- on_env (syscall (sys_getpeername (s_fd s))) ;; get (fun s => Message SOCKET_OPEN (s_id s) (s_opaque s) 0 (name_data u))) Q (e2, s1)) as Hopen.
  { intros e2 (p & -> & Hp). rewrite wp_bind. apply wp_on_env, wp_syscall. apply wp_get. apply Hret; [by apply frame_same|by destruct Hok; split|done|done|by apply wrote_nil|done]. }
  apply wp_when; intros _; [apply wp_on_env, wp_sp_write|]; apply Hopen; eexists; (split; [reflexivity || (by destruct e)|]); [apply poll_frame_alter|apply poll_frame_refl].
Qed.

(** *** The blocks of a socket *)

Lemma node_rep_in mem l cs p : Forall2 (node_rep mem) l cs -> p ∈ wb_buffer <$> l -> is_Some (mem !! p).
Proof.
  intros Hlc (wb & -> & Hwb)%list_elem_of_fmap. induction Hlc as [|wb' c l cs (o & Ho & _) _ IH]; [by apply not_elem_of_nil in Hwb|].
  apply elem_of_cons in Hwb as [->|Hwb]; [by rewrite Ho|auto].
Qed.
Lemma held_mem e s dc C p : sokc e s dc C -> p ∈ held s -> is_Some (e_mem e !! p).
Proof.
  intros [Hh Hl Hdw _ _]. unfold held. rewrite !elem_of_app. intros [Hp|[Hp|Hp]]; [exact (node_rep_in _ _ _ _ Hh Hp)|exact (node_rep_in _ _ _ _ Hl Hp)|].
  destruct (s_dw s) as [[[b sz] off]|]; [|by inversion Hp]. apply list_elem_of_singleton in Hp as ->. by destruct Hdw as (o & -> & _).
Qed.

Lemma sokc_keep e e' s dc C : e_soi e' = e_soi e -> (forall p, p ∈ held s -> e_mem e' !! p = e_mem e !! p) ->
  sokc e s dc C -> sokc e' s dc C.
Proof.
  intros Hsoi Hm [H1 H2 H3 H4 H5]. split; try done; rewrite ?Hsoi.
  - eapply nodes_rep_mem; [|exact H1]. intros q Hq. apply Hm. unfold held. rewrite !elem_of_app. by left.
  - eapply nodes_rep_mem; [|exact H2]. intros q Hq. apply Hm. unfold held. rewrite !elem_of_app. right. by left.
  - eapply dw_rep_mem; [|exact H3]. intros q Hq. apply Hm. unfold held. rewrite !elem_of_app. right. by right.
Qed.
(** *** Writes by other threads *)

Lemma sokc_empty e s C : s_high s = [] -> s_low s = [] -> s_dw s = None -> C true = [] -> C false = [] -> s_wb_size s = 0 ->
  sokc e s [] C.
Proof.
  intros Hh Hl Hd Ht Hf Hw. split; rewrite ?Hh, ?Hl, ?Hd, ?Ht, ?Hf, ?Hw; try done; try constructor.
  unfold held. rewrite Hh, Hl, Hd. constructor.
Qed.

Lemma sokc_nothing e s dc C : sokc e s dc C -> s_high s = [] -> s_low s = [] -> C true = [] /\ C false = [] /\ s_wb_size s = 0.
Proof.
  intros [H1 H2 _ _ H5] Hh Hl. rewrite Hh in H1. rewrite Hl in H2. apply Forall2_nil_inv_l in H1. apply Forall2_nil_inv_l in H2.
  by rewrite H5, H1, H2.
Qed.

Lemma direct_write_wp slot p sz o e s C (Q : Z -> SE K -> Prop) :
  sokc e s [] C -> s_dw s = None -> s_high s = [] -> s_low s = [] ->
  e_mem e !! p = Some o -> pkg_ok (e_soi e) p sz o -> p ∉ held s ->
  (forall r e' s' dc w, fine slot (p :: held s) e s e' s' dc C w -> (s_protocol s = PROTOCOL_TCP -> ob_data o = w ++ dc) ->
     s_udpconnecting s' = s_udpconnecting s -> Q r (e', s')) ->
  wp (direct_write slot p sz) Q (e, s).
Proof.
  intros Hok Hdw Hh Hl Ho Hpk Hp HQ. unfold direct_write. rewrite wp_bind. apply wp_on_env.
  eapply wp_send_object_init; [exact Ho|exact Hpk|]. rewrite wp_bind. apply wp_get. cbn [so_buffer so_sz so_user].
  assert (Forall complete (s_low s)) as Hcomp by (by rewrite Hl).
  destruct (sokc_nothing _ _ _ _ Hok Hh Hl) as (HCt & HCf & Hwb).
  assert (node_rep (e_mem e) (WBuf p (ob_base o) (zlen (ob_data o)) (ob_user o) []) (ob_data o)) as Hrep.
  { exists o. cbn. split; [done|]. split; [done|]. split; [done|]. rewrite Z.sub_diag. split; [|done]. pose proof (zlen_nonneg (ob_data o)). lia. }
  (* the end: all is written, or the rest is kept *)
  assert (forall n e1 w st, 0 <= n <= zlen (ob_data o) -> io (s_fd s) w e e1 ->
    (s_protocol s = PROTOCOL_TCP -> w = take (Z.to_nat n) (ob_data o)) ->
    wp (if n =? zlen (ob_data o) then on_env (free_block (ob_user o) p) ;;; ret 0
        else upd (set_dw (Some (p, sz, n))) ;;; on_env (sp_write (s_fd s) slot true) ;;; ret 0) Q (e1, set_stat st s)) as Hend.
  { intros n e1 w st Hn [Hm1 Hp1 Ht1 Hs1 Hw1] Hwn. destruct (Z.eqb_spec n (zlen (ob_data o))) as [->|Hne].
    - rewrite wp_bind. apply wp_on_env. eapply wp_free_block; [by rewrite Hm1|done|]. apply wp_ret.
      apply (HQ 0 _ _ [] w); [|by intros Ht; rewrite (Hwn Ht), app_nil_r, take_ge by (unfold zlen; lia)|done].
      assert (held s = []) as Hheld by (unfold held; by rewrite Hh, Hl, Hdw).
      split; [|split; [|split; [|split; [exact Hw1|done]]]]; [| |done].
      + split; try done.
        * intros q [Hne Hq]%not_elem_of_cons. cbn. rewrite lookup_delete_ne by done. by rewrite Hm1.
        * intros q [->|Hq]%elem_of_cons Hq1; [apply lookup_delete_eq|done].
        * intros q Hq. by right.
        * cbn. rewrite Hp1. apply poll_frame_refl.
      + by apply sokc_empty.
    - rewrite wp_bind. apply wp_upd. rewrite wp_bind. apply wp_on_env, wp_sp_write. apply wp_ret.
      apply (HQ 0 _ _ (drop (Z.to_nat n) (ob_data o)) w); [|by intros Ht; rewrite (Hwn Ht), take_drop|done].
      assert (held s = []) as Hheld by (unfold held; by rewrite Hh, Hl, Hdw).
      split; [|split; [|split; [|split; [exact Hw1|done]]]]; [|destruct Hok as [Hk1 Hk2 Hk3 Hk4 Hk5]|done].
      + split; try done.
        * intros q Hq. cbn. by rewrite Hm1.
        * intros q [->|Hq]%elem_of_cons Hq1; [|rewrite Hheld in Hq; by apply not_elem_of_nil in Hq]. exfalso. apply Hq1.
          unfold held. cbn [s_high s_low s_dw set_dw set_stat dw_ptr]. rewrite Hh, Hl. apply list_elem_of_singleton. done.
        * intros q. unfold held. cbn. rewrite Hh, Hl. cbn. intros ->%list_elem_of_singleton. by left.
        * cbn. rewrite Hp1. apply poll_frame_alter.
      + split; cbn; [by rewrite Hm1|by rewrite Hm1| |unfold held; cbn; rewrite Hh, Hl; apply NoDup_singleton|done].
        exists o. by rewrite Hm1, Hs1. }
  destruct (Z.eqb_spec (s_protocol s) PROTOCOL_TCP) as [Ht|Ht].
  - rewrite wp_bind. apply wp_on_env. eapply (wp_bytes_of (WBuf p (ob_base o) (zlen (ob_data o)) (ob_user o) [])); [exact Hrep|].
    rewrite wp_bind. apply wp_on_env. pose proof (zlen_nonneg (ob_data o)). apply wp_do_write.
    + intros err e1 _ _ Hio. rewrite wp_bind. apply stat_write_wp. by apply (Hend 0 e1 []).
    + intros n e1 Hn Hio. rewrite wp_bind. apply stat_write_wp. by apply (Hend n e1 (take (Z.to_nat n) (ob_data o))).
  - destruct (udp_socket_address s (s_udp_address s)) as [sa|].
    + rewrite wp_bind. apply wp_on_env. eapply (wp_bytes_of (WBuf p (ob_base o) (zlen (ob_data o)) (ob_user o) [])); [exact Hrep|].
      rewrite wp_bind. apply wp_on_env. pose proof (zlen_nonneg (ob_data o)). apply (wp_do_sendto _ (s_fd s)). intros r e1 Hio Hn.
      rewrite wp_bind. apply stat_write_wp. apply (Hend _ e1 []); [destruct r; lia|done|done].
    + rewrite wp_bind. apply wp_on_env. eapply wp_free_block; [done|done|]. apply wp_ret.
      apply (HQ (-1) _ _ [] []); [|done|done].
      assert (held s = []) as Hheld by (unfold held; by rewrite Hh, Hl, Hdw).
      split; [|split; [|split; [done|split; [by apply wrote_nil|done]]]].
      * split; try done.
        -- intros q [Hne Hq]%not_elem_of_cons. cbn. by rewrite lookup_delete_ne.
        -- intros q [->|Hq]%elem_of_cons Hq1; [apply lookup_delete_eq|]. rewrite Hheld in Hq. by apply not_elem_of_nil in Hq.
        -- intros q Hq. by right.
        -- apply poll_frame_refl.
      * by apply sokc_empty.
Qed.

Lemma udp_direct_write_wp p sz addr slot o e s dc C (Q : option Z -> SE K -> Prop) :
  sokc e s dc C -> Forall complete (s_low s) -> e_mem e !! p = Some o -> pkg_ok (e_soi e) p sz o -> p ∉ held s ->
  (forall r e' s', fine slot (p :: held s) e s e' s' dc C [] -> Q (Some r) (e', s')) ->
  (forall e', io (s_fd s) [] e e' -> Q None (e', s)) ->
  wp (udp_direct_write p sz addr) Q (e, s).
Proof.
  intros Hok Hcomp Ho Hpk Hp Hsent Hlater. unfold udp_direct_write. rewrite wp_bind. apply wp_on_env.
  eapply wp_send_object_init; [exact Ho|exact Hpk|]. rewrite wp_bind. apply wp_get. cbn [so_buffer so_sz so_user].
  assert (forall e1 st r, io (s_fd s) [] e e1 -> wp (on_env (free_block (ob_user o) p) ;;; ret (Some r)) Q (e1, set_stat st s)) as Hfree.
  { intros e1 st r Hio.
    assert (wp (on_env (free_block (ob_user o) p) ;;; ret (@None message)) (fun _ t => Q (Some r) t) (e1, set_stat st s)) as Hw.
    { eapply (freed_fine slot p o e s dc C); try done. intros e' Hf _. by apply Hsent. }
    revert Hw. by rewrite !wp_bind. }
  destruct (udp_socket_address s addr) as [sa|].
  - rewrite wp_bind. apply wp_on_env.
    assert (node_rep (e_mem e) (WBuf p (ob_base o) (zlen (ob_data o)) (ob_user o) []) (ob_data o)) as Hrep.
    { exists o. cbn. split; [done|]. split; [done|]. split; [done|]. rewrite Z.sub_diag. split; [|done]. pose proof (zlen_nonneg (ob_data o)). lia. }
    eapply (wp_bytes_of (WBuf p (ob_base o) (zlen (ob_data o)) (ob_user o) [])); [exact Hrep|].
    rewrite wp_bind. apply wp_on_env. apply (wp_do_sendto _ (s_fd s)). intros [err|n] e1 Hio Hn.
    + apply wp_ret. by apply Hlater.
    + rewrite wp_bind. apply stat_write_wp. by apply Hfree.
  - replace s with (set_stat (s_stat s) s) by by destruct s. apply Hfree, io_refl.
Qed.
End buffers.
Arguments fr_fd {_ _ _ _ _ _ _} _. Arguments fr_id {_ _ _ _ _ _ _} _. Arguments fr_opaque {_ _ _ _ _ _ _} _.
Arguments fr_protocol {_ _ _ _ _ _ _} _. Arguments fr_sending {_ _ _ _ _ _ _} _.
Arguments fr_poll {_ _ _ _ _ _ _} _. Arguments fr_keep {_ _ _ _ _ _ _} _. Arguments fr_free {_ _ _ _ _ _ _} _.
Arguments fr_held {_ _ _ _ _ _ _} _. Arguments fr_time {_ _ _ _ _ _ _} _. Arguments fr_soi {_ _ _ _ _ _ _} _.
