(* ===== verification/SocketStream.v ===== *)
(** The stream of a TCP socket: whatever the kernel takes at a time, the bytes that go
    out are those of whole packages, one behind the other. *)

From S2P Require Import Prelude Bytes State Socket SocketServer SocketBuffer.
Local Open Scope Z_scope.
Local Open Scope st_scope.

(** A package [o] at address [p] is sent with high or low priority through the socket
    thread, or written at once by the thread that sends it if that is possible; the
    descriptor becomes writable. *)
Inductive sop :=
| OSend (p : Z) (o : object) (high : bool)
| ODirect (p : Z) (o : object)
| OWritable.

Definition size_of (o : object) : Z := if ob_user o then -1 else zlen (ob_data o).

Section stream.
Context {K : Type} `{LawfulKernel K}.
Context (slot : Z).

Definition give (p : Z) (o : object) : ST (SE K) unit := on_env (modify (fun e => set_mem (<[p := o]> (e_mem e)) e)).
Definition send_now (p : Z) (o : object) (high : bool) : ST (SE K) unit :=
  id <- get s_id ;; _ <- send_socket slot id p (size_of o) high None ;; ret tt.
Definition run_sop (op : sop) : ST (SE K) unit :=
  match op with
  | OSend p o high => give p o ;;; send_now p o high
  | ODirect p o =>
    give p o ;;;
    direct <- get (fun s => can_direct_write s (s_id s)) ;;
    locked <- on_env (syscall sys_locked) ;;
    if direct && negb locked then _ <- direct_write slot p (size_of o) ;; ret tt else send_now p o true
  | OWritable => _ <- send_buffer slot ;; ret tt
  end.
(** Until the socket is closed. *)
Fixpoint run_sops (ops : list sop) : ST (SE K) unit :=
  match ops with
  | [] => ret tt
  | op :: ops =>
    run_sop op ;;;
    t <- get s_type ;;
    if t =? SOCKET_TYPE_INVALID then ret tt else run_sops ops
  end.

(** The packages, with their priority. *)
Definition label (op : sop) : list (bool * list Z) :=
  match op with OSend _ o high => [(high, ob_data o)] | ODirect _ o => [(true, ob_data o)] | OWritable => [] end.
Definition labels (ops : list sop) : list (bool * list Z) := concat (label <$> ops).
Definition pick (b : bool) (l : list (bool * list Z)) : list (list Z) := snd <$> filter (fun x => x.1 = b) l.

(** The bytes that wait. *)
Definition node_bytes (mem : gmap Z object) (wb : write_buffer) : list Z :=
  match mem !! wb_buffer wb with Some o => drop (Z.to_nat (wb_ptr wb - ob_base o)) (ob_data o) | None => [] end.
Definition waiting (mem : gmap Z object) (s : socket) : list Z :=
  match s_dw s with
  | Some (b, _, off) => match mem !! b with Some o => drop (Z.to_nat off) (ob_data o) | None => [] end
  | None => []
  end ++ concat (node_bytes mem <$> s_high s) ++ concat (node_bytes mem <$> s_low s).

Lemma nodes_bytes mem l cs : Forall2 (node_rep mem) l cs -> node_bytes mem <$> l = cs.
Proof.
  induction 1 as [|wb c l cs (o & Ho & _ & _ & _ & Hc) _ IH]; [done|]. cbn [fmap list_fmap]. rewrite <- IH. f_equal.
  unfold node_bytes. by rewrite Ho.
Qed.
Lemma waiting_bytes (e : env K) s dc C : sokc e s dc C -> waiting (e_mem e) s = dc ++ concat (C true) ++ concat (C false).
Proof.
  intros [Hh Hl Hdw _ _]. unfold waiting. rewrite (nodes_bytes _ _ _ Hh), (nodes_bytes _ _ _ Hl). f_equal.
  destruct (s_dw s) as [[[b sz] off]|]; [|done]. destruct Hdw as (o & -> & _ & _ & Hc). done.
Qed.

Lemma pick_app b l1 l2 : pick b (l1 ++ l2) = pick b l1 ++ pick b l2.
Proof. unfold pick. by rewrite filter_app, fmap_app. Qed.
Lemma pick_other b cs : pick (negb b) (pair b <$> cs) = [].
Proof.
  unfold pick. rewrite filter_none; [done|]. intros x (c & -> & _)%list_elem_of_fmap. by destruct b.
Qed.
Lemma pick_one b c : pick b [(b, c)] = [c].
Proof. by destruct b. Qed.
Lemma pick_one_other b c : pick (negb b) [(b, c)] = [].
Proof. by destruct b. Qed.

(** *** The invariant *)

(** [X] are the packages whose bytes went out or wait in front of the low list; [out] is
    what went out. *)
Record stream (base : list Z) (ls : list (bool * list Z)) (e : env K) (s : socket) dc C out X : Prop := {
  st_ok : sokc e s dc C;
  st_complete : Forall complete (s_low s);
  st_type : s_type s = SOCKET_TYPE_CONNECTED;
  st_tcp : s_protocol s = PROTOCOL_TCP;
  st_written : written (s_fd s) (e_trace e) = base ++ out;
  st_bytes : out ++ dc ++ concat (C true) = concat (snd <$> X);
  st_order b : pick b (X ++ (pair false <$> C false)) = pick b ls
}.

Lemma stream_live base ls e s dc C out X : stream base ls e s dc C out X -> live s.
Proof. intros Hst. unfold live. by rewrite (st_type _ _ _ _ _ _ _ _ Hst). Qed.

Definition ptr_of (op : sop) : list Z := match op with OSend p _ _ | ODirect p _ => [p] | OWritable => [] end.
(** A package of the right kind: with low priority an object has its bytes at its own
    address. *)
Definition op_ok (soi : bool) (op : sop) : Prop :=
  match op with
  | OSend p o high => pkg_ok soi p (size_of o) o /\ (high = false -> ob_base o = p)
  | ODirect p o => pkg_ok soi p (size_of o) o
  | OWritable => True
  end.

(** What a step leaves: the invariant with the new packages, or a closed socket that
    wrote a first part of what was to be written. *)
Definition step_post base ls (e : env K) (s : socket) (ps : list Z) (st : SE K) : Prop :=
  let '(e', s') := st in
  s_fd s' = s_fd s /\ e_soi e' = e_soi e /\ (forall p, e_mem e !! p = None -> p ∉ ps -> e_mem e' !! p = None) /\
  ((exists dc C out X, stream base ls e' s' dc C out X) \/
   (closed s' /\ exists out lost order, written (s_fd s) (e_trace e') = base ++ out /\ out ++ lost = concat (snd <$> order) /\
      forall b, pick b order = pick b ls)).

Lemma stream_give base ls (e : env K) s dc C out X p o :
  stream base ls e s dc C out X -> e_mem e !! p = None -> stream base ls (set_mem (<[p := o]> (e_mem e)) e) s dc C out X /\ p ∉ held s.
Proof.
  intros Hst Hp. destruct Hst as [Hok Hc Ht Htcp Hw Hb Ho].
  assert (p ∉ held s) as Hni by (intros Hin; destruct (held_mem _ _ _ _ _ Hok Hin) as [x Hx]; congruence).
  assert (forall q, q ∈ held s -> (<[p := o]> (e_mem e) : gmap Z object) !! q = e_mem e !! q) as Hkeep.
  { intros q Hq. apply lookup_insert_ne. by intros <-. }
  split; [|done]. split; try done. by apply (sokc_keep e).
Qed.

Lemma keep_none ps (e e' : env K) (s s' : socket) dc C p : sokc e s dc C -> framep slot (ps ++ held s) e s e' s' ->
  e_mem e !! p = None -> p ∉ ps -> e_mem e' !! p = None.
Proof.
  intros Hok Hf Hp Hni. rewrite (fr_keep Hf); [done|]. rewrite not_elem_of_app. split; [done|].
  intros Hin. destruct (held_mem _ _ _ _ _ Hok Hin) as [x Hx]. congruence.
Qed.

Lemma wrote_written fd w (e e' : env K) base out : written fd (e_trace e) = base ++ out -> wrote fd w e e' ->
  written fd (e_trace e') = base ++ out ++ w.
Proof. intros Hw Hwr. by rewrite Hwr, Z.eqb_refl, Hw, <- (assoc (++)). Qed.

Lemma send_now_wp base ls (e : env K) s dc C out X p o high :
  stream base ls e s dc C out X -> e_mem e !! p = Some o -> p ∉ held s -> pkg_ok (e_soi e) p (size_of o) o -> (high = false -> ob_base o = p) ->
  wp (send_now p o high) (fun _ => step_post base (ls ++ [(high, ob_data o)]) e s [p]) (e, s).
Proof.
  intros Hst Ho Hp Hpk Hbase. destruct (stream_live _ _ _ _ _ _ _ _ Hst) as [Hinv Hres]. pose proof Hst as [Hok Hc Ht Htcp Hw Hb Hord].
  unfold send_now. rewrite wp_bind. apply wp_get. rewrite wp_bind.
  apply (send_socket_wp slot (s_id s) p (size_of o) high None o e s dc C); try done.
  intros r e' s' C' (Hf & Hok' & Hc' & Hw' & Ht') Hdw' Hr Hadd. apply wp_ret.
  split; [apply Hf|]. split; [apply Hf|]. split; [intros q Hq1 Hq2; by apply (keep_none [p] e e' s s' dc C)|]. left.
  destruct Hadd as (hi & Hhi & HC'); [done|rewrite Ht; by left|].
  exists dc, C', out, (if hi then X ++ [(high, ob_data o)] else X). split; try done.
  - congruence.
  - by rewrite (fr_protocol Hf).
  - rewrite (fr_fd Hf). pose proof (wrote_written _ _ _ _ _ _ Hw Hw') as Hww. by rewrite app_nil_r in Hww.
  - rewrite (HC' true). destruct hi; cbn; [|done].
    rewrite fmap_app, !concat_app. cbn. rewrite app_nil_r. by rewrite <- Hb, !(assoc (++)).
  - intros b. rewrite (HC' false), pick_app. rewrite (pick_app _ ls). rewrite <- Hord, pick_app.
    destruct hi; unfold setc; cbn [Bool.eqb].
    + rewrite pick_app. rewrite <- !(assoc (++)). f_equal. destruct Hhi as [<-|(_ & Hh & Hl)].
      * destruct b; [by rewrite (pick_other false), app_nil_r|]. by rewrite (pick_one_other true), app_nil_r.
      * destruct (sokc_nothing _ _ _ _ Hok Hh Hl) as (_ & -> & _). by rewrite app_nil_r.
    + destruct Hhi as [<-|[? _]]; [|done]. rewrite fmap_app, pick_app. by rewrite (assoc (++)).
Qed.

Lemma run_sop_wp base ls (e : env K) s dc C out X op :
  stream base ls e s dc C out X -> op_ok (e_soi e) op -> (forall p, p ∈ ptr_of op -> e_mem e !! p = None) ->
  wp (run_sop op) (fun _ => step_post base (ls ++ label op) e s (ptr_of op)) (e, s).
Proof.
  intros Hst Hop Hfresh. pose proof (stream_live _ _ _ _ _ _ _ _ Hst) as Hlive.
  destruct op as [p o high|p o|]; cbn [run_sop label ptr_of op_ok] in *.
  - destruct Hop as [Hpk Hbase]. specialize (Hfresh p ltac:(by left)). rewrite wp_bind. unfold give. apply wp_on_env. rewrite wp_modify.
    destruct (stream_give _ _ _ _ _ _ _ _ p o Hst Hfresh) as [Hst1 Hni].
    eapply wp_mono; [eapply send_now_wp; [exact Hst1|apply lookup_insert_eq|done|done|done]|].
    intros _ [e' s'] (Hfd & Hsoi & Hmem & Hrest). split; [done|]. split; [done|]. split; [|exact Hrest].
    intros q Hq Hqp. apply Hmem; [|done]. cbn. rewrite lookup_insert_ne; [done|]. intros ->. apply Hqp. by left.
  - specialize (Hfresh p ltac:(by left)). rewrite wp_bind. unfold give. apply wp_on_env. rewrite wp_modify.
    destruct (stream_give _ _ _ _ _ _ _ _ p o Hst Hfresh) as [Hst1 Hni].
    set (e1 := set_mem (<[p:=o]> (e_mem e)) e) in *. rewrite wp_bind. apply wp_get. rewrite wp_bind. apply wp_on_env, wp_syscall.
    set (e2 := set_k _ e1).
    assert (stream base ls e2 s dc C out X) as Hst2 by (destruct Hst1 as [Hok1 ? ? ? ? ? ?]; split; try done; by apply sokc_k).
    assert (forall q, e_mem e !! q = None -> q ∉ [p] -> e_mem e2 !! q = None) as Hq.
    { intros q Hq Hqp. cbn. rewrite lookup_insert_ne; [done|]. intros ->. apply Hqp. by left. }
    destruct (can_direct_write s (s_id s) && negb _) eqn:Hd.
    + apply andb_true_iff in Hd as [Hd _]. unfold can_direct_write, nomore_sending_data, send_buffer_empty in Hd.
      apply andb_true_iff in Hd as [Hd _]. apply andb_true_iff in Hd as [Hd _]. apply andb_true_iff in Hd as [_ Hd].
      apply andb_true_iff in Hd as [Hd _]. apply andb_true_iff in Hd as [Hd Hdw]. apply andb_true_iff in Hd as [Hh%is_empty_true Hl%is_empty_true].
      assert (s_dw s = None) as Hdw0 by (by destruct (s_dw s)).
      pose proof Hst2 as [Hok Hc Ht Htcp Hw Hb Hord]. assert (dc = []) as ->.
      { pose proof (sok_dw _ _ _ _ _ Hok) as Hdr. by rewrite Hdw0 in Hdr. }
      rewrite wp_bind. apply (direct_write_wp slot p (size_of o) o e2 s C); try done; [apply lookup_insert_eq|].
      intros r e' s' dc w (Hf & Hok' & Hc' & Hw' & Ht') Hdat _. apply wp_ret.
      split; [apply Hf|]. split; [apply Hf|]. split; [intros q Hq1 Hq2; apply (keep_none [p] e2 e' s s' [] C); auto|]. left.
      destruct (sokc_nothing _ _ _ _ Hok Hh Hl) as (HCt & HCf & _).
      exists dc, C, (out ++ w), (X ++ [(true, ob_data o)]). split; try done.
      * congruence.
      * by rewrite (fr_protocol Hf).
      * rewrite (fr_fd Hf). by eapply wrote_written.
      * rewrite HCt in *. cbn in *. rewrite app_nil_r in *. rewrite fmap_app, concat_app, <- Hb. cbn. rewrite app_nil_r.
        rewrite (Hdat Htcp). by rewrite (assoc (++)).
      * intros b. rewrite HCf in *. cbn in *. rewrite app_nil_r. rewrite !pick_app. f_equal. rewrite <- Hord. by rewrite app_nil_r.
    + eapply wp_mono; [eapply send_now_wp; [exact Hst2|apply lookup_insert_eq|done|done|done]|].
      intros _ [e' s'] (Hfd & Hsoi & Hmem & Hrest). split; [done|]. split; [done|]. split; [|exact Hrest]. intros q Hq1 Hq2. apply Hmem; auto.
  - pose proof Hst as [Hok Hc Ht Htcp Hw Hb Hord]. rewrite app_nil_r, wp_bind.
    apply (send_buffer_wp slot e s dc C); try done.
    + intros r e' s' w dc' C' (Hf & Hok' & Hc' & Hw' & Ht') Hr Hfl. apply wp_ret.
      split; [apply Hf|]. split; [apply Hf|]. split; [intros q Hq1 Hq2; by apply (keep_none [] e e' s s' dc C)|]. left.
      destruct (Hfl Htcp) as (dn & HCf & Hbytes). exists dc', C', (out ++ w), (X ++ (pair false <$> dn)). split; try done.
      * congruence.
      * by rewrite (fr_protocol Hf).
      * rewrite (fr_fd Hf). by eapply wrote_written.
      * rewrite fmap_app, concat_app, <- Hb. rewrite <- !(assoc (++)). rewrite <- Hbytes. do 3 f_equal.
        clear. induction dn; cbn; [done|]. by rewrite IHdn.
      * intros b. rewrite <- Hord, HCf, fmap_app, <- (assoc (++)). done.
    + intros e' s' w lost [Hf Hcl Hp Hw'] Hl. apply wp_ret.
      split; [apply Hf|]. split; [apply Hf|]. split; [intros q Hq1 Hq2; by apply (keep_none [] e e' s s' dc C)|]. right. split; [done|].
      exists (out ++ w), lost, (X ++ (pair false <$> C false)). split; [by eapply wrote_written|]. split; [|done].
      rewrite fmap_app, concat_app, <- Hb, <- (assoc (++)), <- (Hl Htcp), <- !(assoc (++)). do 3 f_equal.
      clear. induction (C false); cbn; [done|]. by rewrite IHl.
Qed.

Lemma run_sops_wp ops : forall base ls (e : env K) s dc C out X,
  stream base ls e s dc C out X -> Forall (op_ok (e_soi e)) ops -> NoDup (concat (ptr_of <$> ops)) ->
  (forall p, p ∈ concat (ptr_of <$> ops) -> e_mem e !! p = None) ->
  wp (run_sops ops) (fun _ st => exists ops1 out rest order,
    ops1 `prefix_of` ops /\ written (s_fd s) (e_trace st.1) = base ++ out /\ out ++ rest = concat (snd <$> order) /\
    (forall b, pick b order = pick b (ls ++ labels ops1)) /\
    (s_type st.2 = SOCKET_TYPE_INVALID \/ ops1 = ops /\ rest = waiting (e_mem st.1) st.2)) (e, s).
Proof.
  induction ops as [|op ops IH]; intros base ls e s dc C out X Hst Hops Hnd Hfresh; cbn [run_sops].
  { apply wp_ret. exists [], out, (dc ++ concat (C true) ++ concat (C false)), (X ++ (pair false <$> C false)).
    pose proof Hst as [Hok Hc Ht Htcp Hw Hb Hord]. cbn [fst snd]. split; [done|]. split; [done|].
    split; [|split; [by rewrite app_nil_r|right; split; [done|by rewrite (waiting_bytes _ _ _ _ Hok)]]].
    rewrite fmap_app, concat_app, <- Hb, <- !(assoc (++)). do 3 f_equal. clear. induction (C false); cbn; [done|]. by rewrite IHl. }
  apply Forall_cons in Hops as [Hop Hops]. cbn [fmap list_fmap concat] in Hnd, Hfresh. apply NoDup_app in Hnd as (_ & Hdis & Hnd).
  rewrite wp_bind. eapply wp_mono; [eapply run_sop_wp; [exact Hst|done|]|].
  { intros p Hp. apply Hfresh. apply elem_of_app. by left. }
  intros _ [e1 s1] (Hfd & Hsoi & Hmem & Hrest). rewrite wp_bind. apply wp_get.
  destruct Hrest as [(dc1 & C1 & out1 & X1 & Hst1)|(Hcl & out1 & lost & order & Hw & Hb & Hord)].
  - destruct (Z.eqb_spec (s_type s1) SOCKET_TYPE_INVALID) as [Hi|_]; [by rewrite (st_type _ _ _ _ _ _ _ _ Hst1) in Hi|].
    eapply wp_mono; [eapply IH; [exact Hst1|by rewrite Hsoi|done|]|].
    + intros p Hp. apply Hmem; [apply Hfresh, elem_of_app; by right|]. intros Hp2. by apply (Hdis p).
    + intros _ st (ops1 & out2 & rest & order & Hpre & Hw & Hb & Hord & Hend). exists (op :: ops1), out2, rest, order.
      rewrite Hfd in Hw. split; [by apply prefix_cons|]. split; [done|]. split; [done|].
      split; [intros b; by rewrite Hord, <- (assoc (++))|]. destruct Hend as [|[-> ->]]; [by left|by right].
  - destruct Hcl as (Hi & _). rewrite Hi, Z.eqb_refl. apply wp_ret.
    exists [op], out1, lost, order. split; [apply prefix_cons, prefix_nil|]. split; [done|]. split; [done|].
    split; [intros b; rewrite Hord; unfold labels; cbn; by rewrite app_nil_r|by left].
Qed.

(** A connected socket that has nothing to send. *)
Definition idle_tcp (s : socket) : Prop :=
  s_type s = SOCKET_TYPE_CONNECTED /\ s_protocol s = PROTOCOL_TCP /\ s_high s = [] /\ s_low s = [] /\ s_dw s = None /\ s_wb_size s = 0.

(** [C19] On a connected TCP socket any sequence of packages of both priorities, of direct
    writes and of the descriptor becoming writable runs without a failed assert or a
    use of freed memory, whatever part of each write the kernel takes.  The bytes
    that went out, followed by those that wait, are whole packages one behind the
    other; those of high priority and direct writes keep their order, and so do
    those of low priority.  If an error closed the socket, what went out is a first
    part of such a sequence. *)
Theorem tcp_stream (e : env K) s ops :
  idle_tcp s -> Forall (op_ok (e_soi e)) ops -> NoDup (concat (ptr_of <$> ops)) ->
  (forall p, p ∈ concat (ptr_of <$> ops) -> e_mem e !! p = None) ->
  exists e' s' ops1 out rest order,
    run_sops ops (e, s) = Some (tt, (e', s')) /\ ops1 `prefix_of` ops /\
    written (s_fd s) (e_trace e') = written (s_fd s) (e_trace e) ++ out /\ out ++ rest = concat (snd <$> order) /\
    (forall b, pick b order = pick b (labels ops1)) /\
    (s_type s' = SOCKET_TYPE_INVALID \/ ops1 = ops /\ rest = waiting (e_mem e') s').
Proof.
  intros (Ht & Htcp & Hh & Hl & Hdw & Hwb) Hops Hnd Hfresh.
  assert (stream (written (s_fd s) (e_trace e)) [] e s [] (fun _ => []) [] []) as Hst.
  { split; try done; [by apply sokc_empty|by rewrite Hl|by rewrite app_nil_r]. }
  pose proof (run_sops_wp ops _ _ _ _ _ _ _ _ Hst Hops Hnd Hfresh) as Hw. apply wp_run in Hw.
  destruct Hw as ([] & [e' s'] & Hrun & ops1 & out & rest & order & Hr). exists e', s', ops1, out, rest, order. by rewrite Hrun.
Qed.
End stream.

(** ** A kernel *)

Module Demo.

(** A kernel that takes as much of each write as a list of numbers says, the rest at
    once; -1 is EAGAIN.  It gives descriptor 9 to every connection. *)
Definition script : Type := list Z.
Definition taken (bytes : list Z) (k : script) : (errno + Z) * script :=
  match k with
  | [] => (inr (zlen bytes), [])
  | n :: k => (if n <? 0 then inl EAGAIN else inr (n `min` zlen bytes), k)
  end.

#[export] Instance demo_kernel : Kernel script := {
  sys_write _ bytes k := taken bytes k;
  sys_sendto _ bytes _ k := taken bytes k;
  sys_read _ _ k := (inl EAGAIN, k);
  sys_recvfrom _ _ k := (inl EAGAIN, k);
  sys_accept _ k := (inr (9, V4 [0; 80] [10; 0; 0; 1]), k);
  sys_so_error _ k := (inr 0, k);
  sys_getpeername _ k := (None, k);
  sys_getsockname _ k := (None, k);
  sys_getaddrinfo _ _ _ k := (inr [V4 [0; 80] [10; 0; 0; 1]], k);
  sys_socket _ k := (inr 9, k);
  sys_connect _ _ k := (None, k);
  sys_reuse_bind _ _ k := (true, k);
  sys_listen _ _ k := (true, k);
  sys_epoll_add _ k := (false, k);
  sys_epoll_wait p _ k :=
    (match map_to_list p with (_, (i, w)) :: _ => inr [Event (Some i) true w false false] | [] => inl (EERR 1) end, k);
  sys_locked k := (false, k);
  inet_ntop _ := Some "10.0.0.1"%string;
  sys_patience := 0
}.

Lemma taken_range bytes k n : (taken bytes k).1 = inr n -> 0 <= n <= zlen bytes.
Proof.
  pose proof (zlen_nonneg bytes). destruct k as [|m k]; simpl; [intros [= <-]; lia|].
  destruct (Z.ltb_spec m 0); [done|]. intros [= <-]. lia.
Qed.

#[export] Instance demo_lawful : LawfulKernel script.
Proof.
  split.
  - intros fd bytes k n. apply taken_range.
  - intros fd bytes k. simpl. destruct k as [|m k]; simpl; [done|]. by destruct (m <? 0).
  - intros fd bytes sa k n. apply taken_range.
  - done.
  - done.
  - intros p max k l. simpl. destruct (map_to_list p) as [|[fd [i w]] r]; by intros [= <-].
  - intros p max k l e i. simpl. destruct (map_to_list p) as [|[fd [j w]] r] eqn:Hp; intros [= <-].
    intros ->%list_elem_of_singleton. intros [= <-]. exists fd, w. apply elem_of_map_to_list. rewrite Hp. by left.
  - intros p max k l. simpl. destruct (map_to_list p) as [|[fd [i w]] r]; intros [= <-] _. apply NoDup_singleton.
Qed.

Definition connected : socket :=
  Socket 1 [] [] 0 (Stat 0 0 0 0) 0 9 3 PROTOCOL_TCP SOCKET_TYPE_CONNECTED 0 0 64 [] None.
Definition start_env (k : script) (soi : bool) : env script := Env k ∅ {[ 9 := (3, false) ]} [] 0 soi.

(** Two packages of low priority of which the kernel takes a part, a direct write that
    comes too late to be one, and one of high priority. *)
Definition demo_ops : list sop :=
  [OSend 100 (Object false 100 [1; 2; 3]) false; OSend 200 (Object false 200 [4; 5]) false; OWritable;
   ODirect 300 (Object false 300 [6; 7]); OWritable; OSend 400 (Object false 400 [8]) true; OWritable].
Definition demo_run := run_sops 3 demo_ops (start_env [2; -1; 1; 1; -1; 4; -1] false, connected).
End Demo.
Import Demo.


Lemma tcp_stream_witness :
  exists e' s' ops1 out rest order,
    Demo.demo_run = Some (tt, (e', s')) /\ ops1 `prefix_of` Demo.demo_ops /\
    written 9 (e_trace e') = [] ++ out /\ out ++ rest = concat (snd <$> order) /\
    (forall b, pick b order = pick b (labels ops1)) /\
    (s_type s' = SOCKET_TYPE_INVALID \/ ops1 = Demo.demo_ops /\ rest = waiting (e_mem e') s').
Proof.
  apply (tcp_stream 3 (Demo.start_env [2; -1; 1; 1; -1; 4; -1] false) Demo.connected Demo.demo_ops).
  - repeat split.
  - repeat (apply Forall_cons; split; [repeat split|]). by apply Forall_nil.
  - apply (bool_decide_unpack _). by vm_compute.
  - intros p Hp. apply lookup_empty.
Defined.
