(* ===== verification/SocketInv.v ===== *)
(** The invariant of the socket server: what holds between any two steps of the socket
    thread and of the threads that call it.

    Requests are in the pipe or on their way to it.  A reserved slot waits for its
    request; a block is held by one socket or is in one request; events are those
    of open sockets; the counter of a TCP socket is the number of its packages that
    are on their way. *)

From S2P Require Import Prelude Bytes State Socket SocketServer SocketBuffer.
#[local] Set Default Proof Using "Type*".
Local Open Scope Z_scope.
Local Open Scope st_scope.

(** ** What requests carry *)

(** The id of a reserved slot that the request opens. *)
Definition open_id (r : request) : option Z :=
  match r with RBind id _ _ | RListen id _ _ | ROpen id _ _ _ | RUdp id _ _ _ => Some id | _ => None end.
Definition close_id (r : request) : option Z := match r with RClose id _ _ => Some id | _ => None end.
(** The id a package is sent to, and if the socket's counter counts it. *)
Definition send_id (r : request) : option (Z * bool) :=
  match r with RSend id _ _ _ => Some (id, true) | RSendUdp id _ _ _ => Some (id, false) | _ => None end.
(** The package: its block, its size, and if it has high priority. *)
Record package := Package { pk_ptr : Z; pk_sz : Z; pk_high : bool }.
Definition send_pkg (r : request) : option package :=
  match r with RSend _ sz p high => Some (Package p sz high) | RSendUdp _ sz p _ => Some (Package p sz true) | _ => None end.

(** The packages for [id] that its counter counts. *)
Definition count (id : Z) (sn : list (Z * bool)) : Z := zlen (filter (fun x => x = (id, true)) sn).

Lemma count_cons id x sn : count id (x :: sn) = (if decide (x = (id, true)) then 1 else 0) + count id sn.
Proof. unfold count. rewrite filter_cons. case_decide; [by rewrite zlen_cons|done]. Qed.
Lemma count_other id id' b sn : id <> id' -> count id ((id', b) :: sn) = count id sn.
Proof. intros Hne. rewrite count_cons, decide_False; [done|]. by intros [= <-]. Qed.
Lemma count_nonneg id sn : 0 <= count id sn.
Proof. apply zlen_nonneg. Qed.
Lemma count_none id sn : (id, true) ∉ sn -> count id sn = 0.
Proof. intros Hn. unfold count. rewrite filter_none; [done|]. by intros x Hx ->. Qed.
#[export] Instance count_perm id : Proper ((≡ₚ) ==> eq) (count id).
Proof. intros l l' Hl. unfold count, zlen. by rewrite Hl. Qed.

Section inv.
Context {K : Type} `{LawfulKernel K}.
Context (junk : Z -> socket).
Implicit Types (ss : socket_server K) (e : env K) (s : socket) (pk : list package) (sn : list (Z * bool)) (op : list Z).

(** ** The invariant *)

Definition buffers_ok e s : Prop := exists dc C, sokc e s dc C /\ Forall complete (s_low s).

Record slot_ok e (alloc : Z) sn op (i : Z) s : Prop := {
  so_id : HASH_ID (s_id s) = i /\ 0 < s_id s <= alloc;
  so_idle : ~ live s -> s_high s = [] /\ s_low s = [];
  so_live : live s -> buffers_ok e s;
  so_res : s_type s = SOCKET_TYPE_RESERVE -> s_id s ∈ op /\ s_protocol s = PROTOCOL_UNKNOWN;
  so_count : s_protocol s = PROTOCOL_TCP ->
    s_sending s = Z.shiftl (ID_TAG16 (s_id s)) 16 + count (s_id s) sn /\ count (s_id s) sn <= 0xffff
}.

(** What is known of the id of a package on its way. *)
Definition known (slots : gmap Z socket) (alloc id : Z) : Prop :=
  id <= alloc /\ exists s, slots !! HASH_ID id = Some s /\ ~ (s_type s = SOCKET_TYPE_RESERVE /\ s_id s = id).

Definition package_ok e (x : package) : Prop :=
  exists o, e_mem e !! pk_ptr x = Some o /\ pkg_ok (e_soi e) (pk_ptr x) (pk_sz x) o /\ (pk_high x = false -> ob_base o = pk_ptr x).

(** For the packages [pk], the ids of packages [sn] and the reserved ids [op] on
    their way. *)
Record inv ss pk sn op : Prop := {
  iv_alloc : 0 <= sv_alloc_id ss;
  iv_slots : map_Forall (slot_ok (sv_env ss) (sv_alloc_id ss) sn op) (sv_slot ss);
  iv_opens : NoDup op;
  iv_open id : id ∈ op -> exists s, sv_slot ss !! HASH_ID id = Some s /\ s_type s = SOCKET_TYPE_RESERVE /\ s_id s = id;
  iv_known id b : (id, b) ∈ sn -> known (sv_slot ss) (sv_alloc_id ss) id;
  iv_ptrs : NoDup (pk_ptr <$> pk);
  iv_pkgs : Forall (package_ok (sv_env ss)) pk;
  iv_apart i s p : sv_slot ss !! i = Some s -> live s -> p ∈ held s -> p ∉ pk_ptr <$> pk;
  iv_disjoint i j s s' p : sv_slot ss !! i = Some s -> sv_slot ss !! j = Some s' -> live s -> live s' ->
    p ∈ held s -> p ∈ held s' -> i = j;
  iv_poll fd i w : e_poll (sv_env ss) !! fd = Some (i, w) -> exists s, sv_slot ss !! i = Some s /\ live s /\ s_fd s = fd
}.

(** The events not looked at yet are of different open sockets. *)
Definition evs ss : Prop :=
  NoDup (omap ev_s (sv_ev ss)) /\ forall i, i ∈ omap ev_s (sv_ev ss) -> exists s, sv_slot ss !! i = Some s /\ live s.

#[global] Instance live_dec s : Decision (live s).
Proof. unfold live. apply _. Defined.

Lemma slot_some ss i s : sv_slot ss !! i = Some s -> slot junk ss i = s.
Proof. intros Hs. unfold slot. by rewrite Hs. Qed.
Lemma slot_used ss i : s_type (slot junk ss i) <> SOCKET_TYPE_INVALID -> sv_slot ss !! i = Some (slot junk ss i).
Proof. unfold slot. by destruct (sv_slot ss !! i). Qed.

Lemma buffers_keep e e' s : e_soi e' = e_soi e -> (forall p, p ∈ held s -> e_mem e' !! p = e_mem e !! p) -> buffers_ok e s -> buffers_ok e' s.
Proof. intros Hsoi Hm (dc & C & Hok & Hc). exists dc, C. split; [by eapply sokc_keep|done]. Qed.

(** *** Changing one slot *)

Definition owned s : list Z := if decide (live s) then held s else [].
Lemma owned_live s : live s -> owned s = held s.
Proof. intros Hl. unfold owned. by rewrite decide_True. Qed.

(** What the slot [i] and its entries of the event set become. *)
Definition poll_ok (i : Z) s' (p p' : gmap Z (Z * bool)) : Prop :=
  forall fd j w, p' !! fd = Some (j, w) -> (j <> i /\ exists w', p !! fd = Some (j, w')) \/ (j = i /\ live s' /\ s_fd s' = fd).

Lemma inv_slot x pk ss ss' sn op sn' op' i s s' :
  inv ss (x ++ pk) sn op -> sv_slot ss !! i = Some s ->
  sv_slot ss' = <[i := s']> (sv_slot ss) -> sv_alloc_id ss' = sv_alloc_id ss ->
  e_soi (sv_env ss') = e_soi (sv_env ss) ->
  (forall p, p ∉ (pk_ptr <$> x) ++ owned s -> e_mem (sv_env ss') !! p = e_mem (sv_env ss) !! p) ->
  (forall p, live s' -> p ∈ held s' -> p ∈ (pk_ptr <$> x) ++ owned s) ->
  poll_ok i s' (e_poll (sv_env ss)) (e_poll (sv_env ss')) ->
  slot_ok (sv_env ss') (sv_alloc_id ss) sn' op' i s' -> s_id s' = s_id s ->
  (s_type s' = SOCKET_TYPE_RESERVE -> s_type s = SOCKET_TYPE_RESERVE) ->
  (forall id, HASH_ID id <> i -> count id sn' = count id sn) ->
  (forall id b, (id, b) ∈ sn' -> (id, b) ∈ sn \/ (id = s_id s /\ s_type s' <> SOCKET_TYPE_RESERVE)) ->
  NoDup op' -> (forall id, id ∈ op' -> id ∈ op /\ (HASH_ID id = i -> s_type s' = SOCKET_TYPE_RESERVE)) ->
  (forall id, HASH_ID id <> i -> id ∈ op -> id ∈ op') ->
  inv ss' pk sn' op'.
Proof.
  intros [Halloc Hslots Hopens Hopen Hknown Hptrs Hpkgs Hapart Hdisj Hpoll] Hs Hss' Ha' Hsoi Hmem Hheld Hp Hok Hid Hres Hcnt Hsn Hnd Hop Hop2.
  rewrite fmap_app in Hptrs. apply NoDup_app in Hptrs as (Hndx & Hxpk & Hndpk). apply Forall_app in Hpkgs as [_ Hpkgs].
  pose proof (Hslots i s Hs) as Hsok.
  assert (forall p, p ∈ owned s -> live s /\ p ∈ held s) as Howned.
  { unfold owned. intros p. case_decide; [done|by intros ?%not_elem_of_nil]. }
  assert (forall p, p ∈ pk_ptr <$> pk -> p ∉ (pk_ptr <$> x) ++ owned s) as Hpk.
  { intros p Hin [Hx|Ho]%elem_of_app; [by apply (Hxpk p)|]. apply Howned in Ho as [Hl Hh].
    apply (Hapart i s p Hs Hl Hh). rewrite fmap_app. apply elem_of_app. by right. }
  assert (forall j t p, sv_slot ss !! j = Some t -> j <> i -> live t -> p ∈ held t -> p ∉ (pk_ptr <$> x) ++ owned s) as Hothers.
  { intros j t p Hj Hne Hl Hh [Hx|Ho]%elem_of_app.
    - apply (Hapart j t p Hj Hl Hh). rewrite fmap_app. apply elem_of_app. by left.
    - apply Howned in Ho as [Hl2 Hh2]. by apply Hne, (Hdisj j i t s p). }
  split; rewrite ?Ha', ?Hss'.
  - done.
  - intros j t. rewrite lookup_insert_Some. intros [[<- <-]|[Hne Hj]]; [done|].
    destruct (Hslots j t Hj) as [[Hji Hjb] Hidle Hlive Hr Hc]. split; try done.
    + intros Hl. eapply buffers_keep; [done| |by apply Hlive]. intros p Hh. apply Hmem. by apply (Hothers j t).
    + intros Ht. destruct (Hr Ht) as [Hin Hpr]. split; [|done]. apply Hop2; [by rewrite Hji|done].
    + intros Ht. rewrite (Hcnt (s_id t)); [by apply Hc|]. by rewrite Hji.
  - done.
  - intros id Hin. destruct (Hop id Hin) as [Hin0 Hi]. destruct (Hopen id Hin0) as (t & Ht & Htt & Hti).
    destruct (decide (HASH_ID id = i)) as [Heq|Hne].
    + exists s'. rewrite Heq, lookup_insert_eq. split; [done|]. split; [by apply Hi|]. rewrite Heq, Hs in Ht. injection Ht as <-. by rewrite Hid.
    + exists t. by rewrite lookup_insert_ne.
  - intros id b Hin. assert (id <= sv_alloc_id ss /\ (HASH_ID id = i -> ~ (s_type s' = SOCKET_TYPE_RESERVE /\ s_id s' = id)) /\
      (HASH_ID id <> i -> known (sv_slot ss) (sv_alloc_id ss) id)) as (Hle & Hyes & Hno).
    { destruct (Hsn id b Hin) as [Hin0|[-> Hnr]].
      - destruct (Hknown id b Hin0) as (Hle & t & Ht & Hnr). split; [done|]. split; [|by intros _; split; [|exists t]].
        intros Heq. rewrite Heq, Hs in Ht. injection Ht as <-. rewrite Hid. intros [Hr ?]. apply Hnr. auto.
      - split; [apply Hsok|]. split; [by intros _ [? _]|]. intros Hne. by destruct Hne; apply Hsok. }
    split; [done|]. destruct (decide (HASH_ID id = i)) as [Heq|Hne].
    + exists s'. rewrite Heq, lookup_insert_eq. split; [done|]. by apply Hyes.
    + destruct (Hno Hne) as (_ & t & Ht & Hnr). exists t. by rewrite lookup_insert_ne.
  - done.
  - apply Forall_forall. intros y Hy. rewrite Forall_forall in Hpkgs. destruct (Hpkgs y Hy) as (o & Ho & Hpo & Hb).
    exists o. rewrite Hsoi, Hmem; [done|]. apply Hpk, list_elem_of_fmap. by exists y.
  - intros j t p. rewrite lookup_insert_Some. intros [[<- <-]|[Hne Hj]] Hl Hh Hin.
    + by apply (Hpk p Hin), Hheld.
    + apply (Hapart j t p Hj Hl Hh). rewrite fmap_app. apply elem_of_app. by right.
  - intros j k t u p. rewrite !lookup_insert_Some.
    intros [[<- <-]|[Hne Hj]] [[<- <-]|[Hne2 Hk]] Hl Hl2 Hh Hh2; [done| | |by apply (Hdisj j k t u p)].
    + exfalso. by apply (Hothers k u p Hk (not_eq_sym Hne2) Hl2 Hh2), Hheld.
    + exfalso. by apply (Hothers j t p Hj (not_eq_sym Hne) Hl Hh), Hheld.
  - intros fd j w Hfd. destruct (Hp fd j w Hfd) as [[Hne (w' & Hw')]|(-> & Hl & Hf)].
    + destruct (Hpoll fd j w' Hw') as (t & Ht & Hl & Hf). exists t. by rewrite lookup_insert_ne.
    + exists s'. by rewrite lookup_insert_eq.
Qed.

(** *** An operation on an open socket *)

(** What it leaves: the socket is open, or it is closed and without events. *)
Definition finished e' s s' : Prop := (live s' /\ buffers_ok e' s') \/ (closed s' /\ e_poll e' !! s_fd s = None).

Lemma fine_finished slot ps e s e' s' dc C w : live s -> fine slot ps e s e' s' dc C w -> finished e' s s'.
Proof. intros Hl (_ & Hok & Hc & _ & Ht). left. split; [by unfold live; rewrite Ht|by exists dc, C]. Qed.
Lemma shut_finished slot e s e' s' w : shut slot e s e' s' w -> finished e' s s'.
Proof. intros [_ Hc Hp _]. by right. Qed.

Definition put ss (i : Z) e s : socket_server K := set_slot (<[i := s]> (sv_slot ss)) (set_env e ss).

Lemma inv_move x pk ss sn op i s e' s' :
  inv ss (x ++ pk) sn op -> sv_slot ss !! i = Some s -> live s ->
  framep i ((pk_ptr <$> x) ++ held s) (sv_env ss) s e' s' -> finished e' s s' -> inv (put ss i e' s') pk sn op.
Proof.
  intros Hinv Hs Hlive Hf Hfin. pose proof (iv_slots _ _ _ _ Hinv i s Hs) as [[Hi Hb] _ _ _ Hc].
  assert (live s' \/ closed s') as Hcases by (destruct Hfin as [[? _]|[? _]]; auto).
  assert (s_type s' <> SOCKET_TYPE_RESERVE) as Hnr by (destruct Hcases as [[_ ?]|[-> _]]; done).
  apply (inv_slot x pk ss _ sn op sn op i s s'); try done; rewrite ?(owned_live s Hlive).
  - apply (fr_soi Hf).
  - apply (fr_keep Hf).
  - intros p _. apply (fr_held Hf).
  - intros fd j w Hfd. destruct (fr_poll Hf fd j w Hfd) as (j' & w' & Hw' & Hj).
    destruct (iv_poll _ _ _ _ Hinv fd j' w' Hw') as (t & Ht & Hlt & Hft).
    destruct (decide (j = i)) as [->|Hne].
    + right. split; [done|]. assert (fd = s_fd s) as ->.
      { destruct Hj as [<-|[-> _]]; [|done]. rewrite Hs in Ht. injection Ht as <-. done. }
      destruct Hfin as [[Hl _]|[_ Hp]]; [|by change (e_poll e' !! s_fd s = Some (i, w)) in Hfd; congruence]. split; [done|]. by rewrite (fr_fd Hf).
    + left. split; [done|]. exists w'. destruct Hj as [->|[_ ->]]; done.
  - split.
    + by rewrite (fr_id Hf).
    + intros Hn. destruct Hfin as [[? _]|[(_ & ? & ? & _) _]]; done.
    + intros Hl. destruct Hfin as [[_ ?]|[(Ht & _) _]]; [done|]. by destruct Hl.
    + done.
    + rewrite (fr_protocol Hf), (fr_sending Hf), (fr_id Hf). done.
  - apply (fr_id Hf).
  - intros id b Hin. by left.
  - apply (iv_opens _ _ _ _ Hinv).
  - intros id Hin. split; [done|]. intros Hhi. exfalso.
    destruct (iv_open _ _ _ _ Hinv id Hin) as (t & Ht & Hr & _). rewrite Hhi, Hs in Ht. injection Ht as <-. by destruct Hlive.
Qed.

(** *** Other changes *)

#[global] Instance inv_proper ss : Proper ((≡ₚ) ==> (≡ₚ) ==> (≡ₚ) ==> impl) (inv ss).
Proof.
  intros pk pk' Hpk sn sn' Hsn op op' Hop [Halloc Hslots Hopens Hopen Hknown Hptrs Hpkgs Hapart Hdisj Hpoll]. split; try done.
  - intros i s Hs. destruct (Hslots i s Hs) as [? ? ? Hr Hc]. split; try done.
    + rewrite <- Hop. done.
    + rewrite <- Hsn. done.
  - by rewrite <- Hop.
  - intros id. rewrite <- Hop. apply Hopen.
  - intros id b. rewrite <- Hsn. apply Hknown.
  - by rewrite <- Hpk.
  - by rewrite <- Hpk.
  - intros i s p. rewrite <- Hpk. apply Hapart.
Qed.

(** The kernel, the trace, the clock, events and pipe do not matter. *)
Lemma inv_unchanged ss ss' pk sn op :
  inv ss pk sn op -> e_mem (sv_env ss') = e_mem (sv_env ss) -> e_soi (sv_env ss') = e_soi (sv_env ss) ->
  (forall fd i w, e_poll (sv_env ss') !! fd = Some (i, w) -> exists w', e_poll (sv_env ss) !! fd = Some (i, w')) ->
  sv_slot ss' = sv_slot ss -> sv_alloc_id ss <= sv_alloc_id ss' -> inv ss' pk sn op.
Proof.
  intros [Halloc Hslots Hopens Hopen Hknown Hptrs Hpkgs Hapart Hdisj Hpoll] Hm Hsoi Hp Hs Ha.
  split; rewrite ?Hs; try done.
  - lia.
  - intros i s Hi. destruct (Hslots i s Hi) as [[? ?] ? Hl ? ?]. split; try done; [split; [done|lia]|].
    intros Hli. eapply (buffers_keep (sv_env ss)); [done| |by apply Hl]. intros p _. by rewrite Hm.
  - intros id b Hin. destruct (Hknown id b Hin) as (? & s & ? & ?). split; [lia|]. by exists s.
  - eapply Forall_impl; [exact Hpkgs|]. intros x (o & ? & ? & ?). exists o. by rewrite Hm, Hsoi.
  - intros fd i w Hfd. destruct (Hp fd i w Hfd) as (w' & Hw'). by eapply Hpoll.
Qed.

Lemma inv_given ss pk sn op p sz high o :
  inv ss pk sn op -> e_mem (sv_env ss) !! p = None -> pkg_ok (e_soi (sv_env ss)) p sz o -> (high = false -> ob_base o = p) ->
  inv (set_env (set_mem (<[p := o]> (e_mem (sv_env ss))) (sv_env ss)) ss) (Package p sz high :: pk) sn op.
Proof.
  intros [Halloc Hslots Hopens Hopen Hknown Hptrs Hpkgs Hapart Hdisj Hpoll] Hp Hok Hb.
  assert (forall i s, sv_slot ss !! i = Some s -> live s -> p ∉ held s) as Hni.
  { intros i s Hs Hl Hin. destruct (so_live _ _ _ _ _ _ (Hslots i s Hs) Hl) as (dc & C & Hsok & _).
    destruct (held_mem _ _ _ _ _ Hsok Hin) as [x Hx]. congruence. }
  split; try done.
  - intros i s Hs. destruct (Hslots i s Hs) as [? ? Hl ? ?]. split; try done. intros Hli.
    eapply (buffers_keep (sv_env ss)); [done| |by apply Hl]. intros q Hq. cbn. rewrite lookup_insert_ne; [done|]. intros <-. by apply (Hni i s).
  - cbn. apply NoDup_cons. split; [|done]. intros (x & -> & Hx)%list_elem_of_fmap. rewrite Forall_forall in Hpkgs.
    destruct (Hpkgs x Hx) as (o' & Ho' & _). congruence.
  - constructor.
    + exists o. cbn. by rewrite lookup_insert_eq.
    + eapply Forall_impl; [exact Hpkgs|]. intros x (o' & Ho' & ? & ?). exists o'. split; [|done]. cbn.
      rewrite lookup_insert_ne; [done|]. intros ->. congruence.
  - intros i s q Hs Hl Hin. cbn. intros [->|Hin2]%elem_of_cons; [by apply (Hni i s)|]. by apply (Hapart i s q).
Qed.

(** A package is freed. *)
Lemma inv_freed ss pk sn op x : inv ss (x :: pk) sn op ->
  inv (set_env (set_mem (delete (pk_ptr x) (e_mem (sv_env ss))) (sv_env ss)) ss) pk sn op.
Proof.
  intros [Halloc Hslots Hopens Hopen Hknown Hptrs Hpkgs Hapart Hdisj Hpoll]. cbn in Hptrs.
  apply NoDup_cons in Hptrs as [Hni Hnd]. apply Forall_cons in Hpkgs as [_ Hpkgs]. split; try done.
  - intros i s Hs. destruct (Hslots i s Hs) as [? ? Hl ? ?]. split; try done. intros Hli.
    eapply (buffers_keep (sv_env ss)); [done| |by apply Hl]. intros q Hq. cbn. apply lookup_delete_ne. intros <-.
    apply (Hapart i s _ Hs Hli Hq). by left.
  - apply Forall_forall. intros y Hy. rewrite Forall_forall in Hpkgs. destruct (Hpkgs y Hy) as (o & Ho & ? & ?).
    exists o. split; [|done]. cbn. rewrite lookup_delete_ne; [done|]. intros Heq. apply Hni. rewrite Heq. by apply list_elem_of_fmap_2.
  - intros i s q Hs Hl Hin Hin2. apply (Hapart i s q Hs Hl Hin). by right.
Qed.

(** The same buffers, in a socket that is open. *)
Definition similar s s' : Prop :=
  s_high s' = s_high s /\ s_low s' = s_low s /\ s_dw s' = s_dw s /\ s_wb_size s' = s_wb_size s /\
  s_fd s' = s_fd s /\ s_id s' = s_id s /\ s_protocol s' = s_protocol s /\ s_sending s' = s_sending s.
Lemma similar_buffers e s s' : similar s s' -> buffers_ok e s -> buffers_ok e s'.
Proof.
  intros (Hh & Hl & Hd & Hw & _) (dc & C & [H1 H2 H3 H4 H5] & Hc). exists dc, C. rewrite Hl. split; [|done].
  split; rewrite ?Hh, ?Hl, ?Hd, ?Hw; try done. unfold held. by rewrite Hh, Hl, Hd.
Qed.
Lemma similar_held s s' : similar s s' -> held s' = held s.
Proof. intros (Hh & Hl & Hd & _). unfold held. by rewrite Hh, Hl, Hd. Qed.

Lemma inv_tweak ss pk sn op i s e' s' :
  inv ss pk sn op -> sv_slot ss !! i = Some s -> live s -> similar s s' -> live s' ->
  e_mem e' = e_mem (sv_env ss) -> e_soi e' = e_soi (sv_env ss) ->
  (forall fd j w, e_poll e' !! fd = Some (j, w) -> (exists w', e_poll (sv_env ss) !! fd = Some (j, w')) \/ (fd = s_fd s /\ j = i)) ->
  inv (put ss i e' s') pk sn op.
Proof.
  intros Hinv Hs Hl Hsim Hl' Hm Hsoi Hp. pose proof (iv_slots _ _ _ _ Hinv i s Hs) as [[Hi Hb] _ Hlive _ Hc].
  destruct Hsim as (Hh & Hlo & Hd & Hw & Hf & Hid & Hpr & Hse).
  assert (similar s s') as Hsim by done.
  apply (inv_slot [] pk ss _ sn op sn op i s s'); try done; rewrite ?(owned_live s Hl).
  - intros p _. cbn. by rewrite Hm.
  - intros p _. by rewrite (similar_held _ _ Hsim).
  - intros fd j w Hfd. destruct (Hp fd j w Hfd) as [[w' Hfd']|[-> ->]].
    + destruct (iv_poll _ _ _ _ Hinv fd j w' Hfd') as (t & Ht & _ & Hft). destruct (decide (j = i)) as [->|Hne].
      * right. split; [done|]. split; [done|]. rewrite Hs in Ht. injection Ht as <-. congruence.
      * left. split; [done|]. by exists w'.
    + right. done.
  - split.
    + by rewrite Hid.
    + done.
    + intros _. eapply (buffers_keep (sv_env ss)); [done| |eapply similar_buffers; [done|by apply Hlive]]. intros p _. cbn. by rewrite Hm.
    + intros Hr. by destruct Hl'.
    + by rewrite Hpr, Hse, Hid.
  - intros Hr. by destruct Hl'.
  - intros id b Hin. by left.
  - apply (iv_opens _ _ _ _ Hinv).
  - intros id Hin. split; [done|]. intros Hhi. exfalso.
    destruct (iv_open _ _ _ _ Hinv id Hin) as (t & Ht & Hr & _). rewrite Hhi, Hs in Ht. injection Ht as <-. by destruct Hl.
Qed.

(** *** Reserving a slot and opening it *)

Definition reserved (id : Z) s : socket :=
  set_fd (-1) (set_udpconnecting 0 (set_protocol PROTOCOL_UNKNOWN (set_id id (set_type SOCKET_TYPE_RESERVE s)))).

Lemma slot_idle ss pk sn op i : inv ss pk sn op -> s_type (slot junk ss i) = SOCKET_TYPE_INVALID ->
  s_high (slot junk ss i) = [] /\ s_low (slot junk ss i) = [].
Proof.
  intros Hinv Ht. destruct (sv_slot ss !! i) as [s|] eqn:Hs; [|unfold slot; by rewrite Hs].
  rewrite (slot_some _ _ _ Hs) in *. eapply so_idle; [by apply (iv_slots _ _ _ _ Hinv i s)|]. intros [? _]. done.
Qed.

Lemma op_bound ss pk sn op id : inv ss pk sn op -> id ∈ op -> id <= sv_alloc_id ss.
Proof.
  intros Hinv Hin. destruct (iv_open _ _ _ _ Hinv id Hin) as (s & Hs & _ & <-). apply (iv_slots _ _ _ _ Hinv _ s Hs).
Qed.
Lemma sn_bound ss pk sn op id b : inv ss pk sn op -> (id, b) ∈ sn -> id <= sv_alloc_id ss.
Proof. intros Hinv Hin. apply (iv_known _ _ _ _ Hinv id b Hin). Qed.

Lemma inv_reserve ss pk sn op id :
  inv ss pk sn op -> sv_alloc_id ss < id -> s_type (slot junk ss (HASH_ID id)) = SOCKET_TYPE_INVALID ->
  inv (set_slot (<[HASH_ID id := reserved id (slot junk ss (HASH_ID id))]> (sv_slot ss)) (set_alloc_id id ss)) pk sn (id :: op).
Proof.
  intros Hinv Hid Ht. pose proof (slot_idle _ _ _ _ _ Hinv Ht) as [Hh Hl]. set (i := HASH_ID id) in *. set (s := slot junk ss i) in *.
  assert (forall j t, sv_slot ss !! j = Some t -> s_type t <> SOCKET_TYPE_INVALID -> j <> i) as Hne.
  { intros j t Hj Htt ->. unfold s in Ht. rewrite (slot_some _ _ _ Hj) in Ht. done. }
  assert (~ live (reserved id s)) as Hnl by (intros [_ ?]; done).
  pose proof (fun id => op_bound _ _ _ _ id Hinv) as Hopb. pose proof (fun id b => sn_bound _ _ _ _ id b Hinv) as Hsnb.
  destruct Hinv as [Halloc Hslots Hopens Hopen Hknown Hptrs Hpkgs Hapart Hdisj Hpoll].
  split; cbn [sv_slot sv_alloc_id sv_env set_slot set_alloc_id]; try done.
  - lia.
  - intros j t. rewrite lookup_insert_Some. intros [[<- <-]|[Hji Hj]].
    + split; try done. { split; [done|]. cbn. lia. } intros _. split; [by left|done].
    + destruct (Hslots j t Hj) as [[? ?] ? ? Hr ?]. split; try done; [split; [done|lia]|].
      intros Hrt. destruct (Hr Hrt). split; [by right|done].
  - constructor; [|done]. intros Hin%Hopb. lia.
  - intros id' [->|Hin]%elem_of_cons.
    + eexists. by rewrite lookup_insert_eq.
    + destruct (Hopen id' Hin) as (t & Ht' & Htt & Hti). exists t. rewrite lookup_insert_ne; [done|]. intros Heq.
      rewrite <- Heq in Ht'. apply (Hne i t); [done|by rewrite Htt|done].
  - intros id' b Hin. destruct (Hknown id' b Hin) as (Hle & t & Ht' & Hnr). split; [lia|].
    destruct (decide (HASH_ID id' = i)) as [Heq|Hn].
    + eexists. rewrite Heq, lookup_insert_eq. split; [done|]. intros [_ ?]. cbn in *. lia.
    + exists t. by rewrite lookup_insert_ne.
  - intros j t p. rewrite lookup_insert_Some. intros [[<- <-]|[_ Hj]] Hli Hin; [by destruct Hnl|by apply (Hapart j t)].
  - intros j k t u p. rewrite !lookup_insert_Some.
    intros [[<- <-]|[_ Hj]] [[<- <-]|[_ Hk]] Hlt Hlu; try by destruct Hnl. by apply Hdisj.
  - intros fd j w Hfd. destruct (Hpoll fd j w Hfd) as (t & Htj & Hlt & Hf). exists t. rewrite lookup_insert_ne; [done|].
    intros Heq. by apply (Hne j t Htj); [apply Hlt|].
Qed.

(** A reserved slot is given up. *)
Lemma inv_unreserve ss pk sn op id s s' :
  inv ss pk sn (id :: op) -> sv_slot ss !! HASH_ID id = Some s ->
  s_type s' = SOCKET_TYPE_INVALID -> s_high s' = [] -> s_low s' = [] -> s_id s' = id -> s_protocol s' = PROTOCOL_UNKNOWN ->
  inv (set_slot (<[HASH_ID id := s']> (sv_slot ss)) ss) pk sn op.
Proof.
  intros Hinv Hs Ht Hh Hl Hid Hpr.
  destruct (iv_open _ _ _ _ Hinv id ltac:(by left)) as (t & Ht' & Htt & Hti). rewrite Hs in Ht'. injection Ht' as <-.
  pose proof (iv_slots _ _ _ _ Hinv _ s Hs) as [[Hi Hb] _ _ _ _]. pose proof (iv_opens _ _ _ _ Hinv) as Hnd.
  apply NoDup_cons in Hnd as [Hni Hnd].
  assert (~ live s') as Hnl by (intros [? _]; done).
  apply (inv_slot [] pk ss _ sn (id :: op) sn op (HASH_ID id) s s'); try done.
  - intros fd j w Hfd. destruct (iv_poll _ _ _ _ Hinv fd j w Hfd) as (u & Hu & Hlu & _). left. split; [|by exists w].
    intros ->. rewrite Hs in Hu. injection Hu as <-. by destruct Hlu.
  - split; try done; rewrite Hid; try (rewrite <- Hti; done); rewrite Ht || rewrite Hpr; done.
  - by rewrite Hid.
  - intros id' b Hin. by left.
  - intros id' Hin. split; [by right|]. intros Hhi. exfalso.
    destruct (iv_open _ _ _ _ Hinv id' ltac:(by right)) as (u & Hu & _ & Huid). rewrite Hhi, Hs in Hu. injection Hu as <-.
    apply Hni. by rewrite <- Hti, Huid.
  - intros id' Hne [->|Hin]%elem_of_cons; done.
Qed.

Definition opened opaque id fd protocol (t : Z) s : socket :=
  Socket opaque [] [] 0 (Stat 0 0 0 0) (Z.shiftl (ID_TAG16 id) 16) fd id protocol t (s_udpconnecting s) 0 MIN_READ_BUFFER (s_udp_address s) None.

(** It becomes an open socket. *)
Lemma inv_open_slot ss pk sn op id s e' s' opaque fd protocol t :
  inv ss pk sn (id :: op) -> sv_slot ss !! HASH_ID id = Some s -> similar (opened opaque id fd protocol t s) s' -> live s' ->
  e_mem e' = e_mem (sv_env ss) -> e_soi e' = e_soi (sv_env ss) ->
  (forall fd' j w, e_poll e' !! fd' = Some (j, w) -> (exists w', e_poll (sv_env ss) !! fd' = Some (j, w')) \/ (fd' = fd /\ j = HASH_ID id)) ->
  inv (put ss (HASH_ID id) e' s') pk sn op.
Proof.
  intros Hinv Hs (Hh & Hlo & Hd & Hw & Hf & Hid & Hpr & Hse) Hl Hm Hsoi Hp. cbn in *.
  destruct (iv_open _ _ _ _ Hinv id ltac:(by left)) as (t' & Ht' & Htt & Hti). rewrite Hs in Ht'. injection Ht' as <-.
  pose proof (iv_slots _ _ _ _ Hinv _ s Hs) as [[Hi Hb] _ _ _ _]. pose proof (iv_opens _ _ _ _ Hinv) as Hnd.
  apply NoDup_cons in Hnd as [Hni Hnd].
  apply (inv_slot [] pk ss _ sn (id :: op) sn op (HASH_ID id) s s'); try done.
  - intros p _. cbn. by rewrite Hm.
  - intros p _. unfold held. rewrite Hh, Hlo, Hd. by intros ?%not_elem_of_nil.
  - intros fd' j w Hfd. destruct (Hp fd' j w Hfd) as [[w' Hfd']|[-> ->]]; [|by right].
    destruct (iv_poll _ _ _ _ Hinv fd' j w' Hfd') as (u & Hu & Hlu & _). left. split; [|by exists w'].
    intros ->. rewrite Hs in Hu. injection Hu as <-. by destruct Hlu.
  - split; try done.
    + rewrite Hid. split; [done|]. by rewrite <- Hti.
    + intros _. exists [], (fun _ => []). rewrite Hlo. split; [by apply sokc_empty|done].
    + intros Hr. by destruct Hl.
    + intros _. rewrite Hse, Hid, count_none; [lia|]. intros Hin.
      destruct (iv_known _ _ _ _ Hinv id true Hin) as (_ & u & Hu & Hnr). rewrite Hs in Hu. injection Hu as <-. by apply Hnr.
  - by rewrite Hid.
  - intros id' b Hin. by left.
  - intros id' Hin. split; [by right|]. intros Hhi. exfalso.
    destruct (iv_open _ _ _ _ Hinv id' ltac:(by right)) as (u & Hu & _ & Huid). rewrite Hhi, Hs in Hu. injection Hu as <-.
    apply Hni. by rewrite <- Hti, Huid.
  - intros id' Hne [->|Hin]%elem_of_cons; done.
Qed.

(** *** The counter of packages on their way *)

Lemma shiftl_16 t : Z.shiftl t 16 = t * 65536.
Proof. by rewrite Z.shiftl_mul_pow2. Qed.
Lemma sending_tag t c : 0 <= c <= 0xffff -> Z.shiftr (Z.shiftl t 16 + c) 16 = t.
Proof. intros Hc. rewrite shiftl_16, Z.shiftr_div_pow2 by lia. change (2 ^ 16) with 65536. rewrite Z.div_add_l by lia. rewrite Z.div_small; lia. Qed.
Lemma sending_count t c : 0 <= c <= 0xffff -> Z.land (Z.shiftl t 16 + c) 0xffff = c.
Proof.
  intros Hc. rewrite shiftl_16. change 0xffff with (Z.ones 16). rewrite Z.land_ones by lia. change (2 ^ 16) with 65536.
  rewrite Z.add_comm, Z.mod_add by lia. apply Z.mod_small. lia.
Qed.

Lemma inv_count ss pk sn op i s n sn' :
  inv ss pk sn op -> sv_slot ss !! i = Some s ->
  (forall id, id <> s_id s -> count id sn' = count id sn) ->
  (forall id b, (id, b) ∈ sn' -> (id, b) ∈ sn \/ (id = s_id s /\ s_type s <> SOCKET_TYPE_RESERVE)) ->
  (s_protocol s = PROTOCOL_TCP -> n = Z.shiftl (ID_TAG16 (s_id s)) 16 + count (s_id s) sn' /\ count (s_id s) sn' <= 0xffff) ->
  inv (set_slot (<[i := set_sending n s]> (sv_slot ss)) ss) pk sn' op.
Proof.
  intros Hinv Hs Hcnt Hsn Hn. pose proof (iv_slots _ _ _ _ Hinv i s Hs) as [[Hi Hb] Hidle Hlive Hres _].
  apply (inv_slot [] pk ss _ sn op sn' op i s (set_sending n s)); try done.
  - intros p Hl. cbn. by rewrite owned_live.
  - intros fd j w Hfd. destruct (iv_poll _ _ _ _ Hinv fd j w Hfd) as (t & Ht & Hl & Hf). destruct (decide (j = i)) as [->|Hne].
    + right. rewrite Hs in Ht. by injection Ht as <-.
    + left. split; [done|]. by exists w.
  - split; try done. intros Hl. destruct (Hlive Hl) as (dc & C & [] & Hc). exists dc, C. by split.
  - intros id Hne. apply Hcnt. intros ->. by rewrite Hi in Hne.
  - apply (iv_opens _ _ _ _ Hinv).
  - intros id Hin. split; [done|]. intros Hhi. destruct (iv_open _ _ _ _ Hinv id Hin) as (t & Ht & Hr & _).
    rewrite Hhi, Hs in Ht. by injection Ht as <-.
Qed.

Lemma set_sending_same s : set_sending (s_sending s) s = s.
Proof. by destruct s. Qed.
Lemma set_slot_same ss i s : sv_slot ss !! i = Some s -> set_slot (<[i := s]> (sv_slot ss)) ss = ss.
Proof. intros Hs. unfold set_slot. rewrite insert_id by done. by destruct ss. Qed.

(** A package that is not counted is on its way, or is no longer. *)
Lemma inv_send ss pk sn op s b :
  inv ss pk sn op -> sv_slot ss !! HASH_ID (s_id s) = Some s -> s_type s <> SOCKET_TYPE_RESERVE ->
  b = false \/ s_protocol s <> PROTOCOL_TCP -> inv ss pk ((s_id s, b) :: sn) op.
Proof.
  intros Hinv Hs Hres Hb. rewrite <- (set_slot_same ss _ s Hs). rewrite <- (set_sending_same s) at 2.
  eapply inv_count; [done|done| | |].
  - intros id Hne. apply count_other. done.
  - intros id b' [[= -> ->]|Hin]%elem_of_cons; [by right|by left].
  - intros Ht. destruct Hb as [->|?]; [|done]. rewrite count_cons, decide_False by done.
    by apply (so_count _ _ _ _ _ _ (iv_slots _ _ _ _ Hinv _ s Hs)).
Qed.
Lemma inv_arrived ss pk sn op id b :
  inv ss pk ((id, b) :: sn) op -> (b = true -> forall s, sv_slot ss !! HASH_ID id = Some s -> s_id s = id -> s_protocol s <> PROTOCOL_TCP) ->
  inv ss pk sn op.
Proof.
  intros Hinv Hb. pose proof Hinv as [Halloc Hslots Hopens Hopen Hknown Hptrs Hpkgs Hapart Hdisj Hpoll]. split; try done.
  - intros i s Hs. destruct (Hslots i s Hs) as [? ? ? ? Hc]. split; try done. intros Ht. destruct (Hc Ht) as [Hse Hle].
    assert (count (s_id s) ((id, b) :: sn) = count (s_id s) sn) as Heq.
    { rewrite count_cons. case_decide as Hd; [|done]. injection Hd as -> ->. exfalso. apply (Hb eq_refl s); [|done|done]. by rewrite (proj1 so_id0). }
    by rewrite <- Heq.
  - intros id' b' Hin. apply (Hknown id' b'). by right.
Qed.

(** *** What other parts see of a step *)

(** A message that says that socket [id] is closed. *)
Definition ended (r : option message) (id : Z) : Prop := exists m, r = Some m /\ is_end m = true /\ m_id m = id.

(** Open sockets stay open, or the message says that they are closed. *)
Record seen (r : option message) ss ss' : Prop := {
  mv_alloc : sv_alloc_id ss <= sv_alloc_id ss';
  mv_pipe : sv_pipe ss' = sv_pipe ss;
  mv_soi : e_soi (sv_env ss') = e_soi (sv_env ss);
  mv_live i s : sv_slot ss !! i = Some s -> live s ->
    exists s', sv_slot ss' !! i = Some s' /\ s_id s' = s_id s /\ (live s' \/ (s_type s' = SOCKET_TYPE_INVALID /\ ended r (s_id s)))
}.
Definition moved (r : option message) ss ss' : Prop := seen r ss ss' /\ sv_ev ss' = sv_ev ss.

Lemma seen_refl r ss : seen r ss ss.
Proof. split; try done; try lia. intros i s Hs Hl. exists s. auto. Qed.
Lemma moved_refl r ss : moved r ss ss.
Proof. split; [apply seen_refl|done]. Qed.
Lemma not_ended id : ~ ended None id.
Proof. by intros (m & ? & _). Qed.
Lemma seen_live ss ss' i s : seen None ss ss' -> sv_slot ss !! i = Some s -> live s ->
  exists s', sv_slot ss' !! i = Some s' /\ s_id s' = s_id s /\ live s'.
Proof.
  intros [_ _ _ Hlv] Hs Hl. destruct (Hlv i s Hs Hl) as (s' & Hs' & Hi & [Hl'|[_ He]]); [by exists s'|by apply not_ended in He].
Qed.
Lemma seen_trans r ss1 ss2 ss3 : seen None ss1 ss2 -> seen r ss2 ss3 -> seen r ss1 ss3.
Proof.
  intros Hm12 []. pose proof Hm12 as []. split; try congruence; [lia|]. intros i s Hs Hl.
  destruct (seen_live _ _ i s Hm12 Hs Hl) as (s2 & Hs2 & Hi & Hl2). rewrite <- Hi. by apply (mv_live0 i s2).
Qed.
Lemma seen_none r ss ss' : seen None ss ss' -> seen r ss ss'.
Proof.
  intros Hm. pose proof Hm as []. split; try done. intros i s Hs Hl. destruct (seen_live _ _ i s Hm Hs Hl) as (s' & ? & ? & ?). exists s'. auto.
Qed.
Lemma moved_trans r ss1 ss2 ss3 : moved None ss1 ss2 -> moved r ss2 ss3 -> moved r ss1 ss3.
Proof. intros [] []. split; [by eapply seen_trans|congruence]. Qed.
Lemma moved_none r ss ss' : moved None ss ss' -> moved r ss ss'.
Proof. intros []. split; [by apply seen_none|done]. Qed.
Lemma moved_slot r ss i e' s' :
  e_soi e' = e_soi (sv_env ss) ->
  (forall s, sv_slot ss !! i = Some s -> live s -> s_id s' = s_id s /\ (live s' \/ (s_type s' = SOCKET_TYPE_INVALID /\ ended r (s_id s)))) ->
  moved r ss (put ss i e' s').
Proof.
  intros Hsoi Hl. split; [|done]. split; try done. intros j s Hs Hlv. cbn. destruct (decide (i = j)) as [<-|Hne].
  - exists s'. rewrite lookup_insert_eq. split; [done|by eapply Hl].
  - exists s. rewrite lookup_insert_ne by done. auto.
Qed.
Lemma put_env ss i s : set_slot (<[i := s]> (sv_slot ss)) ss = put ss i (sv_env ss) s.
Proof. by destruct ss. Qed.
Lemma moved_env r ss e' : e_soi e' = e_soi (sv_env ss) -> moved r ss (set_env e' ss).
Proof. intros Hs. split; [|done]. split; try done. intros i s Hi Hl. exists s. auto. Qed.

(** The state after an operation: invariant, and what is seen of it. *)
Definition good pk sn op (r : option message) ss ss' : Prop := inv ss' pk sn op /\ moved r ss ss'.
Lemma good_trans pk pk' sn sn' op op' r ss1 ss2 ss3 :
  good pk sn op None ss1 ss2 -> good pk' sn' op' r ss2 ss3 -> good pk' sn' op' r ss1 ss3.
Proof. intros [_ Hm] [Hi Hm']. split; [done|by eapply moved_trans]. Qed.

(** Walking through the code. *)
Lemma wp_the_slot i (Q : socket -> socket_server K -> Prop) ss : Q (slot junk ss i) ss -> wp (the_slot junk i) Q ss.
Proof. done. Qed.
Lemma wp_on {A} i (m : ST (SE K) A) (Q : A -> socket_server K -> Prop) ss :
  wp m (fun a p => Q a (put ss i p.1 p.2)) (sv_env ss, slot junk ss i) -> wp (on junk i m) Q ss.
Proof. unfold on. by rewrite wp_zoom. Qed.
Lemma wp_sys {A} (m : ST (env K) A) (Q : A -> socket_server K -> Prop) ss : wp m (fun a e => Q a (set_env e ss)) (sv_env ss) -> wp (sys m) Q ss.
Proof. unfold sys. by rewrite wp_zoom. Qed.
Lemma wp_sys_call {A} (f : K -> A * K) (Q : A -> socket_server K -> Prop) ss :
  (forall a k, (f (e_k (sv_env ss))).1 = a -> Q a (set_env (set_k k (sv_env ss)) ss)) -> wp (sys (syscall f)) Q ss.
Proof. intros HQ. apply wp_sys, wp_syscall. by apply HQ. Qed.

Lemma good_env pk sn op ss e' : inv ss pk sn op -> e_mem e' = e_mem (sv_env ss) -> e_poll e' = e_poll (sv_env ss) -> e_soi e' = e_soi (sv_env ss) ->
  good pk sn op None ss (set_env e' ss).
Proof.
  intros Hinv Hm Hp Hs. split; [|by apply moved_env]. eapply inv_unchanged; [exact Hinv|done|done| |done|done].
  intros fd i w. change (e_poll e' !! fd = Some (i, w) -> exists w', e_poll (sv_env ss) !! fd = Some (i, w')). rewrite Hp. by exists w.
Qed.
Lemma good_refl pk sn op r ss : inv ss pk sn op -> good pk sn op r ss ss.
Proof. intros Hinv. split; [done|apply moved_refl]. Qed.

(** An operation on an open socket. *)
Lemma good_move x pk ss sn op i s e' s' r :
  inv ss (x ++ pk) sn op -> sv_slot ss !! i = Some s -> live s ->
  framep i ((pk_ptr <$> x) ++ held s) (sv_env ss) s e' s' -> finished e' s s' -> (closed s' -> ended r (s_id s)) ->
  good pk sn op r ss (put ss i e' s').
Proof.
  intros Hinv Hs Hl Hf Hfin Hend. split; [by eapply inv_move|]. apply moved_slot; [apply (fr_soi Hf)|]. intros t Ht _.
  rewrite Hs in Ht. injection Ht as <-. split; [apply (fr_id Hf)|].
  destruct Hfin as [[Hl' _]|[Hc _]]; [by left|right]. split; [apply Hc|by apply Hend].
Qed.

(** ** Opening *)

Lemma slot_put ss i e s : slot junk (put ss i e s) i = s.
Proof. unfold slot. cbn. by rewrite lookup_insert_eq. Qed.
Lemma put_put ss i e s e' s' : put (put ss i e s) i e' s' = put ss i e' s'.
Proof. unfold put. cbn. unfold set_slot, set_env. cbn. by rewrite insert_insert_eq. Qed.
Lemma put_set_env ss i e e' s : set_env e' (put ss i e s) = put ss i e' s.
Proof. done. Qed.
Lemma wp_set_slot_type ss i e s t (Q : unit -> socket_server K -> Prop) :
  Q tt (put ss i e (set_type t s)) -> wp (set_slot_type junk i t) Q (put ss i e s).
Proof. intros HQ. apply wp_on. rewrite slot_put. apply wp_upd. by rewrite put_put. Qed.

(** Nothing but the kernel, the trace and fewer events. *)
Definition quiet e e' : Prop :=
  e_mem e' = e_mem e /\ e_soi e' = e_soi e /\ forall fd v, e_poll e' !! fd = Some v -> e_poll e !! fd = Some v.
Lemma quiet_same e : quiet e e.
Proof. done. Qed.
Lemma quiet_then e1 e2 e3 : quiet e1 e2 -> quiet e2 e3 -> quiet e1 e3.
Proof. intros (Hm & Hs & Hp) (Hm2 & Hs2 & Hp2). split; [congruence|]. split; [congruence|]. auto. Qed.
Lemma quiet_k e k : quiet e (set_k k e).
Proof. done. Qed.
Lemma wp_close fd Q e : (forall e', quiet e e' -> Q tt e') -> wp (close fd) Q e.
Proof.
  intros HQ. unfold close. rewrite wp_modify. apply HQ. split; [done|]. split; [done|]. intros fd' v. cbn.
  by intros [_ ?]%lookup_delete_Some.
Qed.

Lemma good_quiet pk sn op ss e' : inv ss pk sn op -> quiet (sv_env ss) e' -> good pk sn op None ss (set_env e' ss).
Proof.
  intros Hinv (Hm & Hs & Hp). split; [|by apply moved_env]. eapply inv_unchanged; [exact Hinv|done|done| |done|done].
  intros fd i w Hfd. exists w. by apply Hp.
Qed.

Lemma op_slot ss pk sn op id : inv ss pk sn (id :: op) ->
  exists s, sv_slot ss !! HASH_ID id = Some s /\ s_type s = SOCKET_TYPE_RESERVE /\ s_id s = id /\
    s_high s = [] /\ s_low s = [] /\ s_protocol s = PROTOCOL_UNKNOWN.
Proof.
  intros Hinv. destruct (iv_open _ _ _ _ Hinv id ltac:(by left)) as (s & Hs & Ht & Hi). exists s.
  destruct (iv_slots _ _ _ _ Hinv _ s Hs) as [_ Hidle _ Hr _]. destruct Hidle as [? ?]; [by intros [_ ?]|]. destruct (Hr Ht).
  by split_and!.
Qed.

Lemma good_unreserve ss pk sn op id s e' r :
  inv ss pk sn (id :: op) -> sv_slot ss !! HASH_ID id = Some s -> quiet (sv_env ss) e' ->
  good pk sn op r ss (put ss (HASH_ID id) e' (set_type SOCKET_TYPE_INVALID s)).
Proof.
  intros Hinv Hs Hq. destruct (op_slot _ _ _ _ _ Hinv) as (s' & Hs' & Ht & Hi & Hh & Hl & Hp). rewrite Hs in Hs'. injection Hs' as <-.
  destruct (good_quiet _ _ _ _ _ Hinv Hq) as [Hinv2 _]. split.
  - by apply (inv_unreserve (set_env e' ss) pk sn op id s).
  - apply moved_slot; [apply Hq|]. intros t Ht' Hlv. rewrite Hs in Ht'. injection Ht' as <-. by destruct Hlv.
Qed.

Lemma good_open ss pk sn op id s e' s' opaque fd protocol t r :
  inv ss pk sn (id :: op) -> sv_slot ss !! HASH_ID id = Some s -> similar (opened opaque id fd protocol t s) s' -> live s' ->
  e_mem e' = e_mem (sv_env ss) -> e_soi e' = e_soi (sv_env ss) ->
  (forall fd' j w, e_poll e' !! fd' = Some (j, w) -> (exists w', e_poll (sv_env ss) !! fd' = Some (j, w')) \/ (fd' = fd /\ j = HASH_ID id)) ->
  good pk sn op r ss (put ss (HASH_ID id) e' s').
Proof.
  intros Hinv Hs Hsim Hl Hm Hsoi Hp. split; [by eapply inv_open_slot|]. apply moved_slot; [done|].
  destruct (op_slot _ _ _ _ _ Hinv) as (t' & Ht' & Htt & _). intros u Hu Hlu. rewrite Ht' in Hu. injection Hu as <-. by destruct Hlu.
Qed.

(** The events of a descriptor that [sp_add] may have added. *)
Definition maybe_added (i fd : Z) e e' : Prop :=
  e_mem e' = e_mem e /\ e_soi e' = e_soi e /\
  forall fd' j w, e_poll e' !! fd' = Some (j, w) -> (exists w', e_poll e !! fd' = Some (j, w')) \/ (fd' = fd /\ j = i).
Lemma maybe_added_alter i fd b e e' : maybe_added i fd e e' -> maybe_added i fd e (set_poll (alter (fun _ => (i, b)) fd (e_poll e')) e').
Proof.
  intros (Hm & Hs & Hp). split; [done|]. split; [done|]. intros fd' j w. cbn. destruct (decide (fd = fd')) as [<-|Hne].
  - rewrite lookup_alter_eq. destruct (e_poll e' !! fd); [|done]. intros [= <- <-]. by right.
  - rewrite lookup_alter_ne by done. apply Hp.
Qed.
Lemma wp_sp_add i fd (Q : bool -> env K -> Prop) e :
  (forall e', quiet e e' -> Q true e') -> (forall e', maybe_added i fd e e' -> Q false e') -> wp (sp_add fd i) Q e.
Proof.
  intros Hf Ht. unfold sp_add. rewrite wp_bind. apply wp_syscall. rewrite wp_bind. destruct (sys_epoll_add fd (e_k e)).1.
  - cbn [negb when]. apply wp_ret, wp_ret. by apply Hf.
  - cbn [negb when]. rewrite wp_modify. apply wp_ret, Ht. split; [done|]. split; [done|]. intros fd' j w. cbn.
    rewrite lookup_insert_Some. intros [[<- [= <- <-]]|[_ Hfd]]; [by right|left; by exists w].
Qed.

Lemma new_fd_wp ss pk sn op id fd protocol opaque add (Q : bool -> socket_server K -> Prop) :
  inv ss pk sn (id :: op) ->
  (forall s e', add = true -> sv_slot ss !! HASH_ID id = Some s -> s_id s = id -> quiet (sv_env ss) e' ->
     Q false (put ss (HASH_ID id) e' (set_type SOCKET_TYPE_INVALID s))) ->
  (forall s e', sv_slot ss !! HASH_ID id = Some s -> maybe_added (HASH_ID id) fd (sv_env ss) e' ->
     Q true (put ss (HASH_ID id) e' (opened opaque id fd protocol SOCKET_TYPE_RESERVE s))) ->
  wp (new_fd junk id fd protocol opaque add) Q ss.
Proof.
  intros Hinv Hfail Hok. destruct (op_slot _ _ _ _ _ Hinv) as (s & Hs & Ht & Hi & Hh & Hl & Hp). pose proof (slot_some _ _ _ Hs) as Hslot.
  unfold new_fd. rewrite wp_bind. apply wp_the_slot. rewrite Hslot, wp_bind. apply wp_assert; [by rewrite Ht|].
  assert (forall e', maybe_added (HASH_ID id) fd (sv_env ss) e' ->
    wp (assert_ (is_empty (s_high s)) ;;; assert_ (is_empty (s_low s)) ;;;
      put_slot (HASH_ID id) (Socket opaque [] [] 0 (Stat 0 0 0 0) (Z.shiftl (ID_TAG16 id) 16) fd id protocol (s_type s)
        (s_udpconnecting s) 0 MIN_READ_BUFFER (s_udp_address s) None) ;;; ret true) Q (set_env e' ss)) as Hgo.
  { intros e' He'. rewrite Hh, Hl, Ht. rewrite wp_bind. apply wp_assert; [done|]. rewrite wp_bind. apply wp_assert; [done|].
    rewrite wp_bind. unfold put_slot. rewrite wp_modify. apply wp_ret. by apply (Hok s). }
  rewrite wp_bind. destruct add.
  - apply wp_sys, wp_sp_add.
    + intros e' He'. rewrite wp_bind. unfold put_slot. rewrite wp_modify. apply wp_ret. by apply (Hfail s).
    + intros e' He'. by apply Hgo.
  - apply wp_ret. assert (set_env (sv_env ss) ss = ss) as Hsame by by destruct ss. cbn match. rewrite <- Hsame. apply Hgo. split; [done|]. split; [done|].
    intros fd' j w Hfd. left. by exists w.
Qed.

Lemma good_opened ss pk sn op id s e' s' opaque fd protocol r :
  inv ss pk sn (id :: op) -> sv_slot ss !! HASH_ID id = Some s -> maybe_added (HASH_ID id) fd (sv_env ss) e' ->
  similar (opened opaque id fd protocol SOCKET_TYPE_RESERVE s) s' -> live s' -> good pk sn op r ss (put ss (HASH_ID id) e' s').
Proof. intros Hinv Hs (Hm & Hsoi & Hp) Hsim Hl. by eapply good_open. Qed.

Lemma listen_socket_wp ss pk sn op id fd opaque : inv ss pk sn (id :: op) ->
  wp (listen_socket junk id fd opaque) (fun r ss' => good pk sn op r ss ss') ss.
Proof.
  intros Hinv. unfold listen_socket. rewrite wp_bind. eapply new_fd_wp; [exact Hinv|done|].
  intros s e' Hs He. cbn [negb]. rewrite wp_bind. apply wp_set_slot_type, wp_ret. by eapply (good_opened _ _ _ _ _ s).
Qed.
Lemma bind_socket_wp ss pk sn op id fd opaque : inv ss pk sn (id :: op) ->
  wp (bind_socket junk id fd opaque) (fun r ss' => good pk sn op r ss ss') ss.
Proof.
  intros Hinv. unfold bind_socket. rewrite wp_bind. eapply new_fd_wp; [exact Hinv| |].
  - intros s e' _ Hs _ Hq. cbn [negb]. apply wp_ret. by eapply good_unreserve.
  - intros s e' Hs He. cbn [negb]. rewrite wp_bind. apply wp_set_slot_type, wp_ret. by eapply (good_opened _ _ _ _ _ s).
Qed.
Lemma add_udp_socket_wp ss pk sn op id fd inet6 opaque : inv ss pk sn (id :: op) ->
  wp (add_udp_socket junk id fd inet6 opaque) (fun _ ss' => good pk sn op None ss ss') ss.
Proof.
  intros Hinv. unfold add_udp_socket. rewrite wp_bind. eapply new_fd_wp; [exact Hinv| |].
  - intros s e' _ Hs _ Hq. cbn [negb]. rewrite wp_bind. apply wp_sys, wp_close. intros e2 Hq2. cbn [sv_env put set_slot set_env] in Hq2.
    rewrite put_set_env. apply wp_set_slot_type.
    eapply (good_unreserve _ _ _ _ _ s); [exact Hinv|exact Hs|by eapply quiet_then].
  - intros s e' Hs He. cbn [negb]. rewrite wp_bind. apply wp_set_slot_type. apply wp_on. rewrite slot_put. apply wp_upd. rewrite put_put.
    by eapply (good_opened _ _ _ _ _ s).
Qed.

Lemma connect_loop_wp l err : forall e (Q : errno + Z * bool * sockaddr -> env K -> Prop),
  (forall r e', quiet e e' -> Q r e') -> wp (connect_loop l err) Q e.
Proof.
  revert err. induction l as [|addr l IH]; intros err e Q HQ; cbn [connect_loop]; [by apply wp_ret, HQ|].
  rewrite wp_bind. apply wp_syscall. destruct (sys_socket true (e_k e)).1 as [err'|sock].
  - apply IH. intros r e' Hq. by apply HQ.
  - rewrite wp_bind. apply wp_syscall. destruct (sys_connect _ _ _).1 as [err'|]; [|apply wp_ret; by apply HQ].
    case_bool_decide; [apply wp_ret; by apply HQ|]. rewrite wp_bind. apply wp_close. intros e1 Hq1. apply IH. intros r e' Hq. apply HQ.
    by eapply quiet_then.
Qed.

Lemma open_socket_wp ss pk sn op id port opaque host : inv ss pk sn (id :: op) ->
  wp (open_socket junk id port opaque host) (fun r ss' => good pk sn op r ss ss') ss.
Proof.
  intros Hinv. unfold open_socket. rewrite wp_bind. apply wp_sys_call. intros status k _.
  destruct (op_slot _ _ _ _ _ Hinv) as (s & Hs & _). pose proof (slot_some _ _ _ Hs) as Hslot.
  assert (forall e' data, quiet (sv_env ss) e' ->
    wp (set_slot_type junk (HASH_ID id) SOCKET_TYPE_INVALID ;;; ret (Some (Message SOCKET_ERR id opaque 0 data)))
      (fun r ss' => good pk sn op r ss ss') (set_env e' ss)) as Hfailed.
  { intros e' data Hq. rewrite wp_bind. apply wp_on. change (slot junk (set_env e' ss) (HASH_ID id)) with (slot junk ss (HASH_ID id)).
    rewrite Hslot. apply wp_upd, wp_ret. exact (good_unreserve ss pk sn op id s e' _ Hinv Hs Hq). }
  destruct status as [status|l]; [by apply Hfailed|]. rewrite wp_bind. apply wp_sys, connect_loop_wp. intros c e1 Hq1.
  destruct c as [err|[[sock conn] addr]]; [by apply Hfailed|]. change (set_env e1 (set_env _ ss)) with (set_env e1 ss).
  assert (inv (set_env e1 ss) pk sn (id :: op)) as Hinv1 by (by apply good_quiet).
  assert (forall r ss', good pk sn op r (set_env e1 ss) ss' -> good pk sn op r ss ss') as Htrans.
  { intros r ss' Hg. eapply good_trans; [|exact Hg]. by apply good_quiet. }
  rewrite wp_bind. eapply new_fd_wp; [exact Hinv1| |].
  - intros s' e' _ Hs' _ Hq. cbn [negb]. rewrite wp_bind. apply wp_sys, wp_close. intros e2 Hq2. cbn [sv_env put set_slot set_env] in Hq2.
    rewrite put_set_env, wp_bind. apply wp_set_slot_type. apply wp_ret, Htrans.
    eapply (good_unreserve _ _ _ _ _ s'); [exact Hinv1|exact Hs'|by eapply quiet_then].
  - intros s' e' Hs' He. cbn [negb]. destruct conn; rewrite wp_bind; apply wp_set_slot_type.
    + apply wp_ret, Htrans. by eapply (good_opened _ _ _ _ _ s').
    + rewrite wp_bind. apply wp_sys, wp_sp_write, wp_ret, Htrans. rewrite put_set_env. by eapply (good_opened _ _ _ _ _ s'); [..|by apply maybe_added_alter| |].
Qed.

(** ** The other requests *)

(** The same fields, in a socket of the same type. *)
Lemma good_similar ss pk sn op i s e' s' r :
  inv ss pk sn op -> sv_slot ss !! i = Some s -> similar s s' -> s_type s' = s_type s -> quiet (sv_env ss) e' ->
  good pk sn op r ss (put ss i e' s').
Proof.
  intros Hinv Hs Hsim Ht (Hm & Hsoi & Hp). pose proof (iv_slots _ _ _ _ Hinv i s Hs) as [[Hi Hb] Hidle Hlive Hres Hc].
  assert (live s' <-> live s) as Hll by (unfold live; by rewrite Ht). assert (similar s s') as (Hh & Hlo & Hd & Hw & Hf & Hid & Hpr & Hse) by done.
  split; [|apply moved_slot; [done|]; intros t Ht' Hl; rewrite Hs in Ht'; injection Ht' as <-; split; [done|left; by apply Hll]].
  apply (inv_slot [] pk ss _ sn op sn op i s s'); try done.
  - intros p _. cbn. by rewrite Hm.
  - intros p Hl. rewrite (similar_held _ _ Hsim), owned_live; [done|by apply Hll].
  - intros fd j w Hfd%Hp. destruct (iv_poll _ _ _ _ Hinv fd j w Hfd) as (t & Htj & Hlt & Hft). destruct (decide (j = i)) as [->|Hne].
    + right. split; [done|]. rewrite Hs in Htj. injection Htj as <-. split; [by apply Hll|congruence].
    + left. split; [done|]. by exists w.
  - split.
    + by rewrite Hid.
    + rewrite Hh, Hlo. intros Hn. apply Hidle. by rewrite <- Hll.
    + intros Hl. eapply (buffers_keep (sv_env ss)); [done| |eapply similar_buffers; [done|by apply Hlive, Hll]]. intros p _. cbn. by rewrite Hm.
    + by rewrite Ht, Hid, Hpr.
    + by rewrite Hpr, Hse, Hid.
  - by rewrite Ht.
  - intros id b Hin. by left.
  - apply (iv_opens _ _ _ _ Hinv).
  - intros id Hin. split; [done|]. intros Hhi. rewrite Ht. destruct (iv_open _ _ _ _ Hinv id Hin) as (t & Ht' & Hr & _).
    rewrite Hhi, Hs in Ht'. by injection Ht' as <-.
Qed.

Lemma not_stale ss id : is_stale (slot junk ss (HASH_ID id)) id = false ->
  sv_slot ss !! HASH_ID id = Some (slot junk ss (HASH_ID id)) /\ s_id (slot junk ss (HASH_ID id)) = id /\
  s_type (slot junk ss (HASH_ID id)) <> SOCKET_TYPE_INVALID.
Proof.
  unfold is_stale. intros [Ht%Z.eqb_neq Hi%negb_false_iff%Z.eqb_eq]%orb_false_iff. split; [by apply slot_used|done].
Qed.

Lemma setopt_socket_wp ss pk sn op id what v : inv ss pk sn op ->
  wp (setopt_socket junk id what v) (fun _ ss' => good pk sn op None ss ss') ss.
Proof.
  intros Hinv. unfold setopt_socket. rewrite wp_bind. apply wp_the_slot. destruct (is_stale _ _); [by apply wp_ret, good_refl|].
  apply wp_sys. rewrite wp_modify. by apply good_quiet.
Qed.

Lemma set_udp_address_wp ss pk sn op id address : inv ss pk sn op ->
  wp (set_udp_address junk id address) (fun r ss' => good pk sn op r ss ss') ss.
Proof.
  intros Hinv. unfold set_udp_address. rewrite wp_bind. apply wp_the_slot. destruct (is_stale _ _) eqn:Hst; [by apply wp_ret, good_refl|].
  apply not_stale in Hst as (Hs & Hid & _). case_match; [by apply wp_ret, good_refl|].
  rewrite wp_bind. apply wp_on, wp_upd, wp_ret. by eapply good_similar.
Qed.

Lemma start_socket_wp ss pk sn op id opaque : inv ss pk sn op ->
  wp (start_socket junk id opaque) (fun r ss' => good pk sn op r ss ss') ss.
Proof.
  intros Hinv. unfold start_socket. rewrite wp_bind. apply wp_the_slot. destruct (is_stale _ _) eqn:Hst; [by apply wp_ret, good_refl|].
  apply not_stale in Hst as (Hs & Hid & Ht). set (s := slot junk ss (HASH_ID id)) in *.
  destruct ((s_type s =? SOCKET_TYPE_PACCEPT) || (s_type s =? SOCKET_TYPE_PLISTEN)) eqn:Hp.
  - assert (live s) as Hl by (apply orb_true_iff in Hp as [Hp%Z.eqb_eq|Hp%Z.eqb_eq]; split; by rewrite Hp).
    rewrite wp_bind. apply wp_sys, wp_sp_add.
    + intros e' Hq. rewrite wp_bind. apply wp_on. change (slot junk (set_env e' ss) (HASH_ID id)) with s. cbn [sv_env set_env].
      destruct (good_quiet _ _ _ _ _ Hinv Hq) as [Hinv2 Hmv].
      destruct (so_live _ _ _ _ _ _ (iv_slots _ _ _ _ Hinv2 _ s Hs) Hl) as (dc & C & Hok & Hc).
      eapply (close_end (HASH_ID id)); [exact Hok|done|by right|]. intros m e2 s2 Hm Hsh. apply wp_ret. eapply good_trans; [by split; [exact Hinv2|exact Hmv]|].
      eapply (good_move []); [exact Hinv2|exact Hs|done|apply Hsh|by eapply shut_finished|]. intros _. exists m. split; [done|].
      destruct Hm as [Hm ?]. split; [|done]. unfold is_end. destruct Hm as [-> | ->]; done.
    + intros e' (Hm & Hsoi & Hpo). rewrite wp_bind. apply wp_on. change (slot junk (set_env e' ss) (HASH_ID id)) with s.
      apply wp_upd, wp_ret. set (s' := set_opaque _ _).
      assert (live s') as Hl' by (unfold s'; destruct (s_type s =? SOCKET_TYPE_PACCEPT); done).
      change (good pk sn op (Some (Message SOCKET_OPEN id opaque 0 (DText "start"))) ss (put ss (HASH_ID id) e' s')).
      split; [|apply moved_slot; [done|]; intros t Ht' _; rewrite Hs in Ht'; injection Ht' as <-; split; [done|by left]].
      apply (inv_tweak ss pk sn op (HASH_ID id) s e' s'); try done.
  - destruct (Z.eqb_spec (s_type s) SOCKET_TYPE_CONNECTED) as [Hc|_]; [|by apply wp_ret, good_refl].
    rewrite wp_bind. apply wp_on, wp_upd, wp_ret. by eapply good_similar.
Qed.

(** The messages that say that a socket is closed. *)
Lemma end_ended s m : end_of s m -> ended (Some m) (s_id s).
Proof. intros [Hm Hi]. exists m. split; [done|]. split; [|done]. unfold is_end. by destruct Hm as [-> | ->]. Qed.

Lemma close_socket_wp ss pk sn op id shutdown opaque : inv ss pk sn op -> id ∉ op ->
  wp (close_socket junk id shutdown opaque) (fun r ss' => good pk sn op r ss ss') ss.
Proof.
  intros Hinv Hop. unfold close_socket. rewrite wp_bind. apply wp_the_slot. destruct (is_stale _ _) eqn:Hst; [by apply wp_ret, good_refl|].
  apply not_stale in Hst as (Hs & Hid & Ht). apply wp_on. set (s := slot junk ss (HASH_ID id)) in *. set (e := sv_env ss).
  pose proof (iv_slots _ _ _ _ Hinv _ s Hs) as [_ _ Hlive Hres _].
  assert (live s) as Hl by (split; [done|]; intros Hr; destruct (Hres Hr) as [Hin _]; by rewrite Hid in Hin).
  destruct (Hlive Hl) as (dc & C & Hok & Hc).
  (* what is left at the end *)
  assert (forall e' s' (r : option message), framep (HASH_ID id) (held s) e s e' s' -> finished e' s s' -> (closed s' -> ended r id) ->
    good pk sn op r ss (put ss (HASH_ID id) e' s')) as Hend.
  { intros e' s' r Hf Hfin Hr. eapply (good_move []); [exact Hinv|exact Hs|done|exact Hf|done|]. by rewrite Hid. }
  set (Q := fun r (p : SE K) => good pk sn op r ss (put ss (HASH_ID id) p.1 p.2)).
  assert (forall e' s' w dc' C', fine (HASH_ID id) (held s) e s e' s' dc' C' w ->
    wp (done <- get nomore_sending_data ;;
        if shutdown || done then
          m <- force_close SOCKET_CLOSE DNull ;; ret (Some (Message SOCKET_CLOSE id opaque (m_ud m) (m_data m)))
        else upd (set_type SOCKET_TYPE_HALFCLOSE) ;;; ret None) Q (e', s')) as Hrest.
  { intros e' s' w dc' C' (Hf & Hok' & Hc' & Hw' & Ht'). rewrite wp_bind. apply wp_get.
    assert (live s') as Hl' by (unfold live; by rewrite Ht'). case_match.
    - rewrite wp_bind. eapply (close_end (HASH_ID id)); [exact Hok'|done|by left|]. intros m e2 s2 _ Hsh. apply wp_ret.
      apply Hend; [by eapply framep_trans; [exact Hf|apply Hsh]| |].
      + right. split; [apply Hsh|]. cbn. rewrite <- (fr_fd Hf). apply Hsh.
      + intros _. by eexists.
    - rewrite wp_bind. apply wp_upd, wp_ret. apply Hend.
      + eapply framep_trans; [exact Hf|]. by apply frame_same; try done; apply poll_frame_refl.
      + left. split; [done|]. exists dc', C'. split; [by destruct Hok'; split|done].
      + by intros [? _]. }
  rewrite wp_bind. apply wp_get. rewrite wp_bind. destruct (nomore_sending_data s); cbn [negb].
  - apply wp_ret. eapply Hrest. split; [apply framep_refl|]. split; [exact Hok|]. split; [done|]. split; [by apply wrote_nil|done].
  - eapply send_buffer_wp; [exact Hok|done|done| |].
    + intros r e' s' w dc' C' Hfine Hw _. destruct r as [m|]; [|by eapply Hrest]. destruct Hw as [-> _]. by eapply Hrest.
    + intros e' s' w lost Hsh _. cbn. apply wp_ret. apply Hend; [apply Hsh|by eapply shut_finished|]. intros _. by eexists.
Qed.

(** *** Packages *)

Lemma pkg_head ss x pk sn op : inv ss (x :: pk) sn op -> package_ok (sv_env ss) x.
Proof. intros Hinv. by pose proof (iv_pkgs _ _ _ _ Hinv) as [? _]%Forall_cons. Qed.
Lemma pkg_apart ss x pk sn op i s : inv ss (x :: pk) sn op -> sv_slot ss !! i = Some s -> live s -> pk_ptr x ∉ held s.
Proof. intros Hinv Hs Hl Hin. apply (iv_apart _ _ _ _ Hinv i s _ Hs Hl Hin). by left. Qed.

Lemma put_same ss i e s : sv_slot ss !! i = Some s -> put ss i e s = set_env e ss.
Proof. intros Hs. unfold put, set_slot. cbn. by rewrite insert_id. Qed.

Lemma send_socket_good ss id sz p high addr pk sn op :
  inv ss (Package p sz high :: pk) sn op -> known (sv_slot ss) (sv_alloc_id ss) id ->
  wp (on junk (HASH_ID id) (send_socket (HASH_ID id) id p sz high addr)) (fun r ss' => good pk sn op None ss ss') ss.
Proof.
  intros Hinv (_ & s & Hs & Hnr). apply wp_on. rewrite (slot_some _ _ _ Hs).
  destruct (pkg_head _ _ _ _ _ Hinv) as (o & Ho & Hpk & Hb). cbn in Ho, Hpk, Hb.
  assert (s_type s = SOCKET_TYPE_INVALID \/ s_id s <> id \/ (live s /\ s_id s = id)) as Hcases.
  { destruct (decide (s_type s = SOCKET_TYPE_INVALID)); [by left|right]. destruct (decide (s_id s = id)) as [Hi|]; [right|by left].
    split; [split; [done|]|done]. intros Hr. by apply Hnr. }
  destruct (decide (live s /\ s_id s = id)) as [[Hl Hi]|Hno].
  - destruct (so_live _ _ _ _ _ _ (iv_slots _ _ _ _ Hinv _ s Hs) Hl) as (dc & C & Hok & Hc).
    eapply send_socket_wp; [exact Hok|done|done|done|exact Ho|exact Hpk|by eapply pkg_apart in Hinv|done|].
    intros r e' s' C' Hfine _ _ _. eapply (good_move [Package p sz high]); [exact Hinv|exact Hs|done|apply Hfine|by eapply fine_finished|].
    intros [Ht _]. destruct Hfine as (_ & _ & _ & _ & Ht'). exfalso. destruct Hl as [Hl _]. apply Hl. by rewrite <- Ht'.
  - eapply send_socket_stale; [|exact Ho|exact Hpk|].
    { destruct Hcases as [?|[?|?]]; [by left|by right|done]. }
    cbn [fst snd]. rewrite put_same by done. split; [by apply (inv_freed ss pk sn op (Package p sz high))|by apply moved_env].
Qed.

Lemma dec_sending_ref_wp ss id pk sn op : inv ss pk ((id, true) :: sn) op ->
  wp (dec_sending_ref junk id) (fun _ ss' => good pk sn op None ss ss') ss.
Proof.
  intros Hinv. destruct (iv_known _ _ _ _ Hinv id true ltac:(by left)) as (_ & s & Hs & Hnr).
  unfold dec_sending_ref. rewrite wp_bind. apply wp_the_slot. rewrite (slot_some _ _ _ Hs).
  destruct ((s_id s =? id) && (s_protocol s =? PROTOCOL_TCP)) eqn:Hb.
  - apply andb_true_iff in Hb as [Hid%Z.eqb_eq Ht%Z.eqb_eq].
    destruct (so_count _ _ _ _ _ _ (iv_slots _ _ _ _ Hinv _ s Hs) Ht) as [Hse Hle]. rewrite Hid in Hse, Hle.
    rewrite count_cons, decide_True in Hse, Hle by done. pose proof (count_nonneg id sn).
    rewrite wp_bind. apply wp_assert.
    { rewrite Hse, sending_count by lia. apply negb_true_iff, Z.eqb_neq. lia. }
    unfold put_slot. rewrite wp_modify. split.
    + apply (inv_count ss pk ((id, true) :: sn) op (HASH_ID id) s); [done|done| | |].
      * intros id' Hne. by rewrite count_other by (rewrite <- Hid; auto).
      * intros id' b Hin. left. by right.
      * intros _. rewrite Hse, Hid. lia.
    + rewrite put_env. apply moved_slot; [done|]. intros t Ht' Hl. rewrite Hs in Ht'. injection Ht' as <-. split; [done|by left].
  - apply wp_ret. split; [|apply moved_refl]. eapply inv_arrived; [exact Hinv|]. intros _ t Ht Hi Hp. rewrite Hs in Ht. injection Ht as <-.
    apply andb_false_iff in Hb as [Hb%Z.eqb_neq|Hb%Z.eqb_neq]; done.
Qed.

(** ** Requests *)

Lemma alloc_id_wp ss (Q : Z -> socket_server K -> Prop) : 0 <= sv_alloc_id ss -> sv_alloc_id ss + 1 < 2 ^ 31 ->
  Q (sv_alloc_id ss + 1) (set_alloc_id (sv_alloc_id ss + 1) ss) -> wp alloc_id Q ss.
Proof.
  intros H0' H1' HQ. unfold alloc_id. rewrite wp_bind, wp_gets. cbn zeta. rewrite wp_bind, wp_modify.
  unfold i32. rewrite sgn_small by lia. destruct (Z.ltb_spec (sv_alloc_id ss + 1) 0); [lia|]. by apply wp_ret.
Qed.

Definition reserved_post pk sn op ss (n : Z) (id : Z) ss' : Prop :=
  (id = -1 /\ good pk sn op None ss ss') \/
  (0 < id /\ sv_alloc_id ss < id <= sv_alloc_id ss + n /\ id = sv_alloc_id ss' /\ good pk sn (id :: op) None ss ss').

Lemma reserve_loop_wp n : forall ss pk sn op, inv ss pk sn op -> sv_alloc_id ss + Z.of_nat n < 2 ^ 31 ->
  wp (reserve_loop junk n) (reserved_post pk sn op ss (Z.of_nat n)) ss.
Proof.
  induction n as [|n IH]; intros ss pk sn op Hinv Hroom; cbn [reserve_loop].
  { apply wp_ret. left. split; [done|]. by apply good_refl. }
  pose proof (iv_alloc _ _ _ _ Hinv) as H0'.
  rewrite wp_bind. apply alloc_id_wp; [done|lia|]. set (id := sv_alloc_id ss + 1). rewrite wp_bind. apply wp_the_slot.
  change (slot junk (set_alloc_id id ss) (HASH_ID id)) with (slot junk ss (HASH_ID id)).
  destruct (Z.eqb_spec (s_type (slot junk ss (HASH_ID id))) SOCKET_TYPE_INVALID) as [Ht|_].
  - rewrite wp_bind. unfold put_slot. rewrite wp_modify. apply wp_ret. right. split; [lia|]. split; [lia|]. split; [done|].
    split; [apply (inv_reserve ss pk sn op id Hinv); [lia|done]|].
    assert (moved None ss (set_alloc_id id ss)) as Hm by (split; [split; try done; [cbn; lia|]; intros i s Hs Hl; exists s; auto|done]).
    eapply moved_trans; [exact Hm|]. rewrite put_env. apply moved_slot; [done|]. intros s Hs Hl. exfalso.
    cbn in Hs. rewrite (slot_some _ _ _ Hs) in Ht. by destruct Hl.
  - assert (inv (set_alloc_id id ss) pk sn op) as Hinv'.
    { eapply inv_unchanged; [exact Hinv|done|done| |done|cbn; lia]. intros fd i w Hfd. by exists w. }
    assert (moved None ss (set_alloc_id id ss)) as Hm by (split; [split; try done; [cbn; lia|]; intros i s Hs Hl; exists s; auto|done]).
    eapply wp_mono; [apply (IH (set_alloc_id id ss) pk sn op); [done|cbn; lia]|].
    intros r ss' [[-> Hg]|(Hr & Hr2 & Hr3 & Hg)]; [left|right]; cbn in *.
    + split; [done|]. by eapply (good_trans pk pk sn sn op op).
    + split; [done|]. split; [lia|]. split; [done|]. by eapply (good_trans pk pk sn sn op).
Qed.

Definition room ss : Prop := sv_alloc_id ss + MAX_SOCKET < 2 ^ 31.

Lemma reserve_id_wp ss pk sn op : inv ss pk sn op -> room ss -> wp (reserve_id junk) (reserved_post pk sn op ss MAX_SOCKET) ss.
Proof. intros Hinv Hroom. unfold reserve_id. apply (reserve_loop_wp (Z.to_nat MAX_SOCKET)); [done|]. rewrite Z2Nat.id by done. done. Qed.

(** What requests need: the ids they open are reserved, their packages are there, and
    what they close is not reserved. *)
Definition pkgs (l : list request) : list package := omap send_pkg l.
Definition sends (l : list request) : list (Z * bool) := omap send_id l.
Definition opens (l : list request) : list Z := omap open_id l.
Definition closes (l : list request) : list Z := omap close_id l.

Lemma ctrl_cmd_wp ss r pk sn op :
  inv ss (pkgs [r] ++ pk) (sends [r] ++ sn) (opens [r] ++ op) -> (forall id, id ∈ closes [r] -> id ∉ op) ->
  wp (ctrl_cmd junk r) (fun m ss' => good pk sn op m ss ss') ss.
Proof.
  intros Hinv Hcl. destruct r; cbn in Hinv; cbn [ctrl_cmd].
  - by apply start_socket_wp.
  - by apply bind_socket_wp.
  - by apply listen_socket_wp.
  - apply close_socket_wp; [done|]. apply Hcl. by left.
  - by apply open_socket_wp.
  - apply wp_ret. by apply good_refl.
  - rewrite wp_bind. eapply wp_mono; [eapply send_socket_good; [exact Hinv|]; apply (iv_known _ _ _ _ Hinv id true); by left|].
    intros m ss1 [Hinv1 Hm1]. rewrite wp_bind. eapply wp_mono; [apply dec_sending_ref_wp; exact Hinv1|].
    intros _ ss2 [Hinv2 Hm2]. apply wp_ret. split; [done|]. eapply moved_trans; [exact Hm1|].
    by apply moved_none.
  - eapply wp_mono; [eapply send_socket_good; [exact Hinv|]; apply (iv_known _ _ _ _ Hinv id false); by left|].
    intros m ss1 [Hinv1 Hm1]. split; [eapply inv_arrived; [exact Hinv1|done]|].
    by apply moved_none.
  - rewrite wp_bind. eapply wp_mono; [by apply setopt_socket_wp|]. intros u ss1 Hg. by apply wp_ret.
  - rewrite wp_bind. eapply wp_mono; [by apply add_udp_socket_wp|]. intros u ss1 Hg. by apply wp_ret.
  - by apply set_udp_address_wp.
Qed.

(** ** Events *)

Lemma good_none pk sn op r ss ss' : good pk sn op None ss ss' -> good pk sn op r ss ss'.
Proof. intros [? ?]. split; [done|by apply moved_none]. Qed.

Lemma moved_evs ss ss' : evs ss -> moved None ss ss' -> evs ss'.
Proof.
  intros [Hnd Hev] [Hm He]. split; rewrite He; [done|]. intros i Hi. destruct (Hev i Hi) as (s & Hs & Hl).
  destruct (seen_live _ _ i s Hm Hs Hl) as (s' & ? & _ & ?). by exists s'.
Qed.

(** All but the first event of the closed socket are of open sockets. *)
Lemma clear_first_evs ss id l :
  NoDup (omap ev_s l) ->
  (forall i, i ∈ omap ev_s l -> exists s, sv_slot ss !! i = Some s /\ (live s \/ (s_type s = SOCKET_TYPE_INVALID /\ s_id s = id /\ HASH_ID id = i))) ->
  NoDup (omap ev_s (clear_first junk ss id l)) /\
  forall i, i ∈ omap ev_s (clear_first junk ss id l) -> i ∈ omap ev_s l /\ exists s, sv_slot ss !! i = Some s /\ live s.
Proof.
  induction l as [|e l IH]; intros Hnd Hev; [split; [done|]; by intros i ?%not_elem_of_nil|]. cbn [clear_first].
  destruct (ev_s e) as [i|] eqn:He.
  - assert (omap ev_s (e :: l) = i :: omap ev_s l) as Heq by (cbn; by rewrite He). rewrite Heq in Hnd, Hev.
    apply NoDup_cons in Hnd as [Hni Hnd]. destruct (Hev i ltac:(by left)) as (s & Hs & Hcase). rewrite (slot_some _ _ _ Hs).
    destruct ((s_type s =? SOCKET_TYPE_INVALID) && (s_id s =? id)) eqn:Hb.
    + cbn. split; [done|]. intros j Hj. rewrite He. split; [by right|]. destruct (Hev j ltac:(by right)) as (t & Ht & [Hl|(_ & _ & Hid)]); [by exists t|].
      exfalso. apply andb_true_iff in Hb as [Ht0%Z.eqb_eq Hi0%Z.eqb_eq]. destruct Hcase as [[? _]|(_ & _ & Hi)]; [done|]. congruence.
    + destruct IH as [IH1 IH2]; [done|intros j Hj; apply Hev; by right|].
      assert (omap ev_s (e :: clear_first junk ss id l) = i :: omap ev_s (clear_first junk ss id l)) as Heq2 by (cbn; by rewrite He).
      rewrite Heq, Heq2. split; [apply NoDup_cons; split; [|done]; by intros [? _]%IH2|].
      intros j [->|Hj]%elem_of_cons; [|destruct (IH2 j Hj); split; [by right|done]]. split; [by left|]. exists s. split; [done|].
      destruct Hcase as [?|(Ht & Hi & _)]; [done|]. by rewrite Ht, Hi, !Z.eqb_refl in Hb.
  - assert (forall l', omap ev_s (e :: l') = omap ev_s l') as Heq by (intros l'; cbn; by rewrite He). setoid_rewrite Heq. rewrite Heq in Hnd. setoid_rewrite Heq in Hev. by apply IH.
Qed.

Lemma clear_closed_wp ss0 ss pk sn op m : evs ss0 -> good pk sn op (Some m) ss0 ss ->
  wp (clear_closed_event junk m) (fun _ ss' => inv ss' pk sn op /\ evs ss' /\ seen (Some m) ss0 ss') ss.
Proof.
  intros [Hnd Hev] [Hinv [Hseen He]]. pose proof Hseen as [Ha Hp Hsoi Hl]. unfold clear_closed_event.
  assert (forall i, i ∈ omap ev_s (sv_ev ss) -> exists s, sv_slot ss !! i = Some s /\
    (live s \/ (s_type s = SOCKET_TYPE_INVALID /\ is_end m = true /\ s_id s = m_id m /\ HASH_ID (m_id m) = i))) as Hcase.
  { rewrite He. intros i Hi. destruct (Hev i Hi) as (s & Hs & Hls).
    destruct (Hl i s Hs Hls) as (s' & Hs' & Hids & [Hl'|(Ht & (m' & [= <-] & Hm & Hid))]); exists s'; (split; [done|]); [by left|right].
    split_and!; try done; [congruence|]. rewrite Hid, <- Hids. by apply (iv_slots _ _ _ _ Hinv i s'). }
  apply wp_when; intros Hm.
  - rewrite wp_modify. destruct (clear_first_evs ss (m_id m) (sv_ev ss)) as [Hc1 Hc2].
    + by rewrite He.
    + intros i Hi. destruct (Hcase i Hi) as (s & Hs & [?|(? & _ & ? & ?)]); exists s; auto.
    + split; [|split; [split|by destruct Hseen; split]]; [|done|].
      * eapply inv_unchanged; [exact Hinv|done|done| |done|done]. intros fd i w Hfd. by exists w.
      * intros i Hi. by apply Hc2.
  - split; [done|]. split; [|done]. split; [by rewrite He|]. intros i Hi. destruct (Hcase i Hi) as (s & Hs & [?|(_ & Hm' & _)]); [by exists s|congruence].
Qed.

(** ** An iteration of the socket thread *)

(** What it leaves. *)
Definition after pk sn op (r : option message) ss ss' : Prop := inv ss' pk sn op /\ evs ss' /\ seen r ss ss'.
(** The message that is returned, if any. *)
Definition told (p : polled) : option message := match p with PReturn m => Some m | PAgain | PFail => None end.
Lemma told_result r : told (of_result r) = r.
Proof. by destruct r. Qed.

Lemma good_after pk sn op r ss ss' : evs ss -> good pk sn op None ss ss' -> after pk sn op r ss ss'.
Proof. intros Hev [Hinv Hm]. split; [done|]. split; [by eapply moved_evs|]. apply seen_none, Hm. Qed.

Lemma inv_set_ev l ss pk sn op : inv ss pk sn op -> inv (set_ev l ss) pk sn op.
Proof. intros Hinv. eapply inv_unchanged; [exact Hinv|done|done| |done|done]. intros fd i w Hfd. by exists w. Qed.
Lemma inv_set_pipe l ss pk sn op : inv ss pk sn op -> inv (set_pipe l ss) pk sn op.
Proof. intros Hinv. eapply inv_unchanged; [exact Hinv|done|done| |done|done]. intros fd i w Hfd. by exists w. Qed.
Lemma inv_set_checkctrl b ss pk sn op : inv ss pk sn op -> inv (set_checkctrl b ss) pk sn op.
Proof. intros Hinv. eapply inv_unchanged; [exact Hinv|done|done| |done|done]. intros fd i w Hfd. by exists w. Qed.

(** The event that is handled is not among the others. *)
Lemma after_put pk sn op r ss i e' s' : good pk sn op r ss (put ss i e' s') -> evs ss -> i ∉ omap ev_s (sv_ev ss) ->
  after pk sn op r ss (put ss i e' s').
Proof.
  intros [Hinv [Hseen _]] [Hnd Hev] Hni. split; [done|]. split; [|done]. split; [done|]. intros j Hj. destruct (Hev j Hj) as (s & Hs & Hl).
  exists s. cbn. rewrite lookup_insert_ne; [done|]. by intros <-.
Qed.
Lemma after_back pk sn op r ss ss' i s (v : event) : after pk sn op r ss ss' -> ev_s v = Some i -> i ∉ omap ev_s (sv_ev ss') ->
  sv_slot ss' !! i = Some s -> live s -> after pk sn op r ss (set_ev (v :: sv_ev ss') ss').
Proof.
  intros (Hinv & [Hnd Hev] & Hseen) He Hni Hs Hl. split; [by apply inv_set_ev|]. split; [|by destruct Hseen; split].
  assert (omap ev_s (v :: sv_ev ss') = i :: omap ev_s (sv_ev ss')) as Heq by (cbn; by rewrite He).
  split; cbn [sv_ev set_ev sv_slot]; rewrite Heq; [by apply NoDup_cons|]. intros j [->|Hj]%elem_of_cons; [by exists s|by apply Hev].
Qed.

Lemma put_swap ss i j e o e1 s1 e2 o2 : i <> j -> put (put (put ss j e o) i e1 s1) j e2 o2 = put (put ss i e1 s1) j e2 o2.
Proof.
  intros Hne. unfold put, set_slot, set_env. cbn. f_equal. apply map_eq. intros k. destruct (decide (j = k)) as [<-|Hk].
  - by rewrite !lookup_insert_eq.
  - rewrite !(lookup_insert_ne _ j) by done. destruct (decide (i = k)) as [<-|Hi]; [by rewrite !lookup_insert_eq|].
    by rewrite !lookup_insert_ne.
Qed.

Lemma report_accept_wp ss pk sn op i s : inv ss pk sn op -> room ss -> sv_slot ss !! i = Some s -> live s ->
  wp (report_accept junk i) (fun _ ss' => good pk sn op None ss ss') ss.
Proof.
  intros Hinv Hroom Hs Hl. unfold report_accept. rewrite wp_bind. apply wp_the_slot. rewrite (slot_some _ _ _ Hs).
  rewrite wp_bind. apply wp_sys_call. intros c k _. set (ss1 := set_env _ ss).
  assert (good pk sn op None ss ss1) as Hg1 by (by apply good_env).
  destruct c as [err|[fd u]]; [case_bool_decide; by apply wp_ret|].
  rewrite wp_bind. eapply wp_mono; [apply (reserve_id_wp ss1 pk sn op); [apply Hg1|done]|].
  intros id ss2 [[-> Hg2]|(Hid & _ & _ & Hg2)].
  - change (-1 <? 0) with true. cbn match. rewrite wp_bind. apply wp_sys, wp_close. intros e' Hq. apply wp_ret.
    eapply good_trans; [exact Hg1|]. eapply good_trans; [exact Hg2|]. apply good_quiet; [apply Hg2|done].
  - destruct (Z.ltb_spec id 0); [lia|]. pose proof Hg2 as [Hinv2 Hm2].
    destruct (seen_live _ _ i s (proj1 Hm2) Hs Hl) as (s2 & Hs2 & _ & Hl2).
    destruct (op_slot _ _ _ _ _ Hinv2) as (t & Ht & Htt & _).
    assert (i <> HASH_ID id) as Hne by (intros Heq; rewrite Heq, Ht in Hs2; injection Hs2 as ->; by destruct Hl2).
    rewrite wp_bind. eapply new_fd_wp; [exact Hinv2|done|]. intros t' e' Ht' He'. cbn [negb]. rewrite wp_bind. apply wp_on.
    assert (slot junk (put ss2 (HASH_ID id) e' (opened (s_opaque s) id fd PROTOCOL_TCP SOCKET_TYPE_RESERVE t')) i = s2) as ->.
    { apply slot_some. cbn. by rewrite lookup_insert_ne. }
    unfold stat_read. rewrite wp_bind. apply wp_on_env. rewrite wp_gets. apply wp_upd. rewrite wp_bind. apply wp_on. cbn [fst snd].
    set (s3 := set_stat _ s2). set (o := opened _ _ _ _ _ _).
    assert (slot junk (put (put ss2 (HASH_ID id) e' o) i (sv_env (put ss2 (HASH_ID id) e' o)) s3) (HASH_ID id) = o) as ->.
    { apply slot_some. cbn. rewrite lookup_insert_ne by done. apply lookup_insert_eq. }
    apply wp_upd, wp_ret. cbn [fst snd]. rewrite put_swap by done.
    assert (good pk sn (id :: op) None ss2 (put ss2 i (sv_env ss2) s3)) as Hg3 by (by eapply good_similar).
    eapply good_trans; [exact Hg1|]. eapply good_trans; [exact Hg2|]. eapply good_trans; [exact Hg3|].
    apply (good_opened (put ss2 i (sv_env ss2) s3) pk sn op id t' e' (set_type SOCKET_TYPE_PACCEPT o) (s_opaque s) fd PROTOCOL_TCP None); try done.
    + apply Hg3.
    + cbn. by rewrite lookup_insert_ne.
Qed.

(** The end of an event whose socket is open or closed afterwards. *)
Lemma event_end pk sn op r ss i s e' s' : inv ss pk sn op -> evs ss -> i ∉ omap ev_s (sv_ev ss) -> sv_slot ss !! i = Some s -> live s ->
  framep i (held s) (sv_env ss) s e' s' -> finished e' s s' -> (closed s' -> ended r (s_id s)) -> after pk sn op r ss (put ss i e' s').
Proof. intros Hinv Hev Hni Hs Hl Hf Hfin Hr. apply after_put; [|done|done]. by eapply (good_move []). Qed.

Lemma fine_open slot ps e s e' s' dc C w r id : live s -> fine slot ps e s e' s' dc C w -> live s' /\ (closed s' -> ended r id).
Proof.
  intros Hl (_ & _ & _ & _ & Ht). assert (live s') as Hl' by (unfold live; by rewrite Ht). split; [done|]. intros [Hc _]. by destruct Hl'.
Qed.
Lemma event_fine pk sn op r ss i s e' s' dc C w : inv ss pk sn op -> evs ss -> i ∉ omap ev_s (sv_ev ss) -> sv_slot ss !! i = Some s -> live s ->
  fine i (held s) (sv_env ss) s e' s' dc C w -> after pk sn op r ss (put ss i e' s').
Proof.
  intros Hinv Hev Hni Hs Hl Hf. eapply event_end; try done; [apply Hf|by eapply fine_finished|]. by eapply fine_open.
Qed.
Lemma event_shut pk sn op m ss i s e' s' w : inv ss pk sn op -> evs ss -> i ∉ omap ev_s (sv_ev ss) -> sv_slot ss !! i = Some s -> live s ->
  shut i (sv_env ss) s e' s' w -> end_of s m -> after pk sn op (Some m) ss (put ss i e' s').
Proof.
  intros Hinv Hev Hni Hs Hl Hf Hm. eapply event_end; try done; [apply Hf|by eapply shut_finished|]. intros _. by apply end_ended.
Qed.

Lemma read_event_wp ss pk sn op i s (v : event) : inv ss pk sn op -> evs ss -> ev_s v = Some i -> i ∉ omap ev_s (sv_ev ss) ->
  sv_slot ss !! i = Some s -> live s ->
  wp (read_event junk i v (s_protocol s)) (fun p ss' => after pk sn op (told p) ss ss') ss.
Proof.
  intros Hinv Hev He Hni Hs Hl. unfold read_event. rewrite wp_bind. apply wp_on. rewrite (slot_some _ _ _ Hs).
  destruct (so_live _ _ _ _ _ _ (iv_slots _ _ _ _ Hinv _ s Hs) Hl) as (dc & C & Hok & Hc).
  assert (forall r e' s', fine i (held s) (sv_env ss) s e' s' dc C [] ->
    wp (if match r with Some m => negb (s_protocol s =? PROTOCOL_TCP) && (m_type m =? SOCKET_UDP) | None => false end then back v ;;; ret (of_result r)
        else when (ev_write v && match r with Some m => negb (is_end m) | None => true end)
               (back (Event (ev_s v) false (ev_write v) (ev_error v) (ev_eof v))) ;;; ret (of_result r))
      (fun p ss' => after pk sn op (told p) ss ss') (put ss i e' s')) as Hopen.
  { intros r e' s' Hfine.
    assert (after pk sn op r ss (put ss i e' s')) as Haft by (by eapply event_fine).
    assert (live s') as Hl' by (by destruct (fine_open _ _ _ _ _ _ _ _ _ None 0 Hl Hfine)).
    assert (forall v1 : event, ev_s v1 = Some i -> wp (back v1) (fun _ ss' => after pk sn op r ss ss') (put ss i e' s')) as Hback.
    { intros v1 Hv1. unfold back. rewrite wp_modify. eapply after_back; [done|done|done|cbn; apply lookup_insert_eq|done]. }
    case_match; rewrite wp_bind.
    - eapply wp_mono; [by apply Hback|]. intros u ss' Ha. apply wp_ret. by rewrite told_result.
    - apply wp_when; intros _; [|apply wp_ret; by rewrite told_result].
      eapply wp_mono; [by apply Hback|]. intros u ss' Ha. apply wp_ret. by rewrite told_result. }
  assert (forall m e' s', end_of s m -> shut i (sv_env ss) s e' s' [] ->
    wp (if negb (s_protocol s =? PROTOCOL_TCP) && (m_type m =? SOCKET_UDP) then back v ;;; ret (of_result (Some m))
        else when (ev_write v && negb (is_end m)) (back (Event (ev_s v) false (ev_write v) (ev_error v) (ev_eof v))) ;;; ret (of_result (Some m)))
      (fun p ss' => after pk sn op (told p) ss ss') (put ss i e' s')) as Hclosed.
  { intros m e' s' Hm Hsh. destruct (end_ended _ _ Hm) as (m' & [= <-] & Hend & _).
    assert ((m_type m =? SOCKET_UDP) = false) as -> by (by destruct Hm as [[-> | ->] _]). rewrite andb_false_r, Hend, andb_false_r.
    rewrite wp_bind. apply wp_ret. by eapply event_shut. }
  destruct (s_protocol s =? PROTOCOL_TCP).
  - eapply forward_message_tcp_wp; [exact Hok|done|done| |]; [intros r e' s' Hf _; by apply Hopen|intros m e' s' Hm Hsh; by apply Hclosed].
  - eapply forward_message_udp_wp; [exact Hok|done|done| |]; [intros r e' s' Hf _; by apply Hopen|intros m e' s' Hm Hsh; by apply Hclosed].
Qed.

Lemma handle_event_wp ss pk sn op (v : event) : inv ss pk sn op -> evs ss -> room ss ->
  (forall i, ev_s v = Some i -> (i ∉ omap ev_s (sv_ev ss)) /\ exists s, sv_slot ss !! i = Some s /\ live s) ->
  wp (handle_event junk v) (fun p ss' => after pk sn op (told p) ss ss') ss.
Proof.
  intros Hinv Hev Hroom Hi. unfold handle_event.
  assert (forall p : polled, wp (ret p) (fun p ss' => after pk sn op (told p) ss ss') ss) as Hret by (intros p; apply wp_ret, good_after, good_refl; done).
  destruct (ev_s v) as [i|] eqn:He; [|apply Hret]. destruct (Hi i eq_refl) as (Hni & s & Hs & Hl).
  rewrite wp_bind. apply wp_the_slot. rewrite (slot_some _ _ _ Hs).
  destruct (so_live _ _ _ _ _ _ (iv_slots _ _ _ _ Hinv _ s Hs) Hl) as (dc & C & Hok & Hc).
  assert (forall type data e0, e_mem e0 = e_mem (sv_env ss) -> e_soi e0 = e_soi (sv_env ss) -> e_poll e0 = e_poll (sv_env ss) ->
    e_time e0 = e_time (sv_env ss) -> type = SOCKET_CLOSE \/ type = SOCKET_ERR ->
    wp (m <- on junk i (force_close type data) ;; ret (PReturn m)) (fun p ss' => after pk sn op (told p) ss ss') (set_env e0 ss)) as Hclose.
  { intros type data e0 Hm0 Hs0 Hp0 Ht0 Ht. rewrite wp_bind. apply wp_on. cbn [sv_env set_env].
    change (slot junk (set_env e0 ss) i) with (slot junk ss i). rewrite (slot_some _ _ _ Hs).
    eapply (close_end i); [by eapply (sokc_keep (sv_env ss)); [done|intros p _; by rewrite Hm0|exact Hok]|done|done|].
    intros m e' s' Hm [Hf Hcl Hp Hw]. apply wp_ret. cbn [fst snd]. change (put (set_env e0 ss) i e' s') with (put ss i e' s').
    eapply event_end; try done; [|by right|by intros _; apply end_ended]. eapply framep_trans; [|exact Hf]. apply frame_same; try done.
    rewrite Hp0. apply poll_frame_refl. }
  destruct (s_type s =? SOCKET_TYPE_CONNECTING).
  { rewrite wp_bind. apply wp_on. rewrite (slot_some _ _ _ Hs). eapply report_connect_wp; [exact Hok|done|done| |].
    - intros m e' s' Hf Hok' Hc' Ht' _ _. apply wp_ret. assert (live s') as Hl' by (unfold live; by rewrite Ht').
      eapply event_end; try done; [left; split; [done|by exists dc, C]|]. intros [Hcl _]. by destruct Hl'.
    - intros m e' s' Hm Hsh. apply wp_ret. by eapply event_shut. }
  destruct (s_type s =? SOCKET_TYPE_LISTEN).
  { rewrite wp_bind. eapply wp_mono; [by eapply report_accept_wp|]. intros ok ss' Hg. destruct ok; by apply wp_ret, good_after. }
  destruct (s_type s =? SOCKET_TYPE_INVALID); [apply Hret|].
  destruct (ev_read v); [by apply read_event_wp|].
  destruct (ev_write v).
  { rewrite wp_bind. apply wp_on. rewrite (slot_some _ _ _ Hs). eapply send_buffer_wp; [exact Hok|done|done| |].
    - intros r e' s' w dc' C' Hfine _ _. apply wp_ret. by eapply event_fine.
    - intros e' s' w lost Hsh _. apply wp_ret. eapply event_shut; try done. split; [by left|done]. }
  destruct (ev_error v).
  { unfold error_event. rewrite wp_bind. apply wp_sys_call. intros code k _. apply Hclose; try done. by right. }
  destruct (ev_eof v); [|apply Hret]. assert (set_env (sv_env ss) ss = ss) as Hsame by by destruct ss.
  pose proof (Hclose SOCKET_CLOSE DNull (sv_env ss) eq_refl eq_refl eq_refl eq_refl ltac:(by left)) as Hend. by rewrite Hsame in Hend.
Qed.
End inv.
