(* ===== verification/SocketSystem.v ===== *)
(** The socket server and the threads that call it: every order of their steps.

    A state is the server with the requests that are on their way to its pipe.  A step
    is an iteration of the socket thread, a call of one of the functions of
    skynet-src/socket_server.c up to its request, or the request's way into the
    pipe. *)

From S2P Require Import Prelude Bytes State Socket SocketServer SocketBuffer SocketStream SocketInv.
#[local] Set Default Proof Using "Type*".
Local Open Scope Z_scope.
Local Open Scope st_scope.

(** ** Calls *)

(** With the caller's package: a block that is not in use yet. *)
Inductive call :=
| CConnect (opaque : Z) (addr : string) (port : Z)
| CListen (opaque : Z) (addr : string) (port backlog : Z)
| CBind (opaque fd : Z)
| CUdp (opaque : Z) (addr : option string) (port : Z)
| CSend (id p sz : Z) (o : object)
| CSendLow (id p sz : Z) (o : object)
| CUdpSend (id : Z) (address : list Z) (p sz : Z) (o : object)
| CUdpConnect (id : Z) (addr : string) (port : Z)
| CClose (opaque id : Z)
| CShutdown (opaque id : Z)
| CStart (opaque id : Z)
| CNodelay (id : Z)
| CExit
| CUpdatetime (time : Z)
| CInfo.

Section world.
Context {K : Type} `{LawfulKernel K}.
Context (junk : Z -> socket).
Implicit Types (ss : socket_server K) (e : env K) (s : socket).

Definition give (p : Z) (o : object) : ST (socket_server K) unit := sys (modify (fun e => set_mem (<[p := o]> (e_mem e)) e)).
(** A thread that waits keeps its package and tries again later. *)
Definition with_package (p : Z) (o : object) (m : ST (socket_server K) called) : ST (socket_server K) called :=
  give p o ;;;
  r <- m ;;
  match r with
  | Spin => sys (modify (fun e => set_mem (delete p (e_mem e)) e)) ;;; ret Spin
  | Done _ _ => ret r
  end.

Definition run_call (c : call) : ST (socket_server K) called :=
  match c with
  | CConnect opaque addr port => socket_server_connect junk opaque addr port
  | CListen opaque addr port backlog => socket_server_listen junk opaque addr port backlog
  | CBind opaque fd => socket_server_bind junk opaque fd
  | CUdp opaque addr port => socket_server_udp junk opaque addr port
  | CSend id p sz o => with_package p o (socket_server_send junk id p sz)
  | CSendLow id p sz o => with_package p o (socket_server_send_lowpriority junk id p sz)
  | CUdpSend id address p sz o => with_package p o (socket_server_udp_send junk id address p sz)
  | CUdpConnect id addr port => socket_server_udp_connect junk id addr port
  | CClose opaque id => socket_server_close opaque id
  | CShutdown opaque id => socket_server_shutdown opaque id
  | CStart opaque id => socket_server_start opaque id
  | CNodelay id => socket_server_nodelay id
  | CExit => socket_server_exit
  | CUpdatetime time => socket_server_updatetime time ;;; ret (Done 0 None)
  | CInfo => _ <- socket_server_info junk ;; ret (Done 0 None)
  end.

(** ** The states *)

Definition world : Type := socket_server K * list request.
Inductive op := OPoll | OCall (c : call) | OWrite (n : nat).

(** A call leaves at most one request on its way. *)
Definition issued (r : called) : list request := match r with Done _ (Some q) => [q] | _ => [] end.
Definition do_op (o : op) (w : world) : option world :=
  let '(ss, fl) := w in
  match o with
  | OPoll => '(_, ss') ← poll_step junk ss; Some (ss', fl)
  | OCall c => '(r, ss') ← run_call c ss; Some (ss', fl ++ issued r)
  | OWrite n =>
    match fl !! n with
    | Some q => '(_, ss') ← send_request q ss; Some (ss', take n fl ++ drop (S n) fl)
    | None => Some w
    end
  end.

(** What callers keep to: packages are blocks of their own, an object with low
    priority has its bytes at its own address; nothing is sent to a socket that is
    only reserved, and only ids that were returned are closed. *)
Definition reserved_now ss id : Prop :=
  exists s, sv_slot ss !! HASH_ID id = Some s /\ s_type s = SOCKET_TYPE_RESERVE /\ s_id s = id.
Definition package_fits ss (p sz : Z) (o : object) (high : bool) : Prop :=
  e_mem (sv_env ss) !! p = None /\ pkg_ok (e_soi (sv_env ss)) p sz o /\ (high = false -> ob_base o = p).
Definition returned ss (fl : list request) id : Prop := id <= sv_alloc_id ss /\ id ∉ opens fl.
Definition call_allowed (c : call) (w : world) : Prop :=
  let '(ss, fl) := w in
  match c with
  | CSend id p sz o => package_fits ss p sz o true /\ ~ reserved_now ss id
  | CSendLow id p sz o => package_fits ss p sz o false /\ ~ reserved_now ss id
  | CUdpSend id _ p sz o => package_fits ss p sz o true /\ ~ reserved_now ss id
  | CClose _ id | CShutdown _ id => returned ss fl id
  | _ => True
  end.
(** The ids do not wrap around. *)
Definition allowed (o : op) (w : world) : Prop :=
  room w.1 /\ match o with OCall c => call_allowed c w | _ => True end.

(** The server as it is created, and with the interface for objects if [user]. *)
Definition initial (user : bool) (time : Z) (k : K) : world :=
  let ss := socket_server_create time k ∅ in
  (if user then match socket_server_userobject ss with Some (_, ss') => ss' | None => ss end else ss, []).
Inductive reach (w0 : world) : world -> Prop :=
| reach_refl : reach w0 w0
| reach_step o w w' : reach w0 w -> allowed o w -> do_op o w = Some w' -> reach w0 w'.

(** ** The invariant *)

(** In the pipe no request closes what a later one opens. *)
Fixpoint ordered (l : list request) : Prop :=
  match l with [] => True | r :: l => (forall id, id ∈ closes [r] -> id ∉ opens l) /\ ordered l end.

Record sound ss (fl : list request) : Prop := {
  sd_inv : inv ss (pkgs (sv_pipe ss ++ fl)) (sends (sv_pipe ss ++ fl)) (opens (sv_pipe ss ++ fl));
  sd_evs : evs ss;
  sd_order : ordered (sv_pipe ss);
  sd_out id : id ∈ closes (sv_pipe ss ++ fl) -> id ∉ opens fl;
  sd_bound id : id ∈ closes (sv_pipe ss ++ fl) -> id <= sv_alloc_id ss
}.

Lemma ordered_app l r : ordered l -> (forall id, id ∈ closes l -> id ∉ opens [r]) -> ordered (l ++ [r]).
Proof.
  induction l as [|q l IH]; intros Ho Hr; cbn [app ordered]; [split; [by intros id _ ?%not_elem_of_nil|done]|].
  destruct Ho as [Hq Ho]. split.
  - intros id Hid. unfold opens. rewrite omap_app. intros [?|?]%elem_of_app; [by apply (Hq id)|]. apply (Hr id); [|done].
    unfold closes in *. cbn in *. destruct (close_id q); [|by apply not_elem_of_nil in Hid]. apply list_elem_of_singleton in Hid as ->. by left.
  - apply IH; [done|]. intros id Hid. apply Hr. unfold closes in *. cbn. destruct (close_id q); [by right|done].
Qed.

Lemma carried_cons {A} (f : request -> option A) r l : omap f (r :: l) = omap f [r] ++ omap f l.
Proof. cbn. by destruct (f r). Qed.

(** *** The socket thread *)

Lemma poll_event ss pk sn oid : inv ss pk sn oid -> evs ss -> room ss ->
  wp (next_event junk) (fun p ss' => after pk sn oid (told p) ss ss') ss.
Proof.
  intros Hinv [Hnd Hev] Hroom. unfold next_event. rewrite wp_bind, wp_gets. destruct (sv_ev ss) as [|v l] eqn:Hl.
  - apply wp_ret. split; [done|]. split; [by split; rewrite Hl|apply seen_refl].
  - rewrite wp_bind, wp_modify. eapply wp_mono; [apply (handle_event_wp junk (set_ev l ss) pk sn oid v)|].
    + by apply inv_set_ev.
    + split; cbn.
      * cbn in Hnd. destruct (ev_s v); [by apply NoDup_cons in Hnd as [_ ?]|done].
      * intros i Hi. apply Hev. cbn. destruct (ev_s v); [by right|done].
    + done.
    + intros i Hi. cbn in Hnd, Hev. rewrite Hi in Hnd, Hev. apply NoDup_cons in Hnd as [Hni _]. split; [done|]. apply Hev. by left.
    + intros p ss' (Hinv' & Hev' & [Ha Hp Hs Hlv]). split; [done|]. split; [done|]. by split.
Qed.

Lemma poll_step_wp ss fl : sound ss fl -> room ss ->
  wp (poll_step junk) (fun r ss' => sound ss' fl /\ seen (told r.1) (set_pipe (sv_pipe ss') ss) ss') ss.
Proof.
  intros [Hinv Hev Hord Hout Hbound] Hroom. unfold poll_step. rewrite wp_bind, wp_gets, wp_bind, wp_gets.
  assert (wp (modify (set_checkctrl false) ;;;
    l <- gets sv_ev ;;
    if is_empty l then
      r <- sys (sp_wait MAX_EVENT) ;;
      modify (set_checkctrl true) ;;;
      match r with
      | inl e => ret (if bool_decide (e = EINTR) then PAgain else PFail, true)
      | inr l => modify (set_ev l) ;;; p <- next_event junk ;; ret (p, true)
      end
    else p <- next_event junk ;; ret (p, false))
    (fun r ss' => sound ss' fl /\ seen (told r.1) (set_pipe (sv_pipe ss') ss) ss') ss) as Hevents.
  { assert (forall p ss1 ss2, after (pkgs (sv_pipe ss ++ fl)) (sends (sv_pipe ss ++ fl)) (opens (sv_pipe ss ++ fl)) (told p) ss1 ss2 ->
      sv_slot ss1 = sv_slot ss -> sv_alloc_id ss1 = sv_alloc_id ss -> sv_pipe ss1 = sv_pipe ss -> e_soi (sv_env ss1) = e_soi (sv_env ss) ->
      sound ss2 fl /\ seen (told p) (set_pipe (sv_pipe ss2) ss) ss2) as Hend.
    { intros p ss1 ss2 (Hinv2 & Hev2 & [Ha Hp Hs Hlv]) Hsl Hal Hpi Hso. rewrite Hpi in Hp. split.
      - split; rewrite ?Hp; try done. intros id Hid. rewrite Hal in Ha. specialize (Hbound id Hid). lia.
      - split; cbn; try done; [lia|congruence|]. rewrite <- Hsl. done. }
    rewrite wp_bind, wp_modify, wp_bind, wp_gets. cbn [sv_ev set_checkctrl]. set (ss0 := set_checkctrl false ss).
    assert (inv ss0 (pkgs (sv_pipe ss ++ fl)) (sends (sv_pipe ss ++ fl)) (opens (sv_pipe ss ++ fl))) as Hinv0 by by apply inv_set_checkctrl.
    destruct (sv_ev ss) as [|v l] eqn:Hl; cbn [is_empty].
    - rewrite wp_bind. apply wp_sys. unfold sp_wait. rewrite wp_bind, wp_gets. apply wp_syscall. rewrite wp_bind, wp_modify.
      set (r := (sys_epoll_wait _ _ _).1) in *. set (ss1 := set_checkctrl true _).
      assert (inv ss1 (pkgs (sv_pipe ss ++ fl)) (sends (sv_pipe ss ++ fl)) (opens (sv_pipe ss ++ fl))) as Hinv1.
      { apply inv_set_checkctrl. by eapply good_env. }
      destruct r as [err|l] eqn:Hr.
      + apply wp_ret. cbn [fst].
        assert (sound ss1 fl /\ forall q, seen q (set_pipe (sv_pipe ss) ss) ss1) as [? ?].
        { split; [by split; try done; split; cbn; rewrite Hl|]. intros q. split; try done. intros i s Hs Hls. exists s. auto. }
        split; [done|]. by case_bool_decide.
      + rewrite wp_bind, wp_modify. rewrite wp_bind. eapply wp_mono; [eapply (poll_event (set_ev l ss1)); [by apply inv_set_ev| |done]|].
        * split; cbn.
          -- apply (wait_once _ _ _ _ Hr). intros fd fd' i w w' (s & Hs & _ & <-)%(iv_poll _ _ _ _ Hinv) (s' & Hs' & _ & <-)%(iv_poll _ _ _ _ Hinv).
             rewrite Hs in Hs'. by injection Hs' as <-.
          -- intros i (v & Hv & Hi)%list_elem_of_omap. destruct (wait_registered _ _ _ _ v i Hr Hv Hi) as (fd & w & Hfd).
             apply (iv_poll _ _ _ _ Hinv) in Hfd as (s & Hs & Hls & _). by exists s.
        * intros p ss2 Ha. apply wp_ret. eapply (Hend p); [exact Ha|done..].
    - rewrite wp_bind. eapply wp_mono; [eapply (poll_event ss0); [done| |done]|].
      + exact Hev.
      + intros p ss2 Ha. apply wp_ret. eapply (Hend p); [exact Ha|done..]. }
  destruct (sv_checkctrl ss); [|exact Hevents]. destruct (sv_pipe ss) as [|r pipe] eqn:Hpipe; [exact Hevents|]. clear Hevents.
  cbn [app] in Hinv, Hout, Hbound. unfold pkgs, sends, opens in Hinv. rewrite (carried_cons send_pkg r (pipe ++ fl)), (carried_cons send_id r (pipe ++ fl)), (carried_cons open_id r (pipe ++ fl)) in Hinv. cbn [ordered] in Hord. destruct Hord as [Hr Hord].
  rewrite wp_bind, wp_modify, wp_bind. set (ss0 := set_pipe pipe ss).
  assert (forall id, id ∈ closes (r :: pipe ++ fl) <-> id ∈ closes [r] \/ id ∈ closes (pipe ++ fl)) as Hcl.
  { intros id. unfold closes. rewrite (carried_cons close_id r (pipe ++ fl)). apply elem_of_app. }
  eapply wp_mono; [apply (ctrl_cmd_wp junk ss0 r (pkgs (pipe ++ fl)) (sends (pipe ++ fl)) (opens (pipe ++ fl)))|].
  { by apply inv_set_pipe. }
  { intros id Hid. unfold opens. rewrite omap_app. intros [?|?]%elem_of_app; [by apply (Hr id)|]. apply (Hout id); [|done]. apply Hcl. by left. }
  intros m ss1 Hg. rewrite wp_bind.
  assert (evs ss0) as Hev0 by done.
  assert (wp (match m with Some m => clear_closed_event junk m | None => ret tt end)
    (fun _ ss' => inv ss' (pkgs (pipe ++ fl)) (sends (pipe ++ fl)) (opens (pipe ++ fl)) /\ evs ss' /\ seen m ss0 ss') ss1) as Hclear.
  { destruct m as [m|]; [by eapply clear_closed_wp|]. apply wp_ret. split; [apply Hg|]. split; [eapply moved_evs; [done|apply Hg]|apply Hg]. }
  eapply wp_mono; [exact Hclear|]. intros u ss2 (Hinv2 & Hev2 & Hseen). apply wp_ret. pose proof Hseen as [Ha Hp Hs Hlv]. cbn in Ha, Hp. cbn [fst].
  rewrite told_result, Hp. split; [|done]. split; rewrite ?Hp; try done.
  - intros id Hid. apply (Hout id), Hcl. by right.
  - intros id Hid. assert (id <= sv_alloc_id ss); [apply (Hbound id), Hcl; by right|lia].
Qed.

(** *** Calls *)

Abbreviation on_the_way ss fl := (sv_pipe ss ++ fl).

(** What a call leaves: its request is on its way. *)
Definition called_post ss fl (r : called) ss' : Prop :=
  let l := issued r in
  inv ss' (pkgs l ++ pkgs (on_the_way ss fl)) (sends l ++ sends (on_the_way ss fl)) (opens l ++ opens (on_the_way ss fl)) /\
  moved None ss ss' /\ (forall id, id ∈ closes l -> returned ss fl id) /\ (forall id, id ∈ opens l -> sv_alloc_id ss < id).

Lemma issued_disjoint r id : id ∈ closes (issued r) -> id ∉ opens (issued r).
Proof. destruct r as [|z [[]|]]; cbn; intros Hin; try (by apply not_elem_of_nil in Hin); by apply not_elem_of_nil. Qed.

Lemma sound_call ss fl r ss' : sound ss fl -> called_post ss fl r ss' -> sound ss' (fl ++ issued r).
Proof.
  intros [Hinv Hev Hord Hout Hbound] (Hinv' & [Hseen He] & Hcl & Hop). pose proof Hseen as [Ha Hp _ _].
  assert (forall id, id ∈ closes (on_the_way ss fl ++ issued r) -> id ∈ closes (on_the_way ss fl) \/ id ∈ closes (issued r)) as Hsplit.
  { intros id. unfold closes. rewrite omap_app. apply elem_of_app. }
  split; rewrite ?Hp, ?(assoc (++)).
  - unfold pkgs, sends, opens in *. rewrite !(omap_app _ (on_the_way ss fl) (issued r)). eapply inv_proper; [apply Permutation_app_comm..|exact Hinv'].
  - by eapply moved_evs.
  - done.
  - intros id. rewrite (assoc (++)). intros [Hid|Hid]%Hsplit; unfold opens; rewrite omap_app; intros [Hin|Hin]%elem_of_app.
    + by apply (Hout id).
    + specialize (Hop id Hin). specialize (Hbound id Hid). lia.
    + by apply (Hcl id).
    + by apply (issued_disjoint r id).
  - intros id. rewrite (assoc (++)). intros [Hid|Hid]%Hsplit; [specialize (Hbound id Hid); lia|]. destruct (Hcl id Hid). lia.
Qed.

(** No request, or one that needs nothing. *)
Lemma called_none ss fl r ss' : issued r = [] ->
  good (pkgs (on_the_way ss fl)) (sends (on_the_way ss fl)) (opens (on_the_way ss fl)) None ss ss' -> called_post ss fl r ss'.
Proof. intros Hr [Hinv Hm]. unfold called_post. rewrite Hr. split; [done|]. split; [done|]. split; by intros id ?%not_elem_of_nil. Qed.
Lemma called_plain ss fl z q ss' : send_pkg q = None -> send_id q = None -> open_id q = None -> close_id q = None ->
  good (pkgs (on_the_way ss fl)) (sends (on_the_way ss fl)) (opens (on_the_way ss fl)) None ss ss' -> called_post ss fl (Done z (Some q)) ss'.
Proof.
  intros H1' H2' H3' H4' [Hinv Hm]. unfold called_post, pkgs, sends, opens, closes. cbn. rewrite H1', H2', H3', H4'.
  split; [done|]. split; [done|]. split; by intros id ?%not_elem_of_nil.
Qed.
Lemma called_close ss fl z id shutdown opaque : sound ss fl -> returned ss fl id -> called_post ss fl (Done z (Some (RClose id shutdown opaque))) ss.
Proof.
  intros Hsd Hr. split; [apply Hsd|]. split; [apply moved_refl|]. split; [|by intros ? ?%not_elem_of_nil].
  intros id' ->%list_elem_of_singleton. done.
Qed.

(** A reserved slot and the request for it. *)
Lemma called_open ss ss1 fl (n : Z) (f : Z -> request) (g : ST (socket_server K) called) (Q : called -> socket_server K -> Prop) :
  sound ss fl -> room ss -> good (pkgs (on_the_way ss fl)) (sends (on_the_way ss fl)) (opens (on_the_way ss fl)) None ss ss1 ->
  sv_alloc_id ss1 = sv_alloc_id ss ->
  (forall id, send_pkg (f id) = None /\ send_id (f id) = None /\ open_id (f id) = Some id /\ close_id (f id) = None) ->
  (forall ss2, good (pkgs (on_the_way ss fl)) (sends (on_the_way ss fl)) (opens (on_the_way ss fl)) None ss ss2 -> wp g Q ss2) ->
  (forall r ss2, called_post ss fl r ss2 -> Q r ss2) ->
  wp (id <- reserve_id junk ;; if id <? 0 then g else ret (Done id (Some (f id)))) Q ss1.
Proof.
  intros Hsd Hroom Hg1 Ha Hf Hg HQ. rewrite wp_bind. eapply wp_mono; [apply (reserve_id_wp junk ss1); [apply Hg1|]|].
  { unfold room. by rewrite Ha. }
  intros id ss2 [[-> Hg2]|(Hid & Hlt & _ & Hg2)].
  - change (-1 <? 0) with true. cbn match. apply Hg. by eapply good_trans.
  - destruct (Z.ltb_spec id 0); [lia|]. apply wp_ret, HQ. destruct (Hf id) as (Hf1 & Hf2 & Hf3 & Hf4).
    unfold called_post, pkgs, sends, opens, closes in *. cbn. rewrite Hf1, Hf2, Hf3, Hf4. cbn.
    split; [apply Hg2|]. split; [eapply moved_trans; [apply Hg1|apply Hg2]|]. split; [by intros ? ?%not_elem_of_nil|].
    intros id' ->%list_elem_of_singleton. lia.
Qed.

Lemma do_bind_wp host port tcp e (Q : option (Z * bool) -> env K -> Prop) :
  (forall r e', quiet e e' -> Q r e') -> wp (do_bind host port tcp) Q e.
Proof.
  intros HQ. unfold do_bind. rewrite wp_bind. apply wp_syscall. destruct (sys_getaddrinfo _ _ _ _).1 as [|[|ai l]]; [by apply wp_ret, HQ..|].
  rewrite wp_bind. apply wp_syscall. destruct (sys_socket _ _).1; [by apply wp_ret, HQ|].
  rewrite wp_bind. apply wp_syscall. destruct (sys_reuse_bind _ _ _).1; [by apply wp_ret, HQ|].
  rewrite wp_bind. apply wp_close. intros e' Hq. apply wp_ret. by apply HQ.
Qed.
Lemma do_listen_wp host port backlog e (Q : Z -> env K -> Prop) :
  (forall r e', quiet e e' -> Q r e') -> wp (do_listen host port backlog) Q e.
Proof.
  intros HQ. unfold do_listen. rewrite wp_bind. apply do_bind_wp. intros [[fd b]|] e1 Hq1; [|by apply wp_ret, HQ].
  rewrite wp_bind. apply wp_syscall. destruct (sys_listen _ _ _).1; [by apply wp_ret, HQ|].
  rewrite wp_bind. apply wp_close. intros e' Hq. apply wp_ret, HQ. by eapply quiet_then.
Qed.

Lemma opening_calls_wp ss fl c : sound ss fl -> room ss ->
  match c with CConnect _ _ _ | CListen _ _ _ _ | CBind _ _ | CUdp _ _ _ => True | _ => False end ->
  wp (run_call c) (called_post ss fl) ss.
Proof.
  intros Hsd Hroom Hc. pose proof (sd_inv _ _ Hsd) as Hinv.
  assert (forall r, issued r = [] -> called_post ss fl r ss) as Hno by (intros r Hr; by apply called_none, good_refl).
  assert (forall e', quiet (sv_env ss) e' -> good (pkgs (on_the_way ss fl)) (sends (on_the_way ss fl)) (opens (on_the_way ss fl)) None ss (set_env e' ss)) as Hquiet.
  { intros e' Hq. by apply good_quiet. }
  assert (forall fd z ss2, good (pkgs (on_the_way ss fl)) (sends (on_the_way ss fl)) (opens (on_the_way ss fl)) None ss ss2 ->
    wp (sys (close fd) ;;; ret (Done z None)) (called_post ss fl) ss2) as Hclose.
  { intros fd z ss2 Hg. rewrite wp_bind. apply wp_sys, wp_close. intros e' Hq. apply wp_ret, called_none; [done|].
    eapply good_trans; [exact Hg|]. apply good_quiet; [apply Hg|done]. }
  destruct c; try done; cbn [run_call].
  - unfold socket_server_connect, open_request. rewrite wp_bind. destruct (256 <=? _); [by apply wp_ret, wp_ret, Hno|].
    rewrite <- wp_bind. apply (called_open ss ss fl 0 (fun id => ROpen id port opaque addr)); try done; [by apply good_refl|].
    intros ss2 Hg. apply wp_ret. by apply called_none.
  - unfold socket_server_listen. rewrite wp_bind. apply wp_sys, do_listen_wp. intros fd e' Hq. destruct (fd <? 0); [by apply wp_ret, called_none, Hquiet|].
    rewrite wp_bind. eapply wp_mono; [apply (reserve_id_wp junk (set_env e' ss)); [by apply Hquiet|done]|].
    intros id ss2 Hpost.
    assert (wp (id' <- ret id ;; if id' <? 0 then sys (close fd) ;;; ret (Done id None) else ret (Done id' (Some (RListen id' fd opaque)))) (called_post ss fl) ss2) as Hw; [|exact Hw].
    rewrite wp_bind. apply wp_ret. destruct Hpost as [[-> Hg]|(Hid & Hlt & _ & Hg)].
    + apply Hclose. eapply good_trans; [by apply Hquiet|done].
    + destruct (Z.ltb_spec id 0); [lia|]. apply wp_ret. unfold called_post. cbn. split; [apply Hg|].
      split; [eapply moved_trans; [by apply Hquiet|apply Hg]|]. split; [by intros ? ?%not_elem_of_nil|]. intros id' ->%list_elem_of_singleton. cbn in Hlt. lia.
  - unfold socket_server_bind. apply (called_open ss ss fl 0 (fun id => RBind id fd opaque)); try done; [by apply good_refl|].
    intros ss2 Hg. apply wp_ret. by apply called_none.
  - unfold socket_server_udp. rewrite wp_bind.
    assert (forall r e', quiet (sv_env ss) e' ->
      wp (match r with
          | None => ret (Done (-1) None)
          | Some (fd, inet6) =>
            id <- reserve_id junk ;;
            if id <? 0 then sys (close fd) ;;; ret (Done (-1) None) else ret (Done id (Some (RUdp id fd inet6 opaque)))
          end) (called_post ss fl) (set_env e' ss)) as Hgo.
    { intros [[fd inet6]|] e' Hq; [|by apply wp_ret, called_none, Hquiet].
      apply (called_open ss (set_env e' ss) fl 0 (fun id => RUdp id fd inet6 opaque)); try done; [by apply Hquiet|].
      intros ss2 Hg. by apply Hclose. }
    case_match.
    + apply wp_sys, do_bind_wp. intros r e' Hq. by apply Hgo.
    + rewrite wp_bind. apply wp_sys_call. intros fd k _. apply wp_ret. destruct fd as [err|fd]; [by apply (Hgo None)|by apply (Hgo (Some (fd, false)))].
Qed.

(** *** Calls with a package *)

(** The caller's package, before it is handed over. *)
Definition with_one (x : package) ss fl ss1 : Prop :=
  good (x :: pkgs (on_the_way ss fl)) (sends (on_the_way ss fl)) (opens (on_the_way ss fl)) None ss ss1.

(** What the call leaves: its caller waits with the package, or is done. *)
Definition sent (x : package) ss fl (r : called) ss' : Prop :=
  match r with Spin => with_one x ss fl ss' | Done _ _ => called_post ss fl r ss' end.

Lemma with_package_wp ss fl p sz o high m : sound ss fl -> package_fits ss p sz o high ->
  (forall ss1, with_one (Package p sz high) ss fl ss1 -> sv_slot ss1 = sv_slot ss -> sv_alloc_id ss1 = sv_alloc_id ss ->
     wp m (sent (Package p sz high) ss fl) ss1) ->
  wp (with_package p o m) (called_post ss fl) ss.
Proof.
  intros [Hinv _ _ _ _] (Hp & Hok & Hb) Hm. unfold with_package, give. rewrite wp_bind. apply wp_sys. rewrite wp_modify, wp_bind.
  eapply wp_mono; [apply Hm; [|done|done]|].
  - split; [by apply inv_given|by apply moved_env].
  - intros [|z q] ss' Hr; [|by apply wp_ret]. rewrite wp_bind. apply wp_sys. rewrite wp_modify. apply wp_ret, called_none; [done|].
    eapply good_trans; [exact Hr|]. split; [|by apply moved_env]. by apply (inv_freed ss' _ _ _ (Package p sz high)), Hr.
Qed.

Lemma free_given ss fl ss1 x z : with_one x ss fl ss1 ->
  wp (sys (free_buffer (pk_ptr x) (pk_sz x)) ;;; ret (Done z None)) (sent x ss fl) ss1.
Proof.
  intros Hg. pose proof Hg as [Hinv Hm]. destruct (pkg_head _ _ _ _ _ Hinv) as (o & Ho & Hpk & _). rewrite wp_bind. apply wp_sys. unfold free_buffer.
  rewrite wp_bind. eapply wp_send_object_init; [exact Ho|exact Hpk|]. cbn [so_user]. eapply wp_free_block; [exact Ho|done|].
  apply wp_ret, called_none; [done|]. eapply good_trans; [exact Hg|]. split; [by apply (inv_freed ss1 _ _ _ x)|by apply moved_env].
Qed.

Lemma trylock_wp b ss fl x ss1 (Q : bool -> socket_server K -> Prop) : with_one x ss fl ss1 ->
  (forall r e', quiet (sv_env ss1) e' -> with_one x ss fl (set_env e' ss1) -> (r = true -> b = true) -> Q r (set_env e' ss1)) -> wp (trylock b) Q ss1.
Proof.
  intros Hg HQ. unfold trylock. destruct b.
  - rewrite wp_bind. apply wp_sys_call. intros a k _. apply wp_ret. apply HQ; [done| |done]. eapply good_trans; [exact Hg|]. apply good_quiet; [apply Hg|done].
  - apply wp_ret. assert (set_env (sv_env ss1) ss1 = ss1) as Hsame by by destruct ss1. rewrite <- Hsame. apply HQ; [done| |done]. by rewrite Hsame.
Qed.

(** It is on its way to the socket thread. *)
Lemma via_pipe_wp ss fl ss1 id p sz high s : with_one (Package p sz high) ss fl ss1 -> sv_slot ss1 !! HASH_ID id = Some s -> s_id s = id -> live s ->
  wp (via_pipe junk (HASH_ID id) id sz p high) (sent (Package p sz high) ss fl) ss1.
Proof.
  intros Hg Hs Hid Hl. pose proof Hg as [Hinv Hm]. assert (s_type s <> SOCKET_TYPE_RESERVE) as Hnr by apply Hl.
  assert (forall ss2, good (Package p sz high :: pkgs (on_the_way ss fl)) ((id, true) :: sends (on_the_way ss fl)) (opens (on_the_way ss fl)) None ss ss2 ->
    called_post ss fl (Done 0 (Some (RSend id sz p high))) ss2) as Hdone.
  { intros ss2 [Hinv2 Hm2]. split; [done|]. split; [done|]. split; by intros ? ?%not_elem_of_nil. }
  unfold via_pipe, inc_sending_ref. rewrite !wp_bind. apply wp_the_slot. rewrite (slot_some _ _ _ _ Hs).
  destruct (Z.eqb_spec (s_protocol s) PROTOCOL_TCP) as [Ht|Ht]; cbn [negb].
  - destruct (so_count _ _ _ _ _ _ (iv_slots _ _ _ _ Hinv _ s Hs) Ht) as [Hse Hle]. rewrite Hid in Hse, Hle.
    pose proof (count_nonneg id (sends (on_the_way ss fl))). rewrite Hse, sending_tag, sending_count, Z.eqb_refl by lia.
    destruct (Z.eqb_spec (count id (sends (on_the_way ss fl))) 0xffff) as [|Hne]; [by apply wp_ret, wp_ret|].
    rewrite wp_bind. unfold put_slot. rewrite wp_modify. apply wp_ret, wp_ret, Hdone. eapply good_trans; [exact Hg|]. split.
    + apply (inv_count ss1 _ (sends (on_the_way ss fl)) _ (HASH_ID id) s); [done|done| | |].
      * intros id' Hne'. apply count_other. rewrite <- Hid. done.
      * intros id' b [[= -> ->]|Hin]%elem_of_cons; [by right|by left].
      * intros _. rewrite Hid, count_cons, decide_True by done. lia.
    + rewrite put_env. apply moved_slot; [done|]. intros t Ht' _. rewrite Hs in Ht'. injection Ht' as <-. split; [done|by left].
  - apply wp_ret, wp_ret, Hdone. split; [|done]. rewrite <- Hid. apply inv_send; [done|by rewrite Hid|done|by right].
Qed.

Lemma sendable ss id ss1 : ~ reserved_now ss id -> sv_slot ss1 = sv_slot ss ->
  negb (s_id (slot junk ss1 (HASH_ID id)) =? id) || (s_type (slot junk ss1 (HASH_ID id)) =? SOCKET_TYPE_INVALID) = false ->
  sv_slot ss1 !! HASH_ID id = Some (slot junk ss1 (HASH_ID id)) /\ s_id (slot junk ss1 (HASH_ID id)) = id /\ live (slot junk ss1 (HASH_ID id)).
Proof.
  intros Hnr Hsl [Hi%negb_false_iff%Z.eqb_eq Ht%Z.eqb_neq]%orb_false_iff. pose proof (slot_used junk _ _ Ht) as Hs. split; [done|]. split; [done|].
  split; [done|]. intros Hr. apply Hnr. exists (slot junk ss1 (HASH_ID id)). by rewrite <- Hsl.
Qed.

Lemma can_direct s id : can_direct_write s id = true -> s_high s = [] /\ s_low s = [] /\ s_dw s = None.
Proof.
  unfold can_direct_write, nomore_sending_data, send_buffer_empty.
  intros [[[_ [[[Hh%is_empty_true Hl%is_empty_true]%andb_true_iff Hd]%andb_true_iff _]%andb_true_iff]%andb_true_iff _]%andb_true_iff _]%andb_true_iff.
  split; [done|]. split; [done|]. by destruct (s_dw s).
Qed.

Lemma send_wp ss fl id p sz o : sound ss fl -> package_fits ss p sz o true -> ~ reserved_now ss id ->
  wp (with_package p o (socket_server_send junk id p sz)) (called_post ss fl) ss.
Proof.
  intros Hsd Hfit Hnr. eapply with_package_wp; [done|exact Hfit|]. intros ss1 Hg Hsl _. unfold socket_server_send. rewrite wp_bind. apply wp_the_slot.
  destruct (negb _ || _) eqn:Hst; [by apply (free_given ss fl ss1 (Package p sz true))|].
  destruct (sendable ss id ss1 Hnr Hsl Hst) as (Hs & Hid & Hl). set (s := slot junk ss1 (HASH_ID id)) in *. rewrite wp_bind.
  eapply trylock_wp; [exact Hg|]. intros direct e' _ Hg' Hdir. set (ss2 := set_env e' ss1) in *.
  assert (sv_slot ss2 !! HASH_ID id = Some s) as Hs2 by done. destruct direct; [|by eapply via_pipe_wp].
  destruct (can_direct s id (Hdir eq_refl)) as (Hh & Hlo & Hd). pose proof Hg' as [Hinv Hm].
  rewrite wp_bind. apply wp_on. rewrite (slot_some _ _ _ _ Hs2).
  destruct (pkg_head _ _ _ _ _ Hinv) as (ob & Ho & Hpk & _). cbn [pk_ptr pk_sz] in Ho, Hpk.
  destruct (so_live _ _ _ _ _ _ (iv_slots _ _ _ _ Hinv _ s Hs2) Hl) as (dc & C & Hok & Hc).
  assert (dc = []) as -> by (pose proof (sok_dw _ _ _ _ _ Hok) as Hdr; by rewrite Hd in Hdr).
  eapply direct_write_wp; [exact Hok|done..|exact Ho|exact Hpk|by eapply (pkg_apart _ (Package p sz true)) in Hinv|].
  intros r e2 s2 dc2 w Hf _ _. apply wp_ret. cbn [sent]. apply called_none; [done|]. eapply good_trans; [exact Hg'|].
  eapply (good_move [Package p sz true]); [exact Hinv|exact Hs2|done|apply Hf|by eapply fine_finished|]. by eapply fine_open.
Qed.

Lemma send_low_wp ss fl id p sz o : sound ss fl -> package_fits ss p sz o false -> ~ reserved_now ss id ->
  wp (with_package p o (socket_server_send_lowpriority junk id p sz)) (called_post ss fl) ss.
Proof.
  intros Hsd Hfit Hnr. eapply with_package_wp; [done|exact Hfit|]. intros ss1 Hg Hsl _. unfold socket_server_send_lowpriority.
  rewrite wp_bind. apply wp_the_slot. destruct (negb _ || _) eqn:Hst; [by apply (free_given ss fl ss1 (Package p sz false))|].
  destruct (sendable ss id ss1 Hnr Hsl Hst) as (Hs & Hid & Hl). by eapply via_pipe_wp.
Qed.

Lemma udp_send_wp ss fl id address p sz o : sound ss fl -> package_fits ss p sz o true -> ~ reserved_now ss id ->
  wp (with_package p o (socket_server_udp_send junk id address p sz)) (called_post ss fl) ss.
Proof.
  intros Hsd Hfit Hnr. eapply with_package_wp; [done|exact Hfit|]. intros ss1 Hg Hsl _. unfold socket_server_udp_send. rewrite wp_bind. apply wp_the_slot.
  destruct (negb _ || _) eqn:Hst; [by apply (free_given ss fl ss1 (Package p sz true))|].
  destruct (negb _) eqn:Hty in |- *; [by apply (free_given ss fl ss1 (Package p sz true))|].
  destruct (sendable ss id ss1 Hnr Hsl Hst) as (Hs & Hid & Hl). set (s := slot junk ss1 (HASH_ID id)) in *. rewrite wp_bind.
  eapply trylock_wp; [exact Hg|]. intros direct e' _ Hg' Hdir. set (ss2 := set_env e' ss1) in *.
  assert (sv_slot ss2 !! HASH_ID id = Some s) as Hs2 by done. pose proof Hg' as [Hinv Hm].
  assert (forall ss3 a, with_one (Package p sz true) ss fl ss3 -> sv_slot ss3 !! HASH_ID id = Some s ->
    called_post ss fl (Done 0 (Some (RSendUdp id sz p a))) ss3) as Hpipe.
  { intros ss3 a [Hinv3 Hm3] Hs3. split; [|split; [done|split; by intros ? ?%not_elem_of_nil]]. cbn.
    rewrite <- Hid. apply (inv_send _ _ _ _ s); [done|by rewrite Hid|apply Hl|by left]. }
  rewrite wp_bind. destruct direct; [|by apply wp_ret, wp_ret, Hpipe].
  destruct (pkg_head _ _ _ _ _ Hinv) as (ob & Ho & Hpk & _). cbn [pk_ptr pk_sz] in Ho, Hpk.
  destruct (so_live _ _ _ _ _ _ (iv_slots _ _ _ _ Hinv _ s Hs2) Hl) as (dc & C & Hok & Hc).
  apply wp_on. rewrite (slot_some _ _ _ _ Hs2).
  eapply (udp_direct_write_wp _ _ _ (HASH_ID id)); [exact Hok|done|exact Ho|exact Hpk|by eapply (pkg_apart _ (Package p sz true)) in Hinv| |].
  - intros r e2 s2 Hf. apply wp_ret. cbn [sent]. apply called_none; [done|]. eapply good_trans; [exact Hg'|].
    eapply (good_move [Package p sz true]); [exact Hinv|exact Hs2|done|apply Hf|by eapply fine_finished|]. by eapply fine_open.
  - intros e2 [Hm2 Hp2 _ Hs2' _]. apply wp_ret. cbn [fst snd]. rewrite put_same by done. apply Hpipe; [|done].
    eapply good_trans; [exact Hg'|]. by apply good_env.
Qed.

(** *** The other calls *)

Lemma query_info_wp s e (Q : option socket_info -> env K -> Prop) : (forall r k, Q r (set_k k e)) -> wp (query_info s) Q e.
Proof.
  intros HQ. assert (set_k (e_k e) e = e) as Hsame by by destruct e.
  assert (forall r, Q r e) as HQ0 by (intros r; rewrite <- Hsame; apply HQ).
  unfold query_info. destruct (s_type s =? SOCKET_TYPE_BIND); [by apply wp_ret|].
  destruct (s_type s =? SOCKET_TYPE_LISTEN); [rewrite wp_bind; apply wp_syscall, wp_ret, HQ|].
  destruct (s_type s =? SOCKET_TYPE_CONNECTED); [|by apply wp_ret].
  destruct (s_protocol s =? PROTOCOL_TCP); [rewrite wp_bind; apply wp_syscall, wp_ret, HQ|by apply wp_ret].
Qed.
Lemma info_loop_wp l : forall si ss (Q : list socket_info -> socket_server K -> Prop),
  (forall r e', quiet (sv_env ss) e' -> e_poll e' = e_poll (sv_env ss) -> Q r (set_env e' ss)) -> wp (info_loop junk l si) Q ss.
Proof.
  induction l as [|i l IH]; intros si ss Q HQ; cbn [info_loop].
  - apply wp_ret. assert (set_env (sv_env ss) ss = ss) as Hsame by by destruct ss. rewrite <- Hsame. by apply HQ.
  - rewrite wp_bind. apply wp_the_slot. rewrite wp_bind. apply wp_sys, query_info_wp. intros r k. apply IH.
    intros r' e' Hq Hp. apply (HQ r' e'); [by eapply quiet_then|done].
Qed.

Lemma call_wp ss fl c : sound ss fl -> room ss -> call_allowed c (ss, fl) -> wp (run_call c) (called_post ss fl) ss.
Proof.
  intros Hsd Hroom Hc. pose proof (sd_inv _ _ Hsd) as Hinv.
  destruct c; try (by apply opening_calls_wp); cbn [run_call call_allowed] in *.
  - by apply send_wp; [|apply Hc..].
  - by apply send_low_wp; [|apply Hc..].
  - by apply udp_send_wp; [|apply Hc..].
  - unfold socket_server_udp_connect. rewrite wp_bind. apply wp_the_slot. destruct (negb _ || _) eqn:Hst; [by apply wp_ret, called_none, good_refl|].
    apply orb_false_iff in Hst as [_ Ht%Z.eqb_neq]. pose proof (slot_used junk _ _ Ht) as Hs. rewrite wp_bind. apply wp_on, wp_upd. cbn [fst snd].
    set (ss1 := put _ _ _ _).
    assert (good (pkgs (on_the_way ss fl)) (sends (on_the_way ss fl)) (opens (on_the_way ss fl)) None ss ss1) as Hg by (by eapply good_similar).
    rewrite wp_bind. apply wp_sys_call. intros status k _.
    assert (good (pkgs (on_the_way ss fl)) (sends (on_the_way ss fl)) (opens (on_the_way ss fl)) None ss (set_env (set_k k (sv_env ss1)) ss1)) as Hg2.
    { eapply good_trans; [exact Hg|]. apply good_env; [apply Hg|done..]. }
    destruct status as [|[|ai l]]; apply wp_ret; [by apply called_none..|by apply called_plain].
  - by apply wp_ret, called_close.
  - by apply wp_ret, called_close.
  - by apply wp_ret, called_plain, good_refl.
  - by apply wp_ret, called_plain, good_refl.
  - by apply wp_ret, called_plain, good_refl.
  - rewrite wp_bind. apply wp_sys. rewrite wp_modify. apply wp_ret, called_none; [done|]. by apply good_env.
  - rewrite wp_bind. apply info_loop_wp. intros r e' Hq Hp. apply wp_ret, called_none; [done|]. by apply good_quiet.
Qed.

(** *** Every step *)

Lemma write_sound ss fl n q : sound ss fl -> fl !! n = Some q ->
  sound (set_pipe (sv_pipe ss ++ [q]) ss) (take n fl ++ drop (S n) fl).
Proof.
  intros [Hinv Hev Hord Hout Hbound] Hq. pose proof (take_drop_middle _ _ _ Hq) as Hfl. set (fl' := take n fl ++ drop (S n) fl).
  assert (fl ≡ₚ q :: fl') as Hperm by (rewrite <- Hfl at 1; unfold fl'; by rewrite <- Permutation_middle).
  assert (on_the_way (set_pipe (sv_pipe ss ++ [q]) ss) fl' ≡ₚ on_the_way ss fl) as Hp.
  { cbn. rewrite Hperm, <- (assoc (++)). done. }
  assert (forall id, id ∈ opens fl <-> id ∈ opens [q] \/ id ∈ opens fl') as Hopens.
  { intros id. assert (opens fl ≡ₚ opens (q :: fl')) as -> by (unfold opens; by rewrite Hperm).
    unfold opens. rewrite (carried_cons open_id q fl'). apply elem_of_app. }
  assert (forall id, id ∈ closes (on_the_way (set_pipe (sv_pipe ss ++ [q]) ss) fl') <-> id ∈ closes (on_the_way ss fl)) as Hcl.
  { intros id. assert (closes (on_the_way (set_pipe (sv_pipe ss ++ [q]) ss) fl') ≡ₚ closes (on_the_way ss fl)) as -> by (unfold closes; by rewrite Hp). done. }
  split.
  - apply inv_set_pipe. eapply inv_proper; [..|exact Hinv]; unfold pkgs, sends, opens; by rewrite Hp.
  - exact Hev.
  - apply ordered_app; [done|]. intros id Hid Hin. apply (Hout id); [|apply Hopens; by left]. unfold closes. rewrite omap_app. apply elem_of_app. by left.
  - intros id Hid%Hcl Hin. apply (Hout id); [done|]. apply Hopens. by right.
  - intros id Hid%Hcl. by apply Hbound.
Qed.

Lemma do_sound o w : sound w.1 w.2 -> allowed o w -> exists w', do_op o w = Some w' /\ sound w'.1 w'.2.
Proof.
  destruct w as [ss fl]. intros Hsd [Hroom Hal]. destruct o as [|c|n]; cbn [do_op] in *.
  - pose proof (poll_step_wp ss fl Hsd Hroom) as (r & ss' & -> & Hsd' & _)%wp_run. by exists (ss', fl).
  - pose proof (call_wp ss fl c Hsd Hroom Hal) as (r & ss' & -> & Hpost)%wp_run. exists (ss', fl ++ issued r). split; [done|]. by eapply sound_call.
  - destruct (fl !! n) as [q|] eqn:Hq; [|by exists (ss, fl)]. eexists. split; [done|]. by apply write_sound.
Qed.

Lemma sound_initial user time k : sound (initial user time k).1 (initial user time k).2.
Proof.
  assert (forall ss, sv_env ss = Env k ∅ ∅ [] time user -> sv_slot ss = ∅ -> sv_alloc_id ss = 0 -> sv_ev ss = [] -> sv_pipe ss = [] -> sound ss []) as Hgo.
  { intros ss He Hs Ha Hev Hp. split; rewrite ?Hp; try done.
    - split; rewrite ?He, ?Hs, ?Ha; try done; try apply NoDup_nil_2; try apply Forall_nil_2.
      + by intros id ?%not_elem_of_nil.
      + by intros id b ?%not_elem_of_nil.
    - split; rewrite Hev; [constructor|]. by intros i ?%not_elem_of_nil.
    - by intros id ?%not_elem_of_nil.
    - by intros id ?%not_elem_of_nil. }
  destruct user; by apply Hgo.
Qed.

Lemma reach_sound user time k w : reach (initial user time k) w -> sound w.1 w.2.
Proof.
  induction 1 as [|o w w' _ IH Hal Hdo]; [apply sound_initial|]. destruct (do_sound o w IH Hal) as (w2 & Hdo2 & Hsd). rewrite Hdo in Hdo2. by injection Hdo2 as ->.
Qed.

(** ** The theorems *)

(** [C16] Whatever the order of calls, of requests on their way to the pipe and of
    iterations of the socket thread, and whatever the kernel answers within its
    laws: no assert of socket_server.c fails, no block is used after it is freed or
    freed twice, and no event is of a slot that is closed or only reserved, as long
    as callers keep to [allowed]. *)
Theorem socket_server_never_fails user time k w o :
  reach (initial user time k) w -> allowed o w -> is_Some (do_op o w).
Proof. intros Hr Hal. destruct (do_sound o w (reach_sound _ _ _ _ Hr) Hal) as (w' & -> & _). done. Qed.

(** [C17] In every state that is reached: the ids whose opening request is on its way
    are different and are those of the reserved slots; the low half of the counter
    of a TCP socket is the number of its packages on their way; the packages on
    their way and the blocks that open sockets hold are allocated and all
    different; a slot that is not open has no package; descriptors in the event set
    and the events not looked at are of open sockets, which have that descriptor. *)
Theorem socket_server_invariant user time k w :
  reach (initial user time k) w ->
  let ss := w.1 in let rs := sv_pipe ss ++ w.2 in
  (NoDup (opens rs) /\ forall id, id ∈ opens rs <-> reserved_now ss id) /\
  (forall i s, sv_slot ss !! i = Some s -> HASH_ID (s_id s) = i /\
     (s_protocol s = PROTOCOL_TCP -> Z.land (s_sending s) 0xffff = count (s_id s) (sends rs))) /\
  (NoDup (pk_ptr <$> pkgs rs) /\ forall x, x ∈ pkgs rs -> is_Some (e_mem (sv_env ss) !! pk_ptr x)) /\
  (forall i s, sv_slot ss !! i = Some s ->
     if decide (live s) then
       NoDup (held s) /\ forall p, p ∈ held s -> is_Some (e_mem (sv_env ss) !! p) /\ (p ∉ pk_ptr <$> pkgs rs) /\
         forall j s', sv_slot ss !! j = Some s' -> live s' -> p ∈ held s' -> j = i
     else s_high s = [] /\ s_low s = []) /\
  (forall fd i b, e_poll (sv_env ss) !! fd = Some (i, b) -> exists s, sv_slot ss !! i = Some s /\ live s /\ s_fd s = fd) /\
  (NoDup (omap ev_s (sv_ev ss)) /\ forall i, i ∈ omap ev_s (sv_ev ss) -> exists s, sv_slot ss !! i = Some s /\ live s).
Proof.
  intros Hr ss rs. destruct (reach_sound _ _ _ _ Hr) as [Hinv Hev _ _ _]. fold ss in Hinv, Hev. fold rs in Hinv. split_and!; try apply Hinv; try apply Hev.
  - intros id. split; [apply Hinv|]. intros (s & Hs & Ht & <-). by apply (iv_slots _ _ _ _ Hinv _ s Hs).
  - intros i s Hs. destruct (iv_slots _ _ _ _ Hinv i s Hs) as [[? _] _ _ _ Hc]. split; [done|]. intros Ht. destruct (Hc Ht) as [-> Hle].
    apply sending_count. split; [apply count_nonneg|done].
  - intros x Hx. pose proof (iv_pkgs _ _ _ _ Hinv) as Hp. rewrite Forall_forall in Hp. by destruct (Hp x Hx) as (o & -> & _).
  - intros i s Hs. destruct (iv_slots _ _ _ _ Hinv i s Hs) as [_ Hidle Hlive _ _]. case_decide as Hl; [|by apply Hidle].
    destruct (Hlive Hl) as (dc & C & Hok & _). split; [apply (sok_nodup _ _ _ _ _ Hok)|]. intros p Hp. split; [by eapply held_mem|].
    split; [by apply (iv_apart _ _ _ _ Hinv i s)|]. intros j s' Hs' Hl' Hp'. by apply (iv_disjoint _ _ _ _ Hinv j i s' s p).
Qed.

(** [C18] A socket is never closed behind its owner's back: an open socket keeps its slot
    and its id in every step, and if the step closes it, the step is one of the socket
    thread and returns a message of type CLOSE or ERR with this id. *)
Theorem closing_is_told user time k w o w' i s :
  reach (initial user time k) w -> allowed o w -> do_op o w = Some w' ->
  sv_slot w.1 !! i = Some s -> live s ->
  exists s', sv_slot w'.1 !! i = Some s' /\ s_id s' = s_id s /\
    (live s' \/ (s_type s' = SOCKET_TYPE_INVALID /\ o = OPoll /\
       exists m b, fst <$> poll_step junk w.1 = Some (PReturn m, b) /\
         (m_type m = SOCKET_CLOSE \/ m_type m = SOCKET_ERR) /\ m_id m = s_id s)).
Proof.
  intros Hr [Hroom Hal] Hdo Hs Hl. pose proof (reach_sound _ _ _ _ Hr) as Hsd. destruct w as [ss fl]. cbn [fst snd] in *.
  destruct o as [|c|n]; cbn [do_op] in Hdo.
  - pose proof (poll_step_wp ss fl Hsd Hroom) as ([p b] & ss' & Hrun & _ & Hseen)%wp_run. rewrite Hrun in Hdo |- *. injection Hdo as <-. cbn [fst] in *.
    destruct (mv_live _ _ _ Hseen i s Hs Hl) as (s' & Hs' & Hi & Hcase). exists s'. split; [done|]. split; [done|].
    destruct Hcase as [?|(Ht & m & Hm & He & Hid)]; [by left|right]. split; [done|]. split; [done|]. exists m, b.
    split; [destruct p; try done; by injection Hm as ->|]. split; [|done].
    unfold is_end in He. apply orb_true_iff in He as [?%Z.eqb_eq|?%Z.eqb_eq]; auto.
  - pose proof (call_wp ss fl c Hsd Hroom Hal) as (r & ss' & Hrun & _ & [Hseen _] & _)%wp_run. rewrite Hrun in Hdo. injection Hdo as <-.
    destruct (seen_live _ _ i s Hseen Hs Hl) as (s' & ? & ? & ?). exists s'. auto.
  - destruct (fl !! n) as [q|]; injection Hdo as <-; exists s; auto.
Qed.
End world.

(** ** A run *)

Import Demo.

Definition junk0 (i : Z) : socket := Socket 0 [] [] 0 (Stat 0 0 0 0) 0 0 0 0 0 0 0 0 [] None.
(** A connection, a package that is written in part, one that goes through the pipe, the
    end of the connection. *)
Definition demo_kernel_state : script := [2; 1; -1; -1].
Definition demo_world : world := initial true 5 demo_kernel_state.
Definition demo_steps : list op :=
  [OCall (CConnect 7 "10.0.0.1" 80); OWrite 0; OPoll; OCall (CSend 1 100 3 (Object false 100 [1; 2; 3]));
   OCall (CSendLow 1 200 (-1) (Object true 200 [4; 5])); OWrite 0].

Fixpoint runs (ops : list op) (w : world) : option world :=
  match ops with [] => Some w | o :: ops => w' ← do_op junk0 o w; runs ops w' end.
Fixpoint all_allowed (ops : list op) (w : world) : Prop :=
  match ops with [] => True | o :: ops => allowed o w /\ forall w', do_op junk0 o w = Some w' -> all_allowed ops w' end.

Lemma runs_reach ops : forall w0 w w', reach junk0 w0 w -> all_allowed ops w -> runs ops w = Some w' -> reach junk0 w0 w'.
Proof.
  induction ops as [|o ops IH]; intros w0 w w' Hr Hal Hrun; cbn in *; [by injection Hrun as <-|].
  destruct Hal as [Ho Hal]. apply bind_Some in Hrun as (w1 & Hdo & Hrun). eapply (IH w0 w1); [by eapply reach_step|by apply Hal|done].
Qed.

Lemma demo_allowed : all_allowed demo_steps demo_world.
Proof.
  repeat (split; [split; [by vm_compute|try exact I]|intros w' Hw; vm_compute in Hw; injection Hw as <-]); try exact I.
  - split; [by repeat split|]. intros (s & Hs & Ht & _). vm_compute in Hs. injection Hs as <-. discriminate Ht.
  - split; [by repeat split|]. intros (s & Hs & Ht & _). vm_compute in Hs. injection Hs as <-. discriminate Ht.
Qed.

Definition demo_reached : world := default demo_world (runs demo_steps demo_world).
Lemma demo_reach : reach junk0 demo_world demo_reached.
Proof. eapply runs_reach; [apply reach_refl|exact demo_allowed|]. by vm_compute. Qed.

Lemma socket_server_never_fails_witness : is_Some (do_op junk0 OPoll demo_reached).
Proof.
  apply (socket_server_never_fails junk0 true 5 demo_kernel_state); [exact demo_reach|]. split; [by vm_compute|exact I].
Defined.

Lemma socket_server_invariant_witness :
  let ss := demo_reached.1 in
  Z.land (s_sending (slot junk0 ss 1)) 0xffff = 1 /\ count 1 (sends (sv_pipe ss ++ demo_reached.2)) = 1 /\ held (slot junk0 ss 1) = [100] /\
  is_Some (e_mem (sv_env ss) !! 100).
Proof.
  pose proof (socket_server_invariant junk0 true 5 demo_kernel_state demo_reached demo_reach) as (_ & _ & _ & Hheld & _).
  cbn zeta. split; [by vm_compute|]. split; [by vm_compute|]. split; [by vm_compute|].
  destruct (sv_slot demo_reached.1 !! 1) as [s|] eqn:Hs; [|by vm_compute in Hs]. specialize (Hheld 1 s Hs).
  assert (live s /\ held s = [100]) as [Hl Hh] by (vm_compute in Hs; injection Hs as <-; by repeat split).
  rewrite decide_True in Hheld by done. destruct Hheld as [_ Hheld]. apply Hheld. rewrite Hh. by left.
Defined.

(** A connection that is shut down with a part of a package unsent. *)
Definition shut_steps : list op :=
  [OCall (CConnect 7 "10.0.0.1" 80); OWrite 0; OPoll; OCall (CSend 1 100 3 (Object false 100 [1; 2; 3]));
   OCall (CShutdown 7 1); OWrite 0].
Definition shut_world : world := initial false 5 [2; -1].
Definition shut_reached : world := default shut_world (runs shut_steps shut_world).
Lemma shut_allowed : all_allowed shut_steps shut_world.
Proof.
  repeat (split; [split; [by vm_compute|try exact I]|intros w' Hw; vm_compute in Hw; injection Hw as <-]); try exact I.
  - split; [by repeat split|]. intros (s & Hs & Ht & _). vm_compute in Hs. injection Hs as <-. discriminate Ht.
  - split; [by vm_compute|]. apply not_elem_of_nil.
Qed.
Lemma shut_reach : reach junk0 shut_world shut_reached.
Proof. eapply runs_reach; [apply reach_refl|exact shut_allowed|]. by vm_compute. Qed.

Lemma closing_is_told_witness :
  exists m b, fst <$> poll_step junk0 shut_reached.1 = Some (PReturn m, b) /\ (m_type m = SOCKET_CLOSE \/ m_type m = SOCKET_ERR) /\ m_id m = 1.
Proof.
  destruct (do_op junk0 OPoll shut_reached) as [w'|] eqn:Hdo; [|by vm_compute in Hdo].
  destruct (sv_slot shut_reached.1 !! 1) as [s|] eqn:Hs; [|by vm_compute in Hs].
  destruct (closing_is_told junk0 false 5 [2; -1] shut_reached OPoll w' 1 s) as (s' & Hs' & _ & Hcase).
  - exact shut_reach.
  - split; [by vm_compute|exact I].
  - exact Hdo.
  - exact Hs.
  - vm_compute in Hs. injection Hs as <-. by split.
  - vm_compute in Hs. injection Hs as <-. vm_compute in Hdo. injection Hdo as <-. vm_compute in Hs'. injection Hs' as <-.
    destruct Hcase as [[Hl _]|(_ & _ & Hm)]; [by destruct Hl|exact Hm].
Defined.

(** ** Where callers do not keep to it, and what the code does then *)

Definition run_demo (user : bool) (k : script) (ops : list op) : option world := runs ops (initial user 5 k).
Definition opened_ops : list op := [OCall (CConnect 7 "10.0.0.1" 80); OWrite 0; OPoll].

(** An object of low priority whose bytes are not at its own address: the assert at the
    start of [send_buffer_] takes it for a package that is sent in part. *)
Example low_object_asserts :
  let low p b := [OCall (CSendLow 1 p (-1) (Object true b [1; 2])); OWrite 0; OPoll] in
  is_Some (run_demo true [-1] (opened_ops ++ low 100 108 ++ low 200 208 ++ [OPoll])) /\
  run_demo true [-1] (opened_ops ++ low 100 108 ++ low 200 208 ++ [OPoll; OPoll]) = None.
Proof. split; [eexists|]; by vm_compute. Qed.

(** A package for a socket that is only reserved is not counted: the assert in
    [dec_sending_ref] fails when it arrives. *)
Example early_send_asserts :
  let ops := [OCall (CConnect 7 "10.0.0.1" 80); OCall (CSendLow 1 100 2 (Object false 100 [1; 2])); OWrite 0; OWrite 0; OPoll] in
  is_Some (run_demo false [] ops) /\ run_demo false [] (ops ++ [OPoll]) = None.
Proof. split; [eexists|]; by vm_compute. Qed.

(** A package that is on its way when the socket is closed: it is dropped, and the socket
    is left half closed with nothing to send and no event to close it. *)
Example close_drops_package :
  exists ss s, run_demo false [] (opened_ops ++
      [OCall (CSendLow 1 100 2 (Object false 100 [1; 2])); OCall (CClose 7 1); OWrite 1; OPoll; OWrite 0; OPoll]) = Some (ss, []) /\
    sv_slot ss !! 1 = Some s /\ s_type s = SOCKET_TYPE_HALFCLOSE /\ nomore_sending_data s = true /\
    e_trace (sv_env ss) = [] /\ e_mem (sv_env ss) !! 100 = None /\ e_poll (sv_env ss) !! 9 = Some (1, false).
Proof. do 2 eexists. split; [by vm_compute|]. split; [by vm_compute|]. by split_and!; vm_compute. Qed.

(** A package for a descriptor that was handed over waits without a write event. *)
Example bound_never_writes :
  exists ss s, run_demo false [] [OCall (CBind 7 3); OWrite 0; OPoll; OCall (CSend 1 100 2 (Object false 100 [1; 2])); OWrite 0; OPoll] = Some (ss, []) /\
    sv_slot ss !! 1 = Some s /\ wb_buffer <$> s_high s = [100] /\ e_poll (sv_env ss) !! 3 = Some (1, false).
Proof. do 2 eexists. split; [by vm_compute|]. split; [by vm_compute|]. by split_and!; vm_compute. Qed.

