(* ===== verification/SocketReports.v ===== *)
(** What the messages of the socket server carry: a block with data that has been read, a text with an
    opening, an acceptance or an error, nothing otherwise. *)

From S2P Require Import Prelude Bytes State Socket SocketServer SocketBuffer.
Local Open Scope Z_scope.
Local Open Scope st_scope.

(** ** What a computation can give *)

Definition gives {S A} (m : ST S A) (P : A -> Prop) : Prop := forall s a s', m s = Some (a, s') -> P a.

Section gives.
Context {S A B : Type}.

Lemma gives_ret (a : A) (P : A -> Prop) : P a -> gives (ret a : ST S A) P.
Proof. by intros HP s a' s' [= <- <-]. Qed.

Lemma gives_fail (P : A -> Prop) : gives (fail : ST S A) P.
Proof. done. Qed.

Lemma gives_bind (m : ST S A) (k : A -> ST S B) (P : A -> Prop) (Q : B -> Prop) :
  gives m P -> (forall a, P a -> gives (k a) Q) -> gives (bind m k) Q.
Proof. intros Hm Hk s b s'. unfold bind. destruct (m s) as [[a s1]|] eqn:E; [|done]. apply Hk. by eapply Hm. Qed.

Lemma gives_then (m : ST S A) (k : A -> ST S B) (Q : B -> Prop) : (forall a, gives (k a) Q) -> gives (bind m k) Q.
Proof. intros Hk. by apply (gives_bind _ _ (fun _ => True)). Qed.

Lemma gives_gets (f : S -> A) (P : A -> Prop) : (forall s, P (f s)) -> gives (gets f) P.
Proof. by intros HP s a s' [= <- <-]. Qed.

Lemma gives_zoom {T} (get : S -> T) (put : T -> S -> S) (m : ST T A) P : gives m P -> gives (zoom get put m) P.
Proof. intros Hm s a s'. unfold zoom. destruct (m (get s)) as [[b t]|] eqn:E; [|done]. intros [= <- <-]. by eapply Hm. Qed.
End gives.

(** ** Reports *)

(** An address behind the [ud] bytes of a package. *)
Definition address_ok (ud : Z) (l : list Z) : bool :=
  (0 <=? ud) && (ud <=? MAX_UDP_PACKAGE) &&
  match drop (Z.to_nat ud) l with
  | p :: r => ((p =? PROTOCOL_UDP) && (zlen r =? 6)) || ((p =? PROTOCOL_UDPv6) && (zlen r =? 18))
  | [] => false
  end.

Definition report_ok (m : message) : bool :=
  let t := m_type m in
  match m_data m with
  | DBlock l => ((t =? SOCKET_DATA) && (m_ud m =? zlen l)) || ((t =? SOCKET_UDP) && address_ok (m_ud m) l)
  | DNull => negb ((t =? SOCKET_DATA) || (t =? SOCKET_UDP)) && (0 <=? t) && (t <=? SOCKET_WARNING)
  | _ => (t =? SOCKET_OPEN) || (t =? SOCKET_ERR) || (t =? SOCKET_ACCEPT)
  end.

Definition result_ok (r : option message) : Prop := match r with Some m => report_ok m = true | None => True end.
Definition polled_ok (p : polled) : Prop := match p with PReturn m => report_ok m = true | _ => True end.

Create HintDb gives.

(** Through the code: what a named computation gives is in the hints, any other one may give anything. *)
Ltac gives_walk :=
  repeat first
    [ progress intros
    | solve [auto 2 with gives]
    | apply gives_ret
    | apply gives_gets
    | match goal with
      | |- gives (bind _ _) _ => eapply gives_bind; [solve [eauto 2 with gives]|cbn beta]
      | |- gives (bind _ _) _ => apply gives_then
      | |- gives (if ?b then _ else _) _ => destruct b
      | |- gives (match ?x with _ => _ end) _ => destruct x
      end ].

Section reports.
Context {K : Type} `{LawfulKernel K}.

Lemma name_data_ok sa id opaque ud : report_ok (Message SOCKET_OPEN id opaque ud (name_data sa)) = true.
Proof. unfold name_data. by destruct (sa ≫= inet_ntop). Qed.

Lemma force_close_gives type data : (forall id opaque, report_ok (Message type id opaque 0 data) = true) ->
  gives (force_close type data : ST (SE K) message) (fun m => report_ok m = true).
Proof.
  intros Hok. eapply gives_bind; [apply (gives_gets _ (fun m => report_ok m = true)); intros; apply Hok|].
  intros m Hm. by gives_walk.
Qed.
#[local] Hint Extern 1 (gives (force_close _ _) _) => apply force_close_gives; by intros : gives.

Lemma tcp_loop_gives high l : gives (tcp_loop high l : ST (SE K) (option message)) result_ok.
Proof. induction l as [|tmp next IH]; [by apply gives_ret|]. cbn [tcp_loop]. by gives_walk. Qed.

Lemma udp_loop_gives high l : gives (udp_loop high l : ST (SE K) (option message)) result_ok.
Proof. induction l as [|tmp next IH]; [by apply gives_ret|]. cbn [udp_loop]. by gives_walk. Qed.
#[local] Hint Resolve tcp_loop_gives udp_loop_gives : gives.

Lemma send_buffer_gives slot : gives (send_buffer slot : ST (SE K) (option message)) result_ok.
Proof.
  assert (Hlist : forall high, gives (send_list high : ST (SE K) (option message)) result_ok) by (intros high; unfold send_list, send_list_tcp, send_list_udp; by gives_walk).
  assert (Hall : gives (all_sent slot : ST (SE K) (option message)) result_ok) by (unfold all_sent; by gives_walk).
  unfold send_buffer, send_buffer_. by gives_walk.
Qed.
#[local] Hint Resolve send_buffer_gives : gives.

Lemma send_socket_gives slot id buffer sz high addr : gives (send_socket slot id buffer sz high addr : ST (SE K) (option message)) result_ok.
Proof.
  assert (Hw : gives (send_warning : ST (SE K) (option message)) result_ok) by (unfold send_warning; by gives_walk).
  unfold send_socket. by gives_walk.
Qed.

Lemma forward_tcp_gives : gives (forward_message_tcp : ST (SE K) (option message)) result_ok.
Proof. unfold forward_message_tcp. gives_walk; try done. cbn. by rewrite Z.eqb_refl. Qed.

Lemma forward_udp_gives : gives (forward_message_udp : ST (SE K) (option message)) result_ok.
Proof.
  unfold forward_message_udp. apply gives_then. intros s.
  apply (gives_bind _ _ (fun r => match r with inr (l, sa) => zlen l <= MAX_UDP_PACKAGE /\
    match sa with V4 port addr => zlen port = 2 /\ zlen addr = 4 | V6 port addr => zlen port = 2 /\ zlen addr = 16 end | _ => True end)).
  { apply gives_zoom. intros e r e'. unfold syscall. destruct (sys_recvfrom (s_fd s) MAX_UDP_PACKAGE (e_k e)) as [r' k] eqn:E.
    intros [= <- _]. destruct r' as [|[l sa]]; [done|]. eapply recvfrom_range. by rewrite E. }
  intros [e|[l sa]] Hl; [by gives_walk|]. cbn [fst snd]. apply gives_then. intros _. pose proof (zlen_nonneg l).
  assert (Hok : forall p r id opaque, (p = PROTOCOL_UDP /\ zlen r = 6) \/ (p = PROTOCOL_UDPv6 /\ zlen r = 18) ->
    report_ok (Message SOCKET_UDP id opaque (zlen l) (DBlock (l ++ p :: r))) = true).
  { intros p r id opaque Hp. unfold report_ok. cbn [m_type m_data m_ud]. change (SOCKET_UDP =? SOCKET_DATA) with false.
    change (SOCKET_UDP =? SOCKET_UDP) with true. cbn [andb orb]. unfold address_ok.
    replace (Z.to_nat (zlen l)) with (length l) by (unfold zlen; lia). rewrite drop_app_length.
    destruct Hl as [Hl _]. rewrite (proj2 (Z.leb_le 0 _)), (proj2 (Z.leb_le (zlen l) _)) by lia. by destruct Hp as [[-> ->]|[-> ->]]. }
  destruct Hl as [Hl Hsa]. destruct sa as [port addr|port addr]; (destruct (negb _); [by apply gives_ret|]); apply gives_ret, Hok.
  - left. rewrite zlen_app. split; [done|lia].
  - right. rewrite zlen_app. split; [done|lia].
Qed.

Lemma report_connect_gives slot : gives (report_connect slot : ST (SE K) message) (fun m => report_ok m = true).
Proof. unfold report_connect. gives_walk; apply name_data_ok. Qed.

(** ** The socket thread *)

Context (junk : Z -> socket).

Lemma on_gives {A} i (m : ST (SE K) A) P : gives m P -> gives (on junk i m) P.
Proof. apply gives_zoom. Qed.
#[local] Hint Resolve on_gives send_socket_gives forward_tcp_gives forward_udp_gives report_connect_gives : gives.

Lemma close_socket_gives id shutdown opaque : gives (close_socket junk id shutdown opaque) result_ok.
Proof.
  unfold close_socket. gives_walk; try done. apply on_gives, gives_then. intros done0.
  apply (gives_bind _ _ result_ok); [destruct done0; by gives_walk|]. intros r Hr.
  destruct (match r with Some m => _ | None => _ end); [by apply gives_ret|]. apply gives_then. intros done1.
  destruct (shutdown || done1); [|by gives_walk].
  apply (gives_bind _ _ (fun m => m_data m = DNull)); [|intros m Hm; apply gives_ret; cbn; by rewrite Hm].
  apply (gives_bind _ _ (fun m => m_data m = DNull)); [by apply gives_gets|]. intros m Hm. by gives_walk.
Qed.

Lemma open_socket_gives id port opaque host : gives (open_socket junk id port opaque host) result_ok.
Proof. unfold open_socket. gives_walk; try done. apply name_data_ok. Qed.

Lemma ctrl_cmd_gives r : gives (ctrl_cmd junk r) result_ok.
Proof.
  destruct r; cbn [ctrl_cmd]; unfold start_socket, bind_socket, listen_socket, set_udp_address;
    first [apply close_socket_gives|apply open_socket_gives|gives_walk; try done].
Qed.

Lemma handle_event_gives e : gives (handle_event junk e) polled_ok.
Proof.
  assert (Hof : forall r, result_ok r -> polled_ok (of_result r)) by (by intros []).
  assert (Hacc : forall i, gives (report_accept junk i) (fun a => match a with ANone => True | AFileLimit m | AConn m => report_ok m = true end)).
  { intros i. unfold report_accept. gives_walk; try done. cbn. by destruct (getname _). }
  assert (Hread : forall i (b : bool), gives (on (K := K) junk i (if b then forward_message_tcp else forward_message_udp)) result_ok).
  { intros i []; auto with gives. }
  assert (Herr : forall i (code : errno + Z), gives (on (K := K) junk i (force_close SOCKET_ERR
    match code with inl e => DError e | inr error => if negb (error =? 0) then DError (EERR error) else DText "Unknown error" end))
    (fun m => report_ok m = true)).
  { intros i code. apply on_gives, force_close_gives. intros. destruct code as [e0|n]; [done|]. by destruct (negb (n =? 0)). }
  unfold handle_event, read_event, error_event. gives_walk; try done; by apply Hof.
Qed.

Lemma poll_step_gives : gives (poll_step junk) (fun p => polled_ok p.1).
Proof.
  assert (Hev : gives (next_event junk) polled_ok) by (pose proof handle_event_gives; unfold next_event; by gives_walk).
  pose proof ctrl_cmd_gives as Hctrl. unfold poll_step. gives_walk; cbn [fst]; try done.
  all: first [by match goal with a : option message |- _ => destruct a end|by case_bool_decide].
Qed.

(** What [socket_server_poll] returns is well-formed, whatever the state it starts in. *)
Lemma poll_gives fuel : forall more, gives (socket_server_poll junk fuel more) (fun r => result_ok r.1).
Proof.
  induction fuel as [|fuel IH]; intros more; [done|]. cbn [socket_server_poll].
  eapply gives_bind; [apply poll_step_gives|]. intros [p waited] Hp. cbn [fst] in Hp. destruct p; [apply IH|by apply gives_ret..].
Qed.
End reports.
