(* ===== verification/SkynetSocket.v ===== *)
(** skynet_socket.c: what the socket server reports becomes a message to the service that owns
    the socket; and what the service reads from it (lunpack of lua-socket.c). *)

From S2P Require Import Prelude Bytes State Types CString MessageQueue Socket SocketServer SocketReports SocketStream SocketSystem.
From S2P Require Import SkynetModule Handle Node Server NodeInv NodeOps Sending System.
Local Open Scope Z_scope.
Local Open Scope node_scope.

(** ** The messages *)

Definition SKYNET_SOCKET_TYPE_DATA : Z := 1.
Definition SKYNET_SOCKET_TYPE_CONNECT : Z := 2.
Definition SKYNET_SOCKET_TYPE_CLOSE : Z := 3.
Definition SKYNET_SOCKET_TYPE_ACCEPT : Z := 4.
Definition SKYNET_SOCKET_TYPE_ERROR : Z := 5.
Definition SKYNET_SOCKET_TYPE_UDP : Z := 6.
Definition SKYNET_SOCKET_TYPE_WARNING : Z := 7.

(** [sizeof(struct skynet_socket_message)]: three ints, four bytes nobody writes, a pointer. *)
Definition SIZEOF_SOCKET_MESSAGE : Z := 24.

Definition known (l : list Z) : list (option Z) := Some <$> l.

Definition skynet_socket_message (type id ud buffer : Z) : list (option Z) :=
  known (le_bytes 4 type) ++ known (le_bytes 4 id) ++ known (le_bytes 4 ud) ++ replicate 4 None ++ known (le_bytes 8 buffer).

Section socket.
Context `{Services} (strerror : errno -> string) (gai_strerror : Z -> string).

Definition text_bytes (t : string) : list Z := byte_of <$> String.list_ascii_of_string t.

(** The bytes up to the terminator; a block need not have one. *)
Fixpoint strlen_bytes (l : list Z) : option (list Z) :=
  match l with [] => None | b :: l => if b =? 0 then Some [] else (b ::.) <$> strlen_bytes l end.

(** The string at [result->data]. *)
Definition data_string (d : mdata) : option (list Z) :=
  match d with
  | DNull => Some []
  | DText t => Some (text_bytes t)
  | DError e => Some (text_bytes (strerror e))
  | DGai st => Some (text_bytes (gai_strerror st))
  | DBlock l => strlen_bytes l
  end.

(** [result->data] as a pointer.  A block of the socket server is a block of the process; it gets its address here.  A text is
    static and has no block. *)
Definition data_pointer (d : mdata) : M Z :=
  match d with DNull => ret 0 | DBlock l => malloc (Data (known l)) | _ => fail end.

Definition forward_message (type : Z) (padding : bool) (result : message) : M unit :=
  data <- (if padding then ret 0 else data_pointer (m_data result)) ;;
  msg <- (if padding then lift (data_string (m_data result)) else ret []) ;;
  let msg := take 128 msg in
  let sz := SIZEOF_SOCKET_MESSAGE + zlen msg in
  sm <- malloc (Data (skynet_socket_message type (m_id result) (m_ud result) data ++ known msg)) ;;
  let message := Msg 0 0 sm (tag_sz sz PTYPE_SOCKET) in
  r <- skynet_context_push (u32 (m_opaque result)) message ;;
  if negb (r =? 0) then skynet_free data ;;; skynet_free sm else ret tt.

(** The type and the padding with which a message of the socket server is forwarded. *)
Definition forwarding (type : Z) : option (Z * bool) :=
  if type =? SOCKET_DATA then Some (SKYNET_SOCKET_TYPE_DATA, false)
  else if type =? SOCKET_CLOSE then Some (SKYNET_SOCKET_TYPE_CLOSE, false)
  else if type =? SOCKET_OPEN then Some (SKYNET_SOCKET_TYPE_CONNECT, true)
  else if type =? SOCKET_ERR then Some (SKYNET_SOCKET_TYPE_ERROR, true)
  else if type =? SOCKET_ACCEPT then Some (SKYNET_SOCKET_TYPE_ACCEPT, true)
  else if type =? SOCKET_UDP then Some (SKYNET_SOCKET_TYPE_UDP, false)
  else if type =? SOCKET_WARNING then Some (SKYNET_SOCKET_TYPE_WARNING, false)
  else None.

(** [skynet_socket_poll], given what [socket_server_poll] returns (no message: -1) and [more]. *)
Definition skynet_socket_poll (polled : option message * bool) : M Z :=
  match polled.1 with
  | None => skynet_error 0 "Unknown socket message type -1." ;;; ret (-1)
  | Some result =>
    if m_type result =? SOCKET_EXIT then ret 0
    else
      match forwarding (m_type result) with
      | Some (type, padding) => forward_message type padding result ;;; ret (if polled.2 then -1 else 1)
      | None => skynet_error 0 ("Unknown socket message type " ++ fmt_d (m_type result) ++ ".") ;;; ret (-1)
      end
  end.
End socket.

(** ** The receiver *)

(** What [lunpack] of lua-socket.c returns to Lua. *)
Inductive lua_value := LInteger (n : Z) | LString (l : list Z) | LLightUserdata (p : Z).

(** [n] bytes of a block; they have to be written. *)
Definition bytes_at (l : list (option Z)) (off n : Z) : option (list Z) :=
  if (0 <=? off) && (0 <=? n) && (off + n <=? zlen l) then mapM id (take (Z.to_nat n) (drop (Z.to_nat off) l)) else None.
Definition int_at (l : list (option Z)) (off : Z) : option Z := b ← bytes_at l off 4; Some (i32 (le_value b)).
Definition pointer_at (l : list (option Z)) (off : Z) : option Z := b ← bytes_at l off 8; Some (le_value b).
Definition block_at (p : Z) : M (list (option Z)) :=
  reads (fun s => match n_mem s !! p with Some (Data l) => Some l | _ => None end).

(** [msg->buffer + msg->ud] is where the address of a UDP package is; of the sizes 7 and 19, or unknown. *)
Definition skynet_socket_udp_address (type ud buffer : Z) : M (option (list Z)) :=
  if negb (type =? SKYNET_SOCKET_TYPE_UDP) then ret None
  else
    l <- block_at buffer ;;
    p <- lift (bytes_at l ud 1) ;;
    if bool_decide (p = [PROTOCOL_UDP]) then a <- lift (bytes_at l ud (1 + 2 + 4)) ;; ret (Some a)
    else if bool_decide (p = [PROTOCOL_UDPv6]) then a <- lift (bytes_at l ud (1 + 2 + 16)) ;; ret (Some a)
    else ret None.

Definition lunpack (message size : Z) : M (list lua_value) :=
  l <- block_at message ;;
  type <- lift (int_at l 0) ;;
  id <- lift (int_at l 4) ;;
  ud <- lift (int_at l 8) ;;
  buffer <- lift (pointer_at l 16) ;;
  data <- (if buffer =? 0 then text <- lift (bytes_at l SIZEOF_SOCKET_MESSAGE (size - SIZEOF_SOCKET_MESSAGE)) ;; ret (LString text)
           else ret (LLightUserdata buffer)) ;;
  if type =? SKYNET_SOCKET_TYPE_UDP then
    addrstring <- skynet_socket_udp_address type ud buffer ;;
    match addrstring with
    | Some a => ret [LInteger type; LInteger id; LInteger ud; data; LString a]
    | None => ret [LInteger type; LInteger id; LInteger ud; data]
    end
  else ret [LInteger type; LInteger id; LInteger ud; data].

(** *** It reads what was written *)

Lemma bytes_at_known l a m b off n : l = a ++ known m ++ b -> zlen a = off -> zlen m = n -> bytes_at l off n = Some m.
Proof.
  intros -> <- <-. unfold bytes_at, known. pose proof (zlen_nonneg a). pose proof (zlen_nonneg m). pose proof (zlen_nonneg b).
  rewrite !zlen_app, zlen_fmap. rewrite !(proj2 (Z.leb_le _ _)) by lia. cbn [andb]. unfold zlen.
  rewrite !Nat2Z.id, drop_app_length, take_app_length' by (by rewrite length_fmap).
  apply mapM_Some. apply Forall2_fmap_l. by apply Forall_Forall2_diag, Forall_true.
Qed.

Lemma le_int n : i32 (le_value (le_bytes 4 n)) = i32 n.
Proof. rewrite le_value_bytes. by apply (sgn_wrap 32). Qed.

Lemma bind_lift {A B} (o : option A) (k : A -> M B) s a : o = Some a -> bind (lift o) k s = k a s.
Proof. by intros ->. Qed.

(** The header, and what is behind it. *)
Lemma lunpack_reads s p type id ud d text size data addr :
  n_mem s !! p = Some (Data (skynet_socket_message type id ud d ++ known text)) ->
  i32 type = type -> 0 <= d < 2 ^ 64 -> size = SIZEOF_SOCKET_MESSAGE + zlen text ->
  data = (if d =? 0 then LString text else LLightUserdata d) ->
  skynet_socket_udp_address type (i32 ud) d s = Some (addr, s) ->
  lunpack p size s = Some ([LInteger type; LInteger (i32 id); LInteger (i32 ud); data] ++
    match addr with Some a => [LString a] | None => [] end, s).
Proof.
  intros Hp Ht Hd -> -> Ha. set (l := skynet_socket_message type id ud d ++ known text) in *.
  assert (Hl : l = known (le_bytes 4 type) ++ known (le_bytes 4 id) ++ known (le_bytes 4 ud) ++ replicate 4 None ++
    known (le_bytes 8 d) ++ known text) by (unfold l, skynet_socket_message; by rewrite <- !app_assoc).
  assert (H0 : int_at l 0 = Some type).
  { unfold int_at. rewrite (bytes_at_known l [] (le_bytes 4 type) _ 0 4 Hl); [|done|apply zlen_le_bytes].
    by rewrite some_bind, le_int, Ht. }
  assert (H4 : int_at l 4 = Some (i32 id)).
  { unfold int_at. rewrite (bytes_at_known l _ (le_bytes 4 id) _ 4 4 Hl); [|done|apply zlen_le_bytes]. by rewrite some_bind, le_int. }
  rewrite (app_assoc (known _) (known _)) in Hl. assert (H8 : int_at l 8 = Some (i32 ud)).
  { unfold int_at. rewrite (bytes_at_known l _ (le_bytes 4 ud) _ 8 4 Hl); [|done|apply zlen_le_bytes]. by rewrite some_bind, le_int. }
  rewrite (app_assoc (known _ ++ _)), (app_assoc (_ ++ known _)) in Hl. assert (H16 : pointer_at l 16 = Some d).
  { unfold pointer_at. rewrite (bytes_at_known l _ (le_bytes 8 d) _ 16 8 Hl); [|done|apply zlen_le_bytes]. 
    by rewrite some_bind, le_value_bytes, Z.mod_small. }
  assert (Ht24 : bytes_at l SIZEOF_SOCKET_MESSAGE (SIZEOF_SOCKET_MESSAGE + zlen text - SIZEOF_SOCKET_MESSAGE) = Some text).
  { apply (bytes_at_known l (skynet_socket_message type id ud d) text []); [by rewrite app_nil_r|done|lia]. }
  unfold lunpack. rewrite (bind_run (block_at p) _ s l s) by (unfold block_at, reads; by rewrite Hp).
  rewrite (bind_lift _ _ _ _ H0), (bind_lift _ _ _ _ H4), (bind_lift _ _ _ _ H8), (bind_lift _ _ _ _ H16).
  assert (Hb : (if d =? 0 then text0 <- lift (bytes_at l SIZEOF_SOCKET_MESSAGE
      (SIZEOF_SOCKET_MESSAGE + zlen text - SIZEOF_SOCKET_MESSAGE)) ;; ret (LString text0) else ret (LLightUserdata d)) s =
      Some (if d =? 0 then LString text else LLightUserdata d, s))
    by (destruct (d =? 0); [by rewrite (bind_lift _ _ _ _ Ht24)|done]).
  mrun Hb. destruct (type =? SKYNET_SOCKET_TYPE_UDP) eqn:Eu.
  - mrun Ha. by destruct addr.
  - unfold skynet_socket_udp_address in Ha. rewrite Eu in Ha. injection Ha as <-. done.
Qed.

(** ** Delivery *)

Section delivery.
Context `{LawfulServices} (strerror : errno -> string) (gai_strerror : Z -> string).

(** The block of the message is made and pushed, to the mailbox of the service or to nowhere. *)
Lemma forward_pushes s R gq qs held work crea bufs resv h d cells sz : inv s R gq qs held work crea (owned d ++ bufs) resv ->
  exists s', (sm <- malloc (Data cells) ;;
    r <- skynet_context_push h (Msg 0 0 sm (tag_sz sz PTYPE_SOCKET)) ;;
    if negb (r =? 0) then skynet_free d ;;; skynet_free sm else ret tt) s = Some (tt, s') /\
  match reg_ctx R !! h with
  | Some c => exists x a, n_ctx s !! c = Some x /\ qs !! cx_queue x = Some a /\ a_handle a = h /\
      n_mem s' = <[n_brk s := Data cells]> (n_mem s) /\
      inv s' R (pushed_gq gq (cx_queue x) a) (pushed qs (cx_queue x) a (Msg 0 0 (n_brk s) (tag_sz sz PTYPE_SOCKET))) held work crea (owned d ++ bufs) resv
  | None => inv s' R gq qs held work crea bufs resv /\ n_mem s' = delete d (n_mem s)
  end.
Proof.
  intros Hi. destruct (inv_malloc _ _ _ _ _ _ _ _ _ (Data cells) Hi) as (s1 & Hrun & Hfr & Hne & Hs1 & Hi1). mrun Hrun.
  set (m := Msg 0 0 (n_brk s) (tag_sz sz PTYPE_SOCKET)).
  assert (E : n_brk s :: owned d ++ bufs = owned (msg_data m) ++ owned d ++ bufs).
  { unfold owned at 2. cbn [msg_data m]. by rewrite (proj2 (Z.eqb_neq _ _) Hne). }
  rewrite E in Hi1. pose proof (inv_context_push _ _ _ _ _ _ _ _ _ h m Hi1) as Hpush. destruct (reg_ctx R !! h) as [c|].
  - destruct Hpush as (x & a & w' & Hx & Ha & Hh & _ & Hpush & Hi2). mrun Hpush. eexists. split; [done|].
    exists x, a. split_and!; [by rewrite Hs1 in Hx|done|done|by rewrite Hs1|done].
  - mrun Hpush. change (negb (-1 =? 0)) with true. cbn iota.
    assert (Hi2 : inv s1 R gq qs held work crea (owned d ++ owned (n_brk s) ++ bufs) resv).
    { eapply inv_perm; [reflexivity| |exact Hi1]. cbn [msg_data m]. apply Permutation_app_swap_app. }
    destruct (inv_free _ _ _ _ _ _ _ _ _ _ Hi2) as (s2 & Hf2 & Hs2 & Hi3). mrun Hf2.
    destruct (inv_free _ _ _ _ _ _ _ _ _ _ Hi3) as (s3 & Hf3 & Hs3 & Hi4). exists s3. split; [done|]. split; [done|].
    rewrite Hs3, Hs2, Hs1. cbn [n_mem set_mem set_brk]. by rewrite delete_delete, delete_insert_id.
Qed.

Lemma null_free s R gq qs held work crea bufs resv : inv s R gq qs held work crea bufs resv -> n_mem s !! 0 = None.
Proof.
  intros []. destruct (n_mem s !! 0) eqn:E; [|done]. assert (0 < 0 < n_brk s) by (apply iv_membrk; eauto). lia.
Qed.

(** The types under which a service hears of the reports. *)
Definition heard_as : list (Z * Z) :=
  [(SOCKET_DATA, 1); (SOCKET_OPEN, 2); (SOCKET_CLOSE, 3); (SOCKET_ACCEPT, 4); (SOCKET_ERR, 5); (SOCKET_UDP, 6); (SOCKET_WARNING, 7)].

(** The text of a report. *)
Definition described (d : mdata) : string :=
  match d with DText t => t | DError e => strerror e | DGai status => gai_strerror status | DNull | DBlock _ => "" end.

(** What Lua gets of report [m]: its type, socket and number, and its text of at most 128 bytes, or the pointer [d] to its data, followed by the address
    of a UDP package, which is the rest of the data. *)
Definition reads_as (m : message) (d : Z) (s' : node) (vs : list lua_value) : Prop :=
  exists type, (m_type m, type) ∈ heard_as /\
  match m_data m with
  | DBlock l => d <> 0 /\ n_mem s' !! d = Some (Data (known l)) /\
      vs = [LInteger type; LInteger (i32 (m_id m)); LInteger (i32 (m_ud m)); LLightUserdata d] ++
        (if m_type m =? SOCKET_UDP then [LString (drop (Z.to_nat (m_ud m)) l)] else [])
  | _ => d = 0 /\ vs = [LInteger type; LInteger (i32 (m_id m)); LInteger (i32 (m_ud m));
      LString (take 128 (byte_of <$> String.list_ascii_of_string (described (m_data m))))]
  end.

(** What becomes of report [m]: the mailbox of the service that owns the socket has one more message, the last one, and no other mailbox changes; the
    message comes from nobody, with the type of socket messages, and [lunpack] reads the report from it; the block with the data, if there is one,
    is the receiver's.  When the service is gone, everything is as before. *)
Definition delivered (m : message) s R gq qs held work crea bufs resv s' : Prop :=
  match reg_ctx R !! u32 (m_opaque m) with
  | Some c => exists x a msg d vs gq' qs', n_ctx s !! c = Some x /\ qs !! cx_queue x = Some a /\ a_handle a = u32 (m_opaque m) /\
      (exists a', qs' !! cx_queue x = Some a' /\ a_msgs a' = a_msgs a ++ [msg]) /\ (forall p, p <> cx_queue x -> qs' !! p = qs !! p) /\
      msg_source msg = 0 /\ msg_session msg = 0 /\ msg_sz msg / 2 ^ 56 = PTYPE_SOCKET /\
      lunpack (msg_data msg) (msg_sz msg mod 2 ^ 56) s' = Some (vs, s') /\ reads_as m d s' vs /\
      inv s' R gq' qs' held work crea (owned d ++ bufs) resv
  | None => inv s' R gq qs held work crea bufs resv /\ n_mem s' = n_mem s
  end.

Lemma report_forwarded m : report_ok m = true -> m_type m <> SOCKET_EXIT ->
  exists type padding, forwarding (m_type m) = Some (type, padding) /\ (m_type m, type) ∈ heard_as /\
    (type =? SKYNET_SOCKET_TYPE_UDP) = (m_type m =? SOCKET_UDP) /\
    (if padding : bool then data_string strerror gai_strerror (m_data m) = Some (byte_of <$> String.list_ascii_of_string (described (m_data m))) /\
        (forall b, m_data m <> DBlock b) /\ m_type m <> SOCKET_UDP
     else (m_data m = DNull /\ m_type m <> SOCKET_UDP) \/ exists l, m_data m = DBlock l /\ (m_type m = SOCKET_UDP -> address_ok (m_ud m) l = true)).
Proof.
  destruct m as [t id opaque ud d]. unfold report_ok. cbn [m_type m_data m_ud]. intros Hok Hne.
  assert (Ht : t ∈ [0; 1; 2; 3; 4; 6; 7]).
  { unfold SOCKET_EXIT, SOCKET_WARNING, SOCKET_DATA, SOCKET_UDP, SOCKET_OPEN, SOCKET_ERR, SOCKET_ACCEPT in *. assert (t = 0 \/ t = 1 \/ t = 2 \/ t = 3 \/ t = 4 \/ t = 6 \/ t = 7); [|set_solver].
    destruct d; rewrite ?orb_true_iff, ?andb_true_iff, ?Z.eqb_eq, ?Z.leb_le in Hok; lia. }
  repeat (apply elem_of_cons in Ht as [->|Ht]; [eexists _, _; (split; [reflexivity|]); (split; [by_eval|]); (split; [done|]); destruct d; try done; eauto|]).
  - right. exists l. split; [done|]. discriminate.
  - by apply elem_of_nil in Ht.
Qed.

(** The address behind a package. *)
Lemma udp_address_read ud l d s' : n_mem s' !! d = Some (Data (known l)) -> address_ok ud l = true ->
  skynet_socket_udp_address SKYNET_SOCKET_TYPE_UDP (i32 ud) d s' = Some (Some (drop (Z.to_nat ud) l), s').
Proof.
  intros Hd Hok. unfold address_ok in Hok. apply andb_prop in Hok as [[Hud0 Hud1]%andb_prop Hok]. apply Z.leb_le in Hud0, Hud1.
  unfold MAX_UDP_PACKAGE in Hud1. assert (i32 ud = ud) as -> by (apply sgn_small; lia).
  unfold skynet_socket_udp_address. rewrite Z.eqb_refl. change (negb true) with false. cbn iota.
  rewrite (bind_run (block_at d) _ s' (known l) s') by (unfold block_at, reads; by rewrite Hd).
  destruct (drop (Z.to_nat ud) l) as [|p r] eqn:Hdrop; [done|].
  assert (El : l = take (Z.to_nat ud) l ++ p :: r) by (by rewrite <- Hdrop, take_drop).
  assert (Htk : zlen (take (Z.to_nat ud) l) = ud).
  { apply zlen_take. pose proof (f_equal length Hdrop) as E. rewrite length_drop in E. unfold zlen. simpl in E. lia. }
  set (a := take (Z.to_nat ud) l) in *.
  assert (Hp : bytes_at (known l) ud 1 = Some [p]).
  { apply (bytes_at_known _ (known a) [p] (known r)); [|unfold known; by rewrite zlen_fmap|done].
    rewrite El. unfold known. by rewrite fmap_app. }
  assert (Hall : bytes_at (known l) ud (1 + zlen r) = Some (p :: r)).
  { apply (bytes_at_known _ (known a) (p :: r) []); [|unfold known; by rewrite zlen_fmap|by rewrite zlen_cons].
    rewrite El. unfold known. by rewrite fmap_app, app_nil_r. }
  rewrite (bind_lift _ _ _ _ Hp).
  apply orb_prop in Hok as [[->%Z.eqb_eq Hr%Z.eqb_eq]%andb_prop|[->%Z.eqb_eq Hr%Z.eqb_eq]%andb_prop]; rewrite Hr in Hall;
    [rewrite bool_decide_true by done|rewrite bool_decide_false, bool_decide_true by done]; by rewrite (bind_lift _ _ _ _ Hall).
Qed.

Lemma heard_small t type : (t, type) ∈ heard_as -> i32 type = type.
Proof. unfold heard_as. rewrite !elem_of_cons, elem_of_nil. intros [[= _ ->]|[[= _ ->]|[[= _ ->]|[[= _ ->]|[[= _ ->]|[[= _ ->]|[[= _ ->]|[]]]]]]]]; done. Qed.

Lemma delivered_intro m s R gq qs held work crea bufs resv s' c x a p d type addr text :
  reg_ctx R !! u32 (m_opaque m) = Some c -> n_ctx s !! c = Some x -> qs !! cx_queue x = Some a -> a_handle a = u32 (m_opaque m) ->
  (m_type m, type) ∈ heard_as ->
  n_mem s' !! p = Some (Data (skynet_socket_message type (m_id m) (m_ud m) d ++ known text)) -> 0 <= d < 2 ^ 64 ->
  zlen text <= 128 -> skynet_socket_udp_address type (i32 (m_ud m)) d s' = Some (addr, s') ->
  match m_data m with
  | DBlock l => d <> 0 /\ n_mem s' !! d = Some (Data (known l)) /\ text = [] /\
      addr = (if m_type m =? SOCKET_UDP then Some (drop (Z.to_nat (m_ud m)) l) else None)
  | data => d = 0 /\ addr = None /\ text = take 128 (byte_of <$> String.list_ascii_of_string (described data))
  end ->
  inv s' R (pushed_gq gq (cx_queue x) a) (pushed qs (cx_queue x) a (Msg 0 0 p (tag_sz (SIZEOF_SOCKET_MESSAGE + zlen text) PTYPE_SOCKET)))
    held work crea (owned d ++ bufs) resv ->
  delivered m s R gq qs held work crea bufs resv s'.
Proof.
  intros Hc Hx Ha Hh Ht Hp Hd Htx Haddr Hdata Hi. unfold delivered. rewrite Hc. pose proof (zlen_nonneg text).
  destruct (tag_sz_spec (SIZEOF_SOCKET_MESSAGE + zlen text) PTYPE_SOCKET) as (_ & Hty & Hsz);
    [unfold is_u, SIZEOF_SOCKET_MESSAGE; lia|unfold is_u, PTYPE_SOCKET; lia|].
  unfold MESSAGE_TYPE_SHIFT in Hty. rewrite Z.shiftr_div_pow2 in Hty by lia.
  unfold MESSAGE_TYPE_MASK in Hsz. rewrite wrap_land in Hsz by lia.
  set (msg := Msg 0 0 p (tag_sz (SIZEOF_SOCKET_MESSAGE + zlen text) PTYPE_SOCKET)) in *.
  eexists x, a, msg, d, _, (pushed_gq gq (cx_queue x) a), (pushed qs (cx_queue x) a msg). do 3 (split; [done|]). split; [eexists; split; [apply lookup_insert_eq|reflexivity]|].
  split; [intros q Hq; by apply lookup_insert_ne|]. cbn [msg_source msg_session msg_sz msg_data]. do 2 (split; [done|]).
  split; [exact Hty|]. split; [|split; [|exact Hi]].
  - eapply lunpack_reads; [exact Hp|by eapply heard_small|done|exact Hsz|reflexivity|exact Haddr].
  - exists type. split; [done|].
    destruct (m_data m); try (destruct Hdata as (-> & -> & ->); done). destruct Hdata as (Hne & Hm & -> & ->).
    rewrite (proj2 (Z.eqb_neq d 0)) by done. split; [done|]. split; [done|]. by destruct (m_type m =? SOCKET_UDP).
Qed.

(** [forward_message], without a block to hand over and with one. *)
Lemma forward_delivered m s R gq qs held work crea bufs resv type (padding : bool) :
  inv s R gq qs held work crea bufs resv -> n_brk s < 2 ^ 64 - 1 -> (m_type m, type) ∈ heard_as ->
  (type =? SKYNET_SOCKET_TYPE_UDP) = (m_type m =? SOCKET_UDP) ->
  (if padding then data_string strerror gai_strerror (m_data m) = Some (byte_of <$> String.list_ascii_of_string (described (m_data m))) /\
      (forall b, m_data m <> DBlock b) /\ m_type m <> SOCKET_UDP
   else (m_data m = DNull /\ m_type m <> SOCKET_UDP) \/ exists l, m_data m = DBlock l /\ (m_type m = SOCKET_UDP -> address_ok (m_ud m) l = true)) ->
  exists s', forward_message strerror gai_strerror type padding m s = Some (tt, s') /\ delivered m s R gq qs held work crea bufs resv s'.
Proof.
  intros Hi Hbrk Hh Hu Hdata. pose proof (iv_brk _ _ _ _ _ _ _ _ _ Hi) as Hpos.
  assert (Hud : forall s', m_type m <> SOCKET_UDP -> skynet_socket_udp_address type (i32 (m_ud m)) 0 s' = Some (None, s')).
  { intros s' Ht. unfold skynet_socket_udp_address. by rewrite Hu, (proj2 (Z.eqb_neq _ _) Ht). }
  assert (Hnull : forall text, m_type m <> SOCKET_UDP -> (forall b, m_data m <> DBlock b) ->
    text = take 128 (byte_of <$> String.list_ascii_of_string (described (m_data m))) ->
    exists s', (sm <- malloc (Data (skynet_socket_message type (m_id m) (m_ud m) 0 ++ known text)) ;;
      r <- skynet_context_push (u32 (m_opaque m)) (Msg 0 0 sm (tag_sz (SIZEOF_SOCKET_MESSAGE + zlen text) PTYPE_SOCKET)) ;;
      if negb (r =? 0) then skynet_free 0 ;;; skynet_free sm else ret tt) s = Some (tt, s') /\
      delivered m s R gq qs held work crea bufs resv s').
  { intros text Ht Hnb Etext.
    destruct (forward_pushes s R gq qs held work crea bufs resv (u32 (m_opaque m)) 0
      (skynet_socket_message type (m_id m) (m_ud m) 0 ++ known text) (SIZEOF_SOCKET_MESSAGE + zlen text) Hi) as (s' & Hrun & Hcase).
    exists s'. split; [exact Hrun|]. destruct (reg_ctx R !! u32 (m_opaque m)) as [c|] eqn:Hc.
    + destruct Hcase as (x & a & Hx & Ha & Hha & Hm & Hi').
      eapply (delivered_intro m s R gq qs held work crea bufs resv s' c x a (n_brk s) 0 type None text); try done;
        [by rewrite Hm, lookup_insert_eq|rewrite Etext; unfold zlen; rewrite length_take; lia|by apply Hud|].
      destruct (m_data m); try done. by destruct (Hnb l).
    + destruct Hcase as [Hi' Hm]. unfold delivered. rewrite Hc. split; [done|]. rewrite Hm. by eapply delete_id, null_free. }
  unfold forward_message. destruct padding.
  - destruct Hdata as (Hs & Hnb & Ht). rewrite Hs, bind_ret. unfold lift. by apply Hnull.
  - destruct Hdata as [[E Ht]|(l & E & Haddr)]; rewrite E; cbn [data_pointer]; [rewrite !bind_ret; apply Hnull; [done|by rewrite E|by rewrite E]|].
    destruct (inv_malloc _ _ _ _ _ _ _ _ _ (Data (known l)) Hi) as (s1 & Hrun1 & Hfr & Hne & Hs1 & Hi1).
    rewrite (bind_run _ _ _ _ _ Hrun1), bind_ret.
    assert (Eo : n_brk s :: bufs = owned (n_brk s) ++ bufs) by (unfold owned; by rewrite (proj2 (Z.eqb_neq _ _) Hne)). rewrite Eo in Hi1.
    destruct (forward_pushes s1 R gq qs held work crea bufs resv (u32 (m_opaque m)) (n_brk s)
      (skynet_socket_message type (m_id m) (m_ud m) (n_brk s) ++ known []) SIZEOF_SOCKET_MESSAGE Hi1) as (s' & Hrun & Hcase).
    exists s'. split; [exact Hrun|]. destruct (reg_ctx R !! u32 (m_opaque m)) as [c|] eqn:Hc.
    + destruct Hcase as (x & a & Hx & Ha & Hha & Hm & Hi'). rewrite Hs1 in Hx, Hm. cbn in Hx, Hm.
      assert (Hd : n_mem s' !! n_brk s = Some (Data (known l))) by (by rewrite Hm, lookup_insert_ne, lookup_insert_eq by lia).
      eapply (delivered_intro m s R gq qs held work crea bufs resv s' c x a (n_brk s + 1) (n_brk s) type
        (if m_type m =? SOCKET_UDP then Some (drop (Z.to_nat (m_ud m)) l) else None) []); try done.
      * by rewrite Hm, lookup_insert_eq.
      * lia.
      * destruct (Z.eqb_spec (m_type m) SOCKET_UDP) as [Ht|Ht].
        -- apply Z.eqb_eq in Hu. rewrite Hu. exact (udp_address_read _ _ _ _ Hd (Haddr Ht)).
        -- unfold skynet_socket_udp_address. rewrite Hu. reflexivity.
      * by rewrite E.
      * by rewrite Hs1 in Hi'.
    + destruct Hcase as [Hi' Hm]. unfold delivered. rewrite Hc. split; [done|]. rewrite Hm, Hs1. cbn. by rewrite delete_insert_id.
Qed.

(** [C20] What the socket server reports reaches the service that owns the socket, as one message at the end of its mailbox from which
    [lunpack] of lua-socket.c reads the type of the report, the socket, the number, and its text, or its data with the address of a UDP package;
    the block of the data is the receiver's.  When the service is gone, the report is dropped without a trace; at SOCKET_EXIT nothing is
    sent and the socket thread ends. *)
Theorem reports_delivered {K} `{SocketBuffer.LawfulKernel K} (junk : Z -> socket) fuel ss m more ss' s R gq qs held work crea bufs resv :
  socket_server_poll junk fuel true ss = Some ((Some m, more), ss') ->
  inv s R gq qs held work crea bufs resv -> n_brk s < 2 ^ 64 - 1 ->
  (m_type m = SOCKET_EXIT -> skynet_socket_poll strerror gai_strerror (Some m, more) s = Some (0, s)) /\
  (m_type m <> SOCKET_EXIT -> exists s', skynet_socket_poll strerror gai_strerror (Some m, more) s = Some (if more then -1 else 1, s') /\
    delivered m s R gq qs held work crea bufs resv s').
Proof.
  intros Hpoll Hi Hbrk. pose proof (poll_gives junk fuel true ss _ ss' Hpoll) as Hok. cbn in Hok.
  unfold skynet_socket_poll. cbn [fst snd]. split; [intros ->; by rewrite Z.eqb_refl|]. intros Hexit.
  destruct (report_forwarded m Hok Hexit) as (type & padding & Hf & Hh & Hu & Hdata).
  rewrite (proj2 (Z.eqb_neq _ _) Hexit), Hf.
  destruct (forward_delivered m s R gq qs held work crea bufs resv type padding Hi Hbrk Hh Hu Hdata) as (s' & Hrun & Hd).
  exists s'. split; [by mrun Hrun|done].
Qed.
End delivery.

(** ** At a concrete node and socket *)

#[local] Existing Instances SocketStream.Demo.demo_kernel SocketStream.Demo.demo_lawful System.Demo.demo_services System.Demo.demo_lawful.

(** The socket server after a call of [connect] by the service with handle 0x1000001. *)
Definition connecting : option SocketSystem.world :=
  SocketSystem.runs [SocketSystem.OCall (SocketSystem.CConnect 16777217 "10.0.0.1" 80); SocketSystem.OWrite 0]
    (SocketSystem.initial true 5 SocketSystem.demo_kernel_state).

Lemma reports_delivered_witness :
  exists w m more ss' s s' R gq qs held bufs resv, connecting = Some w /\ m_type m = SOCKET_OPEN /\ m_opaque m = 16777217 /\
    socket_server_poll SocketSystem.junk0 3 true w.1 = Some ((Some m, more), ss') /\
    System.Demo.demo_boot System.Demo.demo_start = Some ((1, 2), s) /\ reg_ctx R !! 16777217 = Some 1 /\
    skynet_socket_poll (fun _ => "error"%string) (fun _ => "error"%string) (Some m, more) s = Some (if more then -1 else 1, s') /\
    delivered (fun _ => "error"%string) (fun _ => "error"%string) m s R gq qs held [] [] bufs resv s'.
Proof.
  destruct System.Demo.demo_booted as (s & Hboot & (R & gq & qs & held & bufs & resv & Hi) & _).
  destruct connecting as [w|] eqn:Hw; [|by vm_compute in Hw].
  destruct (socket_server_poll SocketSystem.junk0 3 true w.1) as [[[[m|] more] ss']|] eqn:Hpoll;
    [|by vm_compute in Hw; injection Hw as <-; vm_compute in Hpoll..].
  assert (Hm : m_type m = SOCKET_OPEN /\ m_opaque m = 16777217).
  { vm_compute in Hw. injection Hw as <-. vm_compute in Hpoll. by injection Hpoll as <- <- <-. }
  assert (Hreg : reg_ctx R !! 16777217 = Some 1).
  { assert (fst <$> skynet_handle_grab 16777217 s = Some 1) as Hg
      by (apply (System.Demo.at_booted (fun s => fst <$> skynet_handle_grab 16777217 s) s _ Hboot); vm_compute; reflexivity).
    destruct (reg_ctx R !! 16777217) as [c|] eqn:Hc.
    - destruct (inv_grab _ _ _ _ _ _ _ _ _ _ c Hi Hc) as (x & _ & _ & Hrun & _). rewrite Hrun in Hg. by injection Hg as ->.
    - by rewrite (inv_grab_none _ _ _ _ _ _ _ _ _ _ Hi Hc) in Hg. }
  destruct (reports_delivered (fun _ => "error"%string) (fun _ => "error"%string) SocketSystem.junk0 3 w.1 m more ss' s R gq qs held [] [] bufs resv Hpoll Hi)
    as [_ Hrep].
  { assert (bool_decide (n_brk s < 2 ^ 64 - 1) = true) as Hb
      by (apply (System.Demo.at_booted (fun s => bool_decide (n_brk s < 2 ^ 64 - 1)) s _ Hboot); vm_compute; reflexivity).
    by apply bool_decide_eq_true in Hb. }
  destruct Hrep as (s' & Hrun & Hd); [by rewrite (proj1 Hm)|].
  exists w, m, more, ss', s, s', R, gq, qs, held, bufs, resv. split_and!; try apply Hm; done.
Defined.
