(* ===== verification/Varint.v ===== *)
(** Variable-length integers of the protocol buffers library:
    pbc-master/src/varint.c.

    A 64-bit number is written in groups of 7 bits, the least significant first,
    the top bit of a byte telling that another one follows.  Decoding gives the
    number as two 32-bit halves.  A buffer is a list of bytes; an access beyond
    its end is [None]. *)

From S2P Require Import Prelude Bytes.
Local Open Scope Z_scope.
Local Open Scope word_scope.

Record longlong := LL { low : Z; hi : Z }.

Definition _pbcV_encode32 (number : Z) : list Z :=
  if number <? 0x80 then [u8 number]
  else
    let b0 := u8 (number .| 0x80) in
    if number <? 0x4000 then [b0; u8 (number >> 7)]
    else
      let b1 := u8 ((number >> 7) .| 0x80) in
      if number <? 0x200000 then [b0; b1; u8 (number >> 14)]
      else
        let b2 := u8 ((number >> 14) .| 0x80) in
        if number <? 0x10000000 then [b0; b1; b2; u8 (number >> 21)]
        else [b0; b1; b2; u8 ((number >> 21) .| 0x80); u8 (number >> 28)].

(** The loop of the 64-bit case, at most 9 times. *)
Fixpoint encode_loop (fuel : nat) (number : Z) : option (list Z) :=
  match fuel with
  | O => None
  | S fuel' =>
      let b := u8 (number .| 0x80) in
      let number := number >> 7 in
      if 0x80 <=? number then rest ← encode_loop fuel' number; Some (b :: rest)
      else Some [b; u8 number]
  end.

Definition _pbcV_encode (number : Z) : option (list Z) :=
  if number .& 0xffffffff =? number then Some (_pbcV_encode32 (u32 number))
  else encode_loop 9 number.

(** [for (i=1;i<4;i++)]: [inl] the result, [inr] the 28 bits so far. *)
Fixpoint decode_low (n : nat) (i r : Z) (buffer : list Z) : option ((Z * longlong) + Z) :=
  match n with
  | O => Some (inr r)
  | S n' =>
      b ← zget buffer i;
      let r := r .| ((b .& 0x7f) << (7 * i)) in
      if (b .& 0x80) =? 0 then Some (inl (i + 1, LL r 0)) else decode_low n' (i + 1) r buffer
  end.

(** [for (i=4;i<10;i++)] *)
Fixpoint decode_high (n : nat) (i r lr : Z) (buffer : list Z) : option (Z * longlong) :=
  match n with
  | O => Some (10, LL 0 0)
  | S n' =>
      b ← zget buffer i;
      let lr := u64 (lr .| ((b .& 0x7f) << (7 * (i - 4)))) in
      if (b .& 0x80) =? 0 then
        Some (i + 1, LL (r .| u32 ((u32 lr .& 0xf) << 28)) (u32 (lr >> 4)))
      else decode_high n' (i + 1) r lr buffer
  end.

Definition _pbcV_decode (buffer : list Z) : option (Z * longlong) :=
  b0 ← zget buffer 0;
  if (b0 .& 0x80) =? 0 then Some (1, LL b0 0)
  else
    x ← decode_low 3 1 (b0 .& 0x7f) buffer;
    match x with
    | inl res => Some res
    | inr r => decode_high 6 4 r 0 buffer
    end.

(** Signed arguments are their two's complement values; [>>] is arithmetic. *)
Definition _pbcV_zigzag32 (n : Z) : list Z := _pbcV_encode32 (u32 ((n << 1) .^ (n >> 31))).
Definition _pbcV_zigzag (n : Z) : option (list Z) := _pbcV_encode (u64 ((n << 1) .^ (n >> 63))).

Definition _pbcV_dezigzag64 (r : longlong) : longlong :=
  LL (((low r >> 1) .| u32 ((hi r .& 1) << 31)) .^ u32 (- (low r .& 1)))
     ((hi r >> 1) .^ u32 (- (low r .& 1))).

Definition _pbcV_dezigzag32 (r : longlong) : longlong :=
  LL ((low r >> 1) .^ u32 (- (low r .& 1))) (u32 (- (low r >> 31))).


(** ** Groups of seven bits *)

(** The number a sequence of bytes stands for, and the sequences that are the
    encoding of some number: every byte but the last has its top bit set. *)
Fixpoint varint_val (l : list Z) : Z :=
  match l with [] => 0 | b :: l' => b mod 128 + 128 * varint_val l' end.

Fixpoint is_varint (l : list Z) : Prop :=
  match l with
  | [] => False
  | [b] => 0 <= b < 128
  | b :: l' => 128 <= b < 256 /\ is_varint l'
  end.

Definition ll (n : Z) : longlong := LL (u32 n) (u32 (n / 2 ^ 32)).

Lemma is_varint_cons b l : l <> [] -> is_varint (b :: l) <-> 128 <= b < 256 /\ is_varint l.
Proof. by destruct l. Qed.

Lemma is_varint_nonempty l : is_varint l -> (1 <= length l)%nat.
Proof. destruct l; simpl; [done|lia]. Qed.

Lemma is_varint_bytes l : is_varint l -> is_bytes l.
Proof.
  induction l as [|b [|c l] IH]; intros H.
  - done.
  - constructor; [simpl in H; unfold is_u; lia|constructor].
  - apply is_varint_cons in H as [? ?]; [|done]. constructor; [unfold is_u; lia|by apply IH].
Qed.

Lemma varint_val_bound l : 0 <= varint_val l < 2 ^ (7 * Z.of_nat (length l)).
Proof.
  induction l as [|b l IH]; [done|]. cbn [varint_val length].
  pose proof (Z.mod_pos_bound b 128).
  replace (7 * Z.of_nat (S (length l))) with (7 + 7 * Z.of_nat (length l)) by lia.
  rewrite Z.pow_add_r by lia. lia.
Qed.

Lemma low7 b : b .& 0x7f = b mod 128.
Proof. apply land_127. Qed.

Lemma top_bit b : is_u8 b -> (b .& 0x80 =? 0) = (b <? 128).
Proof.
  intros Hb. apply Bool.eqb_true_iff.
  apply (byte_forall (fun b => Bool.eqb (b .& 0x80 =? 0) (b <? 128))); [vm_compute; reflexivity|done].
Qed.

Lemma more_bit x : u8 (x .| 0x80) = x mod 128 + 128.
Proof.
  assert (u8 (x .| 0x80) = u8 x .| 0x80) as ->.
  { rewrite <- !land_ff. rewrite Z.land_lor_distr_l. done. }
  pose proof (is_u8_u8 x) as Hb.
  replace (x mod 128) with (u8 x mod 128).
  - apply Z.eqb_eq. apply (byte_forall (fun b => b .| 0x80 =? b mod 128 + 128)); [vm_compute; reflexivity|done].
  - unfold u8, wrap. change (2 ^ 8) with (128 * 2). rewrite Z.rem_mul_r by lia.
    rewrite Z.mul_comm, Z_mod_plus_full. apply Z.mod_mod. lia.
Qed.

(** ** Encoding *)

Lemma varint_step n l : 0 <= n -> is_varint l -> varint_val l = n / 128 ->
  is_varint (u8 (n .| 0x80) :: l) /\ varint_val (u8 (n .| 0x80) :: l) = n.
Proof.
  intros Hn Hl Hv. rewrite more_bit. pose proof (Z.mod_pos_bound n 128). split.
  - apply is_varint_cons; [by intros ->|]. split; [lia|done].
  - cbn [varint_val]. rewrite Hv. replace (n mod 128 + 128) with (n mod 128 + 1 * 128) by lia.
    rewrite Z_mod_plus_full, Z.mod_mod by lia. pose proof (Z.div_mod n 128). lia.
Qed.

Lemma varint_last n : 0 <= n < 128 -> is_varint [u8 n] /\ varint_val [u8 n] = n.
Proof.
  intros Hn. unfold u8. rewrite wrap_small by (unfold is_u; lia). simpl.
  rewrite Z.mod_small by lia. lia.
Qed.

Lemma encode_loop_spec fuel n : 128 <= n < 2 ^ (7 * Z.of_nat fuel + 7) ->
  exists l, encode_loop fuel n = Some l /\ is_varint l /\ varint_val l = n /\ (length l <= fuel + 1)%nat.
Proof.
  revert n. induction fuel as [|fuel IH]; intros n Hn.
  { change (2 ^ (7 * Z.of_nat 0 + 7)) with 128 in Hn. lia. }
  cbn [encode_loop]. rewrite shiftr_div by lia. change (2 ^ 7) with 128.
  assert (n / 128 < 2 ^ (7 * Z.of_nat fuel + 7)) as Hq.
  { apply Z.div_lt_upper_bound; [lia|]. change 128 with (2 ^ 7). rewrite <- Z.pow_add_r by lia.
    replace (7 + (7 * Z.of_nat fuel + 7)) with (7 * Z.of_nat (S fuel) + 7) by lia. lia. }
  destruct (Z.leb_spec 128 (n / 128)) as [Hge|Hlt].
  - destruct (IH (n / 128)) as (l & -> & Hl & Hv & Hlen); [lia|]. rewrite some_bind.
    eexists. split; [done|]. destruct (varint_step n l) as [? ?]; try done; [lia|].
    split; [done|]. split; [done|]. simpl. lia.
  - destruct (varint_last (n / 128)) as [Hl Hv]; [split; [apply Z.div_pos; lia|lia]|].
    eexists. split; [done|]. destruct (varint_step n [u8 (n / 128)]) as [? ?]; try done; [lia|].
    split; [done|]. split; [done|]. simpl. lia.
Qed.

Lemma encode32_spec n : is_u32 n ->
  is_varint (_pbcV_encode32 n) /\ varint_val (_pbcV_encode32 n) = n /\
  (length (_pbcV_encode32 n) <= 5)%nat.
Proof.
  unfold is_u. intros Hn. unfold _pbcV_encode32. rewrite !shiftr_div by lia.
  change (2 ^ 7) with 128. change (2 ^ 14) with 16384. change (2 ^ 21) with 2097152.
  change (2 ^ 28) with 268435456.
  assert (forall d, 0 < d -> n / (d * 128) = n / d / 128) as Hd by (intros; symmetry; apply Z.div_div; lia).
  pose proof (Hd 128) as H2. pose proof (Hd 16384) as H3. pose proof (Hd 2097152) as H4.
  change (128 * 128) with 16384 in H2. change (16384 * 128) with 2097152 in H3.
  change (2097152 * 128) with 268435456 in H4.
  assert (forall x l, 0 <= x -> is_varint l /\ varint_val l = x / 128 ->
    is_varint (u8 (x .| 0x80) :: l) /\ varint_val (u8 (x .| 0x80) :: l) = x) as Hs
    by (intros x l Hx [? ?]; by apply varint_step).
  assert (forall d, 0 < d -> 0 <= n / d) as Hpos by (intros; apply Z.div_pos; lia).
  assert (forall d b, 0 < d -> n < b * d -> n / d < b) as Hlt
    by (intros; apply Z.div_lt_upper_bound; lia).
  destruct (Z.ltb_spec n 0x80); [|destruct (Z.ltb_spec n 0x4000); [|
    destruct (Z.ltb_spec n 0x200000); [|destruct (Z.ltb_spec n 0x10000000)]]];
    (apply and_assoc; split; [|simpl; lia]);
    rewrite ?H4 by lia; rewrite ?H3 by lia; rewrite ?H2 by lia;
    repeat (apply Hs; [repeat apply Z.div_pos; lia|]);
    apply varint_last; rewrite <- ?H2 by lia; rewrite <- ?H3 by lia; rewrite <- ?H4 by lia;
    first [lia | split; [apply Hpos; lia|apply Hlt; lia]].
Qed.

(** ** Decoding *)

Lemma is_varint_inv b l : is_varint (b :: l) ->
  (l = [] /\ 0 <= b < 128) \/ (is_varint l /\ 128 <= b < 256).
Proof. destruct l as [|c l]; simpl; [by left|tauto]. Qed.

(** What the two halves hold once [V] is read above the 28 bits of [r]. *)
Lemma join_halves r V : is_u 28 r -> is_u64 V ->
  LL (r .| u32 ((u32 V .& 0xf) << 28)) (u32 (V >> 4)) = ll (r + V * 2 ^ 28).
Proof.
  intros Hr HV. unfold ll. change 0xf with (Z.ones 4). rewrite Z.land_ones by lia.
  unfold u32, wrap.
  assert (V mod 2 ^ 32 mod 2 ^ 4 = V mod 2 ^ 4) as ->.
  { change (2 ^ 32) with (2 ^ 4 * 2 ^ 28). rewrite Z.rem_mul_r by lia.
    rewrite Z.mul_comm, Z_mod_plus_full. apply Z.mod_mod. lia. }
  pose proof (Z.mod_pos_bound V (2 ^ 4)) as Hm.
  rewrite (Z.mod_small ((V mod 2 ^ 4) << 28)) by (rewrite Z.shiftl_mul_pow2 by lia; lia).
  rewrite lor_shiftl_add by (done || lia). rewrite shiftr_div by lia.
  unfold is_u in Hr. f_equal.
  - pose proof (Z.div_mod V (2 ^ 4)) as Hd.
    replace (r + V * 2 ^ 28) with (r + V mod 2 ^ 4 * 2 ^ 28 + V / 2 ^ 4 * 2 ^ 32) by lia.
    rewrite Z_mod_plus_full. symmetry. apply Z.mod_small. lia.
  - f_equal. change (2 ^ 32) with (2 ^ 28 * 2 ^ 4). rewrite <- Z.div_div by lia.
    rewrite Z.div_add, (Z.div_small r) by lia. done.
Qed.

Lemma is_u_le w w' x : w <= w' -> is_u w x -> is_u w' x.
Proof. unfold is_u. intros ? ?. pose proof (Z.pow_le_mono_r 2 w w'). lia. Qed.

Lemma is_u_group w lr b : 0 <= w -> is_u w lr -> is_u (w + 7) (lr + b mod 128 * 2 ^ w).
Proof.
  unfold is_u. intros Hw ?. rewrite Z.pow_add_r by lia. pose proof (Z.mod_pos_bound b 128).
  change (2 ^ 7) with 128. nia.
Qed.

Lemma zget_here {A} (pre : list A) b rest i : zlen pre = i -> zget (pre ++ b :: rest) i = Some b.
Proof. intros <-. rewrite zget_app_r by lia. by rewrite Z.sub_diag. Qed.

Lemma split_here {A} (pre : list A) b rest : pre ++ b :: rest = (pre ++ [b]) ++ rest.
Proof. by rewrite <- app_assoc. Qed.

Lemma zlen_snoc {A} (pre : list A) b i : zlen pre = i -> zlen (pre ++ [b]) = i + 1.
Proof. intros <-. unfold zlen. rewrite length_app. simpl. lia. Qed.

Lemma decode_high_spec n l : forall pre i r lr rest,
  is_varint l -> (length l <= n)%nat -> zlen pre = i -> 4 <= i -> i + Z.of_nat n = 10 ->
  is_u (7 * (i - 4)) lr -> is_u 28 r ->
  decode_high n i r lr (pre ++ l ++ rest)
  = Some (i + zlen l, ll (r + (lr + varint_val l * 2 ^ (7 * (i - 4))) * 2 ^ 28)).
Proof.
  revert l. induction n as [|n IH]; intros l pre i r lr rest Hl Hlen Hpre Hi Hin Hlr Hr.
  { apply is_varint_nonempty in Hl. lia. }
  destruct l as [|b l]; [done|]. pose proof (is_varint_bytes _ Hl) as Hb. inversion Hb; subst.
  cbn [decode_high app]. rewrite (zget_here pre b (l ++ rest) (zlen pre) eq_refl), some_bind.
  rewrite low7, top_bit by done. rewrite lor_shiftl_add by (done || lia).
  pose proof (is_u_group (7 * (zlen pre - 4)) lr b ltac:(lia) Hlr) as Hlr'.
  assert (is_u64 (lr + b mod 128 * 2 ^ (7 * (zlen pre - 4)))) as H64
    by (eapply is_u_le; [|done]; lia).
  unfold u64. rewrite (wrap_small 64) by done.
  destruct (is_varint_inv _ _ Hl) as [[-> Hlt]|[Hl' Hge]].
  - rewrite (proj2 (Z.ltb_lt _ _)) by lia. f_equal. rewrite join_halves by done. f_equal.
    cbn [varint_val]. f_equal. lia.
  - rewrite (proj2 (Z.ltb_ge _ _)) by lia. rewrite split_here, <- app_assoc.
    rewrite (app_assoc pre [b]). rewrite (IH l (pre ++ [b]) (zlen pre + 1) r); try done.
    + f_equal. f_equal; [rewrite zlen_cons; lia|]. f_equal. cbn [varint_val].
      replace (7 * (zlen pre + 1 - 4)) with (7 * (zlen pre - 4) + 7) by lia.
      rewrite Z.pow_add_r by lia. change (2 ^ 7) with 128. ring.
    + simpl in Hlen. lia.
    + by apply zlen_snoc.
    + lia.
    + lia.
    + by replace (7 * (zlen pre + 1 - 4)) with (7 * (zlen pre - 4) + 7) by lia.
Qed.

Lemma ll_small n : is_u32 n -> ll n = LL n 0.
Proof.
  intros Hn. unfold ll, u32. rewrite wrap_small by done. f_equal. unfold is_u in Hn.
  by rewrite Z.div_small by lia.
Qed.

(** The first loop: the encodings that end before the fifth byte, and the others. *)
Lemma decode_low_spec n l : forall pre i r rest,
  is_varint l -> (length l <= n + 6)%nat -> zlen pre = i -> 1 <= i -> i + Z.of_nat n = 4 ->
  is_u (7 * i) r ->
  (x ← decode_low n i r (pre ++ l ++ rest);
   match x with
   | inl res => Some res
   | inr r => decode_high 6 4 r 0 (pre ++ l ++ rest)
   end) = Some (i + zlen l, ll (r + varint_val l * 2 ^ (7 * i))).
Proof.
  revert l. induction n as [|n IH]; intros l pre i r rest Hl Hlen Hpre Hi Hin Hr.
  { assert (i = 4) as -> by lia. cbn [decode_low]. rewrite some_bind.
    rewrite decode_high_spec by (done || lia).
    f_equal. f_equal. f_equal. change (7 * 4) with 28. change (2 ^ (7 * (4 - 4))) with 1. lia. }
  destruct l as [|b l]; [done|]. pose proof (is_varint_bytes _ Hl) as Hb. inversion Hb; subst.
  cbn [decode_low app]. rewrite (zget_here pre b (l ++ rest) (zlen pre) eq_refl), some_bind.
  rewrite low7, top_bit by done. rewrite lor_shiftl_add by (done || lia).
  pose proof (is_u_group (7 * zlen pre) r b ltac:(lia) Hr) as Hr'.
  destruct (is_varint_inv _ _ Hl) as [[-> Hlt]|[Hl' Hge]].
  - rewrite (proj2 (Z.ltb_lt _ _)) by lia. rewrite some_bind. f_equal.
    rewrite <- ll_small by (eapply is_u_le; [|done]; lia). f_equal. cbn [varint_val]. f_equal. lia.
  - rewrite (proj2 (Z.ltb_ge _ _)) by lia. rewrite split_here, (IH l (pre ++ [b]) (zlen pre + 1)); try done.
    + f_equal. f_equal; [rewrite zlen_cons; lia|]. f_equal. cbn [varint_val].
      replace (7 * (zlen pre + 1)) with (7 * zlen pre + 7) by lia.
      rewrite Z.pow_add_r by lia. change (2 ^ 7) with 128. ring.
    + simpl in Hlen. lia.
    + by apply zlen_snoc.
    + lia.
    + lia.
    + by replace (7 * (zlen pre + 1)) with (7 * zlen pre + 7) by lia.
Qed.

(** A number of at most 10 groups, whatever follows it in the buffer. *)
Lemma decode_spec l rest : is_varint l -> (length l <= 10)%nat ->
  _pbcV_decode (l ++ rest) = Some (zlen l, ll (varint_val l)).
Proof.
  intros Hl Hlen. destruct l as [|b l]; [done|]. pose proof (is_varint_bytes _ Hl) as Hb. inversion Hb; subst.
  unfold _pbcV_decode. change (zget ((b :: l) ++ rest) 0) with (Some b). rewrite some_bind.
  rewrite low7, top_bit by done. destruct (is_varint_inv _ _ Hl) as [[-> Hlt]|[Hl' Hge]].
  - rewrite (proj2 (Z.ltb_lt _ _)) by lia. cbn [varint_val]. rewrite Z.mod_small by lia.
    rewrite ll_small by (unfold is_u; lia). by rewrite Z.mul_0_r, Z.add_0_r.
  - rewrite (proj2 (Z.ltb_ge _ _)) by lia. change ((b :: l) ++ rest) with ([b] ++ l ++ rest).
    rewrite (decode_low_spec 3 l [b] 1) by (first [done | simpl in Hlen; lia | apply Z.mod_pos_bound; lia]).
    rewrite zlen_cons. f_equal. f_equal. f_equal. cbn [varint_val]. lia.
Qed.

Lemma more b : 128 <= b < 256 -> (b .& 0x80 =? 0) = false.
Proof. intros Hb. rewrite top_bit by (unfold is_u; lia). apply Z.ltb_ge. lia. Qed.

Lemma decode_high_unterminated n l : forall pre i r lr, zlen pre = i -> (n <= length l)%nat ->
  Forall (fun b => 128 <= b < 256) (take n l) -> decode_high n i r lr (pre ++ l) = Some (10, LL 0 0).
Proof.
  revert l. induction n as [|n IH]; intros l pre i r lr Hi Hn Hl; [done|].
  destruct l as [|b l]; [simpl in Hn; lia|]. inversion Hl; subst. simpl in Hn.
  cbn [decode_high]. rewrite (zget_here pre b l (zlen pre) eq_refl), some_bind, more by done.
  rewrite split_here. apply IH; [by apply zlen_snoc|lia|done].
Qed.

Lemma decode_low_unterminated n l : forall pre i r, zlen pre = i -> (n <= length l)%nat ->
  Forall (fun b => 128 <= b < 256) (take n l) -> exists r', decode_low n i r (pre ++ l) = Some (inr r').
Proof.
  revert l. induction n as [|n IH]; intros l pre i r Hi Hn Hl; [by exists r|].
  destruct l as [|b l]; [simpl in Hn; lia|]. inversion Hl; subst. simpl in Hn.
  cbn [decode_low]. rewrite (zget_here pre b l (zlen pre) eq_refl), some_bind, more by done.
  rewrite split_here. apply IH; [by apply zlen_snoc|lia|done].
Qed.

(** Ten bytes that all ask for another one. *)
Lemma decode_unterminated buffer : (10 <= length buffer)%nat ->
  Forall (fun b => 128 <= b < 256) (take 10 buffer) -> _pbcV_decode buffer = Some (10, LL 0 0).
Proof.
  intros Hlen H. do 4 (destruct buffer as [|? buffer]; [simpl in Hlen; lia|]).
  simpl in Hlen. change (take 10 (z :: z0 :: z1 :: z2 :: buffer))
    with ([z] ++ [z0; z1; z2] ++ take 6 buffer) in H.
  rewrite !Forall_app in H. destruct H as (H1 & H2 & H3). inversion H1; subst.
  unfold _pbcV_decode. change (zget (z :: z0 :: z1 :: z2 :: buffer) 0) with (Some z).
  rewrite some_bind, more by done.
  destruct (decode_low_unterminated 3 ([z0; z1; z2] ++ buffer) [z] 1 (z .& 0x7f)) as [r Hr];
    [done|simpl; lia|done|].
  change ([z] ++ [z0; z1; z2] ++ buffer) with (z :: z0 :: z1 :: z2 :: buffer) in Hr.
  rewrite Hr, some_bind.
  apply (decode_high_unterminated 6 buffer [z; z0; z1; z2]); [done|lia|done].
Qed.

Lemma varint_prefix k l : is_bytes l -> (k <= length l)%nat ->
  (exists p rest, l = p ++ rest /\ is_varint p /\ (length p <= k)%nat)
  \/ Forall (fun b => 128 <= b < 256) (take k l).
Proof.
  revert l. induction k as [|k IH]; intros l Hb Hk; [right; constructor|].
  destruct l as [|b l]; [simpl in Hk; lia|]. inversion Hb as [|? ? Hb0 Hb']; subst. simpl in Hk.
  unfold is_u in Hb0. destruct (decide (b < 128)).
  { left. exists [b], l. split; [done|]. simpl. lia. }
  destruct (IH l Hb' ltac:(lia)) as [(p & rest & -> & Hp & Hl)|Hf].
  - left. exists (b :: p), rest. split; [done|]. split; [|simpl; lia].
    apply is_varint_cons; [by intros ->|]. split; [lia|done].
  - right. cbn [take]. constructor; [lia|done].
Qed.

Lemma ll_range n : is_u32 (low (ll n)) /\ is_u32 (hi (ll n)).
Proof. split; apply wrap_range; lia. Qed.

(** Every 10 bytes decode to something. *)
Lemma decode_total buffer : is_bytes buffer -> (10 <= length buffer)%nat ->
  exists n r, _pbcV_decode buffer = Some (n, r) /\ 1 <= n <= 10 /\ is_u32 (low r) /\ is_u32 (hi r).
Proof.
  intros Hb Hlen. destruct (varint_prefix 10 buffer Hb Hlen) as [(p & rest & -> & Hp & Hl)|Hf].
  - rewrite decode_spec by done. eexists _, _. split; [done|].
    split; [|apply ll_range]. pose proof (is_varint_nonempty _ Hp). unfold zlen. lia.
  - rewrite decode_unterminated by done. eexists _, _. split; [done|]. split; [lia|]. unfold is_u; simpl; lia.
Qed.

Lemma encode_spec n : is_u64 n ->
  exists l, _pbcV_encode n = Some l /\ is_varint l /\ varint_val l = n /\
    (length l <= (if (n <? 2 ^ 32)%Z then 5 else 10))%nat.
Proof.
  intros Hn. unfold _pbcV_encode. rewrite (wrap_land 32) by lia.
  destruct (Z.ltb_spec n (2 ^ 32)) as [Hlt|Hge].
  - unfold u32. rewrite !wrap_small by (unfold is_u in *; lia). rewrite Z.eqb_refl.
    destruct (encode32_spec n) as (? & ? & ?); [unfold is_u in *; lia|]. eauto.
  - pose proof (wrap_range 32 n) as Hr. destruct (Z.eqb_spec (wrap 32 n) n) as [He|_].
    { unfold is_u in *. lia. }
    destruct (encode_loop_spec 9 n) as (l & -> & ? & ? & ?); [unfold is_u in *; simpl; lia|]. eauto.
Qed.

(** [C36] Every 64-bit number has an encoding of 1 to 10 bytes, at most 5 below
    2^32; decoding it gives the two halves of the number and the length, whatever
    bytes follow. *)
Theorem varint_roundtrip n rest :
  is_u64 n ->
  exists l, _pbcV_encode n = Some l /\ 1 <= zlen l <= (if n <? 2 ^ 32 then 5 else 10) /\
    _pbcV_decode (l ++ rest) = Some (zlen l, LL (u32 n) (u32 (n / 2 ^ 32))).
Proof.
  intros Hn. destruct (encode_spec n Hn) as (l & He & Hl & Hv & Hlen). exists l. split; [done|].
  pose proof (is_varint_nonempty _ Hl). split; [unfold zlen; case_match; lia|].
  rewrite decode_spec by (done || case_match; lia). by rewrite Hv.
Qed.

Lemma varint_roundtrip_witness :
  exists l, _pbcV_encode 0x123456789ab = Some l /\ 1 <= zlen l <= 10 /\
    _pbcV_decode (l ++ [255]) = Some (zlen l, LL 0x456789ab 0x123).
Proof. apply (varint_roundtrip 0x123456789ab [255]). by_eval. Defined.

(** ** Zigzag *)

Definition zigzag_val (n : Z) : Z := if n <? 0 then - 2 * n - 1 else 2 * n.

Lemma zigzag_lxor w n : 0 < w -> - 2 ^ (w - 1) <= n < 2 ^ (w - 1) ->
  (n << 1) .^ (n >> (w - 1)) = zigzag_val n /\ is_u w (zigzag_val n).
Proof.
  intros Hw Hn. unfold zigzag_val, is_u. rewrite Z.shiftl_mul_pow2, shiftr_div by lia.
  change (2 ^ 1) with 2. assert (2 ^ w = 2 * 2 ^ (w - 1)) as Hp.
  { rewrite <- Z.pow_succ_r by lia. f_equal. lia. }
  destruct (Z.ltb_spec n 0) as [Hneg|Hpos].
  - assert (n / 2 ^ (w - 1) = -1) as ->.
    { symmetry. apply Z.div_unique with (n + 2 ^ (w - 1)); lia. }
    rewrite Z.lxor_m1_r. unfold Z.lnot. lia.
  - rewrite Z.div_small by lia. rewrite Z.lxor_0_r. lia.
Qed.

Lemma zigzag_half n : zigzag_val n / 2 = (if n <? 0 then - n - 1 else n) /\
  zigzag_val n mod 2 = b2i (n <? 0).
Proof.
  unfold zigzag_val. destruct (Z.ltb_spec n 0); simpl.
  - split; [symmetry; apply Z.div_unique with 1; lia|symmetry; apply Z.mod_unique with (- n - 1); lia].
  - rewrite Z.mul_comm, Z.div_mul, Z_mod_mult by lia. done.
Qed.

(** Halving a number held in two words. *)
Lemma shift_pair v : is_u64 v ->
  (low (ll v) >> 1) .| u32 ((hi (ll v) .& 1) << 31) = u32 (v / 2) /\
  hi (ll v) >> 1 = u32 (v / 2 / 2 ^ 32) /\ low (ll v) .& 1 = v mod 2.
Proof.
  unfold is_u. intros Hv. cbn [low hi ll]. unfold u32, wrap.
  change 1 with (Z.ones 1) at 2 4. rewrite !Z.land_ones by lia. rewrite !shiftr_div by lia.
  change (2 ^ 1) with 2.
  assert (forall x, x mod 2 ^ 32 / 2 = (x / 2) mod 2 ^ 31) as Hh.
  { intros x. change (2 ^ 32) with (2 * 2 ^ 31). rewrite Z.rem_mul_r by lia.
    rewrite Z.mul_comm, Z.div_add by lia. rewrite (Z.div_small (x mod 2)) by (apply Z.mod_pos_bound; lia).
    done. }
  assert (forall x, x mod 2 ^ 32 mod 2 = x mod 2) as Hm.
  { intros x. change (2 ^ 32) with (2 * 2 ^ 31). rewrite Z.rem_mul_r by lia.
    rewrite Z.mul_comm, Z_mod_plus_full. apply Z.mod_mod. lia. }
  rewrite !Hh, !Hm. pose proof (Z.mod_pos_bound (v / 2 ^ 32) 2).
  pose proof (Z.mod_pos_bound (v / 2) (2 ^ 31)).
  assert (v / 2 / 2 ^ 32 = v / 2 ^ 32 / 2) as Hc by (rewrite !Z.div_div by lia; f_equal; lia).
  split; [|split; [|done]].
  - rewrite (Z.mod_small (_ << 31)) by (rewrite Z.shiftl_mul_pow2 by lia; lia).
    rewrite lor_shiftl_add by (unfold is_u; lia).
    change (2 ^ 32) with (2 ^ 31 * 2) at 2. rewrite Z.rem_mul_r by lia. rewrite Z.div_div by lia.
    change (2 * 2 ^ 31) with (2 ^ 32). lia.
  - rewrite Hc. assert (0 <= v / 2 ^ 32 / 2 < 2 ^ 31).
    { rewrite Z.div_div by lia. split; [apply Z.div_pos; lia|apply Z.div_lt_upper_bound; lia]. }
    rewrite !Z.mod_small by lia. done.
Qed.

Lemma u32_lnot x : u32 x .^ u32 (-1) = u32 (- x - 1).
Proof.
  replace (- x - 1) with (x .^ (-1)) by (rewrite Z.lxor_m1_r; unfold Z.lnot; lia).
  unfold u32. rewrite <- !(wrap_land 32) by lia. zbits.
Qed.

Lemma dezigzag64_zigzag n : - 2 ^ 63 <= n < 2 ^ 63 ->
  _pbcV_dezigzag64 (ll (zigzag_val n)) = LL (u32 n) (u32 (n / 2 ^ 32)).
Proof.
  intros Hn. destruct (zigzag_lxor 64 n) as [_ H64]; [lia|done|].
  unfold _pbcV_dezigzag64. destruct (shift_pair _ H64) as (-> & -> & ->).
  destruct (zigzag_half n) as [-> ->].
  destruct (Z.ltb_spec n 0) as [Hneg|Hpos]; cbn [b2i].
  - change (- (1)) with (-1). rewrite !u32_lnot. f_equal; f_equal; [lia|].
    pose proof (Z.div_mod n (2 ^ 32)). pose proof (Z.mod_pos_bound n (2 ^ 32)).
    rewrite <- (Z.div_unique (- n - 1) (2 ^ 32) (- (n / 2 ^ 32) - 1) (2 ^ 32 - 1 - n mod 2 ^ 32)); lia.
  - change (- 0) with 0. change (u32 0) with 0. by rewrite !Z.lxor_0_r.
Qed.

Lemma dezigzag32_zigzag n : - 2 ^ 31 <= n < 2 ^ 31 ->
  low (_pbcV_dezigzag32 (ll (zigzag_val n))) = u32 n.
Proof.
  intros Hn. destruct (zigzag_lxor 32 n) as [_ H32]; [lia|done|].
  rewrite ll_small by done. unfold _pbcV_dezigzag32. cbn [low hi]. rewrite shiftr_div, land_1 by lia.
  change (2 ^ 1) with 2. destruct (zigzag_half n) as [-> ->].
  destruct (Z.ltb_spec n 0) as [Hneg|Hpos]; cbn [b2i].
  - change (- (1)) with (-1).
    replace (- n - 1) with (u32 (- n - 1)) by (apply wrap_small; unfold is_u; lia).
    rewrite u32_lnot. f_equal. lia.
  - change (- 0) with 0. change (u32 0) with 0. rewrite Z.lxor_0_r. symmetry.
    apply wrap_small. unfold is_u. lia.
Qed.

(** Signed 64-bit numbers: decoding the zigzag encoding of a number and undoing
    the zigzag gives the two halves of its two's complement value. *)
Theorem zigzag_roundtrip n rest :
  - 2 ^ 63 <= n < 2 ^ 63 ->
  exists l r, _pbcV_zigzag n = Some l /\ _pbcV_decode (l ++ rest) = Some (zlen l, r) /\
    _pbcV_dezigzag64 r = LL (u32 n) (u32 (n / 2 ^ 32)).
Proof.
  intros Hn. destruct (zigzag_lxor 64 n) as [Hz H64]; [lia|done|].
  unfold _pbcV_zigzag. change (64 - 1) with 63 in Hz. rewrite Hz.
  unfold u64. rewrite wrap_small by done.
  destruct (encode_spec (zigzag_val n) H64) as (l & He & Hl & Hv & Hlen).
  exists l, (ll (zigzag_val n)). split; [done|]. split; [|by apply dezigzag64_zigzag].
  rewrite decode_spec by (done || case_match; lia). by rewrite Hv.
Qed.

Lemma zigzag_roundtrip_witness :
  - 2 ^ 63 <= -3 < 2 ^ 63 /\
  exists l r, _pbcV_zigzag (-3) = Some l /\ _pbcV_decode (l ++ []) = Some (zlen l, r) /\
    _pbcV_dezigzag64 r = LL (u32 (-3)) (u32 (-3 / 2 ^ 32)).
Proof. split; [lia|]. apply (zigzag_roundtrip (-3) []). lia. Defined.

(** The 32-bit variant takes the sign of the high half from the unsigned
    argument: the low half is the number, the high half is not its sign. *)
Lemma dezigzag32_high_half :
  _pbcV_decode (_pbcV_zigzag32 (-1) ++ []) = Some (1, LL 1 0) /\
  _pbcV_dezigzag32 (LL 1 0) = LL (u32 (-1)) 0 /\
  _pbcV_dezigzag64 (LL 1 0) = LL (u32 (-1)) (u32 (-1)).
Proof. repeat split; vm_compute; reflexivity. Qed.
