(* ===== verification/Chain.v ===== *)
(** Hash tables whose collisions are chained through the slots of one array.

    The three maps of pbc (map.c) share this layout: an entry sits in the slot of
    its hash, or in any free slot that is linked behind it.  A slot carries the
    index of the next one, counted from 1.  The class [Slot] says what a table
    needs of its slot type; the loops are the ones of the source. *)

From S2P Require Import Prelude.
Local Open Scope Z_scope.

(** [s_data] is [None] in a slot whose key (or pointer) is NULL. *)
Class Slot (T D : Type) := {
  s_data : T -> option D;
  s_next : T -> Z;
  s_link : Z -> T -> T;  (** slot->next = n *)
  s_fill : D -> T -> T   (** the fields of an entry; [next] stays *)
}.

Class LawfulSlot (T D : Type) `{!Slot T D} := {
  data_link n s : s_data (s_link n s) = s_data s;
  next_link n s : s_next (s_link n s) = n;
  data_fill d s : s_data (s_fill d s) = Some d;
  next_fill d s : s_next (s_fill d s) = s_next s
}.

Section chains.
Context {T D : Type} `{!Slot T D}.
Implicit Types (slots : list T) (i h e : Z) (s : T) (d : D).

Definition s_used (s : T) : bool := bool_decide (is_Some (s_data s)).

(** for (;;) { if (match) return slot; if (slot->next == 0) return NULL;
    slot = &map->slot[slot->next-1]; } *)
Fixpoint walk (fuel : nat) (p : T -> bool) (slots : list T) (i : Z) : option (option Z) :=
  match fuel with
  | O => None
  | S fuel' =>
      s ← zget slots i;
      if p s then Some (Some i)
      else if s_next s =? 0 then Some None
      else walk fuel' p slots (s_next s - 1)
  end.

(** The same loop with a break instead of the return NULL: where it stands then, and
    whether it matched. *)
Fixpoint walk_to (fuel : nat) (p : T -> bool) (slots : list T) (i : Z) : option (bool * Z) :=
  match fuel with
  | O => None
  | S fuel' =>
      s ← zget slots i;
      if p s then Some (true, i)
      else if s_next s =? 0 then Some (false, i)
      else walk_to fuel' p slots (s_next s - 1)
  end.

(** while (slot[empty].key != NULL) empty = step(empty); *)
Fixpoint find_free (fuel : nat) (step : Z -> Z) (slots : list T) (empty : Z) : option Z :=
  match fuel with
  | O => None
  | S fuel' =>
      s ← zget slots empty;
      if s_used s then find_free fuel' step slots (step empty) else Some empty
  end.

(** The collision branch: the entry goes to slot [e], linked behind slot [h]. *)
Definition link_behind (slots : list T) (h e : Z) (d : D) : option (list T) :=
  s ← zget slots h;
  es ← zget slots e;
  slots ← zset slots e (s_fill d (s_link (s_next s) es));
  s ← zget slots h;
  zset slots h (s_link (e + 1) s).

(** One entry of a table that is filled once; [empty] only moves forward. *)
Definition put_entry (st : list T * Z) (h : Z) (d : D) : option (list T * Z) :=
  let '(slots, empty) := st in
  s ← zget slots h;
  if s_used s then
    empty ← find_free (S (length slots)) (fun e => e + 1) slots empty;
    slots ← link_behind slots h empty d;
    Some (slots, empty)
  else
    slots ← zset slots h (s_fill d s);
    Some (slots, empty).

(** The slots on the way from [i] to the end of its chain. *)
Inductive chain (slots : list T) : Z -> list Z -> Prop :=
| chain_last i s :
    zget slots i = Some s -> s_used s = true -> s_next s = 0 -> chain slots i [i]
| chain_more i s l :
    zget slots i = Some s -> s_used s = true -> s_next s <> 0 ->
    chain slots (s_next s - 1) l -> chain slots i (i :: l).

(** Free slots are not linked, used ones start a chain that ends, and an entry is
    on the chain of its home slot. *)
Record chained (home : D -> Z) (slots : list T) : Prop := {
  free_unlinked i s : zget slots i = Some s -> s_used s = false -> s_next s = 0;
  used_chain i s : zget slots i = Some s -> s_used s = true -> exists l, chain slots i l;
  entry_reached i s d :
    zget slots i = Some s -> s_data s = Some d -> exists l, chain slots (home d) l /\ i ∈ l
}.

Lemma used_data s : s_used s = true <-> exists d, s_data s = Some d.
Proof. unfold s_used. rewrite bool_decide_eq_true. split; [by intros [d ?]; exists d|by intros [d ->]]. Qed.

Lemma unused_data s : s_used s = false <-> s_data s = None.
Proof. unfold s_used. rewrite bool_decide_eq_false. symmetry. apply eq_None_not_Some. Qed.

(** ** Chains are finite and do not repeat *)

Lemma home_chain home slots h s : chained home slots -> zget slots h = Some s -> s_used s = true ->
  exists l, chain slots h l /\ h ∈ l.
Proof.
  intros Hch Hs Hu. destruct (used_chain _ _ Hch _ _ Hs Hu) as [l Hl]. exists l. split; [done|].
  inversion Hl; apply list_elem_of_here.
Qed.

Lemma chain_head slots i l : chain slots i l -> exists l', l = i :: l'.
Proof. inversion 1; eauto. Qed.

Lemma chain_used slots i l j : chain slots i l -> j ∈ l ->
  exists s, zget slots j = Some s /\ s_used s = true.
Proof.
  induction 1 as [i s|i s l ? ? ? ? IH]; rewrite ?elem_of_cons.
  - intros [->|[]%elem_of_nil]. eauto.
  - intros [->|?]; eauto.
Qed.

Lemma chain_fun slots i l l' : chain slots i l -> chain slots i l' -> l = l'.
Proof.
  intros Hc. revert l'. induction Hc as [i s|i s l ? ? ? ? IH]; inversion 1; simplify_eq; try done.
  f_equal. by apply IH.
Qed.

Lemma chain_suffix slots i l j : chain slots i l -> j ∈ l ->
  exists l', chain slots j l' /\ (length l' <= length l)%nat.
Proof.
  induction 1 as [i s|i s l Hi Hu Hn Hc IH]; rewrite ?elem_of_cons.
  - intros [->|[]%elem_of_nil]. exists [i]. split; [by eapply chain_last|done].
  - intros [->|Hj].
    + exists (i :: l). split; [by eapply chain_more|done].
    + destruct (IH Hj) as (l' & ? & ?). exists l'. simpl. split; [done|lia].
Qed.

Lemma chain_NoDup slots i l : chain slots i l -> NoDup l.
Proof.
  induction 1 as [i s|i s l Hi Hu Hn Hc IH].
  - apply NoDup_singleton.
  - constructor; [|done]. intros Hin. destruct (chain_suffix _ _ _ _ Hc Hin) as (l' & Hl' & Hlen).
    pose proof (chain_fun _ _ _ _ Hl' (chain_more _ _ _ _ Hi Hu Hn Hc)) as ->. simpl in Hlen. lia.
Qed.

Lemma chain_length slots i l : chain slots i l -> (length l <= length slots)%nat.
Proof.
  intros Hc. pose proof (chain_NoDup _ _ _ Hc) as Hnd.
  assert (l ⊆+ seqZ 0 (zlen slots)) as Hs.
  { apply NoDup_submseteq; [done|]. intros j Hj.
    destruct (chain_used _ _ _ _ Hc Hj) as (s & Hs & _). apply zget_in in Hs.
    apply elem_of_seqZ. lia. }
  apply submseteq_length in Hs. rewrite length_seqZ in Hs. unfold zlen in Hs. lia.
Qed.

(** ** Lookup *)

Lemma walk_chain p slots i l : chain slots i l ->
  forall fuel, (length l <= fuel)%nat ->
  (exists j s, walk fuel p slots i = Some (Some j) /\ j ∈ l /\ zget slots j = Some s /\ p s = true)
  \/ (walk fuel p slots i = Some None /\ forall j s, j ∈ l -> zget slots j = Some s -> p s = false).
Proof.
  induction 1 as [i s Hi Hu Hn|i s l Hi Hu Hn Hc IH]; intros [|fuel] Hf; simpl in Hf; try lia;
    cbn [walk]; rewrite Hi, some_bind; (destruct (p s) eqn:Hp; [left; exists i, s; split_and!; try done;
      apply list_elem_of_here|]).
  - rewrite Hn, Z.eqb_refl. right. split; [done|].
    intros j s' ->%list_elem_of_singleton ?. by simplify_eq.
  - rewrite (proj2 (Z.eqb_neq _ _) Hn). destruct (IH fuel) as [(j & s' & ? & ? & ? & ?)|[? Hno]]; [lia| |].
    + left. exists j, s'. split_and!; try done. by apply list_elem_of_further.
    + right. split; [done|]. intros j s' [->|?]%elem_of_cons ?; [by simplify_eq|eauto].
Qed.

Lemma walk_is_walk_to p slots fuel : forall i,
  walk fuel p slots i = r ← walk_to fuel p slots i; Some (if (r : bool * Z).1 then Some r.2 else None).
Proof.
  induction fuel as [|fuel IH]; intros i; [done|]. cbn [walk walk_to].
  destruct (zget slots i) as [s|]; [|done]. rewrite !some_bind. repeat case_match; done.
Qed.

(** Where the loop stops is on the chain. *)
Lemma walk_to_chain p slots i l : chain slots i l ->
  forall fuel b j, walk_to fuel p slots i = Some (b, j) -> j ∈ l.
Proof.
  induction 1 as [i s Hi Hu Hn|i s l Hi Hu Hn Hc IH]; intros [|fuel] b j; cbn [walk_to]; try done;
    rewrite Hi, some_bind; (destruct (p s); [intros [= _ <-]; apply list_elem_of_here|]).
  - rewrite Hn. intros [= _ <-]. apply list_elem_of_here.
  - rewrite (proj2 (Z.eqb_neq _ _) Hn). intros Hw. apply list_elem_of_further. eauto.
Qed.

(** Walking from the home of a key finds an entry the test accepts, if there is
    one among those that live there. *)
Lemma walk_home home p slots h fuel :
  chained home slots -> (length slots <= fuel)%nat ->
  (exists s, zget slots h = Some s /\ s_used s = true) ->
  (forall s, p s = true -> forall d, s_data s = Some d -> home d = h) ->
  (exists j s d, walk fuel p slots h = Some (Some j) /\ zget slots j = Some s /\
     s_data s = Some d /\ p s = true)
  \/ (walk fuel p slots h = Some None /\
      forall j s d, zget slots j = Some s -> s_data s = Some d -> p s = false).
Proof.
  intros Hch Hf (s0 & Hs0 & Hu) Hp. destruct (used_chain _ _ Hch _ _ Hs0 Hu) as [l Hl].
  pose proof (chain_length _ _ _ Hl).
  destruct (walk_chain p _ _ _ Hl fuel ltac:(lia)) as [(j & s & ? & Hj & Hs & ?)|[? Hno]].
  - left. destruct (chain_used _ _ _ _ Hl Hj) as (s' & Hs' & Hu').
    assert (s' = s) as -> by congruence. apply used_data in Hu' as [d Hd]. by exists j, s, d.
  - right. split; [done|]. intros j s d Hs Hd. destruct (p s) eqn:Hps; [|done].
    destruct (entry_reached _ _ Hch _ _ _ Hs Hd) as (l' & Hl' & Hj).
    rewrite (Hp _ Hps _ Hd) in Hl'. pose proof (chain_fun _ _ _ _ Hl Hl') as ->.
    by rewrite <- Hps, (Hno _ _ Hj Hs).
Qed.

(** The queries test first that the home slot is used. *)
Lemma search_home home p slots h fuel s0 :
  chained home slots -> (length slots <= fuel)%nat -> zget slots h = Some s0 ->
  (forall s, p s = true -> forall d, s_data s = Some d -> home d = h) ->
  (exists j s d, (if s_used s0 then walk fuel p slots h else Some None) = Some (Some j) /\
     zget slots j = Some s /\ s_data s = Some d /\ p s = true)
  \/ ((if s_used s0 then walk fuel p slots h else Some None) = Some None /\
      forall j s d, zget slots j = Some s -> s_data s = Some d -> p s = false).
Proof.
  intros Hch Hf Hs0 Hp. destruct (s_used s0) eqn:Hu; [apply (walk_home home); eauto|].
  right. split; [done|]. intros j s d Hs Hd. destruct (p s) eqn:Hps; [|done].
  destruct (entry_reached _ _ Hch _ _ _ Hs Hd) as (l & Hl & _). rewrite (Hp _ Hps _ Hd) in Hl.
  destruct (chain_head _ _ _ Hl) as [l' ->].
  destruct (chain_used _ _ _ _ Hl (list_elem_of_here _ _)) as (s' & ? & Hu'). congruence.
Qed.

(** ** Insertion *)

Context `{!LawfulSlot T D}.

Lemma chain_ext slots slots' i l : chain slots i l ->
  (forall j s, zget slots j = Some s -> s_used s = true -> exists s', zget slots' j = Some s' /\
     s_used s' = true /\ s_next s' = s_next s) -> chain slots' i l.
Proof.
  intros Hc Hx. induction Hc as [i s Hi Hu Hn|i s l Hi Hu Hn Hc IH];
    destruct (Hx i s Hi Hu) as (s' & Hi' & Hu' & Hn'); rewrite <- Hn' in *;
    [by eapply chain_last|by eapply chain_more].
Qed.

(** The data of a used slot changes, but not its home. *)
Lemma chained_update home slots i s s' d d' : chained home slots ->
  zget slots i = Some s -> s_data s = Some d -> s_data s' = Some d' -> s_next s' = s_next s ->
  home d' = home d -> chained home (<[Z.to_nat i := s']> slots).
Proof.
  intros Hch Hi Hd Hd' Hn Hh. pose proof (zget_in _ _ _ Hi) as Hr.
  assert (s_used s' = true) as Hu' by (apply used_data; eauto).
  assert (forall j l, chain slots j l -> chain (<[Z.to_nat i := s']> slots) j l) as Hext.
  { intros j l Hc. eapply chain_ext; [done|]. intros k sk Hk Huk. rewrite zget_insert by done.
    destruct (Z.eqb_spec k i) as [->|]; [exists s'|exists sk; done].
    split; [done|]. split; [done|]. congruence. }
  split.
  - intros j sj. rewrite zget_insert by done. case_match; [intros [= <-]; congruence|].
    by apply free_unlinked with (home := home).
  - intros j sj. rewrite zget_insert by done. destruct (Z.eqb_spec j i) as [->|]; intros Hj Huj.
    + destruct (used_chain _ _ Hch i s) as [l ?]; [done|by apply used_data; eauto|]. eauto.
    + destruct (used_chain _ _ Hch _ _ Hj Huj) as [l ?]. eauto.
  - intros j sj dj. rewrite zget_insert by done. destruct (Z.eqb_spec j i) as [->|]; intros Hj Hdj.
    + assert (dj = d') as -> by congruence. rewrite Hh.
      destruct (entry_reached _ _ Hch _ _ _ Hi Hd) as (l & ? & ?). eauto.
    + destruct (entry_reached _ _ Hch _ _ _ Hj Hdj) as (l & ? & ?). eauto.
Qed.

Lemma used_link n s : s_used (s_link n s) = s_used s.
Proof. unfold s_used. by rewrite data_link. Qed.

Lemma used_fill d s : s_used (s_fill d s) = true.
Proof. apply used_data. rewrite data_fill. eauto. Qed.

(** The home slot is free. *)
Lemma chained_fill home slots s d :
  chained home slots -> zget slots (home d) = Some s -> s_used s = false ->
  chained home (<[Z.to_nat (home d) := s_fill d s]> slots).
Proof.
  intros Hch Hs Hu. pose proof (zget_in _ _ _ Hs) as Hr.
  assert (forall i l, chain slots i l -> chain (<[Z.to_nat (home d) := s_fill d s]> slots) i l) as Hext.
  { intros i l Hc. eapply chain_ext; [done|]. intros j s' Hj Hu'. rewrite zget_insert by done.
    destruct (Z.eqb_spec j (home d)) as [->|]; [congruence|eauto]. }
  assert (chain (<[Z.to_nat (home d) := s_fill d s]> slots) (home d) [home d]) as Hnew.
  { apply chain_last with (s_fill d s); [by apply zget_insert_eq|apply used_fill|].
    rewrite next_fill. by eapply free_unlinked. }
  split.
  - intros i s'. rewrite zget_insert by done. case_match; intros [= <-] ||  intros Hi; intros Hf.
    + by rewrite used_fill in Hf.
    + by eapply free_unlinked.
  - intros i s'. rewrite zget_insert by done. destruct (Z.eqb_spec i (home d)) as [->|]; intros Hi Hf; [eauto|].
    destruct (used_chain _ _ Hch _ _ Hi Hf). eauto.
  - intros i s' d'. rewrite zget_insert by done. destruct (Z.eqb_spec i (home d)) as [->|]; intros Hi Hd.
    + injection Hi as <-. rewrite data_fill in Hd. injection Hd as <-. exists [home d].
      split; [done|apply list_elem_of_here].
    + destruct (entry_reached _ _ Hch _ _ _ Hi Hd) as (l & ? & ?). eauto.
Qed.

Section behind.
Context (slots : list T) (h e : Z) (sh es : T) (d : D).
Context (Hh : zget slots h = Some sh) (Hu : s_used sh = true).
Context (He : zget slots e = Some es) (Hf : s_used es = false).

Let slots' := <[Z.to_nat h := s_link (e + 1) sh]>
  (<[Z.to_nat e := s_fill d (s_link (s_next sh) es)]> slots).

Lemma link_behind_eq : link_behind slots h e d = Some slots'.
Proof using Hh Hu He Hf.
  assert (e <> h) by (intros ->; congruence). pose proof (zget_in _ _ _ He). pose proof (zget_in _ _ _ Hh).
  unfold link_behind. rewrite Hh, some_bind, He, some_bind, zset_eq, some_bind by done.
  rewrite zget_insert_ne, Hh, some_bind by lia. apply zset_eq. by rewrite zlen_insert.
Qed.

Lemma zget_behind i : zget slots' i =
  if i =? h then Some (s_link (e + 1) sh)
  else if i =? e then Some (s_fill d (s_link (s_next sh) es)) else zget slots i.
Proof using Hh Hu He Hf.
  assert (e <> h) by (intros ->; congruence). pose proof (zget_in _ _ _ He). pose proof (zget_in _ _ _ Hh).
  unfold slots'. rewrite !zget_insert; [done|done|by rewrite zlen_insert].
Qed.

Lemma chain_behind i l : chain slots i l ->
  exists l', chain slots' i l' /\ (forall j, j ∈ l -> j ∈ l') /\ (h ∈ l -> e ∈ l').
Proof using Hh Hu He Hf LawfulSlot0.
  assert (e <> h) as Hne by (intros ->; congruence).
  pose proof (zget_in _ _ _ He).
  assert (zget slots' h = Some (s_link (e + 1) sh)) as Hh' by (by rewrite zget_behind, Z.eqb_refl).
  assert (zget slots' e = Some (s_fill d (s_link (s_next sh) es))) as He'.
  { rewrite zget_behind, Z.eqb_refl. by rewrite (proj2 (Z.eqb_neq _ _) Hne). }
  assert (forall j s, zget slots j = Some s -> s_used s = true -> j <> h -> zget slots' j = Some s) as Hother.
  { intros j s Hj Hsu Hjh. rewrite zget_behind, (proj2 (Z.eqb_neq _ _) Hjh).
    destruct (Z.eqb_spec j e) as [->|]; [congruence|done]. }
  induction 1 as [i s Hi Hsu Hn|i s l Hi Hsu Hn Hc (l' & Hc' & Hsub & Hin)];
    (destruct (decide (i = h)) as [->|Hih]; [assert (s = sh) as -> by congruence|]).
  - exists [h; e]. split_and!.
    + apply chain_more with (s_link (e + 1) sh); [done|by rewrite used_link|rewrite next_link; lia|].
      rewrite next_link. replace (e + 1 - 1) with e by lia.
      eapply chain_last; [done|apply used_fill|]. by rewrite next_fill, next_link.
    + set_solver.
    + set_solver.
  - exists [i]. split_and!; [eapply chain_last; eauto|done|]. intros ->%list_elem_of_singleton. done.
  - exists (h :: e :: l'). split_and!.
    + apply chain_more with (s_link (e + 1) sh); [done|by rewrite used_link|rewrite next_link; lia|].
      rewrite next_link. replace (e + 1 - 1) with e by lia.
      eapply chain_more; [done|apply used_fill|by rewrite next_fill, next_link|].
      by rewrite next_fill, next_link.
    + set_solver.
    + set_solver.
  - exists (i :: l'). split_and!; [eapply chain_more; eauto|set_solver|set_solver].
Qed.

(** [h] is any slot of the chain of the new entry's home. *)
Lemma chained_behind home : chained home slots -> (exists l, chain slots (home d) l /\ h ∈ l) -> chained home slots'.
Proof using Hh Hu He Hf LawfulSlot0.
  intros Hch Hd. assert (e <> h) as Hne by (intros ->; congruence).
  assert (exists l, chain slots' (home d) l /\ e ∈ l) as (lh & Hlh & Helh).
  { destruct Hd as (l & Hl & Hin). destruct (chain_behind _ _ Hl) as (l' & ? & _ & He'). eauto. }
  destruct (chain_suffix _ _ _ _ Hlh Helh) as (le & Hle & _).
  split.
  - intros i s. rewrite zget_behind. repeat case_match; intros [= <-] || intros Hi; intros Hfr.
    + rewrite used_link in Hfr. congruence.
    + by rewrite used_fill in Hfr.
    + by eapply free_unlinked.
  - intros i s. rewrite zget_behind.
    destruct (Z.eqb_spec i h) as [->|].
    { intros _ _. destruct (used_chain _ _ Hch _ _ Hh Hu) as [l Hl]. destruct (chain_behind _ _ Hl) as (l' & ? & _). eauto. }
    destruct (Z.eqb_spec i e) as [->|]; [eauto|]. intros Hi Hsu. destruct (used_chain _ _ Hch _ _ Hi Hsu) as [l Hl].
    destruct (chain_behind _ _ Hl) as (l' & ? & _). eauto.
  - assert (forall i s d', zget slots i = Some s -> s_data s = Some d' ->
      exists l, chain slots' (home d') l /\ i ∈ l) as Hold.
    { intros i s d' Hi Hd'. destruct (entry_reached _ _ Hch _ _ _ Hi Hd') as (l & Hl & Hil).
      destruct (chain_behind _ _ Hl) as (l' & ? & Hsub & _). eauto. }
    intros i s d'. rewrite zget_behind. destruct (Z.eqb_spec i h) as [->|]; [|destruct (Z.eqb_spec i e) as [->|]].
    + intros [= <-]. rewrite data_link. by apply Hold.
    + intros [= <-]. rewrite data_fill. intros [= <-]. eauto.
    + apply Hold.
Qed.
End behind.

(** ** The entries of a table *)

Definition contents (slots : list T) : list D := omap s_data slots.

Lemma contents_cons s slots : contents (s :: slots) =
  match s_data s with Some d => d :: contents slots | None => contents slots end.
Proof. unfold contents. simpl. by destruct (s_data s). Qed.

Lemma contents_length slots : (length (contents slots) <= length slots)%nat.
Proof.
  induction slots as [|s slots IH]; [done|]. rewrite contents_cons. destruct (s_data s); simpl; lia.
Qed.

Lemma elem_of_contents slots d :
  d ∈ contents slots <-> exists i s, zget slots i = Some s /\ s_data s = Some d.
Proof.
  unfold contents. rewrite list_elem_of_omap. split.
  - intros (s & [n Hn]%list_elem_of_lookup & Hd). exists (Z.of_nat n), s. by rewrite zget_nat.
  - intros (i & s & Hi & Hd). exists s. split; [|done]. apply list_elem_of_lookup.
    exists (Z.to_nat i). rewrite <- Hi. symmetry. apply zget_nonneg. apply zget_in in Hi. lia.
Qed.

Lemma split_at slots i s : zget slots i = Some s ->
  exists l r, slots = l ++ s :: r /\ (forall s', <[Z.to_nat i := s']> slots = l ++ s' :: r).
Proof.
  intros Hi. pose proof (zget_in _ _ _ Hi) as Hr. rewrite zget_nonneg in Hi by lia.
  exists (take (Z.to_nat i) slots), (drop (S (Z.to_nat i)) slots). split.
  - by rewrite take_drop_middle.
  - intros s'. apply insert_take_drop. by eapply lookup_lt_Some.
Qed.

Lemma contents_split l s r : contents (l ++ s :: r) =
  contents l ++ match s_data s with Some d => d :: contents r | None => contents r end.
Proof. unfold contents. by rewrite omap_app. Qed.

Lemma contents_add slots i s s' d : zget slots i = Some s -> s_data s = None -> s_data s' = Some d ->
  contents (<[Z.to_nat i := s']> slots) ≡ₚ d :: contents slots.
Proof.
  intros Hi Hs Hs'. destruct (split_at _ _ _ Hi) as (l & r & -> & ->).
  rewrite !contents_split, Hs, Hs'. symmetry. apply Permutation_middle.
Qed.

Lemma contents_same slots i s s' : zget slots i = Some s -> s_data s' = s_data s ->
  contents (<[Z.to_nat i := s']> slots) = contents slots.
Proof.
  intros Hi Hs. destruct (split_at _ _ _ Hi) as (l & r & -> & ->).
  by rewrite !contents_split, Hs.
Qed.

Lemma contents_update slots i s d : zget slots i = Some s -> s_data s = Some d ->
  exists rest, contents slots ≡ₚ d :: rest /\
    forall s' d', s_data s' = Some d' -> contents (<[Z.to_nat i := s']> slots) ≡ₚ d' :: rest.
Proof.
  intros Hi Hs. destruct (split_at _ _ _ Hi) as (l & r & -> & Hu).
  exists (contents l ++ contents r). split.
  - rewrite contents_split, Hs. symmetry. apply Permutation_middle.
  - intros s' d' Hd'. rewrite Hu, contents_split, Hd'. symmetry. apply Permutation_middle.
Qed.

Lemma contents_behind slots h e sh es d :
  zget slots h = Some sh -> s_used sh = true -> zget slots e = Some es -> s_used es = false ->
  exists slots', link_behind slots h e d = Some slots' /\ contents slots' ≡ₚ d :: contents slots /\
    length slots' = length slots /\ zget slots' e = Some (s_fill d (s_link (s_next sh) es)) /\
    (forall i s, zget slots' i = Some s -> s_used s = false -> zget slots i = Some s) /\
    (forall home, chained home slots -> (exists l, chain slots (home d) l /\ h ∈ l) -> chained home slots').
Proof.
  intros Hh Hu He Hf. eexists. split; [by apply link_behind_eq with (sh := sh) (es := es)|].
  assert (e <> h) as Hne by (intros ->; congruence). pose proof (zget_in _ _ _ He). pose proof (zget_in _ _ _ Hh).
  split; [|split; [by rewrite !length_insert|split; [|split]]].
  - rewrite contents_same with (s := sh); [|by rewrite zget_insert_ne by lia|apply data_link].
    eapply contents_add; [done|by apply unused_data|apply data_fill].
  - rewrite zget_behind by done. rewrite Z.eqb_refl, (proj2 (Z.eqb_neq _ _) Hne). done.
  - intros i s. rewrite zget_behind by done. case_match; [|case_match; [|done]]; intros [= <-] Huf.
    + rewrite used_link in Huf. congruence.
    + by rewrite used_fill in Huf.
  - intros home Hch Hd. by eapply chained_behind.
Qed.

Lemma contents_after slots i j s d s' d' : zget slots i = Some s -> s_data s = Some d ->
  zget slots j = Some s' -> s_data s' = Some d' -> i < j ->
  exists l r, contents slots = l ++ d :: r /\ d' ∈ r.
Proof.
  intros Hi Hd Hj Hd' Hij. pose proof (zget_in _ _ _ Hi). pose proof (zget_in _ _ _ Hj).
  exists (contents (take (Z.to_nat i) slots)), (contents (drop (S (Z.to_nat i)) slots)). split.
  - rewrite zget_nonneg in Hi by lia. rewrite <- (take_drop_middle _ _ _ Hi) at 1.
    by rewrite contents_split, Hd.
  - apply elem_of_contents. exists (j - i - 1), s'. split; [|done].
    rewrite <- Hj, !zget_nonneg, lookup_drop by lia. f_equal. lia.
Qed.

Lemma contents_index {K} (key : D -> K) slots i j s d s' d' : NoDup (key <$> contents slots) ->
  zget slots i = Some s -> s_data s = Some d -> zget slots j = Some s' -> s_data s' = Some d' ->
  key d = key d' -> i = j.
Proof.
  intros Hnd Hi Hd Hj Hd' Hk.
  assert (forall i j s d s' d', zget slots i = Some s -> s_data s = Some d ->
    zget slots j = Some s' -> s_data s' = Some d' -> key d = key d' -> ~ i < j) as Hno.
  { clear -Hnd. intros i j s d s' d' Hi Hd Hj Hd' Hk Hij.
    destruct (contents_after _ _ _ _ _ _ _ Hi Hd Hj Hd' Hij) as (l & r & Hc & Hin).
    rewrite Hc, fmap_app, fmap_cons in Hnd. apply NoDup_app in Hnd as (_ & _ & Hnd).
    inversion Hnd as [|? ? Hnin _]; subst. apply Hnin. rewrite Hk. by apply list_elem_of_fmap_2. }
  pose proof (Hno i j s d s' d' Hi Hd Hj Hd' Hk). pose proof (Hno j i s' d' s d Hj Hd' Hi Hd (eq_sym Hk)). lia.
Qed.

(** ** Finding a free slot *)

Lemma free_exists slots : (length (contents slots) < length slots)%nat ->
  exists i s, zget slots i = Some s /\ s_used s = false.
Proof.
  intros Hlt. assert (exists s, s ∈ slots /\ s_data s = None) as (s & [n Hn]%list_elem_of_lookup & Hs).
  { induction slots as [|s slots IH]; simpl in Hlt; [lia|]. unfold contents in Hlt. simpl in Hlt.
    destruct (s_data s) as [d|] eqn:Hd.
    - simpl in Hlt. destruct IH as (s' & ? & ?); [unfold contents; lia|].
      exists s'. split; [by apply list_elem_of_further|done].
    - exists s. split; [apply list_elem_of_here|done]. }
  exists (Z.of_nat n), s. rewrite zget_nat. split; [done|by apply unused_data].
Qed.

Lemma find_free_unused fuel step slots : forall i e, find_free fuel step slots i = Some e ->
  exists s, zget slots e = Some s /\ s_used s = false.
Proof.
  induction fuel as [|fuel IH]; intros i e; cbn [find_free]; [done|].
  destruct (zget slots i) as [s|] eqn:Hs; [|done]. rewrite some_bind.
  destruct (s_used s) eqn:Hu; [apply IH|]. intros [= <-]. eauto.
Qed.

Lemma find_free_linear slots fuel : forall empty j sj,
  0 <= empty <= j -> (Z.to_nat (j - empty) < fuel)%nat ->
  zget slots j = Some sj -> s_used sj = false ->
  (forall i s, 0 <= i < empty -> zget slots i = Some s -> s_used s = true) ->
  exists e s, find_free fuel (fun e => e + 1) slots empty = Some e /\ empty <= e /\
    zget slots e = Some s /\ s_used s = false /\
    (forall i s, 0 <= i < e -> zget slots i = Some s -> s_used s = true).
Proof.
  induction fuel as [|fuel IH]; intros empty j sj Hr Hf Hj Hfj Hbelow; [lia|].
  pose proof (zget_in _ _ _ Hj). destruct (zget_is_Some slots empty) as [s Hs]; [lia|].
  cbn [find_free]. rewrite Hs, some_bind. destruct (s_used s) eqn:Hu.
  - assert (empty <> j) by (intros ->; congruence).
    destruct (IH (empty + 1) j sj) as (e & s' & ? & ? & ?); try done; try lia.
    { intros i si Hi Hgi. destruct (decide (i = empty)) as [->|]; [congruence|].
      apply (Hbelow i); [lia|done]. }
    exists e, s'. split; [done|]. split; [lia|done].
  - exists empty, s. split_and!; try done; lia.
Qed.

(** From [start], [k] steps on: the search passes used slots only. *)
Lemma find_free_circular slots (step : Z -> Z) fuel : forall i n,
  0 < zlen slots ->
  (forall i, 0 <= i < zlen slots -> step i = (i + 1) mod zlen slots) -> 0 <= i < zlen slots ->
  0 <= n -> (Z.to_nat n < fuel)%nat ->
  (exists s, zget slots ((i + n) mod zlen slots) = Some s /\ s_used s = false) ->
  exists e s, find_free fuel step slots i = Some e /\ zget slots e = Some s /\ s_used s = false.
Proof.
  induction fuel as [|fuel IH]; intros i n Hpos Hstep Hi Hn Hf Hfree; [lia|].
  destruct (zget_is_Some slots i Hi) as [s Hs]. cbn [find_free]. rewrite Hs, some_bind.
  destruct (s_used s) eqn:Hu; [|eauto].
  rewrite Hstep by done. apply (IH _ (n - 1)); try done.
  - apply Z.mod_pos_bound. lia.
  - destruct (decide (n = 0)) as [->|]; [|lia]. destruct Hfree as (s' & Hs' & Hu').
    rewrite Z.add_0_r, Z.mod_small in Hs' by lia. congruence.
  - destruct (decide (n = 0)) as [->|]; [|lia]. destruct Hfree as (s' & Hs' & Hu').
    rewrite Z.add_0_r, Z.mod_small in Hs' by lia. congruence.
  - destruct Hfree as (s' & Hs' & ?). exists s'. split; [|done].
    rewrite Zplus_mod_idemp_l. by replace (i + 1 + (n - 1)) with (i + n) by lia.
Qed.

Lemma find_free_from slots step fuel i :
  (forall i, 0 <= i < zlen slots -> step i = (i + 1) mod zlen slots) -> 0 <= i < zlen slots ->
  (length slots <= fuel)%nat -> (length (contents slots) < length slots)%nat ->
  exists e s, find_free fuel step slots i = Some e /\ zget slots e = Some s /\ s_used s = false.
Proof.
  intros Hstep Hi Hf Hc. destruct (free_exists _ Hc) as (j & sj & Hj & Huj).
  pose proof (zget_in _ _ _ Hj) as Hjr. unfold zlen in *.
  apply find_free_circular with ((j - i) mod Z.of_nat (length slots)); unfold zlen; try done; try lia.
  - apply Z.mod_pos_bound. lia.
  - pose proof (Z.mod_pos_bound (j - i) (Z.of_nat (length slots))). lia.
  - exists sj. split; [|done]. rewrite Zplus_mod_idemp_r.
    replace (i + (j - i)) with j by lia. by rewrite Z.mod_small by lia.
Qed.

(** ** Filling a table *)

(** The table holds the entries [ds]; no slot before [empty] is free. *)
Definition filled (home : D -> Z) (n : nat) (st : list T * Z) (ds : list D) : Prop :=
  chained home st.1 /\ contents st.1 ≡ₚ ds /\ length st.1 = n /\ 0 <= st.2 /\
  forall i s, 0 <= i < st.2 -> zget st.1 i = Some s -> s_used s = true.

Lemma contents_replicate n s : s_data s = None -> contents (replicate n s) = [].
Proof. intros Hs. unfold contents. induction n as [|n IH]; [done|]. simpl. by rewrite Hs. Qed.

Lemma chained_replicate home n s : s_data s = None -> s_next s = 0 -> chained home (replicate n s).
Proof.
  intros Hd Hn. assert (forall i s', zget (replicate n s) i = Some s' -> s' = s) as Hr.
  { intros i s' Hi. pose proof (zget_in _ _ _ Hi) as Hir. rewrite zlen_replicate in Hir.
    rewrite zget_replicate in Hi by lia. congruence. }
  split.
  - intros i s' ->%Hr _. done.
  - intros i s' ->%Hr Hu. apply used_data in Hu as [? ?]. congruence.
  - intros i s' d ->%Hr ?. congruence.
Qed.

Lemma filled_empty home n s : s_data s = None -> s_next s = 0 -> filled home n (replicate n s, 0) [].
Proof.
  intros Hd Hn. unfold filled. simpl. split; [by apply chained_replicate|].
  rewrite contents_replicate, length_replicate by done. split_and!; try done. lia.
Qed.

Lemma zget_used_in slots h d : s_data <$> zget slots h = Some (Some d) -> d ∈ contents slots.
Proof.
  intros (s & Hs & Hd)%fmap_Some. apply elem_of_contents. by exists h, s.
Qed.

Lemma put_entry_spec home n st ds d :
  filled home n st ds -> (length ds < n)%nat -> 0 <= home d < Z.of_nat n ->
  exists st', put_entry st (home d) d = Some st' /\ filled home n st' (d :: ds).
Proof.
  destruct st as [slots empty]. intros (Hch & Hc & Hn & He & Hb) Hlt Hr.
  cbn [fst snd] in *. unfold put_entry.
  destruct (zget_is_Some slots (home d)) as [s Hs]; [unfold zlen; lia|].
  rewrite Hs, some_bind. destruct (s_used s) eqn:Hu.
  - destruct (free_exists slots) as (j & sj & Hj & Huj); [rewrite Hc, Hn; done|].
    pose proof (zget_in _ _ _ Hj) as Hjr.
    destruct (decide (j < empty)) as [Hje|]; [rewrite (Hb j sj) in Huj by (done || lia); done|].
    destruct (find_free_linear slots (S (length slots)) empty j sj) as (e & es & -> & Hee & Hes & Hue & Hbe);
      try done; [lia|unfold zlen in Hjr; lia|].
    rewrite some_bind.
    destruct (contents_behind slots (home d) e s es d Hs Hu Hes Hue) as (slots' & -> & Hc' & Hl & Hge & Hfr & Hch').
    rewrite some_bind. eexists. split; [done|]. unfold filled. simpl. split_and!.
    + apply Hch'; [done|]. by eapply (home_chain home).
    + by rewrite Hc', Hc.
    + by rewrite Hl.
    + lia.
    + intros i si Hi Hgi. destruct (s_used si) eqn:Hui; [done|].
      by rewrite (Hbe i si) in Hui by (done || by apply Hfr).
  - rewrite zset_eq, some_bind by (by eapply zget_in). eexists. split; [done|]. unfold filled. simpl. split_and!.
    + by apply chained_fill.
    + rewrite contents_add by (done || apply data_fill || by apply unused_data). by rewrite Hc.
    + by rewrite length_insert.
    + done.
    + intros i si Hi. rewrite zget_insert by (by eapply zget_in). case_match; [intros [= <-]; apply used_fill|].
      by apply Hb.
Qed.
End chains.
