(* ===== verification/PbcMap.v ===== *)
(** The maps of pbc that are built once from a table: pbc-master/src/map.c.

    [map_si] maps names to numbers and [map_ip] numbers to pointers.  A pointer is
    an [option V], NULL being [None]; a name is the string it points
    to, which nobody changes while it is in a map.  Allocation always succeeds. *)

From S2P Require Import Prelude CString Chain.
From Stdlib Require Import Ascii.
From Stdlib Require String.
Local Open Scope Z_scope.
Local Open Scope word_scope.

(** The characters of a name as [size_t] values: [char] is signed. *)
Definition chars (name : string) : list Z := (fun c => u64 (i8 (byte_of c))) <$> String.list_ascii_of_string name.

Fixpoint hash_loop (fuel : nat) (cs : list Z) (step i h : Z) : option Z :=
  match fuel with
  | O => None
  | S fuel' =>
      if step <=? i then
        c ← zget cs (i - 1);
        hash_loop fuel' cs step (i - step) (h .^ u64 (u64 (h << 5) + (h >> 2) + c))
      else Some h
  end.

Definition calc_hash (name : string) : option Z :=
  let cs := chars name in
  let len := zlen cs in
  let step := (len >> 5) + 1 in
  hash_loop (S (length cs)) cs step len len.

Record map_kv (P : Type) := KV { kv_id : Z; kv_pointer : option P }.
Arguments KV {P}. Arguments kv_id {P}. Arguments kv_pointer {P}.

(** ** Names to numbers *)

Record si_slot := SI { si_key : option string; si_hash : Z; si_id : Z; si_next : Z }.
Record map_si := MapSI { si_size : Z; si_slots : list si_slot }.

Record si_entry := { se_key : string; se_hash : Z; se_id : Z }.

#[export] Instance si_Slot : Slot si_slot si_entry := {|
  s_data s := (fun key => {| se_key := key; se_hash := si_hash s; se_id := si_id s |}) <$> si_key s;
  s_next := si_next;
  s_link n s := SI (si_key s) (si_hash s) (si_id s) n;
  s_fill e s := SI (Some (se_key e)) (se_hash e) (se_id e) (si_next s)
|}.

(** One entry of the table; [empty] only moves forward. *)
Definition si_put (size : Z) (st : list si_slot * Z) (kv : map_kv string) : option (list si_slot * Z) :=
  name ← kv_pointer kv;
  hash_full ← calc_hash name;
  let hash := hash_full mod size in
  let entry := {| se_key := name; se_hash := hash_full; se_id := kv_id kv |} in
  put_entry st hash entry.

(** for (i=0;i<size;i++) *)
Fixpoint fill_table {St P} (put : St -> map_kv P -> option St) (st : St) (table : list (map_kv P)) : option St :=
  match table with
  | [] => Some st
  | kv :: table' => st ← put st kv; fill_table put st table'
  end.

(** [table] holds [size] entries. *)
Definition _pbcM_si_new (table : list (map_kv string)) : option map_si :=
  let size := zlen table in
  st ← fill_table (si_put size) (replicate (length table) (SI None 0 0 0), 0) table;
  Some (MapSI size st.1).

Definition si_match (hash_full : Z) (key : string) (s : si_slot) : bool :=
  (si_hash s =? hash_full) && bool_decide (si_key s = Some key).

(** [Some id] for a return value of 0 with [*result = id], [None] for 1. *)
Definition _pbcM_si_query (map : map_si) (key : string) : option (option Z) :=
  hash_full ← calc_hash key;
  _ ← c_assert (negb (si_size map =? 0));
  let hash := hash_full mod si_size map in
  slot ← zget (si_slots map) hash;
  match si_key slot with
  | None => Some None
  | Some _ =>
      found ← walk (S (length (si_slots map))) (si_match hash_full key) (si_slots map) hash;
      match found with
      | None => Some None
      | Some i => s ← zget (si_slots map) i; Some (Some (si_id s))
      end
  end.

(** ** Numbers to pointers *)

Section ip.
Context {V : Type}.

Record ip_slot := IP { ip_id : Z; ip_pointer : option V; ip_next : Z }.
Record map_ip := MapIP {
  array_size : Z; array : option (list (option V)); hash_size : Z; ip_slots : list ip_slot
}.

#[export] Instance ip_Slot : Slot ip_slot (Z * V) := {|
  s_data s := (fun p => (ip_id s, p)) <$> ip_pointer s;
  s_next := ip_next;
  s_link n s := IP (ip_id s) (ip_pointer s) n;
  s_fill e s := IP e.1 (Some e.2) (ip_next s)
|}.

Definition ip_put (size : Z) (st : list ip_slot * Z) (kv : map_kv V) : option (list ip_slot * Z) :=
  let '(slots, empty) := st in
  let hash := u32 (kv_id kv) mod size in
  slot ← zget slots hash;
  match ip_pointer slot with
  | None =>
      slots ← zset slots hash (IP (kv_id kv) (kv_pointer kv) (ip_next slot)); Some (slots, empty)
  | Some _ =>
      empty ← find_free (S (length slots)) (fun e => e + 1) slots empty;
      es ← zget slots empty;
      slots ← zset slots empty (IP (kv_id kv) (kv_pointer kv) (ip_next slot));
      slots ← zset slots hash (IP (ip_id slot) (ip_pointer slot) (empty + 1));
      Some (slots, empty)
  end.

Definition _pbcM_ip_new_hash (table : list (map_kv V)) : option map_ip :=
  let size := zlen table in
  st ← fill_table (ip_put size) (replicate (length table) (IP 0 None 0), 0) table;
  Some (MapIP 0 None size st.1).

(** The largest number, unless one is negative or too large for an array. *)
Fixpoint ip_max (size max : Z) (rest : list (map_kv V)) : option Z :=
  match rest with
  | [] => Some max
  | kv :: rest' =>
      if kv_id kv <? 0 then None
      else if max <? kv_id kv then
        if size * 2 <? kv_id kv then None else ip_max size (kv_id kv) rest'
      else ip_max size max rest'
  end.

Definition _pbcM_ip_new (table : list (map_kv V)) : option map_ip :=
  let size := zlen table in
  kv0 ← zget table 0;
  let max := kv_id kv0 in
  if (size * 2 <? max) || (max <? 0) then _pbcM_ip_new_hash table
  else
    match ip_max size max (tail table) with
    | None => _pbcM_ip_new_hash table
    | Some max =>
        a ← fill_table (fun a kv => zset a (kv_id kv) (kv_pointer kv))
              (replicate (Z.to_nat (max + 1)) None) table;
        Some (MapIP (max + 1) (Some a) size [])
    end.

Definition _pbcM_ip_query (map : option map_ip) (id : Z) : option (option V) :=
  match map with
  | None => Some None
  | Some map =>
      match array map with
      | Some a => if (0 <=? id) && (id <? i32 (array_size map)) then zget a id else Some None
      | None =>
          _ ← c_assert (negb (hash_size map =? 0));
          let hash := u32 id mod hash_size map in
          found ← walk (S (length (ip_slots map))) (fun s => ip_id s =? id) (ip_slots map) hash;
          match found with
          | None => Some None
          | Some i => s ← zget (ip_slots map) i; Some (ip_pointer s)
          end
      end
  end.

(** The entries of an array, with their indices. *)
Fixpoint array_entries (i : Z) (a : list (option V)) : list (map_kv V) :=
  match a with
  | [] => []
  | None :: a' => array_entries (i + 1) a'
  | Some p :: a' => KV i (Some p) :: array_entries (i + 1) a'
  end.

(** Writes [kvs] to [table] from index [n] on. *)
Fixpoint write_table (table : list (map_kv V)) (n : Z) (kvs : list (map_kv V)) : option (list (map_kv V)) :=
  match kvs with
  | [] => Some table
  | kv :: kvs' => table ← zset table n kv; write_table table (n + 1) kvs'
  end.

Definition _inject (table : list (map_kv V)) (off : Z) (map : map_ip) : option (list (map_kv V)) :=
  match array map with
  | Some a => write_table table off (array_entries 0 a)
  | None => write_table table off ((fun s => KV (ip_id s) (ip_pointer s)) <$> ip_slots map)
  end.

Definition _pbcM_ip_combine (a b : map_ip) : option map_ip :=
  let sz := i32 (hash_size a + hash_size b) in
  table ← _inject (replicate (Z.to_nat sz) (KV 0 None)) 0 a;
  table ← _inject table (hash_size a) b;
  _pbcM_ip_new table.
End ip.
Arguments ip_slot : clear implicits.
Arguments map_ip : clear implicits.

(** ** The hash of a name *)

Lemma hash_loop_total fuel cs step : 1 <= step -> forall i h,
  0 <= i <= zlen cs -> (Z.to_nat i < fuel)%nat -> exists h', hash_loop fuel cs step i h = Some h'.
Proof.
  intros Hs. induction fuel as [|fuel IH]; intros i h Hi Hf; [lia|]. cbn [hash_loop].
  destruct (Z.leb_spec step i); [|eauto].
  destruct (zget_is_Some cs (i - 1)) as [c ->]; [lia|]. rewrite some_bind. apply IH; lia.
Qed.

Lemma calc_hash_total name : exists h, calc_hash name = Some h.
Proof.
  unfold calc_hash. apply hash_loop_total.
  - rewrite Z.shiftr_div_pow2 by lia. pose proof (zlen_nonneg (chars name)).
    pose proof (Z.div_pos (zlen (chars name)) (2 ^ 5)). lia.
  - pose proof (zlen_nonneg (chars name)). lia.
  - unfold zlen. lia.
Qed.

(** ** Filling a table *)

Lemma fill_filled {T D P} `{!Slot T D, !LawfulSlot T D} (home : D -> Z) n
    (put : list T * Z -> map_kv P -> option (list T * Z)) table entries :
  Forall2 (fun kv d => (forall st, put st kv = put_entry st (home d) d) /\
    0 <= home d < Z.of_nat n) table entries ->
  forall st ds, filled home n st ds -> (length ds + length table <= n)%nat ->
  exists st', fill_table put st table = Some st' /\ filled home n st' (entries ++ ds).
Proof.
  induction 1 as [|kv d table entries [Hput Hr] _ IH]; intros st ds Hst Hl; [by exists st|].
  cbn [fill_table]. simpl in Hl. rewrite Hput.
  destruct (put_entry_spec home n st ds d) as (st1 & -> & Hst1); [done|lia|done|].
  rewrite some_bind. destruct (IH st1 (d :: ds) Hst1) as (st2 & -> & Hst2); [simpl; lia|].
  exists st2. split; [done|]. destruct Hst2 as (? & Hc & ?). split; [done|]. split; [|done].
  rewrite Hc. simpl. symmetry. apply Permutation_middle.
Qed.

Lemma assoc_some {K V} `{Countable K} (l : list (K * V)) k v :
  NoDup l.*1 -> (k, v) ∈ l -> (list_to_map l : gmap K V) !! k = Some v.
Proof. intros. by apply elem_of_list_to_map_1. Qed.

Lemma assoc_none {K V} `{Countable K} (l : list (K * V)) k :
  (forall v, (k, v) ∉ l) -> (list_to_map l : gmap K V) !! k = None.
Proof.
  intros Hno. apply not_elem_of_list_to_map_1. intros ([k' v] & Hk & Hin)%list_elem_of_fmap.
  simpl in Hk. subst. by apply (Hno v).
Qed.

Lemma zlen_pos {A} (l : list A) : l <> [] -> 0 < zlen l.
Proof. destruct l; [done|]. rewrite zlen_cons. pose proof (zlen_nonneg l). lia. Qed.

(** ** Names to numbers *)

#[export] Instance si_LawfulSlot : LawfulSlot si_slot si_entry.
Proof. split; [by intros ? []|done|by intros [] []|by intros [] []]. Qed.

Definition si_home (size : Z) (e : si_entry) : Z := se_hash e mod size.

Definition si_entry_of (kv : map_kv string) : si_entry :=
  let name := default EmptyString (kv_pointer kv) in
  {| se_key := name; se_hash := default 0 (calc_hash name); se_id := kv_id kv |}.

(** The table of an association list. *)
Definition si_table (l : list (string * Z)) : list (map_kv string) :=
  (fun x => KV x.2 (Some x.1)) <$> l.

Lemma si_new_filled (l : list (string * Z)) : l <> [] ->
  exists m, _pbcM_si_new (si_table l) = Some m /\ si_size m = zlen l /\
    length (si_slots m) = length l /\ chained (si_home (zlen l)) (si_slots m) /\
    contents (si_slots m) ≡ₚ (si_entry_of <$> si_table l).
Proof.
  intros Hl. unfold _pbcM_si_new.
  assert (zlen (si_table l) = zlen l) as Hlen by (unfold zlen, si_table; by rewrite length_fmap).
  pose proof (zlen_pos l Hl).
  rewrite Hlen. destruct (fill_filled (si_home (zlen l)) (length l) (si_put (zlen l)) (si_table l)
      (si_entry_of <$> si_table l))
    with (st := (replicate (length (si_table l)) (SI None 0 0 0), 0)) (ds := @nil si_entry)
    as (st & -> & Hch & Hc & Hn & _).
  - apply Forall2_fmap_r, Forall_Forall2_diag, Forall_forall. intros kv (x & -> & _)%list_elem_of_fmap. split.
    + intros st. unfold si_put, si_home, si_entry_of. cbn [kv_pointer kv_id from_option id se_hash].
      rewrite some_bind. destruct (calc_hash_total x.1) as [h ->]. done.
    + apply Z.mod_pos_bound. unfold zlen in *. lia.
  - unfold si_table. rewrite length_fmap. by apply filled_empty.
  - unfold si_table. rewrite length_fmap. simpl. lia.
  - rewrite some_bind. exists (MapSI (zlen l) st.1). rewrite app_nil_r in Hc. done.
Qed.

Lemma si_match_true h key s : si_match h key s = true <-> si_hash s = h /\ si_key s = Some key.
Proof. unfold si_match. by rewrite andb_true_iff, Z.eqb_eq, bool_decide_eq_true. Qed.

Lemma si_query_search slots h key hash (s : si_slot) :
  match si_key s with
  | None => Some None
  | Some _ =>
      found ← walk (S (length slots)) (si_match h key) slots hash;
      match found with
      | None => Some None
      | Some i => s ← zget slots i; Some (Some (si_id s))
      end
  end =
  (found ← (if s_used s then walk (S (length slots)) (si_match h key) slots hash else Some None);
   match found with
   | None => Some None
   | Some i => s ← zget slots i; Some (Some (si_id s))
   end).
Proof. destruct s as [[]]; done. Qed.

Lemma si_contents l m d : contents (si_slots m) ≡ₚ (si_entry_of <$> si_table l) ->
  d ∈ contents (si_slots m) <-> (se_key d, se_id d) ∈ l /\ calc_hash (se_key d) = Some (se_hash d).
Proof.
  intros ->. unfold si_table. rewrite !list_elem_of_fmap. split.
  - intros (kv & -> & (x & -> & Hx)%list_elem_of_fmap). unfold si_entry_of. simpl.
    destruct (calc_hash_total x.1) as [hx ->]. split; [by destruct x|done].
  - intros [Hx Hd]. exists (KV (se_id d) (Some (se_key d))). split.
    + unfold si_entry_of. simpl. rewrite Hd. by destruct d.
    + apply list_elem_of_fmap. by exists (se_key d, se_id d).
Qed.

(** A name map built from a table with distinct names, one entry at least,
    answers every query as the table does: the number of the name, or not found. *)
Theorem si_map_lookup (l : list (string * Z)) (key : string) :
  l <> [] -> NoDup l.*1 ->
  exists m, _pbcM_si_new (si_table l) = Some m /\
    _pbcM_si_query m key = Some ((list_to_map l : gmap string Z) !! key).
Proof.
  intros Hl Hnd. destruct (si_new_filled l Hl) as (m & Hnew & Hsize & Hlen & Hch & Hc).
  exists m. split; [done|]. unfold _pbcM_si_query.
  destruct (calc_hash_total key) as [h Hh]. rewrite Hh, some_bind, Hsize.
  pose proof (zlen_pos l Hl).
  rewrite (proj2 (Z.eqb_neq _ _)) by lia. cbn [negb c_assert]. rewrite some_bind.
  destruct (zget_is_Some (si_slots m) (h mod zlen l)) as [s Hs].
  { assert (zlen (si_slots m) = zlen l) as -> by (unfold zlen; lia). by apply Z.mod_pos_bound. }
  rewrite Hs, some_bind. rewrite si_query_search.
  destruct (search_home (si_home (zlen l)) (si_match h key) (si_slots m) (h mod zlen l)
    (S (length (si_slots m))) s) as [(j & sj & d & -> & Hj & Hd & Hp)|[-> Hno]]; try done; [lia| | |].
  - intros s' [Hh' _]%si_match_true d Hd. simpl in Hd. apply fmap_Some in Hd as (k & _ & ->).
    unfold si_home. simpl. by rewrite Hh'.
  - rewrite some_bind, Hj, some_bind. f_equal. symmetry. apply assoc_some; [done|].
    assert (d ∈ contents (si_slots m)) as Hdin by (apply elem_of_contents; eauto).
    apply (si_contents l m _ Hc) in Hdin as [Hx _]. simpl in Hd. apply fmap_Some in Hd as (k & Hk & ->).
    apply si_match_true in Hp as [_ Hk']. simpl in *. by assert (k = key) as -> by congruence.
  - rewrite some_bind. f_equal. symmetry. apply assoc_none. intros v Hv.
    assert ({| se_key := key; se_hash := h; se_id := v |} ∈ contents (si_slots m)) as Hd
      by by apply (si_contents l m _ Hc).
    apply elem_of_contents in Hd as (j & sj & Hj & Hdj). specialize (Hno j sj _ Hj Hdj).
    simpl in Hdj. apply fmap_Some in Hdj as (k & Hk & [= Hkk Hhh _]).
    apply not_true_iff_false in Hno. apply Hno, si_match_true. split; congruence.
Qed.

Lemma si_map_lookup_witness : exists m, _pbcM_si_new (si_table [("A"%string, 3); ("B"%string, 7)]) = Some m /\
  _pbcM_si_query m "B" = Some (Some 7).
Proof. apply (si_map_lookup [("A"%string, 3); ("B"%string, 7)] "B"); [done|by_eval]. Defined.

(** ** Numbers to pointers *)

Section ip_proofs.
Context {V : Type}.
Implicit Types (l : list (Z * V)) (m : map_ip V).

#[export] Instance ip_LawfulSlot : LawfulSlot (ip_slot V) (Z * V).
Proof. split; [by intros ? []|done|by intros [] []|by intros [] []]. Qed.

Definition ip_home (size : Z) (e : Z * V) : Z := u32 e.1 mod size.

Definition ip_table l : list (map_kv V) := (fun x => KV x.1 (Some x.2)) <$> l.

Definition is_i32 (z : Z) : Prop := - 2 ^ 31 <= z < 2 ^ 31.

(** The map holds the pairs of [l], in either form. *)
Definition ip_rep m l : Prop :=
  hash_size m = zlen l /\
  match array m with
  | Some a =>
      array_size m = zlen a /\ zlen a < 2 ^ 31 /\
      forall id, 0 <= id < zlen a -> zget a id = Some ((list_to_map l : gmap Z V) !! id)
  | None =>
      length (ip_slots m) = length l /\ chained (ip_home (zlen l)) (ip_slots m) /\
      contents (ip_slots m) ≡ₚ l
  end /\
  match array m with Some a => Forall (fun x => 0 <= x.1 < zlen a) l | None => True end.

Lemma zlen_ip_table l : zlen (ip_table l) = zlen l.
Proof. unfold zlen, ip_table. by rewrite length_fmap. Qed.

Lemma ip_put_entry size st id (p : V) :
  ip_put size st (KV id (Some p)) = put_entry st (ip_home size (id, p)) (id, p).
Proof.
  destruct st as [slots empty]. unfold ip_put, put_entry, ip_home. cbn [kv_id kv_pointer fst snd].
  destruct (zget slots (u32 id mod size)) as [s|] eqn:Hs; [|done]. rewrite !some_bind.
  destruct (ip_pointer s) as [q|] eqn:Hq.
  2: { assert (s_used s = false) as -> by (apply unused_data; simpl; by rewrite Hq). done. }
  assert (s_used s = true) as -> by (apply used_data; simpl; rewrite Hq; eauto).
  destruct (find_free _ _ slots empty) as [e|] eqn:Hf; [|done]. rewrite !some_bind.
  unfold link_behind. rewrite Hs, some_bind. destruct (zget slots e) as [es|] eqn:He; [|done].
  rewrite !some_bind. pose proof (zget_in _ _ _ He) as Her. pose proof (zget_in _ _ _ Hs) as Hsr.
  rewrite !zset_eq, !some_bind by done.
  destruct (find_free_unused _ _ _ _ _ Hf) as (es' & Hes' & Hue).
  assert (e <> u32 id mod size) as Hne.
  { intros ->. assert (es' = s) as -> by congruence. apply unused_data in Hue. simpl in Hue. by rewrite Hq in Hue. }
  rewrite zget_insert_ne, Hs, some_bind by lia. rewrite !zset_eq by (by rewrite zlen_insert). by rewrite <- Hq.
Qed.

Lemma ip_new_hash_rep l : l <> [] -> exists m, _pbcM_ip_new_hash (ip_table l) = Some m /\ ip_rep m l.
Proof.
  intros Hl. unfold _pbcM_ip_new_hash. rewrite zlen_ip_table. pose proof (zlen_pos l Hl).
  destruct (fill_filled (ip_home (zlen l)) (length l) (ip_put (zlen l)) (ip_table l) l)
    with (st := (replicate (length (ip_table l)) (IP 0 (@None V) 0), 0)) (ds := @nil (Z * V))
    as (st & -> & Hch & Hc & Hn & _).
  - apply Forall2_fmap_l, Forall_Forall2_diag, Forall_forall. intros [id p] _. split.
    + intros st. apply ip_put_entry.
    + apply Z.mod_pos_bound. done.
  - unfold ip_table. rewrite length_fmap. by apply filled_empty.
  - unfold ip_table. rewrite length_fmap. simpl. lia.
  - rewrite some_bind. exists (MapIP 0 None (zlen l) st.1). rewrite app_nil_r in Hc. done.
Qed.

Lemma ip_max_spec size max l : forall max', ip_max size max (ip_table l) = Some max' ->
  max <= max' /\ (max <= size * 2 -> max' <= size * 2) /\ Forall (fun x => 0 <= x.1 <= max') l.
Proof.
  revert max. induction l as [|[id p] l IH]; intros max max'.
  { cbn. intros [= <-]. split_and!; [lia|lia|constructor]. }
  change (ip_table ((id, p) :: l)) with (KV id (Some p) :: ip_table l). cbn [ip_max kv_id].
  destruct (Z.ltb_spec id 0); [done|].
  destruct (Z.ltb_spec max id).
  - destruct (Z.ltb_spec (size * 2) id); [done|]. intros (? & ? & ?)%IH.
    split_and!; [lia|lia|]. constructor; [simpl; lia|done].
  - intros (? & ? & ?)%IH. split_and!; [done|done|]. constructor; [simpl; lia|done].
Qed.

Lemma fill_array l : forall a, NoDup l.*1 -> Forall (fun x => 0 <= x.1 < zlen a) l ->
  exists a', fill_table (fun a kv => zset a (kv_id kv) (kv_pointer kv)) a (ip_table l) = Some a' /\
    zlen a' = zlen a /\ forall id, zget a' id =
      match (list_to_map l : gmap Z V) !! id with Some p => Some (Some p) | None => zget a id end.
Proof.
  induction l as [|[id0 p0] l IH]; intros a Hnd Hr; [by exists a|].
  inversion Hnd as [|? ? Hnin Hnd']; subst. inversion Hr as [|? ? Hr0 Hr']; subst. simpl in Hr0.
  change (ip_table ((id0, p0) :: l)) with (KV id0 (Some p0) :: ip_table l).
  cbn [fill_table kv_id kv_pointer]. rewrite zset_eq, some_bind by done.
  destruct (IH (<[Z.to_nat id0 := Some p0]> a)) as (a' & -> & Hlen & Hget); [done|by rewrite zlen_insert|].
  exists a'. split; [done|]. rewrite zlen_insert in Hlen. split; [done|]. intros id. rewrite Hget.
  change (list_to_map ((id0, p0) :: l) : gmap Z V) with (<[id0 := p0]> (list_to_map l) : gmap Z V).
  destruct (decide (id = id0)) as [->|Hne].
  - rewrite lookup_insert_eq. rewrite not_elem_of_list_to_map_1 by done. by apply zget_insert_eq.
  - rewrite lookup_insert_ne by done. case_match; [done|]. apply zget_insert_ne; lia.
Qed.

Lemma ip_new_rep l : l <> [] -> NoDup l.*1 -> zlen l < 2 ^ 29 ->
  exists m, _pbcM_ip_new (ip_table l) = Some m /\ ip_rep m l.
Proof.
  intros Hl Hnd Hlen. destruct l as [|[id0 p0] l]; [done|]. set (L := (id0, p0) :: l) in *.
  unfold _pbcM_ip_new. rewrite zlen_ip_table. change (zget (ip_table L) 0) with (Some (KV id0 (Some p0))).
  rewrite some_bind. cbn [kv_id].
  destruct (Z.ltb_spec (zlen L * 2) id0); [by apply ip_new_hash_rep|].
  destruct (Z.ltb_spec id0 0); [by apply ip_new_hash_rep|]. cbn [orb].
  change (tail (ip_table L)) with (ip_table l).
  destruct (ip_max (zlen L) id0 (ip_table l)) as [max|] eqn:Hmax; [|by apply ip_new_hash_rep].
  apply ip_max_spec in Hmax as (Hle & Hlt & Hall).
  assert (zlen (replicate (Z.to_nat (max + 1)) (@None V)) = max + 1) as Hrl by (rewrite zlen_replicate; lia).
  assert (Forall (fun x => 0 <= x.1 < max + 1) L) as HL.
  { constructor; [simpl; lia|]. eapply Forall_impl; [done|]. intros ?. simpl. lia. }
  destruct (fill_array L (replicate (Z.to_nat (max + 1)) None)) as (a & -> & Hla & Hget); [done|by rewrite Hrl|].
  rewrite some_bind. eexists. split; [done|]. unfold ip_rep. cbn [hash_size array array_size].
  rewrite Hla, Hrl. split_and!; [done|done|lia| |done].
  intros id Hid. rewrite Hget. case_match; [done|]. apply zget_replicate. lia.
Qed.

Lemma ip_query_rep m l id : ip_rep m l -> l <> [] -> NoDup l.*1 ->
  _pbcM_ip_query (Some m) id = Some ((list_to_map l : gmap Z V) !! id).
Proof.
  intros (Hsz & Hrep & Hr) Hl Hnd. unfold _pbcM_ip_query. pose proof (zlen_pos l Hl).
  destruct (array m) as [a|].
  - destruct Hrep as (Ha & Ha31 & Hget). rewrite Ha. unfold i32.
    rewrite sgn_small by (pose proof (zlen_nonneg a); lia).
    destruct (Z.leb_spec 0 id); [destruct (Z.ltb_spec id (zlen a))|]; cbn [andb]; [by apply Hget| |];
      f_equal; symmetry; apply assoc_none; intros v Hin;
      rewrite Forall_forall in Hr; specialize (Hr _ Hin); simpl in Hr; lia.
  - destruct Hrep as (Hlen & Hch & Hc). rewrite Hsz, (proj2 (Z.eqb_neq _ _)) by lia.
    cbn [negb c_assert]. rewrite some_bind.
    assert (zlen (ip_slots m) = zlen l) as Hlz by (unfold zlen; lia).
    destruct (zget_is_Some (ip_slots m) (u32 id mod zlen l)) as [s0 Hs0].
    { rewrite Hlz. by apply Z.mod_pos_bound. }
    assert (forall v, (id, v) ∈ l <-> exists j s, zget (ip_slots m) j = Some s /\ ip_id s = id /\ ip_pointer s = Some v) as Hin.
    { intros v. rewrite <- Hc, elem_of_contents. simpl. split.
      - intros (j & s & Hj & Hd). apply fmap_Some in Hd as (p & Hp & [= -> ->]). eauto.
      - intros (j & s & Hj & <- & Hp). exists j, s. rewrite Hp. done. }
    destruct (search_home (ip_home (zlen l)) (fun s => ip_id s =? id) (ip_slots m) (u32 id mod zlen l)
      (S (length (ip_slots m))) s0) as [(j & s & d & Hw & Hj & Hd & Hp)|[Hw Hno]]; try done; [lia| | |].
    + intros s Hp%Z.eqb_eq d Hd. simpl in Hd. apply fmap_Some in Hd as (p & _ & ->).
      unfold ip_home. simpl. by rewrite Hp.
    + destruct (s_used s0) eqn:Hu; [|done]. rewrite Hw, some_bind, Hj, some_bind. f_equal. symmetry.
      simpl in Hd. apply fmap_Some in Hd as (p & Hpp & ->). rewrite Hpp.
      apply assoc_some; [done|]. apply Hin. exists j, s. by apply Z.eqb_eq in Hp.
    + assert ((list_to_map l : gmap Z V) !! id = None) as ->.
      { apply assoc_none. intros v (j & s & Hj & Hid & Hp)%Hin.
        assert (s_data s = Some (id, v)) as Hd by (simpl; by rewrite Hp, Hid).
        pose proof (Hno j s _ Hj Hd) as Hf. apply Z.eqb_neq in Hf. done. }
      destruct (s_used s0) eqn:Hu; [by rewrite Hw|].
      cbn [walk]. rewrite Hs0, some_bind. pose proof (free_unlinked _ _ Hch _ _ Hs0 Hu) as Hn.
      apply unused_data in Hu. simpl in Hu. 
      destruct (ip_id s0 =? id).
      * rewrite some_bind, Hs0, some_bind. by destruct (ip_pointer s0).
      * by rewrite Hn.
Qed.

(** ** Joining two maps *)

Fixpoint array_pairs (i : Z) (a : list (option V)) : list (Z * V) :=
  match a with
  | [] => []
  | None :: a' => array_pairs (i + 1) a'
  | Some p :: a' => (i, p) :: array_pairs (i + 1) a'
  end.

Lemma array_entries_pairs a : forall i, array_entries i a = ip_table (array_pairs i a).
Proof. induction a as [|[p|] a IH]; intros i; simpl; [done| |]; by rewrite IH. Qed.

Lemma elem_of_array_pairs a : forall i id p,
  (id, p) ∈ array_pairs i a <-> i <= id /\ zget a (id - i) = Some (Some p).
Proof.
  induction a as [|o a IH]; intros i id p; cbn [array_pairs].
  - split; [by intros ?%not_elem_of_nil|]. intros [? Hg%zget_in]. unfold zlen in Hg; simpl in Hg; lia.
  - assert ((i + 1 <= id /\ zget a (id - (i + 1)) = Some (Some p)) <->
      (i < id /\ zget (o :: a) (id - i) = Some (Some p))) as Hstep.
    { split; intros [? Hg]; (split; [lia|]); revert Hg; rewrite !zget_nonneg by lia;
        replace (Z.to_nat (id - i)) with (S (Z.to_nat (id - (i + 1)))) by lia; done. }
    destruct o as [q|]; [rewrite elem_of_cons|]; rewrite IH, Hstep.
    + split.
      * intros [[= -> ->]|[? ?]]; [split; [lia|by rewrite Z.sub_diag]|split; [lia|done]].
      * intros [? Hg]. destruct (decide (id = i)) as [->|]; [|right; split; [lia|done]].
        rewrite Z.sub_diag in Hg. injection Hg as ->. by left.
    + split; [intros [? ?]; split; [lia|done]|]. intros [? Hg]. split; [|done].
      destruct (decide (id = i)) as [->|]; [|lia]. rewrite Z.sub_diag in Hg. done.
Qed.

Lemma array_pairs_NoDup a : forall i, NoDup (array_pairs i a).
Proof.
  induction a as [|[p|] a IH]; intros i; cbn [array_pairs]; [constructor| |done].
  constructor; [|done]. rewrite elem_of_array_pairs. lia.
Qed.

Lemma write_table_spec kvs : forall (table : list (map_kv V)) n, 0 <= n -> n + zlen kvs <= zlen table ->
  write_table table n kvs = Some (splice table n kvs).
Proof.
  induction kvs as [|kv kvs IH]; intros table n Hn Hle; cbn [write_table]; [by rewrite splice_nil|].
  rewrite zlen_cons in *. pose proof (zlen_nonneg kvs). rewrite zset_eq, some_bind by lia.
  rewrite IH by (rewrite ?zlen_insert; lia). by rewrite splice_cons by lia.
Qed.

Lemma contents_full (slots : list (ip_slot V)) : length (contents slots) = length slots ->
  (fun s => KV (ip_id s) (ip_pointer s)) <$> slots = ip_table (contents slots).
Proof.
  induction slots as [|s slots IH]; [done|]. pose proof (contents_length slots) as Hle.
  rewrite contents_cons. destruct (s_data s) as [d|] eqn:Hd; cbn [length]; intros Hl; [|lia].
  rewrite fmap_cons, IH by lia. unfold ip_table. rewrite fmap_cons. f_equal.
  simpl in Hd. apply fmap_Some in Hd as (p & -> & ->). done.
Qed.

Lemma inject_rep m l table off : ip_rep m l -> NoDup l.*1 -> 0 <= off -> off + zlen l <= zlen table ->
  exists l', l' ≡ₚ l /\ _inject table off m =
    Some (take (Z.to_nat off) table ++ ip_table l' ++ drop (Z.to_nat (off + zlen l)) table).
Proof.
  intros (Hsz & Hrep & Hr) Hnd Hoff Hle. unfold _inject.
  assert (exists l', l' ≡ₚ l /\ match array m with
    | Some a => array_entries 0 a
    | None => (fun s => KV (ip_id s) (ip_pointer s)) <$> ip_slots m end = ip_table l') as (l' & Hp & Hkv).
  { destruct (array m) as [a|].
    - destruct Hrep as (_ & _ & Hget). exists (array_pairs 0 a). rewrite array_entries_pairs. split; [|done].
      apply NoDup_Permutation; [apply array_pairs_NoDup|by eapply NoDup_fmap_1|].
      intros [id p]. rewrite elem_of_array_pairs, Z.sub_0_r. rewrite Forall_forall in Hr. split.
      + intros [_ Hg]. pose proof (zget_in _ _ _ Hg) as Hi. rewrite Hget in Hg by done.
        apply elem_of_list_to_map_2. congruence.
      + intros Hin. pose proof (Hr _ Hin) as Hi. simpl in Hi. split; [lia|]. rewrite Hget by done.
        f_equal. by apply assoc_some.
    - destruct Hrep as (Hlen & _ & Hc). exists (contents (ip_slots m)). split; [done|].
      apply contents_full. by rewrite Hc. }
  exists l'. split; [done|]. pose proof (Permutation_length Hp) as Hl.
  assert (zlen (ip_table l') = zlen l) as Hz by (rewrite zlen_ip_table; unfold zlen; lia).
  assert (Z.to_nat off + length (ip_table l') = Z.to_nat (off + zlen l))%nat as Hdr by (unfold zlen in *; lia).
  destruct (array m); rewrite Hkv, write_table_spec by (rewrite ?Hz; lia); unfold splice; by rewrite Hdr.
Qed.

Lemma ip_table_app l l' : ip_table (l ++ l') = ip_table l ++ ip_table l'.
Proof. apply fmap_app. Qed.

Lemma ip_combine_table m1 m2 l1 l2 :
  ip_rep m1 l1 -> ip_rep m2 l2 -> NoDup l1.*1 -> NoDup l2.*1 -> zlen l1 + zlen l2 < 2 ^ 29 ->
  exists l, l ≡ₚ l1 ++ l2 /\ _pbcM_ip_combine m1 m2 = _pbcM_ip_new (ip_table l).
Proof.
  intros H1 H2 Hnd1 Hnd2 Hlen. unfold _pbcM_ip_combine.
  pose proof (proj1 H1) as Hs1. pose proof (proj1 H2) as Hs2. rewrite Hs1, Hs2.
  pose proof (zlen_nonneg l1). pose proof (zlen_nonneg l2). unfold i32. rewrite sgn_small by lia.
  destruct (inject_rep m1 l1 (replicate (Z.to_nat (zlen l1 + zlen l2)) (KV 0 None)) 0)
    as (l1' & Hp1 & ->); [done|done|lia|rewrite zlen_replicate; lia|]. rewrite some_bind.
  assert (zlen (ip_table l1') = zlen l1) as Hz1
    by (rewrite zlen_ip_table; unfold zlen; apply Permutation_length in Hp1; lia).
  rewrite drop_replicate. change (take (Z.to_nat 0) _) with (@nil (map_kv V)). cbn [app].
  destruct (inject_rep m2 l2 (ip_table l1' ++ replicate (Z.to_nat (zlen l1 + zlen l2) - Z.to_nat (0 + zlen l1)) (KV 0 None)) (zlen l1))
    as (l2' & Hp2 & ->); [done|done|lia|rewrite zlen_app, zlen_replicate, Hz1; lia|]. rewrite some_bind.
  exists (l1' ++ l2'). split; [by rewrite Hp1, Hp2|]. f_equal.
  rewrite ip_table_app.
  rewrite take_app_le, take_ge by (unfold zlen in *; lia).
  rewrite drop_ge by (rewrite length_app, length_replicate; unfold zlen in *; lia).
  by rewrite app_nil_r.
Qed.

(** A number map built from a table with distinct numbers, one entry at
    least, answers every query as the table does, be it an array or a hash. *)
Theorem ip_map_lookup l id :
  l <> [] -> NoDup l.*1 -> zlen l < 2 ^ 29 ->
  exists m, _pbcM_ip_new (ip_table l) = Some m /\
    _pbcM_ip_query (Some m) id = Some ((list_to_map l : gmap Z V) !! id).
Proof.
  intros Hl Hnd Hlen. destruct (ip_new_rep l Hl Hnd Hlen) as (m & ? & ?).
  exists m. split; [done|]. by apply ip_query_rep.
Qed.

(** Joining two maps with different numbers gives a map that answers what one
    of them does. *)
Theorem ip_combine_union l1 l2 id :
  l1 <> [] -> l2 <> [] -> NoDup (l1 ++ l2).*1 -> zlen l1 + zlen l2 < 2 ^ 29 ->
  exists m1 m2 m, _pbcM_ip_new (ip_table l1) = Some m1 /\ _pbcM_ip_new (ip_table l2) = Some m2 /\
    _pbcM_ip_combine m1 m2 = Some m /\
    _pbcM_ip_query (Some m) id = Some ((list_to_map l1 ∪ list_to_map l2 : gmap Z V) !! id).
Proof.
  intros Hl1 Hl2 Hnd Hlen. pose proof (zlen_nonneg l1). pose proof (zlen_nonneg l2).
  rewrite <- list_to_map_app. assert (NoDup l1.*1 /\ NoDup l2.*1) as [Hn1 Hn2].
  { rewrite fmap_app in Hnd. by apply NoDup_app in Hnd as (? & _ & ?). }
  destruct (ip_new_rep l1) as (m1 & ? & Hm1); [done|done|lia|].
  destruct (ip_new_rep l2) as (m2 & ? & Hm2); [done|done|lia|].
  destruct (ip_combine_table m1 m2 l1 l2) as (l & Hp & Hcomb); [done..|].
  assert (NoDup l.*1) as Hnl by (by rewrite Hp).
  assert (l <> []) as Hne by (intros ->; apply Permutation_nil_l in Hp; by destruct l1).
  destruct (ip_new_rep l) as (m & Hnew & Hm); [done|done| |].
  { apply Permutation_length in Hp. rewrite length_app in Hp. unfold zlen in *. lia. }
  exists m1, m2, m. split_and!; [done|done|by rewrite Hcomb|]. rewrite ip_query_rep with (l := l) by done.
  f_equal. f_equal. by apply list_to_map_proper.
Qed.
End ip_proofs.

Definition ip_example : list (Z * Z) := [(3, 30); (1, 10)].

Lemma ip_map_lookup_witness : exists m, _pbcM_ip_new (ip_table ip_example) = Some m /\
  _pbcM_ip_query (Some m) 3 = Some (Some 30).
Proof. apply (ip_map_lookup ip_example 3); [done|by_eval|by_eval]. Defined.

Lemma ip_combine_union_witness : exists m1 m2 m,
  _pbcM_ip_new (ip_table ip_example) = Some m1 /\ _pbcM_ip_new (ip_table [(100, 7)]) = Some m2 /\
  _pbcM_ip_combine m1 m2 = Some m /\ _pbcM_ip_query (Some m) 100 = Some (Some 7).
Proof. apply (ip_combine_union ip_example [(100, 7)] 100); [done|done|by_eval|by_eval]. Defined.

(** A message without fields makes [_pbcP_init_message] build a map from an empty
    table, whose first entry is read all the same. *)
Lemma ip_new_reads_empty_table : _pbcM_ip_new (V := Z) [] = None.
Proof. done. Qed.

(** Two maps of arrays with a number in common leave a zeroed table entry behind,
    which clears what number 0 had. *)
Lemma ip_new_null_entry : (m ← _pbcM_ip_new (V := Z) [KV 0 (Some 5); KV 1 (Some 6); KV 0 None];
  _pbcM_ip_query (Some m) 0) = Some None.
Proof. vm_compute. reflexivity. Qed.
