(* ===== verification/PbcSp.v ===== *)
(** The growing map of pbc, names to pointers: pbc-master/src/map.c.

    The slots are a power of two; a full table is rehashed into one of twice the
    size.  An iterator is the key it has reached. *)

From S2P Require Import Prelude CString Chain PbcMap.
Local Open Scope Z_scope.
Local Open Scope word_scope.

Section sp.
Context {V : Type}.

Record sp_slot := SP { sp_key : option string; sp_hash : Z; sp_pointer : option V; sp_next : Z }.
(** [heap] tells whether the slots come from a heap that is freed as a whole. *)
Record map_sp := MapSP { cap : Z; size : Z; heap : bool; slot : list sp_slot }.

Record sp_entry := SE { pe_key : string; pe_hash : Z; pe_pointer : option V }.

#[export] Instance sp_Slot : Slot sp_slot sp_entry := {|
  s_data s := (fun key => SE key (sp_hash s) (sp_pointer s)) <$> sp_key s;
  s_next := sp_next;
  s_link n s := SP (sp_key s) (sp_hash s) (sp_pointer s) n;
  s_fill e s := SP (Some (pe_key e)) (pe_hash e) (pe_pointer e) (sp_next s)
|}.

Definition empty_sp : sp_slot := SP None 0 None 0.

(** while (cap < max) cap *= 2; *)
Fixpoint cap_loop (fuel : nat) (cap max : Z) : option Z :=
  match fuel with
  | O => None
  | S fuel' => if cap <? max then cap_loop fuel' (cap * 2) max else Some cap
  end.

Definition _pbcM_sp_new (max : Z) (h : bool) : option map_sp :=
  cap ← cap_loop 32 1 max;
  Some (MapSP cap 0 h (replicate (Z.to_nat cap) empty_sp)).

Definition sp_step (cap e : Z) : Z := i32 ((e + 1) .& (cap - 1)).

(** The part of [_pbcM_sp_insert_hash] and of [_pbcM_sp_query_insert_hash] that takes the
    first free slot from [hash + 1] on and links it behind the used slot [slot_]: the first function links
    it behind the slot [hash], the second one behind the last slot of the chain, at which its loop stopped.
    [mk] gives the entry, the slot it goes to known.  Also gives the index of that slot. *)
Definition sp_collide (map : map_sp) (hash slot_ : Z) (mk : sp_slot -> sp_entry) : option (map_sp * Z) :=
  empty ← find_free (S (length (slot map))) (sp_step (cap map)) (slot map) (sp_step (cap map) hash);
  empty_slot ← zget (slot map) empty;
  slots ← link_behind (slot map) slot_ empty (mk empty_slot);
  Some (MapSP (cap map) (size map + 1) (heap map) slots, empty).

Definition sp_insert_free (map : map_sp) (key : string) (hash_full : Z) (value : option V) : option map_sp :=
  let hash := hash_full .& (cap map - 1) in
  s ← zget (slot map) hash;
  match sp_key s with
  | None =>
      slots ← zset (slot map) hash (SP (Some key) hash_full value (sp_next s));
      Some (MapSP (cap map) (size map + 1) (heap map) slots)
  | Some _ => r ← sp_collide map hash hash (fun _ => SE key hash_full value); Some r.1
  end.

(** for (i=0;i<size;i++) [insert](map, old_slot[i].key, .hash, .pointer) *)
Fixpoint reinsert (insert : map_sp -> string -> Z -> option V -> option map_sp)
    (map : map_sp) (old : list sp_slot) : option map_sp :=
  match old with
  | [] => Some map
  | s :: old' =>
      key ← sp_key s;
      map ← insert map key (sp_hash s) (sp_pointer s);
      reinsert insert map old'
  end.

Definition rehash_with (insert : map_sp -> string -> Z -> option V -> option map_sp)
    (map : map_sp) : option map_sp :=
  let cap := cap map * 2 in
  _ ← c_assert (size map <=? zlen (slot map));
  reinsert insert (MapSP cap 0 (heap map) (replicate (Z.to_nat cap) empty_sp))
    (take (Z.to_nat (size map)) (slot map)).

(** [fuel] bounds the depth of the mutual recursion with [_pbcM_sp_rehash]. *)
Fixpoint insert_hash (fuel : nat) (map : map_sp) (key : string) (hash_full : Z) (value : option V)
    : option map_sp :=
  if size map <? cap map then sp_insert_free map key hash_full value
  else
    match fuel with
    | O => None
    | S fuel' =>
        map ← rehash_with (insert_hash fuel') map;
        insert_hash fuel' map key hash_full value
    end.

Definition _pbcM_sp_insert_hash := insert_hash 1.
Definition _pbcM_sp_rehash : map_sp -> option map_sp := rehash_with (insert_hash 0).

Definition sp_match (hash_full : Z) (key : string) (s : sp_slot) : bool :=
  (sp_hash s =? hash_full) && bool_decide (sp_key s = Some key).

(** [void **]: the index of the slot whose pointer it is. *)
Fixpoint query_insert_hash (fuel : nat) (map : map_sp) (key : string) (hash_full : Z)
    : option (map_sp * Z) :=
  let rehash :=
    match fuel with
    | O => None
    | S fuel' => map ← _pbcM_sp_rehash map; query_insert_hash fuel' map key hash_full
    end in
  let hash := hash_full .& (cap map - 1) in
  s ← zget (slot map) hash;
  match sp_key s with
  | None =>
      if cap map <=? size map then rehash
      else
        slots ← zset (slot map) hash (SP (Some key) hash_full (sp_pointer s) (sp_next s));
        Some (MapSP (cap map) (size map + 1) (heap map) slots, hash)
  | Some _ =>
      '(found, i) ← walk_to (S (length (slot map))) (sp_match hash_full key) (slot map) hash;
      if found : bool then Some (map, i)
      else if cap map <=? size map then rehash
      else sp_collide map hash i (fun s => SE key hash_full (sp_pointer s))
  end.

Definition _pbcM_sp_query_insert_hash := query_insert_hash 1.

Definition _pbcM_sp_insert (map : map_sp) (key : string) (value : option V) : option map_sp :=
  h ← calc_hash key; _pbcM_sp_insert_hash map key h value.

Definition _pbcM_sp_query_insert (map : map_sp) (key : string) : option (map_sp * Z) :=
  h ← calc_hash key; _pbcM_sp_query_insert_hash map key h.

(** [*p = value] on the result of [_pbcM_sp_query_insert]. *)
Definition sp_store (map : map_sp) (i : Z) (value : option V) : option map_sp :=
  s ← zget (slot map) i;
  slots ← zset (slot map) i (SP (sp_key s) (sp_hash s) value (sp_next s));
  Some (MapSP (cap map) (size map) (heap map) slots).

(** The slot of a key. *)
Definition sp_find (map : map_sp) (key : string) : option (option Z) :=
  hash_full ← calc_hash key;
  let hash := hash_full .& (cap map - 1) in
  s ← zget (slot map) hash;
  match sp_key s with
  | None => Some None
  | Some _ => walk (S (length (slot map))) (sp_match hash_full key) (slot map) hash
  end.

Definition _pbcM_sp_query (map : option map_sp) (key : string) : option (option V) :=
  match map with
  | None => Some None
  | Some map =>
      found ← sp_find map key;
      match found with
      | None => Some None
      | Some i => s ← zget (slot map) i; Some (sp_pointer s)
      end
  end.

(** The calls of [func], in order; [A] is what it changes. *)
Definition _pbcM_sp_foreach {A} (func : V -> A -> A) (map : map_sp) (a : A) : A :=
  foldl (fun a s => match sp_pointer s with Some p => func p a | None => a end) a
    (take (Z.to_nat (cap map)) (slot map)).

Definition _pbcM_sp_foreach_ud {A U} (func : V -> U -> A -> A) (map : map_sp) (ud : U) (a : A) : A :=
  foldl (fun a s => match sp_pointer s with Some p => func p ud a | None => a end) a
    (take (Z.to_nat (cap map)) (slot map)).

(** for (i;i<map->cap;i++) if (map->slot[i].pointer) return i; return -1; *)
Fixpoint scan (fuel : nat) (map : map_sp) (i : Z) : option Z :=
  match fuel with
  | O => None
  | S fuel' =>
      if i <? cap map then
        s ← zget (slot map) i;
        match sp_pointer s with Some _ => Some i | None => scan fuel' map (i + 1) end
      else Some (-1)
  end.

Definition _find_first (map : map_sp) : option Z := scan (S (length (slot map))) map 0.

Definition _find_next (map : map_sp) (key : string) : option Z :=
  found ← sp_find map key;
  match found with
  | None => Some (-1)
  | Some i => scan (S (length (slot map))) map (i + 1)
  end.

(** The new [*key] and the pointer. *)
Definition _pbcM_sp_next (map : option map_sp) (key : option string)
    : option (option string * option V) :=
  match map with
  | None => Some (None, None)
  | Some map =>
      idx ← match key with None => _find_first map | Some key => _find_next map key end;
      if idx <? 0 then Some (None, None)
      else s ← zget (slot map) idx; Some (sp_key s, sp_pointer s)
  end.
End sp.
Arguments sp_slot : clear implicits.
Arguments map_sp : clear implicits.
Arguments sp_entry : clear implicits.

(** ** The table behind a map *)

Section sp_proofs.
Context {V : Type}.
Implicit Types (m : map_sp V) (e : sp_entry V) (ds : list (sp_entry V)).

#[export] Instance sp_LawfulSlot : LawfulSlot (sp_slot V) (sp_entry V).
Proof. split; [by intros ? []|done|by intros [] []|by intros [] []]. Qed.

Definition sp_home (cap : Z) (e : sp_entry V) : Z := pe_hash e .& (cap - 1).

Record sp_table m ds : Prop := {
  sp_pow : exists k, 0 <= k <= 30 /\ cap m = 2 ^ k;
  sp_len : zlen (slot m) = cap m;
  sp_count : size m = zlen ds;
  sp_chained : chained (sp_home (cap m)) (slot m);
  sp_contents : contents (slot m) ≡ₚ ds;
  sp_hashes : Forall (fun e => calc_hash (pe_key e) = Some (pe_hash e)) ds;
  sp_zero i s : zget (slot m) i = Some s -> s_used s = false -> sp_pointer s = None
}.

Lemma sp_table_perm m ds ds' : sp_table m ds -> ds ≡ₚ ds' -> sp_table m ds'.
Proof.
  intros [? ? Hc ? Hp Hh ?] Hd. split; try done.
  - rewrite Hc. unfold zlen. by rewrite Hd.
  - by rewrite Hp.
  - by rewrite <- Hd.
Qed.

Lemma mask_pow h c : (exists k, 0 <= k <= 30 /\ c = 2 ^ k) -> h .& (c - 1) = h mod c /\ 0 < c <= 2 ^ 30.
Proof.
  intros (k & Hk & ->). split; [apply wrap_land; lia|]. split; [apply Z.pow_pos_nonneg; lia|].
  apply Z.pow_le_mono_r; lia.
Qed.

Lemma sp_step_mod c i : (exists k, 0 <= k <= 30 /\ c = 2 ^ k) -> sp_step c i = (i + 1) mod c.
Proof.
  intros Hc. unfold sp_step. destruct (mask_pow (i + 1) c Hc) as [-> ?].
  apply sgn_small; [lia|]. pose proof (Z.mod_pos_bound (i + 1) c). lia.
Qed.

Lemma sp_home_range m ds h : sp_table m ds -> 0 <= h .& (cap m - 1) < zlen (slot m).
Proof.
  intros Ht. rewrite (sp_len _ _ Ht). destruct (mask_pow h _ (sp_pow _ _ Ht)) as [-> ?].
  apply Z.mod_pos_bound. lia.
Qed.

Lemma sp_used_key (s : sp_slot V) : s_used s = match sp_key s with Some _ => true | None => false end.
Proof. by destruct s as [[]]. Qed.

(** A new entry: its home is free. *)
Lemma sp_fill_spec m ds e s : sp_table m ds ->
  calc_hash (pe_key e) = Some (pe_hash e) ->
  zget (slot m) (sp_home (cap m) e) = Some s -> s_used s = false ->
  exists slots, zset (slot m) (sp_home (cap m) e) (s_fill e s) = Some slots /\
    sp_table (MapSP (cap m) (size m + 1) (heap m) slots) (e :: ds) /\
    zget slots (sp_home (cap m) e) = Some (s_fill e s).
Proof.
  intros Ht He Hs Hu. pose proof (zget_in _ _ _ Hs) as Hr. destruct Ht as [? ? Hc ? Hp ? Hz].
  rewrite zset_eq by done. eexists. split; [done|]. split; [|by apply zget_insert_eq].
  split; cbn [cap size heap slot]; try done.
  - by rewrite zlen_insert.
  - rewrite Hc, zlen_cons. lia.
  - by apply chained_fill.
  - rewrite (contents_add _ _ s _ e) by (done || apply data_fill || by apply unused_data). by rewrite Hp.
  - by constructor.
  - intros i si. rewrite zget_insert by done. case_match; [|apply Hz].
    intros Hsi Hsu. assert (si = s_fill e s) as -> by congruence. by rewrite used_fill in Hsu.
Qed.

(** Its home is used; [p] is a slot of the chain of its home. *)
Lemma sp_collide_spec m ds e p mk : sp_table m ds -> zlen ds < cap m ->
  calc_hash (pe_key e) = Some (pe_hash e) ->
  (exists l, chain (slot m) (sp_home (cap m) e) l /\ p ∈ l) ->
  (forall s, sp_pointer s = None -> mk s = e) ->
  exists slots i s', sp_collide m (sp_home (cap m) e) p mk
      = Some (MapSP (cap m) (size m + 1) (heap m) slots, i) /\
    sp_table (MapSP (cap m) (size m + 1) (heap m) slots) (e :: ds) /\
    zget slots i = Some s' /\ s_data s' = Some e.
Proof.
  intros Ht Hlt He Hp0 Hmk. unfold sp_collide.
  assert (exists s, zget (slot m) p = Some s /\ s_used s = true) as (s & Hs & Hu)
    by (destruct Hp0 as (l & Hl & Hin); by eapply chain_used).
  destruct (find_free_from (slot m) (sp_step (cap m)) (S (length (slot m))) (sp_step (cap m) (sp_home (cap m) e)))
    as (i & es & -> & Hes & Hue).
  - intros i Hi. rewrite (sp_len _ _ Ht). apply sp_step_mod, (sp_pow _ _ Ht).
  - rewrite sp_step_mod by apply (sp_pow _ _ Ht). rewrite (sp_len _ _ Ht). apply Z.mod_pos_bound.
    destruct (mask_pow 0 _ (sp_pow _ _ Ht)). lia.
  - lia.
  - rewrite (sp_contents _ _ Ht). pose proof (sp_len _ _ Ht). unfold zlen in *. lia.
  - rewrite some_bind, Hes, some_bind, (Hmk es) by (by apply (sp_zero _ _ Ht i)).
    destruct (contents_behind _ _ _ _ _ e Hs Hu Hes Hue) as (slots & -> & Hc & Hl & Hge & Hfr & Hch).
    rewrite some_bind. exists slots, i, (s_fill e (s_link (s_next s) es)).
    split; [done|]. split; [|split; [done|apply data_fill]].
    destruct Ht as [? Hlen Hcnt ? Hp ? Hz]. split; cbn [cap size heap slot]; try done.
    + unfold zlen in *. by rewrite Hl.
    + rewrite Hcnt, zlen_cons. lia.
    + by apply Hch.
    + by rewrite Hc, Hp.
    + by constructor.
    + intros j sj Hj Huj. eapply Hz; [by apply Hfr|done].
Qed.

Lemma sp_insert_free_spec m ds key h v : sp_table m ds -> zlen ds < cap m -> calc_hash key = Some h ->
  exists m', sp_insert_free m key h v = Some m' /\ sp_table m' (SE key h v :: ds) /\ cap m' = cap m.
Proof.
  intros Ht Hlt Hh. unfold sp_insert_free.
  destruct (zget_is_Some _ _ (sp_home_range m ds h Ht)) as [s Hs]. rewrite Hs, some_bind.
  pose proof (sp_used_key s) as Hu. destruct (sp_key s) as [k|] eqn:Hk.
  - destruct (sp_collide_spec m ds (SE key h v) (h .& (cap m - 1)) (fun _ => SE key h v)) as (slots & i & s' & Hc & ? & _); try done.
    { eapply home_chain; [apply (sp_chained _ _ Ht)|done|done]. }
    change (sp_home (cap m) (SE key h v)) with (h .& (cap m - 1)) in Hc. rewrite Hc, some_bind.
    eexists. split; [done|]. done.
  - destruct (sp_fill_spec m ds (SE key h v) s) as (slots & Hz & ? & _); try done.
    change (sp_home (cap m) (SE key h v)) with (h .& (cap m - 1)) in Hz.
    change (s_fill (SE key h v) s) with (SP (Some key) h v (sp_next s)) in Hz.
    rewrite Hz, some_bind. eexists. split; [done|]. done.
Qed.

Lemma sp_table_new c hp : (exists k, 0 <= k <= 30 /\ c = 2 ^ k) ->
  sp_table (MapSP c 0 hp (replicate (Z.to_nat c) empty_sp)) [].
Proof.
  intros Hc. destruct (mask_pow 0 c Hc) as [_ ?]. split; cbn [cap size heap slot]; try done.
  - rewrite zlen_replicate. lia.
  - by apply chained_replicate.
  - by rewrite contents_replicate.
  - intros i s Hi _. pose proof (zget_in _ _ _ Hi) as Hr. rewrite zlen_replicate in Hr.
    rewrite zget_replicate in Hi by lia. by injection Hi as <-.
Qed.

(** ** Rehashing *)

Lemma insert_hash_room n m ds key h v : sp_table m ds -> zlen ds < cap m ->
  insert_hash n m key h v = sp_insert_free m key h v.
Proof.
  intros Ht Hlt. destruct n; cbn [insert_hash]; rewrite (sp_count _ _ Ht);
    by rewrite (proj2 (Z.ltb_lt _ _)) by lia.
Qed.

Lemma reinsert_spec old : forall m ds,
  sp_table m ds -> length (contents old) = length old ->
  Forall (fun e => calc_hash (pe_key e) = Some (pe_hash e)) (contents old) ->
  zlen ds + zlen old <= cap m ->
  exists m', reinsert (insert_hash 0) m old = Some m' /\ sp_table m' (contents old ++ ds) /\ cap m' = cap m.
Proof.
  induction old as [|s old IH]; intros m ds Ht Hfull Hh Hle; [by exists m|].
  rewrite contents_cons in *. rewrite zlen_cons in Hle. pose proof (zlen_nonneg old).
  pose proof (contents_length old). cbn [reinsert].
  destruct (s_data s) as [d|] eqn:Hd; cbn [length] in Hfull; [|lia]. simpl in Hd.
  apply fmap_Some in Hd as (k & Hk & ->). rewrite Hk, some_bind.
  inversion Hh as [|? ? Hh0 Hh']; subst. rewrite (insert_hash_room 0 m ds) by (done || lia).
  destruct (sp_insert_free_spec m ds k (sp_hash s) (sp_pointer s)) as (m1 & -> & Ht1 & Hc1); [done|lia|done|].
  rewrite some_bind. destruct (IH m1 _ Ht1) as (m2 & -> & Ht2 & Hc2); [lia|done|rewrite zlen_cons; lia|].
  exists m2. split; [done|]. split; [|by rewrite Hc2]. eapply sp_table_perm; [done|].
  simpl. symmetry. apply Permutation_middle.
Qed.

Lemma sp_rehash_spec m ds : sp_table m ds -> cap m <= zlen ds < 2 ^ 30 ->
  exists m', _pbcM_sp_rehash m = Some m' /\ sp_table m' ds /\ zlen ds < cap m'.
Proof.
  intros Ht Hfull. unfold _pbcM_sp_rehash, rehash_with.
  destruct (mask_pow 0 _ (sp_pow _ _ Ht)) as [_ Hcp].
  pose proof (sp_len _ _ Ht) as Hlen. pose proof (contents_length (slot m)) as Hcl.
  assert (length (contents (slot m)) = length ds) as Hcd by (by rewrite (sp_contents _ _ Ht)).
  rewrite (sp_count _ _ Ht). unfold zlen in *.
  rewrite (proj2 (Z.leb_le _ _)) by lia. cbn [c_assert]. rewrite some_bind.
  rewrite take_ge by lia.
  destruct (reinsert_spec (slot m) (MapSP (cap m * 2) 0 (heap m) (replicate (Z.to_nat (cap m * 2)) empty_sp)) [])
    as (m' & -> & Ht' & Hc').
  - apply sp_table_new. destruct (sp_pow _ _ Ht) as (k & Hk & Hck). exists (k + 1).
    rewrite Hck, Z.pow_add_r by lia. split; [|done].
    destruct (decide (k = 30)) as [->|]; lia.
  - lia.
  - rewrite (sp_contents _ _ Ht). apply (sp_hashes _ _ Ht).
  - unfold zlen. cbn [cap length]. lia.
  - exists m'. split; [done|]. rewrite Hc'. cbn [cap]. split; [|lia].
    eapply sp_table_perm; [done|]. rewrite app_nil_r. apply (sp_contents _ _ Ht).
Qed.

Lemma sp_insert_hash_spec m ds key h v : sp_table m ds -> zlen ds < 2 ^ 30 -> calc_hash key = Some h ->
  exists m', _pbcM_sp_insert_hash m key h v = Some m' /\ sp_table m' (SE key h v :: ds).
Proof.
  intros Ht Hlt Hh. unfold _pbcM_sp_insert_hash.
  destruct (Z.ltb_spec (zlen ds) (cap m)).
  - rewrite (insert_hash_room 1 m ds) by done. destruct (sp_insert_free_spec m ds key h v) as (m' & ? & ? & _); eauto.
  - destruct (sp_rehash_spec m ds Ht) as (m1 & Hre & Ht1 & Hc1); [lia|].
    change (insert_hash 1 m key h v) with (if size m <? cap m then sp_insert_free m key h v
      else m ← _pbcM_sp_rehash m; insert_hash 0 m key h v).
    rewrite (sp_count _ _ Ht), (proj2 (Z.ltb_ge _ _)), Hre, some_bind by lia.
    rewrite (insert_hash_room 0 m1 ds) by (done || lia).
    destruct (sp_insert_free_spec m1 ds key h v) as (m' & ? & ? & _); eauto.
Qed.

(** ** Lookup *)

Lemma sp_match_true h key (s : sp_slot V) :
  sp_match h key s = true <-> sp_hash s = h /\ sp_key s = Some key.
Proof. unfold sp_match. by rewrite andb_true_iff, Z.eqb_eq, bool_decide_eq_true. Qed.

Lemma sp_search m ds key h s0 : sp_table m ds -> calc_hash key = Some h ->
  zget (slot m) (h .& (cap m - 1)) = Some s0 ->
  (exists i s e, (if s_used s0 then walk (S (length (slot m))) (sp_match h key) (slot m) (h .& (cap m - 1))
      else Some None) = Some (Some i) /\
     zget (slot m) i = Some s /\ s_data s = Some e /\ e ∈ ds /\ pe_key e = key)
  \/ ((if s_used s0 then walk (S (length (slot m))) (sp_match h key) (slot m) (h .& (cap m - 1))
      else Some None) = Some None /\ forall e, e ∈ ds -> pe_key e <> key).
Proof.
  intros Ht Hh Hs0.
  destruct (search_home (sp_home (cap m)) (sp_match h key) (slot m) (h .& (cap m - 1)) (S (length (slot m))) s0)
    as [(i & s & e & ? & Hs & Hd & Hp)|[? Hno]]; [apply (sp_chained _ _ Ht)|lia|done| | |].
  - intros s [Hsh _]%sp_match_true d Hd. simpl in Hd. apply fmap_Some in Hd as (k & _ & ->).
    unfold sp_home. simpl. by rewrite Hsh.
  - left. exists i, s, e. split_and!; try done.
    + rewrite <- (sp_contents _ _ Ht). apply elem_of_contents. eauto.
    + apply sp_match_true in Hp as [_ Hk]. simpl in Hd. rewrite Hk in Hd. by injection Hd as <-.
  - right. split; [done|]. intros e He Hk. pose proof (sp_hashes _ _ Ht) as Hall.
    rewrite Forall_forall in Hall. specialize (Hall e He). rewrite Hk, Hh in Hall. injection Hall as Hhe.
    rewrite <- (sp_contents _ _ Ht) in He. apply elem_of_contents in He as (i & s & Hs & Hd).
    pose proof (Hno _ _ _ Hs Hd) as Hf. simpl in Hd. apply fmap_Some in Hd as (k & Hsk & ->). simpl in *.
    apply not_true_iff_false in Hf. apply Hf, sp_match_true. split; congruence.
Qed.

Lemma sp_find_spec m ds key : sp_table m ds ->
  (exists i s e, sp_find m key = Some (Some i) /\ zget (slot m) i = Some s /\ s_data s = Some e /\
     e ∈ ds /\ pe_key e = key)
  \/ (sp_find m key = Some None /\ forall e, e ∈ ds -> pe_key e <> key).
Proof.
  intros Ht. destruct (calc_hash_total key) as [h Hh]. unfold sp_find. rewrite Hh, some_bind.
  destruct (zget_is_Some _ _ (sp_home_range m ds h Ht)) as [s0 Hs0]. rewrite Hs0, some_bind.
  pose proof (sp_search m ds key h s0 Ht Hh Hs0) as Hsr. rewrite sp_used_key in Hsr.
  by destruct (sp_key s0).
Qed.

(** Either the key is there, or there is room for it. *)
Lemma query_insert_room n m ds key h : sp_table m ds -> calc_hash key = Some h -> 
  (zlen ds < cap m -> (forall e, e ∈ ds -> pe_key e <> key) ->
   exists m' i s, query_insert_hash n m key h = Some (m', i) /\
     sp_table m' (SE key h None :: ds) /\ zget (slot m') i = Some s /\ s_data s = Some (SE key h None)) /\
  (forall e, e ∈ ds -> pe_key e = key ->
   exists i s e, query_insert_hash n m key h = Some (m, i) /\ zget (slot m) i = Some s /\
     s_data s = Some e /\ e ∈ ds /\ pe_key e = key) /\
  (cap m <= zlen ds -> (forall e, e ∈ ds -> pe_key e <> key) ->
   query_insert_hash (S n) m key h = m ← _pbcM_sp_rehash m; query_insert_hash n m key h).
Proof.
  intros Ht Hh. destruct (zget_is_Some _ _ (sp_home_range m ds h Ht)) as [s0 Hs0].
  pose proof (sp_search m ds key h s0 Ht Hh Hs0) as Hsr.
  assert (forall n, query_insert_hash n m key h =
    let rehash := match n with O => None
      | S n' => m ← _pbcM_sp_rehash m; query_insert_hash n' m key h end in
    if s_used s0 then
      '(found, i) ← walk_to (S (length (slot m))) (sp_match h key) (slot m) (h .& (cap m - 1));
      if found : bool then Some (m, i)
      else if cap m <=? size m then rehash
      else sp_collide m (h .& (cap m - 1)) i (fun s => SE key h (sp_pointer s))
    else if cap m <=? size m then rehash
      else slots ← zset (slot m) (h .& (cap m - 1)) (SP (Some key) h (sp_pointer s0) (sp_next s0));
        Some (MapSP (cap m) (size m + 1) (heap m) slots, h .& (cap m - 1))) as Heq.
  { intros n0. destruct n0; cbn [query_insert_hash]; rewrite Hs0, some_bind, sp_used_key; by destruct (sp_key s0). }
  split_and!.
  - intros Hlt Hno. rewrite Heq. destruct Hsr as [(i & s & e & _ & _ & _ & He & Hk)|[Hw _]]; [by destruct (Hno e)|].
    rewrite (sp_count _ _ Ht), (proj2 (Z.leb_gt _ _)) by lia. cbn zeta. destruct (s_used s0) eqn:Hu.
    + rewrite walk_is_walk_to in Hw.
      destruct (walk_to _ _ _ _) as [[[] i0]|] eqn:Hwt; [done| |done]. rewrite some_bind.
      destruct (sp_collide_spec m ds (SE key h None) i0 (fun s => SE key h (sp_pointer s)))
        as (slots & i & s' & Hc & ? & ? & ?); try done; [|by intros s ->|].
      { destruct (used_chain _ _ (sp_chained _ _ Ht) _ _ Hs0 Hu) as [l Hl]. exists l. split; [done|]. by eapply walk_to_chain. }
      change (sp_home (cap m) (SE key h None)) with (h .& (cap m - 1)) in Hc. rewrite Hc. eauto 10.
    + destruct (sp_fill_spec m ds (SE key h None) s0) as (slots & Hz & ? & ?); try done.
      change (sp_home (cap m) (SE key h None)) with (h .& (cap m - 1)) in Hz.
      rewrite (sp_zero _ _ Ht _ _ Hs0 Hu).
      change (s_fill (SE key h None) s0) with (SP (Some key) h (@None V) (sp_next s0)) in Hz.
      rewrite Hz, some_bind. eexists _, _, _. split; [done|]. split; [rewrite <- (sp_count _ _ Ht); done|]. done.
  - intros e He Hk. destruct Hsr as [(i & s & e' & Hw & ? & ? & ? & ?)|[_ Hno]]; [|by destruct (Hno e)].
    rewrite Heq. cbn zeta. destruct (s_used s0); [|done]. rewrite walk_is_walk_to in Hw.
    destruct (walk_to _ _ _ _) as [[[] i0]|]; [|done|done]. injection Hw as ->. rewrite some_bind. eauto 10.
  - intros Hfull Hno. destruct Hsr as [(i & s & e & _ & _ & _ & He & Hk)|[Hw _]]; [by destruct (Hno e)|].
    rewrite Heq. cbn zeta. rewrite (sp_count _ _ Ht), (proj2 (Z.leb_le _ _)) by lia.
    destruct (s_used s0); [|done]. rewrite walk_is_walk_to in Hw. by destruct (walk_to _ _ _ _) as [[[] i0]|].
Qed.

Lemma sp_query_insert_spec m ds key : sp_table m ds -> zlen ds < 2 ^ 30 ->
  exists m' ds' i s e, _pbcM_sp_query_insert m key = Some (m', i) /\ sp_table m' ds' /\
    zget (slot m') i = Some s /\ s_data s = Some e /\ pe_key e = key /\
    ((m' = m /\ ds' = ds /\ e ∈ ds) \/
     (ds' = e :: ds /\ pe_pointer e = None /\ forall e, e ∈ ds -> pe_key e <> key)).
Proof.
  intros Ht Hlt. destruct (calc_hash_total key) as [h Hh]. unfold _pbcM_sp_query_insert.
  rewrite Hh, some_bind. unfold _pbcM_sp_query_insert_hash.
  destruct (query_insert_room 1 m ds key h Ht Hh) as (Hroom & Hthere & _).
  destruct (query_insert_room 0 m ds key h Ht Hh) as (_ & _ & Hfull).
  destruct (decide (Exists (fun e => pe_key e = key) ds)) as [(e & He & Hk)%Exists_exists|Hno].
  - destruct (Hthere e He Hk) as (i & s & e' & -> & ? & ? & ? & ?). exists m, ds, i, s, e'. eauto 10.
  - assert (forall e, e ∈ ds -> pe_key e <> key) as Hno'.
    { intros e He Hk. apply Hno, Exists_exists. eauto. }
    destruct (decide (zlen ds < cap m)) as [Hl|Hl].
    + destruct (Hroom Hl Hno') as (m' & i & s & -> & ? & ? & ?). eexists m', _, i, s, _. eauto 10.
    + rewrite Hfull by (done || lia). destruct (sp_rehash_spec m ds Ht) as (m1 & -> & Ht1 & Hc1); [lia|].
      rewrite some_bind. destruct (query_insert_room 0 m1 ds key h Ht1 Hh) as (Hroom1 & _ & _).
      destruct (Hroom1 Hc1 Hno') as (m' & i & s & -> & ? & ? & ?). eexists m', _, i, s, _. eauto 10.
Qed.

Lemma sp_store_spec m ds i s e v : sp_table m ds -> zget (slot m) i = Some s -> s_data s = Some e ->
  exists m' rest, sp_store m i v = Some m' /\ ds ≡ₚ e :: rest /\
    sp_table m' (SE (pe_key e) (pe_hash e) v :: rest).
Proof.
  intros Ht Hs Hd. unfold sp_store. rewrite Hs, some_bind, zset_eq by (by eapply zget_in).
  rewrite some_bind. destruct (contents_update _ _ _ _ Hs Hd) as (rest & Hp & Hu).
  pose proof Hd as Hd'. simpl in Hd'. apply fmap_Some in Hd' as (k & Hk & He).
  assert (s_data (SP (sp_key s) (sp_hash s) v (sp_next s)) = Some (SE (pe_key e) (pe_hash e) v)) as Hnew
    by (simpl; by rewrite Hk, He).
  assert (ds ≡ₚ e :: rest) as Hds by (by rewrite <- (sp_contents _ _ Ht)).
  exists (MapSP (cap m) (size m) (heap m) (<[Z.to_nat i := SP (sp_key s) (sp_hash s) v (sp_next s)]> (slot m))), rest.
  split; [done|]. split; [done|].
  pose proof (zget_in _ _ _ Hs) as Hr. destruct Ht as [? ? Hc Hch ? Hh Hz]. split; cbn [cap size heap slot]; try done.
  - by rewrite zlen_insert.
  - rewrite Hc. unfold zlen. by rewrite Hds.
  - by eapply chained_update.
  - by apply Hu.
  - rewrite Hds in Hh. inversion Hh; subst. by constructor.
  - intros j sj. rewrite zget_insert by done. case_match; [|apply Hz].
    intros Hsj Huj. assert (sj = SP (sp_key s) (sp_hash s) v (sp_next s)) as -> by congruence.
    rewrite sp_used_key in Huj. simpl in Huj. by rewrite Hk in Huj.
Qed.

(** ** The finite map it stands for *)

Definition sp_pairs ds : list (string * option V) := (fun e => (pe_key e, pe_pointer e)) <$> ds.

Definition sp_rep m ds (M : gmap string (option V)) : Prop :=
  sp_table m ds /\ NoDup (sp_pairs ds).*1 /\ list_to_map (sp_pairs ds) = M.

Lemma sp_rep_in m ds M e : sp_rep m ds M -> e ∈ ds -> M !! pe_key e = Some (pe_pointer e).
Proof.
  intros (_ & Hnd & <-) He. apply assoc_some; [done|]. apply list_elem_of_fmap. by exists e.
Qed.

Lemma sp_rep_none m ds M key : sp_rep m ds M -> M !! key = None <-> forall e, e ∈ ds -> pe_key e <> key.
Proof.
  intros (_ & Hnd & <-). split.
  - intros Hn e He <-. apply not_elem_of_list_to_map_2 in Hn. apply Hn, list_elem_of_fmap.
    exists (pe_key e, pe_pointer e). split; [done|]. apply list_elem_of_fmap. by exists e.
  - intros Hno. apply assoc_none. intros v (e & [= -> _] & He)%list_elem_of_fmap. by apply (Hno e).
Qed.

Lemma sp_rep_add m m' ds M e : sp_rep m ds M -> sp_table m' (e :: ds) -> M !! pe_key e = None ->
  sp_rep m' (e :: ds) (<[pe_key e := pe_pointer e]> M).
Proof.
  intros Hr Ht Hn. pose proof (proj1 (sp_rep_none _ _ _ _ Hr) Hn) as Hno.
  destruct Hr as (_ & Hnd & <-). split; [done|]. split; [|done]. simpl. constructor; [|done].
  intros ([k v] & Hk & (e' & [= -> ->] & He')%list_elem_of_fmap)%list_elem_of_fmap. simpl in Hk.
  by apply (Hno e').
Qed.

Lemma sp_rep_update m m' ds rest M e v : sp_rep m ds M -> ds ≡ₚ e :: rest ->
  sp_table m' (SE (pe_key e) (pe_hash e) v :: rest) ->
  sp_rep m' (SE (pe_key e) (pe_hash e) v :: rest) (<[pe_key e := v]> M).
Proof.
  intros (_ & Hnd & <-) Hp Ht. split; [done|].
  assert (sp_pairs ds ≡ₚ (pe_key e, pe_pointer e) :: sp_pairs rest) as Hpp by (unfold sp_pairs; by rewrite Hp).
  rewrite (list_to_map_proper _ _ Hnd Hpp). rewrite Hpp in Hnd. simpl in *. split; [done|].
  by rewrite insert_insert_eq.
Qed.

(** What callers do with a map: insert a key that is not there, overwrite or
    create through the pointer that [_pbcM_sp_query_insert] gives (the pointer
    found there is the result), query. *)
Inductive sp_op := OpInsert (key : string) (v : option V) | OpStore (key : string) (v : option V)
  | OpQuery (key : string).

Definition sp_run1 m (op : sp_op) : option (map_sp V * option V) :=
  match op with
  | OpInsert key v => m ← _pbcM_sp_insert m key v; Some (m, None)
  | OpStore key v =>
      r ← _pbcM_sp_query_insert m key;
      s ← zget (slot r.1) r.2;
      m ← sp_store r.1 r.2 v;
      Some (m, sp_pointer s)
  | OpQuery key => v ← _pbcM_sp_query (Some m) key; Some (m, v)
  end.

Fixpoint sp_run m (ops : list sp_op) : option (map_sp V * list (option V)) :=
  match ops with
  | [] => Some (m, [])
  | op :: ops' => r ← sp_run1 m op; vs ← sp_run r.1 ops'; Some (vs.1, r.2 :: vs.2)
  end.

(** The same on finite maps; no key is inserted twice. *)
Definition map_run1 (M : gmap string (option V)) (op : sp_op) : gmap string (option V) * option V :=
  match op with
  | OpInsert key v => (<[key := v]> M, None)
  | OpStore key v => (<[key := v]> M, M !! key ≫= id)
  | OpQuery key => (M, M !! key ≫= id)
  end.

Fixpoint map_run (M : gmap string (option V)) (ops : list sp_op)
    : gmap string (option V) * list (option V) :=
  match ops with
  | [] => (M, [])
  | op :: ops' => let r := map_run1 M op in let vs := map_run r.1 ops' in (vs.1, r.2 :: vs.2)
  end.

Fixpoint ops_ok (M : gmap string (option V)) (ops : list sp_op) : bool :=
  match ops with
  | [] => true
  | op :: ops' =>
      match op with OpInsert key _ => bool_decide (M !! key = None) | _ => true end
      && ops_ok (map_run1 M op).1 ops'
  end.

Lemma sp_query_spec m ds M key : sp_rep m ds M -> _pbcM_sp_query (Some m) key = Some (M !! key ≫= id).
Proof.
  intros Hr. pose proof Hr as [Ht _]. unfold _pbcM_sp_query.
  destruct (sp_find_spec m ds key Ht) as [(i & s & e & -> & Hs & Hd & He & <-)|[-> Hno]]; rewrite some_bind.
  - rewrite Hs, some_bind, (sp_rep_in _ _ _ _ Hr He). simpl in Hd. by apply fmap_Some in Hd as (k & _ & ->).
  - by rewrite (proj2 (sp_rep_none _ _ _ _ Hr) Hno).
Qed.

Lemma sp_run1_spec m ds M op : sp_rep m ds M -> zlen ds < 2 ^ 30 ->
  match op with OpInsert key _ => bool_decide (M !! key = None) | _ => true end = true ->
  exists m' ds', sp_run1 m op = Some (m', (map_run1 M op).2) /\ sp_rep m' ds' (map_run1 M op).1 /\
    zlen ds' <= zlen ds + 1.
Proof.
  intros Hr Hlt Hok. pose proof Hr as [Ht _]. destruct op as [key v|key v|key]; cbn [sp_run1 map_run1 fst snd].
  - apply bool_decide_eq_true in Hok. unfold _pbcM_sp_insert. destruct (calc_hash_total key) as [h Hh].
    rewrite Hh, some_bind. destruct (sp_insert_hash_spec m ds key h v) as (m' & -> & Ht'); [done..|].
    rewrite some_bind. exists m', (SE key h v :: ds). split; [done|]. split; [|rewrite zlen_cons; lia].
    by apply (sp_rep_add m m' ds M (SE key h v)).
  - destruct (sp_query_insert_spec m ds key Ht Hlt) as (m1 & ds1 & i & s & e & -> & Ht1 & Hs & Hd & <- & Hcase).
    rewrite some_bind. cbn [fst snd]. rewrite Hs, some_bind.
    destruct (sp_store_spec m1 ds1 i s e v Ht1 Hs Hd) as (m' & rest & -> & Hp & Ht'). rewrite some_bind.
    assert (sp_pointer s = pe_pointer e) as Hptr.
    { simpl in Hd. by apply fmap_Some in Hd as (k & _ & ->). }
    exists m', (SE (pe_key e) (pe_hash e) v :: rest). rewrite Hptr.
    assert (zlen ds1 = 1 + zlen rest) as Hlen by (unfold zlen; rewrite Hp; simpl; lia).
    rewrite zlen_cons. destruct Hcase as [(-> & -> & He)|(-> & Hnull & Hno)].
    + rewrite (sp_rep_in _ _ _ _ Hr He). split; [done|]. split; [|lia]. by eapply sp_rep_update.
    + pose proof (proj2 (sp_rep_none _ _ _ _ Hr) Hno) as Hn. rewrite Hn, Hnull.
      split; [done|]. rewrite zlen_cons in Hlen. split; [|lia].
      rewrite <- (insert_insert_eq M (pe_key e) v (pe_pointer e)). eapply sp_rep_update; [|done|done].
      by eapply sp_rep_add.
  - rewrite (sp_query_spec m ds M key Hr). exists m, ds. split; [done|]. split; [done|lia].
Qed.

Lemma sp_run_spec ops : forall m ds M, sp_rep m ds M -> zlen ds + zlen ops <= 2 ^ 30 ->
  ops_ok M ops = true ->
  exists m' ds', sp_run m ops = Some (m', (map_run M ops).2) /\ sp_rep m' ds' (map_run M ops).1.
Proof.
  induction ops as [|op ops IH]; intros m ds M Hr Hlt Hok; [by exists m, ds|].
  rewrite zlen_cons in Hlt. pose proof (zlen_nonneg ops). cbn [sp_run map_run ops_ok] in *.
  apply andb_prop in Hok as [Hok1 Hok2].
  destruct (sp_run1_spec m ds M op Hr) as (m' & ds' & -> & Hr' & Hl); [lia|done|].
  rewrite some_bind. cbn [fst snd].
  destruct (IH m' ds' _ Hr') as (m2 & ds2 & -> & ?); [lia|done|]. by exists m2, ds2.
Qed.

Lemma cap_loop_spec fuel : forall k max, 0 <= k -> 31 <= k + Z.of_nat fuel -> max <= 2 ^ 30 -> k <= 30 ->
  exists k', k <= k' <= 30 /\ cap_loop fuel (2 ^ k) max = Some (2 ^ k').
Proof.
  induction fuel as [|fuel IH]; intros k max Hk Hf Hm Hk30; [lia|]. cbn [cap_loop].
  destruct (Z.ltb_spec (2 ^ k) max); [|exists k; split; [lia|done]].
  assert (k < 30). { destruct (decide (k = 30)) as [->|]; lia. }
  replace (2 ^ k * 2) with (2 ^ (k + 1)) by (rewrite Z.pow_add_r by lia; lia).
  destruct (IH (k + 1) max) as (k' & ? & ->); [lia..|]. exists k'. split; [lia|done].
Qed.

Lemma sp_new_spec max hp : max <= 2 ^ 30 -> exists m, _pbcM_sp_new max hp = Some m /\ sp_rep m [] ∅.
Proof.
  intros Hm. unfold _pbcM_sp_new.
  destruct (cap_loop_spec 32 0 max) as (k & Hk & Hc); [lia..|]. change (2 ^ 0) with 1 in Hc.
  rewrite Hc, some_bind. eexists. split; [done|]. split; [|split; [constructor|done]].
  apply sp_table_new. eauto.
Qed.

(** [C37] Growing map: for any sequence of insertions of new keys, stores through
    [_pbcM_sp_query_insert] and queries, fewer than 2^30, every result is what a
    finite map from names to pointers gives, whatever collides and however often
    the table doubles. *)
Theorem sp_map_refines max hp (ops : list sp_op) :
  max <= 2 ^ 30 -> zlen ops <= 2 ^ 30 -> ops_ok ∅ ops = true ->
  exists m m', _pbcM_sp_new max hp = Some m /\ sp_run m ops = Some (m', (map_run ∅ ops).2).
Proof.
  intros Hm Hl Hok. destruct (sp_new_spec max hp Hm) as (m & ? & Hr).
  destruct (sp_run_spec ops m [] ∅ Hr) as (m' & ds' & ? & _); [by rewrite zlen_nil|done|]. eauto.
Qed.

(** ** Iteration *)

(** key = NULL; while ((p = _pbcM_sp_next(map, &key)), key != NULL) ...; *)
Fixpoint sp_iterate (fuel : nat) m (key : option string) : option (list (string * V)) :=
  match fuel with
  | O => None
  | S fuel' =>
      r ← _pbcM_sp_next (Some m) key;
      match r.1 with
      | None => Some []
      | Some k => p ← r.2; rest ← sp_iterate fuel' m (Some k); Some ((k, p) :: rest)
      end
  end.

(** The entries with a pointer from slot [i] on, in the order of the slots. *)
Definition live_from m (i : Z) : list (string * V) :=
  omap (fun e => p ← pe_pointer e; Some (pe_key e, p)) (contents (drop (Z.to_nat i) (slot m))).

Lemma live_from_step m i s : zget (slot m) i = Some s ->
  live_from m i = match s_data s with
    | Some e => match pe_pointer e with
      | Some p => (pe_key e, p) :: live_from m (i + 1) | None => live_from m (i + 1) end
    | None => live_from m (i + 1) end.
Proof.
  intros Hs. pose proof (zget_in _ _ _ Hs) as Hi. rewrite zget_nonneg in Hs by lia.
  unfold live_from. rewrite (drop_S _ _ _ Hs), contents_cons.
  replace (Z.to_nat (i + 1)) with (S (Z.to_nat i)) by lia.
  destruct (s_data s) as [e|]; [|done]. simpl. by destruct (pe_pointer e).
Qed.

Lemma scan_spec m ds fuel : sp_table m ds -> forall i, 0 <= i <= cap m -> (Z.to_nat (cap m - i) < fuel)%nat ->
  (scan fuel m i = Some (-1) /\ live_from m i = []) \/
  (exists j s k p, scan fuel m i = Some j /\ i <= j /\ zget (slot m) j = Some s /\ sp_key s = Some k /\
     sp_pointer s = Some p /\ live_from m i = (k, p) :: live_from m (j + 1)).
Proof.
  intros Ht. induction fuel as [|fuel IH]; intros i Hi Hf; [lia|]. cbn [scan].
  pose proof (sp_len _ _ Ht) as Hlen. destruct (Z.ltb_spec i (cap m)).
  - destruct (zget_is_Some (slot m) i) as [s Hs]; [lia|]. rewrite Hs, some_bind.
    rewrite (live_from_step _ _ _ Hs). destruct (sp_pointer s) as [p|] eqn:Hp.
    + right. destruct (sp_key s) as [k|] eqn:Hk.
      * exists i, s, k, p. split; [done|]. split; [lia|]. split_and!; try done. simpl. by rewrite Hk, Hp.
      * pose proof (sp_zero _ _ Ht _ _ Hs) as Hz. rewrite sp_used_key, Hk in Hz. by rewrite Hz in Hp.
    + assert (match s_data s with
        | Some e => match pe_pointer e with
          | Some p => (pe_key e, p) :: live_from m (i + 1) | None => live_from m (i + 1) end
        | None => live_from m (i + 1) end = live_from m (i + 1)) as ->
        by (simpl; destruct (sp_key s); simpl; by rewrite ?Hp).
      destruct (IH (i + 1)) as [?|(j & sj & k & p & ? & ? & ?)]; [lia|lia|by left|].
      right. exists j, sj, k, p. split; [done|]. split; [lia|done].
  - left. split; [done|]. unfold live_from. rewrite drop_ge by (unfold zlen in Hlen; lia). done.
Qed.

Lemma sp_find_at m ds M i s k : sp_rep m ds M -> zget (slot m) i = Some s -> sp_key s = Some k ->
  sp_find m k = Some (Some i).
Proof.
  intros (Ht & Hnd & _) Hs Hk.
  assert (s_data s = Some (SE k (sp_hash s) (sp_pointer s))) as Hd by (simpl; by rewrite Hk).
  assert (NoDup (pe_key <$> contents (slot m))) as Hndc.
  { rewrite (sp_contents _ _ Ht). unfold sp_pairs in Hnd. by rewrite <- list_fmap_compose in Hnd. }
  destruct (sp_find_spec m ds k Ht) as [(j & sj & e & -> & Hj & Hdj & He & Hke)|[_ Hno]].
  - do 2 f_equal. symmetry. by apply (contents_index pe_key (slot m) i j s (SE k (sp_hash s) (sp_pointer s)) sj e Hndc).
  - exfalso. apply (Hno (SE k (sp_hash s) (sp_pointer s))); [|done].
    rewrite <- (sp_contents _ _ Ht). apply elem_of_contents. eauto.
Qed.

Lemma sp_next_spec m ds M i key : sp_rep m ds M -> 0 <= i <= cap m ->
  match key with
  | None => i = 0
  | Some k => exists s, zget (slot m) (i - 1) = Some s /\ sp_key s = Some k
  end ->
  (_pbcM_sp_next (Some m) key = Some (None, None) /\ live_from m i = []) \/
  (exists j k p s, _pbcM_sp_next (Some m) key = Some (Some k, Some p) /\ i < j <= cap m /\
     zget (slot m) (j - 1) = Some s /\ sp_key s = Some k /\ live_from m i = (k, p) :: live_from m j).
Proof.
  intros Hr Hi Hkey. pose proof Hr as [Ht _]. pose proof (sp_len _ _ Ht) as Hlen.
  assert (match key with None => _find_first m | Some key => _find_next m key end
    = scan (S (length (slot m))) m i) as Hidx.
  { destruct key as [k|]; [|by subst i]. destruct Hkey as (s & Hs & Hk).
    unfold _find_next. rewrite (sp_find_at _ _ _ _ _ _ Hr Hs Hk), some_bind.
    by replace (i - 1 + 1) with i by lia. }
  unfold _pbcM_sp_next. rewrite Hidx.
  destruct (scan_spec m ds (S (length (slot m))) Ht i) as [[-> ?]|(j & s & k & p & -> & Hij & Hs & Hk & Hp & Hl)];
    [done|unfold zlen in *; lia|by left|].
  right. rewrite some_bind. pose proof (zget_in _ _ _ Hs). rewrite (proj2 (Z.ltb_ge _ _)) by lia.
  rewrite Hs, some_bind, Hk, Hp. exists (j + 1), k, p, s. replace (j + 1 - 1) with j by lia.
  split_and!; (done || lia).
Qed.

Lemma sp_iterate_spec m ds M fuel : sp_rep m ds M -> forall i key, 0 <= i <= cap m ->
  (Z.to_nat (cap m - i) < fuel)%nat ->
  match key with
  | None => i = 0
  | Some k => exists s, zget (slot m) (i - 1) = Some s /\ sp_key s = Some k
  end ->
  sp_iterate fuel m key = Some (live_from m i).
Proof.
  intros Hr. induction fuel as [|fuel IH]; intros i key Hi Hf Hkey; [lia|]. cbn [sp_iterate].
  destruct (sp_next_spec m ds M i key Hr Hi Hkey) as [[-> ->]|(j & k & p & s & -> & Hj & Hs & Hk & ->)];
    rewrite some_bind; cbn [fst snd]; [done|].
  rewrite some_bind, (IH j) by (lia || eauto). done.
Qed.

Lemma sp_iterate_complete m ds (M : gmap string (option V)) :
  sp_rep m ds M ->
  exists l, sp_iterate (S (length (slot m))) m None = Some l /\ NoDup l.*1 /\
    (forall k p, (k, p) ∈ l <-> M !! k = Some (Some p)).
Proof.
  intros Hr. pose proof Hr as (Ht & Hnd & HM). pose proof (sp_len _ _ Ht). exists (live_from m 0).
  destruct (mask_pow 0 _ (sp_pow _ _ Ht)) as [_ ?].
  split; [apply (sp_iterate_spec m ds M); (done || unfold zlen in *; lia)|].
  assert (live_from m 0 ≡ₚ omap (fun e => p ← pe_pointer e; Some (pe_key e, p)) ds) as Hl.
  { unfold live_from. change (drop (Z.to_nat 0) (slot m)) with (slot m). by rewrite (sp_contents _ _ Ht). }
  rewrite Hl. split.
  - clear -Hnd. unfold sp_pairs in Hnd. induction ds as [|e ds IH]; [constructor|].
    simpl in *. inversion Hnd as [|? ? Hnin Hnd']; subst. specialize (IH Hnd').
    destruct (pe_pointer e) as [p|]; simpl; [|done]. constructor; [|done].
    intros ([k q] & Hk & (e' & He' & Hq)%list_elem_of_omap)%list_elem_of_fmap. simpl in Hk. subst k.
    apply bind_Some in Hq as (q' & _ & [= Hke _]). apply Hnin, list_elem_of_fmap.
    exists (pe_key e', pe_pointer e'). split; [done|]. apply list_elem_of_fmap. by exists e'.
  - intros k p. rewrite Hl, list_elem_of_omap, <- HM, <- elem_of_list_to_map by done.
    unfold sp_pairs. rewrite list_elem_of_fmap. split.
    + intros (e & He & Hq). apply bind_Some in Hq as (q & Hq & [= <- <-]). exists e. by rewrite Hq.
    + intros (e & [= -> Hp] & He). exists e. by rewrite <- Hp.
Qed.

(** The pointers [_pbcM_sp_foreach] visits. *)
Lemma foreach_pointers m ds : sp_table m ds ->
  exists ps, ps ≡ₚ omap pe_pointer ds /\
    forall A U (func : V -> U -> A -> A) ud a,
      _pbcM_sp_foreach_ud func m ud a = foldl (fun a p => func p ud a) a ps.
Proof.
  intros Ht. exists (omap pe_pointer (contents (slot m))). split; [by rewrite (sp_contents _ _ Ht)|].
  intros A U func ud a. unfold _pbcM_sp_foreach_ud.
  rewrite take_ge by (pose proof (sp_len _ _ Ht); unfold zlen in *; lia).
  assert (Forall (fun s => s_used s = false -> sp_pointer s = None) (slot m)) as Hz.
  { apply Forall_forall. intros s [n Hn]%list_elem_of_lookup. apply (sp_zero _ _ Ht (Z.of_nat n)).
    by rewrite zget_nat. }
  clear Ht. revert a. induction Hz as [|s slots Hs _ IH]; intros a; [done|].
  rewrite contents_cons. cbn [foldl]. rewrite IH, sp_used_key in *.
  simpl. destruct (sp_key s) as [k|]; simpl; [by destruct (sp_pointer s)|]. by rewrite Hs.
Qed.

(** Iterating over a map from a NULL key, whatever was done with it before,
    ends and visits every name that has a pointer exactly once, with its pointer. *)
Theorem sp_iteration_complete max hp (ops : list sp_op) :
  max <= 2 ^ 30 -> zlen ops <= 2 ^ 30 -> ops_ok ∅ ops = true ->
  exists m m' vs l, _pbcM_sp_new max hp = Some m /\ sp_run m ops = Some (m', vs) /\
    sp_iterate (S (length (slot m'))) m' None = Some l /\ NoDup l.*1 /\
    (forall k p, (k, p) ∈ l <-> (map_run ∅ ops).1 !! k = Some (Some p)).
Proof.
  intros Hm Hl Hok. destruct (sp_new_spec max hp Hm) as (m & ? & Hr).
  destruct (sp_run_spec ops m [] ∅ Hr) as (m' & ds' & ? & Hr'); [by rewrite zlen_nil|done|].
  destruct (sp_iterate_complete m' ds' _ Hr') as (l & ? & ? & ?). by exists m, m', (map_run ∅ ops).2, l.
Qed.
End sp_proofs.

Definition sp_example : list (sp_op (V := Z)) :=
  [OpInsert "a"%string (Some 1); OpStore "b"%string (Some 2); OpStore "a"%string (Some 3);
   OpInsert "c"%string None; OpQuery "a"%string].

Lemma sp_map_refines_witness : exists m m', _pbcM_sp_new 0 false = Some m /\
  sp_run m sp_example = Some (m', [None; None; Some 1; None; Some 3]).
Proof. apply (sp_map_refines 0 false sp_example); by_eval. Defined.

Lemma sp_iteration_complete_witness : exists m m' vs l, _pbcM_sp_new 0 false = Some m /\
  sp_run m sp_example = Some (m', vs) /\
  sp_iterate (S (length (slot m'))) m' None = Some l /\ NoDup l.*1 /\
  (forall k p, (k, p) ∈ l <-> (map_run ∅ sp_example).1 !! k = Some (Some p)).
Proof. apply (sp_iteration_complete 0 false sp_example); by_eval. Defined.
