(* ===== verification/PbcContext.v ===== *)
(** Splitting an encoded message into its fields: pbc-master/src/context.c.

    The buffer is the list of the bytes it holds, and a [char *] into it an
    offset; computing a pointer beyond its end, or reading there, is [None].  The
    atoms are an array inside the context for the first 19 fields and on the heap
    for more.  The stack buffer of 10 bytes that [wiretype_decode] does not initialise
    is a parameter [temp], of the offset it is called at; an array cell that was
    never written is [None]. *)

From S2P Require Import Prelude Bytes Varint.
Local Open Scope Z_scope.
Local Open Scope word_scope.

Definition WT_VARINT : Z := 0.
Definition WT_BIT64 : Z := 1.
Definition WT_LEND : Z := 2.
Definition WT_BIT32 : Z := 5.

Definition PTYPE_DOUBLE : Z := 1.
Definition PTYPE_FLOAT : Z := 2.
Definition PTYPE_INT64 : Z := 3.
Definition PTYPE_UINT64 : Z := 4.
Definition PTYPE_INT32 : Z := 5.
Definition PTYPE_FIXED64 : Z := 6.
Definition PTYPE_FIXED32 : Z := 7.
Definition PTYPE_BOOL : Z := 8.
Definition PTYPE_STRING : Z := 9.
Definition PTYPE_MESSAGE : Z := 11.
Definition PTYPE_BYTES : Z := 12.
Definition PTYPE_UINT32 : Z := 13.
Definition PTYPE_ENUM : Z := 14.
Definition PTYPE_SFIXED32 : Z := 15.
Definition PTYPE_SFIXED64 : Z := 16.
Definition PTYPE_SINT32 : Z := 17.
Definition PTYPE_SINT64 : Z := 18.

(** The union of an atom is two words: as a slice, its start and end. *)
Record atom := Atom { wire_id : Z; a_v : longlong }.
Definition s_start (a : atom) : Z := i32 (low (a_v a)).
Definition s_end (a : atom) : Z := i32 (hi (a_v a)).

(** [(256 - sizeof(struct context)) / sizeof(struct atom)] *)
Definition INNER_ATOM : Z := (256 - 24) / 12.

(** memcpy(temp, buffer, cap) *)
Definition fill_temp (temp mem : list Z) (p cap : Z) : option (list Z) :=
  _ ← c_assert ((0 <=? cap) && (cap <=? 10) && (p + cap <=? zlen mem));
  Some (take (Z.to_nat cap) (drop (Z.to_nat p) mem) ++ drop (Z.to_nat cap) temp).

(** Decodes at [p], through [temp] near the end; also gives the new [temp]. *)
Definition decode_at (temp mem : list Z) (p cap : Z) : option (Z * longlong * list Z) :=
  if 10 <=? cap then
    r ← _pbcV_decode (drop (Z.to_nat p) mem); Some (r.1, r.2, temp)
  else
    temp ← fill_temp temp mem p cap;
    r ← _pbcV_decode temp; Some (r.1, r.2, temp).

(** A pointer one past the end is the last one that may be computed. *)
Definition ptr (mem : list Z) (p : Z) : option Z :=
  if (0 <=? p) && (p <=? zlen mem) then Some p else None.

(** [buffer[0] | buffer[1] << 8 | buffer[2] << 16 | buffer[3] << 24] *)
Definition read32 (mem : list Z) (p : Z) : option Z :=
  b0 ← zget mem p; b1 ← zget mem (p + 1); b2 ← zget mem (p + 2); b3 ← zget mem (p + 3);
  Some (u32 (b0 .| (b1 << 8) .| (b2 << 16) .| (b3 << 24))).

(** [Some None] is a NULL result.  [start] and [p] advance together. *)
Definition wiretype_decode (temp mem : list Z) (p cap start : Z) : option (option (atom * Z)) :=
  x ← decode_at temp mem p cap;
  let '(len, r, temp) := x in
  if (negb (10 <=? cap) && (cap <? len)) || negb (hi r =? 0) then Some None
  else
    let wiretype := low r .& 7 in
    let id := i32 (low r) in
    p ← ptr mem (p + len);
    let start := start + len in
    let cap := cap - len in
    if wiretype =? WT_VARINT then
      x ← decode_at temp mem p cap;
      let '(len, v, _) := x in
      if negb (10 <=? cap) && (cap <? len) then Some None
      else p ← ptr mem (p + len); Some (Some (Atom id v, p))
    else if wiretype =? WT_BIT64 then
      if cap <? 8 then Some None
      else
        lo ← read32 mem p; hi ← read32 mem (p + 4);
        p ← ptr mem (p + 8); Some (Some (Atom id (LL lo hi), p))
    else if wiretype =? WT_LEND then
      x ← decode_at temp mem p cap;
      let '(len, r, _) := x in
      if (u32 cap <? u32 (len + low r)) || negb (hi r =? 0) then Some None
      else
        let v := LL (u32 (start + len)) (u32 (start + len + low r)) in
        p ← ptr mem (p + len + low r); Some (Some (Atom id v, p))
    else if wiretype =? WT_BIT32 then
      if cap <? 4 then Some None
      else
        lo ← read32 mem p;
        p ← ptr mem (p + 4); Some (Some (Atom id (LL lo 0), p))
    else Some None.

(** The context: [a] is where its atoms are. *)
Inductive atoms_at := AtNull | AtInner | AtHeap (a : list (option atom)).
Record context := Context {
  c_size : Z; c_number : option Z; c_a : atoms_at; c_inner : list (option atom)
}.

(** The first loop of [_pbcC_open]: [inl i] is the return of [-i]. *)
Fixpoint open_inner (n : nat) (temp : Z -> list Z) (mem : list Z) (i p size start : Z) (inner : list (option atom))
    : option (Z + Z * Z * Z * Z * list (option atom)) :=
  match n with
  | O => Some (inr (i, p, size, start, inner))
  | S n' =>
      if size =? 0 then Some (inr (i, p, size, start, inner))
      else
        r ← wiretype_decode (temp p) mem p size start;
        match r with
        | None => Some (inl i)
        | Some (at_, next) =>
            inner ← zset inner i (Some at_);
            open_inner n' temp mem (i + 1) next (size - (next - p)) (start + (next - p)) inner
        end
  end.

(** realloc, 64 cells more *)
Definition grow_cells (a : list (option atom)) : list (option atom) := a ++ replicate 64 None.

(** The second loop; [fuel] also counts the rounds that only grow the array. *)
Fixpoint open_heap (fuel : nat) (temp : Z -> list Z) (mem : list Z) (i p size start : Z)
    (a : list (option atom)) : option ((Z * list (option atom)) + Z * list (option atom)) :=
  match fuel with
  | O => None
  | S fuel' =>
      if 0 <? size then
        if zlen a <=? i then open_heap fuel' temp mem i p size start (grow_cells a)
        else
          r ← wiretype_decode (temp p) mem p size start;
          match r with
          | None => Some (inl (i, a))
          | Some (at_, next) =>
              a ← zset a i (Some at_);
              open_heap fuel' temp mem (i + 1) next (size - (next - p)) (start + (next - p)) a
          end
      else Some (inr (i, a))
  end.

(** memcpy(ctx->a, a, sizeof(struct atom) * INNER_ATOM) *)
Definition copy_inner (a inner : list (option atom)) : list (option atom) :=
  inner ++ drop (length inner) a.

(** [mem] is [None] for a NULL buffer, otherwise its [size] bytes. *)
Definition _pbcC_open (temp : Z -> list Z) (mem : option (list Z)) (inner : list (option atom))
    : option (Z * context) :=
  match mem with
  | None => Some (0, Context 0 (Some 0) AtNull inner)
  | Some mem =>
      let size := zlen mem in
      if size =? 0 then Some (0, Context size (Some 0) AtNull inner)
      else
        x ← open_inner (Z.to_nat INNER_ATOM) temp mem 0 0 size 0 inner;
        match x with
        | inl i => Some (- i, Context size None AtInner inner)
        | inr (i, p, size', start, inner) =>
            if 0 <? size' then
              y ← open_heap (2 * length mem + 2) temp mem i p size' start (replicate 64 None);
              match y with
              | inl (i, a) => Some (- i, Context size None (AtHeap a) inner)
              | inr (i, a) => Some (i, Context size (Some i) (AtHeap (copy_inner a inner)) inner)
              end
            else Some (i, Context size (Some i) AtInner inner)
        end
  end.

(** ** Packed fields *)

Definition _decode_varint (temp mem : list Z) (p size : Z) : option (Z * atom) :=
  x ← decode_at temp mem p size;
  let '(len, v, _) := x in Some (len, Atom WT_VARINT v).

Fixpoint packed_inner (n : nat) (temp : Z -> list Z) (mem : list Z) (i p size : Z)
    (a : list (option atom)) : option (Z * Z * Z * list (option atom)) :=
  match n with
  | O => Some (i, p, size, a)
  | S n' =>
      if size =? 0 then Some (i, p, size, a)
      else
        x ← _decode_varint (temp p) mem p size;
        a ← zset a i (Some x.2);
        p' ← ptr mem (p + x.1);
        packed_inner n' temp mem (i + 1) p' (size - x.1) a
  end.

(** The loop over the rest: [a] is the array inside the context, whose cells the
    code goes on to write; [cap] is the size of the one on the heap. *)
Fixpoint packed_heap (fuel : nat) (temp : Z -> list Z) (mem : list Z) (i p size cap : Z)
    (a : list (option atom)) : option (Z * Z * list (option atom)) :=
  match fuel with
  | O => None
  | S fuel' =>
      if 0 <? size then
        if cap <=? i then packed_heap fuel' temp mem i p size (cap + 64) a
        else
          x ← _decode_varint (temp p) mem p size;
          a ← zset a i (Some x.2);
          p' ← ptr mem (p + x.1);
          packed_heap fuel' temp mem (i + 1) p' (size - x.1) cap a
      else Some (i, cap, a)
  end.

Definition _open_packed_varint (temp : Z -> list Z) (mem : list Z) (inner : list (option atom))
    : option (Z * context) :=
  let size := zlen mem in
  x ← packed_inner (Z.to_nat INNER_ATOM) temp mem 0 0 size inner;
  let '(i, p, size', inner) := x in
  if size' =? 0 then Some (i, Context size (Some i) AtInner inner)
  else
    y ← packed_heap (2 * length mem + 2) temp mem i p size' 64 inner;
    let '(i, cap, inner) := y in
    Some (i, Context size (Some i) (AtHeap (copy_inner (replicate (Z.to_nat cap) None) inner)) inner).

(** The loops over [number] cells of 8 and of 4 bytes. *)
Fixpoint packed_fixed (n : nat) (bits : Z) (mem : list Z) (i data : Z) (a : list (option atom))
    : option (list (option atom)) :=
  match n with
  | O => Some a
  | S n' =>
      if bits =? 64 then
        lo ← read32 mem data; hi ← read32 mem (data + 4);
        a ← zset a i (Some (Atom WT_BIT64 (LL lo hi)));
        packed_fixed n' bits mem (i + 1) (data + 8) a
      else
        lo ← read32 mem data;
        a ← zset a i (Some (Atom WT_BIT32 (LL lo 0)));
        packed_fixed n' bits mem (i + 1) (data + 4) a
  end.

Inductive packed_kind := PackedVarint | PackedFixed (bits : Z) | PackedNone.

Definition packed_kind_of (ptype : Z) : packed_kind :=
  if bool_decide (ptype ∈ [PTYPE_INT64; PTYPE_UINT64; PTYPE_INT32; PTYPE_BOOL; PTYPE_UINT32; PTYPE_ENUM;
    PTYPE_SINT32; PTYPE_SINT64]) then PackedVarint
  else if bool_decide (ptype ∈ [PTYPE_DOUBLE; PTYPE_FIXED64; PTYPE_SFIXED64]) then PackedFixed 64
  else if bool_decide (ptype ∈ [PTYPE_FLOAT; PTYPE_FIXED32; PTYPE_SFIXED32]) then PackedFixed 32
  else PackedNone.

Definition _pbcC_open_packed (temp : Z -> list Z) (ptype : Z) (mem : option (list Z))
    (inner : list (option atom)) : option (Z * context) :=
  match mem with
  | None => Some (0, Context 0 (Some 0) AtNull inner)
  | Some mem =>
      let size := zlen mem in
      if size =? 0 then Some (0, Context size (Some 0) AtNull inner)
      else
        match packed_kind_of ptype with
        | PackedNone => Some (0, Context size (Some 0) AtNull inner)
        | PackedVarint => _open_packed_varint temp mem inner
        | PackedFixed bits =>
            let number := size / (bits / 8) in
            if INNER_ATOM <? number then
              a ← packed_fixed (Z.to_nat number) bits mem 0 0 (replicate (Z.to_nat number) None);
              Some (number, Context size (Some number) (AtHeap a) inner)
            else
              a ← packed_fixed (Z.to_nat number) bits mem 0 0 inner;
              Some (number, Context size (Some number) AtInner a)
        end
  end.

(** free(ctx->a): a heap array is given back. *)
Definition _pbcC_close (ctx : context) : context :=
  match c_a ctx with
  | AtHeap _ => Context (c_size ctx) (c_number ctx) AtNull (c_inner ctx)
  | _ => ctx
  end.

(** [ctx->a[i]] for [i < ctx->number]. *)
Definition c_atom (ctx : context) (i : Z) : option atom :=
  match c_a ctx with
  | AtNull => None
  | AtInner => zget (c_inner ctx) i ≫= id
  | AtHeap a => zget a i ≫= id
  end.

(** ** Decoding one field *)

Lemma drop_zlen {A} (pre l : list A) p : zlen pre = p -> drop (Z.to_nat p) (pre ++ l) = l.
Proof. intros <-. unfold zlen. rewrite Nat2Z.id. by rewrite drop_app_length. Qed.

(** A number that is all there: [cap] bytes are left. *)
Lemma decode_at_spec temp pre l rest p cap :
  is_varint l -> (length l <= 10)%nat -> length temp = 10%nat ->
  zlen pre = p -> cap = zlen l + zlen rest ->
  exists temp', decode_at temp (pre ++ l ++ rest) p cap = Some (zlen l, ll (varint_val l), temp') /\
    length temp' = 10%nat.
Proof.
  intros Hl Hlen Ht Hp ->. unfold decode_at. rewrite (drop_zlen pre) by done.
  pose proof (zlen_nonneg pre). pose proof (zlen_nonneg l). pose proof (zlen_nonneg rest).
  destruct (Z.leb_spec 10 (zlen l + zlen rest)).
  - rewrite decode_spec by done. rewrite some_bind. by exists temp.
  - unfold fill_temp. rewrite drop_zlen by done. rewrite !zlen_app.
    destruct (Z.leb_spec 0 (zlen l + zlen rest)); [|lia].
    destruct (Z.leb_spec (zlen l + zlen rest) 10); [|lia].
    destruct (Z.leb_spec (p + (zlen l + zlen rest)) (zlen pre + (zlen l + zlen rest))); [|lia].
    cbn [andb c_assert]. rewrite !some_bind. rewrite take_ge by (rewrite length_app; unfold zlen in *; lia).
    rewrite <- app_assoc, decode_spec by done. rewrite some_bind. eexists. split; [done|].
    rewrite !length_app, length_drop. unfold zlen in *. lia.
Qed.

Lemma ptr_in mem p : 0 <= p <= zlen mem -> ptr mem p = Some p.
Proof. intros. unfold ptr. by rewrite !(proj2 (Z.leb_le _ _)) by lia. Qed.

Lemma zlen_le32 v : zlen (le32 v) = 4.
Proof. done. Qed.

Lemma read32_spec pre v rest p : is_u32 v -> zlen pre = p ->
  read32 (pre ++ le32 v ++ rest) p = Some v.
Proof.
  intros Hv Hp. unfold read32.
  assert (forall k, 0 <= k -> zget (pre ++ le32 v ++ rest) (p + k) = zget (le32 v ++ rest) k) as Hg.
  { intros k Hk. rewrite zget_app_r by lia. f_equal. lia. }
  rewrite <- (Z.add_0_r p) at 1. rewrite !Hg by lia.
  change (zget (le32 v ++ rest) 0) with (Some (u8 v)).
  change (zget (le32 v ++ rest) 1) with (Some (u8 (v >> 8))).
  change (zget (le32 v ++ rest) 2) with (Some (u8 (v >> 16))).
  change (zget (le32 v ++ rest) 3) with (Some (u8 (v >> 24))).
  rewrite !some_bind. f_equal. rewrite lor_word32 by apply is_u8_u8.
  rewrite word32_u8_shiftr by done. by apply wrap_small.
Qed.

(** ** What an encoded message is *)

Inductive payload := Varint (n : Z) | Bit64 (lo hi : Z) | Lend (bytes : list Z) | Bit32 (lo : Z).
Record field := Field { f_id : Z; f_payload : payload }.

Definition f_tag (f : field) : Z :=
  f_id f * 8 + match f_payload f with
    | Varint _ => WT_VARINT | Bit64 _ _ => WT_BIT64 | Lend _ => WT_LEND | Bit32 _ => WT_BIT32 end.

Definition f_ok (f : field) : Prop :=
  0 <= f_id f < 2 ^ 29 /\
  match f_payload f with
  | Varint n => is_u64 n | Bit64 lo hi => is_u32 lo /\ is_u32 hi | Lend _ => True | Bit32 lo => is_u32 lo
  end.

#[export] Instance f_ok_dec f : Decision (f_ok f).
Proof. unfold f_ok. destruct (f_payload f); apply _. Defined.

Definition encode_payload (p : payload) : option (list Z) :=
  match p with
  | Varint n => _pbcV_encode n
  | Bit64 lo hi => Some (le32 lo ++ le32 hi)
  | Lend bytes => l ← _pbcV_encode (zlen bytes); Some (l ++ bytes)
  | Bit32 lo => Some (le32 lo)
  end.

Definition encode_field (f : field) : option (list Z) :=
  t ← _pbcV_encode (f_tag f); p ← encode_payload (f_payload f); Some (t ++ p).

(** The atom of a field whose encoding ends at offset [end_]. *)
Definition field_atom (f : field) (end_ : Z) : atom :=
  Atom (i32 (f_tag f))
    match f_payload f with
    | Varint n => ll n
    | Bit64 lo hi => LL lo hi
    | Lend bytes => LL (end_ - zlen bytes) end_
    | Bit32 lo => LL lo 0
    end.

Lemma f_tag_u32 f : f_ok f -> is_u32 (f_tag f).
Proof.
  unfold f_ok, f_tag, is_u. intros [? _].
  destruct (f_payload f); unfold WT_VARINT, WT_BIT64, WT_LEND, WT_BIT32; lia.
Qed.

Lemma f_tag_wiretype f : f_tag f .& 7 =
  match f_payload f with
  | Varint _ => WT_VARINT | Bit64 _ _ => WT_BIT64 | Lend _ => WT_LEND | Bit32 _ => WT_BIT32 end.
Proof.
  rewrite land_7. unfold f_tag. rewrite Z.add_comm, Z_mod_plus_full.
  by destruct (f_payload f).
Qed.

Lemma decode_field temp pre f e rest :
  f_ok f -> encode_field f = Some e -> length temp = 10%nat ->
  zlen (pre ++ e ++ rest) < 2 ^ 31 ->
  wiretype_decode temp (pre ++ e ++ rest) (zlen pre) (zlen e + zlen rest) (zlen pre)
  = Some (Some (field_atom f (zlen pre + zlen e), zlen pre + zlen e)) /\ 0 < zlen e.
Proof.
  intros Hok He Htemp Hsize. pose proof (f_tag_u32 f Hok) as Htag. unfold encode_field in He.
  destruct (encode_spec (f_tag f)) as (t & Ht & Hvt & Hval & Hlt); [unfold is_u in *; lia|].
  assert (length t <= 10)%nat as Hlt10 by (case_match; lia). pose proof (is_varint_nonempty _ Hvt) as Hne.
  rewrite Ht, some_bind in He. destruct (encode_payload (f_payload f)) as [e'|] eqn:Hep; [|done].
  rewrite some_bind in He. injection He as <-. rewrite zlen_app.
  split; [|pose proof (zlen_nonneg e'); unfold zlen at 1; lia].
  unfold wiretype_decode. rewrite <- (app_assoc t e' rest) in *.
  destruct (decode_at_spec temp pre t (e' ++ rest) (zlen pre) (zlen t + zlen e' + zlen rest))
    as (temp1 & -> & Htemp1); [done|done|done|done|rewrite zlen_app; lia|].
  rewrite some_bind, Hval, ll_small by done. cbn [low hi].
  pose proof (zlen_nonneg e'). pose proof (zlen_nonneg rest). pose proof (zlen_nonneg pre). pose proof (zlen_nonneg t).
  rewrite (proj2 (Z.ltb_ge _ _)) by lia. rewrite andb_false_r. cbn [orb negb]. rewrite Z.eqb_refl. cbn [negb].
  rewrite !zlen_app in Hsize. rewrite ptr_in by (rewrite !zlen_app; lia). rewrite some_bind.
  rewrite f_tag_wiretype. rewrite (app_assoc pre t).
  assert (zlen (pre ++ t) = zlen pre + zlen t) as Hpt by apply zlen_app.
  replace (zlen t + zlen e' + zlen rest - zlen t) with (zlen e' + zlen rest) by lia.
  replace (zlen pre + (zlen t + zlen e')) with (zlen pre + zlen t + zlen e') by lia.
  unfold field_atom. destruct Hok as [_ Hok].
  destruct (f_payload f) as [n|lo hi|bytes|lo]; cbn [encode_payload] in Hep;
    change (WT_BIT64 =? WT_VARINT) with false; change (WT_LEND =? WT_VARINT) with false;
    change (WT_BIT32 =? WT_VARINT) with false; change (WT_LEND =? WT_BIT64) with false;
    change (WT_BIT32 =? WT_BIT64) with false; change (WT_BIT32 =? WT_LEND) with false;
    rewrite ?Z.eqb_refl; cbv iota.
  - destruct (encode_spec n Hok) as (l & Hl & Hvl & Hnval & Hll).
    assert (e' = l) as -> by congruence. assert (length l <= 10)%nat by (case_match; lia).
    destruct (decode_at_spec temp1 (pre ++ t) l rest (zlen pre + zlen t) (zlen l + zlen rest))
      as (temp2 & -> & _); [done..|]. rewrite some_bind, Hnval.
    rewrite (proj2 (Z.ltb_ge _ _)), andb_false_r by lia.
    by rewrite ptr_in, some_bind by (rewrite !zlen_app; lia).
  - assert (e' = le32 lo ++ le32 hi) as -> by congruence. assert (zlen (le32 lo ++ le32 hi) = 8) as H8 by done. rewrite H8 in Hsize |- *.
    rewrite (proj2 (Z.ltb_ge _ _)) by lia. destruct Hok as [Hlo Hhi].
    rewrite <- (app_assoc (le32 lo) (le32 hi) rest). rewrite (read32_spec (pre ++ t) lo _ (zlen pre + zlen t)), some_bind by done.
    rewrite (app_assoc (pre ++ t)). rewrite (read32_spec _ hi) by (done || (rewrite zlen_app, Hpt; done)).
    rewrite some_bind. by rewrite ptr_in by (rewrite !zlen_app, ?zlen_le32; lia).
  - destruct (_pbcV_encode (zlen bytes)) as [l0|] eqn:Hl0; [|done]. rewrite some_bind in Hep.
    assert (e' = l0 ++ bytes) as -> by congruence. rewrite zlen_app in Hsize |- *. pose proof (zlen_nonneg bytes). pose proof (zlen_nonneg l0).
    destruct (encode_spec (zlen bytes)) as (l & Hl & Hvl & Hnval & Hll); [unfold is_u; lia|].
    assert (l0 = l) as -> by congruence. assert (length l <= 10)%nat by (case_match; lia).
    rewrite <- (app_assoc l bytes).
    destruct (decode_at_spec temp1 (pre ++ t) l (bytes ++ rest) (zlen pre + zlen t)
      (zlen l + zlen bytes + zlen rest)) as (temp2 & -> & _); [done..|rewrite zlen_app; lia|].
    rewrite some_bind, Hnval, ll_small by (unfold is_u; lia). cbn [low hi].
    unfold u32. rewrite !wrap_small by (unfold is_u; lia).
    rewrite (proj2 (Z.ltb_ge _ _)) by lia. rewrite Z.eqb_refl. cbn [negb orb].
    rewrite ptr_in by (rewrite !zlen_app; lia). rewrite some_bind. do 2 f_equal.
    f_equal; [|lia]. f_equal. f_equal; lia.
  - assert (e' = le32 lo) as -> by congruence. assert (zlen (le32 lo) = 4) as H4 by done. rewrite H4 in Hsize |- *.
    rewrite (proj2 (Z.ltb_ge _ _)) by lia. rewrite read32_spec, some_bind by done.
    by rewrite ptr_in by (rewrite !zlen_app; lia).
Qed.

(** ** The two loops *)

(** The atoms of fields whose encodings [es] begin at offset [p]. *)
Fixpoint field_atoms (p : Z) (fs : list field) (es : list (list Z)) : list atom :=
  match fs, es with
  | f :: fs', e :: es' => field_atom f (p + zlen e) :: field_atoms (p + zlen e) fs' es'
  | _, _ => []
  end.

Definition encoded (fs : list field) (es : list (list Z)) : Prop :=
  Forall2 (fun f e => f_ok f /\ encode_field f = Some e) fs es.

Lemma length_field_atoms fs es : encoded fs es -> forall p, length (field_atoms p fs es) = length fs.
Proof. induction 1 as [|f e fs es _ _ IH]; intros p; simpl; [done|]. by rewrite IH. Qed.

Lemma concat_cons {A} (l : list A) ls : concat (l :: ls) = l ++ concat ls.
Proof. done. Qed.

Lemma open_inner_spec temp n : (forall p, length (temp p) = 10%nat) ->
  forall fs es pre i inner, encoded fs es -> zlen (pre ++ concat es) < 2 ^ 31 ->
  0 <= i -> i + Z.of_nat n = zlen inner ->
  exists fs1 es1 fs2 es2, fs = fs1 ++ fs2 /\ es = es1 ++ es2 /\ encoded fs1 es1 /\ encoded fs2 es2 /\
    (length fs1 <= n)%nat /\ (fs2 = [] \/ length fs1 = n) /\
    open_inner n temp (pre ++ concat es) i (zlen pre) (zlen (concat es)) (zlen pre) inner
    = Some (inr (i + zlen fs1, zlen (pre ++ concat es1), zlen (concat es2), zlen (pre ++ concat es1),
        splice inner i (Some <$> field_atoms (zlen pre) fs1 es1))).
Proof.
  intros Htemp. induction n as [|n IH]; intros fs es pre i inner He Hsize Hi Hin.
  { exists [], [], fs, es. split_and!; try done; [constructor|by right|].
    cbn [open_inner field_atoms fmap list_fmap concat]. rewrite splice_nil, app_nil_r.
    by rewrite zlen_nil, Z.add_0_r. }
  destruct He as [|f e fs es [Hf Hfe] He].
  { exists [], [], [], []. split_and!; try done; [constructor..|simpl; lia|by left|].
    cbn. rewrite splice_nil, app_nil_r. by rewrite Z.add_0_r. }
  rewrite concat_cons in *. cbn [open_inner].
  destruct (decode_field (temp (zlen pre)) pre f e (concat es) Hf Hfe (Htemp _) Hsize) as [Hd He0].
  rewrite zlen_app. pose proof (zlen_nonneg (concat es)).
  rewrite (proj2 (Z.eqb_neq _ _)) by lia. rewrite Hd, some_bind.
  rewrite zset_eq, some_bind by lia.
  destruct (IH fs es (pre ++ e) (i + 1) (<[Z.to_nat i := Some (field_atom f (zlen pre + zlen e))]> inner))
    as (fs1 & es1 & fs2 & es2 & -> & -> & H1 & H2 & Hl & Hor & Hop);
    [done|by rewrite <- app_assoc|lia|rewrite zlen_insert; lia|].
  exists (f :: fs1), (e :: es1), fs2, es2. split_and!; try done.
  - by constructor.
  - simpl. lia.
  - destruct Hor as [->|<-]; [by left|by right].
  - rewrite <- app_assoc, zlen_app in Hop.
    replace (zlen pre + (zlen pre + zlen e - zlen pre)) with (zlen pre + zlen e) by lia.
    replace (zlen e + zlen (concat (es1 ++ es2)) - (zlen pre + zlen e - zlen pre))
      with (zlen (concat (es1 ++ es2))) by lia.
    rewrite Hop. rewrite splice_cons by lia. cbn [field_atoms fmap list_fmap]. rewrite concat_cons, <- app_assoc.
    rewrite zlen_cons. by replace (i + (1 + zlen fs1)) with (i + 1 + zlen fs1) by lia.
Qed.

Lemma open_heap_spec temp fuel : (forall p, length (temp p) = 10%nat) ->
  forall fs es pre i a, encoded fs es -> zlen (pre ++ concat es) < 2 ^ 31 ->
  0 <= i <= zlen a -> (2 * length fs + (if (i <? zlen a)%Z then 0 else 1) < fuel)%nat ->
  exists tl, open_heap fuel temp (pre ++ concat es) i (zlen pre) (zlen (concat es)) (zlen pre) a
    = Some (inr (i + zlen fs, take (Z.to_nat i) a ++ (Some <$> field_atoms (zlen pre) fs es) ++ tl)).
Proof.
  intros Htemp. induction fuel as [|fuel IH]; intros fs es pre i a He Hsize Hi Hf; [lia|].
  destruct He as [|f e fs es [Hf0 Hfe] He].
  { exists (drop (Z.to_nat i) a). cbn. by rewrite take_drop, Z.add_0_r. }
  rewrite concat_cons in *. cbn [open_heap].
  destruct (decode_field (temp (zlen pre)) pre f e (concat es) Hf0 Hfe (Htemp _) Hsize) as [Hd He0].
  rewrite zlen_app. pose proof (zlen_nonneg (concat es)). rewrite (proj2 (Z.ltb_lt _ _)) by lia.
  destruct (Z.leb_spec (zlen a) i) as [Hge|Hlt].
  - assert (i = zlen a) as -> by lia. rewrite (proj2 (Z.ltb_ge _ _)) in Hf by lia.
    destruct (IH (f :: fs) (e :: es) pre (zlen a) (grow_cells a)) as [tl Htl].
    + by constructor.
    + done.
    + unfold grow_cells. rewrite zlen_app, zlen_replicate. lia.
    + unfold grow_cells. rewrite zlen_app, zlen_replicate. rewrite (proj2 (Z.ltb_lt _ _)) by lia. lia.
    + rewrite concat_cons, zlen_app in Htl. rewrite Htl. exists tl. unfold grow_cells.
      by rewrite take_app_le by (unfold zlen; lia).
  - rewrite (proj2 (Z.ltb_lt _ _)) in Hf by lia. rewrite Hd, some_bind, zset_eq, some_bind by lia.
    destruct (IH fs es (pre ++ e) (i + 1) (<[Z.to_nat i := Some (field_atom f (zlen pre + zlen e))]> a))
      as [tl Htl]; [done|by rewrite <- app_assoc|rewrite zlen_insert; lia|simpl in Hf; case_match; lia|].
    exists tl. rewrite <- app_assoc, zlen_app in Htl.
    replace (zlen pre + (zlen pre + zlen e - zlen pre)) with (zlen pre + zlen e) by lia.
    replace (zlen e + zlen (concat es) - (zlen pre + zlen e - zlen pre)) with (zlen (concat es)) by lia.
    rewrite Htl, zlen_cons. replace (i + (1 + zlen fs)) with (i + 1 + zlen fs) by lia.
    do 3 f_equal. cbn [field_atoms fmap list_fmap].
    replace (Z.to_nat (i + 1)) with (S (Z.to_nat i)) by lia.
    rewrite (take_S_r _ _ (Some (field_atom f (zlen pre + zlen e)))), <- app_assoc.
    + by rewrite take_insert_ge by lia.
    + rewrite list_lookup_insert_eq by (unfold zlen in Hlt; lia). done.
Qed.

Lemma encode_field_nonempty f e : f_ok f -> encode_field f = Some e -> 0 < zlen e.
Proof.
  intros Hok He. unfold encode_field in He. pose proof (f_tag_u32 f Hok) as Ht.
  destruct (encode_spec (f_tag f)) as (t & Ht' & Hvt & _); [unfold is_u in *; lia|].
  rewrite Ht', some_bind in He. destruct (encode_payload _) as [e'|]; [|done]. injection He as <-.
  pose proof (is_varint_nonempty _ Hvt). rewrite zlen_app. unfold zlen. lia.
Qed.

Lemma encoded_empty fs es : encoded fs es -> zlen (concat es) = 0 -> fs = [] /\ es = [].
Proof.
  destruct 1 as [|f e fs es [Hf He] _]; [done|]. rewrite concat_cons, zlen_app.
  pose proof (encode_field_nonempty f e Hf He). pose proof (zlen_nonneg (concat es)). lia.
Qed.

Lemma encoded_length fs es : encoded fs es -> (length fs <= length (concat es))%nat.
Proof.
  induction 1 as [|f e fs es [Hf He] _ IH]; [simpl; lia|]. rewrite concat_cons, length_app.
  pose proof (encode_field_nonempty f e Hf He) as Hp. unfold zlen in Hp. simpl. lia.
Qed.

Lemma field_atoms_app fs1 es1 fs2 es2 : encoded fs1 es1 -> forall p,
  field_atoms p (fs1 ++ fs2) (es1 ++ es2)
  = field_atoms p fs1 es1 ++ field_atoms (p + zlen (concat es1)) fs2 es2.
Proof.
  induction 1 as [|f e fs1 es1 _ _ IH]; intros p; simpl; [by rewrite Z.add_0_r|].
  rewrite IH, zlen_app. by rewrite Z.add_assoc.
Qed.

Lemma zget_some_fmap {A} (l : list A) l' i : 0 <= i < zlen l ->
  zget ((Some <$> l) ++ l') i ≫= id = zget l i.
Proof.
  intros Hi. rewrite zget_app_l by (unfold zlen in *; rewrite length_fmap; lia).
  rewrite !zget_nonneg, list_lookup_fmap by lia. by destruct (l !! Z.to_nat i).
Qed.

Lemma open_fields_full temp inner fs es :
  (forall p, length (temp p) = 10%nat) -> zlen inner = INNER_ATOM ->
  encoded fs es -> zlen (concat es) < 2 ^ 31 ->
  exists ctx, _pbcC_open temp (Some (concat es)) inner = Some (zlen fs, ctx) /\
    c_number ctx = Some (zlen fs) /\
    forall i, 0 <= i < zlen fs -> c_atom ctx i = zget (field_atoms 0 fs es) i.
Proof.
  intros Htemp Hinner He Hsize. unfold _pbcC_open.
  destruct (open_inner_spec temp (Z.to_nat INNER_ATOM) Htemp fs es [] 0 inner He Hsize)
    as (fs1 & es1 & fs2 & es2 & -> & -> & H1 & H2 & Hl & Hor & Hop); [lia|rewrite Hinner; done|].
  change (zlen (@nil Z)) with 0 in Hop. cbn [app] in Hop.
  set (A1 := field_atoms 0 fs1 es1) in *. set (A2 := field_atoms (0 + zlen (concat es1)) fs2 es2).
  assert (field_atoms 0 (fs1 ++ fs2) (es1 ++ es2) = A1 ++ A2) as -> by by apply field_atoms_app.
  pose proof (length_field_atoms fs1 es1 H1 0 : length A1 = length fs1) as Hla.
  pose proof (length_field_atoms fs2 es2 H2 _ : length A2 = length fs2) as Hlb.
  assert (zlen inner = 19) as Hi19 by done. change (Z.to_nat INNER_ATOM) with 19%nat in *.
  assert (splice inner 0 (Some <$> A1) = (Some <$> A1) ++ drop (length A1) inner) as Hsp
    by (unfold splice; by rewrite length_fmap).
  destruct (Z.eqb_spec (zlen (concat (es1 ++ es2))) 0) as [Hz|_].
  { destruct (encoded_empty _ _ He Hz) as [-> _]. eexists. split; [done|]. split; [done|].
    intros i [? Hlt]. unfold zlen in Hlt. simpl in Hlt. lia. }
  rewrite Hop, some_bind. destruct (Z.ltb_spec 0 (zlen (concat es2))) as [Hpos|Hz].
  - destruct Hor as [->|Hl19]; [inversion H2; subst; done|].
    destruct (open_heap_spec temp (2 * length (concat (es1 ++ es2)) + 2) Htemp fs2 es2 (concat es1) 19
      (replicate 64 None) H2) as [tl Htl]; [by rewrite <- concat_app|rewrite zlen_replicate; lia| |].
    { pose proof (encoded_length _ _ H2). rewrite zlen_replicate, concat_app, length_app. simpl. lia. }
    rewrite <- concat_app in Htl. replace (0 + zlen fs1) with 19 by (unfold zlen; lia).
    rewrite Htl, some_bind. rewrite zlen_app. replace (19 + zlen fs2) with (zlen fs1 + zlen fs2) by (unfold zlen; lia).
    eexists. split; [done|]. split; [done|]. intros i Hi. unfold c_atom. cbn [c_a].
    assert (copy_inner (take (Z.to_nat 19) (replicate 64 None) ++ (Some <$> A2) ++ tl)
      (splice inner 0 (Some <$> A1)) = (Some <$> (A1 ++ A2)) ++ tl) as Hc.
    { unfold copy_inner. rewrite Hsp, drop_ge, app_nil_r by (unfold zlen in Hi19; lia).
      rewrite length_fmap, Hla, Hl19. rewrite fmap_app, <- app_assoc. f_equal. }
    change (field_atoms (zlen (concat es1)) fs2 es2) with A2. rewrite Hc. apply zget_some_fmap.
    unfold zlen in *. rewrite length_app. lia.
  - pose proof (zlen_nonneg (concat es2)). destruct (encoded_empty _ _ H2) as [-> ->]; [lia|].
    rewrite !app_nil_r. eexists. split; [done|]. split; [done|]. intros i Hi. unfold c_atom. cbn [c_a c_inner].
    rewrite Hsp. unfold A2. cbn [field_atoms]. rewrite ?app_nil_r. apply zget_some_fmap.
    unfold zlen in *. lia.
Qed.

(** [C38] Opening a message: the concatenated encodings of any number of fields, in
    fewer than 2^31 bytes, are split into exactly those fields, in order, whether
    the atoms fit in the context or not; a length-delimited field gets the offsets
    of its bytes. *)
Theorem open_fields temp inner fs es :
  (forall p, length (temp p) = 10%nat) -> zlen inner = INNER_ATOM ->
  encoded fs es -> zlen (concat es) < 2 ^ 31 ->
  exists ctx, _pbcC_open temp (Some (concat es)) inner = Some (zlen fs, ctx) /\
    c_number ctx = Some (zlen fs) /\
    forall i, 0 <= i < zlen fs -> c_atom ctx i = zget (field_atoms 0 fs es) i.
Proof. apply open_fields_full. Qed.

(** ** Arbitrary input *)

Definition temp_ok (temp : list Z) : Prop := length temp = 10%nat /\ is_bytes temp.

Lemma decode_at_total temp mem p cap :
  temp_ok temp -> is_bytes mem -> 0 <= p -> 0 <= cap -> p + cap = zlen mem ->
  exists len r temp', decode_at temp mem p cap = Some (len, r, temp') /\ 1 <= len <= 10 /\
    is_u32 (low r) /\ is_u32 (hi r) /\ temp_ok temp'.
Proof.
  intros [Ht Htb] Hm Hp Hc Hpc. unfold decode_at.
  assert (is_bytes (drop (Z.to_nat p) mem)) as Hdb by (by apply Forall_drop).
  destruct (Z.leb_spec 10 cap).
  - destruct (decode_total (drop (Z.to_nat p) mem)) as (n & r & -> & ? & ? & ?); [done| |].
    { rewrite length_drop. unfold zlen in *. lia. }
    rewrite some_bind. by exists n, r, temp.
  - unfold fill_temp. rewrite !(proj2 (Z.leb_le _ _)) by lia. cbn [andb c_assert]. rewrite !some_bind.
    set (t := take (Z.to_nat cap) (drop (Z.to_nat p) mem) ++ drop (Z.to_nat cap) temp).
    assert (temp_ok t) as [Hl Hb].
    { split.
      - unfold t. rewrite length_app, length_take, !length_drop. unfold zlen in *. lia.
      - apply is_bytes_app. split; [by apply Forall_take|by apply Forall_drop]. }
    destruct (decode_total t) as (n & r & -> & ? & ? & ?); [done|lia|]. rewrite some_bind. by exists n, r, t.
Qed.

Lemma read32_total mem p : 0 <= p -> p + 4 <= zlen mem -> exists v, read32 mem p = Some v.
Proof.
  intros. unfold read32.
  destruct (zget_is_Some mem p) as [? ->]; [lia|]. destruct (zget_is_Some mem (p + 1)) as [? ->]; [lia|].
  destruct (zget_is_Some mem (p + 2)) as [? ->]; [lia|]. destruct (zget_is_Some mem (p + 3)) as [? ->]; [lia|].
  rewrite !some_bind. eauto.
Qed.

(** The field at [p] is length-delimited and its length, added to the size of the
    length itself, reaches 2^32. *)
Definition lend_wraps (temp mem : list Z) (p : Z) : bool :=
  match decode_at temp mem p (zlen mem - p) with
  | Some (len, r, temp) =>
      (low r .& 7 =? WT_LEND) && (len <=? zlen mem - p) &&
      match decode_at temp mem (p + len) (zlen mem - p - len) with
      | Some (len, r, _) => 2 ^ 32 <=? len + low r
      | None => false
      end
  | None => false
  end.

Lemma wiretype_decode_total temp mem p :
  temp_ok temp -> is_bytes mem -> 0 <= p <= zlen mem -> zlen mem < 2 ^ 31 ->
  lend_wraps temp mem p = false ->
  exists r, wiretype_decode temp mem p (zlen mem - p) p = Some r /\
    match r with Some (_, p') => p < p' <= zlen mem | None => True end.
Proof.
  intros Ht Hm Hp Hs Hw. unfold wiretype_decode, lend_wraps in *.
  destruct (decode_at_total temp mem p (zlen mem - p)) as (len & r & t1 & Hd & Hlen & Hlo & Hhi & Ht1);
    [done|done|lia|lia|lia|]. rewrite Hd in *. rewrite some_bind.
  destruct ((negb (10 <=? zlen mem - p) && (zlen mem - p <? len)) || negb (hi r =? 0)) eqn:Hc; [by exists None|].
  apply orb_false_elim in Hc as [Hc _].
  assert (len <= zlen mem - p) as Hle.
  { destruct (Z.leb_spec 10 (zlen mem - p)); [lia|]. simpl in Hc. apply Z.ltb_ge in Hc. lia. }
  rewrite ptr_in, some_bind by lia. rewrite (proj2 (Z.leb_le _ _) Hle), andb_true_r in Hw.
  destruct (decode_at_total t1 mem (p + len) (zlen mem - p - len)) as (len2 & r2 & t2 & Hd2 & Hlen2 & Hlo2 & _);
    [done|done|lia|lia|lia|]. rewrite Hd2 in Hw. rewrite Hd2, !some_bind.
  destruct (low r .& 7 =? WT_VARINT).
  { destruct (negb (10 <=? zlen mem - p - len) && (zlen mem - p - len <? len2)) eqn:Hc2; [by exists None|].
    assert (len2 <= zlen mem - p - len).
    { destruct (Z.leb_spec 10 (zlen mem - p - len)); [lia|]. simpl in Hc2. apply Z.ltb_ge in Hc2. lia. }
    rewrite ptr_in by lia. eexists. split; [done|]. simpl. lia. }
  destruct (low r .& 7 =? WT_BIT64).
  { destruct (Z.ltb_spec (zlen mem - p - len) 8); [by exists None|].
    destruct (read32_total mem (p + len)) as [lo ->]; [lia..|].
    destruct (read32_total mem (p + len + 4)) as [h ->]; [lia..|].
    rewrite !some_bind, ptr_in by lia. eexists. split; [done|]. simpl. lia. }
  destruct (low r .& 7 =? WT_LEND) eqn:Hwt.
  { simpl in Hw. apply Z.leb_gt in Hw. unfold is_u in Hlo2. unfold u32. rewrite !wrap_small by (unfold is_u; lia).
    destruct (Z.ltb_spec (zlen mem - p - len) (len2 + low r2)); [by exists None|]. cbn [orb].
    destruct (negb (hi r2 =? 0)); [by exists None|].
    rewrite ptr_in by lia. eexists. split; [done|]. simpl. lia. }
  destruct (low r .& 7 =? WT_BIT32); [|by exists None].
  destruct (Z.ltb_spec (zlen mem - p - len) 4); [by exists None|].
  destruct (read32_total mem (p + len)) as [lo ->]; [lia..|].
  rewrite !some_bind, ptr_in by lia. eexists. split; [done|]. simpl. lia.
Qed.

Section safe.
Context (temp : Z -> list Z) (mem : list Z).
Context (Htemp : forall p, temp_ok (temp p)) (Hmem : is_bytes mem) (Hsize : zlen mem < 2 ^ 31).
Context (Hwrap : forall p, 0 <= p <= zlen mem -> lend_wraps (temp p) mem p = false).

Lemma open_inner_total n : forall i p inner, 0 <= i -> i + Z.of_nat n = zlen inner ->
  0 <= p <= zlen mem ->
  exists r, open_inner n temp mem i p (zlen mem - p) p inner = Some r /\
    match r with
    | inl k => 0 <= k
    | inr (i', p', size', start', inner') => size' = zlen mem - p' /\ start' = p' /\ p <= p' <= zlen mem /\
        zlen inner' = zlen inner /\ 0 <= i' <= zlen inner /\ (0 < size' -> i' = zlen inner)
    end.
Proof using Htemp Hmem Hsize Hwrap.
  induction n as [|n IH]; intros i p inner Hi Hn Hp; cbn [open_inner].
  { eexists. split; [done|]. simpl. split_and!; lia. }
  destruct (Z.eqb_spec (zlen mem - p) 0) as [Hz|Hz].
  { eexists. split; [done|]. simpl. split_and!; lia. }
  destruct (wiretype_decode_total (temp p) mem p) as ([[a p']|] & -> & Hp'); auto; rewrite some_bind.
  - rewrite zset_eq, some_bind by lia.
    replace (zlen mem - p - (p' - p)) with (zlen mem - p') by lia. replace (p + (p' - p)) with p' by lia.
    destruct (IH (i + 1) p' (<[Z.to_nat i := Some a]> inner)) as (r & -> & Hr); [lia|rewrite zlen_insert; lia|lia|].
    exists r. split; [done|]. destruct r as [k|[[[[i' p''] s'] st'] inner']]; [done|].
    rewrite zlen_insert in Hr. destruct_and! Hr. split_and!; try done; lia.
  - eexists. split; [done|]. done.
Qed.

Lemma open_heap_total fuel : forall i p a, 0 <= i <= zlen a -> 0 <= p <= zlen mem ->
  (Z.to_nat (2 * (zlen mem - p)) + (if (i <? zlen a)%Z then 0 else 1) < fuel)%nat ->
  exists r, open_heap fuel temp mem i p (zlen mem - p) p a = Some r.
Proof using Htemp Hmem Hsize Hwrap.
  induction fuel as [|fuel IH]; intros i p a Hi Hp Hf; [lia|]. cbn [open_heap].
  destruct (Z.ltb_spec 0 (zlen mem - p)); [|eauto].
  destruct (Z.leb_spec (zlen a) i).
  - rewrite (proj2 (Z.ltb_ge _ _)) in Hf by lia. apply IH; unfold grow_cells; rewrite ?zlen_app, ?zlen_replicate; [lia|lia|].
    rewrite (proj2 (Z.ltb_lt _ _)) by lia. lia.
  - rewrite (proj2 (Z.ltb_lt _ _)) in Hf by lia.
    destruct (wiretype_decode_total (temp p) mem p) as ([[x p']|] & -> & Hp'); auto; rewrite some_bind; [|eauto].
    rewrite zset_eq, some_bind by lia.
    replace (zlen mem - p - (p' - p)) with (zlen mem - p') by lia. replace (p + (p' - p)) with p' by lia.
    apply IH; [rewrite zlen_insert; lia|lia|]. case_match; lia.
Qed.
End safe.

(** [C39] Opening any bytes, however malformed, returns and never leaves the buffer
    or an array, provided no length field reaches 2^32 together with its own size. *)
Theorem open_safe temp inner mem :
  (forall p, temp_ok (temp p)) -> zlen inner = INNER_ATOM -> is_bytes mem -> zlen mem < 2 ^ 31 ->
  Forall (fun p => lend_wraps (temp p) mem p = false) (seqZ 0 (zlen mem + 1)) ->
  exists n ctx, _pbcC_open temp (Some mem) inner = Some (n, ctx).
Proof.
  intros Htemp Hin Hm Hs Hw. rewrite Forall_forall in Hw.
  assert (forall p, 0 <= p <= zlen mem -> lend_wraps (temp p) mem p = false) as Hwrap.
  { intros p Hp. apply Hw, elem_of_seqZ. lia. }
  unfold _pbcC_open. pose proof (zlen_nonneg mem). destruct (Z.eqb_spec (zlen mem) 0); [eauto|].
  destruct (open_inner_total temp mem Htemp Hm Hs Hwrap (Z.to_nat INNER_ATOM) 0 0 inner)
    as (r & Hr & Hprop); [lia|by rewrite Hin|lia|].
  rewrite Z.sub_0_r in Hr. rewrite Hr, some_bind.
  destruct r as [k|[[[[i p] s] st] inner']]; [eauto|]. destruct Hprop as (-> & -> & Hp & Hl & Hi & Hfull).
  destruct (Z.ltb_spec 0 (zlen mem - p)); [|eauto].
  destruct (open_heap_total temp mem Htemp Hm Hs Hwrap (2 * length mem + 2) i p (replicate 64 None)) as [r Hr2].
  - rewrite zlen_replicate, Hfull by lia. rewrite Hin. done.
  - lia.
  - rewrite zlen_replicate. unfold zlen in *. case_match; lia.
  - rewrite Hr2, some_bind. destruct r as [[k a]|[k a]]; eauto.
Qed.

(** ** Packed fields *)

Definition packed (ns : list Z) (es : list (list Z)) : Prop :=
  Forall2 (fun n e => is_u64 n /\ _pbcV_encode n = Some e) ns es.

Lemma decode_varint_spec temp pre n e rest : length temp = 10%nat -> is_u64 n -> _pbcV_encode n = Some e ->
  _decode_varint temp (pre ++ e ++ rest) (zlen pre) (zlen (e ++ rest))
  = Some (zlen e, Atom WT_VARINT (ll n)) /\ 0 < zlen e.
Proof.
  intros Ht Hn He. destruct (encode_spec n Hn) as (l & He' & Hv & Hval & Hlen).
  assert (e = l) as -> by congruence. pose proof (is_varint_nonempty _ Hv). unfold _decode_varint.
  destruct (decode_at_spec temp pre l rest (zlen pre) (zlen (l ++ rest))) as (t & -> & _);
    [done|case_match; lia|done|done|apply zlen_app|].
  rewrite some_bind, Hval. split; [done|]. unfold zlen. lia.
Qed.

Lemma packed_inner_spec temp : (forall p, length (temp p) = 10%nat) ->
  forall ns es, packed ns es -> forall n pre rest i inner,
  (length ns <= n)%nat -> (length ns = n \/ rest = []) -> 0 <= i -> i + zlen ns <= zlen inner ->
  packed_inner n temp (pre ++ concat es ++ rest) i (zlen pre) (zlen (concat es ++ rest)) inner
  = Some (i + zlen ns, zlen (pre ++ concat es), zlen rest,
      splice inner i (Some <$> ((fun n => Atom WT_VARINT (ll n)) <$> ns))).
Proof.
  intros Htemp. induction 1 as [|x e ns es [Hx He] _ IH]; intros n pre rest i inner Hl Hor Hi Hin.
  { cbn [concat app fmap list_fmap]. rewrite splice_nil, zlen_nil, Z.add_0_r, app_nil_r.
    destruct n as [|n]; [done|]. destruct Hor as [Hor| ->]; done. }
  destruct n as [|n]; [simpl in Hl; lia|]. cbn [packed_inner]. rewrite concat_cons, <- app_assoc.
  destruct (decode_varint_spec (temp (zlen pre)) pre x e (concat es ++ rest) (Htemp _) Hx He) as [Hd He0].
  rewrite zlen_cons in *. pose proof (zlen_nonneg ns). pose proof (zlen_nonneg (concat es ++ rest)).
  rewrite (proj2 (Z.eqb_neq _ _)) by (rewrite zlen_app; lia). rewrite Hd, some_bind. cbn [fst snd].
  rewrite zset_eq, some_bind by lia. rewrite ptr_in, some_bind by (rewrite !zlen_app in *; pose proof (zlen_nonneg pre); lia).
  rewrite (zlen_app e). replace (zlen e + zlen (concat es ++ rest) - zlen e) with (zlen (concat es ++ rest)) by lia.
  rewrite <- (zlen_app pre e), (app_assoc pre e). simpl in Hl.
  rewrite IH; [|lia|simpl in Hor; destruct Hor; [left; lia|by right]|lia|rewrite zlen_insert; lia].
  rewrite splice_cons by lia. rewrite <- app_assoc. cbn [fmap list_fmap].
  by replace (i + (1 + zlen ns)) with (i + 1 + zlen ns) by lia.
Qed.

Lemma packed_nonempty ns es : packed ns es -> ns <> [] -> 0 < zlen (concat es).
Proof.
  destruct 1 as [|x e ns es [Hx He] _]; [done|]. intros _. rewrite concat_cons, zlen_app.
  destruct (encode_spec x Hx) as (l & He' & Hv & _). assert (e = l) as -> by congruence.
  pose proof (is_varint_nonempty _ Hv). pose proof (zlen_nonneg (concat es)). unfold zlen at 1. lia.
Qed.

Lemma packed_split n ns es : packed ns es ->
  packed (take n ns) (take n es) /\ packed (drop n ns) (drop n es) /\
  concat es = concat (take n es) ++ concat (drop n es).
Proof.
  intros Hp. split; [by apply Forall2_take|]. split; [by apply Forall2_drop|].
  by rewrite <- concat_app, take_drop.
Qed.

(** The first number of the second loop. *)
Lemma packed_heap_overflow temp fuel pre x e es i inner : (forall p, length (temp p) = 10%nat) ->
  is_u64 x -> _pbcV_encode x = Some e -> i = 19 -> zlen inner = 19 ->
  packed_heap fuel temp (pre ++ concat (e :: es)) i (zlen pre) (zlen (concat (e :: es))) 64 inner = None.
Proof.
  intros Htemp Hx He -> Hi. destruct fuel as [|fuel]; [done|]. cbn [packed_heap].
  rewrite concat_cons. destruct (decode_varint_spec (temp (zlen pre)) pre x e (concat es) (Htemp _) Hx He) as [-> He0].
  pose proof (zlen_nonneg (concat es)). rewrite (proj2 (Z.ltb_lt _ _)) by (rewrite zlen_app; lia).
  cbn [Z.leb Z.compare Pos.compare Pos.compare_cont]. rewrite some_bind. cbn [fst snd]. unfold zset. by rewrite Hi.
Qed.

(** Opening a packed field of varints: the encodings of at most 19 numbers
    give exactly these numbers; with more than 19 the code always writes behind the
    array of its context. *)
Theorem open_packed_varints temp ptype inner ns es :
  (forall p, length (temp p) = 10%nat) -> zlen inner = INNER_ATOM ->
  packed_kind_of ptype = PackedVarint -> packed ns es ->
  if zlen ns <=? INNER_ATOM then
    exists ctx, _pbcC_open_packed temp ptype (Some (concat es)) inner = Some (zlen ns, ctx) /\
      c_number ctx = Some (zlen ns) /\
      forall i, 0 <= i < zlen ns -> c_atom ctx i = (fun n => Atom WT_VARINT (ll n)) <$> zget ns i
  else _pbcC_open_packed temp ptype (Some (concat es)) inner = None.
Proof.
  intros Htemp Hinner Hkind Hp. unfold _pbcC_open_packed. rewrite Hkind.
  assert (zlen inner = 19) as H19 by done. change INNER_ATOM with 19.
  destruct (Z.eqb_spec (zlen (concat es)) 0) as [Hz|Hz].
  { destruct (decide (ns = [])) as [->|Hne]; [|pose proof (packed_nonempty ns es Hp Hne); lia].
    inversion Hp; subst. eexists. split; [done|]. split; [done|]. intros i [? Hlt]. unfold zlen in Hlt. simpl in Hlt. lia. }
  unfold _open_packed_varint. change INNER_ATOM with 19. destruct (Z.leb_spec (zlen ns) 19) as [Hle|Hgt].
  - pose proof (packed_inner_spec temp Htemp ns es Hp (Z.to_nat 19) [] [] 0 inner) as Hin.
    rewrite !app_nil_r in Hin. cbn [app] in Hin. change (zlen (@nil Z)) with 0 in Hin.
    rewrite Hin by (unfold zlen in *; (by right) || lia). rewrite some_bind. cbn [Z.eqb].
    eexists. split; [done|]. split; [done|]. intros i Hi. unfold c_atom. cbn [c_a c_inner]. unfold splice.
    change (take (Z.to_nat 0) inner) with (@nil (option atom)). cbn [app].
    rewrite zget_some_fmap by (unfold zlen in *; by rewrite length_fmap).
    rewrite !zget_nonneg by lia. apply list_lookup_fmap.
  - assert (19 < length ns)%nat as Hgt' by (unfold zlen in Hgt; lia).
    destruct (packed_split 19 ns es Hp) as (Hp1 & Hp2 & Hc). 
    assert (length (take 19 ns) = 19%nat) as Hlt by (rewrite length_take; lia).
    pose proof (packed_inner_spec temp Htemp _ _ Hp1 (Z.to_nat 19) [] (concat (drop 19 es)) 0 inner) as Hin.
    rewrite <- Hc in Hin. cbn [app] in Hin. change (zlen (@nil Z)) with 0 in Hin.
    rewrite Hin by (unfold zlen in *; rewrite ?Hlt; (by left) || lia). rewrite some_bind.
    assert (drop 19 ns <> []) as Hne by (intros Hd; apply (f_equal length) in Hd; rewrite length_drop in Hd;
      simpl in Hd; lia).
    pose proof (packed_nonempty _ _ Hp2 Hne) as Hpos. rewrite (proj2 (Z.eqb_neq _ _)) by lia.
    rewrite Hc. destruct Hp2 as [|x e ns2 es2 [Hx He] _]; [done|].
    rewrite packed_heap_overflow with (x := x) (e := e) (es := es2); try done.
    + unfold zlen. rewrite Hlt. lia.
    + rewrite zlen_splice; [|lia|]; unfold zlen in *; rewrite ?length_fmap, ?Hlt; lia.
Qed.

Lemma open_packed_varints_witness :
  exists ctx, _pbcC_open_packed (fun _ => replicate 10 0) PTYPE_INT32 (Some (concat [[5]; [172; 2]]))
      (replicate 19 None) = Some (2, ctx) /\ c_number ctx = Some 2 /\
    forall i, 0 <= i < 2 -> c_atom ctx i = (fun n => Atom WT_VARINT (ll n)) <$> zget [5; 300] i.
Proof.
  apply (open_packed_varints (fun _ => replicate 10 0) PTYPE_INT32 (replicate 19 None) [5; 300]); try done.
  repeat constructor; by_eval.
Defined.

Definition field_example : list field := [Field 1 (Varint 150); Field 2 (Lend [104; 105]); Field 3 (Bit32 7)].
Definition field_example_bytes : list (list Z) := [[8; 150; 1]; [18; 2; 104; 105]; [29; 7; 0; 0; 0]].

Lemma open_fields_witness :
  exists ctx, _pbcC_open (fun _ => replicate 10 0) (Some (concat field_example_bytes)) (replicate 19 None)
      = Some (3, ctx) /\ c_number ctx = Some 3 /\
    forall i, 0 <= i < 3 -> c_atom ctx i = zget (field_atoms 0 field_example field_example_bytes) i.
Proof.
  apply (open_fields (fun _ => replicate 10 0) (replicate 19 None) field_example field_example_bytes); try done.
  repeat constructor; by_eval.
Defined.

Lemma open_safe_witness : exists n ctx,
  _pbcC_open (fun _ => replicate 10 0) (Some [18; 200; 1; 9; 8]) (replicate 19 None) = Some (n, ctx).
Proof. apply open_safe; [intros _; split; by_eval|done|by_eval|done|by_eval]. Defined.

(** A length of 2^32 - 5 passes the bounds test: the end of the field is computed
    4 GB behind the buffer. *)
Lemma open_length_wraps :
  _pbcC_open (fun _ => replicate 10 0)
    (Some [0x0a; 0xfb; 0xff; 0xff; 0xff; 0x0f; 1; 2; 3; 4; 5; 6]) (replicate 19 None) = None.
Proof. vm_compute. reflexivity. Qed.

(** A packed field that ends inside a number makes the rest of the size negative,
    and the size of the next copy enormous. *)
Lemma open_packed_truncated :
  _pbcC_open_packed (fun _ => replicate 10 0) PTYPE_INT32 (Some [1; 0x80]) (replicate 19 None) = None.
Proof. vm_compute. reflexivity. Qed.
