(* ===== verification/PbcAlloc.v ===== *)
(** Memory of pbc: the heap that is freed as a whole (alloc.c), the pool of
    strings (stringpool.c) and the growing array (array.c), in pbc-master/src/.

    [malloc] always succeeds and gives a block nobody else has; a block is known
    by a number.  What is followed is where an allocation lies, what a string in
    the pool reads as later on, and whether an access stays in its block. *)

From S2P Require Import Prelude.
Local Open Scope Z_scope.
Local Open Scope word_scope.

(** ** The heap *)

(** [current] is the first page; a page is its block and its capacity. *)
Record heap := Heap { pages : list (Z * Z); h_size : Z; h_used : Z }.

(** while (cap < pagesize) cap *= 2; *)
Fixpoint page_cap (fuel : nat) (cap pagesize : Z) : option Z :=
  match fuel with
  | O => None
  | S fuel' => if cap <? pagesize then page_cap fuel' (cap * 2) pagesize else Some cap
  end.

(** [fresh] is the block [malloc] gives. *)
Definition _pbcH_new (fresh pagesize : Z) : option heap :=
  cap ← page_cap 32 1024 pagesize;
  Some (Heap [(fresh, cap)] cap 0).

(** The new heap, and the page and the offset of the memory. *)
Definition _pbcH_alloc (fresh : Z) (h : heap) (size : Z) : option (heap * (Z * Z)) :=
  let size := (size + 3) .& Z.lnot 3 in
  if h_size h - h_used h <? size then
    let cap := if size <? h_size h then h_size h else size in
    Some (Heap ((fresh, cap) :: pages h) (h_size h) size, (fresh, 0))
  else
    match pages h with
    | [] => None
    | (p, _) :: _ => Some (Heap (pages h) (h_size h) (h_used h + size), (p, h_used h))
    end.

(** The pages freed, in order. *)
Definition _pbcH_delete (h : heap) : option (list Z) :=
  match pages h with [] => None | ps => Some (ps.*1) end.

(** ** The pool of strings *)

Definition PAGE_SIZE : Z := 256.

(** The blocks and their bytes, [None] where nothing was written.  The pool
    header's own chunk is [buffer]; the others are a list. *)
Record stringpool := Pool {
  chunks : gmap Z (list (option Z)); buffer : Z; len : Z; pool_next : list (Z * Z)
}.

Definition blank (n : Z) : list (option Z) := replicate (Z.to_nat n) None.

Definition _pbcS_new (fresh : Z) : stringpool := Pool {[fresh := blank PAGE_SIZE]} fresh 0 [].

(** memcpy(block + off, str, s) *)
Definition copy_to (chunks : gmap Z (list (option Z))) (b off : Z) (bytes : list Z)
    : option (gmap Z (list (option Z))) :=
  c ← chunks !! b;
  _ ← c_assert ((0 <=? off) && (off + zlen bytes <=? zlen c));
  Some (<[b := splice c off (Some <$> bytes)]> chunks).

(** [str] holds the [sz] bytes and the byte after them; gives the pointer. *)
Definition _pbcS_build (fresh : Z) (pool : stringpool) (str : list Z) : option (stringpool * (Z * Z)) :=
  let s := zlen str in
  if s <? u64 (PAGE_SIZE - len pool) then
    chunks ← copy_to (chunks pool) (buffer pool) (len pool) str;
    Some (Pool chunks (buffer pool) (len pool + s) (pool_next pool), (buffer pool, len pool))
  else if PAGE_SIZE <? s then
    chunks ← copy_to (<[fresh := blank s]> (chunks pool)) fresh 0 str;
    Some (Pool chunks (buffer pool) (len pool) ((fresh, s) :: pool_next pool), (fresh, 0))
  else
    chunks ← copy_to (<[fresh := blank PAGE_SIZE]> (chunks pool)) fresh 0 str;
    Some (Pool chunks fresh s ((buffer pool, len pool) :: pool_next pool), (fresh, 0)).

(** What the [n] bytes at a pointer are. *)
Definition read_at (pool : stringpool) (p : Z * Z) (n : Z) : option (list (option Z)) :=
  c ← chunks pool !! p.1; Some (take (Z.to_nat n) (drop (Z.to_nat p.2) c)).

(** ** The array *)

Section array.
Context {V : Type}.

(** [(PBC_ARRAY_CAP - sizeof(struct array)) / sizeof(pbc_var)] *)
Definition INNER_FIELD : Z := (64 - 24) / 16.

(** The cells behind [a]; the first [INNER_FIELD] are inside the array. *)
Record array := Array { number : Z; on_heap : bool; cells : list (option V) }.

Definition inner_cells : list (option V) := replicate (Z.to_nat INNER_FIELD) None.

Definition _pbcA_open : array := Array 0 false inner_cells.
Definition _pbcA_open_heap : array := Array 0 true inner_cells.

(** while (cap <= number + 1) cap *= 2; *)
Fixpoint array_cap (fuel : nat) (cap number : Z) : option Z :=
  match fuel with
  | O => None
  | S fuel' => if cap <=? number + 1 then array_cap fuel' (cap * 2) number else Some cap
  end.

(** A new block of [n] cells that begins with [k] of the old ones. *)
Definition move_cells (n k : Z) (old : list (option V)) : option (list (option V)) :=
  _ ← c_assert ((k <=? zlen old) && (k <=? n));
  Some (take (Z.to_nat k) old ++ replicate (Z.to_nat (n - k)) None).

Definition _pbcA_push (a : array) (var : V) : option array :=
  cells ←
    (if number a =? 0 then Some inner_cells
     else if INNER_FIELD <=? number a then
       if number a =? INNER_FIELD then
         cap ← array_cap 32 1 (number a); move_cells cap INNER_FIELD (cells a)
       else
         let size := number a in
         if size <? ((size + 1) .^ size) then
           move_cells ((size + 1) * 2) size (cells a)
         else Some (cells a)
     else Some (cells a));
  cells ← zset cells (number a) (Some var);
  Some (Array (number a + 1) (on_heap a) cells).

(** free(a->a) *)
Definition _pbcA_close (a : array) : array :=
  if negb (on_heap a) && negb (zlen (cells a) =? INNER_FIELD) then Array (number a) (on_heap a) [] else a.

(** [None]: not in the block, or never written. *)
Definition _pbcA_index (a : array) (idx : Z) : option V := zget (cells a) idx ≫= id.

Definition pbc_array_size (a : array) : Z := number a.

(** [Some None] is NULL, otherwise the index of the cell pointed to. *)
Definition pbc_array_slice (a : array) (index : Z) : option (option Z) :=
  if (index <? 0) || (number a <? index) then Some None
  else if index <=? zlen (cells a) then Some (Some index) else None.

Definition pbc_array_push_integer (mk : Z -> Z -> V) (a : array) (low hi : Z) : option array :=
  _pbcA_push a (mk low hi).
End array.
Arguments array : clear implicits.

(** ** The array holds what was pushed *)

Section array_proofs.
Context {V : Type}.
Implicit Types (a : array V) (vs : list V).

Record holds a vs : Prop := {
  holds_number : number a = zlen vs;
  holds_inner : zlen vs <= 2 -> zlen (cells a) = 2;
  holds_room : 2 < zlen vs -> 2 ^ (Z.log2 (zlen vs) + 1) <= zlen (cells a);
  holds_cells i v : zget vs i = Some v -> zget (cells a) i = Some (Some v)
}.

Lemma lxor_pow k : 0 <= k -> 2 ^ k .^ (2 ^ k - 1) = 2 ^ k + (2 ^ k - 1).
Proof.
  intros Hk. symmetry. apply Z.add_nocarry_lxor. rewrite (wrap_land k) by done.
  unfold wrap. apply Z.mod_same. pose proof (Z.pow_pos_nonneg 2 k). lia.
Qed.

Lemma log2_lt n : 0 < n -> n < 2 ^ (Z.log2 n + 1).
Proof. intros. rewrite Z.add_1_r. by apply Z.log2_spec. Qed.

(** Where the next one goes, if the code sees no reason to grow. *)
Lemma room_next n c : 2 < n -> 2 ^ (Z.log2 n + 1) <= c -> n < ((n + 1) .^ n) \/ 2 ^ (Z.log2 (n + 1) + 1) <= c.
Proof.
  intros Hn Hc. destruct (Z.log2_succ_or n) as [He|He]; [|right; unfold Z.succ in He; by rewrite He].
  left. destruct (Z.log2_eq_succ_is_pow2 n) as [b Hb]; [done|].
  unfold Z.succ in *. assert (0 <= b).
  { destruct (Z.lt_ge_cases b 0); [|done]. rewrite Z.pow_neg_r in Hb by done. lia. }
  rewrite Hb. replace n with (2 ^ b - 1) at 2 by lia. rewrite lxor_pow by done. lia.
Qed.

Lemma move_cells_spec n k (old : list (option V)) : 0 <= k -> k <= zlen old -> k <= n ->
  exists c, move_cells n k old = Some c /\ zlen c = n /\ forall i, i < k -> zget c i = zget old i.
Proof.
  intros Hk Ho Hn. unfold move_cells. rewrite !(proj2 (Z.leb_le _ _)) by lia. cbn [andb c_assert].
  rewrite some_bind. eexists. split; [done|]. split.
  - rewrite zlen_app, zlen_take, zlen_replicate by lia. lia.
  - intros i Hi. destruct (Z.ltb_spec i 0) as [|Hge]; [unfold zget; by rewrite (proj2 (Z.ltb_lt _ _))|].
    rewrite zget_app_l by (rewrite zlen_take; lia). by apply zget_take.
Qed.

Lemma push_holds a vs v : holds a vs -> exists a', _pbcA_push a v = Some a' /\ holds a' (vs ++ [v]).
Proof.
  intros [Hn Hin Hroom Hcells]. pose proof (zlen_nonneg vs) as Hpos.
  assert (forall c, zlen vs < zlen c -> (zlen vs + 1 <= 2 -> zlen c = 2) ->
    (2 < zlen vs + 1 -> 2 ^ (Z.log2 (zlen vs + 1) + 1) <= zlen c) ->
    (forall i, i < zlen vs -> zget c i = zget (cells a) i) ->
    exists a', (cells ← zset c (number a) (Some v); Some (Array (number a + 1) (on_heap a) cells)) = Some a' /\
      holds a' (vs ++ [v])) as Hend.
  { intros c Hlt H2 Hr Hkeep. rewrite Hn, zset_eq, some_bind by lia. eexists. split; [done|].
    split; cbn [number cells]; rewrite ?zlen_app, ?zlen_insert; change (zlen [v]) with 1; try done.
    intros i w Hi. pose proof (zget_in _ _ _ Hi) as Hir. rewrite zlen_app in Hir. change (zlen [v]) with 1 in Hir.
    rewrite zget_insert by lia. destruct (Z.eqb_spec i (zlen vs)) as [->|].
    - rewrite zget_app_r, Z.sub_diag in Hi by lia. by injection Hi as <-.
    - rewrite zget_app_l in Hi by lia. rewrite Hkeep by lia. by apply Hcells. }
  unfold _pbcA_push. change INNER_FIELD with 2. rewrite Hn in *.
  destruct (Z.eqb_spec (zlen vs) 0) as [H0|Hn0].
  { rewrite some_bind. apply Hend; rewrite ?H0; try done; try lia.
    intros i Hi. destruct (Z.ltb_spec i 0); [unfold zget; by rewrite (proj2 (Z.ltb_lt _ _))|lia]. }
  destruct (Z.leb_spec 2 (zlen vs)) as [H2|H2]; [destruct (Z.eqb_spec (zlen vs) 2) as [He|Hne]|].
  - rewrite He. change (array_cap 32 1 2) with (Some 4). rewrite some_bind.
    destruct (move_cells_spec 4 2 (cells a)) as (c & -> & Hlc & Hk); [lia|rewrite Hin; lia|lia|].
    rewrite some_bind. rewrite He in Hend. apply Hend; rewrite ?Hlc; try done; try lia.
  - destruct (Z.ltb_spec (zlen vs) ((zlen vs + 1) .^ zlen vs)) as [Hgrow|Hno].
    + pose proof (log2_lt (zlen vs)). pose proof (Hroom ltac:(lia)).
      destruct (move_cells_spec ((zlen vs + 1) * 2) (zlen vs) (cells a)) as (c & -> & Hlc & Hk); [lia..|].
      rewrite some_bind. apply Hend; rewrite ?Hlc; try done; try lia.
      intros _. rewrite Z.pow_add_r by (pose proof (Z.log2_nonneg (zlen vs + 1)); lia).
      pose proof (Z.log2_spec (zlen vs + 1)). lia.
    + rewrite some_bind. pose proof (Hroom ltac:(lia)) as Hr. pose proof (log2_lt (zlen vs)).
      destruct (room_next (zlen vs) (zlen (cells a))) as [?|Hr']; [lia|done|lia|].
      apply Hend; try done; lia.
  - rewrite some_bind. pose proof (Hin ltac:(lia)). apply Hend; try done; lia.
Qed.

(** Pushes, in order. *)
Fixpoint push_all (a : array V) (vs : list V) : option (array V) :=
  match vs with [] => Some a | v :: vs' => a ← _pbcA_push a v; push_all a vs' end.

Lemma push_all_holds vs : forall a ws, holds a ws ->
  exists a', push_all a vs = Some a' /\ holds a' (ws ++ vs).
Proof.
  induction vs as [|v vs IH]; intros a ws Ha; cbn [push_all]; [rewrite app_nil_r; eauto|].
  destruct (push_holds a ws v Ha) as (a1 & -> & H1). rewrite some_bind.
  destruct (IH a1 _ H1) as (a2 & -> & H2). rewrite <- app_assoc in H2. eauto.
Qed.

(** An array holds what was pushed, in order, however many values: every push
    writes inside the array's memory, and reading index i gives the i-th value. *)
Theorem array_holds_pushes (vs : list V) :
  exists a, push_all _pbcA_open vs = Some a /\ pbc_array_size a = zlen vs /\
    forall i, 0 <= i < zlen vs -> _pbcA_index a i = zget vs i.
Proof.
  destruct (push_all_holds vs _pbcA_open []) as (a & ? & Ha).
  { split; try done; cbn [number cells _pbcA_open]; try lia. intros i v Hi%zget_in. unfold zlen in Hi. simpl in Hi. lia. }
  exists a. split; [done|]. split; [apply (holds_number _ _ Ha)|]. intros i Hi.
  destruct (zget_is_Some vs i Hi) as [v Hv]. unfold _pbcA_index. by rewrite (holds_cells _ _ Ha _ _ Hv), Hv.
Qed.

(** The test of [pbc_array_slice] lets the number of elements itself pass: with
    two elements the pointer is the end of the array. *)
Lemma slice_past_end (v : V) :
  (a ← push_all _pbcA_open [v; v]; pbc_array_slice a 2) = Some (Some 2) /\
  (a ← push_all _pbcA_open [v; v]; Some (_pbcA_index a 2)) = Some None.
Proof. done. Qed.
End array_proofs.

(** ** Allocations of the heap do not overlap *)

(** A run of allocations; the blocks that [malloc] gives are numbered. *)
Fixpoint heap_run (fresh : Z) (h : heap) (sizes : list Z) : option (heap * list (Z * Z * Z)) :=
  match sizes with
  | [] => Some (h, [])
  | size :: sizes' =>
      r ← _pbcH_alloc fresh h size;
      rest ← heap_run (fresh + 1) r.1 sizes';
      Some (rest.1, (r.2.1, r.2.2, size) :: rest.2)
  end.

Definition in_page (h : heap) (b : Z * Z * Z) : Prop :=
  exists cap, (b.1.1, cap) ∈ pages h /\ 0 <= b.1.2 /\ b.1.2 + b.2 <= cap.

Definition apart (b b' : Z * Z * Z) : Prop :=
  b.1.1 <> b'.1.1 \/ b.1.2 + b.2 <= b'.1.2 \/ b'.1.2 + b'.2 <= b.1.2.

(** The blocks handed out so far. *)
Record heap_inv (fresh : Z) (h : heap) (bs : list (Z * Z * Z)) : Prop := {
  hi_page : exists p cap ps, pages h = (p, cap) :: ps /\ h_size h <= cap /\ h_used h <= cap /\
    Forall (fun b => b.1.1 = p -> b.1.2 + b.2 <= h_used h) bs;
  hi_used : 0 <= h_used h;
  hi_fresh : Forall (fun p => p.1 < fresh) (pages h);
  hi_in : Forall (in_page h) bs
}.

Lemma round4 size : size <= (size + 3) .& Z.lnot 3 /\ (0 <= size -> 0 <= (size + 3) .& Z.lnot 3).
Proof.
  rewrite <- Z.ldiff_land. change 3 with (Z.ones 2) at 2 4. rewrite Z.ldiff_ones_r by lia.
  rewrite Z.shiftl_mul_pow2, Z.shiftr_div_pow2 by lia. change (2 ^ 2) with 4.
  pose proof (Z.div_mod (size + 3) 4). pose proof (Z.mod_pos_bound (size + 3) 4). lia.
Qed.

Lemma heap_alloc_inv fresh h bs size : heap_inv fresh h bs -> 0 <= size ->
  exists h' p off, _pbcH_alloc fresh h size = Some (h', (p, off)) /\
    heap_inv (fresh + 1) h' ((p, off, size) :: bs) /\ Forall (apart (p, off, size)) bs /\
    (forall b, in_page h b -> in_page h' b).
Proof.
  intros [(p & cap & ps & Hps & Hcap & Hused & Hbs) Hu Hf Hin] Hs. unfold _pbcH_alloc.
  destruct (round4 size) as [Hr Hr0]. specialize (Hr0 Hs). set (sz := (size + 3) .& Z.lnot 3) in *.
  destruct (Z.ltb_spec (h_size h - h_used h) sz).
  - set (c := if sz <? h_size h then h_size h else sz).
    assert (h_size h <= c /\ sz <= c) as [Hc1 Hc2] by (unfold c; case_match eqn:E; [apply Z.ltb_lt in E|apply Z.ltb_ge in E]; lia).
    assert (forall b, in_page h b -> in_page (Heap ((fresh, c) :: pages h) (h_size h) sz) b) as Hmono.
    { intros b (c' & ? & ?). exists c'. split; [|done]. by apply list_elem_of_further. }
    assert (Forall (fun b => b.1.1 <> fresh) bs) as Hnf.
    { eapply Forall_impl; [apply Hin|]. intros b (c' & Hb & _) Heq.
      rewrite Forall_forall in Hf. specialize (Hf _ Hb). simpl in Hf. lia. }
    eexists _, _, _. split; [done|]. split; [|split; [|done]].
    + split; cbn [pages h_size h_used].
      * exists fresh, c, (pages h). split_and!; try done. constructor; [simpl; lia|].
        eapply Forall_impl; [apply Hnf|]. intros b Hb ?. done.
      * lia.
      * constructor; [simpl; lia|]. eapply Forall_impl; [apply Hf|]. simpl. lia.
      * constructor; [|eapply Forall_impl; [apply Hin|done]].
        exists c. split; [apply list_elem_of_here|]. simpl. lia.
    + eapply Forall_impl; [apply Hnf|]. intros b Hb. left. simpl. congruence.
  - rewrite Hps. eexists _, _, _. split; [done|]. split; [|split].
    + split; cbn [pages h_size h_used].
      * exists p, cap, ps. split_and!; try done; [lia|]. constructor; [simpl; lia|].
        eapply Forall_impl; [apply Hbs|]. simpl. intros b Hb ?. specialize (Hb ltac:(done)). lia.
      * lia.
      * rewrite Hps in Hf. eapply Forall_impl; [apply Hf|]. simpl. lia.
      * constructor.
        -- exists cap. split; [apply list_elem_of_here|]. simpl. lia.
        -- eapply Forall_impl; [apply Hin|]. intros b Hb. unfold in_page in *. cbn [pages]. by rewrite <- Hps.
    + eapply Forall_impl; [apply Hbs|]. intros b Hb. destruct (decide (b.1.1 = p)) as [He|He].
      * right. right. simpl. by apply Hb.
      * left. simpl. congruence.
    + intros b Hb. unfold in_page in *. cbn [pages]. by rewrite <- Hps.
Qed.

Lemma heap_run_inv sizes : forall fresh h bs, heap_inv fresh h bs -> Forall (fun s => 0 <= s) sizes ->
  exists h' bs', heap_run fresh h sizes = Some (h', bs') /\
    Forall (in_page h') bs' /\ Forall (fun b => Forall (apart b) bs) bs' /\ ForallOrdPairs (fun b b' => apart b' b) bs' /\
    (forall b, in_page h b -> in_page h' b) /\ bs'.*2 = sizes.
Proof.
  induction sizes as [|size sizes IH]; intros fresh h bs Hinv Hs; cbn [heap_run].
  { exists h, []. split_and!; try done; constructor. }
  inversion Hs; subst. destruct (heap_alloc_inv fresh h bs size Hinv) as (h1 & p & off & -> & Hinv1 & Hap & Hmono); [done|].
  rewrite some_bind. cbn [fst snd].
  destruct (IH (fresh + 1) h1 _ Hinv1) as (h2 & bs2 & -> & Hin2 & Hap2 & Hpair & Hmono2 & Hsz); [done|].
  rewrite some_bind. exists h2, ((p, off, size) :: bs2). cbn [fst snd]. split; [done|]. split_and!.
  - constructor; [|done]. apply Hmono2. pose proof (hi_in _ _ _ Hinv1) as Hi. by inversion Hi.
  - constructor; [done|]. eapply Forall_impl; [apply Hap2|]. intros b Hb. by inversion Hb.
  - constructor; [|done]. eapply Forall_impl; [apply Hap2|]. intros b Hb. by inversion Hb.
  - auto.
  - by rewrite fmap_cons, Hsz.
Qed.

Lemma page_cap_spec fuel : forall k pagesize, 0 <= k -> pagesize <= 2 ^ (k + Z.of_nat fuel) ->
  exists c, page_cap (S fuel) (2 ^ k) pagesize = Some c /\ pagesize <= c /\ 0 < c.
Proof.
  induction fuel as [|fuel IH]; intros k pagesize Hk Hp; cbn [page_cap];
    (destruct (Z.ltb_spec (2 ^ k) pagesize); [|eexists; split; [done|pose proof (Z.pow_pos_nonneg 2 k); lia]]).
  - rewrite Z.add_0_r in Hp. lia.
  - replace (2 ^ k * 2) with (2 ^ (k + 1)) by (rewrite Z.pow_add_r by lia; lia).
    apply IH; [lia|]. by replace (k + 1 + Z.of_nat fuel) with (k + Z.of_nat (S fuel)) by lia.
Qed.

(** Memory from the heap: for any page size below 2^31 and any sequence of
    sizes, every allocation succeeds inside its page, and no two of them overlap,
    pages of extra size for large requests included. *)
Theorem heap_blocks_disjoint pagesize sizes :
  pagesize < 2 ^ 31 -> Forall (fun s => 0 <= s) sizes ->
  exists h h' bs, _pbcH_new 0 pagesize = Some h /\ heap_run 1 h sizes = Some (h', bs) /\
    bs.*2 = sizes /\ Forall (in_page h') bs /\ ForallOrdPairs (fun b b' => apart b' b) bs.
Proof.
  intros Hp Hs. unfold _pbcH_new.
  destruct (page_cap_spec 31 10 pagesize) as (c & Hc & _ & Hpos); [lia|simpl; lia|].
  change (2 ^ 10) with 1024 in Hc. rewrite Hc, some_bind.
  destruct (heap_run_inv sizes 1 (Heap [(0, c)] c 0) []) as (h' & bs & Hrun & Hin & _ & Hpair & _ & Hsz); [|done|].
  - split; cbn [pages h_size h_used]; [|lia|repeat constructor; simpl; lia|constructor].
    exists 0, c, []. split_and!; (done || lia || constructor).
  - by exists (Heap [(0, c)] c 0), h', bs.
Qed.

Lemma heap_blocks_disjoint_witness : exists h h' bs, _pbcH_new 0 100 = Some h /\
  heap_run 1 h [24; 1000; 5000; 7] = Some (h', bs) /\ bs.*2 = [24; 1000; 5000; 7] /\
  Forall (in_page h') bs /\ ForallOrdPairs (fun b b' => apart b' b) bs.
Proof. apply heap_blocks_disjoint; [lia|repeat constructor; lia]. Defined.

(** ** Strings of the pool stay what they are *)

Fixpoint pool_run (fresh : Z) (pool : stringpool) (strs : list (list Z)) : option (stringpool * list (Z * Z)) :=
  match strs with
  | [] => Some (pool, [])
  | str :: strs' =>
      r ← _pbcS_build fresh pool str;
      rest ← pool_run (fresh + 1) r.1 strs';
      Some (rest.1, r.2 :: rest.2)
  end.

Record pool_inv (fresh : Z) (pool : stringpool) (built : list ((Z * Z) * list Z)) : Prop := {
  pi_buffer : exists c, chunks pool !! buffer pool = Some c /\ zlen c = PAGE_SIZE;
  pi_len : 0 <= len pool <= PAGE_SIZE;
  pi_fresh : buffer pool < fresh /\ forall b, is_Some (chunks pool !! b) -> b < fresh;
  pi_built : Forall (fun x => 0 <= x.1.2 /\ read_at pool x.1 (zlen x.2) = Some (Some <$> x.2) /\
    (x.1.1 = buffer pool -> x.1.2 + zlen x.2 <= len pool)) built
}.

Lemma read_splice {A} (c : list A) off xs o n : 0 <= off -> off + zlen xs <= zlen c -> 0 <= o -> 0 <= n ->
  o + n <= off -> take (Z.to_nat n) (drop (Z.to_nat o) (splice c off xs)) = take (Z.to_nat n) (drop (Z.to_nat o) c).
Proof.
  intros Hoff Hle Ho Hn Hon. apply zget_ext.
  - unfold zlen. rewrite !length_take, !length_drop. pose proof (zlen_splice c off xs Hoff Hle) as Hz.
    unfold zlen in Hz. lia.
  - intros i Hi. pose proof (zlen_nonneg xs). unfold zlen in Hi. rewrite length_take in Hi. rewrite !zget_take, !zget_drop by lia.
    unfold splice. rewrite zget_app_l by (rewrite zlen_take; lia). apply zget_take. lia.
Qed.

Lemma read_spliced {A} (c : list A) off xs : 0 <= off -> off + zlen xs <= zlen c ->
  take (Z.to_nat (zlen xs)) (drop (Z.to_nat off) (splice c off xs)) = xs.
Proof.
  intros Hoff Hle. unfold splice, zlen in *. rewrite drop_app_ge by (rewrite length_take; lia).
  rewrite length_take. replace (Z.to_nat off - Z.to_nat off `min` length c)%nat with 0%nat by lia.
  rewrite drop_0, Nat2Z.id. apply take_app_length.
Qed.

(** A string is copied to a place no earlier one has. *)
Lemma pool_write fresh pool built cs b off c str buffer' len' next' :
  pool_inv fresh pool built -> cs !! b = Some c -> 0 <= off -> off + zlen str <= zlen c ->
  (forall b', b' <> b -> cs !! b' = chunks pool !! b') ->
  (b = buffer pool /\ off = len pool /\ cs = chunks pool \/ b = fresh /\ off = 0) ->
  (buffer' = b /\ len' = off + zlen str /\ zlen c = PAGE_SIZE \/ buffer' = buffer pool /\ b = fresh /\ len' = len pool) ->
  exists cs', copy_to cs b off str = Some cs' /\
    pool_inv (fresh + 1) (Pool cs' buffer' len' next') (((b, off), str) :: built).
Proof.
  intros [(cb & Hcb & Hlcb) Hlen [Hbf Hfr] Hbuilt] Hc Hoff Hle Hother Hwhere Hbuf.
  unfold copy_to. rewrite Hc, some_bind, !(proj2 (Z.leb_le _ _)) by lia. cbn [andb c_assert]. rewrite some_bind.
  eexists. split; [done|]. pose proof (zlen_nonneg str).
  assert (zlen (Some <$> str) = zlen str) as Hz by (unfold zlen; by rewrite length_fmap).
  assert (b < fresh \/ b = fresh) as Hbr by (destruct Hwhere as [(-> & _ & _)|[-> _]]; [by left|by right]).
  split; cbn [chunks buffer len].
  - destruct Hbuf as [(-> & _ & Hp)|(-> & -> & _)].
    + rewrite lookup_insert_eq. eexists. split; [done|]. rewrite zlen_splice by lia. done.
    + rewrite lookup_insert_ne by lia. rewrite Hother by lia. eauto.
  - destruct Hbuf as [(_ & -> & Hp)|(_ & _ & ->)]; lia.
  - split; [destruct Hbuf as [(-> & _)|(-> & _)]; lia|]. intros b'. destruct (decide (b' = b)) as [->|Hne]; [lia|].
    rewrite lookup_insert_ne, Hother by done. intros Hb'. specialize (Hfr b' Hb'). lia.
  - constructor; cbn [fst snd].
    + split; [done|]. split; [|destruct Hbuf as [(-> & -> & _)|(-> & -> & _)]; lia].
      unfold read_at. cbn [chunks fst snd]. rewrite lookup_insert_eq, some_bind. f_equal.
      rewrite <- Hz. apply read_spliced; rewrite ?Hz; lia.
    + eapply Forall_impl; [apply Hbuilt|]. intros [[b' o'] s'] (Ho & Hread & Hb'). cbn [fst snd] in *.
      split; [done|]. pose proof (zlen_nonneg s'). unfold read_at in *. cbn [chunks fst snd] in *.
      destruct (decide (b' = b)) as [->|Hne].
      * destruct Hwhere as [(-> & -> & ->)|[-> ->]].
        -- rewrite lookup_insert_eq, some_bind. rewrite Hc, some_bind in Hread.
           rewrite read_splice by (rewrite ?Hz; try lia; by apply Hb'). split; [done|].
           destruct Hbuf as [(-> & -> & _)|(-> & ? & _)]; [|lia]. intros _. specialize (Hb' eq_refl). lia.
        -- exfalso. destruct (chunks pool !! fresh) eqn:Hf; [|done]. specialize (Hfr fresh ltac:(eauto)). lia.
      * rewrite lookup_insert_ne, Hother by done. split; [done|]. intros Hbb.
        destruct Hbuf as [(-> & _)|(-> & _ & ->)]; [done|auto].
Qed.

Lemma pool_build_inv fresh pool built str : pool_inv fresh pool built -> 
  exists pool' p, _pbcS_build fresh pool str = Some (pool', p) /\ pool_inv (fresh + 1) pool' ((p, str) :: built).
Proof.
  intros Hinv. pose proof Hinv as [(cb & Hcb & Hlcb) Hlen [Hbf Hfr] Hbuilt]. unfold _pbcS_build.
  pose proof (zlen_nonneg str). unfold u64. rewrite wrap_small by (unfold is_u, PAGE_SIZE in *; lia).
  assert (forall n, zlen (blank n) = Z.max 0 n) as Hblank by (intros n; unfold blank; rewrite zlen_replicate; lia).
  destruct (Z.ltb_spec (zlen str) (PAGE_SIZE - len pool)); [|destruct (Z.ltb_spec PAGE_SIZE (zlen str))].
  - destruct (pool_write fresh pool built (chunks pool) (buffer pool) (len pool) cb str (buffer pool)
      (len pool + zlen str) (pool_next pool) Hinv) as (cs & -> & ?); try done; try lia; [by left|].
    rewrite some_bind. eauto.
  - destruct (pool_write fresh pool built (<[fresh := blank (zlen str)]> (chunks pool)) fresh 0 (blank (zlen str)) str
      (buffer pool) (len pool) ((fresh, zlen str) :: pool_next pool) Hinv) as (cs & -> & ?); try done; try lia.
    + by rewrite lookup_insert_eq.
    + rewrite Hblank. lia.
    + intros b' Hb'. by rewrite lookup_insert_ne.
    + rewrite some_bind. eauto.
  - destruct (pool_write fresh pool built (<[fresh := blank PAGE_SIZE]> (chunks pool)) fresh 0 (blank PAGE_SIZE) str
      fresh (zlen str) ((buffer pool, len pool) :: pool_next pool) Hinv) as (cs & -> & ?); try done; try lia.
    + by rewrite lookup_insert_eq.
    + intros b' Hb'. by rewrite lookup_insert_ne.
    + left. by rewrite Hblank.
    + rewrite some_bind. eauto.
Qed.

Lemma pool_run_inv strs : forall fresh pool built, pool_inv fresh pool built ->
  exists pool' ps, pool_run fresh pool strs = Some (pool', ps) /\ length ps = length strs /\
    pool_inv (fresh + zlen strs) pool' (rev (zip ps strs) ++ built).
Proof.
  induction strs as [|str strs IH]; intros fresh pool built Hinv; cbn [pool_run].
  { exists pool, []. rewrite zlen_nil, Z.add_0_r. done. }
  destruct (pool_build_inv fresh pool built str Hinv) as (pool1 & p & -> & H1). rewrite some_bind. cbn [fst snd].
  destruct (IH _ _ _ H1) as (pool2 & ps & -> & Hl & H2). rewrite some_bind.
  exists pool2, (p :: ps). split; [done|]. split; [simpl; lia|]. cbn [zip zip_with rev].
  rewrite <- app_assoc, zlen_cons. by replace (fresh + (1 + zlen strs)) with (fresh + 1 + zlen strs) by lia.
Qed.

(** Strings of the pool: whatever is added later, each pointer the pool has
    given still reads as the string it was given for, terminator included. *)
Theorem pool_strings_stable strs :
  exists pool ps, pool_run 1 (_pbcS_new 0) strs = Some (pool, ps) /\ length ps = length strs /\
    Forall (fun x => read_at pool x.1 (zlen x.2) = Some (Some <$> x.2)) (zip ps strs).
Proof.
  destruct (pool_run_inv strs 1 (_pbcS_new 0) []) as (pool & ps & ? & ? & Hinv).
  - split; cbn [chunks buffer len _pbcS_new]; try done.
    + exists (blank PAGE_SIZE). by rewrite lookup_singleton_eq.
    + split; [lia|]. intros b [c Hc]. apply lookup_singleton_Some in Hc as [<- _]. lia.
  - exists pool, ps. split; [done|]. split; [done|]. pose proof (pi_built _ _ _ Hinv) as Hb.
    rewrite app_nil_r in Hb. apply Forall_rev in Hb. rewrite rev_involutive in Hb.
    eapply Forall_impl; [apply Hb|]. intros x (_ & ? & _). done.
Qed.
