(* ===== verification/PbcProto.v ===== *)
(** Message descriptions: pbc-master/src/proto.c and proto.h.

    Messages, enums and fields are objects on the heap, known by a number; an
    environment has maps from names to them.  [Var] is the type of default values,
    which are only copied here. *)

From S2P Require Import Prelude CString PbcContext PbcMap PbcSp.
Local Open Scope Z_scope.
Local Open Scope word_scope.

Definition LABEL_OPTIONAL : Z := 0.
Definition LABEL_REQUIRED : Z := 1.
Definition LABEL_REPEATED : Z := 2.
Definition LABEL_PACKED : Z := 3.

Definition PBC_NOEXIST : Z := -1.
Definition PBC_INT : Z := 1.
Definition PBC_REAL : Z := 2.
Definition PBC_BOOL : Z := 3.
Definition PBC_ENUM : Z := 4.
Definition PBC_STRING : Z := 5.
Definition PBC_MESSAGE : Z := 6.
Definition PBC_FIXED64 : Z := 7.
Definition PBC_FIXED32 : Z := 8.
Definition PBC_BYTES : Z := 9.
Definition PBC_INT64 : Z := 10.
Definition PBC_UINT : Z := 11.
Definition PBC_REPEATED : Z := 128.

Section proto.
Context {Var : Type} (enum_var : Z -> string -> Var).

(** The union: a name before the types are linked, a message or an enum after. *)
Inductive type_ref := TName (n : string) | TMessage (m : Z) | TEnum (e : Z).

Record _field := MkField {
  id : Z; name : string; type : Z; label : Z; default_v : Var; type_name : type_ref
}.

Record _message := MkMessage { m_key : string; m_id : option (map_ip Z); m_name : map_sp Z }.

Record _enum := MkEnum {
  e_key : string; e_id : map_ip string; e_name : map_si; e_default : Var
}.

Record pbc_env := Env {
  enums : map_sp Z; msgs : map_sp Z; lasterror : string;
  o_fields : gmap Z _field; o_messages : gmap Z _message; o_enums : gmap Z _enum
}.

Definition set_msgs (p : pbc_env) v := Env (enums p) v (lasterror p) (o_fields p) (o_messages p) (o_enums p).
Definition set_enums (p : pbc_env) v := Env v (msgs p) (lasterror p) (o_fields p) (o_messages p) (o_enums p).
Definition set_error (p : pbc_env) v := Env (enums p) (msgs p) v (o_fields p) (o_messages p) (o_enums p).
Definition set_fields (p : pbc_env) v := Env (enums p) (msgs p) (lasterror p) v (o_messages p) (o_enums p).
Definition set_messages (p : pbc_env) v := Env (enums p) (msgs p) (lasterror p) (o_fields p) v (o_enums p).
Definition set_oenums (p : pbc_env) v := Env (enums p) (msgs p) (lasterror p) (o_fields p) (o_messages p) v.

(** Up to the bootstrap message. *)
Definition pbc_new : option pbc_env :=
  e ← _pbcM_sp_new 0 false; m ← _pbcM_sp_new 0 false;
  Some (Env e m EmptyString ∅ ∅ ∅).

Definition pbc_error (p : pbc_env) : pbc_env * string := (set_error p EmptyString, lasterror p).

(** The address of the message, [None] inside being NULL. *)
Definition _pbcP_get_message (p : pbc_env) (nm : string) : option (option Z) := _pbcM_sp_query (Some (msgs p)) nm.

Definition _pbcP_push_enum (fresh : Z) (p : pbc_env) (nm : string) (table : list (map_kv string))
    : option (pbc_env * option Z) :=
  check ← _pbcM_sp_query (Some (enums p)) nm;
  match check with
  | Some _ => Some (p, None)
  | None =>
      ids ← _pbcM_ip_new table;
      names ← _pbcM_si_new table;
      kv ← zget table 0;
      dn ← kv_pointer kv;
      es ← _pbcM_sp_insert (enums p) nm (Some fresh);
      Some (set_oenums (set_enums p es)
              (<[fresh := MkEnum nm ids names (enum_var (kv_id kv) dn)]> (o_enums p)), Some fresh)
  end.

(** A message without fields, entered under its name. *)
Definition new_message (fresh : Z) (p : pbc_env) (nm : string) : option pbc_env :=
  names ← _pbcM_sp_new 0 false;
  ms ← _pbcM_sp_insert (msgs p) nm (Some fresh);
  Some (set_messages (set_msgs p ms) (<[fresh := MkMessage nm None names]> (o_messages p))).

(** [fresh] and [fresh + 1] are the blocks [malloc] may give; the result tells
    whether the field goes to the queue of those whose type is to be linked. *)
Definition _pbcP_push_message (fresh : Z) (p : pbc_env) (nm : string) (f : _field)
    : option (pbc_env * Z * bool) :=
  m ← _pbcM_sp_query (Some (msgs p)) nm;
  pm ← match m with
       | Some m => Some (p, m)
       | None => p ← new_message fresh p nm; Some (p, fresh)
       end;
  let '(p, m) := pm in
  msg ← o_messages p !! m;
  let field := fresh + 1 in
  names ← _pbcM_sp_insert (m_name msg) (name f) (Some field);
  let p := set_fields p (<[field := f]> (o_fields p)) in
  Some (set_messages p (<[m := MkMessage (m_key msg) (m_id msg) names]> (o_messages p)), field,
        (type f =? PTYPE_MESSAGE) || (type f =? PTYPE_ENUM)).

(** [_count] and [_set_table], called for every field of the message. *)
Definition _count (_ : Z) (_ : unit) (count : Z) : Z := count + 1.

Definition _set_table (fields : gmap Z _field) (f : Z) (_ : unit) (st : option (Z * list (map_kv Z)))
    : option (Z * list (map_kv Z)) :=
  x ← st;
  field ← fields !! f;
  table ← zset x.2 x.1 (KV (id field) (Some f));
  Some (x.1 + 1, table).

Definition _pbcP_init_message (fresh : Z) (p : pbc_env) (nm : string) : option (pbc_env * Z) :=
  m ← _pbcM_sp_query (Some (msgs p)) nm;
  match m with
  | None => p ← new_message fresh p nm; Some (p, fresh)
  | Some m =>
      msg ← o_messages p !! m;
      let count := _pbcM_sp_foreach_ud _count (m_name msg) tt 0 in
      st ← _pbcM_sp_foreach_ud (_set_table (o_fields p)) (m_name msg) tt
             (Some (0, replicate (Z.to_nat count) (KV 0 None)));
      ids ← _pbcM_ip_new st.2;
      Some (set_messages p (<[m := MkMessage (m_key msg) (Some ids) (m_name msg)]> (o_messages p)), m)
  end.

(** The type of the field, and its default; -1 when there is no such field. *)
Definition _pbcP_message_default (p : pbc_env) (m : Z) (nm : string) : option (Z * option Var) :=
  msg ← o_messages p !! m;
  f ← _pbcM_sp_query (Some (m_name msg)) nm;
  match f with
  | None => Some (-1, None)
  | Some f => field ← o_fields p !! f; Some (type field, Some (default_v field))
  end.

(** The type without the repeated flag, 0 if there is none, and the type name
    when the code stores one. *)
Definition base_type (p : pbc_env) (field : _field) : option (Z * option string) :=
  let t := type field in
  if bool_decide (t ∈ [PTYPE_DOUBLE; PTYPE_FLOAT]) then Some (PBC_REAL, None)
  else if bool_decide (t ∈ [PTYPE_INT64; PTYPE_SINT64]) then Some (PBC_INT64, None)
  else if bool_decide (t ∈ [PTYPE_INT32; PTYPE_SINT32]) then Some (PBC_INT, None)
  else if bool_decide (t ∈ [PTYPE_UINT32; PTYPE_UINT64]) then Some (PBC_UINT, None)
  else if bool_decide (t ∈ [PTYPE_FIXED32; PTYPE_SFIXED32]) then Some (PBC_FIXED32, None)
  else if bool_decide (t ∈ [PTYPE_SFIXED64; PTYPE_FIXED64]) then Some (PBC_FIXED64, None)
  else if t =? PTYPE_BOOL then Some (PBC_BOOL, None)
  else if t =? PTYPE_STRING then Some (PBC_STRING, None)
  else if t =? PTYPE_BYTES then Some (PBC_BYTES, None)
  else if t =? PTYPE_ENUM then
    match type_name field with
    | TEnum e => en ← o_enums p !! e; Some (PBC_ENUM, Some (e_key en))
    | _ => None
    end
  else if t =? PTYPE_MESSAGE then
    match type_name field with
    | TMessage m => msg ← o_messages p !! m; Some (PBC_MESSAGE, Some (m_key msg))
    | _ => None
    end
  else Some (0, None).

(** [field] is [None] for NULL. *)
Definition _pbcP_type (p : pbc_env) (field : option _field) : option (Z * option string) :=
  match field with
  | None => Some (0, None)
  | Some field =>
      r ← base_type p field;
      if r.1 =? 0 then Some (0, None)
      else if (label field =? LABEL_REPEATED) || (label field =? LABEL_PACKED)
      then Some (r.1 .| PBC_REPEATED, r.2)
      else Some r
  end.

Definition pbc_type (p : pbc_env) (tn : string) (key : option string) : option (Z * option string) :=
  m ← _pbcP_get_message p tn;
  match m with
  | None => Some (0, None)
  | Some m =>
      match key with
      | None => Some (PBC_NOEXIST, None)
      | Some key =>
          msg ← o_messages p !! m;
          f ← _pbcM_sp_query (Some (m_name msg)) key;
          match f with
          | None => _pbcP_type p None
          | Some f => field ← o_fields p !! f; _pbcP_type p (Some field)
          end
      end
  end.

Definition pbc_enum_id (p : pbc_env) (enum_type enum_name : string) : option Z :=
  e ← _pbcM_sp_query (Some (enums p)) enum_type;
  match e with
  | None => Some (-1)
  | Some e =>
      en ← o_enums p !! e;
      r ← _pbcM_si_query (e_name en) enum_name;
      Some (match r with Some i => i | None => -1 end)
  end.
End proto.
Arguments _field : clear implicits.
Arguments _message : clear implicits.
Arguments _enum : clear implicits.
Arguments pbc_env : clear implicits.

(** ** From pushed fields to the number map *)

Section proto_proofs.
Context {Var : Type}.
Implicit Types (p : pbc_env Var) (f : _field Var) (fs : list (_field Var)).

Lemma sp_query_here {V} (m : map_sp V) ds M k v : sp_rep m ds M -> M !! k = Some v ->
  _pbcM_sp_query (Some m) k = Some v.
Proof. intros Hr Hk. by rewrite (sp_query_spec _ _ _ k Hr), Hk. Qed.

Lemma sp_query_absent {V} (m : map_sp V) ds M k : sp_rep m ds M -> M !! k = None ->
  _pbcM_sp_query (Some m) k = Some None.
Proof. intros Hr Hk. by rewrite (sp_query_spec _ _ _ k Hr), Hk. Qed.

(** The environment knows the type [tn], and its number map finds exactly the
    fields [fs]. *)
Definition describes p (tn : string) fs : Prop :=
  exists m msg, _pbcP_get_message p tn = Some (Some m) /\ o_messages p !! m = Some msg /\
    forall i, exists r, _pbcM_ip_query (m_id msg) i = Some r /\
      match r with
      | Some a => exists f, o_fields p !! a = Some f /\ f ∈ fs /\ id f = i
      | None => forall f, f ∈ fs -> id f <> i
      end.

(** An entry of the name map is the field. *)
Definition entry_of p (fresh : Z) f (e : sp_entry Z) : Prop :=
  exists a, pe_key e = name f /\ pe_pointer e = Some a /\ o_fields p !! a = Some f /\ a < fresh.

(** The fields [fs], the last first, have been pushed to type [tn]. *)
Definition pushed p (tn : string) (fresh : Z) ds fs : Prop :=
  exists dm m msg N, sp_rep (msgs p) dm {[tn := Some m]} /\ m < fresh /\
    o_messages p !! m = Some msg /\ m_key msg = tn /\ sp_rep (m_name msg) ds N /\
    Forall2 (entry_of p fresh) fs ds.

Lemma push_named p tn fresh ds fs f : pushed p tn (fresh + 1) ds fs -> name f ∉ name <$> fs -> zlen fs < 2 ^ 30 ->
  exists p' e q, _pbcP_push_message fresh p tn f = Some (p', fresh + 1, q) /\ pushed p' tn (fresh + 2) (e :: ds) (f :: fs).
Proof.
  intros (dm & m & msg & N & Hm & Hmf & Hmsg & Hkey & Hn & Hfs) Hnew Hlt. unfold _pbcP_push_message.
  rewrite (sp_query_here _ _ _ tn (Some m) Hm) by apply lookup_singleton_eq.
  rewrite !some_bind, Hmsg, some_bind. unfold _pbcM_sp_insert. destruct (calc_hash_total (name f)) as [h Hh].
  rewrite Hh, some_bind. pose proof Hn as [Ht _].
  destruct (sp_insert_hash_spec (m_name msg) ds (name f) h (Some (fresh + 1)) Ht) as (names & -> & Ht');
    [pose proof (Forall2_length _ _ _ Hfs); unfold zlen in *; lia|done|]. rewrite some_bind.
  eexists _, (SE (name f) h (Some (fresh + 1))), _. split; [done|].
  assert (N !! name f = None) as HNf.
  { apply (sp_rep_none _ _ _ _ Hn). intros e He Hke. apply Hnew.
    apply list_elem_of_lookup in He as [k Hk]. destruct (Forall2_lookup_r _ _ _ _ _ Hfs Hk) as (f' & Hf' & a & Hka & _).
    rewrite <- Hke, Hka. apply list_elem_of_fmap. exists f'. split; [done|]. by eapply list_elem_of_lookup_2. }
  exists dm, m, (MkMessage (m_key msg) (m_id msg) names), (<[name f := Some (fresh + 1)]> N).
  cbn [set_messages set_fields msgs o_messages o_fields m_key m_name].
  split; [done|]. split; [lia|]. rewrite lookup_insert_eq. split; [done|]. split; [done|]. split.
  - by apply (sp_rep_add (m_name msg) names ds N (SE (name f) h (Some (fresh + 1)))).
  - constructor.
    + exists (fresh + 1). cbn [set_messages set_fields o_fields]. rewrite lookup_insert_eq. split_and!; (done || lia).
    + eapply Forall2_impl; [apply Hfs|]. intros f' e' (a & ? & ? & ? & ?). exists a. cbn [set_messages set_fields o_fields].
      rewrite lookup_insert_ne by lia. split_and!; (done || lia).
Qed.

Lemma pushed_mono p tn fresh fresh' ds fs : fresh <= fresh' -> pushed p tn fresh ds fs -> pushed p tn fresh' ds fs.
Proof.
  intros Hle (dm & m & msg & N & ? & ? & ? & ? & ? & Hfs). exists dm, m, msg, N. split_and!; try done; [lia|].
  eapply Forall2_impl; [apply Hfs|]. intros f e (a & ? & ? & ? & ?). exists a. split_and!; (done || lia).
Qed.

Lemma new_message_pushed fresh p tn dm : sp_rep (msgs p) dm ∅ ->
  exists p1, new_message fresh p tn = Some p1 /\ pushed p1 tn (fresh + 1) [] [] /\
    _pbcM_sp_query (Some (msgs p1)) tn = Some (Some fresh).
Proof.
  intros Hm. unfold new_message. destruct (sp_new_spec (V := Z) 0 false) as (names & Hnm & Hn); [lia|].
  rewrite Hnm, some_bind. unfold _pbcM_sp_insert. destruct (calc_hash_total tn) as [h Hh].
  rewrite Hh, some_bind. pose proof Hm as [Ht _].
  assert (dm = []) as ->.
  { destruct dm as [|e dm]; [done|].
    pose proof (sp_rep_in _ _ _ e Hm (list_elem_of_here _ _)) as He. by rewrite lookup_empty in He. }
  destruct (sp_insert_hash_spec (msgs p) [] tn h (Some fresh) Ht) as (ms & -> & Ht'); [done|done|].
  rewrite some_bind. eexists. split; [done|].
  assert (sp_rep ms [SE tn h (Some fresh)] {[tn := Some fresh]}) as Hms.
  { rewrite <- (insert_empty (M := gmap string) tn (Some fresh)).
    by apply (sp_rep_add (msgs p) ms [] ∅ (SE tn h (Some fresh))). }
  split; [|cbn [set_messages set_msgs msgs]; apply (sp_query_here _ _ _ _ _ Hms), lookup_singleton_eq].
  exists [SE tn h (Some fresh)], fresh, (MkMessage tn None names), ∅.
  cbn [set_messages set_msgs msgs o_messages m_name m_key].
  split; [done|]. split; [lia|]. split; [apply lookup_insert_eq|]. done.
Qed.

Lemma push_first fresh p tn f dm : sp_rep (msgs p) dm ∅ ->
  exists p' e q, _pbcP_push_message fresh p tn f = Some (p', fresh + 1, q) /\ pushed p' tn (fresh + 2) [e] [f].
Proof.
  intros Hm. destruct (new_message_pushed fresh p tn dm Hm) as (p1 & Hnew & Hp1 & Hq).
  destruct (push_named p1 tn fresh [] [] f Hp1) as (p' & e & q & Hpush & Hp'); [apply not_elem_of_nil|done|].
  exists p', e, q. split; [|done]. rewrite <- Hpush. unfold _pbcP_push_message at 1 2.
  rewrite (sp_query_absent _ _ _ tn Hm) by apply lookup_empty. rewrite some_bind, Hnew, !some_bind.
  by rewrite Hq, !some_bind.
Qed.

(** Fields pushed one after the other; each takes two block numbers. *)
Fixpoint push_all (fresh : Z) p (tn : string) fs : option (pbc_env Var * Z) :=
  match fs with
  | [] => Some (p, fresh)
  | f :: fs' => r ← _pbcP_push_message fresh p tn f; push_all (fresh + 2) r.1.1 tn fs'
  end.

Lemma push_all_pushed fs : forall p tn fresh ds done, pushed p tn fresh ds done ->
  NoDup (name <$> (reverse done ++ fs)) -> zlen done + zlen fs <= 2 ^ 30 ->
  exists p' fresh' ds', push_all fresh p tn fs = Some (p', fresh') /\ pushed p' tn fresh' ds' (reverse fs ++ done).
Proof.
  induction fs as [|f fs IH]; intros p tn fresh ds dn Hp Hnd Hl; cbn [push_all]; [by exists p, fresh, ds|].
  rewrite zlen_cons in Hl. pose proof (zlen_nonneg fs).
  destruct (push_named p tn fresh ds dn f) as (p1 & e & q & -> & H1).
  - by apply (pushed_mono p tn fresh); [lia|].
  - rewrite fmap_app, NoDup_app in Hnd. destruct Hnd as (_ & Hnd & _). intros Hin. apply (Hnd (name f)).
    + rewrite fmap_reverse. by apply elem_of_reverse.
    + apply list_elem_of_here.
  - lia.
  - rewrite some_bind. cbn [fst snd].
    destruct (IH p1 tn (fresh + 2) (e :: ds) (f :: dn) H1) as (p' & fr & ds' & -> & H2).
    + by rewrite reverse_cons, <- app_assoc.
    + rewrite zlen_cons. lia.
    + exists p', fr, ds'. split; [done|]. by rewrite reverse_cons, <- app_assoc.
Qed.

Definition field_id p (a : Z) : Z := match o_fields p !! a with Some f => id f | None => 0 end.

Lemma set_table_fold p qs : forall table k, Forall (fun a => is_Some (o_fields p !! a)) qs ->
  0 <= k -> k + zlen qs <= zlen table ->
  foldl (fun st a => _set_table (o_fields p) a tt st) (Some (k, table)) qs
  = Some (k + zlen qs, splice table k ((fun a => KV (field_id p a) (Some a)) <$> qs)).
Proof.
  induction qs as [|a qs IH]; intros table k Hq Hk Hl.
  { cbn. by rewrite splice_nil, Z.add_0_r. }
  inversion Hq as [|? ? [f Hf] Hq']; subst. rewrite zlen_cons in *. pose proof (zlen_nonneg qs).
  cbn [foldl]. unfold _set_table at 2. rewrite some_bind, Hf, some_bind. cbn [fst snd].
  rewrite zset_eq, some_bind by lia. rewrite IH by (done || rewrite ?zlen_insert; lia).
  rewrite splice_cons by lia. rewrite fmap_cons. unfold field_id at 2. rewrite Hf.
  by replace (k + 1 + zlen qs) with (k + (1 + zlen qs)) by lia.
Qed.

Lemma count_fold qs : forall n, foldl (fun n a => _count a tt n) n qs = n + zlen qs.
Proof.
  induction qs as [|q qs IH]; intros n; cbn [foldl]; [by rewrite zlen_nil, Z.add_0_r|].
  rewrite IH, zlen_cons. unfold _count. lia.
Qed.

(** The blocks of the fields. *)
Lemma pushed_blocks p fresh fs ds : Forall2 (entry_of p fresh) fs ds ->
  Forall2 (fun f a => o_fields p !! a = Some f) fs (omap pe_pointer ds).
Proof.
  induction 1 as [|f e fs ds (a & _ & Ha & Hf & _) _ IH]; [constructor|].
  simpl. rewrite Ha. by constructor.
Qed.

Lemma field_ids p fs qs : Forall2 (fun f a => o_fields p !! a = Some f) fs qs ->
  field_id p <$> qs = id <$> fs.
Proof.
  induction 1 as [|f a fs qs Hf _ IH]; [done|]. rewrite !fmap_cons, IH. unfold field_id. by rewrite Hf.
Qed.

Lemma blocks_of_fields p fs qs : Forall2 (fun f a => o_fields p !! a = Some f) fs qs ->
  (forall a, a ∈ qs -> exists f, o_fields p !! a = Some f /\ f ∈ fs) /\
  (forall f, f ∈ fs -> exists a, a ∈ qs /\ o_fields p !! a = Some f).
Proof.
  induction 1 as [|f b fs qs Hf _ [IH1 IH2]].
  - split; by intros ? ?%not_elem_of_nil.
  - split.
    + intros a [->|Ha]%elem_of_cons; [exists f; rewrite elem_of_cons; auto|].
      destruct (IH1 a Ha) as (f' & ? & ?). exists f'. rewrite elem_of_cons. auto.
    + intros f' [->|Hf']%elem_of_cons; [exists b; rewrite elem_of_cons; auto|].
      destruct (IH2 f' Hf') as (a & ? & ?). exists a. rewrite elem_of_cons. auto.
Qed.

Lemma init_describes p tn fresh fresh' ds fs : pushed p tn fresh ds fs -> fs <> [] ->
  NoDup (id <$> fs) -> zlen fs < 2 ^ 29 ->
  exists p' m, _pbcP_init_message fresh' p tn = Some (p', m) /\ describes p' tn fs.
Proof.
  intros (dm & m & msg & N & Hm & _ & Hmsg & Hkey & [Ht _] & Hfs) Hne Hnd Hlen.
  unfold _pbcP_init_message. rewrite (sp_query_here _ _ _ tn (Some m) Hm) by apply lookup_singleton_eq.
  rewrite some_bind, Hmsg, some_bind.
  destruct (foreach_pointers (m_name msg) ds Ht) as (ps & Hps & Hfold). rewrite !Hfold.
  rewrite count_fold. pose proof (pushed_blocks p fresh fs ds Hfs) as Hblk.
  assert (Forall (fun a => is_Some (o_fields p !! a)) ps) as Hsome.
  { rewrite Hps. clear -Hblk. induction Hblk as [|f a fs qs Hf _ IH]; constructor; eauto. }
  assert (zlen ps = zlen fs) as Hlps.
  { unfold zlen. f_equal. rewrite Hps. symmetry. by apply (Forall2_length _ _ _ Hblk). }
  pose proof (zlen_pos fs Hne).
  rewrite set_table_fold, some_bind by (done || (try rewrite zlen_replicate); lia).
  cbn [fst snd]. unfold splice. rewrite drop_ge, app_nil_r by (rewrite length_replicate, length_fmap; unfold zlen in *; lia).
  change (take (Z.to_nat 0) _) with (@nil (map_kv Z)). cbn [app].
  set (l := (fun a => (field_id p a, a)) <$> ps).
  assert ((fun a => KV (field_id p a) (Some a)) <$> ps = ip_table l) as ->.
  { unfold ip_table, l. by rewrite <- list_fmap_compose. }
  assert (l.*1 = field_id p <$> ps) as Hl1 by (unfold l; by rewrite <- list_fmap_compose).
  assert (NoDup l.*1) as Hndl by (rewrite Hl1, Hps, (field_ids p fs _ Hblk); done).
  assert (zlen l = zlen fs) as Hll by (unfold l, zlen; rewrite length_fmap; exact Hlps).
  assert (l <> []) as Hlne by (intros ->; rewrite zlen_nil in Hll; lia).
  destruct (ip_new_rep l) as (ids & -> & Hids); [done|done|lia|]. rewrite some_bind.
  eexists _, m. split; [done|]. exists m, (MkMessage (m_key msg) (Some ids) (m_name msg)).
  cbn [set_messages o_messages o_fields m_id]. split; [by apply (sp_query_here _ _ _ _ _ Hm), lookup_singleton_eq|].
  split; [apply lookup_insert_eq|]. intros i. exists ((list_to_map l : gmap Z Z) !! i).
  split; [by apply ip_query_rep|].
  destruct (blocks_of_fields p fs _ Hblk) as [Hto Hfrom].
  destruct ((list_to_map l : gmap Z Z) !! i) as [a|] eqn:Hi.
  - apply elem_of_list_to_map_2 in Hi. unfold l in Hi. apply list_elem_of_fmap in Hi as (a' & [= Hid ->] & Ha).
    rewrite Hps in Ha. destruct (Hto a' Ha) as (f & Hof & Hf). exists f. split; [done|]. split; [done|].
    unfold field_id in Hid. by rewrite Hof in Hid.
  - intros f Hf Hid. destruct (Hfrom f Hf) as (a & Ha & Hof). rewrite <- Hps in Ha.
    apply not_elem_of_list_to_map_2 in Hi. apply Hi. rewrite Hl1. apply list_elem_of_fmap.
    exists a. split; [|done]. unfold field_id. by rewrite Hof.
Qed.

Lemma push_init_full tn fs :
  fs <> [] -> NoDup (name <$> fs) -> NoDup (id <$> fs) -> zlen fs < 2 ^ 29 ->
  exists p0 p fresh p' m, pbc_new = Some p0 /\ push_all 1 p0 tn fs = Some (p, fresh) /\
    _pbcP_init_message fresh p tn = Some (p', m) /\ describes p' tn (reverse fs).
Proof.
  intros Hne Hnn Hni Hlen. unfold pbc_new.
  destruct (sp_new_spec (V := Z) 0 false) as (e & He & Hre); [lia|].
  rewrite He, !some_bind. set (p0 := Env e e EmptyString ∅ ∅ ∅). exists p0.
  destruct fs as [|f fs]; [done|]. rewrite zlen_cons in Hlen. pose proof (zlen_nonneg fs).
  destruct (push_first 1 p0 tn f [] Hre) as (p1 & en & q & Hpush & Hp1).
  destruct (push_all_pushed fs p1 tn (1 + 2) [en] [f] Hp1) as (p & fresh & ds & Hall & Hp).
  - by apply Hnn.
  - change (zlen [f]) with 1. lia.
  - rewrite <- reverse_cons in Hp.
    destruct (init_describes p tn fresh fresh ds (reverse (f :: fs)) Hp) as (p' & m & Hinit & Hd).
    + intros Hr. apply (f_equal length) in Hr. rewrite length_reverse in Hr. done.
    + by rewrite fmap_reverse, reverse_Permutation.
    + unfold zlen in *. rewrite length_reverse. simpl. lia.
    + exists p, fresh, p', m. split; [done|]. split; [|done]. cbn [push_all]. by rewrite Hpush.
Qed.

(** Fields pushed to a new type, with different names and numbers, and the
    type then set up: the number map finds each field by its number and nothing
    under any other number. *)
Theorem push_init_describes tn fs :
  fs <> [] -> NoDup (name <$> fs) -> NoDup (id <$> fs) -> zlen fs < 2 ^ 29 ->
  exists p0 p fresh p' m, pbc_new = Some p0 /\ push_all 1 p0 tn fs = Some (p, fresh) /\
    _pbcP_init_message fresh p tn = Some (p', m) /\ describes p' tn (reverse fs).
Proof. apply push_init_full. Qed.
End proto_proofs.

Definition person_fields : list (_field unit) :=
  [MkField 1 "name" PTYPE_STRING LABEL_REQUIRED tt (TName ""); MkField 2 "id" PTYPE_INT32 LABEL_REQUIRED tt (TName "");
   MkField 4 "phone" PTYPE_SINT64 LABEL_OPTIONAL tt (TName "")].

Lemma push_init_describes_witness :
  exists p0 p fresh p' m, pbc_new = Some p0 /\ push_all 1 p0 "Person" person_fields = Some (p, fresh) /\
    _pbcP_init_message fresh p "Person" = Some (p', m) /\ describes p' "Person" (reverse person_fields).
Proof. apply push_init_describes; [done|by_eval|by_eval|done]. Defined.

(** A type without fields whose set-up runs twice reads the first entry of an
    empty table. *)
Lemma init_empty_message :
  (p ← pbc_new (Var := unit); r ← _pbcP_init_message 1 p "Empty"; Some r.2) = Some 1 /\
  (p ← pbc_new (Var := unit); r ← _pbcP_init_message 1 p "Empty"; _pbcP_init_message 2 r.1 "Empty") = None.
Proof. split; vm_compute; reflexivity. Qed.
