(* ===== verification/PbcDecode.v ===== *)
(** Decoding a message through a callback: pbc-master/src/decode.c.

    The calls of the callback are recorded in order; what it does with them is the
    client's.  A [double] is its 64 bits, a [float] that is widened its 32 bits.
    [call_unknown], [call_type] and [call_array] give the calls they make, and
    [call_array] its result. *)

From S2P Require Import Prelude Bytes Varint PbcContext PbcMap PbcSp PbcProto.
Local Open Scope Z_scope.
Local Open Scope word_scope.

Definition TYPENAME : list string :=
  ["invalid"; "integer"; "real"; "boolean"; "enum"; "string"; "message"; "fixed64"; "fixed32"; "bytes";
   "int64"; "uint"]%string.

(** union pbc_value: the member that was stored.  A slice is an offset in the
    buffer of the message and a length. *)
Inductive pbc_value :=
  | VInt (low hi : Z) | VReal (bits : Z) | VWiden (bits : Z) | VEnum (id : Z) (name : option string)
  | VSlice (start len : Z).

Record call := Call {
  cl_type : Z; cl_type_name : option string; cl_value : pbc_value; cl_id : Z; cl_key : option string
}.

Definition read_double (a : atom) : Z := low (a_v a) .| u64 (hi (a_v a) << 32).
Definition read_float (a : atom) : Z := low (a_v a).

(** [Some None] is a return of 1. *)
Definition call_unknown (id : Z) (a : atom) : option (option call) :=
  let mk t v := tn ← zget TYPENAME t; Some (Some (Call t (Some tn) v id None)) in
  let wt := wire_id a .& 7 in
  if wt =? WT_VARINT then mk PBC_INT (VInt (low (a_v a)) (hi (a_v a)))
  else if wt =? WT_BIT64 then mk PBC_FIXED64 (VInt (low (a_v a)) (hi (a_v a)))
  else if wt =? WT_LEND then mk PBC_BYTES (VSlice (s_start a) (s_end a - s_start a))
  else if wt =? WT_BIT32 then mk PBC_FIXED32 (VInt (low (a_v a)) 0)
  else Some None.

Section decode.
Context {Var : Type}.
Implicit Types (p : pbc_env Var) (f : _field Var).

(** The type of a field and the name of its type, as both callers compute them. *)
Definition typed p f : option (Z * string) :=
  r ← _pbcP_type p (Some f);
  _ ← c_assert (negb (r.1 =? 0));
  match r.2 with
  | Some tn => Some (r.1, tn)
  | None => tn ← zget TYPENAME (r.1 .& Z.lnot PBC_REPEATED); Some (r.1, tn)
  end.

Definition enum_name p f (v : Z) : option (option string) :=
  match type_name f with
  | TEnum e => en ← o_enums p !! e; _pbcM_ip_query (Some (e_id en)) v
  | _ => None
  end.

Inductive type_result := TErr | TVal (v : pbc_value).

(** The switch over [f->type]. *)
Definition type_value p f (a : atom) : option type_result :=
  let t := type f in
  let lo := low (a_v a) in
  let h := hi (a_v a) in
  if t =? PTYPE_DOUBLE then Some (TVal (VReal (read_double a)))
  else if t =? PTYPE_FLOAT then Some (TVal (VWiden (read_float a)))
  else if t =? PTYPE_ENUM then n ← enum_name p f (i32 lo); Some (TVal (VEnum (i32 lo) n))
  else if bool_decide (t ∈ [PTYPE_INT64; PTYPE_UINT64]) then Some (TVal (VInt lo h))
  else if bool_decide (t ∈ [PTYPE_FIXED64; PTYPE_SFIXED64]) then Some (TVal (VInt lo h))
  else if bool_decide (t ∈ [PTYPE_INT32; PTYPE_UINT32; PTYPE_BOOL]) then Some (TVal (VInt lo 0))
  else if bool_decide (t ∈ [PTYPE_FIXED32; PTYPE_SFIXED32]) then Some (TVal (VInt lo 0))
  else if t =? PTYPE_SINT32 then
    let r := _pbcV_dezigzag32 (LL lo h) in Some (TVal (VInt (low r) (hi r)))
  else if t =? PTYPE_SINT64 then
    let r := _pbcV_dezigzag64 (LL lo h) in Some (TVal (VInt (low r) (hi r)))
  else if bool_decide (t ∈ [PTYPE_STRING; PTYPE_BYTES; PTYPE_MESSAGE]) then
    if negb (wire_id a .& 7 =? WT_LEND) then Some TErr
    else Some (TVal (VSlice (s_start a) (s_end a - s_start a)))
  else None.

(** [Some None] is a return of -1. *)
Definition call_type p f (a : atom) : option (option call) :=
  tt ← typed p f;
  v ← type_value p f a;
  match v with
  | TErr => Some None
  | TVal v => Some (Some (Call tt.1 (Some tt.2) v (id f) (Some (name f))))
  end.

(** The loops over the numbers of fixed size: the value of each. *)
Fixpoint fixed_values (n : nat) (step : Z) (mk : Z -> option pbc_value) (i : Z) : option (list pbc_value) :=
  match n with
  | O => Some []
  | S n' => v ← mk i; rest ← fixed_values n' step mk (i + step); Some (v :: rest)
  end.

(** The loops over varints.  The copy to a local buffer has no effect: the number
    is decoded from the message itself.  [inl vs]: a return of -1 after [vs]. *)
Fixpoint varint_values (fuel : nat) (mk : longlong -> option pbc_value) (mem : list Z) (buffer size : Z)
    : option (list pbc_value + list pbc_value) :=
  match fuel with
  | O => None
  | S fuel' =>
      if 0 <? size then
        _ ← c_assert ((10 <=? size) || ((0 <=? buffer) && (buffer + size <=? zlen mem)));
        _ ← c_assert (0 <=? buffer);
        r ← _pbcV_decode (drop (Z.to_nat buffer) mem);
        if negb (10 <=? size) && (size <? r.1) then Some (inl [])
        else
          v ← mk r.2;
          rest ← varint_values fuel' mk mem (buffer + r.1) (size - r.1);
          Some (match rest with inl vs => inl (v :: vs) | inr vs => inr (v :: vs) end)
      else Some (inr [])
  end.

(** for (i=0;i<size;i+=step): the values and the result. *)
Definition fixed_array (size step : Z) (value : Z -> option pbc_value) : option (list pbc_value * Z) :=
  if negb (Z.rem size step =? 0) then Some ([], -1)
  else
    vs ← fixed_values (Z.to_nat (Z.quot size step)) step value 0;
    Some (vs, Z.quot size step).

(** while (size > 0) *)
Definition varint_array (mem : list Z) (buffer size : Z) (value : longlong -> option pbc_value)
    : option (list pbc_value * Z) :=
  r ← varint_values (S (Z.to_nat size)) value mem buffer size;
  Some (match r with inl vs => (vs, -1) | inr vs => (vs, zlen vs) end).

(** The switch over [f->type]. *)
Definition array_values p f (mem : list Z) (buffer size : Z) : option (list pbc_value * Z) :=
  let t := type f in
  let fixed := fixed_array size in
  let varints := varint_array mem buffer size in
  if t =? PTYPE_DOUBLE then
    fixed 8 (fun i => lo ← read32 mem (buffer + i); h ← read32 mem (buffer + i + 4);
                      Some (VReal (lo .| (h << 32))))
  else if t =? PTYPE_FLOAT then fixed 4 (fun i => v ← read32 mem (buffer + i); Some (VWiden v))
  else if bool_decide (t ∈ [PTYPE_FIXED32; PTYPE_SFIXED32]) then
    fixed 4 (fun i => v ← read32 mem (buffer + i); Some (VInt v 0))
  else if bool_decide (t ∈ [PTYPE_FIXED64; PTYPE_SFIXED64]) then
    fixed 8 (fun i => lo ← read32 mem (buffer + i); h ← read32 mem (buffer + i + 4); Some (VInt lo h))
  else if bool_decide (t ∈ [PTYPE_INT64; PTYPE_UINT64; PTYPE_INT32; PTYPE_UINT32; PTYPE_BOOL]) then
    varints (fun r => Some (VInt (low r) (hi r)))
  else if t =? PTYPE_ENUM then varints (fun r => n ← enum_name p f (i32 (low r)); Some (VEnum (i32 (low r)) n))
  else if t =? PTYPE_SINT32 then
    varints (fun r => let r := _pbcV_dezigzag32 r in Some (VInt (low r) (hi r)))
  else if t =? PTYPE_SINT64 then
    varints (fun r => let r := _pbcV_dezigzag64 r in Some (VInt (low r) (hi r)))
  else Some ([], -1).

(** The calls and the result. *)
Definition call_array p f (mem : list Z) (buffer size : Z) : option (list call * Z) :=
  tt ← typed p f;
  r ← array_values p f mem buffer size;
  Some (map (fun v => Call tt.1 (Some tt.2) v (id f) (Some (name f))) r.1, r.2).

(** One field: its calls, and whether decoding goes on. *)
Definition decode_one p (ids : option (map_ip Z)) (mem : list Z) (a : atom) : option (list call * bool) :=
  let fid := wire_id a >> 3 in
  f ← _pbcM_ip_query ids fid;
  match f with
  | None => r ← call_unknown fid a; Some (match r with Some c => ([c], true) | None => ([], false) end)
  | Some f =>
      field ← o_fields p !! f;
      if label field =? LABEL_PACKED then
        r ← call_array p field mem (s_start a) (s_end a - s_start a);
        Some (r.1, 0 <=? r.2)
      else
        r ← call_type p field a;
        Some (match r with Some c => ([c], true) | None => ([], false) end)
  end.

(** for (i=0;i<ctx->number;i++): the calls, and [inl i] for a return of -i-1. *)
Fixpoint decode_loop (n : nat) p (ids : option (map_ip Z)) (mem : list Z) (ctx : context) (i : Z)
    : option (list call * (Z + unit)) :=
  match n with
  | O => Some ([], inr tt)
  | S n' =>
      a ← c_atom ctx i;
      r ← decode_one p ids mem a;
      let '(calls, goes_on) := (r : list call * bool) in
      if goes_on then
        rest ← decode_loop n' p ids mem ctx (i + 1);
        let '(more, res) := (rest : list call * (Z + unit)) in Some (calls ++ more, res)
      else Some (calls, inl i)
  end.

(** [mem] is the slice. *)
Definition pbc_decode (temp : Z -> list Z) (inner : list (option atom)) p (tn : string) (mem : list Z)
    : option (pbc_env Var * list call * Z) :=
  m ← _pbcP_get_message p tn;
  match m with
  | None => Some (set_error p "Proto not found", [], -1)
  | Some m =>
      if zlen mem =? 0 then Some (p, [], 0)
      else
        r ← _pbcC_open temp (Some mem) inner;
        let '(count, ctx) := r in
        if count <=? 0 then Some (set_error p "decode context error", [], count - 1)
        else
          msg ← o_messages p !! m;
          n ← c_number ctx;
          d ← decode_loop (Z.to_nat n) p (m_id msg) mem ctx 0;
          Some (p, d.1, match d.2 with inl i => - i - 1 | inr _ => n end)
  end.
End decode.

(** ** Where decoding goes wrong *)

(** A packed field that arrives with the wire type of a number: the number is
    taken for the offsets of the slice, and memory far from the message is read. *)
Lemma decode_packed_number :
  (p0 ← pbc_new (Var := unit);
   r ← push_all 1 p0 "T" [MkField 5 "xs" PTYPE_INT32 LABEL_PACKED tt (TName "")];
   r ← _pbcP_init_message 9 r.1 "T";
   l ← _pbcV_encode (1000 + 2000 * 2 ^ 32);
   Some (pbc_decode (fun _ => replicate 10 0) (replicate 19 None) r.1 "T" (40 :: l))) = Some None.
Proof. vm_compute. reflexivity. Qed.

(** Field numbers of 2^28 and more, which the format allows, are read as negative
    ones. *)
Lemma decode_large_number :
  (p0 ← pbc_new (Var := unit);
   r ← push_all 1 p0 "T" [MkField (2 ^ 28) "x" PTYPE_INT32 LABEL_OPTIONAL tt (TName "")];
   r ← _pbcP_init_message 9 r.1 "T";
   l ← encode_field (Field (2 ^ 28) (Varint 1));
   d ← pbc_decode (fun _ => replicate 10 0) (replicate 19 None) r.1 "T" l;
   Some (map cl_id d.1.2)) = Some [- 2 ^ 28].
Proof. vm_compute. reflexivity. Qed.
