(* ===== verification/PbcCalls.v ===== *)
(** What the callback of pbc_decode is told: the contract of pbc-master/src/decode.c, said of the fields of a message and
    their descriptions, and that pbc_decode keeps it. *)

From S2P Require Import Prelude Bytes Varint PbcContext PbcMap PbcSp PbcProto PbcDecode.
Local Open Scope Z_scope.
Local Open Scope word_scope.



(** ** The contract *)

Section contract.
Context {Var : Type}.
Implicit Types (p : pbc_env Var) (d : _field Var) (f : field) (pl : payload) (v : pbc_value) (c : call).

















End contract.

(** ** What is computed *)

Section calls.
Context {Var : Type}.
Implicit Types (p : pbc_env Var) (d : _field Var) (f : field) (pl : payload).












(** ** Packed fields *)












(** ** The fields of a message *)






End calls.

(** ** A message *)





